(* ===== verification/_CoqProject ===== *)
-Q . S2P
Prelude.v
Monad.v
State.v
Memory.v
Support.v
Paging.v
Files.v
Signals.v
FileCalls.v
VmCalls.v
Sockets.v
Process.v
Boot.v
Dispatch.v
Paths.v
MemFacts.v
AddressSpace.v
Isolation.v
BuildSpace.v
UserMem.v
SpaceProps.v
ForkCopy.v
FrameLemmas.v
Rings.v
KInv.v
KInvCalls.v
Machine.v
Fuel.v
FuelCalls.v
SchedProps.v
CallProps.v
ForkProps.v
CString.v
CStringProps.v
CStdlib.v
CStdlibProps.v
CMalloc.v
CMallocProps.v
CMallocCalls.v
CStdio.v
CStdioProps.v
V2Opcode.v
V2Csr.v
V2Translate.v
V2Interp.v
V2Word.v
V2Wf.v
V2Total.v
V2Trap.v
V2User.v
V2Run.v
V2Demo.v
MzObj.v
V2Mnemonic.v
V2AsmExpr.v
V2AsmSource.v
V2AsmPasses.v
V2AsmExprProps.v
V2AsmRound.v
V2AsmAgree.v
V2AsmImage.v
V2AsmDemo.v
ObjWriter.v
Mzld.v
ObjProps.v
MzldLink.v
MzldProps.v
V1Memory.v
V1Alu.v
V1AluProps.v
V1Machine.v
V1Exec.v
V1Props.v
V1Mmu.v
V1Trap.v
HostFs.v
HostFsProps.v
Launcher.v
LauncherProps.v
CUnix.v
