(* ===== verification/Prelude.v ===== *)
(** * Maize: a verification library for its kernel, C runtime, tools and machines

    Maize is a virtual machine with its own operating system and tool chain.
    This library covers seven of its parts.

    - quesOS (os/quesos/quesos.c with the assembly half
      os/quesos/quesos_boot.mazm), the kernel that runs on the machine.  It
      gives each of up to 24 processes an Sv48 address space, a table of 16
      descriptors over shared open-file descriptions, pipes and Unix-domain
      sockets over a pool of 48 rings, POSIX signals with job control, and
      fork, execve and wait.
    - The C runtime library the programs are linked with (toolchain/rt):
      strings, characters and memory blocks, numbers, sorting, exit, the
      allocator, which asks the kernel for memory, buffered streams with the
      printf family and sscanf, directories, time and program search.
    - The first-generation machine (src/cpu.cpp, src/maize_cpu.h), on which
      quesOS runs: block-mapped memory, subregisters and an ALU with deferred
      flags, Sv48 translation behind two caches, traps, interrupts, a timer,
      ports, the instructions and the power loop.
    - The second-generation machine (src/v2): instruction table, registers,
      memory, control registers, devices, Sv48 translation with its cache,
      decoder and interpreter.
    - The tools between a source text and a running program: mzasm, the
      assembler of the second machine (src/v2/mzasm.h and its sources), the object writer of
      mazm, the assembler of the first (src/mazm.cpp), the object format
      (src/maize_obj.h) and mzld, the linker (src/mzld.cpp), whose executables
      the kernel loads.
    - The host file-system core (src/hostfs/hostfs_core.c), which serves the
      native file calls of a guest from the host directories it was granted.
    - The launcher of the first machine (src/maize.cpp), which reads the
      configuration and the command line, builds the mount table, loads the
      image and writes the process-start block.

    Each is modelled as functions on an explicit state, and the library
    proves what makes it correct.

    ** The kernel and its model

    The kernel is one C file of global tables.  The trampolines of
    quesos_boot.mazm enter it on a system call, a timer, console or keyboard
    interrupt, or a page fault; each entry runs to the point where control
    leaves the C code for good: a process is entered, the CPU idles, or the
    machine is powered off.  The model keeps this shape.

    - Prelude (this file): machine integers with their wrap-around, mask
      tests, record update, loops.
    - Monad: a kernel computation is a function from a state to an outcome
      and a state; the outcome is a returned value or the reason control did
      not come back ([Enter], [PowerOff], [IdlePark], [IdleSpin], and the
      failures [KernelFault], [Wild], [Spin], a loop that does not end, and
      [OutOfFuel], a loop or recursion that used up the turns the model gives
      it).  The logic: [steps R m]
      (every run relates its states by the preorder [R]), equations for
      symbolic execution.
    - State: the constants, [struct pcb], [struct ofd], [struct pipe_obj],
      [struct unix_bind] as records, the static storage as [kst], and [Host],
      the interface to what lies below the kernel: native file calls, console,
      clock, framebuffer and keyboard ports.  Every theorem holds for every
      host; the end of Dispatch has one, on which witnesses are evaluated.
    - Memory: physical memory, the MMU walk of src/cpu.cpp, the bulk
      accelerators of src/sys.cpp, and the kernel's own pointers.
    - Support: strings, numbers, diagnostics, path handling.
    - Paging: frames, page tables, access to user memory, up to
      [ensure_user_page].
    - Files: descriptions, descriptors, rings, readiness.
    - Signals: raising, delivering, stopping, reaping, [schedule].  The C
      functions are mutually recursive through forward declarations; here
      they take the forward-declared ones as a record, and [kernel] ties the
      knot with a bound on the call depth ([DEPTH] is 128).
    - FileCalls, VmCalls, Sockets, Process: the system-call handlers.
    - Boot: environment and argument capture, [spawn], [quesos_main].
    - Dispatch: the system-call switch, the interrupts, the page fault.

    Definitions keep the C names.  A function of the C file is a definition
    or, where it is long, a definition with named parts in the same order.
    Every system call of the dispatcher is modelled with all its branches.

    ** The C runtime and its model

    - The end of Prelude: a C loop is a step function on its variables,
      iterated.  [while] makes up to 2^64 steps, more than a 64-bit counter or address can
      count, and is [None] beyond them; its rule asks for a measure, so a
      result proved with it includes that the loop ends.
    - CString: string.c, strings.c and ctype.c over a process's memory, with
      the kernel's bulk calls as an interface ([Accel] and its laws).
    - CStdlib: numbers, random numbers, qsort, atexit and exit of stdlib.c.
    - CMalloc: the allocator of stdlib.c, its free list threaded through the
      heap; the kernel's brk and bigalloc are an interface with laws.
    - CStdio: stdio.c with the descriptor wrappers below it.  A stream is a
      record with its buffer's bytes, an operation maps a stream and the world
      behind the system calls to the same; formats and strings are byte
      lists, argument lists the slots va_arg reads.  The system calls and the
      allocator are an interface ([Sys], with [SysLaws] and [AllocLaws]).
      The loops of fwrite and fread take one unit of fuel per byte, one more
      than they need on a stream with a buffer; the format walk takes one per
      byte of the format.
    - CUnix: dirent.c, time.c, and of unistd.c and errno.c what does more than
      pass a call on ([UnixSys] has the further system calls).

    ** The first-generation machine and its model

    - V1Memory: [memory_module] with its block map, direct-mapped block cache
      and current block.
    - V1Alu: the subregister tables, the ALU functions, [run_alu], the
      descriptor of deferred flags, the conditions.
    - V1Machine: the file's globals as the record [cpu], computations that
      return or stop with one of the code's exceptions, register and memory
      operands, translation, traps, interrupts, timer, ports and control
      registers.  Devices, native calls and the input source are an interface
      ([V1Host]).
    - V1Exec: the dispatch table, one definition per handler, the preamble of
      each instruction, and [run] as passes between parks.
    - The end of V1Trap: a machine without devices, on which witnesses are
      evaluated.

    ** The second-generation machine and its model

    - V2Opcode: the instruction table, the registers, memory and the trap
      records; V2Csr: the control registers and the devices;
      V2Translate: address translation and the decoder.
    - V2Interp: the machine as a record, one definition per group of
      instructions, traps, interrupts, [step] and [run_steps]; [v2_step] adds
      the host's console events between cycles.
    - V2Demo: a machine with page tables and a program, on which the
      theorems' witnesses are evaluated.

    ** The tools and their model

    - V2Mnemonic, V2AsmExpr, V2AsmSource, V2AsmPasses: mzasm's mnemonic table,
      lexer and expressions, source lines with inclusion, and the two passes.
      The files it can open are a parameter ([file_system]); the fuel bounds
      the depth of inclusion.
    - MzObj: the object format's constants and little-endian fields.
    - ObjWriter: [write_object] of mazm from the state the assembler has
      collected, [serialize_object] of mzasm; the layout of the file is shared.
    - Mzld: the linker from its inputs' bytes to the executable's.  A link is
      [Done], [Refused] with the diagnostic, or [Wild] where the code leaves a
      buffer.
    - The end of V2AsmDemo and of MzldProps: a program assembled, two modules
      linked.

    ** The host file-system core, the launcher and their model

    - HostFs: the mount table, normalisation and mount selection, the
      descriptor table and every call of a guest, as computations on the table
      and the host.  The host's operations are an interface ([Backend]).
    - Launcher: [main] of the console build from the arguments to the memory
      and the stack pointer the machine starts with, and the functions it
      calls; the host's answers are an interface ([LaunchHost]).  It uses
      V1Memory for the machine's memory and HostFs for the table.

    ** What is proved

    - Address spaces (MemFacts, AddressSpace, Isolation, BuildSpace,
      UserMem, SpaceProps).  A ghost map gives each pool frame an
      owner.  [spaces_ok] says that every process's tables are well formed
      against it.  Mapping operations keep it, and from it follow isolation
      of processes and of the kernel, agreement of the kernel's software walk
      with the MMU, the equivalence of the coalescing block writer with the
      byte loop, and the correctness of brk.
    - Rings (FrameLemmas, Rings).  A ring refines a FIFO queue.
    - The kernel invariant (FrameLemmas, KInv, KInvCalls, Machine).  [kinv]
      is kept by every function, so it
      holds in every state reachable by any interleaving of system calls,
      interrupts, faults, user code and device activity in which nothing is
      stored into the kernel image: tables keep their
      sizes, indices stored in them are in range, SIGKILL and SIGSTOP stay
      unblockable, working directories stay canonical.
    - Termination (Fuel, FuelCalls).  Every entry to the kernel ends, and by
      leaving the C code; the recursion between scheduling and signals takes
      at most two calls per live process, 49 in all, so DEPTH is never
      reached.  A loop whose end does not follow from its form has a number of
      turns computed from the state (the bytes in a ring or the room in it, 64
      pending bits and one more for delivery, the length of the string for
      path and argument loops); running out of them is [OutOfFuel], and the
      theorem says it does not happen.  The page loops over a range that ends
      in the top page of the address space do not end ([Spin]); the end of
      SpaceProps shows it.
    - Scheduling and signals (SchedProps, CallProps): round robin with the
      delivery of the chosen process's signals, handler return, the wait status against the macros of
      sys/wait.h.
    - Paths (Paths): normalisation refines a component-wise
      specification.
    - Descriptors and the dispatcher (CallProps, Machine).
    - Fork (ForkCopy, ForkProps): the child's memory is a copy.
    - Unintended (the end of CallProps): three behaviours the code does not intend.
    - Strings (CStringProps): block moves for every overlap and with or
      without the accelerators, the tokens of strtok.
    - Numbers and sorting (CStdlibProps): strtol on every string
      and base, and as the inverse of the kernel's digit loop; qsort.
    - The allocator (CMallocProps, CMallocCalls): the heap as a
      list of blocks that tiles the granted memory, the contract of each
      call with what a failing one has asked of the kernel, an invariant over
      sequences of calls, all for sizes below 2^61; and what larger sizes do.
    - Streams (CStdioProps).  The formatter puts a reference rendering
      ([rendered], with its own directive grammar and numerals), whatever the
      sink; snprintf stores what fits; sscanf reads
      numbers back.  While ferror is clear, output of any sequence of calls
      arrives once and in order and input is the file's bytes, for systems
      whose calls may be short or fail and an allocator that may refuse.  Its
      end shows a short write repeated, a failed one unreported, a caller's
      buffer freed, bytes lost by getline.
    - Directories, programs, descriptors, time (CUnix): readdir decodes the
      listings of the host file-system core, execvp tries its candidates in
      order, F_DUPFD finds the lowest descriptor, strftime stays within one
      byte of its buffer.
    - The first machine.  Its memory is a flat memory (V1Memory); the ALU with
      deferred flags computes the results and flags of the instruction
      reference, but for two flags of MUL, and comparisons decide
      the order of integers (V1AluProps); user code reaches supervisor mode
      only through a vector, and an instruction that page-faults can be
      executed again (V1Props); translation through the caches is the walk
      that the kernel's theorems use (V1Mmu); traps, saved contexts and timer
      blocks (V1Trap).  The end of V1Trap shows a user program that takes a vector over
      through its stack pointer.
    - The second machine (V2Word, V2Wf, V2Total): a well-formedness invariant of
      every reachable machine, and that every cycle returns.
    - Translation and traps (V2Trap): the cache against a walk without one,
      delivery and return.  User level (V2User): what a user
      program can reach.  Waiting and block copies (V2Run), wide
      arithmetic (V2Word).
    - The assembler: literals fit their fields exactly as the rules say
      (V2AsmExprProps), an encoded instruction decodes to itself (V2AsmRound),
      both passes walk through the same addresses (V2AsmAgree), so the image
      decodes to the source and targets reach their labels (V2AsmImage), for
      modules without sections that assemble without a diagnostic, whose
      origins move forward and whose image is shorter than 2^64 (a target that
      adds a symbol to a number is excepted); assembling ends whatever the files
      include, given that finitely many can be read (V2AsmDemo).
    - Objects (ObjProps): the linker reads back what the writers
      wrote, for files under 4 GiB and names without NUL.
    - The linker (MzldLink, MzldProps): sections
      get aligned addresses of their own, relocations get the addresses their
      symbols denote, and the loader's functions find every byte in the
      executable, when the sections fit in the address space.  The end of
      MzldProps shows what an exported absolute symbol and a small constant do.
    - The host file-system core (HostFsProps): a path is resolved as in Paths
      and handed to the deepest mount that covers it; over any sequence of
      requests and for any host, what the host is asked for stays inside the
      mounts and their modes, and, when the host's handles are fresh, the open
      handles are those of the descriptors.  The table is a grant of distinct
      canonical prefixes.
    - The launcher (LauncherProps): an executable of the linker is loaded as
      the linker laid it out, the process-start block reads back, the last
      environment entry of a key wins, and a guest's mounts are those its
      operator granted or the sandbox directory, so that the previous theorem
      applies to it when their guest paths are canonical.  A grant
      whose guest path is not canonical is accepted, is no mount of any path,
      and can make the listing of the root ask for a name outside it.

    ** What is not modelled

    In the kernel's model user code is an arbitrary change of memory between
    two entries, and the saved register block is read and written in user
    memory where the trampolines put it; the composition with the first
    machine's instructions is not made.  The native file system and the
    devices are the [Host].  A kernel access outside the
    identity-mapped ranges goes through the walk and may fault; an index
    outside a table is the outcome [Wild] instead of a read of neighbouring
    memory.  The kernel's static tables are fields of the state and not bytes
    of the memory: a store into the image, which user code cannot make but the
    kernel makes for a user pointer that names it, changes the tables of the
    real kernel and only the memory here, so that the theorems over runs
    exclude such steps ([image_untouched] in Machine).

    Of the first machine: floating point ([FloatingPoint] stands for those
    instructions), the JIT, the profiler and the counters, the host's threads
    (an interrupt raised by another thread is an input of the park), devices
    and native calls behind the interface.

    Of the runtime: the wrappers that only pass a system call on, termios,
    fabs, the environment functions, mkstemp and atof; the arithmetic of
    doubles in sscanf is a parameter ([Double]).  A format or string that
    changes under a call, as with overlapping buffers, is outside the model of
    stdio.  Of the second machine: floating
    point and nop, which the code itself does not implement, the fixtures'
    host accessors, the command line of mzvm; a run without a step budget.

    Of the tools: the command lines, and mazm but for its object writer.

    Of the host file system: the two backends, which are calls of the host.
    Of the launcher: the graphical build, the help text, the attachment of the
    devices, and what happens when the run is over.

    The first machine's devices, the compiler and the user programs are other
    parts of the repository and are not covered. *)
From Stdlib Require Import ZArith Lia Bool.
From stdpp Require Import base list numbers.

Declare Scope quesos_scope.
Delimit Scope quesos_scope with ques.
Global Open Scope Z_scope.
Global Open Scope quesos_scope.

(** ** Machine integers

    Every C integer is a [Z]; the width is written out as a reduction.  [u8],
    [u16], [u32] and [u64] are the unsigned conversions, [i16], [i32] and
    [i64] (C's [long]) the two's-complement ones. *)

Definition u8 (z : Z) : Z := z mod 2 ^ 8.
Definition u16 (z : Z) : Z := z mod 2 ^ 16.
Definition u32 (z : Z) : Z := z mod 2 ^ 32.
Definition u64 (z : Z) : Z := z mod 2 ^ 64.
Definition i16 (z : Z) : Z := (z + 2 ^ 15) mod 2 ^ 16 - 2 ^ 15.
Definition i32 (z : Z) : Z := (z + 2 ^ 31) mod 2 ^ 32 - 2 ^ 31.
Definition i64 (z : Z) : Z := (z + 2 ^ 63) mod 2 ^ 64 - 2 ^ 63.

(** In range a conversion changes nothing. *)
Lemma u64_small x : 0 <= x < 2 ^ 64 -> u64 x = x.
Proof. intros. unfold u64. by rewrite Z.mod_small. Qed.
Lemma i32_small x : - 2 ^ 31 <= x < 2 ^ 31 -> i32 x = x.
Proof. intros. unfold i32. rewrite Z.mod_small; lia. Qed.
Lemma i64_small x : - 2 ^ 63 <= x < 2 ^ 63 -> i64 x = x.
Proof. intros. unfold i64. rewrite Z.mod_small; lia. Qed.
Lemma i64_range v : - 2 ^ 63 <= i64 v < 2 ^ 63.
Proof. unfold i64. pose proof (Z.mod_pos_bound (v + 2 ^ 63) (2 ^ 64)). lia. Qed.
Lemma i32_range v : - 2 ^ 31 <= i32 v < 2 ^ 31.
Proof. unfold i32. pose proof (Z.mod_pos_bound (v + 2 ^ 31) (2 ^ 32)). lia. Qed.
Lemma u64_range v : 0 <= u64 v < 2 ^ 64.
Proof. apply Z.mod_pos_bound. lia. Qed.
Lemma u32_range v : 0 <= u32 v < 2 ^ 32.
Proof. apply Z.mod_pos_bound. lia. Qed.

(** [x & m] is non-zero: the C truth value of a mask test. *)
Definition has (x m : Z) : bool := negb (Z.land x m =? 0).

(** C's [1ul << n]. *)
Definition bit (n : Z) : Z := Z.shiftl 1 n.

(** [x & ~m]. *)
Definition clr (x m : Z) : Z := Z.ldiff x m.

(** A mask of one bit tests that bit. *)
Lemma has_bit x k : 0 <= k -> has x (2 ^ k) = Z.testbit x k.
Proof.
  intros Hk. unfold has. destruct (Z.testbit x k) eqn:E; apply not_true_iff_false || idtac.
  - destruct (Z.eqb_spec (Z.land x (2 ^ k)) 0) as [H0|]; [|done].
    assert (Z.testbit (Z.land x (2 ^ k)) k = true) by (rewrite Z.land_spec, E, Z.pow2_bits_true by lia; done).
    rewrite H0, Z.bits_0 in H. done.
  - destruct (Z.eqb_spec (Z.land x (2 ^ k)) 0) as [|Hne]; [done|]. exfalso. apply Hne.
    apply Z.bits_inj'. intros i Hi. rewrite Z.land_spec, Z.bits_0, Z.pow2_bits_eqb by lia.
    destruct (Z.eqb_spec k i) as [<-|]; [by rewrite E|apply andb_false_r].
Qed.

(** A word and its low byte: the step of every little-endian field. *)
Lemma lor_byte_shift b v : 0 <= b < 256 -> Z.lor b (Z.shiftl v 8) = b + v * 256.
Proof.
  intros Hb. assert (Hl : Z.land b (Z.shiftl v 8) = 0).
  { rewrite <- (Z.mod_small b (2 ^ 8)) by done. rewrite <- Z.land_ones by lia. apply Z.bits_inj'. intros i Hi.
    rewrite !Z.land_spec, Z.shiftl_spec, Z.bits_0, Z.testbit_ones_nonneg by lia. destruct (Z.ltb_spec i 8); [|by rewrite andb_false_r].
    by rewrite (Z.testbit_neg_r _ (i - 8)), andb_false_r by lia. }
  rewrite <- Z.lxor_lor, <- Z.add_nocarry_lxor by done. rewrite Z.shiftl_mul_pow2 by lia. lia.
Qed.
Lemma low_byte_lor v n : Z.lor (Z.land v 255) (Z.shiftl (Z.shiftr v 8 mod 2 ^ (8 * Z.of_nat n)) 8) = v mod 2 ^ (8 * Z.of_nat (S n)).
Proof.
  change 255 with (Z.ones 8). rewrite Z.land_ones, lor_byte_shift by (lia || (apply Z.mod_pos_bound; lia)).
  rewrite Z.shiftr_div_pow2 by lia. replace (8 * Z.of_nat (S n)) with (8 + 8 * Z.of_nat n) by lia.
  rewrite Z.pow_add_r, Z.rem_mul_r by lia. lia.
Qed.

(** ** Record update

    [r <| f := v |>] is [r] with field [f] replaced.  A record provides the
    instances by naming its eta expansion once; the tactic abstracts the
    projection out of it. *)

Class Setter {R T : Type} (proj : R -> T) : Type := setter : T -> R -> R.

Notation "r <| f := v |>" := (setter (proj := f) v r)
  (at level 1, left associativity, format "r  <| f  :=  v |>") : quesos_scope.

Ltac mk_setter eta :=
  lazymatch goal with
  | |- @Setter _ _ ?proj =>
      unfold Setter; intros v r;
      let e := eval hnf in (eta r) in
      let q := constr:(proj r) in
      lazymatch eval pattern q in e with
      | ?f _ => let t := eval cbv beta in (f v) in exact t
      end
  end.

(** ** Loops

    A [while] loop of the library is a step function on its variables: it
    goes on with new values ([inl]) or leaves with a result ([inr]).
    [iterate k] takes at most [2 ^ k] steps; [while] is [iterate 64], more
    steps than there are addresses or values of a 64-bit counter, and is
    [None] when they are not enough.  The rule [while_spec] asks for an
    invariant and a measure, so what is proved with it includes that the loop
    ends. *)

Fixpoint iterate {S R : Type} (k : nat) (f : S -> S + R) (s : S) : S + R :=
  match k with
  | O => f s
  | S k' => match iterate k' f s with inl s' => iterate k' f s' | inr r => inr r end
  end.

Definition while {S R : Type} (f : S -> S + R) (s : S) : option R :=
  match iterate 64 f s with inl _ => None | inr r => Some r end.

Section Rule.
Context {S R : Type} (f : S -> S + R).

(** [I s z]: the state is good and at most [z] steps remain. *)
Lemma iterate_spec (I : S -> Z -> Prop) (Q : R -> Prop) :
  (forall s z, I s z -> match f s with inl s' => exists z', I s' z' /\ 0 <= z' < z | inr r => Q r end) ->
  forall k s z, I s z -> 0 <= z ->
  match iterate k f s with
  | inl s' => exists z', I s' z' /\ 0 <= z' <= z - 2 ^ Z.of_nat k
  | inr r => Q r
  end.
Proof.
  intros step. induction k as [|k IH]; intros s z Hs Hz; cbn [iterate].
  - specialize (step s z Hs). destruct (f s); [|done]. destruct step as (z' & ? & ?). exists z'.
    change (2 ^ Z.of_nat 0) with 1. split; [done|lia].
  - pose proof (IH s z Hs Hz) as H1. destruct (iterate k f s) as [s1|r]; [|done].
    destruct H1 as (z1 & Hs1 & Hz1). pose proof (IH s1 z1 Hs1 ltac:(lia)) as H2.
    destruct (iterate k f s1) as [s2|r]; [|done]. destruct H2 as (z2 & Hs2 & Hz2). exists z2. split; [done|].
    rewrite Nat2Z.inj_succ, Z.pow_succ_r by lia. lia.
Qed.

Lemma while_steps (I : S -> Z -> Prop) (Q : R -> Prop) s z :
  (forall s z, I s z -> match f s with inl s' => exists z', I s' z' /\ 0 <= z' < z | inr r => Q r end) ->
  I s z -> 0 <= z < 2 ^ 64 -> exists r, while f s = Some r /\ Q r.
Proof.
  intros step Hs Hz. pose proof (iterate_spec I Q step 64 s z Hs ltac:(lia)) as H1. unfold while.
  destruct (iterate 64 f s) as [s'|r]; [|by exists r]. destruct H1 as (z' & _ & H1).
  change (Z.of_nat 64) with 64 in H1. lia.
Qed.

(** With an invariant and a measure. *)
Lemma while_spec (I : S -> Prop) (measure : S -> Z) (Q : R -> Prop) s :
  (forall s, I s -> match f s with inl s' => I s' /\ 0 <= measure s' < measure s | inr r => Q r end) ->
  I s -> 0 <= measure s < 2 ^ 64 -> exists r, while f s = Some r /\ Q r.
Proof.
  intros step Hs Hm. apply (while_steps (fun s z => I s /\ z = measure s) Q s (measure s)); [|done|done].
  intros s1 z [Hs1 ->]. specialize (step s1 Hs1). destruct (f s1) as [s2|]; [|done].
  exists (measure s2). destruct step. done.
Qed.

(** A loop whose states are known: it passes through [st 0], [st 1], ...,
    [st n] and leaves there. *)
Lemma while_run (st : Z -> S) n r s : s = st 0 -> 0 <= n < 2 ^ 64 ->
  (forall k, 0 <= k < n -> f (st k) = inl (st (k + 1))) -> f (st n) = inr r -> while f s = Some r.
Proof.
  intros -> Hn Hgo Hend.
  destruct (while_steps (fun s z => exists k, 0 <= k <= n /\ s = st k /\ z = n - k) (eq r) (st 0) n) as (r' & E & <-).
  - intros s z (k & Hk & -> & ->). destruct (Z.eq_dec k n) as [->|Hne]; [by rewrite Hend|].
    rewrite Hgo by lia. exists (n - (k + 1)). split; [exists (k + 1); split; [lia|]; done|lia].
  - exists 0. split; [lia|]. split; [done|lia].
  - done.
  - done.
Qed.
End Rule.

(** Running an optional computation whose first part is known. *)
Lemma bind_some {A B} (o : option A) (f : A -> option B) a : o = Some a -> o ≫= f = f a.
Proof. by intros ->. Qed.
Lemma bind_pair {A B R} (o : option (A * B)) (f : A -> B -> option R) a b :
  o = Some (a, b) -> (o ≫= fun '(x, y) => f x y) = f a b.
Proof. by intros ->. Qed.
Lemma bind_triple {A B C R} (o : option (A * B * C)) (f : A -> B -> C -> option R) a b c :
  o = Some (a, b, c) -> (o ≫= fun '(x, y, z) => f x y z) = f a b c.
Proof. by intros ->. Qed.
Lemma bind_quad {A B C D R} (o : option (A * B * C * D)) (f : A -> B -> C -> D -> option R) a b c d :
  o = Some (a, b, c, d) -> (o ≫= fun '(x, y, z, w) => f x y z w) = f a b c d.
Proof. by intros ->. Qed.

(** The bound is a number of steps, not a term to unfold. *)
#[global] Opaque while.
