(* ===== verification/Monad.v ===== *)
(** * Kernel computations

    The kernel is C code that threads global state, returns error codes, and
    at many points never returns at all: it enters a process, parks the CPU or
    powers the machine off.  A computation is a function from a state to an
    outcome and a final state; the outcome is the returned value or the reason
    control did not come back.  The final state is kept in both cases, because
    a call that never returns (a system call that blocks) has effects that
    later steps depend on. *)
From Stdlib Require Import ZArith Lia.
From stdpp Require Import base list numbers.
From S2P Require Import Prelude.

(** Why control left the C code. *)
Inductive halt : Type :=
  | Enter (i : nat)        (* quesos_switch_to(&g_proc[i]): IRET into process i *)
  | PowerOff               (* quesos_poweroff *)
  | IdlePark               (* quesos_idle: interrupts on, HALT *)
  | IdleSpin               (* quesos_idle_spin: interrupts on, spin *)
  | KernelFault (va : Z)   (* a supervisor access to an unmapped address *)
  | Wild                   (* an array index outside its table *)
  | Spin (va n : Z)        (* the page loop over [va, va + n) cannot end: its last page is the
                              top one, so that pv <= last holds of every page *)
  | OutOfFuel.             (* the bound on a recursion or on a loop was too small *)

#[export] Instance halt_eq_dec : EqDecision halt.
Proof. solve_decision. Defined.

Inductive outcome (A : Type) : Type :=
  | Ret (a : A)
  | Stop (h : halt).
Arguments Ret {A} a.
Arguments Stop {A} h.

Definition M (St A : Type) : Type := St -> outcome A * St.

Section Ops.
Context {St : Type}.

Global Instance M_ret : MRet (M St) := fun A a s => (Ret a, s).
Global Instance M_bind : MBind (M St) := fun A B f m s =>
  match m s with
  | (Ret a, s') => f a s'
  | (Stop h, s') => (Stop h, s')
  end.

Definition get : M St St := fun s => (Ret s, s).
Definition gets {A} (f : St -> A) : M St A := fun s => (Ret (f s), s).
Definition modify (f : St -> St) : M St unit := fun s => (Ret tt, f s).
Definition stop {A} (h : halt) : M St A := fun s => (Stop h, s).

(** [when b m]: C's [if (b) { m }]. *)
Definition when (b : bool) (m : M St unit) : M St unit :=
  if b then m else mret tt.

(** [for (i = lo; i < lo + n; ++i) body]. *)
Fixpoint for_ (lo n : nat) (body : nat -> M St unit) : M St unit :=
  match n with
  | O => mret tt
  | S n' => body lo ;; for_ (S lo) n' body
  end.

(** The same loop with an early exit: the body returns [Some r] to leave the
    loop with [r], [None] to go on. *)
Fixpoint for_break {A} (lo n : nat) (body : nat -> M St (option A)) : M St (option A) :=
  match n with
  | O => mret None
  | S n' =>
      r ← body lo;
      match r with
      | Some a => mret (Some a)
      | None => for_break (S lo) n' body
      end
  end.

End Ops.

(** ** Reasoning

    [triple P m Q E]: from a state in [P], a run of [m] that returns [a]
    ends in a state in [Q a], and one that stops for reason [h] ends in
    [E h]. *)
Definition triple {St A} (P : St -> Prop) (m : M St A)
    (Q : A -> St -> Prop) (E : halt -> St -> Prop) : Prop :=
  forall s, P s ->
    match m s with
    | (Ret a, s') => Q a s'
    | (Stop h, s') => E h s'
    end.

(** [steps R m]: whatever [m] does, the final state is [R]-related to the
    first.  For a preorder [R] this composes along [bind] and loops, which is
    how frame and monotonicity facts are proved. *)
Definition steps {St A} (R : St -> St -> Prop) (m : M St A) : Prop :=
  forall s, R s (snd (m s)).

Section Logic.
Context {St : Type}.
Implicit Types (P : St -> Prop) (E : halt -> St -> Prop).

Lemma triple_ret {A} P (a : A) (Q : A -> St -> Prop) E :
  (forall s, P s -> Q a s) -> triple P (mret a) Q E.
Proof. intros H s Hs. exact (H s Hs). Qed.

Lemma triple_bind {A B} P (m : M St A) (f : A -> M St B)
    (Q : A -> St -> Prop) (Q' : B -> St -> Prop) E :
  triple P m Q E -> (forall a, triple (Q a) (f a) Q' E) ->
  triple P (m ≫= f) Q' E.
Proof.
  intros Hm Hf s Hs. unfold mbind, M_bind. specialize (Hm s Hs).
  destruct (m s) as [[a|h] s']; [exact (Hf a s' Hm) | exact Hm].
Qed.

Lemma triple_conseq {A} P P' (m : M St A) (Q Q' : A -> St -> Prop) E E' :
  triple P m Q E -> (forall s, P' s -> P s) ->
  (forall a s, Q a s -> Q' a s) -> (forall h s, E h s -> E' h s) ->
  triple P' m Q' E'.
Proof.
  intros H HP HQ HE s Hs. specialize (H s (HP s Hs)).
  destruct (m s) as [[a|h] s']; auto.
Qed.

Lemma triple_conj {A} P1 P2 (m : M St A) (Q1 Q2 : A -> St -> Prop) E1 E2 :
  triple P1 m Q1 E1 -> triple P2 m Q2 E2 ->
  triple (fun s => P1 s /\ P2 s) m (fun a s => Q1 a s /\ Q2 a s)
    (fun h s => E1 h s /\ E2 h s).
Proof.
  intros H1 H2 s [Hs1 Hs2]. specialize (H1 s Hs1). specialize (H2 s Hs2).
  destruct (m s) as [[a|h] s']; auto.
Qed.

Lemma triple_get P (Q : St -> St -> Prop) E :
  (forall s, P s -> Q s s) -> triple P get Q E.
Proof. intros H s Hs. exact (H s Hs). Qed.

Lemma triple_gets {A} P (f : St -> A) (Q : A -> St -> Prop) E :
  (forall s, P s -> Q (f s) s) -> triple P (gets f) Q E.
Proof. intros H s Hs. exact (H s Hs). Qed.

Lemma triple_modify P (f : St -> St) (Q : unit -> St -> Prop) E :
  (forall s, P s -> Q tt (f s)) -> triple P (modify f) Q E.
Proof. intros H s Hs. exact (H s Hs). Qed.

Lemma triple_stop {A} P h (Q : A -> St -> Prop) E :
  (forall s, P s -> E h s) -> triple P (stop h) Q E.
Proof. intros H s Hs. exact (H s Hs). Qed.

(** A loop keeps an invariant indexed by the loop counter. *)
Lemma triple_for (I : nat -> St -> Prop) E lo n body :
  (forall i, (lo <= i < lo + n)%nat -> triple (I i) (body i) (fun _ => I (S i)) E) ->
  triple (I lo) (for_ lo n body) (fun _ => I (lo + n)%nat) E.
Proof.
  revert lo. induction n as [|n IH]; intros lo Hb; simpl.
  - apply triple_ret. intros s Hs. by rewrite Nat.add_0_r.
  - eapply triple_bind; [apply Hb; lia|]. intros [].
    eapply triple_conseq; [apply IH| | |]; try done.
    + intros i Hi. apply Hb. lia.
    + intros [] s. by rewrite <- Nat.add_succ_comm.
Qed.

Section Steps.
Context (R : St -> St -> Prop) `{!PreOrder R}.

Lemma steps_ret {A} (a : A) : steps R (mret a).
Proof. intros s. reflexivity. Qed.

Lemma steps_bind {A B} (m : M St A) (f : A -> M St B) :
  steps R m -> (forall a, steps R (f a)) -> steps R (m ≫= f).
Proof.
  intros Hm Hf s. unfold mbind, M_bind. specialize (Hm s).
  destruct (m s) as [[a|h] s']; simpl in *; [|done].
  etrans; [exact Hm | apply Hf].
Qed.

Lemma steps_get : steps R get.
Proof. intros s. reflexivity. Qed.

Lemma steps_gets {A} (f : St -> A) : steps R (gets f).
Proof. intros s. reflexivity. Qed.

Lemma steps_stop {A} h : steps R (stop (A := A) h).
Proof. intros s. reflexivity. Qed.

Lemma steps_modify f : (forall s, R s (f s)) -> steps R (modify f).
Proof. intros H s. apply H. Qed.

Lemma steps_when b m : steps R m -> steps R (when b m).
Proof. intros H. destruct b; [done | apply steps_ret]. Qed.

Lemma steps_for lo n body : (forall i, steps R (body i)) -> steps R (for_ lo n body).
Proof.
  intros H. revert lo. induction n as [|n IH]; intros lo; simpl.
  - apply steps_ret.
  - apply steps_bind; [apply H|]. intros []. apply IH.
Qed.

Lemma steps_for_break {A} lo n (body : nat -> M St (option A)) :
  (forall i, steps R (body i)) -> steps R (for_break lo n body).
Proof.
  intros H. revert lo. induction n as [|n IH]; intros lo; simpl.
  - apply steps_ret.
  - apply steps_bind; [apply H|]. intros [a|]; [apply steps_ret | apply IH].
Qed.

End Steps.

(** Rewriting equations for symbolic execution. *)
Lemma bind_ret_run {A B} (m : M St A) (f : A -> M St B) s a s' :
  m s = (Ret a, s') -> (m ≫= f) s = f a s'.
Proof. intros H. unfold mbind, M_bind. by rewrite H. Qed.

Lemma bind_stop_run {A B} (m : M St A) (f : A -> M St B) s h s' :
  m s = (Stop h, s') -> (m ≫= f) s = (Stop h, s').
Proof. intros H. unfold mbind, M_bind. by rewrite H. Qed.

Lemma bind_assoc_run {A B C} (m : M St A) (f : A -> M St B) (g : B -> M St C) s :
  ((m ≫= f) ≫= g) s = (m ≫= fun a => f a ≫= g) s.
Proof. unfold mbind, M_bind. by destruct (m s) as [[a|h] s']. Qed.

Lemma bind_mret {A B} (a : A) (f : A -> M St B) s : (mret a ≫= f) s = f a s.
Proof. reflexivity. Qed.
Lemma bind_get {B} (f : St -> M St B) s : (get ≫= f) s = f s s.
Proof. reflexivity. Qed.
Lemma bind_gets {A B} (g : St -> A) (f : A -> M St B) s : (gets g ≫= f) s = f (g s) s.
Proof. reflexivity. Qed.
Lemma bind_modify {B} (g : St -> St) (f : unit -> M St B) s : (modify g ≫= f) s = f tt (g s).
Proof. reflexivity. Qed.
Lemma bind_stop {A B} h (f : A -> M St B) s : (stop h ≫= f) s = (Stop h, s).
Proof. reflexivity. Qed.
Lemma bind_skip {B} (m : M St unit) (f : unit -> M St B) s : (when false m ≫= f) s = f tt s.
Proof. reflexivity. Qed.
Lemma bind_do {B} (m : M St unit) (f : unit -> M St B) s : (when true m ≫= f) s = (m ≫= f) s.
Proof. reflexivity. Qed.

End Logic.

(** The equations of the primitives, for symbolic execution by [run]. *)
Create Rewrite HintDb run.
#[export] Hint Rewrite @bind_mret @bind_get @bind_gets @bind_modify @bind_stop @bind_skip @bind_do
  @bind_assoc_run : run.
Ltac run := repeat (progress (autorewrite with run; cbn beta iota)).

(** [steps] facts are closed by this database: structural rules first, then
    the lemma of each operation. *)
Create HintDb steps discriminated.
#[export] Hint Resolve steps_ret steps_get steps_gets steps_stop : steps.

Ltac steps_tac :=
  repeat first
    [ progress intros
    | lazymatch goal with
      | |- steps _ (mret _) => apply steps_ret; typeclasses eauto
      | |- steps _ get => apply steps_get; typeclasses eauto
      | |- steps _ (gets _) => apply steps_gets; typeclasses eauto
      | |- steps _ (stop _) => apply steps_stop; typeclasses eauto
      | |- steps _ (_ ≫= _) => apply steps_bind; [typeclasses eauto | |]
      | |- steps _ (when _ _) => apply steps_when; [typeclasses eauto |]
      | |- steps _ (for_ _ _ _) => apply steps_for; [typeclasses eauto |]
      | |- steps _ (for_break _ _ _) => apply steps_for_break; [typeclasses eauto |]
      | |- steps _ (if ?b then _ else _) => destruct b
      | |- steps _ (match ?x with _ => _ end) => destruct x
      | |- steps _ (let '(_, _) := ?x in _) => destruct x
      end
    | solve [ eauto with steps ] ].
