(* ===== verification/State.v ===== *)
(** * The kernel's state

    The constants, structures and globals of os/quesos/quesos.c, the physical
    memory they describe, and the interface to what the kernel calls outside
    itself: the native system calls, the device ports and the context switch.

    Conventions.  A [struct] is a record whose fields carry the C names with a
    one-letter prefix (p_ for pcb, o_ for ofd, q_ for pipe_obj, b_ for
    unix_bind); the file-scope variables keep their g_ names.  A pointer into
    a table is the index of its entry.  A NUL-terminated [char] array is the
    list of the bytes before the NUL, and the code that fills one truncates at
    the array's capacity.  The kernel's globals are kept apart from the
    physical memory; the memory holds the frames, the page tables and the user
    pages. *)
From Stdlib Require Import ZArith Lia Bool.
From stdpp Require Import base list numbers.
From S2P Require Import Prelude Monad.

(** ** Constants *)

Definition TRAP_TABLE_PA : Z := 0x00001000.
Definition STACK_REGION_BASE : Z := 0x05400000.
Definition STACK_REGION_SIZE : Z := 0x00040000.
Definition USER_STACK_TOP : Z := STACK_REGION_BASE + STACK_REGION_SIZE.
Definition USER_STACK_PAGES : Z := 64.
Definition USER_BRK_MAX : Z := 0x00100000.
Definition QUESOS_IMG_BASE : Z := 0x00100000.
Definition QUESOS_IMG_TOP : Z := 0x00200000.
Definition FB_MMAP_BASE : Z := 0x00200000.
Definition BIGALLOC_BASE : Z := 0x00400000.
Definition BIGALLOC_MAX : Z := 16 * 1024 * 1024.
Definition POOL_BASE : Z := 0x01400000.
Definition POOL_SUPERPAGES : Z := 32.
Definition POOL_TOP : Z := POOL_BASE + POOL_SUPERPAGES * 0x200000.
Definition PAGE_SIZE : Z := 0x1000.

Definition PTE_V : Z := 0x1.
Definition PTE_R : Z := 0x2.
Definition PTE_W : Z := 0x4.
Definition PTE_X : Z := 0x8.
Definition PTE_U : Z := 0x10.
Definition PTE_KERNEL : Z := 0xF.
Definition PTE_USER : Z := 0x1F.

Definition RF_INT_ENABLED : Z := bit 33.
Definition RF_RUNNING : Z := bit 35.
Definition RF_SYSCALL_GUEST : Z := bit 36.
Definition USER_RF : Z := Z.lor (Z.lor RF_INT_ENABLED RF_RUNNING) RF_SYSCALL_GUEST.

Definition CON_STAT_INPUT : Z := 0x1.
Definition CON_STAT_EOF : Z := 0x4.
Definition CON_STAT_WAKE : Z := 0x8.

Definition TERMIOS_WIRE_SIZE : Z := 36.
Definition WINSIZE_WIRE_SIZE : Z := 8.
Definition TIO_ISIG : Z := 0x1.
Definition TIO_ICANON : Z := 0x2.
Definition TIO_TOSTOP : Z := 0x100.
Definition TERMIOS_OFF_LFLAG : Z := 12.
Definition STAT_WIRE_SIZE : Z := 144.
Definition QOS_O_DIRECTORY : Z := 0x10000.

Definition SIGHUP : Z := 1.
Definition SIGINT : Z := 2.
Definition SIGQUIT : Z := 3.
Definition SIGKILL : Z := 9.
Definition SIGSEGV : Z := 11.
Definition SIGTERM : Z := 15.
Definition SIGCHLD : Z := 17.
Definition SIGCONT : Z := 18.
Definition SIGSTOP : Z := 19.
Definition SIGTSTP : Z := 20.
Definition SIGTTIN : Z := 21.
Definition SIGTTOU : Z := 22.

(** [1ul << (sig - 1)]: a signal's bit in [pending] and [blocked]. *)
Definition sigbit (sig : Z) : Z := bit (sig - 1).

Definition QOS_STOP_SIG_MASK : Z :=
  Z.lor (Z.lor (Z.lor (sigbit SIGTSTP) (sigbit SIGTTIN)) (sigbit SIGTTOU)) (sigbit SIGSTOP).
Definition QOS_IS_STOP_SIG (s : Z) : bool :=
  (s =? SIGTSTP) || (s =? SIGTTIN) || (s =? SIGTTOU) || (s =? SIGSTOP).
Definition QOS_DFL_IS_IGNORE (s : Z) : bool := (s =? SIGCHLD) || (s =? SIGCONT).

Definition AF_UNIX : Z := 1.
Definition SOCK_STREAM : Z := 1.
Definition QOS_ENOENT : Z := 2.
Definition QOS_ESRCH : Z := 3.
Definition QOS_EINTR : Z := 4.
Definition QOS_EIO : Z := 5.
Definition QOS_ENOEXEC : Z := 8.
Definition QOS_EBADF : Z := 9.
Definition QOS_EAGAIN : Z := 11.
Definition QOS_ENOMEM : Z := 12.
Definition QOS_EACCES : Z := 13.
Definition QOS_EFAULT : Z := 14.
Definition QOS_EBUSY : Z := 16.
Definition QOS_ENODEV : Z := 19.
Definition QOS_EINVAL : Z := 22.
Definition QOS_ENOSPC : Z := 28.
Definition QOS_ENOSYS : Z := 38.
Definition QOS_EPROTONOSUPPORT : Z := 93.
Definition QOS_EAFNOSUPPORT : Z := 97.
Definition QOS_EADDRINUSE : Z := 98.
Definition QOS_ECONNREFUSED : Z := 111.

Definition QUESOS_FB_MAX_SLOTS : Z := 8.
Definition QUESOS_MAX_PROC : nat := 24.
Definition QUESOS_PATH_CAP : Z := 256.
Definition QUESOS_MAX_FD : Z := 16.
Definition QUESOS_IOBUF_CAP : Z := 4096.
Definition QUESOS_BULK_MIN : Z := 256.
Definition MZX_HEADER_SIZE : Z := 24.
Definition MZX_SEGMENT_SIZE : Z := 40.
Definition QUESOS_MAX_ARG : Z := 32.
Definition QUESOS_ARGBUF : Z := 4096.
Definition QUESOS_MAX_ENV : Z := QUESOS_MAX_ARG - 1.
Definition QUESOS_ENVBUF : Z := QUESOS_ARGBUF.
Definition QUESOS_BOOT_ARGBUF : Z := 4096.
Definition QUESOS_MAX_OFD : nat := 128.
Definition QUESOS_MAX_PIPE : nat := 48.
Definition PIPE_CAP : Z := 4096.
Definition QUESOS_MAX_UNIX_BIND : nat := 8.
Definition QUESOS_MAX_UNIX_BACKLOG : Z := 8.

(** ** Structures *)

Inductive proc_state : Type := P_FREE | P_RUNNABLE | P_BLOCKED | P_ZOMBIE | P_STOPPED.
#[export] Instance proc_state_eq_dec : EqDecision proc_state.
Proof. solve_decision. Defined.

Inductive blk : Type :=
  | BLK_NONE | BLK_WAIT | BLK_PIPE_R | BLK_PIPE_W | BLK_CONSOLE
  | BLK_CONNECT | BLK_ACCEPT | BLK_POLL | BLK_SIGSUSPEND.
#[export] Instance blk_eq_dec : EqDecision blk.
Proof. solve_decision. Defined.

Inductive ofd_kind : Type :=
  | OFD_FREE | OFD_NATIVE | OFD_PIPE_R | OFD_PIPE_W | OFD_RESVD | OFD_SOCK | OFD_SOCK_LISTEN.
#[export] Instance ofd_kind_eq_dec : EqDecision ofd_kind.
Proof. solve_decision. Defined.

Record pcb : Type := mkPcb {
  p_saved_rs : Z;
  p_root_pa : Z;
  p_l0_pa : Z;
  p_l1_pa : Z;
  p_pid : Z;
  p_parent : Z;
  p_state : proc_state;
  p_exit_status : Z;
  p_wait_for : Z;
  p_wait_status_uva : Z;
  p_block_kind : blk;
  p_block_pipe : Z;
  p_block_buf : Z;
  p_block_count : Z;
  p_fd : list Z;
  p_fb_slot : Z;
  p_pgid : Z;
  p_pending : Z;
  p_blocked : Z;
  p_suspend_mask_save : Z;
  p_handler : list Z;
  p_term_signal : Z;
  p_stop_signal : Z;
  p_stop_reported : bool;
  p_sig_saved_rs : Z;
  p_in_handler : bool;
  p_path : list Z;
  p_cwd : list Z;
  p_brk_cur : Z;
  p_termios_img : list Z;
  p_termios_valid : bool;
  p_poll_fds_uva : Z;
  p_poll_nfds : Z;
  p_poll_mode : Z;
  p_poll_r_uva : Z;
  p_poll_w_uva : Z;
  p_poll_e_uva : Z;
  p_poll_r_bits : Z;
  p_poll_w_bits : Z;
  p_poll_deadline_ms : Z;
  p_fb_mmap_va : Z;
  p_bigalloc_next : Z
}.

Definition pcb_eta (r : pcb) : pcb :=
  mkPcb (p_saved_rs r) (p_root_pa r) (p_l0_pa r) (p_l1_pa r) (p_pid r)
    (p_parent r) (p_state r) (p_exit_status r) (p_wait_for r)
    (p_wait_status_uva r) (p_block_kind r) (p_block_pipe r) (p_block_buf r)
    (p_block_count r) (p_fd r) (p_fb_slot r) (p_pgid r) (p_pending r)
    (p_blocked r) (p_suspend_mask_save r) (p_handler r) (p_term_signal r)
    (p_stop_signal r) (p_stop_reported r) (p_sig_saved_rs r) (p_in_handler r)
    (p_path r) (p_cwd r) (p_brk_cur r) (p_termios_img r) (p_termios_valid r)
    (p_poll_fds_uva r) (p_poll_nfds r) (p_poll_mode r) (p_poll_r_uva r)
    (p_poll_w_uva r) (p_poll_e_uva r) (p_poll_r_bits r) (p_poll_w_bits r)
    (p_poll_deadline_ms r) (p_fb_mmap_va r) (p_bigalloc_next r).
#[export] Instance set_p_saved_rs : Setter p_saved_rs := ltac:(mk_setter pcb_eta).
#[export] Instance set_p_root_pa : Setter p_root_pa := ltac:(mk_setter pcb_eta).
#[export] Instance set_p_l0_pa : Setter p_l0_pa := ltac:(mk_setter pcb_eta).
#[export] Instance set_p_l1_pa : Setter p_l1_pa := ltac:(mk_setter pcb_eta).
#[export] Instance set_p_pid : Setter p_pid := ltac:(mk_setter pcb_eta).
#[export] Instance set_p_parent : Setter p_parent := ltac:(mk_setter pcb_eta).
#[export] Instance set_p_state : Setter p_state := ltac:(mk_setter pcb_eta).
#[export] Instance set_p_exit_status : Setter p_exit_status := ltac:(mk_setter pcb_eta).
#[export] Instance set_p_wait_for : Setter p_wait_for := ltac:(mk_setter pcb_eta).
#[export] Instance set_p_wait_status_uva : Setter p_wait_status_uva := ltac:(mk_setter pcb_eta).
#[export] Instance set_p_block_kind : Setter p_block_kind := ltac:(mk_setter pcb_eta).
#[export] Instance set_p_block_pipe : Setter p_block_pipe := ltac:(mk_setter pcb_eta).
#[export] Instance set_p_block_buf : Setter p_block_buf := ltac:(mk_setter pcb_eta).
#[export] Instance set_p_block_count : Setter p_block_count := ltac:(mk_setter pcb_eta).
#[export] Instance set_p_fd : Setter p_fd := ltac:(mk_setter pcb_eta).
#[export] Instance set_p_fb_slot : Setter p_fb_slot := ltac:(mk_setter pcb_eta).
#[export] Instance set_p_pgid : Setter p_pgid := ltac:(mk_setter pcb_eta).
#[export] Instance set_p_pending : Setter p_pending := ltac:(mk_setter pcb_eta).
#[export] Instance set_p_blocked : Setter p_blocked := ltac:(mk_setter pcb_eta).
#[export] Instance set_p_suspend_mask_save : Setter p_suspend_mask_save := ltac:(mk_setter pcb_eta).
#[export] Instance set_p_handler : Setter p_handler := ltac:(mk_setter pcb_eta).
#[export] Instance set_p_term_signal : Setter p_term_signal := ltac:(mk_setter pcb_eta).
#[export] Instance set_p_stop_signal : Setter p_stop_signal := ltac:(mk_setter pcb_eta).
#[export] Instance set_p_stop_reported : Setter p_stop_reported := ltac:(mk_setter pcb_eta).
#[export] Instance set_p_sig_saved_rs : Setter p_sig_saved_rs := ltac:(mk_setter pcb_eta).
#[export] Instance set_p_in_handler : Setter p_in_handler := ltac:(mk_setter pcb_eta).
#[export] Instance set_p_path : Setter p_path := ltac:(mk_setter pcb_eta).
#[export] Instance set_p_cwd : Setter p_cwd := ltac:(mk_setter pcb_eta).
#[export] Instance set_p_brk_cur : Setter p_brk_cur := ltac:(mk_setter pcb_eta).
#[export] Instance set_p_termios_img : Setter p_termios_img := ltac:(mk_setter pcb_eta).
#[export] Instance set_p_termios_valid : Setter p_termios_valid := ltac:(mk_setter pcb_eta).
#[export] Instance set_p_poll_fds_uva : Setter p_poll_fds_uva := ltac:(mk_setter pcb_eta).
#[export] Instance set_p_poll_nfds : Setter p_poll_nfds := ltac:(mk_setter pcb_eta).
#[export] Instance set_p_poll_mode : Setter p_poll_mode := ltac:(mk_setter pcb_eta).
#[export] Instance set_p_poll_r_uva : Setter p_poll_r_uva := ltac:(mk_setter pcb_eta).
#[export] Instance set_p_poll_w_uva : Setter p_poll_w_uva := ltac:(mk_setter pcb_eta).
#[export] Instance set_p_poll_e_uva : Setter p_poll_e_uva := ltac:(mk_setter pcb_eta).
#[export] Instance set_p_poll_r_bits : Setter p_poll_r_bits := ltac:(mk_setter pcb_eta).
#[export] Instance set_p_poll_w_bits : Setter p_poll_w_bits := ltac:(mk_setter pcb_eta).
#[export] Instance set_p_poll_deadline_ms : Setter p_poll_deadline_ms := ltac:(mk_setter pcb_eta).
#[export] Instance set_p_fb_mmap_va : Setter p_fb_mmap_va := ltac:(mk_setter pcb_eta).
#[export] Instance set_p_bigalloc_next : Setter p_bigalloc_next := ltac:(mk_setter pcb_eta).

Record ofd : Type := mkOfd {
  o_kind : ofd_kind;
  o_native_fd : Z;
  o_pipe_idx : Z;
  o_peer_idx : Z;
  o_refcount : Z
}.

Definition ofd_eta (r : ofd) : ofd :=
  mkOfd (o_kind r) (o_native_fd r) (o_pipe_idx r) (o_peer_idx r) (o_refcount r).
#[export] Instance set_o_kind : Setter o_kind := ltac:(mk_setter ofd_eta).
#[export] Instance set_o_native_fd : Setter o_native_fd := ltac:(mk_setter ofd_eta).
#[export] Instance set_o_pipe_idx : Setter o_pipe_idx := ltac:(mk_setter ofd_eta).
#[export] Instance set_o_peer_idx : Setter o_peer_idx := ltac:(mk_setter ofd_eta).
#[export] Instance set_o_refcount : Setter o_refcount := ltac:(mk_setter ofd_eta).

Record pipe_obj : Type := mkPipe {
  q_used : bool;
  q_readers : Z;
  q_writers : Z;
  q_r : Z;
  q_w : Z;
  q_count : Z;
  q_buf : list Z
}.

Definition pipe_obj_eta (r : pipe_obj) : pipe_obj :=
  mkPipe (q_used r) (q_readers r) (q_writers r) (q_r r) (q_w r) (q_count r)
    (q_buf r).
#[export] Instance set_q_used : Setter q_used := ltac:(mk_setter pipe_obj_eta).
#[export] Instance set_q_readers : Setter q_readers := ltac:(mk_setter pipe_obj_eta).
#[export] Instance set_q_writers : Setter q_writers := ltac:(mk_setter pipe_obj_eta).
#[export] Instance set_q_r : Setter q_r := ltac:(mk_setter pipe_obj_eta).
#[export] Instance set_q_w : Setter q_w := ltac:(mk_setter pipe_obj_eta).
#[export] Instance set_q_count : Setter q_count := ltac:(mk_setter pipe_obj_eta).
#[export] Instance set_q_buf : Setter q_buf := ltac:(mk_setter pipe_obj_eta).

Record unix_bind : Type := mkBind {
  b_used : bool;
  b_path : list Z;
  b_listening : bool;
  b_backlog : Z;
  b_pending_pid : list Z;
  b_pending_ofd : list Z;
  b_pending_head : Z;
  b_pending_tail : Z;
  b_pending_count : Z
}.

Definition unix_bind_eta (r : unix_bind) : unix_bind :=
  mkBind (b_used r) (b_path r) (b_listening r) (b_backlog r) (b_pending_pid r)
    (b_pending_ofd r) (b_pending_head r) (b_pending_tail r)
    (b_pending_count r).
#[export] Instance set_b_used : Setter b_used := ltac:(mk_setter unix_bind_eta).
#[export] Instance set_b_path : Setter b_path := ltac:(mk_setter unix_bind_eta).
#[export] Instance set_b_listening : Setter b_listening := ltac:(mk_setter unix_bind_eta).
#[export] Instance set_b_backlog : Setter b_backlog := ltac:(mk_setter unix_bind_eta).
#[export] Instance set_b_pending_pid : Setter b_pending_pid := ltac:(mk_setter unix_bind_eta).
#[export] Instance set_b_pending_ofd : Setter b_pending_ofd := ltac:(mk_setter unix_bind_eta).
#[export] Instance set_b_pending_head : Setter b_pending_head := ltac:(mk_setter unix_bind_eta).
#[export] Instance set_b_pending_tail : Setter b_pending_tail := ltac:(mk_setter unix_bind_eta).
#[export] Instance set_b_pending_count : Setter b_pending_count := ltac:(mk_setter unix_bind_eta).

Record kst (H : Type) : Type := mkKst {
  g_mem : Z -> Z;
  g_cr0 : option Z;
  g_pool_next : Z;
  g_proc : list pcb;
  g_current : option nat;
  g_next_pid : Z;
  g_ofd : list ofd;
  g_pipe : list pipe_obj;
  g_unix_bind : list unix_bind;
  g_stdio_ofd : list Z;
  g_fg_pgid : Z;
  g_tty_isig : bool;
  g_tty_tostop : bool;
  g_iobuf : list Z;
  g_arg_strbuf : list Z;
  g_arg_off : list Z;
  g_arg_argc : Z;
  g_arg_envc : Z;
  g_arg_pack : Z;
  g_pathbuf : list (list Z);
  g_worklist_count : Z;
  g_boot_envbuf : list Z;
  g_boot_env_off : list Z;
  g_boot_env_pack : Z;
  g_init_path : list Z;
  g_init_path_set : bool;
  g_verbose : bool;
  g_boot_argstrbuf : list Z;
  g_boot_arg_off : list Z;
  g_boot_entry_argc : list Z;
  g_boot_entry_start : list Z;
  g_pf_in_handler : bool;
  g_host : H
}.
Arguments g_mem {H} _.
Arguments g_cr0 {H} _.
Arguments g_pool_next {H} _.
Arguments g_proc {H} _.
Arguments g_current {H} _.
Arguments g_next_pid {H} _.
Arguments g_ofd {H} _.
Arguments g_pipe {H} _.
Arguments g_unix_bind {H} _.
Arguments g_stdio_ofd {H} _.
Arguments g_fg_pgid {H} _.
Arguments g_tty_isig {H} _.
Arguments g_tty_tostop {H} _.
Arguments g_iobuf {H} _.
Arguments g_arg_strbuf {H} _.
Arguments g_arg_off {H} _.
Arguments g_arg_argc {H} _.
Arguments g_arg_envc {H} _.
Arguments g_arg_pack {H} _.
Arguments g_pathbuf {H} _.
Arguments g_worklist_count {H} _.
Arguments g_boot_envbuf {H} _.
Arguments g_boot_env_off {H} _.
Arguments g_boot_env_pack {H} _.
Arguments g_init_path {H} _.
Arguments g_init_path_set {H} _.
Arguments g_verbose {H} _.
Arguments g_boot_argstrbuf {H} _.
Arguments g_boot_arg_off {H} _.
Arguments g_boot_entry_argc {H} _.
Arguments g_boot_entry_start {H} _.
Arguments g_pf_in_handler {H} _.
Arguments g_host {H} _.
Arguments mkKst {H}.

Definition kst_eta {H} (r : (kst H)) : (kst H) :=
  mkKst r.(g_mem) r.(g_cr0) r.(g_pool_next) r.(g_proc) r.(g_current)
    r.(g_next_pid) r.(g_ofd) r.(g_pipe) r.(g_unix_bind) r.(g_stdio_ofd)
    r.(g_fg_pgid) r.(g_tty_isig) r.(g_tty_tostop) r.(g_iobuf)
    r.(g_arg_strbuf) r.(g_arg_off) r.(g_arg_argc) r.(g_arg_envc)
    r.(g_arg_pack) r.(g_pathbuf) r.(g_worklist_count) r.(g_boot_envbuf)
    r.(g_boot_env_off) r.(g_boot_env_pack) r.(g_init_path)
    r.(g_init_path_set) r.(g_verbose) r.(g_boot_argstrbuf) r.(g_boot_arg_off)
    r.(g_boot_entry_argc) r.(g_boot_entry_start) r.(g_pf_in_handler)
    r.(g_host).
#[export] Instance set_g_mem {H} : Setter (@g_mem H) := ltac:(mk_setter (@kst_eta H)).
#[export] Instance set_g_cr0 {H} : Setter (@g_cr0 H) := ltac:(mk_setter (@kst_eta H)).
#[export] Instance set_g_pool_next {H} : Setter (@g_pool_next H) := ltac:(mk_setter (@kst_eta H)).
#[export] Instance set_g_proc {H} : Setter (@g_proc H) := ltac:(mk_setter (@kst_eta H)).
#[export] Instance set_g_current {H} : Setter (@g_current H) := ltac:(mk_setter (@kst_eta H)).
#[export] Instance set_g_next_pid {H} : Setter (@g_next_pid H) := ltac:(mk_setter (@kst_eta H)).
#[export] Instance set_g_ofd {H} : Setter (@g_ofd H) := ltac:(mk_setter (@kst_eta H)).
#[export] Instance set_g_pipe {H} : Setter (@g_pipe H) := ltac:(mk_setter (@kst_eta H)).
#[export] Instance set_g_unix_bind {H} : Setter (@g_unix_bind H) := ltac:(mk_setter (@kst_eta H)).
#[export] Instance set_g_stdio_ofd {H} : Setter (@g_stdio_ofd H) := ltac:(mk_setter (@kst_eta H)).
#[export] Instance set_g_fg_pgid {H} : Setter (@g_fg_pgid H) := ltac:(mk_setter (@kst_eta H)).
#[export] Instance set_g_tty_isig {H} : Setter (@g_tty_isig H) := ltac:(mk_setter (@kst_eta H)).
#[export] Instance set_g_tty_tostop {H} : Setter (@g_tty_tostop H) := ltac:(mk_setter (@kst_eta H)).
#[export] Instance set_g_iobuf {H} : Setter (@g_iobuf H) := ltac:(mk_setter (@kst_eta H)).
#[export] Instance set_g_arg_strbuf {H} : Setter (@g_arg_strbuf H) := ltac:(mk_setter (@kst_eta H)).
#[export] Instance set_g_arg_off {H} : Setter (@g_arg_off H) := ltac:(mk_setter (@kst_eta H)).
#[export] Instance set_g_arg_argc {H} : Setter (@g_arg_argc H) := ltac:(mk_setter (@kst_eta H)).
#[export] Instance set_g_arg_envc {H} : Setter (@g_arg_envc H) := ltac:(mk_setter (@kst_eta H)).
#[export] Instance set_g_arg_pack {H} : Setter (@g_arg_pack H) := ltac:(mk_setter (@kst_eta H)).
#[export] Instance set_g_pathbuf {H} : Setter (@g_pathbuf H) := ltac:(mk_setter (@kst_eta H)).
#[export] Instance set_g_worklist_count {H} : Setter (@g_worklist_count H) := ltac:(mk_setter (@kst_eta H)).
#[export] Instance set_g_boot_envbuf {H} : Setter (@g_boot_envbuf H) := ltac:(mk_setter (@kst_eta H)).
#[export] Instance set_g_boot_env_off {H} : Setter (@g_boot_env_off H) := ltac:(mk_setter (@kst_eta H)).
#[export] Instance set_g_boot_env_pack {H} : Setter (@g_boot_env_pack H) := ltac:(mk_setter (@kst_eta H)).
#[export] Instance set_g_init_path {H} : Setter (@g_init_path H) := ltac:(mk_setter (@kst_eta H)).
#[export] Instance set_g_init_path_set {H} : Setter (@g_init_path_set H) := ltac:(mk_setter (@kst_eta H)).
#[export] Instance set_g_verbose {H} : Setter (@g_verbose H) := ltac:(mk_setter (@kst_eta H)).
#[export] Instance set_g_boot_argstrbuf {H} : Setter (@g_boot_argstrbuf H) := ltac:(mk_setter (@kst_eta H)).
#[export] Instance set_g_boot_arg_off {H} : Setter (@g_boot_arg_off H) := ltac:(mk_setter (@kst_eta H)).
#[export] Instance set_g_boot_entry_argc {H} : Setter (@g_boot_entry_argc H) := ltac:(mk_setter (@kst_eta H)).
#[export] Instance set_g_boot_entry_start {H} : Setter (@g_boot_entry_start H) := ltac:(mk_setter (@kst_eta H)).
#[export] Instance set_g_pf_in_handler {H} : Setter (@g_pf_in_handler H) := ltac:(mk_setter (@kst_eta H)).
#[export] Instance set_g_host {H} : Setter (@g_host H) := ltac:(mk_setter (@kst_eta H)).

(** Static storage is zero-initialised. *)
Definition pcb_zero : pcb :=
  mkPcb 0 0 0 0 0 0 P_FREE 0 0 0 BLK_NONE 0 0 0 (replicate 16 0) 0 0 0 0 0
    (replicate 32 0) 0 0 false 0 false [] [] 0 (replicate 36 0) false
    0 0 0 0 0 0 0 0 0 0 0.
Definition ofd_zero : ofd := mkOfd OFD_FREE 0 0 0 0.
Definition pipe_zero : pipe_obj := mkPipe false 0 0 0 0 0 (replicate 4096 0).
Definition bind_zero : unix_bind :=
  mkBind false [] false 0 (replicate 8 0) (replicate 8 0) 0 0 0.

(** The kernel image as loaded, over a host [h]: static storage zeroed, the
    pool empty, paging off. *)
Definition kst_boot {H : Type} (h : H) : kst H :=
  mkKst (fun _ => 0) None POOL_BASE (replicate QUESOS_MAX_PROC pcb_zero) None 1
    (replicate QUESOS_MAX_OFD ofd_zero) (replicate QUESOS_MAX_PIPE pipe_zero)
    (replicate QUESOS_MAX_UNIX_BIND bind_zero) [0; 0; 0] 0 true false
    (replicate 4096 0) [] [] 0 0 0 [] 0 [] [] 0 [] false false [] [] [] [] false h.

(** ** The host

    What the kernel reaches outside its own C code: the native provider behind
    its SYS stubs, and the device ports behind quesos_boot.mazm's IN and OUT
    helpers.  None of it is under the kernel's control, so it is a parameter:
    a type of host states with one operation per call.  A call that fills a
    buffer returns the bytes it stored. *)
Class Host (H : Type) : Type := {
  h_open : list Z -> Z -> Z -> H -> Z * H;
  h_read : Z -> Z -> H -> (Z * list Z) * H;
  h_write : Z -> list Z -> H -> Z * H;
  h_close : Z -> H -> Z * H;
  h_fstat : Z -> H -> (Z * list Z) * H;
  h_lseek : Z -> Z -> Z -> H -> Z * H;
  h_getdents64 : Z -> Z -> H -> (Z * list Z) * H;
  h_unlink : list Z -> H -> Z * H;
  h_mkdir : list Z -> Z -> H -> Z * H;
  h_rename : list Z -> list Z -> H -> Z * H;
  h_ftruncate : Z -> Z -> H -> Z * H;
  h_tcgetattr : Z -> H -> (Z * list Z) * H;
  h_tcsetattr : Z -> Z -> list Z -> H -> Z * H;
  h_ttysize : Z -> H -> (Z * list Z) * H;
  h_clock_ms : H -> Z * H;
  h_con_status : H -> Z;
  h_con_data : H -> Z * H;
  h_fb_width : H -> Z;
  h_fb_height : H -> Z;
  h_fb_format : H -> Z;
  h_fb_slot_select : Z -> H -> H;
  h_fb_base_read : H -> Z;
  h_fb_base_write : Z -> H -> H;
  h_fb_status_read : H -> Z;
  h_fb_present : H -> H;
  h_fb_activate_read : H -> Z;
  h_kbd_status : H -> Z;
  h_kbd_read : H -> Z * H;
  h_arm_timer : H -> H;
  (* the bytes between quesos_sigreturn_tramp and quesos_sigreturn_tramp_end *)
  h_sigreturn_tramp : list Z
}.

(** ** Access to the state *)
Section Access.
Context {H : Type} `{Host H}.
Abbreviation K := (M (kst H)).

(** A host call, with its effect on the host threaded. *)
Definition host {A} (f : H -> A * H) : K A := fun s =>
  let '(a, h) := f (g_host s) in (Ret a, s <| g_host := h |>).
Definition host_ (f : H -> H) : K unit := modify (fun s => s <| g_host := f (g_host s) |>).
Definition host_get {A} (f : H -> A) : K A := gets (fun s => f (g_host s)).

Definition getp (i : nat) : K pcb := fun s =>
  match g_proc s !! i with Some p => (Ret p, s) | None => (Stop Wild, s) end.
Definition modp (i : nat) (f : pcb -> pcb) : K unit := fun s =>
  match g_proc s !! i with
  | Some p => (Ret tt, s <| g_proc := <[i := f p]> (g_proc s) |>)
  | None => (Stop Wild, s)
  end.

(** [g_current], dereferenced: a null pointer is a wild access. *)
Definition current : K nat := fun s =>
  match g_current s with Some i => (Ret i, s) | None => (Stop Wild, s) end.

(** A table indexed by a C [int]: a negative index is out of range as well. *)
Definition zlookup {A} (l : list A) (i : Z) : option A :=
  if i <? 0 then None else l !! Z.to_nat i.
Definition zinsert {A} (i : Z) (a : A) (l : list A) : list A := <[Z.to_nat i := a]> l.
Lemma zlookup_zinsert {A} (l : list A) i (a b : A) : zlookup l i = Some a -> zlookup (zinsert i b l) i = Some b.
Proof.
  unfold zlookup, zinsert. destruct (i <? 0); [done|]. intros E.
  rewrite list_lookup_insert_eq; [done|by eapply lookup_lt_Some].
Qed.

Definition geto (i : Z) : K ofd := fun s =>
  match zlookup (g_ofd s) i with Some o => (Ret o, s) | None => (Stop Wild, s) end.
Definition modo (i : Z) (f : ofd -> ofd) : K unit := fun s =>
  match zlookup (g_ofd s) i with
  | Some o => (Ret tt, s <| g_ofd := zinsert i (f o) (g_ofd s) |>)
  | None => (Stop Wild, s)
  end.
Definition getq (i : Z) : K pipe_obj := fun s =>
  match zlookup (g_pipe s) i with Some o => (Ret o, s) | None => (Stop Wild, s) end.
Definition modq (i : Z) (f : pipe_obj -> pipe_obj) : K unit := fun s =>
  match zlookup (g_pipe s) i with
  | Some o => (Ret tt, s <| g_pipe := zinsert i (f o) (g_pipe s) |>)
  | None => (Stop Wild, s)
  end.
Definition getb (i : Z) : K unix_bind := fun s =>
  match zlookup (g_unix_bind s) i with Some o => (Ret o, s) | None => (Stop Wild, s) end.
Definition modb (i : Z) (f : unix_bind -> unix_bind) : K unit := fun s =>
  match zlookup (g_unix_bind s) i with
  | Some o => (Ret tt, s <| g_unix_bind := zinsert i (f o) (g_unix_bind s) |>)
  | None => (Stop Wild, s)
  end.

(** [a[i]] for an array read at a C index; the caller states the bound. *)
Definition zget (l : list Z) (i : Z) : Z := default 0 (zlookup l i).

End Access.
