(* ===== verification/Memory.v ===== *)
(** * Physical memory and the Sv48 walk

    Memory is a total function from physical byte addresses: the machine's
    address space is sparse and every address is defined.  Words are
    little-endian.  [sv48_walk] is the MMU (src/cpu.cpp); [kptr] is what the
    kernel, running in supervisor mode under a process's page table, reaches
    through a pointer.  [sys_bulk_copy], [sys_bulk_set] and
    [sys_palette_blit] are the native accelerators of src/sys.cpp, which take
    flat physical addresses. *)
From Stdlib Require Import ZArith Lia Bool.
From stdpp Require Import base list numbers.
From S2P Require Import Prelude Monad State.

Abbreviation mem := (Z -> Z).

Fixpoint load (n : nat) (m : mem) (a : Z) : Z :=
  match n with
  | O => 0
  | S n' => m a + 256 * load n' m (a + 1)
  end.

Definition in_range (a n x : Z) : bool := (a <=? x) && (x <? a + n).

Definition store (n : Z) (m : mem) (a v : Z) : mem := fun x =>
  if in_range a n x then (v / 256 ^ (x - a)) mod 256 else m x.

(** Fill and copy of a whole range; the copy reads all of the source first. *)
Definition mem_fill (m : mem) (a n v : Z) : mem := fun x =>
  if in_range a n x then v else m x.
Definition mem_copy (m : mem) (dst src n : Z) : mem := fun x =>
  if in_range dst n x then m (src + (x - dst)) else m x.
(** The bytes [l] stored from [a] on. *)
Definition mem_write (m : mem) (a : Z) (l : list Z) : mem := fun x =>
  if in_range a (Z.of_nat (length l)) x then zget l (x - a) else m x.

Inductive access_kind : Type := Fetch | Load | Store.

Definition leaf_permits (kind : access_kind) (privilege r w x u : bool) : bool :=
  match kind with Fetch => x | Load => r | Store => w end && (privilege || u).

(** One level of the walk; [level] counts down to 0.  [None] is a page
    fault. *)
Fixpoint sv48_level (m : mem) (va : Z) (kind : access_kind) (privilege : bool)
    (level : nat) (table_base : Z) : option Z :=
  let sh := 12 + Z.of_nat level * 9 in
  let vpn := Z.land (Z.shiftr va sh) 0x1FF in
  let pte := load 8 m (u64 (table_base + vpn * 8)) in
  if negb (has pte 0x1) then None else
  let r := has pte 0x2 in let w := has pte 0x4 in
  let x := has pte 0x8 in let u := has pte 0x10 in
  if r || w || x then
    if w && negb r then None else
    let offset_mask := bit sh - 1 in
    if has pte (clr offset_mask 0xFFF) then None else
    if negb (leaf_permits kind privilege r w x u) then None else
    Some (Z.lor (clr pte 0xFFF) (Z.land va offset_mask))
  else
    match level with
    | O => None
    | S level' => sv48_level m va kind privilege level' (clr pte 0xFFF)
    end.

Definition sv48_walk (m : mem) (root va : Z) (kind : access_kind) (privilege : bool) : option Z :=
  sv48_level m va kind privilege 3 (clr root 0xFFF).

(** The ranges every process table maps to themselves, supervisor only. *)
Definition kernel_identity (a : Z) : bool :=
  in_range TRAP_TABLE_PA PAGE_SIZE a
  || in_range QUESOS_IMG_BASE (QUESOS_IMG_TOP - QUESOS_IMG_BASE) a
  || in_range POOL_BASE (POOL_TOP - POOL_BASE) a.

Section Memory.
Context {H : Type} `{Host H}.
Abbreviation K := (M (kst H)).

(** The physical address the kernel reaches through pointer [a].  Before the
    first context switch paging is off.  Afterwards the kernel's own ranges
    are identity-mapped in every process table, and anything else goes through
    the table loaded in CR0, where a miss is a fault in the kernel. *)
Definition kptr (kind : access_kind) (a : Z) : K Z := fun s =>
  match g_cr0 s with
  | None => (Ret a, s)
  | Some root =>
      if kernel_identity a then (Ret a, s)
      else match sv48_walk (g_mem s) root a kind true with
           | Some pa => (Ret pa, s)
           | None => (Stop (KernelFault a), s)
           end
  end.

(** [*(u8 * )a] as an rvalue and as an lvalue. *)
Definition kload8 (a : Z) : K Z := pa ← kptr Load a; gets (fun s => g_mem s pa).
Definition kstore8 (a v : Z) : K unit :=
  pa ← kptr Store a; modify (fun s => s <| g_mem := store 1 (g_mem s) pa v |>).

(** A multi-byte access is translated page by page. *)
Definition one_page (n a : Z) : bool := a mod PAGE_SIZE + n <=? PAGE_SIZE.

Fixpoint kload_bytes (n : nat) (a : Z) : K Z :=
  match n with
  | O => mret 0
  | S n' => b ← kload8 a; r ← kload_bytes n' (u64 (a + 1)); mret (b + 256 * r)
  end.
Fixpoint kstore_bytes (n : nat) (a v : Z) : K unit :=
  match n with
  | O => mret tt
  | S n' => kstore8 a (u8 v) ;; kstore_bytes n' (u64 (a + 1)) (v / 256)
  end.

Definition kload (n : nat) (a : Z) : K Z :=
  if one_page (Z.of_nat n) a
  then pa ← kptr Load a; gets (fun s => load n (g_mem s) pa)
  else kload_bytes n a.
Definition kstore (n : nat) (a v : Z) : K unit :=
  if one_page (Z.of_nat n) a
  then pa ← kptr Store a;
       modify (fun s => s <| g_mem := store (Z.of_nat n) (g_mem s) pa v |>)
  else kstore_bytes n a v.

Definition MAX_BULK_BYTES : Z := bit 28.
Definition MAX_BLIT_PIXELS : Z := bit 24.

Definition sys_bulk_copy (dst src n : Z) : K Z :=
  if n =? 0 then mret 0
  else if MAX_BULK_BYTES <? n then mret (-22)
  else if u64 (src + n) <? src then mret (-14)
  else if u64 (dst + n) <? dst then mret (-14)
  else modify (fun s => s <| g_mem := mem_copy (g_mem s) dst src n |>) ;; mret n.

Definition sys_bulk_set (dst value n : Z) : K Z :=
  if n =? 0 then mret 0
  else if MAX_BULK_BYTES <? n then mret (-22)
  else if u64 (dst + n) <? dst then mret (-14)
  else modify (fun s => s <| g_mem := mem_fill (g_mem s) dst n (u8 value) |>) ;; mret n.

(** [out32[i] = lut[src8[i]]], then [n] words stored from [dst]. *)
Definition blit (m : mem) (dst src lut n : Z) : mem := fun x =>
  if in_range dst (n * 4) x
  then let i := (x - dst) / 4 in m (lut + m (src + i) * 4 + (x - dst) mod 4)
  else m x.

Definition sys_palette_blit (dst src lut npixels : Z) : K Z :=
  if npixels =? 0 then mret 0
  else if MAX_BLIT_PIXELS <? npixels then mret (-22)
  else if u64 (src + npixels) <? src then mret (-14)
  else if u64 (lut + 1024) <? lut then mret (-14)
  else if u64 (dst + npixels * 4) <? dst then mret (-14)
  else modify (fun s => s <| g_mem := blit (g_mem s) dst src lut npixels |>) ;; mret npixels.

(** The kernel's own memcpy and memset: large requests go to the native
    accelerator, and a refusal falls through to the byte loop. *)
Fixpoint memcpy_loop (n : nat) (d s : Z) : K unit :=
  match n with
  | O => mret tt
  | S n' => b ← kload8 s; kstore8 d b ;; memcpy_loop n' (u64 (d + 1)) (u64 (s + 1))
  end.
Definition memcpy (dst src n : Z) : K unit :=
  if QUESOS_BULK_MIN <=? n
  then rv ← sys_bulk_copy dst src n;
       if rv =? n then mret tt else memcpy_loop (Z.to_nat n) dst src
  else memcpy_loop (Z.to_nat n) dst src.

Fixpoint memset_loop (n : nat) (d c : Z) : K unit :=
  match n with
  | O => mret tt
  | S n' => kstore8 d (u8 c) ;; memset_loop n' (u64 (d + 1)) c
  end.
Definition memset (dst c n : Z) : K unit :=
  if QUESOS_BULK_MIN <=? n
  then rv ← sys_bulk_set dst c n;
       if rv =? n then mret tt else memset_loop (Z.to_nat n) dst c
  else memset_loop (Z.to_nat n) dst c.

End Memory.
