(* ===== verification/Support.v ===== *)
(** * Freestanding primitives and path handling

    The string, byte-order and diagnostic helpers of quesos.c, and the path
    functions behind open, execve and chdir.  Strings are lists of non-zero
    bytes (the characters before the NUL). *)
From Stdlib Require Import ZArith Lia Bool String Ascii.
From stdpp Require Import base list numbers.
From S2P Require Import Prelude Monad State.

(** A C string literal. *)
Definition cs (s : string) : list Z :=
  map (fun c => Z.of_nat (nat_of_ascii c)) (list_ascii_of_string s).

(** The same with a trailing newline. *)
Definition csn (s : string) : list Z := cs s ++ [10].

(** The string that starts at offset [off] of a packed buffer: the bytes up to
    the first NUL. *)
Fixpoint until_nul (l : list Z) : list Z :=
  match l with
  | [] => []
  | c :: l' => if c =? 0 then [] else c :: until_nul l'
  end.
Definition cstr_at (buf : list Z) (off : Z) : list Z := until_nul (drop (Z.to_nat off) buf).

(** Bounded copy into a [char] array of [cap] bytes, terminator included. *)
Definition cap_copy (cap : Z) (s : list Z) : list Z := take (Z.to_nat (cap - 1)) s.

Definition rd_u16 (b : list Z) (off : Z) : Z :=
  u16 (Z.lor (zget b off) (Z.shiftl (zget b (off + 1)) 8)).

(** [for (i = 7; i >= 0; --i) v = (v << 8) | b[off + i]] *)
Fixpoint rd_u64_loop (i : nat) (b : list Z) (off v : Z) : Z :=
  match i with
  | O => v
  | S i' => rd_u64_loop i' b off (Z.lor (u64 (Z.shiftl v 8)) (zget b (off + Z.of_nat i')))
  end.
Definition rd_u64 (b : list Z) (off : Z) : Z := rd_u64_loop 8 b off 0.

Section Console.
Context {H : Type} `{Host H}.
Abbreviation K := (M (kst H)).

Definition qos_puts (s : list Z) : K unit := host (h_write 1 s) ;; mret tt.

(** [while (v > 0 && i < 24) { tmp[i++] = '0' + v % 10; v /= 10; }], the digits
    least significant first. *)
Fixpoint u64_digits (fuel : nat) (v : Z) : list Z :=
  match fuel with
  | O => []
  | S f => if v <=? 0 then [] else (48 + v mod 10) :: u64_digits f (v / 10)
  end.
Fixpoint put_each (l : list Z) : K unit :=
  match l with
  | [] => mret tt
  | c :: l' => host (h_write 1 [c]) ;; put_each l'
  end.
Definition qos_put_u64 (v : Z) : K unit :=
  if v =? 0 then host (h_write 1 (cs "0")) ;; mret tt
  else put_each (rev (u64_digits 24 v)).

Definition hex_digit (nib : Z) : Z := if nib <? 10 then 48 + nib else 97 + nib - 10.
Definition hex64 (v : Z) : list Z :=
  cs "0x" ++ map (fun i => hex_digit (Z.land (Z.shiftr v (60 - 4 * Z.of_nat i)) 0xF)) (seq 0 16).
Definition qos_put_hex64 (v : Z) : K unit := host (h_write 1 (hex64 v)) ;; mret tt.

End Console.

(** ** Paths *)

Definition slash : Z := 47.
Definition dot : Z := 46.

(** [n > 0 && out[n - 1] == '/'] *)
Definition ends_in_slash (out : list Z) : bool :=
  match rev out with c :: _ => c =? slash | [] => false end.

Definition join_path (base inp : list Z) : list Z :=
  if match inp with c :: _ => c =? slash | [] => false end then cap_copy QUESOS_PATH_CAP inp
  else
    let out := cap_copy QUESOS_PATH_CAP base in
    let out :=
      if ends_in_slash out then out
      else if Z.of_nat (length out) <? QUESOS_PATH_CAP - 1 then out ++ [slash] else out in
    out ++ take (Z.to_nat (QUESOS_PATH_CAP - 1) - length out) inp.

Fixpoint skip_seps (l : list Z) : list Z :=
  match l with
  | c :: l' => if c =? slash then skip_seps l' else l
  | [] => []
  end.
Fixpoint take_comp (l : list Z) : list Z * list Z :=
  match l with
  | [] => ([], [])
  | c :: l' => if c =? slash then ([], l)
               else let '(a, b) := take_comp l' in (c :: a, b)
  end.

(** comp_start[] has one more entry than components that can fit in out[]. *)
Definition max_comp : Z := QUESOS_PATH_CAP / 2 + 1.

(** [comp_start] is the stack of offsets, last pushed first; [n] is
    [length out]. *)
Fixpoint normalize_loop (fuel : nat) (raw : list Z) (comp_start : list nat) (out : list Z) : list Z :=
  match fuel with
  | O => out
  | S fuel' =>
      match raw with
      | [] => out
      | _ :: _ =>
          let '(comp, rest) := take_comp (skip_seps raw) in
          let seg := cap_copy QUESOS_PATH_CAP comp in
          if decide (seg = []) then normalize_loop fuel' rest comp_start out
          else if decide (seg = [dot]) then normalize_loop fuel' rest comp_start out
          else if decide (seg = [dot; dot]) then
            match comp_start with
            | [] => normalize_loop fuel' rest [] out
            | n :: comp_start' => normalize_loop fuel' rest comp_start' (take n out)
            end
          else
            let comp_start' :=
              if Z.of_nat (length comp_start) <? max_comp
              then length out :: comp_start else comp_start in
            let out1 :=
              if Z.of_nat (length out) <? QUESOS_PATH_CAP - 1 then out ++ [slash] else out in
            let out2 := out1 ++ take (Z.to_nat (QUESOS_PATH_CAP - 1) - length out1) seg in
            normalize_loop fuel' rest comp_start' out2
      end
  end.
Definition normalize_path (raw : list Z) : list Z :=
  match normalize_loop (S (length raw)) raw [] [] with
  | [] => [slash]
  | out => out
  end.

Definition path_is_dev_tty (p : list Z) : bool := bool_decide (p = cs "/dev/tty").

(** Does the environment entry [s] begin with "<key>="? *)
Fixpoint env_key_is (s key : list Z) : bool :=
  match key, s with
  | [], c :: _ => c =? 61
  | [], [] => false
  | k :: key', c :: s' => if c =? k then env_key_is s' key' else false
  | _ :: _, [] => false
  end.

Definition is_boot_sep (s : list Z) : bool := bool_decide (s = cs "--").

Example normalize_dots :
  normalize_path (cs "/a/./b//../c/..//d") = cs "/a/d".
Proof. vm_compute. reflexivity. Qed.
Example normalize_root : normalize_path (cs "/../..") = cs "/".
Proof. vm_compute. reflexivity. Qed.
