(* ===== verification/Paging.v ===== *)
(** * Frames, page tables and user memory

    The frame pool, the per-process Sv48 tables and the accessors that reach a
    process's memory through its table (quesos.c, "Physical frame + page-table
    pool" up to [ensure_user_page]).  A process is named by its index in
    g_proc. *)
From Stdlib Require Import ZArith Lia Bool String.
From stdpp Require Import base list numbers.
From S2P Require Import Prelude Monad State Memory Support.

(** The three fields of a virtual address the kernel's walk looks at. *)
Definition vpn0 (va : Z) : Z := Z.land (Z.shiftr va 12) 0x1FF.
Definition vpn1 (va : Z) : Z := Z.land (Z.shiftr va 21) 0x1FF.
(** [x & ~0xFFFul] *)
Definition page_of (a : Z) : Z := clr a 0xFFF.

Section Paging.
Context {H : Type} `{Host H}.
Abbreviation K := (M (kst H)).

Definition alloc_frame : K Z :=
  f ← gets g_pool_next;
  when (POOL_TOP <? u64 (f + PAGE_SIZE))
    (qos_puts (csn "[quesos] PANIC: out of physical frames") ;; stop PowerOff) ;;
  modify (fun s => s <| g_pool_next := u64 (g_pool_next s + PAGE_SIZE) |>) ;;
  memset f 0 PAGE_SIZE ;;
  mret f.

(** [None] is the C return value -1, [Some base] is 0 with [*out_base_pa] set. *)
Definition alloc_frames_contig (n : Z) : K (option Z) :=
  base ← gets g_pool_next;
  if n =? 0 then mret None
  else if POOL_TOP <? u64 (base + u64 (n * PAGE_SIZE)) then mret None
  else
    modify (fun s => s <| g_pool_next := u64 (g_pool_next s + u64 (n * PAGE_SIZE)) |>) ;;
    for_ 0 (Z.to_nat n) (fun i => memset (u64 (base + Z.of_nat i * PAGE_SIZE)) 0 PAGE_SIZE) ;;
    mret (Some base).

Definition pte_get (table_pa idx : Z) : K Z := kload 8 (u64 (table_pa + idx * 8)).
Definition pte_set (table_pa idx val : Z) : K unit := kstore 8 (u64 (table_pa + idx * 8)) val.

Definition build_address_space (p : nat) : K unit :=
  root ← alloc_frame;
  l2 ← alloc_frame;
  l1 ← alloc_frame;
  l0 ← alloc_frame;
  pte_set root 0 (Z.lor l2 PTE_V) ;;
  pte_set l2 0 (Z.lor l1 PTE_V) ;;
  pte_set l1 0 (Z.lor l0 PTE_V) ;;
  pte_set l0 (vpn0 TRAP_TABLE_PA) (Z.lor TRAP_TABLE_PA PTE_KERNEL) ;;
  for_ 0 256 (fun k =>
    let i := QUESOS_IMG_BASE + Z.of_nat k * PAGE_SIZE in
    pte_set l0 (vpn0 i) (Z.lor i PTE_KERNEL)) ;;
  for_ 0 32 (fun k =>
    let sp := POOL_BASE + Z.of_nat k * 0x200000 in
    pte_set l1 (vpn1 sp) (Z.lor sp PTE_KERNEL)) ;;
  modp p (fun c => c <| p_root_pa := root |> <| p_l1_pa := l1 |> <| p_l0_pa := l0 |>).

Definition ensure_l0 (p : nat) (va : Z) : K Z :=
  c ← getp p;
  e ← pte_get (p_l1_pa c) (vpn1 va);
  if has e PTE_V then mret (page_of e)
  else nl0 ← alloc_frame; pte_set (p_l1_pa c) (vpn1 va) (Z.lor nl0 PTE_V) ;; mret nl0.

Fixpoint l0_regions_loop (l1_pa r : Z) (n : nat) (needed : Z) : K Z :=
  match n with
  | O => mret needed
  | S n' =>
      e ← pte_get l1_pa (Z.land r 0x1FF);
      l0_regions_loop l1_pa (r + 1) n' (if has e PTE_V then needed else needed + 1)
  end.
Definition l0_regions_needed (p : nat) (va n : Z) : K Z :=
  c ← getp p;
  let first_region := Z.shiftr va 21 in
  let last_region := Z.shiftr (u64 (va + u64 ((n - 1) * PAGE_SIZE))) 21 in
  l0_regions_loop (p_l1_pa c) first_region (Z.to_nat (last_region - first_region + 1)) 0.

Definition va_l0 (p : nat) (va : Z) : K Z :=
  c ← getp p;
  if vpn1 va =? 0 then mret (p_l0_pa c)
  else e ← pte_get (p_l1_pa c) (vpn1 va); mret (page_of e).

Definition map_user_page (p : nat) (va frame : Z) : K unit :=
  l0 ← ensure_l0 p va;
  pte_set l0 (vpn0 va) (Z.lor (page_of frame) PTE_USER).

Definition user_pa (p : nat) (va : Z) : K Z :=
  l0 ← va_l0 p va;
  pte ← pte_get l0 (vpn0 va);
  mret (u64 (page_of pte + Z.land va 0xFFF)).

Definition as_write8 (p : nat) (va val : Z) : K unit := pa ← user_pa p va; kstore8 pa (u8 val).
Definition as_write32 (p : nat) (va val : Z) : K unit := pa ← user_pa p va; kstore 4 pa (u32 val).
Definition as_write64 (p : nat) (va val : Z) : K unit := pa ← user_pa p va; kstore 8 pa (u64 val).

Definition as_read8 (p : nat) (va : Z) : K Z := pa ← user_pa p va; kload8 pa.
Definition as_read16 (p : nat) (va : Z) : K Z :=
  a ← as_read8 p va; b ← as_read8 p (u64 (va + 1)); mret (u16 (Z.lor a (Z.shiftl b 8))).
(** [for (i = 0; i < n; ++i) v |= as_read8(p, va + i) << (8 * i)] *)
Fixpoint as_read_loop (n : nat) (p : nat) (va i v : Z) : K Z :=
  match n with
  | O => mret v
  | S n' =>
      b ← as_read8 p (u64 (va + i));
      as_read_loop n' p va (i + 1) (Z.lor v (Z.shiftl b (8 * i)))
  end.
Definition as_read32 (p : nat) (va : Z) : K Z := as_read_loop 4 p va 0 0.
Definition as_read64 (p : nat) (va : Z) : K Z := as_read_loop 8 p va 0 0.
Definition as_write16 (p : nat) (va val : Z) : K unit :=
  as_write8 p va (Z.land val 0xFF) ;;
  as_write8 p (u64 (va + 1)) (Z.land (Z.shiftr val 8) 0xFF).

(** [for (i = 0; i < n; ++i) as_write8(p, va + i, buf[i])] *)
Fixpoint as_write_list (p : nat) (va : Z) (l : list Z) : K unit :=
  match l with
  | [] => mret tt
  | b :: l' => as_write8 p va b ;; as_write_list p (u64 (va + 1)) l'
  end.

(** The page walk shared by [as_write_bytes], [as_fill_bytes] and
    [do_bulk_set]: each page of [va, va + n) is translated once, its chunk is
    clipped to the request, and physically adjacent chunks are handed to
    [emit run_pa off len] as one run, [off] being the run's offset from
    [va]. *)
Record run : Type := mkRun { run_pa : Z; run_off : Z; run_len : Z; run_next_pa : Z }.

Definition flush (emit : Z -> Z -> Z -> K unit) (r : run) : K unit :=
  when (negb (run_len r =? 0)) (emit (run_pa r) (run_off r) (run_len r)).

Fixpoint run_walk (emit : Z -> Z -> Z -> K unit) (p : nat) (va req_end pv : Z)
    (pages : nat) (r : run) : K unit :=
  match pages with
  | O => flush emit r
  | S pages' =>
      l0 ← va_l0 p pv;
      pte ← pte_get l0 (vpn0 pv);
      let page_pa := page_of pte in
      let page_end := u64 (pv + PAGE_SIZE) in
      let chunk_start := if va <? pv then pv else va in
      let chunk_end := if page_end <? req_end then page_end else req_end in
      let chunk_pa := u64 (page_pa + (chunk_start - pv)) in
      let chunk_len := u64 (chunk_end - chunk_start) in
      if negb (run_len r =? 0) && (chunk_pa =? run_next_pa r) then
        run_walk emit p va req_end (pv + PAGE_SIZE) pages'
          (mkRun (run_pa r) (run_off r) (run_len r + chunk_len) (chunk_pa + chunk_len))
      else
        flush emit r ;;
        run_walk emit p va req_end (pv + PAGE_SIZE) pages'
          (mkRun chunk_pa (chunk_start - va) chunk_len (chunk_pa + chunk_len))
  end.

(** Number of pages [pv = first; pv <= last; pv += PAGE_SIZE] visits before
    [pv] passes [last].  It never does when [last] is the top page of the
    64-bit address space: after it [pv] is 0 again. *)
Definition page_count (first last : Z) : nat := Z.to_nat ((last - first) / PAGE_SIZE + 1).
Definition LAST_PAGE : Z := 0xFFFFFFFFFFFFF000.

Definition walk_runs (emit : Z -> Z -> Z -> K unit) (p : nat) (va n : Z) : K unit :=
  if n =? 0 then mret tt
  else
    let first := page_of va in
    let last := page_of (u64 (va + n - 1)) in
    run_walk emit p va (u64 (va + n)) first (page_count first last) (mkRun 0 0 0 0) ;;
    when (last =? LAST_PAGE) (stop (Spin va n)).

(** [sys_bulk_copy(dst, src + off, len)] where [src] is the kernel buffer
    [buf]: the native copy of [len] of its bytes to physical memory. *)
Definition bulk_copy_in (buf : list Z) (dst off len : Z) : K unit :=
  if (len =? 0) || (MAX_BULK_BYTES <? len) || (u64 (dst + len) <? dst) then mret tt
  else modify (fun s =>
    s <| g_mem := mem_write (g_mem s) dst (take (Z.to_nat len) (drop (Z.to_nat off) buf)) |>).

Definition as_write_bytes (p : nat) (va : Z) (src : list Z) (n : Z) : K unit :=
  walk_runs (bulk_copy_in src) p va n.
Definition as_fill_bytes (p : nat) (va byte n : Z) : K unit :=
  walk_runs (fun pa _ len => sys_bulk_set pa byte len ;; mret tt) p va n.

Definition ensure_user_page (p : nat) (va : Z) : K unit :=
  l0 ← ensure_l0 p va;
  e ← pte_get l0 (vpn0 va);
  when (negb (has e PTE_V)) (f ← alloc_frame; map_user_page p va f).

(** [for (va = from; va < upto; va += PAGE_SIZE) ensure_user_page(p, va)] *)
Definition ensure_user_range (p : nat) (from upto : Z) : K unit :=
  for_ 0 (Z.to_nat ((upto - from + PAGE_SIZE - 1) / PAGE_SIZE))
    (fun k => ensure_user_page p (from + Z.of_nat k * PAGE_SIZE)).

End Paging.
