(* ===== verification/Files.v ===== *)
(** * Open-file descriptions, pipes and readiness

    The fd tables, the shared open-file descriptions, the ring buffers behind
    pipes and sockets, and poll/select readiness (quesos.c, "File descriptors,
    open-file descriptions, and pipes" and "Family B").  Nothing here blocks:
    the system calls that park a process are in FileCalls and Sockets. *)
From Stdlib Require Import ZArith Lia Bool String.
From stdpp Require Import base list numbers.
From S2P Require Import Prelude Monad State Memory Support Paging.

Definition POLLIN : Z := 0x1.
Definition POLLOUT : Z := 0x4.
Definition POLLERR : Z := 0x8.
Definition POLLHUP : Z := 0x10.
Definition POLLNVAL : Z := 0x20.

(** The index of the first entry of a table that satisfies [f]. *)
Fixpoint find_from {A} (f : A -> bool) (i : nat) (l : list A) : option nat :=
  match l with
  | [] => None
  | a :: l' => if f a then Some i else find_from f (S i) l'
  end.
Definition find_index {A} (f : A -> bool) (l : list A) : option nat := find_from f 0 l.

Definition is_free (o : ofd) : bool := bool_decide (o_kind o = OFD_FREE).

(** Is process [p] parked for reason [k] on object [i]? *)
Definition parked (p : pcb) (k : blk) : bool :=
  bool_decide (p_state p = P_BLOCKED) && bool_decide (p_block_kind p = k).
Definition parked_on (p : pcb) (k : blk) (i : Z) : bool := parked p k && (p_block_pipe p =? i).

Section Files.
Context {H : Type} `{Host H}.
Abbreviation K := (M (kst H)).

(** Slot of a free description, reserved; [None] is -1. *)
Definition ofd_alloc : K (option Z) :=
  i ← gets (fun s => find_index is_free (g_ofd s));
  match i with
  | None => mret None
  | Some i =>
      let z := Z.of_nat i in
      modo z (fun o => o <| o_kind := OFD_RESVD |> <| o_refcount := 0 |>
                         <| o_pipe_idx := -1 |> <| o_peer_idx := -1 |>) ;;
      mret (Some z)
  end.

Definition ofd_ref (idx : Z) : K unit :=
  when (0 <=? idx) (modo idx (fun o => o <| o_refcount := o_refcount o + 1 |>)).

Definition find_by_pid (pid : Z) : K (option nat) :=
  gets (fun s => find_index (fun p =>
    negb (bool_decide (p_state p = P_FREE)) && (p_pid p =? pid)) (g_proc s)).

(** Complete a parked call: the result goes to the RV slot of the saved
    context. *)
Definition wake_with (p : nat) (rv : Z) : K unit :=
  c ← getp p;
  as_write64 p (u64 (p_saved_rs c + 11 * 8)) (u64 rv) ;;
  modp p (fun c => c <| p_block_kind := BLK_NONE |> <| p_state := P_RUNNABLE |>).

(** *** poll/select readiness *)

Definition fd_ready (p : nat) (fd events : Z) : K Z :=
  c ← getp p;
  if (fd <? 0) || (QUESOS_MAX_FD <=? fd) || (zget (p_fd c) fd <? 0) then mret POLLNVAL
  else
    o ← geto (zget (p_fd c) fd);
    match o_kind o with
    | OFD_NATIVE =>
        if o_native_fd o =? 0 then
          st ← host_get h_con_status;
          mret (if has events POLLIN && has st (Z.lor CON_STAT_INPUT CON_STAT_EOF)
                then POLLIN else 0)
        else
          mret (Z.lor (if has events POLLIN then POLLIN else 0)
                      (if has events POLLOUT then POLLOUT else 0))
    | OFD_PIPE_R =>
        q ← getq (o_pipe_idx o);
        mret (if has events POLLIN && ((0 <? q_count q) || (q_writers q =? 0))
              then POLLIN else 0)
    | OFD_PIPE_W =>
        q ← getq (o_pipe_idx o);
        mret (if q_readers q =? 0 then POLLERR
              else if has events POLLOUT && (q_count q <? PIPE_CAP) then POLLOUT else 0)
    | OFD_SOCK =>
        if o_pipe_idx o <? 0 then mret 0
        else
          rr ← getq (o_pipe_idx o);
          ww ← getq (o_peer_idx o);
          mret (Z.lor
            (if has events POLLIN && ((0 <? q_count rr) || (q_writers rr =? 0)) then POLLIN else 0)
            (if q_readers ww =? 0 then POLLERR
             else if has events POLLOUT && (q_count ww <? PIPE_CAP) then POLLOUT else 0))
    | OFD_SOCK_LISTEN =>
        b ← getb (i32 (o_native_fd o));
        mret (if has events POLLIN && (0 <? b_pending_count b) then POLLIN else 0)
    | OFD_FREE | OFD_RESVD => mret 0
    end.

(** poll(): the pollfd array at [base], entries [i] up to [i + n - 1]. *)
Fixpoint poll_scan (n : nat) (p : nat) (commit : bool) (base i count : Z) : K Z :=
  match n with
  | O => mret count
  | S n' =>
      let e := u64 (base + i * 8) in
      fd ← as_read32 p e;
      events ← as_read16 p (u64 (e + 4));
      rev ← fd_ready p (i32 fd) (i16 events);
      when commit (as_write16 p (u64 (e + 6)) (u16 rev)) ;;
      poll_scan n' p commit base (i + 1) (if rev =? 0 then count else count + 1)
  end.

(** select(): descriptors [fd] up to [fd + n - 1]; the result is the two ready
    words and the ready count. *)
Fixpoint select_scan (n : nat) (p : nat) (rmask wmask fd rword wword count : Z) : K (Z * Z * Z) :=
  match n with
  | O => mret (rword, wword, count)
  | S n' =>
      let in_r := Z.testbit rmask fd in
      let in_w := Z.testbit wmask fd in
      if negb in_r && negb in_w then select_scan n' p rmask wmask (fd + 1) rword wword count
      else
        rev ← fd_ready p fd (Z.lor (if in_r then POLLIN else 0) (if in_w then POLLOUT else 0));
        let hit_r := in_r && has rev (Z.lor (Z.lor (Z.lor POLLIN POLLERR) POLLHUP) POLLNVAL) in
        let hit_w := in_w && has rev (Z.lor (Z.lor POLLOUT POLLERR) POLLNVAL) in
        select_scan n' p rmask wmask (fd + 1)
          (if hit_r then Z.lor rword (bit fd) else rword)
          (if hit_w then Z.lor wword (bit fd) else wword)
          (count + Z.b2z hit_r + Z.b2z hit_w)
  end.

Definition poll_evaluate (p : nat) (commit : bool) : K Z :=
  c ← getp p;
  if p_poll_mode c =? 0 then
    poll_scan (Z.to_nat (p_poll_nfds c)) p commit (u64 (p_poll_fds_uva c)) 0 0
  else
    let nf := i32 (p_poll_nfds c) in
    let nf := if QUESOS_MAX_FD <? nf then QUESOS_MAX_FD else nf in
    '(rword, wword, count) ←
      select_scan (Z.to_nat nf) p (p_poll_r_bits c) (p_poll_w_bits c) 0 0 0 0;
    when commit
      (when (negb (p_poll_r_uva c =? 0)) (as_write64 p (p_poll_r_uva c) rword) ;;
       when (negb (p_poll_w_uva c =? 0)) (as_write64 p (p_poll_w_uva c) wword) ;;
       when (negb (p_poll_e_uva c =? 0)) (as_write64 p (p_poll_e_uva c) 0)) ;;
    mret count.

(** The number of callers woken. *)
Fixpoint poll_recheck_loop (n : nat) (i : nat) (woke : Z) : K Z :=
  match n with
  | O => mret woke
  | S n' =>
      p ← getp i;
      if parked p BLK_POLL then
        r ← poll_evaluate i false;
        if 0 <? r then
          ready ← poll_evaluate i true;
          wake_with i ready ;;
          poll_recheck_loop n' (S i) (woke + 1)
        else poll_recheck_loop n' (S i) woke
      else poll_recheck_loop n' (S i) woke
  end.
Definition poll_recheck_all : K Z := poll_recheck_loop QUESOS_MAX_PROC 0 0.

(** *** The ring buffer *)

(** [while (n < count && q->count > 0)]: a turn takes one byte out of the
    ring. *)
Fixpoint fetch_loop (fuel : nat) (pi : Z) (dst : nat) (uva count n : Z) : K Z :=
  match fuel with
  | O => stop OutOfFuel
  | S fuel' =>
      q ← getq pi;
      if (n <? count) && (0 <? q_count q) then
        as_write8 dst (u64 (uva + n)) (zget (q_buf q) (q_r q)) ;;
        modq pi (fun q => q <| q_r := (q_r q + 1) mod PIPE_CAP |>
                            <| q_count := q_count q - 1 |>) ;;
        fetch_loop fuel' pi dst uva count (n + 1)
      else mret n
  end.
Definition pipe_fetch (pi : Z) (dst : nat) (uva count : Z) : K Z :=
  q ← getq pi;
  n ← fetch_loop (S (Z.to_nat (q_count q))) pi dst uva count 0;
  when (0 <? n) (poll_recheck_all ;; mret tt) ;;
  mret n.

Fixpoint deposit_loop (fuel : nat) (pi : Z) (src : nat) (uva count n : Z) : K Z :=
  match fuel with
  | O => stop OutOfFuel
  | S fuel' =>
      q ← getq pi;
      if (n <? count) && (q_count q <? PIPE_CAP) then
        b ← as_read8 src (u64 (uva + n));
        modq pi (fun q => q <| q_buf := zinsert (q_w q) b (q_buf q) |>
                            <| q_w := (q_w q + 1) mod PIPE_CAP |>
                            <| q_count := q_count q + 1 |>) ;;
        deposit_loop fuel' pi src uva count (n + 1)
      else mret n
  end.
Definition pipe_deposit (pi : Z) (src : nat) (uva count : Z) : K Z :=
  q ← getq pi;
  n ← deposit_loop (S (Z.to_nat (PIPE_CAP - q_count q))) pi src uva count 0;
  when (0 <? n) (poll_recheck_all ;; mret tt) ;;
  mret n.

Definition pipe_wake_readers (pi : Z) : K unit :=
  for_ 0 QUESOS_MAX_PROC (fun i =>
    r ← getp i;
    when (parked_on r BLK_PIPE_R pi)
      (n ← pipe_fetch pi i (p_block_buf r) (p_block_count r);
       q ← getq pi;
       when ((0 <? n) || (q_writers q =? 0)) (wake_with i n))).

Definition pipe_wake_writers (pi : Z) : K unit :=
  for_ 0 QUESOS_MAX_PROC (fun i =>
    w ← getp i;
    when (parked_on w BLK_PIPE_W pi)
      (q ← getq pi;
       if q_readers q =? 0 then wake_with i (-32)
       else
         n ← pipe_deposit pi i (p_block_buf w) (p_block_count w);
         when (0 <? n) (pipe_wake_readers pi ;; wake_with i n))).

(** *** Dropping a reference *)

(** Wake every connector still queued on listener [bi] with -ECONNREFUSED. *)
Fixpoint refuse_pending (fuel : nat) (bi : Z) : K unit :=
  match fuel with
  | O => stop OutOfFuel
  | S fuel' =>
      b ← getb bi;
      if 0 <? b_pending_count b then
        let pid := zget (b_pending_pid b) (b_pending_head b) in
        c ← find_by_pid pid;
        modb bi (fun b =>
          b <| b_pending_head := (b_pending_head b + 1) mod QUESOS_MAX_UNIX_BACKLOG |>
            <| b_pending_count := b_pending_count b - 1 |>) ;;
        match c with
        | None => mret tt
        | Some c =>
            p ← getp c;
            when (parked p BLK_CONNECT) (wake_with c (- QOS_ECONNREFUSED))
        end ;;
        refuse_pending fuel' bi
      else mret tt
  end.

(** One end of ring [pi] goes away. *)
Definition drop_reader (pi : Z) : K unit :=
  modq pi (fun q => q <| q_readers := q_readers q - 1 |>) ;;
  q ← getq pi;
  when (q_readers q =? 0) (pipe_wake_writers pi).
Definition drop_writer (pi : Z) : K unit :=
  modq pi (fun q => q <| q_writers := q_writers q - 1 |>) ;;
  q ← getq pi;
  when (q_writers q =? 0) (pipe_wake_readers pi).

(** The last reference is gone: tear the description down. *)
Definition ofd_close (idx : Z) (o : ofd) : K unit :=
  match o_kind o with
  | OFD_NATIVE => when (2 <? o_native_fd o) (host (h_close (o_native_fd o)) ;; mret tt)
  | OFD_PIPE_R => drop_reader (o_pipe_idx o)
  | OFD_PIPE_W => drop_writer (o_pipe_idx o)
  | OFD_SOCK =>
      when (0 <=? o_pipe_idx o) (drop_reader (o_pipe_idx o)) ;;
      when (0 <=? o_peer_idx o) (drop_writer (o_peer_idx o))
  | OFD_SOCK_LISTEN =>
      let bi := i32 (o_native_fd o) in
      when ((0 <=? bi) && (bi <? Z.of_nat QUESOS_MAX_UNIX_BIND))
        (b ← getb bi;
         refuse_pending (S (Z.to_nat (b_pending_count b))) bi ;;
         modb bi (fun b => b <| b_used := false |> <| b_listening := false |> <| b_path := [] |>))
  | OFD_FREE | OFD_RESVD => mret tt
  end ;;
  modo idx (fun o => o <| o_kind := OFD_FREE |>) ;;
  poll_recheck_all ;; mret tt.

Definition ofd_unref (idx : Z) : K unit :=
  if idx <? 0 then mret tt
  else
    o ← geto idx;
    when (0 <? o_refcount o) (modo idx (fun o => o <| o_refcount := o_refcount o - 1 |>)) ;;
    o ← geto idx;
    if 0 <? o_refcount o then mret tt else ofd_close idx o.

Definition ofd_init : K unit :=
  for_ 0 3 (fun i =>
    o ← ofd_alloc;
    match o with
    | None => stop Wild
    | Some o =>
        modo o (fun x => x <| o_kind := OFD_NATIVE |> <| o_native_fd := Z.of_nat i |>) ;;
        modify (fun s => s <| g_stdio_ofd := <[i := o]> (g_stdio_ofd s) |>)
    end).

Definition set_fd (p : nat) (slot idx : Z) : K unit :=
  modp p (fun c => c <| p_fd := zinsert slot idx (p_fd c) |>).

Definition fdtable_init (p : nat) : K unit :=
  modp p (fun c => c <| p_fd := replicate (Z.to_nat QUESOS_MAX_FD) (-1) |>) ;;
  for_ 0 3 (fun i =>
    o ← gets (fun s => zget (g_stdio_ofd s) (Z.of_nat i));
    set_fd p (Z.of_nat i) o ;; ofd_ref o).

Definition fdtable_copy (dst src : nat) : K unit :=
  for_ 0 (Z.to_nat QUESOS_MAX_FD) (fun i =>
    c ← getp src;
    let o := zget (p_fd c) (Z.of_nat i) in
    set_fd dst (Z.of_nat i) o ;; ofd_ref o).

Definition fdtable_close_all (p : nat) : K unit :=
  for_ 0 (Z.to_nat QUESOS_MAX_FD) (fun i =>
    c ← getp p;
    let o := zget (p_fd c) (Z.of_nat i) in
    when (0 <=? o) (ofd_unref o ;; set_fd p (Z.of_nat i) (-1))).

Definition fd_alloc_slot (p : nat) : K (option Z) :=
  c ← getp p;
  mret (option_map Z.of_nat (find_index (fun x => x <? 0) (p_fd c))).

(** The description behind a descriptor, with its index; [None] for a bad
    descriptor. *)
Definition fd_ofd (p : nat) (fd_num : Z) : K (option (Z * ofd)) :=
  c ← getp p;
  if QUESOS_MAX_FD <=? fd_num then mret None
  else
    let slot := zget (p_fd c) fd_num in
    if slot <? 0 then mret None
    else o ← geto slot; mret (Some (slot, o)).

End Files.
