(* ===== verification/Signals.v ===== *)
(** * Signals, job control and the scheduler

    Raising and delivering signals, stopping and reaping processes, the
    console read that a signal can interrupt, and [schedule] (quesos.c,
    "Scheduler", "guest signal subsystem" and "signal delivery").

    These functions call each other in a cycle: [schedule] delivers pending
    signals, delivery can terminate a process, termination raises SIGCHLD and
    schedules again.  The C file breaks the cycle with forward declarations
    and so does the model: each function takes the forward-declared ones as a
    record [F], and [kernel] ties the knot with a bound on the call depth. *)
From Stdlib Require Import ZArith Lia Bool String.
From stdpp Require Import base list numbers.
From S2P Require Import Prelude Monad State Memory Support Paging Files.

(** [while ((m & 1) == 0) { m >>= 1; ++b; } return b + 1;] for a non-zero
    64-bit [m]. *)
Fixpoint lowest_set_bit_loop (fuel : nat) (m b : Z) : Z :=
  match fuel with
  | O => b + 1
  | S fuel' => if Z.land m 1 =? 0 then lowest_set_bit_loop fuel' (Z.shiftr m 1) (b + 1) else b + 1
  end.
Definition lowest_set_bit (m : Z) : Z := lowest_set_bit_loop 64 m 0.

(** [p->handler[sig]] and the deliverable set [p->pending & ~p->blocked], a
    64-bit word. *)
Definition handler (c : pcb) (sig : Z) : Z := zget (p_handler c) sig.
Definition ready (c : pcb) : Z := Z.land (p_pending c) (u64 (Z.lnot (p_blocked c))).

Definition termios_lflag (img : list Z) : Z :=
  Z.lor (Z.lor (Z.lor (zget img TERMIOS_OFF_LFLAG)
    (Z.shiftl (zget img (TERMIOS_OFF_LFLAG + 1)) 8))
    (Z.shiftl (zget img (TERMIOS_OFF_LFLAG + 2)) 16))
    (Z.shiftl (zget img (TERMIOS_OFF_LFLAG + 3)) 24).

Definition wait_status (c : pcb) : Z :=
  if bool_decide (p_state c = P_STOPPED)
  then u32 (Z.lor (Z.shiftl (Z.land (u32 (p_stop_signal c)) 0xFF) 8) 0x7F)
  else if negb (p_term_signal c =? 0) then u32 (Z.land (p_term_signal c) 0x7F)
  else u32 (Z.shiftl (Z.land (p_exit_status c) 0xFF) 8).

(** The signal a canonical-mode control byte stands for. *)
Definition control_signal (isig : bool) (b : Z) : option Z :=
  if isig && (b =? 0x03) then Some SIGINT
  else if isig && (b =? 0x1C) then Some SIGQUIT
  else if isig && (b =? 0x1A) then Some SIGTSTP
  else None.

Section Leaves.
Context {H : Type} `{Host H}.
Abbreviation K := (M (kst H)).

(** quesos_boot.mazm: CR0 = root_pa + 1, restore the saved context, IRET. *)
Definition quesos_switch_to {A} (p : nat) : K A :=
  c ← getp p;
  modify (fun s => s <| g_cr0 := Some (u64 (p_root_pa c + 1)) |>) ;;
  stop (Enter p).

Definition push_signal_frame (p : nat) (sig : Z) : K unit :=
  c ← getp p;
  let old_rs := p_saved_rs c in
  let tramp := h_sigreturn_tramp in
  let tramp_va := clr (u64 (old_rs - Z.of_nat (length tramp))) 15 in
  let ret_va := u64 (tramp_va - 8) in
  let new_rs := u64 (ret_va - 17 * 8) in
  as_write_list p tramp_va tramp ;;
  as_write64 p ret_va tramp_va ;;
  as_write64 p new_rs sig ;;
  for_ 1 12 (fun k => as_write64 p (u64 (new_rs + Z.of_nat k * 8)) 0) ;;
  as_write64 p (u64 (new_rs + 13 * 8)) 0 ;;
  as_write64 p (u64 (new_rs + 14 * 8)) 0 ;;
  as_write64 p (u64 (new_rs + 15 * 8)) USER_RF ;;
  as_write64 p (u64 (new_rs + 16 * 8)) (handler c sig) ;;
  modp p (fun c => c <| p_sig_saved_rs := old_rs |> <| p_in_handler := true |>
                     <| p_saved_rs := new_rs |>).

Definition deliver_wait (parent child : nat) : K unit :=
  pa ← getp parent;
  ch ← getp child;
  as_write64 parent (u64 (p_saved_rs pa + 11 * 8)) (u64 (p_pid ch)) ;;
  when (negb (p_wait_status_uva pa =? 0))
    (as_write32 parent (p_wait_status_uva pa) (wait_status ch)) ;;
  modp child (fun c => c <| p_state := P_FREE |>) ;;
  modp parent (fun c => c <| p_block_kind := BLK_NONE |> <| p_state := P_RUNNABLE |>).

Definition fb_release_held (p : nat) : K unit :=
  c ← getp p;
  when (0 <=? p_fb_slot c)
    (host_ (h_fb_slot_select (p_fb_slot c)) ;;
     host_ (h_fb_base_write 0) ;;
     modp p (fun c => c <| p_fb_slot := -1 |>)).

(** Mirror a termios image's ISIG and TOSTOP bits. *)
Definition mirror_lflag (img : list Z) : K unit :=
  modify (fun s => s <| g_tty_isig := has (termios_lflag img) TIO_ISIG |>
                     <| g_tty_tostop := has (termios_lflag img) TIO_TOSTOP |>).

(** ESC [ ? 1 0 4 9 l *)
Definition alt_screen_exit : list Z := 27 :: cs "[?1049l".

Definition restore_console_on_death (self : nat) : K unit :=
  c ← getp self;
  if negb (p_termios_valid c) then mret tt
  else
    when (negb (p_term_signal c =? 0) && negb (has (termios_lflag (p_termios_img c)) TIO_ICANON))
      (host (h_write 1 alt_screen_exit) ;; mret tt) ;;
    parent ← find_by_pid (p_parent c);
    match parent with
    | None => mret tt
    | Some parent =>
        pc ← getp parent;
        when (p_termios_valid pc)
          (host (h_tcsetattr 0 0 (p_termios_img pc)) ;; mirror_lflag (p_termios_img pc))
    end.

End Leaves.

(** ** Forward declarations *)
Record forward {H : Type} : Type := mkForward {
  fw_schedule : M (kst H) unit;
  fw_raise_on_pcb : nat -> Z -> M (kst H) unit;
  fw_deliver_pending_signal : nat -> M (kst H) unit
}.
Arguments forward H : clear implicits.

Section Signals.
Context {H : Type} `{Host H}.
Abbreviation K := (M (kst H)).
Context (F : forward H).

(** A process a group signal reaches. *)
Definition in_group (p : pcb) (pgid : Z) : bool :=
  negb (bool_decide (p_state p = P_FREE)) && negb (bool_decide (p_state p = P_ZOMBIE))
  && (p_pgid p =? pgid).

(** The result is C's [found]. *)
Fixpoint raise_on_pgid_loop (n i : nat) (pgid sig : Z) (found : bool) : K bool :=
  match n with
  | O => mret found
  | S n' =>
      p ← getp i;
      if in_group p pgid
      then fw_raise_on_pcb F i sig ;; raise_on_pgid_loop n' (S i) pgid sig true
      else raise_on_pgid_loop n' (S i) pgid sig found
  end.
Definition raise_on_pgid (pgid sig : Z) : K bool :=
  raise_on_pgid_loop QUESOS_MAX_PROC 0 pgid sig false.

Definition signal_fg_group (sig : Z) : K unit :=
  pg ← gets g_fg_pgid; raise_on_pgid pg sig ;; mret tt.

(** Returns whether the console had something to report. *)
Definition console_service_parked (r : nat) : K bool :=
  st ← host_get h_con_status;
  if has st CON_STAT_INPUT then
    d ← host h_con_data;
    let b := u8 d in
    isig ← gets g_tty_isig;
    match control_signal isig b with
    | Some sig => signal_fg_group sig
    | None => c ← getp r; as_write8 r (p_block_buf c) b ;; wake_with r 1
    end ;;
    mret true
  else
    st ← host_get h_con_status;
    if has st CON_STAT_EOF then wake_with r 0 ;; mret true else mret false.

Definition console_settle_park (p : nat) : K unit :=
  c ← getp p;
  if negb (parked c BLK_CONSOLE) then mret tt
  else
    fg ← gets g_fg_pgid;
    if p_pgid c =? fg then console_service_parked p ;; mret tt
    else
      fw_raise_on_pcb F p SIGTTIN ;;
      c ← getp p;
      when (parked c BLK_CONSOLE) (wake_with p (- QOS_EIO)).

(** The SIGCONT arm; [true] when it has returned from [raise_on_pcb]. *)
Definition raise_sigcont (p : nat) : K bool :=
  modp p (fun c => c <| p_pending := clr (p_pending c) QOS_STOP_SIG_MASK |>) ;;
  c ← getp p;
  returned ←
    (if bool_decide (p_state c = P_RUNNABLE) && bool_decide (p_block_kind c = BLK_CONSOLE)
        && (ready c =? 0) then
       modp p (fun c => c <| p_state := P_BLOCKED |>) ;;
       if handler c SIGCONT =? 0 then console_settle_park p ;; mret true else mret false
     else mret false);
  if returned : bool then mret true
  else
    c ← getp p;
    if bool_decide (p_state c = P_STOPPED) then
      modp p (fun c =>
        c <| p_state := if bool_decide (p_block_kind c = BLK_CONSOLE) then P_BLOCKED else P_RUNNABLE |>
          <| p_stop_signal := 0 |>) ;;
      console_settle_park p ;;
      c ← getp p;
      when (1 <? handler c SIGCONT) (push_signal_frame p SIGCONT) ;;
      mret true
    else mret (handler c SIGCONT =? 0).

(** A parked rt_sigsuspend that a raise makes deliverable. *)
Definition complete_sigsuspend (p : nat) (c : pcb) : K unit :=
  let wsig := lowest_set_bit (ready c) in
  as_write64 p (u64 (p_saved_rs c + 11 * 8)) (u64 (- QOS_EINTR)) ;;
  (if 1 <? handler c wsig then fw_deliver_pending_signal F p
   else when ((handler c wsig =? 1) || (wsig =? SIGCHLD))
     (modp p (fun c => c <| p_pending := clr (p_pending c) (sigbit wsig) |>))) ;;
  modp p (fun c => c <| p_blocked := p_suspend_mask_save c |>
                     <| p_block_kind := BLK_NONE |> <| p_state := P_RUNNABLE |>).

(** A parked console read that a raise makes deliverable. *)
Definition complete_console (p : nat) (c : pcb) : K unit :=
  let wsig := lowest_set_bit (ready c) in
  if (handler c wsig =? 1) || ((handler c wsig =? 0) && QOS_DFL_IS_IGNORE wsig) then
    modp p (fun c => c <| p_pending := clr (p_pending c) (sigbit wsig) |>)
  else
    when (negb (QOS_IS_STOP_SIG wsig) || negb (handler c wsig =? 0))
      (as_write64 p (u64 (p_saved_rs c + 11 * 8)) (u64 (- QOS_EINTR)) ;;
       modp p (fun c => c <| p_block_kind := BLK_NONE |>)) ;;
    modp p (fun c => c <| p_state := P_RUNNABLE |>).

Definition raise_on_pcb (p : nat) (sig : Z) : K unit :=
  returned ←
    (if sig =? SIGCONT then raise_sigcont p
     else
       when (QOS_IS_STOP_SIG sig)
         (modp p (fun c => c <| p_pending := clr (p_pending c) (sigbit SIGCONT) |>)) ;;
       mret false);
  if returned : bool then mret tt
  else
    c ← getp p;
    when (bool_decide (p_state c = P_RUNNABLE) || bool_decide (p_state c = P_BLOCKED)
          || (bool_decide (p_state c = P_STOPPED) && (sig =? SIGKILL)))
      (modp p (fun c => c <| p_pending := Z.lor (p_pending c) (sigbit sig) |>)) ;;
    when (bool_decide (p_state c = P_STOPPED) && (sig =? SIGKILL))
      (modp p (fun c => c <| p_state := P_RUNNABLE |>)) ;;
    c ← getp p;
    when (parked c BLK_SIGSUSPEND && negb (ready c =? 0)) (complete_sigsuspend p c) ;;
    c ← getp p;
    when (parked c BLK_CONSOLE && negb (ready c =? 0)) (complete_console p c).

Definition reap_tail (self : nat) : K unit :=
  restore_console_on_death self ;;
  modp self (fun c => c <| p_state := P_ZOMBIE |>) ;;
  fdtable_close_all self ;;
  fb_release_held self ;;
  c ← getp self;
  parent ← find_by_pid (p_parent c);
  match parent with
  | Some pa => fw_raise_on_pcb F pa SIGCHLD
  | None => mret tt
  end ;;
  waiting ←
    match parent with
    | None => mret None
    | Some pa =>
        pc ← getp pa;
        mret (if parked pc BLK_WAIT && ((p_wait_for pc <=? 0) || (p_wait_for pc =? p_pid c))
              then Some pa else None)
    end;
  match waiting with
  | Some pa => deliver_wait pa self
  | None =>
      when (p_parent c =? 0)
        (v ← gets g_verbose;
         when v (qos_puts (cs "[quesos] reaped ") ;; qos_puts (p_path c) ;;
                 qos_puts (cs " status=") ;; qos_put_u64 (Z.land (p_exit_status c) 0xFF) ;;
                 qos_puts (csn "")) ;;
         modp self (fun c => c <| p_state := P_FREE |>))
  end.

Definition stop_process (p : nat) (sig : Z) : K unit :=
  c ← getp p;
  parent ← find_by_pid (p_parent c);
  modp p (fun c => c <| p_state := P_STOPPED |> <| p_stop_signal := sig |>
                     <| p_stop_reported := false |>) ;;
  match parent with
  | Some pa => fw_raise_on_pcb F pa SIGCHLD
  | None => mret tt
  end ;;
  cur ← gets g_current;
  when (bool_decide (cur = Some p)) (fw_schedule F).

Definition terminate_by_signal (p : nat) (sig : Z) : K unit :=
  modp p (fun c => c <| p_term_signal := sig |> <| p_exit_status := 0 |>) ;;
  reap_tail p ;;
  fw_schedule F.

(** Each turn of [for (;;)] clears one pending bit. *)
Fixpoint deliver_loop (fuel : nat) (p : nat) : K unit :=
  match fuel with
  | O => stop OutOfFuel
  | S fuel' =>
      c ← getp p;
      if ready c =? 0 then mret tt
      else
        let sig := lowest_set_bit (ready c) in
        modp p (fun c => c <| p_pending := clr (p_pending c) (sigbit sig) |>) ;;
        if handler c sig =? 0 then
          if QOS_DFL_IS_IGNORE sig then deliver_loop fuel' p
          else if QOS_IS_STOP_SIG sig then stop_process p sig
          else terminate_by_signal p sig
        else if handler c sig =? 1 then deliver_loop fuel' p
        else push_signal_frame p sig
  end.

Definition deliver_pending_signal (p : nat) : K unit :=
  c ← getp p;
  when (has (p_pending c) (sigbit SIGKILL))
    (modp p (fun c => c <| p_pending := clr (p_pending c) (sigbit SIGKILL) |>) ;;
     terminate_by_signal p SIGKILL) ;;
  c ← getp p;
  if p_in_handler c then mret tt else deliver_loop 65 p.

(** *** The scheduler *)

Fixpoint schedule_scan (base : Z) (n : nat) (i : Z) : K unit :=
  match n with
  | O => mret tt
  | S n' =>
      let idx := Z.to_nat ((base + i) mod Z.of_nat QUESOS_MAX_PROC) in
      c ← getp idx;
      when (bool_decide (p_state c = P_RUNNABLE))
        (modify (fun s => s <| g_current := Some idx |>) ;;
         fw_deliver_pending_signal F idx ;;
         quesos_switch_to idx) ;;
      schedule_scan base n' (i + 1)
  end.

(** Some parked process can be waited for; some needs the timer. *)
Definition want_idle (l : list pcb) : bool :=
  existsb (fun p => parked p BLK_CONSOLE || parked p BLK_POLL) l.
Definition need_ticks (l : list pcb) : bool :=
  existsb (fun p => parked p BLK_POLL && negb (p_poll_deadline_ms p =? 0)) l.

Definition schedule : K unit :=
  cur ← gets g_current;
  let base := match cur with Some i => Z.of_nat i | None => -1 end in
  schedule_scan base QUESOS_MAX_PROC 1 ;;
  procs ← gets g_proc;
  when (want_idle procs)
    (modify (fun s => s <| g_current := None |>) ;;
     st ← host_get h_con_status;
     if need_ticks procs || negb (has st CON_STAT_WAKE) then stop IdleSpin else stop IdlePark) ;;
  stop PowerOff.

End Signals.

(** ** Tying the knot *)
Section Knot.
Context {H : Type} `{Host H}.

Definition bottom : forward H :=
  mkForward H (stop OutOfFuel) (fun _ _ => stop OutOfFuel) (fun _ => stop OutOfFuel).

Fixpoint kernel (fuel : nat) : forward H :=
  match fuel with
  | O => bottom
  | S fuel' =>
      let F := kernel fuel' in
      mkForward H (schedule F) (raise_on_pcb F) (deliver_pending_signal F)
  end.

(** The call depth is at most two per live process, 49 for a full table;
    Fuel.v shows that this bound is never reached. *)
Definition DEPTH : nat := 128.

Definition k_schedule : M (kst H) unit := fw_schedule (kernel DEPTH).
Definition k_raise_on_pcb : nat -> Z -> M (kst H) unit := fw_raise_on_pcb (kernel DEPTH).
Definition k_raise_on_pgid : Z -> Z -> M (kst H) bool := raise_on_pgid (kernel DEPTH).
Definition k_deliver_pending_signal : nat -> M (kst H) unit :=
  fw_deliver_pending_signal (kernel DEPTH).
Definition k_terminate_by_signal : nat -> Z -> M (kst H) unit := terminate_by_signal (kernel DEPTH).
Definition k_reap_tail : nat -> M (kst H) unit := reap_tail (kernel DEPTH).

End Knot.
