(* ===== verification/FileCalls.v ===== *)
(** * File, directory and terminal system calls

    Each [do_] handler of quesos.c that works on descriptors, paths or the
    console: the whole handler, with its guards in the order of the code.  A
    handler returns the C [long]; one that parks the caller ends in
    [k_schedule], which never returns. *)
From Stdlib Require Import ZArith Lia Bool String.
From stdpp Require Import base list numbers.
From S2P Require Import Prelude Monad State Memory Support Paging Files Signals.

Definition UTS_FIELD_LEN : Z := 65.
Definition QUESOS_RELEASE : string := "0.1.0".
Definition QUESOS_NODENAME : string := "maize".

(** [img[off + i] = s[i]] for the characters that fit with a NUL. *)
Definition uts_put_field (s : list Z) : list Z :=
  let f := take (Z.to_nat (UTS_FIELD_LEN - 1)) s in
  f ++ replicate (Z.to_nat UTS_FIELD_LEN - length f) 0.

Definition utsname_image : list Z :=
  uts_put_field (cs "quesOS") ++ uts_put_field (cs QUESOS_NODENAME)
  ++ uts_put_field (cs QUESOS_RELEASE) ++ uts_put_field (cs "quesOS " ++ cs QUESOS_RELEASE)
  ++ uts_put_field (cs "maizev1") ++ uts_put_field [].

Section FileCalls.
Context {H : Type} `{Host H}.
Abbreviation K := (M (kst H)).

(** The native call stored [data] at the start of g_iobuf. *)
Definition fill_iobuf (data : list Z) : K unit :=
  modify (fun s => s <| g_iobuf := data ++ drop (length data) (g_iobuf s) |>).

Definition sys_read (fd n : Z) : K Z :=
  '(rv, data) ← host (h_read fd n); fill_iobuf data ;; mret rv.

(** [for (i = 0; i < n; ++i) buf[i] = *(u8 * )(uva + i)] through the live
    translation. *)
Fixpoint kload_list (n : nat) (a : Z) : K (list Z) :=
  match n with
  | O => mret []
  | S n' => b ← kload8 a; r ← kload_list n' (u64 (a + 1)); mret (b :: r)
  end.
Fixpoint kstore_list (a : Z) (l : list Z) : K unit :=
  match l with
  | [] => mret tt
  | b :: l' => kstore8 a b ;; kstore_list (u64 (a + 1)) l'
  end.

Definition clamp_iobuf (n : Z) : Z :=
  let n := if n <? 0 then 0 else n in if QUESOS_IOBUF_CAP <? n then QUESOS_IOBUF_CAP else n.

Definition bounce_out (uva count : Z) : K Z :=
  let n := clamp_iobuf count in
  data ← kload_list (Z.to_nat n) uva; fill_iobuf data ;; mret n.

(** One turn delivers a full chunk, so [count / QUESOS_IOBUF_CAP + 1] turns
    are enough. *)
Fixpoint native_write_loop (fuel : nat) (nfd uva remaining total : Z) : K Z :=
  match fuel with
  | O => stop OutOfFuel
  | S fuel' =>
      if remaining <=? 0 then mret total
      else
        let chunk := if QUESOS_IOBUF_CAP <? remaining then QUESOS_IOBUF_CAP else remaining in
        n ← bounce_out (u64 (uva + total)) chunk;
        buf ← gets g_iobuf;
        w ← host (h_write nfd (take (Z.to_nat n) buf));
        if w <=? 0 then mret (if 0 <? total then total else w)
        else if w <? n then mret (total + w)
        else native_write_loop fuel' nfd uva (remaining - w) (total + w)
  end.
Definition native_write (nfd uva count : Z) : K Z :=
  let remaining := if count <? 0 then 0 else count in
  native_write_loop (S (Z.to_nat (remaining / QUESOS_IOBUF_CAP + 1))) nfd uva remaining 0.

Definition native_read (nfd uva count : Z) : K Z :=
  got ← sys_read nfd (clamp_iobuf count);
  buf ← gets g_iobuf;
  kstore_list uva (take (Z.to_nat got) buf) ;;
  mret got.

(** Park the caller on ring [pi]; [k] says which end. *)
Definition park_pipe (self : nat) (k : blk) (pi uva count : Z) : K Z :=
  modp self (fun c => c <| p_block_kind := k |> <| p_block_pipe := pi |>
                        <| p_block_buf := uva |> <| p_block_count := count |>
                        <| p_state := P_BLOCKED |>) ;;
  k_schedule ;; mret 0.

Definition do_write (fd_num uva count : Z) : K Z :=
  self ← current;
  o ← fd_ofd self fd_num;
  match o with
  | None => mret (-9)
  | Some (_, o) =>
      c ← getp self;
      fg ← gets g_fg_pgid;
      tostop ← gets g_tty_tostop;
      match o_kind o with
      | OFD_NATIVE =>
          if (o_native_fd o <=? 2) && tostop && negb (p_pgid c =? fg) then
            k_raise_on_pgid (p_pgid c) SIGTTOU ;;
            k_deliver_pending_signal self ;;
            mret (- QOS_EIO)
          else native_write (o_native_fd o) uva count
      | OFD_PIPE_W | OFD_SOCK =>
          let pi := if bool_decide (o_kind o = OFD_SOCK) then o_peer_idx o else o_pipe_idx o in
          q ← getq pi;
          if q_readers q =? 0 then mret (-32)
          else if q_count q <? PIPE_CAP then
            n ← pipe_deposit pi self uva count;
            pipe_wake_readers pi ;;
            mret n
          else park_pipe self BLK_PIPE_W pi uva count
      | _ => mret (-9)
      end
  end.

Definition console_read (self : nat) (uva count : Z) : K Z :=
  if count <=? 0 then mret 0
  else
    let park sig :=
      modp self (fun c => c <| p_block_kind := BLK_CONSOLE |> <| p_block_buf := uva |>
                            <| p_block_count := count |> <| p_state := P_BLOCKED |>) ;;
      match sig with
      | Some sig => signal_fg_group (kernel DEPTH) sig
      | None => mret tt
      end ;;
      k_schedule ;; mret 0 in
    st ← host_get h_con_status;
    if has st CON_STAT_INPUT then
      d ← host h_con_data;
      let b := u8 d in
      isig ← gets g_tty_isig;
      match control_signal isig b with
      | Some sig => park (Some sig)
      | None => as_write8 self uva b ;; mret 1
      end
    else
      st ← host_get h_con_status;
      if has st CON_STAT_EOF then mret 0 else park None.

Definition do_read (fd_num uva count : Z) : K Z :=
  self ← current;
  o ← fd_ofd self fd_num;
  match o with
  | None => mret (-9)
  | Some (_, o) =>
      match o_kind o with
      | OFD_NATIVE =>
          c ← getp self;
          fg ← gets g_fg_pgid;
          if (o_native_fd o =? 0) && negb (p_pgid c =? fg) then
            k_raise_on_pgid (p_pgid c) SIGTTIN ;;
            k_deliver_pending_signal self ;;
            mret (- QOS_EIO)
          else if o_native_fd o =? 0 then console_read self uva count
          else native_read (o_native_fd o) uva count
      | OFD_PIPE_R | OFD_SOCK =>
          let pi := o_pipe_idx o in
          q ← getq pi;
          if 0 <? q_count q then
            n ← pipe_fetch pi self uva count;
            pipe_wake_writers pi ;;
            mret n
          else if q_writers q =? 0 then mret 0
          else park_pipe self BLK_PIPE_R pi uva count
      | _ => mret (-9)
      end
  end.

(** *** Paths *)

Fixpoint copy_user_path_loop (n : nat) (uva : Z) : K (list Z) :=
  match n with
  | O => mret []
  | S n' =>
      b ← kload8 uva;
      if b =? 0 then mret []
      else r ← copy_user_path_loop n' (u64 (uva + 1)); mret (b :: r)
  end.
Definition copy_user_path (uva : Z) : K (list Z) :=
  copy_user_path_loop (Z.to_nat (QUESOS_PATH_CAP - 1)) uva.

(** [copy_user_path] then [join_path] against the caller's cwd. *)
Definition resolve_path (path_uva : Z) : K (list Z) :=
  self ← current;
  inp ← copy_user_path path_uva;
  c ← getp self;
  mret (join_path (p_cwd c) inp).

Definition do_open (path_uva flags mode : Z) : K Z :=
  self ← current;
  kpath ← resolve_path path_uva;
  if path_is_dev_tty kpath then
    slot ← fd_alloc_slot self;
    match slot with
    | None => mret (-24)
    | Some slot =>
        o ← gets (fun s => zget (g_stdio_ofd s) 0);
        ofd_ref o ;; set_fd self slot o ;; mret slot
    end
  else
    nfd ← host (h_open kpath flags mode);
    if nfd <? 0 then mret nfd
    else
      slot ← fd_alloc_slot self;
      o ← ofd_alloc;
      match slot, o with
      | Some slot, Some o =>
          modo o (fun x => x <| o_kind := OFD_NATIVE |> <| o_native_fd := nfd |>
                             <| o_refcount := 1 |>) ;;
          set_fd self slot o ;; mret slot
      | _, _ => host (h_close nfd) ;; mret (-24)
      end.

(** A call that fills [size] bytes of g_iobuf and copies them to the caller
    when it returns 0; [e] is the error for a non-native descriptor. *)
Definition forward_struct (call : Z -> H -> (Z * list Z) * H) (size e fd_num uva : Z) : K Z :=
  self ← current;
  o ← fd_ofd self fd_num;
  match o with
  | None => mret (-9)
  | Some (_, o) =>
      if negb (bool_decide (o_kind o = OFD_NATIVE)) then mret e
      else
        '(r, data) ← host (call (o_native_fd o));
        fill_iobuf data ;;
        buf ← gets g_iobuf;
        when (r =? 0) (as_write_list self uva (take (Z.to_nat size) buf)) ;;
        mret r
  end.

Definition do_fstat (fd_num statbuf_uva : Z) : K Z :=
  forward_struct h_fstat STAT_WIRE_SIZE (-9) fd_num statbuf_uva.
Definition do_tcgetattr (fd_num t_uva : Z) : K Z :=
  forward_struct h_tcgetattr TERMIOS_WIRE_SIZE (-25) fd_num t_uva.
Definition do_ttysize (fd_num ws_uva : Z) : K Z :=
  forward_struct h_ttysize WINSIZE_WIRE_SIZE (-25) fd_num ws_uva.

Definition do_lseek (fd_num offset whence : Z) : K Z :=
  self ← current;
  o ← fd_ofd self fd_num;
  match o with
  | None => mret (-9)
  | Some (_, o) =>
      if negb (bool_decide (o_kind o = OFD_NATIVE)) then mret (-29)
      else host (h_lseek (o_native_fd o) offset whence)
  end.

Definition do_getdents64 (fd_num dirp_uva count : Z) : K Z :=
  self ← current;
  o ← fd_ofd self fd_num;
  match o with
  | None => mret (-9)
  | Some (_, o) =>
      if negb (bool_decide (o_kind o = OFD_NATIVE)) then mret (-20)
      else
        let count := if QUESOS_IOBUF_CAP <? count then QUESOS_IOBUF_CAP else count in
        '(n, data) ← host (h_getdents64 (o_native_fd o) count);
        fill_iobuf data ;;
        buf ← gets g_iobuf;
        when (0 <? n) (as_write_list self dirp_uva (take (Z.to_nat n) buf)) ;;
        mret n
  end.

Definition do_unlink (path_uva : Z) : K Z :=
  kpath ← resolve_path path_uva; host (h_unlink kpath).
Definition do_mkdir (path_uva mode : Z) : K Z :=
  kpath ← resolve_path path_uva; host (h_mkdir kpath mode).
Definition do_rename (old_uva new_uva : Z) : K Z :=
  okpath ← resolve_path old_uva;
  nkpath ← resolve_path new_uva;
  host (h_rename okpath nkpath).

Definition do_ftruncate (fd_num length : Z) : K Z :=
  self ← current;
  o ← fd_ofd self fd_num;
  match o with
  | None => mret (-9)
  | Some (_, o) =>
      if negb (bool_decide (o_kind o = OFD_NATIVE)) then mret (-22)
      else host (h_ftruncate (o_native_fd o) length)
  end.

Definition do_chdir (path_uva : Z) : K Z :=
  self ← current;
  joined ← resolve_path path_uva;
  let norm := normalize_path joined in
  fd ← host (h_open norm QOS_O_DIRECTORY 0);
  if fd <? 0 then mret fd
  else
    host (h_close fd) ;;
    modp self (fun c => c <| p_cwd := cap_copy QUESOS_PATH_CAP norm |>) ;;
    mret 0.

Definition do_getcwd (buf_uva size : Z) : K Z :=
  self ← current;
  c ← getp self;
  let len := Z.of_nat (length (p_cwd c)) in
  if size <? len + 1 then mret (-34)
  else as_write_list self buf_uva (p_cwd c ++ [0]) ;; mret (len + 1).

Definition do_uname (buf_uva : Z) : K Z :=
  self ← current;
  as_write_list self buf_uva utsname_image ;;
  mret 0.

Definition do_tcsetattr (fd_num optional_actions t_uva : Z) : K Z :=
  self ← current;
  o ← fd_ofd self fd_num;
  match o with
  | None => mret (-9)
  | Some (_, o) =>
      if negb (bool_decide (o_kind o = OFD_NATIVE)) then mret (-25)
      else
        data ← kload_list (Z.to_nat TERMIOS_WIRE_SIZE) t_uva;
        fill_iobuf data ;;
        r ← host (h_tcsetattr (o_native_fd o) optional_actions data);
        when (r =? 0)
          (mirror_lflag data ;;
           modp self (fun c => c <| p_termios_img := data |> <| p_termios_valid := true |>)) ;;
        mret r
  end.

(** *** Descriptors *)

Definition do_close (fd_num : Z) : K Z :=
  self ← current;
  c ← getp self;
  if (QUESOS_MAX_FD <=? fd_num) || (zget (p_fd c) fd_num <? 0) then mret (-9)
  else ofd_unref (zget (p_fd c) fd_num) ;; set_fd self fd_num (-1) ;; mret 0.

Definition do_dup2 (oldfd newfd : Z) : K Z :=
  self ← current;
  c ← getp self;
  if (QUESOS_MAX_FD <=? oldfd) || (QUESOS_MAX_FD <=? newfd) || (zget (p_fd c) oldfd <? 0)
  then mret (-9)
  else if oldfd =? newfd then mret newfd
  else
    when (0 <=? zget (p_fd c) newfd) (ofd_unref (zget (p_fd c) newfd)) ;;
    c ← getp self;
    set_fd self newfd (zget (p_fd c) oldfd) ;;
    ofd_ref (zget (p_fd c) oldfd) ;;
    mret newfd.

Definition do_dup (oldfd : Z) : K Z :=
  self ← current;
  c ← getp self;
  if (QUESOS_MAX_FD <=? oldfd) || (zget (p_fd c) oldfd <? 0) then mret (-9)
  else
    slot ← fd_alloc_slot self;
    match slot with
    | None => mret (-24)
    | Some slot =>
        set_fd self slot (zget (p_fd c) oldfd) ;;
        ofd_ref (zget (p_fd c) oldfd) ;;
        mret slot
    end.

(** A fresh ring: one reader, one writer, empty. *)
Definition fresh_ring (q : pipe_obj) : pipe_obj :=
  q <| q_used := true |> <| q_readers := 1 |> <| q_writers := 1 |>
    <| q_r := 0 |> <| q_w := 0 |> <| q_count := 0 |>.
Definition unused_ring (q : pipe_obj) : bool := negb (q_used q).

Definition do_pipe (fds_uva : Z) : K Z :=
  self ← current;
  pi ← gets (fun s => find_index unused_ring (g_pipe s));
  match pi with
  | None => mret (-24)
  | Some pi =>
      let pi := Z.of_nat pi in
      ro ← ofd_alloc;
      wo ← ofd_alloc;
      match ro, wo with
      | Some ro, Some wo =>
          rslot ← fd_alloc_slot self;
          match rslot with
          | None => mret (-24)
          | Some rslot =>
              set_fd self rslot ro ;;
              wslot ← fd_alloc_slot self;
              match wslot with
              | None => set_fd self rslot (-1) ;; mret (-24)
              | Some wslot =>
                  set_fd self wslot wo ;;
                  modq pi fresh_ring ;;
                  modo ro (fun o => o <| o_kind := OFD_PIPE_R |> <| o_pipe_idx := pi |>
                                      <| o_refcount := 1 |>) ;;
                  modo wo (fun o => o <| o_kind := OFD_PIPE_W |> <| o_pipe_idx := pi |>
                                      <| o_refcount := 1 |>) ;;
                  as_write32 self fds_uva rslot ;;
                  as_write32 self (u64 (fds_uva + 4)) wslot ;;
                  mret 0
              end
          end
      | _, _ => mret (-24)
      end
  end.

End FileCalls.
