(* ===== verification/VmCalls.v ===== *)
(** * Memory and display system calls

    brk, the framebuffer calls, the bulk-memory accelerators forwarded under
    paging, and the large-allocation window (quesos.c: [do_brk], [do_fb_*],
    [do_kbd_read], [do_bulk_*], [do_palette_blit], [do_bigalloc]). *)
From Stdlib Require Import ZArith Lia Bool String.
From stdpp Require Import base list numbers.
From S2P Require Import Prelude Monad State Memory Support Paging Files Signals.

Section VmCalls.
Context {H : Type} `{Host H}.
Abbreviation K := (M (kst H)).

Definition do_brk (newbrk : Z) : K Z :=
  self ← current;
  c ← getp self;
  let cur := p_brk_cur c in
  if newbrk =? 0 then mret (i64 cur)
  else if USER_BRK_MAX <? newbrk then mret (i64 cur)
  else
    when (cur <? newbrk) (ensure_user_range self (page_of cur) newbrk) ;;
    modp self (fun c => c <| p_brk_cur := newbrk |>) ;;
    mret (i64 newbrk).

Definition do_fb_geometry (out_uva : Z) : K Z :=
  self ← current;
  w ← host_get h_fb_width;
  as_write32 self out_uva (u32 w) ;;
  h ← host_get h_fb_height;
  as_write32 self (u64 (out_uva + 4)) (u32 h) ;;
  f ← host_get h_fb_format;
  as_write32 self (u64 (out_uva + 8)) (u32 f) ;;
  mret 0.

Definition fb_page_count : K Z :=
  w ← host_get h_fb_width;
  h ← host_get h_fb_height;
  mret (u64 (u64 (w * h * 4) + PAGE_SIZE - 1) / PAGE_SIZE).

(** Pages [k] up to [k + n - 1] after the base page: physically contiguous as
    far as they are mapped. *)
Fixpoint fb_contig (n : nat) (self : nat) (base_page k prev_pa : Z) : K bool :=
  match n with
  | O => mret true
  | S n' =>
      let va := u64 (base_page + k * PAGE_SIZE) in
      l0 ← va_l0 self va;
      pte2 ← pte_get l0 (vpn0 va);
      if negb (has pte2 PTE_V) then mret true
      else if negb (page_of pte2 =? u64 (prev_pa + PAGE_SIZE)) then mret false
      else fb_contig n' self base_page (k + 1) (page_of pte2)
  end.

(** The first slot whose base reads 0, selected. *)
Fixpoint fb_free_slot (n : nat) (slot : Z) : K (option Z) :=
  match n with
  | O => mret None
  | S n' =>
      host_ (h_fb_slot_select slot) ;;
      b ← host_get h_fb_base_read;
      if b =? 0 then mret (Some slot) else fb_free_slot n' (slot + 1)
  end.

Definition do_fb_register (base_uva : Z) : K Z :=
  self ← current;
  c ← getp self;
  if 0 <=? p_fb_slot c then mret (- QOS_EBUSY)
  else if base_uva =? 0 then mret (- QOS_EINVAL)
  else
    l0 ← va_l0 self base_uva;
    pte ← pte_get l0 (vpn0 base_uva);
    if negb (has pte PTE_V) then mret (- QOS_EINVAL)
    else
      pa ← user_pa self base_uva;
      n ← fb_page_count;
      contig ← fb_contig (Z.to_nat (n - 1)) self (page_of base_uva) 1 (page_of pa);
      if negb contig then mret (- QOS_EINVAL)
      else
        slot ← fb_free_slot (Z.to_nat QUESOS_FB_MAX_SLOTS) 0;
        match slot with
        | None => mret (- QOS_ENOSPC)
        | Some slot =>
            host_ (h_fb_slot_select slot) ;;
            host_ (h_fb_base_write pa) ;;
            st ← host_get h_fb_status_read;
            b ← host_get h_fb_base_read;
            if has st 0x4 || (b =? 0) then mret (- QOS_ENODEV)
            else modp self (fun c => c <| p_fb_slot := slot |>) ;; mret slot
        end.

Definition do_fb_release : K Z :=
  self ← current;
  c ← getp self;
  if p_fb_slot c <? 0 then mret (- QOS_EBADF)
  else
    host_ (h_fb_slot_select (p_fb_slot c)) ;;
    host_ (h_fb_base_write 0) ;;
    modp self (fun c => c <| p_fb_slot := -1 |>) ;;
    mret 0.

Definition do_fb_present : K Z :=
  self ← current;
  c ← getp self;
  if p_fb_slot c <? 0 then mret (- QOS_EBADF)
  else host_ (h_fb_slot_select (p_fb_slot c)) ;; host_ h_fb_present ;; mret 0.

Definition do_kbd_read : K Z :=
  self ← current;
  st ← host_get h_kbd_status;
  if negb (has st 0x1) then mret (- QOS_EAGAIN)
  else
    active ← host_get h_fb_activate_read;
    c ← getp self;
    if (p_fb_slot c <? 0) || negb (u64 (p_fb_slot c) =? active) then mret (- QOS_EACCES)
    else host h_kbd_read.

(** [Some contig] is the C result 0 with [*contig_out] set, [None] is -1. *)
Fixpoint bulk_validate_loop (n : nat) (p : nat) (va : Z) (prev : option Z) (contig : bool) : K (option bool) :=
  match n with
  | O => mret (Some contig)
  | S n' =>
      l0 ← va_l0 p va;
      if l0 =? 0 then mret None
      else
        pte ← pte_get l0 (vpn0 va);
        if negb (has pte PTE_V) || negb (has pte PTE_U) then mret None
        else
          let this_pa := page_of pte in
          let contig' :=
            match prev with
            | Some prev_pa => if this_pa =? u64 (prev_pa + PAGE_SIZE) then contig else false
            | None => contig
            end in
          bulk_validate_loop n' p (u64 (va + PAGE_SIZE)) (Some this_pa) contig'
  end.
(** A page walk depends on bits 12 to 29 of the address only, so a walk that
    wraps past the top page and finds [REGION_PAGES] more pages valid finds
    every page valid. *)
Definition REGION_PAGES : nat := Z.to_nat (2 ^ 18).
Definition bulk_validate_range (p : nat) (uva n : Z) : K (option bool) :=
  let first := page_of uva in
  let last := page_of (u64 (uva + n - 1)) in
  r ← bulk_validate_loop (page_count first last) p first None true;
  match r with
  | None => mret None
  | Some contig =>
      if last =? LAST_PAGE then
        r ← bulk_validate_loop REGION_PAGES p 0 None true;
        match r with None => mret None | Some _ => stop (Spin uva n) end
      else mret (Some contig)
  end.

Definition do_bulk_copy (dst_uva src_uva n : Z) : K Z :=
  self ← current;
  if n =? 0 then mret 0
  else if (u64 (src_uva + n) <? src_uva) || (u64 (dst_uva + n) <? dst_uva) then mret (- QOS_EFAULT)
  else
    src ← bulk_validate_range self src_uva n;
    match src with
    | None => mret (- QOS_EFAULT)
    | Some src_contig =>
        dst ← bulk_validate_range self dst_uva n;
        match dst with
        | None => mret (- QOS_EFAULT)
        | Some dst_contig =>
            if negb src_contig || negb dst_contig then mret (- QOS_ENOSYS)
            else
              dpa ← user_pa self dst_uva;
              spa ← user_pa self src_uva;
              sys_bulk_copy dpa spa n
        end
    end.

Definition do_bulk_set (dst_uva value n : Z) : K Z :=
  self ← current;
  if n =? 0 then mret 0
  else if u64 (dst_uva + n) <? dst_uva then mret (- QOS_EFAULT)
  else
    v ← bulk_validate_range self dst_uva n;
    match v with
    | None => mret (- QOS_EFAULT)
    | Some _ =>
        walk_runs (fun pa _ len => sys_bulk_set pa value len ;; mret tt) self dst_uva n ;;
        mret (i64 n)
    end.

Fixpoint blit_loop (n : nat) (self : nat) (dst_uva src_uva lut_uva i : Z) : K unit :=
  match n with
  | O => mret tt
  | S n' =>
      bidx ← as_read8 self (u64 (src_uva + i));
      px ← as_read32 self (u64 (lut_uva + bidx * 4));
      as_write32 self (u64 (dst_uva + i * 4)) px ;;
      blit_loop n' self dst_uva src_uva lut_uva (i + 1)
  end.

Definition do_palette_blit (dst_uva src_uva lut_uva npixels : Z) : K Z :=
  self ← current;
  if npixels =? 0 then mret 0
  else if (2 ^ 64 - 1) / 4 <? npixels then mret (- QOS_EFAULT)
  else
    let dst_bytes := npixels * 4 in
    if (u64 (dst_uva + dst_bytes) <? dst_uva) || (u64 (src_uva + npixels) <? src_uva)
       || (u64 (lut_uva + 1024) <? lut_uva) then mret (- QOS_EFAULT)
    else
      d ← bulk_validate_range self dst_uva dst_bytes;
      match d with
      | None => mret (- QOS_EFAULT)
      | Some dc =>
          v ← bulk_validate_range self src_uva npixels;
          match v with
          | None => mret (- QOS_EFAULT)
          | Some sc =>
              l ← bulk_validate_range self lut_uva 1024;
              match l with
              | None => mret (- QOS_EFAULT)
              | Some lc =>
                  if dc && sc && lc then
                    dpa ← user_pa self dst_uva;
                    spa ← user_pa self src_uva;
                    lpa ← user_pa self lut_uva;
                    sys_palette_blit dpa spa lpa npixels
                  else
                    blit_loop (Z.to_nat npixels) self dst_uva src_uva lut_uva 0 ;;
                    mret (i64 npixels)
              end
          end
      end.

Definition do_fb_mmap : K Z :=
  self ← current;
  n ← fb_page_count;
  c ← getp self;
  if negb (p_fb_mmap_va c =? 0) then mret (p_fb_mmap_va c)
  else
    base ← alloc_frames_contig n;
    match base with
    | None => mret (- QOS_ENOMEM)
    | Some base_pa =>
        ensure_l0 self FB_MMAP_BASE ;;
        for_ 0 (Z.to_nat n) (fun i =>
          map_user_page self (u64 (FB_MMAP_BASE + Z.of_nat i * PAGE_SIZE))
            (u64 (base_pa + Z.of_nat i * PAGE_SIZE))) ;;
        modp self (fun c => c <| p_fb_mmap_va := FB_MMAP_BASE |>) ;;
        mret FB_MMAP_BASE
    end.

Definition do_bigalloc (size : Z) : K Z :=
  self ← current;
  c ← getp self;
  let n := u64 (size + PAGE_SIZE - 1) / PAGE_SIZE in
  if size =? 0 then mret (- QOS_EINVAL)
  else if BIGALLOC_BASE + BIGALLOC_MAX <? u64 (p_bigalloc_next c + u64 (n * PAGE_SIZE))
  then mret (- QOS_ENOMEM)
  else
    let va := p_bigalloc_next c in
    l0_needed ← l0_regions_needed self va n;
    pool ← gets g_pool_next;
    if POOL_TOP <? u64 (pool + u64 ((n + l0_needed) * PAGE_SIZE)) then mret (- QOS_ENOMEM)
    else
      base ← alloc_frames_contig n;
      match base with
      | None => mret (- QOS_ENOMEM)
      | Some base_pa =>
          ensure_l0 self va ;;
          for_ 0 (Z.to_nat n) (fun i =>
            let pg := u64 (va + Z.of_nat i * PAGE_SIZE) in
            when (negb (Z.shiftr pg 21 =? Z.shiftr va 21)) (ensure_l0 self pg ;; mret tt) ;;
            map_user_page self pg (u64 (base_pa + Z.of_nat i * PAGE_SIZE))) ;;
          modp self (fun c => c <| p_bigalloc_next := u64 (va + u64 (n * PAGE_SIZE)) |>) ;;
          mret (i64 va)
      end.

End VmCalls.
