(* ===== verification/Sockets.v ===== *)
(** * Unix-domain sockets and poll/select

    [do_socket] to [do_socketpair] and [do_poll], [do_select] of quesos.c.  A
    connected pair of sockets is two rings, one per direction. *)
From Stdlib Require Import ZArith Lia Bool String.
From stdpp Require Import base list numbers.
From S2P Require Import Prelude Monad State Memory Support Paging Files Signals FileCalls.

Section Sockets.
Context {H : Type} `{Host H}.
Abbreviation K := (M (kst H)).

Definition alloc_ring : K (option Z) :=
  i ← gets (fun s => find_index unused_ring (g_pipe s));
  match i with
  | None => mret None
  | Some i => modq (Z.of_nat i) fresh_ring ;; mret (Some (Z.of_nat i))
  end.

Definition free_ring (x : Z) : K unit := modq x (fun q => q <| q_used := false |>).

Definition unix_bind_lookup (path : list Z) : K (option Z) :=
  gets (fun s => option_map Z.of_nat
    (find_index (fun b => b_used b && bool_decide (b_path b = path)) (g_unix_bind s))).

Fixpoint read_sun_path_loop (n : nat) (p : nat) (va : Z) : K (list Z) :=
  match n with
  | O => mret []
  | S n' =>
      c ← as_read8 p va;
      if c =? 0 then mret []
      else r ← read_sun_path_loop n' p (u64 (va + 1)); mret (c :: r)
  end.
Definition read_sun_path (p : nat) (addr_uva : Z) : K (list Z) :=
  read_sun_path_loop (Z.to_nat (QUESOS_PATH_CAP - 1)) p (u64 (addr_uva + 2)).

Definition write_empty_sockaddr (p : nat) (addr_uva addrlen_uva : Z) : K unit :=
  as_write16 p addr_uva AF_UNIX ;;
  when (negb (addrlen_uva =? 0)) (as_write32 p addrlen_uva 2).

(** The accepter's new descriptor, or [None]. *)
Definition socket_handshake (accepter : nat) (cofd : Z) : K (option Z) :=
  x ← alloc_ring;
  match x with
  | None => mret None
  | Some x =>
      y ← alloc_ring;
      match y with
      | None => free_ring x ;; mret None
      | Some y =>
          aslot ← fd_alloc_slot accepter;
          match aslot with
          | None => free_ring x ;; free_ring y ;; mret None
          | Some aslot =>
              aofd ← ofd_alloc;
              match aofd with
              | None => free_ring x ;; free_ring y ;; mret None
              | Some aofd =>
                  modo cofd (fun o => o <| o_pipe_idx := y |> <| o_peer_idx := x |>) ;;
                  modo aofd (fun o => o <| o_kind := OFD_SOCK |> <| o_pipe_idx := x |>
                                        <| o_peer_idx := y |> <| o_refcount := 1 |>) ;;
                  set_fd accepter aslot aofd ;;
                  mret (Some aslot)
              end
          end
      end
  end.

(** The checks shared by socket and socketpair; [None] when they pass. *)
Definition sock_args (domain type protocol : Z) : option Z :=
  if negb (domain =? AF_UNIX) then Some (- QOS_EAFNOSUPPORT)
  else if negb (type =? SOCK_STREAM) then Some (- QOS_EINVAL)
  else if negb (protocol =? 0) then Some (- QOS_EPROTONOSUPPORT)
  else None.

Definition do_socket (domain type protocol : Z) : K Z :=
  self ← current;
  match sock_args domain type protocol with
  | Some e => mret e
  | None =>
      slot ← fd_alloc_slot self;
      match slot with
      | None => mret (-24)
      | Some slot =>
          o ← ofd_alloc;
          match o with
          | None => mret (-24)
          | Some o =>
              modo o (fun x => x <| o_kind := OFD_SOCK |> <| o_pipe_idx := -1 |>
                                 <| o_peer_idx := -1 |> <| o_refcount := 1 |>) ;;
              set_fd self slot o ;;
              mret slot
          end
      end
  end.

(** An unconnected stream socket. *)
Definition unconnected (o : ofd) : bool :=
  bool_decide (o_kind o = OFD_SOCK) && (o_pipe_idx o <? 0).

Definition do_bind (fd_num addr_uva addrlen : Z) : K Z :=
  self ← current;
  o ← fd_ofd self fd_num;
  match o with
  | None => mret (- QOS_EINVAL)
  | Some (oi, o) =>
      if negb (unconnected o) then mret (- QOS_EINVAL)
      else
        fam ← as_read16 self addr_uva;
        if negb (fam =? AF_UNIX) then mret (- QOS_EINVAL)
        else
          path ← read_sun_path self addr_uva;
          dup ← unix_bind_lookup path;
          match dup with
          | Some _ => mret (- QOS_EADDRINUSE)
          | None =>
              bi ← gets (fun s => find_index (fun b => negb (b_used b)) (g_unix_bind s));
              match bi with
              | None => mret (- QOS_ENOSPC)
              | Some bi =>
                  let bi := Z.of_nat bi in
                  modb bi (fun b =>
                    b <| b_used := true |> <| b_listening := false |>
                      <| b_backlog := QUESOS_MAX_UNIX_BACKLOG |> <| b_pending_head := 0 |>
                      <| b_pending_tail := 0 |> <| b_pending_count := 0 |>
                      <| b_path := cap_copy QUESOS_PATH_CAP path |>) ;;
                  modo oi (fun o => o <| o_kind := OFD_SOCK_LISTEN |> <| o_native_fd := bi |>) ;;
                  mret 0
              end
          end
  end.

Definition do_listen (fd_num backlog : Z) : K Z :=
  self ← current;
  o ← fd_ofd self fd_num;
  match o with
  | None => mret (- QOS_EINVAL)
  | Some (_, o) =>
      if negb (bool_decide (o_kind o = OFD_SOCK_LISTEN)) then mret (- QOS_EINVAL)
      else
        let backlog := if backlog <? 1 then 1 else backlog in
        let backlog := if QUESOS_MAX_UNIX_BACKLOG <? backlog then QUESOS_MAX_UNIX_BACKLOG else backlog in
        modb (i32 (o_native_fd o)) (fun b => b <| b_backlog := backlog |> <| b_listening := true |>) ;;
        mret 0
  end.

Definition do_connect (fd_num addr_uva addrlen : Z) : K Z :=
  self ← current;
  o ← fd_ofd self fd_num;
  match o with
  | None => mret (- QOS_EINVAL)
  | Some (cofd, o) =>
      if negb (unconnected o) then mret (- QOS_EINVAL)
      else
        path ← read_sun_path self addr_uva;
        bi ← unix_bind_lookup path;
        match bi with
        | None => mret (- QOS_ECONNREFUSED)
        | Some bi =>
            b ← getb bi;
            if negb (b_listening b) then mret (- QOS_ECONNREFUSED)
            else
              a ← gets (fun s => find_index (fun p => parked_on p BLK_ACCEPT bi) (g_proc s));
              match a with
              | Some a =>
                  afd ← socket_handshake a cofd;
                  match afd with
                  | None => mret (- QOS_ECONNREFUSED)
                  | Some afd =>
                      pc ← getp a;
                      when (negb (p_block_buf pc =? 0))
                        (write_empty_sockaddr a (p_block_buf pc) (u64 (p_block_count pc))) ;;
                      wake_with a afd ;;
                      mret 0
                  end
              | None =>
                  if b_backlog b <=? b_pending_count b then mret (- QOS_ECONNREFUSED)
                  else
                    c ← getp self;
                    modb bi (fun b =>
                      b <| b_pending_pid := zinsert (b_pending_tail b) (p_pid c) (b_pending_pid b) |>
                        <| b_pending_ofd := zinsert (b_pending_tail b) cofd (b_pending_ofd b) |>
                        <| b_pending_tail := (b_pending_tail b + 1) mod QUESOS_MAX_UNIX_BACKLOG |>
                        <| b_pending_count := b_pending_count b + 1 |>) ;;
                    modp self (fun c => c <| p_block_kind := BLK_CONNECT |> <| p_block_pipe := bi |>
                                          <| p_state := P_BLOCKED |>) ;;
                    poll_recheck_all ;;
                    k_schedule ;; mret 0
              end
        end
  end.

Definition do_accept (fd_num addr_uva addrlen_uva : Z) : K Z :=
  self ← current;
  o ← fd_ofd self fd_num;
  match o with
  | None => mret (- QOS_EINVAL)
  | Some (_, o) =>
      if negb (bool_decide (o_kind o = OFD_SOCK_LISTEN)) then mret (- QOS_EINVAL)
      else
        let bi := i32 (o_native_fd o) in
        b ← getb bi;
        if 0 <? b_pending_count b then
          let pid := zget (b_pending_pid b) (b_pending_head b) in
          let cofd := zget (b_pending_ofd b) (b_pending_head b) in
          modb bi (fun b =>
            b <| b_pending_head := (b_pending_head b + 1) mod QUESOS_MAX_UNIX_BACKLOG |>
              <| b_pending_count := b_pending_count b - 1 |>) ;;
          conn ← find_by_pid pid;
          match conn with
          | None => mret (- QOS_ECONNREFUSED)
          | Some conn =>
              pc ← getp conn;
              if negb (parked pc BLK_CONNECT) then mret (- QOS_ECONNREFUSED)
              else
                afd ← socket_handshake self cofd;
                match afd with
                | None => wake_with conn (- QOS_ECONNREFUSED) ;; mret (-24)
                | Some afd =>
                    when (negb (addr_uva =? 0)) (write_empty_sockaddr self addr_uva addrlen_uva) ;;
                    wake_with conn 0 ;;
                    mret afd
                end
          end
        else
          modp self (fun c => c <| p_block_kind := BLK_ACCEPT |> <| p_block_pipe := bi |>
                                <| p_block_buf := addr_uva |> <| p_block_count := i64 addrlen_uva |>
                                <| p_state := P_BLOCKED |>) ;;
          k_schedule ;; mret 0
  end.

(** [if (o >= 0) g_ofd[o].kind = OFD_FREE] *)
Definition release_ofd (o : option Z) : K unit :=
  match o with Some o => modo o (fun x => x <| o_kind := OFD_FREE |>) | None => mret tt end.

Definition do_socketpair (domain type protocol sv_uva : Z) : K Z :=
  self ← current;
  match sock_args domain type protocol with
  | Some e => mret e
  | None =>
      x ← alloc_ring;
      match x with
      | None => mret (-24)
      | Some x =>
          y ← alloc_ring;
          match y with
          | None => free_ring x ;; mret (-24)
          | Some y =>
              s0 ← fd_alloc_slot self;
              o0 ← ofd_alloc;
              match s0, o0 with
              | Some s0, Some o0 =>
                  set_fd self s0 o0 ;;
                  s1 ← fd_alloc_slot self;
                  o1 ← ofd_alloc;
                  match s1, o1 with
                  | Some s1, Some o1 =>
                      set_fd self s1 o1 ;;
                      modo o0 (fun o => o <| o_kind := OFD_SOCK |> <| o_pipe_idx := x |>
                                          <| o_peer_idx := y |> <| o_refcount := 1 |>) ;;
                      modo o1 (fun o => o <| o_kind := OFD_SOCK |> <| o_pipe_idx := y |>
                                          <| o_peer_idx := x |> <| o_refcount := 1 |>) ;;
                      as_write32 self sv_uva s0 ;;
                      as_write32 self (u64 (sv_uva + 4)) s1 ;;
                      mret 0
                  | _, _ =>
                      free_ring x ;; free_ring y ;;
                      set_fd self s0 (-1) ;; release_ofd (Some o0) ;; release_ofd o1 ;;
                      mret (-24)
                  end
              | _, _ => free_ring x ;; free_ring y ;; release_ofd o0 ;; mret (-24)
              end
          end
      end
  end.

Definition do_poll (fds_uva nfds timeout_ms : Z) : K Z :=
  self ← current;
  modp self (fun c => c <| p_poll_mode := 0 |> <| p_poll_fds_uva := i64 fds_uva |>
                        <| p_poll_nfds := i64 nfds |>) ;;
  ready ← poll_evaluate self true;
  if 0 <? ready then mret ready
  else if timeout_ms =? 0 then mret 0
  else
    deadline ←
      (if timeout_ms <? 0 then mret 0
       else now ← host h_clock_ms; mret (u64 (now + u64 timeout_ms)));
    modp self (fun c => c <| p_poll_deadline_ms := deadline |> <| p_block_kind := BLK_POLL |>
                          <| p_state := P_BLOCKED |>) ;;
    k_schedule ;; mret 0.

Definition do_select (nfds r_uva w_uva e_uva tv_uva : Z) : K Z :=
  self ← current;
  modp self (fun c => c <| p_poll_mode := 1 |> <| p_poll_nfds := nfds |>
                        <| p_poll_r_uva := r_uva |> <| p_poll_w_uva := w_uva |>
                        <| p_poll_e_uva := e_uva |>) ;;
  rb ← (if r_uva =? 0 then mret 0 else as_read64 self r_uva);
  wb ← (if w_uva =? 0 then mret 0 else as_read64 self w_uva);
  modp self (fun c => c <| p_poll_r_bits := rb |> <| p_poll_w_bits := wb |>) ;;
  ready ← poll_evaluate self true;
  if 0 <? ready then mret ready
  else
    deadline ←
      (if tv_uva =? 0 then mret (Some 0)
       else
         sec ← as_read64 self tv_uva;
         usec ← as_read64 self (u64 (tv_uva + 8));
         if (sec =? 0) && (usec =? 0) then mret None
         else now ← host h_clock_ms; mret (Some (u64 (now + sec * 1000 + usec / 1000))));
    match deadline with
    | None => mret 0
    | Some deadline =>
        modp self (fun c => c <| p_poll_deadline_ms := deadline |> <| p_block_kind := BLK_POLL |>
                              <| p_state := P_BLOCKED |>) ;;
        k_schedule ;; mret 0
    end.

End Sockets.
