(* ===== verification/Process.v ===== *)
(** * Processes: loading, fork, execve, wait, exit

    The image loader and start block, process creation and replacement, and
    the signal system calls (quesos.c, "Image load + first-entry stack",
    [spawn], [do_fork] to [do_execve], [do_kill] to [do_getpgid]). *)
From Stdlib Require Import ZArith Lia Bool String.
From stdpp Require Import base list numbers.
From S2P Require Import Prelude Monad State Memory Support Paging Files Signals FileCalls.

(** The four magic bytes of a .mzx image. *)
Definition mzx_magic (hdr : list Z) : bool :=
  (zget hdr 0 =? 77) && (zget hdr 1 =? 90) && (zget hdr 2 =? 88) && (zget hdr 3 =? 1).

Definition QOS_WNOHANG : Z := 1.
Definition QOS_WUNTRACED : Z := 2.

Definition fork_region_excluded (l1_idx : Z) : bool :=
  let va := Z.shiftl l1_idx 21 in
  (va =? FB_MMAP_BASE) || ((BIGALLOC_BASE <=? va) && (va <? BIGALLOC_BASE + BIGALLOC_MAX)).

Section Process.
Context {H : Type} `{Host H}.
Abbreviation K := (M (kst H)).

(** *** Loader *)

(** [read_exact_at]: [Some bytes] on success.  A turn reads at least one
    byte. *)
Fixpoint read_exact_loop (fuel : nat) (fd n got : Z) (acc : list Z) : K (option (list Z)) :=
  match fuel with
  | O => stop OutOfFuel
  | S fuel' =>
      if n <=? got then mret (Some acc)
      else
        '(r, data) ← host (h_read fd (n - got));
        if r <=? 0 then mret None
        else read_exact_loop fuel' fd n (got + r) (acc ++ take (Z.to_nat r) data)
  end.
Definition read_exact_at (fd off n : Z) : K (option (list Z)) :=
  r ← host (h_lseek fd (i64 off) 0);
  if r <? 0 then mret None else read_exact_loop (S (Z.to_nat n)) fd n 0 [].

(** Stream [file_size] bytes to [vaddr] in g_iobuf-sized chunks; [false] on a
    short read. *)
Fixpoint load_stream (fuel : nat) (p : nat) (fd vaddr file_size dn : Z) : K bool :=
  match fuel with
  | O => stop OutOfFuel
  | S fuel' =>
      if file_size <=? dn then mret true
      else
        let want := file_size - dn in
        let want := if QUESOS_IOBUF_CAP <? want then QUESOS_IOBUF_CAP else want in
        r ← sys_read fd want;
        if r <=? 0 then mret false
        else
          buf ← gets g_iobuf;
          as_write_bytes p (u64 (vaddr + dn)) buf r ;;
          load_stream fuel' p fd vaddr file_size (dn + r)
  end.

(** One segment; [Some top] is the running maximum of segment ends. *)
Definition load_segment (p : nat) (fd : Z) (path : list Z) (so top_va : Z) : K (option Z) :=
  seg ← read_exact_at fd so MZX_SEGMENT_SIZE;
  match seg with
  | None => host (h_close fd) ;; mret None
  | Some seg =>
      let vaddr := rd_u64 seg 8 in
      let file_off := rd_u64 seg 16 in
      let mem_size := rd_u64 seg 24 in
      let file_size := rd_u64 seg 32 in
      let seg_end := u64 (vaddr + mem_size) in
      if USER_BRK_MAX <? seg_end then
        host (h_close fd) ;;
        qos_puts (cs "[quesos] image exceeds user address space (segment past USER_BRK_MAX): ") ;;
        qos_puts path ;; qos_puts (csn "") ;;
        mret None
      else
        ensure_user_range p (page_of vaddr) seg_end ;;
        ok ←
          (if 0 <? file_size then
             r ← host (h_lseek fd (i64 file_off) 0);
             if r <? 0 then mret false
             else load_stream (S (Z.to_nat file_size)) p fd vaddr file_size 0
           else mret true);
        if negb ok then host (h_close fd) ;; mret None
        else
          when (file_size <? mem_size)
            (as_fill_bytes p (u64 (vaddr + file_size)) 0 (mem_size - file_size)) ;;
          mret (Some (if top_va <? seg_end then seg_end else top_va))
  end.

Fixpoint load_segment_loop (n : nat) (p : nat) (fd : Z) (path : list Z) (shoff i top_va : Z) : K (option Z) :=
  match n with
  | O => mret (Some top_va)
  | S n' =>
      top ← load_segment p fd path (u64 (shoff + i * MZX_SEGMENT_SIZE)) top_va;
      match top with
      | None => mret None
      | Some top => load_segment_loop n' p fd path shoff (i + 1) top
      end
  end.

(** [Some entry] is the C result 0 with [*entry_out] set. *)
Definition load_segments (p : nat) (path : list Z) : K (option Z) :=
  fd ← host (h_open path 0 0);
  if fd <? 0 then mret None
  else
    hdr ← read_exact_at fd 0 MZX_HEADER_SIZE;
    match hdr with
    | Some hdr =>
        if mzx_magic hdr then
          let seg_count := rd_u16 hdr 6 in
          let entry := rd_u64 hdr 8 in
          let shoff := rd_u64 hdr 16 in
          top ← load_segment_loop (Z.to_nat seg_count) p fd path shoff 0 0;
          match top with
          | None => mret None
          | Some top_va =>
              host (h_close fd) ;;
              modp p (fun c => c <| p_brk_cur := clr (u64 (top_va + PAGE_SIZE - 1)) (PAGE_SIZE - 1) |>) ;;
              mret (Some entry)
          end
        else
          host (h_close fd) ;;
          qos_puts (cs "[quesos] not a loadable .mzx image: ") ;; qos_puts path ;; qos_puts (csn "") ;;
          mret None
    | None =>
        host (h_close fd) ;;
        qos_puts (cs "[quesos] not a loadable .mzx image: ") ;; qos_puts path ;; qos_puts (csn "") ;;
        mret None
    end.

(** Pointers [str_base + g_arg_off[i]] stored from [slot] on. *)
Fixpoint write_ptrs (p : nat) (slot str_base : Z) (offs : list Z) : K unit :=
  match offs with
  | [] => mret tt
  | o :: offs' => as_write64 p slot (u64 (str_base + o)) ;; write_ptrs p (u64 (slot + 8)) str_base offs'
  end.

Definition build_start_block (p : nat) (entry : Z) : K unit :=
  pack ← gets g_arg_pack;
  argc ← gets g_arg_argc;
  envc ← gets g_arg_envc;
  strbuf ← gets g_arg_strbuf;
  offs ← gets g_arg_off;
  let top := USER_STACK_TOP in
  let str_base := u64 (top - pack) in
  let nptr := 1 + argc + 1 + envc + 1 in
  let argc_va := clr (u64 (str_base - nptr * 8)) 15 in
  let aux_va := u64 (argc_va - 32) in
  let regs_base := u64 (aux_va - 13 * 8) in
  ensure_user_range p (top - USER_STACK_PAGES * PAGE_SIZE) top ;;
  as_write_list p str_base (take (Z.to_nat pack) strbuf) ;;
  as_write64 p argc_va argc ;;
  write_ptrs p (u64 (argc_va + 8)) str_base (take (Z.to_nat argc) offs) ;;
  as_write64 p (u64 (argc_va + 8 + argc * 8)) 0 ;;
  write_ptrs p (u64 (argc_va + 16 + argc * 8)) str_base
    (take (Z.to_nat envc) (drop (Z.to_nat argc) offs)) ;;
  as_write64 p (u64 (argc_va + 16 + (argc + envc) * 8)) 0 ;;
  as_write64 p (u64 (argc_va - 8)) entry ;;
  as_write64 p (u64 (argc_va - 16)) USER_RF ;;
  as_write64 p (u64 (argc_va - 24)) 0 ;;
  as_write64 p aux_va 0 ;;
  for_ 0 13 (fun k => as_write64 p (u64 (regs_base + Z.of_nat k * 8)) 0) ;;
  modp p (fun c => c <| p_saved_rs := regs_base |>).

Definition alloc_pcb : K (option nat) :=
  gets (fun s => find_index (fun p => bool_decide (p_state p = P_FREE)) (g_proc s)).

Definition take_pid : K Z :=
  pid ← gets g_next_pid; modify (fun s => s <| g_next_pid := g_next_pid s + 1 |>) ;; mret pid.

(** *** fork *)

(** User pages under the L0 table [pl0]. *)
Fixpoint count_user_pages (n : nat) (pl0 ii needed : Z) : K Z :=
  match n with
  | O => mret needed
  | S n' =>
      p0 ← pte_get pl0 ii;
      count_user_pages n' pl0 (ii + 1) (if has p0 PTE_V && has p0 PTE_U then needed + 1 else needed)
  end.

(** An L1 entry fork copies: a table pointer outside the excluded windows. *)
Definition fork_copies (ppte1 l1_idx : Z) : bool :=
  has ppte1 PTE_V && negb (has ppte1 (Z.lor (Z.lor PTE_R PTE_W) PTE_X))
  && negb (fork_region_excluded l1_idx).

Fixpoint fork_needed (n : nat) (l1_pa l1_idx needed : Z) : K Z :=
  match n with
  | O => mret needed
  | S n' =>
      ppte1 ← pte_get l1_pa l1_idx;
      needed' ← (if fork_copies ppte1 l1_idx then count_user_pages 512 (page_of ppte1) 0 needed
                 else mret needed);
      fork_needed n' l1_pa (l1_idx + 1) needed'
  end.

Definition fork_copy_region (parent_l0 child_l0 : Z) : K unit :=
  for_ 0 512 (fun idx =>
    ppte0 ← pte_get parent_l0 (Z.of_nat idx);
    when (has ppte0 PTE_V && has ppte0 PTE_U)
      (cframe ← alloc_frame;
       memcpy cframe (page_of ppte0) PAGE_SIZE ;;
       pte_set child_l0 (Z.of_nat idx) (Z.lor (page_of cframe) PTE_USER))).

Definition fork_copy (parent_l1 : Z) (child : nat) : K unit :=
  for_ 0 512 (fun l1_idx =>
    ppte1 ← pte_get parent_l1 (Z.of_nat l1_idx);
    when (fork_copies ppte1 (Z.of_nat l1_idx))
      (child_l0 ← ensure_l0 child (Z.shiftl (Z.of_nat l1_idx) 21);
       fork_copy_region (page_of ppte1) child_l0)).

(** The fields of a new child. *)
Definition fork_child (par : pcb) (pid : Z) (c : pcb) : pcb :=
  c <| p_state := P_RUNNABLE |> <| p_pid := pid |> <| p_parent := p_pid par |>
    <| p_exit_status := 0 |> <| p_wait_for := 0 |> <| p_wait_status_uva := 0 |>
    <| p_block_kind := BLK_NONE |> <| p_fb_slot := -1 |> <| p_fb_mmap_va := 0 |>
    <| p_bigalloc_next := BIGALLOC_BASE |> <| p_pgid := p_pgid par |>
    <| p_pending := 0 |> <| p_blocked := p_blocked par |> <| p_term_signal := 0 |>
    <| p_in_handler := false |> <| p_stop_signal := 0 |> <| p_stop_reported := false |>
    <| p_termios_valid := false |> <| p_handler := p_handler par |>
    <| p_path := p_path par |> <| p_cwd := p_cwd par |> <| p_brk_cur := p_brk_cur par |>.

Definition do_fork : K Z :=
  parent ← current;
  pc ← getp parent;
  needed ← fork_needed 512 (p_l1_pa pc) 0 16;
  pool ← gets g_pool_next;
  if POOL_TOP <? u64 (pool + u64 (needed * PAGE_SIZE)) then mret (-11)
  else
    child ← alloc_pcb;
    match child with
    | None => mret (-11)
    | Some child =>
        pid ← take_pid;
        modp child (fork_child pc pid) ;;
        fdtable_copy child parent ;;
        build_address_space child ;;
        fork_copy (p_l1_pa pc) child ;;
        modp child (fun c => c <| p_saved_rs := p_saved_rs pc |>) ;;
        as_write64 child (u64 (p_saved_rs pc + 11 * 8)) 0 ;;
        mret pid
    end.

(** *** wait, exit *)

Definition has_child (parent_pid wpid : Z) : K bool :=
  gets (fun s => existsb (fun c =>
    negb (bool_decide (p_state c = P_FREE)) && (p_parent c =? parent_pid)
    && ((wpid <=? 0) || (p_pid c =? wpid))) (g_proc s)).

Fixpoint wait_scan (n i : nat) (parent : nat) (ppid wpid status_uva options : Z) : K (option Z) :=
  match n with
  | O => mret None
  | S n' =>
      c ← getp i;
      let mine := (p_parent c =? ppid) && ((wpid <=? 0) || (p_pid c =? wpid)) in
      if bool_decide (p_state c = P_ZOMBIE) && mine then
        when (negb (status_uva =? 0)) (as_write32 parent status_uva (wait_status c)) ;;
        modp i (fun c => c <| p_state := P_FREE |>) ;;
        mret (Some (p_pid c))
      else if has options QOS_WUNTRACED && bool_decide (p_state c = P_STOPPED)
              && negb (p_stop_reported c) && mine then
        modp i (fun c => c <| p_stop_reported := true |>) ;;
        when (negb (status_uva =? 0)) (as_write32 parent status_uva (wait_status c)) ;;
        mret (Some (p_pid c))
      else wait_scan n' (S i) parent ppid wpid status_uva options
  end.

Definition do_wait (wpid status_uva options : Z) : K Z :=
  parent ← current;
  pc ← getp parent;
  r ← wait_scan QUESOS_MAX_PROC 0 parent (p_pid pc) wpid status_uva options;
  match r with
  | Some pid => mret pid
  | None =>
      any ← has_child (p_pid pc) wpid;
      if negb any then mret (-10)
      else if has options QOS_WNOHANG then mret 0
      else
        modp parent (fun c => c <| p_wait_for := wpid |> <| p_wait_status_uva := status_uva |>
                                <| p_block_kind := BLK_WAIT |> <| p_state := P_BLOCKED |>) ;;
        k_schedule ;; mret 0
  end.

Definition do_exit (status : Z) : K unit :=
  self ← current;
  modp self (fun c => c <| p_exit_status := status |> <| p_term_signal := 0 |>) ;;
  k_reap_tail self ;;
  k_schedule.

(** *** execve *)

(** One string: characters while the buffer has room for a NUL after them,
    then the NUL.  A NUL stored at or past the end of g_arg_strbuf is a wild
    write. *)
Fixpoint marshal_str (fuel : nat) (sp : Z) : K unit :=
  match fuel with
  | O => stop OutOfFuel
  | S fuel' =>
      c ← kload8 sp;
      pack ← gets g_arg_pack;
      if negb (c =? 0) && (pack <? QUESOS_ARGBUF - 1) then
        modify (fun s => s <| g_arg_strbuf := g_arg_strbuf s ++ [c] |>
                           <| g_arg_pack := g_arg_pack s + 1 |>) ;;
        marshal_str fuel' (u64 (sp + 1))
      else if pack <? QUESOS_ARGBUF then
        modify (fun s => s <| g_arg_strbuf := g_arg_strbuf s ++ [0] |>
                           <| g_arg_pack := g_arg_pack s + 1 |>)
      else stop Wild
  end.

(** Returns the number of strings copied. *)
Fixpoint marshal_vec (max_more : nat) (vec_uva n : Z) : K Z :=
  match max_more with
  | O => mret n
  | S max' =>
      sp ← kload 8 (u64 (vec_uva + n * 8));
      if sp =? 0 then mret n
      else
        modify (fun s => s <| g_arg_off := g_arg_off s ++ [g_arg_pack s] |>) ;;
        pack ← gets g_arg_pack;
        marshal_str (S (Z.to_nat (QUESOS_ARGBUF - pack))) sp ;;
        marshal_vec max' vec_uva (n + 1)
  end.

(** Handlers above the SIG_DFL and SIG_IGN sentinels go back to SIG_DFL. *)
Definition reset_handlers (l : list Z) : list Z := map (fun h => if 1 <? h then 0 else h) l.

Definition do_execve (path_uva argv_uva envp_uva : Z) : K Z :=
  self ← current;
  kpath ← resolve_path path_uva;
  pfd ← host (h_open kpath 0 0);
  if pfd <? 0 then mret (- QOS_ENOENT)
  else
    phdr ← read_exact_at pfd 0 MZX_HEADER_SIZE;
    host (h_close pfd) ;;
    if negb (match phdr with Some h => mzx_magic h | None => false end) then mret (- QOS_ENOEXEC)
    else
      modify (fun s => s <| g_arg_strbuf := [] |> <| g_arg_off := [] |> <| g_arg_pack := 0 |>) ;;
      argc ← (if argv_uva =? 0 then mret 0 else marshal_vec (Z.to_nat QUESOS_MAX_ARG) argv_uva 0);
      envc ← (if envp_uva =? 0 then mret 0
              else marshal_vec (Z.to_nat (QUESOS_MAX_ARG - argc)) envp_uva 0);
      modify (fun s => s <| g_arg_argc := argc |> <| g_arg_envc := envc |>) ;;
      fb_release_held self ;;
      build_address_space self ;;
      entry ← load_segments self kpath;
      match entry with
      | None => do_exit 127 ;; mret 0
      | Some entry =>
          build_start_block self entry ;;
          modp self (fun c => c <| p_handler := reset_handlers (p_handler c) |>
                                <| p_in_handler := false |> <| p_sig_saved_rs := 0 |>
                                <| p_path := cap_copy QUESOS_PATH_CAP kpath |>) ;;
          mret 0
      end.

(** *** Signal calls *)

Definition do_kill (pid sig : Z) : K Z :=
  if (sig <? 1) || (31 <? sig) then mret (- QOS_EINVAL)
  else if 0 <? pid then
    p ← find_by_pid pid;
    match p with
    | None => mret (- QOS_ESRCH)
    | Some p => k_raise_on_pcb p sig ;; mret 0
    end
  else
    pg ← (if pid =? 0 then self ← current; c ← getp self; mret (p_pgid c) else mret (i64 (- pid)));
    found ← k_raise_on_pgid pg sig;
    mret (if found : bool then 0 else - QOS_ESRCH).

Definition do_rt_sigaction (sig act_uva oldact_uva : Z) : K Z :=
  self ← current;
  if (sig <? 1) || (31 <? sig) then mret (- QOS_EINVAL)
  else if sig =? SIGKILL then mret (- QOS_EINVAL)
  else if sig =? SIGSTOP then mret (- QOS_EINVAL)
  else
    c ← getp self;
    when (negb (oldact_uva =? 0))
      (as_write64 self oldact_uva (handler c sig) ;;
       as_write64 self (u64 (oldact_uva + 8)) 0 ;;
       as_write32 self (u64 (oldact_uva + 16)) 0) ;;
    when (negb (act_uva =? 0))
      (h ← kload 8 act_uva;
       modp self (fun c => c <| p_handler := zinsert sig h (p_handler c) |>)) ;;
    mret 0.

(** SIGKILL and SIGSTOP cannot be blocked. *)
Definition blockable (set : Z) : Z := clr (clr set (sigbit SIGKILL)) (sigbit SIGSTOP).

Definition do_rt_sigprocmask (how set_uva oldset_uva : Z) : K Z :=
  self ← current;
  c ← getp self;
  when (negb (oldset_uva =? 0)) (as_write64 self oldset_uva (p_blocked c)) ;;
  when (negb (set_uva =? 0))
    (raw ← kload 8 set_uva;
     let set := blockable raw in
     modp self (fun c =>
       if how =? 0 then c <| p_blocked := Z.lor (p_blocked c) set |>
       else if how =? 1 then c <| p_blocked := clr (p_blocked c) set |>
       else if how =? 2 then c <| p_blocked := set |>
       else c) ;;
     k_deliver_pending_signal self) ;;
  mret 0.

Definition do_rt_sigsuspend (mask_uva : Z) : K Z :=
  self ← current;
  raw ← (if mask_uva =? 0 then mret 0 else kload 8 mask_uva);
  modp self (fun c => c <| p_suspend_mask_save := p_blocked c |> <| p_blocked := blockable raw |>) ;;
  c ← getp self;
  if negb (ready c =? 0) then
    k_deliver_pending_signal self ;;
    modp self (fun c => c <| p_blocked := p_suspend_mask_save c |>) ;;
    mret (- QOS_EINTR)
  else
    modp self (fun c => c <| p_block_kind := BLK_SIGSUSPEND |> <| p_state := P_BLOCKED |>) ;;
    k_schedule ;; mret 0.

(** [pid == 0] names the caller. *)
Definition target_pid (pid : Z) : K (option nat) :=
  if pid =? 0 then gets g_current else find_by_pid pid.

Definition do_setpgid (pid pgid : Z) : K Z :=
  p ← target_pid pid;
  match p with
  | None => mret (- QOS_ESRCH)
  | Some p => modp p (fun c => c <| p_pgid := if pgid =? 0 then p_pid c else pgid |>) ;; mret 0
  end.
Definition do_getpgid (pid : Z) : K Z :=
  p ← target_pid pid;
  match p with
  | None => mret (- QOS_ESRCH)
  | Some p => c ← getp p; mret (p_pgid c)
  end.

End Process.
