(* ===== verification/Boot.v ===== *)
(** * Boot: environment and argument capture, spawning the worklist

    quesos.c: [boot_env_capture] to [marshal_boot_entry], [spawn] and
    [quesos_main].  The launcher's argv and envp are lists of strings.  The
    capture buffers are the packed bytes written so far with the table of
    string offsets, as in the C. *)
From Stdlib Require Import ZArith Lia Bool String.
From stdpp Require Import base list numbers.
From S2P Require Import Prelude Monad State Memory Support Paging Files Signals FileCalls Process.

(** A string with its terminator, as packed. *)
Definition packed (s : list Z) : list Z := s ++ [0].

(** The suffix of an offset table after one entry is stripped. *)
Definition strip (i : nat) (l : list Z) : list Z := take i l ++ drop (S i) l.

Section Boot.
Context {H : Type} `{Host H}.
Abbreviation K := (M (kst H)).

Definition boot_envc (s : kst H) : Z := Z.of_nat (length (g_boot_env_off s)).
(** Entry [i] of the captured environment. *)
Definition boot_env_entry (s : kst H) (i : nat) : list Z :=
  cstr_at (g_boot_envbuf s) (zget (g_boot_env_off s) (Z.of_nat i)).

Fixpoint boot_env_loop (envp : list (list Z)) (dropped : Z) : K Z :=
  match envp with
  | [] => mret dropped
  | src :: envp' =>
      s ← get;
      let len := Z.of_nat (length src) + 1 in
      if (QUESOS_MAX_ENV <=? boot_envc s) || (QUESOS_ENVBUF <? g_boot_env_pack s + len)
      then boot_env_loop envp' (dropped + 1)
      else
        modify (fun s => s <| g_boot_envbuf := g_boot_envbuf s ++ packed src |>
                           <| g_boot_env_off := g_boot_env_off s ++ [g_boot_env_pack s] |>
                           <| g_boot_env_pack := g_boot_env_pack s + len |>) ;;
        boot_env_loop envp' dropped
  end.

Definition boot_env_capture (envp : list (list Z)) : K unit :=
  modify (fun s => s <| g_boot_envbuf := [] |> <| g_boot_env_off := [] |> <| g_boot_env_pack := 0 |>) ;;
  dropped ← boot_env_loop envp 0;
  when (0 <? dropped)
    (qos_puts (cs "[quesos] warning: launcher environment truncated; dropped ") ;;
     qos_put_u64 dropped ;;
     qos_puts (csn " entries over the env caps")).

(** The first captured entry with key [key], counted from [i]. *)
Fixpoint find_env (n i : nat) (key : list Z) (s : kst H) : option nat :=
  match n with
  | O => None
  | S n' => if env_key_is (boot_env_entry s i) key then Some i else find_env n' (S i) key s
  end.
Definition env_index (key : list Z) (s : kst H) : option nat :=
  find_env (length (g_boot_env_off s)) 0 key s.

Definition strip_env (i : nat) : K unit :=
  modify (fun s => s <| g_boot_env_off := strip i (g_boot_env_off s) |>).

Definition boot_env_extract_init : K unit :=
  modify (fun s => s <| g_init_path := [] |> <| g_init_path_set := false |>) ;;
  s ← get;
  match env_index (cs "QUESOS_INIT") s with
  | None => mret tt
  | Some i =>
      let val := cap_copy QUESOS_PATH_CAP (drop 12 (boot_env_entry s i)) in
      modify (fun s => s <| g_init_path := val |>
                         <| g_init_path_set := negb (bool_decide (val = [])) |>) ;;
      strip_env i
  end.

Definition boot_env_extract_verbose : K unit :=
  s ← get;
  match env_index (cs "QUESOS_VERBOSE") s with
  | None => mret tt
  | Some i =>
      let val := drop 15 (boot_env_entry s i) in
      when (negb (bool_decide (val = []))) (modify (fun s => s <| g_verbose := true |>)) ;;
      strip_env i
  end.

Definition boot_env_add_default (key val : list Z) : K unit :=
  s ← get;
  match env_index key s with
  | Some _ => mret tt
  | None =>
      if QUESOS_MAX_ENV <=? boot_envc s then mret tt
      else
        let entry := key ++ [61] ++ val in
        let total := Z.of_nat (length entry) + 1 in
        if QUESOS_ENVBUF <? g_boot_env_pack s + total then mret tt
        else
          modify (fun s => s <| g_boot_envbuf := g_boot_envbuf s ++ packed entry |>
                             <| g_boot_env_off := g_boot_env_off s ++ [g_boot_env_pack s] |>
                             <| g_boot_env_pack := g_boot_env_pack s + total |>)
  end.

Definition boot_env_add_login_defaults : K unit :=
  boot_env_add_default (cs "HOME") (cs "/root") ;;
  boot_env_add_default (cs "USER") (cs "root") ;;
  boot_env_add_default (cs "LOGNAME") (cs "root") ;;
  boot_env_add_default (cs "SHELL") (cs "/bin/oksh.mzx") ;;
  boot_env_add_default (cs "PATH") (cs "/bin").

(** *** The boot worklist *)

(** Record entry [start, start + ntok) of g_boot_arg_off as worklist entry
    g_worklist_count. *)
Definition push_entry (start ntok : Z) : K unit :=
  modify (fun s =>
    let p0 := cstr_at (g_boot_argstrbuf s) (zget (g_boot_arg_off s) start) in
    s <| g_pathbuf := g_pathbuf s ++ [cap_copy QUESOS_PATH_CAP p0] |>
      <| g_boot_entry_start := g_boot_entry_start s ++ [start] |>
      <| g_boot_entry_argc := g_boot_entry_argc s ++ [ntok] |>
      <| g_worklist_count := g_worklist_count s + 1 |>).

(** Append one token to the packed capture. *)
Definition pack_token (src : list Z) : K unit :=
  modify (fun s => s <| g_boot_arg_off := g_boot_arg_off s ++ [Z.of_nat (length (g_boot_argstrbuf s))] |>
                     <| g_boot_argstrbuf := g_boot_argstrbuf s ++ packed src |>).

Definition synthesize_default_init : K unit :=
  s ← get;
  let tok := if g_init_path_set s then [g_init_path s] else [cs "/bin/oksh.mzx"; cs "-l"] in
  (fix go (l : list (list Z)) : K unit :=
     match l with [] => mret tt | t :: l' => pack_token t ;; go l' end) tok ;;
  push_entry 0 (Z.of_nat (length tok)).

(** Gather one segment's tokens: the remaining argv (from the separator on),
    the number of tokens kept, and whether a cap was hit. *)
Fixpoint gather (argv : list (list Z)) (tok : Z) (lost : bool) : K (list (list Z) * Z * bool) :=
  match argv with
  | [] => mret ([], tok, lost)
  | src :: argv' =>
      if is_boot_sep src then mret (argv, tok, lost)
      else if lost then gather argv' tok lost
      else
        s ← get;
        if (QUESOS_MAX_ARG <=? tok)
           || (QUESOS_MAX_ARG * Z.of_nat QUESOS_MAX_PROC <=? Z.of_nat (length (g_boot_arg_off s)))
           || (QUESOS_BOOT_ARGBUF <? Z.of_nat (length (g_boot_argstrbuf s)) + Z.of_nat (length src) + 1)
        then gather argv' tok true
        else pack_token src ;; gather argv' (tok + 1) false
  end.

(** Each turn of the outer loop consumes a token or a separator. *)
Fixpoint boot_args_loop (fuel : nat) (argv : list (list Z)) (dropped : Z) : K Z :=
  match fuel, argv with
  | O, _ => stop OutOfFuel
  | S _, [] => mret dropped
  | S fuel', _ :: _ =>
      s ← get;
      let start := Z.of_nat (length (g_boot_arg_off s)) in
      '(rest, tok, lost) ← gather argv 0 false;
      let rest := match rest with [] => [] | _ :: rest' => rest' end in
      n ← gets g_worklist_count;
      if lost || (tok =? 0) || (Z.of_nat QUESOS_MAX_PROC <=? n) then
        modify (fun s' => s' <| g_boot_argstrbuf := take (length (g_boot_argstrbuf s)) (g_boot_argstrbuf s') |>
                             <| g_boot_arg_off := take (length (g_boot_arg_off s)) (g_boot_arg_off s') |>) ;;
        boot_args_loop fuel' rest (dropped + 1)
      else push_entry start tok ;; boot_args_loop fuel' rest dropped
  end.

(** [argv] is argv[1..argc). *)
Definition boot_args_capture (argv : list (list Z)) : K unit :=
  modify (fun s => s <| g_worklist_count := 0 |> <| g_pathbuf := [] |>
                     <| g_boot_argstrbuf := [] |> <| g_boot_arg_off := [] |>
                     <| g_boot_entry_start := [] |> <| g_boot_entry_argc := [] |>) ;;
  dropped ← boot_args_loop (S (length argv)) argv 0;
  when (0 <? dropped)
    (qos_puts (cs "[quesos] warning: boot argv truncated; dropped ") ;;
     qos_put_u64 dropped ;;
     qos_puts (csn " program segment(s) over the boot-arg caps or empty (`--`) segments")).

(** Append one string to g_arg_strbuf; [false] when it does not fit. *)
Definition push_arg (src : list Z) : K bool :=
  pack ← gets g_arg_pack;
  let len := Z.of_nat (length src) + 1 in
  if QUESOS_ARGBUF <? pack + len then mret false
  else
    modify (fun s => s <| g_arg_strbuf := g_arg_strbuf s ++ packed src |>
                       <| g_arg_off := g_arg_off s ++ [g_arg_pack s] |>
                       <| g_arg_pack := g_arg_pack s + len |>) ;;
    mret true.

Fixpoint marshal_tokens (l : list (list Z)) : K unit :=
  match l with
  | [] => mret tt
  | src :: l' =>
      argc ← gets g_arg_argc;
      if QUESOS_MAX_ARG <=? argc then mret tt
      else
        ok ← push_arg src;
        if ok : bool
        then modify (fun s => s <| g_arg_argc := g_arg_argc s + 1 |>) ;; marshal_tokens l'
        else mret tt
  end.
Fixpoint marshal_env (l : list (list Z)) : K unit :=
  match l with
  | [] => mret tt
  | src :: l' =>
      s ← get;
      if QUESOS_MAX_ARG <=? g_arg_argc s + g_arg_envc s then mret tt
      else
        ok ← push_arg src;
        if ok : bool
        then modify (fun s => s <| g_arg_envc := g_arg_envc s + 1 |>) ;; marshal_env l'
        else mret tt
  end.

(** The captured tokens of worklist entry [e] and the captured environment. *)
Definition entry_tokens (s : kst H) (e : Z) : list (list Z) :=
  map (fun t => cstr_at (g_boot_argstrbuf s)
        (zget (g_boot_arg_off s) (zget (g_boot_entry_start s) e + Z.of_nat t)))
    (seq 0 (Z.to_nat (zget (g_boot_entry_argc s) e))).
Definition env_entries (s : kst H) : list (list Z) :=
  map (boot_env_entry s) (seq 0 (length (g_boot_env_off s))).

Definition marshal_boot_entry (e : Z) : K unit :=
  modify (fun s => s <| g_arg_strbuf := [] |> <| g_arg_off := [] |> <| g_arg_pack := 0 |>
                     <| g_arg_argc := 0 |> <| g_arg_envc := 0 |>) ;;
  s ← get;
  marshal_tokens (entry_tokens s e) ;;
  marshal_env (env_entries s).

(** The fields of a fresh top-level process. *)
Definition spawn_pcb (path : list Z) (parent pid : Z) (c : pcb) : pcb :=
  c <| p_state := P_RUNNABLE |> <| p_pid := pid |> <| p_parent := parent |>
    <| p_exit_status := 0 |> <| p_block_kind := BLK_NONE |> <| p_fb_slot := -1 |>
    <| p_fb_mmap_va := 0 |> <| p_bigalloc_next := BIGALLOC_BASE |> <| p_pgid := pid |>
    <| p_pending := 0 |> <| p_blocked := 0 |> <| p_term_signal := 0 |> <| p_in_handler := false |>
    <| p_stop_signal := 0 |> <| p_stop_reported := false |> <| p_termios_valid := false |>
    <| p_handler := replicate 32 0 |> <| p_path := cap_copy QUESOS_PATH_CAP path |>
    <| p_cwd := [slash] |>.

Definition spawn (path : list Z) (parent boot_entry : Z) : K (option nat) :=
  p ← alloc_pcb;
  match p with
  | None => mret None
  | Some p =>
      pid ← take_pid;
      modp p (spawn_pcb path parent pid) ;;
      fdtable_init p ;;
      build_address_space p ;;
      entry ← load_segments p path;
      match entry with
      | None =>
          fdtable_close_all p ;;
          modp p (fun c => c <| p_state := P_FREE |>) ;;
          mret None
      | Some entry =>
          marshal_boot_entry boot_entry ;;
          build_start_block p entry ;;
          mret (Some p)
      end
  end.

Definition spawn_entry (i : nat) : K unit :=
  path ← gets (fun s => default [] (g_pathbuf s !! i));
  sp ← spawn path 0 (Z.of_nat i);
  match sp with
  | None => qos_puts (cs "[quesos] cannot start ") ;; qos_puts path ;; qos_puts (csn "")
  | Some p =>
      c ← getp p;
      fg ← gets g_fg_pgid;
      when (fg =? 0) (modify (fun s => s <| g_fg_pgid := p_pgid c |>))
  end.

Definition quesos_main (argv envp : list (list Z)) : K unit :=
  boot_env_capture envp ;;
  boot_env_extract_init ;;
  boot_env_extract_verbose ;;
  boot_env_add_login_defaults ;;
  boot_args_capture argv ;;
  n ← gets g_worklist_count;
  when (n =? 0) synthesize_default_init ;;
  ofd_init ;;
  v ← gets g_verbose;
  n ← gets g_worklist_count;
  when v (qos_puts (cs "[quesos] init: cause-7 handler resident; running ") ;;
          qos_put_u64 n ;; qos_puts (csn " program(s)")) ;;
  for_ 0 (Z.to_nat n) spawn_entry ;;
  host_ h_arm_timer ;;
  k_schedule.

End Boot.
