(* ===== verification/Dispatch.v ===== *)
(** * Traps: the system-call dispatcher, interrupts and page faults

    [quesos_syscall], [quesos_timer_tick], [quesos_keyboard_tick],
    [quesos_console_irq] and [quesos_page_fault], with the trampolines of
    quesos_boot.mazm that enter them. *)
From Stdlib Require Import ZArith Lia Bool String.
From stdpp Require Import base list numbers.
From S2P Require Import Prelude Monad State Memory Support Paging Files Signals FileCalls VmCalls Sockets Process Boot.

Section Dispatch.
Context {H : Type} `{Host H}.
Abbreviation K := (M (kst H)).

(** What a handler left for the trampoline: a result for the RV slot, or a
    context that must not be touched. *)
Definition result (m : K Z) : K (option Z) := r ← m; mret (Some r).

Definition do_rt_sigreturn : K unit :=
  self ← current;
  modp self (fun c => c <| p_saved_rs := p_sig_saved_rs c |> <| p_in_handler := false |>).

Definition unhandled (num : Z) : K Z :=
  v ← gets g_verbose;
  when v (qos_puts (cs "[quesos] unhandled syscall ") ;; qos_put_u64 num ;; qos_puts (csn "")) ;;
  mret (-38).

(** The switch of [quesos_syscall]. *)
Definition syscall_table (num a0 a1 a2 a3 a4 : Z) : K (option Z) :=
  match num with
  | 0x01 => result (do_write a0 a1 (i64 a2))
  | 0x00 => result (do_read a0 a1 (i64 a2))
  | 0x02 => result (do_open a0 (i64 a1) (i64 a2))
  | 0x03 => result (do_close a0)
  | 0x0C => result (do_brk a0)
  | 0x05 => result (do_fstat a0 a1)
  | 0x08 => result (do_lseek a0 (i64 a1) (i64 a2))
  | 0xD9 => result (do_getdents64 a0 a1 (i64 a2))
  | 0x57 => result (do_unlink a0)
  | 0x53 => result (do_mkdir a0 (i64 a1))
  | 0x52 => result (do_rename a0 a1)
  | 0x4D => result (do_ftruncate a0 (i64 a1))
  | 0x50 => result (do_chdir a0)
  | 0x4F => result (do_getcwd a0 (i64 a1))
  | 0x3F => result (do_uname a0)
  | 0xF1 => result (do_tcgetattr a0 a1)
  | 0xF2 => result (do_tcsetattr a0 (i64 a1) a2)
  | 0xF6 => result (do_ttysize a0 a1)
  | 0x16 => result (do_pipe a0)
  | 0x20 => result (do_dup a0)
  | 0x21 => result (do_dup2 a0 a1)
  | 0x27 => result (self ← current; c ← getp self; mret (p_pid c))
  | 0x39 => result do_fork
  | 0x3D => result (do_wait (i64 a0) a1 (i64 a2))
  | 0x3B => r ← do_execve a0 a1 a2; mret (if r =? 0 then None else Some r)
  | 0x3C => do_exit (i64 a0) ;; mret None
  | 0xF7 => result (do_fb_geometry a0)
  | 0xF8 => result (do_fb_register a0)
  | 0xF9 => result do_fb_release
  | 0x29 => result (do_socket (i64 a0) (i64 a1) (i64 a2))
  | 0x31 => result (do_bind a0 a1 a2)
  | 0x2A => result (do_connect a0 a1 a2)
  | 0x32 => result (do_listen a0 (i64 a1))
  | 0x2B => result (do_accept a0 a1 a2)
  | 0x35 => result (do_socketpair (i64 a0) (i64 a1) (i64 a2) a3)
  | 0x07 => result (do_poll a0 a1 (i64 a2))
  | 0x17 => result (do_select (i64 a0) a1 a2 a3 a4)
  | 0xFC => result do_fb_mmap
  | 0xFD => result do_fb_present
  | 0xFE => result do_kbd_read
  | 0xFF => result (do_bigalloc a0)
  | 0x3E => result (do_kill (i64 a0) (i32 a1))
  | 0x0D => result (do_rt_sigaction (i64 a0) a1 a2)
  | 0x0E => result (do_rt_sigprocmask (i64 a0) a1 a2)
  | 0x82 => result (do_rt_sigsuspend a0)
  | 0x0F => do_rt_sigreturn ;; mret None
  | 0x6D => result (do_setpgid (i64 a0) (i64 a1))
  | 0x79 => result (do_getpgid (i64 a0))
  | 0xFA => result (gets g_fg_pgid)
  | 0xFB => modify (fun s => s <| g_fg_pgid := i64 a0 |>) ;; mret (Some 0)
  | 0xF0 => result (t ← host h_clock_ms; mret (i64 t))
  | 0xF4 => result (do_bulk_copy a0 a1 a2)
  | 0xF5 => result (do_bulk_set a0 a1 a2)
  | 0xF3 => result (do_palette_blit a0 a1 a2 a3)
  | _ => result (unhandled num)
  end.

(** The saved registers are read, and the result stored, through the live
    translation at the saved_rs of entry. *)
Definition quesos_syscall : K unit :=
  self ← current;
  c ← getp self;
  let r := p_saved_rs c in
  num ← kload 8 (u64 (r + 13 * 8));
  a0 ← kload 8 r;
  a1 ← kload 8 (u64 (r + 8));
  a2 ← kload 8 (u64 (r + 16));
  a3 ← kload 8 (u64 (r + 24));
  a4 ← kload 8 (u64 (r + 32));
  res ← syscall_table num a0 a1 a2 a3 a4;
  match res with
  | Some v => kstore 8 (u64 (r + 11 * 8)) (u64 v)
  | None => mret tt
  end.

(** quesos_syscall_handler: the context block is on the user stack at [rs]. *)
Definition syscall_trap (rs : Z) : K unit :=
  self ← current;
  modp self (fun c => c <| p_saved_rs := rs |>) ;;
  quesos_syscall ;;
  cur ← current;
  quesos_switch_to cur.

(** [if (g_current != 0) g_current->state = P_RUNNABLE] *)
Definition preempt : K unit :=
  cur ← gets g_current;
  match cur with
  | Some i => modp i (fun c => c <| p_state := P_RUNNABLE |>)
  | None => mret tt
  end.

(** The trampolines of the three interrupts record RS unless idle. *)
Definition irq_save (rs : Z) : K unit :=
  cur ← gets g_current;
  match cur with
  | Some i => modp i (fun c => c <| p_saved_rs := rs |>)
  | None => mret tt
  end.

Definition quesos_timer_tick : K unit :=
  now ← host h_clock_ms;
  for_ 0 QUESOS_MAX_PROC (fun i =>
    p ← getp i;
    when (parked p BLK_POLL && negb (p_poll_deadline_ms p =? 0) && (p_poll_deadline_ms p <=? now))
      (wake_with i 0)) ;;
  preempt ;;
  k_schedule.

Definition quesos_keyboard_tick : K unit := preempt ;; k_schedule.

Definition quesos_console_irq : K unit :=
  r ← gets (fun s => find_index (fun p => parked p BLK_CONSOLE) (g_proc s));
  match r with
  | Some r => console_service_parked (kernel DEPTH) r ;; mret tt
  | None => mret tt
  end ;;
  woke ← poll_recheck_all;
  let woke := match r with Some _ => woke + 1 | None => woke end in
  cur ← gets g_current;
  match cur with
  | Some i => when (woke =? 0) (k_deliver_pending_signal i ;; quesos_switch_to i)
  | None => mret tt
  end ;;
  preempt ;;
  k_schedule.

Definition access_name (kind : Z) : list Z :=
  if kind =? 0 then cs "fetch" else if kind =? 1 then cs "load"
  else if kind =? 2 then cs "store" else cs "reserved".

Definition quesos_page_fault (va err pc rf rs : Z) : K unit :=
  let present := has err 1 in
  let kind := Z.land (Z.shiftr err 1) 3 in
  let user := negb (Z.land (Z.shiftr err 3) 1 =? 0) in
  guard ← gets g_pf_in_handler;
  when guard
    (qos_puts (csn "[quesos] PANIC: page fault inside the page-fault handler; halting") ;;
     stop PowerOff) ;;
  modify (fun s => s <| g_pf_in_handler := true |>) ;;
  cur ← gets g_current;
  let panic := negb user || bool_decide (cur = None) in
  qos_puts (cs (if panic then "[quesos] PANIC: kernel page fault: " else "[quesos] page fault: ")) ;;
  qos_puts (cs "pid=") ;;
  match cur with
  | Some i =>
      c ← getp i;
      qos_put_u64 (u64 (p_pid c)) ;; qos_puts (cs " (") ;; qos_puts (p_path c) ;; qos_puts (cs ")")
  | None => qos_puts (cs "none")
  end ;;
  qos_puts (cs " va=") ;; qos_put_hex64 va ;;
  qos_puts (cs " access=") ;; qos_puts (access_name kind) ;;
  qos_puts (cs " present=") ;; qos_puts (cs (if present then "1" else "0")) ;;
  qos_puts (cs " user=") ;; qos_puts (cs (if user then "1" else "0")) ;;
  qos_puts (cs " pc=") ;; qos_put_hex64 pc ;;
  qos_puts (cs " rf=") ;; qos_put_hex64 rf ;;
  qos_puts (cs " rs=") ;; qos_put_hex64 rs ;;
  when panic (qos_puts (csn " halting") ;; stop PowerOff) ;;
  qos_puts (csn " killed by SIGSEGV") ;;
  modify (fun s => s <| g_pf_in_handler := false |>) ;;
  match cur with
  | Some i => k_terminate_by_signal i SIGSEGV
  | None => mret tt
  end.

End Dispatch.

(** * A host to run the kernel on

    A concrete [Host]: read-only files in memory, a console input queue, a log
    of what was written to descriptor 1, a millisecond clock, and a
    framebuffer device with eight slots.  The theorems hold for every host;
    this one is what their witnesses and the examples evaluate on. *)

Record demo : Type := mkDemo {
  d_files : list (list Z * list Z);
  d_fds : list (Z * (list Z * Z));
  d_next : Z;
  d_input : list Z;
  d_out : list Z;
  d_clock : Z;
  d_slots : list Z;
  d_slot : Z;
  d_keys : list Z
}.
Definition demo_eta (r : demo) : demo :=
  mkDemo (d_files r) (d_fds r) (d_next r) (d_input r) (d_out r) (d_clock r)
    (d_slots r) (d_slot r) (d_keys r).
#[export] Instance set_d_fds : Setter d_fds := ltac:(mk_setter demo_eta).
#[export] Instance set_d_next : Setter d_next := ltac:(mk_setter demo_eta).
#[export] Instance set_d_input : Setter d_input := ltac:(mk_setter demo_eta).
#[export] Instance set_d_out : Setter d_out := ltac:(mk_setter demo_eta).
#[export] Instance set_d_clock : Setter d_clock := ltac:(mk_setter demo_eta).
#[export] Instance set_d_slots : Setter d_slots := ltac:(mk_setter demo_eta).
#[export] Instance set_d_slot : Setter d_slot := ltac:(mk_setter demo_eta).
#[export] Instance set_d_keys : Setter d_keys := ltac:(mk_setter demo_eta).

Definition assoc_path (p : list Z) (l : list (list Z * list Z)) : option (list Z) :=
  option_map snd (find (fun e => bool_decide (e.1 = p)) l).
Definition assoc_fd (fd : Z) (l : list (Z * (list Z * Z))) : option (list Z * Z) :=
  option_map snd (find (fun e => e.1 =? fd) l).
Definition set_assoc (fd : Z) (v : list Z * Z) (l : list (Z * (list Z * Z))) : list (Z * (list Z * Z)) :=
  (fd, v) :: filter (fun e => e.1 <> fd) l.

Definition d_open (path : list Z) (flags mode : Z) (h : demo) : Z * demo :=
  match assoc_path path (d_files h) with
  | None => (-2, h)
  | Some c => (d_next h, h <| d_fds := set_assoc (d_next h) (c, 0) (d_fds h) |>
                           <| d_next := d_next h + 1 |>)
  end.
Definition d_read (fd n : Z) (h : demo) : (Z * list Z) * demo :=
  match assoc_fd fd (d_fds h) with
  | None => ((-9, []), h)
  | Some (c, pos) =>
      let data := take (Z.to_nat n) (drop (Z.to_nat pos) c) in
      let k := Z.of_nat (length data) in
      ((k, data), h <| d_fds := set_assoc fd (c, pos + k) (d_fds h) |>)
  end.
Definition d_write (fd : Z) (l : list Z) (h : demo) : Z * demo :=
  (Z.of_nat (length l), if fd =? 1 then h <| d_out := d_out h ++ l |> else h).
Definition d_close (fd : Z) (h : demo) : Z * demo :=
  (0, h <| d_fds := filter (fun e => e.1 <> fd) (d_fds h) |>).
Definition d_lseek (fd off whence : Z) (h : demo) : Z * demo :=
  match assoc_fd fd (d_fds h) with
  | None => (-9, h)
  | Some (c, pos) =>
      let np := if whence =? 0 then off else pos + off in
      (np, h <| d_fds := set_assoc fd (c, np) (d_fds h) |>)
  end.
Definition d_con_status (h : demo) : Z :=
  Z.lor CON_STAT_WAKE (match d_input h with [] => 0 | _ => CON_STAT_INPUT end).
Definition d_con_data (h : demo) : Z * demo :=
  match d_input h with [] => (0, h) | b :: l => (b, h <| d_input := l |>) end.

#[export] Instance demo_host : Host demo := {|
  h_open := d_open;
  h_read := d_read;
  h_write := d_write;
  h_close := d_close;
  h_fstat := fun _ h => ((0, replicate 144 0), h);
  h_lseek := d_lseek;
  h_getdents64 := fun _ _ h => ((0, []), h);
  h_unlink := fun _ h => (-30, h);
  h_mkdir := fun _ _ h => (-30, h);
  h_rename := fun _ _ h => (-30, h);
  h_ftruncate := fun _ _ h => (-30, h);
  h_tcgetattr := fun _ h => ((0, replicate 36 0), h);
  h_tcsetattr := fun _ _ _ h => (0, h);
  h_ttysize := fun _ h => ((0, [24; 0; 80; 0; 0; 0; 0; 0]), h);
  h_clock_ms := fun h => (d_clock h, h <| d_clock := d_clock h + 1 |>);
  h_con_status := d_con_status;
  h_con_data := d_con_data;
  h_fb_width := fun _ => 320;
  h_fb_height := fun _ => 200;
  h_fb_format := fun _ => 1;
  h_fb_slot_select := fun i h => h <| d_slot := i |>;
  h_fb_base_read := fun h => zget (d_slots h) (d_slot h);
  h_fb_base_write := fun b h => h <| d_slots := zinsert (d_slot h) b (d_slots h) |>;
  h_fb_status_read := fun _ => 0;
  h_fb_present := fun h => h;
  h_fb_activate_read := fun h => d_slot h;
  h_kbd_status := fun h => match d_keys h with [] => 0 | _ => 1 end;
  h_kbd_read := fun h => match d_keys h with [] => (0, h) | b :: l => (b, h <| d_keys := l |>) end;
  h_arm_timer := fun h => h;
  h_sigreturn_tramp := [0x0F; 0x0F]
|}.

(** A one-segment .mzx image: [code] at 0x2000, [mem_size] bytes in memory. *)
Fixpoint le (n : nat) (v : Z) : list Z :=
  match n with O => [] | S n' => u8 v :: le n' (v / 256) end.
Definition mzx (code : list Z) (mem_size : Z) : list Z :=
  [77; 90; 88; 1; 0; 0] ++ le 2 1 ++ le 8 0x2000 ++ le 8 24
  ++ le 8 0 ++ le 8 0x2000 ++ le 8 64 ++ le 8 mem_size ++ le 8 (Z.of_nat (length code))
  ++ code.

Definition demo0 : demo :=
  mkDemo [(cs "/bin/a", mzx [1; 2; 3] 8); (cs "/bin/b", mzx [4; 5] 4); (cs "/etc", [])]
    [] 3 [] [] 1000 (replicate 8 0) 0 [].

(** The machine after boot with [/bin/a] and [/bin/b] on the worklist. *)
Definition boot2 : outcome unit * kst demo :=
  quesos_main [cs "/bin/a"; cs "--"; cs "/bin/b"; cs "x"] [cs "K=V"] (kst_boot demo0).
