(* ===== verification/Paths.v ===== *)
(** * Path canonicalisation is correct

    [normalize_path] against a specification on path components: split at
    slashes, drop empty components and ".", let ".." cancel the component
    before it (and vanish at the root), and print what is left. *)
From Stdlib Require Import ZArith Lia Bool String.
From stdpp Require Import base list numbers.
From S2P Require Import Prelude Monad State Support.

Fixpoint split_slash (l : list Z) : list (list Z) :=
  match l with
  | [] => [[]]
  | c :: l' =>
      if c =? slash then [] :: split_slash l'
      else match split_slash l' with
           | h :: t => (c :: h) :: t
           | [] => [[c]]
           end
  end.
Definition comps (l : list Z) : list (list Z) := filter (fun c => c <> []) (split_slash l).

(** [st] is the path so far, last component first. *)
Definition resolve_step (st : list (list Z)) (c : list Z) : list (list Z) :=
  if decide (c = [dot]) then st
  else if decide (c = [dot; dot]) then tail st
  else c :: st.
Definition resolve (l : list (list Z)) : list (list Z) := foldl resolve_step [] l.

Definition render (st : list (list Z)) : list Z :=
  foldr (fun c acc => acc ++ slash :: c) [] st.
Definition print_path (st : list (list Z)) : list Z :=
  match render st with [] => [slash] | out => out end.

(** What the kernel calls an absolute path that fits its buffer. *)
Definition absolute (l : list Z) : Prop := head l = Some slash.

Lemma split_slash_ne l : split_slash l <> [].
Proof. destruct l as [|c l]; simpl; [done|]. destruct (c =? slash); [done|]. by destruct (split_slash l). Qed.

Lemma comps_slash l : comps (slash :: l) = comps l.
Proof. reflexivity. Qed.

Lemma skip_seps_comps l : comps (skip_seps l) = comps l.
Proof.
  induction l as [|c l IH]; [done|]. simpl.
  destruct (Z.eqb_spec c slash) as [->|]; [|done]. by rewrite comps_slash.
Qed.

Lemma take_comp_spec l a b :
  take_comp l = (a, b) ->
  l = a ++ b /\ (slash ∉ a) /\ (b = [] \/ head b = Some slash).
Proof.
  revert a b. induction l as [|c l IH]; intros a b; simpl.
  - intros [= <- <-]. repeat split; [|by left]. apply not_elem_of_nil.
  - destruct (Z.eqb_spec c slash) as [->|Hc].
    + intros [= <- <-]. repeat split; [|by right]. apply not_elem_of_nil.
    + destruct (take_comp l) as [a' b'] eqn:E. intros [= <- <-].
      destruct (IH a' b' eq_refl) as (-> & Hn & Hb).
      repeat split; [|done]. rewrite not_elem_of_cons. split; [congruence|done].
Qed.

Lemma split_slash_app a b :
  slash ∉ a -> split_slash (a ++ b) =
    match split_slash b with h :: t => (a ++ h) :: t | [] => [a] end.
Proof.
  induction a as [|c a IH]; simpl; intros Ha.
  - destruct (split_slash b) eqn:E; [by destruct (split_slash_ne b)|done].
  - rewrite not_elem_of_cons in Ha. destruct Ha as [Hc Ha].
    destruct (Z.eqb_spec c slash) as [->|]; [congruence|]. rewrite IH by done.
    by destruct (split_slash b).
Qed.

(** The specification peels one component the way the loop does. *)
Lemma comps_take l a b :
  take_comp (skip_seps l) = (a, b) ->
  comps l = if decide (a = []) then comps b else a :: comps b.
Proof.
  intros E. rewrite <- skip_seps_comps. apply take_comp_spec in E as (-> & Ha & Hb).
  unfold comps at 1. rewrite split_slash_app by done.
  destruct Hb as [-> | Hb].
  - cbn. rewrite app_nil_r. case_decide; by case_decide.
  - destruct b as [|c b]; [done|]. injection Hb as ->. cbn. rewrite app_nil_r.
    case_decide; by case_decide.
Qed.

Lemma skip_seps_length l : (length (skip_seps l) <= length l)%nat.
Proof. induction l as [|c l IH]; simpl; [done|]. destruct (c =? slash); simpl; lia. Qed.

Lemma path_cap_nat : Z.to_nat (QUESOS_PATH_CAP - 1) = 255%nat.
Proof. reflexivity. Qed.

Lemma render_cons_length c st : length (render (c :: st)) = (length (render st) + S (length c))%nat.
Proof. unfold render. simpl. by rewrite length_app. Qed.

(** Offsets of the kept components, innermost first: the stack
    [comp_start]. *)
Fixpoint offsets (st : list (list Z)) : list nat :=
  match st with
  | [] => []
  | _ :: st' => length (render st') :: offsets st'
  end.

Lemma offsets_length st : length (offsets st) = length st.
Proof. induction st; simpl; lia. Qed.

Lemma render_length st :
  Forall (fun c => c <> []) st -> (2 * length st <= length (render st))%nat.
Proof.
  induction 1 as [|c st Hc Hst IH]; simpl; [done|]. rewrite length_app. simpl.
  destruct c; [done|]. simpl. lia.
Qed.

(** The loop invariant: [out] prints the stack, [comp_start] holds its
    offsets, and what is left of the input fits beside it. *)
Lemma normalize_loop_spec fuel raw st :
  (length raw < fuel)%nat ->
  (raw = [] \/ head raw = Some slash) ->
  Forall (fun c => c <> []) st ->
  (length (render st) + length raw <= 255)%nat ->
  normalize_loop fuel raw (offsets st) (render st)
  = render (foldl resolve_step st (comps raw)).
Proof.
  revert raw st. induction fuel as [|fuel IH]; intros raw st Hf Habs Hne Hlen; [lia|].
  destruct raw as [|c0 raw]; [done|]. destruct Habs as [?|Habs]; [done|].
  injection Habs as ->. cbn [normalize_loop].
  destruct (take_comp (skip_seps (slash :: raw))) as [a b] eqn:E.
  rewrite (comps_take _ _ _ E).
  pose proof (skip_seps_length raw) as Hsk. cbn [skip_seps] in E. rewrite Z.eqb_refl in E.
  apply take_comp_spec in E as (Heq & Ha & Hb).
  assert (Hab : (length a + length b <= length raw)%nat) by (rewrite <- length_app, <- Heq; done).
  cbn [length] in *.
  assert (Hseg : cap_copy QUESOS_PATH_CAP a = a)
    by (unfold cap_copy; rewrite path_cap_nat; apply take_ge; lia).
  rewrite Hseg. repeat case_decide; subst; try done.
  - apply IH; auto; simpl in *; lia.
  - cbn [foldl]. unfold resolve_step at 2. rewrite decide_True by done.
    apply IH; auto; simpl in *; lia.
  - cbn [foldl]. unfold resolve_step at 2.
    rewrite decide_False by done. rewrite decide_True by done.
    destruct st as [|c st]; cbn [offsets tail].
    + apply (IH b []); auto; simpl in *; lia.
    + replace (take (length (render st)) (render (c :: st))) with (render st).
      2:{ cbn. by rewrite take_app_length. }
      inversion Hne; subst. rewrite render_cons_length in Hlen. cbn in Hab.
      apply IH; auto; lia.
  - cbn [foldl]. unfold resolve_step at 2. rewrite !decide_False by done.
    pose proof (render_length _ Hne) as Hr. rewrite offsets_length.
    assert (Hla : (length a <> 0)%nat) by (destruct a; done).
    destruct (Z.ltb_spec (Z.of_nat (length st)) max_comp) as [_|Hm];
      [|change max_comp with 129 in Hm; lia].
    destruct (Z.ltb_spec (Z.of_nat (length (render st))) (QUESOS_PATH_CAP - 1)) as [_|Hm];
      [|unfold QUESOS_PATH_CAP in Hm; lia].
    rewrite path_cap_nat, take_ge by (rewrite length_app; simpl; lia).
    rewrite <- app_assoc. cbn [app].
    apply (IH b (a :: st)); auto; rewrite ?render_cons_length; lia.
Qed.

Lemma normalize_spec raw :
  absolute raw -> (length raw <= 255)%nat ->
  normalize_path raw = print_path (resolve (comps raw)).
Proof.
  intros Habs Hlen. unfold normalize_path, print_path, resolve.
  rewrite <- (normalize_loop_spec (S (length raw)) raw []); auto; simpl; lia.
Qed.

(** ** Canonical paths *)

(** A component that names an entry: not empty, not "." or "..", no
    separator inside. *)
Definition plain (c : list Z) : Prop :=
  c <> [] /\ c <> [dot] /\ c <> [dot; dot] /\ slash ∉ c.
Definition canonical (l : list Z) : Prop :=
  exists st, Forall plain st /\ l = print_path st.

Lemma split_slash_no_slash l : Forall (fun c => slash ∉ c) (split_slash l).
Proof.
  induction l as [|c l IH]; simpl; [constructor; [apply not_elem_of_nil|done]|].
  destruct (Z.eqb_spec c slash) as [|Hc]; [constructor; [apply not_elem_of_nil|done]|].
  destruct (split_slash l) as [|h t] eqn:E; [by destruct (split_slash_ne l)|].
  apply Forall_cons_1 in IH as [Hh Ht]. constructor; [|done]. apply not_elem_of_cons. split; congruence.
Qed.

Lemma comps_shape l : Forall (fun c => c <> [] /\ slash ∉ c) (comps l).
Proof.
  unfold comps. apply list.Forall_forall. intros c [Hne Hc]%list_elem_of_filter.
  split; [done|]. pose proof (split_slash_no_slash l) as H.
  rewrite list.Forall_forall in H. by apply H.
Qed.

Lemma resolve_step_plain st c :
  Forall plain st -> c <> [] /\ slash ∉ c -> Forall plain (resolve_step st c).
Proof.
  intros Hst [Hc Hs]. unfold resolve_step. repeat case_decide; [done| |].
  - destruct st; [done|]. by inversion Hst.
  - constructor; [done|done].
Qed.

Lemma resolve_plain_from l st :
  Forall plain st -> Forall (fun c => c <> [] /\ slash ∉ c) l ->
  Forall plain (foldl resolve_step st l).
Proof.
  revert st. induction l as [|c l IH]; intros st Hst Hl; [done|]. inversion Hl; subst.
  apply IH; [|done]. by apply resolve_step_plain.
Qed.

Lemma comps_app_slash a c :
  comps (a ++ slash :: c) = comps a ++ comps c.
Proof.
  assert (H : forall a, exists h t, split_slash a = h :: t /\
                split_slash (a ++ slash :: c) = (h :: t) ++ split_slash c).
  { clear a. intros a. induction a as [|x a (h & t & E1 & E2)]; [by exists [], []|].
    simpl. destruct (x =? slash).
    - exists [], (h :: t). split; [by rewrite E1|]. by rewrite E2.
    - exists (x :: h), t. rewrite E1, E2. done. }
  destruct (H a) as (h & t & E1 & E2). unfold comps. by rewrite E2, E1, list.filter_app.
Qed.

Lemma comps_single c : c <> [] -> slash ∉ c -> comps c = [c].
Proof.
  intros Hc Hs. unfold comps. rewrite <- (app_nil_r c) at 1.
  rewrite split_slash_app by done. cbn. rewrite app_nil_r. by case_decide.
Qed.

Lemma comps_render st : Forall plain st -> comps (render st) = rev st.
Proof.
  induction 1 as [|c st (Hc & _ & _ & Hs) Hst IH]; [done|]. cbn [rev].
  change (render (c :: st)) with (render st ++ slash :: c).
  by rewrite comps_app_slash, IH, comps_single.
Qed.

Lemma comps_print st : Forall plain st -> comps (print_path st) = rev st.
Proof.
  intros H. rewrite <- comps_render by done. unfold print_path. by destruct (render st).
Qed.

Lemma resolve_app_plain l st :
  Forall plain l -> foldl resolve_step st l = rev l ++ st.
Proof.
  revert st. induction l as [|c l IH]; intros st Hl; [done|]. inversion Hl as [|?? Hc Hl']; subst.
  simpl. rewrite IH by done. rewrite <- app_assoc. f_equal. cbn. f_equal.
  unfold resolve_step. destruct Hc as (? & ? & ? & ?). by rewrite !decide_False.
Qed.

Lemma resolve_rev st : Forall plain st -> resolve (rev st) = st.
Proof.
  intros H. unfold resolve. rewrite resolve_app_plain by by apply Forall_rev.
  by rewrite rev_involutive, app_nil_r.
Qed.

Lemma render_absolute st : render st = [] \/ absolute (render st).
Proof.
  induction st as [|c st [IH|IH]]; [by left|..]; right;
    change (render (c :: st)) with (render st ++ slash :: c).
  - by rewrite IH.
  - unfold absolute in *. by destruct (render st).
Qed.

Lemma print_absolute st : absolute (print_path st).
Proof. unfold print_path. destruct (render_absolute st) as [->|H]; [done|]. by destruct (render st). Qed.

(** Characters a component list prints to, against those it was read from. *)
Definition weight (l : list (list Z)) : nat := sum_list_with (fun c => S (length c)) l.

Lemma render_weight st : length (render st) = weight st.
Proof. induction st as [|c st IH]; [done|]. rewrite render_cons_length. unfold weight in *. simpl. lia. Qed.

Lemma resolve_weight l st : (weight (foldl resolve_step st l) <= weight st + weight l)%nat.
Proof.
  revert st. induction l as [|c l IH]; intros st; [unfold weight; simpl; lia|].
  cbn [foldl]. etrans; [apply IH|].
  assert (weight (resolve_step st c) <= weight st + S (length c))%nat;
    [|unfold weight in *; simpl in *; lia].
  unfold resolve_step, weight. repeat case_decide; [lia| |simpl; lia].
  destruct st; simpl; lia.
Qed.

Lemma split_weight l : (weight (split_slash l) <= S (length l))%nat.
Proof.
  induction l as [|c l IH]; [done|]. simpl. destruct (c =? slash); [unfold weight in *; simpl; lia|].
  destruct (split_slash l); unfold weight in *; simpl in *; lia.
Qed.

Lemma weight_filter (P : list Z -> Prop) `{forall c, Decision (P c)} l :
  (weight (filter P l) <= weight l)%nat.
Proof.
  induction l as [|c l IH]; [done|]. rewrite list.filter_cons. unfold weight in *.
  case_decide; simpl; lia.
Qed.

Lemma comps_weight l : absolute l -> (weight (comps l) <= length l)%nat.
Proof.
  destruct l as [|c l]; [done|]. intros [= ->]. rewrite comps_slash. unfold comps.
  etrans; [apply weight_filter|]. apply split_weight.
Qed.

Lemma normalize_length raw :
  absolute raw -> (length raw <= 255)%nat ->
  (length (print_path (resolve (comps raw))) <= 255)%nat.
Proof.
  intros Habs Hlen. unfold print_path.
  destruct (render (resolve (comps raw))) eqn:E; [simpl; lia|]. rewrite <- E.
  rewrite render_weight. pose proof (comps_weight raw Habs).
  pose proof (resolve_weight (comps raw) []) as Hw. unfold resolve.
  cbn in Hw. lia.
Qed.

Lemma resolve_plain raw : Forall plain (resolve (comps raw)).
Proof. apply resolve_plain_from; [constructor|apply comps_shape]. Qed.

Lemma normalize_canonical raw :
  absolute raw -> (length raw <= 255)%nat -> canonical (normalize_path raw).
Proof.
  intros Habs Hlen. exists (resolve (comps raw)). split; [apply resolve_plain|].
  by apply normalize_spec.
Qed.

Lemma normalize_fixpoint l :
  canonical l -> (length l <= 255)%nat -> normalize_path l = l.
Proof.
  intros (st & Hst & ->) Hlen. rewrite normalize_spec; [|apply print_absolute|done].
  by rewrite comps_print, resolve_rev.
Qed.

(** ** Joining a name to the working directory *)

Lemma join_path_length base inp : (length (join_path base inp) <= 255)%nat.
Proof.
  unfold join_path. set (hd := match inp with c :: _ => _ | _ => _ end).
  destruct hd; unfold cap_copy; rewrite path_cap_nat; [rewrite length_take; lia|].
  set (b := take 255 base). assert (length b <= 255)%nat by (unfold b; rewrite length_take; lia).
  set (o := if ends_in_slash b then _ else _).
  assert (length o <= 255)%nat.
  { unfold o. destruct (ends_in_slash b); [done|]. destruct (Z.ltb_spec (Z.of_nat (length b)) (QUESOS_PATH_CAP - 1));
      [rewrite length_app; cbn in *; unfold QUESOS_PATH_CAP in *; simpl; lia|done]. }
  rewrite length_app, length_take. lia.
Qed.

Lemma ends_in_slash_spec out : ends_in_slash out = true -> exists a, out = a ++ [slash].
Proof.
  unfold ends_in_slash. destruct (rev out) as [|c l] eqn:E; [done|]. intros ->%Z.eqb_eq.
  exists (rev l). rewrite <- (rev_involutive out), E. done.
Qed.

(** A relative name is appended to the working directory: its components
    follow the directory's. *)
Lemma join_relative base inp :
  absolute base -> head inp <> Some slash ->
  (length base + S (length inp) <= 255)%nat ->
  absolute (join_path base inp) /\ comps (join_path base inp) = comps base ++ comps inp.
Proof.
  intros Habs Hrel Hlen. unfold join_path.
  replace (match inp with c :: _ => c =? slash | [] => false end) with false.
  2:{ destruct inp as [|c ?]; [done|]. destruct (Z.eqb_spec c slash); [subst; done|done]. }
  unfold cap_copy. rewrite path_cap_nat, (take_ge base) by lia.
  destruct (ends_in_slash base) eqn:E.
  - apply ends_in_slash_spec in E as [a ->]. rewrite length_app in *. simpl in *.
    rewrite take_ge by lia. split.
    + unfold absolute in *. by destruct a.
    + rewrite <- app_assoc. cbn [app]. rewrite !comps_app_slash. cbn. by rewrite app_nil_r.
  - destruct (Z.ltb_spec (Z.of_nat (length base)) (QUESOS_PATH_CAP - 1)) as [_|H];
      [|unfold QUESOS_PATH_CAP in H; lia].
    rewrite take_ge by (rewrite length_app; simpl; lia). split.
    + unfold absolute in *. by destruct base.
    + rewrite <- app_assoc. apply comps_app_slash.
Qed.

Lemma join_absolute base inp :
  absolute inp -> (length inp <= 255)%nat -> join_path base inp = inp.
Proof.
  intros Habs Hlen. unfold join_path. destruct inp as [|c inp]; [done|]. injection Habs as ->.
  rewrite Z.eqb_refl. unfold cap_copy. rewrite path_cap_nat. by apply take_ge.
Qed.

(** * Path handling: what chdir, open and execve resolve to

    The specification is [resolve]: split at slashes, drop empty and "."
    components, let ".." cancel the component before it.  The kernel works in
    place on a 256-byte buffer; the two agree on every path that fits. *)

(** C8: [normalize_path] refines the specification: an absolute path that fits
    the buffer becomes the printed form of its resolved components, which is
    absolute, has no empty, "." or ".." component, still fits, and is a fixed
    point. *)
Theorem normalize_path_correct raw :
  absolute raw -> (length raw <= 255)%nat ->
  normalize_path raw = print_path (resolve (comps raw)) /\
  absolute (normalize_path raw) /\ canonical (normalize_path raw) /\
  (length (normalize_path raw) <= 255)%nat /\
  normalize_path (normalize_path raw) = normalize_path raw.
Proof.
  intros Ha Hl. pose proof (normalize_spec raw Ha Hl) as E. pose proof (normalize_length raw Ha Hl) as Hn.
  pose proof (normalize_canonical raw Ha Hl) as Hc. rewrite <- E in Hn.
  split; [done|]. split; [rewrite E; apply print_absolute|]. split; [done|]. split; [done|].
  by apply normalize_fixpoint.
Qed.

Lemma normalize_path_correct_witness : normalize_path (cs "/usr//./lib/../bin") = cs "/usr/bin".
Proof.
  rewrite (proj1 (normalize_path_correct (cs "/usr//./lib/../bin") eq_refl ltac:(cbn; lia))). reflexivity.
Defined.

(** A name is resolved against the working directory.  With a canonical
    working directory whose components are [st] (innermost first), joining and
    normalising a relative name walks its components from there, and an
    absolute name ignores the directory, as long as the joined path fits the
    buffer. *)
Theorem name_resolution st name :
  Forall plain st ->
  (head name <> Some slash -> (length (print_path st) + S (length name) <= 255)%nat ->
   normalize_path (join_path (print_path st) name) = print_path (foldl resolve_step st (comps name))) /\
  (head name = Some slash -> (length name <= 255)%nat ->
   normalize_path (join_path (print_path st) name) = print_path (resolve (comps name))).
Proof.
  intros Hst. split.
  - intros Hr Hl. destruct (join_relative (print_path st) name (print_absolute st) Hr Hl) as [Ha Ec].
    rewrite (normalize_spec _ Ha (join_path_length _ _)), Ec. unfold resolve. f_equal.
    rewrite foldl_app, comps_print by done. f_equal. exact (resolve_rev st Hst).
  - intros Ha Hl. rewrite (join_absolute _ _ Ha Hl). by apply normalize_spec.
Qed.

Lemma name_resolution_witness : normalize_path (join_path (cs "/home/me") (cs "../you/./x")) = cs "/home/you/x".
Proof.
  assert (Hst : Forall plain [cs "me"; cs "home"]).
  { repeat constructor; try discriminate; intros Hin; apply list_elem_of_In in Hin; cbn in Hin; intuition discriminate. }
  pose proof (proj1 (name_resolution [cs "me"; cs "home"] (cs "../you/./x") Hst)) as R.
  change (print_path [cs "me"; cs "home"]) with (cs "/home/me") in R.
  rewrite R; [reflexivity|discriminate|cbn; lia].
Defined.
