(* ===== verification/MemFacts.v ===== *)
(** * Facts about memory words, page-table entries and kernel accesses

    Loads and stores of little-endian words, the bit arithmetic of page-table
    entries built from page-aligned frames, and the kernel's accesses to the
    frame pool, where a pointer is its own physical address. *)
From Stdlib Require Import ZArith Lia Bool String.
From stdpp Require Import base list numbers.
From S2P Require Import Prelude Monad State Memory Support Paging.

(** ** Machine words *)


Lemma in_range_true a n x : in_range a n x = true <-> a <= x < a + n.
Proof. unfold in_range. rewrite andb_true_iff, Z.leb_le, Z.ltb_lt. done. Qed.
Lemma in_range_false a n x : in_range a n x = false <-> ~ (a <= x < a + n).
Proof. rewrite <- in_range_true. by destruct (in_range a n x). Qed.

Lemma load_ext n m m' a :
  (forall x, a <= x < a + Z.of_nat n -> m x = m' x) -> load n m a = load n m' a.
Proof.
  revert a. induction n as [|n IH]; intros a H; [done|]. cbn [load].
  rewrite H by lia. rewrite (IH (a + 1)); [done|]. intros x Hx. apply H. lia.
Qed.

Lemma load_digits n v a :
  load n (fun x => (v / 256 ^ (x - a)) mod 256) a = v mod 256 ^ Z.of_nat n.
Proof.
  revert v a. induction n as [|n IH]; intros v a.
  - cbn [load]. by rewrite Z.mod_1_r.
  - cbn [load]. rewrite Z.sub_diag, Z.div_1_r.
    rewrite (load_ext n _ (fun x => ((v / 256) / 256 ^ (x - (a + 1))) mod 256)).
    2:{ intros x Hx. f_equal. rewrite Z.div_div by lia. f_equal.
        replace (x - a) with (Z.succ (x - (a + 1))) by lia. by rewrite Z.pow_succ_r by lia. }
    rewrite IH. replace (Z.of_nat (S n)) with (Z.succ (Z.of_nat n)) by lia.
    rewrite Z.pow_succ_r by lia. rewrite Z.rem_mul_r by lia. done.
Qed.

Lemma load_store_same n m a v :
  load n (store (Z.of_nat n) m a v) a = v mod 256 ^ Z.of_nat n.
Proof.
  rewrite <- (load_digits n v a). apply load_ext. intros x Hx. unfold store.
  by rewrite (proj2 (in_range_true a (Z.of_nat n) x)).
Qed.

Lemma load_store_disj n k m a b v :
  b + Z.of_nat n <= a \/ a + k <= b -> load n (store k m a v) b = load n m b.
Proof.
  intros H. apply load_ext. intros x Hx. unfold store.
  rewrite (proj2 (in_range_false a k x)) by lia. done.
Qed.

Lemma load_fill_disj n m a k v b :
  b + Z.of_nat n <= a \/ a + k <= b -> load n (mem_fill m a k v) b = load n m b.
Proof.
  intros H. apply load_ext. intros x Hx. unfold mem_fill.
  rewrite (proj2 (in_range_false a k x)) by lia. done.
Qed.

Lemma load_zero n m a : (forall x, a <= x < a + Z.of_nat n -> m x = 0) -> load n m a = 0.
Proof.
  intros H. rewrite (load_ext n m (fun _ => 0) a H). clear. revert a.
  induction n as [|n IH]; intros a; [done|]. cbn [load]. by rewrite IH.
Qed.

Lemma load_fill_zero n m a k b :
  a <= b -> b + Z.of_nat n <= a + k -> load n (mem_fill m a k 0) b = 0.
Proof.
  intros H1 H2. apply load_zero. intros x Hx. unfold mem_fill.
  by rewrite (proj2 (in_range_true a k x)) by lia.
Qed.

Definition mem_bytes (m : mem) : Prop := forall x, 0 <= m x < 256.

Lemma load_bound n m a : mem_bytes m -> 0 <= load n m a < 256 ^ Z.of_nat n.
Proof.
  intros Hm. revert a. induction n as [|n IH]; intros a; [simpl; lia|].
  cbn [load]. replace (Z.of_nat (S n)) with (Z.succ (Z.of_nat n)) by lia.
  rewrite Z.pow_succ_r by lia. specialize (IH (a + 1)). specialize (Hm a). lia.
Qed.

Lemma mem_bytes_store k m a v : mem_bytes m -> mem_bytes (store k m a v).
Proof. intros Hm x. unfold store. destruct (in_range a k x); [apply Z.mod_pos_bound; lia|done]. Qed.
Lemma mem_bytes_fill m a k v : mem_bytes m -> 0 <= v < 256 -> mem_bytes (mem_fill m a k v).
Proof. intros Hm Hv x. unfold mem_fill. by destruct (in_range a k x). Qed.
#[export] Hint Resolve mem_bytes_store mem_bytes_fill : core.

(** ** Page-aligned frames and page-table entries *)

(** [lia] with the page size in view. *)
Ltac plia := unfold PAGE_SIZE in *; lia.

(** The flag constants fit below the frame number. *)
Ltac flags := first [split; [discriminate | reflexivity]].

Definition aligned (f : Z) : Prop := f mod PAGE_SIZE = 0.

Lemma page_mask : 0xFFF = Z.ones 12.
Proof. reflexivity. Qed.

Lemma page_of_eq a : page_of a = a - a mod PAGE_SIZE.
Proof.
  unfold page_of, clr. rewrite page_mask, Z.ldiff_ones_r by lia.
  rewrite Z.shiftl_mul_pow2, Z.shiftr_div_pow2 by lia.
  change PAGE_SIZE with (2 ^ 12). pose proof (Z.div_mod a (2 ^ 12)). lia.
Qed.

Lemma offset_eq a : Z.land a 0xFFF = a mod PAGE_SIZE.
Proof. rewrite page_mask, Z.land_ones by lia. done. Qed.

Lemma page_of_aligned f : aligned f -> page_of f = f.
Proof. intros H. rewrite page_of_eq, H. lia. Qed.

Lemma pow_land k f x : 0 <= k -> f mod 2 ^ k = 0 -> 0 <= x < 2 ^ k -> Z.land f x = 0.
Proof.
  intros Hk Hf Hx. apply Z.bits_inj'. intros n Hn. rewrite Z.land_spec, Z.bits_0.
  destruct (Z.lt_ge_cases n k) as [Hlt|Hge].
  - rewrite <- (Z.mod_pow2_bits_low f k n) by lia. by rewrite Hf, Z.bits_0.
  - apply andb_false_intro2. destruct (Z.eq_dec x 0) as [->|]; [apply Z.bits_0|].
    apply Z.bits_above_log2; [lia|]. assert (Z.log2 x < k); [|lia].
    apply Z.log2_lt_pow2; lia.
Qed.

Lemma pow_lor k f x : 0 <= k -> f mod 2 ^ k = 0 -> 0 <= x < 2 ^ k -> Z.lor f x = f + x.
Proof. intros Hk Hf Hx. symmetry. apply Z.add_nocarry_lor. by apply (pow_land k). Qed.

Lemma aligned_land f x : aligned f -> 0 <= x < PAGE_SIZE -> Z.land f x = 0.
Proof. intros. by apply (pow_land 12). Qed.

Lemma aligned_lor f x : aligned f -> 0 <= x < PAGE_SIZE -> Z.lor f x = f + x.
Proof. intros. by apply (pow_lor 12). Qed.

Lemma page_of_lor f x : aligned f -> 0 <= x < PAGE_SIZE -> page_of (Z.lor f x) = f.
Proof.
  intros Hf Hx. rewrite aligned_lor by done. rewrite page_of_eq.
  rewrite Z.add_mod by plia. unfold aligned in Hf. rewrite Hf, Z.add_0_l.
  rewrite Z.mod_mod by plia. rewrite Z.mod_small by done. lia.
Qed.

Lemma has_lor f x k : aligned f -> 0 <= x < PAGE_SIZE -> 0 <= k < PAGE_SIZE ->
  has (Z.lor f x) k = has x k.
Proof. intros Hf Hx Hk. unfold has. by rewrite Z.land_lor_distr_l, (aligned_land f k). Qed.

Lemma lor_inj f g x : aligned f -> aligned g -> 0 <= x < PAGE_SIZE ->
  Z.lor f x = Z.lor g x -> f = g.
Proof. intros Hf Hg Hx E. rewrite <- (page_of_lor f x), <- (page_of_lor g x) by done. by rewrite E. Qed.

Lemma aligned_page_of a : aligned (page_of a).
Proof.
  unfold aligned. rewrite page_of_eq. rewrite Zminus_mod_idemp_r, Z.sub_diag. done.
Qed.
#[export] Hint Resolve aligned_page_of : core.

Lemma aligned_add f k : aligned f -> aligned (f + k * PAGE_SIZE).
Proof. unfold aligned. intros H. rewrite Z.mod_add by plia. done. Qed.

Lemma aligned_mul k : aligned (k * PAGE_SIZE).
Proof. unfold aligned. by rewrite Z.mod_mul by plia. Qed.
Lemma aligned_super i : aligned (i * 0x200000).
Proof. replace (i * 0x200000) with (i * 512 * PAGE_SIZE) by plia. apply aligned_mul. Qed.

(** A page number extracted from an address. *)
Lemma vpn_eq va sh : 0 <= sh -> Z.land (Z.shiftr va sh) 0x1FF = (va / 2 ^ sh) mod 512.
Proof.
  intros Hsh. change 0x1FF with (Z.ones 9). rewrite Z.land_ones by lia.
  by rewrite Z.shiftr_div_pow2.
Qed.
Lemma vpn0_eq va : vpn0 va = (va / PAGE_SIZE) mod 512.
Proof. unfold vpn0. by rewrite vpn_eq. Qed.
Lemma vpn1_eq va : vpn1 va = (va / 0x200000) mod 512.
Proof. unfold vpn1. by rewrite vpn_eq. Qed.
Lemma vpn0_bound va : 0 <= vpn0 va < 512.
Proof. rewrite vpn0_eq. apply Z.mod_pos_bound. lia. Qed.
Lemma vpn1_bound va : 0 <= vpn1 va < 512.
Proof. rewrite vpn1_eq. apply Z.mod_pos_bound. lia. Qed.

(** ** The kernel's own memory

    A supervisor pointer is its own physical address while paging is off, and
    afterwards in the ranges every process table maps to themselves. *)
Section Kernel.
Context {H : Type} `{Host H}.
Implicit Types s : kst H.

Definition kaddr s (a : Z) : Prop := g_cr0 s = None \/ kernel_identity a = true.

(** Entry [i] of the table at [t]. *)
Definition pte (m : mem) (t i : Z) : Z := load 8 m (t + i * 8).

(** A frame of the pool. *)
Definition pool_frame (f : Z) : Prop :=
  POOL_BASE <= f /\ f + PAGE_SIZE <= POOL_TOP /\ aligned f.

Lemma pool_bounds : 0 < POOL_BASE /\ POOL_TOP < 2 ^ 30 /\ PAGE_SIZE = 4096.
Proof. vm_compute. done. Qed.

Lemma pool_frame_bound f : pool_frame f -> 0 < f /\ f + PAGE_SIZE < 2 ^ 30.
Proof. intros (? & ? & ?). pose proof pool_bounds. lia. Qed.

Lemma pool_kaddr s f x : pool_frame f -> f <= x < f + PAGE_SIZE -> kaddr s x.
Proof.
  intros (Hb & Ht & _) Hx. right. unfold kernel_identity.
  rewrite (proj2 (in_range_true POOL_BASE _ x)) by lia. apply orb_true_r.
Qed.

Lemma kptr_kaddr s k a : kaddr s a -> kptr k a s = (Ret a, s).
Proof. unfold kptr. intros [->| ->]; [done|]. by destruct (g_cr0 s). Qed.

Lemma kload_run s n a : kaddr s a -> one_page (Z.of_nat n) a = true ->
  kload n a s = (Ret (load n (g_mem s) a), s).
Proof.
  intros Ha Hp. unfold kload. rewrite Hp. by rewrite (bind_ret_run _ _ _ _ _ (kptr_kaddr s Load a Ha)).
Qed.
Lemma kstore_run s n a v : kaddr s a -> one_page (Z.of_nat n) a = true ->
  kstore n a v s = (Ret tt, s <| g_mem := store (Z.of_nat n) (g_mem s) a v |>).
Proof.
  intros Ha Hp. unfold kstore. rewrite Hp. by rewrite (bind_ret_run _ _ _ _ _ (kptr_kaddr s Store a Ha)).
Qed.

Lemma entry_one_page t i : aligned t -> 0 <= i < 512 -> one_page 8 (t + i * 8) = true.
Proof.
  intros Ht Hi. unfold one_page. apply Z.leb_le. unfold aligned in Ht.
  rewrite Z.add_mod by plia. rewrite Ht, Z.add_0_l.
  rewrite Z.mod_mod by plia. unfold PAGE_SIZE. rewrite Z.mod_small by lia. lia.
Qed.

Lemma pte_get_run s t i : pool_frame t -> 0 <= i < 512 ->
  pte_get t i s = (Ret (pte (g_mem s) t i), s).
Proof.
  intros Ht Hi. pose proof (pool_frame_bound t Ht). unfold pte_get, pte.
  rewrite u64_small by plia.
  apply kload_run; [|apply entry_one_page; [apply Ht|done]].
  apply (pool_kaddr s t); [done|]. plia.
Qed.

Lemma pte_set_run s t i v : pool_frame t -> 0 <= i < 512 ->
  pte_set t i v s = (Ret tt, s <| g_mem := store 8 (g_mem s) (t + i * 8) v |>).
Proof.
  intros Ht Hi. pose proof (pool_frame_bound t Ht). unfold pte_set.
  rewrite u64_small by plia.
  apply (kstore_run s 8); [|apply entry_one_page; [apply Ht|done]].
  apply (pool_kaddr s t); [done|]. plia.
Qed.

Lemma pte_store_same m t i v : 0 <= v < 2 ^ 64 -> pte (store 8 m (t + i * 8) v) t i = v.
Proof. intros Hv. unfold pte. rewrite (load_store_same 8). by apply Z.mod_small. Qed.

Lemma pte_store_other m t i t' j v :
  0 <= i < 512 -> 0 <= j < 512 -> aligned t -> aligned t' ->
  (t, i) <> (t', j) -> pte (store 8 m (t + i * 8) v) t' j = pte m t' j.
Proof.
  intros Hi Hj Ht Ht' Hne. apply load_store_disj. unfold aligned, PAGE_SIZE in *.
  destruct (Z.eq_dec t t') as [->|Hd]; [assert (i <> j) by congruence; lia|].
  pose proof (Z.div_mod t 0x1000). pose proof (Z.div_mod t' 0x1000). lia.
Qed.

(** ** Allocation *)

Lemma memset_frame_run s f : pool_frame f ->
  memset f 0 PAGE_SIZE s = (Ret tt, s <| g_mem := mem_fill (g_mem s) f PAGE_SIZE 0 |>).
Proof.
  intros Hf. pose proof (pool_frame_bound f Hf). unfold memset.
  change (QUESOS_BULK_MIN <=? PAGE_SIZE) with true. cbn iota.
  assert (E : sys_bulk_set f 0 PAGE_SIZE s
              = (Ret PAGE_SIZE, s <| g_mem := mem_fill (g_mem s) f PAGE_SIZE 0 |>)).
  { unfold sys_bulk_set. change (PAGE_SIZE =? 0) with false.
    change (MAX_BULK_BYTES <? PAGE_SIZE) with false. cbn iota.
    rewrite u64_small by plia. destruct (Z.ltb_spec (f + PAGE_SIZE) f); [plia|done]. }
  rewrite (bind_ret_run _ _ _ _ _ E). by rewrite Z.eqb_refl.
Qed.

(** The state after [alloc_frame] hands out [f]. *)
Definition took_frame s (f : Z) : kst H :=
  s <| g_pool_next := f + PAGE_SIZE |> <| g_mem := mem_fill (g_mem s) f PAGE_SIZE 0 |>.

Lemma alloc_frame_run s : pool_frame (g_pool_next s) ->
  alloc_frame s = (Ret (g_pool_next s), took_frame s (g_pool_next s)).
Proof.
  intros Hf. pose proof (pool_frame_bound _ Hf) as Hb. destruct Hf as (H1 & H2 & H3).
  unfold alloc_frame. run.
  rewrite u64_small by plia.
  destruct (Z.ltb_spec POOL_TOP (g_pool_next s + PAGE_SIZE)); [lia|].
  run. rewrite u64_small by plia.
  rewrite (bind_ret_run _ _ _ _ _ (memset_frame_run _ (g_pool_next s) ltac:(done))).
  done.
Qed.

(** The pool pointer stays page-aligned inside the pool. *)
Definition pool_ok s : Prop :=
  POOL_BASE <= g_pool_next s <= POOL_TOP /\ aligned (g_pool_next s).

(** Frames left. *)
Definition frames_left s : Z := (POOL_TOP - g_pool_next s) / PAGE_SIZE.

Lemma pool_top_aligned : POOL_TOP mod PAGE_SIZE = 0.
Proof. reflexivity. Qed.

Lemma pool_ok_frame s k : pool_ok s -> 0 <= k < frames_left s ->
  pool_frame (g_pool_next s + k * PAGE_SIZE).
Proof.
  intros [[H1 H2] H3] Hk. unfold frames_left in Hk.
  assert (Hm : (k + 1) * PAGE_SIZE <= POOL_TOP - g_pool_next s).
  { pose proof (Z.mul_div_le (POOL_TOP - g_pool_next s) PAGE_SIZE ltac:(plia)).
    unfold PAGE_SIZE in *. lia. }
  repeat split; [plia|plia|by apply aligned_add].
Qed.

Lemma pool_ok_next s : pool_ok s -> 0 < frames_left s -> pool_frame (g_pool_next s).
Proof.
  intros Hp Hk. replace (g_pool_next s) with (g_pool_next s + 0 * PAGE_SIZE) by lia.
  apply pool_ok_frame; [done|lia].
Qed.

Lemma took_frame_ok s : pool_ok s -> 0 < frames_left s -> pool_ok (took_frame s (g_pool_next s)).
Proof.
  intros Hp Hk. pose proof (pool_ok_next s Hp Hk) as (H1 & H2 & H3). split; cbn.
  - pose proof pool_bounds. lia.
  - rewrite <- (Z.mul_1_l PAGE_SIZE). by apply aligned_add.
Qed.

Lemma took_frame_left s : frames_left (took_frame s (g_pool_next s)) = frames_left s - 1.
Proof.
  unfold frames_left. cbn. replace (POOL_TOP - (g_pool_next s + PAGE_SIZE))
    with (POOL_TOP - g_pool_next s + (-1) * PAGE_SIZE) by lia.
  rewrite Z.div_add by plia. lia.
Qed.

End Kernel.

(** * The MMU walk over kernel-built tables

    One lemma per kind of entry the kernel writes (a pointer to the next
    table, a leaf, nothing), and what they give for the low gigabyte, the only
    part of the address space the kernel maps. *)

(** The page number of [va] at a level of the walk. *)
Definition vpn (level : nat) (va : Z) : Z := (va / 2 ^ (12 + Z.of_nat level * 9)) mod 512.

Lemma vpn_bound level va : 0 <= vpn level va < 512.
Proof. apply Z.mod_pos_bound. lia. Qed.
Lemma vpn_0 va : vpn 0 va = vpn0 va.
Proof. by rewrite vpn0_eq. Qed.
Lemma vpn_1 va : vpn 1 va = vpn1 va.
Proof. by rewrite vpn1_eq. Qed.

Section Level.
Context (m : mem) (va : Z) (kind : access_kind) (priv : bool).

Lemma level_entry level t : pool_frame t ->
  load 8 m (u64 (t + Z.land (Z.shiftr va (12 + Z.of_nat level * 9)) 0x1FF * 8))
  = pte m t (vpn level va).
Proof.
  intros Ht. pose proof (pool_frame_bound t Ht) as Hb. rewrite vpn_eq by lia.
  fold (vpn level va). pose proof (vpn_bound level va).
  rewrite u64_small by plia. done.
Qed.

Lemma level_none level t : pool_frame t ->
  pte m t (vpn level va) = 0 -> sv48_level m va kind priv level t = None.
Proof.
  intros Ht E. destruct level; cbn [sv48_level]; rewrite (level_entry _ t Ht), E; done.
Qed.

Lemma level_table level t next : pool_frame t -> aligned next ->
  pte m t (vpn (S level) va) = Z.lor next PTE_V ->
  sv48_level m va kind priv (S level) t = sv48_level m va kind priv level next.
Proof.
  intros Ht Hn E. cbn [sv48_level]. rewrite (level_entry _ t Ht), E.
  rewrite !has_lor by (done || plia). cbn -[clr].
  change (clr ?x 4095) with (page_of x). rewrite page_of_lor by (done || plia). done.
Qed.

(** A leaf with flags [fl] over a frame aligned to the level's page size: a
    4 KiB page or a 2 MiB superpage. *)
Lemma level_leaf level t f fl : pool_frame t -> (level <= 1)%nat ->
  let size := 2 ^ (12 + Z.of_nat level * 9) in
  f mod size = 0 -> fl = PTE_KERNEL \/ fl = PTE_USER ->
  pte m t (vpn level va) = Z.lor f fl ->
  sv48_level m va kind priv level t
  = if priv || has fl PTE_U then Some (f + va mod size) else None.
Proof.
  intros Ht Hl size Hf Hfl E.
  assert (Ha : aligned f).
  { unfold aligned. rewrite <- (Z.mod_mod_divide f size PAGE_SIZE); [by rewrite Hf|].
    exists (2 ^ (Z.of_nat level * 9)). unfold size. rewrite Z.pow_add_r by lia. plia. }
  assert (Hp : 0 <= fl < PAGE_SIZE) by (destruct Hfl as [-> | ->]; done).
  assert (Hmask : has (Z.lor f fl) (clr (bit (12 + Z.of_nat level * 9) - 1) 0xFFF) = false).
  { unfold has. rewrite Z.land_lor_distr_l.
    rewrite (pow_land (12 + Z.of_nat level * 9)); [|lia|done|].
    - destruct level as [|[|]]; [| |lia]; destruct Hfl as [-> | ->]; done.
    - destruct level as [|[|]]; [| |lia]; done. }
  assert (Hbit : Z.lor (clr (Z.lor f fl) 0xFFF) (Z.land va (bit (12 + Z.of_nat level * 9) - 1))
                 = f + va mod size).
  { change (clr ?x 0xFFF) with (page_of x). rewrite page_of_lor by done.
    replace (bit (12 + Z.of_nat level * 9) - 1) with (Z.ones (12 + Z.of_nat level * 9)).
    2:{ unfold bit. rewrite Z.shiftl_1_l, Z.ones_equiv. lia. }
    rewrite Z.land_ones by lia. apply (pow_lor (12 + Z.of_nat level * 9)); [lia|done|].
    apply Z.mod_pos_bound. unfold size. lia. }
  destruct level as [|[|]]; [| |lia];
    cbn [sv48_level]; rewrite (level_entry _ t Ht), E, Hmask, Hbit, !has_lor by (done || plia);
    destruct Hfl as [-> | ->], kind, priv; reflexivity.
Qed.
End Level.
