(* ===== verification/AddressSpace.v ===== *)
(** * Address spaces: well-formed tables, translation and isolation

    Every frame of the pool is handed out once and never taken back, so each
    has one owner: an address space, named by its root frame, and a role in
    it.  [own] is that ghost assignment.  A process's tables are well formed
    when each entry is one the kernel writes: a pointer to a table of the same
    address space, a supervisor mapping of a kernel range to itself, or a user
    mapping of a page the address space owns. *)
From Stdlib Require Import ZArith Lia Bool String.
From stdpp Require Import base list numbers.
From S2P Require Import Prelude Monad State Memory Support Paging MemFacts.

Inductive role : Type :=
  | Root | L2 | L1
  | L0 (i : Z)             (* the leaf table of region [i] (2 MiB each) *)
  | Page (i j : Z).        (* the user page at entry [j] of region [i] *)

Definition owner : Type := Z -> option (Z * role).

(** The regions of the level-1 table the pool's superpages take, and the
    entries of the first leaf table that map the trap table and the image. *)
Definition pool_region (i : Z) : bool :=
  in_range (POOL_BASE / 0x200000) POOL_SUPERPAGES i.
Definition kernel_entry (i j : Z) : bool :=
  (i =? 0) && ((j =? 1) || (256 <=? j)).

Section Tables.
Context (own : owner) (m : mem) (r : Z).

Definition entry_ok (i t j : Z) : Prop :=
  if kernel_entry i j then pte m t j = Z.lor (j * PAGE_SIZE) PTE_KERNEL
  else pte m t j = 0 \/
       exists f, own f = Some (r, Page i j) /\ pte m t j = Z.lor f PTE_USER.

Definition region_ok (l1 i : Z) : Prop :=
  if pool_region i then pte m l1 i = Z.lor (i * 0x200000) PTE_KERNEL
  else pte m l1 i = 0 \/
       exists t, own t = Some (r, L0 i) /\ pte m l1 i = Z.lor t PTE_V /\
         forall j, 0 <= j < 512 -> entry_ok i t j.

Definition only_first (t next : Z) : Prop :=
  forall i, 0 <= i < 512 -> pte m t i = if i =? 0 then Z.lor next PTE_V else 0.

Record tables_ok (l2 l1 l0 : Z) : Prop := {
  ok_root : own r = Some (r, Root) /\ only_first r l2;
  ok_l2 : own l2 = Some (r, L2) /\ only_first l2 l1;
  ok_l1 : own l1 = Some (r, L1) /\ forall i, 0 <= i < 512 -> region_ok l1 i;
  ok_l0 : own l0 = Some (r, L0 0) /\ pte m l1 0 = Z.lor l0 PTE_V }.
End Tables.

(** The tables of process [c] are well formed. *)
Definition as_ok (own : owner) (m : mem) (c : pcb) : Prop :=
  exists l2, tables_ok own m (p_root_pa c) l2 (p_l1_pa c) (p_l0_pa c).

(** Only frames the pool has handed out have an owner, or are one. *)
Definition own_ok (own : owner) (pool_next : Z) : Prop :=
  forall f o, own f = Some o -> (pool_frame f /\ f + PAGE_SIZE <= pool_next) /\ fst o < pool_next.

Lemma own_frame own n f o : own_ok own n -> own f = Some o -> pool_frame f.
Proof. intros H E. by destruct (H _ _ E) as [[? _] _]. Qed.
Lemma own_aligned own n f o : own_ok own n -> own f = Some o -> aligned f.
Proof. intros H E. by destruct (H _ _ E) as [[(_ & _ & ?) _] _]. Qed.

(** Frames with an owner are pool frames: decided by the owner fact. *)
Ltac own_tac :=
  match goal with
  | Hn : own_ok ?own _, Hf : ?own ?f = Some _ |- aligned ?f => exact (own_aligned _ _ _ _ Hn Hf)
  | Hn : own_ok ?own _, Hf : ?own ?f = Some _ |- pool_frame ?f => exact (own_frame _ _ _ _ Hn Hf)
  end.
#[export] Hint Extern 1 (aligned _) => own_tac : core.
#[export] Hint Extern 1 (pool_frame _) => own_tac : core.

(** ** Translation *)
Section Translate.
Context (own : owner) (n : Z) (Hown : own_ok own n) (m : mem) (r l2 l1 l0 : Z)
  (Hok : tables_ok own m r l2 l1 l0).

Lemma walk_low va kind priv : 0 <= va < 2 ^ 30 ->
  sv48_walk m r va kind priv = sv48_level m va kind priv 1 l1.
Proof.
  intros Hva. destruct Hok as [[Hr Er] [H2 E2] [H1 _] _]. unfold sv48_walk.
  change (clr r 0xFFF) with (page_of r). rewrite page_of_aligned by eauto.
  rewrite (level_table _ _ _ _ 2 r l2); [|by eauto|by eauto|].
  2:{ rewrite Er by apply vpn_bound. unfold vpn. rewrite Z.div_small by (simpl; lia). done. }
  rewrite (level_table _ _ _ _ 1 l2 l1); [done|by eauto|by eauto|].
  rewrite E2 by apply vpn_bound. unfold vpn. rewrite Z.div_small by (simpl; lia). done.
Qed.

(** Above the first gigabyte nothing is mapped. *)
Lemma walk_high va kind priv : 2 ^ 30 <= va < 2 ^ 48 ->
  sv48_walk m r va kind priv = None.
Proof.
  intros Hva. destruct Hok as [[Hr Er] [H2 E2] [H1 _] _]. unfold sv48_walk.
  change (clr r 0xFFF) with (page_of r). rewrite page_of_aligned by eauto.
  pose proof (vpn_bound 3 va) as Hb3. pose proof (vpn_bound 2 va) as Hb2.
  destruct (Z.eqb_spec (vpn 3 va) 0) as [E3|E3].
  - rewrite (level_table _ _ _ _ 2 r l2); [|by eauto|by eauto|rewrite Er, E3 by done; done].
    apply level_none; [by eauto|]. rewrite E2 by done.
    destruct (Z.eqb_spec (vpn 2 va) 0) as [E|]; [|done]. exfalso. unfold vpn in *. change (12 + Z.of_nat 3 * 9) with 39 in E3. change (12 + Z.of_nat 2 * 9) with 30 in E.
    rewrite Z.mod_small in E3; [|split; [apply Z.div_pos; lia|apply Z.div_lt_upper_bound; lia]].
    rewrite Z.mod_small in E; [|split; [apply Z.div_pos; lia|]].
    + pose proof (Z.div_mod va (2 ^ 30) ltac:(lia)).
      pose proof (Z.mod_pos_bound va (2 ^ 30) ltac:(lia)). lia.
    + apply Z.div_lt_upper_bound; [lia|]. pose proof (Z.div_mod va (2 ^ 39) ltac:(lia)).
      pose proof (Z.mod_pos_bound va (2 ^ 39) ltac:(lia)). lia.
  - apply level_none; [by eauto|]. rewrite Er by done.
    by destruct (Z.eqb_spec (vpn 3 va) 0).
Qed.

Lemma region_of_va va : 0 <= va < 2 ^ 30 -> vpn1 va = va / 0x200000.
Proof.
  intros. rewrite vpn1_eq. apply Z.mod_small. split; [apply Z.div_pos; lia|].
  apply Z.div_lt_upper_bound; lia.
Qed.

(** The walk below a leaf table of this address space. *)
Lemma walk_region va kind priv t : 0 <= va < 2 ^ 30 ->
  own t = Some (r, L0 (vpn1 va)) -> pte m l1 (vpn1 va) = Z.lor t PTE_V ->
  sv48_walk m r va kind priv = sv48_level m va kind priv 0 t.
Proof.
  intros Hva Ht E. rewrite walk_low by done. destruct Hok as [_ _ [H1 _] _].
  apply level_table; [by eauto|by eauto|]. by rewrite vpn_1.
Qed.

(** What a walk can find. *)
Inductive translation (va : Z) (kind : access_kind) (priv : bool) : option Z -> Prop :=
  | T_kernel : kernel_identity va = true ->
      translation va kind priv (if priv then Some va else None)
  | T_user t f :
      own t = Some (r, L0 (vpn1 va)) -> pte m l1 (vpn1 va) = Z.lor t PTE_V ->
      pte m t (vpn0 va) = Z.lor f PTE_USER -> own f = Some (r, Page (vpn1 va) (vpn0 va)) ->
      translation va kind priv (Some (f + va mod PAGE_SIZE))
  | T_none : kernel_identity va = false -> translation va kind priv None.

Lemma kernel_identity_low va : 0 <= va < 2 ^ 30 ->
  kernel_identity va = pool_region (vpn1 va) || kernel_entry (vpn1 va) (vpn0 va).
Proof.
  intros Hva. unfold kernel_identity, pool_region, kernel_entry, in_range.
  rewrite (region_of_va va Hva), vpn0_eq. unfold PAGE_SIZE.
  pose proof (Z.div_mod va 0x200000 ltac:(lia)). pose proof (Z.mod_pos_bound va 0x200000 ltac:(lia)).
  pose proof (Z.div_mod va 0x1000 ltac:(lia)). pose proof (Z.mod_pos_bound va 0x1000 ltac:(lia)).
  pose proof (Z.div_mod (va / 0x1000) 512 ltac:(lia)) as Hd.
  pose proof (Z.mod_pos_bound (va / 0x1000) 512 ltac:(lia)).
  assert (va / 0x1000 / 512 = va / 0x200000) as Hq by (rewrite Z.div_div by lia; done).
  rewrite Hq in Hd. set (a := va / 0x200000) in *. set (b := (va / 0x1000) mod 512) in *.
  change (POOL_BASE / 0x200000) with 10. unfold POOL_SUPERPAGES.
  change POOL_BASE with 0x1400000. change POOL_TOP with 0x5400000.
  change QUESOS_IMG_BASE with 0x100000. change QUESOS_IMG_TOP with 0x200000.
  unfold TRAP_TABLE_PA. apply eq_true_iff_eq.
  rewrite !orb_true_iff, !andb_true_iff, !orb_true_iff, ?Z.leb_le, ?Z.ltb_lt, ?Z.eqb_eq. lia.
Qed.

Lemma walk_cases va kind priv : 0 <= va < 2 ^ 30 ->
  translation va kind priv (sv48_walk m r va kind priv).
Proof.
  intros Hva. pose proof (kernel_identity_low va Hva) as Hk.
  pose proof (vpn1_bound va) as Hb1. pose proof (vpn0_bound va) as Hb0.
  destruct Hok as [_ _ [H1 Hreg] _]. specialize (Hreg _ Hb1). unfold region_ok in Hreg.
  destruct (pool_region (vpn1 va)) eqn:Er; cbn in Hk.
  - rewrite walk_low by done.
    rewrite (level_leaf _ _ _ _ 1 l1 (vpn1 va * 0x200000) PTE_KERNEL);
      [|by eauto|lia|by rewrite Z.mod_mul|by left|by rewrite vpn_1].
    rewrite region_of_va by done. cbn [Z.of_nat Pos.of_succ_nat]. change (2 ^ (12 + 1 * 9)) with 0x200000.
    rewrite Z.mul_comm, <- Z.div_mod by lia. rewrite orb_false_r. by apply T_kernel.
  - destruct Hreg as [E|(t & Ht & E & Hent)].
    + rewrite walk_low by done. rewrite level_none; [|by eauto|by rewrite vpn_1].
      apply T_none. rewrite Hk. unfold kernel_entry.
      destruct (Z.eqb_spec (vpn1 va) 0) as [E0|]; [|done].
      destruct Hok as [_ _ _ [Hl0 El0]]. rewrite E0, El0 in E.
      apply (f_equal (fun x => has x PTE_V)) in E. rewrite has_lor in E; [done|by eauto|done|done].
    + rewrite (walk_region va kind priv t) by done. specialize (Hent _ Hb0). unfold entry_ok in Hent.
      destruct (kernel_entry (vpn1 va) (vpn0 va)) eqn:Ek.
      * rewrite (level_leaf _ _ _ _ 0 t (vpn0 va * PAGE_SIZE) PTE_KERNEL);
          [|by eauto|lia|by rewrite Z.mod_mul|by left|by rewrite vpn_0].
        change (2 ^ (12 + Z.of_nat 0 * 9)) with PAGE_SIZE.
        assert (E0 : vpn1 va = 0).
        { unfold kernel_entry in Ek. apply andb_true_iff in Ek as [Ek _]. by apply Z.eqb_eq. }
        assert (vpn0 va = va / PAGE_SIZE) as ->.
        { rewrite vpn0_eq. apply Z.mod_small. rewrite region_of_va in E0 by done.
          pose proof (Z.div_mod va 0x200000 ltac:(lia)). pose proof (Z.mod_pos_bound va 0x200000 ltac:(lia)).
          split; [apply Z.div_pos; plia|apply Z.div_lt_upper_bound; plia]. }
        rewrite Z.mul_comm, <- Z.div_mod by plia. rewrite orb_false_r. by apply T_kernel.
      * destruct Hent as [E'|(f & Hf & E')].
        -- rewrite level_none; [by apply T_none|by eauto|by rewrite vpn_0].
        -- rewrite (level_leaf _ _ _ _ 0 t f PTE_USER);
             [|by eauto|lia|eapply own_aligned; eauto|by right|by rewrite vpn_0].
           change (has PTE_USER PTE_U) with true. rewrite orb_true_r. by eapply T_user.
Qed.

End Translate.

(** ** Memory the tables do not depend on *)

Definition same_frame (m m' : mem) (f : Z) : Prop :=
  forall x, f <= x < f + PAGE_SIZE -> m' x = m x.

Lemma same_frame_pte m m' t i : same_frame m m' t -> 0 <= i < 512 -> pte m' t i = pte m t i.
Proof. intros Hs Hi. apply load_ext. intros x Hx. apply Hs. plia. Qed.

(** Frames are disjoint. *)
Lemma frames_disjoint f g x : aligned f -> aligned g -> f <> g ->
  f <= x < f + PAGE_SIZE -> ~ (g <= x < g + PAGE_SIZE).
Proof.
  unfold aligned, PAGE_SIZE. intros Hf Hg Hne H1 H2.
  pose proof (Z.div_mod f 0x1000 ltac:(lia)). pose proof (Z.div_mod g 0x1000 ltac:(lia)). lia.
Qed.

Lemma same_frame_fill m f g v : aligned f -> aligned g -> f <> g ->
  same_frame m (mem_fill m g PAGE_SIZE v) f.
Proof.
  intros Hf Hg Hne x Hx. unfold mem_fill.
  rewrite (proj2 (in_range_false g PAGE_SIZE x)); [done|]. by apply (frames_disjoint f).
Qed.

Lemma same_frame_store m f g a k v : aligned f -> aligned g -> f <> g ->
  g <= a -> a + k <= g + PAGE_SIZE -> same_frame m (store k m a v) f.
Proof.
  intros Hf Hg Hne H1 H2 x Hx. unfold store. rewrite (proj2 (in_range_false a k x)); [done|].
  intros Ha. eapply (frames_disjoint f g x); eauto. lia.
Qed.

Lemma same_frame_trans m1 m2 m3 f : same_frame m1 m2 f -> same_frame m2 m3 f -> same_frame m1 m3 f.
Proof. intros H1 H2 x Hx. rewrite H2, H1 by done. done. Qed.

(** The role of a frame that holds page-table entries. *)
Definition is_table (o : role) : bool := match o with Page _ _ => false | _ => true end.

Definition own_le (own own' : owner) : Prop := forall f o, own f = Some o -> own' f = Some o.

(** Well-formedness of the tables of [r] depends on the tables of [r] only,
    and survives new owners. *)
Lemma tables_ok_frame own own' m m' r l2 l1 l0 :
  own_le own own' ->
  (forall t o, own t = Some (r, o) -> is_table o = true -> same_frame m m' t) ->
  tables_ok own m r l2 l1 l0 -> tables_ok own' m' r l2 l1 l0.
Proof.
  intros Hle Hsame [[Hr Er] [H2 E2] [H1 Hreg] [H0 E0]].
  assert (Hpte : forall t o i, own t = Some (r, o) -> is_table o = true -> 0 <= i < 512 ->
                 pte m' t i = pte m t i).
  { intros t o i Ht Ho Hi. eapply same_frame_pte; eauto. }
  split.
  - split; [by apply Hle|]. intros i Hi. by rewrite (Hpte _ _ _ Hr eq_refl Hi), Er.
  - split; [by apply Hle|]. intros i Hi. by rewrite (Hpte _ _ _ H2 eq_refl Hi), E2.
  - split; [by apply Hle|]. intros i Hi. specialize (Hreg i Hi). unfold region_ok in *.
    rewrite (Hpte _ _ _ H1 eq_refl Hi). destruct (pool_region i); [done|].
    destruct Hreg as [?|(t & Ht & E & Hent)]; [by left|]. right. exists t.
    split; [by apply Hle|]. split; [done|]. intros j Hj. specialize (Hent j Hj). unfold entry_ok in *.
    rewrite (Hpte _ _ _ Ht eq_refl Hj). destruct (kernel_entry i j); [done|].
    destruct Hent as [?|(f & Hf & E')]; [by left|]. right. exists f. split; [by apply Hle|done].
  - split; [by apply Hle|]. rewrite (Hpte _ _ _ H1 eq_refl); [done|lia].
Qed.

(** ** Changing one entry *)

(** Give frame [f] an owner. *)
Definition own_add (own : owner) (f : Z) (o : Z * role) : owner :=
  fun g => if g =? f then Some o else own g.

Lemma own_add_le own f o : own f = None -> own_le own (own_add own f o).
Proof. intros Hf g o' E. unfold own_add. destruct (Z.eqb_spec g f); [subst; congruence|done]. Qed.
Lemma own_add_eq own f o : own_add own f o f = Some o.
Proof. unfold own_add. by rewrite Z.eqb_refl. Qed.

Lemma own_add_ok own n f o : own_ok own n -> pool_frame f -> f = n -> fst o <= n ->
  own_ok (own_add own f o) (n + PAGE_SIZE).
Proof.
  intros Hok Hf -> Ho g o' E. unfold own_add in E. destruct (Z.eqb_spec g n) as [->|].
  - injection E as <-. split; [split; [done|lia]|plia].
  - destruct (Hok _ _ E) as [[? ?] ?]. split; [split; [done|plia]|plia].
Qed.

Lemma own_fresh own n : own_ok own n -> own n = None.
Proof. intros H. destruct (own n) eqn:E; [|done]. destruct (H _ _ E) as [[_ ?] _]. plia. Qed.

Section Update.
Context (own : owner) (n : Z) (Hown : own_ok own n) (m : mem) (r l2 l1 l0 : Z)
  (Hok : tables_ok own m r l2 l1 l0).

Lemma store_other t o i v t' o' j :
  own t = Some o -> own t' = Some o' -> 0 <= i < 512 -> 0 <= j < 512 ->
  (t, i) <> (t', j) -> pte (store 8 m (t + i * 8) v) t' j = pte m t' j.
Proof. intros. apply pte_store_other; eauto. Qed.

(** Two frames of different roles are different. *)
Lemma role_ne t o t' o' : own t = Some o -> own t' = Some o' -> o <> o' -> t <> t'.
Proof. intros H1 H2 Hne ->. congruence. Qed.

(** A user page is entered in a leaf table. *)
Lemma tables_ok_map i j t f :
  0 <= i < 512 -> 0 <= j < 512 -> pool_region i = false -> kernel_entry i j = false ->
  own t = Some (r, L0 i) -> pte m l1 i = Z.lor t PTE_V -> own f = Some (r, Page i j) ->
  tables_ok own (store 8 m (t + j * 8) (Z.lor f PTE_USER)) r l2 l1 l0.
Proof.
  intros Hi Hj Hp Hk Ht Et Hf. destruct Hok as [[Hr Er] [H2 E2] [H1 Hreg] [H0 E0]].
  assert (Hpte : forall t' o' j', own t' = Some (r, o') -> 0 <= j' < 512 -> (t, j) <> (t', j') ->
      pte (store 8 m (t + j * 8) (Z.lor f PTE_USER)) t' j' = pte m t' j')
    by (intros; eapply store_other; eauto).
  assert (Hne : forall t' o', own t' = Some (r, o') -> o' <> L0 i -> forall j', (t, j) <> (t', j'))
    by (intros t' o' Ht' Ho j' [= -> _]; congruence).
  split.
  - split; [done|]. intros i' Hi'. rewrite (Hpte r Root); auto. eapply Hne; eauto; done.
  - split; [done|]. intros i' Hi'. rewrite (Hpte l2 L2); auto. eapply Hne; eauto; done.
  - split; [done|]. intros i' Hi'. specialize (Hreg i' Hi'). unfold region_ok in *.
    rewrite (Hpte l1 L1); [|done|done|eapply Hne; eauto; done].
    destruct (pool_region i') eqn:Ep; [done|].
    destruct Hreg as [?|(t' & Ht' & E' & Hent)]; [by left|]. right. exists t'.
    repeat split; [done|done|]. intros j' Hj'. specialize (Hent j' Hj'). unfold entry_ok in *.
    destruct (decide ((t, j) = (t', j'))) as [[= <- <-]|Hd].
    + assert (i' = i) as -> by congruence. rewrite Hk. right. exists f. split; [done|].
      apply pte_store_same. pose proof (pool_frame_bound f ltac:(eauto)).
      rewrite aligned_lor by (eauto || done). unfold PTE_USER. plia.
    + rewrite (Hpte t' (L0 i')); auto.
  - split; [done|]. rewrite (Hpte l1 L1); [done|done|lia|eapply Hne; eauto; done].
Qed.

(** A new, empty leaf table is entered in the level-1 table. *)
Lemma tables_ok_region i f :
  0 <= i < 512 -> pool_region i = false -> pte m l1 i = 0 ->
  own f = Some (r, L0 i) -> (forall j, 0 <= j < 512 -> pte m f j = 0) ->
  tables_ok own (store 8 m (l1 + i * 8) (Z.lor f PTE_V)) r l2 l1 l0.
Proof.
  intros Hi Hp Ei Hf Hz. destruct Hok as [[Hr Er] [H2 E2] [H1 Hreg] [H0 E0]].
  assert (Hi0 : i <> 0).
  { intros ->. rewrite E0 in Ei. apply (f_equal (fun x => has x PTE_V)) in Ei.
    rewrite has_lor in Ei; [done|by eauto|done|done]. }
  assert (Hpte : forall t' o' j', own t' = Some (r, o') -> 0 <= j' < 512 -> (l1, i) <> (t', j') ->
      pte (store 8 m (l1 + i * 8) (Z.lor f PTE_V)) t' j' = pte m t' j')
    by (intros; eapply store_other; eauto).
  assert (Hne : forall t' o', own t' = Some (r, o') -> o' <> L1 -> forall j', (l1, i) <> (t', j'))
    by (intros t' o' Ht' Ho j' [= -> _]; congruence).
  split.
  - split; [done|]. intros i' Hi'. rewrite (Hpte r Root); auto. eapply Hne; eauto; done.
  - split; [done|]. intros i' Hi'. rewrite (Hpte l2 L2); auto. eapply Hne; eauto; done.
  - split; [done|]. intros i' Hi'. specialize (Hreg i' Hi'). unfold region_ok in *.
    destruct (decide (i' = i)) as [->|Hd].
    + rewrite Hp. right. exists f. split; [done|]. split.
      * apply pte_store_same. pose proof (pool_frame_bound f ltac:(eauto)).
        rewrite aligned_lor by (eauto || done). unfold PTE_V. plia.
      * intros j Hj. unfold entry_ok. unfold kernel_entry.
        destruct (Z.eqb_spec i 0); [done|]. cbn [andb]. left.
        rewrite (Hpte f (L0 i)); auto. eapply Hne; eauto; done.
    + rewrite (Hpte l1 L1); [|done|done|congruence].
      destruct (pool_region i'); [done|].
      destruct Hreg as [?|(t' & Ht' & E' & Hent)]; [by left|]. right. exists t'.
      repeat split; [done|done|]. intros j' Hj'. specialize (Hent j' Hj'). unfold entry_ok in *.
      rewrite (Hpte t' (L0 i')); auto. eapply Hne; eauto; done.
  - split; [done|]. rewrite (Hpte l1 L1); [done|done|lia|congruence].
Qed.
End Update.
