(* ===== verification/Isolation.v ===== *)
(** * The address-space invariant and the operations that grow it

    [spaces_ok own s]: the pool is sound, every frame with an owner was handed
    out by the pool, and every process that has an address space has
    well-formed tables of its own.  The mapping operations keep it, never
    change what is already mapped or the contents of a user page, and stop
    only when the pool is exhausted. *)
From Stdlib Require Import ZArith Lia Bool String.
From stdpp Require Import base list numbers.
From S2P Require Import Prelude Monad State Memory Support Paging MemFacts AddressSpace.

(** ** Consequences of well-formed tables *)

Section Pure.
Context (own : owner) (n : Z) (Hown : own_ok own n) (m : mem) (c : pcb) (Hc : as_ok own m c).
Let r := p_root_pa c.

(** The user's view: what a user-mode access can reach. *)
Lemma user_walk_inv va kind pa : 0 <= va < 2 ^ 30 ->
  sv48_walk m r va kind false = Some pa ->
  exists t f, own t = Some (r, L0 (vpn1 va)) /\ pte m (p_l1_pa c) (vpn1 va) = Z.lor t PTE_V /\
    pte m t (vpn0 va) = Z.lor f PTE_USER /\ own f = Some (r, Page (vpn1 va) (vpn0 va)) /\
    pa = f + va mod PAGE_SIZE.
Proof.
  intros Hva E. destruct Hc as [l2 Hok].
  pose proof (walk_cases own n Hown m r l2 _ _ Hok va kind false Hva) as T.
  rewrite E in T. inversion T; subst. eauto 10.
Qed.

Lemma user_walk_intro va kind priv t f : 0 <= va < 2 ^ 30 ->
  own t = Some (r, L0 (vpn1 va)) -> pte m (p_l1_pa c) (vpn1 va) = Z.lor t PTE_V ->
  pte m t (vpn0 va) = Z.lor f PTE_USER -> own f = Some (r, Page (vpn1 va) (vpn0 va)) ->
  sv48_walk m r va kind priv = Some (f + va mod PAGE_SIZE).
Proof.
  intros Hva Ht Et Ef Hf. destruct Hc as [l2 Hok].
  rewrite (walk_region own n Hown m r l2 _ _ Hok va kind priv t) by done.
  rewrite (level_leaf _ _ _ _ 0 t f PTE_USER);
    [|own_tac|lia|exact (own_aligned _ _ _ _ Hown Hf)|by right|by rewrite vpn_0].
  change (has PTE_USER PTE_U) with true. by rewrite orb_true_r.
Qed.

Lemma kernel_walk a kind : 0 <= a < 2 ^ 30 -> kernel_identity a = true ->
  sv48_walk m r a kind true = Some a /\ sv48_walk m r a kind false = None.
Proof.
  intros Ha Hk. destruct Hc as [l2 Hok].
  assert (Hu : forall t f, own t = Some (r, L0 (vpn1 a)) ->
    pte m (p_l1_pa c) (vpn1 a) = Z.lor t PTE_V ->
    pte m t (vpn0 a) = Z.lor f PTE_USER -> aligned f -> False).
  { intros t f Ht Et Ef Hfa. rewrite kernel_identity_low in Hk by done.
    destruct Hok as [_ _ [_ Hreg] _]. specialize (Hreg _ (vpn1_bound a)). unfold region_ok in Hreg.
    assert (Hal : aligned t) by own_tac.
    destruct (pool_region (vpn1 a)) eqn:Ep.
    - rewrite Hreg in Et. apply (f_equal (fun x => has x PTE_R)) in Et.
      rewrite (has_lor _ _ _ (aligned_super _)), (has_lor _ _ _ Hal) in Et by flags. discriminate.
    - destruct Hreg as [E|(t' & Ht' & E' & Hent)].
      + rewrite Et in E. apply (f_equal (fun x => has x PTE_V)) in E.
        rewrite (has_lor _ _ _ Hal) in E by flags. discriminate.
      + assert (Hal' : aligned t') by own_tac. rewrite Et in E'.
        apply (lor_inj t t' PTE_V Hal Hal') in E'; [subst t'|flags].
        specialize (Hent _ (vpn0_bound a)). unfold entry_ok in Hent. cbn in Hk.
        rewrite Hk, Ef in Hent. apply (f_equal (fun x => has x PTE_U)) in Hent.
        rewrite (has_lor _ _ _ Hfa), (has_lor _ _ _ (aligned_mul _)) in Hent by flags. discriminate. }
  split.
  - pose proof (walk_cases own n Hown m r l2 _ _ Hok a kind true Ha) as T.
    inversion T as [|t f H1 H2 H3 H4|]; [done|exfalso|congruence].
    exact (Hu t f H1 H2 H3 (own_aligned _ _ _ _ Hown H4)).
  - pose proof (walk_cases own n Hown m r l2 _ _ Hok a kind false Ha) as T.
    inversion T as [|t f H1 H2 H3 H4|]; [done|exfalso|done].
    exact (Hu t f H1 H2 H3 (own_aligned _ _ _ _ Hown H4)).
Qed.

End Pure.

(** The walk depends on the tables only. *)
Lemma walk_frame own n own' n' m m' c va kind priv :
  own_ok own n -> own_ok own' n' -> own_le own own' -> as_ok own m c ->
  (forall t o, own t = Some (p_root_pa c, o) -> is_table o = true -> same_frame m m' t) ->
  0 <= va < 2 ^ 30 -> sv48_walk m' (p_root_pa c) va kind priv = sv48_walk m (p_root_pa c) va kind priv.
Proof.
  intros Hn Hn' Hle Hc Hsame Hva. pose proof Hc as [l2 Hok].
  assert (Hok' : tables_ok own m' (p_root_pa c) l2 (p_l1_pa c) (p_l0_pa c))
    by (eapply tables_ok_frame; [by intros ??|exact Hsame|exact Hok]).
  assert (Hc' : as_ok own m' c) by (by exists l2).
  destruct (kernel_identity va) eqn:Ek.
  { destruct (kernel_walk own n Hn m c Hc va kind Hva Ek) as [E1 E2].
    destruct (kernel_walk own n Hn m' c Hc' va kind Hva Ek) as [E1' E2'].
    by destruct priv; [rewrite E1, E1'|rewrite E2, E2']. }
  pose proof (proj1 (ok_l1 _ _ _ _ _ _ Hok)) as H1.
  assert (P1 : pte m' (p_l1_pa c) (vpn1 va) = pte m (p_l1_pa c) (vpn1 va))
    by (apply same_frame_pte; [exact (Hsame _ _ H1 eq_refl)|apply vpn1_bound]).
  assert (P0 : forall t, own t = Some (p_root_pa c, L0 (vpn1 va)) -> pte m' t (vpn0 va) = pte m t (vpn0 va))
    by (intros t Ht; apply same_frame_pte; [exact (Hsame _ _ Ht eq_refl)|apply vpn0_bound]).
  pose proof (walk_cases own n Hn m _ _ _ _ Hok va kind priv Hva) as T.
  pose proof (walk_cases own n Hn m' _ _ _ _ Hok' va kind priv Hva) as T'.
  inversion T as [Hk|t f Ht Et Ef Hf|Hk]; [congruence| |].
  - apply (user_walk_intro own n Hn m' c Hc' va kind priv t f Hva Ht); [congruence| |exact Hf].
    by rewrite P0.
  - inversion T' as [Hk'|t f Ht Et Ef Hf|Hk']; [congruence| |done].
    assert (E : sv48_walk m (p_root_pa c) va kind priv = Some (f + va mod PAGE_SIZE)).
    { apply (user_walk_intro own n Hn m c Hc va kind priv t f Hva Ht); [congruence| |exact Hf].
      by rewrite <- P0. }
    congruence.
Qed.

Lemma valid_nonzero f x : aligned f -> x = PTE_V \/ x = PTE_USER -> Z.lor f x <> 0.
Proof.
  intros Hf Hx E. apply (f_equal (fun e => has e PTE_V)) in E.
  destruct Hx as [-> | ->]; rewrite (has_lor _ _ _ Hf) in E by flags; discriminate.
Qed.

(** ** The invariant *)
Section Invariant.
Context {H : Type} `{Host H}.
Implicit Types (s : kst H) (own : owner).

(** A slot has an address space once its root is set. *)
Record spaces_ok own s : Prop := {
  sp_pool : pool_ok s;
  sp_own : own_ok own (g_pool_next s);
  sp_as : forall p c, g_proc s !! p = Some c -> p_root_pa c <> 0 -> as_ok own (g_mem s) c;
  sp_root : forall p q c d, g_proc s !! p = Some c -> g_proc s !! q = Some d ->
    p_root_pa c <> 0 -> p_root_pa c = p_root_pa d -> p = q }.

(** Only memory and the pool pointer differ. *)
Definition only_mem s s' : Prop :=
  s' = s <| g_mem := g_mem s' |> <| g_pool_next := g_pool_next s' |>.

Lemma only_mem_proc s s' : only_mem s s' -> g_proc s' = g_proc s.
Proof. intros ->. done. Qed.
Lemma only_mem_cr0 s s' : only_mem s s' -> g_cr0 s' = g_cr0 s.
Proof. intros ->. done. Qed.
Lemma only_mem_trans s1 s2 s3 : only_mem s1 s2 -> only_mem s2 s3 -> only_mem s1 s3.
Proof. unfold only_mem. intros E1 E2. rewrite E2, E1. done. Qed.

(** [s'] has every mapping and every user byte of [s], and perhaps more. *)
Record grown own s own' s' : Prop := {
  gr_ok : spaces_ok own' s';
  gr_le : own_le own own';
  gr_mem : only_mem s s';
  gr_page : forall f r i j, own f = Some (r, Page i j) -> same_frame (g_mem s) (g_mem s') f;
  gr_pte : forall t r o j, own t = Some (r, o) -> is_table o = true -> 0 <= j < 512 ->
    pte (g_mem s) t j <> 0 -> pte (g_mem s') t j = pte (g_mem s) t j;
  gr_out : forall x, kernel_identity x = false -> g_mem s' x = g_mem s x }.

Lemma grown_refl own s : spaces_ok own s -> grown own s own s.
Proof.
  intros Hs. split; [done|by intros ??|by destruct s|by intros ????? ??|done|done].
Qed.

Lemma grown_trans own1 s1 own2 s2 own3 s3 :
  grown own1 s1 own2 s2 -> grown own2 s2 own3 s3 -> grown own1 s1 own3 s3.
Proof.
  intros [_ Hle1 Hm1 Hp1 He1 Ho1] [Hok Hle2 Hm2 Hp2 He2 Ho2]. split; [done|..].
  - intros f o Hf. by apply Hle2, Hle1.
  - by eapply only_mem_trans.
  - intros f r i j Hf. eapply same_frame_trans; eauto.
  - intros t r o j Ht Ho Hj Hnz. rewrite (He2 t r o j (Hle1 _ _ Ht) Ho Hj); [by eapply He1|].
    by rewrite (He1 t r o j).
  - intros x Hx. by rewrite Ho2, Ho1.
Qed.

(** Growth keeps every user translation. *)
Lemma grown_walk own s own' s' p c va kind pa :
  spaces_ok own s -> grown own s own' s' ->
  g_proc s !! p = Some c -> p_root_pa c <> 0 -> 0 <= va < 2 ^ 30 ->
  sv48_walk (g_mem s) (p_root_pa c) va kind false = Some pa ->
  sv48_walk (g_mem s') (p_root_pa c) va kind false = Some pa.
Proof.
  intros Hs Hg Hp Hr Hva E.
  destruct (user_walk_inv own _ (sp_own _ _ Hs) _ c (sp_as _ _ Hs _ _ Hp Hr) va kind pa Hva E)
    as (t & f & Ht & Et & Ef & Hf & ->).
  assert (Hp' : g_proc s' !! p = Some c) by (by rewrite (only_mem_proc _ _ (gr_mem _ _ _ _ Hg))).
  pose proof (gr_ok _ _ _ _ Hg) as Hs'.
  pose proof (sp_as _ _ Hs _ _ Hp Hr) as [l2 Hok].
  assert (Hal : aligned t) by (by eapply own_aligned; [apply Hs|]).
  assert (Hfl : aligned f) by (by eapply own_aligned; [apply Hs|]).
  eapply (user_walk_intro own' _ (sp_own _ _ Hs') _ c (sp_as _ _ Hs' _ _ Hp' Hr) va kind false t f);
    [done|by apply (gr_le _ _ _ _ Hg)| | |by apply (gr_le _ _ _ _ Hg)].
  - rewrite <- Et. apply (gr_pte _ _ _ _ Hg _ _ _ _ (proj1 (ok_l1 _ _ _ _ _ _ Hok)) eq_refl (vpn1_bound va)).
    rewrite Et. apply valid_nonzero; [exact Hal|by left].
  - rewrite <- Ef. apply (gr_pte _ _ _ _ Hg _ _ _ _ Ht eq_refl (vpn0_bound va)).
    rewrite Ef. apply valid_nonzero; [exact Hfl|by right].
Qed.

(** ** Allocation in the invariant *)

Lemma pool_identity f x : pool_frame f -> f <= x < f + PAGE_SIZE -> kernel_identity x = true.
Proof.
  intros (Hb & Ht & _) Hx. unfold kernel_identity. rewrite (proj2 (in_range_true POOL_BASE _ x)) by lia. apply orb_true_r.
Qed.

Lemma took_frame_grown own s o :
  spaces_ok own s -> 0 < frames_left s -> fst o <= g_pool_next s ->
  grown own s (own_add own (g_pool_next s) o) (took_frame s (g_pool_next s)).
Proof.
  intros Hs Hl Hfst. pose proof (pool_ok_next s (sp_pool _ _ Hs) Hl) as Hf.
  pose proof (sp_own _ _ Hs) as Hown. pose proof (own_fresh _ _ Hown) as Hn.
  assert (Hd : forall t o', own t = Some o' ->
      same_frame (g_mem s) (mem_fill (g_mem s) (g_pool_next s) PAGE_SIZE 0) t).
  { intros t o' Ht. apply same_frame_fill; [own_tac|apply Hf|]. intros ->. congruence. }
  split.
  - split.
    + apply took_frame_ok; [apply Hs|done].
    + cbn. by apply own_add_ok.
    + cbn. intros p c Hp Hr. destruct (sp_as _ _ Hs p c Hp Hr) as [l2 Hok]. exists l2.
      eapply tables_ok_frame; [|..|exact Hok]; [by apply own_add_le|]. intros t o' Ht _. eauto.
    + apply Hs.
  - by apply own_add_le.
  - done.
  - intros f r i j Hfo. cbn. eauto.
  - intros t r o' j Ht _ Hj _. cbn. eapply same_frame_pte; eauto.
  - intros x Hx. cbn. unfold mem_fill. destruct (in_range (g_pool_next s) PAGE_SIZE x) eqn:E; [|done].
    apply in_range_true in E. by rewrite (pool_identity _ _ Hf E) in Hx.
Qed.

Lemma alloc_frame_out s : pool_ok s -> frames_left s <= 0 -> fst (alloc_frame s) = Stop PowerOff.
Proof.
  intros [[H1 H2] H3] Hl. pose proof pool_bounds as Hb. unfold alloc_frame. run.
  rewrite u64_small by plia. unfold frames_left in Hl.
  destruct (Z.ltb_spec POOL_TOP (g_pool_next s + PAGE_SIZE)) as [_|Hge].
  - run. unfold qos_puts. run. unfold mbind, M_bind, host. destruct (h_write _ _ _). done.
  - exfalso. assert (1 <= (POOL_TOP - g_pool_next s) / PAGE_SIZE); [|lia].
    apply Z.div_le_lower_bound; plia.
Qed.

(** ** What a growing operation promises

    [grows k own m s Q]: started in [s] with ghost owners [own], [m] either
    returns, having used at most [k] frames, in a grown state where [Q] holds,
    or runs out of frames, which can only happen when fewer than [k] are left. *)
Definition grows {A} (k : Z) own (m : M (kst H) A) s (Q : owner -> A -> kst H -> Prop) : Prop :=
  match m s with
  | (Ret a, s') => exists own', grown own s own' s' /\ frames_left s - k <= frames_left s' /\ Q own' a s'
  | (Stop h, _) => h = PowerOff /\ frames_left s < k
  end.

Lemma grows_bind {A B} k1 k2 own (m : M (kst H) A) (f : A -> M (kst H) B) s Q Q' :
  0 <= k2 ->
  grows k1 own m s Q ->
  (forall own' a s', grown own s own' s' -> Q own' a s' -> grows k2 own' (f a) s' Q') ->
  grows (k1 + k2) own (m ≫= f) s Q'.
Proof.
  intros Hk Hm Hf. unfold grows in *. unfold mbind, M_bind. destruct (m s) as [[a|h] s'].
  - destruct Hm as (own' & Hg & Hl & HQ). specialize (Hf own' a s' Hg HQ).
    destruct (f a s') as [[b|h] s'']; [|destruct Hf; split; [done|lia]].
    destruct Hf as (own'' & Hg' & Hl' & HQ'). exists own''.
    split; [by eapply grown_trans|]. split; [lia|done].
  - destruct Hm. split; [done|lia].
Qed.

Lemma grows_ret {A} own (a : A) s (Q : owner -> A -> kst H -> Prop) :
  spaces_ok own s -> Q own a s -> grows 0 own (mret a) s Q.
Proof. intros Hs HQ. exists own. split; [by apply grown_refl|]. split; [lia|done]. Qed.

Lemma grows_weaken {A} k k' own (m : M (kst H) A) s (Q Q' : owner -> A -> kst H -> Prop) :
  k <= k' -> grows k own m s Q -> (forall own' a s', grown own s own' s' -> Q own' a s' -> Q' own' a s') ->
  grows k' own m s Q'.
Proof.
  intros Hk Hm HQ. unfold grows in *. destruct (m s) as [[a|h] s']; [|destruct Hm; split; [done|lia]].
  destruct Hm as (own' & Hg & Hl & Hq). exists own'. split; [done|]. split; [lia|eauto].
Qed.

(** A read-only computation. *)
Lemma grows_read {A} own (m : M (kst H) A) s (a : A) (Q : owner -> A -> kst H -> Prop) :
  m s = (Ret a, s) -> spaces_ok own s -> Q own a s -> grows 0 own m s Q.
Proof. intros E Hs HQ. unfold grows. rewrite E. exists own. split; [by apply grown_refl|]. split; [lia|done]. Qed.

Lemma grows_alloc own s o :
  spaces_ok own s -> fst o <= g_pool_next s ->
  grows 1 own alloc_frame s (fun own' f s' =>
    own f = None /\ own' = own_add own f o /\ s' = took_frame s f).
Proof.
  intros Hs Ho. unfold grows. destruct (Z.lt_ge_cases 0 (frames_left s)) as [Hl|Hl].
  - rewrite alloc_frame_run by (apply pool_ok_next; [apply Hs|done]).
    eexists. split; [by apply took_frame_grown|]. rewrite took_frame_left. split; [lia|].
    split; [apply (own_fresh _ _ (sp_own _ _ Hs))|done].
  - pose proof (alloc_frame_out s (sp_pool _ _ Hs) ltac:(lia)) as E.
    destruct (alloc_frame s) as [[?|h] s']; [done|]. injection E as ->. split; [done|lia].
Qed.

(** ** Entering a mapping *)

Lemma root_below own s p c : spaces_ok own s -> g_proc s !! p = Some c -> p_root_pa c <> 0 ->
  p_root_pa c <= g_pool_next s.
Proof.
  intros Hs Hp Hr. destruct (sp_as _ _ Hs p c Hp Hr) as [l2 [[Ho _] _ _ _]].
  destruct (sp_own _ _ Hs _ _ Ho) as [[_ ?] _]. plia.
Qed.

Lemma own_table_bound own s t o i : spaces_ok own s -> own t = Some o -> 0 <= i < 512 ->
  pool_frame t /\ t <= t + i * 8 /\ t + i * 8 + 8 <= t + PAGE_SIZE.
Proof. intros Hs Ht Hi. split; [exact (own_frame _ _ _ _ (sp_own _ _ Hs) Ht)|plia]. Qed.

(** An empty entry of a table of process [p] is filled. *)
Lemma grown_store own s p c t o i v :
  spaces_ok own s -> g_proc s !! p = Some c -> p_root_pa c <> 0 ->
  own t = Some (p_root_pa c, o) -> is_table o = true -> 0 <= i < 512 -> pte (g_mem s) t i = 0 ->
  as_ok own (store 8 (g_mem s) (t + i * 8) v) c ->
  grown own s own (s <| g_mem := store 8 (g_mem s) (t + i * 8) v |>).
Proof.
  intros Hs Hp Hr Ht Ho Hi Hz Hok. pose proof (sp_own _ _ Hs) as Hown.
  pose proof (own_table_bound own s t _ i Hs Ht Hi) as (Hf & Hb1 & Hb2).
  assert (Hd : forall g o', own g = Some o' -> g <> t ->
    same_frame (g_mem s) (store 8 (g_mem s) (t + i * 8) v) g).
  { intros g o' Hg Hne. apply (same_frame_store _ g t); [own_tac|own_tac|exact Hne|exact Hb1|exact Hb2]. }
  split.
  - split; [apply Hs|exact Hown| |apply Hs].
    cbn. intros q d Hq Hd0. destruct (decide (p_root_pa d = p_root_pa c)) as [E|Hne].
    + assert (q = p) as -> by (by eapply (sp_root _ _ Hs)). congruence.
    + destruct (sp_as _ _ Hs q d Hq Hd0) as [l2 Hl2]. exists l2.
      eapply tables_ok_frame; [|..|exact Hl2]; [by intros ??|].
      intros t' o' Ht' _. eapply Hd; [exact Ht'|]. intros ->. congruence.
  - by intros ??.
  - done.
  - intros f r i' j Hfo. cbn. eapply Hd; [exact Hfo|]. intros ->. rewrite Hfo in Ht.
    injection Ht as _ <-. discriminate.
  - intros t' r o' j Ht' _ Hj Hnz. cbn. apply pte_store_other; [exact Hi|exact Hj|own_tac|own_tac|].
    intros [= -> ->]. congruence.
  - intros x Hx. cbn. unfold store. destruct (in_range (t + i * 8) 8 x) eqn:E; [|done].
    apply in_range_true in E. rewrite (pool_identity t x Hf) in Hx; [done|lia].
Qed.

Lemma getp_run s p c : g_proc s !! p = Some c -> getp p s = (Ret c, s).
Proof. intros E. unfold getp. by rewrite E. Qed.

Lemma bind_getp {B} s p c (f : pcb -> M (kst H) B) :
  g_proc s !! p = Some c -> (getp p ≫= f) s = f c s.
Proof. intros E. apply bind_ret_run. by apply getp_run. Qed.

(** The address is one the kernel may map for a user. *)
Definition user_va (va : Z) : Prop := 0 <= va < 2 ^ 30 /\ kernel_identity va = false.

Lemma user_va_region va : user_va va ->
  pool_region (vpn1 va) = false /\ kernel_entry (vpn1 va) (vpn0 va) = false.
Proof. intros [Hva Hk]. rewrite kernel_identity_low in Hk by done. by apply orb_false_iff. Qed.

(** Region [vpn1 va] has leaf table [t]. *)
Definition has_leaf own s c va t : Prop :=
  own t = Some (p_root_pa c, L0 (vpn1 va)) /\ pte (g_mem s) (p_l1_pa c) (vpn1 va) = Z.lor t PTE_V.

Lemma ensure_l0_grows own s p c va :
  spaces_ok own s -> g_proc s !! p = Some c -> p_root_pa c <> 0 -> pool_region (vpn1 va) = false ->
  grows 1 own (ensure_l0 p va) s (fun own' t s' => has_leaf own' s' c va t /\
    forall f r i j, own' f = Some (r, Page i j) -> own f = Some (r, Page i j)).
Proof.
  intros Hs Hp Hr Hreg. destruct (sp_as _ _ Hs p c Hp Hr) as [l2 Hok].
  pose proof (sp_own _ _ Hs) as Hown. pose proof (vpn1_bound va) as Hb.
  destruct (ok_l1 _ _ _ _ _ _ Hok) as [H1 Hregs]. specialize (Hregs _ Hb). unfold region_ok in Hregs.
  rewrite Hreg in Hregs. unfold ensure_l0, grows. rewrite (bind_getp _ _ _ _ Hp).
  rewrite (bind_ret_run _ _ _ _ _ (pte_get_run s (p_l1_pa c) (vpn1 va) ltac:(own_tac) Hb)).
  destruct Hregs as [Ez|(t & Ht & Et & _)].
  - rewrite Ez. change (has 0 PTE_V) with false. cbn iota. rewrite <- (Z.add_0_r 1).
    eapply grows_bind; [lia|apply (grows_alloc own s (p_root_pa c, L0 (vpn1 va)) Hs); exact (root_below own s p c Hs Hp Hr)|].
    intros own' f s' Hg (Hn & -> & ->). pose proof (gr_ok _ _ _ _ Hg) as Hs'.
    pose proof (sp_own _ _ Hs') as Hown'. pose proof (own_add_eq own f (p_root_pa c, L0 (vpn1 va))) as Hf.
    destruct (sp_as _ _ Hs' p c Hp Hr) as [l2' Hok'].
    pose proof (proj1 (ok_l1 _ _ _ _ _ _ Hok')) as H1'.
    assert (Hz : forall j, 0 <= j < 512 -> pte (g_mem (took_frame s f)) f j = 0)
      by (intros j Hj; apply load_fill_zero; plia).
    assert (Ez' : pte (g_mem (took_frame s f)) (p_l1_pa c) (vpn1 va) = 0).
    { rewrite <- Ez. apply same_frame_pte; [|exact Hb].
      apply same_frame_fill; [own_tac|own_tac|]. intros E. rewrite E in H1. congruence. }
    unfold grows. rewrite (bind_ret_run _ _ _ _ _ (pte_set_run _ (p_l1_pa c) _ _ ltac:(own_tac) Hb)).
    exists (own_add own f (p_root_pa c, L0 (vpn1 va))). split; [|split; [rewrite Z.sub_0_r; reflexivity|]].
    + eapply grown_store; [exact Hs'|exact Hp|exact Hr|exact H1'|done|exact Hb|exact Ez'|].
      exists l2'. eapply tables_ok_region; [exact Hown'|exact Hok'|exact Hb|exact Hreg|exact Ez'|exact Hf|exact Hz].
    + split; [split; [exact Hf|]|].
      * cbn. apply pte_store_same. pose proof (pool_frame_bound f ltac:(own_tac)).
        rewrite aligned_lor by (own_tac || flags). unfold PTE_V. plia.
      * intros f' r i j. unfold own_add. by destruct (f' =? f).
  - rewrite Et. rewrite has_lor by (own_tac || flags). change (has PTE_V PTE_V) with true. cbn iota.
    rewrite page_of_lor by (own_tac || flags). exists own.
    split; [by apply grown_refl|]. split; [lia|]. split; [by split|done].
Qed.

(** The page at [va] is mapped to frame [f]. *)
Definition mapped own s c va f : Prop :=
  exists t, has_leaf own s c va t /\ pte (g_mem s) t (vpn0 va) = Z.lor f PTE_USER /\
    own f = Some (p_root_pa c, Page (vpn1 va) (vpn0 va)).

Lemma mapped_walk own s p c va f kind priv :
  spaces_ok own s -> g_proc s !! p = Some c -> p_root_pa c <> 0 -> 0 <= va < 2 ^ 30 ->
  mapped own s c va f -> sv48_walk (g_mem s) (p_root_pa c) va kind priv = Some (f + va mod PAGE_SIZE).
Proof.
  intros Hs Hp Hr Hva (t & [Ht Et] & Ef & Hf).
  exact (user_walk_intro own _ (sp_own _ _ Hs) _ c (sp_as _ _ Hs _ _ Hp Hr) va kind priv t f Hva Ht Et Ef Hf).
Qed.

Lemma has_leaf_grown own s own' s' p c va t :
  spaces_ok own s -> g_proc s !! p = Some c -> p_root_pa c <> 0 ->
  grown own s own' s' -> has_leaf own s c va t -> has_leaf own' s' c va t.
Proof.
  intros Hs Hp Hr Hg [Ht Et]. destruct (sp_as _ _ Hs p c Hp Hr) as [l2 Hok].
  split; [exact (gr_le _ _ _ _ Hg _ _ Ht)|]. rewrite <- Et.
  apply (gr_pte _ _ _ _ Hg _ _ _ _ (proj1 (ok_l1 _ _ _ _ _ _ Hok)) eq_refl (vpn1_bound va)).
  rewrite Et. apply valid_nonzero; [|by left]. exact (own_aligned _ _ _ _ (sp_own _ _ Hs) Ht).
Qed.

Lemma mapped_grown own s own' s' p c va f :
  spaces_ok own s -> g_proc s !! p = Some c -> p_root_pa c <> 0 ->
  grown own s own' s' -> mapped own s c va f -> mapped own' s' c va f.
Proof.
  intros Hs Hp Hr Hg (t & Hl & Ef & Hf). exists t.
  split; [by eapply has_leaf_grown|]. split; [|exact (gr_le _ _ _ _ Hg _ _ Hf)]. rewrite <- Ef.
  apply (gr_pte _ _ _ _ Hg _ _ _ _ (proj1 Hl) eq_refl (vpn0_bound va)).
  rewrite Ef. apply valid_nonzero; [|by right]. exact (own_aligned _ _ _ _ (sp_own _ _ Hs) Hf).
Qed.

(** Re-walking an existing region finds its table. *)
Lemma ensure_l0_run own s p c va t :
  spaces_ok own s -> g_proc s !! p = Some c -> p_root_pa c <> 0 -> has_leaf own s c va t ->
  ensure_l0 p va s = (Ret t, s).
Proof.
  intros Hs Hp Hr [Ht Et]. destruct (sp_as _ _ Hs p c Hp Hr) as [l2 Hok].
  pose proof (sp_own _ _ Hs) as Hown. pose proof (proj1 (ok_l1 _ _ _ _ _ _ Hok)) as H1.
  unfold ensure_l0. rewrite (bind_getp _ _ _ _ Hp).
  rewrite (bind_ret_run _ _ _ _ _ (pte_get_run s (p_l1_pa c) (vpn1 va) ltac:(own_tac) (vpn1_bound va))).
  rewrite Et, has_lor by (own_tac || flags). change (has PTE_V PTE_V) with true. cbn iota.
  by rewrite page_of_lor by (own_tac || flags).
Qed.

Lemma map_user_page_grows own s p c va t f :
  spaces_ok own s -> g_proc s !! p = Some c -> p_root_pa c <> 0 -> user_va va ->
  has_leaf own s c va t -> pte (g_mem s) t (vpn0 va) = 0 ->
  own f = Some (p_root_pa c, Page (vpn1 va) (vpn0 va)) ->
  grows 0 own (map_user_page p va f) s (fun own' _ s' => own' = own /\ mapped own s' c va f).
Proof.
  intros Hs Hp Hr Hva Hl Ez Hf. destruct (user_va_region va Hva) as [Hreg Hk].
  destruct (sp_as _ _ Hs p c Hp Hr) as [l2 Hok]. pose proof (sp_own _ _ Hs) as Hown.
  pose proof Hl as [Ht Et]. pose proof (vpn0_bound va) as Hb.
  assert (Hfa : aligned f) by own_tac.
  unfold map_user_page, grows.
  rewrite (bind_ret_run _ _ _ _ _ (ensure_l0_run own s p c va t Hs Hp Hr Hl)).
  rewrite (pte_set_run _ t _ _ ltac:(own_tac) Hb). rewrite (page_of_aligned f Hfa).
  assert (Hg : grown own s own (s <| g_mem := store 8 (g_mem s) (t + vpn0 va * 8) (Z.lor f PTE_USER) |>)).
  { eapply grown_store; [exact Hs|exact Hp|exact Hr|exact Ht|done|exact Hb|exact Ez|]. exists l2.
    exact (tables_ok_map own _ Hown _ _ _ _ _ Hok _ _ t f (vpn1_bound va) Hb Hreg Hk Ht Et Hf). }
  exists own. split; [exact Hg|]. split; [rewrite Z.sub_0_r; reflexivity|]. split; [done|].
  exists t. split; [exact (has_leaf_grown _ _ _ _ p c va t Hs Hp Hr Hg Hl)|]. split; [|exact Hf].
  cbn. apply pte_store_same. pose proof (pool_frame_bound f ltac:(own_tac)).
  rewrite aligned_lor by (own_tac || flags). unfold PTE_USER. plia.
Qed.

(** After [ensure_user_page] the page is mapped: to the frame it had, or to a
    fresh zeroed one. *)
Lemma ensure_user_page_grows own s p c va :
  spaces_ok own s -> g_proc s !! p = Some c -> p_root_pa c <> 0 -> user_va va ->
  grows 2 own (ensure_user_page p va) s (fun own' _ s' => exists f, mapped own' s' c va f /\
    (own f = None -> forall x, f <= x < f + PAGE_SIZE -> g_mem s' x = 0)).
Proof.
  intros Hs Hp Hr Hva. destruct (user_va_region va Hva) as [Hreg Hk]. unfold ensure_user_page.
  change 2 with (1 + 1).
  eapply grows_bind; [lia|exact (ensure_l0_grows own s p c va Hs Hp Hr Hreg)|].
  intros own1 t s1 Hg1 [Hl Hpages]. pose proof (gr_ok _ _ _ _ Hg1) as Hs1. pose proof (sp_own _ _ Hs1) as Hown1.
  assert (Hp1 : g_proc s1 !! p = Some c) by (by rewrite (only_mem_proc _ _ (gr_mem _ _ _ _ Hg1))).
  pose proof Hl as [Ht Et]. pose proof (vpn0_bound va) as Hb. unfold grows.
  rewrite (bind_ret_run _ _ _ _ _ (pte_get_run s1 t (vpn0 va) ltac:(own_tac) Hb)).
  destruct (sp_as _ _ Hs1 p c Hp1 Hr) as [l2 Hok].
  destruct (ok_l1 _ _ _ _ _ _ Hok) as [H1 Hregs]. specialize (Hregs _ (vpn1_bound va)).
  unfold region_ok in Hregs. rewrite Hreg in Hregs. destruct Hregs as [Ez|(t' & Ht' & Et' & Hent)].
  { rewrite Et in Ez. exfalso. revert Ez. apply valid_nonzero; [own_tac|by left]. }
  assert (t' = t) as ->.
  { rewrite Et in Et'. symmetry. refine (lor_inj t t' PTE_V _ _ _ Et'); [own_tac|own_tac|flags]. }
  specialize (Hent _ Hb). unfold entry_ok in Hent. rewrite Hk in Hent. destruct Hent as [Ez|(f & Hf & Ef)].
  - rewrite Ez. change (negb (has 0 PTE_V)) with true. cbn [when]. rewrite <- (Z.add_0_r 1).
    eapply grows_bind;
      [lia|apply (grows_alloc own1 s1 (p_root_pa c, Page (vpn1 va) (vpn0 va)) Hs1);
           exact (root_below own1 s1 p c Hs1 Hp1 Hr)|].
    intros own2 f s2 Hg2 (Hn & -> & ->). pose proof (gr_ok _ _ _ _ Hg2) as Hs2.
    eapply (grows_weaken 0 0); [lia|apply (map_user_page_grows _ _ p c va t f Hs2 Hp1 Hr Hva)|].
    + exact (has_leaf_grown _ _ _ _ p c va t Hs1 Hp1 Hr Hg2 Hl).
    + rewrite <- Ez. apply same_frame_pte; [|exact Hb].
      apply same_frame_fill; [own_tac|..].
      * exact (own_aligned _ _ _ _ (sp_own _ _ Hs2) (own_add_eq _ _ _)).
      * intros ->. congruence.
    + apply own_add_eq.
    + intros own3 [] s3 Hg3 [-> Hm]. exists f. split; [exact Hm|]. intros _ x Hx.
      rewrite (gr_page _ _ _ _ Hg3 f (p_root_pa c) (vpn1 va) (vpn0 va) (own_add_eq _ _ _) x Hx).
      cbn. unfold mem_fill. by rewrite (proj2 (in_range_true f PAGE_SIZE x) Hx).
  - rewrite Ef, has_lor by (own_tac || flags). change (negb (has PTE_USER PTE_V)) with false. cbn [when].
    exists own1. split; [by apply grown_refl|]. split; [lia|]. exists f. split; [exists t; done|].
    intros Hn. apply Hpages in Hf. congruence.
Qed.

(** A loop of page mappings over consecutive pages. *)
Lemma for_ensure_grows p c (from : Z) : forall n lo own s,
  spaces_ok own s -> g_proc s !! p = Some c -> p_root_pa c <> 0 ->
  (forall k, (lo <= k < lo + n)%nat -> user_va (from + Z.of_nat k * PAGE_SIZE)) ->
  grows (2 * Z.of_nat n) own
    (for_ lo n (fun k => ensure_user_page p (from + Z.of_nat k * PAGE_SIZE))) s
    (fun own' _ s' => forall k, (lo <= k < lo + n)%nat ->
       exists f, mapped own' s' c (from + Z.of_nat k * PAGE_SIZE) f).
Proof.
  induction n as [|n IH]; intros lo own s Hs Hp Hr Hva.
  - cbn [for_]. apply grows_ret; [done|]. lia.
  - cbn [for_]. replace (2 * Z.of_nat (S n)) with (2 + 2 * Z.of_nat n) by lia.
    eapply grows_bind; [lia|exact (ensure_user_page_grows own s p c _ Hs Hp Hr (Hva lo ltac:(lia)))|].
    intros own1 [] s1 Hg (f & Hf & _). pose proof (gr_ok _ _ _ _ Hg) as Hs1.
    assert (Hp1 : g_proc s1 !! p = Some c) by (by rewrite (only_mem_proc _ _ (gr_mem _ _ _ _ Hg))).
    eapply (grows_weaken (2 * Z.of_nat n)); [lia|apply (IH (S lo) own1 s1 Hs1 Hp1 Hr)|].
    + intros k Hk. apply Hva. lia.
    + intros own2 [] s2 Hg2 Hall k Hk. destruct (decide (k = lo)) as [->|Hne]; [|apply Hall; lia].
      exists f. exact (mapped_grown _ _ _ _ p c _ f Hs1 Hp1 Hr Hg2 Hf).
Qed.

End Invariant.
