(* ===== verification/BuildSpace.v ===== *)
(** * A new address space

    [build_address_space] takes four frames and leaves a process whose tables
    are well formed: the kernel ranges are mapped to themselves for the
    supervisor, and a user access reaches nothing yet. *)
From Stdlib Require Import ZArith Lia Bool String.
From stdpp Require Import base list numbers.
From S2P Require Import Prelude Monad State Memory Support Paging MemFacts AddressSpace Isolation.

Section Build.
Context {H : Type} `{Host H}.
Implicit Types (s : kst H) (own : owner).

(** A loop that fills consecutive entries [a + lo .. a + lo + k - 1] of one
    table. *)
Lemma for_pte_set s t a (v : Z -> Z) body lo k :
  pool_frame t -> 0 <= a -> a + Z.of_nat lo + Z.of_nat k <= 512 ->
  (forall i, (lo <= i < lo + k)%nat ->
     body i = pte_set (H := H) t (a + Z.of_nat i) (v (a + Z.of_nat i)) /\ 0 <= v (a + Z.of_nat i) < 2 ^ 64) ->
  exists m', for_ lo k body s = (Ret tt, s <| g_mem := m' |>) /\
    (forall x, ~ (t <= x < t + PAGE_SIZE) -> m' x = g_mem s x) /\
    (forall j, 0 <= j < 512 ->
       pte m' t j = if in_range (a + Z.of_nat lo) (Z.of_nat k) j then v j else pte (g_mem s) t j).
Proof.
  intros Ht Ha. revert s lo. induction k as [|k IH]; intros s lo Hlen Hbody.
  - exists (g_mem s). split; [by destruct s|]. split; [done|]. intros j Hj.
    by rewrite (proj2 (in_range_false _ _ j)) by lia.
  - cbn [for_]. destruct (Hbody lo ltac:(lia)) as [-> Hv].
    rewrite (bind_ret_run _ _ _ _ _ (pte_set_run s t (a + Z.of_nat lo) _ Ht ltac:(lia))).
    set (s1 := s <| g_mem := _ |>).
    destruct (IH s1 (S lo) ltac:(lia)) as (m' & E & Hout & Hin).
    { intros i Hi. apply Hbody. lia. }
    exists m'. split; [by rewrite E|]. split.
    + intros x Hx. rewrite Hout by done. cbn. unfold store.
      rewrite (proj2 (in_range_false (t + (a + Z.of_nat lo) * 8) 8 x)); [done|]. plia.
    + intros j Hj. rewrite Hin by done. destruct (in_range (a + Z.of_nat (S lo)) (Z.of_nat k) j) eqn:E1.
      * apply in_range_true in E1. by rewrite (proj2 (in_range_true _ _ j)) by lia.
      * apply in_range_false in E1. cbn. destruct (Z.eq_dec j (a + Z.of_nat lo)) as [->|Hne].
        -- rewrite (proj2 (in_range_true _ _ _)) by lia. by apply pte_store_same.
        -- rewrite (proj2 (in_range_false _ _ j)) by lia.
           apply pte_store_other; [lia|lia|apply Ht|apply Ht|congruence].
Qed.

(** One entry set, as an equation on all entries of page-aligned tables. *)
Lemma pte_upd m t i v t' j :
  0 <= i < 512 -> 0 <= j < 512 -> aligned t -> aligned t' -> 0 <= v < 2 ^ 64 ->
  pte (store 8 m (t + i * 8) v) t' j = if (t' =? t) && (j =? i) then v else pte m t' j.
Proof.
  intros Hi Hj Ht Ht' Hv. destruct (Z.eqb_spec t' t) as [->|Hd]; cbn [andb].
  - destruct (Z.eqb_spec j i) as [->|Hd]; [by apply pte_store_same|].
    apply pte_store_other; [lia|lia|exact Ht|exact Ht|congruence].
  - apply pte_store_other; [lia|lia|exact Ht|exact Ht'|congruence].
Qed.

(** The entries the four tables end up with, as equations. *)
Record fresh_tables (m : mem) (r l2 l1 l0 : Z) : Prop := {
  ft_root : forall j, 0 <= j < 512 -> pte m r j = if j =? 0 then Z.lor l2 PTE_V else 0;
  ft_l2 : forall j, 0 <= j < 512 -> pte m l2 j = if j =? 0 then Z.lor l1 PTE_V else 0;
  ft_l1 : forall j, 0 <= j < 512 -> pte m l1 j =
    if in_range 10 32 j then Z.lor (j * 0x200000) PTE_KERNEL
    else if j =? 0 then Z.lor l0 PTE_V else 0;
  ft_l0 : forall j, 0 <= j < 512 -> pte m l0 j =
    if in_range 256 256 j then Z.lor (j * PAGE_SIZE) PTE_KERNEL
    else if j =? 1 then Z.lor (j * PAGE_SIZE) PTE_KERNEL else 0 }.

Lemma fresh_tables_ok own m r l2 l1 l0 :
  fresh_tables m r l2 l1 l0 ->
  own r = Some (r, Root) -> own l2 = Some (r, L2) -> own l1 = Some (r, L1) ->
  own l0 = Some (r, L0 0) -> tables_ok own m r l2 l1 l0.
Proof.
  intros [Er E2 E1 E0] Hr H2 H1 HL. split; [by split|by split| |].
  - split; [done|]. intros i Hi. unfold region_ok, pool_region.
    change (POOL_BASE / 0x200000) with 10. change POOL_SUPERPAGES with 32.
    rewrite E1 by done. destruct (in_range 10 32 i); [done|].
    destruct (Z.eqb_spec i 0) as [->|]; [|by left]. right. exists l0.
    split; [done|]. split; [done|]. intros j Hj. unfold entry_ok, kernel_entry.
    rewrite E0 by done. change (0 =? 0) with true. cbn [andb]. unfold in_range.
    destruct (Z.leb_spec 256 j); destruct (Z.ltb_spec j (256 + 256)); destruct (Z.eqb_spec j 1);
      cbn [andb orb]; (done || lia || by left).
  - split; [done|]. by rewrite E1 by lia.
Qed.

(** The image pages land at entries 256 to 511, the pool's superpages at 10
    to 41. *)
Lemma image_entry k : 0 <= k < 256 ->
  vpn0 (QUESOS_IMG_BASE + k * PAGE_SIZE) = 256 + k /\
  QUESOS_IMG_BASE + k * PAGE_SIZE = (256 + k) * PAGE_SIZE.
Proof.
  intros Hk. assert (E : QUESOS_IMG_BASE + k * PAGE_SIZE = (256 + k) * PAGE_SIZE)
    by (unfold QUESOS_IMG_BASE; plia).
  split; [|done]. rewrite E, vpn0_eq, Z.div_mul by plia. apply Z.mod_small. lia.
Qed.
Lemma pool_entry k : 0 <= k < 32 ->
  vpn1 (POOL_BASE + k * 0x200000) = 10 + k /\ POOL_BASE + k * 0x200000 = (10 + k) * 0x200000.
Proof.
  intros Hk. assert (E : POOL_BASE + k * 0x200000 = (10 + k) * 0x200000)
    by (unfold POOL_BASE; lia).
  split; [|done]. rewrite E, vpn1_eq, Z.div_mul by lia. apply Z.mod_small. lia.
Qed.

(** The part of [build_address_space] after the allocations. *)
Definition fill_tables (r l2 l1 l0 : Z) : M (kst H) unit :=
  pte_set r 0 (Z.lor l2 PTE_V) ;;
  pte_set l2 0 (Z.lor l1 PTE_V) ;;
  pte_set l1 0 (Z.lor l0 PTE_V) ;;
  pte_set l0 (vpn0 TRAP_TABLE_PA) (Z.lor TRAP_TABLE_PA PTE_KERNEL) ;;
  for_ 0 256 (fun k =>
    let i := QUESOS_IMG_BASE + Z.of_nat k * PAGE_SIZE in
    pte_set l0 (vpn0 i) (Z.lor i PTE_KERNEL)) ;;
  for_ 0 32 (fun k =>
    let sp := POOL_BASE + Z.of_nat k * 0x200000 in
    pte_set l1 (vpn1 sp) (Z.lor sp PTE_KERNEL)).

Lemma kernel_pte_bound f : aligned f -> 0 <= f < 2 ^ 30 -> 0 <= Z.lor f PTE_KERNEL < 2 ^ 64.
Proof. intros Ha Hf. rewrite aligned_lor by (assumption || flags). unfold PTE_KERNEL. lia. Qed.
Lemma table_pte_bound f : pool_frame f -> 0 <= Z.lor f PTE_V < 2 ^ 64.
Proof.
  intros Hf. pose proof (pool_frame_bound f Hf). rewrite aligned_lor by (apply Hf || flags).
  unfold PTE_V. plia.
Qed.

Lemma fill_tables_run s r l2 l1 l0 :
  pool_frame r -> pool_frame l2 -> pool_frame l1 -> pool_frame l0 ->
  r <> l2 -> r <> l1 -> r <> l0 -> l2 <> l1 -> l2 <> l0 -> l1 <> l0 ->
  (forall t j, t = r \/ t = l2 \/ t = l1 \/ t = l0 -> 0 <= j < 512 -> pte (g_mem s) t j = 0) ->
  exists m', fill_tables r l2 l1 l0 s = (Ret tt, s <| g_mem := m' |>) /\
    fresh_tables m' r l2 l1 l0 /\
    forall f, aligned f -> f <> r -> f <> l2 -> f <> l1 -> f <> l0 -> same_frame (g_mem s) m' f.
Proof.
  intros Hr H2 H1 HL N1 N2 N3 N4 N5 N6 Hz. unfold fill_tables.
  assert (B0 : 0 <= 0 < 512) by lia. assert (Bt : 0 <= vpn0 TRAP_TABLE_PA < 512) by apply vpn0_bound.
  rewrite (bind_ret_run _ _ _ _ _ (pte_set_run s r 0 _ Hr B0)).
  rewrite (bind_ret_run _ _ _ _ _ (pte_set_run _ l2 0 _ H2 B0)).
  rewrite (bind_ret_run _ _ _ _ _ (pte_set_run _ l1 0 _ H1 B0)).
  rewrite (bind_ret_run _ _ _ _ _ (pte_set_run _ l0 _ _ HL Bt)).
  set (s4 := _ <| g_mem := store 8 _ (l0 + _) _ |>).
  destruct (for_pte_set s4 l0 256 (fun j => Z.lor (j * PAGE_SIZE) PTE_KERNEL)
    (fun k => let i := QUESOS_IMG_BASE + Z.of_nat k * PAGE_SIZE in
              pte_set l0 (vpn0 i) (Z.lor i PTE_KERNEL)) 0 256 HL ltac:(lia) ltac:(lia))
    as (m5 & E5 & Hout5 & Hin5).
  { intros i Hi. destruct (image_entry (Z.of_nat i) ltac:(lia)) as [Ev Ea]. cbn zeta.
    rewrite Ev, Ea. split; [done|]. apply kernel_pte_bound; [apply aligned_mul|plia]. }
  rewrite (bind_ret_run _ _ _ _ _ E5).
  destruct (for_pte_set (s4 <| g_mem := m5 |>) l1 10 (fun j => Z.lor (j * 0x200000) PTE_KERNEL)
    (fun k => let sp := POOL_BASE + Z.of_nat k * 0x200000 in
              pte_set l1 (vpn1 sp) (Z.lor sp PTE_KERNEL)) 0 32 H1 ltac:(lia) ltac:(lia))
    as (m6 & E6 & Hout6 & Hin6).
  { intros i Hi. destruct (pool_entry (Z.of_nat i) ltac:(lia)) as [Ev Ea]. cbn zeta.
    rewrite Ev, Ea. split; [done|]. apply kernel_pte_bound; [apply aligned_super|lia]. }
  exists m6. split; [exact E6|].
  assert (Al : aligned r /\ aligned l2 /\ aligned l1 /\ aligned l0)
    by (split; [apply Hr|split; [apply H2|split; [apply H1|apply HL]]]).
  destruct Al as (Ar & A2 & A1 & A0).
  assert (S6 : forall f, aligned f -> f <> l1 -> same_frame m5 m6 f).
  { intros f Hf Hne x Hx. apply Hout6. by apply (frames_disjoint f). }
  assert (S5 : forall f, aligned f -> f <> l0 -> same_frame (g_mem s4) m5 f).
  { intros f Hf Hne x Hx. apply Hout5. by apply (frames_disjoint f). }
  assert (E4 : forall t j, aligned t -> 0 <= j < 512 -> pte (g_mem s4) t j =
    if (t =? l0) && (j =? 1) then Z.lor (j * PAGE_SIZE) PTE_KERNEL
    else if (t =? l1) && (j =? 0) then Z.lor l0 PTE_V
    else if (t =? l2) && (j =? 0) then Z.lor l1 PTE_V
    else if (t =? r) && (j =? 0) then Z.lor l2 PTE_V else pte (g_mem s) t j).
  { intros t j Ht Hj. unfold s4. cbn [g_mem setter set_g_mem].
    rewrite pte_upd by (assumption || (apply kernel_pte_bound; [reflexivity|unfold TRAP_TABLE_PA; lia])).
    rewrite 3 pte_upd by (assumption || by apply table_pte_bound).
    change (vpn0 TRAP_TABLE_PA) with 1. destruct (Z.eqb_spec j 1) as [->|]; [done|].
    by rewrite andb_false_r. }
  split.
  - split; intros j Hj.
    + rewrite (same_frame_pte _ _ _ _ (S6 r Ar N2) Hj), (same_frame_pte _ _ _ _ (S5 r Ar N3) Hj), E4 by done.
      rewrite (proj2 (Z.eqb_neq r l0)), (proj2 (Z.eqb_neq r l1)), (proj2 (Z.eqb_neq r l2)), Z.eqb_refl by done.
      cbn [andb]. by rewrite Hz by auto.
    + rewrite (same_frame_pte _ _ _ _ (S6 l2 A2 N4) Hj), (same_frame_pte _ _ _ _ (S5 l2 A2 N5) Hj), E4 by done.
      rewrite (proj2 (Z.eqb_neq l2 l0)), (proj2 (Z.eqb_neq l2 l1)), (proj2 (Z.eqb_neq l2 r)), Z.eqb_refl by done.
      cbn [andb]. by rewrite Hz by auto.
    + rewrite Hin6 by done. cbn [g_mem setter set_g_mem]. change (10 + Z.of_nat 0) with 10.
      change (Z.of_nat 32) with 32. destruct (in_range 10 32 j); [done|].
      rewrite (same_frame_pte _ _ _ _ (S5 l1 A1 N6) Hj), E4 by done.
      rewrite (proj2 (Z.eqb_neq l1 l0)), (proj2 (Z.eqb_neq l1 l2)), (proj2 (Z.eqb_neq l1 r)), Z.eqb_refl by done.
      cbn [andb]. by rewrite Hz by auto.
    + rewrite (same_frame_pte _ _ _ _ (S6 l0 A0 (not_eq_sym N6)) Hj), Hin5 by done.
      change (256 + Z.of_nat 0) with 256. change (Z.of_nat 256) with 256.
      destruct (in_range 256 256 j); [done|].
      rewrite E4 by done.
      rewrite (proj2 (Z.eqb_neq l0 l1)), (proj2 (Z.eqb_neq l0 l2)), (proj2 (Z.eqb_neq l0 r)), Z.eqb_refl by done.
      cbn [andb]. by rewrite Hz by auto.
  - intros f Hf F1 F2 F3 F4 x Hx. rewrite (S6 f Hf F3 x Hx), (S5 f Hf F4 x Hx). unfold s4.
    cbn [g_mem setter set_g_mem].
    assert (Hst : forall m t i v, aligned t -> f <> t -> 0 <= i < 512 -> store 8 m (t + i * 8) v x = m x).
    { intros m t i v Ht Hne Hi. apply (same_frame_store m f t); try assumption; plia. }
    by rewrite !Hst.
Qed.

Lemma build_split p s :
  build_address_space p s =
  (r ← alloc_frame; l2 ← alloc_frame; l1 ← alloc_frame; l0 ← alloc_frame;
   fill_tables r l2 l1 l0 ;;
   modp p (fun c => c <| p_root_pa := r |> <| p_l1_pa := l1 |> <| p_l0_pa := l0 |>)) s.
Proof.
  unfold build_address_space, fill_tables.
  assert (Hb : forall A (m : M (kst H) A) (f g : A -> M (kst H) unit) s,
    (forall a s, f a s = g a s) -> (m ≫= f) s = (m ≫= g) s).
  { intros A m f g s' E. unfold mbind, M_bind. destruct (m s') as [[a|h] s'']; [apply E|done]. }
  apply Hb. intros r s1. apply Hb. intros l2 s2. apply Hb. intros l1 s3. apply Hb. intros l0 s4.
  rewrite !bind_assoc_run. apply Hb. intros [] s5. rewrite !bind_assoc_run. apply Hb. intros [] s6.
  rewrite !bind_assoc_run. apply Hb. intros [] s7. rewrite !bind_assoc_run. apply Hb. intros [] s8.
  rewrite !bind_assoc_run. done.
Qed.

(** Everything but memory, the pool pointer and slot [p] is as before, and the
    frames that had an owner keep their contents. *)
Definition built own s own' s' (p : nat) (c : pcb) : Prop :=
  exists r l1 l0,
    g_proc s' = <[p := c <| p_root_pa := r |> <| p_l1_pa := l1 |> <| p_l0_pa := l0 |>]> (g_proc s) /\
    only_mem (s <| g_proc := g_proc s' |>) s' /\
    g_pool_next s <= r /\ own r = None /\ r <> 0 /\ own_le own own' /\
    (forall f o, own' f = Some (r, o) -> o = Root \/ o = L2 \/ o = L1 \/ o = L0 0) /\
    (forall f r' o, own' f = Some (r', o) -> r' <> r -> own f = Some (r', o)) /\
    (forall f o, own f = Some o -> same_frame (g_mem s) (g_mem s') f).

Lemma four_frames own s (r := g_pool_next s) :
  spaces_ok own s -> 4 <= frames_left s ->
  exists own' s', (forall A (k : Z -> Z -> Z -> Z -> M (kst H) A),
      (r ← alloc_frame; l2 ← alloc_frame; l1 ← alloc_frame; l0 ← alloc_frame; k r l2 l1 l0) s
      = k r (r + PAGE_SIZE) (r + 2 * PAGE_SIZE) (r + 3 * PAGE_SIZE) s') /\
    grown own s own' s' /\ frames_left s' = frames_left s - 4 /\
    own r = None /\
    own' r = Some (r, Root) /\ own' (r + PAGE_SIZE) = Some (r, L2) /\
    own' (r + 2 * PAGE_SIZE) = Some (r, L1) /\ own' (r + 3 * PAGE_SIZE) = Some (r, L0 0) /\
    (forall f o, own' f = Some o -> own f = Some o \/
      (f = r \/ f = r + PAGE_SIZE \/ f = r + 2 * PAGE_SIZE \/ f = r + 3 * PAGE_SIZE)) /\
    (forall f o, own f = Some o -> same_frame (g_mem s) (g_mem s') f) /\
    (forall t j, t = r \/ t = r + PAGE_SIZE \/ t = r + 2 * PAGE_SIZE \/ t = r + 3 * PAGE_SIZE ->
       0 <= j < 512 -> pte (g_mem s') t j = 0).
Proof.
  intros Hs Hl. pose proof (took_frame_grown own s (r, Root) Hs ltac:(lia) ltac:(cbn; lia)) as G1. fold r in G1.
  set (s1 := took_frame s r) in *. pose proof (took_frame_left s) as L1'. fold r s1 in L1'.
  pose proof (took_frame_grown _ s1 (r, L2) (gr_ok _ _ _ _ G1) ltac:(lia) ltac:(cbn; plia)) as G2.
  set (s2 := took_frame s1 (g_pool_next s1)) in *. pose proof (took_frame_left s1) as L2'. fold s2 in L2'.
  pose proof (took_frame_grown _ s2 (r, L1) (gr_ok _ _ _ _ G2) ltac:(lia) ltac:(cbn; plia)) as G3.
  set (s3 := took_frame s2 (g_pool_next s2)) in *. pose proof (took_frame_left s2) as L3'. fold s3 in L3'.
  pose proof (took_frame_grown _ s3 (r, L0 0) (gr_ok _ _ _ _ G3) ltac:(lia) ltac:(cbn; plia)) as G4.
  set (s4 := took_frame s3 (g_pool_next s3)) in *. pose proof (took_frame_left s3) as L4'. fold s4 in L4'.
  assert (F1 : g_pool_next s1 = r + PAGE_SIZE) by done.
  assert (F2 : g_pool_next s2 = r + 2 * PAGE_SIZE) by (cbn; fold r; lia).
  assert (F3 : g_pool_next s3 = r + 3 * PAGE_SIZE) by (cbn; fold r; lia).
  rewrite F1 in *. rewrite F2 in *. rewrite F3 in *.
  eexists _, s4. split.
  { intros A k.
    rewrite (bind_ret_run _ _ _ _ _ (alloc_frame_run s (pool_ok_next _ (sp_pool _ _ Hs) ltac:(lia)))).
    fold r s1.
    rewrite (bind_ret_run _ _ _ _ _ (alloc_frame_run s1
      (pool_ok_next _ (sp_pool _ _ (gr_ok _ _ _ _ G1)) ltac:(lia)))). fold s2. rewrite F1.
    rewrite (bind_ret_run _ _ _ _ _ (alloc_frame_run s2
      (pool_ok_next _ (sp_pool _ _ (gr_ok _ _ _ _ G2)) ltac:(lia)))). fold s3. rewrite F2.
    rewrite (bind_ret_run _ _ _ _ _ (alloc_frame_run s3
      (pool_ok_next _ (sp_pool _ _ (gr_ok _ _ _ _ G3)) ltac:(lia)))). fold s4. rewrite F3. done. }
  split; [exact (grown_trans _ _ _ _ _ _ (grown_trans _ _ _ _ _ _ (grown_trans _ _ _ _ _ _ G1 G2) G3) G4)|].
  split; [lia|]. split; [exact (own_fresh _ _ (sp_own _ _ Hs))|].
  assert (N : PAGE_SIZE > 0) by plia.
  assert (Hadd : forall own f o g, own_add own f o g = if g =? f then Some o else own g) by done.
  repeat split.
  - rewrite !Hadd. rewrite !(proj2 (Z.eqb_neq _ _)) by lia. by rewrite Z.eqb_refl.
  - rewrite !Hadd. rewrite 2!(proj2 (Z.eqb_neq _ _)) by lia. by rewrite Z.eqb_refl.
  - rewrite !Hadd. rewrite (proj2 (Z.eqb_neq _ _)) by lia. by rewrite Z.eqb_refl.
  - rewrite Hadd. by rewrite Z.eqb_refl.
  - intros f o. rewrite !Hadd. 
    repeat match goal with |- context [f =? ?b] => destruct (Z.eqb_spec f b); [tauto|] end. auto.
  - intros f o Hf x Hx. cbn. unfold mem_fill.
    destruct (sp_own _ _ Hs f o Hf) as [[_ Hb] _]. fold r in Hb. fold r.
    rewrite !(proj2 (in_range_false _ _ x)) by lia. done.
  - intros t j Ht Hj. apply load_zero. intros x Hx. cbn. unfold mem_fill. fold r.
    
    repeat match goal with
    | |- context [in_range ?a ?b x] => destruct (in_range a b x) eqn:?; [done|]
    end. rewrite in_range_false in *. exfalso. plia.
Qed.

Lemma build_address_space_run own s p c :
  spaces_ok own s -> g_proc s !! p = Some c -> 4 <= frames_left s ->
  exists own' s', build_address_space p s = (Ret tt, s') /\
    spaces_ok own' s' /\ built own s own' s' p c /\ frames_left s' = frames_left s - 4.
Proof.
  intros Hs Hp Hl. rewrite build_split.
  destruct (four_frames own s Hs Hl) as (own' & s4 & E & Hg & Hleft & Hn & O0 & O1 & O2 & O3 & Hold & Hsame & Hz).
  rewrite E. clear E. set (r := g_pool_next s) in *.
  set (l2 := r + PAGE_SIZE) in *. set (l1 := r + 2 * PAGE_SIZE) in *. set (l0 := r + 3 * PAGE_SIZE) in *.
  pose proof (gr_ok _ _ _ _ Hg) as Hs4. pose proof (sp_own _ _ Hs4) as Hown'.
  assert (Ne : r <> l2 /\ r <> l1 /\ r <> l0 /\ l2 <> l1 /\ l2 <> l0 /\ l1 <> l0)
    by (subst l2 l1 l0; plia).
  destruct Ne as (N1 & N2 & N3 & N4 & N5 & N6).
  destruct (fill_tables_run s4 r l2 l1 l0 ltac:(own_tac) ltac:(own_tac) ltac:(own_tac) ltac:(own_tac)
    N1 N2 N3 N4 N5 N6 Hz) as (m' & E & Hft & Hsame').
  rewrite (bind_ret_run _ _ _ _ _ E). clear E.
  pose proof (only_mem_proc _ _ (gr_mem _ _ _ _ Hg)) as Hproc.
  unfold modp. cbn [g_proc setter set_g_mem]. rewrite Hproc, Hp.
  set (c' := c <| p_root_pa := r |> <| p_l1_pa := l1 |> <| p_l0_pa := l0 |>).
  assert (Hkeep : forall f o, own f = Some o -> same_frame (g_mem s4) m' f).
  { intros f o Hf. pose proof (gr_le _ _ _ _ Hg _ _ Hf) as Hf'.
    destruct (sp_own _ _ Hs f o Hf) as [[_ Hb] _]. fold r in Hb.
    apply Hsame'; [own_tac|..]; subst l2 l1 l0; plia. }
  eexists own', _. split; [reflexivity|]. split; [split|split]; cbn [g_proc g_mem g_pool_next setter set_g_mem set_g_proc].
  - exact (sp_pool _ _ Hs4).
  - exact Hown'.
  - intros q d Hq Hd. destruct (decide (q = p)) as [->|Hne].
    + rewrite list_lookup_insert_eq in Hq by (by eapply lookup_lt_Some). injection Hq as <-.
      exists l2. by apply fresh_tables_ok.
    + rewrite list_lookup_insert_ne in Hq by done. destruct (sp_as _ _ Hs q d Hq Hd) as [l2' Hok].
      exists l2'. eapply tables_ok_frame; [exact (gr_le _ _ _ _ Hg)| |exact Hok].
      intros t o Ht _. eapply same_frame_trans; [exact (Hsame t _ Ht)|exact (Hkeep t _ Ht)].
  - assert (Hfresh : forall q d, g_proc s !! q = Some d -> p_root_pa d <> 0 -> p_root_pa d <> r).
    { intros q d Hq Hd E. destruct (sp_as _ _ Hs q d Hq Hd) as [l2' [[Hr _] _ _ _]]. congruence. }
    assert (Hr0 : r <> 0) by (destruct (pool_frame_bound r ltac:(own_tac)); lia).
    intros q1 q2 d1 d2 H1 H2 Hd Heq.
    destruct (decide (q1 = p)) as [->|M1], (decide (q2 = p)) as [->|M2]; [done| | |].
    + rewrite list_lookup_insert_eq in H1 by (by eapply lookup_lt_Some). injection H1 as <-.
      rewrite list_lookup_insert_ne in H2 by done. cbn in Hd, Heq.
      exfalso. exact (Hfresh q2 d2 H2 ltac:(congruence) (eq_sym Heq)).
    + rewrite list_lookup_insert_eq in H2 by (by eapply lookup_lt_Some). injection H2 as <-.
      rewrite list_lookup_insert_ne in H1 by done. cbn in Heq.
      exfalso. exact (Hfresh q1 d1 H1 Hd Heq).
    + rewrite list_lookup_insert_ne in H1, H2 by done. exact (sp_root _ _ Hs q1 q2 d1 d2 H1 H2 Hd Heq).
  - exists r, l1, l0. split; [done|]. split.
    { unfold only_mem. rewrite (gr_mem _ _ _ _ Hg). done. }
    split; [done|]. split; [exact Hn|]. split; [destruct (pool_frame_bound r ltac:(own_tac)); lia|].
    split; [exact (gr_le _ _ _ _ Hg)|]. split.
    + intros f o Hf. destruct (Hold _ _ Hf) as [Ho|Ho].
      * destruct (sp_own _ _ Hs f _ Ho) as [_ Hb]. cbn in Hb. lia.
      * destruct Ho as [->|[->|[->| ->]]]; [rewrite O0 in Hf|rewrite O1 in Hf|rewrite O2 in Hf|rewrite O3 in Hf];
          injection Hf as <-; tauto.
    + split; [intros f r' o Hf Hr'; destruct (Hold _ _ Hf) as [|[->|[->|[->| ->]]]]; congruence|]. intros f o Hf. eapply same_frame_trans; [exact (Hsame f _ Hf)|exact (Hkeep f _ Hf)].
  - exact Hleft.
Qed.

End Build.
