(* ===== verification/UserMem.v ===== *)
(** * Reaching a process's memory

    The kernel's software walk [user_pa] finds the frame the MMU finds, so the
    accessors built on it read and write the process's own bytes; the
    page-coalescing block writers are equal to writing byte by byte. *)
From Stdlib Require Import ZArith Lia Bool String.
From stdpp Require Import base list numbers.
From S2P Require Import Prelude Monad State Memory Support Paging MemFacts AddressSpace Isolation.

Section UserMem.
Context {H : Type} `{Host H}.
Implicit Types (s : kst H) (own : owner).

(** Process [p] with its tables, as the lemmas of this file assume it. *)
Record space own s (p : nat) (c : pcb) : Prop := {
  sp_ok : spaces_ok own s;
  sp_proc : g_proc s !! p = Some c;
  sp_set : p_root_pa c <> 0 }.

Lemma va_l0_run own s p c va t : space own s p c -> has_leaf own s c va t ->
  va_l0 p va s = (Ret t, s).
Proof.
  intros [Hs Hp Hr] [Ht Et]. pose proof (sp_own _ _ Hs) as Hown.
  destruct (sp_as _ _ Hs p c Hp Hr) as [l2 Hok]. unfold va_l0. rewrite (bind_getp _ _ _ _ Hp).
  destruct (ok_l0 _ _ _ _ _ _ Hok) as [Hl0 El0]. pose proof (proj1 (ok_l1 _ _ _ _ _ _ Hok)) as H1.
  destruct (Z.eqb_spec (vpn1 va) 0) as [E|].
  - rewrite E, El0 in Et. apply lor_inj in Et; [by rewrite Et|own_tac|own_tac|flags].
  - rewrite (bind_ret_run _ _ _ _ _ (pte_get_run s (p_l1_pa c) (vpn1 va) ltac:(own_tac) (vpn1_bound va))).
    rewrite Et, page_of_lor by (own_tac || flags). done.
Qed.

(** The leaf entry the software walk reads. *)
Lemma leaf_entry_run own s p c va f : space own s p c -> mapped own s c va f ->
  (l0 ← va_l0 p va; pte_get l0 (vpn0 va)) s = (Ret (Z.lor f PTE_USER), s).
Proof.
  intros Hsp (t & Hl & Ef & Hf). pose proof (sp_own _ _ (sp_ok _ _ _ _ Hsp)) as Hown.
  rewrite (bind_ret_run _ _ _ _ _ (va_l0_run _ _ _ _ _ _ Hsp Hl)). destruct Hl as [Ht _].
  rewrite (pte_get_run s t (vpn0 va) ltac:(own_tac) (vpn0_bound va)). by rewrite Ef.
Qed.

Lemma frame_offset f va : pool_frame f -> 0 <= f + va mod PAGE_SIZE < 2 ^ 30 /\
  f <= f + va mod PAGE_SIZE < f + PAGE_SIZE.
Proof.
  intros Hf. pose proof (pool_frame_bound f Hf). pose proof (Z.mod_pos_bound va PAGE_SIZE ltac:(plia)). plia.
Qed.

Lemma user_pa_run own s p c va f : space own s p c -> mapped own s c va f ->
  user_pa p va s = (Ret (f + va mod PAGE_SIZE), s).
Proof.
  intros Hsp Hm. pose proof (leaf_entry_run _ _ _ _ _ _ Hsp Hm) as E. unfold user_pa.
  destruct Hm as (t & _ & _ & Hf). pose proof (sp_own _ _ (sp_ok _ _ _ _ Hsp)) as Hown.
  rewrite <- (bind_assoc_run (va_l0 p va) (fun l0 => pte_get l0 (vpn0 va))).
  rewrite (bind_ret_run _ _ _ _ _ E), page_of_lor, offset_eq by (own_tac || flags).
  destruct (frame_offset f va ltac:(own_tac)). rewrite u64_small by lia. done.
Qed.

Lemma frame_kaddr own s f o va : spaces_ok own s -> own f = Some o -> kaddr s (f + va mod PAGE_SIZE).
Proof.
  intros Hs Hf. pose proof (own_frame _ _ _ _ (sp_own _ _ Hs) Hf) as Hfr.
  apply (pool_kaddr s f); [done|]. by apply frame_offset.
Qed.

Lemma as_read8_run own s p c va f : space own s p c -> mapped own s c va f ->
  as_read8 p va s = (Ret (g_mem s (f + va mod PAGE_SIZE)), s).
Proof.
  intros Hsp Hm. unfold as_read8. rewrite (bind_ret_run _ _ _ _ _ (user_pa_run _ _ _ _ _ _ Hsp Hm)).
  destruct Hm as (t & _ & _ & Hf). unfold kload8.
  rewrite (bind_ret_run _ _ _ _ _ (kptr_kaddr _ _ _ (frame_kaddr _ _ _ _ _ (sp_ok _ _ _ _ Hsp) Hf))). done.
Qed.

Lemma as_write8_run own s p c va v f : space own s p c -> mapped own s c va f ->
  as_write8 p va v s
  = (Ret tt, s <| g_mem := store 1 (g_mem s) (f + va mod PAGE_SIZE) (u8 v) |>).
Proof.
  intros Hsp Hm. unfold as_write8. rewrite (bind_ret_run _ _ _ _ _ (user_pa_run _ _ _ _ _ _ Hsp Hm)).
  destruct Hm as (t & _ & _ & Hf). unfold kstore8.
  rewrite (bind_ret_run _ _ _ _ _ (kptr_kaddr _ _ _ (frame_kaddr _ _ _ _ _ (sp_ok _ _ _ _ Hsp) Hf))). done.
Qed.

(** ** Writes to user pages *)

(** [m'] differs from [m] in user pages only. *)
Definition pages_only own (m m' : mem) : Prop :=
  forall t r o, own t = Some (r, o) -> is_table o = true -> same_frame m m' t.

Lemma spaces_ok_pages own s m' : spaces_ok own s -> pages_only own (g_mem s) m' ->
  spaces_ok own (s <| g_mem := m' |>).
Proof.
  intros Hs Hm. split; [apply Hs|apply Hs| |apply Hs]. cbn. intros p c Hp Hr.
  destruct (sp_as _ _ Hs p c Hp Hr) as [l2 Hok]. exists l2.
  eapply tables_ok_frame; [by intros ??| |exact Hok]. intros t o Ht Ho. exact (Hm t _ o Ht Ho).
Qed.

Lemma space_pages own s p c m' : space own s p c -> pages_only own (g_mem s) m' ->
  space own (s <| g_mem := m' |>) p c.
Proof. intros [Hs Hp Hr] Hm. split; [by apply spaces_ok_pages|done|done]. Qed.

Lemma mapped_pages own s p c va f m' : space own s p c -> pages_only own (g_mem s) m' ->
  mapped own s c va f -> mapped own (s <| g_mem := m' |>) c va f.
Proof.
  intros [Hs Hp Hr] Hm (t & [Ht Et] & Ef & Hf). destruct (sp_as _ _ Hs p c Hp Hr) as [l2 Hok].
  pose proof (proj1 (ok_l1 _ _ _ _ _ _ Hok)) as H1. exists t. split; [split; [done|]|split; [|done]]; cbn.
  - rewrite <- Et. apply same_frame_pte; [exact (Hm _ _ _ H1 eq_refl)|apply vpn1_bound].
  - rewrite <- Ef. apply same_frame_pte; [exact (Hm _ _ _ Ht eq_refl)|apply vpn0_bound].
Qed.

(** ** Block writes *)

(** [tr] is the translation of [va, va + n) in process [c]'s tables. *)
Definition maps own s c (tr : Z -> Z) (va n : Z) : Prop :=
  forall a, va <= a < va + n -> exists f, mapped own s c a f /\ tr a = f + a mod PAGE_SIZE.

(** Bytes [lo, hi) of the request hold [val], the rest of memory is [m]. *)
Definition written (tr : Z -> Z) (va : Z) (val : Z -> Z) (lo hi : Z) (m m' : mem) : Prop :=
  (forall k, lo <= k < hi -> m' (tr (va + k)) = val k) /\
  (forall x, (forall k, lo <= k < hi -> tr (va + k) <> x) -> m' x = m x).

Lemma page_index_inj a b : 0 <= a < 2 ^ 30 -> 0 <= b < 2 ^ 30 ->
  vpn1 a = vpn1 b -> vpn0 a = vpn0 b -> a mod PAGE_SIZE = b mod PAGE_SIZE -> a = b.
Proof.
  intros Ha Hb E1 E0 E. rewrite !region_of_va in E1 by done. rewrite !vpn0_eq in E0. unfold PAGE_SIZE in *.
  pose proof (Z.div_mod a 0x1000 ltac:(lia)). pose proof (Z.div_mod b 0x1000 ltac:(lia)).
  pose proof (Z.div_mod (a / 0x1000) 512 ltac:(lia)) as Da. pose proof (Z.div_mod (b / 0x1000) 512 ltac:(lia)) as Db.
  rewrite Z.div_div in Da, Db by lia. change (0x1000 * 512) with 0x200000 in Da, Db. lia.
Qed.

Lemma maps_inj own s p c tr va n a b : space own s p c -> maps own s c tr va n ->
  0 <= va -> va + n <= 2 ^ 30 -> va <= a < va + n -> va <= b < va + n -> tr a = tr b -> a = b.
Proof.
  intros Hsp Hm H1 H2 Ha Hb E. pose proof (sp_own _ _ (sp_ok _ _ _ _ Hsp)) as Hown.
  destruct (Hm a Ha) as (f & (t & _ & _ & Hf) & Ef). destruct (Hm b Hb) as (g & (u & _ & _ & Hg) & Eg).
  rewrite Ef, Eg in E. destruct (frame_offset f a ltac:(own_tac)) as [_ F1].
  destruct (frame_offset g b ltac:(own_tac)) as [_ G1].
  destruct (decide (f = g)) as [->|Hne].
  - rewrite Hf in Hg. injection Hg as E1 E0. apply page_index_inj; [lia|lia|done|done|lia].
  - exfalso. apply (frames_disjoint f g (f + a mod PAGE_SIZE)); [own_tac|own_tac|done|done|lia].
Qed.

Lemma maps_pool own s p c tr va n a : space own s p c -> maps own s c tr va n ->
  va <= a < va + n -> POOL_BASE <= tr a < POOL_TOP.
Proof.
  intros Hsp Hm Ha. pose proof (sp_own _ _ (sp_ok _ _ _ _ Hsp)) as Hown.
  destruct (Hm a Ha) as (f & (t & _ & _ & Hf) & ->). destruct (frame_offset f a ltac:(own_tac)) as [_ F].
  destruct (own_frame _ _ _ _ Hown Hf) as (? & ? & ?). lia.
Qed.

(** A write to translated addresses touches user pages only. *)
Lemma written_pages own s p c tr va n val lo hi m' : space own s p c -> maps own s c tr va n ->
  0 <= lo -> hi <= n -> written tr va val lo hi (g_mem s) m' -> pages_only own (g_mem s) m'.
Proof.
  intros Hsp Hm Hlo Hhi [_ Hw] t r o Ht Ho x Hx. apply Hw. intros k Hk E.
  pose proof (sp_own _ _ (sp_ok _ _ _ _ Hsp)) as Hown.
  destruct (Hm (va + k) ltac:(lia)) as (f & (u & _ & _ & Hf) & Ef).
  destruct (frame_offset f (va + k) ltac:(own_tac)) as [_ F]. rewrite <- Ef, E in F.
  assert (t <> f) by (intros ->; rewrite Hf in Ht; injection Ht as _ <-; discriminate).
  apply (frames_disjoint t f x); [own_tac|own_tac|done|done|done].
Qed.

Lemma maps_pages own s p c tr va n m' : space own s p c -> pages_only own (g_mem s) m' ->
  maps own s c tr va n -> maps own (s <| g_mem := m' |>) c tr va n.
Proof.
  intros Hsp Hm Hmaps a Ha. destruct (Hmaps a Ha) as (f & Hf & E). exists f. split; [|done].
  by eapply mapped_pages.
Qed.

Lemma written_app tr va val lo mid hi m m1 m2 :
  lo <= mid <= hi ->
  (forall j k, lo <= j < mid -> mid <= k < hi -> tr (va + k) <> tr (va + j)) ->
  written tr va val lo mid m m1 -> written tr va val mid hi m1 m2 -> written tr va val lo hi m m2.
Proof.
  intros Hb Hinj [H1 R1] [H2 R2]. split.
  - intros k Hk. destruct (Z.lt_ge_cases k mid) as [Hlt|Hge]; [|apply H2; lia].
    rewrite R2; [apply H1; lia|]. intros j Hj. apply Hinj; lia.
  - intros x Hx. rewrite R2; [apply R1|]; intros k Hk; apply Hx; lia.
Qed.

Lemma written_nil tr va val lo m : written tr va val lo lo m m.
Proof. split; [lia|done]. Qed.

(** The final memory is determined. *)
Lemma written_unique tr va val lo hi m m1 m2 :
  written tr va val lo hi m m1 -> written tr va val lo hi m m2 -> forall x, m1 x = m2 x.
Proof.
  intros [H1 R1] [H2 R2] x.
  assert (D : forall n lo', (exists k, lo' <= k < lo' + Z.of_nat n /\ tr (va + k) = x) \/
                    (forall k, lo' <= k < lo' + Z.of_nat n -> tr (va + k) <> x)).
  { induction n as [|n IH]; intros lo'; [right; lia|].
    destruct (Z.eq_dec (tr (va + lo')) x) as [E|Hne]; [left; exists lo'; split; [lia|done]|].
    destruct (IH (lo' + 1)) as [(k & Hk & E)|Hno]; [left; exists k; split; [lia|done]|].
    right. intros k Hk. destruct (Z.eq_dec k lo') as [->|]; [done|]. apply Hno. lia. }
  destruct (Z.le_gt_cases lo hi) as [Hle|Hgt]; [|rewrite R1, R2; [done|lia|lia]].
  destruct (D (Z.to_nat (hi - lo)) lo) as [(k & Hk & <-)|Hno].
  - rewrite H1, H2 by lia. done.
  - rewrite R1, R2; [done|intros; apply Hno; lia|intros; apply Hno; lia].
Qed.

(** What one emitted run does. *)
Definition emits (emit : Z -> Z -> Z -> M (kst H) unit) (val : Z -> Z) (n : Z) : Prop :=
  forall s pa off len, 0 < len -> 0 <= off -> off + len <= n -> 0 <= pa -> pa + len < 2 ^ 64 ->
    exists m', emit pa off len s = (Ret tt, s <| g_mem := m' |>) /\
      forall x, m' x = if in_range pa len x then val (off + (x - pa)) else g_mem s x.

(** The request and the walk's invariant.  [pos pv] is how far the request is
    covered when the walk is about to visit page [pv]; the pending run covers
    [run_off, run_off + run_len), all before it is written. *)
Section Walk.
Context (own : owner) (p : nat) (c : pcb) (tr : Z -> Z) (va n : Z) (val : Z -> Z)
  (emit : Z -> Z -> Z -> M (kst H) unit) (m0 : mem)
  (Hva : 0 <= va) (Hn : 0 < n) (Hend : va + n <= 2 ^ 30) (Hemit : emits emit val n).

Definition pos (pv : Z) : Z := Z.max va (Z.min pv (va + n)).

Record run_inv (pv : Z) (r : run) s : Prop := {
  ri_space : space own s p c;
  ri_maps : maps own s c tr va n;
  ri_pos : run_off r + run_len r = pos pv - va;
  ri_bounds : 0 <= run_off r /\ 0 <= run_len r;
  ri_next : run_len r <> 0 -> run_next_pa r = run_pa r + run_len r;
  ri_run : forall k, run_off r <= k < run_off r + run_len r -> tr (va + k) = run_pa r + (k - run_off r);
  ri_written : written tr va val 0 (run_off r) m0 (g_mem s) }.

Lemma flush_run pv r s : run_inv pv r s ->
  exists m', flush emit r s = (Ret tt, s <| g_mem := m' |>) /\
    space own (s <| g_mem := m' |>) p c /\ maps own (s <| g_mem := m' |>) c tr va n /\
    written tr va val 0 (run_off r + run_len r) m0 m'.
Proof.
  intros [Hsp Hm Hpos [B1 B2] Hnx Hrun Hw]. unfold flush.
  destruct (Z.eqb_spec (run_len r) 0) as [E|Hne]; cbn [negb when].
  - exists (g_mem s). replace (s <| g_mem := g_mem s |>) with s by (by destruct s).
    rewrite E, Z.add_0_r. done.
  - assert (Hle : run_off r + run_len r <= n) by (unfold pos in Hpos; lia).
    pose proof (maps_pool own s p c tr va n (va + run_off r) Hsp Hm ltac:(lia)) as P1.
    rewrite (Hrun (run_off r)) in P1 by lia.
    pose proof (maps_pool own s p c tr va n (va + (run_off r + run_len r - 1)) Hsp Hm ltac:(lia)) as P2.
    rewrite Hrun in P2 by lia. pose proof pool_bounds as PB.
    destruct (Hemit s (run_pa r) (run_off r) (run_len r)) as (m' & E & Hm'); try lia.
    assert (W : written tr va val (run_off r) (run_off r + run_len r) (g_mem s) m').
    { split.
      - intros k Hk. rewrite Hm', Hrun by lia. rewrite (proj2 (in_range_true _ _ _)) by lia. f_equal. lia.
      - intros x Hx. rewrite Hm'. destruct (in_range (run_pa r) (run_len r) x) eqn:Ein; [|done].
        apply in_range_true in Ein. exfalso.
        apply (Hx (run_off r + (x - run_pa r))); [lia|]. rewrite Hrun by lia. lia. }
    assert (Hpg : pages_only own (g_mem s) m')
      by exact (written_pages own s p c tr va n val _ _ m' Hsp Hm B1 Hle W).
    exists m'. split; [exact E|]. split; [by apply space_pages|]. split; [by eapply maps_pages|].
    eapply written_app; [|..|exact Hw|exact W]; [lia|]. intros j k Hj Hk Ex.
    apply (maps_inj own s p c tr va n) in Ex; [lia|assumption..| |]; lia.
Qed.

(** Addresses of one page share its entry. *)
Lemma page_indices a : vpn1 (page_of a) = vpn1 a /\ vpn0 (page_of a) = vpn0 a.
Proof.
  rewrite !vpn1_eq, !vpn0_eq, page_of_eq. unfold PAGE_SIZE.
  pose proof (Z.div_mod a 0x1000 ltac:(lia)). pose proof (Z.mod_pos_bound a 0x1000 ltac:(lia)).
  assert (E : (a - a mod 0x1000) / 0x1000 = a / 0x1000).
  { replace (a - a mod 0x1000) with (a / 0x1000 * 0x1000) by lia. apply Z.div_mul. lia. }
  change 0x200000 with (0x1000 * 512). rewrite <- !Z.div_div by lia. rewrite E. done.
Qed.

Lemma mapped_page s a f : mapped own s c a f -> mapped own s c (page_of a) f.
Proof.
  intros (t & [Ht Et] & Ef & Hf). destruct (page_indices a) as [E1 E0].
  exists t. unfold has_leaf. rewrite E1, E0. done.
Qed.

Lemma mapped_fun s a f g : space own s p c -> mapped own s c a f -> mapped own s c a g -> f = g.
Proof.
  intros Hsp Hf Hg. pose proof (leaf_entry_run _ _ _ _ _ _ Hsp Hf) as E.
  rewrite (leaf_entry_run _ _ _ _ _ _ Hsp Hg) in E. injection E as E.
  destruct Hf as (? & _ & _ & Hf), Hg as (? & _ & _ & Hg).
  pose proof (sp_own _ _ (sp_ok _ _ _ _ Hsp)) as Hown.
  symmetry. refine (lor_inj g f PTE_USER _ _ _ E); [own_tac|own_tac|flags].
Qed.

(** The part of page [pv] inside the request translates to one frame. *)
Lemma chunk_frame s pv : space own s p c -> maps own s c tr va n ->
  aligned pv -> page_of va <= pv -> pv < va + n ->
  exists f, mapped own s c pv f /\
    forall a, Z.max va pv <= a < Z.min (pv + PAGE_SIZE) (va + n) -> tr a = f + (a - pv).
Proof.
  intros Hsp Hm Hal Hlo Hhi. assert (Hs : pv + PAGE_SIZE > va).
  { rewrite page_of_eq in Hlo. pose proof (Z.mod_pos_bound va PAGE_SIZE ltac:(plia)). lia. }
  assert (Hpage : forall a, pv <= a < pv + PAGE_SIZE -> page_of a = pv).
  { intros a Ha. rewrite page_of_eq. replace (a mod PAGE_SIZE) with (a - pv); [lia|].
    unfold aligned in Hal. replace a with (a - pv + pv / PAGE_SIZE * PAGE_SIZE) at 2.
    - rewrite Z.mod_add by plia. symmetry. apply Z.mod_small. lia.
    - pose proof (Z.div_mod pv PAGE_SIZE ltac:(plia)). lia. }
  destruct (Hm (Z.max va pv) ltac:(lia)) as (f & Hf & _). exists f.
  assert (Hfp : mapped own s c pv f).
  { rewrite <- (Hpage (Z.max va pv)) by plia. by apply mapped_page. }
  split; [done|]. intros a Ha. destruct (Hm a ltac:(lia)) as (g & Hg & ->).
  apply mapped_page in Hg. rewrite Hpage in Hg by plia.
  rewrite (mapped_fun s pv f g Hsp Hfp Hg). f_equal. pose proof (page_of_eq a) as E.
  rewrite Hpage in E by plia. lia.
Qed.

(** The run after page [pv] joins the pending one or starts afresh. *)
Lemma run_inv_extend pv r s f : run_inv pv r s -> aligned pv -> page_of va <= pv -> pv < va + n ->
  mapped own s c pv f ->
  (forall a, Z.max va pv <= a < Z.min (pv + PAGE_SIZE) (va + n) -> tr a = f + (a - pv)) ->
  let start := Z.max va pv in
  let len := Z.min (pv + PAGE_SIZE) (va + n) - start in
  run_len r <> 0 -> f + (start - pv) = run_next_pa r ->
  run_inv (pv + PAGE_SIZE)
    (mkRun (run_pa r) (run_off r) (run_len r + len) (f + (start - pv) + len)) s.
Proof.
  intros [Hsp Hm Hpos [B1 B2] Hnx Hrun Hw] Hal Hlo Hhi Hf Htr start len Hne Heq.
  assert (Hs : va < pv + PAGE_SIZE).
  { rewrite page_of_eq in Hlo. pose proof (Z.mod_pos_bound va PAGE_SIZE ltac:(plia)). lia. }
  specialize (Hnx Hne).
  split; cbn [run_pa run_off run_len run_next_pa]; try done.
  - unfold pos in *. subst start len. plia.
  - subst start len. plia.
  - intros _. lia.
  - intros k Hk. destruct (Z.lt_ge_cases k (run_off r + run_len r)); [apply Hrun; lia|].
    unfold pos in Hpos. subst start len. rewrite Htr by plia. plia.
Qed.

Lemma run_inv_fresh pv r s s' f m' : run_inv pv r s -> s' = s <| g_mem := m' |> ->
  space own s' p c -> maps own s' c tr va n ->
  written tr va val 0 (run_off r + run_len r) m0 m' ->
  aligned pv -> page_of va <= pv -> pv < va + n ->
  (forall a, Z.max va pv <= a < Z.min (pv + PAGE_SIZE) (va + n) -> tr a = f + (a - pv)) ->
  let start := Z.max va pv in
  let len := Z.min (pv + PAGE_SIZE) (va + n) - start in
  run_inv (pv + PAGE_SIZE) (mkRun (f + (start - pv)) (start - va) len (f + (start - pv) + len)) s'.
Proof.
  intros [_ _ Hpos [B1 B2] _ _ _] -> Hsp Hm Hw Hal Hlo Hhi Htr start len.
  assert (Hs : va < pv + PAGE_SIZE).
  { rewrite page_of_eq in Hlo. pose proof (Z.mod_pos_bound va PAGE_SIZE ltac:(plia)). lia. }
  split; cbn [run_pa run_off run_len run_next_pa]; try done.
  - unfold pos. subst start len. plia.
  - subst start len. plia.
  - intros k Hk. subst start len. rewrite Htr by plia. lia.
  - replace (start - va) with (run_off r + run_len r); [exact Hw|]. unfold pos in Hpos. subst start. plia.
Qed.

Lemma run_walk_spec pages : forall pv r s,
  aligned pv -> page_of va <= pv ->
  pv + Z.of_nat pages * PAGE_SIZE = page_of (va + n - 1) + PAGE_SIZE ->
  run_inv pv r s ->
  exists m', run_walk emit p va (va + n) pv pages r s = (Ret tt, s <| g_mem := m' |>) /\
    written tr va val 0 n m0 m'.
Proof.
  pose proof (page_of_eq (va + n - 1)) as El.
  pose proof (Z.mod_pos_bound (va + n - 1) PAGE_SIZE ltac:(plia)) as Bl.
  induction pages as [|pages IH]; intros pv r s Hal Hlo Hcnt Hinv; cbn [run_walk].
  - destruct (flush_run pv r s Hinv) as (m' & E & _ & _ & W). exists m'. split; [exact E|].
    rewrite (ri_pos _ _ _ Hinv) in W. replace (pos pv - va) with n in W; [exact W|]. unfold pos. lia.
  - assert (Hhi : pv < va + n) by plia.
    assert (Hnext : pv + PAGE_SIZE + Z.of_nat pages * PAGE_SIZE = page_of (va + n - 1) + PAGE_SIZE) by plia.
    assert (Hal' : aligned (pv + PAGE_SIZE)) by (rewrite <- (Z.mul_1_l PAGE_SIZE); by apply aligned_add).
    assert (Hlo' : page_of va <= pv + PAGE_SIZE) by plia.
    pose proof (ri_space _ _ _ Hinv) as Hsp.
    destruct (chunk_frame s pv Hsp (ri_maps _ _ _ Hinv) Hal Hlo Hhi) as (f & Hf & Htr).
    pose proof (leaf_entry_run _ _ _ _ _ _ Hsp Hf) as E.
    rewrite <- (bind_assoc_run (va_l0 p pv) (fun l0 => pte_get l0 (vpn0 pv))).
    rewrite (bind_ret_run _ _ _ _ _ E). clear E.
    pose proof Hf as (t & _ & _ & Hfo). pose proof (sp_own _ _ (sp_ok _ _ _ _ Hsp)) as Hown.
    rewrite page_of_lor by (own_tac || flags).
    replace (if va <? pv then pv else va) with (Z.max va pv)
      by (destruct (Z.ltb_spec va pv); lia).
    assert (Hpv : 0 <= pv).
    { rewrite page_of_eq in Hlo. pose proof (Z.mod_le va PAGE_SIZE ltac:(lia) ltac:(plia)). lia. }
    rewrite (u64_small (pv + PAGE_SIZE)) by plia.
    replace (if pv + PAGE_SIZE <? va + n then pv + PAGE_SIZE else va + n)
      with (Z.min (pv + PAGE_SIZE) (va + n)) by (destruct (Z.ltb_spec (pv + PAGE_SIZE) (va + n)); lia).
    pose proof (pool_frame_bound f ltac:(own_tac)) as Bf.
    assert (Hst : va < pv + PAGE_SIZE).
    { rewrite page_of_eq in Hlo. pose proof (Z.mod_pos_bound va PAGE_SIZE ltac:(plia)). lia. }
    rewrite !u64_small by plia.
    destruct (negb (run_len r =? 0) && (f + (Z.max va pv - pv) =? run_next_pa r)) eqn:Ec.
    + apply andb_true_iff in Ec as [E1 E2]. apply negb_true_iff, Z.eqb_neq in E1. apply Z.eqb_eq in E2.
      apply IH; [done|done|done|]. by apply run_inv_extend.
    + destruct (flush_run pv r s Hinv) as (m1 & E & Hsp1 & Hm1 & W1). rewrite (bind_ret_run _ _ _ _ _ E).
      destruct (IH (pv + PAGE_SIZE)
        (mkRun (f + (Z.max va pv - pv)) (Z.max va pv - va) (Z.min (pv + PAGE_SIZE) (va + n) - Z.max va pv)
           (f + (Z.max va pv - pv) + (Z.min (pv + PAGE_SIZE) (va + n) - Z.max va pv)))
        (s <| g_mem := m1 |>) Hal' Hlo' Hnext) as (m' & E' & W').
      { by eapply run_inv_fresh. }
      exists m'. split; [exact E'|exact W'].
Qed.

Lemma walk_runs_spec s : space own s p c -> maps own s c tr va n -> m0 = g_mem s ->
  exists m', walk_runs emit p va n s = (Ret tt, s <| g_mem := m' |>) /\
    written tr va val 0 n m0 m'.
Proof.
  intros Hsp Hm Em. unfold walk_runs. destruct (Z.eqb_spec n 0); [lia|].
  rewrite !u64_small by lia.
  assert (Hlast : (page_of (va + n - 1) =? LAST_PAGE) = false).
  { apply Z.eqb_neq. rewrite page_of_eq. pose proof (Z.mod_pos_bound (va + n - 1) PAGE_SIZE ltac:(plia)).
    unfold LAST_PAGE. lia. }
  rewrite Hlast. cbn [when].
  assert (Hret : forall (m : M (kst H) unit) s m', m s = (Ret tt, m') -> (m ;; mret tt) s = (Ret tt, m'))
    by (intros m s1 m' E; by rewrite (bind_ret_run _ _ _ _ _ E)).
  enough (exists m', run_walk emit p va (va + n) (page_of va)
      (page_count (page_of va) (page_of (va + n - 1))) (mkRun 0 0 0 0) s = (Ret tt, s <| g_mem := m' |>) /\
      written tr va val 0 n m0 m') as (m' & E & W) by (exists m'; split; [by apply Hret|exact W]).
  apply run_walk_spec.
  - apply aligned_page_of.
  - lia.
  - unfold page_count. pose proof (aligned_page_of va) as A1. pose proof (aligned_page_of (va + n - 1)) as A2.
    assert (Hle : page_of va <= page_of (va + n - 1)).
    { rewrite !page_of_eq. pose proof (Z.div_mod va PAGE_SIZE ltac:(plia)).
      pose proof (Z.div_mod (va + n - 1) PAGE_SIZE ltac:(plia)).
      pose proof (Z.div_le_mono va (va + n - 1) PAGE_SIZE ltac:(plia) ltac:(lia)). plia. }
    assert (Hd : (page_of (va + n - 1) - page_of va) mod PAGE_SIZE = 0).
    { unfold aligned in *. rewrite Zminus_mod, A1, A2. done. }
    pose proof (Z.div_mod (page_of (va + n - 1) - page_of va) PAGE_SIZE ltac:(plia)).
    pose proof (Z.div_pos (page_of (va + n - 1) - page_of va) PAGE_SIZE ltac:(lia) ltac:(plia)).
    rewrite Z2Nat.id by lia. plia.
  - assert (Hp : pos (page_of va) = va).
    { unfold pos. rewrite page_of_eq. pose proof (Z.mod_pos_bound va PAGE_SIZE ltac:(plia)). lia. }
    split; cbn [run_pa run_off run_len run_next_pa]; try done; [lia|lia|rewrite Em; apply written_nil].
Qed.
End Walk.

(** *** The three clients *)

Lemma bulk_copy_in_emits buf n : n <= MAX_BULK_BYTES -> n <= Z.of_nat (length buf) ->
  emits (bulk_copy_in buf) (zget buf) n.
Proof.
  intros Hn Hb s pa off len H1 H2 H3 H4 H5. unfold bulk_copy_in.
  destruct (Z.eqb_spec len 0); [lia|]. destruct (Z.ltb_spec MAX_BULK_BYTES len); [lia|].
  rewrite u64_small by lia. destruct (Z.ltb_spec (pa + len) pa); [lia|]. cbn [orb].
  eexists. split; [reflexivity|]. intros x. unfold mem_write.
  rewrite length_take, length_drop. replace (Z.of_nat (Z.to_nat len `min` (length buf - Z.to_nat off))) with len by lia.
  destruct (in_range pa len x) eqn:E; [|done]. apply in_range_true in E.
  unfold zget, zlookup. rewrite !(proj2 (Z.ltb_ge _ 0)) by lia.
  rewrite lookup_take_lt by lia. rewrite lookup_drop. do 2 f_equal. lia.
Qed.

Lemma bulk_set_emits byte n : n <= MAX_BULK_BYTES ->
  emits (fun pa _ len => sys_bulk_set pa byte len ;; mret tt) (fun _ => u8 byte) n.
Proof.
  intros Hn s pa off len H1 H2 H3 H4 H5. unfold sys_bulk_set.
  destruct (Z.eqb_spec len 0); [lia|]. destruct (Z.ltb_spec MAX_BULK_BYTES len); [lia|].
  rewrite u64_small by lia. destruct (Z.ltb_spec (pa + len) pa); [lia|].
  eexists. split; [reflexivity|]. intros x. unfold mem_fill. by destruct (in_range pa len x).
Qed.

Lemma as_write_bytes_run own s p c tr va src n :
  space own s p c -> maps own s c tr va n -> 0 <= va -> 0 < n -> va + n <= 2 ^ 30 ->
  n <= MAX_BULK_BYTES -> n <= Z.of_nat (length src) ->
  exists m', as_write_bytes p va src n s = (Ret tt, s <| g_mem := m' |>) /\
    written tr va (zget src) 0 n (g_mem s) m'.
Proof.
  intros. unfold as_write_bytes.
  eapply walk_runs_spec; [lia|lia|lia|by apply bulk_copy_in_emits|eassumption|eassumption|reflexivity].
Qed.

Lemma as_fill_bytes_run own s p c tr va byte n :
  space own s p c -> maps own s c tr va n -> 0 <= va -> 0 < n -> va + n <= 2 ^ 30 ->
  n <= MAX_BULK_BYTES ->
  exists m', as_fill_bytes p va byte n s = (Ret tt, s <| g_mem := m' |>) /\
    written tr va (fun _ => u8 byte) 0 n (g_mem s) m'.
Proof.
  intros. unfold as_fill_bytes.
  eapply walk_runs_spec; [lia|lia|lia|by apply bulk_set_emits|eassumption|eassumption|reflexivity].
Qed.

(** The reference: one byte at a time. *)
Lemma as_write_list_run own p c tr n l : forall s va,
  space own s p c -> maps own s c tr va n -> 0 <= va -> va + n <= 2 ^ 30 ->
  n = Z.of_nat (length l) -> Forall (fun b => 0 <= b < 256) l ->
  exists m', as_write_list p va l s = (Ret tt, s <| g_mem := m' |>) /\
    written tr va (zget l) 0 n (g_mem s) m'.
Proof.
  revert n. induction l as [|b l IH]; intros n s va Hsp Hm H1 H2 Hn Hl; cbn [as_write_list].
  - exists (g_mem s). split; [by destruct s|]. subst n. apply written_nil.
  - apply Forall_cons_1 in Hl as [Hb Hl]. cbn [length] in Hn.
    destruct (Hm va ltac:(lia)) as (f & Hf & Ef).
    rewrite (bind_ret_run _ _ _ _ _ (as_write8_run _ _ _ _ _ b _ Hsp Hf)). rewrite <- Ef.
    set (m1 := store 1 (g_mem s) (tr va) (u8 b)).
    assert (W1 : written tr va (zget (b :: l)) 0 1 (g_mem s) m1).
    { split; [intros k Hk; assert (k = 0) as -> by lia|].
      - rewrite Z.add_0_r. unfold m1, store. rewrite (proj2 (in_range_true _ _ _)) by lia.
        rewrite Z.sub_diag, Z.div_1_r. unfold u8. rewrite Z.mod_mod by lia. by rewrite Z.mod_small.
      - intros x Hx. unfold m1, store. destruct (in_range (tr va) 1 x) eqn:E; [|done].
        apply in_range_true in E. exfalso. apply (Hx 0); [lia|]. rewrite Z.add_0_r. lia. }
    assert (Hpg : pages_only own (g_mem s) m1)
      by exact (written_pages own s p c tr va n _ 0 1 m1 Hsp Hm ltac:(lia) ltac:(lia) W1).
    rewrite u64_small by lia.
    destruct (IH (n - 1) (s <| g_mem := m1 |>) (va + 1)) as (m' & E & W); [by apply space_pages| |lia|lia|lia|done|].
    { intros a Ha. eapply maps_pages; [exact Hsp|exact Hpg|exact Hm|lia]. }
    exists m'. split; [exact E|].
    assert (W2 : written tr va (zget (b :: l)) 1 n m1 m').
    { destruct W as [W R]. cbn [g_mem setter set_g_mem] in R. split.
      - intros k Hk. replace (va + k) with (va + 1 + (k - 1)) by lia. rewrite W by lia.
        unfold zget, zlookup. rewrite !(proj2 (Z.ltb_ge _ 0)) by lia.
        replace (Z.to_nat k) with (S (Z.to_nat (k - 1))) by lia. done.
      - intros x Hx. apply R. intros k Hk. replace (va + 1 + k) with (va + (k + 1)) by lia. apply Hx. lia. }
    eapply written_app; [|..|exact W1|exact W2]; [lia|]. intros j k Hj Hk Ex.
    apply (maps_inj own s p c tr va n) in Ex; [lia|assumption..| |]; lia.
Qed.

End UserMem.
