(* ===== verification/SpaceProps.v ===== *)
(** * Properties of memory management

    The statements about frames, address spaces and user memory, each with the
    state it is exercised on: a machine just booted, to which processes with
    pages are added by the kernel's own operations. *)
From Stdlib Require Import ZArith Lia Bool String.
From stdpp Require Import base list numbers.
From S2P Require Import Prelude Monad State Memory Support Paging Files Signals FileCalls VmCalls Dispatch MemFacts AddressSpace Isolation BuildSpace UserMem.

(** ** Frames *)
Section Frames.
Context {H : Type} `{Host H}.
Implicit Types (s : kst H) (own : owner).

(** [alloc_frame] hands out the next frame of the pool: inside the pool,
    page-aligned, all zero, and past every frame handed out before; nothing
    else in memory changes.  When no frame is left the machine powers off. *)
Theorem alloc_frame_correct s : pool_ok s ->
  if 0 <? frames_left s then
    exists f s', alloc_frame s = (Ret f, s') /\ f = g_pool_next s /\ pool_frame f /\
      g_pool_next s' = f + PAGE_SIZE /\ pool_ok s' /\ frames_left s' = frames_left s - 1 /\
      (forall x, f <= x < f + PAGE_SIZE -> g_mem s' x = 0) /\
      (forall x, ~ (f <= x < f + PAGE_SIZE) -> g_mem s' x = g_mem s x) /\
      only_mem s s'
  else fst (alloc_frame s) = Stop PowerOff.
Proof.
  intros Hp. destruct (Z.ltb_spec 0 (frames_left s)) as [Hl|Hl]; [|by apply alloc_frame_out].
  pose proof (pool_ok_next s Hp Hl) as Hf.
  exists (g_pool_next s), (took_frame s (g_pool_next s)).
  split; [by apply alloc_frame_run|]. split; [done|]. split; [done|]. split; [done|].
  split; [by apply took_frame_ok|]. split; [apply took_frame_left|].
  repeat split; cbn; intros x Hx; unfold mem_fill.
  - by rewrite (proj2 (in_range_true _ _ x)).
  - by rewrite (proj2 (in_range_false _ _ x)).
Qed.

(** The zeroing loop of [alloc_frames_contig]. *)
Lemma zero_loop s base n lo :
  (forall k, (lo <= k < lo + n)%nat -> pool_frame (base + Z.of_nat k * PAGE_SIZE)) ->
  exists m', for_ lo n (fun i => memset (u64 (base + Z.of_nat i * PAGE_SIZE)) 0 PAGE_SIZE) s
      = (Ret tt, s <| g_mem := m' |>) /\
    forall x, m' x = if in_range (base + Z.of_nat lo * PAGE_SIZE) (Z.of_nat n * PAGE_SIZE) x
                     then 0 else g_mem s x.
Proof.
  revert s lo. induction n as [|n IH]; intros s lo Hf; cbn [for_].
  - exists (g_mem s). split; [by destruct s|]. intros x. by rewrite (proj2 (in_range_false _ _ x)) by plia.
  - pose proof (Hf lo ltac:(lia)) as Hlo. pose proof (pool_frame_bound _ Hlo).
    rewrite u64_small by plia. rewrite (bind_ret_run _ _ _ _ _ (memset_frame_run s _ Hlo)).
    destruct (IH (s <| g_mem := mem_fill (g_mem s) (base + Z.of_nat lo * PAGE_SIZE) PAGE_SIZE 0 |>) (S lo))
      as (m' & E & Hm); [intros k Hk; apply Hf; lia|].
    exists m'. split; [exact E|]. intros x. rewrite Hm. cbn [g_mem setter set_g_mem]. unfold mem_fill.
    unfold in_range. destruct (Z.leb_spec (base + Z.of_nat (S lo) * PAGE_SIZE) x),
      (Z.ltb_spec x (base + Z.of_nat (S lo) * PAGE_SIZE + Z.of_nat n * PAGE_SIZE)),
      (Z.leb_spec (base + Z.of_nat lo * PAGE_SIZE) x),
      (Z.ltb_spec x (base + Z.of_nat lo * PAGE_SIZE + Z.of_nat (S n) * PAGE_SIZE)),
      (Z.ltb_spec x (base + Z.of_nat lo * PAGE_SIZE + PAGE_SIZE)); cbn [andb]; (done || plia).
Qed.

(** [alloc_frames_contig] is all or nothing.  A request for no frames, or
    for more than are left, returns -1 and changes nothing; any other request
    takes exactly [n] adjacent frames of the pool and zeroes them.  ([n] is
    below 2^51, so that [n * PAGE_SIZE] does not wrap.) *)
Theorem alloc_frames_contig_all_or_nothing s n : pool_ok s -> 0 <= n < 2 ^ 51 ->
  if (n =? 0) || (frames_left s <? n) then alloc_frames_contig n s = (Ret None, s)
  else exists s', alloc_frames_contig n s = (Ret (Some (g_pool_next s)), s') /\
    g_pool_next s' = g_pool_next s + n * PAGE_SIZE /\ pool_ok s' /\
    (forall k, 0 <= k < n -> pool_frame (g_pool_next s + k * PAGE_SIZE)) /\
    (forall x, g_mem s' x = if in_range (g_pool_next s) (n * PAGE_SIZE) x then 0 else g_mem s x) /\
    only_mem s s'.
Proof.
  intros Hp Hn. pose proof Hp as [[P1 P2] P3]. pose proof pool_bounds as PB.
  unfold alloc_frames_contig. run. destruct (Z.eqb_spec n 0) as [->|Hn0]; [done|]. cbn [orb].
  rewrite (u64_small (n * PAGE_SIZE)) by plia. rewrite u64_small by plia.
  assert (Hiff : frames_left s < n <-> POOL_TOP < g_pool_next s + n * PAGE_SIZE).
  { unfold frames_left. pose proof pool_top_aligned as Ht. unfold aligned in P3.
    assert (Hm : (POOL_TOP - g_pool_next s) mod PAGE_SIZE = 0) by (rewrite Zminus_mod, Ht, P3; done).
    pose proof (Z.div_mod (POOL_TOP - g_pool_next s) PAGE_SIZE ltac:(plia)). plia. }
  destruct (Z.ltb_spec (frames_left s) n) as [Hl|Hl].
  - rewrite (proj2 (Z.ltb_lt _ _)) by (by apply Hiff). done.
  - assert (Hle : g_pool_next s + n * PAGE_SIZE <= POOL_TOP) by (apply Z.nlt_ge; intros E; apply Hiff in E; lia).
    rewrite (proj2 (Z.ltb_ge _ _)) by done. run. rewrite u64_small by plia.
    assert (Hfr : forall k, 0 <= k < n -> pool_frame (g_pool_next s + k * PAGE_SIZE))
      by (intros k Hk; apply pool_ok_frame; [done|lia]).
    destruct (zero_loop (s <| g_pool_next := g_pool_next s + n * PAGE_SIZE |>) (g_pool_next s) (Z.to_nat n) 0)
      as (m' & E & Hm); [intros k Hk; apply Hfr; lia|].
    rewrite (bind_ret_run _ _ _ _ _ E). eexists. split; [reflexivity|]. cbn [g_pool_next setter set_g_mem set_g_pool_next].
    split; [done|]. split; [split; cbn; [plia|by apply aligned_add]|]. split; [exact Hfr|]. split; [|done].
    cbn [g_mem setter set_g_mem]. intros x. rewrite Hm. cbn [Z.of_nat]. rewrite Z.mul_0_l, Z.add_0_r, Z2Nat.id by lia.
    done.
Qed.

End Frames.

(** ** Address spaces *)
Section Spaces.
Context {H : Type} `{Host H}.
Implicit Types (s : kst H) (own : owner).

Lemma kernel_identity_bound a : kernel_identity a = true -> 0 <= a < 2 ^ 30.
Proof.
  unfold kernel_identity. rewrite !orb_true_iff, !in_range_true. pose proof pool_bounds.
  unfold TRAP_TABLE_PA, QUESOS_IMG_BASE, QUESOS_IMG_TOP in *. plia.
Qed.

(** C2: [build_address_space] gives a process a new address space in which
    the supervisor reaches the trap table, the kernel image and the frame pool
    at their own addresses, in every access mode, while a user-mode access
    faults everywhere; the translations of every other process are the same
    as before, and the address-space invariant holds. *)
Theorem build_address_space_correct own s p c :
  spaces_ok own s -> g_proc s !! p = Some c -> 4 <= frames_left s ->
  exists own' s' c', build_address_space p s = (Ret tt, s') /\ g_proc s' !! p = Some c' /\
    p_root_pa c' <> 0 /\ spaces_ok own' s' /\ own_le own own' /\ frames_left s' = frames_left s - 4 /\
    (forall a kind, kernel_identity a = true ->
       sv48_walk (g_mem s') (p_root_pa c') a kind true = Some a) /\
    (forall va kind, 0 <= va < 2 ^ 48 -> sv48_walk (g_mem s') (p_root_pa c') va kind false = None) /\
    (forall q d va kind priv, q <> p -> g_proc s !! q = Some d -> p_root_pa d <> 0 -> 0 <= va < 2 ^ 30 ->
       g_proc s' !! q = Some d /\
       sv48_walk (g_mem s') (p_root_pa d) va kind priv = sv48_walk (g_mem s) (p_root_pa d) va kind priv).
Proof.
  intros Hs Hp Hl. destruct (build_address_space_run own s p c Hs Hp Hl)
    as (own' & s' & E & Hs' & (r & l1 & l0 & Hproc & _ & _ & Hn & Hr0 & Hle & Hnop & _ & Hsame) & Hleft).
  set (c' := c <| p_root_pa := r |> <| p_l1_pa := l1 |> <| p_l0_pa := l0 |>) in *.
  assert (Hp' : g_proc s' !! p = Some c')
    by (rewrite Hproc; apply list_lookup_insert_eq; by eapply lookup_lt_Some).
  pose proof (sp_as _ _ Hs' p c' Hp' Hr0) as Hc'. pose proof (sp_own _ _ Hs') as Hown'.
  exists own', s', c'. split; [done|]. split; [done|]. split; [exact Hr0|]. split; [done|]. split; [done|].
  split; [done|]. split; [|split].
  - intros a kind Ha. exact (proj1 (kernel_walk _ _ Hown' _ _ Hc' a kind (kernel_identity_bound a Ha) Ha)).
  - intros va kind Hva. destruct (Z.lt_ge_cases va (2 ^ 30)) as [Hlo|Hhi].
    + destruct (sv48_walk (g_mem s') (p_root_pa c') va kind false) as [pa|] eqn:Ew; [|done].
      destruct (user_walk_inv _ _ Hown' _ _ Hc' va kind pa ltac:(lia) Ew) as (t & f & _ & _ & _ & Hf & _).
      exfalso. destruct (Hnop _ _ Hf) as [|[|[|]]]; discriminate.
    + destruct Hc' as [l2 Hok]. apply (walk_high own' _ Hown' _ _ _ _ _ Hok). lia.
  - intros q d va kind priv Hne Hq Hd Hva. split; [rewrite Hproc; by rewrite list_lookup_insert_ne|].
    apply (walk_frame own _ own' _ _ _ _ _ _ _ (sp_own _ _ Hs) Hown' Hle (sp_as _ _ Hs q d Hq Hd)); [|done].
    intros t o Ht _. exact (Hsame t _ Ht).
Qed.

(** What a user-mode access of a process reaches: a data page the process
    owns, at the offset of the address. *)
Lemma user_reaches own s p c va kind pa :
  spaces_ok own s -> g_proc s !! p = Some c -> p_root_pa c <> 0 -> 0 <= va < 2 ^ 48 ->
  sv48_walk (g_mem s) (p_root_pa c) va kind false = Some pa ->
  exists f i j, own f = Some (p_root_pa c, Page i j) /\ aligned f /\ page_of pa = f /\ POOL_BASE <= pa < g_pool_next s.
Proof.
  intros Hs Hp Hr Hva E. pose proof (sp_own _ _ Hs) as Hown. pose proof (sp_as _ _ Hs p c Hp Hr) as Hc.
  assert (Hlo : 0 <= va < 2 ^ 30).
  { destruct (Z.lt_ge_cases va (2 ^ 30)); [lia|]. destruct Hc as [l2 Hok].
    rewrite (walk_high own _ Hown _ _ _ _ _ Hok) in E by lia. done. }
  destruct (user_walk_inv _ _ Hown _ _ Hc va kind pa Hlo E) as (t & f & _ & _ & _ & Hf & ->).
  exists f. do 2 eexists. split; [exact Hf|]. split; [own_tac|]. split.
  - rewrite <- aligned_lor by (own_tac || apply Z.mod_pos_bound; plia).
    apply page_of_lor; [own_tac|apply Z.mod_pos_bound; plia].
  - destruct (Hown _ _ Hf) as [[(? & ? & ?) ?] _]. destruct (frame_offset f va ltac:(own_tac)). lia.
Qed.

(** C1: processes are isolated, from the kernel and from each other.  Under
    the address-space invariant, in the address space of any process: the
    trap table, the kernel image and the frame pool translate to themselves
    for the supervisor in every access mode, and fault for every user-mode
    access; what a user-mode access does reach is an allocated page of the
    pool, never a frame that holds page tables; and wherever another process
    can reach in user mode, it reaches a different page. *)
Theorem processes_isolated own s p c :
  spaces_ok own s -> g_proc s !! p = Some c -> p_root_pa c <> 0 ->
  (forall a kind, kernel_identity a = true ->
     sv48_walk (g_mem s) (p_root_pa c) a kind true = Some a /\
     sv48_walk (g_mem s) (p_root_pa c) a kind false = None) /\
  (forall va kind pa, 0 <= va < 2 ^ 48 -> sv48_walk (g_mem s) (p_root_pa c) va kind false = Some pa ->
     POOL_BASE <= pa < g_pool_next s /\
     (forall t r o, own t = Some (r, o) -> is_table o = true -> page_of pa <> t) /\
     (forall q d vb kb pb, q <> p -> g_proc s !! q = Some d -> p_root_pa d <> 0 -> 0 <= vb < 2 ^ 48 ->
        sv48_walk (g_mem s) (p_root_pa d) vb kb false = Some pb -> pa <> pb /\ page_of pa <> page_of pb)).
Proof.
  intros Hs Hp Hr. split.
  - intros a kind Ha. apply (kernel_walk _ _ (sp_own _ _ Hs) _ _ (sp_as _ _ Hs p c Hp Hr) a kind); [|done].
    by apply kernel_identity_bound.
  - intros va kind pa Hva E.
    destruct (user_reaches own s p c va kind pa Hs Hp Hr Hva E) as (f & i & j & Hf & Af & Ef & Hpa).
    split; [exact Hpa|]. split.
    + intros t r o Ht Ho Et. rewrite <- Et, Ef, Hf in Ht. injection Ht as _ <-. discriminate.
    + intros q d vb kb pb Hne Hq Hr' Hvb E'.
      destruct (user_reaches own s q d vb kb pb Hs Hq Hr' Hvb E') as (g & i' & j' & Hg & Ag & Eg & _).
      assert (Hfg : f <> g).
      { intros ->. rewrite Hf in Hg. injection Hg as Er _ _. apply Hne.
        symmetry. exact (sp_root _ _ Hs p q c d Hp Hq Hr Er). }
      split; [intros ->|]; congruence.
Qed.

(** C5: the kernel's software walk agrees with the MMU: wherever a user-mode
    access of process [p] succeeds, [user_pa] returns the same physical
    address and changes nothing. *)
Theorem user_pa_refines_mmu own s p c va kind pa :
  spaces_ok own s -> g_proc s !! p = Some c -> p_root_pa c <> 0 -> 0 <= va < 2 ^ 48 ->
  sv48_walk (g_mem s) (p_root_pa c) va kind false = Some pa ->
  user_pa p va s = (Ret pa, s).
Proof.
  intros Hs Hp Hr Hva E. pose proof (sp_own _ _ Hs) as Hown. pose proof (sp_as _ _ Hs p c Hp Hr) as Hc.
  assert (Hlo : 0 <= va < 2 ^ 30).
  { destruct (Z.lt_ge_cases va (2 ^ 30)); [lia|]. destruct Hc as [l2 Hok].
    rewrite (walk_high own _ Hown _ _ _ _ _ Hok) in E by lia. done. }
  destruct (user_walk_inv _ _ Hown _ _ Hc va kind pa Hlo E) as (t & f & Ht & Et & Ef & Hf & ->).
  apply (user_pa_run own s p c va f); [by split|]. exists t. split; [by split|done].
Qed.

(** The kernel's stores through user pointers do not look at the user bit:
    an address of the kernel image, given to a system call that stores through
    [as_write8] (read from a pipe, poll, wait), is overwritten, although the
    process itself cannot access it. *)
Theorem user_store_reaches_kernel own s p c a v :
  spaces_ok own s -> g_proc s !! p = Some c -> p_root_pa c <> 0 -> QUESOS_IMG_BASE <= a < QUESOS_IMG_TOP ->
  as_write8 p a v s = (Ret tt, s <| g_mem := store 1 (g_mem s) a (u8 v) |>) /\
  (forall kind, sv48_walk (g_mem s) (p_root_pa c) a kind false = None).
Proof.
  intros Hs Hp Hr Ha. pose proof (sp_own _ _ Hs) as Hown. pose proof (sp_as _ _ Hs p c Hp Hr) as Hc.
  assert (Hk : kernel_identity a = true).
  { unfold kernel_identity. rewrite !orb_true_iff, !in_range_true. unfold QUESOS_IMG_BASE, QUESOS_IMG_TOP in *. lia. }
  split; [|intros kind; exact (proj2 (kernel_walk _ _ Hown _ _ Hc a kind (kernel_identity_bound a Hk) Hk))].
  destruct Hc as [l2 [_ _ [_ Hreg] [HL EL]]].
  assert (E1 : vpn1 a = 0).
  { unfold QUESOS_IMG_BASE, QUESOS_IMG_TOP in Ha. rewrite region_of_va by lia. apply Z.div_small. lia. }
  assert (E0 : 256 <= vpn0 a < 512).
  { split; [|apply vpn0_bound]. rewrite vpn0_eq. unfold QUESOS_IMG_BASE, QUESOS_IMG_TOP, PAGE_SIZE in *.
    rewrite Z.mod_small; [apply Z.div_le_lower_bound; lia|].
    split; [apply Z.div_pos; lia|apply Z.div_lt_upper_bound; lia]. }
  specialize (Hreg 0 ltac:(lia)). unfold region_ok in Hreg. change (pool_region 0) with false in Hreg. cbn iota in Hreg.
  destruct Hreg as [E|(t & Ht & Et & Hent)].
  { rewrite EL in E. apply (f_equal (fun x => has x PTE_V)) in E.
    rewrite (has_lor _ _ _ (own_aligned _ _ _ _ Hown HL)) in E by flags. discriminate. }
  rewrite EL in Et. apply (lor_inj _ _ PTE_V) in Et; [subst t|own_tac|own_tac|flags].
  specialize (Hent (vpn0 a) ltac:(lia)). unfold entry_ok, kernel_entry in Hent.
  rewrite (proj2 (Z.leb_le 256 _)), orb_true_r in Hent by lia. change (0 =? 0) with true in Hent. cbn [andb] in Hent. cbn iota in Hent.
  assert (Epa : user_pa p a s = (Ret a, s)).
  { unfold user_pa, va_l0. rewrite bind_assoc_run, (bind_getp _ _ _ _ Hp), E1. cbn [Z.eqb].
    rewrite (bind_ret_run _ _ s (p_l0_pa c) s eq_refl).
    rewrite (bind_ret_run _ _ _ _ _ (pte_get_run s _ (vpn0 a) (own_frame _ _ _ _ Hown HL) (vpn0_bound a))), Hent.
    rewrite page_of_lor, offset_eq by (apply aligned_mul || flags).
    assert (Ev : vpn0 a = a / PAGE_SIZE).
    { rewrite vpn0_eq. apply Z.mod_small. unfold QUESOS_IMG_BASE, QUESOS_IMG_TOP, PAGE_SIZE in *.
      split; [apply Z.div_pos; lia|apply Z.div_lt_upper_bound; lia]. }
    rewrite Ev. pose proof (Z.div_mod a PAGE_SIZE ltac:(plia)). pose proof (kernel_identity_bound a Hk).
    replace (a / PAGE_SIZE * PAGE_SIZE + a mod PAGE_SIZE) with a by lia. by rewrite u64_small by lia. }
  unfold as_write8. rewrite (bind_ret_run _ _ _ _ _ Epa). unfold kstore8.
  by rewrite (bind_ret_run _ _ _ _ _ (kptr_kaddr s Store a (or_intror Hk))).
Qed.

(** A page loop over a range that ends in the top page of the address space
    does not come back. *)
Theorem top_page_walk_never_returns p va src n s :
  n <> 0 -> page_of (u64 (va + n - 1)) = LAST_PAGE ->
  exists h s', as_write_bytes p va src n s = (Stop h, s').
Proof.
  intros Hn Hl. unfold as_write_bytes, walk_runs. rewrite (proj2 (Z.eqb_neq _ _) Hn), Hl. cbv zeta.
  rewrite Z.eqb_refl. unfold mbind, M_bind. cbn [when].
  destruct (run_walk _ _ _ _ _ _ _ s) as [[[]|h] s']; [by exists (Spin va n), s'|by exists h, s'].
Qed.

(** [ensure_user_page] maps the page it is asked for: afterwards the MMU
    grants user-mode reads, writes and fetches there, a page that was not
    mapped is a fresh zeroed frame, and every translation and every user byte
    of every process is as before.  It fails only by running out of frames,
    with fewer than two left. *)
Theorem ensure_user_page_correct own s p c va :
  spaces_ok own s -> g_proc s !! p = Some c -> p_root_pa c <> 0 -> user_va va ->
  match ensure_user_page p va s with
  | (Ret _, s') => exists own' f,
      grown own s own' s' /\ own' f = Some (p_root_pa c, Page (vpn1 va) (vpn0 va)) /\
      (forall kind, sv48_walk (g_mem s') (p_root_pa c) va kind false = Some (f + va mod PAGE_SIZE)) /\
      (own f = None -> forall x, f <= x < f + PAGE_SIZE -> g_mem s' x = 0) /\
      (forall q d vb kind pb, g_proc s !! q = Some d -> p_root_pa d <> 0 -> 0 <= vb < 2 ^ 30 ->
         sv48_walk (g_mem s) (p_root_pa d) vb kind false = Some pb ->
         sv48_walk (g_mem s') (p_root_pa d) vb kind false = Some pb)
  | (Stop h, _) => h = PowerOff /\ frames_left s < 2
  end.
Proof.
  intros Hs Hp Hr Hva. pose proof (ensure_user_page_grows own s p c va Hs Hp Hr Hva) as G.
  unfold grows in G. destruct (ensure_user_page p va s) as [[[]|h] s']; [|exact G].
  destruct G as (own' & Hg & _ & f & Hm & Hz). pose proof (gr_ok _ _ _ _ Hg) as Hs'.
  assert (Hp' : g_proc s' !! p = Some c) by (by rewrite (only_mem_proc _ _ (gr_mem _ _ _ _ Hg))).
  exists own', f. split; [exact Hg|]. split; [by destruct Hm as (? & _ & _ & ?)|]. split; [|split; [exact Hz|]].
  - intros kind. exact (mapped_walk own' s' p c va f kind false Hs' Hp' Hr (proj1 Hva) Hm).
  - intros q d vb kind pb Hq Hd Hvb E. exact (grown_walk own s own' s' q d vb kind pb Hs Hg Hq Hd Hvb E).
Qed.

(** The block writer that coalesces physically adjacent pages is the byte
    loop: on a mapped range, [as_write_bytes] and writing the bytes one by one
    both return, and leave the same memory. *)
Theorem as_write_bytes_is_byte_loop own s p c va l :
  spaces_ok own s -> g_proc s !! p = Some c -> p_root_pa c <> 0 ->
  l <> [] -> Forall (fun b => 0 <= b < 256) l -> Z.of_nat (length l) <= MAX_BULK_BYTES ->
  0 <= va -> va + Z.of_nat (length l) <= 2 ^ 30 ->
  (forall a, va <= a < va + Z.of_nat (length l) ->
     is_Some (sv48_walk (g_mem s) (p_root_pa c) a Store false)) ->
  exists m1 m2,
    as_write_bytes p va l (Z.of_nat (length l)) s = (Ret tt, s <| g_mem := m1 |>) /\
    as_write_list p va l s = (Ret tt, s <| g_mem := m2 |>) /\
    (forall x, m1 x = m2 x) /\
    (forall k a, 0 <= k < Z.of_nat (length l) ->
       sv48_walk (g_mem s) (p_root_pa c) (va + k) Store false = Some a -> m1 a = zget l k).
Proof.
  intros Hs Hp Hr Hl Hb Hmax Hva Hend Hwalk. set (n := Z.of_nat (length l)) in *.
  assert (Hn : 0 < n) by (destruct l; [done|subst n; cbn; lia]).
  assert (Hsp : space own s p c) by (by split).
  pose proof (sp_own _ _ Hs) as Hown. pose proof (sp_as _ _ Hs p c Hp Hr) as Hc.
  set (tr := fun a => default 0 (sv48_walk (g_mem s) (p_root_pa c) a Store false)).
  assert (Hm : maps own s c tr va n).
  { intros a Ha. destruct (Hwalk a Ha) as [pa E].
    destruct (user_walk_inv _ _ Hown _ _ Hc a Store pa ltac:(lia) E) as (t & f & Ht & Et & Ef & Hf & ->).
    exists f. split; [exists t; split; [by split|done]|]. unfold tr. by rewrite E. }
  destruct (as_write_bytes_run own s p c tr va l n Hsp Hm Hva Hn Hend Hmax ltac:(lia)) as (m1 & E1 & W1).
  destruct (as_write_list_run own p c tr n l s va Hsp Hm Hva Hend eq_refl Hb) as (m2 & E2 & W2).
  exists m1, m2. split; [exact E1|]. split; [exact E2|]. split; [exact (written_unique _ _ _ _ _ _ _ _ W1 W2)|].
  intros k a Hk E. destruct W1 as [W1 _]. rewrite <- (W1 k Hk). unfold tr. by rewrite E.
Qed.

End Spaces.

(** ** Exercised on a booted machine *)

Definition w_boot : kst demo := kst_boot demo0.
(** Two processes, then pages 3 and 4 for the first and page 3 for the
    second. *)
Definition w_one : kst demo := snd (build_address_space 0 w_boot).
Definition w_two : kst demo := snd (build_address_space 1 w_one).
Definition w_page : kst demo := snd (ensure_user_page 0 0x3000 w_two).
Definition w_page2 : kst demo := snd (ensure_user_page 0 0x4000 w_page).
Definition w_both : kst demo := snd (ensure_user_page 1 0x3000 w_page2).

Lemma w_page_eq : w_page = snd (ensure_user_page 0 0x3000 w_two).
Proof. reflexivity. Qed.
Lemma w_page2_eq : w_page2 = snd (ensure_user_page 0 0x4000 w_page).
Proof. reflexivity. Qed.
Lemma w_both_eq : w_both = snd (ensure_user_page 1 0x3000 w_page2).
Proof. reflexivity. Qed.

Lemma w_one_eq : w_one = snd (build_address_space 0 w_boot).
Proof. reflexivity. Qed.
Lemma w_two_eq : w_two = snd (build_address_space 1 w_one).
Proof. reflexivity. Qed.
#[global] Opaque w_one w_two w_page w_page2 w_both.

Lemma w_boot_pool : pool_ok w_boot.
Proof. split; [split; discriminate|reflexivity]. Qed.

Lemma w_boot_ok : spaces_ok (fun _ => None) w_boot.
Proof.
  assert (Hz : forall p c, g_proc w_boot !! p = Some c -> p_root_pa c = 0).
  { intros p c Hp. apply lookup_replicate in Hp as [-> _]. done. }
  split; [exact w_boot_pool|by intros ??| |].
  - intros p c Hp Hr. by rewrite (Hz p c Hp) in Hr.
  - intros p q c d Hp _ Hr. by rewrite (Hz p c Hp) in Hr.
Qed.

Lemma w_boot_frames : frames_left w_boot = 16384.
Proof. reflexivity. Qed.

Lemma ensure_run {H} `{Host H} own (s s' : kst H) p c va :
  s' = snd (ensure_user_page p va s) ->
  spaces_ok own s -> g_proc s !! p = Some c -> p_root_pa c <> 0 -> user_va va -> 2 <= frames_left s ->
  exists own' f, grown own s own' s' /\ frames_left s - 2 <= frames_left s' /\ mapped own' s' c va f.
Proof.
  intros -> Hs Hp Hr Hva Hl. pose proof (ensure_user_page_grows own s p c va Hs Hp Hr Hva) as G.
  unfold grows in G. destruct (ensure_user_page p va s) as [[[]|h] s']; [|lia].
  destruct G as (own' & Hg & Hl' & f & Hm & _). by exists own', f.
Qed.

(** What the states above look like. *)
Definition w_facts (own : owner) (s : kst demo) (c d : pcb) : Prop :=
  spaces_ok own s /\ g_proc s !! 0%nat = Some c /\ g_proc s !! 1%nat = Some d /\
  p_root_pa c <> 0 /\ p_root_pa d <> 0.

(** The process table: slots 0 and 1 over a table of free slots. *)
Definition w_procs (s : kst demo) (c d : pcb) : Prop :=
  g_proc s = <[1%nat := d]> (<[0%nat := c]> (replicate QUESOS_MAX_PROC pcb_zero)) /\
  p_state c = P_FREE /\ p_state d = P_FREE.

Lemma w_two_ok : exists own c d, w_facts own w_two c d /\ w_procs w_two c d /\ 100 <= frames_left w_two.
Proof.
  destruct (build_address_space_run _ w_boot 0 pcb_zero w_boot_ok eq_refl) as (own1 & s1 & E1 & Hs1 & B1 & L1).
  { rewrite w_boot_frames. lia. }
  assert (s1 = w_one) as -> by (by rewrite w_one_eq, E1). rewrite w_boot_frames in L1.
  destruct B1 as (r & l1 & l0 & P1 & _ & _ & _ & R1 & _).
  assert (Hq : g_proc w_one !! 1%nat = Some pcb_zero) by (by rewrite P1).
  destruct (build_address_space_run own1 w_one 1 pcb_zero Hs1 Hq) as (own2 & s2 & E2 & Hs2 & B2 & L2); [lia|].
  assert (s2 = w_two) as -> by (by rewrite w_two_eq, E2).
  destruct B2 as (r' & l1' & l0' & P2 & _ & _ & _ & R2 & _).
  set (c := pcb_zero <| p_root_pa := r |> <| p_l1_pa := l1 |> <| p_l0_pa := l0 |>) in P1.
  set (d := pcb_zero <| p_root_pa := r' |> <| p_l1_pa := l1' |> <| p_l0_pa := l0' |>) in P2.
  assert (P : g_proc w_two = <[1%nat := d]> (<[0%nat := c]> (replicate QUESOS_MAX_PROC pcb_zero)))
    by (rewrite P2, P1; reflexivity).
  exists own2, c, d. split; [split; [exact Hs2|]|split; [split; [exact P|split; reflexivity]|lia]].
  rewrite P. split; [reflexivity|]. split; [reflexivity|]. split; [exact R1|exact R2].
Qed.

Lemma user_va_low va : 0x2000 <= va < 0x100000 -> user_va va.
Proof.
  intros Hva. split; [lia|]. unfold kernel_identity. rewrite !orb_false_iff, !in_range_false.
  unfold TRAP_TABLE_PA, QUESOS_IMG_BASE, POOL_BASE. plia.
Qed.

Lemma w_both_ok : exists own c d f g h, w_facts own w_both c d /\
  mapped own w_both c 0x3000 f /\ mapped own w_both c 0x4000 g /\ mapped own w_both d 0x3000 h /\
  w_procs w_both c d.
Proof.
  destruct w_two_ok as (own & c & d & (Hs & Hc & Hd & Rc & Rd) & [Hpr Hst] & Hl).
  destruct (ensure_run own w_two w_page 0 c 0x3000 w_page_eq Hs Hc Rc (user_va_low 0x3000 ltac:(lia)) ltac:(lia))
    as (o1 & f & G1 & L1 & M1).
  pose proof (gr_ok _ _ _ _ G1) as S1. pose proof (only_mem_proc _ _ (gr_mem _ _ _ _ G1)) as P1.
  destruct (ensure_run o1 w_page w_page2 0 c 0x4000 w_page2_eq S1 ltac:(by rewrite P1) Rc (user_va_low 0x4000 ltac:(lia)) ltac:(lia))
    as (o2 & g & G2 & L2 & M2).
  pose proof (gr_ok _ _ _ _ G2) as S2. pose proof (only_mem_proc _ _ (gr_mem _ _ _ _ G2)) as P2.
  destruct (ensure_run o2 w_page2 w_both 1 d 0x3000 w_both_eq S2 ltac:(by rewrite P2, P1) Rd (user_va_low 0x3000 ltac:(lia)) ltac:(lia))
    as (o3 & h & G3 & L3 & M3).
  pose proof (gr_ok _ _ _ _ G3) as S3. pose proof (only_mem_proc _ _ (gr_mem _ _ _ _ G3)) as P3.
  assert (C1 : g_proc w_page !! 0%nat = Some c) by (by rewrite P1).
  assert (C2 : g_proc w_page2 !! 0%nat = Some c) by (by rewrite P2).
  exists o3, c, d, f, g, h. split.
  { split; [exact S3|]. rewrite P3, P2, P1. split; [exact Hc|split; [exact Hd|split; [exact Rc|exact Rd]]]. } split; [|split; [|split; [exact M3|]]].
  - exact (mapped_grown _ _ _ _ 0 c _ f S2 C2 Rc G3 (mapped_grown _ _ _ _ 0 c _ f S1 C1 Rc G2 M1)).
  - exact (mapped_grown _ _ _ _ 0 c _ g S2 C2 Rc G3 M2).
  - split; [|exact Hst]. rewrite P3, P2, P1. exact Hpr.
Qed.

Lemma alloc_frame_correct_witness : pool_ok w_boot /\
  exists s', alloc_frame w_boot = (Ret POOL_BASE, s') /\ g_pool_next s' = POOL_BASE + PAGE_SIZE.
Proof.
  split; [exact w_boot_pool|].
  destruct (alloc_frame_correct w_boot w_boot_pool) as (f & s' & E & -> & _ & N & _).
  exists s'. split; [exact E|exact N].
Defined.

Lemma alloc_frames_contig_witness :
  alloc_frames_contig 20000 w_boot = (Ret None, w_boot) /\
  exists s', alloc_frames_contig 3 w_boot = (Ret (Some POOL_BASE), s') /\
    g_pool_next s' = POOL_BASE + 3 * PAGE_SIZE.
Proof.
  split.
  - exact (alloc_frames_contig_all_or_nothing w_boot 20000 w_boot_pool ltac:(lia)).
  - destruct (alloc_frames_contig_all_or_nothing w_boot 3 w_boot_pool ltac:(lia)) as (s' & E & N & _).
    exists s'. split; [exact E|exact N].
Defined.

Lemma build_address_space_witness :
  exists s' c', build_address_space 0 w_boot = (Ret tt, s') /\ g_proc s' !! 0%nat = Some c' /\
    sv48_walk (g_mem s') (p_root_pa c') QUESOS_IMG_BASE Store true = Some QUESOS_IMG_BASE /\
    sv48_walk (g_mem s') (p_root_pa c') QUESOS_IMG_BASE Load false = None.
Proof.
  destruct (build_address_space_correct _ w_boot 0 pcb_zero w_boot_ok eq_refl)
    as (own' & s' & c' & E & Hp & _ & _ & _ & _ & Hk & Hu & _); [rewrite w_boot_frames; lia|].
  exists s', c'. split; [exact E|]. split; [exact Hp|]. split; [apply Hk; reflexivity|].
  apply Hu. unfold QUESOS_IMG_BASE. lia.
Defined.

Lemma processes_isolated_witness : exists c d pa pb,
  g_proc w_both !! 0%nat = Some c /\ g_proc w_both !! 1%nat = Some d /\
  sv48_walk (g_mem w_both) (p_root_pa c) 0x3000 Store false = Some pa /\
  sv48_walk (g_mem w_both) (p_root_pa d) 0x3000 Store false = Some pb /\ pa <> pb /\
  sv48_walk (g_mem w_both) (p_root_pa c) QUESOS_IMG_BASE Store false = None.
Proof.
  destruct w_both_ok as (own & c & d & f & g & h & (Hs & Hc & Hd & Rc & Rd) & Mf & _ & Mh & _).
  pose proof (mapped_walk own w_both 0 c 0x3000 f Store false Hs Hc Rc ltac:(lia) Mf) as E1.
  pose proof (mapped_walk own w_both 1 d 0x3000 h Store false Hs Hd Rd ltac:(lia) Mh) as E2.
  exists c, d, (f + 0x3000 mod PAGE_SIZE), (h + 0x3000 mod PAGE_SIZE). split; [done|]. split; [done|].
  split; [exact E1|]. split; [exact E2|].
  destruct (processes_isolated own w_both 0 c Hs Hc Rc) as [Hk Hu]. split.
  - destruct (Hu 0x3000 Store _ ltac:(lia) E1) as (_ & _ & Hd').
    exact (proj1 (Hd' 1%nat d 0x3000 Store _ ltac:(lia) Hd Rd ltac:(lia) E2)).
  - exact (proj2 (Hk QUESOS_IMG_BASE Store eq_refl)).
Defined.

Lemma user_pa_refines_mmu_witness : exists c pa, g_proc w_both !! 0%nat = Some c /\
  sv48_walk (g_mem w_both) (p_root_pa c) 0x4000 Load false = Some pa /\
  user_pa 0 0x4000 w_both = (Ret pa, w_both).
Proof.
  destruct w_both_ok as (own & c & d & f & g & h & (Hs & Hc & Hd & Rc & Rd) & _ & Mg & _).
  pose proof (mapped_walk own w_both 0 c 0x4000 g Load false Hs Hc Rc ltac:(lia) Mg) as E.
  exists c, (g + 0x4000 mod PAGE_SIZE). split; [done|]. split; [exact E|].
  exact (user_pa_refines_mmu own w_both 0 c 0x4000 Load _ Hs Hc Rc ltac:(lia) E).
Defined.

Lemma ensure_user_page_witness : exists own c s' f,
  spaces_ok own w_two /\ g_proc w_two !! 0%nat = Some c /\
  ensure_user_page 0 0x3000 w_two = (Ret tt, s') /\
  sv48_walk (g_mem s') (p_root_pa c) 0x3000 Fetch false = Some (f + 0).
Proof.
  destruct w_two_ok as (own & c & d & (Hs & Hc & Hd & Rc & Rd) & [Hpr Hst] & Hl).
  pose proof (ensure_user_page_correct own w_two 0 c 0x3000 Hs Hc Rc (user_va_low 0x3000 ltac:(lia))) as T.
  destruct (ensure_user_page 0 0x3000 w_two) as [[[]|h] s'] eqn:E; [|exfalso; lia].
  destruct T as (own' & f & _ & _ & Hw & _). exists own, c, s', f.
  split; [exact Hs|]. split; [exact Hc|]. split; [done|]. exact (Hw Fetch).
Defined.

Lemma as_write_bytes_witness : exists m1 m2,
  as_write_bytes 0 0x3FFE [7; 8; 9] 3 w_both = (Ret tt, w_both <| g_mem := m1 |>) /\
  as_write_list 0 0x3FFE [7; 8; 9] w_both = (Ret tt, w_both <| g_mem := m2 |>) /\
  forall x, m1 x = m2 x.
Proof.
  destruct w_both_ok as (own & c & d & f & g & h & (Hs & Hc & Hd & Rc & Rd) & Mf & Mg & _ & _).
  destruct (as_write_bytes_is_byte_loop own w_both 0 c 0x3FFE [7; 8; 9] Hs Hc Rc)
    as (m1 & m2 & E1 & E2 & Heq & _); [done|repeat constructor; lia|discriminate|lia|cbn; lia| |].
  - intros a Ha. cbn in Ha.
    assert (Hcase : a = 0x3FFE \/ a = 0x3FFF \/ a = 0x4000) by lia.
    destruct Hcase as [->|[->| ->]];
      (erewrite mapped_walk; [eexists; reflexivity|exact Hs|exact Hc|exact Rc|lia|]);
      [exact Mf|exact Mf|exact Mg].
  - exists m1, m2. split; [exact E1|]. split; [exact E2|exact Heq].
Defined.

(** * brk: the heap a process asks for is there

    [do_brk] against the MMU: after a successful call every address below the
    new break translates for user accesses, and no other translation or
    user byte has changed. *)

Section Brk.
Context {H : Type} `{Host H}.
Implicit Types (own : owner) (s : kst H).

(** A change of a process's bookkeeping leaves the address spaces alone. *)
Lemma spaces_ok_pcb own s p c c' :
  spaces_ok own s -> g_proc s !! p = Some c ->
  p_root_pa c' = p_root_pa c -> p_l1_pa c' = p_l1_pa c -> p_l0_pa c' = p_l0_pa c ->
  spaces_ok own (s <| g_proc := <[p := c']> (g_proc s) |>).
Proof.
  intros Hs Hp E1 E2 E3. assert (Hlt : (p < length (g_proc s))%nat) by (by eapply lookup_lt_Some).
  assert (Hl : forall q d, <[p := c']> (g_proc s) !! q = Some d -> exists d', g_proc s !! q = Some d' /\
    p_root_pa d = p_root_pa d' /\ p_l1_pa d = p_l1_pa d' /\ p_l0_pa d = p_l0_pa d').
  { intros q d Hq. destruct (decide (q = p)) as [->|Hn].
    - rewrite list_lookup_insert_eq in Hq by done. injection Hq as <-. by exists c.
    - rewrite list_lookup_insert_ne in Hq by done. by exists d. }
  split; [apply Hs|apply Hs| |].
  - intros q d Hq Hr. destruct (Hl q d Hq) as (d' & Hq' & R1 & R2 & R3). rewrite R1 in Hr.
    destruct (sp_as _ _ Hs q d' Hq' Hr) as [l2 Hok]. exists l2. rewrite R1, R2, R3. exact Hok.
  - intros q q' d e Hq Hq' Hr E. destruct (Hl q d Hq) as (d' & Hd & R1 & _).
    destruct (Hl q' e Hq') as (e' & He & R1' & _). rewrite R1 in Hr, E. rewrite R1' in E.
    exact (sp_root _ _ Hs q q' d' e' Hd He Hr E).
Qed.

Lemma spaces_ok_current own s x : spaces_ok own s -> spaces_ok own (s <| g_current := x |>).
Proof. intros [A B C D]. split; [exact A|exact B|exact C|exact D]. Qed.

(** A mapping depends on the page only. *)
Lemma mapped_from_page own s c va f : mapped own s c (page_of va) f -> mapped own s c va f.
Proof.
  destruct (page_indices va) as [E1 E0]. unfold mapped, has_leaf. by rewrite E1, E0.
Qed.

(** Number of pages [do_brk] walks. *)
Definition brk_pages (cur newbrk : Z) : Z := (newbrk - page_of cur + PAGE_SIZE - 1) / PAGE_SIZE.

Lemma page_of_mult from va : aligned from -> from <= va ->
  exists k, page_of va = from + Z.of_nat k * PAGE_SIZE /\ Z.of_nat k = (va - from) / PAGE_SIZE.
Proof.
  intros Hf Hle. unfold aligned in Hf. exists (Z.to_nat ((va - from) / PAGE_SIZE)).
  rewrite page_of_eq. unfold PAGE_SIZE in *.
  pose proof (Z.div_pos (va - from) 4096 ltac:(lia) ltac:(lia)). rewrite Z2Nat.id by lia. split; [|done].
  pose proof (Z.div_mod from 4096 ltac:(lia)). pose proof (Z.div_mod va 4096 ltac:(lia)).
  pose proof (Z.mod_pos_bound va 4096 ltac:(lia)).
  replace (va - from) with (va mod 4096 + (va / 4096 - from / 4096) * 4096) by lia.
  rewrite Z.div_add, (Z.div_small (va mod 4096)) by lia. lia.
Qed.

(** The loop, and what it leaves. *)
Lemma ensure_user_range_grows own s p c from upto :
  spaces_ok own s -> g_proc s !! p = Some c -> p_root_pa c <> 0 ->
  aligned from -> 0x2000 <= from -> from < upto <= USER_BRK_MAX ->
  grows (2 * ((upto - from + PAGE_SIZE - 1) / PAGE_SIZE)) own (ensure_user_range p from upto) s
    (fun own' _ s' => forall va, from <= va < upto -> exists f, mapped own' s' c va f).
Proof.
  intros Hs Hp Hr Ha Hlo Hup. unfold ensure_user_range. set (n := (upto - from + PAGE_SIZE - 1) / PAGE_SIZE).
  assert (Hn : 0 <= n) by (apply Z.div_pos; unfold PAGE_SIZE; lia).
  assert (Hb : n * PAGE_SIZE <= upto - from + PAGE_SIZE - 1).
  { subst n. unfold PAGE_SIZE. pose proof (Z.mul_div_le (upto - from + 4096 - 1) 4096 ltac:(lia)). lia. }
  replace (2 * n) with (2 * Z.of_nat (Z.to_nat n)) by lia.
  eapply grows_weaken; [|apply (for_ensure_grows p c from _ 0 own s Hs Hp Hr)|].
  - lia.
  - intros k Hk. apply user_va_low. unfold USER_BRK_MAX, PAGE_SIZE in *.
    assert (Z.of_nat k + 1 <= n) by lia. lia.
  - intros own' [] s' Hg Hall va Hva. destruct (page_of_mult from va Ha ltac:(lia)) as (k & E & Ek).
    destruct (Hall k) as [f Hf].
    + assert (Hk : (va - from) / PAGE_SIZE < n); [|lia]. apply Z.div_lt_upper_bound; [done|].
      pose proof (Z.div_mod (upto - from + PAGE_SIZE - 1) PAGE_SIZE ltac:(done)).
      pose proof (Z.mod_pos_bound (upto - from + PAGE_SIZE - 1) PAGE_SIZE ltac:(done)). lia.
    + exists f. apply mapped_from_page. by rewrite E.
Qed.


(** The growth step, which a shrinking request skips. *)
Lemma brk_grow own s p c newbrk :
  spaces_ok own s -> g_proc s !! p = Some c -> p_root_pa c <> 0 -> 0x2000 <= p_brk_cur c ->
  0 < newbrk <= USER_BRK_MAX ->
  grows (2 * Z.max 0 (brk_pages (p_brk_cur c) newbrk)) own
    (when (p_brk_cur c <? newbrk) (ensure_user_range p (page_of (p_brk_cur c)) newbrk)) s
    (fun own' _ s' => forall va, p_brk_cur c <= va < newbrk -> exists f, mapped own' s' c va f).
Proof.
  intros Hs Hp Hr Hlo Hnb. destruct (Z.ltb_spec (p_brk_cur c) newbrk) as [Hlt|Hge]; cbn [when].
  - pose proof (page_of_eq (p_brk_cur c)) as E. pose proof (aligned_page_of (p_brk_cur c)) as Ha.
    pose proof (Z.mod_pos_bound (p_brk_cur c) PAGE_SIZE ltac:(done)).
    assert (0x2000 <= page_of (p_brk_cur c)).
    { rewrite E. unfold PAGE_SIZE in *. pose proof (Z.div_mod (p_brk_cur c) 4096 ltac:(lia)).
      pose proof (Z.div_le_mono 0x2000 (p_brk_cur c) 4096 ltac:(lia) Hlo). change (0x2000 / 4096) with 2 in *. lia. }
    eapply grows_weaken;
      [|apply (ensure_user_range_grows own s p c (page_of (p_brk_cur c)) newbrk Hs Hp Hr Ha); lia|].
    + unfold brk_pages. lia.
    + intros own' [] s' _ Hm va Hva. apply Hm. lia.
  - apply (grows_weaken 0 _ _ _ _ (fun _ _ _ => True)); [lia|by apply grows_ret|]. intros; lia.
Qed.

(** Brk.  A query, or a request above the limit, changes nothing and
    returns the current break.  Any other request within the limit returns the
    new break: afterwards every address from the old break up to it is
    readable, writable and executable to the process, its recorded break is
    the new one, and every translation every process had is as before.  The
    only other outcome is the out-of-frames panic, with fewer than two frames
    per new page left. *)
Theorem brk_maps_heap own s p c newbrk :
  spaces_ok own s -> g_current s = Some p -> g_proc s !! p = Some c -> p_root_pa c <> 0 ->
  0x2000 <= p_brk_cur c < 2 ^ 63 -> 0 <= newbrk < 2 ^ 64 ->
  if (newbrk =? 0) || (USER_BRK_MAX <? newbrk) then do_brk newbrk s = (Ret (p_brk_cur c), s)
  else match do_brk newbrk s with
  | (Ret r, s') => r = newbrk /\
      g_proc s' = <[p := c <| p_brk_cur := newbrk |>]> (g_proc s) /\
      (exists own', spaces_ok own' s' /\ own_le own own') /\
      (forall va kind, p_brk_cur c <= va < newbrk ->
         is_Some (sv48_walk (g_mem s') (p_root_pa c) va kind false)) /\
      (forall q d va kind pa, g_proc s !! q = Some d -> p_root_pa d <> 0 -> 0 <= va < 2 ^ 30 ->
         sv48_walk (g_mem s) (p_root_pa d) va kind false = Some pa ->
         sv48_walk (g_mem s') (p_root_pa d) va kind false = Some pa)
  | (Stop h, _) => h = PowerOff /\ frames_left s < 2 * Z.max 0 (brk_pages (p_brk_cur c) newbrk)
  end.
Proof.
  intros Hs Hcur Hp Hr Hlo Hnb. unfold do_brk.
  rewrite (bind_ret_run current _ s p s) by (unfold current; by rewrite Hcur). rewrite (bind_getp _ _ _ _ Hp). cbv zeta.
  rewrite (i64_small (p_brk_cur c)) by lia.
  destruct (Z.eqb_spec newbrk 0) as [|Hnz]; [done|]. cbn [orb].
  destruct (Z.ltb_spec USER_BRK_MAX newbrk) as [|Hmax]; [done|].
  rewrite (i64_small newbrk) by (unfold USER_BRK_MAX in *; lia).
  pose proof (brk_grow own s p c newbrk Hs Hp Hr ltac:(lia) ltac:(lia)) as G. unfold grows in G.
  unfold mbind at 1, M_bind at 1. destruct (when _ _ s) as [[[]|h] s1]; [|exact G].
  destruct G as (own' & Hg & _ & Hm). pose proof (gr_ok _ _ _ _ Hg) as Hs1.
  pose proof (only_mem_proc _ _ (gr_mem _ _ _ _ Hg)) as Ep.
  assert (Hp1 : g_proc s1 !! p = Some c) by (by rewrite Ep).
  unfold mbind, M_bind, modp. rewrite Hp1. split; [done|]. split; [cbn; by rewrite Ep|].
  split; [exists own'; split; [by eapply spaces_ok_pcb|apply (gr_le _ _ _ _ Hg)]|]. split.
  - intros va kind Hva. destruct (Hm va Hva) as [f Hf]. eexists.
    apply (mapped_walk own' s1 p c va f kind false Hs1 Hp1 Hr); [unfold USER_BRK_MAX in *; lia|exact Hf].
  - intros q d va kind pa Hq Hd Hva E. exact (grown_walk own s own' s1 q d va kind pa Hs Hg Hq Hd Hva E).
Qed.
End Brk.

(** A process whose break is at 0x2000 asks for 0x5000. *)
Lemma brk_maps_heap_witness : exists (s s' : kst demo) c,
  g_proc s !! 0%nat = Some c /\ p_brk_cur c = 0x2000 /\ do_brk 0x5000 s = (Ret 0x5000, s') /\
  is_Some (sv48_walk (g_mem s') (p_root_pa c) 0x4FFF Store false).
Proof.
  destruct w_two_ok as (own & c & d & (Hs & Hc & _ & Rc & _) & _ & Hl).
  revert Hs Hc Hl. generalize w_two. intros w Hs Hc Hl. set (c' := c <| p_brk_cur := 0x2000 |>).
  set (s := w <| g_proc := <[0%nat := c']> (g_proc w) |> <| g_current := Some 0%nat |>).
  assert (Hp : g_proc s !! 0%nat = Some c').
  { cbn. apply list_lookup_insert_eq. by eapply lookup_lt_Some. }
  assert (Hs' : spaces_ok own s).
  { apply spaces_ok_current. exact (spaces_ok_pcb own w 0 c c' Hs Hc eq_refl eq_refl eq_refl). }
  assert (Hf : frames_left s = frames_left w) by reflexivity.
  pose proof (brk_maps_heap own s 0 c' 0x5000 Hs' eq_refl Hp Rc ltac:(cbn; lia) ltac:(lia)) as B.
  change ((0x5000 =? 0) || (USER_BRK_MAX <? 0x5000)) with false in B. cbv iota in B.
  destruct (do_brk 0x5000 s) as [[r|h] s'] eqn:E.
  - destruct B as (-> & _ & _ & Hw & _). exists s, s', c'. split; [exact Hp|]. split; [reflexivity|]. split; [exact E|].
    apply Hw. cbn. lia.
  - destruct B as [_ B]. change (brk_pages (p_brk_cur c') 0x5000) with 3 in B. lia.
Defined.
