(* ===== verification/ForkCopy.v ===== *)
(** * fork's copy of the address space

    The copy loops of [do_fork] against the page tables: the frames they need
    are the frames the pre-check counts, every user page of the parent outside
    the excluded windows gets a page of the child with the same bytes, the
    child gets no other page, and no frame that belongs to another address
    space changes. *)
From Stdlib Require Import ZArith Lia Bool String.
From stdpp Require Import base list numbers.
From S2P Require Import Prelude Monad State Memory Support Paging Files Signals FileCalls Process.
From S2P Require Import MemFacts AddressSpace Isolation BuildSpace UserMem.

(** ** What the pre-check counts *)

(** [w i + w (i + 1) + ...], [n] terms. *)
Fixpoint total (w : Z -> Z) (n : nat) (i : Z) : Z :=
  match n with O => 0 | S n' => w i + total w n' (i + 1) end.

Lemma total_ext w w' n : forall i, (forall j, i <= j < i + Z.of_nat n -> w j = w' j) -> total w n i = total w' n i.
Proof.
  induction n as [|n IH]; intros i E; cbn [total]; [done|].
  rewrite E by lia. f_equal. apply IH. intros j Hj. apply E. lia.
Qed.

Lemma total_nonneg w n : forall i, (forall j, 0 <= w j) -> 0 <= total w n i.
Proof. induction n as [|n IH]; intros i E; cbn [total]; [done|]. specialize (IH (i + 1) E). specialize (E i). lia. Qed.

Lemma total_add w w' n : forall i, total (fun j => w j + w' j) n i = total w n i + total w' n i.
Proof. induction n as [|n IH]; intros i; cbn [total]; [done|]. rewrite IH. lia. Qed.

(** A leaf entry fork copies. *)
Definition user_entry (e : Z) : bool := has e PTE_V && has e PTE_U.

Definition user_pages (m : mem) (t : Z) (n : nat) (j : Z) : Z :=
  total (fun j => if user_entry (pte m t j) then 1 else 0) n j.

(** Pages and leaf tables under the level-1 table [l1]. *)
Definition fork_pages (m : mem) (l1 : Z) (n : nat) (i : Z) : Z :=
  total (fun i => if fork_copies (pte m l1 i) i then user_pages m (page_of (pte m l1 i)) 512 0 else 0) n i.
Definition fork_regions (m : mem) (l1 : Z) (n : nat) (i : Z) : Z :=
  total (fun i => if fork_copies (pte m l1 i) i then 1 else 0) n i.

Lemma user_pages_nonneg m t n j : 0 <= user_pages m t n j.
Proof. apply total_nonneg. intros k. by destruct (user_entry _). Qed.

Section Count.
Context {H : Type} `{Host H}.
Implicit Types (s : kst H) (own : owner).

Lemma count_user_pages_run s t n : forall j acc, pool_frame t -> 0 <= j -> j + Z.of_nat n <= 512 ->
  count_user_pages n t j acc s = (Ret (acc + user_pages (g_mem s) t n j), s).
Proof.
  induction n as [|n IH]; intros j acc Ht Hj Hn; cbn [count_user_pages].
  - unfold user_pages. cbn. by rewrite Z.add_0_r.
  - rewrite (bind_ret_run _ _ _ _ _ (pte_get_run s t j Ht ltac:(lia))). rewrite IH by (done || lia).
    do 2 f_equal. unfold user_pages. cbn [total]. unfold user_entry at 2. destruct (has _ _ && _); lia.
Qed.

(** A level-1 entry that fork copies points to a leaf table of the process. *)
Lemma fork_copies_leaf own s p c i : space own s p c -> 0 <= i < 512 ->
  fork_copies (pte (g_mem s) (p_l1_pa c) i) i = true ->
  exists t, own t = Some (p_root_pa c, L0 i) /\ pte (g_mem s) (p_l1_pa c) i = Z.lor t PTE_V /\
    page_of (pte (g_mem s) (p_l1_pa c) i) = t /\ pool_region i = false /\ fork_region_excluded i = false /\
    forall j, 0 <= j < 512 -> entry_ok own (g_mem s) (p_root_pa c) i t j.
Proof.
  intros [Hs Hp Hr] Hi Hc. destruct (sp_as _ _ Hs p c Hp Hr) as [l2 Hok]. pose proof (sp_own _ _ Hs) as Hown.
  destruct (ok_l1 _ _ _ _ _ _ Hok) as [_ Hreg]. specialize (Hreg i Hi). unfold region_ok in Hreg.
  unfold fork_copies in Hc. apply andb_true_iff in Hc as [Hc Hex]. apply andb_true_iff in Hc as [Hv Hl].
  destruct (pool_region i).
  - rewrite Hreg, has_lor in Hl by (apply aligned_super || flags). discriminate.
  - destruct Hreg as [E|(t & Ht & E & Hent)]; [rewrite E in Hv; discriminate|].
    exists t. split; [done|]. split; [done|]. split; [rewrite E; apply page_of_lor; [own_tac|flags]|].
    split; [done|]. split; [by destruct (fork_region_excluded i)|done].
Qed.

Lemma fork_needed_run own s p c n : forall i acc, space own s p c -> 0 <= i -> i + Z.of_nat n <= 512 ->
  fork_needed n (p_l1_pa c) i acc s = (Ret (acc + fork_pages (g_mem s) (p_l1_pa c) n i), s).
Proof.
  intros i acc Hsp. revert i acc. pose proof (sp_own _ _ (sp_ok _ _ _ _ Hsp)) as Hown.
  destruct (sp_as _ _ (sp_ok _ _ _ _ Hsp) p c (sp_proc _ _ _ _ Hsp) (sp_set _ _ _ _ Hsp)) as [l2 Hok].
  pose proof (proj1 (ok_l1 _ _ _ _ _ _ Hok)) as H1.
  induction n as [|n IH]; intros i acc Hi Hn; cbn [fork_needed].
  - unfold fork_pages. cbn. by rewrite Z.add_0_r.
  - rewrite (bind_ret_run _ _ _ _ _ (pte_get_run s (p_l1_pa c) i ltac:(own_tac) ltac:(lia))).
    unfold fork_pages. cbn [total]. destruct (fork_copies (pte (g_mem s) (p_l1_pa c) i) i) eqn:E.
    + destruct (fork_copies_leaf own s p c i Hsp ltac:(lia) E) as (t & Ht & _ & Et & _). rewrite Et.
      rewrite (bind_ret_run _ _ _ _ _ (count_user_pages_run s t 512 0 acc ltac:(own_tac) ltac:(lia) ltac:(lia))).
      rewrite IH by lia. do 2 f_equal. unfold fork_pages. lia.
    + rewrite bind_mret, IH by lia. do 2 f_equal.
Qed.
End Count.

(** ** One page *)

(** Frames of other address spaces than [r] are unchanged. *)
Definition others (r : Z) (own : owner) (m m' : mem) : Prop :=
  forall f r' o, own f = Some (r', o) -> r' <> r -> same_frame m m' f.

Lemma others_refl r own m : others r own m m.
Proof. by intros f r' o _ _ x _. Qed.
Lemma others_trans r own1 own2 m1 m2 m3 : own_le own1 own2 ->
  others r own1 m1 m2 -> others r own2 m2 m3 -> others r own1 m1 m3.
Proof. intros Hle H1 H2 f r' o Hf Hr. eapply same_frame_trans; eauto. Qed.

(** Frame [f] of [m'] holds what frame [g] of [m] holds. *)
Definition copied (m : mem) (g : Z) (m' : mem) (f : Z) : Prop :=
  forall o, 0 <= o < PAGE_SIZE -> m' (f + o) = m (g + o).

Lemma copied_same m g m1 m2 f : copied m g m1 f -> same_frame m1 m2 f -> copied m g m2 f.
Proof. intros Hc Hs o Ho. rewrite Hs by lia. by apply Hc. Qed.
Lemma copied_from m m1 g m2 f : same_frame m m1 g -> copied m1 g m2 f -> copied m g m2 f.
Proof. intros Hs Hc o Ho. rewrite Hc by done. apply Hs. lia. Qed.

Section Copy.
Context {H : Type} `{Host H}.
Implicit Types (s : kst H) (own : owner).

(** A page that is new since [s] may be written. *)
Lemma grown_page_write own s own' s' f o m' :
  grown own s own' s' -> own f = None -> own' f = Some o -> is_table (snd o) = false ->
  (forall x, ~ (f <= x < f + PAGE_SIZE) -> m' x = g_mem s' x) ->
  grown own s own' (s' <| g_mem := m' |>).
Proof.
  intros [Hs Hle Hm Hp He Ho] Hn Hf Hpg Hw. pose proof (sp_own _ _ Hs) as Hown.
  assert (Hd : forall g o', own' g = Some o' -> g <> f -> same_frame (g_mem s') m' g).
  { intros g o' Hg Hne x Hx. apply Hw. apply (frames_disjoint g f x); [own_tac|own_tac|done|done]. }
  assert (Hd' : forall g o', own g = Some o' -> same_frame (g_mem s') m' g).
  { intros g o' Hg. eapply Hd; [by apply Hle|congruence]. }
  split; cbn [g_mem setter set_g_mem].
  - apply spaces_ok_pages; [done|]. intros t r o' Ht Ho'. eapply Hd; [exact Ht|].
    intros ->. rewrite Ht in Hf. injection Hf as <-. cbn in Hpg. congruence.
  - done.
  - unfold only_mem in *. rewrite Hm. done.
  - intros g r i j Hg. eapply same_frame_trans; eauto.
  - intros t r o' j Ht Ho' Hj Hnz. rewrite (same_frame_pte (g_mem s')); [by eapply He|by eapply Hd'|done].
  - intros x Hx. rewrite Hw; [by apply Ho|]. intros Hin.
    rewrite (pool_identity f x ltac:(own_tac) Hin) in Hx. discriminate.
Qed.

Lemma memcpy_frame_run s f g : pool_frame f -> pool_frame g ->
  memcpy f g PAGE_SIZE s = (Ret tt, s <| g_mem := mem_copy (g_mem s) f g PAGE_SIZE |>).
Proof.
  intros Hf Hg. pose proof (pool_frame_bound f Hf). pose proof (pool_frame_bound g Hg). unfold memcpy.
  change (QUESOS_BULK_MIN <=? PAGE_SIZE) with true. cbn iota.
  assert (E : sys_bulk_copy f g PAGE_SIZE s = (Ret PAGE_SIZE, s <| g_mem := mem_copy (g_mem s) f g PAGE_SIZE |>)).
  { unfold sys_bulk_copy. change (PAGE_SIZE =? 0) with false.
    change (MAX_BULK_BYTES <? PAGE_SIZE) with false. cbn iota. rewrite !u64_small by plia.
    destruct (Z.ltb_spec (g + PAGE_SIZE) g); [plia|]. destruct (Z.ltb_spec (f + PAGE_SIZE) f); [plia|done]. }
  rewrite (bind_ret_run _ _ _ _ _ E). by rewrite Z.eqb_refl.
Qed.

Lemma space_grown own s own' s' q d : space own s q d -> grown own s own' s' -> space own' s' q d.
Proof.
  intros [Hs Hq Hr] Hg. split; [apply Hg| |done]. by rewrite (only_mem_proc _ _ (gr_mem _ _ _ _ Hg)).
Qed.

(** The child's page [j] of region [i] becomes a copy of frame [g]. *)
Definition copy_page (t j g : Z) : M (kst H) unit :=
  cframe ← alloc_frame; memcpy cframe g PAGE_SIZE ;; pte_set t j (Z.lor (page_of cframe) PTE_USER).

(** A new frame, filled with a copy of frame [g]. *)
Lemma alloc_copy_run own s r i j g o (f := g_pool_next s) :
  spaces_ok own s -> 0 < frames_left s -> r <= g_pool_next s -> own g = Some o ->
  exists s', (forall A (k : Z -> M (kst H) A),
      (cframe ← alloc_frame; memcpy cframe g PAGE_SIZE ;; k cframe) s = k f s') /\
    grown own s (own_add own f (r, Page i j)) s' /\ frames_left s' = frames_left s - 1 /\ own f = None /\
    (forall k o', own k = Some o' -> same_frame (g_mem s) (g_mem s') k) /\ copied (g_mem s) g (g_mem s') f.
Proof.
  intros Hs Hl Hr Hg. pose proof (own_fresh _ _ (sp_own _ _ Hs)) as Hn. fold f in Hn.
  pose proof (took_frame_grown own s (r, Page i j) Hs Hl Hr) as G1. fold f in G1.
  set (own' := own_add own f (r, Page i j)) in *. set (s1 := took_frame s f) in *.
  assert (Hf : own' f = Some (r, Page i j)) by apply own_add_eq.
  pose proof (sp_own _ _ (gr_ok _ _ _ _ G1)) as Hown'. pose proof (gr_le _ _ _ _ G1) as Hle.
  pose proof (Hle _ _ Hg) as Hg'. set (m2 := mem_copy (g_mem s1) f g PAGE_SIZE).
  assert (Hout : forall x, ~ (f <= x < f + PAGE_SIZE) -> m2 x = g_mem s1 x /\ g_mem s1 x = g_mem s x).
  { intros x Hx. unfold m2, mem_copy. cbn. unfold mem_fill.
    by rewrite (proj2 (in_range_false f PAGE_SIZE x) Hx). }
  exists (s1 <| g_mem := m2 |>). split; [|split; [|split; [|split; [exact Hn|split]]]].
  - intros A k. rewrite (bind_ret_run _ _ _ _ _ (alloc_frame_run s (pool_ok_next _ (sp_pool _ _ Hs) Hl))).
    fold f s1. by rewrite (bind_ret_run _ _ _ _ _ (memcpy_frame_run s1 f g ltac:(own_tac) ltac:(own_tac))).
  - eapply grown_page_write; [exact G1|exact Hn|exact Hf|done|]. intros x Hx. apply (Hout x Hx).
  - exact (took_frame_left s).
  - intros k o' Hk x Hx. pose proof (Hle _ _ Hk) as Hk'. cbn [g_mem setter set_g_mem].
    destruct (Hout x) as [-> ->]; [|done].
    apply (frames_disjoint k f x); [own_tac|own_tac|congruence|done].
  - intros x Hx. cbn [g_mem setter set_g_mem]. unfold m2, mem_copy.
    rewrite (proj2 (in_range_true f PAGE_SIZE (f + x))) by lia.
    replace (g + (f + x - f)) with (g + x) by lia. apply Hout.
    apply (frames_disjoint g f (g + x)); [own_tac|own_tac|congruence|lia].
Qed.

Lemma copy_page_grows own s q d t i j g o :
  space own s q d -> own t = Some (p_root_pa d, L0 i) -> pte (g_mem s) (p_l1_pa d) i = Z.lor t PTE_V ->
  0 <= i < 512 -> 0 <= j < 512 -> pool_region i = false -> kernel_entry i j = false ->
  pte (g_mem s) t j = 0 -> own g = Some o ->
  grows 1 own (copy_page t j g) s (fun own' _ s' => exists f,
    own f = None /\ own' = own_add own f (p_root_pa d, Page i j) /\ pte (g_mem s') t j = Z.lor f PTE_USER /\
    others (p_root_pa d) own (g_mem s) (g_mem s') /\ copied (g_mem s) g (g_mem s') f).
Proof.
  intros [Hs Hq Hr] Ht Et Hi Hj Hp Hk Ez Hg. unfold grows, copy_page.
  destruct (Z.lt_ge_cases 0 (frames_left s)) as [Hl|Hl].
  2:{ pose proof (alloc_frame_out s (sp_pool _ _ Hs) ltac:(lia)) as E. unfold mbind, M_bind.
      destruct (alloc_frame s) as [[?|h] s']; [done|]. injection E as ->. split; [done|lia]. }
  destruct (alloc_copy_run own s (p_root_pa d) i j g o Hs Hl (root_below own s q d Hs Hq Hr) Hg)
    as (s2 & E & G2 & Hleft & Hn & Hold & Hcp).
  rewrite E. clear E. set (f := g_pool_next s) in *. set (own' := own_add own f (p_root_pa d, Page i j)) in *.
  assert (Hf : own' f = Some (p_root_pa d, Page i j)) by apply own_add_eq.
  pose proof (gr_ok _ _ _ _ G2) as Hs2. pose proof (sp_own _ _ Hs2) as Hown'.
  pose proof (gr_le _ _ _ _ G2) as Hle. pose proof (Hle _ _ Ht) as Ht'.
  assert (Hq2 : g_proc s2 !! q = Some d) by (by rewrite (only_mem_proc _ _ (gr_mem _ _ _ _ G2))).
  rewrite (page_of_aligned f ltac:(own_tac)). rewrite (pte_set_run s2 t j _ ltac:(own_tac) Hj).
  destruct (sp_as _ _ Hs2 q d Hq2 Hr) as [l2 Hok2].
  assert (H1 : own (p_l1_pa d) = Some (p_root_pa d, L1)).
  { destruct (sp_as _ _ Hs q d Hq Hr) as [l2' Hok]. exact (proj1 (ok_l1 _ _ _ _ _ _ Hok)). }
  assert (G3 : grown own' s2 own' (s2 <| g_mem := store 8 (g_mem s2) (t + j * 8) (Z.lor f PTE_USER) |>)).
  { apply (grown_store own' s2 q d t (L0 i) j _ Hs2 Hq2 Hr Ht' eq_refl Hj).
    - rewrite (same_frame_pte (g_mem s)); [exact Ez|exact (Hold _ _ Ht)|done].
    - exists l2. apply (tables_ok_map own' _ Hown' _ _ _ _ _ Hok2 i j t f Hi Hj Hp Hk Ht'); [|exact Hf].
      rewrite (same_frame_pte (g_mem s)); [exact Et|exact (Hold _ _ H1)|done]. }
  exists own'. split; [exact (grown_trans _ _ _ _ _ _ G2 G3)|].
  split. { change (frames_left s - 1 <= frames_left s2). lia. }
  exists f. split; [done|]. split; [done|]. cbn [g_mem setter set_g_mem]. split; [|split].
  - apply pte_store_same. pose proof (pool_frame_bound f ltac:(own_tac)).
    rewrite aligned_lor by (own_tac || flags). unfold PTE_USER. plia.
  - intros k r' o' Hk' Hr'. pose proof (Hle _ _ Hk') as Hk''. eapply same_frame_trans; [exact (Hold _ _ Hk')|].
    apply (same_frame_store _ k t); [own_tac|own_tac|congruence|lia|plia].
  - eapply copied_same; [exact Hcp|].
    apply (same_frame_store _ f t); [own_tac|own_tac|congruence|lia|plia].
Qed.

(** ** The loops *)

Definition leaf_at own (m : mem) (c : pcb) (i t : Z) : Prop :=
  own t = Some (p_root_pa c, L0 i) /\ pte m (p_l1_pa c) i = Z.lor t PTE_V.
(** Process [c] has frame [f] at entry [j] of region [i]. *)
Definition page_at own (m : mem) (c : pcb) (i j f : Z) : Prop :=
  exists t, leaf_at own m c i t /\ pte m t j = Z.lor f PTE_USER /\ own f = Some (p_root_pa c, Page i j).

Lemma leaf_at_grown own s own' s' q d i t : space own s q d -> 0 <= i < 512 ->
  grown own s own' s' -> leaf_at own (g_mem s) d i t -> leaf_at own' (g_mem s') d i t.
Proof.
  intros [Hs Hq Hr] Hi Hg [Ht Et]. destruct (sp_as _ _ Hs q d Hq Hr) as [l2 Hok].
  split; [exact (gr_le _ _ _ _ Hg _ _ Ht)|]. rewrite <- Et.
  apply (gr_pte _ _ _ _ Hg _ _ _ _ (proj1 (ok_l1 _ _ _ _ _ _ Hok)) eq_refl Hi).
  rewrite Et. apply valid_nonzero; [|by left]. exact (own_aligned _ _ _ _ (sp_own _ _ Hs) Ht).
Qed.

Lemma page_at_grown own s own' s' q d i j f : space own s q d -> 0 <= i < 512 -> 0 <= j < 512 ->
  grown own s own' s' -> page_at own (g_mem s) d i j f -> page_at own' (g_mem s') d i j f.
Proof.
  intros Hsp Hi Hj Hg (t & Hl & Ef & Hf). exists t.
  split; [by eapply leaf_at_grown|]. split; [|exact (gr_le _ _ _ _ Hg _ _ Hf)]. rewrite <- Ef.
  apply (gr_pte _ _ _ _ Hg _ _ _ _ (proj1 Hl) eq_refl Hj).
  rewrite Ef. apply valid_nonzero; [|by right].
  exact (own_aligned _ _ _ _ (sp_own _ _ (sp_ok _ _ _ _ Hsp)) Hf).
Qed.

Lemma grows_and {A} k own (m : M (kst H) A) s (Q : owner -> A -> kst H -> Prop) (R : A -> kst H -> Prop) :
  grows k own m s Q -> (forall a s', m s = (Ret a, s') -> R a s') ->
  grows k own m s (fun own' a s' => Q own' a s' /\ R a s').
Proof.
  unfold grows. destruct (m s) as [[a|h] s']; [|done]. intros (own' & Hg & Hl & HQ) HR.
  exists own'. split; [done|]. split; [done|]. split; [done|]. by apply HR.
Qed.

Lemma ensure_l0_others own s q d va t s' : space own s q d ->
  ensure_l0 q va s = (Ret t, s') -> others (p_root_pa d) own (g_mem s) (g_mem s').
Proof.
  intros [Hs Hq Hr]. destruct (sp_as _ _ Hs q d Hq Hr) as [l2 Hok]. pose proof (sp_own _ _ Hs) as Hown.
  pose proof (proj1 (ok_l1 _ _ _ _ _ _ Hok)) as H1. unfold ensure_l0. rewrite (bind_getp _ _ _ _ Hq).
  rewrite (bind_ret_run _ _ _ _ _ (pte_get_run s (p_l1_pa d) (vpn1 va) ltac:(own_tac) (vpn1_bound va))).
  destruct (has _ PTE_V); [intros [= _ <-]; apply others_refl|].
  destruct (Z.lt_ge_cases 0 (frames_left s)) as [Hl|Hl].
  2:{ pose proof (alloc_frame_out s (sp_pool _ _ Hs) ltac:(lia)) as E. unfold mbind, M_bind.
      by destruct (alloc_frame s) as [[?|h] ?]. }
  pose proof (pool_ok_next _ (sp_pool _ _ Hs) Hl) as Hf. pose proof (own_fresh _ _ Hown) as Hn.
  rewrite (bind_ret_run _ _ _ _ _ (alloc_frame_run s Hf)).
  rewrite (bind_ret_run _ _ _ _ _ (pte_set_run _ (p_l1_pa d) _ _ ltac:(own_tac) (vpn1_bound va))).
  intros [= _ <-] f r o Ho Hne. cbn [g_mem setter set_g_mem].
  eapply same_frame_trans; [apply (same_frame_fill _ f (g_pool_next s) 0); [own_tac|apply Hf|congruence]|].
  pose proof (vpn1_bound va). apply (same_frame_store _ f (p_l1_pa d)); [own_tac|own_tac|congruence|lia|plia].
Qed.

Section Loops.
Context (own0 : owner) (s0 : kst H) (p q : nat) (c d : pcb)
  (Hpar : space own0 s0 p c) (Hne : p_root_pa c <> p_root_pa d).
Abbreviation rd := (p_root_pa d).
Abbreviation m0 := (g_mem s0).

(** The pages at the positions [P] have been copied, and nothing else. *)
Record copying own s (P : Z -> Z -> Prop) : Prop := {
  cp_space : space own s q d;
  cp_grown : grown own0 s0 own s;
  cp_others : others rd own0 m0 (g_mem s);
  cp_only : forall f i j, own f = Some (rd, Page i j) ->
    P i j /\ fork_region_excluded i = false /\ exists g, page_at own0 m0 c i j g;
  cp_done : forall i j g, 0 <= i < 512 -> 0 <= j < 512 -> P i j -> fork_region_excluded i = false ->
    page_at own0 m0 c i j g -> exists f, page_at own (g_mem s) d i j f /\ copied m0 g (g_mem s) f }.

Definition upto (i j i' j' : Z) : Prop := i' < i \/ i' = i /\ j' < j.

(** The copy survives growth that gives the child no page. *)
Lemma copying_grown own s P own' s' : copying own s P -> grown own s own' s' ->
  others rd own (g_mem s) (g_mem s') ->
  (forall f i j, own' f = Some (rd, Page i j) -> own f = Some (rd, Page i j)) -> copying own' s' P.
Proof.
  intros [Hsp Hg Ho Hon Hd] Hg' Ho' Hpg. split.
  - by eapply space_grown.
  - by eapply grown_trans.
  - eapply others_trans; [apply Hg|exact Ho|exact Ho'].
  - intros f i j Hf. by apply (Hon f), Hpg.
  - intros i j g Hi Hj HP He Hpa. destruct (Hd i j g Hi Hj HP He Hpa) as (f & Hf & Hc). exists f.
    split; [by eapply page_at_grown|]. destruct Hf as (t & _ & _ & Hf).
    eapply copied_same; [exact Hc|]. exact (gr_page _ _ _ _ Hg' f _ _ _ Hf).
Qed.

(** The parent's tables are what they were. *)
Lemma parent_pte own s P t o j : copying own s P -> own0 t = Some (p_root_pa c, o) -> 0 <= j < 512 ->
  pte (g_mem s) t j = pte m0 t j.
Proof. intros Hc Ht Hj. apply same_frame_pte; [|done]. exact (cp_others _ _ _ Hc t _ _ Ht Hne). Qed.

Lemma user_entry_page f : aligned f -> user_entry (Z.lor f PTE_USER) = true.
Proof. intros Hf. unfold user_entry. rewrite !(has_lor _ _ _ Hf) by flags. done. Qed.

(** More positions count as copied when the parent has no page there. *)
Lemma copying_weaken own s P P' : copying own s P -> (forall i j, P i j -> P' i j) ->
  (forall i j g, 0 <= i < 512 -> 0 <= j < 512 -> P' i j -> fork_region_excluded i = false ->
     page_at own0 m0 c i j g -> P i j) -> copying own s P'.
Proof.
  intros [Hsp Hgr Ho Hon Hd] H1 H2. split; [done|done|done|..].
  - intros f i j Hf. destruct (Hon _ _ _ Hf) as (HP & ? & ?). split; [by apply H1|done].
  - intros i j g Hi Hj HP He Hpa. eapply Hd; [done|done| |done|done]. by eapply H2.
Qed.

(** The child's entry about to be filled is empty. *)
Lemma entry_empty own s i t j : copying own s (upto i j) -> 0 <= i < 512 -> 0 <= j < 512 ->
  pool_region i = false -> kernel_entry i j = false -> leaf_at own (g_mem s) d i t -> pte (g_mem s) t j = 0.
Proof.
  intros Hc Hi Hj Hp Hk [Ht Et]. destruct (cp_space _ _ _ Hc) as [Hs Hq Hr].
  destruct (sp_as _ _ Hs q d Hq Hr) as [l2 Hok]. pose proof (sp_own _ _ Hs) as Hown.
  destruct (ok_l1 _ _ _ _ _ _ Hok) as [_ Hreg]. specialize (Hreg i Hi). unfold region_ok in Hreg.
  rewrite Hp, Et in Hreg. destruct Hreg as [E|(t' & Ht' & E' & Hent')].
  { exfalso. revert E. apply valid_nonzero; [own_tac|by left]. }
  apply lor_inj in E'; [subst t'|own_tac|own_tac|flags].
  specialize (Hent' j Hj). unfold entry_ok in Hent'. rewrite Hk in Hent'.
  destruct Hent' as [E|(f & Hf & _)]; [done|]. exfalso.
  destruct (cp_only _ _ _ Hc f i j Hf) as [[|[_ ?]] _]; lia.
Qed.

(** The page at [(i, j)] of the parent is unique. *)
Lemma page_at_leaf i tp j g : leaf_at own0 m0 c i tp -> page_at own0 m0 c i j g ->
  pte m0 tp j = Z.lor g PTE_USER /\ aligned g.
Proof.
  intros [Htp Etp] (tp' & [Ht' Et'] & Eg & Hg). pose proof (sp_own _ _ (sp_ok _ _ _ _ Hpar)) as Hown0.
  rewrite Etp in Et'. apply lor_inj in Et'; [subst tp'|own_tac|own_tac|flags]. split; [done|own_tac].
Qed.

Lemma copying_add own s i j tp t g f s' (own' := own_add own f (rd, Page i j)) :
  copying own s (upto i j) -> 0 <= i < 512 -> fork_region_excluded i = false ->
  leaf_at own0 m0 c i tp -> pte m0 tp j = Z.lor g PTE_USER -> own0 g = Some (p_root_pa c, Page i j) ->
  leaf_at own (g_mem s) d i t -> grown own s own' s' -> pte (g_mem s') t j = Z.lor f PTE_USER ->
  others rd own (g_mem s) (g_mem s') -> copied (g_mem s) g (g_mem s') f -> copying own' s' (upto i (j + 1)).
Proof.
  intros [Hsp Hgr Ho Hon Hd] Hi Hex Hl Eg Hg Hlc Hg' Et Ho' Hcp.
  assert (Hpage : page_at own0 m0 c i j g) by (exists tp; done). split.
  - by eapply space_grown.
  - by eapply grown_trans.
  - eapply others_trans; [apply Hgr|exact Ho|exact Ho'].
  - intros f' i' j' Hf'. unfold own', own_add in Hf'. destruct (Z.eqb_spec f' f) as [->|].
    + injection Hf' as <- <-. split; [right; lia|]. split; [done|by exists g].
    + destruct (Hon _ _ _ Hf') as (HP & ? & ?). split; [|done]. unfold upto in *. lia.
  - intros i' j' g' Hi' Hj' HP He Hpa. destruct (decide (i' = i /\ j' = j)) as [[-> ->]|Hd'].
    + exists f. destruct (page_at_leaf i tp j g' Hl Hpa) as [Eg' Hal]. rewrite Eg in Eg'.
      pose proof (sp_own _ _ (sp_ok _ _ _ _ Hpar)) as Hown0.
      apply lor_inj in Eg'; [subst g'|own_tac|done|flags]. split.
      { exists t. split; [by eapply leaf_at_grown|]. split; [done|apply own_add_eq]. }
      eapply copied_from; [|exact Hcp]. exact (Ho g _ _ Hg Hne).
    + destruct (Hd i' j' g' Hi' Hj') as (f' & Hf' & Hc'); [unfold upto in *; lia|done|done|].
      exists f'. split; [by eapply page_at_grown|]. destruct Hf' as (t' & _ & _ & Hf').
      eapply copied_same; [exact Hc'|]. exact (gr_page _ _ _ _ Hg' f' _ _ _ Hf').
Qed.

(** One entry of a leaf table. *)
Lemma copy_entry_grows own s i tp t j : copying own s (upto i j) ->
  0 <= i < 512 -> 0 <= j < 512 -> pool_region i = false -> fork_region_excluded i = false ->
  leaf_at own0 m0 c i tp -> entry_ok own0 m0 (p_root_pa c) i tp j -> leaf_at own (g_mem s) d i t ->
  grows (if user_entry (pte m0 tp j) then 1 else 0) own
    (when (user_entry (pte m0 tp j)) (copy_page t j (page_of (pte m0 tp j)))) s
    (fun own' _ s' => copying own' s' (upto i (j + 1)) /\ leaf_at own' (g_mem s') d i t).
Proof.
  intros Hc Hi Hj Hp Hex Hl Hent Hlc. pose proof (sp_own _ _ (sp_ok _ _ _ _ Hpar)) as Hown0.
  destruct (user_entry (pte m0 tp j)) eqn:Eu; cbn [when].
  - unfold entry_ok in Hent. destruct (kernel_entry i j) eqn:Ek.
    { exfalso. rewrite Hent in Eu. unfold user_entry in Eu.
      rewrite !(has_lor _ _ _ (aligned_mul _)) in Eu by flags. discriminate. }
    destruct Hent as [E|(g & Hg & Eg)]; [rewrite E in Eu; discriminate|].
    rewrite Eg, page_of_lor by (own_tac || flags).
    pose proof (entry_empty own s i t j Hc Hi Hj Hp Ek Hlc) as Ez.
    eapply grows_weaken; [reflexivity|
      apply (copy_page_grows own s q d t i j g _ (cp_space _ _ _ Hc) (proj1 Hlc) (proj2 Hlc) Hi Hj Hp Ek Ez
        (gr_le _ _ _ _ (cp_grown _ _ _ Hc) _ _ Hg))|].
    intros own' [] s' Hg' (f & Hn & -> & Et & Ho' & Hcp).
    split; [|eapply leaf_at_grown; [apply Hc|done|exact Hg'|exact Hlc]]. by eapply copying_add.
  - apply grows_ret; [apply (sp_ok _ _ _ _ (cp_space _ _ _ Hc))|]. split; [|done].
    eapply copying_weaken; [exact Hc|unfold upto; lia|]. intros i' j' g _ _ HP _ Hpa.
    destruct (decide (i' = i /\ j' = j)) as [[-> ->]|]; [|unfold upto in *; lia].
    destruct (page_at_leaf i tp j g Hl Hpa) as [Eg Hal]. rewrite Eg, user_entry_page in Eu by done. discriminate.
Qed.

Lemma copy_region_grows i tp t n : forall lo own s, (lo + n = 512)%nat ->
  copying own s (upto i (Z.of_nat lo)) ->
  0 <= i < 512 -> pool_region i = false -> fork_region_excluded i = false ->
  leaf_at own0 m0 c i tp -> (forall j, 0 <= j < 512 -> entry_ok own0 m0 (p_root_pa c) i tp j) ->
  leaf_at own (g_mem s) d i t ->
  grows (user_pages m0 tp n (Z.of_nat lo)) own
    (for_ lo n (fun idx =>
       ppte0 ← pte_get tp (Z.of_nat idx);
       when (has ppte0 PTE_V && has ppte0 PTE_U)
         (cframe ← alloc_frame; memcpy cframe (page_of ppte0) PAGE_SIZE ;;
          pte_set t (Z.of_nat idx) (Z.lor (page_of cframe) PTE_USER)))) s
    (fun own' _ s' => copying own' s' (upto (i + 1) 0)).
Proof.
  induction n as [|n IH]; intros lo own s Hlo Hc Hi Hp Hex Hl Hent Hlc; cbn [for_].
  - apply grows_ret; [apply (sp_ok _ _ _ _ (cp_space _ _ _ Hc))|].
    eapply copying_weaken; [exact Hc|unfold upto; lia|]. intros i' j' g _ Hj' HP _ _. unfold upto in *. lia.
  - unfold user_pages. cbn [total].
    replace (Z.of_nat lo + 1) with (Z.of_nat (S lo)) by lia.
    eapply grows_bind; [apply user_pages_nonneg| |].
    + pose proof (sp_own _ _ (sp_ok _ _ _ _ (cp_space _ _ _ Hc))) as Hown.
      pose proof (gr_le _ _ _ _ (cp_grown _ _ _ Hc) _ _ (proj1 Hl)) as Htp.
      unfold grows.
      rewrite (bind_ret_run _ _ _ _ _ (pte_get_run s tp (Z.of_nat lo) ltac:(own_tac) ltac:(lia))).
      rewrite (parent_pte own s _ tp _ (Z.of_nat lo) Hc (proj1 Hl) ltac:(lia)).
      exact (copy_entry_grows own s i tp t (Z.of_nat lo) Hc Hi ltac:(lia) Hp Hex Hl (Hent (Z.of_nat lo) ltac:(lia)) Hlc).
    + intros own' [] s' Hg [Hc' Hlc']. apply IH; [lia| |done..|done].
      by replace (Z.of_nat (S lo)) with (Z.of_nat lo + 1) by lia.
Qed.

Lemma region_index i : 0 <= i < 512 -> vpn1 (Z.shiftl i 21) = i.
Proof.
  intros Hi. rewrite vpn1_eq, Z.shiftl_mul_pow2 by lia. change (2 ^ 21) with 0x200000.
  rewrite Z.div_mul by lia. by apply Z.mod_small.
Qed.

(** A region fork passes over has no page to copy. *)
Lemma copying_skip own s i : copying own s (upto i 0) -> 0 <= i < 512 ->
  fork_copies (pte m0 (p_l1_pa c) i) i = false -> copying own s (upto (i + 1) 0).
Proof.
  intros Hc Hi Hf. pose proof (sp_own _ _ (sp_ok _ _ _ _ Hpar)) as Hown0.
  eapply copying_weaken; [exact Hc|unfold upto; lia|]. intros i' j' g _ Hj' HP He (t & [Ht Et] & _).
  destruct (decide (i' = i)) as [->|]; [|unfold upto in *; lia]. exfalso. unfold fork_copies in Hf.
  rewrite He, Et, !has_lor in Hf by (own_tac || flags). discriminate.
Qed.

Lemma fork_copy_grows n : forall lo own s, (lo + n = 512)%nat -> copying own s (upto (Z.of_nat lo) 0) ->
  grows (fork_regions m0 (p_l1_pa c) n (Z.of_nat lo) + fork_pages m0 (p_l1_pa c) n (Z.of_nat lo)) own
    (for_ lo n (fun l1_idx =>
       ppte1 ← pte_get (p_l1_pa c) (Z.of_nat l1_idx);
       when (fork_copies ppte1 (Z.of_nat l1_idx))
         (child_l0 ← ensure_l0 q (Z.shiftl (Z.of_nat l1_idx) 21);
          fork_copy_region (page_of ppte1) child_l0))) s
    (fun own' _ s' => copying own' s' (upto 512 0)).
Proof.
  induction n as [|n IH]; intros lo own s Hlo Hc; cbn [for_].
  - apply grows_ret; [apply (sp_ok _ _ _ _ (cp_space _ _ _ Hc))|]. by replace 512 with (Z.of_nat lo) by lia.
  - unfold fork_regions, fork_pages. cbn [total]. fold (fork_regions m0 (p_l1_pa c) n (Z.of_nat lo + 1)).
    fold (fork_pages m0 (p_l1_pa c) n (Z.of_nat lo + 1)).
    set (e := pte m0 (p_l1_pa c) (Z.of_nat lo)).
    replace (_ + _ + (_ + _)) with
      ((if fork_copies e (Z.of_nat lo) then 1 + user_pages m0 (page_of e) 512 0 else 0)
       + (fork_regions m0 (p_l1_pa c) n (Z.of_nat (S lo)) + fork_pages m0 (p_l1_pa c) n (Z.of_nat (S lo))))
      by (replace (Z.of_nat (S lo)) with (Z.of_nat lo + 1) by lia; destruct (fork_copies e _); lia).
    eapply (grows_bind _ _ _ _ _ _ (fun own' _ s' => copying own' s' (upto (Z.of_nat lo + 1) 0))).
    + unfold fork_regions, fork_pages. rewrite <- total_add. apply total_nonneg. intros j.
      destruct (fork_copies _ _); [|lia]. pose proof (user_pages_nonneg m0 (page_of (pte m0 (p_l1_pa c) j)) 512 0). lia.
    + pose proof (sp_own _ _ (sp_ok _ _ _ _ (cp_space _ _ _ Hc))) as Hown.
      destruct (sp_as _ _ (sp_ok _ _ _ _ Hpar) p c (sp_proc _ _ _ _ Hpar) (sp_set _ _ _ _ Hpar)) as [l2 Hok].
      pose proof (proj1 (ok_l1 _ _ _ _ _ _ Hok)) as H1.
      pose proof (gr_le _ _ _ _ (cp_grown _ _ _ Hc) _ _ H1) as H1'. unfold grows.
      rewrite (bind_ret_run _ _ _ _ _ (pte_get_run s (p_l1_pa c) (Z.of_nat lo) ltac:(own_tac) ltac:(lia))).
      rewrite (parent_pte own s _ _ _ (Z.of_nat lo) Hc H1 ltac:(lia)). fold e.
      destruct (fork_copies e (Z.of_nat lo)) eqn:Ef; cbn [when].
      2:{ apply (grows_ret own tt s); [apply (sp_ok _ _ _ _ (cp_space _ _ _ Hc))|]. apply copying_skip; [done|lia|done]. }
      destruct (fork_copies_leaf own0 s0 p c (Z.of_nat lo) Hpar ltac:(lia) Ef) as (tp & Htp & Etp & Epg & Hp & Hex & Hent).
      fold e in Epg, Etp. rewrite Epg.
      pose proof (cp_space _ _ _ Hc) as [Hs Hq Hr]. pose proof (region_index (Z.of_nat lo) ltac:(lia)) as Ei.
      eapply grows_bind; [apply user_pages_nonneg| |].
      * eapply grows_and; [apply (ensure_l0_grows own s q d _ Hs Hq Hr); by rewrite Ei|].
        intros t s' E. exact (ensure_l0_others own s q d _ t s' (cp_space _ _ _ Hc) E).
      * intros own' t s' Hg [[Hl Hpg] Ho]. unfold has_leaf in Hl. rewrite Ei in Hl.
        apply (copy_region_grows (Z.of_nat lo) tp t 512 0); [done| |lia|done|done|by split|done|exact Hl].
        eapply copying_grown; [exact Hc|exact Hg|exact Ho|]. intros f i j. apply Hpg.
    + intros own' [] s' Hg Hc'. apply IH; [lia|]. by replace (Z.of_nat (S lo)) with (Z.of_nat lo + 1) by lia.
Qed.

End Loops.
End Copy.
