(* ===== verification/FrameLemmas.v ===== *)
(** * What the lower layers leave alone

    A relation between states that no change of memory, of a process slot or
    of the host breaks is kept by every memory accessor, by the readiness
    scans and by the wake-ups.  Instances: the pipe table, the open-file
    table, the pool pointer and so on are not touched there. *)
From Stdlib Require Import ZArith Lia Bool String.
From stdpp Require Import base list numbers.
From S2P Require Import Prelude Monad State Memory Support Paging Files.

Section Frame.
Context {H : Type} `{Host H} (R : kst H -> kst H -> Prop) `{!PreOrder R}.

Lemma steps_getp i : steps R (getp i).
Proof. intros s. unfold getp. destruct (g_proc s !! i); reflexivity. Qed.
Lemma steps_geto i : steps R (geto i).
Proof. intros s. unfold geto. destruct (zlookup (g_ofd s) i); reflexivity. Qed.
Lemma steps_getq i : steps R (getq i).
Proof. intros s. unfold getq. destruct (zlookup (g_pipe s) i); reflexivity. Qed.
Lemma steps_getb i : steps R (getb i).
Proof. intros s. unfold getb. destruct (zlookup (g_unix_bind s) i); reflexivity. Qed.
Lemma steps_current : steps R current.
Proof. intros s. unfold current. destruct (g_current s); reflexivity. Qed.
Lemma steps_host_get {A} (f : H -> A) : steps R (host_get f).
Proof. intros s. reflexivity. Qed.
Lemma steps_kptr k a : steps R (kptr k a).
Proof.
  intros s. unfold kptr. destruct (g_cr0 s); [|reflexivity].
  destruct (kernel_identity a); [reflexivity|]. destruct (sv48_walk _ _ _ _ _); reflexivity.
Qed.
Hint Resolve steps_getp steps_geto steps_getq steps_getb steps_current steps_host_get steps_kptr : steps.

Lemma steps_kload8 a : steps R (kload8 a).
Proof. unfold kload8. steps_tac. Qed.
Hint Resolve steps_kload8 : steps.
Lemma steps_kload_bytes n a : steps R (kload_bytes n a).
Proof. revert a. induction n as [|n IH]; intros a; cbn [kload_bytes]; steps_tac. Qed.
Hint Resolve steps_kload_bytes : steps.
Lemma steps_kload n a : steps R (kload n a).
Proof. unfold kload. steps_tac. Qed.
Hint Resolve steps_kload : steps.
Lemma steps_pte_get t i : steps R (pte_get t i).
Proof. apply steps_kload. Qed.
Hint Resolve steps_pte_get : steps.
Lemma steps_va_l0 p va : steps R (va_l0 p va).
Proof. unfold va_l0. steps_tac. Qed.
Hint Resolve steps_va_l0 : steps.
Lemma steps_user_pa p va : steps R (user_pa p va).
Proof. unfold user_pa. steps_tac. Qed.
Hint Resolve steps_user_pa : steps.
Lemma steps_as_read8 p va : steps R (as_read8 p va).
Proof. unfold as_read8. steps_tac. Qed.
Hint Resolve steps_as_read8 : steps.
Lemma steps_as_read16 p va : steps R (as_read16 p va).
Proof. unfold as_read16. steps_tac. Qed.
Lemma steps_as_read_loop n p va i v : steps R (as_read_loop n p va i v).
Proof. revert i v. induction n as [|n IH]; intros i v; cbn [as_read_loop]; steps_tac. Qed.
Hint Resolve steps_as_read16 steps_as_read_loop : steps.
Lemma steps_as_read32 p va : steps R (as_read32 p va).
Proof. apply steps_as_read_loop. Qed.
Lemma steps_as_read64 p va : steps R (as_read64 p va).
Proof. apply steps_as_read_loop. Qed.
Hint Resolve steps_as_read32 steps_as_read64 : steps.

(** *** Operations that write memory *)
Context (Rmem : forall s m, R s (s <| g_mem := m |>)).

Lemma steps_kstore8 a v : steps R (kstore8 a v).
Proof. unfold kstore8. steps_tac. apply steps_modify. intros s. apply Rmem. Qed.
Hint Resolve steps_kstore8 : steps.
Lemma steps_kstore_bytes n a v : steps R (kstore_bytes n a v).
Proof. revert a v. induction n as [|n IH]; intros a v; cbn [kstore_bytes]; steps_tac. Qed.
Hint Resolve steps_kstore_bytes : steps.
Lemma steps_kstore n a v : steps R (kstore n a v).
Proof. unfold kstore. steps_tac. apply steps_modify. intros s. apply Rmem. Qed.
Hint Resolve steps_kstore : steps.
Lemma steps_pte_set t i v : steps R (pte_set t i v).
Proof. apply steps_kstore. Qed.
Lemma steps_as_write8 p va v : steps R (as_write8 p va v).
Proof. unfold as_write8. steps_tac. Qed.
Lemma steps_as_write32 p va v : steps R (as_write32 p va v).
Proof. unfold as_write32. steps_tac. Qed.
Lemma steps_as_write64 p va v : steps R (as_write64 p va v).
Proof. unfold as_write64. steps_tac. Qed.
Hint Resolve steps_pte_set steps_as_write8 steps_as_write32 steps_as_write64 : steps.
Lemma steps_as_write16 p va v : steps R (as_write16 p va v).
Proof. unfold as_write16. steps_tac. Qed.
Hint Resolve steps_as_write16 : steps.
Lemma steps_as_write_list p va l : steps R (as_write_list p va l).
Proof. revert va. induction l as [|b l IH]; intros va; cbn [as_write_list]; steps_tac. Qed.
Lemma steps_sys_bulk_set d v n : steps R (sys_bulk_set d v n).
Proof. unfold sys_bulk_set. steps_tac. apply steps_modify. intros s. apply Rmem. Qed.
Lemma steps_memset_loop n d v : steps R (memset_loop n d v).
Proof. revert d. induction n as [|n IH]; intros d; cbn [memset_loop]; steps_tac. Qed.
Hint Resolve steps_sys_bulk_set steps_memset_loop : steps.
Lemma steps_memset d v n : steps R (memset d v n).
Proof. unfold memset. steps_tac. Qed.
Hint Resolve steps_memset : steps.

(** *** Readiness *)
Lemma steps_fd_ready p fd e : steps R (fd_ready p fd e).
Proof. unfold fd_ready. steps_tac. Qed.
Hint Resolve steps_fd_ready : steps.
Lemma steps_poll_scan n p b base i k : steps R (poll_scan n p b base i k).
Proof. revert i k. induction n as [|n IH]; intros i k; cbn [poll_scan]; steps_tac. Qed.
Lemma steps_select_scan n p a b fd r w k : steps R (select_scan n p a b fd r w k).
Proof. revert fd r w k. induction n as [|n IH]; intros fd r w k; cbn [select_scan]; steps_tac. Qed.
Hint Resolve steps_poll_scan steps_select_scan : steps.
Lemma steps_poll_evaluate p b : steps R (poll_evaluate p b).
Proof. unfold poll_evaluate. steps_tac. Qed.
Hint Resolve steps_poll_evaluate : steps.

(** *** Operations that change a process slot *)
Context (Rproc : forall s l, R s (s <| g_proc := l |>)).

Lemma steps_modp i f : steps R (modp i f).
Proof. intros s. unfold modp. destruct (g_proc s !! i); [apply Rproc|reflexivity]. Qed.
Hint Resolve steps_modp : steps.
Lemma steps_wake_with p rv : steps R (wake_with p rv).
Proof. unfold wake_with. steps_tac. Qed.
Hint Resolve steps_wake_with : steps.
Lemma steps_poll_recheck_loop n i k : steps R (poll_recheck_loop n i k).
Proof. revert i k. induction n as [|n IH]; intros i k; cbn [poll_recheck_loop]; steps_tac. Qed.
Hint Resolve steps_poll_recheck_loop : steps.
Lemma steps_poll_recheck_all : steps R poll_recheck_all.
Proof. apply steps_poll_recheck_loop. Qed.

(** *** Operations that take frames *)
Context (Rhost : forall s h, R s (s <| g_host := h |>)) (Rpool : forall s n, R s (s <| g_pool_next := n |>)).

Lemma steps_host {A} (f : H -> A * H) : steps R (host f).
Proof. intros s. unfold host. destruct (f (g_host s)). apply Rhost. Qed.
Hint Resolve steps_host : steps.
Lemma steps_qos_puts l : steps R (qos_puts l).
Proof. unfold qos_puts. steps_tac. Qed.
Hint Resolve steps_qos_puts : steps.
Lemma steps_alloc_frame : steps R alloc_frame.
Proof. unfold alloc_frame. steps_tac. apply steps_modify. intros s. apply Rpool. Qed.
Hint Resolve steps_alloc_frame : steps.
Lemma steps_ensure_l0 p va : steps R (ensure_l0 p va).
Proof. unfold ensure_l0. steps_tac. Qed.
Hint Resolve steps_ensure_l0 : steps.
Lemma steps_map_user_page p va f : steps R (map_user_page p va f).
Proof. unfold map_user_page. steps_tac. Qed.
Hint Resolve steps_map_user_page : steps.
Lemma steps_ensure_user_page p va : steps R (ensure_user_page p va).
Proof. unfold ensure_user_page. steps_tac. Qed.
Lemma steps_build_address_space p : steps R (build_address_space p).
Proof. unfold build_address_space. steps_tac. Qed.

End Frame.

#[export] Hint Resolve steps_getp steps_geto steps_getq steps_getb steps_current steps_host_get
  steps_kptr steps_kload8 steps_kload steps_pte_get steps_va_l0 steps_user_pa steps_as_read8
  steps_as_read16 steps_as_read32 steps_as_read64 : steps.

(** Equality of one component of the state. *)
Definition keeps {H A} (f : kst H -> A) : kst H -> kst H -> Prop := fun s s' => f s' = f s.
#[export] Instance keeps_preorder {H A} (f : kst H -> A) : PreOrder (keeps f).
Proof. split; [intros s; reflexivity|intros s1 s2 s3 E1 E2; unfold keeps in *; congruence]. Qed.

Lemma bind_keeps {H A B C} (g : kst H -> C) (m : M (kst H) A) (f : A -> M (kst H) B) s r s1 :
  steps (keeps g) m -> (m ≫= f) s = (Ret r, s1) -> exists a s', g s' = g s /\ f a s' = (Ret r, s1).
Proof.
  intros Hm. unfold mbind, M_bind. specialize (Hm s). destruct (m s) as [[a|h] s']; [|done].
  intros E. by exists a, s'.
Qed.

(** * The circular buffer as a queue

    A pipe or one direction of a socket is a circular buffer of PIPE_CAP
    bytes.  [contents] lists its bytes in order; [push] and [pop], the updates
    the deposit and fetch loops make, are append and remove-first on it. *)

(** ** The circular buffer *)

Record ring_ok (q : pipe_obj) : Prop := {
  rk_len : Z.of_nat (length (q_buf q)) = PIPE_CAP;
  rk_r : 0 <= q_r q < PIPE_CAP;
  rk_w : q_w q = (q_r q + q_count q) mod PIPE_CAP;
  rk_count : 0 <= q_count q <= PIPE_CAP }.

Definition cell (q : pipe_obj) (k : nat) : Z := zget (q_buf q) ((q_r q + Z.of_nat k) mod PIPE_CAP).
Definition contents (q : pipe_obj) : list Z := map (cell q) (seq 0 (Z.to_nat (q_count q))).

(** The two updates the loops make. *)
Definition push (b : Z) (q : pipe_obj) : pipe_obj :=
  q <| q_buf := zinsert (q_w q) b (q_buf q) |> <| q_w := (q_w q + 1) mod PIPE_CAP |>
    <| q_count := q_count q + 1 |>.
Definition pop (q : pipe_obj) : pipe_obj :=
  q <| q_r := (q_r q + 1) mod PIPE_CAP |> <| q_count := q_count q - 1 |>.

Lemma cap_pos : 0 < PIPE_CAP.
Proof. reflexivity. Qed.

Lemma contents_length q : ring_ok q -> Z.of_nat (length (contents q)) = q_count q.
Proof. intros [_ _ _ Hc]. unfold contents. rewrite length_map, length_seq. lia. Qed.

Lemma mod_mod_add a b : ((a mod PIPE_CAP) + b) mod PIPE_CAP = (a + b) mod PIPE_CAP.
Proof. by rewrite Zplus_mod_idemp_l. Qed.

Lemma push_ok b q : ring_ok q -> q_count q < PIPE_CAP -> ring_ok (push b q).
Proof.
  intros [Hl Hr Hw Hc] Hlt. split; cbn; [unfold zinsert; by rewrite length_insert|done| |lia].
  rewrite Hw, mod_mod_add. f_equal. lia.
Qed.

Lemma pop_ok q : ring_ok q -> 0 < q_count q -> ring_ok (pop q).
Proof.
  intros [Hl Hr Hw Hc] Hlt. pose proof cap_pos. split; cbn; [done|apply Z.mod_pos_bound; lia| |lia].
  rewrite Hw, mod_mod_add. f_equal. lia.
Qed.

Lemma zget_zinsert_same b l i : 0 <= i < Z.of_nat (length l) -> zget (zinsert i b l) i = b.
Proof.
  intros Hi. unfold zget, zlookup, zinsert. rewrite (proj2 (Z.ltb_ge i 0)) by lia.
  by rewrite list_lookup_insert_eq by lia.
Qed.
Lemma zget_zinsert_other b l i j : 0 <= i -> 0 <= j -> i <> j -> zget (zinsert i b l) j = zget l j.
Proof.
  intros Hi Hj Hne. unfold zget, zlookup, zinsert. rewrite (proj2 (Z.ltb_ge j 0)) by lia.
  by rewrite list_lookup_insert_ne by lia.
Qed.

(** Two positions of the window are different cells. *)
Lemma cell_ne r i j : 0 <= i < PIPE_CAP -> 0 <= j < PIPE_CAP -> i <> j ->
  (r + i) mod PIPE_CAP <> (r + j) mod PIPE_CAP.
Proof.
  intros Hi Hj Hne E. apply Hne. pose proof cap_pos.
  assert (D : (i - j) mod PIPE_CAP = 0).
  { replace (i - j) with ((r + i) - (r + j)) by lia. rewrite Zminus_mod, E, Z.sub_diag. done. }
  apply Z.mod_divide in D as [k D]; [|lia]. assert (k = 0) by nia. nia.
Qed.

Lemma push_contents b q : ring_ok q -> q_count q < PIPE_CAP ->
  contents (push b q) = contents q ++ [b].
Proof.
  intros [Hl Hr Hw Hc] Hlt. pose proof cap_pos. unfold contents. cbn [push q_count setter set_q_count].
  change (q_count (push b q)) with (q_count q + 1).
  replace (Z.to_nat (q_count q + 1)) with (Z.to_nat (q_count q) + 1)%nat by lia.
  rewrite seq_app, map_app. cbn [seq map]. f_equal.
  - apply map_ext_in. intros k Hk%in_seq. unfold cell. cbn. rewrite Hw.
    apply zget_zinsert_other; [apply Z.mod_pos_bound; lia|apply Z.mod_pos_bound; lia|].
    apply cell_ne; lia.
  - f_equal. unfold cell. cbn. rewrite Hw.
    replace (q_r q + Z.of_nat (Z.to_nat (q_count q))) with (q_r q + q_count q) by lia.
    apply zget_zinsert_same. rewrite Hl. apply Z.mod_pos_bound. lia.
Qed.

Lemma pop_contents q : ring_ok q -> 0 < q_count q ->
  contents q = zget (q_buf q) (q_r q) :: contents (pop q).
Proof.
  intros [Hl Hr Hw Hc] Hlt. unfold contents. change (q_count (pop q)) with (q_count q - 1).
  replace (Z.to_nat (q_count q)) with (S (Z.to_nat (q_count q - 1))) by lia.
  cbn [seq map]. f_equal.
  - unfold cell. by rewrite Z.add_0_r, Z.mod_small.
  - rewrite <- seq_shift, map_map. apply map_ext. intros k. unfold cell. cbn.
    rewrite mod_mod_add. do 2 f_equal. lia.
Qed.
