(* ===== verification/Rings.v ===== *)
(** * Pipes are FIFO byte queues

    A pipe or socket direction is a circular buffer of PIPE_CAP bytes.  Its
    specification is a queue: [contents] lists the bytes in order, a deposit
    appends at the back what fits, a fetch removes from the front. *)
From Stdlib Require Import ZArith Lia Bool String.
From stdpp Require Import base list numbers.
From S2P Require Import Prelude Monad State Memory Support Paging Files.
From S2P Require Import Dispatch MemFacts AddressSpace Isolation BuildSpace UserMem SpaceProps FrameLemmas.

(** ** The loops *)
Section Loops.
Context {H : Type} `{Host H}.
Implicit Types (s : kst H) (own : owner).

Definition ring s (pi : Z) (q : pipe_obj) : Prop := zlookup (g_pipe s) pi = Some q.

Lemma getq_run s pi q : ring s pi q -> getq pi s = (Ret q, s).
Proof. unfold ring, getq. by intros ->. Qed.
Lemma modq_run s pi q f : ring s pi q ->
  modq pi f s = (Ret tt, s <| g_pipe := zinsert pi (f q) (g_pipe s) |>).
Proof. unfold ring, modq. by intros ->. Qed.

Lemma zlookup_zinsert_other {A} (l : list A) i j a : 0 <= i -> i <> j -> zlookup (zinsert i a l) j = zlookup l j.
Proof.
  intros Hi Hne. unfold zlookup, zinsert. destruct (Z.ltb_spec j 0); [done|].
  by rewrite list_lookup_insert_ne by lia.
Qed.
Lemma zlookup_nonneg {A} (l : list A) i a : zlookup l i = Some a -> 0 <= i.
Proof. unfold zlookup. destruct (Z.ltb_spec i 0); [done|lia]. Qed.

(** Only ring [pi] changed, to [q']. *)
Definition set_ring s pi (q' : pipe_obj) : kst H := s <| g_pipe := zinsert pi q' (g_pipe s) |>.

Lemma set_ring_ring s pi q q' : ring s pi q -> ring (set_ring s pi q') pi q'.
Proof. intros E. unfold ring. cbn. by eapply zlookup_zinsert. Qed.
Lemma set_ring_twice s pi q1 q2 : set_ring (set_ring s pi q1) pi q2 = set_ring s pi q2.
Proof. unfold set_ring, zinsert. cbn. by rewrite list_insert_insert_eq. Qed.
Lemma set_ring_id s pi q : ring s pi q -> set_ring s pi q = s.
Proof.
  intros Hq. unfold set_ring. replace (zinsert pi q (g_pipe s)) with (g_pipe s); [by destruct s|].
  unfold ring, zlookup in Hq. destruct (pi <? 0); [done|]. unfold zinsert. by rewrite list_insert_id.
Qed.
Lemma space_set_ring own s p c pi q : space own s p c -> space own (set_ring s pi q) p c.
Proof. intros [[Hp Ho Ha Hr] Hc Hn]. split; [split; [exact Hp|exact Ho|exact Ha|exact Hr]|done|done]. Qed.
Lemma maps_set_ring own s c tr va n pi q : maps own s c tr va n -> maps own (set_ring s pi q) c tr va n.
Proof. intros Hm. exact Hm. Qed.

(** The bytes at [uva, uva + k) of the process. *)
Definition user_bytes (tr : Z -> Z) (m : mem) (uva : Z) (k : nat) : list Z :=
  map (fun i => m (tr (uva + Z.of_nat i))) (seq 0 k).

Lemma user_bytes_S tr m uva n k : user_bytes tr m (uva + n) (S k) = m (tr (uva + n)) :: user_bytes tr m (uva + (n + 1)) k.
Proof.
  unfold user_bytes. cbn [seq map]. rewrite Z.add_0_r. f_equal. rewrite <- seq_shift, map_map.
  apply map_ext. intros i. do 2 f_equal. lia.
Qed.

Lemma deposit_loop_run own src c tr uva count pi fuel : forall s q n,
  space own s src c -> maps own s c tr uva count -> 0 <= uva -> uva + count < 2 ^ 64 ->
  ring s pi q -> ring_ok q -> 0 <= n <= count -> PIPE_CAP - q_count q < Z.of_nat fuel ->
  let k := Z.min (count - n) (PIPE_CAP - q_count q) in
  exists q', deposit_loop fuel pi src uva count n s = (Ret (n + k), set_ring s pi q') /\ ring_ok q' /\
    contents q' = contents q ++ user_bytes tr (g_mem s) (uva + n) (Z.to_nat k) /\
    q_readers q' = q_readers q /\ q_writers q' = q_writers q /\ q_used q' = q_used q.
Proof.
  induction fuel as [|fuel IH]; intros s q n Hsp Hm Hu Hend Hq Hok Hn Hf k; cbn [deposit_loop];
    pose proof (rk_count _ Hok) as Hc.
  - lia.
  - rewrite (bind_ret_run _ _ _ _ _ (getq_run _ _ _ Hq)).
    destruct (Z.ltb_spec n count) as [Hlt|Hge], (Z.ltb_spec (q_count q) PIPE_CAP) as [Hlt'|Hge']; cbn [andb].
    2,3,4: exists q; assert (k = 0) as -> by lia; by rewrite Z.add_0_r, app_nil_r, set_ring_id.
    destruct (Hm (uva + n) ltac:(lia)) as (f & Hf' & Etr). rewrite u64_small by lia.
    rewrite (bind_ret_run _ _ _ _ _ (as_read8_run _ _ _ _ _ _ Hsp Hf')). rewrite <- Etr.
    set (b := g_mem s (tr (uva + n))).
    rewrite (bind_ret_run _ _ _ _ _ (modq_run s pi q _ Hq)).
    change (s <| g_pipe := zinsert pi _ (g_pipe s) |>) with (set_ring s pi (push b q)).
    destruct (IH (set_ring s pi (push b q)) (push b q) (n + 1)) as (q' & E & Hok' & Hcon & R1 & R2 & R3).
    + by apply space_set_ring.
    + by apply maps_set_ring.
    + done.
    + done.
    + by eapply set_ring_ring.
    + by apply push_ok.
    + lia.
    + cbn. lia.
    + change (q_count (push b q)) with (q_count q + 1) in E, Hcon. exists q'.
      rewrite set_ring_twice in E. rewrite E. split; [f_equal; f_equal; lia|]. split; [done|].
      split; [|done]. rewrite Hcon, push_contents by done. rewrite <- app_assoc. f_equal. cbn [app].
      replace (Z.to_nat k) with (S (Z.to_nat (Z.min (count - (n + 1)) (PIPE_CAP - (q_count q + 1))))) by lia.
      rewrite user_bytes_S. done.
Qed.

(** One byte stored through the process's translation. *)
Lemma store_written own s p c tr va n k b : space own s p c -> maps own s c tr va n ->
  0 <= k < n -> 0 <= b < 256 ->
  written tr va (fun _ => b) k (k + 1) (g_mem s) (store 1 (g_mem s) (tr (va + k)) (u8 b)).
Proof.
  intros Hsp Hm Hk Hb. split.
  - intros j Hj. assert (j = k) as -> by lia. unfold store.
    rewrite (proj2 (in_range_true _ _ _)) by lia. rewrite Z.sub_diag, Z.div_1_r. unfold u8.
    rewrite Z.mod_mod by lia. by rewrite Z.mod_small.
  - intros x Hx. unfold store. destruct (in_range (tr (va + k)) 1 x) eqn:E; [|done].
    apply in_range_true in E. exfalso. apply (Hx k); lia.
Qed.

Lemma written_val tr va val val' lo hi m m' : (forall k, lo <= k < hi -> val k = val' k) ->
  written tr va val lo hi m m' -> written tr va val' lo hi m m'.
Proof. intros E [W R]. split; [|done]. intros k Hk. rewrite W, E by done. done. Qed.

Lemma fetch_loop_run own dst c tr uva count pi fuel : forall s q n,
  space own s dst c -> maps own s c tr uva count -> 0 <= uva -> uva + count <= 2 ^ 30 ->
  ring s pi q -> ring_ok q -> Forall (fun b => 0 <= b < 256) (contents q) ->
  0 <= n <= count -> q_count q < Z.of_nat fuel ->
  let k := Z.min (count - n) (q_count q) in
  exists q' m', fetch_loop fuel pi dst uva count n s
      = (Ret (n + k), (set_ring s pi q') <| g_mem := m' |>) /\ ring_ok q' /\
    contents q' = drop (Z.to_nat k) (contents q) /\
    written tr uva (fun i => nth (Z.to_nat (i - n)) (contents q) 0) n (n + k) (g_mem s) m' /\
    q_readers q' = q_readers q /\ q_writers q' = q_writers q /\ q_used q' = q_used q.
Proof.
  induction fuel as [|fuel IH]; intros s q n Hsp Hm Hu Hend Hq Hok Hby Hn Hf k; cbn [fetch_loop];
    pose proof (rk_count _ Hok) as Hc.
  - lia.
  - rewrite (bind_ret_run _ _ _ _ _ (getq_run _ _ _ Hq)).
    destruct (Z.ltb_spec n count) as [Hlt|Hge], (Z.ltb_spec 0 (q_count q)) as [Hlt'|Hge']; cbn [andb].
    2,3,4: exists q, (g_mem s); assert (k = 0) as -> by lia; rewrite !Z.add_0_r, set_ring_id by done;
      split; [by destruct s|]; split; [done|]; split; [done|]; split; [apply written_nil|done].
    destruct (Hm (uva + n) ltac:(lia)) as (f & Hf' & Etr). rewrite u64_small by lia.
    rewrite (bind_ret_run _ _ _ _ _ (as_write8_run _ _ _ _ _ _ _ Hsp Hf')). rewrite <- Etr.
    pose proof (pop_contents q Hok Hlt') as Epop. set (b := zget (q_buf q) (q_r q)) in *.
    rewrite Epop in Hby. apply Forall_cons_1 in Hby as [Hb Hby].
    set (m1 := store 1 (g_mem s) (tr (uva + n)) (u8 b)).
    pose proof (store_written own s dst c tr uva count n b Hsp Hm ltac:(lia) Hb) as W1. fold m1 in W1.
    assert (Hpg : pages_only own (g_mem s) m1)
      by exact (written_pages own s dst c tr uva count _ n (n + 1) m1 Hsp Hm ltac:(lia) ltac:(lia) W1).
    assert (Hq1 : ring (s <| g_mem := m1 |>) pi q) by exact Hq.
    rewrite (bind_ret_run _ _ _ _ _ (modq_run _ pi q _ Hq1)).
    change (s <| g_mem := m1 |> <| g_pipe := zinsert pi _ _ |>)
      with (set_ring (s <| g_mem := m1 |>) pi (pop q)).
    destruct (IH (set_ring (s <| g_mem := m1 |>) pi (pop q)) (pop q) (n + 1))
      as (q' & m' & E & Hok' & Hcon & W & R1 & R2 & R3).
    + by apply space_set_ring, space_pages.
    + by eapply maps_set_ring, maps_pages.
    + done.
    + done.
    + by eapply set_ring_ring.
    + by apply pop_ok.
    + done.
    + lia.
    + cbn. lia.
    + change (q_count (pop q)) with (q_count q - 1) in E, Hcon, W.
      exists q', m'. split.
      { rewrite E. rewrite set_ring_twice. f_equal. f_equal. lia. }
      split; [done|]. split.
      { rewrite Hcon, Epop. replace (Z.to_nat k) with (S (Z.to_nat (Z.min (count - (n + 1)) (q_count q - 1)))) by lia.
        done. }
      split; [|done]. replace (n + 1 + Z.min (count - (n + 1)) (q_count q - 1)) with (n + k) in W by lia.
      eapply (written_app _ _ _ n (n + 1) (n + k)); [lia| | |].
      * intros i j Hi Hj Ex. apply (maps_inj own s dst c tr uva count) in Ex; [lia|assumption..| |]; lia.
      * eapply written_val; [|exact W1]. intros i Hi. assert (i = n) as -> by lia.
        by rewrite Z.sub_diag, Epop.
      * eapply written_val; [|exact W]. intros i Hi. cbn beta. rewrite Epop.
        replace (Z.to_nat (i - n)) with (S (Z.to_nat (i - (n + 1)))) by lia. done.
Qed.

(** ** The operations *)

Lemma poll_recheck_pipes : steps (keeps (A := list pipe_obj) (@g_pipe H)) poll_recheck_all.
Proof. apply steps_poll_recheck_all; [typeclasses eauto|done|done]. Qed.

Lemma recheck_tail_ring s k q pi : ring s pi q ->
  ring (snd ((when (0 <? k) (poll_recheck_all ;; mret tt) ;; mret k) s)) pi q /\
  (forall a s', (when (0 <? k) (poll_recheck_all ;; mret tt) ;; mret k) s = (Ret a, s') -> a = k).
Proof.
  intros Hq. unfold ring. destruct (0 <? k); cbn [when].
  - pose proof (poll_recheck_pipes s) as Hp. unfold keeps in Hp. unfold mbind, M_bind.
    destruct (poll_recheck_all s) as [[z|h] s']; cbn in *; [|by rewrite Hp].
    split; [by rewrite Hp|]. by intros a s'' [= <- _].
  - split; [done|]. intros a s' [= <- _]. done.
Qed.

(** Nobody is parked in poll or select. *)
Definition no_pollers s : Prop :=
  length (g_proc s) = QUESOS_MAX_PROC /\
  forall i c, g_proc s !! i = Some c -> parked c BLK_POLL = false.

Lemma poll_recheck_idle s : no_pollers s -> poll_recheck_all s = (Ret 0, s).
Proof.
  intros [Hlen Hno]. unfold poll_recheck_all.
  assert (G : forall n i, (i + n = QUESOS_MAX_PROC)%nat -> poll_recheck_loop n i 0 s = (Ret 0, s)).
  { induction n as [|n IH]; intros i Hi; cbn [poll_recheck_loop]; [done|].
    destruct (lookup_lt_is_Some_2 (g_proc s) i ltac:(lia)) as [c Hc].
    rewrite (bind_getp _ _ _ _ Hc), (Hno _ _ Hc). apply IH. lia. }
  by apply G.
Qed.

Lemma recheck_tail_idle s k : no_pollers s ->
  (when (0 <? k) (poll_recheck_all ;; mret tt) ;; mret k) s = (Ret k, s).
Proof.
  intros Hno. destruct (0 <? k); cbn [when]; [|done].
  rewrite bind_assoc_run. by rewrite (bind_ret_run _ _ _ _ _ (poll_recheck_idle s Hno)).
Qed.

(** A deposit appends to the pipe.  Of the [count] bytes at [uva] in the
    writer's memory, as many as fit go to the back of the queue, in order; the
    bytes already queued, the reader and writer counts and the ring's
    well-formedness are unchanged.  Nothing else changes before the parked
    pollers are re-examined, and the call returns the number of bytes taken
    (always, when nobody is parked in poll). *)
Theorem pipe_deposit_appends own s src c tr uva count pi q :
  space own s src c -> maps own s c tr uva count -> 0 <= uva -> uva + count < 2 ^ 64 -> 0 <= count ->
  ring s pi q -> ring_ok q ->
  let k := Z.min count (PIPE_CAP - q_count q) in
  exists q', pipe_deposit pi src uva count s
      = (when (0 <? k) (poll_recheck_all ;; mret tt) ;; mret k) (set_ring s pi q') /\
    ring (snd (pipe_deposit pi src uva count s)) pi q' /\ ring_ok q' /\
    contents q' = contents q ++ user_bytes tr (g_mem s) uva (Z.to_nat k) /\
    q_readers q' = q_readers q /\ q_writers q' = q_writers q /\
    (forall n s', pipe_deposit pi src uva count s = (Ret n, s') -> n = k) /\
    (no_pollers s -> pipe_deposit pi src uva count s = (Ret k, set_ring s pi q')).
Proof.
  intros Hsp Hm Hu Hend Hc Hq Hok k.
  destruct (deposit_loop_run own src c tr uva count pi (S (Z.to_nat (PIPE_CAP - q_count q))) s q 0 Hsp Hm Hu Hend Hq Hok ltac:(lia))
    as (q' & E & Hok' & Hcon & R1 & R2 & _).
  { pose proof (rk_count _ Hok). lia. }
  rewrite Z.sub_0_r in E, Hcon. rewrite Z.add_0_r in Hcon. rewrite Z.add_0_l in E. fold k in E, Hcon.
  unfold pipe_deposit. rewrite (bind_ret_run _ _ _ _ _ (getq_run _ _ _ Hq)), (bind_ret_run _ _ _ _ _ E).
  destruct (recheck_tail_ring (set_ring s pi q') k q' pi (set_ring_ring _ _ _ _ Hq)) as [Hr Hret].
  exists q'. split; [done|]. split; [exact Hr|]. split; [done|]. split; [done|]. split; [done|]. split; [done|].
  split; [exact Hret|]. intros Hno. by apply recheck_tail_idle.
Qed.

(** A fetch removes from the front.  The first bytes of the queue, at most
    [count] of them, arrive in order at [uva] in the reader's memory, and
    nothing else of memory changes before the parked pollers are re-examined;
    the rest of the queue stays, and the call returns the number of bytes
    (always, when nobody is parked in poll). *)
Theorem pipe_fetch_removes own s dst c tr uva count pi q :
  space own s dst c -> maps own s c tr uva count -> 0 <= uva -> uva + count <= 2 ^ 30 -> 0 <= count ->
  ring s pi q -> ring_ok q -> Forall (fun b => 0 <= b < 256) (contents q) ->
  let k := Z.min count (q_count q) in
  exists q' m', pipe_fetch pi dst uva count s
      = (when (0 <? k) (poll_recheck_all ;; mret tt) ;; mret k) ((set_ring s pi q') <| g_mem := m' |>) /\
    ring (snd (pipe_fetch pi dst uva count s)) pi q' /\ ring_ok q' /\
    contents q = map (fun i => m' (tr (uva + Z.of_nat i))) (seq 0 (Z.to_nat k)) ++ contents q' /\
    (forall x, (forall i, 0 <= i < k -> tr (uva + i) <> x) -> m' x = g_mem s x) /\
    (forall n s', pipe_fetch pi dst uva count s = (Ret n, s') -> n = k) /\
    (no_pollers s -> pipe_fetch pi dst uva count s = (Ret k, (set_ring s pi q') <| g_mem := m' |>)).
Proof.
  intros Hsp Hm Hu Hend Hc Hq Hok Hby k.
  destruct (fetch_loop_run own dst c tr uva count pi (S (Z.to_nat (q_count q))) s q 0 Hsp Hm Hu Hend Hq Hok Hby ltac:(lia))
    as (q' & m' & E & Hok' & Hcon & [W R] & _).
  { pose proof (rk_count _ Hok). lia. }
  rewrite Z.sub_0_r in E, Hcon, W, R. rewrite Z.add_0_l in E, W, R. fold k in E, Hcon, W, R.
  exists q', m'. unfold pipe_fetch. rewrite (bind_ret_run _ _ _ _ _ (getq_run _ _ _ Hq)), (bind_ret_run _ _ _ _ _ E). split; [done|].
  assert (Hq' : ring ((set_ring s pi q') <| g_mem := m' |>) pi q') by (by eapply set_ring_ring).
  destruct (recheck_tail_ring _ k q' pi Hq') as [Hr Hret].
  split; [exact Hr|]. split; [done|]. split; [|split; [exact R|split; [exact Hret|]]].
  2: { intros Hno. by apply recheck_tail_idle. }
  rewrite <- (take_drop (Z.to_nat k) (contents q)) at 1. rewrite Hcon. f_equal.
  pose proof (contents_length q Hok) as Hlen.
  apply list_eq. intros i. rewrite list_lookup_fmap.
  destruct (decide (i < Z.to_nat k)%nat) as [Hi|Hi].
  - rewrite lookup_take_lt by done. rewrite lookup_seq_lt by done. cbn. rewrite W by lia.
    rewrite Z.sub_0_r, Nat2Z.id.
    destruct (nth_lookup_or_length (contents q) i 0) as [->|]; [done|lia].
  - rewrite lookup_ge_None_2 by (rewrite length_take; lia).
    rewrite lookup_seq_ge by lia. done.
Qed.

Lemma user_bytes_nth tr m u k i : (i < k)%nat -> nth i (user_bytes tr m u k) 0 = m (tr (u + Z.of_nat i)).
Proof.
  intros Hi. rewrite nth_lookup. unfold user_bytes. rewrite list_lookup_fmap.
  by rewrite lookup_seq_lt.
Qed.

(** C7: what one process writes to an empty pipe another reads, byte for
    byte: after a deposit of [n] bytes from [src] and a fetch of [n] bytes by
    [dst], both return [n], [dst]'s buffer equals what [src]'s buffer held, and
    the pipe is empty again. *)
Theorem pipe_transfer_roundtrip own s src dst c d tr tr' ua ub n pi q :
  space own s src c -> space own s dst d ->
  maps own s c tr ua n -> maps own s d tr' ub n -> 0 <= ua -> ua + n <= 2 ^ 30 -> 0 <= ub -> ub + n <= 2 ^ 30 ->
  0 <= n <= PIPE_CAP -> Forall (fun b => 0 <= b < 256) (user_bytes tr (g_mem s) ua (Z.to_nat n)) -> no_pollers s ->
  ring s pi q -> ring_ok q -> q_count q = 0 ->
  exists s1 s2 q2, pipe_deposit pi src ua n s = (Ret n, s1) /\ pipe_fetch pi dst ub n s1 = (Ret n, s2) /\
    user_bytes tr' (g_mem s2) ub (Z.to_nat n) = user_bytes tr (g_mem s) ua (Z.to_nat n) /\
    ring s2 pi q2 /\ ring_ok q2 /\ contents q2 = [].
Proof.
  intros Hsp Hsp' Hm Hm' Ha1 Ha2 Hb1 Hb2 Hn Hby Hno Hq Hok Hz. pose proof cap_pos as Hcap.
  destruct (deposit_loop_run own src c tr ua n pi (S (Z.to_nat (PIPE_CAP - q_count q))) s q 0 Hsp Hm Ha1 ltac:(lia) Hq Hok ltac:(lia))
    as (q1 & E & Hok1 & Hcon & _); [lia|].
  rewrite !Z.sub_0_r, (Z.min_l n (PIPE_CAP - q_count q)) in E, Hcon by lia. rewrite Z.add_0_r in Hcon. rewrite Z.add_0_l in E.
  assert (Hc0 : contents q = []) by (unfold contents; by rewrite Hz). rewrite Hc0 in Hcon. cbn [app] in Hcon.
  assert (Hcnt : q_count q1 = n).
  { rewrite <- (contents_length q1 Hok1), Hcon. unfold user_bytes. rewrite length_map, length_seq. lia. }
  set (s1 := set_ring s pi q1) in *.
  assert (E1 : pipe_deposit pi src ua n s = (Ret n, s1)).
  { unfold pipe_deposit. rewrite (bind_ret_run _ _ _ _ _ (getq_run _ _ _ Hq)), (bind_ret_run _ _ _ _ _ E). by apply recheck_tail_idle. }
  destruct (fetch_loop_run own dst d tr' ub n pi (S (Z.to_nat (q_count q1))) s1 q1 0)
    as (q2 & m2 & E2 & Hok2 & Hcon2 & [W R] & _).
  { by apply space_set_ring. } { by apply maps_set_ring. } { lia. } { lia. } { by eapply set_ring_ring. } { done. }
  { by rewrite Hcon. }
  { lia. } { lia. }
  assert (Hmin : Z.min (n - 0) (q_count q1) = n) by lia.
  rewrite Hmin in E2, Hcon2, W, R. rewrite Z.add_0_l in E2, W, R.
  set (s2 := (set_ring s1 pi q2) <| g_mem := m2 |>) in *.
  assert (E2' : pipe_fetch pi dst ub n s1 = (Ret n, s2)).
  { assert (Hq1 : ring s1 pi q1) by (by eapply set_ring_ring).
    unfold pipe_fetch. rewrite (bind_ret_run _ _ _ _ _ (getq_run _ _ _ Hq1)), (bind_ret_run _ _ _ _ _ E2). by apply recheck_tail_idle. }
  exists s1, s2, q2. split; [exact E1|]. split; [exact E2'|]. split; [|split; [|split]].
  - unfold user_bytes. apply map_ext_in. intros i Hi%in_seq. cbn [g_mem s2 setter set_g_mem].
    change (g_mem s2) with m2. rewrite W by lia. rewrite Z.sub_0_r, Nat2Z.id, Hcon. apply user_bytes_nth. lia.
  - eapply (set_ring_ring s1); by eapply set_ring_ring.
  - done.
  - rewrite Hcon2. apply drop_ge. rewrite Hcon. unfold user_bytes. rewrite length_map, length_seq. lia.
Qed.

End Loops.

(** ** Exercised: three bytes of process 0, through pipe 0, to process 1 *)

Definition w_pipe : pipe_obj := mkPipe true 1 1 4094 4094 0 (replicate 4096 0).

Lemma w_pipe_ok : ring_ok w_pipe.
Proof. split; [reflexivity|split; [discriminate|reflexivity]|reflexivity|split; discriminate]. Qed.

(** The addresses of one page translate to its frame. *)
Definition page_tr (f : Z) (a : Z) : Z := f + a mod PAGE_SIZE.

Lemma mapped_maps {H} `{Host H} own (s : kst H) c va f n : aligned va -> 0 <= n <= PAGE_SIZE ->
  mapped own s c va f -> maps own s c (page_tr f) va n.
Proof.
  intros Hal Hn Hm a Ha. exists f. split; [|done].
  assert (E : page_of a = va).
  { rewrite page_of_eq. unfold aligned in Hal.
    replace a with (a - va + va / PAGE_SIZE * PAGE_SIZE) at 2
      by (pose proof (Z.div_mod va PAGE_SIZE ltac:(plia)); plia).
    rewrite Z.mod_add by plia. rewrite Z.mod_small by lia. lia. }
  destruct (page_indices a) as [E1 E0]. rewrite E in E1, E0.
  destruct Hm as (t & [Ht Et] & Ef & Hf). exists t. unfold has_leaf. by rewrite <- E1, <- E0.
Qed.

Lemma w_rings : g_pipe w_both = replicate QUESOS_MAX_PIPE pipe_zero.
Proof.
  assert (Hb : forall p, steps (keeps (@g_pipe demo)) (build_address_space p))
    by (intros p; apply steps_build_address_space; [typeclasses eauto|done..]).
  assert (He : forall p va, steps (keeps (@g_pipe demo)) (ensure_user_page p va))
    by (intros p va; apply steps_ensure_user_page; [typeclasses eauto|done..]).
  unfold keeps, steps in *. rewrite w_both_eq, He, w_page2_eq, He, w_page_eq, He, w_two_eq, Hb, w_one_eq, Hb.
  reflexivity.
Qed.

Lemma w_no_pollers c d s : w_procs s c d -> no_pollers s.
Proof.
  intros (E & Ec & Ed). unfold no_pollers. rewrite E. split; [reflexivity|]. intros i x Hx.
  assert (Hf : p_state x = P_FREE).
  { apply list_lookup_insert_Some in Hx as [(_ & <- & _)|[_ Hx]]; [done|].
    apply list_lookup_insert_Some in Hx as [(_ & <- & _)|[_ Hx]]; [done|].
    by apply lookup_replicate in Hx as [-> _]. }
  unfold parked. by rewrite Hf.
Qed.

(** Process 0 has 7, 8, 9 at the start of its page 3; pipe 0 is empty, about
    to wrap around. *)
Definition sender own c d f h (s : kst demo) : Prop :=
  space own s 0 c /\ space own s 1 d /\
  maps own s c (page_tr f) 0x3000 3 /\ maps own s d (page_tr h) 0x3000 3 /\
  user_bytes (page_tr f) (g_mem s) 0x3000 3 = [7; 8; 9] /\ no_pollers s /\ ring s 0 w_pipe.

Lemma sender_from own c d f h (s : kst demo) : w_facts own s c d -> w_procs s c d ->
  mapped own s c 0x3000 f -> mapped own s d 0x3000 h ->
  g_pipe s = replicate QUESOS_MAX_PIPE pipe_zero ->
  exists s', sender own c d f h s'.
Proof.
  intros (Hs & Hc & Hd & Rc & Rd) Hpr Mf Mh Hrg.
  assert (Hsc : space own s 0 c) by (by split). assert (Hsd : space own s 1 d) by (by split).
  pose proof (mapped_maps own s c 0x3000 f 3 eq_refl ltac:(plia) Mf) as Hm.
  pose proof (mapped_maps own s d 0x3000 h 3 eq_refl ltac:(plia) Mh) as Hm'.
  destruct (as_write_bytes_run own s 0 c (page_tr f) 0x3000 [7; 8; 9] 3 Hsc Hm) as (m1 & _ & W);
    [lia|lia|lia|discriminate|cbn; lia|].
  assert (Hpg : pages_only own (g_mem s) m1)
    by exact (written_pages own s 0 c (page_tr f) 0x3000 3 _ 0 3 m1 Hsc Hm ltac:(lia) ltac:(lia) W).
  exists (set_ring (s <| g_mem := m1 |>) 0 w_pipe).
  split; [exact (space_set_ring _ _ _ _ _ _ (space_pages _ _ _ _ _ Hsc Hpg))|].
  split; [exact (space_set_ring _ _ _ _ _ _ (space_pages _ _ _ _ _ Hsd Hpg))|].
  split; [exact (maps_set_ring _ _ _ _ _ _ _ _ (maps_pages own s 0 c _ _ _ _ Hsc Hpg Hm))|].
  split; [exact (maps_set_ring _ _ _ _ _ _ _ _ (maps_pages own s 1 d _ _ _ _ Hsd Hpg Hm'))|].
  split; [|split; [exact (w_no_pollers c d s Hpr)|]].
  - destruct W as [W _]. unfold user_bytes. cbn [seq map]. change (g_mem _) with m1.
    rewrite (W (Z.of_nat 0)), (W (Z.of_nat 1)), (W (Z.of_nat 2)) by lia. reflexivity.
  - apply (set_ring_ring _ 0 pipe_zero). unfold ring. change (g_pipe _) with (g_pipe s). by rewrite Hrg.
Qed.

Lemma w_sender : exists own c d f h s, sender own c d f h s.
Proof.
  destruct w_both_ok as (own & c & d & f & g & h & Hf & Mf & _ & Mh & Hpr).
  destruct (sender_from own c d f h w_both Hf Hpr Mf Mh w_rings) as [s Hsn].
  exists own, c, d, f, h, s. exact Hsn.
Qed.

Lemma pipe_deposit_appends_witness : exists (s : kst demo) q', ring (snd (pipe_deposit 0 0 0x3000 3 s)) 0 q' /\
  contents q' = [7; 8; 9].
Proof.
  destruct w_sender as (own & c & d & f & h & s & Hc & Hd & Hm & Hm' & Hb & Hno & Hr).
  destruct (pipe_deposit_appends own s 0 c (page_tr f) 0x3000 3 0 w_pipe Hc Hm ltac:(lia) ltac:(lia) ltac:(lia) Hr w_pipe_ok)
    as (q' & _ & Hq & _ & Hcon & _).
  exists s, q'. split; [exact Hq|]. rewrite Hcon. exact Hb.
Defined.

Lemma pipe_fetch_removes_witness : exists (s : kst demo) q q',
  contents q = [8; 9] /\ ring s 0 q /\ ring (snd (pipe_fetch 0 1 0x3000 1 s)) 0 q' /\ contents q' = [9].
Proof.
  destruct w_sender as (own & c & d & f & h & s & Hc & Hd & Hm & Hm' & Hb & Hno & Hr).
  pose (q := push 9 (push 8 w_pipe)).
  assert (Hq : ring (set_ring s 0 q) 0 q) by (by eapply set_ring_ring).
  assert (Hok : ring_ok q) by (apply push_ok; [apply push_ok; [exact w_pipe_ok|]|]; reflexivity).
  assert (Hcon : contents q = [8; 9])
    by (unfold q; rewrite push_contents; [rewrite push_contents; [reflexivity|exact w_pipe_ok|reflexivity]|
          apply push_ok; [exact w_pipe_ok|reflexivity]|reflexivity]).
  assert (Hm1 : maps own (set_ring s 0 q) d (page_tr h) 0x3000 1)
    by (intros a Ha; apply Hm'; lia).
  destruct (pipe_fetch_removes own (set_ring s 0 q) 1 d (page_tr h) 0x3000 1 0 q
    (space_set_ring _ _ _ _ _ _ Hd) Hm1 ltac:(lia) ltac:(lia) ltac:(lia) Hq Hok)
    as (q' & m' & _ & Hq' & _ & Hc' & _); [rewrite Hcon; repeat constructor; lia|].
  exists (set_ring s 0 q), q, q'. split; [exact Hcon|]. split; [exact Hq|]. split; [exact Hq'|].
  rewrite Hcon in Hc'. change (Z.to_nat (Z.min 1 (q_count q))) with 1%nat in Hc'. cbn in Hc'. by injection Hc'.
Defined.

Lemma pipe_transfer_witness : exists (s s1 s2 : kst demo) h,
  pipe_deposit 0 0 0x3000 3 s = (Ret 3, s1) /\ pipe_fetch 0 1 0x3000 3 s1 = (Ret 3, s2) /\
  user_bytes (page_tr h) (g_mem s2) 0x3000 3 = [7; 8; 9].
Proof.
  destruct w_sender as (own & c & d & f & h & s & Hc & Hd & Hm & Hm' & Hb & Hno & Hr).
  destruct (pipe_transfer_roundtrip own s 0 1 c d (page_tr f) (page_tr h) 0x3000 0x3000 3 0 w_pipe
    Hc Hd Hm Hm') as (s1 & s2 & q2 & E1 & E2 & Eb & _);
    [lia|lia|lia|lia|split; discriminate|change (Z.to_nat 3) with 3%nat; rewrite Hb; repeat constructor; lia|exact Hno|exact Hr|
     exact w_pipe_ok|reflexivity|].
  exists s, s1, s2, h. split; [exact E1|]. split; [exact E2|]. rewrite <- Hb. exact Eb.
Defined.
