(* ===== verification/KInv.v ===== *)
(** * The kernel's well-formedness invariant

    [kinv]: the tables have their C sizes, the current process is a slot of
    the table, and every entry is well formed.  For a process: descriptors
    point into the open-file table or are closed; SIGKILL and SIGSTOP are
    neither blocked nor handled; the working directory is a canonical absolute
    path.  For a description: its ring or listener exists.  For a ring: it is
    a circular buffer.  Here are the combinators that carry it through a
    computation; the next files take them through the kernel, function by
    function. *)
From Stdlib Require Import ZArith Lia Bool String.
From stdpp Require Import base list numbers.
From S2P Require Import Prelude Monad State Memory Support Paging Files Signals Paths FrameLemmas.

(** SIGKILL and SIGSTOP. *)
Definition UNBLOCKABLE : Z := Z.lor (sigbit SIGKILL) (sigbit SIGSTOP).

Definition fd_ok (o : Z) : Prop := -1 <= o < Z.of_nat QUESOS_MAX_OFD.
Definition ring_index (i : Z) : Prop := 0 <= i < Z.of_nat QUESOS_MAX_PIPE.
Definition cwd_ok (l : list Z) : Prop := l = [] \/ canonical l /\ (length l <= 255)%nat.

Record pcb_ok (c : pcb) : Prop := {
  pk_fd : length (p_fd c) = Z.to_nat QUESOS_MAX_FD;
  pk_fds : Forall fd_ok (p_fd c);
  pk_handler : length (p_handler c) = 32%nat;
  pk_kill : handler c SIGKILL = 0;
  pk_stop : handler c SIGSTOP = 0;
  pk_blocked : Z.land (p_blocked c) UNBLOCKABLE = 0;
  pk_suspend : Z.land (p_suspend_mask_save c) UNBLOCKABLE = 0;
  pk_cwd : cwd_ok (p_cwd c) }.

Definition ofd_ok (o : ofd) : Prop :=
  match o_kind o with
  | OFD_PIPE_R | OFD_PIPE_W => ring_index (o_pipe_idx o)
  | OFD_SOCK => (o_pipe_idx o = -1 /\ o_peer_idx o = -1)
                \/ (ring_index (o_pipe_idx o) /\ ring_index (o_peer_idx o))
  | OFD_SOCK_LISTEN => 0 <= o_native_fd o < Z.of_nat QUESOS_MAX_UNIX_BIND
  | _ => True
  end.

Record kinv {H} (s : kst H) : Prop := {
  ki_proc : length (g_proc s) = QUESOS_MAX_PROC;
  ki_ofd : length (g_ofd s) = QUESOS_MAX_OFD;
  ki_pipe : length (g_pipe s) = QUESOS_MAX_PIPE;
  ki_bind : length (g_unix_bind s) = QUESOS_MAX_UNIX_BIND;
  ki_current : forall i, g_current s = Some i -> (i < QUESOS_MAX_PROC)%nat;
  ki_stdio : Forall fd_ok (g_stdio_ofd s);
  ki_procs : Forall pcb_ok (g_proc s);
  ki_ofds : Forall ofd_ok (g_ofd s);
  ki_rings : Forall ring_ok (g_pipe s) }.

(** Computations that keep it, whatever their outcome. *)
Definition kR {H} (s s' : kst H) : Prop := kinv s -> kinv s'.
#[export] Instance kR_preorder {H} : PreOrder (@kR H).
Proof. split; [intros s Hs; exact Hs|intros s1 s2 s3 H1 H2 Hs; exact (H2 (H1 Hs))]. Qed.

Section Combinators.
Context {H : Type} `{Host H}.

(** Fields the invariant does not read. *)
Lemma kR_mem (s : kst H) m : kR s (s <| g_mem := m |>).
Proof. intros [? ? ? ? ? ? ? ? ?]. by split. Qed.
Lemma kR_host (s : kst H) h : kR s (s <| g_host := h |>).
Proof. intros [? ? ? ? ? ? ? ? ?]. by split. Qed.
Lemma kR_pool (s : kst H) n : kR s (s <| g_pool_next := n |>).
Proof. intros [? ? ? ? ? ? ? ? ?]. by split. Qed.

(** A change of fields the invariant does not read. *)
Lemma keep_modify (f : kst H -> kst H) :
  (forall s, g_proc (f s) = g_proc s /\ g_ofd (f s) = g_ofd s /\ g_pipe (f s) = g_pipe s /\
     g_unix_bind (f s) = g_unix_bind s /\ g_current (f s) = g_current s /\ g_stdio_ofd (f s) = g_stdio_ofd s) ->
  steps kR (modify f).
Proof.
  intros E s [? ? ? ? ? ? ? ? ?]. destruct (E s) as (E1 & E2 & E3 & E4 & E5 & E6).
  split; cbn; rewrite ?E1, ?E2, ?E3, ?E4, ?E5, ?E6; done.
Qed.

Lemma zlookup_Forall {A} (P : A -> Prop) l i a : Forall P l -> zlookup l i = Some a -> P a.
Proof. unfold zlookup. destruct (i <? 0); [done|]. intros Hf E. by eapply Forall_lookup_1. Qed.
Lemma zlookup_bound {A} (l : list A) i a : zlookup l i = Some a -> 0 <= i < Z.of_nat (length l).
Proof.
  unfold zlookup. destruct (Z.ltb_spec i 0); [done|]. intros E%lookup_lt_Some. lia.
Qed.
Lemma Forall_zinsert {A} (P : A -> Prop) l i a : Forall P l -> P a -> Forall P (zinsert i a l).
Proof. intros. by apply Forall_insert. Qed.

(** Reading an entry yields a well-formed one. *)
Lemma keep_getp {B} i (f : pcb -> M (kst H) B) :
  (forall c, pcb_ok c -> steps kR (f c)) -> steps kR (getp i ≫= f).
Proof.
  intros Hf s Hs. unfold mbind, M_bind, getp. destruct (g_proc s !! i) as [c|] eqn:E; [|done].
  apply Hf; [|done]. by eapply Forall_lookup_1; [apply (ki_procs _ Hs)|].
Qed.
Lemma keep_geto {B} i (f : ofd -> M (kst H) B) :
  (forall o, ofd_ok o -> 0 <= i < Z.of_nat QUESOS_MAX_OFD -> steps kR (f o)) -> steps kR (geto i ≫= f).
Proof.
  intros Hf s Hs. unfold mbind, M_bind, geto. destruct (zlookup (g_ofd s) i) as [o|] eqn:E; [|done].
  apply Hf; [by eapply zlookup_Forall; [apply (ki_ofds _ Hs)|]| |done].
  rewrite <- (ki_ofd _ Hs). by eapply zlookup_bound.
Qed.

(** Updating one. *)
Lemma keep_modp i f : (forall c, pcb_ok c -> pcb_ok (f c)) -> steps kR (modp (H := H) i f).
Proof.
  intros Hf s Hs. unfold modp. destruct (g_proc s !! i) as [c|] eqn:E; [|done]. cbn. destruct Hs.
  split; cbn; try done; [by rewrite length_insert|]. apply Forall_insert; [done|]. apply Hf.
  by eapply Forall_lookup_1.
Qed.
Lemma keep_modo i f : (forall o, ofd_ok o -> ofd_ok (f o)) -> steps kR (modo (H := H) i f).
Proof.
  intros Hf s Hs. unfold modo. destruct (zlookup (g_ofd s) i) as [c|] eqn:E; [|done]. cbn. destruct Hs.
  split; cbn; try done; [unfold zinsert; by rewrite length_insert|]. apply Forall_zinsert; [done|]. apply Hf.
  by eapply zlookup_Forall.
Qed.
Lemma keep_modq i f : (forall q, ring_ok q -> ring_ok (f q)) -> steps kR (modq (H := H) i f).
Proof.
  intros Hf s Hs. unfold modq. destruct (zlookup (g_pipe s) i) as [c|] eqn:E; [|done]. cbn. destruct Hs.
  split; cbn; try done; [unfold zinsert; by rewrite length_insert|]. apply Forall_zinsert; [done|]. apply Hf.
  by eapply zlookup_Forall.
Qed.
Lemma keep_modb i f : steps kR (modb (H := H) i f).
Proof.
  intros s Hs. unfold modb. destruct (zlookup (g_unix_bind s) i) as [c|] eqn:E; [|done]. cbn. destruct Hs.
  split; cbn; try done. unfold zinsert. by rewrite length_insert.
Qed.

(** A value read from the state in one step. *)
Lemma keep_gets {A B} (g : kst H -> A) (P : A -> Prop) (f : A -> M (kst H) B) :
  (forall s, kinv s -> P (g s)) -> (forall a, P a -> steps kR (f a)) -> steps kR (gets g ≫= f).
Proof. intros Hg Hf s Hs. apply Hf; auto. Qed.

Lemma keep_assoc {A B C} (m : M (kst H) A) (f : A -> M (kst H) B) (g : B -> M (kst H) C) :
  steps kR (m ≫= fun a => f a ≫= g) -> steps kR ((m ≫= f) ≫= g).
Proof. intros Hm s. rewrite bind_assoc_run. apply Hm. Qed.

Lemma zget_fd_ok l i : Forall fd_ok l -> fd_ok (zget l i).
Proof.
  intros Hl. unfold zget. destruct (zlookup l i) as [o|] eqn:E; cbn; [by eapply zlookup_Forall|].
  split; [discriminate|reflexivity].
Qed.

Lemma find_from_bound {A} (f : A -> bool) l i j : find_from f i l = Some j -> (i <= j < i + length l)%nat.
Proof.
  revert i. induction l as [|a l IH]; intros i; cbn; [done|].
  destruct (f a); [intros [= <-]; lia|]. intros E%IH. lia.
Qed.
Lemma find_index_bound {A} (f : A -> bool) l j : find_index f l = Some j -> (j < length l)%nat.
Proof. intros E%find_from_bound. lia. Qed.

End Combinators.

(** ** The automation *)
Create HintDb keep discriminated.
#[export] Hint Constants Opaque : keep.

(** Process updates that do not touch what [pcb_ok] reads. *)
Ltac pcb_tac := let c := fresh "c" in let Hc := fresh "Hc" in
  intros c Hc; first [exact Hc | destruct Hc; split; cbn; first [assumption | reflexivity | done]].

Ltac keep_step :=
  lazymatch goal with
  | |- steps kR (getp _ ≫= _) => apply keep_getp; intros
  | |- steps kR (geto _ ≫= _) => apply keep_geto; intros
  | |- steps kR (modp _ _) => apply keep_modp; solve [pcb_tac | eauto with keep]
  | |- steps kR (modo _ _) => apply keep_modo; solve [intros ? ?; (assumption || exact I || eauto with keep)]
  | |- steps kR (modq _ _) => apply keep_modq; solve [intros ? []; by split | eauto with keep]
  | |- steps kR (modb _ _) => apply keep_modb
  | |- steps kR (modify _) => apply keep_modify; intros; repeat split; reflexivity
  | |- steps kR (host_ _) => apply keep_modify; intros; repeat split; reflexivity
  | |- steps _ (mret _) => apply steps_ret; typeclasses eauto
  | |- steps _ get => apply steps_get; typeclasses eauto
  | |- steps _ (gets _) => apply steps_gets; typeclasses eauto
  | |- steps _ (stop _) => apply steps_stop; typeclasses eauto
  | |- steps _ (_ ≫= _) => apply steps_bind; [typeclasses eauto | |]
  | |- steps _ (when _ _) => apply steps_when; [typeclasses eauto |]
  | |- steps _ (for_ _ _ _) => apply steps_for; [typeclasses eauto |]
  | |- steps _ (if ?b then _ else _) => destruct b
  | |- steps _ (match ?x with _ => _ end) => destruct x
  | |- steps _ (let x := _ in _) => cbv zeta
  end.

Ltac keep_tac := repeat first [ progress intros | solve [ eauto 4 with keep ] | keep_step ].

(** * The invariant through memory accesses, files and pipes

    The lower layers keep it by the frame lemmas; the ring loops keep it
    because their guards keep the buffer within its capacity. *)

Section Files.
Context {H : Type} `{Host H}.

(** *** Memory and readiness, from the frame lemmas *)
Let P := @kR_preorder H.
Lemma keep_current : steps (@kR H) current.  Proof. apply steps_current; exact P. Qed.
Lemma keep_kload n a : steps (@kR H) (kload n a).  Proof. apply steps_kload; exact P. Qed.
Lemma keep_kload8 a : steps (@kR H) (kload8 a).  Proof. apply steps_kload8; exact P. Qed.
Lemma keep_kstore n a v : steps (@kR H) (kstore n a v).
Proof. apply steps_kstore; [exact P|exact kR_mem]. Qed.
Lemma keep_kstore8 a v : steps (@kR H) (kstore8 a v).
Proof. apply steps_kstore8; [exact P|exact kR_mem]. Qed.
Lemma keep_pte_get t i : steps (@kR H) (pte_get t i).  Proof. apply steps_pte_get; exact P. Qed.
Lemma keep_pte_set t i v : steps (@kR H) (pte_set t i v).
Proof. apply steps_pte_set; [exact P|exact kR_mem]. Qed.
Lemma keep_va_l0 p va : steps (@kR H) (va_l0 p va).  Proof. apply steps_va_l0; exact P. Qed.
Lemma keep_user_pa p va : steps (@kR H) (user_pa p va).  Proof. apply steps_user_pa; exact P. Qed.
Lemma keep_as_read8 p va : steps (@kR H) (as_read8 p va).  Proof. apply steps_as_read8; exact P. Qed.
Lemma keep_as_read16 p va : steps (@kR H) (as_read16 p va).  Proof. apply steps_as_read16; exact P. Qed.
Lemma keep_as_read32 p va : steps (@kR H) (as_read32 p va).  Proof. apply steps_as_read32; exact P. Qed.
Lemma keep_as_read64 p va : steps (@kR H) (as_read64 p va).  Proof. apply steps_as_read64; exact P. Qed.
Lemma keep_as_write8 p va v : steps (@kR H) (as_write8 p va v).
Proof. apply steps_as_write8; [exact P|exact kR_mem]. Qed.
Lemma keep_as_write16 p va v : steps (@kR H) (as_write16 p va v).
Proof. apply steps_as_write16; [exact P|exact kR_mem]. Qed.
Lemma keep_as_write32 p va v : steps (@kR H) (as_write32 p va v).
Proof. apply steps_as_write32; [exact P|exact kR_mem]. Qed.
Lemma keep_as_write64 p va v : steps (@kR H) (as_write64 p va v).
Proof. apply steps_as_write64; [exact P|exact kR_mem]. Qed.
Lemma keep_host {A} (f : H -> A * H) : steps (@kR H) (host f).
Proof. apply steps_host. exact kR_host. Qed.
Lemma keep_host_get {A} (f : H -> A) : steps (@kR H) (host_get f).
Proof. apply steps_host_get; exact P. Qed.
Lemma keep_qos_puts l : steps (@kR H) (qos_puts l).
Proof. apply steps_qos_puts; [exact P|exact kR_host]. Qed.
Lemma keep_alloc_frame : steps (@kR H) alloc_frame.
Proof. apply steps_alloc_frame; [exact P|exact kR_mem|exact kR_host|exact kR_pool]. Qed.
Lemma keep_ensure_l0 p va : steps (@kR H) (ensure_l0 p va).
Proof. apply steps_ensure_l0; [exact P|exact kR_mem|exact kR_host|exact kR_pool]. Qed.
Lemma keep_map_user_page p va f : steps (@kR H) (map_user_page p va f).
Proof. apply steps_map_user_page; [exact P|exact kR_mem|exact kR_host|exact kR_pool]. Qed.
Lemma keep_ensure_user_page p va : steps (@kR H) (ensure_user_page p va).
Proof. apply steps_ensure_user_page; [exact P|exact kR_mem|exact kR_host|exact kR_pool]. Qed.
Lemma keep_fd_ready p fd e : steps (@kR H) (fd_ready p fd e).  Proof. apply steps_fd_ready; exact P. Qed.
Lemma keep_poll_evaluate p b : steps (@kR H) (poll_evaluate p b).
Proof. apply steps_poll_evaluate; [exact P|exact kR_mem]. Qed.
Lemma keep_memset d v n : steps (@kR H) (memset d v n).
Proof. apply steps_memset; [exact P|exact kR_mem]. Qed.
Lemma keep_sys_bulk_set d v n : steps (@kR H) (sys_bulk_set d v n).
Proof. apply steps_sys_bulk_set; [exact P|exact kR_mem]. Qed.
Hint Resolve keep_current keep_kload keep_kload8 keep_kstore keep_kstore8 keep_pte_get keep_pte_set
  keep_va_l0 keep_user_pa keep_as_read8 keep_as_read16 keep_as_read32 keep_as_read64 keep_as_write8
  keep_as_write16 keep_as_write32 keep_as_write64 keep_host keep_host_get keep_qos_puts keep_alloc_frame
  keep_ensure_l0 keep_map_user_page keep_ensure_user_page keep_fd_ready keep_poll_evaluate keep_memset
  keep_sys_bulk_set : keep.

Lemma keep_as_write_list p va l : steps (@kR H) (as_write_list p va l).
Proof. revert va. induction l as [|b l IH]; intros va; cbn [as_write_list]; keep_tac. Qed.
Lemma keep_run_walk emit p va e pv n r :
  (forall a b c, steps (@kR H) (emit a b c)) -> steps kR (run_walk emit p va e pv n r).
Proof.
  intros He. revert pv r. induction n as [|n IH]; intros pv r; cbn [run_walk]; unfold flush; keep_tac.
Qed.
Lemma keep_walk_runs emit p va n :
  (forall a b c, steps (@kR H) (emit a b c)) -> steps kR (walk_runs emit p va n).
Proof. intros He. unfold walk_runs. keep_tac. by apply keep_run_walk. Qed.
Lemma keep_as_write_bytes p va l n : steps (@kR H) (as_write_bytes p va l n).
Proof. apply keep_walk_runs. intros a b c. unfold bulk_copy_in. keep_tac. Qed.
Lemma keep_as_fill_bytes p va b n : steps (@kR H) (as_fill_bytes p va b n).
Proof. apply keep_walk_runs. intros. keep_tac. Qed.
Lemma keep_ensure_user_range p a b : steps (@kR H) (ensure_user_range p a b).
Proof. unfold ensure_user_range. keep_tac. Qed.
Hint Resolve keep_as_write_list keep_as_write_bytes keep_as_fill_bytes keep_ensure_user_range : keep.

(** *** Wake-ups *)
Lemma keep_wake_with p rv : steps (@kR H) (wake_with p rv).
Proof. unfold wake_with. keep_tac. Qed.
Hint Resolve keep_wake_with : keep.
Lemma keep_poll_recheck_loop n i k : steps (@kR H) (poll_recheck_loop n i k).
Proof. revert i k. induction n as [|n IH]; intros i k; cbn [poll_recheck_loop]; keep_tac. Qed.
Lemma keep_poll_recheck_all : steps (@kR H) poll_recheck_all.
Proof. apply keep_poll_recheck_loop. Qed.
Lemma keep_find_by_pid pid : steps (@kR H) (find_by_pid pid).
Proof. apply steps_gets; exact P. Qed.
Hint Resolve keep_poll_recheck_all keep_find_by_pid : keep.

(** *** The ring loops: the guards keep the buffer within its capacity *)

(** A read-only computation leaves the state alone; a write through a
    process's table leaves the rings alone. *)
Lemma as_read8_same p va (s : kst H) : snd (as_read8 p va s) = s.
Proof.
  assert (E : steps (fun a b : kst H => b = a) (as_read8 p va)); [|exact (E s)].
  apply steps_as_read8. split; [by intros ?|intros ??? -> ->; done].
Qed.
Lemma as_write8_pipes p va v (s : kst H) : g_pipe (snd (as_write8 p va v s)) = g_pipe s.
Proof.
  pose proof (steps_as_write8 (keeps (@g_pipe H)) ltac:(done) p va v s) as E. exact E.
Qed.

(** [modq] after the guard has been checked on the same ring. *)
Lemma modq_guarded pi (f : pipe_obj -> pipe_obj) q (s : kst H) :
  kinv s -> zlookup (g_pipe s) pi = Some q -> ring_ok (f q) -> kinv (snd (modq pi f s)).
Proof.
  intros Hs E Hf. unfold modq. rewrite E. destruct Hs. split; cbn; try done.
  - unfold zinsert. by rewrite length_insert.
  - by apply Forall_zinsert.
Qed.

Lemma keep_deposit_loop fuel pi src uva count n : steps (@kR H) (deposit_loop fuel pi src uva count n).
Proof.
  revert n. induction fuel as [|fuel IH]; intros n s Hs; cbn [deposit_loop]; [done|].
  unfold mbind, M_bind, getq. destruct (zlookup (g_pipe s) pi) as [q|] eqn:Eq; [|done].
  destruct (_ && _) eqn:Eg; [|done]. apply andb_true_iff in Eg as [_ Eg%Z.ltb_lt].
  pose proof (as_read8_same src (u64 (uva + n)) s) as Er.
  destruct (as_read8 src (u64 (uva + n)) s) as [[b|h] s1]; cbn in Er; subst s1; [|done].
  assert (Hok : ring_ok q) by (by eapply zlookup_Forall; [apply (ki_rings _ Hs)|]).
  pose proof (modq_guarded pi (push b) q s Hs Eq (push_ok b q Hok Eg)) as Hk. unfold push in Hk.
  destruct (modq pi _ s) as [[[]|h] s2]; [|exact Hk]. by apply IH.
Qed.

Lemma keep_fetch_loop fuel pi dst uva count n : steps (@kR H) (fetch_loop fuel pi dst uva count n).
Proof.
  revert n. induction fuel as [|fuel IH]; intros n s Hs; cbn [fetch_loop]; [done|].
  unfold mbind, M_bind, getq. destruct (zlookup (g_pipe s) pi) as [q|] eqn:Eq; [|done].
  destruct (_ && _) eqn:Eg; [|done]. apply andb_true_iff in Eg as [_ Eg%Z.ltb_lt].
  pose proof (as_write8_pipes dst (u64 (uva + n)) (zget (q_buf q) (q_r q)) s) as Er.
  pose proof (keep_as_write8 dst (u64 (uva + n)) (zget (q_buf q) (q_r q)) s Hs) as Hs1.
  destruct (as_write8 _ _ _ s) as [[b|h] s1]; cbn in Er, Hs1; [|done].
  assert (Hok : ring_ok q) by (by eapply zlookup_Forall; [apply (ki_rings _ Hs)|]).
  pose proof (modq_guarded pi pop q s1 Hs1 ltac:(by rewrite Er) (pop_ok q Hok Eg)) as Hk. unfold pop in Hk.
  destruct (modq pi _ s1) as [[[]|h] s2]; [|exact Hk]. by apply IH.
Qed.
Lemma keep_getq i : steps (@kR H) (getq i).  Proof. apply steps_getq; exact P. Qed.
Lemma keep_getb i : steps (@kR H) (getb i).  Proof. apply steps_getb; exact P. Qed.
Hint Resolve keep_deposit_loop keep_fetch_loop keep_getq keep_getb : keep.

Lemma keep_pipe_fetch pi d u k : steps (@kR H) (pipe_fetch pi d u k).
Proof. unfold pipe_fetch. keep_tac. Qed.
Lemma keep_pipe_deposit pi d u k : steps (@kR H) (pipe_deposit pi d u k).
Proof. unfold pipe_deposit. keep_tac. Qed.
Hint Resolve keep_pipe_fetch keep_pipe_deposit : keep.
Lemma keep_pipe_wake_readers pi : steps (@kR H) (pipe_wake_readers pi).
Proof. unfold pipe_wake_readers. keep_tac. Qed.
Hint Resolve keep_pipe_wake_readers : keep.
Lemma keep_pipe_wake_writers pi : steps (@kR H) (pipe_wake_writers pi).
Proof. unfold pipe_wake_writers. keep_tac. Qed.
Hint Resolve keep_pipe_wake_writers : keep.
Lemma keep_refuse_pending n bi : steps (@kR H) (refuse_pending n bi).
Proof. induction n as [|n IH]; cbn [refuse_pending]; keep_tac. Qed.
Lemma keep_drop_reader pi : steps (@kR H) (drop_reader pi).
Proof. unfold drop_reader. keep_tac. Qed.
Lemma keep_drop_writer pi : steps (@kR H) (drop_writer pi).
Proof. unfold drop_writer. keep_tac. Qed.
Hint Resolve keep_refuse_pending keep_drop_reader keep_drop_writer : keep.
Lemma keep_ofd_close i o : steps (@kR H) (ofd_close i o).
Proof. unfold ofd_close. keep_tac. Qed.
Hint Resolve keep_ofd_close : keep.
Lemma keep_ofd_unref i : steps (@kR H) (ofd_unref i).
Proof. unfold ofd_unref. keep_tac. Qed.
Lemma keep_ofd_ref i : steps (@kR H) (ofd_ref i).
Proof. unfold ofd_ref. keep_tac. Qed.
Hint Resolve keep_ofd_unref keep_ofd_ref : keep.

(** *** Descriptors *)

Lemma keep_ofd_alloc : steps (@kR H) ofd_alloc.
Proof. unfold ofd_alloc. keep_tac. Qed.
Hint Resolve keep_ofd_alloc : keep.

(** The slot it returns is in the table. *)
Lemma ofd_alloc_bound (s : kst H) z s' : kinv s -> ofd_alloc s = (Ret (Some z), s') ->
  0 <= z < Z.of_nat QUESOS_MAX_OFD.
Proof.
  intros Hs. unfold ofd_alloc. run. destruct (find_index is_free (g_ofd s)) as [i|] eqn:E; [|done].
  apply find_index_bound in E. rewrite (ki_ofd _ Hs) in E. unfold mbind, M_bind.
  destruct (modo _ _ s) as [[[]|h] s1]; [|done]. intros [= <- _]. lia.
Qed.
Lemma keep_ofd_alloc_bind {B} (f : option Z -> M (kst H) B) :
  (forall o, (forall z, o = Some z -> 0 <= z < Z.of_nat QUESOS_MAX_OFD) -> steps kR (f o)) ->
  steps kR (ofd_alloc ≫= f).
Proof.
  intros Hf s Hs. pose proof (keep_ofd_alloc s Hs) as Hs1. pose proof (ofd_alloc_bound s) as Hb.
  unfold mbind, M_bind. destruct (ofd_alloc s) as [[o|h] s1]; [|done]. apply Hf; [|done].
  intros z ->. by eapply Hb.
Qed.

Lemma keep_set_fd p slot o : fd_ok o -> steps (@kR H) (set_fd p slot o).
Proof.
  intros Ho. unfold set_fd. apply keep_modp. intros c []. split; cbn; try assumption.
  - unfold zinsert. by rewrite length_insert.
  - by apply Forall_zinsert.
Qed.
Lemma fd_ok_closed : fd_ok (-1).
Proof. split; [lia|reflexivity]. Qed.
Lemma fd_ok_slot z : 0 <= z < Z.of_nat QUESOS_MAX_OFD -> fd_ok z.
Proof. unfold fd_ok. lia. Qed.
Lemma pcb_fd_ok c i : pcb_ok c -> fd_ok (zget (p_fd c) i).
Proof. intros Hc. apply zget_fd_ok, Hc. Qed.
Hint Resolve keep_set_fd fd_ok_closed fd_ok_slot pcb_fd_ok : keep.

Lemma keep_stdio {B} i (f : Z -> M (kst H) B) :
  (forall o, fd_ok o -> steps kR (f o)) -> steps kR (gets (fun s => zget (g_stdio_ofd s) i) ≫= f).
Proof. intros Hf. apply (keep_gets _ fd_ok); [|done]. intros s Hs. apply zget_fd_ok, Hs. Qed.

Lemma keep_fd_alloc_slot p : steps (@kR H) (fd_alloc_slot p).
Proof. unfold fd_alloc_slot. keep_tac. Qed.
Lemma keep_fd_ofd p fd : steps (@kR H) (fd_ofd p fd).
Proof. unfold fd_ofd. keep_tac. Qed.
Hint Resolve keep_fd_alloc_slot keep_fd_ofd : keep.
Lemma keep_fdtable_init p : steps (@kR H) (fdtable_init p).
Proof.
  unfold fdtable_init. apply steps_bind; [exact P| |].
  - apply keep_modp. intros c []. split; cbn; try assumption; [reflexivity|].
    apply Forall_replicate. exact fd_ok_closed.
  - intros []. apply steps_for; [exact P|]. intros i. apply keep_stdio. intros o Ho. keep_tac.
Qed.
Lemma keep_fdtable_copy d p : steps (@kR H) (fdtable_copy d p).
Proof. unfold fdtable_copy. keep_tac. Qed.
Lemma keep_fdtable_close_all p : steps (@kR H) (fdtable_close_all p).
Proof. unfold fdtable_close_all. keep_tac. Qed.
Lemma keep_ofd_init : steps (@kR H) ofd_init.
Proof.
  unfold ofd_init. apply steps_for; [exact P|]. intros i. apply keep_ofd_alloc_bind. intros [o|] Ho; keep_tac.
  intros s Hs. destruct Hs. split; cbn; try done. apply Forall_insert; [done|]. apply fd_ok_slot. by apply Ho.
Qed.

End Files.

#[export] Hint Resolve keep_current keep_kload keep_kload8 keep_kstore keep_kstore8 keep_pte_get keep_pte_set
  keep_va_l0 keep_user_pa keep_as_read8 keep_as_read16 keep_as_read32 keep_as_read64
  keep_as_write8 keep_as_write16 keep_as_write32 keep_as_write64 keep_host keep_host_get
  keep_qos_puts keep_alloc_frame keep_ensure_l0 keep_map_user_page keep_ensure_user_page
  keep_fd_ready keep_poll_evaluate keep_memset keep_sys_bulk_set keep_as_write_list
  keep_as_write_bytes keep_as_fill_bytes keep_ensure_user_range keep_wake_with
  keep_poll_recheck_loop keep_poll_recheck_all keep_find_by_pid keep_deposit_loop
  keep_fetch_loop keep_pipe_fetch keep_pipe_deposit keep_getq keep_getb keep_pipe_wake_readers
  keep_pipe_wake_writers keep_refuse_pending keep_drop_reader keep_drop_writer keep_ofd_close
  keep_ofd_unref keep_ofd_ref keep_ofd_alloc keep_set_fd fd_ok_closed fd_ok_slot pcb_fd_ok
  keep_fd_alloc_slot keep_fd_ofd keep_fdtable_init keep_fdtable_copy keep_fdtable_close_all
  keep_ofd_init : keep.

(** * The invariant through signals and the scheduler

    Each function is shown to keep the invariant assuming the forward-declared
    ones do; the knot is tied by induction on the call-depth bound. *)

Section Leaves.
Context {H : Type} `{Host H}.

Lemma keep_quesos_switch_to {A} p : steps (@kR H) (quesos_switch_to (A := A) p).
Proof. unfold quesos_switch_to. keep_tac. Qed.
Lemma keep_push_signal_frame p sig : steps (@kR H) (push_signal_frame p sig).
Proof. unfold push_signal_frame. keep_tac. Qed.
Lemma keep_deliver_wait p c : steps (@kR H) (deliver_wait p c).
Proof. unfold deliver_wait. keep_tac. Qed.
Lemma keep_fb_release_held p : steps (@kR H) (fb_release_held p).
Proof. unfold fb_release_held. keep_tac. Qed.
Lemma keep_mirror_lflag l : steps (@kR H) (mirror_lflag l).
Proof. unfold mirror_lflag. keep_tac. Qed.
Hint Resolve keep_mirror_lflag : keep.
Lemma keep_restore_console_on_death p : steps (@kR H) (restore_console_on_death p).
Proof. unfold restore_console_on_death. keep_tac. Qed.
Lemma keep_put_each l : steps (@kR H) (put_each l).
Proof. induction l as [|c l IH]; cbn [put_each]; keep_tac. Qed.
Hint Resolve keep_put_each : keep.
Lemma keep_qos_put_u64 v : steps (@kR H) (qos_put_u64 v).
Proof. unfold qos_put_u64. keep_tac. Qed.
Lemma keep_qos_put_hex64 v : steps (@kR H) (qos_put_hex64 v).
Proof. unfold qos_put_hex64. keep_tac. Qed.
End Leaves.

#[export] Hint Resolve keep_quesos_switch_to keep_push_signal_frame keep_deliver_wait keep_fb_release_held
  keep_mirror_lflag keep_restore_console_on_death keep_qos_put_u64 keep_qos_put_hex64 : keep.

Section Signals.
Context {H : Type} `{Host H} (F : forward H)
  (Fs : steps kR (fw_schedule F))
  (Fr : forall p sig, steps kR (fw_raise_on_pcb F p sig))
  (Fd : forall p, steps kR (fw_deliver_pending_signal F p)).
Hint Resolve Fs Fr Fd : keep.

Lemma keep_raise_on_pgid_loop n i pg sig b : steps kR (raise_on_pgid_loop F n i pg sig b).
Proof. revert i b. induction n as [|n IH]; intros i b; cbn [raise_on_pgid_loop]; keep_tac. Qed.
Lemma keep_raise_on_pgid pg sig : steps kR (raise_on_pgid F pg sig).
Proof. apply keep_raise_on_pgid_loop. Qed.
Hint Resolve keep_raise_on_pgid : keep.
Lemma keep_signal_fg_group sig : steps kR (signal_fg_group F sig).
Proof. unfold signal_fg_group. keep_tac. Qed.
Hint Resolve keep_signal_fg_group : keep.
Lemma keep_console_service_parked r : steps kR (console_service_parked F r).
Proof. unfold console_service_parked. keep_tac. Qed.
Hint Resolve keep_console_service_parked : keep.
Lemma keep_console_settle_park p : steps kR (console_settle_park F p).
Proof. unfold console_settle_park. keep_tac. Qed.
Hint Resolve keep_console_settle_park : keep.
Lemma keep_raise_sigcont p : steps kR (raise_sigcont F p).
Proof. unfold raise_sigcont. keep_tac. Qed.
Lemma keep_complete_console p c : steps (@kR H) (complete_console p c).
Proof. unfold complete_console. keep_tac. Qed.
Lemma keep_complete_sigsuspend p c : steps kR (complete_sigsuspend F p c).
Proof. unfold complete_sigsuspend. keep_tac. Qed.
Hint Resolve keep_raise_sigcont keep_complete_console keep_complete_sigsuspend : keep.
Lemma keep_raise_on_pcb p sig : steps kR (raise_on_pcb F p sig).
Proof. unfold raise_on_pcb. keep_tac. Qed.
Lemma keep_reap_tail p : steps kR (reap_tail F p).
Proof. unfold reap_tail. keep_tac. Qed.
Lemma keep_stop_process p sig : steps kR (stop_process F p sig).
Proof. unfold stop_process. keep_tac. Qed.
Hint Resolve keep_raise_on_pcb keep_reap_tail keep_stop_process : keep.
Lemma keep_terminate_by_signal p sig : steps kR (terminate_by_signal F p sig).
Proof. unfold terminate_by_signal. keep_tac. Qed.
Hint Resolve keep_terminate_by_signal : keep.
Lemma keep_deliver_loop n p : steps kR (deliver_loop F n p).
Proof. induction n as [|n IH]; cbn [deliver_loop]; keep_tac. Qed.
Hint Resolve keep_deliver_loop : keep.
Lemma keep_deliver_pending_signal p : steps kR (deliver_pending_signal F p).
Proof. unfold deliver_pending_signal. keep_tac. Qed.

(** The slot the scheduler picks is in the table. *)
Lemma keep_set_current i : (i < QUESOS_MAX_PROC)%nat ->
  steps kR (modify (fun s : kst H => s <| g_current := Some i |>)).
Proof. intros Hi s []. split; cbn; try done. by intros j [= <-]. Qed.
Lemma keep_clear_current : steps kR (modify (fun s : kst H => s <| g_current := None |>)).
Proof. intros s []. split; cbn; done. Qed.
Hint Resolve keep_clear_current : keep.

Lemma keep_schedule_scan base n i : steps kR (schedule_scan F base n i).
Proof.
  revert i. induction n as [|n IH]; intros i; cbn [schedule_scan]; [keep_tac|]. cbv zeta.
  assert (Hb : (Z.to_nat ((base + i) mod Z.of_nat QUESOS_MAX_PROC) < QUESOS_MAX_PROC)%nat).
  { pose proof (Z.mod_pos_bound (base + i) (Z.of_nat QUESOS_MAX_PROC) ltac:(reflexivity)). lia. }
  pose proof (keep_set_current _ Hb) as Hc. keep_tac.
Qed.
Hint Resolve keep_schedule_scan : keep.
Lemma keep_schedule : steps kR (schedule F).
Proof. unfold schedule. keep_tac. Qed.
End Signals.

Section Knot.
Context {H : Type} `{Host H}.

Lemma kernel_keeps n : steps kR (fw_schedule (kernel (H := H) n)) /\
  (forall p sig, steps kR (fw_raise_on_pcb (kernel (H := H) n) p sig)) /\
  (forall p, steps kR (fw_deliver_pending_signal (kernel (H := H) n) p)).
Proof.
  induction n as [|n (Fs & Fr & Fd)]; cbn [kernel].
  - split; [|split]; intros; apply steps_stop; typeclasses eauto.
  - split; [by apply keep_schedule|]. split; [by apply keep_raise_on_pcb|by apply keep_deliver_pending_signal].
Qed.

Lemma keep_k_schedule : steps (@kR H) k_schedule.
Proof. apply kernel_keeps. Qed.
Lemma keep_k_raise_on_pcb p sig : steps (@kR H) (k_raise_on_pcb p sig).
Proof. apply kernel_keeps. Qed.
Lemma keep_k_deliver_pending_signal p : steps (@kR H) (k_deliver_pending_signal p).
Proof. apply kernel_keeps. Qed.
Lemma keep_k_raise_on_pgid pg sig : steps (@kR H) (k_raise_on_pgid pg sig).
Proof. apply keep_raise_on_pgid. apply kernel_keeps. Qed.
Lemma keep_k_terminate_by_signal p sig : steps (@kR H) (k_terminate_by_signal p sig).
Proof. apply keep_terminate_by_signal; apply kernel_keeps. Qed.
Lemma keep_k_reap_tail p : steps (@kR H) (k_reap_tail p).
Proof. apply keep_reap_tail; apply kernel_keeps. Qed.
Lemma keep_k_signal_fg_group sig : steps (@kR H) (signal_fg_group (kernel DEPTH) sig).
Proof. apply keep_signal_fg_group; apply kernel_keeps. Qed.
Lemma keep_k_console_service_parked r : steps (@kR H) (console_service_parked (kernel DEPTH) r).
Proof. apply keep_console_service_parked; apply kernel_keeps. Qed.
End Knot.

#[export] Hint Resolve keep_k_schedule keep_k_raise_on_pcb keep_k_deliver_pending_signal keep_k_raise_on_pgid
  keep_k_terminate_by_signal keep_k_reap_tail keep_k_signal_fg_group keep_k_console_service_parked : keep.
