(* ===== verification/KInvCalls.v ===== *)
(** * The invariant through the system calls

    The handlers of FileCalls, VmCalls and Sockets: the interesting cases are
    the ones that store an index or a path (pipe, socket, bind, accept,
    socketpair, chdir). *)
From Stdlib Require Import ZArith Lia Bool String.
From stdpp Require Import base list numbers.
From S2P Require Import Prelude Monad State Memory Support Paging Files Signals FileCalls VmCalls Sockets Process Boot Dispatch Paths FrameLemmas KInv.

(** A table index found by a scan is in the table. *)
Lemma keep_find {H} {A B} (f : A -> bool) (g : kst H -> list A) n (k : option nat -> M (kst H) B) :
  (forall s, kinv s -> length (g s) = n) ->
  (forall o, (forall i, o = Some i -> (i < n)%nat) -> steps kR (k o)) ->
  steps kR (gets (fun s => find_index f (g s)) ≫= k).
Proof.
  intros Hg Hk. apply (keep_gets _ (fun o => forall i, o = Some i -> (i < n)%nat)); [|done].
  intros s Hs i E. apply find_index_bound in E. by rewrite <- (Hg s Hs).
Qed.

Ltac keep_step' :=
  lazymatch goal with
  | |- steps kR (ofd_alloc ≫= _) => apply keep_ofd_alloc_bind; intros
  | |- steps kR (gets (fun s => zget (g_stdio_ofd s) _) ≫= _) => apply keep_stdio; intros
  | |- steps kR (gets (fun s => find_index _ (g_pipe s)) ≫= _) => apply (keep_find _ _ _ _ ki_pipe); intros
  | |- steps kR (gets (fun s => find_index _ (g_unix_bind s)) ≫= _) => apply (keep_find _ _ _ _ ki_bind); intros
  | |- _ => keep_step
  end.
Ltac keep_tac ::= repeat first [ progress intros | solve [ eauto 4 with keep ] | keep_step' ].

(** ** Files *)
Section FileCalls.
Context {H : Type} `{Host H}.

Lemma keep_fill_iobuf l : steps (@kR H) (fill_iobuf l).
Proof. unfold fill_iobuf. keep_tac. Qed.
Hint Resolve keep_fill_iobuf : keep.
Lemma keep_sys_read fd n : steps (@kR H) (sys_read fd n).
Proof. unfold sys_read. keep_tac. Qed.
Lemma keep_kload_list n a : steps (@kR H) (kload_list n a).
Proof. revert a. induction n as [|n IH]; intros a; cbn [kload_list]; keep_tac. Qed.
Lemma keep_kstore_list a l : steps (@kR H) (kstore_list a l).
Proof. revert a. induction l as [|b l IH]; intros a; cbn [kstore_list]; keep_tac. Qed.
Hint Resolve keep_sys_read keep_kload_list keep_kstore_list : keep.
Lemma keep_bounce_out u n : steps (@kR H) (bounce_out u n).
Proof. unfold bounce_out. keep_tac. Qed.
Hint Resolve keep_bounce_out : keep.
Lemma keep_native_write_loop n fd u r t : steps (@kR H) (native_write_loop n fd u r t).
Proof. revert r t. induction n as [|n IH]; intros r t; cbn [native_write_loop]; keep_tac. Qed.
Hint Resolve keep_native_write_loop : keep.
Lemma keep_native_write fd u n : steps (@kR H) (native_write fd u n).
Proof. unfold native_write. keep_tac. Qed.
Lemma keep_native_read fd u n : steps (@kR H) (native_read fd u n).
Proof. unfold native_read. keep_tac. Qed.
Lemma keep_park_pipe s k p u n : steps (@kR H) (park_pipe s k p u n).
Proof. unfold park_pipe. keep_tac. Qed.
Hint Resolve keep_native_write keep_native_read keep_park_pipe : keep.
Lemma keep_do_write fd u n : steps (@kR H) (do_write fd u n).
Proof. unfold do_write. keep_tac. Qed.
Lemma keep_console_read p u n : steps (@kR H) (console_read p u n).
Proof. unfold console_read. keep_tac. Qed.
Hint Resolve keep_console_read : keep.
Lemma keep_do_read fd u n : steps (@kR H) (do_read fd u n).
Proof. unfold do_read. keep_tac. Qed.
Lemma keep_copy_user_path_loop n u : steps (@kR H) (copy_user_path_loop n u).
Proof. revert u. induction n as [|n IH]; intros u; cbn [copy_user_path_loop]; keep_tac. Qed.
Hint Resolve keep_copy_user_path_loop : keep.
Lemma keep_copy_user_path u : steps (@kR H) (copy_user_path u).
Proof. apply keep_copy_user_path_loop. Qed.
Hint Resolve keep_copy_user_path : keep.
Lemma keep_resolve_path u : steps (@kR H) (resolve_path u).
Proof. unfold resolve_path. keep_tac. Qed.
Hint Resolve keep_resolve_path : keep.
Lemma keep_do_open u f m : steps (@kR H) (do_open u f m).
Proof. unfold do_open. keep_tac. Qed.
Lemma keep_forward_struct c n e fd u : steps (@kR H) (forward_struct c n e fd u).
Proof. unfold forward_struct. keep_tac. Qed.
Hint Resolve keep_forward_struct : keep.
Lemma keep_do_fstat fd u : steps (@kR H) (do_fstat fd u).  Proof. apply keep_forward_struct. Qed.
Lemma keep_do_tcgetattr fd u : steps (@kR H) (do_tcgetattr fd u).  Proof. apply keep_forward_struct. Qed.
Lemma keep_do_ttysize fd u : steps (@kR H) (do_ttysize fd u).  Proof. apply keep_forward_struct. Qed.
Lemma keep_do_lseek fd o w : steps (@kR H) (do_lseek fd o w).
Proof. unfold do_lseek. keep_tac. Qed.
Lemma keep_do_getdents64 fd u n : steps (@kR H) (do_getdents64 fd u n).
Proof. unfold do_getdents64. keep_tac. Qed.
Lemma keep_do_unlink u : steps (@kR H) (do_unlink u).
Proof. unfold do_unlink. keep_tac. Qed.
Lemma keep_do_mkdir u m : steps (@kR H) (do_mkdir u m).
Proof. unfold do_mkdir. keep_tac. Qed.
Lemma keep_do_rename u v : steps (@kR H) (do_rename u v).
Proof. unfold do_rename. keep_tac. Qed.
Lemma keep_do_ftruncate fd n : steps (@kR H) (do_ftruncate fd n).
Proof. unfold do_ftruncate. keep_tac. Qed.

(** The name [chdir] resolves is absolute and fits the buffer, so the stored
    directory is canonical. *)
Lemma join_path_absolute base inp : cwd_ok base -> absolute (join_path base inp).
Proof.
  intros Hb. unfold join_path. destruct inp as [|c inp]; cbn [head].
  - assert (Hout : cap_copy QUESOS_PATH_CAP base = base).
    { unfold cap_copy. rewrite path_cap_nat. destruct Hb as [->|[_ ?]]; [done|]. by apply take_ge. }
    rewrite Hout. destruct Hb as [->|[(st & Hst & ->) ?]]; [done|].
    pose proof (print_absolute st) as Ha. unfold absolute in *.
    destruct (print_path st); [done|]. by destruct (ends_in_slash _); [|destruct (_ <? _)].
  - destruct (Z.eqb_spec c slash) as [->|]; [done|].
    assert (Hout : cap_copy QUESOS_PATH_CAP base = base).
    { unfold cap_copy. rewrite path_cap_nat. destruct Hb as [->|[_ ?]]; [done|]. by apply take_ge. }
    rewrite Hout. destruct Hb as [->|[(st & Hst & ->) ?]]; [done|].
    pose proof (print_absolute st) as Ha. unfold absolute in *.
    destruct (print_path st); [done|]. by destruct (ends_in_slash _); [|destruct (_ <? _)].
Qed.

Lemma resolve_path_bind {B} u (f : list Z -> M (kst H) B) :
  (forall l, absolute l -> (length l <= 255)%nat -> steps kR (f l)) -> steps kR (resolve_path u ≫= f).
Proof.
  intros Hf. unfold resolve_path. apply keep_assoc, steps_bind; [typeclasses eauto|keep_tac|]. intros self.
  apply keep_assoc, steps_bind; [typeclasses eauto|keep_tac|]. intros inp.
  apply keep_assoc, keep_getp. intros c Hc. intros s. rewrite bind_mret. apply Hf.
  - apply join_path_absolute, Hc.
  - apply join_path_length.
Qed.

Lemma keep_do_chdir u : steps (@kR H) (do_chdir u).
Proof.
  unfold do_chdir. apply steps_bind; [typeclasses eauto|keep_tac|]. intros self.
  apply resolve_path_bind. intros l Ha Hl. cbv zeta.
  assert (Hcwd : cwd_ok (cap_copy QUESOS_PATH_CAP (normalize_path l))).
  { right. pose proof (normalize_canonical l Ha Hl) as Hcan. pose proof (normalize_length l Ha Hl) as Hlen.
    rewrite <- normalize_spec in Hlen by done. unfold cap_copy. rewrite path_cap_nat, take_ge by done. done. }
  assert (Hm : forall c, pcb_ok c -> pcb_ok (c <| p_cwd := cap_copy QUESOS_PATH_CAP (normalize_path l) |>)).
  { intros c []. by split. }
  pose proof (keep_modp (H := H) self _ Hm). keep_tac.
Qed.
Lemma keep_do_getcwd u n : steps (@kR H) (do_getcwd u n).
Proof. unfold do_getcwd. keep_tac. Qed.
Lemma keep_do_uname u : steps (@kR H) (do_uname u).
Proof. unfold do_uname. keep_tac. Qed.
Lemma keep_do_tcsetattr fd o u : steps (@kR H) (do_tcsetattr fd o u).
Proof. unfold do_tcsetattr. keep_tac. Qed.
Lemma keep_do_close fd : steps (@kR H) (do_close fd).
Proof. unfold do_close. keep_tac. Qed.
Lemma keep_do_dup2 a b : steps (@kR H) (do_dup2 a b).
Proof. unfold do_dup2. keep_tac. Qed.
Lemma keep_do_dup a : steps (@kR H) (do_dup a).
Proof. unfold do_dup. keep_tac. Qed.

Lemma fresh_ring_ok q : ring_ok q -> ring_ok (fresh_ring q).
Proof. intros [Hl _ _ _]. split; cbn; [exact Hl|split; [lia|reflexivity]|reflexivity|split; [lia|discriminate]]. Qed.
Hint Resolve fresh_ring_ok : keep.

Lemma pipe_ofd_ok k i r o : k = OFD_PIPE_R \/ k = OFD_PIPE_W -> ring_index i ->
  ofd_ok (o <| o_kind := k |> <| o_pipe_idx := i |> <| o_refcount := r |>).
Proof. intros [-> | ->] Hi; exact Hi. Qed.

Lemma keep_do_pipe u : steps (@kR H) (do_pipe u).
Proof.
  unfold do_pipe. apply steps_bind; [typeclasses eauto|keep_tac|]. intros self.
  apply (keep_find _ _ _ _ ki_pipe). intros [i|] Hi; [|keep_tac]. cbv zeta.
  assert (Hri : ring_index (Z.of_nat i)) by (specialize (Hi i eq_refl); unfold ring_index; lia).
  assert (Hm : forall ro k, k = OFD_PIPE_R \/ k = OFD_PIPE_W -> steps (@kR H) (modo ro (fun o =>
      o <| o_kind := k |> <| o_pipe_idx := Z.of_nat i |> <| o_refcount := 1 |>))).
  { intros ro k Hk. apply keep_modo. intros o _. by apply pipe_ofd_ok. }
  pose proof (fun ro => Hm ro OFD_PIPE_R (or_introl eq_refl)) as HR.
  pose proof (fun ro => Hm ro OFD_PIPE_W (or_intror eq_refl)) as HW. clear Hm.
  apply keep_ofd_alloc_bind. intros [ro|] Ho; [|keep_tac]. apply keep_ofd_alloc_bind. intros [wo|] Hw; [|keep_tac].
  specialize (Ho ro eq_refl). specialize (Hw wo eq_refl). keep_tac.
Qed.

End FileCalls.

#[export] Hint Resolve keep_fill_iobuf keep_sys_read keep_kload_list keep_kstore_list keep_bounce_out
  keep_native_write_loop keep_native_write keep_native_read keep_park_pipe keep_do_write
  keep_console_read keep_do_read keep_copy_user_path_loop keep_copy_user_path keep_resolve_path
  keep_do_open keep_forward_struct keep_do_fstat keep_do_tcgetattr keep_do_ttysize
  keep_do_lseek keep_do_getdents64 keep_do_unlink keep_do_mkdir keep_do_rename
  keep_do_ftruncate keep_do_chdir keep_do_getcwd keep_do_uname keep_do_tcsetattr keep_do_close
  keep_do_dup2 keep_do_dup fresh_ring_ok keep_do_pipe : keep.

(** ** Memory and devices *)
Section VmCalls.
Context {H : Type} `{Host H}.

Lemma keep_alloc_frames_contig n : steps (@kR H) (alloc_frames_contig n).
Proof. unfold alloc_frames_contig. keep_tac. Qed.
Lemma keep_do_brk n : steps (@kR H) (do_brk n).
Proof. unfold do_brk. keep_tac. Qed.
Lemma keep_do_fb_geometry u : steps (@kR H) (do_fb_geometry u).
Proof. unfold do_fb_geometry. keep_tac. Qed.
Lemma keep_fb_page_count : steps (@kR H) fb_page_count.
Proof. unfold fb_page_count. keep_tac. Qed.
Lemma keep_fb_contig n p b k q : steps (@kR H) (fb_contig n p b k q).
Proof. revert k q. induction n as [|n IH]; intros k q; cbn [fb_contig]; keep_tac. Qed.
Lemma keep_fb_free_slot n k : steps (@kR H) (fb_free_slot n k).
Proof. revert k. induction n as [|n IH]; intros k; cbn [fb_free_slot]; keep_tac. Qed.
Hint Resolve keep_alloc_frames_contig keep_fb_page_count keep_fb_contig keep_fb_free_slot : keep.
Lemma keep_do_fb_register u : steps (@kR H) (do_fb_register u).
Proof. unfold do_fb_register. keep_tac. Qed.
Lemma keep_do_fb_release : steps (@kR H) do_fb_release.
Proof. unfold do_fb_release. keep_tac. Qed.
Lemma keep_do_fb_present : steps (@kR H) do_fb_present.
Proof. unfold do_fb_present. keep_tac. Qed.
Lemma keep_do_kbd_read : steps (@kR H) do_kbd_read.
Proof. unfold do_kbd_read. keep_tac. Qed.
Lemma keep_bulk_validate_loop n p va q b : steps (@kR H) (bulk_validate_loop n p va q b).
Proof. revert va q b. induction n as [|n IH]; intros va q b; cbn [bulk_validate_loop]; keep_tac. Qed.
Hint Resolve keep_bulk_validate_loop : keep.
Lemma keep_bulk_validate_range p u n : steps (@kR H) (bulk_validate_range p u n).
Proof. unfold bulk_validate_range. keep_tac. Qed.
Lemma keep_sys_bulk_copy d a n : steps (@kR H) (sys_bulk_copy d a n).
Proof. unfold sys_bulk_copy. keep_tac. Qed.
Lemma keep_sys_palette_blit d a l n : steps (@kR H) (sys_palette_blit d a l n).
Proof. unfold sys_palette_blit. keep_tac. Qed.
Hint Resolve keep_bulk_validate_range keep_sys_bulk_copy keep_sys_palette_blit : keep.
Lemma keep_do_bulk_copy d a n : steps (@kR H) (do_bulk_copy d a n).
Proof. unfold do_bulk_copy. keep_tac. Qed.
Lemma keep_do_bulk_set d v n : steps (@kR H) (do_bulk_set d v n).
Proof. unfold do_bulk_set. keep_tac. apply keep_walk_runs. keep_tac. Qed.
Lemma keep_blit_loop n p d a l i : steps (@kR H) (blit_loop n p d a l i).
Proof. revert i. induction n as [|n IH]; intros i; cbn [blit_loop]; keep_tac. Qed.
Hint Resolve keep_blit_loop : keep.
Lemma keep_do_palette_blit d a l n : steps (@kR H) (do_palette_blit d a l n).
Proof. unfold do_palette_blit. keep_tac. Qed.
Lemma keep_do_fb_mmap : steps (@kR H) do_fb_mmap.
Proof. unfold do_fb_mmap. keep_tac. Qed.
Lemma keep_l0_regions_loop l r n k : steps (@kR H) (l0_regions_loop l r n k).
Proof. revert r k. induction n as [|n IH]; intros r k; cbn [l0_regions_loop]; keep_tac. Qed.
Hint Resolve keep_l0_regions_loop : keep.
Lemma keep_l0_regions_needed p va n : steps (@kR H) (l0_regions_needed p va n).
Proof. unfold l0_regions_needed. keep_tac. Qed.
Hint Resolve keep_l0_regions_needed : keep.
Lemma keep_do_bigalloc n : steps (@kR H) (do_bigalloc n).
Proof. unfold do_bigalloc. keep_tac. Qed.

End VmCalls.

#[export] Hint Resolve keep_alloc_frames_contig keep_do_brk keep_do_fb_geometry keep_fb_page_count keep_fb_contig
  keep_fb_free_slot keep_do_fb_register keep_do_fb_release keep_do_fb_present keep_do_kbd_read
  keep_bulk_validate_loop keep_bulk_validate_range keep_sys_bulk_copy keep_sys_palette_blit
  keep_do_bulk_copy keep_do_bulk_set keep_blit_loop keep_do_palette_blit keep_do_fb_mmap
  keep_l0_regions_loop keep_l0_regions_needed keep_do_bigalloc : keep.

(** ** Sockets *)
Section Sockets.
Context {H : Type} `{Host H}.

(** Rings handed out exist. *)
Lemma keep_alloc_ring_bind {B} (k : option Z -> M (kst H) B) :
  (forall o, (forall z, o = Some z -> ring_index z) -> steps kR (k o)) -> steps kR (alloc_ring ≫= k).
Proof.
  intros Hk. unfold alloc_ring. apply keep_assoc, (keep_find _ _ _ _ ki_pipe). intros [i|] Hi.
  - apply keep_assoc, steps_bind; [typeclasses eauto|keep_tac|]. intros [] s. rewrite bind_mret. apply Hk.
    intros z [= <-]. specialize (Hi i eq_refl). unfold ring_index. lia.
  - intros s. rewrite bind_mret. apply Hk. done.
Qed.
Lemma keep_free_ring x : steps (@kR H) (free_ring x).
Proof. unfold free_ring. keep_tac. Qed.
Lemma keep_unix_bind_lookup l : steps (@kR H) (unix_bind_lookup l).
Proof. unfold unix_bind_lookup. keep_tac. Qed.
Lemma keep_read_sun_path_loop n p u : steps (@kR H) (read_sun_path_loop n p u).
Proof. revert u. induction n as [|n IH]; intros u; cbn [read_sun_path_loop]; keep_tac. Qed.
Lemma keep_read_sun_path p u : steps (@kR H) (read_sun_path p u).
Proof. apply keep_read_sun_path_loop. Qed.
Lemma keep_write_empty_sockaddr p u v : steps (@kR H) (write_empty_sockaddr p u v).
Proof. unfold write_empty_sockaddr. keep_tac. Qed.
Hint Resolve keep_free_ring keep_unix_bind_lookup keep_read_sun_path keep_write_empty_sockaddr : keep.

(** A description connected to two rings, whatever its kind. *)
Lemma connected_ofd_ok o a b : ofd_ok o -> ring_index a -> ring_index b ->
  ofd_ok (o <| o_pipe_idx := a |> <| o_peer_idx := b |>).
Proof. unfold ofd_ok. intros Ho Ha Hb. cbn. destruct (o_kind o); auto. Qed.
Lemma sock_ofd_ok (o : ofd) a b r : ring_index a -> ring_index b ->
  ofd_ok (o <| o_kind := OFD_SOCK |> <| o_pipe_idx := a |> <| o_peer_idx := b |> <| o_refcount := r |>).
Proof. intros Ha Hb. right. by split. Qed.

Lemma keep_socket_handshake p o : steps (@kR H) (socket_handshake p o).
Proof.
  unfold socket_handshake. apply keep_alloc_ring_bind. intros [x|] Hx; [|keep_tac].
  apply keep_alloc_ring_bind. intros [y|] Hy; [|keep_tac].
  specialize (Hx x eq_refl). specialize (Hy y eq_refl).
  assert (H1 : forall i, steps (@kR H) (modo i (fun o => o <| o_pipe_idx := y |> <| o_peer_idx := x |>)))
    by (intros i; apply keep_modo; intros; by apply connected_ofd_ok).
  assert (H2 : forall i, steps (@kR H) (modo i (fun o => o <| o_kind := OFD_SOCK |> <| o_pipe_idx := x |>
      <| o_peer_idx := y |> <| o_refcount := 1 |>)))
    by (intros i; apply keep_modo; intros; by apply sock_ofd_ok).
  apply steps_bind; [typeclasses eauto|keep_tac|]. intros [slot|]; [|keep_tac].
  apply keep_ofd_alloc_bind. intros [ao|] Ha; [|keep_tac]. specialize (Ha ao eq_refl). keep_tac.
Qed.
Hint Resolve keep_socket_handshake : keep.

Lemma keep_do_socket d t p : steps (@kR H) (do_socket d t p).
Proof.
  unfold do_socket. apply steps_bind; [typeclasses eauto|keep_tac|]. intros self.
  destruct (sock_args d t p); [keep_tac|].
  apply steps_bind; [typeclasses eauto|keep_tac|]. intros [slot|]; [|keep_tac].
  apply keep_ofd_alloc_bind. intros [o|] Ho; [|keep_tac]. specialize (Ho o eq_refl).
  assert (H2 : steps (@kR H) (modo o (fun x => x <| o_kind := OFD_SOCK |> <| o_pipe_idx := -1 |>
      <| o_peer_idx := -1 |> <| o_refcount := 1 |>))) by (apply keep_modo; intros x _; left; done).
  keep_tac.
Qed.

Lemma keep_do_bind fd u n : steps (@kR H) (do_bind fd u n).
Proof.
  unfold do_bind. keep_tac.
  match goal with Hi : forall i, Some ?b = Some i -> _ |- _ => specialize (Hi b eq_refl) end.
  apply keep_modo. intros x _. unfold ofd_ok. cbn. lia.
Qed.
Lemma keep_do_listen fd n : steps (@kR H) (do_listen fd n).
Proof. unfold do_listen. keep_tac. Qed.
Lemma keep_do_connect fd u n : steps (@kR H) (do_connect fd u n).
Proof. unfold do_connect. keep_tac. Qed.
Lemma keep_do_accept fd u n : steps (@kR H) (do_accept fd u n).
Proof. unfold do_accept. keep_tac. Qed.
Lemma keep_release_ofd o : steps (@kR H) (release_ofd o).
Proof. unfold release_ofd. keep_tac. Qed.
Hint Resolve keep_release_ofd : keep.
Lemma keep_do_socketpair d t p u : steps (@kR H) (do_socketpair d t p u).
Proof.
  unfold do_socketpair. apply steps_bind; [typeclasses eauto|keep_tac|]. intros self.
  destruct (sock_args d t p); [keep_tac|].
  apply keep_alloc_ring_bind. intros [x|] Hx; [|keep_tac].
  apply keep_alloc_ring_bind. intros [y|] Hy; [|keep_tac].
  specialize (Hx x eq_refl). specialize (Hy y eq_refl).
  assert (H1 : forall i, steps (@kR H) (modo i (fun o => o <| o_kind := OFD_SOCK |> <| o_pipe_idx := x |>
      <| o_peer_idx := y |> <| o_refcount := 1 |>)))
    by (intros i; apply keep_modo; intros; by apply sock_ofd_ok).
  assert (H2 : forall i, steps (@kR H) (modo i (fun o => o <| o_kind := OFD_SOCK |> <| o_pipe_idx := y |>
      <| o_peer_idx := x |> <| o_refcount := 1 |>)))
    by (intros i; apply keep_modo; intros; by apply sock_ofd_ok).
  apply steps_bind; [typeclasses eauto|keep_tac|]. intros s0.
  apply keep_ofd_alloc_bind. intros [o0|] Ho; [|keep_tac]. specialize (Ho o0 eq_refl).
  destruct s0 as [s0|]; [|keep_tac]. apply steps_bind; [typeclasses eauto|keep_tac|]. intros [].
  apply steps_bind; [typeclasses eauto|keep_tac|]. intros s1.
  apply keep_ofd_alloc_bind. intros [o1|] Ho1; [specialize (Ho1 o1 eq_refl)|]; keep_tac.
Qed.
Lemma keep_do_poll u n t : steps (@kR H) (do_poll u n t).
Proof. unfold do_poll. keep_tac. Qed.
Lemma keep_do_select n r w e t : steps (@kR H) (do_select n r w e t).
Proof. unfold do_select. keep_tac. Qed.

End Sockets.

#[export] Hint Resolve keep_free_ring keep_unix_bind_lookup keep_read_sun_path_loop keep_read_sun_path
  keep_write_empty_sockaddr keep_socket_handshake keep_do_socket keep_do_bind keep_do_listen
  keep_do_connect keep_do_accept keep_release_ofd keep_do_socketpair keep_do_poll
  keep_do_select : keep.

(** * The invariant through process management, boot and the traps

    The handlers of Process, [quesos_main] and the entries of Dispatch: masks
    and handlers never include SIGKILL or SIGSTOP. *)

(** ** Signal masks and handlers *)

Lemma lor_unblockable a b : Z.land a UNBLOCKABLE = 0 -> Z.land b UNBLOCKABLE = 0 ->
  Z.land (Z.lor a b) UNBLOCKABLE = 0.
Proof. intros Ha Hb. by rewrite Z.land_lor_distr_l, Ha, Hb. Qed.
Lemma clr_unblockable a b : Z.land a UNBLOCKABLE = 0 -> Z.land (clr a b) UNBLOCKABLE = 0.
Proof.
  intros Ha. unfold clr. apply Z.bits_inj'. intros n Hn.
  apply (f_equal (fun z => Z.testbit z n)) in Ha. rewrite Z.land_spec, Z.bits_0 in *.
  rewrite Z.ldiff_spec. by destruct (Z.testbit a n), (Z.testbit b n), (Z.testbit UNBLOCKABLE n).
Qed.
(** [blockable] removes exactly SIGKILL and SIGSTOP. *)
Lemma blockable_eq m : blockable m = clr m UNBLOCKABLE.
Proof. unfold blockable, clr, UNBLOCKABLE. by rewrite Z.ldiff_ldiff_l. Qed.
Lemma blockable_ok m : Z.land (blockable m) UNBLOCKABLE = 0.
Proof.
  rewrite blockable_eq. unfold clr. apply Z.bits_inj'. intros n Hn. rewrite Z.land_spec, Z.ldiff_spec, Z.bits_0.
  by destruct (Z.testbit m n), (Z.testbit UNBLOCKABLE n).
Qed.

Lemma handler_insert_ok c sig h : pcb_ok c -> 1 <= sig -> sig <> SIGKILL -> sig <> SIGSTOP ->
  pcb_ok (c <| p_handler := zinsert sig h (p_handler c) |>).
Proof.
  intros Hc H1 Hk Hs. destruct Hc as [F1 F2 Hl K S B1 B2 W].
  split; cbn; try assumption.
  - unfold zinsert. by rewrite length_insert.
  - change (zget (zinsert sig h (p_handler c)) SIGKILL = 0).
    rewrite zget_zinsert_other; [exact K|lia|discriminate|done].
  - change (zget (zinsert sig h (p_handler c)) SIGSTOP = 0).
    rewrite zget_zinsert_other; [exact S|lia|discriminate|done].
Qed.

Lemma zget_map_zero (f : Z -> Z) l i : f 0 = 0 -> zget l i = 0 -> zget (map f l) i = 0.
Proof.
  intros Hf. unfold zget, zlookup. destruct (i <? 0); [done|]. rewrite list_lookup_fmap.
  destruct (l !! Z.to_nat i); cbn; [intros ->; done|done].
Qed.

Section Process.
Context {H : Type} `{Host H}.

Lemma keep_read_exact_loop n fd k g l : steps (@kR H) (read_exact_loop n fd k g l).
Proof. revert g l. induction n as [|n IH]; intros g l; cbn [read_exact_loop]; keep_tac. Qed.
Hint Resolve keep_read_exact_loop : keep.
Lemma keep_read_exact_at fd o n : steps (@kR H) (read_exact_at fd o n).
Proof. unfold read_exact_at. keep_tac. Qed.
Lemma keep_load_stream n p fd v f d : steps (@kR H) (load_stream n p fd v f d).
Proof. revert d. induction n as [|n IH]; intros d; cbn [load_stream]; keep_tac. Qed.
Hint Resolve keep_read_exact_at keep_load_stream : keep.
Lemma keep_load_segment p fd l so t : steps (@kR H) (load_segment p fd l so t).
Proof. unfold load_segment. keep_tac. Qed.
Hint Resolve keep_load_segment : keep.
Lemma keep_load_segment_loop n p fd l sh i t : steps (@kR H) (load_segment_loop n p fd l sh i t).
Proof. revert i t. induction n as [|n IH]; intros i t; cbn [load_segment_loop]; keep_tac. Qed.
Hint Resolve keep_load_segment_loop : keep.
Lemma keep_load_segments p l : steps (@kR H) (load_segments p l).
Proof. unfold load_segments. keep_tac. Qed.
Lemma keep_write_ptrs p a b l : steps (@kR H) (write_ptrs p a b l).
Proof. revert a. induction l as [|o l IH]; intros a; cbn [write_ptrs]; keep_tac. Qed.
Hint Resolve keep_load_segments keep_write_ptrs : keep.
Lemma keep_build_start_block p e : steps (@kR H) (build_start_block p e).
Proof. unfold build_start_block. keep_tac. Qed.
Lemma keep_build_address_space p : steps (@kR H) (build_address_space p).
Proof. unfold build_address_space. keep_tac. Qed.
Lemma keep_alloc_pcb : steps (@kR H) alloc_pcb.
Proof. unfold alloc_pcb. keep_tac. Qed.
Lemma keep_take_pid : steps (@kR H) take_pid.
Proof. unfold take_pid. keep_tac. Qed.
Hint Resolve keep_build_start_block keep_build_address_space keep_alloc_pcb keep_take_pid : keep.

Lemma keep_count_user_pages n t i k : steps (@kR H) (count_user_pages n t i k).
Proof. revert i k. induction n as [|n IH]; intros i k; cbn [count_user_pages]; keep_tac. Qed.
Hint Resolve keep_count_user_pages : keep.
Lemma keep_fork_needed n t i k : steps (@kR H) (fork_needed n t i k).
Proof. revert i k. induction n as [|n IH]; intros i k; cbn [fork_needed]; keep_tac. Qed.
Lemma keep_memcpy_loop n d a : steps (@kR H) (memcpy_loop n d a).
Proof. revert d a. induction n as [|n IH]; intros d a; cbn [memcpy_loop]; keep_tac. Qed.
Hint Resolve keep_fork_needed keep_memcpy_loop : keep.
Lemma keep_memcpy d a n : steps (@kR H) (memcpy d a n).
Proof. unfold memcpy. keep_tac. Qed.
Hint Resolve keep_memcpy : keep.
Lemma keep_fork_copy_region a b : steps (@kR H) (fork_copy_region a b).
Proof. unfold fork_copy_region. keep_tac. Qed.
Hint Resolve keep_fork_copy_region : keep.
Lemma keep_fork_copy a c : steps (@kR H) (fork_copy a c).
Proof. unfold fork_copy. keep_tac. Qed.
Hint Resolve keep_fork_copy : keep.

(** A child inherits its parent's mask, handlers and directory. *)
Lemma fork_child_ok par pid c : pcb_ok par -> pcb_ok c -> pcb_ok (fork_child par pid c).
Proof. intros [] []. by split. Qed.
Hint Resolve fork_child_ok : keep.
Lemma keep_do_fork : steps (@kR H) do_fork.
Proof. unfold do_fork. keep_tac. Qed.

Lemma keep_has_child a b : steps (@kR H) (has_child a b).
Proof. unfold has_child. keep_tac. Qed.
Lemma keep_wait_scan n i p a b c d : steps (@kR H) (wait_scan n i p a b c d).
Proof. revert i. induction n as [|n IH]; intros i; cbn [wait_scan]; keep_tac. Qed.
Hint Resolve keep_has_child keep_wait_scan : keep.
Lemma keep_do_wait a b c : steps (@kR H) (do_wait a b c).
Proof. unfold do_wait. keep_tac. Qed.
Lemma keep_do_exit n : steps (@kR H) (do_exit n).
Proof. unfold do_exit. keep_tac. Qed.
Hint Resolve keep_do_exit : keep.
Lemma keep_marshal_str n a : steps (@kR H) (marshal_str n a).
Proof. revert a. induction n as [|n IH]; intros a; cbn [marshal_str]; keep_tac. Qed.
Hint Resolve keep_marshal_str : keep.
Lemma keep_marshal_vec n a k : steps (@kR H) (marshal_vec n a k).
Proof. revert k. induction n as [|n IH]; intros k; cbn [marshal_vec]; keep_tac. Qed.
Hint Resolve keep_marshal_vec : keep.

Lemma execve_pcb_ok c l : pcb_ok c ->
  pcb_ok (c <| p_handler := reset_handlers (p_handler c) |> <| p_in_handler := false |>
            <| p_sig_saved_rs := 0 |> <| p_path := l |>).
Proof.
  intros [F1 F2 Hl K S B1 B2 W]. split; cbn; try assumption.
  - unfold reset_handlers. by rewrite length_map.
  - exact (zget_map_zero (fun h => if 1 <? h then 0 else h) (p_handler c) SIGKILL eq_refl K).
  - exact (zget_map_zero (fun h => if 1 <? h then 0 else h) (p_handler c) SIGSTOP eq_refl S).
Qed.
Hint Resolve execve_pcb_ok : keep.
Lemma keep_do_execve a b c : steps (@kR H) (do_execve a b c).
Proof. unfold do_execve. keep_tac. Qed.
Lemma keep_do_kill a b : steps (@kR H) (do_kill a b).
Proof. unfold do_kill. keep_tac. Qed.

Lemma keep_do_rt_sigaction sig a o : steps (@kR H) (do_rt_sigaction sig a o).
Proof.
  unfold do_rt_sigaction. apply steps_bind; [typeclasses eauto|keep_tac|]. intros self.
  destruct (Z.ltb_spec sig 1); cbn [orb]; [keep_tac|]. destruct (31 <? sig); [keep_tac|].
  destruct (Z.eqb_spec sig SIGKILL); [keep_tac|]. destruct (Z.eqb_spec sig SIGSTOP); [keep_tac|].
  assert (Hm : forall h, steps (@kR H) (modp self (fun c => c <| p_handler := zinsert sig h (p_handler c) |>)))
    by (intros h; apply keep_modp; intros; by apply handler_insert_ok).
  keep_tac.
Qed.

Lemma procmask_ok how raw c : pcb_ok c ->
  pcb_ok (if how =? 0 then c <| p_blocked := Z.lor (p_blocked c) (blockable raw) |>
          else if how =? 1 then c <| p_blocked := clr (p_blocked c) (blockable raw) |>
          else if how =? 2 then c <| p_blocked := blockable raw |> else c).
Proof.
  intros Hc. pose proof (blockable_ok raw). destruct Hc as [F1 F2 Hl K S B1 B2 W].
  destruct (how =? 0); [|destruct (how =? 1); [|destruct (how =? 2)]]; split; cbn; try assumption.
  - by apply lor_unblockable.
  - by apply clr_unblockable.
Qed.
Hint Resolve procmask_ok : keep.
Lemma keep_do_rt_sigprocmask how a o : steps (@kR H) (do_rt_sigprocmask how a o).
Proof. unfold do_rt_sigprocmask. keep_tac. Qed.

Lemma suspend_pcb_ok raw c : pcb_ok c ->
  pcb_ok (c <| p_suspend_mask_save := p_blocked c |> <| p_blocked := blockable raw |>).
Proof. pose proof (blockable_ok raw). intros []. by split. Qed.
Hint Resolve suspend_pcb_ok : keep.
Lemma keep_do_rt_sigsuspend a : steps (@kR H) (do_rt_sigsuspend a).
Proof. unfold do_rt_sigsuspend. keep_tac. Qed.
Lemma keep_target_pid a : steps (@kR H) (target_pid a).
Proof. unfold target_pid. keep_tac. Qed.
Hint Resolve keep_target_pid : keep.
Lemma keep_do_setpgid a b : steps (@kR H) (do_setpgid a b).
Proof. unfold do_setpgid. keep_tac. Qed.
Lemma keep_do_getpgid a : steps (@kR H) (do_getpgid a).
Proof. unfold do_getpgid. keep_tac. Qed.

End Process.

#[export] Hint Resolve keep_do_fork keep_do_wait keep_do_exit keep_do_execve keep_do_kill keep_do_rt_sigaction
  keep_do_rt_sigprocmask keep_do_rt_sigsuspend keep_do_setpgid keep_do_getpgid keep_load_segments
  keep_build_start_block keep_build_address_space keep_alloc_pcb keep_take_pid : keep.

(** ** Boot *)
Section Boot.
Context {H : Type} `{Host H}.

Lemma keep_boot_env_loop l n : steps (@kR H) (boot_env_loop l n).
Proof. revert n. induction l as [|a l IH]; intros n; cbn [boot_env_loop]; keep_tac. Qed.
Hint Resolve keep_boot_env_loop : keep.
Lemma keep_boot_env_capture l : steps (@kR H) (boot_env_capture l).
Proof. unfold boot_env_capture. keep_tac. Qed.
Lemma keep_boot_env_extract_init : steps (@kR H) boot_env_extract_init.
Proof. unfold boot_env_extract_init, strip_env. keep_tac. Qed.
Lemma keep_boot_env_extract_verbose : steps (@kR H) boot_env_extract_verbose.
Proof. unfold boot_env_extract_verbose, strip_env. keep_tac. Qed.
Lemma keep_boot_env_add_default k v : steps (@kR H) (boot_env_add_default k v).
Proof. unfold boot_env_add_default. keep_tac. Qed.
Hint Resolve keep_boot_env_add_default : keep.
Lemma keep_boot_env_add_login_defaults : steps (@kR H) boot_env_add_login_defaults.
Proof. unfold boot_env_add_login_defaults. keep_tac. Qed.
Lemma keep_push_entry a b : steps (@kR H) (push_entry a b).
Proof. unfold push_entry. keep_tac. Qed.
Lemma keep_pack_token l : steps (@kR H) (pack_token l).
Proof. unfold pack_token. keep_tac. Qed.
Hint Resolve keep_push_entry keep_pack_token : keep.
Lemma keep_synthesize_default_init : steps (@kR H) synthesize_default_init.
Proof.
  unfold synthesize_default_init. apply steps_bind; [typeclasses eauto|keep_tac|]. intros s. cbv zeta.
  apply steps_bind; [typeclasses eauto| |keep_tac].
  induction (if g_init_path_set s then _ else _) as [|t l IH]; keep_tac.
Qed.
Lemma keep_gather l t b : steps (@kR H) (gather l t b).
Proof. revert t b. induction l as [|a l IH]; intros t b; cbn [gather]; keep_tac. Qed.
Hint Resolve keep_gather : keep.
Lemma keep_boot_args_loop n l d : steps (@kR H) (boot_args_loop n l d).
Proof. revert l d. induction n as [|n IH]; intros l d; cbn [boot_args_loop]; keep_tac. Qed.
Hint Resolve keep_boot_args_loop : keep.
Lemma keep_boot_args_capture l : steps (@kR H) (boot_args_capture l).
Proof. unfold boot_args_capture. keep_tac. Qed.
Lemma keep_push_arg l : steps (@kR H) (push_arg l).
Proof. unfold push_arg. keep_tac. Qed.
Hint Resolve keep_push_arg : keep.
Lemma keep_marshal_tokens l : steps (@kR H) (marshal_tokens l).
Proof. induction l as [|a l IH]; cbn [marshal_tokens]; keep_tac. Qed.
Lemma keep_marshal_env l : steps (@kR H) (marshal_env l).
Proof. induction l as [|a l IH]; cbn [marshal_env]; keep_tac. Qed.
Hint Resolve keep_marshal_tokens keep_marshal_env : keep.
Lemma keep_marshal_boot_entry e : steps (@kR H) (marshal_boot_entry e).
Proof. unfold marshal_boot_entry. keep_tac. Qed.
Hint Resolve keep_marshal_boot_entry : keep.

Lemma spawn_pcb_ok l a b c : pcb_ok c -> pcb_ok (spawn_pcb l a b c).
Proof.
  intros []. split; cbn; try assumption; try reflexivity. right. split; [|cbn; lia].
  exists []. split; [constructor|reflexivity].
Qed.
Hint Resolve spawn_pcb_ok : keep.
Lemma keep_spawn l a b : steps (@kR H) (spawn l a b).
Proof. unfold spawn. keep_tac. Qed.
Hint Resolve keep_spawn : keep.
Lemma keep_spawn_entry i : steps (@kR H) (spawn_entry i).
Proof. unfold spawn_entry. keep_tac. Qed.
Hint Resolve keep_boot_env_capture keep_boot_env_extract_init keep_boot_env_extract_verbose
  keep_boot_env_add_login_defaults keep_boot_args_capture keep_synthesize_default_init keep_spawn_entry : keep.
Lemma keep_quesos_main argv envp : steps (@kR H) (quesos_main argv envp).
Proof. unfold quesos_main. keep_tac. Qed.

End Boot.

(** ** Traps *)
Section Dispatch.
Context {H : Type} `{Host H}.

Lemma keep_result m : steps (@kR H) m -> steps kR (result m).
Proof. intros Hm. unfold result. keep_tac. Qed.
Hint Resolve keep_result : keep.
Lemma keep_unhandled n : steps (@kR H) (unhandled n).
Proof. unfold unhandled. keep_tac. Qed.
Hint Resolve keep_unhandled : keep.
Lemma keep_syscall_table n a0 a1 a2 a3 a4 : steps (@kR H) (syscall_table n a0 a1 a2 a3 a4).
Proof. unfold syscall_table, do_rt_sigreturn, result. keep_tac. Qed.
Hint Resolve keep_syscall_table : keep.
Lemma keep_quesos_syscall : steps (@kR H) quesos_syscall.
Proof. unfold quesos_syscall. keep_tac. Qed.
Hint Resolve keep_quesos_syscall : keep.
Lemma keep_syscall_trap rs : steps (@kR H) (syscall_trap rs).
Proof. unfold syscall_trap. keep_tac. Qed.
Lemma keep_preempt : steps (@kR H) preempt.
Proof. unfold preempt. keep_tac. Qed.
Lemma keep_irq_save rs : steps (@kR H) (irq_save rs).
Proof. unfold irq_save. keep_tac. Qed.
Hint Resolve keep_preempt : keep.
Lemma keep_quesos_timer_tick : steps (@kR H) quesos_timer_tick.
Proof. unfold quesos_timer_tick. keep_tac. Qed.
Lemma keep_quesos_keyboard_tick : steps (@kR H) quesos_keyboard_tick.
Proof. unfold quesos_keyboard_tick. keep_tac. Qed.
Lemma keep_quesos_console_irq : steps (@kR H) quesos_console_irq.
Proof. unfold quesos_console_irq. keep_tac. Qed.
Lemma keep_quesos_page_fault a b c d e : steps (@kR H) (quesos_page_fault a b c d e).
Proof. unfold quesos_page_fault. keep_tac. Qed.

End Dispatch.

#[export] Hint Resolve keep_quesos_main keep_quesos_syscall keep_syscall_trap keep_irq_save keep_quesos_timer_tick
  keep_quesos_keyboard_tick keep_quesos_console_irq keep_quesos_page_fault : keep.
