(* ===== verification/Machine.v ===== *)
(** * The machine: traps, user code and devices interleaved

    Between two entries to the kernel anything may happen: user code changes
    memory, devices change the host.  The kernel is entered at boot, by a
    system call, one of three interrupts, or a page fault, and each entry runs
    to the point where control leaves the C code.

    The kernel's tables are static storage of its image; in the model they are
    fields of the state, apart from the memory [g_mem].  A store through a user
    pointer that lands in the image would change them in a way the model does
    not follow, and the kernel does not exclude it (user_store_reaches_kernel
    in SpaceProps.v).  [reachable] therefore closes the initial state under the
    steps that leave the bytes of the kernel image alone, whatever they hold,
    and whose outcome the model follows (not an index outside a table, [Wild],
    nor a page loop without end); the well-formedness invariant holds in every
    state so reachable. *)
From Stdlib Require Import ZArith Lia Bool String.
From stdpp Require Import base list numbers.
From S2P Require Import Prelude Monad State Memory Support Paging Files Signals FileCalls VmCalls Sockets Process Boot Dispatch.
From S2P Require Import Dispatch Paths FrameLemmas KInv KInvCalls.

(** The entry of the image, and the entries of the trap table the kernel
    installs, with what the trampoline passes on. *)
Inductive trap : Type :=
  | T_boot (argv envp : list (list Z))
  | T_syscall (rs : Z)
  | T_timer (rs : Z)
  | T_console (rs : Z)
  | T_keyboard (rs : Z)
  | T_page_fault (va err pc rf rs : Z).

Section Machine.
Context {H : Type} `{Host H}.

Definition enter (t : trap) : M (kst H) unit :=
  match t with
  | T_boot argv envp => quesos_main argv envp
  | T_syscall rs => syscall_trap rs
  | T_timer rs => irq_save rs ;; quesos_timer_tick
  | T_console rs => irq_save rs ;; quesos_console_irq
  | T_keyboard rs => irq_save rs ;; quesos_keyboard_tick
  | T_page_fault va err pc rf rs => quesos_page_fault va err pc rf rs
  end.

(** The bytes of the kernel image, where its tables are. *)
Definition in_image (a : Z) : bool := in_range QUESOS_IMG_BASE (QUESOS_IMG_TOP - QUESOS_IMG_BASE) a.

(** [m] stores nothing into the image: whatever the image holds, [k], it holds
    afterwards. *)
Definition with_image (k : mem) (s : kst H) : kst H :=
  s <| g_mem := fun a => if in_image a then k a else g_mem s a |>.
Definition image_untouched (m : M (kst H) unit) (s : kst H) : Prop :=
  forall k a, in_image a = true -> g_mem (snd (m (with_image k s))) a = k a.

(** Outcomes after which the model knows the state of the machine. *)
Definition followed (r : outcome unit) : bool :=
  match r with Stop Wild | Stop (Spin _ _) | Stop OutOfFuel => false | _ => true end.

Inductive reachable : kst H -> Prop :=
  | R_init h : reachable (kst_boot h)
  | R_user s m : reachable s -> (forall a, in_image a = true -> m a = g_mem s a) -> reachable (s <| g_mem := m |>)
  | R_device s h : reachable s -> reachable (s <| g_host := h |>)
  | R_trap s t : reachable s -> image_untouched (enter t) s -> followed (fst (enter t s)) = true ->
      reachable (snd (enter t s)).

Lemma keep_enter t : steps (@kR H) (enter t).
Proof. destruct t; cbn [enter]; keep_tac. Qed.

Lemma pcb_zero_ok : pcb_ok pcb_zero.
Proof.
  split; try reflexivity; [|by left]. apply Forall_replicate. split; [discriminate|reflexivity].
Qed.

Lemma kst_boot_kinv (h : H) : kinv (kst_boot h).
Proof.
  split; try reflexivity; cbn [kst_boot g_current g_stdio_ofd g_proc g_ofd g_pipe].
  - done.
  - repeat (constructor; [split; [discriminate|reflexivity]|]). constructor.
  - apply Forall_replicate. exact pcb_zero_ok.
  - apply Forall_replicate. exact I.
  - apply Forall_replicate. split; [reflexivity|split; [discriminate|reflexivity]|reflexivity|split; discriminate].
Qed.

Lemma reachable_inv s : reachable s -> kinv s.
Proof.
  induction 1 as [h|s m _ IH|s h _ IH|s t _ IH].
  - apply kst_boot_kinv.
  - by apply kR_mem.
  - by apply kR_host.
  - by apply keep_enter.
Qed.


Lemma unblockable_bits m : Z.land m UNBLOCKABLE = 0 ->
  Z.testbit m (SIGKILL - 1) = false /\ Z.testbit m (SIGSTOP - 1) = false.
Proof.
  intros E. split.
  - apply (f_equal (fun z => Z.testbit z (SIGKILL - 1))) in E. rewrite Z.land_spec, Z.bits_0 in E.
    change (Z.testbit UNBLOCKABLE (SIGKILL - 1)) with true in E. by rewrite andb_true_r in E.
  - apply (f_equal (fun z => Z.testbit z (SIGSTOP - 1))) in E. rewrite Z.land_spec, Z.bits_0 in E.
    change (Z.testbit UNBLOCKABLE (SIGSTOP - 1)) with true in E. by rewrite andb_true_r in E.
Qed.

(** SIGKILL and SIGSTOP can be neither blocked, nor ignored, nor caught:
    in every reachable state every process has both unblocked (in its current
    mask and in the mask a pending sigsuspend will restore) and their
    dispositions are SIG_DFL. *)
Theorem kill_and_stop_untouchable s i c : reachable s -> g_proc s !! i = Some c ->
  Z.testbit (p_blocked c) (SIGKILL - 1) = false /\ Z.testbit (p_blocked c) (SIGSTOP - 1) = false /\
  Z.testbit (p_suspend_mask_save c) (SIGKILL - 1) = false /\
  Z.testbit (p_suspend_mask_save c) (SIGSTOP - 1) = false /\
  handler c SIGKILL = 0 /\ handler c SIGSTOP = 0.
Proof.
  intros Hr Hc. apply reachable_inv in Hr. pose proof (Forall_lookup_1 _ _ _ _ (ki_procs _ Hr) Hc) as Hok.
  destruct (unblockable_bits _ (pk_blocked _ Hok)). destruct (unblockable_bits _ (pk_suspend _ Hok)).
  repeat split; try assumption; apply Hok.
Qed.

(** A working directory is canonical: in every reachable state the cwd of
    a process is unset (a slot never used) or an absolute path with no empty,
    "." or ".." component, which fits its buffer and is its own
    normalisation. *)
Theorem cwd_always_canonical s i c : reachable s -> g_proc s !! i = Some c ->
  p_cwd c = [] \/
  (absolute (p_cwd c) /\ canonical (p_cwd c) /\ (length (p_cwd c) <= 255)%nat /\
   normalize_path (p_cwd c) = p_cwd c).
Proof.
  intros Hr Hc. apply reachable_inv in Hr. pose proof (Forall_lookup_1 _ _ _ _ (ki_procs _ Hr) Hc) as Hok.
  destruct (pk_cwd _ Hok) as [E|[Hcan Hl]]; [by left|]. right. split; [|split; [|split]]; try done.
  - destruct Hcan as (st & _ & ->). apply print_absolute.
  - by apply normalize_fixpoint.
Qed.

(** A descriptor lookup never goes out of bounds: in every reachable
    state, for every process slot and every descriptor number a system call
    can pass (an unsigned argument), [fd_ofd] returns, with the state
    unchanged, and what it returns is an entry of the open-file table. *)
Theorem fd_lookup_in_bounds s p fd : reachable s -> (p < QUESOS_MAX_PROC)%nat -> 0 <= fd ->
  exists r, fd_ofd p fd s = (Ret r, s) /\
    match r with
    | None => QUESOS_MAX_FD <= fd \/ exists c, g_proc s !! p = Some c /\ zget (p_fd c) fd = -1
    | Some (i, o) => 0 <= i < Z.of_nat QUESOS_MAX_OFD /\ g_ofd s !! Z.to_nat i = Some o
    end.
Proof.
  intros Hr Hp Hfd. apply reachable_inv in Hr.
  destruct (lookup_lt_is_Some_2 (g_proc s) p ltac:(by rewrite (ki_proc _ Hr))) as [c Hc].
  pose proof (Forall_lookup_1 _ _ _ _ (ki_procs _ Hr) Hc) as Hok.
  unfold fd_ofd. rewrite (bind_ret_run (getp p) _ s c s) by (unfold getp; by rewrite Hc).
  destruct (Z.leb_spec QUESOS_MAX_FD fd) as [Hge|Hlt].
  { exists None. split; [done|]. left. lia. }
  pose proof (pcb_fd_ok c fd Hok) as [F1 F2]. destruct (Z.ltb_spec (zget (p_fd c) fd) 0) as [Hn|Hn].
  { exists None. split; [done|]. right. exists c. split; [done|lia]. }
  destruct (lookup_lt_is_Some_2 (g_ofd s) (Z.to_nat (zget (p_fd c) fd))) as [o Ho].
  { rewrite (ki_ofd _ Hr). lia. }
  exists (Some (zget (p_fd c) fd, o)). split; [|split; [lia|done]].
  rewrite (bind_ret_run (geto (zget (p_fd c) fd)) _ s o s); [done|].
  unfold geto, zlookup. rewrite (proj2 (Z.ltb_ge _ 0)) by lia. by rewrite Ho.
Qed.

End Machine.

(** ** Exercised: a timer interrupt before any process exists *)

Definition m_tick : kst demo := snd (enter (T_timer 0) (kst_boot demo0)).

Lemma m_tick_reachable : reachable m_tick.
Proof.
  apply R_trap; [constructor| |reflexivity]. intros k a Ha.
  change (g_mem (snd (enter (T_timer 0) (with_image k (kst_boot demo0)))) a)
    with (g_mem (with_image k (kst_boot demo0)) a). cbn. by rewrite Ha.
Qed.


Lemma m_tick_slot i : (i < 24)%nat -> exists c, g_proc m_tick !! i = Some c.
Proof.
  intros Hi. apply lookup_lt_is_Some_2. rewrite (ki_proc _ (reachable_inv _ m_tick_reachable)). exact Hi.
Qed.

Lemma kill_and_stop_witness : exists c, g_proc m_tick !! 0%nat = Some c /\ handler c SIGKILL = 0.
Proof.
  destruct (m_tick_slot 0 ltac:(lia)) as [c Hc]. exists c. split; [exact Hc|].
  destruct (kill_and_stop_untouchable m_tick 0 c m_tick_reachable Hc) as (_ & _ & _ & _ & E & _). exact E.
Defined.

Lemma cwd_canonical_witness : exists c, g_proc m_tick !! 0%nat = Some c /\
  (p_cwd c = [] \/ normalize_path (p_cwd c) = p_cwd c).
Proof.
  destruct (m_tick_slot 0 ltac:(lia)) as [c Hc]. exists c. split; [exact Hc|].
  destruct (cwd_always_canonical m_tick 0 c m_tick_reachable Hc) as [E|(_ & _ & _ & E)]; [by left|by right].
Defined.

Lemma fd_lookup_witness : exists r, fd_ofd 0 5 m_tick = (Ret r, m_tick).
Proof.
  destruct (fd_lookup_in_bounds m_tick 0 5 m_tick_reachable ltac:(unfold QUESOS_MAX_PROC; lia) ltac:(lia))
    as (r & E & _).
  exists r. exact E.
Defined.
