(* ===== verification/Fuel.v ===== *)
(** * The call-depth bound is enough

    [kernel] ties the cycle schedule, raise_on_pcb, deliver_pending_signal
    with a bound on the call depth.  The C code has no such bound: its
    recursion ends because a process that is terminated or stopped on the way
    never comes back to life before the next trap.  Here the same argument
    shows that the bound is never hit.  [safe X m]: started in a state whose
    live (runnable or blocked) processes are all in [X], [m] does not run out
    of fuel and brings no process outside [X] to life.  Delivering a signal
    inside [X] only recurses in a strictly smaller set. *)
From Stdlib Require Import ZArith Lia Bool String.
From stdpp Require Import base list numbers gmap.
From S2P Require Import Prelude Monad State Memory Support Paging Files Signals FrameLemmas KInv.

(** ** Pending signals

    The signals a process can be given now, in the order delivery takes them:
    pending, not blocked, lowest number first. *)
Definition deliverable (c : pcb) : list Z :=
  List.filter (fun sig => Z.testbit (p_pending c) (sig - 1) && negb (Z.testbit (p_blocked c) (sig - 1))) (seqZ 1 64).

Lemma shiftr_testbit m j : 0 <= j -> Z.testbit (Z.shiftr m 1) j = Z.testbit m (j + 1).
Proof. intros Hj. by apply Z.shiftr_spec. Qed.
Lemma land_1_odd m : (Z.land m 1 =? 0) = negb (Z.odd m).
Proof. change 1 with (Z.ones 1). rewrite Z.land_ones by lia. rewrite Zmod_odd. by destruct (Z.odd m). Qed.

Lemma lowest_set_bit_loop_spec fuel : forall m b, 0 < m < bit (Z.of_nat fuel) -> 0 <= b ->
  exists k, lowest_set_bit_loop fuel m b = b + k + 1 /\ 0 <= k < Z.of_nat fuel /\ Z.testbit m k = true /\
    forall j, 0 <= j < k -> Z.testbit m j = false.
Proof.
  induction fuel as [|fuel IH]; intros m b Hm Hb; [change (bit (Z.of_nat 0)) with 1 in Hm; lia|].
  cbn [lowest_set_bit_loop]. rewrite land_1_odd. destruct (Z.odd m) eqn:Eo; cbn [negb].
  - exists 0. rewrite Z.bit0_odd. repeat split; try lia; done.
  - assert (Hs : 0 < Z.shiftr m 1 < bit (Z.of_nat fuel)).
    { rewrite Z.shiftr_div_pow2 by lia. change (2 ^ 1) with 2. unfold bit in *. rewrite Z.shiftl_1_l in *.
      replace (Z.of_nat (S fuel)) with (Z.succ (Z.of_nat fuel)) in Hm by lia. rewrite Z.pow_succ_r in Hm by lia.
      pose proof (Zmod_odd m) as E2. rewrite Eo in E2.
      pose proof (Z.div_mod m 2 ltac:(lia)). split; [|apply Z.div_lt_upper_bound]; lia. }
    destruct (IH _ (b + 1) Hs ltac:(lia)) as (k & -> & Hk & Ht & Hl). exists (k + 1).
    rewrite <- shiftr_testbit by lia. repeat split; try lia; [done|]. intros j Hj.
    destruct (Z.eq_dec j 0) as [->|]; [by rewrite Z.bit0_odd|].
    replace j with ((j - 1) + 1) by lia. rewrite <- shiftr_testbit by lia. apply Hl. lia.
Qed.

Lemma lowest_set_bit_spec m : 0 < m < bit 64 ->
  1 <= lowest_set_bit m <= 64 /\ Z.testbit m (lowest_set_bit m - 1) = true /\
  forall j, 1 <= j < lowest_set_bit m -> Z.testbit m (j - 1) = false.
Proof.
  intros Hm. unfold lowest_set_bit. destruct (lowest_set_bit_loop_spec 64 m 0 Hm) as (k & -> & Hk & Ht & Hl); [lia|].
  replace (0 + k + 1 - 1) with k by lia. split; [lia|]. split; [done|]. intros j Hj. apply Hl. lia.
Qed.


Lemma ready_testbit c k : 0 <= k < 64 ->
  Z.testbit (ready c) k = Z.testbit (p_pending c) k && negb (Z.testbit (p_blocked c) k).
Proof.
  intros Hk. unfold ready, u64. rewrite Z.land_spec, Z.mod_pow2_bits_low, Z.lnot_spec by lia. done.
Qed.
Lemma ready_bound c : ready c <> 0 -> 0 < ready c < bit 64.
Proof.
  intros Hn. unfold bit. rewrite Z.shiftl_1_l.
  assert (E : ready c = ready c mod 2 ^ 64).
  { apply Z.bits_inj'. intros n Hn0. destruct (Z.lt_ge_cases n 64); [by rewrite Z.mod_pow2_bits_low|].
    rewrite Z.mod_pow2_bits_high by lia. unfold ready, u64. rewrite Z.land_spec, Z.mod_pow2_bits_high by lia.
    apply andb_false_r. }
  pose proof (Z.mod_pos_bound (ready c) (2 ^ 64) ltac:(lia)). lia.
Qed.

Lemma filter_seqZ_head (f : Z -> bool) n a x l : 0 <= n -> List.filter f (seqZ a n) = x :: l ->
  a <= x < a + n /\ f x = true /\ (forall j, a <= j < x -> f j = false) /\
  List.filter (fun y => f y && negb (y =? x)) (seqZ a n) = l.
Proof.
  intros Hn. revert a x l. pattern n. apply natlike_ind; [done| |exact Hn]. clear n Hn. intros n Hn IH a x l.
  rewrite seqZ_cons, Z.pred_succ, <- Z.add_1_r by lia. cbn [List.filter]. destruct (f a) eqn:Ea; cbn [andb].
  - intros [= -> <-]. rewrite Z.eqb_refl. cbn [negb]. split; [lia|]. split; [done|]. split; [intros; lia|].
    apply List.filter_ext_in. intros y [Hy _]%list_elem_of_In%elem_of_seqZ.
    rewrite (proj2 (Z.eqb_neq y x)) by lia. apply andb_true_r.
  - intros Hl. destruct (IH _ _ _ Hl) as (Hx & Hf & Hj & Er). split; [lia|]. split; [done|]. split; [|done].
    intros j Hjr. destruct (Z.eq_dec j a) as [->|]; [done|]. apply Hj. lia.
Qed.

Lemma deliverable_nil c : deliverable c = [] -> ready c = 0.
Proof.
  intros Hd. apply Z.bits_inj'. intros k Hk. rewrite Z.bits_0.
  destruct (Z.lt_ge_cases k 64) as [Hlt|Hge].
  - rewrite ready_testbit by lia. destruct (_ && _) eqn:E; [|done]. exfalso.
    assert (Hin : In (k + 1) (deliverable c)); [|by rewrite Hd in Hin].
    apply List.filter_In. split; [apply list_elem_of_In, elem_of_seqZ; lia|].
    by replace (k + 1 - 1) with k by lia.
  - unfold ready, u64. rewrite Z.land_spec, Z.mod_pow2_bits_high by lia. apply andb_false_r.
Qed.

(** Delivery takes the head of the list and leaves the tail. *)
Lemma deliverable_cons c sig l : deliverable c = sig :: l ->
  1 <= sig <= 64 /\ ready c <> 0 /\ lowest_set_bit (ready c) = sig /\
  deliverable (c <| p_pending := clr (p_pending c) (sigbit sig) |>) = l.
Proof.
  unfold deliverable. intros Hd. destruct (filter_seqZ_head _ 64 1 _ _ ltac:(lia) Hd) as (Hs & Hf & Hj & Hl).
  cbv beta in Hf, Hj, Hl. clear Hd.
  assert (Hn : ready c <> 0).
  { intros E. pose proof (ready_testbit c (sig - 1) ltac:(lia)) as T. by rewrite E, Z.bits_0, Hf in T. }
  split; [lia|]. split; [done|]. destruct (lowest_set_bit_spec _ (ready_bound c Hn)) as (Hb & Ht & Hlow).
  split.
  - rewrite ready_testbit in Ht by lia.
    destruct (Z.lt_trichotomy (lowest_set_bit (ready c)) sig) as [Hlt|[E|Hgt]]; [|done|].
    + by rewrite Hj in Ht by lia.
    + specialize (Hlow sig ltac:(lia)). rewrite ready_testbit in Hlow by lia. by rewrite Hf in Hlow.
  - rewrite <- Hl. apply List.filter_ext_in. intros y [Hy _]%list_elem_of_In%elem_of_seqZ.
    change (p_blocked (c <| p_pending := _ |>)) with (p_blocked c).
    change (p_pending (c <| p_pending := ?x |>)) with x. unfold clr, sigbit, bit. rewrite Z.ldiff_spec, Z.shiftl_1_l, Z.pow2_bits_eqb by lia.
    replace (sig - 1 =? y - 1) with (y =? sig) by (destruct (Z.eqb_spec y sig), (Z.eqb_spec (sig - 1) (y - 1)); lia).
    destruct (Z.testbit (p_pending c) (y - 1)), (Z.testbit (p_blocked c) (y - 1)), (y =? sig); done.
Qed.
Lemma deliverable_length c : (length (deliverable c) <= 64)%nat.
Proof. unfold deliverable. etransitivity; [apply List.filter_length_le|]. by rewrite length_seqZ. Qed.

Definition live (c : pcb) : Prop := p_state c = P_RUNNABLE \/ p_state c = P_BLOCKED.

Definition within {H} (X : gset nat) (s : kst H) : Prop :=
  (length (g_proc s) <= QUESOS_MAX_PROC)%nat /\
  forall i c, g_proc s !! i = Some c -> live c -> i ∈ X.

(** How a run may end: not by running out of fuel, and in a page loop without
    end only for a range whose last page is the top one. *)
Definition fair (h : halt) : Prop :=
  match h with
  | OutOfFuel => False
  | Spin va n => page_of (u64 (va + n - 1)) = LAST_PAGE
  | _ => True
  end.

(** From [X] to [Y]. *)
Definition moves {H A} (X Y : gset nat) (m : M (kst H) A) : Prop :=
  forall s, within X s ->
    match m s with (Ret _, s') => within Y s' | (Stop h, _) => fair h end.
Abbreviation safe X := (moves X X).

Lemma parked_live c k : parked c k = true -> live c.
Proof. unfold parked, live. rewrite andb_true_iff, !bool_decide_eq_true. intros [E _]. by right. Qed.
Lemma parked_on_live c k i : parked_on c k i = true -> live c.
Proof. unfold parked_on. rewrite andb_true_iff. intros [E _]. by eapply parked_live. Qed.

Section Combinators.
Context {H : Type} `{Host H}.
Implicit Types (X Y : gset nat) (s : kst H).

Lemma within_mono X Y s : X ⊆ Y -> within X s -> within Y s.
Proof. intros Hs [Hl Hw]. split; [done|]. intros i c Hc Hv. apply Hs. by eapply Hw. Qed.

Lemma moves_bind {A B} X Y Z (m : M (kst H) A) (f : A -> M (kst H) B) :
  moves X Y m -> (forall a, moves Y Z (f a)) -> moves X Z (m ≫= f).
Proof.
  intros Hm Hf s Hw. unfold mbind, M_bind. specialize (Hm s Hw).
  destruct (m s) as [[a|h] s']; [by apply Hf|done].
Qed.
Lemma safe_bind {A B} X (m : M (kst H) A) (f : A -> M (kst H) B) :
  safe X m -> (forall a, safe X (f a)) -> safe X (m ≫= f).
Proof. apply moves_bind. Qed.
(** The continuation may use a fact about the value returned. *)
Lemma safe_bind_val {A B} X (Q : A -> Prop) (m : M (kst H) A) (f : A -> M (kst H) B) :
  safe X m -> (forall s, match m s with (Ret a, _) => Q a | (Stop _, _) => True end) ->
  (forall a, Q a -> safe X (f a)) -> safe X (m ≫= f).
Proof.
  intros Hm Hq Hf s Hw. unfold mbind, M_bind. specialize (Hm s Hw). specialize (Hq s).
  destruct (m s) as [[a|h] s']; [by apply Hf|done].
Qed.
Lemma moves_mono {A} X Y Z (m : M (kst H) A) : moves X Y m -> Y ⊆ Z -> moves X Z m.
Proof. intros Hm Hs s Hw. specialize (Hm s Hw). destruct (m s) as [[a|h] s']; [by eapply within_mono|done]. Qed.

Lemma safe_ret {A} X (a : A) : safe X (mret (M := M (kst H)) a).
Proof. by intros s Hw. Qed.
Lemma safe_mret {A B} X (a : A) (f : A -> M (kst H) B) : safe X (f a) -> safe X (mret a ≫= f).
Proof. done. Qed.
Lemma safe_get X : safe X (get (St := kst H)).
Proof. by intros s Hw. Qed.
Lemma safe_gets {A} X (f : kst H -> A) : safe X (gets f).
Proof. by intros s Hw. Qed.
Lemma safe_stop {A} X h : fair h -> safe X (stop (St := kst H) (A := A) h).
Proof. by intros Hh s Hw. Qed.
Lemma safe_when X b m : (b = true -> safe X m) -> safe X (when (St := kst H) b m).
Proof. destruct b; [auto|]. intros _. apply safe_ret. Qed.
Lemma safe_for X lo n body : (forall i, safe X (body i)) -> safe X (for_ (St := kst H) lo n body).
Proof.
  intros Hb. revert lo. induction n as [|n IH]; intros lo; cbn [for_]; [apply safe_ret|].
  apply safe_bind; [apply Hb|]. intros []. apply IH.
Qed.
Lemma safe_for_break {A} X lo n (body : nat -> M (kst H) (option A)) :
  (forall i, safe X (body i)) -> safe X (for_break lo n body).
Proof.
  intros Hb. revert lo. induction n as [|n IH]; intros lo; cbn [for_break]; [apply safe_ret|].
  apply safe_bind; [apply Hb|]. intros [a|]; [apply safe_ret|apply IH].
Qed.
Lemma safe_assoc {A B C} X Y (m : M (kst H) A) (f : A -> M (kst H) B) (g : B -> M (kst H) C) :
  moves X Y (m ≫= fun a => f a ≫= g) -> moves X Y ((m ≫= f) ≫= g).
Proof. intros Hm s Hw. rewrite bind_assoc_run. by apply Hm. Qed.

(** Changes outside the process table. *)
Lemma safe_modify X (f : kst H -> kst H) : (forall s, g_proc (f s) = g_proc s) -> safe X (modify f).
Proof. intros E s [Hl Hw]. cbn. split; rewrite E; auto. Qed.
Lemma safe_host {A} X (f : H -> A * H) : safe X (host f).
Proof. intros s Hw. unfold host. by destruct (f (g_host s)). Qed.
Lemma safe_host_get {A} X (f : H -> A) : safe X (host_get f).
Proof. apply safe_gets. Qed.
Lemma safe_modo X i f : safe X (modo (H := H) i f).
Proof. intros s Hw. unfold modo. by destruct (zlookup _ i). Qed.
Lemma safe_modq X i f : safe X (modq (H := H) i f).
Proof. intros s Hw. unfold modq. by destruct (zlookup _ i). Qed.
Lemma safe_modb X i f : safe X (modb (H := H) i f).
Proof. intros s Hw. unfold modb. by destruct (zlookup _ i). Qed.
Lemma safe_geto X i : safe X (geto (H := H) i).
Proof. intros s Hw. unfold geto. by destruct (zlookup _ i). Qed.
Lemma safe_getq X i : safe X (getq (H := H) i).
Proof. intros s Hw. unfold getq. by destruct (zlookup _ i). Qed.
Lemma safe_getb X i : safe X (getb (H := H) i).
Proof. intros s Hw. unfold getb. by destruct (zlookup _ i). Qed.
Lemma safe_current X : safe X (current (H := H)).
Proof. intros s Hw. unfold current. by destruct (g_current s). Qed.
Lemma safe_kptr X k a : safe X (kptr (H := H) k a).
Proof.
  intros s Hw. unfold kptr. destruct (g_cr0 s); [|done]. destruct (kernel_identity a); [done|].
  by destruct (sv48_walk _ _ _ _ _).
Qed.

(** Reading a slot: it is in the table, and in [X] if it is live. *)
Lemma moves_getp {B} X Y i (f : pcb -> M (kst H) B) :
  (forall c, (i < QUESOS_MAX_PROC)%nat -> (live c -> i ∈ X) -> moves X Y (f c)) -> moves X Y (getp i ≫= f).
Proof.
  intros Hf s Hw. unfold mbind, M_bind, getp. destruct (g_proc s !! i) as [c|] eqn:E; [|done].
  apply Hf; [|by apply (proj2 Hw)|done]. apply lookup_lt_Some in E. destruct Hw. lia.
Qed.

(** Updating one. *)
Lemma safe_modp X i f :
  (forall c, (i < QUESOS_MAX_PROC)%nat -> (live c -> i ∈ X) -> live (f c) -> i ∈ X) -> safe X (modp (H := H) i f).
Proof.
  intros Hf s Hw. unfold modp. destruct (g_proc s !! i) as [c|] eqn:E; [|done].
  destruct Hw as [Hl Hw]. split; cbn; [by rewrite length_insert|].
  intros j c' Hj Hv. destruct (decide (j = i)) as [->|Hn]; [|rewrite list_lookup_insert_ne in Hj by done; by eapply Hw].
  pose proof (lookup_lt_Some _ _ _ E) as Hi. rewrite list_lookup_insert_eq in Hj by done.
  injection Hj as <-. eapply Hf; [lia| |exact Hv]. intros Hc. by eapply Hw.
Qed.

(** A process leaves the live set. *)
Lemma moves_out X p f : (forall c, ~ live (f c)) -> moves X (X ∖ {[p]}) (modp (H := H) p f).
Proof.
  intros Hf s [Hl Hw]. unfold modp. destruct (g_proc s !! p) as [c|] eqn:E; [|done].
  split; cbn; [by rewrite length_insert|]. intros j c' Hj Hv.
  destruct (decide (j = p)) as [->|Hn].
  - rewrite list_lookup_insert_eq in Hj by (by eapply lookup_lt_Some). injection Hj as <-. by destruct (Hf c).
  - rewrite list_lookup_insert_ne in Hj by done. assert (j ∈ X) by (by eapply Hw). set_solver.
Qed.

End Combinators.

(** ** The automation *)
Create HintDb safe discriminated.
#[export] Hint Constants Opaque : safe.

Ltac in_live_set :=
  solve [ assumption
        | match goal with
          | Hl : live ?c -> _ |- _ => apply Hl; first [ assumption
              | eapply parked_live; eassumption | eapply parked_on_live; eassumption
              | by left | by right ]
          end
        | exfalso; first [ discriminate | match goal with Hv : live _ |- _ => destruct Hv; discriminate end ] ].
#[export] Hint Extern 1 (_ ∈ _) => in_live_set : safe.
Ltac safe_mod :=
  let c := fresh "c" in let Hi := fresh "Hi" in let Hc := fresh "Hc" in let Hv := fresh "Hv" in
  apply safe_modp; intros c Hi Hc Hv; first [ exact (Hc Hv) | in_live_set | solve [eauto with safe] ].

Ltac split_guard :=
  match goal with E : _ && _ = true |- _ => apply andb_true_iff in E as [? ?] end.

Ltac safe_step :=
  lazymatch goal with
  | |- safe _ (mret _ ≫= _) => apply safe_mret
  | |- safe _ ((_ ≫= _) ≫= _) => apply safe_assoc
  | |- safe _ (getp _ ≫= _) => apply moves_getp; intros
  | |- safe _ (modp _ _) => safe_mod
  | |- safe _ (modo _ _) => apply safe_modo
  | |- safe _ (modq _ _) => apply safe_modq
  | |- safe _ (modb _ _) => apply safe_modb
  | |- safe _ (modify _) => apply safe_modify; intros; reflexivity
  | |- safe _ (host_ _) => apply safe_modify; intros; reflexivity
  | |- safe _ (host _) => apply safe_host
  | |- safe _ (host_get _) => apply safe_host_get
  | |- safe _ (geto _) => apply safe_geto
  | |- safe _ (getq _) => apply safe_getq
  | |- safe _ (getb _) => apply safe_getb
  | |- safe _ current => apply safe_current
  | |- safe _ (kptr _ _) => apply safe_kptr
  | |- safe _ (mret _) => apply safe_ret
  | |- safe _ get => apply safe_get
  | |- safe _ (gets _) => apply safe_gets
  | |- safe _ (stop _) => apply safe_stop; first [exact I | by apply Z.eqb_eq]
  | |- safe _ (_ ≫= _) => apply safe_bind
  | |- safe _ (when _ _) => apply safe_when; intros; repeat split_guard
  | |- safe _ (for_ _ _ _) => apply safe_for
  | |- safe _ (for_break _ _ _) => apply safe_for_break
  | |- safe _ (if ?b then _ else _) => destruct b eqn:?; repeat split_guard
  | |- safe _ (match ?x with _ => _ end) => destruct x eqn:?
  | |- safe _ (let x := _ in _) => cbv zeta
  | |- _ ∈ _ => in_live_set
  end.
Ltac safe_tac := repeat first [ progress intros | solve [ eauto 4 with safe ] | safe_step ].

Section Files.
Context {H : Type} `{Host H} (X : gset nat).
Abbreviation safe_ m := (moves (H := H) X X m).
Lemma safe_kload8 a : safe_ (kload8 a).
Proof. unfold kload8. safe_tac. Qed.
Hint Resolve safe_kload8 : safe.
Lemma safe_kload_bytes n a : safe_ (kload_bytes n a).
Proof. revert a. induction n as [|n IH]; intros a; cbn [kload_bytes]; safe_tac. Qed.
Hint Resolve safe_kload_bytes : safe.
Lemma safe_kload n a : safe_ (kload n a).
Proof. unfold kload. safe_tac. Qed.
Hint Resolve safe_kload : safe.
Lemma safe_pte_get t i : safe_ (pte_get t i).
Proof. unfold pte_get. safe_tac. Qed.
Hint Resolve safe_pte_get : safe.
Lemma safe_va_l0 p va : safe_ (va_l0 p va).
Proof. unfold va_l0. safe_tac. Qed.
Hint Resolve safe_va_l0 : safe.
Lemma safe_user_pa p va : safe_ (user_pa p va).
Proof. unfold user_pa. safe_tac. Qed.
Hint Resolve safe_user_pa : safe.
Lemma safe_as_read8 p va : safe_ (as_read8 p va).
Proof. unfold as_read8. safe_tac. Qed.
Hint Resolve safe_as_read8 : safe.
Lemma safe_as_read16 p va : safe_ (as_read16 p va).
Proof. unfold as_read16. safe_tac. Qed.
Hint Resolve safe_as_read16 : safe.
Lemma safe_as_read_loop n p va i v : safe_ (as_read_loop n p va i v).
Proof. revert p va i v. induction n as [|n IH]; intros p va i v; cbn [as_read_loop]; safe_tac. Qed.
Hint Resolve safe_as_read_loop : safe.
Lemma safe_as_read32 p va : safe_ (as_read32 p va).
Proof. unfold as_read32. safe_tac. Qed.
Hint Resolve safe_as_read32 : safe.
Lemma safe_as_read64 p va : safe_ (as_read64 p va).
Proof. unfold as_read64. safe_tac. Qed.
Hint Resolve safe_as_read64 : safe.
Lemma safe_kstore8 a v : safe_ (kstore8 a v).
Proof. unfold kstore8. safe_tac. Qed.
Hint Resolve safe_kstore8 : safe.
Lemma safe_kstore_bytes n a v : safe_ (kstore_bytes n a v).
Proof. revert a v. induction n as [|n IH]; intros a v; cbn [kstore_bytes]; safe_tac. Qed.
Hint Resolve safe_kstore_bytes : safe.
Lemma safe_kstore n a v : safe_ (kstore n a v).
Proof. unfold kstore. safe_tac. Qed.
Hint Resolve safe_kstore : safe.
Lemma safe_pte_set t i v : safe_ (pte_set t i v).
Proof. unfold pte_set. safe_tac. Qed.
Hint Resolve safe_pte_set : safe.
Lemma safe_as_write8 p va v : safe_ (as_write8 p va v).
Proof. unfold as_write8. safe_tac. Qed.
Hint Resolve safe_as_write8 : safe.
Lemma safe_as_write16 p va v : safe_ (as_write16 p va v).
Proof. unfold as_write16. safe_tac. Qed.
Hint Resolve safe_as_write16 : safe.
Lemma safe_as_write32 p va v : safe_ (as_write32 p va v).
Proof. unfold as_write32. safe_tac. Qed.
Hint Resolve safe_as_write32 : safe.
Lemma safe_as_write64 p va v : safe_ (as_write64 p va v).
Proof. unfold as_write64. safe_tac. Qed.
Hint Resolve safe_as_write64 : safe.
Lemma safe_sys_bulk_set d v n : safe_ (sys_bulk_set d v n).
Proof. unfold sys_bulk_set. safe_tac. Qed.
Hint Resolve safe_sys_bulk_set : safe.
Lemma safe_sys_bulk_copy d a n : safe_ (sys_bulk_copy d a n).
Proof. unfold sys_bulk_copy. safe_tac. Qed.
Hint Resolve safe_sys_bulk_copy : safe.
Lemma safe_memset_loop n d v : safe_ (memset_loop n d v).
Proof. revert d v. induction n as [|n IH]; intros d v; cbn [memset_loop]; safe_tac. Qed.
Hint Resolve safe_memset_loop : safe.
Lemma safe_memset d v n : safe_ (memset d v n).
Proof. unfold memset. safe_tac. Qed.
Hint Resolve safe_memset : safe.
Lemma safe_memcpy_loop n d a : safe_ (memcpy_loop n d a).
Proof. revert d a. induction n as [|n IH]; intros d a; cbn [memcpy_loop]; safe_tac. Qed.
Hint Resolve safe_memcpy_loop : safe.
Lemma safe_memcpy d a n : safe_ (memcpy d a n).
Proof. unfold memcpy. safe_tac. Qed.
Hint Resolve safe_memcpy : safe.
Lemma safe_qos_puts l : safe_ (qos_puts l).
Proof. unfold qos_puts. safe_tac. Qed.
Hint Resolve safe_qos_puts : safe.
Lemma safe_alloc_frame : safe_ alloc_frame.
Proof. unfold alloc_frame. safe_tac. Qed.
Hint Resolve safe_alloc_frame : safe.
Lemma safe_ensure_l0 p va : safe_ (ensure_l0 p va).
Proof. unfold ensure_l0. safe_tac. Qed.
Hint Resolve safe_ensure_l0 : safe.
Lemma safe_map_user_page p va f : safe_ (map_user_page p va f).
Proof. unfold map_user_page. safe_tac. Qed.
Hint Resolve safe_map_user_page : safe.
Lemma safe_ensure_user_page p va : safe_ (ensure_user_page p va).
Proof. unfold ensure_user_page. safe_tac. Qed.
Hint Resolve safe_ensure_user_page : safe.
Lemma safe_ensure_user_range p a b : safe_ (ensure_user_range p a b).
Proof. unfold ensure_user_range. safe_tac. Qed.
Hint Resolve safe_ensure_user_range : safe.
Lemma safe_as_write_list p va l : safe_ (as_write_list p va l).
Proof. revert p va. induction l as [|b l IH]; intros p va; cbn [as_write_list]; safe_tac. Qed.
Hint Resolve safe_as_write_list : safe.
Lemma safe_fd_ready p fd e : safe_ (fd_ready p fd e).
Proof. unfold fd_ready. safe_tac. Qed.
Hint Resolve safe_fd_ready : safe.
Lemma safe_poll_scan n p b base i k : safe_ (poll_scan n p b base i k).
Proof. revert p b base i k. induction n as [|n IH]; intros p b base i k; cbn [poll_scan]; safe_tac. Qed.
Hint Resolve safe_poll_scan : safe.
Lemma safe_select_scan n p a b fd r w k : safe_ (select_scan n p a b fd r w k).
Proof. revert p a b fd r w k. induction n as [|n IH]; intros p a b fd r w k; cbn [select_scan]; safe_tac. Qed.
Hint Resolve safe_select_scan : safe.
Lemma safe_poll_evaluate p b : safe_ (poll_evaluate p b).
Proof. unfold poll_evaluate. safe_tac. Qed.
Hint Resolve safe_poll_evaluate : safe.

(** *** Wake-ups: only a parked process is woken *)
Lemma safe_wake_with p rv : p ∈ X -> safe_ (wake_with p rv).
Proof. intros Hp. unfold wake_with. safe_tac. Qed.
Hint Resolve safe_wake_with : safe.
Lemma safe_poll_recheck_loop n i k : safe_ (poll_recheck_loop n i k).
Proof. revert i k. induction n as [|n IH]; intros i k; cbn [poll_recheck_loop]; safe_tac. Qed.
Lemma safe_poll_recheck_all : safe_ poll_recheck_all.
Proof. apply safe_poll_recheck_loop. Qed.
Lemma safe_find_by_pid pid : safe_ (find_by_pid pid).
Proof. apply safe_gets. Qed.
Hint Resolve safe_poll_recheck_all safe_find_by_pid : safe.

(** The loops over a ring: a turn takes a byte out, or puts one in. *)
Lemma fetch_loop_ends pi d u k n : forall j (s : kst H) q, within X s -> zlookup (g_pipe s) pi = Some q ->
  Z.max 0 (q_count q) < Z.of_nat n ->
  match fetch_loop n pi d u k j s with (Ret _, s') => within X s' | (Stop h, _) => fair h end.
Proof.
  induction n as [|n IH]; intros j s q Hw Eq Hn; [lia|]. cbn [fetch_loop].
  unfold mbind, M_bind, getq. rewrite Eq. destruct (_ && _) eqn:Eg; [|done].
  apply andb_true_iff in Eg as [_ Eg%Z.ltb_lt].
  pose proof (as_write8_pipes d (u64 (u + j)) (zget (q_buf q) (q_r q)) s) as Ep.
  pose proof (safe_as_write8 d (u64 (u + j)) (zget (q_buf q) (q_r q)) s Hw) as Hw1.
  destruct (as_write8 _ _ _ s) as [[[]|h] s1]; cbn [snd] in Ep; [|done].
  unfold modq. rewrite Ep, Eq. eapply IH; [exact Hw1|cbn; by eapply zlookup_zinsert|cbn; lia].
Qed.
Lemma deposit_loop_ends pi d u k n : forall j (s : kst H) q, within X s -> zlookup (g_pipe s) pi = Some q ->
  Z.max 0 (PIPE_CAP - q_count q) < Z.of_nat n ->
  match deposit_loop n pi d u k j s with (Ret _, s') => within X s' | (Stop h, _) => fair h end.
Proof.
  induction n as [|n IH]; intros j s q Hw Eq Hn; [lia|]. cbn [deposit_loop].
  unfold mbind, M_bind, getq. rewrite Eq. destruct (_ && _) eqn:Eg; [|done].
  apply andb_true_iff in Eg as [_ Eg%Z.ltb_lt].
  pose proof (as_read8_same d (u64 (u + j)) s) as Ep. pose proof (safe_as_read8 d (u64 (u + j)) s Hw) as Hw1.
  destruct (as_read8 d (u64 (u + j)) s) as [[b|h] s1]; cbn [snd] in Ep; subst; [|done].
  unfold modq. rewrite Eq. eapply IH; [exact Hw1|cbn; by eapply zlookup_zinsert|cbn; lia].
Qed.
Lemma safe_recheck_tail n : safe_ (when (0 <? n) (poll_recheck_all ;; mret tt) ;; mret n).
Proof. safe_tac. Qed.
Lemma safe_pipe_fetch pi d u k : safe_ (pipe_fetch pi d u k).
Proof.
  intros s Hw. unfold pipe_fetch, mbind at 1, M_bind at 1, getq at 1. destruct (zlookup (g_pipe s) pi) as [q|] eqn:E; [|done].
  pose proof (fetch_loop_ends pi d u k (S (Z.to_nat (q_count q))) 0 s q Hw E ltac:(lia)) as L.
  unfold mbind at 1, M_bind at 1. destruct (fetch_loop _ _ _ _ _ _ s) as [[n|h] s']; [by apply safe_recheck_tail|done].
Qed.
Lemma safe_pipe_deposit pi d u k : safe_ (pipe_deposit pi d u k).
Proof.
  intros s Hw. unfold pipe_deposit, mbind at 1, M_bind at 1, getq at 1. destruct (zlookup (g_pipe s) pi) as [q|] eqn:E; [|done].
  pose proof (deposit_loop_ends pi d u k (S (Z.to_nat (PIPE_CAP - q_count q))) 0 s q Hw E ltac:(lia)) as L.
  unfold mbind at 1, M_bind at 1. destruct (deposit_loop _ _ _ _ _ _ s) as [[n|h] s']; [by apply safe_recheck_tail|done].
Qed.
Hint Resolve safe_pipe_fetch safe_pipe_deposit : safe.
Lemma safe_pipe_wake_readers pi : safe_ (pipe_wake_readers pi).
Proof. unfold pipe_wake_readers. safe_tac. Qed.
Hint Resolve safe_pipe_wake_readers : safe.
Lemma safe_pipe_wake_writers pi : safe_ (pipe_wake_writers pi).
Proof. unfold pipe_wake_writers. safe_tac. Qed.
Hint Resolve safe_pipe_wake_writers : safe.

(** The loop over a listener's queue: a turn takes one connector out. *)
Lemma wake_with_binds p rv (s : kst H) : g_unix_bind (snd (wake_with p rv s)) = g_unix_bind s.
Proof.
  exact (steps_wake_with (keeps (@g_unix_bind H)) ltac:(done) ltac:(done) p rv s).
Qed.
Lemma refuse_pending_ends bi n : forall (s : kst H) b, within X s -> zlookup (g_unix_bind s) bi = Some b ->
  Z.max 0 (b_pending_count b) < Z.of_nat n ->
  match refuse_pending n bi s with (Ret _, s') => within X s' | (Stop h, _) => fair h end.
Proof.
  induction n as [|n IH]; intros s b Hw Eb Hn; [lia|]. cbn [refuse_pending].
  unfold mbind, M_bind, getb. rewrite Eb. destruct (Z.ltb_spec 0 (b_pending_count b)) as [Hp|]; [|done].
  unfold find_by_pid, gets, modb. rewrite Eb.
  set (s1 := s <| g_unix_bind := _ |>).
  assert (Hw1 : within X s1) by exact Hw.
  assert (Eb1 : zlookup (g_unix_bind s1) bi = Some (b <| b_pending_head := (b_pending_head b + 1) mod QUESOS_MAX_UNIX_BACKLOG |>
    <| b_pending_count := b_pending_count b - 1 |>)) by (cbn; by eapply zlookup_zinsert).
  clearbody s1. destruct (find_index _ (g_proc s)) as [i|]; [|eapply IH; [done|exact Eb1|cbn; lia]].
  unfold getp. destruct (g_proc s1 !! i) as [c|] eqn:Ec; [|done].
  destruct (parked c BLK_CONNECT) eqn:Epk; cbn [when]; [|eapply IH; [done|exact Eb1|cbn; lia]].
  pose proof (wake_with_binds i (- QOS_ECONNREFUSED) s1) as Ek.
  pose proof (safe_wake_with i (- QOS_ECONNREFUSED) (proj2 Hw1 _ _ Ec (parked_live _ _ Epk)) s1 Hw1) as Hw2.
  destruct (wake_with _ _ s1) as [[[]|h] s2]; [|done]. eapply IH; [done|cbn in Ek; rewrite Ek; exact Eb1|cbn; lia].
Qed.
Lemma safe_refuse_all {B} bi (f : unit -> M (kst H) B) : safe_ (f tt) ->
  safe_ (b ← getb bi; refuse_pending (S (Z.to_nat (b_pending_count b))) bi ≫= f).
Proof.
  intros Hf s Hw. unfold mbind at 1, M_bind at 1, getb at 1. destruct (zlookup _ bi) as [b|] eqn:E; [|done].
  pose proof (refuse_pending_ends bi (S (Z.to_nat (b_pending_count b))) s b Hw E ltac:(lia)) as L.
  unfold mbind, M_bind. destruct (refuse_pending _ _ s) as [[[]|h] s']; [by apply Hf|done].
Qed.
Lemma safe_drop_reader pi : safe_ (drop_reader pi).
Proof. unfold drop_reader. safe_tac. Qed.
Lemma safe_drop_writer pi : safe_ (drop_writer pi).
Proof. unfold drop_writer. safe_tac. Qed.
Hint Resolve safe_drop_reader safe_drop_writer : safe.
Hint Extern 1 (moves _ _ (getb _ ≫= _)) => (apply safe_refuse_all; safe_tac) : safe.
Lemma safe_ofd_close i o : safe_ (ofd_close i o).
Proof. unfold ofd_close. safe_tac. Qed.
Hint Resolve safe_ofd_close : safe.
Lemma safe_ofd_unref i : safe_ (ofd_unref i).
Proof. unfold ofd_unref. safe_tac. Qed.
Hint Resolve safe_ofd_unref : safe.
Lemma safe_set_fd p i o : safe_ (set_fd p i o).
Proof. unfold set_fd. safe_tac. Qed.
Hint Resolve safe_set_fd : safe.
Lemma safe_fdtable_close_all p : safe_ (fdtable_close_all p).
Proof. unfold fdtable_close_all. safe_tac. Qed.
Lemma safe_ofd_alloc : safe_ ofd_alloc.
Proof. unfold ofd_alloc. safe_tac. Qed.
Lemma safe_ofd_ref i : safe_ (ofd_ref i).
Proof. unfold ofd_ref. safe_tac. Qed.
Lemma safe_fd_ofd p fd : safe_ (fd_ofd p fd).
Proof. unfold fd_ofd. safe_tac. Qed.
Lemma safe_fd_alloc_slot p : safe_ (fd_alloc_slot p).
Proof. unfold fd_alloc_slot. safe_tac. Qed.
Hint Resolve safe_ofd_alloc safe_ofd_ref : safe.
Lemma safe_fdtable_init p : safe_ (fdtable_init p).
Proof. unfold fdtable_init. safe_tac. Qed.
Lemma safe_fdtable_copy p q : safe_ (fdtable_copy p q).
Proof. unfold fdtable_copy. safe_tac. Qed.
Lemma safe_ofd_init : safe_ ofd_init.
Proof. unfold ofd_init. safe_tac. Qed.
Lemma safe_run_walk emit p va e pv n r :
  (forall a b c, safe_ (emit a b c)) -> safe_ (run_walk emit p va e pv n r).
Proof. intros He. revert pv r. induction n as [|n IH]; intros pv r; cbn [run_walk]; unfold flush; safe_tac. Qed.
Lemma safe_walk_runs emit p va n : (forall a b c, safe_ (emit a b c)) -> safe_ (walk_runs emit p va n).
Proof. intros He. unfold walk_runs. safe_tac. by apply safe_run_walk. Qed.
Lemma safe_as_write_bytes p va l n : safe_ (as_write_bytes p va l n).
Proof. apply safe_walk_runs. intros a b c. unfold bulk_copy_in. safe_tac. Qed.
Lemma safe_as_fill_bytes p va b n : safe_ (as_fill_bytes p va b n).
Proof. apply safe_walk_runs. safe_tac. Qed.

(** *** The leaves of signal delivery *)
Lemma safe_quesos_switch_to {A} p : safe_ (quesos_switch_to (A := A) p).
Proof. unfold quesos_switch_to. safe_tac. Qed.
Lemma safe_push_signal_frame p sig : safe_ (push_signal_frame p sig).
Proof. unfold push_signal_frame. safe_tac. Qed.
Lemma safe_deliver_wait p c : p ∈ X -> safe_ (deliver_wait p c).
Proof. intros Hp. unfold deliver_wait. safe_tac. Qed.
Lemma safe_fb_release_held p : safe_ (fb_release_held p).
Proof. unfold fb_release_held. safe_tac. Qed.
Lemma safe_mirror_lflag l : safe_ (mirror_lflag l).
Proof. unfold mirror_lflag. safe_tac. Qed.
Hint Resolve safe_mirror_lflag : safe.
Lemma safe_restore_console_on_death p : safe_ (restore_console_on_death p).
Proof. unfold restore_console_on_death. safe_tac. Qed.
Lemma safe_put_each l : safe_ (put_each l).
Proof. induction l as [|c l IH]; cbn [put_each]; safe_tac. Qed.
Hint Resolve safe_put_each : safe.
Lemma safe_qos_put_u64 v : safe_ (qos_put_u64 v).
Proof. unfold qos_put_u64. safe_tac. Qed.
Lemma safe_complete_console p c : p ∈ X -> safe_ (complete_console p c).
Proof. intros Hp. unfold complete_console. safe_tac. Qed.

End Files.

#[export] Hint Resolve safe_ofd_alloc safe_ofd_ref safe_fd_ofd safe_fd_alloc_slot safe_fdtable_init
  safe_fdtable_copy safe_ofd_init safe_as_write_bytes safe_as_fill_bytes : safe.
#[export] Hint Resolve safe_kload8 safe_kload_bytes safe_kload safe_pte_get safe_va_l0 safe_user_pa
  safe_as_read8 safe_as_read16 safe_as_read_loop safe_as_read32 safe_as_read64 safe_kstore8
  safe_kstore_bytes safe_kstore safe_pte_set safe_as_write8 safe_as_write16 safe_as_write32
  safe_as_write64 safe_sys_bulk_set safe_sys_bulk_copy safe_memset_loop safe_memset safe_memcpy_loop
  safe_memcpy safe_qos_puts safe_alloc_frame safe_ensure_l0 safe_map_user_page safe_ensure_user_page
  safe_ensure_user_range safe_as_write_list safe_fd_ready safe_poll_scan safe_select_scan
  safe_poll_evaluate safe_wake_with safe_poll_recheck_all safe_find_by_pid safe_pipe_fetch
  safe_pipe_deposit safe_pipe_wake_readers safe_pipe_wake_writers safe_ofd_close safe_ofd_unref
  safe_set_fd safe_fdtable_close_all safe_quesos_switch_to safe_push_signal_frame safe_deliver_wait
  safe_fb_release_held safe_mirror_lflag safe_restore_console_on_death safe_qos_put_u64
  safe_complete_console : safe.

(** ** Raising and scheduling recurse into delivery only *)
Definition plain_signal (sig : Z) : Prop := sig <> SIGCONT /\ sig <> SIGKILL.

Section Outer.
Context {H : Type} `{Host H} (F : forward H) (X : gset nat)
  (Fd : forall p, p ∈ X -> safe X (fw_deliver_pending_signal F p)).
Hint Resolve Fd : safe.

Lemma safe_complete_sigsuspend p c : p ∈ X -> safe X (complete_sigsuspend F p c).
Proof. intros Hp. unfold complete_sigsuspend. safe_tac. Qed.
Hint Resolve safe_complete_sigsuspend : safe.

Lemma safe_raise_on_pcb p sig : plain_signal sig -> safe X (raise_on_pcb F p sig).
Proof.
  intros [Hc Hk]. unfold raise_on_pcb. rewrite (proj2 (Z.eqb_neq _ _) Hc), (proj2 (Z.eqb_neq _ _) Hk).
  safe_tac.
Qed.

Lemma runnable_live c : bool_decide (p_state c = P_RUNNABLE) = true -> live c.
Proof. intros E%bool_decide_eq_true. by left. Qed.

Lemma safe_schedule_scan base n i : safe X (schedule_scan F base n i).
Proof.
  revert i. induction n as [|n IH]; intros i; cbn [schedule_scan]; [safe_tac|]. cbv zeta.
  apply moves_getp. intros c Hi Hl. apply safe_bind; [|intros []; apply IH].
  apply safe_when. intros Er%runnable_live%Hl. safe_tac.
Qed.
Hint Resolve safe_schedule_scan : safe.
Lemma safe_schedule : safe X (schedule F).
Proof. unfold schedule. safe_tac. Qed.
End Outer.

(** ** Delivery to [p] recurses with [p] gone *)
Section Inner.
Context {H : Type} `{Host H} (F : forward H) (X : gset nat) (p : nat).
Let Y := X ∖ {[p]}.
Context (Fs : safe Y (fw_schedule F))
  (Fr : forall q sig, plain_signal sig -> safe Y (fw_raise_on_pcb F q sig)).
Hint Resolve Fs Fr : safe.

Lemma chld_plain : plain_signal SIGCHLD.
Proof. by split. Qed.
Hint Resolve chld_plain : safe.
Lemma Y_sub : Y ⊆ X.
Proof. subst Y. clear. set_solver. Qed.


(** Once [p] is dead or stopped, the rest runs in the smaller set. *)
Lemma moves_gone {B} f (g : unit -> M (kst H) B) :
  (forall c, p_state (f c) = P_ZOMBIE \/ p_state (f c) = P_STOPPED) -> safe Y (g tt) ->
  moves X Y (modp p f ≫= g).
Proof.
  intros Hf Hg. eapply moves_bind; [apply moves_out|by intros []].
  intros c [E|E]; destruct (Hf c); congruence.
Qed.

Lemma safe_stop_process sig : safe X (stop_process F p sig).
Proof.
  unfold stop_process. apply moves_getp. intros c _ _. apply safe_bind; [safe_tac|]. intros parent.
  eapply moves_mono; [|exact Y_sub]. apply moves_gone; [by right|]. safe_tac.
Qed.

Lemma moves_reap_tail : moves X Y (reap_tail F p).
Proof.
  unfold reap_tail. eapply moves_bind; [apply safe_restore_console_on_death|]. intros [].
  apply moves_gone; [by left|].
  apply safe_bind; [safe_tac|]. intros []. apply safe_bind; [safe_tac|]. intros [].
  apply moves_getp. intros c _ _. apply safe_bind; [safe_tac|]. intros [pa|]; [|safe_tac].
  apply safe_bind; [safe_tac|]. intros []. apply safe_assoc, moves_getp. intros pc _ Hl. apply safe_mret.
  destruct (parked pc BLK_WAIT && _) eqn:E; repeat split_guard; safe_tac.
Qed.

Lemma safe_terminate_by_signal sig : safe X (terminate_by_signal F p sig).
Proof.
  unfold terminate_by_signal. apply safe_bind; [safe_tac|]. intros []. eapply moves_mono; [|exact Y_sub].
  eapply moves_bind; [apply moves_reap_tail|]. safe_tac.
Qed.
Hint Resolve safe_stop_process safe_terminate_by_signal : safe.

(** A turn of the loop takes one deliverable signal, so at most 64 are made. *)
Lemma deliver_loop_ends n : forall s c, within X s -> g_proc s !! p = Some c -> (length (deliverable c) < n)%nat ->
  match deliver_loop F n p s with (Ret _, s') => within X s' | (Stop h, _) => fair h end.
Proof.
  induction n as [|n IH]; intros s c Hw Hc Hn; [lia|]. cbn [deliver_loop].
  unfold mbind, M_bind, getp. rewrite Hc. destruct (Z.eqb_spec (ready c) 0) as [|Hr]; [done|].
  destruct (deliverable c) as [|sig l] eqn:Ed; [by apply deliverable_nil in Ed|].
  destruct (deliverable_cons c sig l Ed) as (_ & _ & -> & El). unfold modp. rewrite Hc.
  set (c' := c <| p_pending := clr (p_pending c) (sigbit sig) |>) in *. set (s' := s <| g_proc := <[p := c']> (g_proc s) |>).
  assert (Hc' : g_proc s' !! p = Some c') by (apply list_lookup_insert_eq; by eapply lookup_lt_Some).
  assert (Hw' : within X s').
  { destruct Hw as [Hl Hw]. split; [cbn; by rewrite length_insert|]. intros i d. cbn.
    intros [[<- [<- _]]|[_ Hd]]%list_lookup_insert_Some; [intros Hv; by eapply (Hw p c)|by apply Hw]. }
  assert (Hrec : match deliver_loop F n p s' with (Ret _, s') => within X s' | (Stop h, _) => fair h end).
  { apply (IH s' c' Hw' Hc'). rewrite El. cbn [length] in Hn. lia. }
  destruct (handler c sig =? 0); [destruct (QOS_DFL_IS_IGNORE sig); [exact Hrec|destruct (QOS_IS_STOP_SIG sig)]|
    destruct (handler c sig =? 1); [exact Hrec|]].
  - by apply safe_stop_process.
  - by apply safe_terminate_by_signal.
  - by apply safe_push_signal_frame.
Qed.
Lemma safe_deliver_loop n : (64 < n)%nat -> safe X (deliver_loop F n p).
Proof.
  intros Hn s Hw. destruct (g_proc s !! p) as [c|] eqn:Hc.
  - apply (deliver_loop_ends n s c Hw Hc). pose proof (deliverable_length c). lia.
  - destruct n as [|n]; [lia|]. cbn [deliver_loop]. unfold mbind, M_bind, getp. by rewrite Hc.
Qed.
Hint Extern 1 (moves _ _ (deliver_loop _ _ _)) => (apply safe_deliver_loop; lia) : safe.
Lemma safe_deliver_pending_signal : safe X (deliver_pending_signal F p).
Proof. unfold deliver_pending_signal. safe_tac. Qed.
End Inner.

(** ** The bound: two calls per live process *)
Section Knot.
Context {H : Type} `{Host H}.

Lemma size_in (X : gset nat) p : p ∈ X -> (0 < size X)%nat.
Proof.
  intros Hp. destruct (size X) eqn:E; [|lia]. apply size_empty_inv in E. set_solver.
Qed.

Lemma kernel_safe n : forall X : gset nat,
  ((2 * size X <= n)%nat -> forall p, p ∈ X -> safe X (fw_deliver_pending_signal (kernel (H := H) n) p)) /\
  ((2 * size X + 1 <= n)%nat -> safe X (fw_schedule (kernel (H := H) n)) /\
     forall p sig, plain_signal sig -> safe X (fw_raise_on_pcb (kernel (H := H) n) p sig)).
Proof.
  induction n as [|n IH]; intros X; split; cbn [kernel fw_deliver_pending_signal fw_schedule fw_raise_on_pcb].
  - intros Hn p Hp. pose proof (size_in X p Hp). lia.
  - lia.
  - intros Hn p Hp. assert (Hs : (2 * size (X ∖ {[p]}) + 1 <= n)%nat).
    { pose proof (size_in X p Hp). rewrite size_difference, size_singleton by (clear -Hp; set_solver). lia. }
    destruct (proj2 (IH _) Hs). by apply safe_deliver_pending_signal.
  - intros Hn. pose proof (proj1 (IH X) ltac:(lia)) as Hd. split; [by apply safe_schedule|].
    intros p sig. by apply safe_raise_on_pcb.
Qed.
End Knot.

(** ** All slots: the calls made from outside the cycle *)
Definition all_slots : gset nat := set_seq 0 QUESOS_MAX_PROC.

Lemma all_in i : (i < QUESOS_MAX_PROC)%nat -> i ∈ all_slots.
Proof. intros Hi. apply elem_of_set_seq. lia. Qed.
#[export] Hint Resolve all_in : safe.
Lemma size_all (X : gset nat) : X ⊆ all_slots -> (size X <= QUESOS_MAX_PROC)%nat.
Proof. intros Hs%subseteq_size. unfold all_slots in Hs. by rewrite size_set_seq in Hs. Qed.

Section All.
Context {H : Type} `{Host H}.
Abbreviation total m := (moves (H := H) all_slots all_slots m).

Lemma wake_with_total p rv : total (wake_with p rv).
Proof. unfold wake_with. safe_tac. Qed.
Lemma deliver_wait_total p c : total (deliver_wait p c).
Proof. unfold deliver_wait. safe_tac. Qed.
Hint Resolve wake_with_total deliver_wait_total : safe.

Lemma raise_loop_total F n i pg sig b : (forall p, total (fw_raise_on_pcb F p sig)) ->
  total (raise_on_pgid_loop F n i pg sig b).
Proof. intros HF. revert i b. induction n as [|n IH]; intros i b; cbn [raise_on_pgid_loop]; safe_tac. Qed.

(** [F] is deep enough. *)
Record deep (F : forward H) : Prop := {
  deep_schedule : forall X, X ⊆ all_slots -> safe X (fw_schedule F);
  deep_raise : forall X p sig, X ⊆ all_slots -> plain_signal sig -> safe X (fw_raise_on_pcb F p sig);
  deep_deliver : forall X p, X ⊆ all_slots -> p ∈ X -> safe X (fw_deliver_pending_signal F p) }.

Lemma kernel_deep n : (2 * QUESOS_MAX_PROC + 1 <= n)%nat -> deep (kernel n).
Proof.
  intros Hn. split; intros X; intros; pose proof (size_all X ltac:(assumption)); apply kernel_safe; try done; lia.
Qed.

Section Deep.
Context (F : forward H) (HF : deep F).

Lemma total_fw_schedule : total (fw_schedule F).
Proof. by apply HF. Qed.
Lemma total_fw_raise p sig : plain_signal sig -> total (fw_raise_on_pcb F p sig).
Proof. by apply HF. Qed.
Lemma total_fw_deliver p : p ∈ all_slots -> total (fw_deliver_pending_signal F p).
Proof. by apply HF. Qed.
Hint Resolve total_fw_schedule total_fw_raise total_fw_deliver : safe.

Lemma signal_fg_group_total sig : plain_signal sig -> total (signal_fg_group F sig).
Proof. intros Hs. unfold signal_fg_group. safe_tac. apply raise_loop_total. safe_tac. Qed.
Lemma control_signal_plain isig b sig : control_signal isig b = Some sig -> plain_signal sig.
Proof. unfold control_signal. repeat case_match; intros [= <-]; by split. Qed.
Hint Resolve signal_fg_group_total control_signal_plain : safe.
Lemma console_service_parked_total r : total (console_service_parked F r).
Proof. unfold console_service_parked. safe_tac. Qed.
Hint Resolve console_service_parked_total : safe.
Lemma ttin_plain : plain_signal SIGTTIN.
Proof. by split. Qed.
Hint Resolve ttin_plain : safe.
Lemma console_settle_park_total p : total (console_settle_park F p).
Proof. unfold console_settle_park. safe_tac. Qed.
Hint Resolve console_settle_park_total : safe.
Lemma raise_sigcont_total p : total (raise_sigcont F p).
Proof. unfold raise_sigcont. safe_tac. Qed.
Lemma complete_sigsuspend_total p c : (p < QUESOS_MAX_PROC)%nat -> total (complete_sigsuspend F p c).
Proof. intros Hp. apply safe_complete_sigsuspend; [apply total_fw_deliver|by apply all_in]. Qed.
Hint Resolve raise_sigcont_total complete_sigsuspend_total : safe.
Lemma raise_on_pcb_total p sig : total (raise_on_pcb F p sig).
Proof. unfold raise_on_pcb. safe_tac. Qed.
Lemma minus_all p : all_slots ∖ {[p]} ⊆ all_slots.
Proof. clear. set_solver. Qed.
Lemma reap_tail_total p : total (reap_tail F p).
Proof.
  eapply moves_mono; [apply moves_reap_tail|apply minus_all].
  intros. apply (deep_raise F HF); [apply minus_all|assumption].
Qed.
Lemma terminate_by_signal_total p sig : total (terminate_by_signal F p sig).
Proof.
  apply safe_terminate_by_signal; [apply (deep_schedule F HF), minus_all|].
  intros. apply (deep_raise F HF); [apply minus_all|assumption].
Qed.
End Deep.

Lemma depth_deep n : (127 <= n)%nat -> deep (kernel n).
Proof. intros Hn. apply kernel_deep. unfold QUESOS_MAX_PROC. lia. Qed.
Lemma DEPTH_deep : deep (kernel DEPTH).
Proof. apply depth_deep. unfold DEPTH. lia. Qed.

(** One turn of the knot. *)
Lemma kernel_S n : kernel (S n) =
  mkForward H (schedule (kernel n)) (raise_on_pcb (kernel n)) (deliver_pending_signal (kernel n)).
Proof. reflexivity. Qed.
Lemma k_schedule_eq : k_schedule = schedule (kernel (H := H) 127).
Proof. unfold k_schedule, DEPTH. by rewrite kernel_S. Qed.
Lemma k_raise_on_pcb_eq : k_raise_on_pcb = raise_on_pcb (kernel (H := H) 127).
Proof. unfold k_raise_on_pcb, DEPTH. by rewrite kernel_S. Qed.
Lemma k_deliver_pending_signal_eq : k_deliver_pending_signal = deliver_pending_signal (kernel (H := H) 127).
Proof. unfold k_deliver_pending_signal, DEPTH. by rewrite kernel_S. Qed.

Lemma k_schedule_total : total k_schedule.
Proof. exact (total_fw_schedule (kernel DEPTH) DEPTH_deep). Qed.
Lemma k_raise_on_pcb_total p sig : total (k_raise_on_pcb p sig).
Proof.
  rewrite k_raise_on_pcb_eq. apply raise_on_pcb_total, depth_deep. lia.
Qed.
Lemma depth_raise_total p sig : total (fw_raise_on_pcb (kernel DEPTH) p sig).
Proof.
  unfold DEPTH. rewrite kernel_S. cbn [fw_raise_on_pcb]. apply raise_on_pcb_total, depth_deep. lia.
Qed.
Lemma k_deliver_pending_signal_total p : total (k_deliver_pending_signal p).
Proof.
  destruct (decide (p < QUESOS_MAX_PROC)%nat) as [Hp|Hp].
  - apply total_fw_deliver; [apply DEPTH_deep|by apply all_in].
  - intros s [Hl _]. rewrite k_deliver_pending_signal_eq. unfold deliver_pending_signal.
    rewrite (bind_stop_run (getp p) _ s Wild s); [done|]. unfold getp. by rewrite lookup_ge_None_2 by lia.
Qed.
Lemma k_raise_on_pgid_total pg sig : total (k_raise_on_pgid pg sig).
Proof. apply raise_loop_total. intros p. apply depth_raise_total. Qed.
Lemma k_reap_tail_total p : total (k_reap_tail p).
Proof. exact (reap_tail_total (kernel DEPTH) DEPTH_deep p). Qed.
Lemma k_terminate_by_signal_total p sig : total (k_terminate_by_signal p sig).
Proof. exact (terminate_by_signal_total (kernel DEPTH) DEPTH_deep p sig). Qed.
Lemma k_signal_fg_group_total sig : total (signal_fg_group (kernel DEPTH) sig).
Proof.
  unfold signal_fg_group. safe_tac. apply raise_loop_total. intros p. apply depth_raise_total.
Qed.
Lemma k_console_service_parked_total r : total (console_service_parked (kernel DEPTH) r).
Proof. apply console_service_parked_total, DEPTH_deep. Qed.

End All.

#[export] Hint Resolve wake_with_total deliver_wait_total k_schedule_total k_raise_on_pcb_total k_deliver_pending_signal_total k_raise_on_pgid_total
  k_reap_tail_total k_terminate_by_signal_total k_signal_fg_group_total k_console_service_parked_total : safe.
