(* ===== verification/FuelCalls.v ===== *)
(** * No entry to the kernel runs out of fuel

    Every system call, interrupt and fault handler, and the boot: what they
    do ends by returning or by one of the C code's own reasons to leave, never
    because the model's call-depth bound was reached. *)
From Stdlib Require Import ZArith Lia Bool String.
From stdpp Require Import base list numbers gmap.
From S2P Require Import Prelude Monad State Memory Support Paging Files Signals FileCalls VmCalls Sockets Process Boot Dispatch.
From S2P Require Import Dispatch FrameLemmas KInv KInvCalls Machine Fuel.

Section FileCalls.
Context {H : Type} `{Host H}.
Abbreviation total m := (moves (H := H) all_slots all_slots m).

Lemma fill_iobuf_total l : total (fill_iobuf l).
Proof. unfold fill_iobuf. safe_tac. Qed.
Hint Resolve fill_iobuf_total : safe.
Lemma sys_read_total fd n : total (sys_read fd n).
Proof. unfold sys_read. safe_tac. Qed.
Hint Resolve sys_read_total : safe.
Lemma kload_list_total n a : total (kload_list n a).
Proof. revert a. induction n as [|n IH]; intros a; cbn [kload_list]; safe_tac. Qed.
Hint Resolve kload_list_total : safe.
Lemma kstore_list_total a l : total (kstore_list a l).
Proof. revert a. induction l as [|b l IH]; intros a; cbn [kstore_list]; safe_tac. Qed.
Hint Resolve kstore_list_total : safe.
Lemma bounce_out_total u n : total (bounce_out u n).
Proof. unfold bounce_out. safe_tac. Qed.
Hint Resolve bounce_out_total : safe.
(** A turn that goes on has delivered a full chunk. *)
Lemma native_write_loop_total n fd u : forall r t, (1 <= n)%nat -> r <= (Z.of_nat n - 1) * QUESOS_IOBUF_CAP ->
  total (native_write_loop n fd u r t).
Proof.
  induction n as [|n IH]; intros r t H1 Hr; [lia|]. cbn [native_write_loop].
  destruct (Z.leb_spec r 0) as [|Hp]; [safe_tac|]. cbv zeta. set (chunk := if _ <? r then _ else r).
  assert (Hch : 0 < chunk <= QUESOS_IOBUF_CAP /\ (chunk = r \/ chunk = QUESOS_IOBUF_CAP)).
  { subst chunk. unfold QUESOS_IOBUF_CAP in *. destruct (Z.ltb_spec 4096 r); lia. }
  apply (safe_bind_val _ (fun k => k = chunk)); [safe_tac| |].
  - intros s. unfold bounce_out, mbind, M_bind. destruct (kload_list _ _ s) as [[l|h] s1]; [|done].
    unfold fill_iobuf, modify, mret, M_ret, clamp_iobuf. destruct (Z.ltb_spec chunk 0); [lia|].
    destruct (Z.ltb_spec QUESOS_IOBUF_CAP chunk); [lia|done].
  - intros k ->. do 2 (apply safe_bind; [safe_tac|intros]). destruct (Z.leb_spec a0 0); [safe_tac|].
    destruct (Z.ltb_spec a0 chunk); [safe_tac|]. apply IH; unfold QUESOS_IOBUF_CAP in *; lia.
Qed.
Lemma native_write_total fd u n : total (native_write fd u n).
Proof.
  unfold native_write. cbv zeta. set (r := if n <? 0 then 0 else n).
  assert (Hr : 0 <= r) by (subst r; destruct (Z.ltb_spec n 0); lia).
  apply native_write_loop_total; [lia|]. pose proof (Z.div_mod r QUESOS_IOBUF_CAP ltac:(discriminate)).
  pose proof (Z.mod_pos_bound r QUESOS_IOBUF_CAP ltac:(reflexivity)).
  pose proof (Z.div_pos r QUESOS_IOBUF_CAP Hr ltac:(reflexivity)). unfold QUESOS_IOBUF_CAP in *. lia.
Qed.
Hint Resolve native_write_total : safe.
Lemma native_read_total fd u n : total (native_read fd u n).
Proof. unfold native_read. safe_tac. Qed.
Hint Resolve native_read_total : safe.
Lemma park_pipe_total s k p u n : total (park_pipe s k p u n).
Proof. unfold park_pipe. safe_tac. Qed.
Hint Resolve park_pipe_total : safe.
Lemma do_write_total fd u n : total (do_write fd u n).
Proof. unfold do_write. safe_tac. Qed.
Hint Resolve do_write_total : safe.
Lemma console_read_total p u n : total (console_read p u n).
Proof. unfold console_read. safe_tac. Qed.
Hint Resolve console_read_total : safe.
Lemma do_read_total fd u n : total (do_read fd u n).
Proof. unfold do_read. safe_tac. Qed.
Hint Resolve do_read_total : safe.
Lemma copy_user_path_loop_total n u : total (copy_user_path_loop n u).
Proof. revert u. induction n as [|n IH]; intros u; cbn [copy_user_path_loop]; safe_tac. Qed.
Hint Resolve copy_user_path_loop_total : safe.
Lemma copy_user_path_total u : total (copy_user_path u).
Proof. apply copy_user_path_loop_total. Qed.
Hint Resolve copy_user_path_total : safe.
Lemma resolve_path_total u : total (resolve_path u).
Proof. unfold resolve_path. safe_tac. Qed.
Hint Resolve resolve_path_total : safe.
Lemma do_open_total u f m : total (do_open u f m).
Proof. unfold do_open. safe_tac. Qed.
Hint Resolve do_open_total : safe.
Lemma forward_struct_total c n e fd u : total (forward_struct c n e fd u).
Proof. unfold forward_struct. safe_tac. Qed.
Hint Resolve forward_struct_total : safe.
Lemma do_fstat_total fd u : total (do_fstat fd u).
Proof. apply forward_struct_total. Qed.
Hint Resolve do_fstat_total : safe.
Lemma do_tcgetattr_total fd u : total (do_tcgetattr fd u).
Proof. apply forward_struct_total. Qed.
Hint Resolve do_tcgetattr_total : safe.
Lemma do_ttysize_total fd u : total (do_ttysize fd u).
Proof. apply forward_struct_total. Qed.
Hint Resolve do_ttysize_total : safe.
Lemma do_lseek_total fd o w : total (do_lseek fd o w).
Proof. unfold do_lseek. safe_tac. Qed.
Hint Resolve do_lseek_total : safe.
Lemma do_getdents64_total fd u n : total (do_getdents64 fd u n).
Proof. unfold do_getdents64. safe_tac. Qed.
Hint Resolve do_getdents64_total : safe.
Lemma do_unlink_total u : total (do_unlink u).
Proof. unfold do_unlink. safe_tac. Qed.
Hint Resolve do_unlink_total : safe.
Lemma do_mkdir_total u m : total (do_mkdir u m).
Proof. unfold do_mkdir. safe_tac. Qed.
Hint Resolve do_mkdir_total : safe.
Lemma do_rename_total u v : total (do_rename u v).
Proof. unfold do_rename. safe_tac. Qed.
Hint Resolve do_rename_total : safe.
Lemma do_ftruncate_total fd n : total (do_ftruncate fd n).
Proof. unfold do_ftruncate. safe_tac. Qed.
Hint Resolve do_ftruncate_total : safe.
Lemma do_chdir_total u : total (do_chdir u).
Proof. unfold do_chdir. safe_tac. Qed.
Hint Resolve do_chdir_total : safe.
Lemma do_getcwd_total u n : total (do_getcwd u n).
Proof. unfold do_getcwd. safe_tac. Qed.
Hint Resolve do_getcwd_total : safe.
Lemma do_uname_total u : total (do_uname u).
Proof. unfold do_uname. safe_tac. Qed.
Hint Resolve do_uname_total : safe.
Lemma do_tcsetattr_total fd o u : total (do_tcsetattr fd o u).
Proof. unfold do_tcsetattr. safe_tac. Qed.
Hint Resolve do_tcsetattr_total : safe.
Lemma do_close_total fd : total (do_close fd).
Proof. unfold do_close. safe_tac. Qed.
Hint Resolve do_close_total : safe.
Lemma do_dup2_total a b : total (do_dup2 a b).
Proof. unfold do_dup2. safe_tac. Qed.
Hint Resolve do_dup2_total : safe.
Lemma do_dup_total a : total (do_dup a).
Proof. unfold do_dup. safe_tac. Qed.
Hint Resolve do_dup_total : safe.
Lemma do_pipe_total u : total (do_pipe u).
Proof. unfold do_pipe. safe_tac. Qed.
Hint Resolve do_pipe_total : safe.
End FileCalls.

#[export] Hint Resolve fill_iobuf_total sys_read_total kload_list_total kstore_list_total
  bounce_out_total native_write_total native_read_total park_pipe_total
  do_write_total console_read_total do_read_total copy_user_path_loop_total copy_user_path_total
  resolve_path_total do_open_total forward_struct_total do_fstat_total do_tcgetattr_total
  do_ttysize_total do_lseek_total do_getdents64_total do_unlink_total do_mkdir_total do_rename_total
  do_ftruncate_total do_chdir_total do_getcwd_total do_uname_total do_tcsetattr_total do_close_total
  do_dup2_total do_dup_total do_pipe_total : safe.

Section VmCalls.
Context {H : Type} `{Host H}.
Abbreviation total m := (moves (H := H) all_slots all_slots m).

Lemma alloc_frames_contig_total n : total (alloc_frames_contig n).
Proof. unfold alloc_frames_contig. safe_tac. Qed.
Hint Resolve alloc_frames_contig_total : safe.
Lemma do_brk_total n : total (do_brk n).
Proof. unfold do_brk. safe_tac. Qed.
Hint Resolve do_brk_total : safe.
Lemma do_fb_geometry_total u : total (do_fb_geometry u).
Proof. unfold do_fb_geometry. safe_tac. Qed.
Hint Resolve do_fb_geometry_total : safe.
Lemma fb_page_count_total : total fb_page_count.
Proof. unfold fb_page_count. safe_tac. Qed.
Hint Resolve fb_page_count_total : safe.
Lemma fb_contig_total n p b k q : total (fb_contig n p b k q).
Proof. revert k q. induction n as [|n IH]; intros k q; cbn [fb_contig]; safe_tac. Qed.
Hint Resolve fb_contig_total : safe.
Lemma fb_free_slot_total n k : total (fb_free_slot n k).
Proof. revert k. induction n as [|n IH]; intros k; cbn [fb_free_slot]; safe_tac. Qed.
Hint Resolve fb_free_slot_total : safe.
Lemma do_fb_register_total u : total (do_fb_register u).
Proof. unfold do_fb_register. safe_tac. Qed.
Hint Resolve do_fb_register_total : safe.
Lemma do_fb_release_total : total do_fb_release.
Proof. unfold do_fb_release. safe_tac. Qed.
Hint Resolve do_fb_release_total : safe.
Lemma do_fb_present_total : total do_fb_present.
Proof. unfold do_fb_present. safe_tac. Qed.
Hint Resolve do_fb_present_total : safe.
Lemma do_kbd_read_total : total do_kbd_read.
Proof. unfold do_kbd_read. safe_tac. Qed.
Hint Resolve do_kbd_read_total : safe.
Lemma bulk_validate_loop_total n p va q b : total (bulk_validate_loop n p va q b).
Proof. revert va q b. induction n as [|n IH]; intros va q b; cbn [bulk_validate_loop]; safe_tac. Qed.
Hint Resolve bulk_validate_loop_total : safe.
Lemma bulk_validate_range_total p u n : total (bulk_validate_range p u n).
Proof. unfold bulk_validate_range. safe_tac. Qed.
Hint Resolve bulk_validate_range_total : safe.
Lemma sys_palette_blit_total d a l n : total (sys_palette_blit d a l n).
Proof. unfold sys_palette_blit. safe_tac. Qed.
Hint Resolve sys_palette_blit_total : safe.
Lemma do_bulk_copy_total d a n : total (do_bulk_copy d a n).
Proof. unfold do_bulk_copy. safe_tac. Qed.
Hint Resolve do_bulk_copy_total : safe.
Lemma do_bulk_set_total d v n : total (do_bulk_set d v n).
Proof. unfold do_bulk_set. safe_tac. apply safe_walk_runs. safe_tac. Qed.
Hint Resolve do_bulk_set_total : safe.
Lemma blit_loop_total n p d a l i : total (blit_loop n p d a l i).
Proof. revert i. induction n as [|n IH]; intros i; cbn [blit_loop]; safe_tac. Qed.
Hint Resolve blit_loop_total : safe.
Lemma do_palette_blit_total d a l n : total (do_palette_blit d a l n).
Proof. unfold do_palette_blit. safe_tac. Qed.
Hint Resolve do_palette_blit_total : safe.
Lemma do_fb_mmap_total : total do_fb_mmap.
Proof. unfold do_fb_mmap. safe_tac. Qed.
Hint Resolve do_fb_mmap_total : safe.
Lemma l0_regions_loop_total l r n k : total (l0_regions_loop l r n k).
Proof. revert r k. induction n as [|n IH]; intros r k; cbn [l0_regions_loop]; safe_tac. Qed.
Hint Resolve l0_regions_loop_total : safe.
Lemma l0_regions_needed_total p va n : total (l0_regions_needed p va n).
Proof. unfold l0_regions_needed. safe_tac. Qed.
Hint Resolve l0_regions_needed_total : safe.
Lemma do_bigalloc_total n : total (do_bigalloc n).
Proof. unfold do_bigalloc. safe_tac. Qed.
Hint Resolve do_bigalloc_total : safe.
End VmCalls.

#[export] Hint Resolve alloc_frames_contig_total do_brk_total do_fb_geometry_total fb_page_count_total
  fb_contig_total fb_free_slot_total do_fb_register_total do_fb_release_total do_fb_present_total
  do_kbd_read_total bulk_validate_loop_total bulk_validate_range_total sys_palette_blit_total
  do_bulk_copy_total do_bulk_set_total blit_loop_total do_palette_blit_total do_fb_mmap_total
  l0_regions_loop_total l0_regions_needed_total do_bigalloc_total : safe.

Section Sockets.
Context {H : Type} `{Host H}.
Abbreviation total m := (moves (H := H) all_slots all_slots m).

Lemma alloc_ring_total : total alloc_ring.
Proof. unfold alloc_ring. safe_tac. Qed.
Hint Resolve alloc_ring_total : safe.
Lemma free_ring_total x : total (free_ring x).
Proof. unfold free_ring. safe_tac. Qed.
Hint Resolve free_ring_total : safe.
Lemma unix_bind_lookup_total l : total (unix_bind_lookup l).
Proof. unfold unix_bind_lookup. safe_tac. Qed.
Hint Resolve unix_bind_lookup_total : safe.
Lemma read_sun_path_loop_total n p u : total (read_sun_path_loop n p u).
Proof. revert u. induction n as [|n IH]; intros u; cbn [read_sun_path_loop]; safe_tac. Qed.
Hint Resolve read_sun_path_loop_total : safe.
Lemma read_sun_path_total p u : total (read_sun_path p u).
Proof. apply read_sun_path_loop_total. Qed.
Hint Resolve read_sun_path_total : safe.
Lemma write_empty_sockaddr_total p u v : total (write_empty_sockaddr p u v).
Proof. unfold write_empty_sockaddr. safe_tac. Qed.
Hint Resolve write_empty_sockaddr_total : safe.
Lemma socket_handshake_total p o : total (socket_handshake p o).
Proof. unfold socket_handshake. safe_tac. Qed.
Hint Resolve socket_handshake_total : safe.
Lemma do_socket_total d t p : total (do_socket d t p).
Proof. unfold do_socket. safe_tac. Qed.
Hint Resolve do_socket_total : safe.
Lemma do_bind_total fd u n : total (do_bind fd u n).
Proof. unfold do_bind. safe_tac. Qed.
Hint Resolve do_bind_total : safe.
Lemma do_listen_total fd n : total (do_listen fd n).
Proof. unfold do_listen. safe_tac. Qed.
Hint Resolve do_listen_total : safe.
Lemma do_connect_total fd u n : total (do_connect fd u n).
Proof. unfold do_connect. safe_tac. Qed.
Hint Resolve do_connect_total : safe.
Lemma do_accept_total fd u n : total (do_accept fd u n).
Proof. unfold do_accept. safe_tac. Qed.
Hint Resolve do_accept_total : safe.
Lemma release_ofd_total o : total (release_ofd o).
Proof. unfold release_ofd. safe_tac. Qed.
Hint Resolve release_ofd_total : safe.
Lemma do_socketpair_total d t p u : total (do_socketpair d t p u).
Proof. unfold do_socketpair. safe_tac. Qed.
Hint Resolve do_socketpair_total : safe.
Lemma do_poll_total u n t : total (do_poll u n t).
Proof. unfold do_poll. safe_tac. Qed.
Hint Resolve do_poll_total : safe.
Lemma do_select_total n r w e t : total (do_select n r w e t).
Proof. unfold do_select. safe_tac. Qed.
Hint Resolve do_select_total : safe.
End Sockets.

#[export] Hint Resolve free_ring_total unix_bind_lookup_total read_sun_path_loop_total
  read_sun_path_total write_empty_sockaddr_total socket_handshake_total do_socket_total do_bind_total
  do_listen_total do_connect_total do_accept_total release_ofd_total do_socketpair_total do_poll_total
  do_select_total : safe.

Section Process.
Context {H : Type} `{Host H}.
Abbreviation total m := (moves (H := H) all_slots all_slots m).

(** A turn of the two reading loops gets at least one byte. *)
Lemma read_exact_loop_total n fd k : forall g l, Z.max 0 (k - g) < Z.of_nat n -> total (read_exact_loop n fd k g l).
Proof.
  induction n as [|n IH]; intros g l Hn; [lia|]. cbn [read_exact_loop].
  destruct (Z.leb_spec k g); [safe_tac|]. apply safe_bind; [safe_tac|]. intros [r data].
  destruct (Z.leb_spec r 0); [safe_tac|]. apply IH. lia.
Qed.
Lemma read_exact_at_total fd o n : total (read_exact_at fd o n).
Proof.
  unfold read_exact_at. apply safe_bind; [safe_tac|]. intros r. destruct (r <? 0); [safe_tac|].
  apply read_exact_loop_total. lia.
Qed.
Hint Resolve read_exact_at_total : safe.
Lemma load_stream_total n p fd v f : forall d, Z.max 0 (f - d) < Z.of_nat n -> total (load_stream n p fd v f d).
Proof.
  induction n as [|n IH]; intros d Hn; [lia|]. cbn [load_stream]. destruct (Z.leb_spec f d); [safe_tac|].
  cbv zeta. apply safe_bind; [safe_tac|]. intros r. destruct (Z.leb_spec r 0); [safe_tac|].
  do 2 (apply safe_bind; [safe_tac|intros]). apply IH. lia.
Qed.
Lemma load_stream_from_total p fd v f : total (load_stream (S (Z.to_nat f)) p fd v f 0).
Proof. apply load_stream_total. lia. Qed.
Hint Resolve load_stream_from_total : safe.
Lemma load_segment_total p fd l so t : total (load_segment p fd l so t).
Proof. unfold load_segment. safe_tac. Qed.
Hint Resolve load_segment_total : safe.
Lemma load_segment_loop_total n p fd l sh i t : total (load_segment_loop n p fd l sh i t).
Proof. revert i t. induction n as [|n IH]; intros i t; cbn [load_segment_loop]; safe_tac. Qed.
Hint Resolve load_segment_loop_total : safe.
Lemma load_segments_total p l : total (load_segments p l).
Proof. unfold load_segments. safe_tac. Qed.
Hint Resolve load_segments_total : safe.
Lemma write_ptrs_total p a b l : total (write_ptrs p a b l).
Proof. revert a. induction l as [|o l IH]; intros a; cbn [write_ptrs]; safe_tac. Qed.
Hint Resolve write_ptrs_total : safe.
Lemma build_start_block_total p e : total (build_start_block p e).
Proof. unfold build_start_block. safe_tac. Qed.
Hint Resolve build_start_block_total : safe.
Lemma build_address_space_total p : total (build_address_space p).
Proof. unfold build_address_space. safe_tac. Qed.
Hint Resolve build_address_space_total : safe.
Lemma alloc_pcb_total : total alloc_pcb.
Proof. unfold alloc_pcb. safe_tac. Qed.
Hint Resolve alloc_pcb_total : safe.
Lemma take_pid_total : total take_pid.
Proof. unfold take_pid. safe_tac. Qed.
Hint Resolve take_pid_total : safe.
Lemma count_user_pages_total n t i k : total (count_user_pages n t i k).
Proof. revert i k. induction n as [|n IH]; intros i k; cbn [count_user_pages]; safe_tac. Qed.
Hint Resolve count_user_pages_total : safe.
Lemma fork_needed_total n t i k : total (fork_needed n t i k).
Proof. revert i k. induction n as [|n IH]; intros i k; cbn [fork_needed]; safe_tac. Qed.
Hint Resolve fork_needed_total : safe.
Lemma fork_copy_region_total a b : total (fork_copy_region a b).
Proof. unfold fork_copy_region. safe_tac. Qed.
Hint Resolve fork_copy_region_total : safe.
Lemma fork_copy_total a c : total (fork_copy a c).
Proof. unfold fork_copy. safe_tac. Qed.
Hint Resolve fork_copy_total : safe.
Lemma do_fork_total : total do_fork.
Proof. unfold do_fork. safe_tac. Qed.
Hint Resolve do_fork_total : safe.
Lemma has_child_total a b : total (has_child a b).
Proof. unfold has_child. safe_tac. Qed.
Hint Resolve has_child_total : safe.
Lemma wait_scan_total n i p a b c d : total (wait_scan n i p a b c d).
Proof. revert i. induction n as [|n IH]; intros i; cbn [wait_scan]; safe_tac. Qed.
Hint Resolve wait_scan_total : safe.
Lemma do_wait_total a b c : total (do_wait a b c).
Proof. unfold do_wait. safe_tac. Qed.
Hint Resolve do_wait_total : safe.
Lemma do_exit_total n : total (do_exit n).
Proof. unfold do_exit. safe_tac. Qed.
Hint Resolve do_exit_total : safe.
(** A turn of the copy loop fills one byte of g_arg_strbuf. *)
Lemma marshal_str_ends n : forall a (s : kst H), within all_slots s ->
  Z.max 0 (QUESOS_ARGBUF - g_arg_pack s) < Z.of_nat n ->
  match marshal_str n a s with (Ret _, s') => within all_slots s' | (Stop h, _) => fair h end.
Proof.
  induction n as [|n IH]; intros a s Hw Hn; [lia|]. cbn [marshal_str].
  assert (Es : snd (kload8 a s) = s) by (apply (steps_kload8 (fun x y : kst H => y = x)); split; congruence || by intros ?).
  pose proof (safe_kload8 all_slots a s Hw) as Hk. unfold mbind, M_bind, gets.
  destruct (kload8 a s) as [[c|h] s1]; cbn in Es; subst s1; [|done].
  destruct (negb (c =? 0) && (g_arg_pack s <? QUESOS_ARGBUF - 1)) eqn:Eg.
  - apply andb_true_iff in Eg as [_ Eg%Z.ltb_lt]. unfold modify. apply IH; [exact Hw|]. cbn. lia.
  - destruct (g_arg_pack s <? QUESOS_ARGBUF); exact Hw || exact I.
Qed.
Lemma marshal_str_total {B} a (f : unit -> M (kst H) B) : total (f tt) ->
  total (pack ← gets g_arg_pack; marshal_str (S (Z.to_nat (QUESOS_ARGBUF - pack))) a ≫= f).
Proof.
  intros Hf s Hw. unfold mbind at 1, M_bind at 1, gets at 1.
  pose proof (marshal_str_ends (S (Z.to_nat (QUESOS_ARGBUF - g_arg_pack s))) a s Hw ltac:(lia)) as L.
  unfold mbind, M_bind. destruct (marshal_str _ a s) as [[[]|h] s']; [by apply Hf|done].
Qed.
Lemma marshal_vec_total n a k : total (marshal_vec n a k).
Proof.
  revert k. induction n as [|n IH]; intros k; cbn [marshal_vec]; [safe_tac|].
  apply safe_bind; [safe_tac|]. intros sp. destruct (sp =? 0); [safe_tac|].
  apply safe_bind; [safe_tac|]. intros []. by apply marshal_str_total.
Qed.
Hint Resolve marshal_vec_total : safe.
Lemma do_execve_total a b c : total (do_execve a b c).
Proof. unfold do_execve. safe_tac. Qed.
Hint Resolve do_execve_total : safe.
Lemma do_kill_total a b : total (do_kill a b).
Proof. unfold do_kill. safe_tac. Qed.
Hint Resolve do_kill_total : safe.
Lemma do_rt_sigaction_total sig a o : total (do_rt_sigaction sig a o).
Proof. unfold do_rt_sigaction. safe_tac. Qed.
Hint Resolve do_rt_sigaction_total : safe.
Lemma do_rt_sigprocmask_total how a o : total (do_rt_sigprocmask how a o).
Proof. unfold do_rt_sigprocmask. safe_tac. Qed.
Hint Resolve do_rt_sigprocmask_total : safe.
Lemma do_rt_sigsuspend_total a : total (do_rt_sigsuspend a).
Proof. unfold do_rt_sigsuspend. safe_tac. Qed.
Hint Resolve do_rt_sigsuspend_total : safe.
Lemma target_pid_total a : total (target_pid a).
Proof. unfold target_pid. safe_tac. Qed.
Hint Resolve target_pid_total : safe.
Lemma do_setpgid_total a b : total (do_setpgid a b).
Proof. unfold do_setpgid. safe_tac. Qed.
Hint Resolve do_setpgid_total : safe.
Lemma do_getpgid_total a : total (do_getpgid a).
Proof. unfold do_getpgid. safe_tac. Qed.
Hint Resolve do_getpgid_total : safe.
End Process.

#[export] Hint Resolve read_exact_at_total load_segment_total
  load_segment_loop_total load_segments_total write_ptrs_total build_start_block_total
  build_address_space_total alloc_pcb_total take_pid_total count_user_pages_total fork_needed_total
  fork_copy_region_total fork_copy_total do_fork_total has_child_total wait_scan_total do_wait_total
  do_exit_total marshal_vec_total do_execve_total do_kill_total do_rt_sigaction_total
  do_rt_sigprocmask_total do_rt_sigsuspend_total target_pid_total do_setpgid_total do_getpgid_total :
  safe.

Section Boot.
Context {H : Type} `{Host H}.
Abbreviation total m := (moves (H := H) all_slots all_slots m).

Lemma boot_env_loop_total l n : total (boot_env_loop l n).
Proof. revert n. induction l as [|a l IH]; intros n; cbn [boot_env_loop]; safe_tac. Qed.
Hint Resolve boot_env_loop_total : safe.
Lemma boot_env_capture_total l : total (boot_env_capture l).
Proof. unfold boot_env_capture. safe_tac. Qed.
Hint Resolve boot_env_capture_total : safe.
Lemma boot_env_extract_init_total : total boot_env_extract_init.
Proof. unfold boot_env_extract_init, strip_env. safe_tac. Qed.
Hint Resolve boot_env_extract_init_total : safe.
Lemma boot_env_extract_verbose_total : total boot_env_extract_verbose.
Proof. unfold boot_env_extract_verbose, strip_env. safe_tac. Qed.
Hint Resolve boot_env_extract_verbose_total : safe.
Lemma boot_env_add_default_total k v : total (boot_env_add_default k v).
Proof. unfold boot_env_add_default. safe_tac. Qed.
Hint Resolve boot_env_add_default_total : safe.
Lemma boot_env_add_login_defaults_total : total boot_env_add_login_defaults.
Proof. unfold boot_env_add_login_defaults. safe_tac. Qed.
Hint Resolve boot_env_add_login_defaults_total : safe.
Lemma push_entry_total a b : total (push_entry a b).
Proof. unfold push_entry. safe_tac. Qed.
Hint Resolve push_entry_total : safe.
Lemma pack_token_total l : total (pack_token l).
Proof. unfold pack_token. safe_tac. Qed.
Hint Resolve pack_token_total : safe.
Lemma synthesize_default_init_total : total synthesize_default_init.
Proof.
  unfold synthesize_default_init. apply safe_bind; [safe_tac|]. intros s. cbv zeta.
  apply safe_bind; [|safe_tac]. induction (if g_init_path_set s then _ else _) as [|t l IH]; safe_tac.
Qed.
Hint Resolve synthesize_default_init_total : safe.
Lemma gather_total l t b : total (gather l t b).
Proof. revert t b. induction l as [|a l IH]; intros t b; cbn [gather]; safe_tac. Qed.
Hint Resolve gather_total : safe.
(** A turn of the outer loop consumes an argument. *)
Lemma gather_rest l : forall t b (s : kst H),
  match gather l t b s with (Ret (rest, _, _), _) => (length rest <= length l)%nat | (Stop _, _) => True end.
Proof.
  induction l as [|a l IH]; intros t b s; cbn [gather]; [exact (Nat.le_refl _)|].
  destruct (is_boot_sep a); [exact (Nat.le_refl _)|]. cbn [length].
  assert (Hle : forall t b (s : kst H), match gather l t b s with (Ret (rest, _, _), _) => (length rest <= S (length l))%nat | (Stop _, _) => True end).
  { intros t' b' s'. specialize (IH t' b' s'). destruct (gather l t' b' s') as [[[[? ?] ?]|] ?]; [lia|done]. }
  destruct b; [apply Hle|]. unfold mbind, M_bind, get. destruct (_ || _); [apply Hle|].
  unfold pack_token, modify. apply Hle.
Qed.
Lemma boot_args_loop_total n : forall l d, (length l < n)%nat -> total (boot_args_loop n l d).
Proof.
  induction n as [|n IH]; intros l d Hn; [lia|]. cbn [boot_args_loop]. destruct l as [|a l]; [safe_tac|].
  apply safe_bind; [safe_tac|]. intros s. cbv zeta.
  apply (safe_bind_val _ (fun r => (length r.1.1 <= length (a :: l))%nat)); [safe_tac| |].
  { intros s1. pose proof (gather_rest (a :: l) 0 false s1) as G. by destruct (gather _ _ _ s1) as [[[[? ?] ?]|] ?]. }
  intros [[rest tok] lost] Hr. cbn [fst length] in Hr, Hn. apply safe_bind; [safe_tac|]. intros k.
  assert (Hrest : (length (match rest with [] => [] | _ :: rest' => rest' end) < n)%nat) by (destruct rest; cbn in *; lia).
  destruct (_ || _); (apply safe_bind; [safe_tac|]; intros []; by apply IH).
Qed.
Lemma boot_args_capture_total l : total (boot_args_capture l).
Proof.
  unfold boot_args_capture. apply safe_bind; [safe_tac|]. intros []. apply safe_bind; [|safe_tac].
  apply boot_args_loop_total. lia.
Qed.
Hint Resolve boot_args_capture_total : safe.
Lemma push_arg_total l : total (push_arg l).
Proof. unfold push_arg. safe_tac. Qed.
Hint Resolve push_arg_total : safe.
Lemma marshal_tokens_total l : total (marshal_tokens l).
Proof. induction l as [|a l IH]; cbn [marshal_tokens]; safe_tac. Qed.
Hint Resolve marshal_tokens_total : safe.
Lemma marshal_env_total l : total (marshal_env l).
Proof. induction l as [|a l IH]; cbn [marshal_env]; safe_tac. Qed.
Hint Resolve marshal_env_total : safe.
Lemma marshal_boot_entry_total e : total (marshal_boot_entry e).
Proof. unfold marshal_boot_entry. safe_tac. Qed.
Hint Resolve marshal_boot_entry_total : safe.
Lemma spawn_total l a b : total (spawn l a b).
Proof. unfold spawn. safe_tac. Qed.
Hint Resolve spawn_total : safe.
Lemma spawn_entry_total i : total (spawn_entry i).
Proof. unfold spawn_entry. safe_tac. Qed.
Hint Resolve spawn_entry_total : safe.
Lemma quesos_main_total argv envp : total (quesos_main argv envp).
Proof. unfold quesos_main. safe_tac. Qed.
Hint Resolve quesos_main_total : safe.
End Boot.

#[export] Hint Resolve boot_env_loop_total boot_env_capture_total boot_env_extract_init_total
  boot_env_extract_verbose_total boot_env_add_default_total boot_env_add_login_defaults_total
  push_entry_total pack_token_total synthesize_default_init_total gather_total
  boot_args_capture_total push_arg_total marshal_tokens_total marshal_env_total marshal_boot_entry_total
  spawn_total spawn_entry_total quesos_main_total : safe.

Section Dispatch.
Context {H : Type} `{Host H}.
Abbreviation total m := (moves (H := H) all_slots all_slots m).

Lemma result_total m : total m -> total (result m).
Proof. intros Hm. unfold result. safe_tac. Qed.
Hint Resolve result_total : safe.
Lemma unhandled_total n : total (unhandled n).
Proof. unfold unhandled. safe_tac. Qed.
Hint Resolve unhandled_total : safe.
Lemma syscall_table_total n a0 a1 a2 a3 a4 : total (syscall_table n a0 a1 a2 a3 a4).
Proof. unfold syscall_table, do_rt_sigreturn, result. safe_tac. Qed.
Hint Resolve syscall_table_total : safe.
Lemma quesos_syscall_total : total quesos_syscall.
Proof. unfold quesos_syscall. safe_tac. Qed.
Hint Resolve quesos_syscall_total : safe.
Lemma syscall_trap_total rs : total (syscall_trap rs).
Proof. unfold syscall_trap. safe_tac. Qed.
Hint Resolve syscall_trap_total : safe.
Lemma preempt_total : total preempt.
Proof. unfold preempt. safe_tac. Qed.
Hint Resolve preempt_total : safe.
Lemma irq_save_total rs : total (irq_save rs).
Proof. unfold irq_save. safe_tac. Qed.
Hint Resolve irq_save_total : safe.
Lemma quesos_timer_tick_total : total quesos_timer_tick.
Proof. unfold quesos_timer_tick. safe_tac. Qed.
Hint Resolve quesos_timer_tick_total : safe.
Lemma quesos_keyboard_tick_total : total quesos_keyboard_tick.
Proof. unfold quesos_keyboard_tick. safe_tac. Qed.
Hint Resolve quesos_keyboard_tick_total : safe.
Lemma quesos_console_irq_total : total quesos_console_irq.
Proof. unfold quesos_console_irq. safe_tac. Qed.
Hint Resolve quesos_console_irq_total : safe.
Lemma qos_put_hex64_total v : total (qos_put_hex64 v).
Proof. unfold qos_put_hex64. safe_tac. Qed.
Hint Resolve qos_put_hex64_total : safe.
Lemma quesos_page_fault_total a b c d e : total (quesos_page_fault a b c d e).
Proof. unfold quesos_page_fault. safe_tac. Qed.
Hint Resolve quesos_page_fault_total : safe.
End Dispatch.

#[export] Hint Resolve unhandled_total syscall_table_total quesos_syscall_total syscall_trap_total
  preempt_total irq_save_total quesos_timer_tick_total quesos_keyboard_tick_total
  quesos_console_irq_total quesos_page_fault_total : safe.

(** ** Control never comes back to the trampoline *)
Section NoReturn.
Context {H : Type} `{Host H}.
Implicit Types s : kst H.

Definition leaves {A} (m : M (kst H) A) : Prop := forall s, exists h s', m s = (Stop h, s').

Lemma leaves_bind {A B} (m : M (kst H) A) (f : A -> M (kst H) B) : (forall a, leaves (f a)) -> leaves (m ≫= f).
Proof.
  intros Hf s. unfold mbind, M_bind. destruct (m s) as [[a|h] s']; [apply Hf|by exists h, s'].
Qed.
Lemma leaves_head {A B} (m : M (kst H) A) (f : A -> M (kst H) B) : leaves m -> leaves (m ≫= f).
Proof. intros Hm s. unfold mbind, M_bind. destruct (Hm s) as (h & s' & ->). by exists h, s'. Qed.
Lemma leaves_stop {A} h : leaves (stop (A := A) h).
Proof. intros s. by exists h, s. Qed.
Lemma quesos_switch_to_leaves {A} p : leaves (quesos_switch_to (A := A) p).
Proof. unfold quesos_switch_to. do 2 (apply leaves_bind; intros). apply leaves_stop. Qed.

Lemma schedule_leaves F : leaves (schedule F).
Proof. unfold schedule. do 4 (apply leaves_bind; intros). apply leaves_stop. Qed.
Lemma k_schedule_leaves : leaves k_schedule.
Proof. rewrite k_schedule_eq. apply schedule_leaves. Qed.
Lemma terminate_leaves F p sig : leaves (fw_schedule F) -> leaves (terminate_by_signal F p sig).
Proof. intros HF. unfold terminate_by_signal. do 2 (apply leaves_bind; intros). exact HF. Qed.

Lemma k_terminate_by_signal_leaves p sig : leaves (k_terminate_by_signal p sig).
Proof.
  unfold k_terminate_by_signal. apply terminate_leaves. unfold DEPTH. rewrite kernel_S. apply schedule_leaves.
Qed.

Ltac leaves_tac := repeat lazymatch goal with
  | |- leaves (_ ≫= _) => apply leaves_bind; intros
  | |- leaves k_schedule => exact k_schedule_leaves
  | |- leaves (k_terminate_by_signal _ _) => apply k_terminate_by_signal_leaves
  | |- leaves (quesos_switch_to _) => apply quesos_switch_to_leaves
  end.

(** With no current process the fault is a panic. *)
Lemma quesos_page_fault_leaves va err pc rf rs : leaves (quesos_page_fault va err pc rf rs).
Proof.
  unfold quesos_page_fault. cbv zeta. do 3 (apply leaves_bind; intros). apply leaves_bind. intros [i|].
  - leaves_tac.
  - rewrite (bool_decide_eq_true_2 (None = None)), orb_true_r by done.
    repeat lazymatch goal with |- leaves (when true _ ≫= _) => fail | |- _ => apply leaves_bind; intros end.
    apply leaves_head, leaves_bind. intros. apply leaves_stop.
Qed.

Lemma enter_leaves t : leaves (enter t).
Proof.
  destruct t; cbn [enter]; unfold quesos_main, syscall_trap, quesos_timer_tick, quesos_console_irq, quesos_keyboard_tick;
    leaves_tac; apply quesos_page_fault_leaves.
Qed.

Lemma enter_total t : moves (H := H) all_slots all_slots (enter t).
Proof. destruct t; cbn [enter]; safe_tac. Qed.

Lemma kinv_within s : kinv s -> within all_slots s.
Proof.
  intros Hk. split; [by rewrite (ki_proc _ Hk)|]. intros i c Hc _. apply all_in.
  rewrite <- (ki_proc _ Hk). by eapply lookup_lt_Some.
Qed.

(** C4: every entry to the kernel ends, and ends by handing the CPU on.  From
    any reachable state, the boot, a system call, an interrupt or a page fault runs to a
    point where the kernel enters a process, idles or powers off (or itself
    faults, or indexes outside one of its tables); it never returns into the
    trampoline's dead end.  No loop of the kernel runs out of the turns the
    model gives it, where running out is the outcome [OutOfFuel] and not a
    normal return: each turn of the signal delivery loop clears a pending bit,
    each turn of a ring loop moves a byte, and so on; and the recursion
    between scheduling, raising and delivering signals stays within the depth
    the model allows, however the pending signals of all processes interact.
    The one loop that may not end is the page loop over a range whose last
    page is the top page of the address space: [fair] allows the outcome
    [Spin va n] only for such a range.  (The reachable states are those of
    Machine, by runs that leave the kernel image alone; an entry that itself
    stores into the image, through a user pointer that names it, is followed
    as if its tables were apart from it.) *)
Theorem kernel_entry_ends s t : reachable s -> exists h s', enter t s = (Stop h, s') /\ fair h.
Proof.
  intros Hr. destruct (enter_leaves t s) as (h & s' & E). exists h, s'. split; [done|].
  pose proof (enter_total t s (kinv_within _ (reachable_inv _ Hr))) as Ht. by rewrite E in Ht.
Qed.
End NoReturn.

(** A second timer interrupt. *)
Lemma kernel_entry_ends_witness : exists h s', enter (T_timer 0) m_tick = (Stop h, s') /\ fair h.
Proof. exact (kernel_entry_ends m_tick (T_timer 0) m_tick_reachable). Defined.
