(* ===== verification/SchedProps.v ===== *)
(** * The scheduler, signal delivery and the wait status

    [schedule] is round robin: it enters the first runnable process after the
    current one in slot order, and when there is none it idles if a device can
    wake someone, and powers off otherwise.  Delivery takes the lowest ready
    signal.  The wait status is decoded by the macros of the C library
    (toolchain/rt/sys/wait.h). *)
From Stdlib Require Import ZArith Lia Bool String.
From stdpp Require Import base list numbers.
From S2P Require Import Prelude Monad State Memory Support Paging Files Signals.
From S2P Require Import Dispatch MemFacts Isolation Fuel.

(** ** Round robin *)

(** The slots in the order the scan visits them, starting after [base]. *)
Definition visit_order (base : Z) : list nat :=
  map (fun i => Z.to_nat ((base + i) mod Z.of_nat QUESOS_MAX_PROC)) (seqZ 1 (Z.of_nat QUESOS_MAX_PROC)).

Definition runnable (l : list pcb) (i : nat) : bool :=
  match l !! i with Some c => bool_decide (p_state c = P_RUNNABLE) | None => false end.

(** The slot to run next: the first runnable one in that order. *)
Definition next_slot (cur : option nat) (l : list pcb) : option nat :=
  find (runnable l) (visit_order (match cur with Some i => Z.of_nat i | None => -1 end)).

(** ** What delivery does to the process about to run

    The specification: SIGKILL comes first, then nothing while a handler is
    running, and otherwise the deliverable signals in order.  Those that are
    ignored are used up on the way to the first one that is not; that one
    runs its handler, stops the process or kills it. *)
Inductive fate : Type := Runs | Handles (sig : Z) | Stops (sig : Z) | Dies (sig : Z).

Definition ignored (c : pcb) (sig : Z) : bool :=
  (handler c sig =? 1) || ((handler c sig =? 0) && ((sig =? SIGCHLD) || (sig =? SIGCONT))).

Definition used_up (c : pcb) (sigs : list Z) : pcb :=
  fold_left (fun c sig => c <| p_pending := Z.clearbit (p_pending c) (sig - 1) |>) sigs c.

Fixpoint signal_fate (c : pcb) (sigs : list Z) : fate :=
  match sigs with
  | [] => Runs
  | sig :: sigs' =>
      if ignored c sig then signal_fate c sigs'
      else if negb (handler c sig =? 0) then Handles sig
      else if existsb (Z.eqb sig) [SIGSTOP; SIGTSTP; SIGTTIN; SIGTTOU] then Stops sig
      else Dies sig
  end.

(** The signals taken: the ignored ones in front and the first other one. *)
Fixpoint taken (c : pcb) (sigs : list Z) : list Z :=
  match sigs with
  | [] => []
  | sig :: sigs' => sig :: if ignored c sig then taken c sigs' else []
  end.

Definition delivery (c : pcb) : pcb * fate :=
  if Z.testbit (p_pending c) (SIGKILL - 1) then (used_up c [SIGKILL], Dies SIGKILL)
  else if p_in_handler c then (c, Runs)
  else (used_up c (taken c (deliverable c)), signal_fate c (deliverable c)).

Section Sched.
Context {H : Type} `{Host H}.
Implicit Types s : kst H.

(** How a fate is carried out, [F] being the calls back into the cycle. *)
Definition carry_out (F : forward H) (p : nat) (f : fate) : M (kst H) unit :=
  match f with
  | Runs => mret tt
  | Handles sig => push_signal_frame p sig
  | Stops sig => stop_process F p sig
  | Dies sig => terminate_by_signal F p sig
  end.

Definition set_slot s (p : nat) (c : pcb) : kst H := s <| g_proc := <[p := c]> (g_proc s) |>.

Lemma set_slot_id s p c : g_proc s !! p = Some c -> set_slot s p c = s.
Proof. intros Hp. unfold set_slot. rewrite list_insert_id by done. by destruct s. Qed.
Lemma set_slot_twice s p c d : set_slot (set_slot s p c) p d = set_slot s p d.
Proof. unfold set_slot. cbn. by rewrite list_insert_insert_eq. Qed.
Lemma set_slot_lookup s p c d : g_proc s !! p = Some c -> g_proc (set_slot s p d) !! p = Some d.
Proof. intros Hp. apply list_lookup_insert_eq. by eapply lookup_lt_Some. Qed.

Lemma clr_clearbit x sig : 1 <= sig -> clr x (sigbit sig) = Z.clearbit x (sig - 1).
Proof. intros Hs. unfold clr, sigbit, bit, Z.clearbit. done. Qed.

Lemma dfl_ignore_eq sig : QOS_DFL_IS_IGNORE sig = (sig =? SIGCHLD) || (sig =? SIGCONT).
Proof. reflexivity. Qed.

Lemma stop_sig_eq sig : QOS_IS_STOP_SIG sig = existsb (Z.eqb sig) [SIGSTOP; SIGTSTP; SIGTTIN; SIGTTOU].
Proof.
  unfold QOS_IS_STOP_SIG. cbn [existsb].
  destruct (sig =? SIGSTOP), (sig =? SIGTSTP), (sig =? SIGTTIN), (sig =? SIGTTOU); done.
Qed.

Lemma fate_ext c d l : p_handler c = p_handler d -> signal_fate c l = signal_fate d l /\ taken c l = taken d l.
Proof.
  intros E. assert (Ei : forall sig, ignored c sig = ignored d sig) by (intros sig; unfold ignored, handler; by rewrite E).
  induction l as [|sig l [IH1 IH2]]; [done|]. cbn [signal_fate taken]. unfold handler in *. rewrite Ei, IH1, IH2, E. done.
Qed.

Lemma used_up_root l : forall c, p_root_pa (used_up c l) = p_root_pa c.
Proof. induction l as [|sig l IH]; intros c; [done|]. unfold used_up in *. cbn [fold_left]. by rewrite IH. Qed.
Lemma delivery_root c : p_root_pa (delivery c).1 = p_root_pa c.
Proof. unfold delivery. destruct (Z.testbit _ _); [done|]. destruct (p_in_handler c); [done|]. apply used_up_root. Qed.

Lemma deliver_loop_fate (F : forward H) n p : forall s c, g_proc s !! p = Some c -> (length (deliverable c) < n)%nat ->
  deliver_loop F n p s =
  carry_out F p (signal_fate c (deliverable c)) (set_slot s p (used_up c (taken c (deliverable c)))).
Proof.
  induction n as [|n IH]; intros s c Hc Hn; [lia|]. cbn [deliver_loop]. rewrite (bind_getp _ _ _ _ Hc).
  destruct (deliverable c) as [|sig l] eqn:Ed.
  { rewrite (deliverable_nil c Ed). cbn. by rewrite set_slot_id. }
  destruct (deliverable_cons c sig l Ed) as (Hs & Hr & -> & El).
  rewrite (proj2 (Z.eqb_neq _ _) Hr). cbv zeta.
  set (c' := c <| p_pending := clr (p_pending c) (sigbit sig) |>) in *.
  rewrite (bind_ret_run _ _ s tt (set_slot s p c')) by (unfold modp; by rewrite Hc).
  assert (Ec' : c' = c <| p_pending := Z.clearbit (p_pending c) (sig - 1) |>)
    by (subst c'; by rewrite clr_clearbit by lia).
  assert (Hrec : deliver_loop F n p (set_slot s p c') =
    carry_out F p (signal_fate c l) (set_slot s p (used_up c' (taken c l)))).
  { rewrite (IH _ c' (set_slot_lookup _ _ _ _ Hc)) by (rewrite El; cbn [length] in Hn; lia).
    rewrite El, set_slot_twice. destruct (fate_ext c' c l eq_refl) as [-> ->]. done. }
  cbn [signal_fate taken]. unfold used_up in *. cbn [fold_left]. rewrite <- Ec'. unfold ignored.
  rewrite dfl_ignore_eq. destruct (Z.eqb_spec (handler c sig) 0) as [E0|N0]; cbn [negb andb orb].
  - rewrite E0. cbn [Z.eqb orb]. destruct (_ || _) eqn:Ei; cbn [fold_left]; [exact Hrec|].
    rewrite stop_sig_eq. by destruct (existsb _ _).
  - rewrite orb_false_r. destruct (handler c sig =? 1); cbn [fold_left]; [exact Hrec|done].
Qed.

Lemma terminate_stops (F : forward H) p sig s : (exists G, fw_schedule F = schedule G) ->
  exists h s', terminate_by_signal F p sig s = (Stop h, s').
Proof.
  intros [G HF]. unfold terminate_by_signal, mbind, M_bind.
  destruct (modp _ _ s) as [[[]|h] s1]; [|by eexists _, _].
  destruct (reap_tail F p s1) as [[[]|h] s2]; [|by eexists _, _]. rewrite HF.
  unfold schedule, mbind, M_bind, gets. destruct (schedule_scan _ _ _ _ s2) as [[[]|h] s3]; [|by eexists _, _].
  destruct (when _ _ s3) as [[[]|h] s4]; by eexists _, _.
Qed.

(** Entering a process never returns, whatever comes before it. *)
Lemma then_switch_stops (m : M (kst H) unit) j s :
  exists h s', (m ;; quesos_switch_to (A := unit) j) s = (Stop h, s').
Proof.
  unfold mbind, M_bind. destruct (m s) as [[[]|h] s1]; [|by eexists _, _].
  unfold quesos_switch_to, mbind, M_bind, getp. destruct (g_proc s1 !! j); by eexists _, _.
Qed.

(** Delivery and the entry into the process, as the specification has it. *)
Lemma deliver_fate (F : forward H) s p c {B} (k : unit -> M (kst H) B) : (exists G, fw_schedule F = schedule G) ->
  g_proc s !! p = Some c ->
  (deliver_pending_signal F p ≫= k) s = (carry_out F p (delivery c).2 ≫= k) (set_slot s p (delivery c).1).
Proof.
  intros HF Hc. unfold deliver_pending_signal, delivery. rewrite bind_assoc_run, (bind_getp _ _ _ _ Hc).
  assert (Ek : has (p_pending c) (sigbit SIGKILL) = Z.testbit (p_pending c) (SIGKILL - 1)) by exact (has_bit (p_pending c) (SIGKILL - 1) ltac:(discriminate)).
  rewrite Ek. destruct (Z.testbit (p_pending c) (SIGKILL - 1)); cbn [when fst snd carry_out].
  - rewrite !bind_assoc_run.
    rewrite (bind_ret_run _ _ s tt (set_slot s p (used_up c [SIGKILL]))) by (unfold modp; by rewrite Hc).
    destruct (terminate_stops F p SIGKILL (set_slot s p (used_up c [SIGKILL])) HF) as (h & s' & E).
    by rewrite !(bind_stop_run _ _ _ _ _ E).
  - rewrite bind_assoc_run, (bind_ret_run _ _ s tt s eq_refl). cbv beta. rewrite bind_assoc_run, (bind_getp _ _ _ _ Hc).
    destruct (p_in_handler c); cbn [fst snd carry_out]; [by rewrite set_slot_id|].
    unfold mbind, M_bind. rewrite (deliver_loop_fate F 65 p s c Hc) by (pose proof (deliverable_length c); lia). done.
Qed.

(** The first runnable slot found, its signals delivered, the process
    entered. *)
Definition run_slot (F : forward H) s (j : nat) (c : pcb) : outcome unit * kst H :=
  (carry_out F j (delivery c).2 ;; quesos_switch_to (A := unit) j)
    (set_slot (s <| g_current := Some j |>) j (delivery c).1).

Lemma schedule_scan_spec (G : forward H) base s n : forall i,
  (exists G', fw_schedule G = schedule G') -> length (g_proc s) = QUESOS_MAX_PROC ->
  let F := mkForward H (schedule G) (raise_on_pcb G) (deliver_pending_signal G) in
  match find (runnable (g_proc s)) (map (fun i => Z.to_nat ((base + i) mod Z.of_nat QUESOS_MAX_PROC)) (seqZ i (Z.of_nat n))) with
  | Some j => exists c, g_proc s !! j = Some c /\ p_state c = P_RUNNABLE /\ schedule_scan F base n i s = run_slot G s j c
  | None => schedule_scan F base n i s = (Ret tt, s)
  end.
Proof.
  induction n as [|n IH]; intros i HG Hlen F; [done|].
  assert (Hseq : seqZ i (Z.of_nat (S n)) = i :: seqZ (i + 1) (Z.of_nat n)).
  { rewrite seqZ_cons by lia. f_equal. f_equal; lia. }
  rewrite Hseq. cbn [map find schedule_scan]. cbv zeta.
  set (j := Z.to_nat ((base + i) mod Z.of_nat QUESOS_MAX_PROC)).
  assert (Hj : (j < length (g_proc s))%nat).
  { rewrite Hlen. subst j. pose proof (Z.mod_pos_bound (base + i) (Z.of_nat QUESOS_MAX_PROC) ltac:(reflexivity)). lia. }
  destruct (lookup_lt_is_Some_2 _ _ Hj) as [c Hc]. rewrite (bind_getp _ _ _ _ Hc).
  unfold runnable at 1. rewrite Hc. destruct (bool_decide_reflect (p_state c = P_RUNNABLE)) as [Hr|Hr]; cbn [when].
  - exists c. split; [done|]. split; [done|]. rewrite bind_assoc_run.
    rewrite (bind_ret_run _ _ s tt (s <| g_current := Some j |>) eq_refl). cbv beta.
    rewrite bind_assoc_run. cbn [fw_deliver_pending_signal F].
    rewrite (deliver_fate G (s <| g_current := Some j |>) j c); [|done|done]. unfold run_slot, mbind, M_bind.
    destruct (carry_out G j _ _) as [[[]|h] s1]; [|done].
    unfold quesos_switch_to, mbind, M_bind, getp. by destruct (g_proc s1 !! j).
  - rewrite (bind_ret_run _ _ s tt s eq_refl). by apply IH.
Qed.

(** C6: what [schedule] does.  If some process is runnable, the first one
    after the current process in slot order, wrapping around, is chosen and
    made current, and its signals are looked at as [delivery] says: a pending
    SIGKILL kills it; otherwise, unless it is in a handler, its deliverable
    signals (pending and not blocked, lowest number first) are taken up to and
    including the first that is not ignored, their pending bits cleared, and
    that one runs its handler, stops or kills the process; if there is none it
    just runs.  A process that runs is entered with its address space loaded
    and nothing else changed; one that handles a signal is entered after the
    handler's frame is pushed; one that stops or dies goes through
    [stop_process] or [terminate_by_signal], which schedule again ([kernel 126]
    is the cycle with the call depth left at that point).  If no
    process is runnable, the CPU waits when some process is parked on the
    console or in poll: in HALT if the host can wake it and no poll has a
    timeout, by spinning otherwise.  If nothing can ever wake up, the machine
    powers off. *)
Theorem schedule_round_robin s :
  length (g_proc s) = QUESOS_MAX_PROC ->
  match next_slot (g_current s) (g_proc s) with
  | Some j => exists c, g_proc s !! j = Some c /\ p_state c = P_RUNNABLE /\
      let s1 := set_slot (s <| g_current := Some j |>) j (delivery c).1 in
      k_schedule s =
      match (delivery c).2 with
      | Runs => (Stop (Enter j), s1 <| g_cr0 := Some (u64 (p_root_pa c + 1)) |>)
      | Handles sig => (push_signal_frame j sig ;; quesos_switch_to j) s1
      | Stops sig => (stop_process (kernel 126) j sig ;; quesos_switch_to j) s1
      | Dies sig => terminate_by_signal (kernel 126) j sig s1
      end
  | None => k_schedule s =
      if want_idle (g_proc s) then
        (Stop (if need_ticks (g_proc s) || negb (has (h_con_status (g_host s)) CON_STAT_WAKE)
               then IdleSpin else IdlePark), s <| g_current := None |>)
      else (Stop PowerOff, s)
  end.
Proof.
  intros Hlen. rewrite k_schedule_eq. unfold schedule. run.
  set (base := match g_current s with Some i => Z.of_nat i | None => -1 end).
  assert (HG : exists G', fw_schedule (kernel (H := H) 126) = schedule G') 
    by (exists (kernel 125); by rewrite kernel_S).
  pose proof (schedule_scan_spec (kernel 126) base s QUESOS_MAX_PROC 1 HG Hlen) as E. cbv zeta in E.
  change (map _ (seqZ 1 (Z.of_nat QUESOS_MAX_PROC))) with (visit_order base) in E.
  change (find (runnable (g_proc s)) (visit_order base)) with (next_slot (g_current s) (g_proc s)) in E.
  rewrite <- kernel_S in E.
  destruct (next_slot (g_current s) (g_proc s)) as [j|] eqn:En.
  - destruct E as (c & Hc & Hr & E). exists c. split; [done|]. split; [done|]. cbv zeta.
    assert (Hd : p_root_pa (delivery c).1 = p_root_pa c) by apply delivery_root.
    unfold run_slot in E. set (s1 := set_slot _ j _) in *.
    assert (Hs1 : g_proc s1 !! j = Some (delivery c).1) by (by eapply (set_slot_lookup (s <| g_current := Some j |>))).
    destruct (delivery c).2 as [|sig|sig|sig]; cbn [carry_out] in E.
    + rewrite (bind_ret_run _ _ s1 tt s1 eq_refl) in E. unfold quesos_switch_to in E.
      rewrite (bind_getp _ _ _ _ Hs1), Hd in E. by rewrite (bind_stop_run _ _ _ _ _ E).
    + destruct (then_switch_stops (push_signal_frame j sig) j s1) as (h & s' & Et).
      rewrite Et in E. by rewrite (bind_stop_run _ _ _ _ _ E), Et.
    + destruct (then_switch_stops (stop_process (kernel 126) j sig) j s1) as (h & s' & Et).
      rewrite Et in E. by rewrite (bind_stop_run _ _ _ _ _ E), Et.
    + destruct (terminate_stops (kernel 126) j sig s1 HG) as (h & s' & Et).
      rewrite (bind_stop_run _ _ _ _ _ Et) in E. rewrite (bind_stop_run _ _ _ _ _ E). by rewrite Et.
  - rewrite (bind_ret_run _ _ _ _ _ E). run. destruct (want_idle (g_proc s)); run; [|done].
    unfold host_get. run. cbn [g_host setter set_g_current].
    change (g_host (s <| g_current := None |>)) with (g_host s).
    destruct (_ || _); done.
Qed.

End Sched.

(** Slots 3 and 7 are runnable and slot 5 is current: slot 7 is next.  It has
    a SIGCHLD pending, which is used up before it is entered. *)
Definition w_next : pcb := pcb_zero <| p_state := P_RUNNABLE |> <| p_pending := 2 ^ (SIGCHLD - 1) |>.
Definition w_sched : kst demo :=
  (kst_boot demo0) <| g_current := Some 5%nat |>
    <| g_proc := <[3%nat := pcb_zero <| p_state := P_RUNNABLE |>]>
                 (<[7%nat := w_next]> (replicate QUESOS_MAX_PROC pcb_zero)) |>.

Lemma schedule_round_robin_witness : next_slot (g_current w_sched) (g_proc w_sched) = Some 7%nat /\
  exists s', k_schedule w_sched = (Stop (Enter 7), s') /\
    g_proc s' !! 7%nat = Some (w_next <| p_pending := 0 |>).
Proof.
  assert (En : next_slot (g_current w_sched) (g_proc w_sched) = Some 7%nat) by reflexivity.
  split; [exact En|]. pose proof (schedule_round_robin w_sched eq_refl) as R. rewrite En in R.
  destruct R as (c & Hc & _ & E). injection Hc as <-.
  change ((delivery w_next).2) with Runs in E. cbv zeta in E. eexists. split; [exact E|reflexivity].
Defined.

(** ** The wait status and its decoding *)

(** toolchain/rt/sys/wait.h *)
Definition WEXITSTATUS (s : Z) : Z := Z.land (Z.shiftr s 8) 0xFF.
Definition WTERMSIG (s : Z) : Z := Z.land s 0x7F.
Definition WIFEXITED (s : Z) : bool := WTERMSIG s =? 0.
Definition WIFSIGNALED (s : Z) : bool := negb (WTERMSIG s =? 0) && negb (WTERMSIG s =? 0x7F).
Definition WIFSTOPPED (s : Z) : bool := Z.land s 0xFF =? 0x7F.
Definition WSTOPSIG (s : Z) : Z := WEXITSTATUS s.

Lemma land_7F x : Z.land x 0x7F = x mod 128.
Proof. exact (Z.land_ones x 7 ltac:(lia)). Qed.
Lemma land_FF x : Z.land x 0xFF = x mod 256.
Proof. exact (Z.land_ones x 8 ltac:(lia)). Qed.

Lemma wexitstatus_shift e l : 0 <= e < 256 -> 0 <= l < 256 -> WEXITSTATUS (e * 256 + l) = e.
Proof.
  intros He Hl. unfold WEXITSTATUS. rewrite Z.shiftr_div_pow2, land_FF by lia. change (2 ^ 8) with 256.
  rewrite Z.div_add_l, (Z.div_small l), Z.add_0_r, Z.mod_small by lia. done.
Qed.
Lemma wtermsig_shift e l : 0 <= l < 128 -> WTERMSIG (e * 256 + l) = l.
Proof.
  intros Hl. unfold WTERMSIG. rewrite land_7F. replace (e * 256 + l) with (l + (2 * e) * 128) by lia.
  rewrite Z.mod_add, Z.mod_small by lia. done.
Qed.
Lemma wifstopped_shift e l : 0 <= l < 256 -> WIFSTOPPED (e * 256 + l) = (l =? 0x7F).
Proof.
  intros Hl. unfold WIFSTOPPED. rewrite land_FF, Z.add_comm, Z.mod_add, Z.mod_small by lia. done.
Qed.

Lemma wait_status_stopped c : p_state c = P_STOPPED -> 1 <= p_stop_signal c <= 31 ->
  wait_status c = p_stop_signal c * 256 + 0x7F.
Proof.
  intros E Hs. unfold wait_status. rewrite E, bool_decide_eq_true_2 by done. unfold u32.
  rewrite land_FF, !(Z.mod_small (p_stop_signal c)) by lia.
  rewrite Z.shiftl_mul_pow2 by lia. change (2 ^ 8) with 256.
  rewrite (pow_lor 8 (p_stop_signal c * 256) 0x7F ltac:(lia) (Z.mod_mul (p_stop_signal c) 256 ltac:(lia)) ltac:(lia)).
  by rewrite Z.mod_small by lia.
Qed.
Lemma wait_status_signaled c : p_state c <> P_STOPPED -> 1 <= p_term_signal c <= 31 ->
  wait_status c = p_term_signal c.
Proof.
  intros E Hs. unfold wait_status. rewrite bool_decide_eq_false_2 by done.
  rewrite (proj2 (Z.eqb_neq _ 0)) by lia. cbn [negb]. unfold u32. by rewrite land_7F, (Z.mod_small _ 128), Z.mod_small by lia.
Qed.
Lemma wait_status_exited c : p_state c <> P_STOPPED -> p_term_signal c = 0 ->
  wait_status c = p_exit_status c mod 256 * 256 + 0.
Proof.
  intros E Hs. unfold wait_status. rewrite bool_decide_eq_false_2, Hs by done. cbn [Z.eqb negb]. unfold u32.
  rewrite land_FF, Z.shiftl_mul_pow2 by lia. change (2 ^ 8) with 256.
  pose proof (Z.mod_pos_bound (p_exit_status c) 256 ltac:(lia)). by rewrite Z.add_0_r, Z.mod_small by lia.
Qed.

(** The status a parent gets from wait is decoded by the macros of
    <sys/wait.h> as what happened to the child: exactly one of WIFSTOPPED,
    WIFSIGNALED and WIFEXITED holds, and WSTOPSIG, WTERMSIG or WEXITSTATUS is
    the stop signal, the killing signal, or the low eight bits of the exit
    code. *)
Theorem wait_status_decodes c :
  (p_state c = P_STOPPED -> 1 <= p_stop_signal c <= 31) -> 0 <= p_term_signal c <= 31 ->
  let st := wait_status c in
  if bool_decide (p_state c = P_STOPPED) then
    WIFSTOPPED st = true /\ WIFSIGNALED st = false /\ WIFEXITED st = false /\ WSTOPSIG st = p_stop_signal c
  else if p_term_signal c =? 0 then
    WIFEXITED st = true /\ WIFSIGNALED st = false /\ WIFSTOPPED st = false /\
    WEXITSTATUS st = p_exit_status c mod 256
  else
    WIFSIGNALED st = true /\ WIFSTOPPED st = false /\ WIFEXITED st = false /\ WTERMSIG st = p_term_signal c.
Proof.
  intros Hst Ht st. unfold WIFSIGNALED, WIFEXITED, WSTOPSIG. subst st. case_bool_decide as E.
  - specialize (Hst E). rewrite (wait_status_stopped c E Hst), wtermsig_shift, wifstopped_shift, wexitstatus_shift by lia.
    done.
  - destruct (Z.eqb_spec (p_term_signal c) 0) as [Hz|Hz].
    + pose proof (Z.mod_pos_bound (p_exit_status c) 256 ltac:(lia)).
      rewrite (wait_status_exited c E Hz), wtermsig_shift, wifstopped_shift, wexitstatus_shift by lia. done.
    + rewrite (wait_status_signaled c E) by lia. change (p_term_signal c) with (0 * 256 + p_term_signal c).
      rewrite wtermsig_shift, wifstopped_shift by lia. change (0 * 256 + p_term_signal c) with (p_term_signal c).
      rewrite (proj2 (Z.eqb_neq (p_term_signal c) 0)), (proj2 (Z.eqb_neq (p_term_signal c) 0x7F)) by lia. done.
Qed.

Lemma wait_status_decodes_witness :
  WIFSIGNALED (wait_status (pcb_zero <| p_state := P_ZOMBIE |> <| p_term_signal := SIGSEGV |>)) = true.
Proof.
  pose proof (wait_status_decodes (pcb_zero <| p_state := P_ZOMBIE |> <| p_term_signal := SIGSEGV |>)) as D.
  exact (proj1 (D ltac:(discriminate) ltac:(split; discriminate))).
Defined.
