(* ===== verification/CallProps.v ===== *)
(** * System calls from the caller's side

    Unknown numbers, descriptor duplication and the return from a signal
    handler. *)
From Stdlib Require Import ZArith Lia Bool String.
From stdpp Require Import base list numbers.
From S2P Require Import Prelude Monad State Memory Support Paging Files Signals FileCalls VmCalls Sockets Process Boot Dispatch MemFacts Isolation FrameLemmas KInv Machine.

Section Calls.
Context {H : Type} `{Host H}.
Implicit Types s : kst H.

Lemma bind_current {B} s p (f : nat -> M (kst H) B) : g_current s = Some p -> (current ≫= f) s = f p s.
Proof. intros E. unfold mbind, M_bind, current. by rewrite E. Qed.

(** The numbers of the dispatcher's cases. *)
Definition known_syscalls : list Z :=
  [0x00; 0x01; 0x02; 0x03; 0x05; 0x07; 0x08; 0x0C; 0x0D; 0x0E; 0x0F; 0x16; 0x17; 0x20; 0x21; 0x27; 0x29; 0x2A;
   0x2B; 0x31; 0x32; 0x35; 0x39; 0x3B; 0x3C; 0x3D; 0x3E; 0x3F; 0x4D; 0x4F; 0x50; 0x52; 0x53; 0x57; 0x6D; 0x79;
   0x82; 0xD9; 0xF0; 0xF1; 0xF2; 0xF3; 0xF4; 0xF5; 0xF6; 0xF7; 0xF8; 0xF9; 0xFA; 0xFB; 0xFC; 0xFD; 0xFE; 0xFF].

Lemma syscall_table_default num a0 a1 a2 a3 a4 :
  existsb (Z.eqb num) known_syscalls = false -> syscall_table num a0 a1 a2 a3 a4 = result (unhandled (H := H) num).
Proof.
  intros Hn. destruct num as [|n|n]; [discriminate| |reflexivity].
  do 8 (destruct n as [n|n|]; try reflexivity; try discriminate Hn).
Qed.

(** A system-call number outside the dispatcher's list returns -ENOSYS and
    changes nothing (with the diagnostics off). *)
Theorem unknown_syscall_enosys s num a0 a1 a2 a3 a4 :
  existsb (Z.eqb num) known_syscalls = false -> g_verbose s = false ->
  syscall_table num a0 a1 a2 a3 a4 s = (Ret (Some (-38)), s).
Proof.
  intros Hn Hv. rewrite syscall_table_default by done. unfold result, unhandled. run. by rewrite Hv.
Qed.

(** *** Descriptors *)

Lemma find_from_spec {A} (f : A -> bool) l i j : find_from f i l = Some j ->
  exists k a, j = (i + k)%nat /\ l !! k = Some a /\ f a = true.
Proof.
  revert i. induction l as [|a l IH]; intros i; cbn [find_from]; [done|]. destruct (f a) eqn:E.
  - intros [= <-]. exists 0%nat, a. split; [lia|done].
  - intros Hf. destruct (IH _ Hf) as (k & b & -> & Hk & Hb). exists (S k), b. split; [lia|done].
Qed.

Lemma find_index_spec {A} (f : A -> bool) l j : find_index f l = Some j -> exists a, l !! j = Some a /\ f a = true.
Proof. intros E. destruct (find_from_spec f l 0 j E) as (k & a & -> & Hk). by exists a. Qed.

(** The state after [p]'s descriptor [fd] is set to [o]. *)
Definition with_fd s (p : nat) (c : pcb) (fd o : Z) : kst H :=
  s <| g_proc := <[p := c <| p_fd := zinsert fd o (p_fd c) |>]> (g_proc s) |>.
Definition with_refs s (i : Z) (o : ofd) (n : Z) : kst H :=
  s <| g_ofd := zinsert i (o <| o_refcount := n |>) (g_ofd s) |>.

Lemma set_fd_run s p c fd o : g_proc s !! p = Some c -> set_fd p fd o s = (Ret tt, with_fd s p c fd o).
Proof. intros Hp. unfold set_fd, modp. by rewrite Hp. Qed.
Lemma ofd_ref_run s i o : zlookup (g_ofd s) i = Some o -> ofd_ref i s = (Ret tt, with_refs s i o (o_refcount o + 1)).
Proof.
  intros Ho. unfold ofd_ref. pose proof (zlookup_bound _ _ _ Ho). rewrite (proj2 (Z.leb_le 0 i)) by lia. cbn [when].
  unfold modo. by rewrite Ho.
Qed.

Lemma bind_geto {B} s i o (f : ofd -> M (kst H) B) : zlookup (g_ofd s) i = Some o -> (geto i ≫= f) s = f o s.
Proof. intros E. unfold mbind, M_bind, geto. by rewrite E. Qed.
Lemma modo_run s i o f : zlookup (g_ofd s) i = Some o -> modo i f s = (Ret tt, s <| g_ofd := zinsert i (f o) (g_ofd s) |>).
Proof. intros E. unfold modo. by rewrite E. Qed.

Lemma ofd_unref_run s i o : zlookup (g_ofd s) i = Some o -> 1 < o_refcount o ->
  ofd_unref i s = (Ret tt, with_refs s i o (o_refcount o - 1)).
Proof.
  intros Ho Hr. pose proof (zlookup_bound _ _ _ Ho). unfold ofd_unref. rewrite (proj2 (Z.ltb_ge i 0)) by lia.
  rewrite (bind_geto _ _ _ _ Ho), (proj2 (Z.ltb_lt 0 (o_refcount o))) by lia. rewrite bind_do.
  rewrite (bind_ret_run _ _ _ _ _ (modo_run s i o _ Ho)).
  etransitivity; [apply bind_geto; exact (zlookup_zinsert _ _ _ _ Ho)|]. cbv beta.
  change (o_refcount (o <| o_refcount := ?n |>)) with n.
  by rewrite (proj2 (Z.ltb_lt 0 (o_refcount o - 1))) by lia.
Qed.

Lemma refs_same (o : ofd) : o <| o_refcount := o_refcount o |> = o.
Proof. by destruct o. Qed.
Lemma zinsert_same {A} (l : list A) i a : zlookup l i = Some a -> zinsert i a l = l.
Proof. unfold zlookup, zinsert. destruct (i <? 0); [done|]. apply list_insert_id. Qed.
Lemma zinsert_twice {A} (l : list A) i a b : zinsert i a (zinsert i b l) = zinsert i a l.
Proof. apply list_insert_insert_eq. Qed.

Lemma do_close_run s p c fd i o :
  g_current s = Some p -> g_proc s !! p = Some c -> fd < QUESOS_MAX_FD -> zget (p_fd c) fd = i ->
  zlookup (g_ofd s) i = Some o -> 1 < o_refcount o ->
  do_close fd s = (Ret 0, with_fd (with_refs s i o (o_refcount o - 1)) p c fd (-1)).
Proof.
  intros Hcur Hp Hfd Hi Ho Hr. pose proof (zlookup_bound _ _ _ Ho). unfold do_close.
  rewrite (bind_current _ _ _ Hcur), (bind_getp _ _ _ _ Hp), Hi.
  rewrite (proj2 (Z.leb_gt QUESOS_MAX_FD fd)), (proj2 (Z.ltb_ge i 0)) by lia. cbn [orb].
  rewrite (bind_ret_run _ _ _ _ _ (ofd_unref_run s i o Ho Hr)).
  by rewrite (bind_ret_run _ _ _ _ _ (set_fd_run (with_refs s i o (o_refcount o - 1)) p c fd (-1) Hp)).
Qed.

(** Undoing the two updates. *)
Lemma with_undo s p c fd o (x : ofd) i :
  g_proc s !! p = Some c -> zlookup (p_fd c) fd = Some (-1) -> zlookup (g_ofd s) i = Some x ->
  with_fd (with_refs (with_refs (with_fd s p c fd o) i x (o_refcount x + 1)) i
      (x <| o_refcount := o_refcount x + 1 |>) (o_refcount x)) p
    (c <| p_fd := zinsert fd o (p_fd c) |>) fd (-1) = s.
Proof.
  intros Hp Hfd Hx. unfold with_fd, with_refs.
  change (p_fd (c <| p_fd := ?l |>)) with l. rewrite zinsert_twice, (zinsert_same _ _ _ Hfd).
  assert (Ec : c <| p_fd := zinsert fd o (p_fd c) |> <| p_fd := p_fd c |> = c) by (by destruct c).
  assert (Ex : x <| o_refcount := o_refcount x + 1 |> <| o_refcount := o_refcount x |> = x) by (by destruct x).
  rewrite Ec, Ex. destruct s; cbn in *. rewrite list_insert_insert_eq, list_insert_id by done.
  by rewrite zinsert_twice, (zinsert_same _ _ _ Hx).
Qed.

(** Duplicating a descriptor and closing the duplicate is a no-op.  In a
    well-formed state, if the descriptor is open and a slot is free, dup
    returns the lowest free one, which then names the same description, with
    one more reference; closing it returns 0 and the kernel is back in exactly
    the state it was in. *)
Theorem dup_close_roundtrip s p c old i o slot :
  kinv s -> g_current s = Some p -> g_proc s !! p = Some c ->
  0 <= old < QUESOS_MAX_FD -> zget (p_fd c) old = i -> zlookup (g_ofd s) i = Some o -> 0 < o_refcount o ->
  find_index (fun x => x <? 0) (p_fd c) = Some slot ->
  exists s1, do_dup old s = (Ret (Z.of_nat slot), s1) /\
    g_proc s1 = <[p := c <| p_fd := <[slot := i]> (p_fd c) |>]> (g_proc s) /\
    zlookup (g_ofd s1) i = Some (o <| o_refcount := o_refcount o + 1 |>) /\
    do_close (Z.of_nat slot) s1 = (Ret 0, s).
Proof.
  intros Hk Hcur Hp Hold Hi Ho Href Hslot.
  pose proof (zlookup_bound _ _ _ Ho) as Hib.
  exists (with_refs (with_fd s p c (Z.of_nat slot) i) i o (o_refcount o + 1)). split.
  { unfold do_dup. rewrite (bind_current _ _ _ Hcur), (bind_getp _ _ _ _ Hp), Hi.
    rewrite (proj2 (Z.leb_gt QUESOS_MAX_FD old)), (proj2 (Z.ltb_ge i 0)) by lia. cbn [orb].
    unfold fd_alloc_slot. run. rewrite (bind_getp _ _ _ _ Hp). run. rewrite Hslot. cbn [option_map].
    rewrite (bind_ret_run _ _ _ _ _ (set_fd_run s p c (Z.of_nat slot) i Hp)).
    rewrite (bind_ret_run _ _ _ _ _ (ofd_ref_run (with_fd s p c (Z.of_nat slot) i) i o Ho)). done. }
  split; [|split; [exact (zlookup_zinsert _ _ _ _ Ho)|]].
  { unfold with_refs, with_fd, zinsert. cbn [g_proc]. by rewrite Nat2Z.id. }
  pose proof (Forall_lookup_1 _ _ _ _ (ki_procs _ Hk) Hp) as Hc.
  destruct (find_index_spec _ _ _ Hslot) as (x & Hx & Hneg). apply Z.ltb_lt in Hneg.
  pose proof (Forall_lookup_1 _ _ _ _ (pk_fds _ Hc) Hx) as [Hx1 _]. assert (x = -1) as -> by lia.
  pose proof (lookup_lt_Some _ _ _ Hx) as Hls. rewrite (pk_fd _ Hc) in Hls.
  set (c1 := c <| p_fd := zinsert (Z.of_nat slot) i (p_fd c) |>).
  assert (Hz : zlookup (p_fd c) (Z.of_nat slot) = Some (-1)).
  { unfold zlookup. rewrite (proj2 (Z.ltb_ge _ 0)), Nat2Z.id by lia. exact Hx. }
  assert (Hfd1 : zget (p_fd c1) (Z.of_nat slot) = i).
  { change (p_fd c1) with (zinsert (Z.of_nat slot) i (p_fd c)). unfold zget. by rewrite (zlookup_zinsert _ _ _ _ Hz). }
  etransitivity; [apply (do_close_run _ p c1 (Z.of_nat slot) i (o <| o_refcount := o_refcount o + 1 |>))|].
  - exact Hcur.
  - apply list_lookup_insert_eq. by eapply lookup_lt_Some.
  - lia.
  - exact Hfd1.
  - exact (zlookup_zinsert _ _ _ _ Ho).
  - cbn. lia.
  - f_equal. change (o_refcount (o <| o_refcount := ?n |>)) with n.
    replace (o_refcount o + 1 - 1) with (o_refcount o) by lia. by apply with_undo.
Qed.
(** *** Signal handlers *)

(** Writing to user memory leaves the process table alone. *)
Lemma push_signal_frame_proc s p sig c s1 :
  g_proc s !! p = Some c -> push_signal_frame p sig s = (Ret tt, s1) ->
  exists rs, g_proc s1 = <[p := c <| p_sig_saved_rs := p_saved_rs c |> <| p_in_handler := true |>
                                  <| p_saved_rs := rs |>]> (g_proc s).
Proof.
  intros Hp. unfold push_signal_frame. rewrite (bind_getp _ _ _ _ Hp). cbv zeta. intros E. eexists.
  assert (W : forall p va v, steps (keeps (@g_proc H)) (as_write64 p va v))
    by (intros; apply steps_as_write64; [typeclasses eauto|done]).
  apply (bind_keeps g_proc) in E as ([] & s2 & E2 & E);
    [|apply steps_as_write_list; [typeclasses eauto|done]].
  apply (bind_keeps g_proc) in E as ([] & s3 & E3 & E); [|apply W].
  apply (bind_keeps g_proc) in E as ([] & s4 & E4 & E); [|apply W].
  apply (bind_keeps g_proc) in E as ([] & s5 & E5 & E); [|apply steps_for; [typeclasses eauto|intros; apply W]].
  do 4 (apply (bind_keeps g_proc) in E as ([] & ? & ? & E); [|apply W]).
  unfold modp in E. match type of E with match ?l !! p with _ => _ end = _ =>
    assert (El : l = g_proc s) by congruence end. rewrite El, Hp in E. injection E as <-. reflexivity.
Qed.

(** A handler returns to what it interrupted.  When a handler frame is
    pushed for a process and later, whatever user code did to memory and
    whatever other processes did in between, the process makes the
    rt_sigreturn call with its signal fields untouched, its saved context
    pointer is again the one of the interrupted code, and it can take signals
    again. *)
Theorem sigreturn_restores s p sig c s1 s2 :
  g_proc s !! p = Some c -> push_signal_frame p sig s = (Ret tt, s1) ->
  g_current s2 = Some p -> g_proc s2 !! p = g_proc s1 !! p ->
  exists c1 s3, g_proc s1 !! p = Some c1 /\ p_in_handler c1 = true /\
    do_rt_sigreturn s2 = (Ret tt, s3) /\
    g_proc s3 !! p = Some (c <| p_in_handler := false |> <| p_sig_saved_rs := p_saved_rs c |>) /\
    g_mem s3 = g_mem s2.
Proof.
  intros Hp Hpush Hcur Heq. destruct (push_signal_frame_proc s p sig c s1 Hp Hpush) as [rs E].
  pose proof (lookup_lt_Some _ _ _ Hp) as Hlt. rewrite E, list_lookup_insert_eq in Heq |- * by done.
  pose proof (lookup_lt_Some _ _ _ Heq) as Hlt2.
  do 2 eexists. split; [reflexivity|]. split; [reflexivity|].
  unfold do_rt_sigreturn. rewrite (bind_current _ _ _ Hcur). unfold modp. rewrite Heq. split; [reflexivity|].
  split; [|reflexivity]. etransitivity; [apply list_lookup_insert_eq; exact Hlt2|].
  reflexivity.
Qed.

End Calls.

(** ** Exercised: a process with the three standard descriptors *)

Definition w_stdio : kst demo :=
  snd ((ofd_init ;; fdtable_init 0 ;; modify (fun s => s <| g_current := Some 0%nat |>)) (kst_boot demo0)).

Lemma w_stdio_kinv : kinv w_stdio.
Proof.
  assert (Hm : steps kR (ofd_init ;; fdtable_init (H := demo) 0 ;; modify (fun s => s <| g_current := Some 0%nat |>))).
  { apply steps_bind; [typeclasses eauto|apply keep_ofd_init|]. intros [].
    apply steps_bind; [typeclasses eauto|apply keep_fdtable_init|]. intros [].
    apply keep_set_current. unfold QUESOS_MAX_PROC. lia. }
  exact (Hm (kst_boot demo0) (kst_boot_kinv demo0)).
Qed.

Lemma unknown_syscall_witness : syscall_table 0x1234 1 2 3 4 5 w_stdio = (Ret (Some (-38)), w_stdio).
Proof. apply unknown_syscall_enosys; reflexivity. Defined.

Definition w_stdio_pcb : pcb := pcb_zero <| p_fd := [0; 1; 2] ++ replicate 13 (-1) |>.
Definition w_stdio_ofd : ofd := mkOfd OFD_NATIVE 1 (-1) (-1) 1.
Lemma w_stdio_lookup : g_proc w_stdio !! 0%nat = Some w_stdio_pcb /\ zlookup (g_ofd w_stdio) 1 = Some w_stdio_ofd /\
  g_current w_stdio = Some 0%nat.
Proof. vm_compute. auto. Qed.

Lemma dup_close_witness : exists s1, do_dup 1 w_stdio = (Ret 3, s1) /\ do_close 3 s1 = (Ret 0, w_stdio).
Proof.
  destruct w_stdio_lookup as (Hp & Ho & Hc). pose proof w_stdio_kinv as Hk. revert Hp Ho Hc Hk. generalize w_stdio.
  intros s Hp Ho Hc Hk.
  destruct (dup_close_roundtrip s 0 w_stdio_pcb 1 1 w_stdio_ofd 3 Hk Hc Hp ltac:(unfold QUESOS_MAX_FD; lia)
    eq_refl Ho eq_refl eq_refl) as (s1 & E1 & _ & _ & E2).
  exists s1. split; [exact E1|exact E2].
Defined.

(** A process whose context is at 0x8000 on a page mapped to physical 0, in a
    machine with paging off: the frame is pushed and the handler returns. *)
Definition w_ctx : pcb := pcb_zero <| p_state := P_RUNNABLE |> <| p_saved_rs := 0x8000 |>.
Definition w_push : kst demo := (kst_boot demo0) <| g_proc := <[0%nat := w_ctx]> (g_proc (kst_boot demo0)) |>
.

Lemma w_push_returns : fst (push_signal_frame 0 SIGINT w_push) = Ret tt.
Proof. vm_compute. reflexivity. Qed.

Lemma sigreturn_restores_witness : exists s1 s3, push_signal_frame 0 SIGINT w_push = (Ret tt, s1) /\
  do_rt_sigreturn (s1 <| g_current := Some 0%nat |>) = (Ret tt, s3) /\
  option_map p_saved_rs (g_proc s3 !! 0%nat) = Some 0x8000.
Proof.
  pose proof w_push_returns as F. destruct (push_signal_frame 0 SIGINT w_push) as [r s1] eqn:E.
  change (r = Ret tt) in F. subst r.
  assert (Hp : g_proc w_push !! 0%nat = Some w_ctx) by reflexivity.
  assert (Hc : g_current (s1 <| g_current := Some 0%nat |>) = Some 0%nat) by reflexivity.
  destruct (sigreturn_restores w_push 0 SIGINT w_ctx s1 (s1 <| g_current := Some 0%nat |>) Hp E Hc eq_refl)
    as (c1 & s3 & _ & _ & E3 & Ep & _).
  exists s1, s3. split; [reflexivity|]. split; [exact E3|]. rewrite Ep. reflexivity.
Defined.

(** * Behaviour of the code that it does not mean to have

    Three theorems about what the code does in corners it does not guard: the
    rings of closed pipes are never given back, a socket that was never
    connected is used as an index, and a request for almost 2^64 bytes moves
    the frame pool backwards. *)

(** ** Rings in use stay in use *)

Definition used_at {H} (s : kst H) (i : nat) : Prop := exists q, g_pipe s !! i = Some q /\ q_used q = true.
Definition rings_kept {H} (s s' : kst H) : Prop := forall i, used_at s i -> used_at s' i.
#[export] Instance rings_kept_preorder {H} : PreOrder (@rings_kept H).
Proof. split; [by intros s i|intros s1 s2 s3 H1 H2 i Hi; exact (H2 i (H1 i Hi))]. Qed.

Section Rings.
Context {H : Type} `{Host H}.
Abbreviation R := (@rings_kept H).
Let P := @rings_kept_preorder H.

Lemma rings_kept_mem (s : kst H) m : R s (s <| g_mem := m |>).
Proof. by intros i. Qed.
Lemma rings_kept_proc (s : kst H) l : R s (s <| g_proc := l |>).
Proof. by intros i. Qed.
Lemma rings_kept_host (s : kst H) h : R s (s <| g_host := h |>).
Proof. by intros i. Qed.

Lemma kept_modq i f : (forall q, q_used q = true -> q_used (f q) = true) -> steps R (modq i f).
Proof.
  intros Hf s j (q & Hq & Hu). unfold modq. destruct (zlookup (g_pipe s) i) as [q0|] eqn:E; [|by exists q].
  pose proof (zlookup_bound _ _ _ E). unfold zlookup in E. destruct (i <? 0); [done|]. cbn. unfold used_at. cbn. unfold zinsert.
  destruct (decide (j = Z.to_nat i)) as [->|Hn].
  - exists (f q0). split; [apply list_lookup_insert_eq; by eapply lookup_lt_Some|]. apply Hf. congruence.
  - exists q. by rewrite list_lookup_insert_ne.
Qed.
Lemma kept_modo i f : steps R (modo i f).
Proof. intros s j Hj. unfold modo. by destruct (zlookup (g_ofd s) i). Qed.
Lemma kept_modb i f : steps R (modb i f).
Proof. intros s j Hj. unfold modb. by destruct (zlookup (g_unix_bind s) i). Qed.
Lemma kept_host {A} (f : H -> A * H) : steps R (host f).
Proof. apply steps_host. exact rings_kept_host. Qed.
Lemma kept_as_write8 p va v : steps R (as_write8 p va v).
Proof. apply steps_as_write8; [exact P|exact rings_kept_mem]. Qed.
Lemma kept_wake_with p v : steps R (wake_with p v).
Proof. apply steps_wake_with; [exact P|exact rings_kept_mem|exact rings_kept_proc]. Qed.
Lemma kept_poll_recheck_all : steps R poll_recheck_all.
Proof. apply steps_poll_recheck_all; [exact P|exact rings_kept_mem|exact rings_kept_proc]. Qed.
Lemma kept_find_by_pid pid : steps R (find_by_pid pid).
Proof. apply steps_gets. exact P. Qed.
Hint Resolve kept_modo kept_modb kept_host kept_as_write8 kept_wake_with kept_poll_recheck_all kept_find_by_pid : steps.

Ltac kept := repeat first [ progress steps_tac | apply kept_modq; intros ? ?; assumption ].

Lemma kept_fetch_loop n pi d u k j : steps R (fetch_loop n pi d u k j).
Proof. revert j. induction n as [|n IH]; intros j; cbn [fetch_loop]; kept. Qed.
Lemma kept_deposit_loop n pi d u k j : steps R (deposit_loop n pi d u k j).
Proof. revert j. induction n as [|n IH]; intros j; cbn [deposit_loop]; kept. Qed.
Hint Resolve kept_fetch_loop kept_deposit_loop : steps.
Lemma kept_pipe_fetch pi d u k : steps R (pipe_fetch pi d u k).
Proof. unfold pipe_fetch. kept. Qed.
Lemma kept_pipe_deposit pi d u k : steps R (pipe_deposit pi d u k).
Proof. unfold pipe_deposit. kept. Qed.
Hint Resolve kept_pipe_fetch kept_pipe_deposit : steps.
Lemma kept_pipe_wake_readers pi : steps R (pipe_wake_readers pi).
Proof. unfold pipe_wake_readers. kept. Qed.
Hint Resolve kept_pipe_wake_readers : steps.
Lemma kept_pipe_wake_writers pi : steps R (pipe_wake_writers pi).
Proof. unfold pipe_wake_writers. kept. Qed.
Hint Resolve kept_pipe_wake_writers : steps.
Lemma kept_refuse_pending n bi : steps R (refuse_pending n bi).
Proof. induction n as [|n IH]; cbn [refuse_pending]; kept. Qed.
Lemma kept_drop_reader pi : steps R (drop_reader pi).
Proof. unfold drop_reader. kept. Qed.
Lemma kept_drop_writer pi : steps R (drop_writer pi).
Proof. unfold drop_writer. kept. Qed.
Hint Resolve kept_refuse_pending kept_drop_reader kept_drop_writer : steps.
Lemma kept_ofd_close i o : steps R (ofd_close i o).
Proof. unfold ofd_close. kept. Qed.
Hint Resolve kept_ofd_close : steps.
Lemma kept_ofd_unref i : steps R (ofd_unref i).
Proof. unfold ofd_unref. kept. Qed.

Lemma find_from_none {A} (f : A -> bool) l i : Forall (fun a => f a = false) l -> find_from f i l = None.
Proof. intros Hl. revert i. induction Hl as [|a l E _ IH]; intros i; cbn [find_from]; [done|]. by rewrite E. Qed.

(** The rings of pipes are never given back.  Dropping a reference, even
    the last one of both ends, leaves every ring in use marked in use; and
    once all 48 are, every further pipe() fails with -EMFILE and changes
    nothing. *)
Theorem pipe_rings_leak (s : kst H) idx p fds :
  (forall i, used_at s i -> used_at (snd (ofd_unref idx s)) i) /\
  (g_current s = Some p -> Forall (fun q => q_used q = true) (g_pipe s) ->
   do_pipe fds s = (Ret (-24), s)).
Proof.
  split; [exact (kept_ofd_unref idx s)|]. intros Hc Hu. unfold do_pipe. rewrite (bind_current _ _ _ Hc). run.
  unfold find_index. rewrite find_from_none; [done|]. eapply list.Forall_impl; [exact Hu|].
  intros q Hq. unfold unused_ring. by rewrite Hq.
Qed.

(** Reading or writing a socket that was never connected indexes the ring
    table with -1: the kernel goes out of bounds instead of returning
    -ENOTCONN. *)
Theorem unconnected_socket_wild (s : kst H) p c fd i o uva count :
  g_current s = Some p -> g_proc s !! p = Some c -> fd_ofd p fd s = (Ret (Some (i, o)), s) ->
  o_kind o = OFD_SOCK -> o_pipe_idx o = -1 -> o_peer_idx o = -1 ->
  do_read fd uva count s = (Stop Wild, s) /\ do_write fd uva count s = (Stop Wild, s).
Proof.
  intros Hc Hp Hfd Hk E1 E2. unfold do_read, do_write.
  split; rewrite (bind_current _ _ _ Hc), (bind_ret_run _ _ _ _ _ Hfd); cbv zeta.
  - rewrite Hk, E1. by apply bind_stop_run.
  - rewrite (bind_getp _ _ _ _ Hp), Hk, E2. run. by apply bind_stop_run.
Qed.

End Rings.

(** ** The pool moves backwards *)
Section Pool.
Context {H : Type} `{Host H}.

Lemma pool_memset d v n : steps (keeps (@g_pool_next H)) (memset d v n).
Proof. apply steps_memset; [typeclasses eauto|done]. Qed.

(** The bound check of [alloc_frames_contig] wraps.  Asked for 2^52 - 1
    frames, which is what bigalloc asks for when its argument is 2^64 - 4096,
    it passes the check and moves the pool pointer one frame back: the last
    frame handed out is free again while its owner still uses it. *)
Theorem alloc_frames_contig_wraps (s : kst H) :
  POOL_BASE + PAGE_SIZE <= g_pool_next s <= POOL_TOP ->
  (2 ^ 64 - 4096 + PAGE_SIZE - 1) / PAGE_SIZE = 2 ^ 52 - 1 /\
  g_pool_next (snd (alloc_frames_contig (2 ^ 52 - 1) s)) = g_pool_next s - PAGE_SIZE.
Proof.
  intros Hp. split; [reflexivity|]. unfold alloc_frames_contig. rewrite bind_gets.
  change (2 ^ 52 - 1 =? 0) with false. cbv iota.
  assert (E : u64 (g_pool_next s + u64 ((2 ^ 52 - 1) * PAGE_SIZE)) = g_pool_next s - PAGE_SIZE).
  { unfold u64, PAGE_SIZE, POOL_TOP, POOL_BASE, POOL_SUPERPAGES in *.
    change (((2 ^ 52 - 1) * 4096) mod 2 ^ 64) with (2 ^ 64 - 4096).
    replace (g_pool_next s + (2 ^ 64 - 4096)) with (g_pool_next s - 4096 + 1 * 2 ^ 64) by lia.
    rewrite Z.mod_add, Z.mod_small by lia. done. }
  rewrite E, (proj2 (Z.ltb_ge POOL_TOP _)) by (unfold PAGE_SIZE; lia). rewrite bind_modify, E.
  match goal with |- g_pool_next (snd (?m ?s1)) = _ => assert (K : steps (keeps (@g_pool_next H)) m) end.
  { apply steps_bind; [typeclasses eauto| |intros; apply steps_ret; typeclasses eauto].
    apply steps_for; [typeclasses eauto|]. intros i. apply pool_memset. }
  etransitivity; [apply K|]. reflexivity.
Qed.
End Pool.

(** ** Exercised *)

Definition w_full : kst demo := (kst_boot demo0) <| g_current := Some 0%nat |>
  <| g_pipe := replicate QUESOS_MAX_PIPE (pipe_zero <| q_used := true |>) |>.
Lemma pipe_rings_leak_witness : do_pipe 0 w_full = (Ret (-24), w_full).
Proof.
  refine (proj2 (pipe_rings_leak w_full 0 0 0) eq_refl _). apply Forall_replicate. reflexivity.
Defined.

Definition w_sock : ofd := mkOfd OFD_SOCK 0 (-1) (-1) 1.
Definition w_unconnected : kst demo := (kst_boot demo0) <| g_current := Some 0%nat |>
  <| g_ofd := w_sock :: replicate 127 ofd_zero |>.
Lemma unconnected_socket_witness :
  do_read 0 0x2000 16 w_unconnected = (Stop Wild, w_unconnected) /\
  do_write 0 0x2000 16 w_unconnected = (Stop Wild, w_unconnected).
Proof.
  apply (unconnected_socket_wild w_unconnected 0 pcb_zero 0 0 w_sock 0x2000 16); reflexivity.
Defined.

Definition w_taken : kst demo := (kst_boot demo0) <| g_pool_next := POOL_BASE + PAGE_SIZE |>.
Lemma alloc_frames_contig_wraps_witness :
  g_pool_next (snd (alloc_frames_contig (2 ^ 52 - 1) w_taken)) = POOL_BASE.
Proof. exact (proj2 (alloc_frames_contig_wraps w_taken ltac:(split; discriminate))). Defined.
