(* ===== verification/ForkProps.v ===== *)
(** * fork

    What [do_fork] promises: the child gets the parent's descriptors, with the
    references counted, and a private copy of its memory. *)
From Stdlib Require Import ZArith Lia Bool String.
From stdpp Require Import base list numbers.
From S2P Require Import Prelude Monad State Memory Support Paging Files Signals FileCalls Process.
From S2P Require Import Dispatch MemFacts AddressSpace Isolation BuildSpace UserMem SpaceProps ForkCopy KInv KInvCalls Machine CallProps.

(** ** Descriptors *)

(** Every description gets one more reference for each time it is in [l]. *)
Definition bump (l : list Z) (os : list ofd) : list ofd :=
  imap (fun k o => o <| o_refcount := o_refcount o + Z.of_nat (count_occ Z.eq_dec l (Z.of_nat k)) |>) os.

Lemma bump_nil os : bump [] os = os.
Proof.
  apply list_eq. intros k. unfold bump. rewrite list_lookup_imap. destruct (os !! k) as [o|]; [|done]. cbn.
  rewrite Z.add_0_r. by destruct o.
Qed.

Lemma bump_closed l i os : i < 0 -> bump (l ++ [i]) os = bump l os.
Proof.
  intros Hi. unfold bump. apply imap_ext. intros k o _. rewrite count_occ_app. cbn [count_occ].
  destruct (Z.eq_dec i (Z.of_nat k)); [lia|]. by rewrite Nat.add_0_r.
Qed.

Lemma bump_lookup l os i o : zlookup os i = Some o ->
  zlookup (bump l os) i = Some (o <| o_refcount := o_refcount o + Z.of_nat (count_occ Z.eq_dec l i) |>).
Proof.
  unfold zlookup. destruct (Z.ltb_spec i 0); [done|]. intros E. unfold bump. rewrite list_lookup_imap, E. cbn.
  by rewrite Z2Nat.id by lia.
Qed.

Lemma bump_open l i os o : zlookup os i = Some o ->
  zinsert i (o <| o_refcount := o_refcount o + Z.of_nat (count_occ Z.eq_dec l i) + 1 |>) (bump l os) = bump (l ++ [i]) os.
Proof.
  intros E. pose proof (zlookup_bound _ _ _ E) as Hi. unfold zlookup in E. rewrite (proj2 (Z.ltb_ge i 0)) in E by lia.
  apply list_eq. intros k. unfold zinsert. destruct (decide (k = Z.to_nat i)) as [->|Hk].
  - rewrite list_lookup_insert_eq by (unfold bump; rewrite length_imap; lia). unfold bump.
    rewrite list_lookup_imap, E. cbn. rewrite count_occ_app, Z2Nat.id by lia. cbn [count_occ].
    destruct (Z.eq_dec i i); [|done]. do 2 f_equal. lia.
  - rewrite list_lookup_insert_ne by done. unfold bump. rewrite !list_lookup_imap.
    destruct (os !! k) as [x|]; [|done]. cbn. rewrite count_occ_app. cbn [count_occ].
    destruct (Z.eq_dec i (Z.of_nat k)); [lia|]. by rewrite Nat.add_0_r.
Qed.

Section Fork.
Context {H : Type} `{Host H}.
Implicit Types (s : kst H) (own : owner).

(** The state in which the first [n] descriptors have been copied. *)
Definition fds_copied s (q : nat) (e : pcb) (l : list Z) (n : nat) : kst H :=
  s <| g_proc := <[q := e <| p_fd := take n l ++ drop n (p_fd e) |>]> (g_proc s) |>
    <| g_ofd := bump (take n l) (g_ofd s) |>.

Lemma fd_step s p q c e n o : g_proc s !! p = Some c -> p <> q -> (q < length (g_proc s))%nat ->
  length (p_fd e) = length (p_fd c) -> p_fd c !! n = Some o ->
  (o < 0 \/ is_Some (zlookup (g_ofd s) o)) ->
  (x ← getp p; let o := zget (p_fd x) (Z.of_nat n) in set_fd q (Z.of_nat n) o ;; ofd_ref o)
    (fds_copied s q e (p_fd c) n) = (Ret tt, fds_copied s q e (p_fd c) (S n)).
Proof.
  intros Hp Hne Hq Hlen Ho Hok. pose proof (lookup_lt_Some _ _ _ Ho) as Hlt.
  assert (Hp' : g_proc (fds_copied s q e (p_fd c) n) !! p = Some c) by (cbn; by rewrite list_lookup_insert_ne).
  rewrite (bind_getp _ _ _ _ Hp'). cbv zeta.
  assert (zget (p_fd c) (Z.of_nat n) = o) as ->.
  { unfold zget, zlookup. rewrite (proj2 (Z.ltb_ge _ 0)) by lia. by rewrite Nat2Z.id, Ho. }
  assert (Hq' : g_proc (fds_copied s q e (p_fd c) n) !! q = Some (e <| p_fd := take n (p_fd c) ++ drop n (p_fd e) |>))
    by exact (list_lookup_insert_eq _ _ _ Hq).
  rewrite (bind_ret_run _ _ _ _ _ (set_fd_run _ q _ (Z.of_nat n) o Hq')).
  assert (Es : with_fd (fds_copied s q e (p_fd c) n) q (e <| p_fd := take n (p_fd c) ++ drop n (p_fd e) |>) (Z.of_nat n) o
    = (fds_copied s q e (p_fd c) (S n)) <| g_ofd := bump (take n (p_fd c)) (g_ofd s) |>).
  { unfold with_fd, fds_copied. cbn. rewrite list_insert_insert_eq. unfold zinsert. rewrite Nat2Z.id.
    rewrite (take_S_r _ _ _ Ho).
    destruct (lookup_lt_is_Some_2 (p_fd e) n ltac:(lia)) as [y Hy].
    rewrite (drop_S _ _ _ Hy). rewrite insert_app_r_alt by (rewrite length_take; lia).
    rewrite length_take. replace (n - n `min` length (p_fd c))%nat with 0%nat by lia. cbn.
    by rewrite <- app_assoc. }
  rewrite Es. unfold fds_copied. rewrite (take_S_r _ _ _ Ho). destruct Hok as [Hneg|[x Hx]].
  - unfold ofd_ref. rewrite (proj2 (Z.leb_gt 0 o)) by lia. cbn [when]. by rewrite bump_closed.
  - erewrite ofd_ref_run by (apply bump_lookup, Hx). unfold with_refs.
    by rewrite <- (bump_open _ _ _ _ Hx).
Qed.

Lemma fdtable_copy_run s p q c e : g_proc s !! p = Some c -> g_proc s !! q = Some e -> p <> q ->
  length (p_fd c) = Z.to_nat QUESOS_MAX_FD -> length (p_fd e) = Z.to_nat QUESOS_MAX_FD ->
  Forall fd_ok (p_fd c) -> length (g_ofd s) = QUESOS_MAX_OFD ->
  fdtable_copy q p s = (Ret tt, s <| g_proc := <[q := e <| p_fd := p_fd c |>]> (g_proc s) |>
                                  <| g_ofd := bump (p_fd c) (g_ofd s) |>).
Proof.
  intros Hp Hq Hne Lc Le Hfd Ho.
  assert (G : forall n lo, (lo + n = length (p_fd c))%nat ->
    for_ lo n (fun i => x ← getp p; let o := zget (p_fd x) (Z.of_nat i) in set_fd q (Z.of_nat i) o ;; ofd_ref o)
      (fds_copied s q e (p_fd c) lo) = (Ret tt, fds_copied s q e (p_fd c) (lo + n))).
  { induction n as [|n IH]; intros lo Hn; cbn [for_]; [by rewrite Nat.add_0_r|].
    destruct (lookup_lt_is_Some_2 (p_fd c) lo ltac:(lia)) as [o Hlo].
    pose proof (Forall_lookup_1 _ _ _ _ Hfd Hlo) as Hf. unfold fd_ok in Hf.
    assert (Hok : o < 0 \/ is_Some (zlookup (g_ofd s) o)).
    { destruct (Z.lt_ge_cases o 0); [by left|right]. unfold zlookup. rewrite (proj2 (Z.ltb_ge o 0)) by lia.
      apply lookup_lt_is_Some_2. rewrite Ho. lia. }
    rewrite (bind_ret_run _ _ _ _ _ (fd_step s p q c e lo o Hp Hne (lookup_lt_Some _ _ _ Hq) ltac:(lia) Hlo Hok)).
    rewrite IH by lia. do 2 f_equal. lia. }
  unfold fdtable_copy. rewrite <- Lc. specialize (G (length (p_fd c)) 0%nat eq_refl).
  assert (E0 : fds_copied s q e (p_fd c) 0 = s).
  { unfold fds_copied. cbn [take drop app]. rewrite bump_nil.
    replace (e <| p_fd := p_fd e |>) with e by (by destruct e). rewrite list_insert_id by done. by destruct s. }
  rewrite E0 in G. etransitivity; [exact G|]. unfold fds_copied. cbn [Nat.add].
  rewrite firstn_all, (drop_ge (p_fd e)) by lia. by rewrite app_nil_r.
Qed.

(** ** The child's address space *)

(** Parent pages seen through an older owner assignment. *)
Lemma page_at_frame own own' m m' c i j g :
  own_le own own' -> (forall f o, own' f = Some (p_root_pa c, o) -> own f = Some (p_root_pa c, o)) ->
  (forall f o, own f = Some o -> same_frame m m' f) -> own (p_l1_pa c) = Some (p_root_pa c, L1) ->
  0 <= i < 512 -> 0 <= j < 512 -> page_at own m c i j g <-> page_at own' m' c i j g.
Proof.
  intros Hle Hback Hsame H1 Hi Hj.
  assert (E1 : pte m' (p_l1_pa c) i = pte m (p_l1_pa c) i) by (apply same_frame_pte; [exact (Hsame _ _ H1)|done]).
  split; intros (t & [Ht Et] & Eg & Hg).
  - exists t. split; [split; [by apply Hle|congruence]|]. split; [|by apply Hle].
    rewrite <- Eg. apply same_frame_pte; [exact (Hsame _ _ Ht)|done].
  - apply Hback in Ht. exists t. split; [split; [done|congruence]|]. split; [|by apply Hback].
    rewrite <- Eg. symmetry. apply same_frame_pte; [exact (Hsame _ _ Ht)|done].
Qed.

Lemma fork_counts own s p c m' : space own s p c -> (forall f o, own f = Some o -> same_frame (g_mem s) m' f) ->
  fork_regions m' (p_l1_pa c) 512 0 = fork_regions (g_mem s) (p_l1_pa c) 512 0 /\
  fork_pages m' (p_l1_pa c) 512 0 = fork_pages (g_mem s) (p_l1_pa c) 512 0.
Proof.
  intros Hsp Hsame. destruct (sp_as _ _ (sp_ok _ _ _ _ Hsp) p c (sp_proc _ _ _ _ Hsp) (sp_set _ _ _ _ Hsp)) as [l2 Hok].
  pose proof (proj1 (ok_l1 _ _ _ _ _ _ Hok)) as H1.
  assert (E1 : forall i, 0 <= i < 0 + Z.of_nat 512 -> pte m' (p_l1_pa c) i = pte (g_mem s) (p_l1_pa c) i)
    by (intros i Hi; apply same_frame_pte; [exact (Hsame _ _ H1)|lia]).
  split; apply total_ext; intros i Hi; rewrite E1 by done; [done|].
  destruct (fork_copies _ i) eqn:E; [|done].
  destruct (fork_copies_leaf own s p c i Hsp ltac:(lia) E) as (t & Ht & _ & -> & _).
  apply total_ext. intros j Hj. rewrite (same_frame_pte (g_mem s) m'); [done|exact (Hsame _ _ Ht)|lia].
Qed.

(** What building the child's space and copying the pages leaves. *)
Record child_space own s own' s' (c : pcb) (q : nat) (e d : pcb) : Prop := {
  ch_space : space own' s' q d;
  ch_pcb : exists r l1 l0, d = e <| p_root_pa := r |> <| p_l1_pa := l1 |> <| p_l0_pa := l0 |>;
  ch_proc : g_proc s' = <[q := d]> (g_proc s);
  ch_only : only_mem (s <| g_proc := g_proc s' |>) s';
  ch_le : own_le own own';
  ch_same : forall f o, own f = Some o -> same_frame (g_mem s) (g_mem s') f;
  ch_new : forall f o, own f <> Some (p_root_pa d, o);
  ch_pages : forall i j g, 0 <= i < 512 -> 0 <= j < 512 -> fork_region_excluded i = false ->
    page_at own (g_mem s) c i j g ->
    exists f, page_at own' (g_mem s') d i j f /\ copied (g_mem s) g (g_mem s') f;
  ch_no_more : forall f i j, 0 <= i < 512 -> 0 <= j < 512 -> own' f = Some (p_root_pa d, Page i j) ->
    fork_region_excluded i = false /\ exists g, page_at own (g_mem s) c i j g }.

Lemma child_space_run own s p q c e : space own s p c -> g_proc s !! q = Some e -> p <> q ->
  4 + (fork_regions (g_mem s) (p_l1_pa c) 512 0 + fork_pages (g_mem s) (p_l1_pa c) 512 0) <= frames_left s ->
  exists own' s' d, (forall A (k : M (kst H) A), (build_address_space q ;; fork_copy (p_l1_pa c) q ;; k) s = k s') /\
    child_space own s own' s' c q e d.
Proof.
  intros Hsp Hq Hne Hl. pose proof Hsp as [Hs Hp Hr].
  assert (Hnn : 0 <= fork_regions (g_mem s) (p_l1_pa c) 512 0 + fork_pages (g_mem s) (p_l1_pa c) 512 0).
  { unfold fork_regions, fork_pages. rewrite <- total_add. apply total_nonneg. intros i.
    destruct (fork_copies _ _); [|lia]. pose proof (user_pages_nonneg (g_mem s) (page_of (pte (g_mem s) (p_l1_pa c) i)) 512 0). lia. }
  destruct (build_address_space_run own s q e Hs Hq ltac:(lia))
    as (own1 & s1 & E1 & Hs1 & (r & l1 & l0 & Hproc & Honly & Hge & Hn & Hr0 & Hle & Hnop & Hback & Hsame) & Hleft).
  set (d := e <| p_root_pa := r |> <| p_l1_pa := l1 |> <| p_l0_pa := l0 |>) in *.
  assert (Hq1 : g_proc s1 !! q = Some d) by (rewrite Hproc; apply list_lookup_insert_eq; by eapply lookup_lt_Some).
  assert (Hp1 : g_proc s1 !! p = Some c) by (rewrite Hproc; by rewrite list_lookup_insert_ne).
  destruct (sp_as _ _ Hs p c Hp Hr) as [l2 Hok].
  assert (Hrd : p_root_pa c <> p_root_pa d).
  { cbn. intros Er. rewrite <- Er in Hn. pose proof (proj1 (ok_root _ _ _ _ _ _ Hok)). congruence. }
  assert (Hsp1 : space own1 s1 p c) by (split; done).
  destruct (fork_counts own s p c (g_mem s1) Hsp Hsame) as [C1 C2].
  pose proof (fork_copy_grows own1 s1 p q c d Hsp1 Hrd 512 0 own1 s1 eq_refl) as Hg. change (Z.of_nat 0) with 0 in Hg.
  rewrite C1, C2 in Hg. unfold grows in Hg.
  assert (Hc0 : copying own1 s1 q c d own1 s1 (upto 0 0)).
  { split; [by split|by apply grown_refl|apply others_refl|intros f i j Hf; destruct (Hnop _ _ Hf) as [|[|[|]]]; discriminate|].
    intros i j g Hi Hj [|]; lia. }
  specialize (Hg Hc0). change (for_ 0 512 _) with (fork_copy (p_l1_pa c) q) in Hg.
  destruct (fork_copy (p_l1_pa c) q s1) as [[[]|h] s2] eqn:E2; [|destruct Hg; lia].
  destruct Hg as (own2 & Hg & _ & Hc2). destruct Hc2 as [Hsp2 Hg2 Ho2 Hon2 Hd2].
  assert (Hpage : forall i j g, 0 <= i < 512 -> 0 <= j < 512 ->
    page_at own (g_mem s) c i j g <-> page_at own1 (g_mem s1) c i j g).
  { intros i j g Hi Hj. apply page_at_frame; [done| |done|exact (proj1 (ok_l1 _ _ _ _ _ _ Hok))|done|done].
    intros f o Hf. by apply Hback. }
  assert (Hsame2 : forall f o, own f = Some o -> same_frame (g_mem s1) (g_mem s2) f).
  { intros f [r' o] Hf. apply (Ho2 f r' o (Hle _ _ Hf)). cbn. destruct (sp_own _ _ Hs _ _ Hf) as [_ Hb]. cbn in Hb. lia. }
  exists own2, s2, d. split.
  { intros A k. rewrite (bind_ret_run _ _ _ _ _ E1). by rewrite (bind_ret_run _ _ _ _ _ E2). }
  split.
  - exact Hsp2.
  - by exists r, l1, l0.
  - by rewrite (only_mem_proc _ _ (gr_mem _ _ _ _ Hg2)).
  - pose proof (gr_mem _ _ _ _ Hg2) as Hm2. rewrite (only_mem_proc _ _ Hm2). unfold only_mem in *.
    rewrite Hm2, Honly. done.
  - intros f o Hf. by apply (gr_le _ _ _ _ Hg2), Hle.
  - intros f o Hf. eapply same_frame_trans; [exact (Hsame _ _ Hf)|exact (Hsame2 _ _ Hf)].
  - intros f o Hf. destruct (sp_own _ _ Hs _ _ Hf) as [_ Hb]. cbn in Hb. lia.
  - intros i j g Hi Hj He Hpg. destruct (Hd2 i j g Hi Hj) as (f & Hf & Hcp); [left; lia|done|by apply Hpage|].
    exists f. split; [done|]. destruct Hpg as (t & _ & _ & Hg'). eapply copied_from; [exact (Hsame _ _ Hg')|exact Hcp].
  - intros f i j Hi Hj Hf. destruct (Hon2 f i j Hf) as (_ & He & g & Hpg). split; [done|]. exists g. by apply Hpage.
Qed.

(** ** fork as the processes see it *)

Lemma page_walk own s p c va f kind priv : space own s p c -> 0 <= va < 2 ^ 30 ->
  page_at own (g_mem s) c (vpn1 va) (vpn0 va) f ->
  sv48_walk (g_mem s) (p_root_pa c) va kind priv = Some (f + va mod PAGE_SIZE).
Proof. intros [Hs Hp Hr] Hva Hm. exact (mapped_walk own s p c va f kind priv Hs Hp Hr Hva Hm). Qed.

Lemma walk_page own s p c va kind pa : space own s p c -> 0 <= va < 2 ^ 48 ->
  sv48_walk (g_mem s) (p_root_pa c) va kind false = Some pa ->
  va < 2 ^ 30 /\ exists f, page_at own (g_mem s) c (vpn1 va) (vpn0 va) f /\ pa = f + va mod PAGE_SIZE.
Proof.
  intros [Hs Hp Hr] Hva E. pose proof (sp_own _ _ Hs) as Hown. pose proof (sp_as _ _ Hs p c Hp Hr) as Hc.
  destruct (Z.lt_ge_cases va (2 ^ 30)) as [Hlo|Hhi].
  - split; [done|]. destruct (user_walk_inv _ _ Hown _ _ Hc va kind pa ltac:(lia) E) as (t & f & Ht & Et & Ef & Hf & Ep).
    exists f. split; [|done]. exists t. done.
  - destruct Hc as [l2 Hok]. rewrite (walk_high own _ Hown _ _ _ _ _ Hok) in E by lia. done.
Qed.

Lemma as_write64_run own s q d va f v : space own s q d -> mapped own s d va f -> va mod 8 = 0 ->
  as_write64 q va v s = (Ret tt, s <| g_mem := store 8 (g_mem s) (f + va mod PAGE_SIZE) (u64 v) |>).
Proof.
  intros Hsp Hm Hal. unfold as_write64. rewrite (bind_ret_run _ _ _ _ _ (user_pa_run _ _ _ _ _ _ Hsp Hm)).
  destruct Hm as (t & _ & _ & Hf). pose proof (sp_own _ _ (sp_ok _ _ _ _ Hsp)) as Hown.
  apply (kstore_run s 8); [exact (frame_kaddr _ _ _ _ _ (sp_ok _ _ _ _ Hsp) Hf)|].
  assert (Ha : aligned f) by own_tac.
  replace (f + va mod PAGE_SIZE) with (f + (va mod PAGE_SIZE / 8) * 8); [apply entry_one_page; [done|]|].
  - unfold PAGE_SIZE. pose proof (Z.mod_pos_bound va 4096 ltac:(lia)).
    split; [apply Z.div_pos; lia|apply Z.div_lt_upper_bound; lia].
  - pose proof (Z.div_mod (va mod PAGE_SIZE) 8 ltac:(lia)) as E. unfold PAGE_SIZE in *.
    assert (Hz : (va mod 4096) mod 8 = 0); [|lia]. rewrite Z.mod_mod_divide; [done|by exists 512].
Qed.

(** A page's bytes through [store]: only the eight bytes at [a] change. *)
Lemma store_zero_byte m a x : (store 8 m a 0) x = if in_range a 8 x then 0 else m x.
Proof. unfold store. destruct (in_range a 8 x); [|done]. by rewrite Zdiv_0_l. Qed.

Lemma total_le w b n : forall i, (forall j, w j <= b) -> total w n i <= b * Z.of_nat n.
Proof. induction n as [|n IH]; intros i E; cbn [total]; [lia|]. specialize (IH (i + 1) E). specialize (E i). lia. Qed.

Lemma fork_pages_bound m l1 : 0 <= fork_pages m l1 512 0 <= 512 * 512.
Proof.
  assert (Hu : forall t, user_pages m t 512 0 <= 512)
    by (intros t; apply (total_le _ 1 512 0); intros j; by destruct (user_entry _)).
  split.
  - apply total_nonneg. intros i. destruct (fork_copies _ _); [apply user_pages_nonneg|lia].
  - apply (total_le _ 512 512 0). intros i. destruct (fork_copies _ _); [apply Hu|lia].
Qed.

Lemma fork_pages_regions m l1 n i : fork_pages m l1 n i <= 512 * fork_regions m l1 n i.
Proof.
  unfold fork_pages, fork_regions. revert i. induction n as [|n IH]; intros i; cbn [total]; [lia|].
  specialize (IH (i + 1)). destruct (fork_copies _ i); [|lia].
  assert (user_pages m (page_of (pte m l1 i)) 512 0 <= 512)
    by (apply (total_le _ 1 512 0); intros j; by destruct (user_entry _)). lia.
Qed.

(** The pre-check is exact. *)
Lemma fork_check s k : pool_ok s -> 0 <= k < 2 ^ 20 ->
  (POOL_TOP <? u64 (g_pool_next s + u64 (k * PAGE_SIZE))) = (frames_left s <? k).
Proof.
  intros [[P1 P2] P3] Hk. pose proof pool_bounds. rewrite (u64_small (k * PAGE_SIZE)) by plia.
  rewrite u64_small by plia. unfold frames_left. pose proof pool_top_aligned as Ht. unfold aligned in P3.
  assert (Hm : (POOL_TOP - g_pool_next s) mod PAGE_SIZE = 0) by (rewrite Zminus_mod, Ht, P3; done).
  pose proof (Z.div_mod (POOL_TOP - g_pool_next s) PAGE_SIZE ltac:(plia)).
  destruct (Z.ltb_spec POOL_TOP (g_pool_next s + k * PAGE_SIZE)), (Z.ltb_spec ((POOL_TOP - g_pool_next s) / PAGE_SIZE) k);
    plia.
Qed.

(** The child's record: the parent's, where fork copies it. *)
Definition forked_pcb (c e : pcb) (pid : Z) : pcb := (fork_child c pid e) <| p_fd := p_fd c |>.

Definition free_slot (c : pcb) : bool := bool_decide (p_state c = P_FREE).

(** The state when the child's address space is about to be built. *)
Definition fork_prepared s (c : pcb) (q : nat) (e : pcb) : kst H :=
  s <| g_next_pid := g_next_pid s + 1 |>
    <| g_proc := <[q := forked_pcb c e (g_next_pid s)]> (g_proc s) |>
    <| g_ofd := bump (p_fd c) (g_ofd s) |>.

(** [do_fork] up to there. *)
Lemma do_fork_start own s p c : space own s p c -> kinv s -> g_current s = Some p -> p_state c <> P_FREE ->
  match find_index free_slot (g_proc s) with
  | Some q => if frames_left s <? 16 + fork_pages (g_mem s) (p_l1_pa c) 512 0 then do_fork s = (Ret (-11), s)
      else exists e, g_proc s !! q = Some e /\ p <> q /\ do_fork s =
        (build_address_space q ;; fork_copy (p_l1_pa c) q ;;
         modp q (fun x => x <| p_saved_rs := p_saved_rs c |>) ;;
         as_write64 q (u64 (p_saved_rs c + 11 * 8)) 0 ;; mret (g_next_pid s)) (fork_prepared s c q e)
  | None => do_fork s = (Ret (-11), s)
  end.
Proof.
  intros Hsp Hk Hcur Hst. pose proof Hsp as [Hs Hp Hr]. pose proof (fork_pages_bound (g_mem s) (p_l1_pa c)) as Hb.
  unfold do_fork. rewrite (bind_current _ _ _ Hcur), (bind_getp _ _ _ _ Hp).
  rewrite (bind_ret_run _ _ _ _ _ (fork_needed_run own s p c 512 0 16 Hsp ltac:(lia) ltac:(lia))).
  rewrite bind_gets, fork_check by (apply Hs || lia).
  set (needed := 16 + fork_pages (g_mem s) (p_l1_pa c) 512 0) in *.
  destruct (find_index free_slot (g_proc s)) as [q|] eqn:Ef; destruct (frames_left s <? needed); try done;
    unfold alloc_pcb; rewrite bind_gets; change (fun p => bool_decide (p_state p = P_FREE)) with free_slot; rewrite Ef; [|done].
  destruct (find_index_spec _ _ _ Ef) as (e & Hq & He). exists e. split; [done|].
  assert (Hne : p <> q).
  { intros ->. rewrite Hp in Hq. injection Hq as <-. apply bool_decide_eq_true in He. done. }
  split; [done|]. pose proof (Forall_lookup_1 _ _ _ _ (ki_procs _ Hk) Hp) as Hc.
  pose proof (Forall_lookup_1 _ _ _ _ (ki_procs _ Hk) Hq) as Hce.
  unfold take_pid. rewrite bind_assoc_run, bind_gets, bind_assoc_run, bind_modify, bind_mret.
  set (s1 := s <| g_next_pid := g_next_pid s + 1 |>).
  assert (Em : modp q (fork_child c (g_next_pid s)) s1
    = (Ret tt, s1 <| g_proc := <[q := fork_child c (g_next_pid s) e]> (g_proc s) |>)) by (unfold modp; cbn; by rewrite Hq).
  rewrite (bind_ret_run _ _ _ _ _ Em). set (s2 := s1 <| g_proc := _ |>).
  assert (Hlt : (q < length (g_proc s))%nat) by (by eapply lookup_lt_Some).
  rewrite (bind_ret_run _ _ _ _ _ (fdtable_copy_run s2 p q c (fork_child c (g_next_pid s) e)
    ltac:(cbn; by rewrite list_lookup_insert_ne) (list_lookup_insert_eq _ _ _ Hlt) Hne (pk_fd _ Hc) (pk_fd _ Hce) (pk_fds _ Hc) (ki_ofd _ Hk))).
  unfold fork_prepared. cbn [g_proc setter set_g_proc s2 s1 set_g_next_pid]. do 2 f_equal.
  by rewrite list_insert_insert_eq.
Qed.

(** What the processes see after a fork: [d] is the child in slot [q]; [hole]
    is where its stack frame receives the result 0. *)
Record forked own s own' s' (c : pcb) (q : nat) (d : pcb) (hole : Z) : Prop := {
  fk_space : space own' s' q d;
  fk_copy : forall va kind pa, 0 <= va < 2 ^ 48 -> fork_region_excluded (vpn1 va) = false ->
    sv48_walk (g_mem s) (p_root_pa c) va kind false = Some pa ->
    exists pb, sv48_walk (g_mem s') (p_root_pa d) va kind false = Some pb /\
      g_mem s' pb = if in_range hole 8 va then 0 else g_mem s pa;
  fk_no_more : forall va kind pb, 0 <= va < 2 ^ 48 ->
    sv48_walk (g_mem s') (p_root_pa d) va kind false = Some pb ->
    fork_region_excluded (vpn1 va) = false /\ is_Some (sv48_walk (g_mem s) (p_root_pa c) va kind false);
  fk_others : forall q' e va kind, q' <> q -> g_proc s !! q' = Some e -> p_root_pa e <> 0 -> 0 <= va < 2 ^ 30 ->
    g_proc s' !! q' = Some e /\
    sv48_walk (g_mem s') (p_root_pa e) va kind false = sv48_walk (g_mem s) (p_root_pa e) va kind false /\
    forall pa, sv48_walk (g_mem s) (p_root_pa e) va kind false = Some pa -> g_mem s' pa = g_mem s pa }.

Lemma in_hole va hole f : hole mod 8 = 0 -> 0 <= va -> 0 <= hole -> vpn1 va = vpn1 hole -> vpn0 va = vpn0 hole ->
  va < 2 ^ 30 -> hole < 2 ^ 30 -> in_range (f + hole mod PAGE_SIZE) 8 (f + va mod PAGE_SIZE) = in_range hole 8 va.
Proof.
  intros Hal Hv Hh E1 E0 Hv' Hh'. unfold in_range. rewrite !region_of_va in E1 by done. rewrite !vpn0_eq in E0.
  unfold PAGE_SIZE in *.
  pose proof (Z.div_mod va 4096 ltac:(lia)). pose proof (Z.div_mod hole 4096 ltac:(lia)).
  pose proof (Z.div_mod (va / 4096) 512 ltac:(lia)) as Da. pose proof (Z.div_mod (hole / 4096) 512 ltac:(lia)) as Db.
  rewrite Z.div_div in Da, Db by lia. change (4096 * 512) with 0x200000 in Da, Db. rewrite E1, E0 in Da.
  apply eq_true_iff_eq. rewrite !andb_true_iff, !Z.leb_le, !Z.ltb_lt. lia.
Qed.

Lemma hole_page va hole : hole mod 8 = 0 -> hole <= va < hole + 8 -> vpn1 va = vpn1 hole /\ vpn0 va = vpn0 hole.
Proof.
  intros Hal Hva. assert (Hpage : page_of va = page_of hole).
  { rewrite !page_of_eq. unfold PAGE_SIZE.
    assert (hole mod 4096 mod 8 = 0) by (rewrite Z.mod_mod_divide; [done|by exists 512]).
    pose proof (Z.div_mod (hole mod 4096) 8 ltac:(lia)). pose proof (Z.mod_pos_bound hole 4096 ltac:(lia)).
    pose proof (Z.div_mod hole 4096 ltac:(lia)). pose proof (Z.div_mod va 4096 ltac:(lia)).
    pose proof (Z.mod_pos_bound va 4096 ltac:(lia)). lia. }
  destruct (page_indices va) as [<- <-], (page_indices hole) as [<- <-]. by rewrite Hpage.
Qed.

(** A page of the child that is not the one with the hole keeps its bytes. *)
Lemma hole_other own n f g hole x (m : mem) : own_ok own n -> is_Some (own f) -> is_Some (own g) -> f <> g -> hole mod 8 = 0 ->
  f <= x < f + PAGE_SIZE -> store 8 m (g + hole mod PAGE_SIZE) 0 x = m x.
Proof.
  intros Hown [o Hf] [o' Hg] Hne Hal Hx. rewrite store_zero_byte.
  destruct (in_range (g + hole mod PAGE_SIZE) 8 x) eqn:E; [|done]. apply in_range_true in E. exfalso.
  apply (frames_disjoint f g x); [own_tac|own_tac|done|done|].
  unfold PAGE_SIZE in *. pose proof (Z.mod_pos_bound hole 4096 ltac:(lia)).
  assert (hole mod 4096 mod 8 = 0) by (rewrite Z.mod_mod_divide; [done|by exists 512]).
  pose proof (Z.div_mod (hole mod 4096) 8 ltac:(lia)). lia.
Qed.

Lemma hole_pages own s q d hole f : space own s q d -> mapped own s d hole f -> hole mod 8 = 0 ->
  pages_only own (g_mem s) (store 8 (g_mem s) (f + hole mod PAGE_SIZE) 0).
Proof.
  intros Hsp (t & _ & _ & Hf) Hal t' r o Ht Ho x Hx. pose proof (sp_own _ _ (sp_ok _ _ _ _ Hsp)) as Hown.
  eapply (hole_other own _ t' f hole x); [exact Hown|by eexists|by eexists| |done|done].
  intros ->. rewrite Hf in Ht. injection Ht as _ <-. discriminate.
Qed.

Lemma forked_intro own s own' s' c p q e d hole f :
  space own s p c -> child_space own s own' s' c q e d -> hole mod 8 = 0 -> 0 <= hole < 2 ^ 30 ->
  mapped own' s' d hole f ->
  forked own s own' (s' <| g_mem := store 8 (g_mem s') (f + hole mod PAGE_SIZE) 0 |>) c q d hole.
Proof.
  intros Hsp Hch Hal Hh Hm. pose proof (ch_space _ _ _ _ _ _ _ _ Hch) as Hsd.
  pose proof (sp_own _ _ (sp_ok _ _ _ _ Hsd)) as Hown'. pose proof (sp_own _ _ (sp_ok _ _ _ _ Hsp)) as Hown.
  pose proof (hole_pages own' s' q d hole f Hsd Hm Hal) as Hpg.
  set (m' := store 8 (g_mem s') (f + hole mod PAGE_SIZE) 0) in *.
  pose proof (space_pages own' s' q d m' Hsd Hpg) as Hsd'.
  pose proof Hm as (th & _ & _ & Hf).
  split; [exact Hsd'|..].
  - intros va kind pa Hva He Ew. destruct (walk_page own s p c va kind pa Hsp Hva Ew) as [Hlo (g & Hg & ->)].
    destruct (ch_pages _ _ _ _ _ _ _ _ Hch _ _ g (vpn1_bound va) (vpn0_bound va) He Hg) as (k & Hk & Hcp).
    exists (k + va mod PAGE_SIZE). split.
    { apply (page_walk own' _ q d va k kind false Hsd' ltac:(lia)).
      exact (mapped_pages own' s' q d va k m' Hsd Hpg Hk). }
    pose proof (Z.mod_pos_bound va PAGE_SIZE ltac:(plia)) as Hmod. cbn [g_mem setter set_g_mem].
    rewrite <- (Hcp (va mod PAGE_SIZE) Hmod). pose proof Hk as (tk & _ & _ & Hok).
    destruct (decide (k = f)) as [->|Hne].
    + rewrite Hf in Hok. injection Hok as E1 E0. unfold m'. rewrite store_zero_byte, in_hole; [done|lia..|done|done|lia|lia].
    + unfold m'. rewrite (hole_other own' (g_pool_next s') k f hole); [|exact Hown'|by eexists|by eexists|done|done|lia].
      destruct (in_range hole 8 va) eqn:Ein; [|done]. exfalso. apply Hne. apply in_range_true in Ein.
      destruct (hole_page va hole Hal Ein) as [V1 V0].
      apply (mapped_fun own' q d s' hole k f Hsd); [|done]. unfold mapped, has_leaf. rewrite <- V1, <- V0. exact Hk.
  - intros va kind pb Hva Ew. destruct (walk_page own' _ q d va kind pb Hsd' Hva Ew) as [Hlo (k & (t & _ & _ & Hk) & _)].
    destruct (ch_no_more _ _ _ _ _ _ _ _ Hch k _ _ (vpn1_bound va) (vpn0_bound va) Hk) as [He (g & Hg)].
    split; [done|]. eexists. exact (page_walk own s p c va g kind false Hsp ltac:(lia) Hg).
  - intros q' e' va kind Hne Hq' Hr' Hva.
    assert (Hold : forall t o, own t = Some o -> same_frame (g_mem s) m' t).
    { intros t o Ht. eapply same_frame_trans; [exact (ch_same _ _ _ _ _ _ _ _ Hch _ _ Ht)|]. intros x Hx.
      pose proof (ch_le _ _ _ _ _ _ _ _ Hch _ _ Ht) as Ht'.
      eapply (hole_other own' _ t f hole); [exact Hown'|by eexists|by eexists| |done|done].
      intros ->. rewrite Hf in Ht'. injection Ht' as <-. exact (ch_new _ _ _ _ _ _ _ _ Hch _ _ Ht). }
    cbn [g_proc g_mem setter set_g_mem].
    assert (Hse : space own s q' e') by (split; [apply Hsp|done|done]).
    split; [rewrite (ch_proc _ _ _ _ _ _ _ _ Hch); by rewrite list_lookup_insert_ne|]. split.
    + apply (walk_frame own _ own' _ _ _ _ _ _ _ Hown Hown' (ch_le _ _ _ _ _ _ _ _ Hch)
        (sp_as _ _ (sp_ok _ _ _ _ Hse) _ _ Hq' Hr')); [|done]. intros t o Ht _. exact (Hold _ _ Ht).
    + intros pa Ew. destruct (walk_page own s q' e' va kind pa Hse ltac:(lia) Ew) as [_ (g & (t & _ & _ & Hg) & ->)].
      pose proof (Z.mod_pos_bound va PAGE_SIZE ltac:(plia)). apply (Hold _ _ Hg). lia.
Qed.

Lemma child_space_saved own s own' s' c q e d v : child_space own s own' s' c q e d ->
  child_space own s own' (s' <| g_proc := <[q := d <| p_saved_rs := v |>]> (g_proc s') |>) c q
    (e <| p_saved_rs := v |>) (d <| p_saved_rs := v |>).
Proof.
  intros [[Hs Hq Hr] (r & l1 & l0 & Ed) Hproc Honly Hle Hsame Hnew Hpages Hmore].
  split; cbn [g_mem g_proc setter set_g_proc]; [split|..]; try done.
  - by apply (spaces_ok_pcb own' s' q d).
  - apply list_lookup_insert_eq. by eapply lookup_lt_Some.
  - exists r, l1, l0. by rewrite Ed.
  - rewrite Hproc. by rewrite list_insert_insert_eq.
  - unfold only_mem in *. rewrite Honly. done.
Qed.

Lemma space_prepared own s p c q e : space own s p c -> g_proc s !! q = Some e -> p <> q ->
  space own (fork_prepared s c q e) p c.
Proof.
  intros [Hs Hp Hr] Hq Hne.
  pose proof (spaces_ok_pcb own s q e (forked_pcb c e (g_next_pid s)) Hs Hq eq_refl eq_refl eq_refl) as [A B C D].
  split; [split; [exact A|exact B|exact C|exact D]| |done]. cbn. by rewrite list_lookup_insert_ne.
Qed.

(** C30: fork.  When there is a free process slot and the pool has the frames
    the pre-check counts, fork returns the new pid; the child has the parent's
    descriptors, with every reference counted, and its own copy of the
    parent's memory: at every address the parent can reach, outside the two
    windows fork leaves out, the child reaches its own page with the same
    byte, except that the eight bytes of its saved frame that hold the result
    of the call are 0; it can reach nothing else; and no other process's
    translation or byte changes.  Otherwise fork returns -EAGAIN and changes
    nothing: it never runs out of frames half way.  (The saved frame is
    aligned and on a page that is copied; at most twelve leaf tables are
    copied, as the layout has two.) *)
Theorem fork_copies_memory own s p c (hole := p_saved_rs c + 88) :
  spaces_ok own s -> kinv s -> g_current s = Some p -> g_proc s !! p = Some c ->
  p_root_pa c <> 0 -> p_state c <> P_FREE ->
  fork_regions (g_mem s) (p_l1_pa c) 512 0 <= 12 ->
  hole mod 8 = 0 -> 0 <= hole < 2 ^ 30 -> fork_region_excluded (vpn1 hole) = false ->
  is_Some (sv48_walk (g_mem s) (p_root_pa c) hole Store false) ->
  match find_index free_slot (g_proc s) with
  | Some q => if frames_left s <? 16 + fork_pages (g_mem s) (p_l1_pa c) 512 0 then do_fork s = (Ret (-11), s)
      else exists own' s' d, do_fork s = (Ret (g_next_pid s), s') /\ forked own s own' s' c q d hole /\
        p_state d = P_RUNNABLE /\ p_pid d = g_next_pid s /\ p_parent d = p_pid c /\ p_fd d = p_fd c /\
        p_saved_rs d = p_saved_rs c /\ g_ofd s' = bump (p_fd c) (g_ofd s)
  | None => do_fork s = (Ret (-11), s)
  end.
Proof.
  intros Hs Hk Hcur Hp Hr Hst Hreg Hal Hh Hex [pa Ew].
  assert (Hsp : space own s p c) by (by split).
  pose proof (do_fork_start own s p c Hsp Hk Hcur Hst) as Hstart.
  destruct (find_index free_slot (g_proc s)) as [q|]; [|exact Hstart].
  destruct (Z.ltb_spec (frames_left s) (16 + fork_pages (g_mem s) (p_l1_pa c) 512 0)) as [Hl|Hl]; [exact Hstart|].
  destruct Hstart as (e & Hq & Hne & E). set (s1 := fork_prepared s c q e) in *.
  pose proof (space_prepared own s p c q e Hsp Hq Hne) as Hsp1. fold s1 in Hsp1.
  assert (Hq1 : g_proc s1 !! q = Some (forked_pcb c e (g_next_pid s)))
    by (apply list_lookup_insert_eq; by eapply lookup_lt_Some).
  destruct (child_space_run own s1 p q c _ Hsp1 Hq1 Hne) as (own' & s2 & d & E2 & Hch).
  { change (frames_left s1) with (frames_left s). change (g_mem s1) with (g_mem s). lia. }
  rewrite E2 in E. pose proof (ch_space _ _ _ _ _ _ _ _ Hch) as [_ Hq2 _].
  pose proof (ch_pcb _ _ _ _ _ _ _ _ Hch) as (r & l1 & l0 & Ed). pose proof (ch_only _ _ _ _ _ _ _ _ Hch) as Honly.
  apply (child_space_saved _ _ _ _ _ _ _ _ (p_saved_rs c)) in Hch. set (d' := d <| p_saved_rs := p_saved_rs c |>) in *.
  set (s3 := s2 <| g_proc := <[q := d']> (g_proc s2) |>) in *.
  assert (Em : modp q (fun x => x <| p_saved_rs := p_saved_rs c |>) s2 = (Ret tt, s3)) by (unfold modp; by rewrite Hq2).
  rewrite (bind_ret_run _ _ _ _ _ Em) in E. rewrite u64_small in E by lia. fold hole in E.
  destruct (walk_page own s p c hole Store pa Hsp ltac:(lia) Ew) as [_ (g & Hg & _)].
  destruct (ch_pages _ _ _ _ _ _ _ _ Hch _ _ g (vpn1_bound hole) (vpn0_bound hole) Hex Hg) as (f & Hf & _).
  pose proof (as_write64_run own' s3 q d' hole f 0 (ch_space _ _ _ _ _ _ _ _ Hch) Hf Hal) as Ewr.
  change (p_saved_rs c + 11 * 8) with hole in E. rewrite (bind_ret_run _ _ _ _ _ Ewr) in E.
  pose proof (forked_intro own s1 own' s3 c p q _ d' hole f Hsp1 Hch Hal Hh Hf) as [F1 F2 F3 F4].
  eexists own', _, d'. split; [exact E|]. split; [split; [exact F1|exact F2|exact F3|]|].
  - intros q' e' va kind Hn Hq'. apply (F4 q' e'); [done|]. cbn. by rewrite list_lookup_insert_ne.
  - unfold d'. rewrite Ed. repeat (split; [done|]). cbn [g_ofd setter set_g_mem set_g_proc s3]. by rewrite Honly.
Qed.
End Fork.

(** ** Exercised: a process with one page forks *)

(** Only region 0 has a leaf table, so fork copies one region. *)
Lemma one_region own {H} `{Host H} (s : kst H) p c : space own s p c ->
  (forall t i, own t = Some (p_root_pa c, L0 i) -> i = 0) -> fork_regions (g_mem s) (p_l1_pa c) 512 0 <= 12.
Proof.
  intros Hsp Hlow.
  assert (G : forall n i, 0 <= i -> i + Z.of_nat n <= 512 ->
    total (fun i => if fork_copies (pte (g_mem s) (p_l1_pa c) i) i then 1 else 0) n i
    <= total (fun i => if i =? 0 then 1 else 0) n i).
  { induction n as [|n IH]; intros k H1 H2; cbn [total]; [lia|]. specialize (IH (k + 1) ltac:(lia) ltac:(lia)).
    destruct (fork_copies _ k) eqn:E; [|destruct (k =? 0); lia].
    destruct (fork_copies_leaf own s p c k Hsp ltac:(lia) E) as (t & Ht & _).
    rewrite (proj2 (Z.eqb_eq k 0) (Hlow _ _ Ht)). lia. }
  etransitivity; [exact (G 512%nat 0 ltac:(lia) ltac:(lia))|]. discriminate.
Qed.

(** Nothing is mapped in a fresh address space. *)
Lemma empty_entry own {H} `{Host H} (s : kst H) p c va t : spaces_ok own s -> g_proc s !! p = Some c -> p_root_pa c <> 0 ->
  user_va va -> has_leaf own s c va t ->
  (forall f o, own f = Some (p_root_pa c, o) -> o = Root \/ o = L2 \/ o = L1 \/ o = L0 0) -> pte (g_mem s) t (vpn0 va) = 0.
Proof.
  intros Hs Hp Hr Hva [Ht Et] Hroles. destruct (user_va_region va Hva) as [Hreg Hk].
  destruct (sp_as _ _ Hs p c Hp Hr) as [l2 Hok]. pose proof (sp_own _ _ Hs) as Hown.
  destruct (ok_l1 _ _ _ _ _ _ Hok) as [_ Hregs]. specialize (Hregs _ (vpn1_bound va)). unfold region_ok in Hregs.
  rewrite Hreg, Et in Hregs. destruct Hregs as [E|(t' & Ht' & E' & Hent)].
  { exfalso. revert E. apply valid_nonzero; [own_tac|by left]. }
  apply lor_inj in E'; [subst t'|own_tac|own_tac|flags].
  specialize (Hent _ (vpn0_bound va)). unfold entry_ok in Hent. rewrite Hk in Hent.
  destruct Hent as [E|(f & Hf & _)]; [done|]. destruct (Hroles _ _ Hf) as [|[|[|]]]; discriminate.
Qed.

(** Process 0 with one page at 0x3000, its saved frame on it. *)
Definition w_forker : kst demo := snd ((f ← alloc_frame; map_user_page 0 0x3000 f) w_one).

Lemma w_forker_ok : exists own c, space own w_forker 0 c /\ g_proc w_forker = <[0%nat := c]> (g_proc w_boot) /\
  kinv w_forker /\ 16000 <= frames_left w_forker /\ (exists f, mapped own w_forker c 0x3000 f) /\
  (forall t i, own t = Some (p_root_pa c, L0 i) -> i = 0).
Proof.
  destruct (build_address_space_run _ w_boot 0 pcb_zero w_boot_ok eq_refl) as (own1 & s1 & E1 & Hs1 & B1 & L1).
  { rewrite w_boot_frames. lia. }
  assert (Hk : kinv w_forker).
  { assert (Hk1 : kinv w_one).
    { rewrite w_one_eq. exact (keep_build_address_space 0 w_boot (kst_boot_kinv demo0)). }
    refine (steps_bind (kR (H := demo)) _ _ _ _ w_one Hk1); [apply keep_alloc_frame|]. intros f. apply keep_map_user_page. }
  assert (s1 = w_one) as -> by (by rewrite w_one_eq, E1). rewrite w_boot_frames in L1.
  destruct B1 as (r & l1 & l0 & P1 & _ & _ & _ & R1 & _ & Hroles & _).
  set (c := pcb_zero <| p_root_pa := r |> <| p_l1_pa := l1 |> <| p_l0_pa := l0 |>) in P1.
  assert (Hp : g_proc w_one !! 0%nat = Some c) by (by rewrite P1).
  unfold w_forker in *. revert Hs1 L1 P1 Hp Hk. generalize w_one. intros w Hs1 L1 P1 Hp Hk.
  pose proof (user_va_low 0x3000 ltac:(lia)) as Hva.
  assert (Hl : has_leaf own1 w c 0x3000 l0).
  { destruct (sp_as _ _ Hs1 0%nat c Hp R1) as [l2 Hok]. exact (ok_l0 _ _ _ _ _ _ Hok). }
  assert (Ez : pte (g_mem w) l0 (vpn0 0x3000) = 0) by exact (empty_entry own1 w 0 c 0x3000 l0 Hs1 Hp R1 Hva Hl Hroles).
  assert (G : grows 1 own1 (f ← alloc_frame; map_user_page 0 0x3000 f) w (fun own' _ s' =>
    (exists f, mapped own' s' c 0x3000 f) /\ forall t i, own' t = Some (p_root_pa c, L0 i) -> i = 0)).
  { change 1 with (1 + 0). eapply grows_bind; [lia|
      apply (grows_alloc own1 w (p_root_pa c, Page (vpn1 0x3000) (vpn0 0x3000)) Hs1); exact (root_below own1 w 0 c Hs1 Hp R1)|].
    intros own2 f s2 Hg (Hn & -> & ->). eapply grows_weaken; [reflexivity|
      eapply (map_user_page_grows _ (took_frame w f) 0 c 0x3000 l0 f (gr_ok _ _ _ _ Hg) Hp R1 Hva);
        [exact (has_leaf_grown own1 w _ _ 0 c 0x3000 l0 Hs1 Hp R1 Hg Hl)| |apply own_add_eq]|].
    - rewrite <- Ez. apply same_frame_pte; [|apply vpn0_bound]. pose proof (sp_own _ _ Hs1) as Hown. destruct Hl as [Ht _].
      apply same_frame_fill; [own_tac|exact (own_aligned _ _ _ _ (sp_own _ _ (gr_ok _ _ _ _ Hg)) (own_add_eq _ _ _))|].
      intros ->. congruence.
    - intros own3 [] s3 Hg3 [-> Hm]. split; [by exists f|]. intros t i. unfold own_add.
      destruct (t =? f); [done|]. intros Ht. destruct (Hroles _ _ Ht) as [E|[E|[E|E]]]; congruence. }
  unfold grows in G. destruct ((f ← alloc_frame; map_user_page 0 0x3000 f) w) as [[[]|h] s'] eqn:E; [|lia].
  destruct G as (own' & Hg & Hleft & Hm & Hlow). exists own', c. cbn [snd] in *.
  pose proof (only_mem_proc _ _ (gr_mem _ _ _ _ Hg)) as Ep.
  split; [split; [apply Hg|by rewrite Ep|done]|]. split; [by rewrite Ep|]. split; [exact Hk|]. split; [lia|]. exact (conj Hm Hlow).
Qed.

Lemma fork_copies_memory_witness : exists (s s' : kst demo) c d pb,
  g_proc s !! 0%nat = Some c /\ do_fork s = (Ret (g_next_pid s), s') /\ g_proc s' !! 1%nat = Some d /\
  sv48_walk (g_mem s') (p_root_pa d) 0x3000 Load false = Some pb.
Proof.
  destruct w_forker_ok as (own & c & [Hs Hp Hr] & Hproc & Hk & Hl & (f & Hm) & Hlow).
  revert Hs Hp Hproc Hk Hl Hm. generalize w_forker. intros w Hs Hp Hproc Hk Hl Hm.
  set (c' := c <| p_state := P_RUNNABLE |> <| p_saved_rs := 0x3000 |>).
  set (s := w <| g_proc := <[0%nat := c']> (g_proc w) |> <| g_current := Some 0%nat |>).
  assert (Hp' : g_proc s !! 0%nat = Some c').
  { cbn. apply list_lookup_insert_eq. by eapply lookup_lt_Some. }
  assert (Hs' : spaces_ok own s).
  { apply spaces_ok_current. exact (spaces_ok_pcb own w 0 c c' Hs Hp eq_refl eq_refl eq_refl). }
  assert (Hk' : kinv s).
  { destruct Hk as [K1 K2 K3 K4 K5 K6 K7 K8 K9]. split; cbn; try assumption.
    - by rewrite length_insert.
    - intros i [= <-]. unfold QUESOS_MAX_PROC. lia.
    - apply Forall_insert; [exact K7|]. destruct (Forall_lookup_1 _ _ _ _ K7 Hp). by split. }
  assert (Hsp : space own s 0 c') by (by split).
  assert (Hw : forall a kind, 0x3000 <= a < 0x4000 ->
    sv48_walk (g_mem s) (p_root_pa c') a kind false = Some (f + a mod PAGE_SIZE)).
  { intros a kind Ha. apply (mapped_walk own w 0 c a f kind false Hs Hp Hr ltac:(lia)). apply mapped_from_page.
    replace (page_of a) with 0x3000; [exact Hm|]. rewrite page_of_eq. unfold PAGE_SIZE.
    pose proof (Z.div_mod a 4096 ltac:(lia)). pose proof (Z.mod_pos_bound a 4096 ltac:(lia)). lia. }
  assert (Hfree : find_index free_slot (g_proc s) = Some 1%nat) by (cbn; rewrite Hproc; reflexivity).
  pose proof (fork_copies_memory own s 0 c' Hs' Hk' eq_refl Hp' Hr) as T. cbv zeta in T.
  assert (Hh : p_saved_rs c' + 88 = 0x3058) by reflexivity. rewrite Hh in T.
  specialize (T ltac:(discriminate) (one_region own s 0 c' Hsp Hlow) eq_refl ltac:(lia) eq_refl).
  specialize (T ltac:(rewrite Hw by lia; by eexists)). rewrite Hfree in T.
  destruct (Z.ltb_spec (frames_left s) (16 + fork_pages (g_mem s) (p_l1_pa c') 512 0)) as [Hlt|_].
  - exfalso. pose proof (fork_pages_regions (g_mem s) (p_l1_pa c') 512 0). pose proof (one_region own s 0 c' Hsp Hlow).
    change (frames_left s) with (frames_left w) in Hlt. lia.
  - destruct T as (own' & s' & d & E & F & _). pose proof (fk_space _ _ _ _ _ _ _ _ F) as [_ Hd _].
    destruct (fk_copy _ _ _ _ _ _ _ _ F 0x3000 Load _ ltac:(lia) eq_refl (Hw 0x3000 Load ltac:(lia))) as (pb & Epb & _).
    exists s, s', c', d, pb. split; [exact Hp'|]. split; [exact E|]. split; [exact Hd|exact Epb].
Defined.
