(* ===== verification/CString.v ===== *)
(** * string.c, strings.c and ctype.c of the C runtime library

    Memory is the flat memory of Memory, seen through the process's own
    addresses; a pointer is an address and NULL is 0.  A function that writes
    returns its result and the new memory.  Characters are the bytes 0 to
    255; comparisons are on their unsigned values, as in the C code. *)
From Stdlib Require Import ZArith Lia Bool String.
From stdpp Require Import base list numbers.
From S2P Require Import Prelude Monad State Memory.

(** ** ctype.c *)

Definition between (lo hi c : Z) : bool := (lo <=? c) && (c <=? hi).
Definition isdigit (c : Z) : bool := between 48 57 c.
Definition isupper (c : Z) : bool := between 65 90 c.
Definition islower (c : Z) : bool := between 97 122 c.
Definition isalpha (c : Z) : bool := between 65 90 c || between 97 122 c.
Definition isalnum (c : Z) : bool := isalpha c || isdigit c.
Definition isspace (c : Z) : bool := (c =? 32) || (c =? 9) || (c =? 10) || (c =? 11) || (c =? 12) || (c =? 13).
Definition isxdigit (c : Z) : bool := isdigit c || between 65 70 c || between 97 102 c.
Definition isprint (c : Z) : bool := between 0x20 0x7E c.
Definition ispunct (c : Z) : bool := isprint c && negb (c =? 32) && negb (isalnum c).
Definition iscntrl (c : Z) : bool := between 0 0x1F c || (c =? 0x7F).
Definition isblank (c : Z) : bool := (c =? 32) || (c =? 9).
Definition isgraph (c : Z) : bool := isprint c && negb (c =? 32).
Definition toupper (c : Z) : Z := if between 97 122 c then c - (97 - 65) else c.
Definition tolower (c : Z) : Z := if between 65 90 c then c + (97 - 65) else c.
Definition isascii (c : Z) : bool := (0 <=? c) && (c <? 128).

(** ** The native accelerators

    SYS $F4 and $F5 as the library sees them: a result and the memory they
    leave.  Their documented behaviour: on success they return the length and
    have copied (as memmove does) or filled the whole range; otherwise they
    return something else and have written nothing. *)
Class Accel : Type := {
  a_bulk_copy : mem -> Z -> Z -> Z -> Z * mem;
  a_bulk_set : mem -> Z -> Z -> Z -> Z * mem }.

Class AccelLaws (A : Accel) : Prop := {
  bulk_copy_law : forall m d s n, let '(r, m') := a_bulk_copy m d s n in
    (r = n -> forall x, m' x = mem_copy m d s n x) /\ (r <> n -> forall x, m' x = m x);
  bulk_set_law : forall m d c n, let '(r, m') := a_bulk_set m d c n in
    (r = n -> forall x, m' x = mem_fill m d n (u8 c) x) /\ (r <> n -> forall x, m' x = m x) }.

Definition BULK_SYSCALL_THRESHOLD : Z := 256.

Section Mem.
Context `{Accel}.

(** [while (n >= 8)], then [while (n--)]: words, then the tail. *)
Definition copy_words (m : mem) (d s n : Z) : option (mem * Z * Z * Z) :=
  while (fun '(m, d, s, n) =>
    if 8 <=? n then inl (store 8 m d (load 8 m s), d + 8, s + 8, n - 8) else inr (m, d, s, n)) (m, d, s, n).
Definition copy_bytes (m : mem) (d s n : Z) : option mem :=
  while (fun '(m, d, s, n) =>
    if n =? 0 then inr m else inl (store 1 m d (m s), d + 1, s + 1, n - 1)) (m, d, s, n).
Definition copy_forward (m : mem) (d s n : Z) : option mem :=
  copy_words m d s n ≫= fun '(m, d, s, n) => copy_bytes m d s n.

Definition memcpy (m : mem) (dst src n : Z) : option (Z * mem) :=
  let '(r, m1) := if BULK_SYSCALL_THRESHOLD <=? n then a_bulk_copy m dst src n else (-1, m) in
  if (BULK_SYSCALL_THRESHOLD <=? n) && (r =? i64 n) then Some (dst, m1)
  else copy_forward m1 dst src n ≫= fun m => Some (dst, m).

Definition copy_backward (m : mem) (d s n : Z) : option mem :=
  while (fun '(m, d, s, n) =>
    if n =? 0 then inr m else inl (store 1 m (d - 1) (m (s - 1)), d - 1, s - 1, n - 1)) (m, d + n, s + n, n).

Definition memmove (m : mem) (dst src n : Z) : option (Z * mem) :=
  if (dst =? src) || (n =? 0) then Some (dst, m) else
  let '(r, m1) := if BULK_SYSCALL_THRESHOLD <=? n then a_bulk_copy m dst src n else (-1, m) in
  if (BULK_SYSCALL_THRESHOLD <=? n) && (r =? i64 n) then Some (dst, m1)
  else (if dst <? src then copy_forward m1 dst src n else copy_backward m1 dst src n) ≫= fun m => Some (dst, m).

Definition fill_words (m : mem) (d n vv : Z) : option (mem * Z * Z) :=
  while (fun '(m, d, n) => if 8 <=? n then inl (store 8 m d vv, d + 8, n - 8) else inr (m, d, n)) (m, d, n).
Definition fill_bytes (m : mem) (d n v : Z) : option mem :=
  while (fun '(m, d, n) => if n =? 0 then inr m else inl (store 1 m d v, d + 1, n - 1)) (m, d, n).
Definition memset (m : mem) (dst c n : Z) : option (Z * mem) :=
  let v := u8 c in
  let '(r, m1) := if BULK_SYSCALL_THRESHOLD <=? n then a_bulk_set m dst c n else (-1, m) in
  if (BULK_SYSCALL_THRESHOLD <=? n) && (r =? i64 n) then Some (dst, m1)
  else fill_words m1 dst n (u64 (v * 0x0101010101010101)) ≫= fun '(m, d, n) =>
       fill_bytes m d n v ≫= fun m => Some (dst, m).
End Mem.

Definition memcmp (m : mem) (a b n : Z) : option Z :=
  while (fun '(pa, pb, n) =>
    if n =? 0 then inr 0
    else if negb (m pa =? m pb) then inr (m pa - m pb) else inl (pa + 1, pb + 1, n - 1)) (a, b, n).

Definition memchr (m : mem) (s c n : Z) : option Z :=
  while (fun '(p, n) => if n =? 0 then inr 0 else if m p =? u8 c then inr p else inl (p + 1, n - 1)) (s, n).

(** ** Strings *)

Definition strlen (m : mem) (s : Z) : option Z :=
  while (fun p => if m p =? 0 then inr (p - s) else inl (p + 1)) s.

Definition strcmp (m : mem) (a b : Z) : option Z :=
  while (fun '(a, b) => if negb (m a =? 0) && (m a =? m b) then inl (a + 1, b + 1) else inr (m a - m b)) (a, b).

Definition strncmp (m : mem) (a b n : Z) : option Z :=
  while (fun '(a, b, n) =>
    if negb (n =? 0) && negb (m a =? 0) && (m a =? m b) then inl (a + 1, b + 1, n - 1)
    else inr (if n =? 0 then 0 else m a - m b)) (a, b, n).

Definition strcasecmp (m : mem) (a b : Z) : option Z :=
  while (fun '(a, b) =>
    if negb (m a =? 0) && (tolower (m a) =? tolower (m b)) then inl (a + 1, b + 1)
    else inr (tolower (m a) - tolower (m b))) (a, b).

Definition strncasecmp (m : mem) (a b n : Z) : option Z :=
  while (fun '(a, b, n) =>
    if negb (n =? 0) && negb (m a =? 0) && (tolower (m a) =? tolower (m b)) then inl (a + 1, b + 1, n - 1)
    else inr (if n =? 0 then 0 else tolower (m a) - tolower (m b))) (a, b, n).

(** Copies up to and including the terminator. *)
Definition copy_string (m : mem) (d s : Z) : option mem :=
  while (fun '(m, d, s) =>
    let m' := store 1 m d (m s) in if m s =? 0 then inr m' else inl (m', d + 1, s + 1)) (m, d, s).
Definition strcpy (m : mem) (dst src : Z) : option (Z * mem) :=
  copy_string m dst src ≫= fun m => Some (dst, m).

(** The first loop of strncpy, and that of strncat: at most [n] bytes, not the
    terminator. *)
Definition copy_upto (m : mem) (d s n : Z) : option (mem * Z * Z) :=
  while (fun '(m, d, s, n) =>
    if negb (n =? 0) && negb (m s =? 0) then inl (store 1 m d (m s), d + 1, s + 1, n - 1)
    else inr (m, d, n)) (m, d, s, n).
Definition strncpy (m : mem) (dst src n : Z) : option (Z * mem) :=
  copy_upto m dst src n ≫= fun '(m, d, n) => fill_bytes m d n 0 ≫= fun m => Some (dst, m).

Definition end_of (m : mem) (s : Z) : option Z := while (fun p => if m p =? 0 then inr p else inl (p + 1)) s.
Definition strcat (m : mem) (dst src : Z) : option (Z * mem) :=
  end_of m dst ≫= fun d => copy_string m d src ≫= fun m => Some (dst, m).
Definition strncat (m : mem) (dst src n : Z) : option (Z * mem) :=
  end_of m dst ≫= fun d => copy_upto m d src n ≫= fun '(m, d, _) => Some (dst, store 1 m d 0).

Definition strchr (m : mem) (s c : Z) : option Z :=
  while (fun s => if m s =? u8 c then inr s else if m s =? 0 then inr 0 else inl (s + 1)) s.
Definition strrchr (m : mem) (s c : Z) : option Z :=
  while (fun '(s, last) =>
    let last := if m s =? u8 c then s else last in if m s =? 0 then inr last else inl (s + 1, last)) (s, 0).

(** The inner loop of strstr: is [n] a prefix of [h]? *)
Definition match_at (m : mem) (h n : Z) : option bool :=
  while (fun '(h, n) =>
    if negb (m h =? 0) && negb (m n =? 0) && (m h =? m n) then inl (h + 1, n + 1) else inr (m n =? 0)) (h, n).
Definition strstr (m : mem) (haystack needle : Z) : option Z :=
  if m needle =? 0 then Some haystack else
  mjoin (while (fun h =>
    if m h =? 0 then inr (Some 0) else
    match match_at m h needle with
    | None => inr None
    | Some true => inr (Some h)
    | Some false => inl (h + 1)
    end) haystack).

(** The inner loops of strpbrk, strspn, strcspn and strtok_r: is the byte [c]
    in the string [set]? *)
Definition in_set (m : mem) (c set : Z) : option bool :=
  while (fun a => if m a =? 0 then inr false else if c =? m a then inr true else inl (a + 1)) set.

(** Scans [s] up to the first byte whose membership is [want]: the address
    where the scan ends, and whether the terminator is there. *)
Definition scan_set (m : mem) (s set : Z) (want : bool) : option (Z * bool) :=
  mjoin (while (fun p =>
    if m p =? 0 then inr (Some (p, true)) else
    match in_set m (m p) set with
    | None => inr None
    | Some b => if Bool.eqb b want then inr (Some (p, false)) else inl (p + 1)
    end) s).
Definition strpbrk (m : mem) (s accept : Z) : option Z :=
  scan_set m s accept true ≫= fun '((p, e) : Z * bool) => Some (if e then 0 else p).
Definition strspn (m : mem) (s accept : Z) : option Z :=
  scan_set m s accept false ≫= fun '(p, _) => Some (p - s).
Definition strcspn (m : mem) (s reject : Z) : option Z :=
  scan_set m s reject true ≫= fun '(p, _) => Some (p - s).

(** The result, the memory and [*saveptr]. *)
Definition strtok_r (m : mem) (str delim saveptr : Z) : option (Z * mem * Z) :=
  let str := if str =? 0 then saveptr else str in
  scan_set m str delim false ≫= fun '((start, ended) : Z * bool) =>
  if ended then Some (0, m, start)
  else scan_set m start delim true ≫= fun '((p, ended) : Z * bool) =>
    if ended then Some (start, m, p) else Some (start, store 1 m p 0, p + 1).
(** [g_strtok_save] is the last argument and the last result. *)
Definition strtok (m : mem) (str delim g_strtok_save : Z) : option (Z * mem * Z) :=
  strtok_r m str delim g_strtok_save.

(** *** basename and dirname

    [dot] and [slash] are the addresses of the two static strings. *)
Definition strip_back (m : mem) (path p : Z) : option (mem * Z) :=
  while (fun '(m, p) =>
    if (path <? p) && (m p =? 47) then inl (store 1 m p 0, p - 1) else inr (m, p)) (m, p).
Definition last_slash (m : mem) (path : Z) : option Z :=
  while (fun '(p, last) =>
    if m p =? 0 then inr last else inl (p + 1, if m p =? 47 then p else last)) (path, path).
Definition path_split (m : mem) (path : Z) (want_dir : bool) (dot slash : Z) : option (Z * mem) :=
  if (path =? 0) || (m path =? 0) then Some (dot, m) else
  strlen m path ≫= fun n =>
  strip_back m path (path + n - 1) ≫= fun '(m, p) =>
  if (p =? path) && (m p =? 47) then Some (slash, m) else
  last_slash m path ≫= fun last =>
  if negb want_dir then Some (if m last =? 47 then last + 1 else last, m)
  else if last =? path then Some (if m last =? 47 then slash else dot, m)
  else strip_back (store 1 m last 0) path (last - 1) ≫= fun '(m, _) => Some (path, m).
Definition basename (m : mem) (path dot slash : Z) : option (Z * mem) := path_split m path false dot slash.
Definition dirname (m : mem) (path dot slash : Z) : option (Z * mem) := path_split m path true dot slash.

(** *** Messages *)
Definition strerror (errnum : Z) : string :=
  match errnum with
  | 0 => "Success" | 1 => "Operation not permitted" | 2 => "No such file or directory"
  | 9 => "Bad file descriptor" | 12 => "Cannot allocate memory" | 21 => "Is a directory"
  | 22 => "Invalid argument" | 25 => "Inappropriate ioctl for device"
  | 34 => "Numerical result out of range" | _ => "Unknown error"
  end%Z%string.
Definition strsignal (sig : Z) : string :=
  match sig with
  | 1 => "Hangup" | 2 => "Interrupt" | 3 => "Quit" | 4 => "Illegal instruction" | 5 => "Trace/breakpoint trap"
  | 6 => "Aborted" | 7 => "Bus error" | 8 => "Floating point exception" | 9 => "Killed"
  | 10 => "User defined signal 1" | 11 => "Segmentation fault" | 12 => "User defined signal 2"
  | 13 => "Broken pipe" | 14 => "Alarm clock" | 15 => "Terminated" | 16 => "Stack fault" | 17 => "Child exited"
  | 18 => "Continued" | 19 => "Stopped (signal)" | 20 => "Stopped" | 21 => "Stopped (tty input)"
  | 22 => "Stopped (tty output)" | 23 => "Urgent I/O condition" | 24 => "CPU time limit exceeded"
  | 25 => "File size limit exceeded" | 26 => "Virtual timer expired" | 27 => "Profiling timer expired"
  | 28 => "Window changed" | 29 => "I/O possible" | 30 => "Power failure" | 31 => "Bad system call"
  | _ => "Unknown signal"
  end%Z%string.
