(* ===== verification/CStringProps.v ===== *)
(** * The string library is correct

    The block functions against the whole-range copy and fill, for every
    overlap and whether or not the accelerators take the request; the string
    functions against lists of bytes. *)
From Stdlib Require Import ZArith Lia Bool String.
From stdpp Require Import base list numbers.
From S2P Require Import Prelude Monad State Memory MemFacts CString.

(** ** Blocks *)

(** [m'] is [m] with the first [k] bytes of the copy in place. *)
Definition copied_to (m : mem) (d s k : Z) (m' : mem) : Prop := forall x, m' x = mem_copy m d s k x.
Definition filled_to (m : mem) (d v k : Z) (m' : mem) : Prop := forall x, m' x = mem_fill m d k v x.

Lemma load_byte n m a j : mem_bytes m -> 0 <= j < Z.of_nat n -> (load n m a / 256 ^ j) mod 256 = m (a + j).
Proof.
  intros Hm. revert a j. induction n as [|n IH]; intros a j Hj; [lia|]. cbn [load].
  destruct (Z.eqb_spec j 0) as [->|Hne].
  - rewrite Z.pow_0_r, Z.div_1_r, Z.add_0_r, (Z.mul_comm 256), Z.mod_add by lia. by apply Z.mod_small.
  - replace j with (Z.succ (j - 1)) at 1 by lia. rewrite Z.pow_succ_r, <- Z.div_div by lia.
    rewrite (Z.add_comm (m a)), (Z.mul_comm 256), Z.div_add_l by lia. rewrite (Z.div_small (m a)) by apply Hm.
    rewrite Z.add_0_r, IH by lia. f_equal. lia.
Qed.

(** Storing what was loaded copies the bytes. *)
Lemma store_load w m d s x : mem_bytes m ->
  store (Z.of_nat w) m d (load w m s) x = mem_copy m d s (Z.of_nat w) x.
Proof.
  intros Hm. unfold store, mem_copy. destruct (in_range d (Z.of_nat w) x) eqn:E; [|done].
  apply in_range_true in E. apply load_byte; [done|lia].
Qed.

Lemma load_1 m a : load 1 m a = m a.
Proof. cbn [load]. lia. Qed.

(** One step of a forward copy: what is read has not been written yet. *)
Lemma copied_step w m d s k m1 : mem_bytes m1 -> 0 <= k -> d <= s \/ s + k + Z.of_nat w <= d ->
  copied_to m d s k m1 -> copied_to m d s (k + Z.of_nat w) (store (Z.of_nat w) m1 (d + k) (load w m1 (s + k))).
Proof.
  intros Hb Hk Hov Hc x. rewrite store_load by done. unfold mem_copy, in_range.
  destruct (Z.leb_spec (d + k) x), (Z.ltb_spec x (d + k + Z.of_nat w)); cbn [andb].
  - rewrite (proj2 (Z.leb_le d x)), (proj2 (Z.ltb_lt x (d + (k + Z.of_nat w)))) by lia. cbn [andb].
    rewrite Hc. unfold mem_copy. rewrite (proj2 (in_range_false _ _ _)) by lia. f_equal. lia.
  - rewrite Hc. unfold mem_copy, in_range.
    destruct (Z.leb_spec d x), (Z.ltb_spec x (d + k)), (Z.ltb_spec x (d + (k + Z.of_nat w))); cbn [andb]; try done; lia.
  - rewrite Hc. unfold mem_copy, in_range.
    destruct (Z.leb_spec d x), (Z.ltb_spec x (d + k)), (Z.ltb_spec x (d + (k + Z.of_nat w))); cbn [andb]; try done; lia.
  - rewrite Hc. unfold mem_copy, in_range.
    destruct (Z.leb_spec d x), (Z.ltb_spec x (d + k)), (Z.ltb_spec x (d + (k + Z.of_nat w))); cbn [andb]; try done; lia.
Qed.

Lemma copied_bytes m d s k m' : mem_bytes m -> copied_to m d s k m' -> mem_bytes m'.
Proof. intros Hm Hc x. rewrite Hc. unfold mem_copy. destruct (in_range d k x); apply Hm. Qed.

Section Blocks.
Context (m : mem) (d s n : Z) (Hm : mem_bytes m) (Hn : 0 <= n < 2 ^ 64).

Lemma copy_words_spec m0 : copied_to m d s 0 m0 -> d <= s \/ s + n <= d ->
  exists m1 k, copy_words m0 d s n = Some (m1, d + k, s + k, n - k) /\ copied_to m d s k m1 /\ 0 <= k <= n /\ n - k < 8.
Proof.
  intros H0 Hov.
  assert (G : exists r, copy_words m0 d s n = Some r /\ let '(m1, d1, s1, n1) := r in
    exists k, 0 <= k <= n /\ n - k < 8 /\ d1 = d + k /\ s1 = s + k /\ n1 = n - k /\ copied_to m d s k m1).
  { apply (while_spec _
      (fun '(m1, d1, s1, n1) => exists k, 0 <= k <= n /\ d1 = d + k /\ s1 = s + k /\ n1 = n - k /\ copied_to m d s k m1)
      (fun '(_, _, _, n1) => n1)); [|exists 0; rewrite !Z.add_0_r, Z.sub_0_r; split; [lia|]; done|lia].
    intros [[[m1 d1] s1] n1] (k & Hk & -> & -> & -> & Hc). cbn beta iota.
    destruct (Z.leb_spec 8 (n - k)) as [H8|H8]; [|by exists k].
    split; [|lia]. exists (k + 8). split; [lia|]. split; [lia|]. split; [lia|]. split; [lia|].
    apply (copied_step 8); [by eapply copied_bytes|lia|change (Z.of_nat 8) with 8; lia|done]. }
  destruct G as ([[[m1 d1] s1] n1] & E & k & Hk & Hlt & -> & -> & -> & Hc). by exists m1, k.
Qed.

Lemma copy_bytes_spec m0 k0 : copied_to m d s k0 m0 -> 0 <= k0 <= n -> d <= s \/ s + n <= d ->
  exists m1, copy_bytes m0 (d + k0) (s + k0) (n - k0) = Some m1 /\ copied_to m d s n m1.
Proof.
  intros H0 Hk0 Hov.
  apply (while_spec _
    (fun '(m1, d1, s1, n1) => exists k, 0 <= k <= n /\ d1 = d + k /\ s1 = s + k /\ n1 = n - k /\ copied_to m d s k m1)
    (fun '(_, _, _, n1) => n1) (fun m1 => copied_to m d s n m1)); [|exists k0; done|lia].
  intros [[[m1 d1] s1] n1] (k & Hk & -> & -> & -> & Hc). cbn beta iota.
  destruct (Z.eqb_spec (n - k) 0) as [E|E]; [by replace n with k by lia|].
  split; [|lia]. exists (k + 1). split; [lia|]. split; [lia|]. split; [lia|]. split; [lia|].
  rewrite <- (load_1 m1). apply (copied_step 1); [by eapply copied_bytes|lia|change (Z.of_nat 1) with 1; lia|done].
Qed.

Lemma copy_forward_spec m0 : copied_to m d s 0 m0 -> d <= s \/ s + n <= d ->
  exists m1, copy_forward m0 d s n = Some m1 /\ copied_to m d s n m1.
Proof.
  intros H0 Hov. destruct (copy_words_spec m0 H0 Hov) as (m1 & k & E & Hc & Hk & _). unfold copy_forward.
  rewrite (bind_quad _ _ _ _ _ _ E). by apply copy_bytes_spec.
Qed.

(** The descending loop: after [k] bytes the last [k] are in place. *)
Lemma copy_backward_spec m0 : (forall x, m0 x = m x) -> s <= d \/ d + n <= s ->
  exists m1, copy_backward m0 d s n = Some m1 /\ copied_to m d s n m1.
Proof.
  intros H0 Hov.
  apply (while_spec _
    (fun '(m1, d1, s1, n1) => 0 <= n1 <= n /\ d1 = d + n1 /\ s1 = s + n1 /\
       forall x, m1 x = mem_copy m (d + n1) (s + n1) (n - n1) x)
    (fun '(_, _, _, n1) => n1) (fun m1 => copied_to m d s n m1)); [|split; [lia|]; split; [done|]; split; [done|]|lia].
  - intros [[[m1 d1] s1] n1] (Hk & -> & -> & Hc). cbn beta iota.
    destruct (Z.eqb_spec n1 0) as [->|E].
    { intros x. rewrite Hc, !Z.add_0_r, Z.sub_0_r. done. }
    split; [|lia]. split; [lia|]. split; [lia|]. split; [lia|]. intros x.
    replace (d + n1 - 1) with (d + (n1 - 1)) by lia. replace (s + n1 - 1) with (s + (n1 - 1)) by lia.
    rewrite <- (load_1 m1). rewrite (store_load 1).
    2:{ intros y. rewrite Hc. unfold mem_copy. destruct (in_range _ _ y); apply Hm. }
    unfold mem_copy, in_range. change (Z.of_nat 1) with 1.
    destruct (Z.leb_spec (d + (n1 - 1)) x), (Z.ltb_spec x (d + (n1 - 1) + 1)); cbn [andb].
    + rewrite (proj2 (Z.ltb_lt _ _)) by lia. rewrite Hc. unfold mem_copy.
      rewrite (proj2 (in_range_false _ _ _)) by lia. done.
    + rewrite Hc. unfold mem_copy, in_range. rewrite (proj2 (Z.leb_le _ _)) by lia. cbn [andb].
      replace (d + (n1 - 1) + (n - (n1 - 1))) with (d + n) by lia. replace (d + n1 + (n - n1)) with (d + n) by lia.
      destruct (x <? d + n); [f_equal; lia|done].
    + rewrite Hc. unfold mem_copy, in_range. by rewrite (proj2 (Z.leb_gt _ _)) by lia.
    + rewrite Hc. unfold mem_copy, in_range. by rewrite (proj2 (Z.leb_gt _ _)) by lia.
  - intros x. rewrite H0, Z.sub_diag. unfold mem_copy. by rewrite (proj2 (in_range_false _ _ _)) by lia.
Qed.
End Blocks.

Lemma copied_none m d s : copied_to m d s 0 m.
Proof. intros x. unfold mem_copy. by rewrite (proj2 (in_range_false _ _ _)) by lia. Qed.

Lemma i64_id n : - 2 ^ 63 <= n < 2 ^ 63 -> i64 n = n.
Proof. intros Hn. unfold i64. rewrite Z.mod_small by lia. lia. Qed.

(** One step of a fill. *)
Lemma filled_step w m d v k m1 u : 0 <= k -> 0 <= v < 256 ->
  (forall j, 0 <= j < Z.of_nat w -> (u / 256 ^ j) mod 256 = v) ->
  filled_to m d v k m1 -> filled_to m d v (k + Z.of_nat w) (store (Z.of_nat w) m1 (d + k) u).
Proof.
  intros Hk Hv Hu Hc x. unfold store, mem_fill, in_range.
  destruct (Z.leb_spec (d + k) x), (Z.ltb_spec x (d + k + Z.of_nat w)); cbn [andb];
    try (rewrite Hc; unfold mem_fill, in_range;
      destruct (Z.leb_spec d x), (Z.ltb_spec x (d + k)), (Z.ltb_spec x (d + (k + Z.of_nat w))); cbn [andb]; try done; lia).
  rewrite (proj2 (Z.leb_le d x)), (proj2 (Z.ltb_lt x (d + (k + Z.of_nat w)))) by lia. apply Hu. lia.
Qed.

(** The word of eight equal bytes. *)
Lemma repeated_byte v j : 0 <= v < 256 -> 0 <= j < 8 -> (u64 (v * 0x0101010101010101) / 256 ^ j) mod 256 = v.
Proof.
  intros Hv Hj. unfold u64. rewrite (Z.mod_small (v * _)) by lia.
  assert (Hc : j = 0 \/ j = 1 \/ j = 2 \/ j = 3 \/ j = 4 \/ j = 5 \/ j = 6 \/ j = 7) by lia.
  destruct Hc as [->|[->|[->|[->|[->|[->|[->| ->]]]]]]]; cbn [Z.pow Z.pow_pos Pos.iter]; Z.to_euclidean_division_equations; lia.
Qed.

Section Fill.
Context (m : mem) (d v n : Z) (Hv : 0 <= v < 256) (Hn : 0 <= n < 2 ^ 64).

Lemma fill_words_spec m0 : filled_to m d v 0 m0 ->
  exists m1 k, fill_words m0 d n (u64 (v * 0x0101010101010101)) = Some (m1, d + k, n - k) /\
    filled_to m d v k m1 /\ 0 <= k <= n.
Proof.
  intros H0.
  assert (G : exists r, fill_words m0 d n (u64 (v * 0x0101010101010101)) = Some r /\ let '(m1, d1, n1) := r in
    exists k, 0 <= k <= n /\ d1 = d + k /\ n1 = n - k /\ filled_to m d v k m1).
  { apply (while_spec _
      (fun '(m1, d1, n1) => exists k, 0 <= k <= n /\ d1 = d + k /\ n1 = n - k /\ filled_to m d v k m1)
      (fun '(_, _, n1) => n1)); [|exists 0; rewrite Z.add_0_r, Z.sub_0_r; split; [lia|]; done|lia].
    intros [[m1 d1] n1] (k & Hk & -> & -> & Hc). cbn beta iota.
    destruct (Z.leb_spec 8 (n - k)) as [H8|H8]; [|by exists k].
    split; [|lia]. exists (k + 8). split; [lia|]. split; [lia|]. split; [lia|].
    apply (filled_step 8); [lia|done|intros j Hj; by apply repeated_byte|done]. }
  destruct G as ([[m1 d1] n1] & E & k & Hk & -> & -> & Hc). by exists m1, k.
Qed.

Lemma fill_bytes_spec m0 k0 : filled_to m d v k0 m0 -> 0 <= k0 <= n ->
  exists m1, fill_bytes m0 (d + k0) (n - k0) v = Some m1 /\ filled_to m d v n m1.
Proof.
  intros H0 Hk0.
  apply (while_spec _
    (fun '(m1, d1, n1) => exists k, 0 <= k <= n /\ d1 = d + k /\ n1 = n - k /\ filled_to m d v k m1)
    (fun '(_, _, n1) => n1) (fun m1 => filled_to m d v n m1)); [|exists k0; done|lia].
  intros [[m1 d1] n1] (k & Hk & -> & -> & Hc). cbn beta iota.
  destruct (Z.eqb_spec (n - k) 0) as [E|E]; [by replace n with k by lia|].
  split; [|lia]. exists (k + 1). split; [lia|]. split; [lia|]. split; [lia|].
  apply (filled_step 1); [lia|done| |done]. intros j Hj. assert (j = 0) as -> by lia.
  rewrite Z.pow_0_r, Z.div_1_r. by apply Z.mod_small.
Qed.
End Fill.

Section Calls.
Context {A : Accel} {L : AccelLaws A}.

(** What both copiers do with the accelerator. *)
Lemma accelerated_copy m dst src n (f : mem -> option mem) : 0 <= n < 2 ^ 63 ->
  (forall m1, copied_to m dst src 0 m1 -> exists m', f m1 = Some m' /\ copied_to m dst src n m') ->
  exists m', (let '(r, m1) := if BULK_SYSCALL_THRESHOLD <=? n then a_bulk_copy m dst src n else (-1, m) in
    if (BULK_SYSCALL_THRESHOLD <=? n) && (r =? i64 n) then Some (dst, m1)
    else f m1 ≫= fun m => Some (dst, m)) = Some (dst, m') /\ copied_to m dst src n m'.
Proof.
  intros Hn Hf. rewrite i64_id by lia. pose proof (bulk_copy_law m dst src n) as Lc.
  destruct (BULK_SYSCALL_THRESHOLD <=? n); cbn [andb].
  - destruct (a_bulk_copy m dst src n) as [r m1]. destruct Lc as [L1 L2].
    destruct (Z.eqb_spec r n) as [Hr|Hr]; [exists m1; split; [done|exact (L1 Hr)]|].
    destruct (Hf m1) as (m' & E & Hc); [intros x; rewrite (L2 Hr); apply copied_none|].
    exists m'. by rewrite (bind_some _ _ _ E).
  - destruct (Hf m (copied_none m dst src)) as (m' & E & Hc). exists m'. by rewrite (bind_some _ _ _ E).
Qed.

Lemma fill_loops m m1 dst v n : 0 <= v < 256 -> 0 <= n < 2 ^ 63 -> (forall x, m1 x = m x) ->
  exists m', (fill_words m1 dst n (u64 (v * 0x0101010101010101)) ≫= fun '(m, d, n) =>
    fill_bytes m d n v ≫= fun m => Some (dst, m)) = Some (dst, m') /\ filled_to m dst v n m'.
Proof.
  intros Hv Hn H1.
  destruct (fill_words_spec m dst v n Hv ltac:(lia) m1) as (m2 & k & E & H2 & Hk).
  { intros x. rewrite H1. unfold mem_fill. by rewrite (proj2 (in_range_false _ _ _)) by lia. }
  destruct (fill_bytes_spec m dst v n Hv ltac:(lia) m2 k H2 Hk) as (m' & E' & H'). exists m'.
  split; [|exact H']. rewrite (bind_triple _ _ _ _ _ E). exact (bind_some _ _ _ E').
Qed.

Lemma memmove_run m dst src n : mem_bytes m -> 0 <= n < 2 ^ 63 ->
  exists m', memmove m dst src n = Some (dst, m') /\ forall x, m' x = mem_copy m dst src n x.
Proof.
  intros Hm Hn. unfold memmove. destruct (Z.eqb_spec dst src) as [->|Hne]; cbn [orb].
  { exists m. split; [done|]. intros x. unfold mem_copy. destruct (in_range src n x); [f_equal; lia|done]. }
  destruct (Z.eqb_spec n 0) as [->|Hn0]; [exists m; split; [done|]; apply copied_none|].
  apply accelerated_copy; [lia|]. intros m1 H1. destruct (Z.ltb_spec dst src).
  - apply copy_forward_spec; [done|lia|exact H1|lia].
  - apply copy_backward_spec; [done|lia| |lia]. intros x. rewrite H1. symmetry. apply copied_none.
Qed.

Lemma memcpy_run m dst src n : mem_bytes m -> 0 <= n < 2 ^ 63 -> dst <= src \/ src + n <= dst ->
  exists m', memcpy m dst src n = Some (dst, m') /\ forall x, m' x = mem_copy m dst src n x.
Proof.
  intros Hm Hn Hov. unfold memcpy. apply accelerated_copy; [lia|]. intros m1 H1. apply copy_forward_spec; [done|lia|exact H1|lia].
Qed.

Lemma memset_run m dst c n : 0 <= n < 2 ^ 63 ->
  exists m', memset m dst c n = Some (dst, m') /\ forall x, m' x = mem_fill m dst n (u8 c) x.
Proof.
  intros Hn. unfold memset. pose proof (bulk_set_law m dst c n) as Lc.
  assert (Hv : 0 <= u8 c < 256) by (apply Z.mod_pos_bound; lia).
  destruct (if BULK_SYSCALL_THRESHOLD <=? n then a_bulk_set m dst c n else (-1, m)) as [r m1] eqn:E.
  rewrite i64_id by lia. destruct (BULK_SYSCALL_THRESHOLD <=? n); cbn [andb] in *.
  - rewrite E in Lc. destruct Lc as [L1 L2]. destruct (Z.eqb_spec r n) as [Hr|Hr]; [exists m1; split; [done|exact (L1 Hr)]|].
    apply fill_loops; [done|lia|exact (L2 Hr)].
  - injection E as <- <-. apply fill_loops; [done|lia|done].
Qed.

(** Memmove, for every overlap.  Whatever the relative position of the
    two ranges, and whether or not the accelerator takes the request, memmove
    ends, returns the destination, and leaves in it what the source held when
    it was called, with everything else unchanged: the word-at-a-time copy
    upwards and the byte copy downwards never read what they have already
    overwritten.  memcpy does the same for ranges that do not overlap, and for
    a destination below its source; memset fills its range. *)
Theorem memmove_correct m dst src n : mem_bytes m -> 0 <= n < 2 ^ 63 ->
  (exists m', memmove m dst src n = Some (dst, m') /\ forall x, m' x = mem_copy m dst src n x) /\
  (dst <= src \/ src + n <= dst ->
   exists m', memcpy m dst src n = Some (dst, m') /\ forall x, m' x = mem_copy m dst src n x) /\
  (forall c, exists m', memset m dst c n = Some (dst, m') /\ forall x, m' x = mem_fill m dst n (u8 c) x).
Proof. intros Hm Hn. split; [by apply memmove_run|]. split; [by apply memcpy_run|]. intros c. by apply memset_run. Qed.
End Calls.

(** ** Strings as lists *)

Abbreviation len l := (Z.of_nat (length l)).

(** The C string at [p] is [l]. *)
Definition cstr (m : mem) (p : Z) (l : list Z) : Prop :=
  Forall (fun b => b <> 0) l /\ (forall k, 0 <= k < len l -> m (p + k) = zget l k) /\ m (p + len l) = 0.

Lemma zget_nat l k : zget l (Z.of_nat k) = nth k l 0.
Proof.
  unfold zget, zlookup. rewrite (proj2 (Z.ltb_ge _ 0)) by lia. rewrite Nat2Z.id, nth_lookup. by destruct (l !! k).
Qed.
Lemma zget_cons b l k : 0 < k -> zget (b :: l) k = zget l (k - 1).
Proof. intros Hk. rewrite <- (Z2Nat.id k) by lia. destruct (Z.to_nat k) as [|n] eqn:E; [lia|].
  replace (Z.of_nat (S n) - 1) with (Z.of_nat n) by lia. by rewrite !zget_nat. Qed.
Lemma zget_head b l : zget (b :: l) 0 = b.
Proof. done. Qed.
Lemma zget_app_l l l' k : 0 <= k < len l -> zget (l ++ l') k = zget l k.
Proof. intros Hk. rewrite <- (Z2Nat.id k) by lia. rewrite !zget_nat. apply app_nth1. lia. Qed.
Lemma zget_app_r l l' k : len l <= k -> zget (l ++ l') k = zget l' (k - len l).
Proof.
  intros Hk. rewrite <- (Z2Nat.id k) by lia. rewrite zget_nat, app_nth2 by lia.
  replace (Z.of_nat (Z.to_nat k) - len l) with (Z.of_nat (Z.to_nat k - length l)) by lia. by rewrite zget_nat.
Qed.
Lemma zget_in l k : 0 <= k < len l -> In (zget l k) l.
Proof. intros Hk. rewrite <- (Z2Nat.id k) by lia. rewrite zget_nat. apply nth_In. lia. Qed.

Lemma cstr_nonzero m p l k : cstr m p l -> 0 <= k < len l -> (m (p + k) =? 0) = false.
Proof.
  intros (Hnz & Hm & _) Hk. rewrite Hm by done. apply Z.eqb_neq. rewrite List.Forall_forall in Hnz. by apply Hnz, zget_in.
Qed.
Lemma cstr_end m p l : cstr m p l -> (m (p + len l) =? 0) = true.
Proof. intros (_ & _ & E). by apply Z.eqb_eq. Qed.
Lemma cstr_at m p l k : cstr m p l -> 0 <= k < len l -> m (p + k) = zget l k.
Proof. intros (_ & Hm & _). apply Hm. Qed.

(** The string after its first part. *)
Lemma cstr_app m p l l' : cstr m p (l ++ l') -> cstr m (p + len l) l'.
Proof.
  intros (Hnz & Hm & E). apply Forall_app in Hnz as [_ Hnz]. split; [done|]. rewrite length_app in *. split.
  - intros k Hk. rewrite <- Z.add_assoc, Hm, zget_app_r by lia. f_equal. lia.
  - rewrite <- E. f_equal. lia.
Qed.
Lemma cstr_tail m p b l : cstr m p (b :: l) -> cstr m (p + 1) l.
Proof. exact (cstr_app m p [b] l). Qed.
(** Only the string's own bytes matter. *)
Lemma cstr_ext m m' p l : (forall x, p <= x <= p + len l -> m' x = m x) -> cstr m p l -> cstr m' p l.
Proof. intros He (Hnz & Hm & E). split; [done|]. split; [intros k Hk; rewrite He by lia; auto|by rewrite He by lia]. Qed.

(** The longest prefix that satisfies [P], and the rest. *)
Fixpoint take_while (P : Z -> bool) (l : list Z) : list Z :=
  match l with [] => [] | b :: l' => if P b then b :: take_while P l' else [] end.
Fixpoint skip_while (P : Z -> bool) (l : list Z) : list Z :=
  match l with [] => [] | b :: l' => if P b then skip_while P l' else l end.

Lemma take_skip P l : take_while P l ++ skip_while P l = l.
Proof. induction l as [|b l IH]; cbn; [done|]. destruct (P b); cbn; by rewrite ?IH. Qed.
Lemma take_while_all P l : Forall (fun b => P b = true) (take_while P l).
Proof. induction l as [|b l IH]; cbn; [constructor|]. destruct (P b) eqn:E; by constructor. Qed.
Lemma skip_while_head P l b l' : skip_while P l = b :: l' -> P b = false.
Proof. induction l as [|a l IH]; cbn; [done|]. destruct (P a) eqn:E; [done|]. by intros [= <- _]. Qed.
Lemma take_while_zget P l k : 0 <= k < len (take_while P l) -> P (zget l k) = true.
Proof.
  intros Hk. rewrite <- (take_skip P l), zget_app_l by done.
  pose proof (take_while_all P l) as Hf. rewrite List.Forall_forall in Hf. by apply Hf, zget_in.
Qed.
Lemma take_while_len P l : len l = len (take_while P l) + len (skip_while P l).
Proof. rewrite <- (take_skip P l) at 1. rewrite length_app. lia. Qed.

Definition member (ds : list Z) (c : Z) : bool := existsb (Z.eqb c) ds.

Section Scans.
Context (m : mem).

Lemma strlen_run s l : cstr m s l -> len l < 2 ^ 64 -> strlen m s = Some (len l).
Proof.
  intros Hs Hl. apply (while_run _ (fun k => s + k) (len l)); [lia|lia| |].
  - intros k Hk. rewrite (cstr_nonzero _ _ _ _ Hs Hk). f_equal. lia.
  - rewrite (cstr_end _ _ _ Hs). f_equal. lia.
Qed.

Lemma member_take ds c : member ds c = negb (len (take_while (fun d => negb (c =? d)) ds) =? len ds).
Proof.
  unfold member. induction ds as [|d ds IH]; cbn [existsb take_while length]; [done|].
  destruct (c =? d); cbn [negb orb length]; [symmetry; apply negb_true_iff, Z.eqb_neq; lia|].
  rewrite IH. f_equal. apply eq_true_iff_eq. rewrite !Z.eqb_eq. lia.
Qed.

Lemma in_set_run c set ds : cstr m set ds -> len ds < 2 ^ 64 -> in_set m c set = Some (member ds c).
Proof.
  intros Hs Hl. set (P := fun d => negb (c =? d)).
  pose proof (take_while_len P ds) as Hlen.
  apply (while_run _ (fun k => set + k) (len (take_while P ds))); [lia|lia| |].
  - intros k Hk. rewrite (cstr_nonzero _ _ _ k Hs) by lia. rewrite (cstr_at _ _ _ k Hs) by lia.
    pose proof (take_while_zget P ds k Hk) as Hp. apply negb_true_iff in Hp. rewrite Hp. f_equal. lia.
  - rewrite member_take. fold P. destruct (skip_while P ds) as [|d ds'] eqn:E.
    + replace (len (take_while P ds)) with (len ds) by (cbn [length] in Hlen; lia).
      by rewrite (cstr_end _ _ _ Hs), Z.eqb_refl.
    + cbn [length] in Hlen. rewrite (cstr_nonzero _ _ _ _ Hs), (cstr_at _ _ _ _ Hs) by lia.
      pose proof (skip_while_head P ds d ds' E) as Hd. apply negb_false_iff in Hd.
      replace (zget ds (len (take_while P ds))) with d.
      * rewrite Hd. f_equal. symmetry. apply negb_true_iff, Z.eqb_neq. lia.
      * rewrite <- (take_skip P ds) at 1. rewrite zget_app_r, E by lia. by rewrite Z.sub_diag.
Qed.

Lemma scan_set_run s l set ds want : cstr m s l -> cstr m set ds -> len l < 2 ^ 64 -> len ds < 2 ^ 64 ->
  let P := fun b => negb (Bool.eqb (member ds b) want) in
  scan_set m s set want = Some (s + len (take_while P l), match skip_while P l with [] => true | _ => false end).
Proof.
  intros Hs Hd Hl Hdl P. unfold scan_set. pose proof (take_while_len P l) as Hlen.
  set (e := match skip_while P l with [] => true | _ => false end).
  rewrite (while_run _ (fun k => s + k) (len (take_while P l)) (Some (s + len (take_while P l), e))); [done|lia|lia| |].
  - intros k Hk. rewrite (cstr_nonzero _ _ _ k Hs), (in_set_run _ _ _ Hd Hdl), (cstr_at _ _ _ k Hs) by lia.
    pose proof (take_while_zget P l k Hk) as Hp. apply negb_true_iff in Hp. rewrite Hp. f_equal. lia.
  - unfold e. destruct (skip_while P l) as [|b l'] eqn:E.
    + replace (len (take_while P l)) with (len l) by (cbn [length] in Hlen; lia). by rewrite (cstr_end _ _ _ Hs).
    + cbn [length] in Hlen. rewrite (cstr_nonzero _ _ _ _ Hs), (in_set_run _ _ _ Hd Hdl), (cstr_at _ _ _ _ Hs) by lia.
      pose proof (skip_while_head P l b l' E) as Hb. apply negb_false_iff in Hb.
      replace (zget l (len (take_while P l))) with b; [by rewrite Hb|].
      rewrite <- (take_skip P l) at 1. rewrite zget_app_r, E by lia. by rewrite Z.sub_diag.
Qed.
End Scans.

(** ** Tokens *)

(** The pieces between delimiters, and the tokens: the pieces that are not
    empty. *)
Fixpoint fields (ds l : list Z) : list (list Z) :=
  match l with
  | [] => [[]]
  | b :: l' =>
      if member ds b then [] :: fields ds l'
      else match fields ds l' with [] => [[b]] | f :: fs => (b :: f) :: fs end
  end.
Definition tokens (ds l : list Z) : list (list Z) :=
  List.filter (fun f => match f with [] => false | _ => true end) (fields ds l).

(** Calls of strtok_r on [str], then on NULL, up to the one that returns NULL:
    the pointers returned, the memory and the save pointer. *)
Fixpoint strtok_calls (n : nat) (m : mem) (str delim save : Z) : option (list Z * mem * Z) :=
  match n with
  | O => None
  | S n' =>
      strtok_r m str delim save ≫= fun '(r, m, save) =>
      if r =? 0 then Some ([], m, save)
      else strtok_calls n' m 0 delim save ≫= fun '(rs, m, save) => Some (r :: rs, m, save)
  end.

Lemma take_while_ext P P' l : (forall b, P b = P' b) -> take_while P l = take_while P' l.
Proof. intros E. induction l as [|b l IH]; cbn; [done|]. rewrite E, IH. done. Qed.
Lemma skip_while_ext P P' l : (forall b, P b = P' b) -> skip_while P l = skip_while P' l.
Proof. intros E. induction l as [|b l IH]; cbn; [done|]. rewrite E, IH. done. Qed.

Lemma fields_ne ds l : exists f fs, fields ds l = f :: fs.
Proof.
  induction l as [|b l IH]; cbn; [by eexists _, _|]. destruct (member ds b); [by eexists _, _|].
  destruct IH as (f & fs & ->). by eexists _, _.
Qed.

Lemma fields_piece ds tok l : Forall (fun b => member ds b = false) tok ->
  fields ds (tok ++ l) = match fields ds l with [] => [tok] | f :: fs => (tok ++ f) :: fs end.
Proof.
  induction 1 as [|b tok Hb _ IH]; cbn [app fields].
  - by destruct (fields_ne ds l) as (f & fs & ->).
  - rewrite Hb, IH. destruct (fields_ne ds l) as (f & fs & ->). done.
Qed.

Lemma tokens_skip ds l : tokens ds (skip_while (member ds) l) = tokens ds l.
Proof.
  unfold tokens. induction l as [|b l IH]; cbn [skip_while fields]; [done|]. destruct (member ds b) eqn:E; [done|].
  cbn [fields]. by rewrite E.
Qed.

Lemma tokens_piece ds tok l : Forall (fun b => member ds b = false) tok -> tok <> [] ->
  tokens ds (tok ++ l) = match l with [] => [tok] | b :: l' => if member ds b then tok :: tokens ds l' else tokens ds (tok ++ l) end.
Proof.
  intros Hf Hne. unfold tokens. destruct l as [|b l].
  - rewrite fields_piece by done. cbn. rewrite app_nil_r. by destruct tok.
  - destruct (member ds b) eqn:E; [|done]. rewrite fields_piece by done. cbn [fields]. rewrite E, app_nil_r. cbn.
    by destruct tok.
Qed.

(** One call, on a string [l] at [p]. *)
Section Token.
Context (m : mem) (p dl : Z) (l ds : list Z) (Hs : cstr m p l) (Hd : cstr m dl ds)
  (Hl : len l < 2 ^ 64) (Hdl : len ds < 2 ^ 64).
Context (body tok rest : list Z) (start : Z) (Ebody : body = skip_while (member ds) l)
  (Estart : start = p + len (take_while (member ds) l))
  (Etok : tok = take_while (fun b => negb (member ds b)) body)
  (Erest : rest = skip_while (fun b => negb (member ds b)) body).

Lemma strtok_call str save : (if str =? 0 then save else str) = p ->
  strtok_r m str dl save = Some
    match body with
    | [] => (0, m, start)
    | _ => match rest with
           | [] => (start, m, start + len tok)
           | _ => (start, store 1 m (start + len tok) 0, start + len tok + 1)
           end
    end.
Proof.
  intros Estr. unfold strtok_r. rewrite Estr. cbv zeta.
  pose proof (scan_set_run m p l dl ds false Hs Hd Hl Hdl) as E1. cbv zeta in E1.
  rewrite (take_while_ext _ (member ds)) in E1 by (intros b; by destruct (member ds b)).
  rewrite (skip_while_ext _ (member ds)) in E1 by (intros b; by destruct (member ds b)).
  rewrite <- Estart, <- Ebody in E1. rewrite (bind_pair _ _ _ _ E1).
  assert (Hb : cstr m start body) by (rewrite Estart; apply cstr_app; by rewrite Ebody, take_skip).
  assert (Hbl : len body < 2 ^ 64) by (pose proof (take_while_len (member ds) l); subst body; lia).
  pose proof (scan_set_run m start body dl ds true Hb Hd Hbl Hdl) as E2. cbv zeta in E2.
  rewrite (take_while_ext _ (fun b => negb (member ds b))) in E2 by (intros x; by destruct (member ds x)).
  rewrite (skip_while_ext _ (fun b => negb (member ds b))) in E2 by (intros x; by destruct (member ds x)).
  rewrite <- Etok, <- Erest in E2. destruct body; [done|]. rewrite (bind_pair _ _ _ _ E2). by destruct rest.
Qed.
End Token.

(** Strtok_r enumerates the tokens.  Calling it on a string and then on
    NULL until it returns NULL gives, in order, a pointer to each maximal run
    of bytes without a delimiter, none of them empty; when the enumeration
    ends each of these pointers holds its token as a string of its own, and no
    byte outside the string has changed. *)
Theorem strtok_enumerates ds dl lo hi : forall n m l p str save,
  cstr m p l -> cstr m dl ds -> len l < 2 ^ 64 -> len ds < 2 ^ 64 ->
  (if str =? 0 then save else str) = p -> 0 < p -> (length l < n)%nat ->
  lo <= p -> p + len l <= hi -> dl + len ds < lo \/ hi < dl ->
  exists ps m' sv, strtok_calls n m str dl save = Some (ps, m', sv) /\
    Forall2 (cstr m') ps (tokens ds l) /\ (forall x, ~ (p <= x < p + len l) -> m' x = m x).
Proof.
  induction n as [|n IH]; intros m l p str save Hs Hd Hl Hdl Estr Hp Hn Hlo Hhi Hdis; [lia|].
  cbn [strtok_calls].
  remember (take_while (member ds) l) as pre eqn:Epre. remember (skip_while (member ds) l) as body eqn:Ebody.
  remember (take_while (fun b => negb (member ds b)) body) as tok eqn:Etok.
  remember (skip_while (fun b => negb (member ds b)) body) as rest eqn:Erest.
  pose proof (strtok_call m p dl l ds Hs Hd Hl Hdl body tok rest (p + len pre) Ebody ltac:(by rewrite Epre) Etok Erest str save Estr) as E.
  pose proof (take_while_len (member ds) l) as L1. rewrite <- Epre, <- Ebody in L1.
  pose proof (take_while_len (fun b => negb (member ds b)) body) as L2. rewrite <- Etok, <- Erest in L2.
  assert (Hb : cstr m (p + len pre) body) by (apply cstr_app; by rewrite Epre, Ebody, take_skip).
  assert (Hbody : body = tok ++ rest) by (by rewrite Etok, Erest, take_skip).
  assert (Htok : Forall (fun b => member ds b = false) tok).
  { rewrite Etok. eapply List.Forall_impl; [|apply take_while_all]. cbn. intros x Hx. by apply negb_true_iff in Hx. }
  rewrite <- tokens_skip, <- Ebody. destruct body as [|b body'].
  { rewrite (bind_triple _ _ _ _ _ E). by exists [], m, (p + len pre). }
  assert (Hne : tok <> []).
  { pose proof (skip_while_head (member ds) l b body' (eq_sym Ebody)) as Hh. rewrite Etok. cbn. by rewrite Hh. }
  assert (Hstart : (p + len pre =? 0) = false) by (apply Z.eqb_neq; lia).
  assert (Hgo : forall m2 l2 sv, strtok_r m str dl save = Some (p + len pre, m2, sv) ->
    cstr m2 (p + len pre) tok -> cstr m2 sv l2 -> p + len pre + len tok + Z.min 1 (len l2) <= sv -> sv + len l2 <= p + len l ->
    (length l2 < n)%nat -> (forall x, x <> p + len pre + len tok -> m2 x = m x) ->
    m2 (p + len pre + len tok) = m (p + len pre + len tok) \/ p + len pre + len tok < p + len l ->
    tokens ds (b :: body') = tok :: tokens ds l2 ->
    exists ps m' sv', (strtok_r m str dl save ≫= fun '(r, m, save) => if r =? 0 then Some ([], m, save)
      else strtok_calls n m 0 dl save ≫= fun '(rs, m, save) => Some (r :: rs, m, save)) = Some (ps, m', sv') /\
      Forall2 (cstr m') ps (tokens ds (b :: body')) /\ (forall x, ~ (p <= x < p + len l) -> m' x = m x)).
  { intros m2 l2 sv E2 Ht2 Hl2 Hsv Hend Hn2 Hm2 Hcut Etoks.
    destruct (IH m2 l2 sv 0 sv) as (ps & m' & sv' & E' & Hps & Hout); try done; try lia.
    { eapply cstr_ext; [|exact Hd]. intros x Hx. apply Hm2. lia. }
    exists ((p + len pre) :: ps), m', sv'. rewrite (bind_triple _ _ _ _ _ E2), Hstart. split; [exact (bind_triple _ _ _ _ _ E')|].
    rewrite Etoks. split; [constructor; [|done]|].
    - eapply cstr_ext; [|exact Ht2]. intros x Hx. apply Hout. lia.
    - intros x Hx. rewrite Hout by lia. destruct (Z.eq_dec x (p + len pre + len tok)) as [->|]; [|by apply Hm2]. destruct Hcut; [done|lia]. }
  rewrite Hbody in Hb. cbn [length] in L1, L2. destruct rest as [|c rest'].
  - apply (Hgo m [] (p + len pre + len tok)); [exact E|by rewrite app_nil_r in Hb|exact (cstr_app _ _ tok [] Hb)|cbn [length] in *; lia| | |done|by left|];
      [cbn [length] in *; lia|destruct tok; [done|]; cbn [length] in *; lia|].
    rewrite Hbody, tokens_piece by done. done.
  - cbn [length] in L2.
    assert (Hm2 : forall x, x <> p + len pre + len tok -> store 1 m (p + len pre + len tok) 0 x = m x).
    { intros x Hx. unfold store. by rewrite (proj2 (in_range_false _ _ _)) by lia. }
    pose proof (skip_while_head _ _ _ _ (eq_sym Erest)) as Hc. apply negb_false_iff in Hc.
    apply (Hgo (store 1 m (p + len pre + len tok) 0) rest' (p + len pre + len tok + 1)); [exact E|..| | | |done| |].
    + destruct Hb as (Hnz & Hat & _). apply Forall_app in Hnz as [Hnz _]. split; [done|]. rewrite length_app in Hat. split.
      * intros k Hk. rewrite Hm2 by lia. rewrite Hat, zget_app_l by lia. done.
      * unfold store. by rewrite (proj2 (in_range_true _ _ _)) by lia.
    + eapply cstr_ext; [intros x Hx; apply Hm2; lia|]. exact (cstr_tail _ _ _ _ (cstr_app _ _ _ _ Hb)).
    + lia.
    + lia.
    + lia.
    + right. lia.
    + rewrite Hbody, tokens_piece by done. by rewrite Hc.
Qed.

(** ** Instances *)

(** The virtual machine's accelerators, which take every request. *)
#[global] Instance native_accel : Accel := {
  a_bulk_copy m d s n := (n, mem_copy m d s n);
  a_bulk_set m d c n := (n, mem_fill m d n (u8 c)) }.
#[global] Instance native_accel_laws : AccelLaws native_accel.
Proof. split; intros; cbn; done. Qed.

(** "ab,,c" at 100 and "," at 50, zero elsewhere. *)
Definition demo_string (x : Z) : Z :=
  match x with 100 => 97 | 101 => 98 | 102 => 44 | 103 => 44 | 104 => 99 | 50 => 44 | _ => 0 end.

Lemma demo_string_bytes : mem_bytes demo_string.
Proof.
  intros x. unfold demo_string. repeat (case_match; try lia).
Qed.

Lemma memmove_correct_witness :
  exists m', memmove demo_string 102 100 5 = Some (102, m') /\ forall x, m' x = mem_copy demo_string 102 100 5 x.
Proof. apply (memmove_correct demo_string 102 100 5 demo_string_bytes). lia. Defined.

Lemma demo_cstr : cstr demo_string 100 [97; 98; 44; 44; 99] /\ cstr demo_string 50 [44].
Proof.
  split; (split; [repeat constructor; lia|]); (split; [|reflexivity]); cbn [length]; intros k Hk.
  - assert (Hc : k = 0 \/ k = 1 \/ k = 2 \/ k = 3 \/ k = 4) by lia. by destruct Hc as [->|[->|[->|[->| ->]]]].
  - by assert (k = 0) as -> by lia.
Qed.

Lemma strtok_enumerates_witness :
  exists ps m' sv, strtok_calls 6 demo_string 100 50 0 = Some (ps, m', sv) /\
    Forall2 (cstr m') ps [[97; 98]; [99]] /\ (forall x, ~ (100 <= x < 105) -> m' x = demo_string x).
Proof.
  exact (strtok_enumerates [44] 50 100 105 6 demo_string [97; 98; 44; 44; 99] 100 100 0 (proj1 demo_cstr) (proj2 demo_cstr)
    ltac:(cbn; lia) ltac:(cbn; lia) eq_refl ltac:(lia) ltac:(cbn; lia) ltac:(lia) ltac:(cbn; lia) ltac:(cbn; lia)).
Defined.
