(* ===== verification/CStdlib.v ===== *)
(** * stdlib.c of the C runtime library: numbers, sorting, exit

    Everything of stdlib.c but the allocator and the environment, which have
    files of their own.  [errno] is a result where a function sets it: [None]
    leaves it alone. *)
From Stdlib Require Import ZArith Lia Bool.
From stdpp Require Import base list numbers.
From S2P Require Import Prelude Monad State Memory CString.

(** ** Numbers *)

Definition LONG_MAX : Z := 0x7fffffffffffffff.
Definition LONG_MIN : Z := - LONG_MAX - 1.
Definition ULONG_MAX : Z := 0xffffffffffffffff.
Definition EINVAL : Z := 22.
Definition ENOMEM : Z := 12.
Definition ERANGE : Z := 34.

Definition abs (j : Z) : Z := if j <? 0 then i32 (- j) else j.
Definition labs (j : Z) : Z := if j <? 0 then i64 (- j) else j.

Definition digit_value (c base : Z) : Z :=
  if isdigit c then (if c - 48 <? base then c - 48 else -1)
  else if islower c then (if c - 97 + 10 <? base then c - 97 + 10 else -1)
  else if isupper c then (if c - 65 + 10 <? base then c - 65 + 10 else -1)
  else -1.

(** Whitespace, sign and prefix: where the digits start, the sign, the base. *)
Definition skip_space (m : mem) (p : Z) : option Z :=
  while (fun p => if isspace (m p) then inl (p + 1) else inr p) p.
Definition number_start (m : mem) (nptr base : Z) : option (Z * bool * Z) :=
  skip_space m nptr ≫= fun p =>
  let neg := m p =? 45 in
  let p := if (m p =? 43) || (m p =? 45) then p + 1 else p in
  if ((base =? 0) || (base =? 16)) && (m p =? 48) && ((m (p + 1) =? 120) || (m (p + 1) =? 88))
     && (0 <=? digit_value (m (p + 2)) 16)
  then Some (p + 2, neg, 16)
  else Some (p, neg, if base =? 0 then (if m p =? 48 then 8 else 10) else base).

(** The digit loop: where it stops, the value, whether there was a digit,
    whether the value passed the limit. *)
Definition accumulate (m : mem) (p base cutoff cutlim : Z) : option (Z * Z * bool * bool) :=
  while (fun '(p, acc, any, ovf) =>
    let d := digit_value (m p) base in
    if d <? 0 then inr (p, acc, any, ovf)
    else if (ovf : bool) then inl (p + 1, acc, true, ovf)
    else if (cutoff <? acc) || ((acc =? cutoff) && (cutlim <? d)) then inl (p + 1, acc, true, true)
    else inl (p + 1, u64 (u64 (acc * base) + d), true, ovf)) (p, 0, false, false).

Definition set_end (m : mem) (endptr p : Z) : mem := if endptr =? 0 then m else store 8 m endptr p.
Definition bad_base (base : Z) : bool := negb (base =? 0) && ((base <? 2) || (36 <? base)).

(** The value, the memory and the new [errno]. *)
Definition strtol (m : mem) (nptr endptr base : Z) : option (Z * mem * option Z) :=
  if bad_base base then Some (0, set_end m endptr nptr, Some EINVAL) else
  number_start m nptr base ≫= fun '(p, neg, base) =>
  let cutoff := if (neg : bool) then u64 (LONG_MAX + 1) else LONG_MAX in
  accumulate m p base (cutoff / base) (cutoff mod base) ≫= fun '(p, acc, any, ovf) =>
  if (ovf : bool) then Some (if neg then LONG_MIN else LONG_MAX, set_end m endptr p, Some ERANGE)
  else if negb any then Some (0, set_end m endptr nptr, None)
  else Some (if neg then i64 (- i64 acc) else i64 acc, set_end m endptr p, None).

Definition strtoll (m : mem) (nptr endptr base : Z) : option (Z * mem * option Z) :=
  if bad_base base then Some (0, set_end m endptr nptr, Some EINVAL) else
  number_start m nptr base ≫= fun '(p, neg, base) =>
  let cutoff := if (neg : bool) then u64 (LONG_MAX + 1) else LONG_MAX in
  accumulate m p base (cutoff / base) (cutoff mod base) ≫= fun '(p, acc, any, ovf) =>
  if (ovf : bool) then Some (if neg then LONG_MIN else LONG_MAX, set_end m endptr p, Some ERANGE)
  else if negb any then Some (0, set_end m endptr nptr, None)
  else Some (if neg then i64 (- i64 acc) else i64 acc, set_end m endptr p, None).

Definition strtoul (m : mem) (nptr endptr base : Z) : option (Z * mem * option Z) :=
  if bad_base base then Some (0, set_end m endptr nptr, Some EINVAL) else
  number_start m nptr base ≫= fun '(p, neg, base) =>
  accumulate m p base (ULONG_MAX / base) (ULONG_MAX mod base) ≫= fun '(p, acc, any, ovf) =>
  if (ovf : bool) then Some (ULONG_MAX, set_end m endptr p, Some ERANGE)
  else if negb any then Some (0, set_end m endptr nptr, None)
  else Some (if (neg : bool) then u64 (- acc) else acc, set_end m endptr p, None).

Definition atoi (m : mem) (nptr : Z) : option (Z * mem * option Z) :=
  strtol m nptr 0 10 ≫= fun '(v, m, e) => Some (i32 v, m, e).

(** ** Random numbers: [g_rand_next] is passed along *)
Definition rand (g_rand_next : Z) : Z * Z :=
  let g := u64 (u64 (g_rand_next * 1103515245) + 12345) in (Z.land (Z.shiftr g 16) 0x7fff, g).
Definition srand (seed : Z) : Z := u32 seed.

(** ** qsort *)

(** [compar] is the caller's function: it reads memory through its two
    pointers. *)
Definition qsort_swap (m : mem) (a b size : Z) : option mem :=
  while (fun '(m, k) =>
    if k <? size then
      let t := m (a + k) in inl (store 1 (store 1 m (a + k) (m (b + k))) (b + k) t, k + 1)
    else inr m) (m, 0).

Definition find_min (compar : mem -> Z -> Z -> Z) (m : mem) (arr nmemb size i : Z) : option Z :=
  while (fun '(j, min) =>
    if j <? nmemb then inl (j + 1, if compar m (arr + j * size) (arr + min * size) <? 0 then j else min)
    else inr min) (i + 1, i).

Definition qsort (compar : mem -> Z -> Z -> Z) (m : mem) (base nmemb size : Z) : option mem :=
  if (nmemb <? 2) || (size =? 0) then Some m else
  mjoin (while (fun '(m, i) =>
    if i + 1 <? nmemb then
      match find_min compar m base nmemb size i with
      | None => inr None
      | Some min =>
          if min =? i then inl (m, i + 1)
          else match qsort_swap m (base + i * size) (base + min * size) size with
               | None => inr None
               | Some m' => inl (m', i + 1)
               end
      end
    else inr (Some m)) (m, 0)).

(** ** atexit and exit

    [W] is what the registered functions act on besides the registry; [call]
    runs one of them, and it may register more. *)
Record registry := { g_atexit : list Z; g_atexit_n : Z }.
Definition ATEXIT_MAX : Z := 32.
Definition registry_boot : registry := {| g_atexit := replicate 32 0; g_atexit_n := 0 |}.

Definition atexit (r : registry) (func : Z) : Z * registry :=
  if ATEXIT_MAX <=? g_atexit_n r then (-1, r)
  else (0, {| g_atexit := <[Z.to_nat (g_atexit_n r) := func]> (g_atexit r); g_atexit_n := g_atexit_n r + 1 |}).

Section Exit.
Context {W : Type} (call : Z -> registry * W -> registry * W) (stdio_flush_all : W -> W) (_exit : Z -> W -> W).

Definition exit (status : Z) (r : registry) (w : W) : option W :=
  while (fun '(r, w) =>
    if 0 <? g_atexit_n r then
      let n := g_atexit_n r - 1 in
      inl (call (zget (g_atexit r) n) ({| g_atexit := g_atexit r; g_atexit_n := n |}, w))
    else inr (_exit status (stdio_flush_all w))) (r, w).
Definition abort (w : W) : W := _exit 134 w.
End Exit.

Definition system (command : Z) : Z := if command =? 0 then 0 else -1.
