(* ===== verification/CStdlibProps.v ===== *)
(** * Number parsing is correct

    [number] says what the numeral at the start of a string is; strtol,
    strtoll and strtoul against it, and the round trip with the decimal
    printer of the kernel. *)
From Stdlib Require Import ZArith Lia Bool String.
From stdpp Require Import base list numbers sorting.
From S2P Require Import Prelude Monad State Memory Support MemFacts CString CStringProps CStdlib.

(** ** What a numeral is *)

(** The characters read as digits of base [b], and their value. *)
Definition is_digit (b c : Z) : bool := 0 <=? digit_value c b.
Definition numeral (b : Z) (ds : list Z) : Z := fold_left (fun a c => a * b + digit_value c b) ds 0.

(** Sign, base, digits, and the number of characters up to their end. *)
Definition number (base : Z) (l : list Z) : bool * Z * list Z * Z :=
  let l1 := skip_while isspace l in
  let '(neg, l2) := match l1 with c :: r => if c =? 43 then (false, r) else if c =? 45 then (true, r) else (false, l1) | [] => (false, []) end in
  let '(b, l3) :=
    if ((base =? 0) || (base =? 16)) && (zget l2 0 =? 48) && ((zget l2 1 =? 120) || (zget l2 1 =? 88)) && is_digit 16 (zget l2 2)
    then (16, drop 2 l2) else (if base =? 0 then if zget l2 0 =? 48 then 8 else 10 else base, l2) in
  let ds := take_while (is_digit b) l3 in
  (neg, b, ds, len l - len l3 + len ds).

(** ** The loops *)

Lemma cstr_get m p l k : cstr m p l -> 0 <= k <= len l -> m (p + k) = zget l k.
Proof.
  intros (_ & Hm & E) Hk. destruct (Z.eq_dec k (len l)) as [->|]; [|apply Hm; lia].
  rewrite E, zget_nat. by rewrite nth_overflow.
Qed.

Lemma scan_go m p l P k : cstr m p l -> 0 <= k < len (take_while P l) -> P (m (p + k)) = true.
Proof.
  intros Hs Hk. pose proof (take_while_len P l). rewrite (cstr_get _ _ _ _ Hs) by lia. by apply take_while_zget.
Qed.
Lemma scan_stop m p l P : cstr m p l -> P 0 = false -> P (m (p + len (take_while P l))) = false.
Proof.
  intros Hs H0. pose proof (take_while_len P l). rewrite (cstr_get _ _ _ _ Hs) by lia.
  rewrite <- (take_skip P l) at 1. rewrite zget_app_r, Z.sub_diag by lia.
  destruct (skip_while P l) as [|b r] eqn:E; [done|]. exact (skip_while_head _ _ _ _ E).
Qed.

Lemma skip_space_run m p l : cstr m p l -> len l < 2 ^ 64 -> skip_space m p = Some (p + len (take_while isspace l)).
Proof.
  intros Hs Hl. pose proof (take_while_len isspace l).
  apply (while_run _ (fun k => p + k) (len (take_while isspace l))); [lia|lia| |].
  - intros k Hk. rewrite (scan_go m p l isspace k Hs Hk). f_equal. lia.
  - by rewrite (scan_stop m p l isspace Hs).
Qed.

Lemma numeral_app b ds c : numeral b (ds ++ [c]) = numeral b ds * b + digit_value c b.
Proof. unfold numeral. by rewrite fold_left_app. Qed.

Lemma digit_value_bound c b : digit_value c b = -1 \/ 0 <= digit_value c b < b.
Proof.
  unfold digit_value, isdigit, islower, isupper, between.
  repeat match goal with |- context [if ?x then _ else _] => destruct x eqn:? end;
    repeat match goal with H : (_ && _) = true |- _ => apply andb_prop in H as [? ?] end; lia.
Qed.

Lemma digit_zero b : is_digit b 0 = false.
Proof. done. Qed.

(** The state of the digit loop after [k] digits. *)
Definition acc_inv (b limit : Z) (ds : list Z) (p acc : Z) (any ovf : bool) (p0 k : Z) : Prop :=
  p = p0 + k /\ 0 <= k <= len ds /\ any = (0 <? k) /\ ovf = (limit <? numeral b (take (Z.to_nat k) ds)) /\
  (ovf = false -> acc = numeral b (take (Z.to_nat k) ds)) /\ 0 <= numeral b (take (Z.to_nat k) ds).

Lemma take_next (l : list Z) k : 0 <= k < len l -> take (Z.to_nat (k + 1)) l = take (Z.to_nat k) l ++ [zget l k].
Proof.
  intros Hk. replace (Z.to_nat (k + 1)) with (S (Z.to_nat k)) by lia.
  assert (Hx : l !! Z.to_nat k = Some (zget l k)).
  { unfold zget, zlookup. rewrite (proj2 (Z.ltb_ge k 0)) by lia.
    destruct (lookup_lt_is_Some_2 l (Z.to_nat k)) as [x E]; [lia|]. by rewrite E. }
  by apply take_S_r.
Qed.

Section Accumulate.
Context (m : mem) (p b limit : Z) (l : list Z) (Hs : cstr m p l) (Hl : len l < 2 ^ 64)
  (Hb : 2 <= b <= 36) (Hlim : 0 <= limit < 2 ^ 64).
Let ds := take_while (is_digit b) l.

Lemma accumulate_run : exists acc, accumulate m p b (limit / b) (limit mod b) =
    Some (p + len ds, acc, (0 <? len ds), (limit <? numeral b ds)) /\
  ((limit <? numeral b ds) = false -> acc = numeral b ds) /\ 0 <= numeral b ds.
Proof.
  pose proof (take_while_len (is_digit b) l) as Hlen. fold ds in Hlen.
  assert (G : exists r, accumulate m p b (limit / b) (limit mod b) = Some r /\
    (fun '(p', acc, any, ovf) => acc_inv b limit ds p' acc any ovf p (len ds)) r).
  { apply (while_spec _ (fun '(p', acc, any, ovf) => exists k, acc_inv b limit ds p' acc any ovf p k)
      (fun '(p', _, _, _) => p + len ds - p')).
    - intros [[[p' acc] any] ovf] (k & -> & Hk & -> & Eovf & Hacc & Hnn). cbv zeta.
      destruct (Z.eq_dec k (len ds)) as [->|Hne].
      { pose proof (scan_stop m p l (is_digit b) Hs eq_refl) as Hst. fold ds in Hst. unfold is_digit in Hst.
        rewrite (proj2 (Z.ltb_lt _ 0)) by lia. by repeat split; try lia. }
      pose proof (scan_go m p l (is_digit b) k Hs ltac:(fold ds; lia)) as Hgo. unfold is_digit in Hgo.
      apply Z.leb_le in Hgo. rewrite (proj2 (Z.ltb_ge _ 0)) by lia.
      assert (Ed : m (p + k) = zget ds k).
      { rewrite (cstr_get m p l k Hs) by lia. rewrite <- (take_skip (is_digit b) l) at 1. fold ds. apply zget_app_l. lia. }
      rewrite Ed in *. set (d := digit_value (zget ds k) b) in *. destruct (digit_value_bound (zget ds k) b) as [Hd|Hd]; [lia|]. fold d in Hd.
      assert (En : numeral b (take (Z.to_nat (k + 1)) ds) = numeral b (take (Z.to_nat k) ds) * b + d)
        by (rewrite take_next by lia; apply numeral_app).
      assert (Hmono : numeral b (take (Z.to_nat k) ds) <= numeral b (take (Z.to_nat (k + 1)) ds)) by (rewrite En; nia).
      pose proof (Z.div_mod limit b ltac:(lia)) as Hdm. pose proof (Z.mod_pos_bound limit b ltac:(lia)) as Hmb.
      pose proof (Z.div_pos limit b ltac:(lia) ltac:(lia)) as Hdp.
      assert (Hk1 : (0 <? k + 1) = true) by (apply Z.ltb_lt; lia).
      destruct ovf.
      { symmetry in Eovf. apply Z.ltb_lt in Eovf. split; [|lia]. exists (k + 1). split; [lia|]. split; [lia|].
        split; [done|]. split; [symmetry; apply Z.ltb_lt; lia|]. split; [done|lia]. }
      symmetry in Eovf. apply Z.ltb_ge in Eovf. specialize (Hacc eq_refl). subst acc.
      set (v := numeral b (take (Z.to_nat k) ds)) in *.
      destruct ((limit / b <? v) || ((v =? limit / b) && (limit mod b <? d))) eqn:E.
      + assert (limit < v * b + d).
        { apply orb_prop in E as [E|E]; [apply Z.ltb_lt in E; nia|]. apply andb_prop in E as [E1 E2].
          apply Z.eqb_eq in E1. apply Z.ltb_lt in E2. rewrite E1. lia. }
        split; [|lia]. exists (k + 1). split; [lia|]. split; [lia|]. split; [done|].
        split; [symmetry; apply Z.ltb_lt; lia|]. split; [done|lia].
      + apply orb_false_iff in E as [E1 E2]. apply Z.ltb_ge in E1.
        assert (v * b + d <= limit).
        { apply andb_false_iff in E2 as [E2|E2]; [apply Z.eqb_neq in E2; nia|apply Z.ltb_ge in E2; nia]. }
        split; [|lia]. exists (k + 1). split; [lia|]. split; [lia|]. split; [done|].
        split; [symmetry; apply Z.ltb_ge; lia|]. split; [|lia]. intros _.
        rewrite (u64_small (v * b)) by nia. rewrite u64_small by nia. lia.
    - exists 0. unfold acc_inv. change (numeral b (take (Z.to_nat 0) ds)) with 0.
      split; [lia|]. split; [lia|]. split; [done|]. split; [symmetry; apply Z.ltb_ge; lia|]. done.
    - lia. }
  destruct G as ([[[p' acc] any] ovf] & E & -> & _ & -> & -> & Hacc & Hnn).
  rewrite Nat2Z.id, take_ge in * by lia. by exists acc.
Qed.
End Accumulate.

(** ** Where the digits start *)

Lemma drop_cstr m p l k : cstr m p l -> 0 <= k <= len l -> cstr m (p + k) (drop (Z.to_nat k) l).
Proof.
  intros Hs Hk. rewrite <- (take_drop (Z.to_nat k) l) in Hs. apply cstr_app in Hs.
  rewrite length_take_le in Hs by lia. by rewrite Z2Nat.id in Hs by lia.
Qed.

Lemma number_start_run m p base l : cstr m p l -> len l < 2 ^ 64 ->
  let '(neg, b, ds, n) := number base l in
  exists p' l3, number_start m p base = Some (p', neg, b) /\ cstr m p' l3 /\ ds = take_while (is_digit b) l3 /\
    p + n = p' + len ds /\ len l3 <= len l.
Proof.
  intros Hs Hl. unfold number, number_start. rewrite (bind_some _ _ _ (skip_space_run m p l Hs Hl)).
  pose proof (take_while_len isspace l) as Hlen.
  assert (H1 : cstr m (p + len (take_while isspace l)) (skip_while isspace l)) by (apply cstr_app; by rewrite take_skip).
  set (p1 := p + len (take_while isspace l)) in *. set (l1 := skip_while isspace l) in *.
  assert (Hp1 : p1 + len l1 = p + len l) by (unfold p1; lia).
  assert (E1 : m p1 = zget l1 0) by (rewrite <- (cstr_get _ _ _ 0 H1) by lia; f_equal; lia).
  assert (G : exists neg l2 p2, (match l1 with c :: r => if c =? 43 then (false, r) else if c =? 45 then (true, r) else (false, l1) | [] => (false, []) end) = (neg, l2) /\
     (m p1 =? 45) = neg /\ (if (m p1 =? 43) || (m p1 =? 45) then p1 + 1 else p1) = p2 /\ cstr m p2 l2 /\ p1 <= p2 /\ p2 + len l2 = p1 + len l1).
  { rewrite E1. destruct l1 as [|c r]; [exists false, [], p1; split_and!; (done || lia)|]. rewrite zget_head.
    destruct (Z.eqb_spec c 43) as [->|H43].
    { exists false, r, (p1 + 1). split; [done|]. split; [done|]. split; [done|]. split; [by apply (cstr_tail _ _ 43)|]. split; [lia|]. cbn [length]. lia. }
    destruct (Z.eqb_spec c 45) as [->|H45]; cbn [orb]; [|exists false, (c :: r), p1; split_and!; (done || lia)].
    exists true, r, (p1 + 1). split; [done|]. split; [done|]. split; [done|]. split; [by apply (cstr_tail _ _ 45)|]. split; [lia|]. cbn [length]. lia. }
  destruct G as (neg & l2 & p2 & -> & -> & E2 & H2 & Hle & Hp2). rewrite E2. clear E1 E2.
  assert (E0 : m p2 = zget l2 0) by (rewrite <- (cstr_get _ _ _ 0 H2) by lia; f_equal; lia). rewrite E0.
  assert (Eg : (m p2 =? 48) && ((m (p2 + 1) =? 120) || (m (p2 + 1) =? 88)) && (0 <=? digit_value (m (p2 + 2)) 16) =
    (zget l2 0 =? 48) && ((zget l2 1 =? 120) || (zget l2 1 =? 88)) && is_digit 16 (zget l2 2)).
  { rewrite E0. destruct (Z.eqb_spec (zget l2 0) 48) as [H48|]; cbn [andb]; [|done].
    destruct l2 as [|c2 [|c3 l2]]; [done| |].
    - rewrite (cstr_get _ _ _ 1 H2) by (cbn; lia). done.
    - rewrite (cstr_get _ _ _ 1 H2), (cstr_get _ _ _ 2 H2) by (cbn [length]; lia). done. }
  rewrite E0 in Eg. set (hex := (base =? 0) || (base =? 16)).
  rewrite <- (andb_assoc hex), <- (andb_assoc hex), <- (andb_assoc hex (zget l2 0 =? 48)), <- (andb_assoc hex _ (0 <=? _)), Eg.
  destruct (hex && _) eqn:E.
  - assert (H2l : 2 <= len l2).
    { destruct l2 as [|? [|? ?]]; [| |cbn [length]; lia]; exfalso; revert E; destruct hex; cbn; [|done|..].
      - done.
      - destruct (_ =? 48); done.
      - done. }
    exists (p2 + 2), (drop 2 l2). split; [done|]. split; [by apply (drop_cstr m p2 l2 2)|]. split; [done|].
    rewrite length_drop. lia.
  - exists p2, l2. split; [done|]. split; [done|]. split; [done|]. lia.
Qed.

Lemma number_base base l : bad_base base = false -> 2 <= (number base l).1.1.2 <= 36.
Proof.
  unfold bad_base, number. intros Hb. apply andb_false_iff in Hb.
  assert (base = 0 \/ 2 <= base <= 36) as Hc.
  { destruct Hb as [Hb|Hb]; [left; apply negb_false_iff, Z.eqb_eq in Hb; done|].
    right. apply orb_false_iff in Hb as [? ?]. lia. }
  destruct (match skip_while isspace l with [] => _ | _ => _ end) as [neg l2].
  destruct (((base =? 0) || (base =? 16)) && _ && _ && _); cbn; [lia|].
  destruct (Z.eqb_spec base 0); [|lia]. destruct (_ =? 48); lia.
Qed.

(** Both functions, on every branch. *)
Lemma strtol_run m nptr endptr base l : cstr m nptr l -> len l < 2 ^ 64 ->
  let '(neg, b, ds, n) := number base l in
  let v := if neg then - numeral b ds else numeral b ds in
  let m' := set_end m endptr (if bad_base base || (len ds =? 0) then nptr else nptr + n) in
  strtol m nptr endptr base = Some
    (if bad_base base then (0, m', Some EINVAL)
     else (Z.max LONG_MIN (Z.min LONG_MAX v), m', if (v <? LONG_MIN) || (LONG_MAX <? v) then Some ERANGE else None)) /\
  strtoul m nptr endptr base = Some
    (if bad_base base then (0, m', Some EINVAL)
     else if ULONG_MAX <? numeral b ds then (ULONG_MAX, m', Some ERANGE) else (u64 v, m', None)).
Proof.
  intros Hs Hl. pose proof (number_start_run m nptr base l Hs Hl) as Hst. pose proof (number_base base l) as Hb.
  destruct (number base l) as [[[neg b] ds] n]. cbn [fst snd] in Hb. cbv zeta.
  destruct Hst as (p' & l3 & Est & H3 & -> & Hn & Hl3). unfold strtol, strtoul.
  destruct (bad_base base); [done|]. specialize (Hb eq_refl). cbn [orb].
  rewrite !(bind_triple _ _ _ _ _ Est).
  assert (Hcut : forall limit, 0 <= limit < 2 ^ 64 -> _) by exact (fun limit Hlim => accumulate_run m p' b limit l3 H3 ltac:(lia) Hb Hlim).
  set (ds := take_while (is_digit b) l3) in *. rewrite Hn.
  assert (Hany : negb (0 <? len ds) = (len ds =? 0)) by (destruct (Z.ltb_spec 0 (len ds)), (Z.eqb_spec (len ds) 0); lia).
  assert (Hzero : len ds = 0 -> numeral b ds = 0) by (intros E; by destruct ds).
  split.
  - change (u64 (LONG_MAX + 1)) with 9223372036854775808. unfold LONG_MIN, LONG_MAX.
    set (lim := if neg then 9223372036854775808 else 9223372036854775807).
    destruct (Hcut lim) as (acc & E & Hacc & Hnn); [by destruct neg|].
    rewrite (bind_quad _ _ _ _ _ _ E). destruct (Z.ltb_spec lim (numeral b ds)) as [Ho|Ho].
    + destruct (Z.eqb_spec (len ds) 0) as [Hz|_]; [rewrite Hzero in Ho by done; by destruct neg|].
      subst lim. destruct neg; cbn iota in Ho.
      * rewrite (proj2 (Z.ltb_lt (- numeral b ds) _)) by lia. cbn [orb]. repeat f_equal. lia.
      * rewrite (proj2 (Z.ltb_lt 9223372036854775807 _)) by lia. rewrite orb_true_r. repeat f_equal. lia.
    + rewrite Hany. destruct (Z.eqb_spec (len ds) 0) as [Hz|_]; [rewrite Hzero by done; by destruct neg|].
      rewrite Hacc by done. subst lim. destruct neg; cbn iota in Ho.
      * rewrite (proj2 (Z.ltb_ge (- numeral b ds) _)), (proj2 (Z.ltb_ge _ (- numeral b ds))) by lia. cbn [orb]. do 3 f_equal.
        destruct (Z.eq_dec (numeral b ds) (2 ^ 63)) as [->|]; [done|]. rewrite (i64_id (numeral b ds)) by lia. rewrite i64_id by lia. lia.
      * rewrite (proj2 (Z.ltb_ge (numeral b ds) _)), (proj2 (Z.ltb_ge _ (numeral b ds))) by lia. cbn [orb]. do 3 f_equal.
        rewrite (i64_id (numeral b ds)) by lia. lia.
  - destruct (Hcut ULONG_MAX ltac:(done)) as (acc & E & Hacc & Hnn).
    rewrite (bind_quad _ _ _ _ _ _ E). unfold ULONG_MAX in *.
    destruct (Z.ltb_spec 18446744073709551615 (numeral b ds)) as [Ho|Ho].
    + destruct (Z.eqb_spec (len ds) 0) as [Hz|_]; [rewrite Hzero in Ho by done; lia|done].
    + rewrite Hany. destruct (Z.eqb_spec (len ds) 0) as [Hz|_]; [rewrite Hzero by done; by destruct neg|].
      rewrite Hacc by done. destruct neg; [done|]. by rewrite u64_small by lia.
Qed.

(** C31: strtol and strtoul.  For every base and every string: a base outside
    0 and 2 to 36 gives 0 and EINVAL; otherwise the result is the value of
    the longest numeral after white space, a sign and the base's prefix,
    clamped to the range of the type with ERANGE when it does not fit (the
    unsigned function negates modulo 2^64); *endptr, when asked for, is just
    after the last digit, those past an overflow included, or the start of
    the string when there is no numeral; nothing else is written. *)
Theorem strtol_correct m nptr endptr base l : cstr m nptr l -> len l < 2 ^ 64 ->
  let '(neg, b, ds, n) := number base l in
  let v := if neg then - numeral b ds else numeral b ds in
  let m' := set_end m endptr (if bad_base base || (len ds =? 0) then nptr else nptr + n) in
  strtol m nptr endptr base = Some
    (if bad_base base then (0, m', Some EINVAL)
     else (Z.max LONG_MIN (Z.min LONG_MAX v), m', if (v <? LONG_MIN) || (LONG_MAX <? v) then Some ERANGE else None)) /\
  strtoul m nptr endptr base = Some
    (if bad_base base then (0, m', Some EINVAL)
     else if ULONG_MAX <? numeral b ds then (ULONG_MAX, m', Some ERANGE) else (u64 v, m', None)).
Proof. intros Hs Hl. exact (strtol_run m nptr endptr base l Hs Hl). Qed.

(** ** The round trip with the kernel's decimal printer *)

(** What qos_put_u64 prints, with a sign. *)
Definition decimal (n : Z) : list Z :=
  let d := if Z.abs n =? 0 then [48] else rev (u64_digits 24 (Z.abs n)) in
  if n <? 0 then 45 :: d else d.

Lemma decimal_digit k : 0 <= k < 10 -> digit_value (48 + k) 10 = k.
Proof.
  intros Hk. unfold digit_value, isdigit, between.
  rewrite (proj2 (Z.leb_le 48 _)), (proj2 (Z.leb_le _ 57)), (proj2 (Z.ltb_lt (48 + k - 48) 10)) by lia. cbn [andb]. lia.
Qed.

Lemma digits_numeral f : forall v, 0 <= v < 10 ^ Z.of_nat f -> numeral 10 (rev (u64_digits f v)) = v.
Proof.
  induction f as [|f IH]; intros v Hv; [cbn in *; lia|]. cbn [u64_digits].
  destruct (Z.leb_spec v 0); [by assert (v = 0) as -> by lia|]. cbn [rev]. rewrite numeral_app, IH.
  - rewrite decimal_digit by (apply Z.mod_pos_bound; lia). pose proof (Z.div_mod v 10). lia.
  - rewrite Nat2Z.inj_succ, Z.pow_succ_r in Hv by lia. split; [apply Z.div_pos; lia|apply Z.div_lt_upper_bound; lia].
Qed.

Lemma digits_are_digits f v : Forall (fun c => is_digit 10 c = true /\ isspace c = false /\ c <> 43 /\ c <> 45) (u64_digits f v).
Proof.
  revert v. induction f as [|f IH]; intros v; cbn [u64_digits]; [constructor|]. destruct (v <=? 0); [constructor|].
  constructor; [|apply IH]. pose proof (Z.mod_pos_bound v 10 ltac:(lia)). split; [|split; [unfold isspace|]; lia].
  unfold is_digit. rewrite decimal_digit by lia. apply Z.leb_le. lia.
Qed.

Lemma take_while_app P a r : Forall (fun c => P c = true) a -> P (zget r 0) = false -> take_while P (a ++ r) = a.
Proof.
  intros Ha Hr. induction Ha as [|c a Hc _ IH]; cbn [app take_while]; [|by rewrite Hc, IH].
  destruct r as [|c r]; [done|]. rewrite zget_head in Hr. cbn. by rewrite Hr.
Qed.
Lemma skip_while_app P a r : Forall (fun c => P c = true) a -> P (zget r 0) = false -> skip_while P (a ++ r) = r.
Proof.
  intros Ha Hr. pose proof (take_skip P (a ++ r)) as E. rewrite take_while_app in E by done. by apply app_inv_head in E.
Qed.

(** The digits of [decimal]. *)
Lemma decimal_digits n : - 2 ^ 63 <= n < 2 ^ 63 -> exists d ds, decimal n = (if n <? 0 then 45 :: d :: ds else d :: ds) /\
  numeral 10 (d :: ds) = Z.abs n /\ Forall (fun c => is_digit 10 c = true) (d :: ds) /\ isspace d = false /\ d <> 43 /\ d <> 45.
Proof.
  intros Hn. unfold decimal. destruct (Z.eqb_spec (Z.abs n) 0) as [E|E].
  { exists 48, []. rewrite E. split; [done|]. split; [done|]. split; [by repeat constructor|]. split; [done|lia]. }
  pose proof (digits_numeral 24 (Z.abs n) ltac:(lia)) as Hv.
  pose proof (digits_are_digits 24 (Z.abs n)) as Hd. apply Forall_reverse in Hd. rewrite rev_alt in Hv.
  change (reverse (u64_digits 24 (Z.abs n))) with (rev_append (u64_digits 24 (Z.abs n)) []) in Hd. rewrite rev_alt.
  destruct (rev_append (u64_digits 24 (Z.abs n)) []) as [|d ds]; [cbn in Hv; lia|].
  exists d, ds. split; [done|]. split; [done|]. apply Forall_cons_1 in Hd as [(H1 & H2 & H3 & H4) Hr].
  split; [apply Forall_cons_2; [done|]; eapply List.Forall_impl; [|exact Hr]; by intros c (? & ?)|done].
Qed.

Lemma number_decimal n ws rest : - 2 ^ 63 <= n < 2 ^ 63 -> Forall (fun c => isspace c = true) ws ->
  is_digit 10 (zget rest 0) = false -> exists ds,
  number 10 (ws ++ decimal n ++ rest) = (n <? 0, 10, ds, len (ws ++ decimal n)) /\ numeral 10 ds = Z.abs n /\ ds <> [].
Proof.
  intros Hn Hws Hrest. destruct (decimal_digits n Hn) as (d & ds & E & Hv & Hds & Hsp & H43 & H45). exists (d :: ds).
  split; [|done]. unfold number.
  assert (Hskip : skip_while isspace (ws ++ decimal n ++ rest) = decimal n ++ rest).
  { apply skip_while_app; [done|]. rewrite E. by destruct (n <? 0). }
  rewrite Hskip, E. change ((10 =? 0) || (10 =? 16)) with false. cbn [andb]. change (10 =? 0) with false. cbn iota.
  assert (Ht : take_while (is_digit 10) ((d :: ds) ++ rest) = d :: ds) by by apply take_while_app.
  destruct (n <? 0); cbn [app] in Ht |- *.
  - change (45 =? 43) with false. change (45 =? 45) with true. cbn iota. rewrite Ht. repeat (cbn [length app]; rewrite ?length_app). f_equal. lia.
  - rewrite (proj2 (Z.eqb_neq d 43)), (proj2 (Z.eqb_neq d 45)) by done. rewrite Ht. repeat (cbn [length app]; rewrite ?length_app). f_equal. lia.
Qed.

(** Strtol reads back what the decimal printer writes.  A number of type
    long, printed by the kernel's digit loop with its sign, after any white
    space and followed by anything that is not a digit, is read back exactly,
    *endptr points just behind it and errno is not touched; atoi returns it
    truncated to int. *)
Theorem strtol_roundtrip m p endptr n ws rest : LONG_MIN <= n <= LONG_MAX -> Forall (fun c => isspace c = true) ws ->
  is_digit 10 (zget rest 0) = false -> cstr m p (ws ++ decimal n ++ rest) -> len (ws ++ decimal n ++ rest) < 2 ^ 64 ->
  strtol m p endptr 10 = Some (n, set_end m endptr (p + len (ws ++ decimal n)), None) /\ atoi m p = Some (i32 n, m, None).
Proof.
  intros Hn Hws Hrest Hs Hl. unfold LONG_MIN, LONG_MAX in Hn.
  destruct (number_decimal n ws rest ltac:(lia) Hws Hrest) as (ds & En & Hv & Hne).
  assert (G : forall e, strtol m p e 10 = Some (n, set_end m e (p + len (ws ++ decimal n)), None)).
  { intros e. pose proof (strtol_run m p e 10 _ Hs Hl) as G. rewrite En in G. destruct G as [G _]. rewrite Hv in G. rewrite G. clear G En.
    change (bad_base 10) with false. cbn [orb]. rewrite (proj2 (Z.eqb_neq (len ds) 0)) by (destruct ds; [done|cbn; lia]).
    assert (E : (if n <? 0 then - Z.abs n else Z.abs n) = n) by (destruct (Z.ltb_spec n 0); lia). rewrite E.
    unfold LONG_MIN, LONG_MAX. rewrite (proj2 (Z.ltb_ge n _)), (proj2 (Z.ltb_ge _ n)) by lia. cbn [orb].
    by rewrite Z.min_r, Z.max_r by lia. }
  split; [apply G|]. unfold atoi. exact (bind_triple _ _ _ _ _ (G 0)).
Qed.

(** " -42;" at 200. *)
Definition demo_number (x : Z) : Z :=
  match x with 200 => 32 | 201 => 45 | 202 => 52 | 203 => 50 | 204 => 59 | _ => 0 end.
Lemma demo_number_cstr : cstr demo_number 200 ([32] ++ decimal (-42) ++ [59]).
Proof.
  split; [vm_compute; repeat constructor; done|]. split; [|reflexivity].
  change (len ([32] ++ decimal (-42) ++ [59])) with 5. intros k Hk.
  assert (Hc : k = 0 \/ k = 1 \/ k = 2 \/ k = 3 \/ k = 4) by lia. by destruct Hc as [->|[->|[->|[->| ->]]]].
Qed.

Lemma strtol_correct_witness : strtol demo_number 200 0 16 = Some (-66, demo_number, None).
Proof.
  pose proof (strtol_correct demo_number 200 0 16 _ demo_number_cstr) as G.
  change (number 16 ([32] ++ decimal (-42) ++ [59])) with (true, 16, [52; 50], 4) in G.
  exact (proj1 (G ltac:(vm_compute; reflexivity))).
Defined.

Lemma strtol_roundtrip_witness :
  strtol demo_number 200 0 10 = Some (-42, demo_number, None) /\ atoi demo_number 200 = Some (-42, demo_number, None).
Proof.
  exact (strtol_roundtrip demo_number 200 0 (-42) [32] [59] ltac:(unfold LONG_MIN, LONG_MAX; lia)
    ltac:(repeat constructor) eq_refl demo_number_cstr ltac:(vm_compute; reflexivity)).
Defined.

(** * qsort sorts

    For every element size and every comparison function that compares what
    it points to by a total preorder: the array becomes a sorted permutation
    of itself and nothing else changes. *)

(** The [n] bytes at [a]. *)
Definition bytes (m : mem) (a n : Z) : list Z := (fun k => m (a + k)) <$> seqZ 0 n.

Lemma bytes_ext m m' a b n : (forall k, 0 <= k < n -> m (a + k) = m' (b + k)) -> bytes m a n = bytes m' b n.
Proof. intros H. apply list_fmap_ext. intros i k Hk. apply lookup_seqZ in Hk as [-> Hk]. apply H. lia. Qed.

(** The memory with two ranges exchanged. *)
Definition exchanged (m : mem) (a b n x : Z) : Z :=
  if in_range a n x then m (b + (x - a)) else if in_range b n x then m (a + (x - b)) else m x.

Lemma store_byte m a v x : 0 <= v < 256 -> store 1 m a v x = if x =? a then v else m x.
Proof.
  intros Hv. unfold store. destruct (Z.eqb_spec x a) as [->|Hne].
  - rewrite (proj2 (in_range_true a 1 a)) by lia. by rewrite Z.sub_diag, Z.div_1_r, Z.mod_small.
  - by rewrite (proj2 (in_range_false a 1 x)) by lia.
Qed.

Lemma qsort_swap_spec m a b size : mem_bytes m -> 0 <= size < 2 ^ 64 -> a + size <= b \/ b + size <= a ->
  exists m', qsort_swap m a b size = Some m' /\ forall x, m' x = exchanged m a b size x.
Proof.
  intros Hm Hs Hd.
  destruct (while_spec (fun '(m, k) => if k <? size then
      let t := m (a + k) in inl (store 1 (store 1 m (a + k) (m (b + k))) (b + k) t, k + 1) else inr m)
    (fun '(m1, k) => 0 <= k <= size /\ forall x, m1 x = exchanged m a b k x)
    (fun '(_, k) => size - k) (fun m' => forall x, m' x = exchanged m a b size x) (m, 0)) as (m' & E & Hx).
  - intros [m1 k] [Hk Hx]. cbv zeta. destruct (Z.ltb_spec k size); [|by replace size with k by lia].
    split; [|lia]. split; [lia|]. intros x.
    assert (E1 : m1 (a + k) = m (a + k) /\ m1 (b + k) = m (b + k)).
    { rewrite !Hx. unfold exchanged. by rewrite !(proj2 (in_range_false _ _ _)) by lia. }
    destruct E1 as [-> ->]. rewrite store_byte, store_byte by apply Hm. rewrite Hx. unfold exchanged, in_range.
    repeat match goal with
      | |- context [Z.eqb ?u ?v] => destruct (Z.eqb_spec u v)
      | |- context [Z.leb ?u ?v] => destruct (Z.leb_spec u v)
      | |- context [Z.ltb ?u ?v] => destruct (Z.ltb_spec u v)
      end; cbn [andb]; try lia; try done; try (f_equal; lia).
  - split; [lia|]. intros x. unfold exchanged. by rewrite !(proj2 (in_range_false _ _ _)) by lia.
  - lia.
  - by exists m'.
Qed.

Section Sort.
Context (compar : mem -> Z -> Z -> Z) (cmp : list Z -> list Z -> Z) (base n size : Z).
Context (compar_content : forall m a b, compar m a b = cmp (bytes m a size) (bytes m b size)).
Context (cmp_total : forall x y, 0 <= cmp x y -> cmp y x <= 0)
        (cmp_trans : forall x y z, cmp x y <= 0 -> cmp y z <= 0 -> cmp x z <= 0).
Context (Hn : 0 <= n < 2 ^ 64) (Hsize : 0 <= size < 2 ^ 64).

(** The elements of the array. *)
Definition element (m : mem) (i : Z) : list Z := bytes m (base + i * size) size.
Definition elements (m : mem) : list (list Z) := element m <$> seqZ 0 n.

Lemma cmp_refl x : cmp x x <= 0.
Proof. destruct (Z.le_ge_cases (cmp x x) 0); [done|]. apply cmp_total. lia. Qed.

Lemma find_min_spec m i : 0 <= i < n -> exists j, find_min compar m base n size i = Some j /\ i <= j < n /\
  forall t, i <= t < n -> cmp (element m j) (element m t) <= 0.
Proof.
  intros Hi.
  apply (while_spec _ (fun '(j, min) => i < j <= n /\ i <= min < j /\
      forall t, i <= t < j -> cmp (element m min) (element m t) <= 0) (fun '(j, _) => n - j)
    (fun j => i <= j < n /\ forall t, i <= t < n -> cmp (element m j) (element m t) <= 0)).
  - intros [j min] (Hj & Hmin & Hle). destruct (Z.ltb_spec j n).
    + split; [|lia]. split; [lia|]. rewrite compar_content. fold (element m j) (element m min).
      destruct (Z.ltb_spec (cmp (element m j) (element m min)) 0) as [Hlt|Hge].
      * split; [lia|]. intros t Ht. destruct (Z.eq_dec t j) as [->|]; [apply cmp_refl|].
        apply (cmp_trans _ (element m min)); [lia|]. apply Hle. lia.
      * split; [lia|]. intros t Ht. destruct (Z.eq_dec t j) as [->|]; [by apply cmp_total|]. apply Hle. lia.
    + replace n with j by lia. split; [lia|done].
  - split; [lia|]. split; [lia|]. intros t Ht. assert (t = i) as -> by lia. apply cmp_refl.
  - lia.
Qed.

(** Exchanging two elements. *)
Definition swap_ix (i j t : Z) : Z := if t =? i then j else if t =? j then i else t.

Lemma element_exchanged m m' i j t : 0 < size -> i <> j -> (forall x, m' x = exchanged m (base + i * size) (base + j * size) size x) ->
  element m' t = element m (swap_ix i j t).
Proof.
  intros Hs Hne Hx. apply bytes_ext. intros k Hk. rewrite Hx. unfold exchanged, swap_ix.
  destruct (Z.eqb_spec t i) as [->|Hti].
  { rewrite (proj2 (in_range_true _ _ _)) by lia. f_equal. lia. }
  rewrite (proj2 (in_range_false _ _ _)) by nia. destruct (Z.eqb_spec t j) as [->|Htj].
  { rewrite (proj2 (in_range_true _ _ _)) by lia. f_equal. lia. }
  rewrite (proj2 (in_range_false _ _ _)) by nia. done.
Qed.

Lemma elements_lookup m k : elements m !! k = if Z.of_nat k <? n then Some (element m (Z.of_nat k)) else None.
Proof.
  unfold elements. rewrite list_lookup_fmap. destruct (Z.ltb_spec (Z.of_nat k) n).
  - rewrite lookup_seqZ_lt by lia. done.
  - rewrite lookup_seqZ_ge by lia. done.
Qed.

Lemma elements_permuted m m' i j : 0 <= i < n -> 0 <= j < n ->
  (forall t, element m' t = element m (swap_ix i j t)) -> elements m' ≡ₚ elements m.
Proof.
  intros Hi Hj E. apply Permutation_inj. split; [unfold elements; by rewrite !length_fmap|].
  exists (fun k => Z.to_nat (swap_ix i j (Z.of_nat k))). split.
  - intros a b. unfold swap_ix. repeat case_match; lia.
  - intros k. rewrite !elements_lookup. rewrite E. unfold swap_ix.
    destruct (Z.eqb_spec (Z.of_nat k) i), (Z.eqb_spec (Z.of_nat k) j), (Z.ltb_spec (Z.of_nat k) n);
      rewrite ?Z2Nat.id by lia; try lia;
      repeat match goal with |- context [Z.ltb ?u ?v] => destruct (Z.ltb_spec u v) end; try done; lia.
Qed.

(** The elements before [i] are in place. *)
Definition sorted_upto (m : mem) (i : Z) : Prop :=
  forall s t, 0 <= s < i -> s < t < n -> cmp (element m s) (element m t) <= 0.
Definition outside (m m' : mem) : Prop := forall x, ~ (base <= x < base + n * size) -> m' x = m x.

Definition sorting (m0 m : mem) (i : Z) : Prop :=
  mem_bytes m /\ 0 <= i /\ sorted_upto m i /\ elements m ≡ₚ elements m0 /\ outside m0 m.

(** The smallest of the rest becomes element [i]. *)
Lemma sorting_step m0 m m' i j : 0 < size -> 0 <= i < n -> i <= j < n ->
  (forall t, i <= t < n -> cmp (element m j) (element m t) <= 0) ->
  (forall x, m' x = if j =? i then m x else exchanged m (base + i * size) (base + j * size) size x) ->
  sorting m0 m i -> sorting m0 m' (i + 1).
Proof.
  intros Hs Hi Hj Hmin Hx (Hb & _ & Hsort & Hperm & Hout).
  assert (E : forall t, element m' t = element m (swap_ix i j t)).
  { intros t. destruct (Z.eqb_spec j i) as [->|Hne]; [|by apply element_exchanged].
    unfold swap_ix. apply bytes_ext. intros k Hk. rewrite Hx. by destruct (Z.eqb_spec t i) as [->|]. }
  split; [|split; [lia|split; [|split]]].
  - intros x. rewrite Hx. unfold exchanged. repeat case_match; apply Hb.
  - intros s t Hs1 Ht. rewrite !E. unfold swap_ix.
    destruct (Z.eqb_spec s i) as [->|]; [destruct (Z.eqb_spec t i), (Z.eqb_spec t j); apply Hmin; lia|].
    destruct (Z.eqb_spec s j) as [->|]; [lia|]. destruct (Z.eqb_spec t i), (Z.eqb_spec t j); apply Hsort; lia.
  - rewrite <- Hperm. apply (elements_permuted m m' i j); [lia|lia|done].
  - intros x Hxr. rewrite <- Hout by done. rewrite Hx. case_match; [done|]. unfold exchanged.
    rewrite !(proj2 (in_range_false _ _ _)) by nia. done.
Qed.

(** C32: qsort sorts.  With a comparison function that depends on the two
    elements only and is a total preorder, qsort ends, and the array is then a
    permutation of what it was in which every element is at most every later
    one; no byte outside the array has changed.  This holds for every element
    size and count, the empty array and zero-sized elements included. *)
Theorem qsort_sorts m : mem_bytes m -> exists m', qsort compar m base n size = Some m' /\
  elements m' ≡ₚ elements m /\ (forall s t, 0 <= s < t -> t < n -> cmp (element m' s) (element m' t) <= 0) /\
  (forall x, ~ (base <= x < base + n * size) -> m' x = m x).
Proof.
  intros Hm. unfold qsort. destruct (Z.ltb_spec n 2) as [H2|H2]; cbn [orb].
  { exists m. split; [done|]. split; [done|]. split; [lia|done]. }
  destruct (Z.eqb_spec size 0) as [H0|H0].
  { exists m. split; [done|]. split; [done|]. split; [|done]. intros s t _ _. unfold element. rewrite H0. apply cmp_refl. }
  match goal with |- context [while ?f _] => destruct (while_spec f (fun '(m1, i) => i < n /\ sorting m m1 i) (fun '(_, i) => n - i)
    (fun r => exists m', r = Some m' /\ sorting m m' (n - 1)) (m, 0)) as (r & E & m' & -> & Hend) end.
  - intros [m1 i] [Hi Hinv]. assert (Hi0 : 0 <= i) by apply Hinv. assert (Hb1 : mem_bytes m1) by apply Hinv.
    cbn beta iota. destruct (Z.ltb_spec (i + 1) n) as [Hlt|Hge].
    + destruct (find_min_spec m1 i ltac:(lia)) as (j & -> & Hj & Hmin). pose proof (sorting_step m m1) as Hstep.
      destruct (Z.eqb_spec j i) as [->|Hne].
      { split; [|lia]. split; [lia|]. apply (Hstep m1 i i); try lia; try done. intros x. by rewrite Z.eqb_refl. }
      destruct (qsort_swap_spec m1 (base + i * size) (base + j * size) size Hb1 Hsize ltac:(nia)) as (m2 & -> & H2x).
      split; [|lia]. split; [lia|]. apply (Hstep m2 i j); try lia; try done. intros x.
      rewrite (proj2 (Z.eqb_neq j i)) by done. apply H2x.
    + exists m1. by replace (n - 1) with i by lia.
  - split; [lia|]. split; [done|]. split; [lia|]. split; [intros s t Hs; lia|]. split; [done|]. by intros x.
  - lia.
  - exists m'. rewrite E. destruct Hend as (_ & _ & Hsort & Hperm & Hout). split; [done|]. split; [done|].
    split; [|done]. intros s t Hst Ht. apply Hsort; lia.
Qed.
End Sort.

(** An array of three bytes, sorted in decreasing order. *)
Definition by_byte (x y : list Z) : Z := zget y 0 - zget x 0.
Definition compar_byte (m : mem) (a b : Z) : Z := m b - m a.

Lemma qsort_sorts_witness : exists m', qsort compar_byte demo_number 201 3 1 = Some m' /\
  elements 201 3 1 m' ≡ₚ [[45]; [52]; [50]] /\
  (forall s t, 0 <= s < t -> t < 3 -> by_byte (element 201 1 m' s) (element 201 1 m' t) <= 0) /\
  (forall x, ~ (201 <= x < 201 + 3 * 1) -> m' x = demo_number x).
Proof.
  apply (qsort_sorts compar_byte by_byte 201 3 1).
  - intros m a b. unfold compar_byte, by_byte. change (m b - m a = m (b + 0) - m (a + 0)). by rewrite !Z.add_0_r.
  - unfold by_byte. lia.
  - unfold by_byte. lia.
  - lia.
  - lia.
  - intros x. unfold demo_number. repeat (case_match; try lia).
Defined.
