(* ===== verification/CMalloc.v ===== *)
(** * The allocator of the C runtime library (stdlib.c)

    Blocks carry a one-word header: size and in-use bit.  Free blocks are
    threaded through their second word in ascending order of address.  The
    kernel behind sys_brk and sys_bigalloc is the class [Kernel]; a call may
    give new memory contents where it grants addresses. *)
From Stdlib Require Import ZArith Lia Bool.
From stdpp Require Import base list numbers.
From S2P Require Import Prelude Monad State Memory CString CStdlib.

Class Kernel (K : Type) : Type := {
  sys_brk : Z -> K * mem -> Z * (K * mem);
  sys_bigalloc : Z -> K * mem -> Z * (K * mem) }.

(** The static storage of the allocator, with the memory, the kernel and
    [errno]. *)
Record heap (K : Type) : Type := mk_heap {
  h_mem : mem; h_kern : K; h_errno : Z;
  g_free_head : Z; g_heap_end : Z; g_bigalloc_end : Z }.
Arguments mk_heap {K}. Arguments h_mem {K}. Arguments h_kern {K}. Arguments h_errno {K}.
Arguments g_free_head {K}. Arguments g_heap_end {K}. Arguments g_bigalloc_end {K}.

Definition ALIGN : Z := 16.
Definition HDR : Z := 8.
Definition MIN_BLOCK : Z := 16.
Definition CHUNK : Z := 64 * 1024.
Definition SIZEMASK : Z := 0xfffffffffffffff0.
Definition INUSE : Z := 1.
Definition BIGALLOC_PAGE : Z := 0x1000.
(** The pointer -1 of a failed sbrk. *)
Definition MINUS1 : Z := 0xffffffffffffffff.

Section Alloc.
Context {K : Type} `{Kernel K} `{Accel}.
Implicit Types h : heap K.

Definition set_mem h (m : mem) : heap K := mk_heap m (h_kern h) (h_errno h) (g_free_head h) (g_heap_end h) (g_bigalloc_end h).
Definition set_kern h (s : K * mem) : heap K := mk_heap s.2 s.1 (h_errno h) (g_free_head h) (g_heap_end h) (g_bigalloc_end h).
Definition set_errno h (e : Z) : heap K := mk_heap (h_mem h) (h_kern h) e (g_free_head h) (g_heap_end h) (g_bigalloc_end h).
Definition set_head h (p : Z) : heap K := mk_heap (h_mem h) (h_kern h) (h_errno h) p (g_heap_end h) (g_bigalloc_end h).
Definition set_end_of_heap h (p : Z) : heap K := mk_heap (h_mem h) (h_kern h) (h_errno h) (g_free_head h) p (g_bigalloc_end h).
Definition set_bigalloc_end h (p : Z) : heap K := mk_heap (h_mem h) (h_kern h) (h_errno h) (g_free_head h) (g_heap_end h) p.

(** The words [b[0]] and [b[1]]. *)
Definition word0 h (b : Z) : Z := load 8 (h_mem h) b.
Definition word1 h (b : Z) : Z := load 8 (h_mem h) (b + 8).
Definition put0 h (b v : Z) : heap K := set_mem h (store 8 (h_mem h) b v).
Definition put1 h (b v : Z) : heap K := set_mem h (store 8 (h_mem h) (b + 8) v).

Definition sbrk (incr : Z) h : Z * heap K :=
  let '(cur, s) := sys_brk 0 (h_kern h, h_mem h) in
  let req := u64 (cur + incr) in
  let '(got, s) := sys_brk req s in
  let h := set_kern h s in
  if negb (got =? req) then (MINUS1, set_errno h ENOMEM) else (cur, h).

Definition round_block (payload : Z) : Z :=
  let total := u64 (payload + HDR) in
  let total := Z.land (u64 (total + (ALIGN - 1))) SIZEMASK in
  if total <? MIN_BLOCK then MIN_BLOCK else total.

Definition ensure_init h : Z * heap K :=
  if negb (g_heap_end h =? 0) then (0, h) else
  let '(base, h) := sbrk 0 h in
  if base =? MINUS1 then (-1, h) else
  let pad := Z.land (u64 (8 - Z.land base 15)) 15 in
  let '(r, h) := if negb (pad =? 0) then sbrk pad h else (0, h) in
  if r =? MINUS1 then (-1, h)
  else (0, set_head (set_end_of_heap h (u64 (base + pad))) 0).

(** [if (prev) prev[1] = p; else g_free_head = p;] *)
Definition link h (prev p : Z) : heap K := if negb (prev =? 0) then put1 h prev p else set_head h p.

Definition insert_point h (b : Z) : option (Z * Z) :=
  while (fun '(prev, cur) =>
    if negb (cur =? 0) && (cur <? b) then inl (cur, word1 h cur) else inr (prev, cur)) (0, g_free_head h).

(** The two coalescing steps. *)
Definition coalesce_forward h (b cur : Z) : heap K :=
  if negb (cur =? 0) then
    let bsz := Z.land (word0 h b) SIZEMASK in
    if b + bsz =? cur then
      let h := put0 h b (u64 (bsz + Z.land (word0 h cur) SIZEMASK)) in put1 h b (word1 h cur)
    else h
  else h.
Definition coalesce_backward h (prev b : Z) : heap K :=
  if negb (prev =? 0) then
    let psz := Z.land (word0 h prev) SIZEMASK in
    if prev + psz =? b then
      let h := put0 h prev (u64 (psz + Z.land (word0 h b) SIZEMASK)) in put1 h prev (word1 h b)
    else h
  else h.

Definition free_insert (b : Z) h : option (heap K) :=
  insert_point h b ≫= fun '(prev, cur) =>
  let h := put1 h b cur in
  let h := link h prev b in
  let h := coalesce_forward h b cur in
  Some (coalesce_backward h prev b).

Definition grow (total : Z) h : option (Z * heap K) :=
  let amount := if CHUNK <? total then total else CHUNK in
  let '(start, h) := sbrk amount h in
  if start =? MINUS1 then Some (-1, h) else
  let b := g_heap_end h in
  let h := put0 h b amount in
  let h := set_end_of_heap h (u64 (g_heap_end h + amount)) in
  free_insert b h ≫= fun h => Some (0, h).

Definition bigalloc_grow (total : Z) h : option (Z * heap K) :=
  let raw := if CHUNK <? u64 (total + ALIGN) then u64 (total + ALIGN) else CHUNK in
  let amount := clr (u64 (raw + (BIGALLOC_PAGE - 1))) (BIGALLOC_PAGE - 1) in
  let '(va, s) := sys_bigalloc amount (h_kern h, h_mem h) in
  let h := set_kern h s in
  if va <=? 0 then Some (-1, h) else
  let '(b, h) :=
    if negb (g_bigalloc_end h =? 0) && (va =? u64 (g_bigalloc_end h + HDR))
    then (g_bigalloc_end h, put0 h (g_bigalloc_end h) (Z.land amount SIZEMASK))
    else (u64 (va + HDR), put0 h (u64 (va + HDR)) (Z.land (u64 (amount - ALIGN)) SIZEMASK)) in
  let h := set_bigalloc_end h (u64 (b + Z.land (word0 h b) SIZEMASK)) in
  free_insert b h ≫= fun h => Some (0, h).

Definition alloc_from (prev cur total : Z) h : heap K :=
  let csz := Z.land (word0 h cur) SIZEMASK in
  let remain := u64 (csz - total) in
  let nextfree := word1 h cur in
  if MIN_BLOCK <=? remain then
    let tail := cur + total in
    let h := put0 h tail remain in
    let h := put1 h tail nextfree in
    let h := put0 h cur (Z.lor total INUSE) in
    link h prev tail
  else
    let h := put0 h cur (Z.lor csz INUSE) in
    link h prev nextfree.

(** The block found and [*prev_out]. *)
Definition find_fit (total : Z) h : option (Z * Z) :=
  while (fun '(prev, cur) =>
    if cur =? 0 then inr (0, 0)
    else if total <=? Z.land (word0 h cur) SIZEMASK then inr (cur, prev)
    else inl (cur, word1 h cur)) (0, g_free_head h).

Definition malloc (size : Z) h : option (Z * heap K) :=
  let size := if size =? 0 then 1 else size in
  let '(r, h) := ensure_init h in
  if negb (r =? 0) then Some (0, h) else
  let total := round_block size in
  find_fit total h ≫= fun '((cur, prev) : Z * Z) =>
  if negb (cur =? 0) then Some (cur + HDR, alloc_from prev cur total h) else
  grow total h ≫= fun '(r, h) =>
  (if negb (r =? 0) then bigalloc_grow total h else Some (0, h)) ≫= fun '(r, h) =>
  if negb (r =? 0) then Some (0, h) else
  find_fit total h ≫= fun '((cur, prev) : Z * Z) =>
  if cur =? 0 then Some (0, h) else Some (cur + HDR, alloc_from prev cur total h).

Definition free (ptr : Z) h : option (heap K) :=
  if ptr =? 0 then Some h else
  let b := ptr - HDR in
  free_insert b (put0 h b (Z.land (word0 h b) SIZEMASK)).

Definition calloc (nmemb size : Z) h : option (Z * heap K) :=
  let n := u64 (nmemb * size) in
  if negb (nmemb =? 0) && negb (n / nmemb =? size) then Some (0, set_errno h ENOMEM) else
  malloc n h ≫= fun '(p, h) =>
  if p =? 0 then Some (0, h)
  else memset (h_mem h) p 0 n ≫= fun '(_, m) => Some (p, set_mem h m).

Definition realloc (ptr size : Z) h : option (Z * heap K) :=
  if ptr =? 0 then malloc size h else
  if size =? 0 then free ptr h ≫= fun h => Some (0, h) else
  let b := ptr - HDR in
  let oldtotal := Z.land (word0 h b) SIZEMASK in
  let oldpayload := u64 (oldtotal - HDR) in
  let newtotal := round_block size in
  if newtotal <=? oldtotal then Some (ptr, h) else
  malloc size h ≫= fun '(np, h) =>
  if np =? 0 then Some (0, h) else
  memcpy (h_mem h) np ptr (if oldpayload <? size then oldpayload else size) ≫= fun '(_, m) =>
  free ptr (set_mem h m) ≫= fun h => Some (np, h).

(** *** strdup and strndup (string.c) *)
Definition strdup (s : Z) h : option (Z * heap K) :=
  strlen (h_mem h) s ≫= fun n =>
  malloc (u64 (n + 1)) h ≫= fun '(p, h) =>
  if p =? 0 then Some (0, h)
  else memcpy (h_mem h) p s (u64 (n + 1)) ≫= fun '(_, m) => Some (p, set_mem h m).

Definition strndup (s n : Z) h : option (Z * heap K) :=
  while (fun len => if (len <? n) && negb (h_mem h (s + len) =? 0) then inl (len + 1) else inr len) 0 ≫= fun len =>
  malloc (u64 (len + 1)) h ≫= fun '(p, h) =>
  if p =? 0 then Some (0, h)
  else memcpy (h_mem h) p s len ≫= fun '(_, m) => Some (p, set_mem h (store 1 m (p + len) 0)).
End Alloc.
