(* ===== verification/CMallocProps.v ===== *)
(** * Lists of heap blocks

    A block is its header's address and its size.  [chain] reads the free
    list out of memory; [asc] says its blocks are well formed and ascending;
    [cover] is the set of addresses in a list of blocks. *)
From Stdlib Require Import ZArith Lia Bool.
From stdpp Require Import base list numbers.
From S2P Require Import Prelude Monad State Memory MemFacts CString CStringProps CStdlib CMalloc.

Abbreviation block := (Z * Z)%type.

(** Header at 8 modulo 16, size a positive multiple of 16, below 2^47. *)
Definition block_ok (b : block) : Prop :=
  0 < b.1 /\ b.1 mod 16 = 8 /\ 16 <= b.2 /\ b.2 mod 16 = 0 /\ b.1 + b.2 < 2 ^ 47.
Definition cover (l : list block) (x : Z) : Prop := exists b, In b l /\ b.1 <= x < b.1 + b.2.

(** The list read from [p] on, with [q] in the last link. *)
Fixpoint chain (m : mem) (p : Z) (l : list block) (q : Z) : Prop :=
  match l with
  | [] => p = q
  | (a, s) :: l' => p = a /\ load 8 m a = s /\ chain m (load 8 m (a + 8)) l' q
  end.

(** Ascending from [lo] on. *)
Fixpoint asc (lo : Z) (l : list block) : Prop :=
  match l with
  | [] => True
  | (a, s) :: l' => lo <= a /\ block_ok (a, s) /\ asc (a + s) l'
  end.
Fixpoint top (lo : Z) (l : list block) : Z := match l with [] => lo | (a, s) :: l' => top (a + s) l' end.

(** No block starts where the one before it ends; the first not at [e]. *)
Fixpoint apart (e : Z) (l : list block) : Prop :=
  match l with
  | [] => True
  | (a, s) :: l' => e <> a /\ apart (a + s) l'
  end.

Fixpoint last_addr (d : Z) (l : list block) : Z := match l with [] => d | (a, _) :: l' => last_addr a l' end.
Definition head_addr (l : list block) : Z := match l with (a, _) :: _ => a | [] => 0 end.

(** ** Cover *)

Lemma cover_nil x : ~ cover [] x.
Proof. intros (b & [] & _). Qed.
Lemma cover_cons a s l x : cover ((a, s) :: l) x <-> a <= x < a + s \/ cover l x.
Proof.
  split.
  - intros (b & [<-|Hb] & Hx); [by left|right; by exists b].
  - intros [Hx|(b & Hb & Hx)]; [exists (a, s); split; [by left|done]|exists b; split; [by right|done]].
Qed.
Lemma cover_app l l' x : cover (l ++ l') x <-> cover l x \/ cover l' x.
Proof.
  induction l as [|[a s] l IH]; cbn [app]; [|rewrite !cover_cons, IH; tauto].
  split; [by right|intros [H|H]; [by apply cover_nil in H|done]].
Qed.

(** ** Order *)

Lemma asc_app lo l l' : asc lo (l ++ l') <-> asc lo l /\ asc (top lo l) l'.
Proof. revert lo. induction l as [|[a s] l IH]; intros lo; cbn; [tauto|]. rewrite IH. tauto. Qed.
Lemma top_app lo l l' : top lo (l ++ l') = top (top lo l) l'.
Proof. revert lo. induction l as [|[a s] l IH]; intros lo; cbn; [done|apply IH]. Qed.
Lemma asc_weaken lo lo' l : lo' <= lo -> asc lo l -> asc lo' l.
Proof. destruct l as [|[a s] l]; cbn; [done|]. intros ? (? & ? & ?). split; [lia|done]. Qed.
Lemma asc_ok lo l b : asc lo l -> In b l -> block_ok b /\ lo <= b.1.
Proof.
  revert lo. induction l as [|[a s] l IH]; intros lo Ha Hb; [done|]. destruct Ha as (H1 & H2 & H3).
  destruct Hb as [<-|Hb]; [done|]. destruct (IH _ H3 Hb) as [? ?]. split; [done|]. destruct H2 as (? & ? & ? & ? & ?). cbn in *. lia.
Qed.
Lemma asc_top lo l : asc lo l -> lo <= top lo l.
Proof.
  revert lo. induction l as [|[a s] l IH]; intros lo Ha; cbn; [lia|]. destruct Ha as (H1 & (? & ? & ? & ? & ?) & H3).
  pose proof (IH _ H3). cbn in *. lia.
Qed.
Lemma asc_top_max lo l b : asc lo l -> In b l -> b.1 + b.2 <= top lo l.
Proof.
  revert lo. induction l as [|[a s] l IH]; intros lo Ha Hb; [done|]. destruct Ha as (H1 & H2 & H3). cbn [top].
  destruct Hb as [<-|Hb]; [apply (asc_top _ _ H3)|by apply IH].
Qed.
Lemma asc_top_bound lo l : asc lo l -> lo < 2 ^ 47 -> top lo l < 2 ^ 47.
Proof.
  revert lo. induction l as [|[a s] l IH]; intros lo Ha Hlo; cbn [top]; [done|]. destruct Ha as (H1 & (? & ? & ? & ? & ?) & H3).
  apply IH; [done|]. cbn in *. lia.
Qed.
Lemma asc_length lo l : asc lo l -> 0 <= lo -> 16 * Z.of_nat (length l) <= top lo l - lo.
Proof.
  revert lo. induction l as [|[a s] l IH]; intros lo Ha Hlo; cbn [top length]; [lia|].
  destruct Ha as (H1 & (? & ? & ? & ? & ?) & H3). cbn in *. specialize (IH _ H3 ltac:(lia)). lia.
Qed.
(** The list splits at an address that is none of its own. *)
Lemma asc_split lo l b : asc lo l -> (forall s, ~ In (b, s) l) ->
  exists l1 l2, l = l1 ++ l2 /\ (forall c, In c l1 -> c.1 < b) /\ (forall c, In c l2 -> b < c.1).
Proof.
  revert lo. induction l as [|[a s] l IH]; intros lo Ha Hb; [by exists [], []|]. destruct Ha as (H1 & H2 & H3).
  destruct (Z.lt_trichotomy a b) as [Hlt|[->|Hgt]].
  - destruct (IH _ H3) as (l1 & l2 & -> & Hl1 & Hl2); [intros s' Hs; apply (Hb s'); by right|].
    exists ((a, s) :: l1), l2. split; [done|]. split; [|done]. intros c [<-|Hc]; [done|by apply Hl1].
  - exfalso. apply (Hb s). by left.
  - exists [], ((a, s) :: l). split; [done|]. split; [done|]. intros c [<-|Hc]; [done|].
    destruct (asc_ok _ _ _ H3 Hc) as [_ Hc1]. destruct H2 as (? & ? & ? & ? & ?). cbn in *. lia.
Qed.

Lemma last_addr_snoc d l a s : last_addr d (l ++ [(a, s)]) = a.
Proof. revert d. induction l as [|[b t] l IH]; intros d; cbn; [done|apply IH]. Qed.
Lemma top_snoc lo l a s : top lo (l ++ [(a, s)]) = a + s.
Proof. by rewrite top_app. Qed.
Lemma snoc_case (l : list block) : l = [] \/ exists l' a s, l = l' ++ [(a, s)].
Proof. destruct l as [|b l'] using rev_ind; [by left|right]. destruct b as [a s]. by exists l', a, s. Qed.

Lemma apart_app e l l' : apart e (l ++ l') <-> apart e l /\ apart (top e l) l'.
Proof. revert e. induction l as [|[a s] l IH]; intros e; cbn; [tauto|]. rewrite IH. tauto. Qed.

(** ** Chains *)

Section Chain.
Context (m : mem).

Lemma chain_app p l l' q : chain m p (l ++ l') q <-> exists r, chain m p l r /\ chain m r l' q.
Proof.
  revert p. induction l as [|[a s] l IH]; intros p; cbn [app chain]; [|rewrite IH].
  - split; [intros H; by exists p|by intros (r & -> & ?)].
  - split; [intros (H1 & H2 & r & H3 & H4)|intros (r & (H1 & H2 & H3) & H4)]; [by exists r|]. split; [done|]. split; [done|]. by exists r.
Qed.
Lemma chain_head p l q : chain m p l q -> p = if l is [] then q else head_addr l.
Proof. destruct l as [|[a s] l]; cbn; [done|]. by intros [? _]. Qed.
Lemma chain_size p l q a s : chain m p l q -> In (a, s) l -> load 8 m a = s.
Proof.
  revert p. induction l as [|[b t] l IH]; intros p Hc Hin; [done|]. destruct Hc as (_ & H2 & H3).
  destruct Hin as [[= -> ->]|Hin]; [done|by eapply IH].
Qed.

(** Only the first two words of the blocks matter. *)
Lemma chain_frame m' p l q : (forall b x, In b l -> b.1 <= x < b.1 + 16 -> m' x = m x) -> chain m p l q -> chain m' p l q.
Proof.
  revert p. induction l as [|[a s] l IH]; intros p Hf; cbn [chain]; [done|]. intros (H1 & H2 & H3). split; [done|].
  pose proof (fun x => Hf (a, s) x (or_introl eq_refl)) as Hx. cbn [fst] in Hx.
  rewrite (load_ext 8 m' m a), (load_ext 8 m' m (a + 8)) by (intros; apply Hx; lia). split; [done|].
  apply IH; [|done]. intros b x Hb. apply Hf. by right.
Qed.
End Chain.

(** A write inside blocks leaves the chain over other blocks alone. *)
Lemma chain_store m a n v p l q lo : asc lo l -> 0 < n -> (forall x, a <= x < a + n -> ~ cover l x) ->
  chain m p l q -> chain (store n m a v) p l q.
Proof.
  intros Ha Hn Hc. apply chain_frame. intros b x Hb Hx. unfold store. rewrite (proj2 (in_range_false a n x)); [done|].
  intros Hr. apply (Hc x Hr). destruct (asc_ok _ _ _ Ha Hb) as [(_ & _ & Hs & _) _]. exists b. split; [done|lia].
Qed.

(** Rewriting the last link. *)
Lemma chain_relink m p l a s q r lo : asc lo (l ++ [(a, s)]) -> 0 <= r < 2 ^ 64 ->
  chain m p (l ++ [(a, s)]) q -> chain (store 8 m (a + 8) r) p (l ++ [(a, s)]) r.
Proof.
  intros Ha Hr Hc. apply chain_app in Hc as (t & H1 & H2 & H3 & _). apply asc_app in Ha as [Ha1 (Ha2 & (Hb1 & _ & Hb2 & _) & _)].
  cbn [fst snd] in Hb1, Hb2. apply chain_app. exists t. split.
  - eapply chain_store; [exact Ha1|lia| |done]. intros x Hx (b & Hb & Hbx).
    pose proof (asc_top_max _ _ _ Ha1 Hb). lia.
  - cbn [chain]. split; [done|]. rewrite load_store_disj by lia. split; [done|].
    rewrite (load_store_same 8). by apply Z.mod_small.
Qed.

(** Merging two blocks that touch: the first takes the size and the link of
    both. *)
Lemma chain_merge m p l a s t l' q lo : asc lo (l ++ (a, s) :: (a + s, t) :: l') ->
  0 <= load 8 m (a + s + 8) < 2 ^ 64 -> chain m p (l ++ (a, s) :: (a + s, t) :: l') q ->
  chain (store 8 (store 8 m a (s + t)) (a + 8) (load 8 m (a + s + 8))) p (l ++ (a, s + t) :: l') q.
Proof.
  intros Ha Hr Hc. apply chain_app in Hc as (u & H1 & H2 & H3 & H4 & H5 & H6).
  apply asc_app in Ha as [Ha1 (Ha2 & (Hb1 & Hb2 & Hb3 & Hb4 & Hb5) & Ha3 & (Hc1 & Hc2 & Hc3 & Hc4 & Hc5) & Ha4)]. cbn [fst snd] in *.
  assert (Hl' : forall b, In b l' -> a + s + t <= b.1) by (intros b Hb; by apply (asc_ok _ _ _ Ha4)).
  apply chain_app. exists u. split.
  - apply (chain_store _ _ _ _ _ _ _ lo); [done|lia| |apply (chain_store _ _ _ _ _ _ _ lo); [done|lia| |done]];
      intros x Hx (b & Hb & Hbx); pose proof (asc_top_max _ _ _ Ha1 Hb); lia.
  - split; [done|]. rewrite load_store_disj, (load_store_same 8) by lia. rewrite (load_store_same 8).
    rewrite !Z.mod_small by (change (256 ^ Z.of_nat 8) with (2 ^ 64); lia). split; [done|].
    apply (chain_store _ _ _ _ _ _ _ (a + s + t)); [done|lia| |apply (chain_store _ _ _ _ _ _ _ (a + s + t)); [done|lia| |done]];
      intros x Hx (b & Hb & Hbx); pose proof (Hl' b Hb); lia.
Qed.

(** * The allocator is correct

    The free list in memory is a [chain] of ascending, non-touching blocks;
    live blocks are disjoint from it and from each other, and everything lies
    in memory the kernel granted.  Every operation keeps this invariant and
    never touches the payload of a block that stays live. *)

(** ** Sizes and flags *)

(** [lia] with remainders. *)
Ltac mlia := Z.to_euclidean_division_equations; lia.

Lemma sizemask x : 0 <= x < 2 ^ 64 -> Z.land x SIZEMASK = x - x mod 16.
Proof.
  intros Hx. change SIZEMASK with (Z.ldiff (Z.ones 64) (Z.ones 4)).
  assert (E : Z.land x (Z.ldiff (Z.ones 64) (Z.ones 4)) = Z.ldiff (Z.land x (Z.ones 64)) (Z.ones 4)).
  { apply Z.bits_inj'. intros n Hn. rewrite !Z.land_spec, !Z.ldiff_spec, !Z.land_spec. by rewrite andb_assoc. }
  rewrite E, Z.land_ones, Z.mod_small by lia. rewrite Z.ldiff_ones_r, Z.shiftl_mul_pow2, Z.shiftr_div_pow2 by lia.
  change (2 ^ 4) with 16. pose proof (Z.div_mod x 16). lia.
Qed.
Lemma sizemask_size s : 0 <= s < 2 ^ 64 -> s mod 16 = 0 -> Z.land s SIZEMASK = s.
Proof. intros Hs E. rewrite sizemask by lia. lia. Qed.
Lemma sizemask_used s : 0 <= s < 2 ^ 63 -> s mod 16 = 0 -> Z.land (s + 1) SIZEMASK = s.
Proof. intros Hs E. rewrite sizemask by lia. mlia. Qed.
Lemma or_inuse s : s mod 16 = 0 -> Z.lor s INUSE = s + 1.
Proof. intros E. apply (pow_lor 4); [lia|done|unfold INUSE; lia]. Qed.

Section Insert.
Context {K : Type} `{Kernel K}.
Implicit Types h : heap K.

Lemma word0_put0 h b v : 0 <= v < 2 ^ 64 -> word0 (put0 h b v) b = v.
Proof. intros Hv. unfold word0, put0, set_mem. cbn [h_mem]. rewrite (load_store_same 8). by apply Z.mod_small. Qed.

(** The fields free_insert leaves alone. *)
Definition same_rest h h' : Prop := h_kern h' = h_kern h /\ h_errno h' = h_errno h /\
  g_heap_end h' = g_heap_end h /\ g_bigalloc_end h' = g_bigalloc_end h.

(** The free list of [h] is [fl]. *)
Definition free_list h (fl : list block) : Prop :=
  mem_bytes (h_mem h) /\ chain (h_mem h) (g_free_head h) fl 0 /\ asc 0 fl /\ apart 0 fl.

Lemma fl_length fl : asc 0 fl -> Z.of_nat (length fl) < 2 ^ 64.
Proof. intros Ha. pose proof (asc_length 0 fl Ha ltac:(lia)). pose proof (asc_top_bound 0 fl Ha ltac:(lia)). lia. Qed.

Lemma insert_point_run h b l1 l2 : asc 0 (l1 ++ l2) -> chain (h_mem h) (g_free_head h) (l1 ++ l2) 0 ->
  (forall c, In c l1 -> c.1 < b) -> (forall c, In c l2 -> b < c.1) ->
  insert_point h b = Some (last_addr 0 l1, head_addr l2).
Proof.
  intros Ha Hc H1 H2.
  destruct (while_steps (fun '(prev, cur) => if negb (cur =? 0) && (cur <? b) then inl (cur, word1 h cur) else inr (prev, cur))
    (fun '(prev, cur) z => exists l1a l1b, l1 = l1a ++ l1b /\ prev = last_addr 0 l1a /\
       chain (h_mem h) cur (l1b ++ l2) 0 /\ z = Z.of_nat (length l1b))
    (fun r => r = (last_addr 0 l1, head_addr l2)) (0, g_free_head h) (Z.of_nat (length l1))) as (r & E & ->).
  - intros [prev cur] z (l1a & l1b & -> & -> & Hch & ->). destruct l1b as [|[a s] l1b]; cbn [app] in Hch.
    + rewrite app_nil_r in *. apply asc_app in Ha as [_ Ha2].
      destruct l2 as [|[a s] l2]; cbn [chain head_addr] in *; [by subst cur|]. destruct Hch as (-> & _).
      specialize (H2 (a, s) (or_introl eq_refl)). cbn in H2. rewrite (proj2 (Z.ltb_ge a b)) by lia. by rewrite andb_false_r.
    + destruct Hch as (-> & Hs & Hch). specialize (H1 (a, s)).
      assert (Hin : In (a, s) (l1a ++ (a, s) :: l1b)) by (apply in_app_iff; right; by left). specialize (H1 Hin). cbn in H1.
      destruct (asc_ok _ _ (a, s) Ha) as [(Hpos & _) _]; [apply in_app_iff; by left|]. cbn in Hpos.
      rewrite (proj2 (Z.eqb_neq a 0)), (proj2 (Z.ltb_lt a b)) by lia. cbn [negb andb].
      exists (Z.of_nat (length l1b)). split; [|cbn; lia].
      exists (l1a ++ [(a, s)]), l1b. rewrite <- app_assoc. split; [done|]. split; [by rewrite last_addr_snoc|]. by split.
  - by exists [], l1.
  - apply asc_app in Ha as [Ha _]. pose proof (fl_length l1 Ha). lia.
  - exact E.
Qed.

(** [link] makes the chain over [l1] end in [p]. *)
Lemma link_chain h l1 p q : asc 0 l1 -> 0 <= p < 2 ^ 64 -> chain (h_mem h) (g_free_head h) l1 q ->
  let h' := link h (last_addr 0 l1) p in
  chain (h_mem h') (g_free_head h') l1 p /\ same_rest h h' /\ (forall x, ~ cover l1 x -> h_mem h' x = h_mem h x) /\
  (mem_bytes (h_mem h) -> mem_bytes (h_mem h')).
Proof.
  intros Ha Hp Hc h'. unfold h', link. destruct (snoc_case l1) as [->|(l0 & a & s & ->)].
  - cbn. split; [done|]. split; [by unfold same_rest|]. done.
  - rewrite last_addr_snoc. pose proof Ha as Ha0. apply asc_app in Ha0 as [_ (_ & (Hpos & _ & Hsz & _) & _)]. cbn [fst snd] in *.
    rewrite (proj2 (Z.eqb_neq a 0)) by lia. cbn [negb put1 set_mem h_mem g_free_head].
    split; [by eapply chain_relink|]. split; [done|]. split; [|intros Hb; by apply mem_bytes_store].
    intros x Hx. unfold store. rewrite (proj2 (in_range_false _ _ _)); [done|]. intros Hr. apply Hx, cover_app. right.
    apply cover_cons. lia.
Qed.

Lemma same_rest_trans h1 h2 h3 : same_rest h1 h2 -> same_rest h2 h3 -> same_rest h1 h3.
Proof. intros (? & ? & ? & ?) (? & ? & ? & ?). split_and!; congruence. Qed.

(** What free_insert does to the free list, before coalescing. *)
Definition linked h h' (fl : list block) (P : Z -> Prop) : Prop :=
  mem_bytes (h_mem h') /\ chain (h_mem h') (g_free_head h') fl 0 /\ asc 0 fl /\ same_rest h h' /\
  (forall x, ~ P x -> h_mem h' x = h_mem h x).

(** Merging inside a linked list. *)
Lemma linked_merge h h' l a s t l2 P : linked h h' (l ++ (a, s) :: (a + s, t) :: l2) P -> (forall x, a <= x < a + 16 -> P x) ->
  let h2 := put1 (put0 h' a (u64 (Z.land (word0 h' a) SIZEMASK + Z.land (word0 h' (a + s)) SIZEMASK))) a
     (word1 (put0 h' a (u64 (Z.land (word0 h' a) SIZEMASK + Z.land (word0 h' (a + s)) SIZEMASK))) (a + s)) in
  linked h h2 (l ++ (a, s + t) :: l2) P.
Proof.
  intros (Hb & Hc & Ha & Hr & Hm) HP h2.
  pose proof (chain_size _ _ _ _ a s Hc ltac:(apply in_app_iff; right; by left)) as Es.
  pose proof (chain_size _ _ _ _ (a + s) t Hc ltac:(apply in_app_iff; right; right; by left)) as Et.
  pose proof Ha as Ha0. apply asc_app in Ha0 as [Ha1 (Ha2 & (Hb1 & Hb2 & Hb3 & Hb4 & Hb5) & Ha3 & (Hc1 & Hc2 & Hc3 & Hc4 & Hc5) & Ha4)].
  cbn [fst snd] in *.
  assert (E : h2 = set_mem h' (store 8 (store 8 (h_mem h') a (s + t)) (a + 8) (load 8 (h_mem h') (a + s + 8)))).
  { unfold h2, word0, word1. rewrite Es, Et, !sizemask_size by lia. rewrite u64_small by lia.
    unfold put1, put0, set_mem. cbn [h_mem]. by rewrite load_store_disj by lia. }
  rewrite E. split; [by do 2 apply mem_bytes_store|]. split; [|split; [|split]].
  - apply (chain_merge _ _ _ _ _ _ _ _ 0); [done|apply (load_bound 8); done|done].
  - apply asc_app. split; [done|]. split; [done|]. split; [|by rewrite Z.add_assoc]. unfold block_ok. cbn [fst snd]. mlia.
  - exact Hr.
  - intros x Hx. rewrite <- Hm by done. cbn. unfold store.
    rewrite !(proj2 (in_range_false _ _ _)); [done|intros ?; apply Hx, HP; lia|intros ?; apply Hx, HP; lia].
Qed.

(** The two coalescing steps: neighbours that touch are merged. *)
Lemma forward_spec h h' l b bsz l2 P e : linked h h' (l ++ (b, bsz) :: l2) P -> (forall x, b <= x < b + 16 -> P x) -> apart e l2 ->
  exists s l2', linked h (coalesce_forward h' b (head_addr l2)) (l ++ (b, s) :: l2') P /\
    (forall x, cover ((b, s) :: l2') x <-> cover ((b, bsz) :: l2) x) /\ apart (b + s) l2'.
Proof.
  intros Hl HP Hap. pose proof Hl as (_ & Hc & Ha & _).
  pose proof (chain_size _ _ _ _ b bsz Hc ltac:(apply in_app_iff; right; by left)) as Es.
  apply asc_app in Ha as [_ (_ & (Hb1 & Hb2 & Hb3 & Hb4 & Hb5) & Ha2)]. cbn [fst snd] in *. unfold coalesce_forward.
  destruct l2 as [|[ca cs] l2]; cbn [head_addr apart asc] in *.
  { exists bsz, []. cbn [Z.eqb negb]. done. }
  destruct Ha2 as (Hca & (Hc1 & Hc2 & Hc3 & Hc4 & Hc5) & Ha2). cbn [fst snd] in *.
  rewrite (proj2 (Z.eqb_neq ca 0)) by lia. cbn [negb]. unfold word0 at 1. rewrite Es, sizemask_size by lia.
  destruct (Z.eqb_spec (b + bsz) ca) as [<-|Hne].
  - exists (bsz + cs), l2. split; [|split].
    + pose proof (linked_merge h h' l b bsz cs l2 P Hl HP) as G. cbv zeta in G. exact G.
    + intros x. rewrite !cover_cons. assert (b <= x < b + (bsz + cs) <-> b <= x < b + bsz \/ b + bsz <= x < b + bsz + cs) by lia. tauto.
    + rewrite Z.add_assoc. by destruct Hap.
  - exists bsz, ((ca, cs) :: l2). split; [done|]. split; [done|]. by destruct Hap.
Qed.

Lemma backward_spec h h' l b bsz l2 P : linked h h' (l ++ (b, bsz) :: l2) P -> (forall x, cover l x -> P x) ->
  apart 0 l -> apart (b + bsz) l2 ->
  exists fl, linked h (coalesce_backward h' (last_addr 0 l) b) fl P /\
    (forall x, cover fl x <-> cover (l ++ (b, bsz) :: l2) x) /\ apart 0 fl.
Proof.
  intros Hl HP Hap Hap2. pose proof Hl as (_ & Hc & Ha & _). unfold coalesce_backward.
  destruct (snoc_case l) as [->|(l0 & a & s & ->)]; cbn [last_addr app] in *.
  { exists ((b, bsz) :: l2). split; [done|]. split; [done|]. destruct Ha as (_ & (Hb1 & _) & _). cbn in *. split; [lia|done]. }
  rewrite last_addr_snoc. rewrite <- app_assoc in *. cbn [app] in *.
  pose proof (chain_size _ _ _ _ a s Hc ltac:(apply in_app_iff; right; by left)) as Es.
  apply asc_app in Ha as [_ (_ & (Ha1 & Ha2 & Ha3 & Ha4 & Ha5) & Ha6 & (Hb1 & _ & Hb3 & _) & _)]. cbn [fst snd] in *.
  rewrite (proj2 (Z.eqb_neq a 0)) by lia. cbn [negb]. unfold word0 at 1. rewrite Es, sizemask_size by lia.
  apply apart_app in Hap as [Hap (Hne & _)]. destruct (Z.eqb_spec (a + s) b) as [<-|Hne2].
  - exists (l0 ++ (a, s + bsz) :: l2). split; [|split].
    + pose proof (linked_merge h h' l0 a s bsz l2 P Hl) as G. cbv zeta in G. apply G. intros x Hx. apply HP, cover_app. right.
      apply cover_cons. lia.
    + intros x. rewrite !cover_app, !cover_cons. assert (a <= x < a + (s + bsz) <-> a <= x < a + s \/ a + s <= x < a + s + bsz) by lia. tauto.
    + apply apart_app. split; [done|]. split; [done|]. by rewrite Z.add_assoc.
  - eexists. split; [exact Hl|]. split; [done|]. apply apart_app. split; [done|]. split; [done|]. by split.
Qed.

Lemma put1_chain_disj h b v p l q lo : asc lo l -> (forall x, b <= x < b + 16 -> ~ cover l x) ->
  chain (h_mem h) p l q -> chain (h_mem (put1 h b v)) p l q.
Proof. intros Ha Hc. apply (chain_store _ _ _ _ _ _ _ lo); [done|lia|]. intros x Hx. apply Hc. lia. Qed.

(** free_insert adds the block to the free list: the same addresses are free
    as before, and those of the block; nothing outside them is written. *)
Lemma free_insert_spec h b bsz fl : free_list h fl -> block_ok (b, bsz) -> word0 h b = bsz ->
  (forall x, b <= x < b + bsz -> ~ cover fl x) ->
  exists h' fl', free_insert b h = Some h' /\ free_list h' fl' /\ same_rest h h' /\
    (forall x, cover fl' x <-> cover fl x \/ b <= x < b + bsz) /\
    (forall x, ~ cover fl x -> ~ (b <= x < b + bsz) -> h_mem h' x = h_mem h x).
Proof.
  intros (Hby & Hc & Ha & Hap) Hok Eb Hdis. pose proof Hok as (Hb1 & Hb2 & Hb3 & Hb4 & Hb5). cbn [fst snd] in *.
  destruct (asc_split 0 fl b Ha) as (l1 & l2 & -> & H1 & H2).
  { intros s Hin. apply (Hdis b); [lia|]. exists (b, s). destruct (asc_ok _ _ _ Ha Hin) as [(_ & _ & ? & _) _]. cbn in *. split; [done|cbn; lia]. }
  pose proof (insert_point_run h b l1 l2 Ha Hc H1 H2) as Ep. unfold free_insert. rewrite (bind_pair _ _ _ _ Ep).
  apply asc_app in Ha as [Ha1 Ha2]. apply apart_app in Hap as [Hap1 Hap2]. apply chain_app in Hc as (r & Hc1 & Hc2).
  assert (Hr : r = head_addr l2) by (apply chain_head in Hc2; by destruct l2 as [|[? ?] ?]). subst r.
  assert (Hd1 : forall x, b <= x < b + 16 -> ~ cover l1 x) by (intros x Hx Hcv; apply (Hdis x); [lia|apply cover_app; by left]).
  assert (Hd2 : forall x, b <= x < b + 16 -> ~ cover l2 x) by (intros x Hx Hcv; apply (Hdis x); [lia|apply cover_app; by right]).
  assert (Ht1 : top 0 l1 <= b).
  { destruct (snoc_case l1) as [->|(l0 & a & s & ->)]; [cbn; lia|]. rewrite top_snoc.
    specialize (H1 (a, s) ltac:(apply in_app_iff; right; by left)). cbn in H1.
    destruct (Z.le_gt_cases (a + s) b); [done|]. exfalso. apply (Hd1 b); [lia|]. apply cover_app. right. apply cover_cons. lia. }
  assert (Ht2 : asc (b + bsz) l2).
  { destruct l2 as [|[a s] l2]; [done|]. destruct Ha2 as (? & Hok2 & ?). split; [|done].
    specialize (H2 (a, s) (or_introl eq_refl)). cbn in H2. destruct (Z.le_gt_cases (b + bsz) a); [done|]. exfalso.
    apply (Hdis a); [lia|]. apply cover_app. right. apply cover_cons. destruct Hok2 as (_ & _ & ? & _). cbn in *. lia. }
  assert (Hhead : 0 <= head_addr l2 < 2 ^ 64).
  { destruct l2 as [|[a s] l2]; cbn; [lia|]. destruct Ha2 as (_ & (? & _ & ? & _ & ?) & _). cbn in *. lia. }
  set (P := fun x => cover (l1 ++ l2) x \/ b <= x < b + bsz).
  assert (Hlink : linked h (link (put1 h b (head_addr l2)) (last_addr 0 l1) b) (l1 ++ (b, bsz) :: l2) P).
  { destruct (link_chain (put1 h b (head_addr l2)) l1 b (head_addr l2) Ha1 ltac:(lia)) as (Hl1 & Hl2 & Hl3 & Hl4);
      [by apply (put1_chain_disj _ _ _ _ _ _ 0)|].
    set (h2 := link _ _ _) in *. split; [by apply Hl4, mem_bytes_store|].
    assert (Hw : forall x, b <= x < b + 16 -> h_mem h2 x = h_mem (put1 h b (head_addr l2)) x) by (intros x Hx; by apply Hl3, Hd1).
    split; [|split; [|split]].
    - apply chain_app. exists b. split; [done|]. cbn [chain]. split; [done|].
      rewrite (load_ext 8 _ (h_mem (put1 h b (head_addr l2))) b) by (intros; apply Hw; lia).
      rewrite (load_ext 8 _ (h_mem (put1 h b (head_addr l2))) (b + 8)) by (intros; apply Hw; lia).
      cbn [put1 set_mem h_mem]. rewrite load_store_disj by lia. split; [done|]. rewrite (load_store_same 8), Z.mod_small by (change (256 ^ Z.of_nat 8) with (2 ^ 64); lia).
      eapply chain_frame; [|by apply (put1_chain_disj h b (head_addr l2) _ _ _ _ Ha2)]. intros c x Hcin Hx. apply Hl3. intros (c1 & Hc1in & Hc1x).
      pose proof (asc_top_max _ _ _ Ha1 Hc1in). destruct (asc_ok _ _ _ Ha2 Hcin). lia.
    - apply asc_app. split; [done|]. split; [lia|]. done.
    - exact Hl2.
    - intros x Hx. unfold P in Hx. rewrite Hl3 by (intros ?; apply Hx; left; apply cover_app; by left).
      cbn [put1 set_mem h_mem]. unfold store. rewrite (proj2 (in_range_false _ _ _)); [done|]. intros ?. apply Hx. right. lia. }
  destruct (forward_spec _ _ _ _ _ _ _ _ Hlink ltac:(intros x Hx; right; lia) Hap2) as (s & l2' & Hf & Hfc & Hfa).
  destruct (backward_spec _ _ _ _ _ _ _ Hf ltac:(intros x Hx; left; apply cover_app; by left) Hap1 Hfa) as (fl & Hbk & Hbc & Hba).
  destruct Hbk as (Q1 & Q2 & Q3 & Q4 & Q5). eexists _, fl. split; [reflexivity|]. split; [done|]. split; [done|]. split.
  - intros x. rewrite Hbc, !cover_app, Hfc, cover_cons. tauto.
  - intros x Hx1 Hx2. apply Q5. intros [?|?]; done.
Qed.
End Insert.

(** ** The kernel behind the heap

    What sys_brk and sys_bigalloc promise: the break is where the kernel says
    it is, and what a successful call grants was not granted before.  A call
    that grants nothing changes nothing. *)
Class KernelLaws (K : Type) `{Kernel K} : Type := {
  k_break : K -> Z;
  k_owned : K -> Z -> Prop;
  k_grants (k k' : K) (m m' : mem) (lo hi : Z) : Prop :=
    hi < 2 ^ 47 /\ (forall x, lo <= x < hi -> ~ k_owned k x) /\
    (forall x, k_owned k' x <-> k_owned k x \/ lo <= x < hi) /\
    (forall x, ~ (lo <= x < hi) -> m' x = m x) /\ (mem_bytes m -> mem_bytes m');
  k_refuses (k k' : K) (m m' : mem) : Prop :=
    k_break k' = k_break k /\ (forall x, k_owned k' x <-> k_owned k x) /\ (forall x, m' x = m x);
  break_bound : forall k, 0 < k_break k < 2 ^ 47;
  brk_query : forall k m, sys_brk 0 (k, m) = (k_break k, (k, m));
  brk_set : forall a k m, k_break k <= a < 2 ^ 63 -> let '(r, (k', m')) := sys_brk a (k, m) in
    (r = a -> k_break k' = a /\ k_grants k k' m m' (k_break k) a) /\ (r <> a -> k_refuses k k' m m');
  bigalloc_get : forall n k m, 0 < n < 2 ^ 63 -> n mod 4096 = 0 -> let '(r, (k', m')) := sys_bigalloc n (k, m) in
    (0 < r -> r mod 4096 = 0 /\ k_break k' = k_break k /\ k_grants k k' m m' r (r + n)) /\ (r <= 0 -> k_refuses k k' m m') }.

(** Two blocks do not overlap. *)
Definition disjoint_blocks (b c : block) : Prop := b.1 + b.2 <= c.1 \/ c.1 + c.2 <= b.1.

Section Heap.
Context {K : Type} `{KernelLaws K} `{Accel} {L : AccelLaws _}.
Implicit Types h : heap K.

(** [live] are the blocks handed out. *)
Record heap_inv h (fl live : list block) : Prop := mk_inv {
  inv_free : free_list h fl;
  inv_live : forall b, In b live -> block_ok b /\ word0 h b.1 = b.2 + 1;
  inv_disjoint : ForallOrdPairs disjoint_blocks live;
  inv_sep : forall x, cover live x -> ~ cover fl x;
  inv_owned : forall x, cover fl x \/ cover live x -> k_owned (h_kern h) x;
  inv_end : if decide (g_heap_end h = 0) then fl = [] /\ live = [] else g_heap_end h = k_break (h_kern h) /\ g_heap_end h mod 16 = 8;
  inv_big : g_bigalloc_end h = 0 \/
    (0 < g_bigalloc_end h /\ g_bigalloc_end h mod 16 = 8 /\ g_bigalloc_end h + 8 < 2 ^ 47 /\
     forall x, g_bigalloc_end h <= x < g_bigalloc_end h + 8 -> k_owned (h_kern h) x /\ ~ cover fl x /\ ~ cover live x) }.
Definition heap_ok h (live : list block) : Prop := exists fl, heap_inv h fl live.

(** The payloads and headers of [live] are as they were. *)
Definition kept h h' (live : list block) : Prop := forall x, cover live x -> h_mem h' x = h_mem h x.

Lemma live_kept h h' live : (forall b, In b live -> block_ok b /\ word0 h b.1 = b.2 + 1) -> kept h h' live ->
  forall b, In b live -> block_ok b /\ word0 h' b.1 = b.2 + 1.
Proof.
  intros Hl Hk b Hb. destruct (Hl b Hb) as [Hok E]. split; [done|]. rewrite <- E. apply load_ext. intros x Hx. apply Hk.
  exists b. split; [done|]. destruct Hok as (_ & _ & ? & _). lia.
Qed.

(** Adding fresh memory to the free list. *)
Lemma inv_insert h b bsz fl live : heap_inv h fl live -> block_ok (b, bsz) -> word0 h b = bsz ->
  (forall x, b <= x < b + bsz -> ~ cover fl x /\ ~ cover live x /\ k_owned (h_kern h) x) -> g_heap_end h <> 0 ->
  (forall x, g_bigalloc_end h <= x < g_bigalloc_end h + 8 -> ~ (b <= x < b + bsz)) ->
  exists h' fl', free_insert b h = Some h' /\ heap_inv h' fl' live /\ same_rest h h' /\ kept h h' live /\
    (forall x, cover fl' x <-> cover fl x \/ b <= x < b + bsz).
Proof.
  intros [If Il Id Is Io Ie Ib] Hok E Hx He Hbig.
  destruct (free_insert_spec h b bsz fl If Hok E ltac:(intros x Hr; by apply Hx)) as (h' & fl' & Er & Hf & Hs & Hc & Hm).
  assert (Hk : kept h h' live) by (intros x Hxl; apply Hm; [by apply Is|intros Hr; by apply Hx in Hr as (_ & ? & _)]).
  exists h', fl'. split; [done|]. split; [|split; [done|]; split; [done|done]]. pose proof Hs as (Ek & _ & Eh & Eb). constructor.
  - done.
  - by apply (live_kept h).
  - done.
  - intros x Hxl Hxf. apply Hc in Hxf as [Hxf|Hxf]; [by apply (Is x)|by apply Hx in Hxf as (_ & ? & _)].
  - intros x. rewrite Hc, Ek. intros [[?|?]|?]; [apply Io; by left|by apply Hx|apply Io; by right].
  - rewrite Eh, Ek. by destruct (decide (g_heap_end h = 0)).
  - rewrite Eb, Ek. destruct Ib as [?|(? & ? & ? & Ib)]; [by left|right]. split_and!; try done. intros x Hxb.
    destruct (Ib x Hxb) as (? & ? & ?). split; [done|]. split; [|done]. rewrite Hc. intros [?|?]; [done|by apply (Hbig x)].
Qed.

(** ** Growing the heap *)

Lemma chain_cover m m' p l q lo : asc lo l -> (forall x, cover l x -> m' x = m x) -> chain m p l q -> chain m' p l q.
Proof.
  intros Ha Hx. apply chain_frame. intros b x Hb Hbx. apply Hx. exists b. split; [done|].
  destruct (asc_ok _ _ _ Ha Hb) as [(_ & _ & ? & _) _]. lia.
Qed.

(** A change outside the blocks. *)
Lemma inv_change h h' fl live : heap_inv h fl live -> g_free_head h' = g_free_head h ->
  (forall x, cover fl x \/ cover live x -> h_mem h' x = h_mem h x) -> mem_bytes (h_mem h') ->
  (forall x, k_owned (h_kern h) x -> k_owned (h_kern h') x) ->
  (if decide (g_heap_end h' = 0) then fl = [] /\ live = [] else g_heap_end h' = k_break (h_kern h') /\ g_heap_end h' mod 16 = 8) ->
  (g_bigalloc_end h' = 0 \/
    (0 < g_bigalloc_end h' /\ g_bigalloc_end h' mod 16 = 8 /\ g_bigalloc_end h' + 8 < 2 ^ 47 /\
     forall x, g_bigalloc_end h' <= x < g_bigalloc_end h' + 8 -> k_owned (h_kern h') x /\ ~ cover fl x /\ ~ cover live x)) ->
  heap_inv h' fl live.
Proof.
  intros [(Hb & Hc & Ha & Hap) Il Id Is Io Ie Ib] Eh Hm Hbytes Ho He' Hb'. constructor; try done.
  - split; [done|]. split; [|done]. rewrite Eh. eapply chain_cover; [done| |done]. intros x Hx. apply Hm. by left.
  - apply (live_kept h); [done|]. intros x Hx. apply Hm. by right.
  - intros x Hx. by apply Ho, Io.
Qed.

(** *** What a failing malloc has asked of the kernel

    A kernel state is the kernel with the memory.  [ask inc s] asks for a
    break [inc] bytes above the present one. *)
Definition kstate h : K * mem := (h_kern h, h_mem h).
Definition ask (inc : Z) (s : K * mem) : Z * (K * mem) := sys_brk (k_break s.1 + inc) s.
Definition granted (inc : Z) (s : K * mem) : Prop := (ask inc s).1 = k_break s.1 + inc.

(** The bytes from [b] to the next address that is 8 modulo 16. *)
Definition first_pad (b : Z) : Z := (8 - b) mod 16.
Definition init_state h : K * mem := (ask 0 (kstate h)).2.

(** The first allocation asks for the break as it is and then for the
    padding, if there is any: refused, or the state it leaves. *)
Definition init_refused h : Prop :=
  g_heap_end h = 0 /\ (~ granted 0 (kstate h) \/
    first_pad (k_break (init_state h).1) <> 0 /\ ~ granted (first_pad (k_break (init_state h).1)) (init_state h)).
Definition init_done h (s : K * mem) : Prop :=
  (g_heap_end h <> 0 /\ s = kstate h) \/
  (g_heap_end h = 0 /\ granted 0 (kstate h) /\
   let pad := first_pad (k_break (init_state h).1) in
   if pad =? 0 then s = init_state h else granted pad (init_state h) /\ s = (ask pad (init_state h)).2).

(** The block a request needs, header included; the bytes of break and of
    window asked for when no free block is as large. *)
Definition block_for (size : Z) : Z := 16 * ((Z.max size 1 + 8 + 15) / 16).
Definition brk_amount (total : Z) : Z := Z.max total 0x10000.
Definition window_amount (total : Z) : Z := 4096 * ((Z.max (total + 16) 0x10000 + 4095) / 4096).

(** The kernel refused this request: the first allocation's, or no free block
    is large enough, the break was refused and, after that, the window. *)
Definition exhausted h (size : Z) (live : list block) : Prop :=
  init_refused h \/
  exists s, init_done h s /\ ~ granted (brk_amount (block_for size)) s /\
    (sys_bigalloc (window_amount (block_for size)) (ask (brk_amount (block_for size)) s).2).1 <= 0 /\
    forall fl, heap_inv h fl live -> forall b, In b fl -> b.2 < block_for size.

Lemma sbrk_spec incr h : 0 <= incr < 2 ^ 62 ->
  exists r h' , sbrk incr h = (r, h') /\ g_free_head h' = g_free_head h /\ g_heap_end h' = g_heap_end h /\ g_bigalloc_end h' = g_bigalloc_end h /\
  kstate h' = (ask incr (kstate h)).2 /\
  ((r = MINUS1 /\ k_refuses (h_kern h) (h_kern h') (h_mem h) (h_mem h') /\ ~ granted incr (kstate h)) \/
   (granted incr (kstate h) /\ r = k_break (h_kern h) /\ r <> MINUS1 /\ k_break (h_kern h') = r + incr /\ k_grants (h_kern h) (h_kern h') (h_mem h) (h_mem h') r (r + incr))).
Proof.
  intros Hi. unfold sbrk, granted, ask, kstate. cbn [fst]. rewrite brk_query. pose proof (break_bound (h_kern h)) as Hbb. remember (k_break (h_kern h)) as b eqn:Eb.
  rewrite u64_small by lia. assert (Hreq : k_break (h_kern h) <= b + incr < 2 ^ 63) by lia.
  pose proof (brk_set (b + incr) (h_kern h) (h_mem h) Hreq) as Hs. rewrite <- Eb in Hs.
  destruct (sys_brk (b + incr) (h_kern h, h_mem h)) as [got [k' m']]. destruct Hs as [Hs1 Hs2].
  destruct (Z.eqb_spec got (b + incr)) as [E|E]; cbn [negb].
  - exists b, (set_kern h (k', m')). split_and!; try done. right. destruct (Hs1 E) as [? ?]. unfold MINUS1. split_and!; try done; lia.
  - exists MINUS1, (set_errno (set_kern h (k', m')) ENOMEM). split_and!; try done. left. split; [done|]. split; [exact (Hs2 E)|done].
Qed.

Lemma refused_ok h h' fl live : heap_inv h fl live -> k_refuses (h_kern h) (h_kern h') (h_mem h) (h_mem h') ->
  g_free_head h' = g_free_head h -> g_heap_end h' = g_heap_end h -> g_bigalloc_end h' = g_bigalloc_end h -> heap_inv h' fl live.
Proof.
  intros Hinv (E1 & E2 & E3) Eh Ee Eb. pose proof Hinv as [(Hb & _) _ _ _ _ Ie Ib]. apply (inv_change h); try done.
  - intros x. rewrite E3. apply Hb.
  - intros x Hx. by apply E2.
  - by rewrite Ee, E1.
  - rewrite Eb. destruct Ib as [?|(? & ? & ? & Ib)]; [by left|right]. split_and!; try done. intros x Hx. rewrite E2. by apply Ib.
Qed.

(** Both ways of growing: refused, or the free list has a block of the size
    asked for. *)
Definition grew h h' (r total : Z) (live : list block) : Prop :=
  kept h h' live /\ g_heap_end h' <> 0 /\
  ((r = -1 /\ heap_ok h' live) \/ (r = 0 /\ exists fl, heap_inv h' fl live /\ exists b, total <= b.2 /\ forall x, b.1 <= x < b.1 + b.2 -> cover fl x)).

Lemma grow_spec h fl live total : heap_inv h fl live -> g_heap_end h <> 0 -> 16 <= total < 2 ^ 62 -> total mod 16 = 0 ->
  exists r h', grow total h = Some (r, h') /\ grew h h' r total live /\
    (r = -1 -> ~ granted (brk_amount total) (kstate h) /\ kstate h' = (ask (brk_amount total) (kstate h)).2).
Proof.
  intros Hinv He Ht Hm. unfold grow. set (amount := if CHUNK <? total then total else CHUNK).
  assert (Ham : total <= amount /\ 16 <= amount < 2 ^ 62 /\ amount mod 16 = 0).
  { unfold amount, CHUNK in *. destruct (Z.ltb_spec (64 * 1024) total); [lia|]. split; [lia|]. split; [lia|done]. }
  destruct Ham as (Ham1 & Ham2 & Ham3).
  assert (Eam : brk_amount total = amount) by (unfold brk_amount, amount, CHUNK; destruct (Z.ltb_spec (64 * 1024) total); lia). rewrite Eam.
  destruct (sbrk_spec amount h ltac:(lia)) as (st & h1 & -> & E1 & E2 & E3 & Ek & [(-> & Hr & Href)|(_ & -> & Hne & Hbr & Hg)]).
  { exists (-1), h1. rewrite Z.eqb_refl. split; [done|]. split; [|done]. split; [intros x _; apply Hr|]. split; [by rewrite E2|]. left. split; [done|].
    exists fl. by apply (refused_ok h). }
  rewrite (proj2 (Z.eqb_neq _ _) Hne). rewrite E2. destruct Hg as (Hg1 & Hg2 & Hg3 & Hg4 & Hg5).
  pose proof Hinv as [(Hb & _) _ _ _ Io Ie Ib]. rewrite decide_False in Ie by done. destruct Ie as [Ie1 Ie2]. rewrite <- Ie1 in *.
  set (e := g_heap_end h) in *. pose proof (break_bound (h_kern h)) as Hbb. rewrite <- Ie1 in Hbb.
  assert (Hfresh : forall x, e <= x < e + amount -> ~ cover fl x /\ ~ cover live x).
  { intros x Hx. split; intros Hc; apply (Hg2 x Hx), Io; [by left|by right]. }
  set (h2 := set_end_of_heap (put0 h1 e amount) (u64 (g_heap_end (put0 h1 e amount) + amount))).
  assert (Eh2 : g_heap_end h2 = e + amount) by (cbn; rewrite E2; apply u64_small; fold e; lia).
  assert (Hmem : forall x, ~ (e <= x < e + amount) -> h_mem h2 x = h_mem h x).
  { intros x Hx. cbn. unfold store. rewrite (proj2 (in_range_false _ _ _)) by lia. by apply Hg4. }
  assert (Hinv2 : heap_inv h2 fl live).
  { apply (inv_change h); [done|done| | | | |].
    - intros x Hx. apply Hmem. intros Hr. destruct (Hfresh x Hr). tauto.
    - by apply mem_bytes_store, Hg5.
    - intros x Hx. apply Hg3. by left.
    - rewrite Eh2. rewrite decide_False by lia. split; [exact (eq_sym Hbr)|mlia].
    - change (g_bigalloc_end h2) with (g_bigalloc_end h1). rewrite E3. destruct Ib as [?|(? & ? & ? & Ib)]; [by left|right]. split_and!; try done.
      intros x Hx. destruct (Ib x Hx) as (? & ? & ?). split; [apply Hg3; by left|done]. }
  destruct (inv_insert h2 e amount fl live Hinv2) as (h' & fl' & Er & Hinv' & Hs & Hk & Hc).
  - unfold block_ok. cbn [fst snd]. split_and!; try done; lia.
  - apply (word0_put0 h1). lia.
  - intros x Hx. destruct (Hfresh x Hx). split_and!; try done. apply Hg3. by right.
  - rewrite Eh2. lia.
  - change (g_bigalloc_end h2) with (g_bigalloc_end h1). rewrite E3. intros x Hx Hr. destruct Ib as [Ib|(? & ? & ? & Ib)]; [|by destruct (Ib x Hx) as [Ho _]; apply (Hg2 x Hr)].
    rewrite Ib in Hx. mlia.
  - exists 0, h'. rewrite (bind_some _ _ _ Er). split; [done|]. split; [|done]. split.
    + intros x Hx. rewrite Hk by done. apply Hmem. intros Hr. by destruct (Hfresh x Hr).
    + destruct Hs as (_ & _ & Hs & _). split; [rewrite Hs, Eh2; lia|]. right. split; [done|]. exists fl'. split; [done|].
      exists (e, amount). split; [done|]. intros x Hx. apply Hc. by right.
Qed.

(** A grant [va, va + amount) becomes the block [b, b + size), which may start
    in the unused tail of the grant before it. *)
Lemma bigalloc_block h h1 fl live total va amount b size : heap_inv h fl live -> g_heap_end h <> 0 ->
  g_free_head h1 = g_free_head h -> g_heap_end h1 = g_heap_end h -> k_break (h_kern h1) = k_break (h_kern h) ->
  k_grants (h_kern h) (h_kern h1) (h_mem h) (h_mem h1) va (va + amount) ->
  0 < b -> b mod 16 = 8 -> 16 <= size -> size mod 16 = 0 -> total <= size -> b + size = va + amount - 8 ->
  (b = va + 8 \/ (b = va - 8 /\ b = g_bigalloc_end h)) ->
  exists h', free_insert b (set_bigalloc_end (put0 h1 b size) (b + size)) = Some h' /\ grew h h' 0 total live.
Proof.
  intros Hinv He E1 E2 E3 (Hg1 & Hg2 & Hg3 & Hg4 & Hg5) Hb0 Hb Hs0 Hs Ht Hend Hcase.
  pose proof Hinv as [(Hby & _) _ _ _ Io Ie Ib]. rewrite decide_False in Ie by done. destruct Ie as [Ie1 Ie2].
  assert (Hnew : forall x, b <= x < b + size + 8 -> ~ cover fl x /\ ~ cover live x /\ k_owned (h_kern h1) x).
  { intros x Hx. destruct (Z.le_gt_cases va x) as [Hv|Hv].
    - assert (Hr : va <= x < va + amount) by lia.
      split; [|split; [|apply Hg3; by right]]; intros Hc; apply (Hg2 x Hr), Io; [by left|by right].
    - destruct Hcase as [?|[Hb8 Hbe]]; [lia|]. destruct Ib as [?|(_ & _ & _ & Ib)]; [lia|].
      destruct (Ib x ltac:(lia)) as (Ho & ? & ?). split_and!; try done. apply Hg3. by left. }
  set (h2 := set_bigalloc_end (put0 h1 b size) (b + size)).
  assert (Hmem : forall x, cover fl x \/ cover live x -> h_mem h2 x = h_mem h x).
  { intros x Hx. assert (Hn : ~ (b <= x < b + size + 8)) by (intros Hr; destruct (Hnew x Hr) as (? & ? & _); tauto).
    cbn. unfold store. rewrite (proj2 (in_range_false _ _ _)) by lia. apply Hg4. intros Hr. apply (Hg2 x Hr). by apply Io. }
  assert (Hinv2 : heap_inv h2 fl live).
  { apply (inv_change h); [done|done|done| | | |].
    - by apply mem_bytes_store, Hg5.
    - intros x Hx. apply Hg3. by left.
    - change (g_heap_end h2) with (g_heap_end h1). change (h_kern h2) with (h_kern h1). rewrite E2, E3. by rewrite decide_False.
    - right. change (g_bigalloc_end h2) with (b + size). change (h_kern h2) with (h_kern h1). split_and!; [lia|mlia|lia|].
      intros x Hx. destruct (Hnew x ltac:(lia)) as (? & ? & ?). done. }
  destruct (inv_insert h2 b size fl live Hinv2) as (h' & fl' & Er & Hinv' & Hsr & Hk & Hc).
  - unfold block_ok. cbn [fst snd]. split_and!; try done; lia.
  - apply (word0_put0 h1). lia.
  - intros x Hx. by apply Hnew; lia.
  - change (g_heap_end h1 <> 0). by rewrite E2.
  - change (g_bigalloc_end h2) with (b + size). lia.
  - exists h'. split; [done|]. split; [intros x Hx; rewrite Hk by done; apply Hmem; by right|].
    destruct Hsr as (_ & _ & Hsr & _). split; [rewrite Hsr; change (g_heap_end h1 <> 0); by rewrite E2|]. right. split; [done|].
    exists fl'. split; [done|]. exists (b, size). split; [done|]. intros x Hx. apply Hc. by right.
Qed.

Lemma bigalloc_grow_spec h fl live total : heap_inv h fl live -> g_heap_end h <> 0 -> 16 <= total < 2 ^ 62 -> total mod 16 = 0 ->
  exists r h', bigalloc_grow total h = Some (r, h') /\ grew h h' r total live /\
    (r = -1 -> (sys_bigalloc (window_amount total) (kstate h)).1 <= 0).
Proof.
  intros Hinv He Ht Hm. unfold bigalloc_grow. unfold ALIGN, BIGALLOC_PAGE, HDR. rewrite (u64_small (total + 16)) by lia.
  set (raw := if CHUNK <? total + 16 then total + 16 else CHUNK).
  assert (Hraw : total + 16 <= raw < 2 ^ 62 + 16 /\ 16 < raw) by (unfold raw, CHUNK; destruct (Z.ltb_spec (64 * 1024) (total + 16)); lia).
  rewrite (u64_small (raw + _)) by lia.
  assert (Ea : clr (raw + (4096 - 1)) (4096 - 1) = raw + 4095 - (raw + 4095) mod 4096) by apply (page_of_eq (raw + 4095)).
  rewrite Ea. set (amount := raw + 4095 - (raw + 4095) mod 4096).
  assert (Ham : raw <= amount < 2 ^ 63 /\ amount mod 4096 = 0) by (unfold amount; mlia). destruct Ham as [Ham1 Ham2].
  assert (Hpos : 0 < amount < 2 ^ 63) by lia.
  assert (Ewin : window_amount total = amount) by (unfold window_amount, amount, raw, CHUNK; destruct (Z.ltb_spec (64 * 1024) (total + 16)); mlia).
  rewrite Ewin. unfold kstate.
  pose proof (bigalloc_get amount (h_kern h) (h_mem h) Hpos Ham2) as Hget.
  destruct (sys_bigalloc amount (h_kern h, h_mem h)) as [va [k' m']]. destruct Hget as [Hget1 Hget2].
  destruct (Z.leb_spec va 0) as [Hva|Hva].
  { specialize (Hget2 Hva). exists (-1), (set_kern h (k', m')). split; [done|]. split; [|done]. split; [intros x _; apply Hget2|]. split; [done|].
    left. split; [done|]. exists fl. by apply (refused_ok h). }
  destruct (Hget1 Hva) as (Hv1 & Hv2 & Hv3). set (h1 := set_kern h (k', m')) in *.
  change (g_bigalloc_end h1) with (g_bigalloc_end h).
  assert (Hvb : va + amount < 2 ^ 47) by apply Hv3. assert (Ham16 : amount mod 16 = 0) by mlia.
  pose proof (inv_big _ _ _ Hinv) as Ib.
  destruct (negb (g_bigalloc_end h =? 0) && (va =? u64 (g_bigalloc_end h + 8))) eqn:E.
  - apply andb_prop in E as [En Ev]. apply negb_true_iff, Z.eqb_neq in En. apply Z.eqb_eq in Ev.
    destruct Ib as [?|(Hb0 & Hb16 & Hb47 & _)]; [done|]. rewrite u64_small in Ev by lia. set (b := g_bigalloc_end h) in *.
    rewrite (sizemask_size amount) by (lia || done). rewrite word0_put0, (sizemask_size amount) by (lia || done). rewrite u64_small by lia.
    destruct (bigalloc_block h h1 fl live total va amount b amount Hinv He) as (h' & Er & Hgr); try done; try lia.
    exists 0, h'. split; [|by split]. exact (bind_some _ _ _ Er).
  - rewrite (u64_small (va + 8)), (u64_small (amount - 16)) by lia. assert (Ham17 : (amount - 16) mod 16 = 0) by mlia.
    rewrite (sizemask_size (amount - 16)) by (lia || done). rewrite word0_put0, (sizemask_size (amount - 16)) by (lia || done). rewrite u64_small by lia.
    destruct (bigalloc_block h h1 fl live total va amount (va + 8) (amount - 16) Hinv He) as (h' & Er & Hgr); try done; try lia; try mlia.
    exists 0, h'. split; [|by split]. exact (bind_some _ _ _ Er).
Qed.

(** ** Finding and carving a block *)

(** First fit: the first block that is large enough, or none is. *)
Lemma find_fit_spec h fl total : free_list h fl ->
  (exists l1 c s l2, fl = l1 ++ (c, s) :: l2 /\ total <= s /\ find_fit total h = Some (c, last_addr 0 l1)) \/
  (find_fit total h = Some (0, 0) /\ forall b, In b fl -> b.2 < total).
Proof.
  intros (_ & Hc & Ha & _).
  set (Q := fun r => (exists l1 c s l2, fl = l1 ++ (c, s) :: l2 /\ total <= s /\ r = (c, last_addr 0 l1)) \/ (r = (0, 0) /\ forall b, In b fl -> b.2 < total)).
  destruct (while_steps (fun '(prev, cur) => if cur =? 0 then inr (0, 0)
      else if total <=? Z.land (word0 h cur) SIZEMASK then inr (cur, prev) else inl (cur, word1 h cur))
    (fun '(prev, cur) z => exists l1 l2, fl = l1 ++ l2 /\ prev = last_addr 0 l1 /\ chain (h_mem h) cur l2 0 /\
       (forall b, In b l1 -> b.2 < total) /\ z = Z.of_nat (length l2))
    Q (0, g_free_head h) (Z.of_nat (length fl))) as (r & E & Hq).
  - intros [prev cur] z (l1 & l2 & -> & -> & Hch & Hlt & ->). destruct l2 as [|[a s] l2]; cbn [chain] in Hch.
    + subst cur. right. split; [done|]. by rewrite app_nil_r.
    + destruct Hch as (-> & Es & Hch). apply asc_app in Ha as [_ (_ & (Hpos & _ & Hsz & Hs16 & Hb) & _)]. cbn [fst snd] in *.
      rewrite (proj2 (Z.eqb_neq a 0)) by lia. unfold word0. rewrite Es, sizemask_size by lia.
      destruct (Z.leb_spec total s); [left; by exists l1, a, s, l2|].
      exists (Z.of_nat (length l2)). split; [|cbn; lia]. exists (l1 ++ [(a, s)]), l2. rewrite <- app_assoc. split; [done|].
      split; [by rewrite last_addr_snoc|]. split; [done|]. split; [|done]. intros b Hb2. apply in_app_iff in Hb2 as [Hb2|[<-|[]]]; [by apply Hlt|done].
  - exists [], fl. by split_and!.
  - pose proof (fl_length fl Ha). lia.
  - destruct Hq as [(l1 & c & s & l2 & ? & ? & ->)|[-> ?]]; [left; by exists l1, c, s, l2|by right].
Qed.

Lemma put_outside h b v x : ~ (b <= x < b + 8) -> h_mem (put0 h b v) x = h_mem h x.
Proof. intros Hx. cbn. unfold store. by rewrite (proj2 (in_range_false _ _ _)). Qed.
Lemma put1_outside h b v x : ~ (b + 8 <= x < b + 16) -> h_mem (put1 h b v) x = h_mem h x.
Proof. intros Hx. cbn. unfold store. by rewrite (proj2 (in_range_false _ _ _)) by lia. Qed.

(** What carving promises: the front [c, c + sz) of a free block is live, the
    rest stays free. *)
Definition carved h h' (c s sz : Z) (l1 l2 : list block) : Prop :=
  exists rest, rest = (if sz =? s then [] else [(c + sz, s - sz)]) /\
  chain (h_mem h') (g_free_head h') (l1 ++ rest ++ l2) 0 /\ word0 h' c = sz + 1 /\ same_rest h h' /\
  mem_bytes (h_mem h') /\ (forall x, ~ cover (l1 ++ (c, s) :: l2) x -> h_mem h' x = h_mem h x).

Lemma alloc_from_carves h l1 c s l2 total : free_list h (l1 ++ (c, s) :: l2) -> 16 <= total <= s -> total mod 16 = 0 ->
  exists sz, total <= sz <= s /\ sz mod 16 = 0 /\ (sz = s \/ 16 <= s - sz) /\
    carved h (alloc_from (last_addr 0 l1) c total h) c s sz l1 l2.
Proof.
  intros (Hby & Hc & Ha & Hap) Ht Hm. pose proof (chain_size _ _ _ _ c s Hc ltac:(apply in_app_iff; right; by left)) as Es.
  apply chain_app in Hc as (r & Hc1 & -> & _ & Hc2). apply asc_app in Ha as [Ha1 (Ha2 & (Hb1 & Hb2 & Hb3 & Hb4 & Hb5) & Ha3)]. cbn [fst snd] in *.
  assert (Hl1 : forall x, cover l1 x -> x < c) by (intros x (b & Hb & Hx); pose proof (asc_top_max _ _ _ Ha1 Hb); lia).
  assert (Hl2 : forall x, cover l2 x -> c + s <= x) by (intros x (b & Hb & Hx); destruct (asc_ok _ _ _ Ha3 Hb); lia).
  unfold alloc_from. unfold word0 at 1 2 3. rewrite Es, sizemask_size by lia. rewrite u64_small by lia. unfold MIN_BLOCK.
  set (nx := word1 h c).
  assert (Hnx : 0 <= nx < 2 ^ 64) by (apply (load_bound 8); done).
  assert (Hcut : forall h3 p, (forall x, ~ (c <= x < c + s) -> h_mem h3 x = h_mem h x) -> g_free_head h3 = g_free_head h ->
    mem_bytes (h_mem h3) -> same_rest h h3 -> 0 <= p < 2 ^ 64 ->
    let h4 := link h3 (last_addr 0 l1) p in
    chain (h_mem h4) (g_free_head h4) l1 p /\ chain (h_mem h4) nx l2 0 /\ same_rest h h4 /\ mem_bytes (h_mem h4) /\
    (forall x, c <= x < c + s -> h_mem h4 x = h_mem h3 x) /\ (forall x, ~ cover (l1 ++ (c, s) :: l2) x -> h_mem h4 x = h_mem h x)).
  { intros h3 p Hx Eh Hb3' Hs3 Hp h4. destruct (link_chain h3 l1 p c Ha1 Hp) as (G1 & G2 & G3 & G4).
    { rewrite Eh. eapply chain_cover; [exact Ha1| |exact Hc1]. intros x Hxc. apply Hx. specialize (Hl1 x Hxc). lia. }
    fold h4 in G1, G2, G3, G4. split; [done|]. split; [|split; [by eapply same_rest_trans|split; [by apply G4|split]]].
    - eapply chain_cover; [exact Ha3| |exact Hc2]. intros x Hxc. specialize (Hl2 x Hxc). rewrite G3 by (intros Hc; specialize (Hl1 x Hc); lia).
      apply Hx. lia.
    - intros x Hxc. apply G3. intros Hc. specialize (Hl1 x Hc). lia.
    - intros x Hxc. rewrite cover_app, cover_cons in Hxc. rewrite G3 by tauto. apply Hx. tauto. }
  destruct (Z.leb_spec 16 (s - total)) as [Hrem|Hrem].
  - exists total. split; [lia|]. split; [done|]. split; [by right|]. rewrite or_inuse by done.
    set (h3 := put0 (put1 (put0 h (c + total) (s - total)) (c + total) nx) c (total + 1)).
    destruct (Hcut h3 (c + total)) as (G1 & G2 & G3 & G4 & G5 & G6); [|done|by do 3 apply mem_bytes_store|done|lia|].
    { intros x Hx. unfold h3. by rewrite put_outside, put1_outside, put_outside by lia. }
    exists [(c + total, s - total)]. rewrite (proj2 (Z.eqb_neq total s)) by lia. split; [done|].
    assert (Ew : forall a, c <= a -> a + 8 <= c + s -> load 8 (h_mem (link h3 (last_addr 0 l1) (c + total))) a = load 8 (h_mem h3) a)
      by (intros a ? ?; apply load_ext; intros x Hx; apply G5; lia).
    split; [|split; [|split; [done|split; [done|done]]]].
    + apply chain_app. exists (c + total). split; [done|]. cbn [app chain]. split; [done|]. rewrite !Ew by lia.
      unfold h3. cbn [put0 put1 set_mem h_mem]. rewrite load_store_disj, load_store_disj, (load_store_same 8), Z.mod_small by (try change (256 ^ Z.of_nat 8) with (2 ^ 64); lia).
      split; [done|]. rewrite load_store_disj, (load_store_same 8), Z.mod_small by (try change (256 ^ Z.of_nat 8) with (2 ^ 64); lia). done.
    + unfold word0. rewrite Ew by lia. apply (word0_put0 _ c). lia.
  - assert (total = s) as -> by mlia. exists s. split; [lia|]. split; [done|]. split; [by left|]. rewrite or_inuse by done.
    set (h3 := put0 h c (s + 1)).
    destruct (Hcut h3 nx) as (G1 & G2 & G3 & G4 & G5 & G6); [|done|by apply mem_bytes_store|done|lia|].
    { intros x Hx. unfold h3. by rewrite put_outside by lia. }
    exists []. rewrite Z.eqb_refl. split; [done|]. split; [|split; [|split; [done|split; [done|done]]]].
    + apply chain_app. exists nx. split; [done|]. done.
    + unfold word0. rewrite (load_ext 8 _ (h_mem h3)) by (intros x Hx; apply G5; lia). apply (word0_put0 _ c). lia.
Qed.

(** ** malloc and free *)

Lemma carved_ok h h' l1 c s l2 sz live : heap_inv h (l1 ++ (c, s) :: l2) live -> 16 <= sz <= s -> sz mod 16 = 0 ->
  sz = s \/ 16 <= s - sz -> g_heap_end h <> 0 -> carved h h' c s sz l1 l2 -> heap_ok h' ((c, sz) :: live) /\ kept h h' live.
Proof.
  intros [(Hby & Hc & Ha & Hap) Il Id Is Io Ie Ib] Hsz Hsz16 Hcut Hend (rest & Erest & Gc & Gw & Gs & Gb & Gm).
  assert (Hk : kept h h' live) by (intros x Hx; apply Gm; by apply Is).
  apply asc_app in Ha as [Ha1 (Ha2 & (Hb1 & Hb2 & Hb3 & Hb4 & Hb5) & Ha3)]. apply apart_app in Hap as [Hap1 [Hap2 Hap3]]. cbn [fst snd] in *.
  assert (Hcov : forall x, cover (l1 ++ (c, s) :: l2) x <-> cover (l1 ++ rest ++ l2) x \/ c <= x < c + sz).
  { intros x. rewrite !cover_app, cover_cons. rewrite Erest. destruct (Z.eqb_spec sz s) as [->|Hne].
    - pose proof (cover_nil x). tauto.
    - rewrite cover_cons. pose proof (cover_nil x). assert (c <= x < c + s <-> c <= x < c + sz \/ c + sz <= x < c + sz + (s - sz)) by lia. tauto. }
  assert (Hsep : forall x, c <= x < c + sz -> ~ cover (l1 ++ rest ++ l2) x).
  { intros x Hx. rewrite !cover_app. intros [(b & Hb & Hbx)|[Hr|(b & Hb & Hbx)]].
    - pose proof (asc_top_max _ _ _ Ha1 Hb). lia.
    - rewrite Erest in Hr. destruct (Z.eqb_spec sz s); [by apply cover_nil in Hr|]. apply cover_cons in Hr as [?|Hr]; [lia|by apply cover_nil in Hr].
    - destruct (asc_ok _ _ _ Ha3 Hb). lia. }
  split; [|done]. exists (l1 ++ rest ++ l2). pose proof Gs as (Ek & _ & Eh & Eb). constructor.
  - split; [done|]. split; [done|]. rewrite !asc_app, !apart_app, Erest. destruct (Z.eqb_spec sz s) as [->|Hne]; cbn [asc apart top].
    + split_and!; try done; [by apply (asc_weaken (c + s)); [lia|]|].
      destruct l2 as [|[a t] l2]; [done|]. destruct Ha3 as (? & _). destruct Hap3 as [_ ?]. split; [lia|done].
    + assert (E : c + sz + (s - sz) = c + s) by lia. rewrite E. unfold block_ok. cbn [fst snd].
      split; [split; [done|]; split; [|done]; split; [lia|]; split; [|done]; mlia|]. split; [done|]. split; [split; [lia|done]|done].
  - intros b [<-|Hb]; [|by apply (live_kept h h' live)]. split; [|done]. unfold block_ok. cbn [fst snd]. split_and!; try done; lia.
  - constructor; [|done]. apply List.Forall_forall. intros b Hb. unfold disjoint_blocks. cbn [fst snd].
    destruct (Il b Hb) as [(_ & _ & Hbs & _) _].
    destruct (Z.le_gt_cases (c + sz) b.1); [by left|]. destruct (Z.le_gt_cases (b.1 + b.2) c); [by right|]. exfalso.
    apply (Is (Z.max c b.1)); [exists b; split; [done|lia]|]. apply Hcov. right. lia.
  - intros x Hx. apply cover_cons in Hx as [Hx|Hx]; [by apply Hsep|]. intros Hxf. apply (Is x Hx), Hcov. by left.
  - intros x Hx. rewrite Ek. apply Io. rewrite Hcov, cover_cons in *. tauto.
  - rewrite Eh, Ek. rewrite decide_False in Ie |- * by done. done.
  - rewrite Eb, Ek. destruct Ib as [?|(? & ? & ? & Ib)]; [by left|right]. split_and!; try done. intros x Hx.
    destruct (Ib x Hx) as (? & Hn1 & Hn2). rewrite Hcov in Hn1. rewrite cover_cons. tauto.
Qed.

(** An interval that is free lies in one free block. *)
Lemma cover_interval l u v : forall lo e, asc lo l -> apart e l -> u < v -> (forall x, u <= x < v -> cover l x) ->
  exists b, In b l /\ b.1 <= u /\ v <= b.1 + b.2.
Proof.
  induction l as [|[a s] l IH]; intros lo e Ha Hap Huv Hx.
  { exfalso. apply (cover_nil u), Hx. lia. }
  destruct Ha as (_ & (_ & _ & Hs & _) & Ha). destruct Hap as [_ Hap]. cbn [fst snd] in *.
  assert (Htail : forall x, cover l x -> a + s <= x) by (intros x (b & Hb & Hbx); destruct (asc_ok _ _ _ Ha Hb); lia).
  destruct (Z.lt_ge_cases u (a + s)) as [Hu|Hu].
  - assert (a <= u). { specialize (Hx u ltac:(lia)). apply cover_cons in Hx as [?|Hc]; [lia|]. specialize (Htail u Hc). lia. }
    destruct (Z.le_gt_cases v (a + s)); [exists (a, s); split; [by left|done]|]. exfalso.
    specialize (Hx (a + s) ltac:(lia)). apply cover_cons in Hx as [?|(b & Hb & Hbx)]; [lia|].
    destruct l as [|[a' s'] l]; [done|]. destruct Ha as (? & (_ & _ & ? & _) & Ha). destruct Hap as [Hne _]. cbn [fst snd] in *.
    destruct Hb as [<-|Hb]; cbn in *; [lia|]. destruct (asc_ok _ _ _ Ha Hb). lia.
  - destruct (IH _ _ Ha Hap Huv) as (b & Hb & Hb2); [|exists b; split; [by right|done]].
    intros x Hr. specialize (Hx x Hr). apply cover_cons in Hx as [?|?]; [lia|done].
Qed.

Lemma round_block_spec size : 0 <= size < 2 ^ 61 -> size + 8 <= round_block size < 2 ^ 62 /\ round_block size mod 16 = 0 /\ 16 <= round_block size.
Proof.
  intros Hs. unfold round_block, HDR, ALIGN, MIN_BLOCK. rewrite (u64_small (size + 8)), u64_small by lia. rewrite sizemask by lia.
  destruct (Z.ltb_spec (size + 8 + (16 - 1) - (size + 8 + (16 - 1)) mod 16) 16); mlia.
Qed.
Lemma round_block_for size : 0 <= size < 2 ^ 61 -> round_block (if size =? 0 then 1 else size) = block_for size.
Proof.
  intros Hs. assert (Hn : (if size =? 0 then 1 else size) = Z.max size 1) by (destruct (Z.eqb_spec size 0); lia). rewrite Hn.
  unfold block_for, round_block, HDR, ALIGN, MIN_BLOCK. set (n := Z.max size 1) in *. assert (0 < n < 2 ^ 61) by lia.
  rewrite (u64_small (n + 8)), u64_small by lia. rewrite sizemask by lia.
  destruct (Z.ltb_spec (n + 8 + (16 - 1) - (n + 8 + (16 - 1)) mod 16) 16); mlia.
Qed.

Lemma ensure_init_spec h live : heap_ok h live -> exists r h', ensure_init h = (r, h') /\ heap_ok h' live /\ kept h h' live /\
  ((r = 0 /\ g_heap_end h' <> 0 /\ init_done h (kstate h') /\ (g_heap_end h <> 0 -> h' = h)) \/ (r = -1 /\ init_refused h)).
Proof.
  intros (fl & Hinv). unfold ensure_init. destruct (Z.eqb_spec (g_heap_end h) 0) as [He|He]; cbn [negb].
  2:{ exists 0, h. split; [done|]. split; [by exists fl|]. split; [by intros x|]. left. split_and!; try done. by left. }
  destruct (sbrk_spec 0 h ltac:(lia)) as (base & h1 & -> & E1 & E2 & E3 & Ek1 & [(-> & Hr & Href)|(Hgr & Eb & Hne & Hbr & Hg)]).
  { exists (-1), h1. rewrite Z.eqb_refl. split; [done|]. split; [exists fl; by apply (refused_ok h)|]. split; [intros x _; apply Hr|].
    right. split; [done|]. split; [done|by left]. }
  fold (init_state h) in Ek1. unfold init_refused, init_done.
  rewrite (proj2 (Z.eqb_neq _ _) Hne). pose proof (break_bound (h_kern h)) as Hbb. rewrite <- Eb in Hbb.
  assert (Hi1 : heap_inv h1 fl live /\ kept h h1 live).
  { destruct Hg as (_ & _ & Hg3 & Hg4 & Hg5). pose proof Hinv as [(Hb & _) _ _ _ _ Ie Ib].
    assert (Em : forall x, h_mem h1 x = h_mem h x) by (intros x; apply Hg4; lia). split; [|intros x _; apply Em].
    apply (refused_ok h); try done. split; [lia|]. split; [|done]. intros x. rewrite Hg3. split; [intros [?|?]; [done|lia]|by left]. }
  destruct Hi1 as [Hi1 Hk1].
  set (pad := Z.land (u64 (8 - Z.land base 15)) 15).
  assert (Hpad : 0 <= pad < 16 /\ (base + pad) mod 16 = 8).
  { unfold pad, u64. change 15 with (Z.ones 4). rewrite !Z.land_ones by lia. change (2 ^ 4) with 16. mlia. }
  assert (Efp : first_pad (k_break (init_state h).1) = pad).
  { rewrite <- Ek1. cbn [kstate fst]. rewrite Hbr, Z.add_0_r. unfold first_pad, pad, u64. change 15 with (Z.ones 4). rewrite !Z.land_ones by lia.
    change (2 ^ 4) with 16. mlia. }
  cbv zeta. rewrite Efp.
  assert (Hfl : fl = []) by (pose proof (inv_end _ _ _ Hinv) as Ie; rewrite decide_True in Ie by done; apply Ie). subst fl.
  assert (Hfin : forall h2, heap_ok h2 live -> heap_inv h2 [] live -> kept h h2 live -> k_break (h_kern h2) = base + pad ->
    exists h', (0, set_head (set_end_of_heap h2 (u64 (base + pad))) 0) = (0, h') /\ heap_ok h' live /\ kept h h' live /\ g_heap_end h' <> 0 /\ kstate h' = kstate h2).
  { intros h2 _ [(Hb & Hc & Ha & Hap) Il Id Is Io Ie Ib] Hk Hbk. eexists. split; [reflexivity|]. split; [|split; [done|split; [cbn; rewrite u64_small by lia; lia|done]]].
    exists []. constructor; try done. cbn. rewrite u64_small by lia. rewrite decide_False by lia. split; [lia|apply Hpad]. }
  destruct (Z.eqb_spec pad 0) as [Ep|Ep]; cbn [negb].
  - change (0 =? MINUS1) with false. cbn iota.
    destruct (Hfin h1 ltac:(by exists []) Hi1 Hk1) as (h' & -> & ? & ? & ? & Eks); [rewrite Hbr, Ep; lia|]. exists 0, h'. split_and!; try done. left. split_and!; try done. right.
    rewrite Eks, Ek1. done.
  - destruct (sbrk_spec pad h1 ltac:(lia)) as (st & h2 & -> & F1 & F2 & F3 & Ek2 & [(-> & Hr & Href)|(Hgr2 & Eb2 & Hne2 & Hbr2 & Hg2)]).
    { exists (-1), h2. rewrite Z.eqb_refl. split; [done|]. split; [exists []; by apply (refused_ok h1)|].
      split; [intros x Hx; destruct Hr as (_ & _ & ->); by apply Hk1|]. right. split; [done|]. split; [done|]. right. by rewrite <- Ek1. }
    rewrite (proj2 (Z.eqb_neq _ _) Hne2).
    assert (Ebase : st = base) by lia. clear Eb2. rewrite Ebase in Hg2, Hbr2, Hne2.
    destruct Hg2 as (Hg21 & Hg22 & Hg23 & Hg24 & Hg25). pose proof Hi1 as [(Hb & _) _ _ _ Io Ie Ib].
    assert (Hi2 : heap_inv h2 [] live).
    { apply (inv_change h1); try done.
      - intros x Hx. apply Hg24. intros Hr. by apply (Hg22 x Hr), Io.
      - by apply Hg25.
      - intros x Hx. apply Hg23. by left.
      - rewrite F2, E2, decide_True by done. pose proof (inv_end _ _ _ Hinv) as Ie0. by rewrite decide_True in Ie0 by done.
      - rewrite F3. destruct Ib as [?|(? & ? & ? & Ib)]; [by left|right]. split_and!; try done. intros x Hx.
        destruct (Ib x Hx) as (? & ? & ?). split; [apply Hg23; by left|done]. }
    destruct (Hfin h2 ltac:(by exists []) Hi2) as (h' & -> & ? & ? & ? & Eks); [|done|exists 0, h'; split_and!; try done; left; split_and!; try done; right; rewrite Ek1 in Hgr2, Ek2; by rewrite Eks, Ek2].
    intros x Hx. rewrite Hg24; [by apply Hk1|]. intros Hr. apply (Hg22 x Hr), Io. by right.
Qed.
End Heap.
