(* ===== verification/CMallocCalls.v ===== *)
(** * The calls of the allocator

    malloc, free, calloc and realloc against the heap invariant, and the
    invariant over every sequence of calls and writes of a client. *)
From Stdlib Require Import ZArith Lia Bool.
From stdpp Require Import base list numbers relations.
From S2P Require Import Prelude Monad State Memory MemFacts CString CStringProps CStdlib CMallocProps CMalloc.

(** ** The invariant and the list of live blocks *)

Lemma disjoint_sym b c : disjoint_blocks b c -> disjoint_blocks c b.
Proof. unfold disjoint_blocks. tauto. Qed.

Lemma fop_perm l l' : l ≡ₚ l' -> ForallOrdPairs disjoint_blocks l -> ForallOrdPairs disjoint_blocks l'.
Proof.
  induction 1 as [|b l l' Hp IH|b c l|l l' l'' _ IH1 _ IH2]; intros Hf; [done| | |by apply IH2, IH1].
  - inversion_clear Hf as [|? ? H1 H2]. constructor; [|by apply IH]. by rewrite <- Hp.
  - inversion_clear Hf as [|? ? H1 H2]. inversion_clear H2 as [|? ? H3 H4]. inversion_clear H1 as [|? ? H5 H6].
    constructor; [constructor; [by apply disjoint_sym|done]|]. by constructor.
Qed.

Lemma cover_perm l l' x : l ≡ₚ l' -> cover l x -> cover l' x.
Proof. intros Hp (b & Hb & Hx). exists b. split; [by apply (Permutation_in b Hp)|done]. Qed.

Section Calls.
Context {K : Type} `{KernelLaws K} `{A : Accel} {L : AccelLaws A}.
Implicit Types h : heap K.

Lemma heap_ok_perm h live live' : live ≡ₚ live' -> heap_ok h live -> heap_ok h live'.
Proof.
  intros Hp (fl & [If Il Id Is Io Ie Ib]). exists fl.
  assert (Hc : forall x, cover live' x <-> cover live x) by (intros x; split; apply cover_perm; [by symmetry|done]). constructor; try done.
  - intros b Hb. apply Il. by apply (Permutation_in b (symmetry Hp)).
  - by apply (fop_perm live).
  - intros x Hx. by apply Is, Hc.
  - intros x. rewrite Hc. apply Io.
  - destruct (decide (g_heap_end h = 0)); [|done]. destruct Ie as [-> ->]. split; [done|]. by apply Permutation_nil.
  - destruct Ib as [?|(? & ? & ? & Ib)]; [by left|right]. split_and!; try done. intros x Hx. rewrite Hc. by apply Ib.
Qed.

Lemma heap_inv_drop h fl b live : g_heap_end h <> 0 -> heap_inv h fl (b :: live) -> heap_inv h fl live.
Proof.
  intros He [If Il Id Is Io Ie Ib]. destruct b as [a s].
  assert (Hc : forall x, cover live x -> cover ((a, s) :: live) x) by (intros x Hx; apply cover_cons; by right). constructor; try done.
  - intros b Hb. apply Il. by right.
  - by inversion_clear Id.
  - intros x Hx. by apply Is, Hc.
  - intros x [?|?]; apply Io; [by left|right; by apply Hc].
  - by rewrite decide_False in * by done.
  - destruct Ib as [?|(? & ? & ? & Ib)]; [by left|right]. split_and!; try done. intros x Hx. destruct (Ib x Hx) as (? & ? & Hn).
    split_and!; try done. intros Hl. by apply Hn, Hc.
Qed.

(** The header of a live block, and its place among the others. *)
Lemma live_block h fl b live : heap_inv h fl (b :: live) -> g_heap_end h <> 0 /\ block_ok b /\ word0 h b.1 = b.2 + 1 /\
  (forall x, b.1 <= x < b.1 + b.2 -> ~ cover fl x /\ ~ cover live x /\ k_owned (h_kern h) x /\
     ~ (g_bigalloc_end h <= x < g_bigalloc_end h + 8)).
Proof.
  intros [If Il Id Is Io Ie Ib]. destruct (Il b (or_introl eq_refl)) as [Hok Hw].
  split; [intros He; rewrite decide_True in Ie by done; by destruct Ie|]. split; [done|]. split; [done|]. intros x Hx.
  assert (Hc : cover (b :: live) x) by (exists b; split; [by left|done]). split_and!.
  - by apply Is.
  - intros (c & Hcin & Hcx). inversion_clear Id as [|? ? H1 H2]. rewrite List.Forall_forall in H1.
    destruct (H1 c Hcin); lia.
  - apply Io. by right.
  - intros Hbx. destruct Ib as [Ib|(? & ? & ? & Ib)]; [|by destruct (Ib x Hbx) as (_ & _ & ?)].
    destruct Hok as (? & ? & _). rewrite Ib in Hbx. mlia.
Qed.

(** A client writes into the payload of a live block. *)
Lemma payload_write h fl b live m' : heap_inv h fl (b :: live) -> mem_bytes m' ->
  (forall x, ~ (b.1 + 8 <= x < b.1 + b.2) -> m' x = h_mem h x) -> heap_inv (set_mem h m') fl (b :: live).
Proof.
  intros Hinv Hb Hm. pose proof (live_block _ _ _ _ Hinv) as (He & Hok & Hw & Hx). pose proof Hinv as [If Il Id Is Io Ie Ib].
  assert (Hfree : forall x, cover fl x -> m' x = h_mem h x) by (intros x Hc; apply Hm; intros Hr; destruct (Hx x) as (? & _); [lia|done]).
  constructor; try done.
  - destruct If as (_ & Hc & Ha & Hap). split; [done|]. split; [|done]. by eapply chain_cover.
  - intros c Hc. destruct (Il c Hc) as [Hokc Hwc]. split; [done|]. rewrite <- Hwc. apply load_ext. intros x Hxc. apply Hm. intros Hr.
    destruct Hc as [<-|Hc]; [lia|]. destruct (Hx x) as (_ & Hn & _); [lia|]. apply Hn. exists c. split; [done|].
    destruct Hokc as (_ & _ & ? & _). lia.
Qed.

(** ** malloc and free *)

(** What malloc promises of its result. *)
Definition allocated h h' (r size : Z) (live : list block) : Prop :=
  (r = 0 /\ heap_ok h' live /\ exhausted h size live) \/
  (0 < r /\ r mod 16 = 0 /\ exists sz, size + 8 <= sz /\ heap_ok h' ((r - 8, sz) :: live)).

Lemma carve_step h fl live total size : heap_inv h fl live -> g_heap_end h <> 0 -> 16 <= total -> total mod 16 = 0 -> size + 8 <= total ->
  forall l1 c s l2, fl = l1 ++ (c, s) :: l2 -> total <= s ->
  forall h0, allocated h0 (alloc_from (last_addr 0 l1) c total h) (c + HDR) size live /\ kept h (alloc_from (last_addr 0 l1) c total h) live /\ c <> 0.
Proof.
  intros Hinv He Ht Hm Hs l1 c s l2 -> Hfit h0.
  destruct (alloc_from_carves h l1 c s l2 total (inv_free _ _ _ Hinv) ltac:(lia) Hm) as (sz & Hsz & Hsz16 & Hcut & Hcv).
  destruct (carved_ok _ _ _ _ _ _ sz live Hinv ltac:(lia) Hsz16 Hcut He Hcv) as [Hok Hk].
  destruct (inv_free _ _ _ Hinv) as (_ & _ & Ha & _). apply asc_app in Ha as [_ (_ & (Hc1 & Hc2 & _) & _)]. cbn [fst snd] in *.
  split; [|split; [done|lia]]. right. unfold HDR. split; [lia|]. split; [mlia|]. exists sz. split; [lia|].
  by replace (c + 8 - 8) with c by lia.
Qed.

Lemma kept_trans h1 h2 h3 live : kept h1 h2 live -> kept h2 h3 live -> kept h1 h3 live.
Proof. intros G1 G2 x Hx. by rewrite G2, G1. Qed.

(** After growing, the block is found. *)
Lemma grown_fits h fl live total b : heap_inv h fl live -> 16 <= total -> total <= b.2 -> (forall x, b.1 <= x < b.1 + b.2 -> cover fl x) ->
  exists l1 c s l2, fl = l1 ++ (c, s) :: l2 /\ total <= s /\ find_fit total h = Some (c, last_addr 0 l1).
Proof.
  intros Hinv Ht Hb Hx. destruct (find_fit_spec h fl total (inv_free _ _ _ Hinv)) as [Hf|[_ Hn]]; [done|]. exfalso.
  destruct (inv_free _ _ _ Hinv) as (_ & _ & Ha & Hap).
  destruct (cover_interval fl b.1 (b.1 + b.2) 0 0 Ha Hap ltac:(lia) Hx) as (c & Hc & ? & ?). specialize (Hn c Hc). lia.
Qed.

Lemma malloc_spec h live size : heap_ok h live -> 0 <= size < 2 ^ 61 ->
  exists r h', malloc size h = Some (r, h') /\ allocated h h' r size live /\ kept h h' live.
Proof.
  intros Hok Hs. unfold malloc. set (n := if size =? 0 then 1 else size).
  assert (Hn : size <= n < 2 ^ 61 /\ 0 < n) by (unfold n; destruct (Z.eqb_spec size 0); lia).
  destruct (ensure_init_spec h live Hok) as (r & h1 & -> & Hok1 & Hk1 & [(-> & He & Hdn & Hsame)|[-> Href]]); cbn [Z.eqb negb].
  2:{ exists 0, h1. split; [done|]. split; [|done]. left. split_and!; try done. by left. }
  destruct Hok1 as (fl & Hinv). pose proof (round_block_spec n ltac:(lia)) as (Hr1 & Hr2 & Hr3). pose proof (round_block_for size Hs) as Etot. fold n in Etot.
  set (total := round_block n) in *.
  assert (Hdone : forall h2 fl2, heap_inv h2 fl2 live -> g_heap_end h2 <> 0 -> kept h1 h2 live -> forall l1 c s l2, fl2 = l1 ++ (c, s) :: l2 -> total <= s ->
    allocated h (alloc_from (last_addr 0 l1) c total h2) (c + HDR) size live /\ kept h (alloc_from (last_addr 0 l1) c total h2) live /\ (c =? 0) = false).
  { intros h2 fl2 Hi2 He2 Hk2 l1 c s l2 Efl Hfit.
    destruct (carve_step h2 fl2 live total size Hi2 He2 Hr3 Hr2 ltac:(lia) l1 c s l2 Efl Hfit h) as (G1 & G2 & G3).
    split; [done|]. split; [|by apply Z.eqb_neq]. eapply kept_trans; [exact Hk1|]. by eapply kept_trans. }
  destruct (find_fit_spec h1 fl total (inv_free _ _ _ Hinv)) as [(l1 & c & s & l2 & Efl & Hfit & Ef)|[Ef Hnone]]; rewrite (bind_pair _ _ _ _ Ef).
  { destruct (Hdone h1 fl Hinv He ltac:(by intros x) l1 c s l2 Efl Hfit) as (G1 & G2 & ->). cbn [negb].
    eexists _, _. split; [reflexivity|]. done. }
  cbn [Z.eqb negb]. destruct (grow_spec h1 fl live total Hinv He ltac:(lia) Hr2) as (r & h2 & Eg & (Hk2 & He2 & Hg) & Href).
  rewrite (bind_pair _ _ _ _ Eg).
  assert (Hfound : forall h3 fl3 b, heap_inv h3 fl3 live -> g_heap_end h3 <> 0 -> kept h1 h3 live -> total <= b.2 ->
    (forall x, b.1 <= x < b.1 + b.2 -> cover fl3 x) -> exists r' h', (find_fit total h3 ≫= fun '((cur, prev) : Z * Z) =>
      if cur =? 0 then Some (0, h3) else Some (cur + HDR, alloc_from prev cur total h3)) = Some (r', h') /\ allocated h h' r' size live /\ kept h h' live).
  { intros h3 fl3 b Hi3 He3 Hk3 Hb Hbx. destruct (grown_fits h3 fl3 live total b Hi3 Hr3 Hb Hbx) as (l1 & c & s & l2 & Efl & Hfit & Ef3).
    rewrite (bind_pair _ _ _ _ Ef3). destruct (Hdone h3 fl3 Hi3 He3 Hk3 l1 c s l2 Efl Hfit) as (G1 & G2 & ->). eexists _, _. split; [reflexivity|]. done. }
  destruct Hg as [[-> (fl2 & Hi2)]|[-> (fl2 & Hi2 & b & Hb & Hbx)]]; cbn [Z.eqb negb].
  - destruct (bigalloc_grow_spec h2 fl2 live total Hi2 He2 ltac:(lia) Hr2) as (r & h3 & Eg3 & (Hk3 & He3 & Hg3) & Hwin).
    rewrite (bind_pair _ _ _ _ Eg3). destruct Hg3 as [[-> Hok3]|[-> (fl3 & Hi3 & b & Hb & Hbx)]]; cbn [Z.eqb negb].
    + exists 0, h3. split; [done|]. split; [|eapply kept_trans; [exact Hk1|]; by eapply kept_trans]. left. split_and!; try done.
      right. exists (kstate h1). destruct (Href eq_refl) as [Hng Ek2]. rewrite <- Etot, <- Ek2. split_and!; try done; [by apply Hwin|].
      intros fl0 Hi0 b Hb. destruct (decide (g_heap_end h = 0)) as [E0|E0].
      * pose proof (inv_end _ _ _ Hi0) as Ie. rewrite decide_True in Ie by done. by destruct Ie as [-> _].
      * rewrite (Hsame E0) in Ef. destruct (find_fit_spec h fl0 total (inv_free _ _ _ Hi0)) as [(l1 & c & s & l2 & -> & _ & Ef0)|[_ Hn0]]; [|by apply Hn0].
        rewrite Ef in Ef0. injection Ef0 as E1 _. exfalso. destruct (inv_free _ _ _ Hi0) as (_ & _ & Ha & _).
        apply asc_app in Ha as [_ (_ & (Hc1 & _) & _)]. cbn [fst] in Hc1. lia.
    + eapply Hfound; [exact Hi3|done|by eapply kept_trans|exact Hb|done].
  - rewrite (bind_pair _ _ _ _ (eq_refl (Some (0, h2)))). cbn [Z.eqb negb]. eapply Hfound; [exact Hi2|done|done|exact Hb|done].
Qed.

Lemma free_spec h live p sz : heap_ok h ((p - 8, sz) :: live) ->
  exists h', free p h = Some h' /\ heap_ok h' live /\ kept h h' live.
Proof.
  intros (fl & Hinv). pose proof (live_block _ _ _ _ Hinv) as (He & Hok & Hw & Hx). cbn [fst snd] in *.
  pose proof Hok as (Hb1 & Hb2 & Hb3 & Hb4 & Hb5). cbn [fst snd] in *. unfold free, HDR. rewrite (proj2 (Z.eqb_neq p 0)) by lia.
  rewrite Hw, sizemask_used by lia. set (b := p - 8) in *.
  pose proof (heap_inv_drop _ _ _ _ He Hinv) as Hdrop.
  assert (Hk1 : kept h (put0 h b sz) live) by (intros x Hxc; apply put_outside; intros Hr; destruct (Hx x) as (_ & ? & _); [lia|done]).
  assert (Hi1 : heap_inv (put0 h b sz) fl live).
  { pose proof Hdrop as [(Hby & _) _ _ _ _ Ie Ib]. apply (inv_change h); try done.
    - intros x Hxc. apply put_outside. intros Hr. destruct (Hx x) as (? & ? & _); [lia|]. tauto.
    - by apply mem_bytes_store. }
  destruct (inv_insert (put0 h b sz) b sz fl live Hi1 Hok) as (h' & fl' & Er & Hi2 & _ & Hk2 & _).
  - apply word0_put0. lia.
  - intros x Hr. destruct (Hx x Hr) as (? & ? & ? & ?). done.
  - done.
  - intros x Hbx Hr. destruct (Hx x Hr) as (_ & _ & _ & Hn). by apply Hn.
  - exists h'. split; [done|]. split; [by exists fl'|]. by eapply kept_trans.
Qed.

(** ** calloc and realloc *)

Lemma calloc_overflow nmemb size : 0 <= nmemb < 2 ^ 64 -> 0 <= size < 2 ^ 64 ->
  negb (nmemb =? 0) && negb (u64 (nmemb * size) / nmemb =? size) = (2 ^ 64 <=? nmemb * size).
Proof.
  intros Hn Hs. destruct (Z.eqb_spec nmemb 0) as [->|Hn0]; cbn [negb andb]; [done|].
  destruct (Z.leb_spec (2 ^ 64) (nmemb * size)) as [Ho|Ho].
  - apply negb_true_iff, Z.eqb_neq. intros E. pose proof (Z.mul_div_le (u64 (nmemb * size)) nmemb ltac:(lia)) as Hd. rewrite E in Hd.
    unfold u64 in Hd. pose proof (Z.mod_pos_bound (nmemb * size) (2 ^ 64) ltac:(lia)). lia.
  - rewrite u64_small by nia. rewrite Z.mul_comm, Z.div_mul by done. by rewrite Z.eqb_refl.
Qed.

Lemma fresh_payload h r sz live n m' : heap_ok h ((r - 8, sz) :: live) -> n + 8 <= sz -> mem_bytes m' ->
  (forall x, ~ (r <= x < r + n) -> m' x = h_mem h x) ->
  heap_ok (set_mem h m') ((r - 8, sz) :: live) /\ kept h (set_mem h m') live.
Proof.
  intros (fl & Hinv) Hn Hb Hm. pose proof (live_block _ _ _ _ Hinv) as (_ & _ & _ & Hx). cbn [fst snd] in Hx. split.
  - exists fl. apply payload_write; [done|done|]. cbn [fst snd]. intros x Hxr. apply Hm. lia.
  - intros x Hc. apply Hm. intros Hr. destruct (Hx x) as (_ & ? & _); [lia|done].
Qed.

Lemma calloc_spec h live nmemb size : heap_ok h live -> 0 <= nmemb < 2 ^ 64 -> 0 <= size < 2 ^ 64 ->
  2 ^ 64 <= nmemb * size \/ nmemb * size < 2 ^ 61 ->
  exists r h', calloc nmemb size h = Some (r, h') /\ kept h h' live /\
  if 2 ^ 64 <=? nmemb * size then r = 0 /\ h' = set_errno h ENOMEM
  else allocated h h' r (nmemb * size) live /\ (r <> 0 -> forall i, 0 <= i < nmemb * size -> h_mem h' (r + i) = 0).
Proof.
  intros Hok Hn Hs Hsz. unfold calloc. rewrite calloc_overflow by done. destruct (Z.leb_spec (2 ^ 64) (nmemb * size)) as [Ho|Ho].
  { exists 0, (set_errno h ENOMEM). split; [done|]. split; [by intros x|done]. }
  rewrite u64_small by nia. set (n := nmemb * size) in *. assert (Hn2 : 0 <= n < 2 ^ 61) by (unfold n in *; nia).
  destruct (malloc_spec h live n Hok Hn2) as (r & h1 & Em & Ha & Hk). rewrite (bind_pair _ _ _ _ Em).
  destruct Ha as [(-> & Ha)|(Hr & Hr16 & sz & Hsz1 & Hok1)].
  { exists 0, h1. split; [done|]. split; [done|]. split; [by left|done]. }
  rewrite (proj2 (Z.eqb_neq r 0)) by lia.
  destruct (memset_run (h_mem h1) r 0 n ltac:(lia)) as (m' & Es & Hm'). rewrite (bind_pair _ _ _ _ Es).
  assert (Hby : mem_bytes (h_mem h1)) by (destruct Hok1 as (fl & Hi); apply (inv_free _ _ _ Hi)).
  destruct (fresh_payload h1 r sz live n m' Hok1 ltac:(lia)) as [Hok2 Hk2].
  { intros x. rewrite Hm'. unfold mem_fill. destruct (in_range r n x); [done|apply Hby]. }
  { intros x Hx. rewrite Hm'. unfold mem_fill. by rewrite (proj2 (in_range_false _ _ _)). }
  exists r, (set_mem h1 m'). split; [done|]. split; [by eapply kept_trans|]. split.
  - right. split; [done|]. split; [done|]. exists sz. split; [lia|done].
  - intros _ i Hi. cbn. rewrite Hm'. unfold mem_fill. by rewrite (proj2 (in_range_true _ _ _)) by lia.
Qed.

(** The first bytes of the old block are in the new one. *)
Definition moved h h' (p r n : Z) : Prop := forall i, 0 <= i < n -> h_mem h' (r + i) = h_mem h (p + i).

Lemma realloc_spec h live p sz size : heap_ok h ((p - 8, sz) :: live) -> 0 < size < 2 ^ 61 ->
  exists r h', realloc p size h = Some (r, h') /\ kept h h' live /\
  ((r = 0 /\ heap_ok h' ((p - 8, sz) :: live) /\ kept h h' ((p - 8, sz) :: live) /\ exhausted h size ((p - 8, sz) :: live)) \/
   (0 < r /\ r mod 16 = 0 /\ moved h h' p r (Z.min size (sz - 8)) /\ exists sz', size + 8 <= sz' /\ heap_ok h' ((r - 8, sz') :: live))).
Proof.
  intros Hok Hs. pose proof Hok as (fl & Hinv). pose proof (live_block _ _ _ _ Hinv) as (He & (Hb1 & Hb2 & Hb3 & Hb4 & Hb5) & Hw & Hx). cbn [fst snd] in *.
  unfold realloc, HDR. rewrite (proj2 (Z.eqb_neq p 0)), (proj2 (Z.eqb_neq size 0)) by lia. rewrite Hw, sizemask_used by lia.
  rewrite u64_small by lia. pose proof (round_block_spec size ltac:(lia)) as (Hr1 & Hr2 & Hr3).
  destruct (Z.leb_spec (round_block size) sz) as [Hfit|Hfit].
  { exists p, h. split; [done|]. split; [by intros x|]. right. split; [lia|]. split; [mlia|]. split; [by intros i|]. exists sz. split; [lia|done]. }
  destruct (malloc_spec h _ size Hok ltac:(lia)) as (np & h1 & Em & Ha & Hk). rewrite (bind_pair _ _ _ _ Em).
  assert (Hk' : kept h h1 live) by (intros x Hxl; apply Hk, cover_cons; by right).
  destruct Ha as [(-> & Hok1 & Href)|(Hnp & Hnp16 & sz' & Hsz1 & Hok1)].
  { exists 0, h1. split; [done|]. split; [done|]. left. done. }
  rewrite (proj2 (Z.eqb_neq np 0)) by lia. set (n := if sz - 8 <? size then sz - 8 else size).
  assert (Hn : n = Z.min size (sz - 8)) by (unfold n; destruct (Z.ltb_spec (sz - 8) size); lia).
  assert (Hdis : disjoint_blocks (np - 8, sz') (p - 8, sz)).
  { destruct Hok1 as (fl1 & Hi1). pose proof (inv_disjoint _ _ _ Hi1) as Hd. inversion_clear Hd as [|? ? Hf _]. by inversion_clear Hf. }
  assert (Hby : mem_bytes (h_mem h1)) by (destruct Hok1 as (fl1 & Hi1); apply (inv_free _ _ _ Hi1)). unfold disjoint_blocks in Hdis. cbn [fst snd] in Hdis.
  destruct (memcpy_run (h_mem h1) np p n Hby ltac:(lia) ltac:(lia)) as (m' & Ec & Hm'). rewrite (bind_pair _ _ _ _ Ec).
  destruct (fresh_payload h1 np sz' ((p - 8, sz) :: live) n m' Hok1 ltac:(lia)) as [Hok2 Hk2].
  { by apply (copied_bytes (h_mem h1) np p n). }
  { intros x Hxr. rewrite Hm'. unfold mem_copy. by rewrite (proj2 (in_range_false _ _ _)). }
  destruct (free_spec (set_mem h1 m') ((np - 8, sz') :: live) p sz) as (h' & Ef & Hok3 & Hk3).
  { eapply heap_ok_perm; [|exact Hok2]. constructor. }
  rewrite (bind_some _ _ _ Ef). exists np, h'. split; [done|]. split.
  - intros x Hxl. rewrite Hk3 by (apply cover_cons; by right). rewrite Hk2 by (apply cover_cons; by right). by apply Hk'.
  - right. split; [done|]. split; [done|]. split; [|by exists sz']. intros i Hi. rewrite Hk3 by (apply cover_cons; left; lia).
    cbn. rewrite Hm'. unfold mem_copy. rewrite (proj2 (in_range_true _ _ _)) by lia. replace (p + (np + i - np)) with (p + i) by lia.
    apply Hk, cover_cons. left. lia.
Qed.

(** ** The contract *)

(** C33: the contract of malloc, free and calloc, for requests below 2^61
    bytes (larger ones reach sbrk as negative increments, see
    [huge_malloc_lowers_break], or wrap, see [malloc_size_wraps]).  In a heap
    that satisfies the invariant, malloc returns, and its result is a fresh
    16-aligned block of at least the size asked for, disjoint from every live
    block, or NULL.  It returns NULL only when the kernel, in the state this
    very call put to it, refused this call's requests ([exhausted]): the
    break or padding of the first allocation, or else no free block was large
    enough, the break was not raised by max(block, 64 KiB), and sys_bigalloc
    of the block and its padding, rounded to pages, gave nothing either.
    free of a live block returns and gives exactly that block back.  calloc
    refuses a product of 2^64 or more, with ENOMEM, and for one below 2^61
    behaves as malloc with a block that reads as zero.  None of them changes
    a byte of a block that stays live. *)
Theorem malloc_contract h live :
  (forall size, heap_ok h live -> 0 <= size < 2 ^ 61 ->
     exists r h', malloc size h = Some (r, h') /\ allocated h h' r size live /\ kept h h' live) /\
  (forall p sz, heap_ok h ((p - 8, sz) :: live) ->
     exists h', free p h = Some h' /\ heap_ok h' live /\ kept h h' live) /\
  (forall nmemb size, heap_ok h live -> 0 <= nmemb < 2 ^ 64 -> 0 <= size < 2 ^ 64 ->
     2 ^ 64 <= nmemb * size \/ nmemb * size < 2 ^ 61 ->
     exists r h', calloc nmemb size h = Some (r, h') /\ kept h h' live /\
     if 2 ^ 64 <=? nmemb * size then r = 0 /\ h' = set_errno h ENOMEM
     else allocated h h' r (nmemb * size) live /\ (r <> 0 -> forall i, 0 <= i < nmemb * size -> h_mem h' (r + i) = 0)).
Proof. split; [|split]; intros; [by apply malloc_spec|by eapply free_spec|by apply calloc_spec]. Qed.

(** Realloc preserves contents.  realloc of a live block returns a
    16-aligned block of at least the new size whose first bytes, up to the
    smaller of the two sizes, are those of the old block, which is no longer
    live; or NULL, with the old block and its contents intact, only when the
    kernel refused this request ([exhausted]).  Other live blocks keep their bytes. *)
Theorem realloc_preserves h live p sz size : heap_ok h ((p - 8, sz) :: live) -> 0 < size < 2 ^ 61 ->
  exists r h', realloc p size h = Some (r, h') /\ kept h h' live /\
  ((r = 0 /\ heap_ok h' ((p - 8, sz) :: live) /\ kept h h' ((p - 8, sz) :: live) /\ exhausted h size ((p - 8, sz) :: live)) \/
   (0 < r /\ r mod 16 = 0 /\ moved h h' p r (Z.min size (sz - 8)) /\ exists sz', size + 8 <= sz' /\ heap_ok h' ((r - 8, sz') :: live))).
Proof. apply realloc_spec. Qed.

(** ** A client of the heap *)

Definition heap_start (k : K) (m : mem) : heap K := mk_heap m k 0 0 0 0.

(** The size of the block whose payload is at [p], from its header. *)
Definition block_size h (p : Z) : Z := Z.land (word0 h (p - 8)) SIZEMASK.
Definition got h (r : Z) (live : list block) : list block := if r =? 0 then live else (r - 8, block_size h r) :: live.

(** One step of a program that uses the heap as it should: it asks for less
    than 2^61 bytes at a time, frees and resizes only what it holds and writes
    only into payloads it holds. *)
Inductive client : heap K * list block -> heap K * list block -> Prop :=
| client_malloc h live size r h' : 0 <= size < 2 ^ 61 -> malloc size h = Some (r, h') -> client (h, live) (h', got h' r live)
| client_calloc h live nmemb size r h' : 0 <= nmemb < 2 ^ 64 -> 0 <= size < 2 ^ 64 -> nmemb * size < 2 ^ 61 ->
    calloc nmemb size h = Some (r, h') -> client (h, live) (h', got h' r live)
| client_free h live live' p sz h' : live ≡ₚ (p - 8, sz) :: live' -> free p h = Some h' -> client (h, live) (h', live')
| client_realloc h live live' p sz size r h' : live ≡ₚ (p - 8, sz) :: live' -> 0 < size < 2 ^ 61 ->
    realloc p size h = Some (r, h') -> client (h, live) (h', if r =? 0 then live else got h' r live')
| client_write h live live' b m' : live ≡ₚ b :: live' -> mem_bytes m' ->
    (forall x, ~ (b.1 + 8 <= x < b.1 + b.2) -> m' x = h_mem h x) -> client (h, live) (set_mem h m', live).

Lemma start_ok k m : mem_bytes m -> heap_ok (heap_start k m) [].
Proof.
  intros Hm. exists []. constructor; try done.
  - constructor.
  - intros x. by intros Hc%cover_nil.
  - intros x. by intros [Hc%cover_nil|Hc%cover_nil].
  - by left.
Qed.

Lemma got_ok h r sz live : 0 < r -> heap_ok h ((r - 8, sz) :: live) -> heap_ok h (got h r live).
Proof.
  intros Hr Hok. pose proof Hok as (fl & Hinv). pose proof (live_block _ _ _ _ Hinv) as (_ & (_ & _ & ? & ? & ?) & Hw & _). cbn [fst snd] in *.
  unfold got, block_size. rewrite (proj2 (Z.eqb_neq r 0)) by lia. by rewrite Hw, sizemask_used by lia.
Qed.

Lemma allocated_ok h h' r size live : allocated h h' r size live -> heap_ok h' (got h' r live).
Proof. intros [(-> & Hok & _)|(Hr & _ & sz & _ & Hok)]; [done|by eapply got_ok]. Qed.

Lemma client_ok s s' : client s s' -> heap_ok s.1 s.2 -> heap_ok s'.1 s'.2.
Proof.
  intros [h live size r h' Hs E|h live nmemb size r h' Hn Hs Hns E|h live live' p sz h' Hp E|h live live' p sz size r h' Hp Hs E|h live live' b m' Hp Hb Hm]; cbn [fst snd]; intros Hok.
  - destruct (malloc_spec h live size Hok Hs) as (r1 & h1 & E1 & Ha & _). rewrite E in E1. injection E1 as <- <-. by eapply allocated_ok.
  - destruct (calloc_spec h live nmemb size Hok Hn Hs ltac:(by right)) as (r1 & h1 & E1 & _ & Ha). rewrite E in E1. injection E1 as <- <-.
    rewrite (proj2 (Z.leb_gt _ _)) in Ha by lia. destruct Ha as [Ha _]. by eapply allocated_ok.
  - destruct (free_spec h live' p sz) as (h1 & E1 & Ha & _); [by eapply heap_ok_perm|]. rewrite E in E1. by injection E1 as <-.
  - destruct (realloc_spec h live' p sz size) as (r1 & h1 & E1 & _ & Ha); [by eapply heap_ok_perm|done|]. rewrite E in E1. injection E1 as <- <-.
    destruct Ha as [(-> & Ha & _)|(Hr & _ & _ & sz' & _ & Ha)]; [by eapply heap_ok_perm; [symmetry|]|].
    rewrite (proj2 (Z.eqb_neq r 0)) by lia. by eapply got_ok.
  - assert (Hok' : heap_ok h (b :: live')) by (by eapply heap_ok_perm). destruct Hok' as (fl & Hinv).
    apply (heap_ok_perm _ (b :: live')); [by symmetry|]. exists fl. by apply payload_write.
Qed.

Lemma reachable_ok s s' : rtc client s s' -> heap_ok s.1 s.2 -> heap_ok s'.1 s'.2.
Proof. induction 1 as [|s1 s2 s3 Hs _ IH]; [done|]. intros Hok. by apply IH, (client_ok _ _ Hs). Qed.

(** C34: the heap invariant.  After any sequence of malloc, calloc and
    realloc calls of less than 2^61 bytes each, of free calls of live blocks
    and of writes into payloads, from the program's start: the
    payloads of the blocks handed out are 16-aligned, inside memory the
    kernel granted, and pairwise disjoint with their headers; the free list
    in memory is an ascending chain of blocks of which no two touch, disjoint
    from everything live.  The bound on the size is needed: see
    [huge_malloc_lowers_break]. *)
Theorem allocator_invariant k m h live : mem_bytes m -> rtc client (heap_start k m, []) (h, live) ->
  (forall b, In b live -> (b.1 + 8) mod 16 = 0 /\ 16 <= b.2 /\ forall x, b.1 <= x < b.1 + b.2 -> k_owned (h_kern h) x) /\
  ForallOrdPairs disjoint_blocks live /\
  (exists fl, chain (h_mem h) (g_free_head h) fl 0 /\ asc 0 fl /\ apart 0 fl /\ forall x, cover live x -> ~ cover fl x) /\
  heap_ok h live.
Proof.
  intros Hm Hr. pose proof (reachable_ok _ _ Hr (start_ok k m Hm)) as Hok. cbn [fst snd] in Hok. pose proof Hok as (fl & [(_ & Hc & Ha & Hap) Il Id Is Io _ _]).
  split; [|split; [done|]; split; [by exists fl|done]]. intros b Hb. destruct (Il b Hb) as [(_ & H1 & H2 & _) _]. split; [mlia|]. split; [done|].
  intros x Hx. apply Io. right. by exists b.
Qed.

(** A request within 23 bytes of 2^64 wraps.  The rounding of the size
    is done in 64 bits without a check, so for these sizes malloc behaves as
    malloc(8): it hands out a 16-byte block with 8 usable bytes instead of
    refusing. *)
Theorem malloc_size_wraps h size : 2 ^ 64 - 23 <= size < 2 ^ 64 -> malloc size h = malloc 8 h.
Proof.
  intros Hs. unfold malloc. rewrite (proj2 (Z.eqb_neq size 0)) by lia. change (8 =? 0) with false. cbn iota.
  assert (E : round_block size = 16); [|by rewrite E].
  unfold round_block, HDR, ALIGN, MIN_BLOCK. rewrite sizemask by (apply Z.mod_pos_bound; lia). unfold u64.
  destruct (Z.ltb_spec (((size + 8) mod 2 ^ 64 + (16 - 1)) mod 2 ^ 64 - ((size + 8) mod 2 ^ 64 + (16 - 1)) mod 2 ^ 64 mod 16) 16); mlia.
Qed.
End Calls.

(** ** A kernel *)

(** A break between 1 MiB and 2 MiB and a window of 4096 pages at 4 GiB: the
    bytes of heap and the pages of the window in use. *)
Definition demo_kernel : Type := Z * Z.
Definition dk_used (k : demo_kernel) : Z := Z.max 0 (Z.min k.1 0x100000).
Definition dk_pages (k : demo_kernel) : Z := Z.max 0 (Z.min k.2 4096).

#[global] Instance demo_kernel_ops : Kernel demo_kernel := {
  sys_brk a '(k, m) :=
    if a =? 0 then (0x100000 + dk_used k, (k, m))
    else if (0x100000 + dk_used k <=? a) && (a <=? 0x200000) then (a, ((a - 0x100000, k.2), m))
    else (0x100000 + dk_used k, (k, m));
  sys_bigalloc n '(k, m) :=
    if dk_pages k + n / 4096 <=? 4096 then (0x100000000 + 4096 * dk_pages k, ((k.1, dk_pages k + n / 4096), m))
    else (0, (k, m)) }.

#[global] Program Instance demo_kernel_laws : KernelLaws demo_kernel := {
  k_break k := 0x100000 + dk_used k;
  k_owned k x := 0x100000 <= x < 0x100000 + dk_used k \/ 0x100000000 <= x < 0x100000000 + 4096 * dk_pages k }.
Next Obligation. intros k. unfold dk_used. lia. Qed.
Next Obligation. done. Qed.
Next Obligation.
  intros a k m Ha. unfold sys_brk, demo_kernel_ops. unfold dk_used, dk_pages in *. rewrite (proj2 (Z.eqb_neq a 0)) by lia.
  destruct ((_ <=? a) && (a <=? _)) eqn:E; cbn [fst snd].
  - apply andb_prop in E as [E1 E2]. apply Z.leb_le in E1, E2. split; [|done]. intros _. cbn [fst snd]. split; [lia|].
    split; [lia|]. split; [lia|]. split; [lia|]. done.
  - split; [|by intros _]. intros E2. exfalso. apply andb_false_iff in E as [E|E]; apply Z.leb_gt in E; lia.
Qed.
Next Obligation.
  intros n k m Hn Hn2. unfold sys_bigalloc, demo_kernel_ops. unfold dk_used, dk_pages in *.
  destruct (Z.leb_spec (Z.max 0 (Z.min k.2 4096) + n / 4096) 4096); [|by split]. split; [|mlia]. intros _. cbn [fst snd].
  split; [mlia|]. split; [done|]. split; [mlia|]. split; [mlia|]. split; [mlia|]. done.
Qed.

Definition demo_heap : heap demo_kernel := heap_start (0, 0) (fun _ => 0).

Lemma demo_heap_ok : heap_ok demo_heap [].
Proof. apply start_ok. intros x. lia. Qed.

(** After malloc(100): a block of 112 bytes at the first aligned header. *)
Definition demo_heap1 : heap demo_kernel := match malloc 100 demo_heap with Some (_, h) => h | None => demo_heap end.

Lemma demo_malloc : malloc 100 demo_heap = Some (0x100010, demo_heap1) /\ word0 demo_heap1 0x100008 = 113.
Proof.
  assert (E : fst <$> malloc 100 demo_heap = Some 0x100010) by (vm_compute; reflexivity). split; [|vm_compute; reflexivity].
  unfold demo_heap1. destruct (malloc 100 demo_heap) as [[r h]|]; [|discriminate E]. cbn in E. by injection E as ->.
Qed.

Lemma demo_heap1_ok : heap_ok demo_heap1 [(0x100010 - 8, 112)].
Proof.
  destruct (malloc_spec demo_heap [] 100 demo_heap_ok ltac:(lia)) as (r & h' & E & Ha & _).
  destruct demo_malloc as [E1 Ew]. revert E1 Ew. generalize demo_heap1. intros h1 E1 Ew. rewrite E1 in E. clear E1. injection E as <- <-.
  destruct Ha as [(? & _)|(_ & _ & sz & Hsz & Hok)]; [done|]. pose proof Hok as (fl & Hinv).
  destruct (live_block _ _ _ _ Hinv) as (_ & _ & Hw & _). cbn [fst snd] in Hw. change (0x100010 - 8) with 0x100008 in Hw. rewrite Ew in Hw.
  by assert (sz = 112) as -> by lia.
Qed.

Lemma malloc_contract_witness : exists r h', malloc 100 demo_heap = Some (r, h') /\ allocated demo_heap h' r 100 [] /\ kept demo_heap h' [].
Proof. apply (proj1 (malloc_contract demo_heap []) 100 demo_heap_ok). lia. Defined.

Lemma realloc_preserves_witness : exists r h', realloc 0x100010 200 demo_heap1 = Some (r, h') /\ kept demo_heap1 h' [] /\
  ((r = 0 /\ heap_ok h' [(0x100010 - 8, 112)] /\ kept demo_heap1 h' [(0x100010 - 8, 112)] /\ exhausted demo_heap1 200 [(0x100010 - 8, 112)]) \/
   (0 < r /\ r mod 16 = 0 /\ moved demo_heap1 h' 0x100010 r 104 /\ exists sz', 200 + 8 <= sz' /\ heap_ok h' [(r - 8, sz')])).
Proof. apply (realloc_preserves demo_heap1 [] 0x100010 112 200 demo_heap1_ok). lia. Defined.

Lemma allocator_invariant_witness :
  ForallOrdPairs disjoint_blocks [(0x100008, 112)] /\ heap_ok demo_heap1 [(0x100008, 112)].
Proof.
  assert (Hm : mem_bytes (fun _ => 0)) by (intros x; lia).
  assert (Hr : rtc client (heap_start (0, 0) (fun _ => 0), []) (demo_heap1, [(0x100008, 112)])).
  { eapply rtc_l; [|apply rtc_refl]. assert (G : got demo_heap1 0x100010 [] = [(0x100008, 112)]) by (unfold got, block_size; change (0x100010 - 8) with 0x100008; by rewrite (proj2 demo_malloc)).
    rewrite <- G. apply (client_malloc _ _ 100); [lia|apply demo_malloc]. }
  destruct (allocator_invariant (0, 0) (fun _ => 0) demo_heap1 [(0x100008, 112)] Hm Hr) as (_ & H1 & _ & H2). split; [exact H1|exact H2].
Defined.

(** ** Sizes of 2^61 and more

    The break rules of [do_brk]: the state is the break, any value up to
    [USER_BRK_MAX] is taken, a lower one too; no window. *)
#[global] Instance lowering_kernel : Kernel Z := {
  sys_brk a '(b, m) := if (a =? 0) || (USER_BRK_MAX <? a) then (b, (b, m)) else (a, (a, m));
  sys_bigalloc _ s := (0, s) }.

(** [grow] hands its unsigned amount to sbrk as a signed increment, so a
    request near 2^64 lowers the break.  With malloc(65528) live, the call
    malloc(2^64 - 8192) succeeds: the break is then below the end of the live
    block, and the block returned starts above the break. *)
Example huge_malloc_lowers_break :
  (malloc 65528 (mk_heap (fun _ => 0) 0x10000 0 0 0 0) ≫= fun '(p, h1) =>
   malloc (2 ^ 64 - 8192) h1 ≫= fun '(q, h2) => Some (p, h_kern h1, q, h_kern h2)) =
  Some (0x10010, 0x20008, 0x20010, 0x20008 - 8176) /\
  0x20008 - 8176 < 0x10010 + 65528 /\ 0x20008 - 8176 < 0x20010.
Proof. split; [vm_compute; reflexivity|lia]. Qed.

Lemma malloc_size_wraps_witness : malloc (2 ^ 64 - 1) demo_heap = malloc 8 demo_heap.
Proof. apply (malloc_size_wraps demo_heap). lia. Defined.
