(* ===== verification/CStdio.v ===== *)
(** * stdio.c of the C runtime library: streams, formatted output, sscanf

    With the descriptor wrappers of errno.c and isatty it is built on.  A
    stream is a [FILE] record that holds its buffer's bytes; an operation on a
    stream takes it with the environment ([errno] and the world behind the
    system calls) and gives both back.  [None] is a loop that does not end: a
    buffered stream without room spins in fwrite, and the properties show when
    this cannot happen.  A C string is the list of its bytes before the NUL;
    an argument list is the slots va_arg reads in turn. *)
From Stdlib Require Import ZArith Lia Bool String.
From stdpp Require Import base list numbers strings.
From S2P Require Import Prelude Monad State Memory CString.

(** ** What the library asks for

    The raw system calls return the word of register RV; [malloc], [realloc]
    and [free] are the allocator, by address. *)
Class Sys (W : Type) : Type := {
  sys_write : Z -> list Z -> W -> Z * W;
  sys_read : Z -> Z -> W -> Z * list Z * W;
  sys_open : list Z -> Z -> Z -> W -> Z * W;
  sys_close : Z -> W -> Z * W;
  sys_lseek : Z -> Z -> Z -> W -> Z * W;
  sys_tcgetattr : Z -> W -> Z * W;
  malloc : Z -> W -> Z * W;
  realloc : Z -> Z -> W -> Z * W;
  free : Z -> W -> W }.

Record env (W : Type) : Type := mk_env { e_world : W; errno : Z }.
Arguments mk_env {W}. Arguments e_world {W}. Arguments errno {W}.

Definition env_eta {W} (e : env W) : env W := mk_env (e_world e) (errno e).
#[export] Instance set_e_world {W} : Setter (@e_world W). Proof. mk_setter (@env_eta W). Defined.
#[export] Instance set_errno_ {W} : Setter (@errno W). Proof. mk_setter (@env_eta W). Defined.

Definition EOF : Z := -1.
Definition ENOTTY : Z := 25.
Definition BUFSIZ : Z := 4096.
Definition F_READ : Z := 0x01.
Definition F_WRITE : Z := 0x02.
Definition F_EOF : Z := 0x04.
Definition F_ERR : Z := 0x08.
Definition F_UNBUF : Z := 0x10.
Definition F_LBF : Z := 0x20.
Definition F_PENDING : Z := 0x40.
Definition O_RDONLY : Z := 0.
Definition O_WRONLY : Z := 1.
Definition O_RDWR : Z := 2.
Definition O_CREAT : Z := 0x40.
Definition O_TRUNC : Z := 0x200.
Definition O_APPEND : Z := 0x400.
Definition IONBF : Z := 0.
Definition IOLBF : Z := 1.
Definition IOFBF : Z := 2.
Definition SEEK_CUR : Z := 1.

(** [buf] is the buffer's address (0 for NULL), [data] its bytes. *)
Record FILE : Type := mk_FILE {
  fd : Z; flags : Z; mode : Z; buf : Z; data : list Z; bufcap : Z; bufpos : Z; buflen : Z }.
Definition FILE_eta (f : FILE) : FILE :=
  mk_FILE (fd f) (flags f) (mode f) (buf f) (data f) (bufcap f) (bufpos f) (buflen f).
#[export] Instance set_fd_ : Setter fd. Proof. mk_setter FILE_eta. Defined.
#[export] Instance set_flags : Setter flags. Proof. mk_setter FILE_eta. Defined.
#[export] Instance set_mode : Setter mode. Proof. mk_setter FILE_eta. Defined.
#[export] Instance set_buf : Setter buf. Proof. mk_setter FILE_eta. Defined.
#[export] Instance set_data : Setter data. Proof. mk_setter FILE_eta. Defined.
#[export] Instance set_bufcap : Setter bufcap. Proof. mk_setter FILE_eta. Defined.
#[export] Instance set_bufpos : Setter bufpos. Proof. mk_setter FILE_eta. Defined.
#[export] Instance set_buflen : Setter buflen. Proof. mk_setter FILE_eta. Defined.

(** Bytes [at] to [at + n] of a buffer, and memcpy into one. *)
Definition slice (l : list Z) (at_ n : Z) : list Z := take (Z.to_nat n) (drop (Z.to_nat at_) l).
Definition splice (l : list Z) (at_ : Z) (b : list Z) : list Z :=
  take (Z.to_nat at_) l ++ b ++ drop (Z.to_nat at_ + length b) l.

Section Streams.
Context {W : Type} `{Sys W}.
Implicit Types (f : FILE) (e : env W).

(** ** The descriptor wrappers (errno.c) *)

Definition syscall_ret (r : Z) e : Z * env W :=
  if u64 (-4096) <? u64 r then (-1, e <| errno := i32 (- i64 r) |>) else (i64 r, e).

Definition write (fd_ : Z) (b : list Z) e : Z * env W :=
  let '(r, w) := sys_write fd_ b (e_world e) in syscall_ret r (e <| e_world := w |>).
Definition read (fd_ count : Z) e : Z * list Z * env W :=
  let '(r, b, w) := sys_read fd_ count (e_world e) in
  let '(n, e) := syscall_ret r (e <| e_world := w |>) in (n, b, e).
Definition open (path : list Z) (oflags mode_ : Z) e : Z * env W :=
  let m := if has oflags O_CREAT then mode_ else 0 in
  let '(r, w) := sys_open path oflags m (e_world e) in
  let '(n, e) := syscall_ret r (e <| e_world := w |>) in (i32 n, e).
Definition close (fd_ : Z) e : Z * env W :=
  let '(r, w) := sys_close fd_ (e_world e) in
  let '(n, e) := syscall_ret r (e <| e_world := w |>) in (i32 n, e).
Definition lseek (fd_ offset whence : Z) e : Z * env W :=
  let '(r, w) := sys_lseek fd_ offset whence (e_world e) in syscall_ret r (e <| e_world := w |>).

(** unistd.c, over tcgetattr of termios.c. *)
Definition isatty (fd_ : Z) e : bool * env W :=
  let '(r, w) := sys_tcgetattr fd_ (e_world e) in
  let '(n, e) := syscall_ret r (e <| e_world := w |>) in
  if i32 n =? 0 then (true, e) else (false, e <| errno := ENOTTY |>).

(** ** The buffer *)

Definition decide_buffering f e : FILE * env W :=
  let '(tty, e) := isatty (fd f) e in
  let f := if (tty : bool) then f <| flags := Z.lor (flags f) F_LBF |> else f in
  (f <| flags := clr (flags f) F_PENDING |>, e).

Definition flush_wbuf f e : Z * FILE * env W :=
  if 0 <? bufpos f then
    let '(w, e) := write (fd f) (slice (data f) 0 (bufpos f)) e in
    if negb (w =? bufpos f) then (-1, f <| flags := Z.lor (flags f) F_ERR |>, e)
    else (0, f <| bufpos := 0 |>, e)
  else (0, f, e).

Definition fill_rbuf f e : Z * FILE * env W :=
  let '(n, b, e) := read (fd f) (bufcap f) e in
  let f := f <| data := if 0 <? n then splice (data f) 0 b else data f |> <| bufpos := 0 |> in
  if n <? 0 then (-1, f <| flags := Z.lor (flags f) F_ERR |> <| buflen := 0 |>, e)
  else if n =? 0 then (0, f <| flags := Z.lor (flags f) F_EOF |> <| buflen := 0 |>, e)
  else (n, f <| buflen := n |>, e).

Definition rbuf_getc f e : Z * FILE * env W :=
  let get f e := (nth (Z.to_nat (bufpos f)) (data f) 0, f <| bufpos := bufpos f + 1 |>, e) in
  if buflen f <=? bufpos f then
    let '(r, f, e) := fill_rbuf f e in
    if r <=? 0 then (EOF, f, e) else get f e
  else get f e.

(** ** fwrite and fread

    [inp] holds the caller's bytes.  One unit of fuel is one pass of the
    loop; a pass moves at least one byte when the buffer has a capacity. *)
Fixpoint fwrite_loop (fuel : nat) (inp : list Z) (total put : Z) f e : option (Z * FILE * env W) :=
  match fuel with
  | O => None
  | S k =>
      if put <? total then
        let '(rc, f, e) := if bufcap f - bufpos f <=? 0 then flush_wbuf f e else (0, f, e) in
        if negb (rc =? 0) then Some (put, f, e) else
        let room := bufcap f - bufpos f in
        let chunk := if total - put <? u64 room then total - put else room in
        let f := f <| data := splice (data f) (bufpos f) (slice inp put chunk) |> <| bufpos := bufpos f + chunk |> in
        fwrite_loop k inp total (put + chunk) f e
      else Some (put, f, e)
  end.

Definition fwrite (inp : list Z) (size nmemb : Z) f e : option (Z * FILE * env W) :=
  let total := u64 (size * nmemb) in
  if total =? 0 then Some (0, f, e) else
  let '(f, e) := if has (flags f) F_PENDING then decide_buffering f e else (f, e) in
  if has (flags f) F_UNBUF then
    let '(w, e) := write (fd f) (slice inp 0 total) e in
    if w <? 0 then Some (0, f <| flags := Z.lor (flags f) F_ERR |>, e) else Some (w / size, f, e)
  else
    fwrite_loop (S (Z.to_nat total)) inp total 0 (f <| mode := 2 |>) e ≫= fun '(put, f, e) =>
    let '(f, e) :=
      if has (flags f) F_LBF && bool_decide (10 ∈ slice inp 0 put)
      then let '(_, f, e) := flush_wbuf f e in (f, e) else (f, e) in
    Some (put / size, f, e).

(** [out] is what has been stored at [ptr]; it is returned with the count. *)
Fixpoint fread_loop (fuel : nat) (total got : Z) (out : list Z) f e : option (list Z * FILE * env W) :=
  match fuel with
  | O => None
  | S k =>
      if got <? total then
        let '(r, f, e) := if buflen f - bufpos f <=? 0 then fill_rbuf f e else (1, f, e) in
        if r <=? 0 then Some (out, f, e) else
        let avail := buflen f - bufpos f in
        let chunk := if total - got <? u64 avail then total - got else avail in
        let b := slice (data f) (bufpos f) chunk in
        fread_loop k total (got + chunk) (out ++ b) (f <| bufpos := bufpos f + chunk |>) e
      else Some (out, f, e)
  end.

Definition fread (size nmemb : Z) f e : option (Z * list Z * FILE * env W) :=
  let total := u64 (size * nmemb) in
  if total =? 0 then Some (0, [], f, e) else
  fread_loop (S (Z.to_nat total)) total 0 [] (f <| mode := 1 |>) e ≫= fun '(out, f, e) =>
  Some (Z.of_nat (length out) / size, out, f, e).

(** ** Characters and strings *)

Definition fputc (c : Z) f e : option (Z * FILE * env W) :=
  let ch := u8 c in
  if has (flags f) F_UNBUF then
    let '(r, w) := sys_write (fd f) [ch] (e_world e) in
    Some (if negb (i64 r =? 1) then EOF else ch, f, e <| e_world := w |>)
  else
    fwrite [ch] 1 1 f e ≫= fun '(n, f, e) => Some (if negb (n =? 1) then EOF else ch, f, e).
Definition putc (c : Z) f e : option (Z * FILE * env W) := fputc c f e.

Definition fputs (s : list Z) f e : option (Z * FILE * env W) :=
  let n := Z.of_nat (length s) in
  if n =? 0 then Some (0, f, e) else
  if has (flags f) F_UNBUF then
    let '(r, w) := sys_write (fd f) s (e_world e) in
    Some (if negb (i64 r =? i64 n) then EOF else 0, f, e <| e_world := w |>)
  else
    fwrite s 1 n f e ≫= fun '(r, f, e) => Some (if negb (r =? n) then EOF else 0, f, e).

Definition fgetc f e : option (Z * FILE * env W) :=
  fread 1 1 f e ≫= fun '(n, b, f, e) => Some (if negb (n =? 1) then EOF else hd 0 b, f, e).
Definition getc f e : option (Z * FILE * env W) := fgetc f e.
Definition getchar e : Z * env W :=
  let '(n, b, e) := read 0 1 e in (if negb (n =? 1) then EOF else hd 0 b, e).

(** The bytes stored at [s], NUL included; [None] for the null pointer. *)
Fixpoint fgets_loop (k : nat) (s : list Z) f e : list Z * FILE * env W :=
  match k with
  | O => (s, f, e)
  | S k =>
      let '(c, f, e) := rbuf_getc f e in
      if c =? EOF then (s, f, e)
      else if c =? 10 then (s ++ [c], f, e)
      else fgets_loop k (s ++ [c]) f e
  end.
Definition fgets (n : Z) f e : option (list Z) * FILE * env W :=
  if n <=? 0 then (None, f, e) else
  let '(s, f, e) := fgets_loop (Z.to_nat (n - 1)) [] (f <| mode := 1 |>) e in
  match s with [] => (None, f, e) | _ => (Some (s ++ [0]), f, e) end.

(** The caller's [*lineptr] and [*n] ([None] when one of the two pointers is
    null), and what the line holds; the result is the count or -1.  The fuel
    bounds the length of the line. *)
Record line := mk_line { lineptr : Z; linecap : Z; chars : list Z }.
Fixpoint getline_loop (fuel : nat) (l : line) f e : option (bool * line * FILE * env W) :=
  match fuel with
  | O => None
  | S k =>
      let '(c, f, e) := rbuf_getc f e in
      if c =? EOF then Some (true, l, f, e) else
      let len := Z.of_nat (length (chars l)) in
      let '(ok, l, e) :=
        if linecap l <=? len + 1 then
          let newcap := u64 (linecap l * 2) in
          let '(nb, w) := realloc (lineptr l) newcap (e_world e) in
          if nb =? 0 then (false, l, e <| e_world := w |>)
          else (true, mk_line nb newcap (chars l), e <| e_world := w |>)
        else (true, l, e) in
      if negb ok then Some (false, l, f, e) else
      let l := mk_line (lineptr l) (linecap l) (chars l ++ [c]) in
      if c =? 10 then Some (true, l, f, e) else getline_loop k l f e
  end.
Definition getline (fuel : nat) (at_ : option (Z * Z)) f e : option (Z * line * FILE * env W) :=
  match at_ with None => Some (-1, mk_line 0 0 [], f, e) | Some (ptr, n) =>
  let '(ok, l, e) :=
    if (ptr =? 0) || (n =? 0) then
      let '(b, w) := malloc 128 (e_world e) in
      if b =? 0 then (false, mk_line ptr n [], e <| e_world := w |>)
      else (true, mk_line b 128 [], e <| e_world := w |>)
    else (true, mk_line ptr n [], e) in
  if negb ok then Some (-1, l, f, e) else
  getline_loop fuel l (f <| mode := 1 |>) e ≫= fun '(ok, l, f, e) =>
  let len := Z.of_nat (length (chars l)) in
  if negb ok then Some (-1, l, f, e)
  else if len =? 0 then Some (-1, l, f, e)
  else Some (len, mk_line (lineptr l) (linecap l) (chars l ++ [0]), f, e)
  end.

(** ** Positioning, status, buffering modes *)

Definition fseek (offset whence : Z) f e : Z * FILE * env W :=
  let '(rc, f, e) := if mode f =? 2 then flush_wbuf f e else (0, f, e) in
  if negb (rc =? 0) then (-1, f, e) else
  let f := f <| bufpos := 0 |> <| buflen := 0 |> <| mode := 0 |> in
  let '(p, e) := lseek (fd f) offset whence e in
  if p <? 0 then (-1, f, e) else (0, f <| flags := clr (flags f) F_EOF |>, e).
Definition rewind f e : FILE * env W := let '(_, f, e) := fseek 0 0 f e in (f, e).
Definition ftell f e : Z * env W :=
  let '(pos, e) := lseek (fd f) 0 SEEK_CUR e in
  if pos <? 0 then (-1, e)
  else if mode f =? 1 then (pos - (buflen f - bufpos f), e)
  else if mode f =? 2 then (pos + bufpos f, e)
  else (pos, e).
Definition fflush f e : Z * FILE * env W :=
  if has (flags f) F_UNBUF then (0, f, e)
  else if mode f =? 2 then flush_wbuf f e else (0, f, e).
Definition feof f : Z := if has (flags f) F_EOF then 1 else 0.
Definition ferror f : Z := if has (flags f) F_ERR then 1 else 0.
Definition clearerr f : FILE := f <| flags := clr (flags f) (Z.lor F_EOF F_ERR) |>.
Definition fileno f : Z := fd f.

(** [ubuf] and [ubytes] are the caller's buffer, if there is one; a buffer
    from the allocator has unspecified contents, here zeros. *)
Definition setvbuf (ubuf : Z) (ubytes : list Z) (mode_ size : Z) f e : Z * FILE * env W :=
  let '(f, e) := if (mode f =? 2) && (0 <? bufpos f) then let '(_, f, e) := flush_wbuf f e in (f, e) else (f, e) in
  if mode_ =? IONBF then
    (0, f <| flags := clr (Z.lor (flags f) F_UNBUF) (Z.lor F_LBF F_PENDING) |>, e)
  else
    let install b bytes cap f := f <| buf := b |> <| data := bytes |> <| bufcap := i64 cap |> <| bufpos := 0 |> <| buflen := 0 |> in
    let '(ok, f, e) :=
      if negb (ubuf =? 0) && (0 <? size) then (true, install ubuf (take (Z.to_nat size) ubytes) size f, e)
      else if (buf f =? 0) || (bufcap f <=? 0) then
        let want := if 0 <? size then size else BUFSIZ in
        let '(nb, w) := malloc want (e_world e) in
        if nb =? 0 then (false, f, e <| e_world := w |>)
        else (true, install nb (replicate (Z.to_nat want) 0) want f, e <| e_world := w |>)
      else (true, f, e) in
    if negb ok then (-1, f, e) else
    let fl := clr (flags f) F_UNBUF in
    let fl := if mode_ =? IOLBF then Z.lor fl F_LBF else clr fl F_LBF in
    (0, f <| flags := clr fl F_PENDING |>, e).
Definition setbuf (ubuf : Z) (ubytes : list Z) f e : FILE * env W :=
  let '(_, f, e) := setvbuf ubuf ubytes (if ubuf =? 0 then IONBF else IOFBF) BUFSIZ f e in (f, e).
End Streams.

(** ** Formatted output *)

(** An argument list: what each slot holds, and the slot va_arg reads next. *)
Record va_list : Type := mk_va { va_slot : nat -> Z; va_next : nat }.
Definition va_arg (ap : va_list) : Z * va_list :=
  (va_slot ap (va_next ap), mk_va (va_slot ap) (S (va_next ap))).
(** va_arg of type int and unsigned int: the slot's low half. *)
Definition va_int (ap : va_list) : Z * va_list := let '(v, ap) := va_arg ap in (i32 v, ap).
Definition va_uint (ap : va_list) : Z * va_list := let '(v, ap) := va_arg ap in (u32 v, ap).

Definition PRINTF_BUFSZ : Z := 256.
Definition fmt_nullstr : list Z := [40; 110; 117; 108; 108; 41].

(** The sink.  [o_buf] is memory from the buffer's start on; [o_stream] is the
    stream that chunks are delivered into, if it is buffered. *)
Record fmtout (W : Type) : Type := mk_out {
  o_buf : Z -> Z; o_cap : Z; o_pos : Z; o_total : Z; o_fd : Z; o_stream : option FILE; o_env : env W }.
Arguments mk_out {W}. Arguments o_buf {W}. Arguments o_cap {W}. Arguments o_pos {W}.
Arguments o_total {W}. Arguments o_fd {W}. Arguments o_stream {W}. Arguments o_env {W}.
Definition fmtout_eta {W} (o : fmtout W) : fmtout W :=
  mk_out (o_buf o) (o_cap o) (o_pos o) (o_total o) (o_fd o) (o_stream o) (o_env o).
#[export] Instance set_o_buf {W} : Setter (@o_buf W). Proof. mk_setter (@fmtout_eta W). Defined.
#[export] Instance set_o_pos {W} : Setter (@o_pos W). Proof. mk_setter (@fmtout_eta W). Defined.
#[export] Instance set_o_total {W} : Setter (@o_total W). Proof. mk_setter (@fmtout_eta W). Defined.
#[export] Instance set_o_stream {W} : Setter (@o_stream W). Proof. mk_setter (@fmtout_eta W). Defined.
#[export] Instance set_o_env {W} : Setter (@o_env W). Proof. mk_setter (@fmtout_eta W). Defined.

Definition set_byte (b : Z -> Z) (i c : Z) : Z -> Z := fun j => if j =? i then c else b j.
Definition bytes_of (b : Z -> Z) (n : Z) : list Z := map b (seqZ 0 n).

Definition lower : list Z := [48; 49; 50; 51; 52; 53; 54; 55; 56; 57; 97; 98; 99; 100; 101; 102].
Definition upperd : list Z := [48; 49; 50; 51; 52; 53; 54; 55; 56; 57; 65; 66; 67; 68; 69; 70].

(** The digit loop, least significant first into [tmp]: 64 passes are enough
    for a word in every base from 2 on. *)
Fixpoint digit_loop (fuel : nat) (dig : list Z) (base mag : Z) (tmp : list Z) : list Z :=
  match fuel with
  | O => tmp
  | S k => if mag =? 0 then tmp
           else digit_loop k dig base (mag / base) (tmp ++ [nth (Z.to_nat (mag mod base)) dig 0])
  end.
Definition u_to_digits (mag base : Z) (upper : bool) : list Z :=
  let dig := if upper then upperd else lower in
  reverse (digit_loop 64 dig base mag (if mag =? 0 then [48] else [])).

Section Format.
Context {W : Type} `{Sys W}.
Implicit Types (o : fmtout W) (e : env W).
(** The NUL-terminated string at an address. *)
Variable string_at : Z -> list Z.

Definition out_flush_chunk o : option (fmtout W) :=
  match o_stream o with
  | Some f => fwrite (bytes_of (o_buf o) (o_pos o)) 1 (o_pos o) f (o_env o) ≫= fun '(_, f, e) =>
              Some (o <| o_stream := Some f |> <| o_env := e |>)
  | None => let '(_, w) := sys_write (o_fd o) (bytes_of (o_buf o) (o_pos o)) (e_world (o_env o)) in
            Some (o <| o_env := (o_env o) <| e_world := w |> |>)
  end.

Definition out_ch (c : Z) o : option (fmtout W) :=
  let o := o <| o_total := u64 (o_total o + 1) |> in
  if 0 <=? o_fd o then
    let o := o <| o_buf := set_byte (o_buf o) (o_pos o) c |> <| o_pos := o_pos o + 1 |> in
    if o_pos o =? o_cap o then out_flush_chunk o ≫= fun o => Some (o <| o_pos := 0 |>) else Some o
  else if u64 (o_pos o + 1) <? o_cap o
  then Some (o <| o_buf := set_byte (o_buf o) (o_pos o) c |> <| o_pos := o_pos o + 1 |>)
  else Some o.

Definition fmt_finish o : option (Z * fmtout W) :=
  (if 0 <=? o_fd o then (if 0 <? o_pos o then out_flush_chunk o else Some o)
   else Some (if 0 <? o_cap o then o <| o_buf := set_byte (o_buf o) (o_pos o) 0 |> else o)) ≫= fun o =>
  Some (i32 (o_total o), o).

Fixpoint out_bytes (body : list Z) o : option (fmtout W) :=
  match body with [] => Some o | c :: r => out_ch c o ≫= out_bytes r end.
Fixpoint out_rep (c : Z) (n : nat) o : option (fmtout W) :=
  match n with O => Some o | S k => out_ch c o ≫= out_rep c k end.

Definition emit_field (sign : Z) (body : list Z) (width : Z) (zero : bool) (prec : Z) o : option (fmtout W) :=
  let blen := Z.of_nat (length body) in
  let signlen := if sign =? 0 then 0 else 1 in
  let zpad := if i32 blen <? prec then u64 (u64 prec - blen) else 0 in
  let usez := zero && (prec <? 0) in
  let content := u64 (signlen + zpad + blen) in
  let wpad := if (0 <? width) && (content <? width) then width - content else 0 in
  let put_sign o := if sign =? 0 then Some o else out_ch sign o in
  if usez then
    put_sign o ≫= fun o => out_rep 48 (Z.to_nat wpad) o ≫= out_bytes body
  else
    out_rep 32 (Z.to_nat wpad) o ≫= fun o => put_sign o ≫= fun o =>
    out_rep 48 (Z.to_nat zpad) o ≫= out_bytes body.

Definition emit_uint (mag base : Z) (upper : bool) (sign width : Z) (zero : bool) (prec : Z) o : option (fmtout W) :=
  let body := u_to_digits mag base upper in
  let body := if (prec =? 0) && (mag =? 0) then [] else body in
  emit_field sign body width zero prec o.
Definition emit_signed (v width : Z) (zero : bool) (prec : Z) o : option (fmtout W) :=
  let mag := u64 v in
  let '(sign, mag) := if v <? 0 then (45, u64 (- mag)) else (0, mag) in
  emit_uint mag 10 false sign width zero prec o.

Definition conv_c (v width : Z) o : option (fmtout W) := emit_field 0 [u8 v] width false (-1) o.
Definition conv_s (s width prec : Z) o : option (fmtout W) :=
  let s := if s =? 0 then fmt_nullstr else string_at s in
  let len := Z.of_nat (length s) in
  let len := if (0 <=? prec) && (prec <? len) then prec else len in
  emit_field 0 (take (Z.to_nat len) s) width false (-1) o.
Definition conv_p (ptr width : Z) o : option (fmtout W) :=
  emit_field 0 ([48; 120] ++ u_to_digits (u64 ptr) 16 false) width false (-1) o.
Definition conv_pct (width : Z) o : option (fmtout W) := emit_field 0 [37] width false (-1) o.

(** The directive after a '%': flag, width, precision, length, conversion. *)
Fixpoint read_number (n : Z) (p : list Z) : Z * list Z :=
  match p with
  | c :: r => if isdigit c then read_number (i32 (n * 10 + (c - 48))) r else (n, p)
  | [] => (n, [])
  end.
Fixpoint skip_wide (lng : bool) (p : list Z) : bool * list Z :=
  match p with
  | c :: r => if (c =? 108) || (c =? 122) || (c =? 106) || (c =? 116) then skip_wide true r else (lng, p)
  | [] => (lng, [])
  end.
Fixpoint skip_h (p : list Z) : list Z :=
  match p with c :: r => if c =? 104 then skip_h r else p | [] => [] end.

Record directive := mk_dir { d_zero : bool; d_width : Z; d_prec : Z; d_lng : bool; d_conv : Z }.

Definition read_directive (p : list Z) (ap : va_list) : directive * list Z * va_list :=
  let '(zero, p) := if hd 0 p =? 48 then (true, tail p) else (false, p) in
  let '(width, p, ap) :=
    if hd 0 p =? 42 then let '(w, ap) := va_int ap in (w, tail p, ap)
    else let '(w, p) := read_number 0 p in (w, p, ap) in
  let '(prec, p, ap) :=
    if hd 0 p =? 46 then
      let p := tail p in
      let '(prec, p, ap) :=
        if hd 0 p =? 42 then let '(n, ap) := va_int ap in (n, tail p, ap)
        else let '(n, p) := read_number 0 p in (n, p, ap) in
      (if prec <? 0 then -1 else prec, p, ap)
    else (-1, p, ap) in
  let '(lng, p) := skip_wide false p in
  let p := skip_h p in
  (mk_dir zero width prec lng (hd 0 p), tail p, ap).

(** va_arg(ap, unsigned long) or va_arg(ap, unsigned int). *)
Definition va_unsigned (lng : bool) (ap : va_list) : Z * va_list :=
  if lng then let '(v, ap) := va_arg ap in (u64 v, ap) else va_uint ap.

(** The walk of the format; the argument list is returned as it is left.
    Each pass consumes a byte of the format. *)
Fixpoint vformat (fuel : nat) (p : list Z) (ap : va_list) o : option (fmtout W * va_list) :=
  match fuel with
  | O => None
  | S k =>
      match p with
      | [] => Some (o, ap)
      | c :: p =>
          if negb (c =? 37) then out_ch c o ≫= vformat k p ap
          else if (match p with [] => true | _ => false end) then out_ch 37 o ≫= fun o => Some (o, ap)
          else
            let '(d, p, ap) := read_directive p ap in
            let width := d_width d in let zero := d_zero d in let prec := d_prec d in
            let conv := d_conv d in
            let number base upper :=
              let '(v, ap) := va_unsigned (d_lng d) ap in
              emit_uint v base upper 0 width zero prec o ≫= vformat k p ap in
            if (conv =? 100) || (conv =? 105) then
              let '(v, ap) := if d_lng d then (let '(v, ap) := va_arg ap in (i64 v, ap)) else va_int ap in
              emit_signed v width zero prec o ≫= vformat k p ap
            else if conv =? 117 then number 10 false
            else if conv =? 111 then number 8 false
            else if conv =? 120 then number 16 false
            else if conv =? 88 then number 16 true
            else if conv =? 99 then
              let '(v, ap) := va_int ap in conv_c v width o ≫= vformat k p ap
            else if conv =? 115 then
              let '(v, ap) := va_arg ap in conv_s v width prec o ≫= vformat k p ap
            else if conv =? 112 then
              let '(v, ap) := va_arg ap in conv_p v width o ≫= vformat k p ap
            else if conv =? 37 then conv_pct width o ≫= vformat k p ap
            else
              out_ch 37 o ≫= fun o => (if conv =? 0 then Some o else out_ch conv o) ≫= fun o =>
              out_bytes p o ≫= fun o => Some (o, ap)
      end
  end.
Definition format (fmt : list Z) (ap : va_list) o : option (fmtout W * va_list) := vformat (S (length fmt)) fmt ap o.

(** The count, the memory at [str] and the arguments left. *)
Definition vsnprintf (str : Z -> Z) (n : Z) (fmt : list Z) (ap : va_list) e : option (Z * (Z -> Z) * va_list) :=
  format fmt ap (mk_out str n 0 0 (-1) None e) ≫= fun '(o, ap) =>
  fmt_finish o ≫= fun '(r, o) => Some (r, o_buf o, ap).
Definition snprintf (str : Z -> Z) (n : Z) (fmt : list Z) (args : nat -> Z) e : option (Z * (Z -> Z)) :=
  vsnprintf str n fmt (mk_va args 0) e ≫= fun '(r, b, _) => Some (r, b).
Definition sprintf (str : Z -> Z) (fmt : list Z) (args : nat -> Z) e : option (Z * (Z -> Z)) :=
  vsnprintf str (u64 (-1)) fmt (mk_va args 0) e ≫= fun '(r, b, _) => Some (r, b).

(** [sbuf] is what the stack holds where the chunk buffer lies. *)
Definition vfprintf (sbuf : Z -> Z) (fmt : list Z) (ap : va_list) (f : FILE) e : option (Z * FILE * env W) :=
  let '(f, e) := if has (flags f) F_PENDING then decide_buffering f e else (f, e) in
  let unbuf := has (flags f) F_UNBUF in
  format fmt ap (mk_out sbuf PRINTF_BUFSZ 0 0 (fd f) (if unbuf then None else Some f) e) ≫= fun '(o, _) =>
  fmt_finish o ≫= fun '(r, o) => Some (r, default f (o_stream o), o_env o).
Definition fprintf (sbuf : Z -> Z) (fmt : list Z) (args : nat -> Z) (f : FILE) e : option (Z * FILE * env W) :=
  vfprintf sbuf fmt (mk_va args 0) f e.
End Format.

(** ** sscanf *)

(** The double arithmetic scan_float uses. *)
Class Double (D : Type) : Type := {
  d_of_int : Z -> D; d_tenth : D; d_add : D -> D -> D; d_sub : D -> D -> D; d_mul : D -> D -> D }.

Definition scan_digit (c base : Z) : Z :=
  let d := if (48 <=? c) && (c <=? 57) then c - 48
           else if (97 <=? c) && (c <=? 122) then c - 97 + 10
           else if (65 <=? c) && (c <=? 90) then c - 65 + 10 else -1 in
  if d =? -1 then -1 else if d <? base then d else -1.

Fixpoint scan_ws (p : list Z) : list Z :=
  match p with c :: r => if isspace c then scan_ws r else p | [] => [] end.

(** [w] is the remaining allowance, negative when there is no width. *)
Definition spend (w : Z) : Z := if 0 <? w then w - 1 else w.
Fixpoint scan_digits (base w acc : Z) (any : bool) (p : list Z) : Z * bool * list Z :=
  match p with
  | [] => (acc, any, [])
  | c :: r =>
      if w =? 0 then (acc, any, p) else
      let d := scan_digit c base in
      if d <? 0 then (acc, any, p) else scan_digits base (spend w) (u64 (acc * base + d)) true r
  end.

(** The sign, the magnitude and the rest of the input, or no digit. *)
Definition scan_int (base width : Z) (p : list Z) : option (bool * Z * list Z) :=
  let w := width in
  let '(sign, p, w) :=
    if negb (w =? 0) && ((hd 0 p =? 43) || (hd 0 p =? 45)) then (hd 0 p =? 45, tail p, spend w) else (false, p, w) in
  let prefix := ((w <? 0) || (3 <=? w)) && (hd 0 p =? 48) && ((nth 1 p 0 =? 120) || (nth 1 p 0 =? 88))
                && (0 <=? scan_digit (nth 2 p 0) 16) in
  let past := (drop 2 p, if 0 <? w then w - 2 else w) in
  let '(base, (p, w)) :=
    if base =? 0 then
      if prefix then (16, past) else if hd 0 p =? 48 then (8, (p, w)) else (10, (p, w))
    else if base =? 16 then (16, if prefix then past else (p, w))
    else (base, (p, w)) in
  let '(acc, any, p) := scan_digits base w 0 false p in
  if any then Some (sign, acc, p) else None.

Fixpoint scan_str_loop (w : Z) (p : list Z) : list Z * list Z :=
  match p with
  | [] => ([], [])
  | c :: r => if (w =? 0) || isspace c then ([], p) else let '(s, p) := scan_str_loop (spend w) r in (c :: s, p)
  end.
Definition scan_str (width : Z) (p : list Z) : list Z * list Z := scan_str_loop width (scan_ws p).
Definition scan_char (width : Z) (p : list Z) : list Z * list Z :=
  let w := Z.to_nat (if width <? 0 then 1 else width) in (take w p, drop w p).

Section Scan.
Context {D : Type} `{Double D}.

Fixpoint float_digits (w : Z) (result : D) (any : bool) (p : list Z) : D * bool * Z * list Z :=
  match p with
  | [] => (result, any, w, [])
  | c :: r =>
      if negb (w =? 0) && isdigit c
      then float_digits (spend w) (d_add (d_mul result (d_of_int 10)) (d_of_int (c - 48))) true r
      else (result, any, w, p)
  end.
Fixpoint fraction_digits (w : Z) (result scale : D) (any : bool) (p : list Z) : D * bool * list Z :=
  match p with
  | [] => (result, any, [])
  | c :: r =>
      if negb (w =? 0) && isdigit c
      then fraction_digits (spend w) (d_add result (d_mul (d_of_int (c - 48)) scale)) (d_mul scale d_tenth) true r
      else (result, any, p)
  end.
Definition scan_float (width : Z) (p : list Z) : option (D * list Z) :=
  let w := width in
  let '(neg, p, w) :=
    if negb (w =? 0) && ((hd 0 p =? 43) || (hd 0 p =? 45)) then (hd 0 p =? 45, tail p, spend w) else (false, p, w) in
  let '(result, any, w, p) := float_digits w (d_of_int 0) false p in
  let '(result, any, p) :=
    if negb (w =? 0) && (hd 0 p =? 46)
    then fraction_digits (spend w) result d_tenth any (tail p) else (result, any, p) in
  if any then Some (if neg then d_sub (d_of_int 0) result else result, p) else None.

(** What is stored through the argument pointers, in order. *)
Inductive scanned : Type :=
| Sint (dst v : Z) | Slong (dst v : Z) | Sfloat (dst : Z) (v : D) | Sdouble (dst : Z) (v : D)
| Sbytes (dst : Z) (b : list Z).

(** '*', width and length modifiers of a conversion. *)
Fixpoint skip_length (lng : bool) (fp : list Z) : bool * list Z :=
  match fp with
  | c :: r => if c =? 108 then skip_length true r else if c =? 104 then skip_length lng r else (lng, fp)
  | [] => (lng, [])
  end.
Definition scan_directive (fp : list Z) : bool * Z * bool * Z * list Z :=
  let '(suppress, fp) := if hd 0 fp =? 42 then (true, tail fp) else (false, fp) in
  let '(width, fp) := if isdigit (hd 0 fp) then read_number 0 fp else (-1, fp) in
  let '(lng, fp) := skip_length false fp in
  (suppress, width, lng, hd 0 fp, tail fp).

(** Where the input is left, the assignments, and whether a conversion was
    attempted. *)
Fixpoint sscanf_loop (fuel : nat) (ip fp : list Z) (ap : va_list) (count : Z) (attempted : bool) (st : list scanned)
    : option (list Z * Z * bool * list scanned) :=
  match fuel with
  | O => None
  | S k =>
      match fp with
      | [] => Some (ip, count, attempted, st)
      | fc :: fp =>
          if isspace fc then sscanf_loop k (scan_ws ip) fp ap count attempted st
          else if negb (fc =? 37) then
            if negb (hd 0 ip =? fc) then Some (ip, count, attempted, st)
            else sscanf_loop k (tail ip) fp ap count attempted st
          else
            let '(suppress, width, lng, conv, fp) := scan_directive fp in
            if conv =? 37 then
              if hd 0 ip =? 37 then sscanf_loop k (tail ip) fp ap count attempted st
              else Some (ip, count, attempted, st)
            else if (conv =? 100) || (conv =? 105) || (conv =? 117) || (conv =? 111) || (conv =? 120) then
              let base := if conv =? 105 then 0 else if conv =? 111 then 8 else if conv =? 120 then 16 else 10 in
              let ip := scan_ws ip in
              match scan_int base width ip with
              | None => Some (ip, count, true, st)
              | Some (neg, mag, ip) =>
                  if suppress then sscanf_loop k ip fp ap count true st else
                  let uval := if neg : bool then u64 (- i64 mag) else mag in
                  let '(dst, ap) := va_arg ap in
                  sscanf_loop k ip fp ap (count + 1) true (st ++ [if lng then Slong dst (i64 uval) else Sint dst (i32 uval)])
              end
            else if conv =? 102 then
              let ip := scan_ws ip in
              match scan_float width ip with
              | None => Some (ip, count, true, st)
              | Some (dv, ip) =>
                  if suppress then sscanf_loop k ip fp ap count true st else
                  let '(dst, ap) := va_arg ap in
                  sscanf_loop k ip fp ap (count + 1) true (st ++ [if lng then Sdouble dst dv else Sfloat dst dv])
              end
            else if (conv =? 115) || (conv =? 99) then
              let '(dst, ap) := if suppress then (0, ap) else va_arg ap in
              let '(b, ip) := if conv =? 115 then scan_str width ip else scan_char width ip in
              let st := if dst =? 0 then st else st ++ [Sbytes dst (if conv =? 115 then b ++ [0] else b)] in
              match b with
              | [] => Some (ip, count, true, st)
              | _ => sscanf_loop k ip fp ap (if suppress then count else count + 1) true st
              end
            else Some (ip, count, true, st)
      end
  end.
Definition sscanf (str format_ : list Z) (args : nat -> Z) : option (Z * list scanned) :=
  sscanf_loop (S (length format_)) str format_ (mk_va args 0) 0 false [] ≫= fun '(ip, count, attempted, st) =>
  Some (if (count =? 0) && attempted && (match ip with [] => true | _ => false end) then EOF else count, st).
End Scan.
Arguments scanned : clear implicits.

(** ** The streams of a process *)

Record stdio (W : Type) : Type := mk_stdio {
  sio_env : env W; stdin_ : FILE; stdout_ : FILE; stderr_ : FILE; g_streams : list (Z * FILE) }.
Arguments mk_stdio {W}. Arguments sio_env {W}. Arguments stdin_ {W}. Arguments stdout_ {W}.
Arguments stderr_ {W}. Arguments g_streams {W}.
Definition stdio_eta {W} (s : stdio W) : stdio W :=
  mk_stdio (sio_env s) (stdin_ s) (stdout_ s) (stderr_ s) (g_streams s).
#[export] Instance set_sio_env {W} : Setter (@sio_env W). Proof. mk_setter (@stdio_eta W). Defined.
#[export] Instance set_stdin {W} : Setter (@stdin_ W). Proof. mk_setter (@stdio_eta W). Defined.
#[export] Instance set_stdout {W} : Setter (@stdout_ W). Proof. mk_setter (@stdio_eta W). Defined.
#[export] Instance set_stderr {W} : Setter (@stderr_ W). Proof. mk_setter (@stdio_eta W). Defined.
#[export] Instance set_g_streams {W} : Setter (@g_streams W). Proof. mk_setter (@stdio_eta W). Defined.

(** A [FILE *]: one of the static objects or an address from the allocator. *)
Inductive stream : Type := Stdin | Stdout | Stderr | Opened (a : Z).

(** The static objects; the two buffers lie at addresses of their own. *)
Section Boot.
Variables (stdin_buf stdout_buf : Z).
Definition stdin0 : FILE := mk_FILE 0 F_READ 0 stdin_buf (replicate 4096 0) BUFSIZ 0 0.
Definition stdout0 : FILE := mk_FILE 1 (Z.lor F_WRITE F_PENDING) 0 stdout_buf (replicate 4096 0) BUFSIZ 0 0.
Definition stderr0 : FILE := mk_FILE 2 (Z.lor F_WRITE F_UNBUF) 0 0 [] 0 0 0.
Definition stdio0 {W} (e : env W) : stdio W := mk_stdio e stdin0 stdout0 stderr0 [].
End Boot.

(** The open flags and the readable and writable bits of a mode string. *)
Definition parse_mode (m : list Z) : option (Z * Z) :=
  let c := hd 0 m in
  let plus := bool_decide (43 ∈ m) in
  let rw := Z.lor F_READ F_WRITE in
  if c =? 114 then Some (if plus then O_RDWR else O_RDONLY, if plus then rw else F_READ)
  else if c =? 119 then
    Some (Z.lor (Z.lor (if plus then O_RDWR else O_WRONLY) O_CREAT) O_TRUNC, if plus then rw else F_WRITE)
  else if c =? 97 then
    Some (Z.lor (Z.lor (if plus then O_RDWR else O_WRONLY) O_CREAT) O_APPEND, if plus then rw else F_WRITE)
  else None.

Section Process.
Context {W : Type} `{Sys W}.
Implicit Types s : stdio W.

Fixpoint find_stream (a : Z) (l : list (Z * FILE)) : option FILE :=
  match l with [] => None | (b, f) :: r => if b =? a then Some f else find_stream a r end.
Fixpoint set_stream (a : Z) (f : FILE) (l : list (Z * FILE)) : list (Z * FILE) :=
  match l with [] => [] | (b, g) :: r => if b =? a then (b, f) :: r else (b, g) :: set_stream a f r end.
Fixpoint unlink_stream (a : Z) (l : list (Z * FILE)) : list (Z * FILE) :=
  match l with [] => [] | (b, g) :: r => if b =? a then r else (b, g) :: unlink_stream a r end.

(** The object a stream points to; [None] is a stream that is not open. *)
Definition lookup_stream (h : stream) s : option FILE :=
  match h with
  | Stdin => Some (stdin_ s) | Stdout => Some (stdout_ s) | Stderr => Some (stderr_ s)
  | Opened a => find_stream a (g_streams s)
  end.
Definition update_stream (h : stream) (f : FILE) s : stdio W :=
  match h with
  | Stdin => s <| stdin_ := f |> | Stdout => s <| stdout_ := f |> | Stderr => s <| stderr_ := f |>
  | Opened a => s <| g_streams := set_stream a f (g_streams s) |>
  end.

(** An operation on the stream [h] of the process. *)
Definition on_stream {A} (h : stream) (op : FILE -> env W -> option (A * FILE * env W)) s : option (A * stdio W) :=
  lookup_stream h s ≫= fun f =>
  op f (sio_env s) ≫= fun '(a, f, e) => Some (a, update_stream h f (s <| sio_env := e |>)).

Definition putchar (c : Z) s : option (Z * stdio W) := on_stream Stdout (fputc c) s.
Definition puts (str : list Z) s : option (Z * stdio W) :=
  on_stream Stdout (fputs str) s ≫= fun '(r, s) =>
  if r =? EOF then Some (EOF, s) else
  putchar 10 s ≫= fun '(r, s) => if r =? EOF then Some (EOF, s) else Some (0, s).

Definition vprintf (string_at : Z -> list Z) (sbuf : Z -> Z) (fmt : list Z) (ap : va_list) s : option (Z * stdio W) :=
  on_stream Stdout (vfprintf string_at sbuf fmt ap) s.
Definition printf (string_at : Z -> list Z) (sbuf : Z -> Z) (fmt : list Z) (args : nat -> Z) s : option (Z * stdio W) :=
  vprintf string_at sbuf fmt (mk_va args 0) s.

(** A null pointer is [None]; the address of the message string is [msg]. *)
Definition perror (string_at : Z -> list Z) (sbuf : Z -> Z) (str : option Z) (msg : Z -> Z) s : option (Z * stdio W) :=
  let m := msg (errno (sio_env s)) in
  match str with
  | Some p =>
      if negb (bool_decide (string_at p = []))
      then on_stream Stderr (fprintf string_at sbuf [37; 115; 58; 32; 37; 115; 10] (fun i => nth i [p; m] 0)) s
      else on_stream Stderr (fprintf string_at sbuf [37; 115; 10] (fun i => nth i [m] 0)) s
  | None => on_stream Stderr (fprintf string_at sbuf [37; 115; 10] (fun i => nth i [m] 0)) s
  end.

(** sizeof(FILE) is 56; the mode is octal 0644. *)
Definition fopen (path mode_ : list Z) s : option Z * stdio W :=
  match parse_mode mode_ with
  | None => (None, s)
  | Some (oflags, fbits) =>
      let '(fd_, e) := open path oflags 420 (sio_env s) in
      if fd_ <? 0 then (None, s <| sio_env := e |>) else
      let '(a, w) := malloc 56 (e_world e) in
      let e := e <| e_world := w |> in
      if a =? 0 then let '(_, e) := close fd_ e in (None, s <| sio_env := e |>) else
      let '(b, w) := malloc BUFSIZ (e_world e) in
      let e := e <| e_world := w |> in
      if b =? 0 then
        let '(_, e) := close fd_ e in
        (None, s <| sio_env := e <| e_world := free a (e_world e) |> |>)
      else
        let f := mk_FILE fd_ fbits 0 b (replicate 4096 0) BUFSIZ 0 0 in
        (Some a, s <| sio_env := e |> <| g_streams := (a, f) :: g_streams s |>)
  end.

(** Only what the allocator gave is freed. *)
Definition fclose (h : stream) s : option (Z * stdio W) :=
  lookup_stream h s ≫= fun f =>
  let '(rc, f, e) := if mode f =? 2 then flush_wbuf f (sio_env s) else (0, f, sio_env s) in
  let s := update_stream h f (s <| sio_env := e |>) in
  let s := match h with Opened a => s <| g_streams := unlink_stream a (g_streams s) |> | _ => s end in
  let '(r, e) := close (fd f) (sio_env s) in
  let e := match h with
           | Opened a => e <| e_world := free a (free (buf f) (e_world e)) |>
           | _ => e
           end in
  Some (if negb (rc =? 0) || negb (r =? 0) then -1 else 0, s <| sio_env := e |>).

(** Flushing one stream of several: -1 once a flush has failed. *)
Definition flush_one (f : FILE) (rc : Z) (e : env W) : FILE * Z * env W :=
  if mode f =? 2 then let '(r, f, e) := flush_wbuf f e in (f, if negb (r =? 0) then -1 else rc, e) else (f, rc, e).
Fixpoint flush_list (l : list (Z * FILE)) (rc : Z) (e : env W) : list (Z * FILE) * Z * env W :=
  match l with
  | [] => ([], rc, e)
  | (a, f) :: r =>
      let '(f, rc, e) := flush_one f rc e in
      let '(r, rc, e) := flush_list r rc e in ((a, f) :: r, rc, e)
  end.
(** fflush(NULL). *)
Definition fflush_null s : Z * stdio W :=
  let '(out, rc, e) := flush_one (stdout_ s) 0 (sio_env s) in
  let '(err, rc, e) := flush_one (stderr_ s) rc e in
  let '(l, rc, e) := flush_list (g_streams s) rc e in
  (rc, s <| sio_env := e |> <| stdout_ := out |> <| stderr_ := err |> <| g_streams := l |>).
(** __stdio_flush_all. *)
Definition stdio_flush_all s : stdio W := (fflush_null s).2.
End Process.
