(* ===== verification/CStdioProps.v ===== *)
(** * What stdio.c promises

    Formatted output against a reference rendering, the bounds of snprintf,
    reading back what was printed, and streams: what is written arrives once
    and in order, what is read is the file. *)
From Stdlib Require Import ZArith Lia Bool String.
From stdpp Require Import base list numbers strings.
From S2P Require Import Prelude Monad State Memory CString CStdio.

(** ** The reference rendering

    What a format stands for, from C's description of a directive, without
    the code's own parser and digit generator. *)

(** Numerals, most significant digit first; 64 digits are enough for a word in
    every base. *)
Definition char_of_digit (upper : bool) (d : Z) : Z := if d <? 10 then 48 + d else (if upper then 65 else 97) + (d - 10).
Fixpoint numeral (digits : nat) (base : Z) (upper : bool) (n : Z) : list Z :=
  match digits with
  | O => []
  | S k => (if n <? base then [] else numeral k base upper (n / base)) ++ [char_of_digit upper (n mod base)]
  end.

(** The longest prefix of bytes that satisfy [P], and what is behind it. *)
Fixpoint run (P : Z -> bool) (p : list Z) : list Z :=
  match p with c :: r => if P c then c :: run P r else [] | [] => [] end.
Definition after (P : Z -> bool) (p : list Z) : list Z := drop (length (run P p)) p.
Definition starts (c : Z) (p : list Z) : bool := match p with d :: _ => d =? c | [] => false end.

Definition is_decimal (c : Z) : bool := (48 <=? c) && (c <=? 57).
Definition is_wide (c : Z) : bool := existsb (Z.eqb c) [106; 108; 116; 122].
Fixpoint decimal (l : list Z) : Z :=
  match l with [] => 0 | c :: r => (c - 48) * 10 ^ Z.of_nat (length r) + decimal r end.

(** A width or precision: decimal digits, none for 0, or a star for the next
    argument; as an int. *)
Definition amount (p : list Z) (ap : va_list) : Z * list Z * va_list :=
  if starts 42 p then (i32 (va_slot ap (va_next ap)), drop 1 p, mk_va (va_slot ap) (S (va_next ap)))
  else (i32 (decimal (run is_decimal p)), after is_decimal p, ap).

(** The directive after a percent sign, what follows it and the arguments left:
    [0], a width, a point with a precision (-1 when there is none or it is
    negative), the length modifiers [j l t z] and then [h], the conversion (0
    at the end of the format). *)
Definition directive_of (p : list Z) (ap : va_list) : directive * list Z * va_list :=
  let zero := starts 48 p in
  let '(width, p, ap) := amount (if zero then drop 1 p else p) ap in
  let '(prec, p, ap) :=
    if starts 46 p then let '(n, p, ap) := amount (drop 1 p) ap in (Z.max (-1) n, p, ap) else (-1, p, ap) in
  let wide := negb (bool_decide (run is_wide p = [])) in
  let p := after (Z.eqb 104) (after is_wide p) in
  (mk_dir zero width prec wide (hd 0 p), drop 1 p, ap).

Definition pad (c w : Z) (body : list Z) : list Z := replicate (Z.to_nat (w - Z.of_nat (length body))) c ++ body.

(** Sign, digits or text, set to the precision and then to the width. *)
Definition field (sign body : list Z) (width : Z) (zero : bool) (prec : Z) : list Z :=
  if zero && (prec <? 0)
  then sign ++ pad 48 (width - Z.of_nat (length sign)) body
  else pad 32 width (sign ++ pad 48 prec body).

Definition unsigned_text (mag base : Z) (upper : bool) (prec : Z) : list Z :=
  if (prec =? 0) && (mag =? 0) then [] else numeral 64 base upper mag.

(** What a directive stands for, with the arguments it leaves; [None] when it
    is no conversion. *)
Definition convert (string_at : Z -> list Z) (d : directive) (ap : va_list) : option (list Z * va_list) :=
  let v := va_slot ap (va_next ap) in
  let next := mk_va (va_slot ap) (S (va_next ap)) in
  let text sign body prec := Some (field sign body (d_width d) (d_zero d) prec, next) in
  let plain body := Some (pad 32 (d_width d) body, next) in
  let number base upper :=
    let mag := if d_lng d then u64 v else u32 v in text [] (unsigned_text mag base upper (d_prec d)) (d_prec d) in
  let c := d_conv d in
  if (c =? 100) || (c =? 105) then
    let v := if d_lng d then i64 v else i32 v in
    text (if v <? 0 then [45] else []) (unsigned_text (Z.abs v) 10 false (d_prec d)) (d_prec d)
  else if c =? 117 then number 10 false
  else if c =? 111 then number 8 false
  else if c =? 120 then number 16 false
  else if c =? 88 then number 16 true
  else if c =? 99 then plain [u8 v]
  else if c =? 115 then
    let s := if v =? 0 then [40; 110; 117; 108; 108; 41] else string_at v in
    plain (if d_prec d <? 0 then s else take (Z.to_nat (d_prec d)) s)
  else if c =? 112 then plain ([48; 120] ++ numeral 64 16 false (u64 v))
  else if c =? 37 then Some (pad 32 (d_width d) [37], ap)
  else None.

Fixpoint render (string_at : Z -> list Z) (fuel : nat) (p : list Z) (ap : va_list) : list Z * va_list :=
  match fuel, p with
  | S k, c :: p =>
      if negb (c =? 37) then let '(t, ap) := render string_at k p ap in (c :: t, ap)
      else if bool_decide (p = []) then ([37], ap)
      else
        let '(d, p, ap) := directive_of p ap in
        match convert string_at d ap with
        | Some (t, ap) => let '(t', ap) := render string_at k p ap in (t ++ t', ap)
        | None => ([37] ++ (if d_conv d =? 0 then [] else [d_conv d]) ++ p, ap)
        end
  | _, _ => ([], ap)
  end.
Definition rendered (string_at : Z -> list Z) (fmt : list Z) (ap : va_list) : list Z * va_list :=
  render string_at (length fmt) fmt ap.

(** Strings an int can measure. *)
Definition short_strings (string_at : Z -> list Z) : Prop := forall a, Z.of_nat (length (string_at a)) < 2 ^ 31.

(** ** Digits *)

Lemma digit_loop_length k dig base mag tmp : 2 <= base -> 0 <= mag < base ^ Z.of_nat k ->
  forall k', Z.of_nat (length (digit_loop k' dig base mag tmp)) <= Z.of_nat (length tmp) + Z.of_nat k.
Proof.
  intros Hb. revert mag tmp. induction k as [|k IH]; intros mag tmp Hm k'.
  - assert (mag = 0) by (change (base ^ Z.of_nat 0) with 1 in Hm; lia). subst. destruct k'; cbn; lia.
  - destruct k' as [|k']; cbn [digit_loop]; [lia|]. case_match; [lia|].
    etransitivity; [apply IH|rewrite length_app; cbn [length]; lia].
    rewrite Nat2Z.inj_succ, Z.pow_succ_r in Hm by lia. split; [apply Z.div_pos; lia|apply Z.div_lt_upper_bound; lia].
Qed.

Lemma digit_loop_app k dig base mag tmp : digit_loop k dig base mag tmp = tmp ++ digit_loop k dig base mag [].
Proof.
  revert mag tmp. induction k as [|k IH]; intros mag tmp; cbn [digit_loop]; [by rewrite app_nil_r|].
  case_match; [by rewrite app_nil_r|]. rewrite IH, (IH _ ([] ++ _)). by rewrite <- app_assoc.
Qed.

(** The digits fit the 24 bytes of the scratch arrays, and 16 in base 16. *)
Lemma u_to_digits_fits mag base upper : 8 <= base -> 0 <= mag < 2 ^ 64 ->
  Z.of_nat (length (u_to_digits mag base upper)) <= 22 /\
  (base = 16 -> Z.of_nat (length (u_to_digits mag base upper)) <= 16).
Proof.
  intros Hb Hm. unfold u_to_digits. rewrite length_reverse. destruct (Z.eqb_spec mag 0) as [->|Hz]; [cbn; lia|].
  split.
  - apply (digit_loop_length 22); [lia|]. pose proof (Z.pow_le_mono_l 8 base 22). lia.
  - intros ->. apply (digit_loop_length 16); lia.
Qed.

(** The value of a numeral, with the digit values of sscanf. *)
Definition numeral_value (base : Z) (l : list Z) : Z := foldl (fun acc c => acc * base + scan_digit c base) 0 l.
Definition is_numeral (base : Z) (l : list Z) : Prop := Forall (fun c => 0 <= scan_digit c base /\ isalnum c = true) l.

Lemma numeral_value_app base a b : 
  numeral_value base (a ++ b) = foldl (fun acc c => acc * base + scan_digit c base) (numeral_value base a) b.
Proof. apply foldl_app. Qed.

Lemma scan_digit_base c base v : scan_digit c 36 = v -> 0 <= v < base -> scan_digit c base = v.
Proof.
  intros E Hv. revert E. unfold scan_digit. repeat match goal with |- context [if ?b then _ else _] => destruct b eqn:? end; lia.
Qed.

Lemma digit_char base upper d : 2 <= base <= 16 -> 0 <= d < base ->
  let c := nth (Z.to_nat d) (if upper : bool then upperd else lower) 0 in
  scan_digit c base = d /\ isalnum c = true.
Proof.
  intros Hb Hd c. cut (scan_digit c 36 = d /\ isalnum c = true).
  { intros [E Ha]. split; [by apply scan_digit_base|done]. }
  assert (Hd' : d = 0 \/ d = 1 \/ d = 2 \/ d = 3 \/ d = 4 \/ d = 5 \/ d = 6 \/ d = 7 \/ d = 8 \/ d = 9 \/ d = 10 \/ d = 11
    \/ d = 12 \/ d = 13 \/ d = 14 \/ d = 15) by lia.
  subst c. destruct upper; repeat (destruct Hd' as [->|Hd']; [done|]); by subst d.
Qed.

Lemma digit_loop_value k upper base mag : 2 <= base <= 16 -> 0 <= mag < base ^ Z.of_nat k ->
  let l := reverse (digit_loop k (if upper : bool then upperd else lower) base mag []) in
  numeral_value base l = mag /\ is_numeral base l /\ (0 < mag -> l <> []).
Proof.
  intros Hb. revert mag. induction k as [|k IH]; intros mag Hm; cbn [digit_loop].
  - assert (mag = 0) by (change (base ^ Z.of_nat 0) with 1 in Hm; lia). subst. split; [done|]. split; [constructor|lia].
  - destruct (Z.eqb_spec mag 0) as [->|Hz]; [split; [done|]; split; [constructor|lia]|].
    rewrite Nat2Z.inj_succ, Z.pow_succ_r in Hm by lia.
    rewrite digit_loop_app, reverse_app. cbn [app].
    assert (Hq : 0 <= mag / base < base ^ Z.of_nat k) by (split; [apply Z.div_pos; lia|apply Z.div_lt_upper_bound; lia]).
    destruct (IH _ Hq) as (Hv & Hn & _).
    destruct (digit_char base upper (mag mod base) Hb ltac:(apply Z.mod_pos_bound; lia)) as [Hd Ha].
    change (reverse [?x]) with [x]. rewrite numeral_value_app, Hv. cbn [foldl]. rewrite Hd.
    split; [pose proof (Z.div_mod mag base); lia|]. split; [|by intros _ [? ?]%app_nil].
    apply Forall_app. split; [done|]. constructor; [|constructor]. rewrite Hd. split; [apply Z.mod_pos_bound; lia|done].
Qed.

(** The digits are a numeral of the magnitude. *)
Lemma u_to_digits_value mag base upper : 2 <= base <= 16 -> 0 <= mag < 2 ^ 64 ->
  numeral_value base (u_to_digits mag base upper) = mag /\ is_numeral base (u_to_digits mag base upper) /\
  u_to_digits mag base upper <> [].
Proof.
  intros Hb Hm. unfold u_to_digits. destruct (Z.eqb_spec mag 0) as [->|Hz].
  - change (digit_loop _ _ _ 0 [48]) with [48]. change (reverse [48]) with [48].
    destruct (digit_char base upper 0 Hb ltac:(lia)) as [Hd Ha]. assert (E : nth (Z.to_nat 0) (if upper then upperd else lower) 0 = 48) by by destruct upper.
    rewrite E in *. split; [unfold numeral_value; cbn [foldl]; lia|]. split; [|done]. constructor; [split; [lia|done]|constructor].
  - pose proof (Z.pow_le_mono_l 2 base 64 ltac:(lia)). destruct (digit_loop_value 64 upper base mag Hb) as (? & ? & ?); [lia|].
    split; [done|]. split; [done|]. apply H2. lia.
Qed.

Lemma digit_table upper d : 0 <= d < 16 -> nth (Z.to_nat d) (if upper : bool then upperd else lower) 0 = char_of_digit upper d.
Proof.
  intros Hd.
  assert (Hd' : d = 0 \/ d = 1 \/ d = 2 \/ d = 3 \/ d = 4 \/ d = 5 \/ d = 6 \/ d = 7 \/ d = 8 \/ d = 9 \/ d = 10 \/ d = 11
    \/ d = 12 \/ d = 13 \/ d = 14 \/ d = 15) by lia.
  destruct upper; repeat (destruct Hd' as [->|Hd']; [done|]); by subst d.
Qed.

Lemma digit_loop_numeral k upper base mag : 2 <= base <= 16 -> 0 < mag < base ^ Z.of_nat k ->
  reverse (digit_loop k (if upper : bool then upperd else lower) base mag []) = numeral k base upper mag.
Proof.
  intros Hb. revert mag. induction k as [|k IH]; intros mag Hm; [change (base ^ Z.of_nat 0) with 1 in Hm; lia|].
  cbn [digit_loop numeral]. rewrite (proj2 (Z.eqb_neq _ _)) by lia. rewrite digit_loop_app, reverse_app. cbn [app].
  change (reverse [?x]) with [x]. pose proof (Z.mod_pos_bound mag base ltac:(lia)). rewrite digit_table by lia. f_equal.
  rewrite Nat2Z.inj_succ, Z.pow_succ_r in Hm by lia. destruct (Z.ltb_spec mag base).
  - rewrite Z.div_small by lia. by destruct k.
  - apply IH. split; [apply Z.div_str_pos; lia|apply Z.div_lt_upper_bound; lia].
Qed.

(** The code's digits are the numeral. *)
Lemma u_to_digits_numeral mag base upper : 2 <= base <= 16 -> 0 <= mag < 2 ^ 64 -> u_to_digits mag base upper = numeral 64 base upper mag.
Proof.
  intros Hb Hm. unfold u_to_digits. destruct (Z.eqb_spec mag 0) as [->|Hz].
  - change (numeral 64 base upper 0) with ((if 0 <? base then [] else numeral 63 base upper (0 / base)) ++ [char_of_digit upper (0 mod base)]).
    rewrite (proj2 (Z.ltb_lt _ _)), Z.mod_0_l by lia. done.
  - pose proof (Z.pow_le_mono_l 2 base 64 ltac:(lia)). apply digit_loop_numeral; lia.
Qed.

(** *** The code's parser reads the directive *)

Lemma i32_mul_add x k d : i32 (i32 x * k + d) = i32 (x * k + d).
Proof.
  assert (E : i32 x * k + d = x * k + d + (- ((x + 2 ^ 31) / 2 ^ 32) * k) * 2 ^ 32).
  { unfold i32. pose proof (Z.div_mod (x + 2 ^ 31) (2 ^ 32)). nia. }
  rewrite E. unfold i32. f_equal. rewrite (Z.add_comm (_ + _ + _) (2 ^ 31)), Z.add_assoc, Z_mod_plus_full. f_equal. lia.
Qed.

Lemma read_number_run p : forall n, i32 n = n ->
  read_number n p = (i32 (n * 10 ^ Z.of_nat (length (run is_decimal p)) + decimal (run is_decimal p)), after is_decimal p).
Proof.
  unfold after. induction p as [|c p IH]; intros n Hn; cbn [read_number run]; [cbn; by rewrite Z.mul_1_r, Z.add_0_r, Hn|].
  change (isdigit c) with (is_decimal c). destruct (is_decimal c); [|cbn; by rewrite Z.mul_1_r, Z.add_0_r, Hn].
  rewrite IH by (apply i32_small, i32_range). cbn [length drop decimal]. f_equal. rewrite i32_mul_add. f_equal.
  rewrite Nat2Z.inj_succ, Z.pow_succ_r by lia. ring.
Qed.
Lemma skip_wide_run p : forall b, skip_wide b p = (b || negb (bool_decide (run is_wide p = [])), after is_wide p).
Proof.
  unfold after. induction p as [|c p IH]; intros b; cbn [skip_wide run]; [by rewrite bool_decide_eq_true_2, orb_false_r|].
  replace ((c =? 108) || (c =? 122) || (c =? 106) || (c =? 116)) with (is_wide c)
    by (unfold is_wide; cbn [existsb]; destruct (c =? 106), (c =? 108), (c =? 116), (c =? 122); done).
  destruct (is_wide c); [|by rewrite bool_decide_eq_true_2, orb_false_r]. rewrite IH. cbn. by rewrite orb_true_r.
Qed.
Lemma skip_h_run p : skip_h p = after (Z.eqb 104) p.
Proof.
  unfold after. induction p as [|c p IH]; cbn [skip_h run]; [done|]. rewrite (Z.eqb_sym c). by destruct (104 =? c).
Qed.
Lemma starts_hd c p : c <> 0 -> (hd 0 p =? c) = starts c p.
Proof. intros Hc. destruct p; [|done]. cbn [hd starts]. apply Z.eqb_neq. lia. Qed.
Lemma amount_read p ap :
  (if hd 0 p =? 42 then let '(w, ap) := va_int ap in (w, tail p, ap) else let '(w, p) := read_number 0 p in (w, p, ap)) = amount p ap.
Proof.
  unfold amount. rewrite starts_hd by done. destruct (starts 42 p) eqn:E; [by destruct p|].
  by rewrite read_number_run by done.
Qed.

Lemma read_directive_of p ap : read_directive p ap = directive_of p ap.
Proof.
  unfold read_directive, directive_of. rewrite (starts_hd 48) by done.
  assert (E : (if starts 48 p then (true, tail p) else (false, p)) = (starts 48 p, if starts 48 p then drop 1 p else p))
    by (destruct p; [done|]; cbn; by destruct (z =? 48)).
  rewrite E, amount_read. destruct (amount (if starts 48 p then drop 1 p else p) ap) as [[width p1] ap1].
  rewrite (starts_hd 46) by done. rewrite amount_read. change (tail p1) with (drop 1 p1).
  set (a1 := if starts 46 p1 then _ else _). set (a2 := if starts 46 p1 then _ else _).
  assert (Ea : a1 = a2).
  { subst a1 a2. destruct (starts 46 p1); [|done]. destruct (amount (drop 1 p1) ap1) as [[n p2] ap2]. do 2 f_equal.
    destruct (Z.ltb_spec n 0); lia. }
  rewrite Ea. destruct a2 as [[prec p2] ap2]. rewrite skip_wide_run, skip_h_run. by destruct (after _ _).
Qed.

(** ** The formatter renders

    Whatever the sink, formatting is putting the rendered bytes one by one. *)
Section Formatter.
Context {W : Type} `{Sys W} (string_at : Z -> list Z).
Implicit Types o : fmtout W.

Lemma out_bytes_app a b o : out_bytes (a ++ b) o = out_bytes a o ≫= out_bytes b.
Proof.
  revert o. induction a as [|c a IH]; intros o; [done|]. cbn [app out_bytes].
  destruct (out_ch c o) as [o'|]; [apply IH|done].
Qed.
Lemma out_rep_bytes c n o : out_rep c n o = out_bytes (replicate n c) o.
Proof.
  revert o. induction n as [|n IH]; intros o; [done|]. cbn [out_rep replicate out_bytes].
  destruct (out_ch c o); [apply IH|done].
Qed.

Lemma put_sign sign o : (if sign =? 0 then Some o else out_ch sign o) = out_bytes (if sign =? 0 then [] else [sign]) o.
Proof. destruct (sign =? 0); [done|]. cbn. by destruct (out_ch sign o). Qed.


Lemma emit_field_out sign body width zero prec o :
  -1 <= prec < 2 ^ 31 -> width < 2 ^ 31 -> Z.of_nat (length body) < 2 ^ 31 ->
  emit_field sign body width zero prec o = out_bytes (field (if sign =? 0 then [] else [sign]) body width zero prec) o.
Proof.
  intros Hp Hw Hb. unfold emit_field, field.
  rewrite (i32_small (Z.of_nat (length body))) by lia.
  set (zpad := if Z.of_nat (length body) <? prec then _ else 0).
  assert (Hz : zpad = Z.max 0 (prec - Z.of_nat (length body))).
  { subst zpad. destruct (Z.ltb_spec (Z.of_nat (length body)) prec); [|lia]. rewrite !u64_small; rewrite ?u64_small; lia. }
  clearbody zpad. set (s := if sign =? 0 then [] else [sign]).
  assert (Hs : Z.of_nat (length s) = if sign =? 0 then 0 else 1) by (subst s; by destruct (sign =? 0)).
  rewrite <- Hs. rewrite (u64_small (_ + zpad + _)) by (destruct (sign =? 0); lia).
  set (wpad := if _ && _ then _ else 0).
  assert (Hwp : Z.to_nat wpad = Z.to_nat (width - (Z.of_nat (length s) + zpad + Z.of_nat (length body)))).
  { subst wpad. destruct (Z.ltb_spec 0 width); [|cbn; lia]. cbn [andb].
    destruct (Z.ltb_spec (Z.of_nat (length s) + zpad + Z.of_nat (length body)) width); lia. }
  clearbody wpad.
  destruct zero, (Z.ltb_spec prec 0) as [Hn|Hn]; cbn [andb]; unfold pad;
    try (rewrite put_sign, out_bytes_app; fold s; destruct (out_bytes s o); [cbn [mbind option_bind]|done];
      rewrite out_rep_bytes, <- out_bytes_app; do 3 f_equal; lia);
    rewrite out_rep_bytes, out_bytes_app, !length_app, length_replicate;
    rewrite Hwp, Hz;
    (replace (Z.to_nat (width - Z.of_nat (length s + (Z.to_nat (prec - Z.of_nat (length body)) + length body))))
      with (Z.to_nat (width - (Z.of_nat (length s) + Z.max 0 (prec - Z.of_nat (length body)) + Z.of_nat (length body)))) by lia);
    (destruct (out_bytes (replicate _ 32) o) as [o1|]; [cbn [mbind option_bind]|done]);
    rewrite put_sign, out_bytes_app; fold s; (destruct (out_bytes s o1); [cbn [mbind option_bind]|done]);
    rewrite out_rep_bytes, out_bytes_app; do 3 f_equal; lia.
Qed.

Lemma pad_field w body : pad 32 w body = field [] body w false (-1).
Proof.
  unfold field. cbn [andb app]. f_equal. unfold pad at 1. by replace (Z.to_nat (-1 - Z.of_nat (length body))) with O by lia.
Qed.

Lemma emit_plain body width o : width < 2 ^ 31 -> Z.of_nat (length body) < 2 ^ 31 ->
  emit_field 0 body width false (-1) o = out_bytes (pad 32 width body) o.
Proof. intros. by rewrite emit_field_out, pad_field. Qed.

Lemma word_digits_short mag base upper prec : 8 <= base <= 16 -> 0 <= mag < 2 ^ 64 ->
  Z.of_nat (length (unsigned_text mag base upper prec)) < 2 ^ 31.
Proof.
  intros Hb Hm. unfold unsigned_text. rewrite <- u_to_digits_numeral by lia. pose proof (u_to_digits_fits mag base upper ltac:(lia) Hm) as [? _].
  case_match; cbn [length]; lia.
Qed.

Lemma emit_uint_out mag base upper sign width zero prec o :
  8 <= base <= 16 -> 0 <= mag < 2 ^ 64 -> -1 <= prec < 2 ^ 31 -> width < 2 ^ 31 ->
  emit_uint mag base upper sign width zero prec o =
  out_bytes (field (if sign =? 0 then [] else [sign]) (unsigned_text mag base upper prec) width zero prec) o.
Proof.
  intros Hb Hm Hp Hw. unfold emit_uint. rewrite u_to_digits_numeral by lia. fold (unsigned_text mag base upper prec).
  apply emit_field_out; [done|done|by apply word_digits_short].
Qed.


Lemma u8_i32 v : u8 (i32 v) = u8 v.
Proof.
  unfold u8, i32. rewrite Zminus_mod, Z.mod_mod_divide by (exists (2 ^ 24); lia).
  rewrite <- Zminus_mod. f_equal. lia.
Qed.

Lemma emit_signed_out v width zero prec o :
  - 2 ^ 63 <= v < 2 ^ 63 -> -1 <= prec < 2 ^ 31 -> width < 2 ^ 31 ->
  emit_signed v width zero prec o =
  out_bytes (field (if v <? 0 then [45] else []) (unsigned_text (Z.abs v) 10 false prec) width zero prec) o.
Proof.
  intros Hv Hp Hw. unfold emit_signed. destruct (Z.ltb_spec v 0).
  - replace (u64 (- u64 v)) with (Z.abs v); [apply emit_uint_out; lia|].
    unfold u64. rewrite <- (Z_mod_plus_full v 1), (Z.mod_small (v + _)) by lia.
    replace (- (v + 1 * 2 ^ 64)) with (Z.abs v + (-1) * 2 ^ 64) by lia. rewrite Z_mod_plus_full, Z.mod_small; lia.
  - rewrite u64_small, Z.abs_eq by lia. apply emit_uint_out; lia.
Qed.

(** *** The directive *)

Lemma read_number_range p : forall n, - 2 ^ 31 <= n < 2 ^ 31 -> - 2 ^ 31 <= (read_number n p).1 < 2 ^ 31.
Proof. induction p as [|c p IH]; intros n Hn; cbn; [done|]. case_match; [|done]. apply IH, i32_range. Qed.
Lemma read_number_length p n : (length (read_number n p).2 <= length p)%nat.
Proof. revert n. induction p as [|c p IH]; intros n; cbn; [done|]. case_match; cbn; [|lia]. etransitivity; [apply IH|lia]. Qed.
Lemma skip_wide_length p b : (length (skip_wide b p).2 <= length p)%nat.
Proof. revert b. induction p as [|c p IH]; intros b; cbn; [done|]. case_match; cbn; [|lia]. etransitivity; [apply IH|lia]. Qed.
Lemma skip_h_length p : (length (skip_h p) <= length p)%nat.
Proof. induction p as [|c p IH]; cbn; [done|]. case_match; cbn; lia. Qed.
Lemma tail_length (p : list Z) : (length (tail p) <= length p)%nat.
Proof. destruct p; cbn; lia. Qed.

(** What the parts of [read_directive] come from. *)
Lemma read_directive_spec p ap d p' ap' : read_directive p ap = (d, p', ap') ->
  -1 <= d_prec d < 2 ^ 31 /\ d_width d < 2 ^ 31 /\ (length p' <= length p)%nat /\ va_slot ap' = va_slot ap /\
  (va_next ap <= va_next ap' <= va_next ap + 2)%nat.
Proof.
  unfold read_directive, va_int, va_arg. intros E.
  set (zp := if hd 0 p =? 48 then _ else _) in E.
  assert (H0 : (length zp.2 <= length p)%nat) by (subst zp; destruct (hd 0 p =? 48); [apply tail_length|done]).
  destruct zp as [zero p0]. cbn in H0.
  set (wp := if hd 0 p0 =? 42 then _ else _) in E.
  assert (H1 : (length wp.1.2 <= length p0)%nat /\ - 2 ^ 31 <= wp.1.1 < 2 ^ 31 /\ va_slot wp.2 = va_slot ap /\ (va_next ap <= va_next wp.2 <= va_next ap + 1)%nat).
  { subst wp. destruct (hd 0 p0 =? 42); cbn.
    - split; [apply tail_length|]. split; [apply i32_range|]. split; [done|lia].
    - pose proof (read_number_range p0 0 ltac:(lia)). pose proof (read_number_length p0 0). destruct (read_number 0 p0). cbn in *.
      split; [done|]. split; [done|]. split; [done|lia]. }
  destruct wp as [[width p1] ap1]. cbn in H1. destruct H1 as (H1 & Hw & Hs1 & Hn1).
  set (pp := if hd 0 p1 =? 46 then _ else _) in E.
  assert (H2 : (length pp.1.2 <= length p1)%nat /\ -1 <= pp.1.1 < 2 ^ 31 /\ va_slot pp.2 = va_slot ap1 /\ (va_next ap1 <= va_next pp.2 <= va_next ap1 + 1)%nat).
  { subst pp. destruct (hd 0 p1 =? 46); [|cbn; split; [done|]; split; [lia|]; split; [done|lia]]. pose proof (tail_length p1).
    destruct (hd 0 (tail p1) =? 42); cbn.
    - pose proof (tail_length (tail p1)). pose proof (i32_range (va_slot ap1 (va_next ap1))).
      split; [lia|]. split; [match goal with |- context [?a <? 0] => destruct (Z.ltb_spec a 0) end; lia|]. split; [done|lia].
    - pose proof (read_number_range (tail p1) 0 ltac:(lia)). pose proof (read_number_length (tail p1) 0).
      destruct (read_number 0 (tail p1)). cbn in *. split; [lia|]. split; [match goal with |- context [?a <? 0] => destruct (Z.ltb_spec a 0) end; lia|]. split; [done|lia]. }
  destruct pp as [[prec p2] ap2]. cbn in H2. destruct H2 as (H2 & Hp & Hs2 & Hn2).
  pose proof (skip_wide_length p2 false). destruct (skip_wide false p2) as [lng p3]. cbn in *.
  injection E as <- <- <-. cbn. pose proof (skip_h_length p3). pose proof (tail_length (skip_h p3)).
  split; [done|]. split; [lia|]. split; [lia|]. split; [by rewrite Hs2|lia].
Qed.

Hypothesis Hshort : short_strings string_at.

Lemma conv_s_out v width prec o : -1 <= prec < 2 ^ 31 -> width < 2 ^ 31 ->
  conv_s string_at v width prec o =
  out_bytes (pad 32 width (let s := if v =? 0 then fmt_nullstr else string_at v in
    if prec <? 0 then s else take (Z.to_nat prec) s)) o.
Proof.
  intros Hp Hw. unfold conv_s. set (s := if v =? 0 then _ else _). cbv zeta.
  assert (Hs : Z.of_nat (length s) < 2 ^ 31) by (subst s; case_match; [cbn; lia|apply Hshort]).
  clearbody s. replace (take _ s) with (if prec <? 0 then s else take (Z.to_nat prec) s).
  - apply emit_plain; [done|]. case_match; [done|]. rewrite length_take. lia.
  - destruct (Z.ltb_spec prec 0).
    + rewrite (proj2 (Z.leb_gt 0 prec)) by lia. cbn [andb]. by rewrite Nat2Z.id, take_ge.
    + rewrite (proj2 (Z.leb_le 0 prec)) by lia. cbn [andb].
      destruct (Z.ltb_spec prec (Z.of_nat (length s))); [done|]. rewrite !take_ge by lia. done.
Qed.

Definition goes_on (k k' : nat) (p : list Z) : Prop := forall ap o,
  vformat string_at k p ap o = out_bytes (render string_at k' p ap).1 o ≫= fun o => Some (o, (render string_at k' p ap).2).

(** A piece put by [m], and the rest of the format. *)
Lemma piece_then_rest k k' p ap t o m : goes_on k k' p -> m = out_bytes t o ->
  (m ≫= vformat string_at k p ap) =
  out_bytes (t ++ (render string_at k' p ap).1) o ≫= fun o => Some (o, (render string_at k' p ap).2).
Proof.
  intros Hgo ->. rewrite out_bytes_app. destruct (out_bytes t o) as [o1|]; [|done]. cbn [mbind option_bind]. apply Hgo.
Qed.

Lemma conversion_renders k k' p d ap o : -1 <= d_prec d < 2 ^ 31 -> d_width d < 2 ^ 31 -> goes_on k k' p ->
  (let width := d_width d in let zero := d_zero d in let prec := d_prec d in
   let conv := d_conv d in
   let number base upper :=
     let '(v, ap) := va_unsigned (d_lng d) ap in
     emit_uint v base upper 0 width zero prec o ≫= vformat string_at k p ap in
   if (conv =? 100) || (conv =? 105) then
     let '(v, ap) := if d_lng d then (let '(v, ap) := va_arg ap in (i64 v, ap)) else va_int ap in
     emit_signed v width zero prec o ≫= vformat string_at k p ap
   else if conv =? 117 then number 10 false
   else if conv =? 111 then number 8 false
   else if conv =? 120 then number 16 false
   else if conv =? 88 then number 16 true
   else if conv =? 99 then
     let '(v, ap) := va_int ap in conv_c v width o ≫= vformat string_at k p ap
   else if conv =? 115 then
     let '(v, ap) := va_arg ap in conv_s string_at v width prec o ≫= vformat string_at k p ap
   else if conv =? 112 then
     let '(v, ap) := va_arg ap in conv_p v width o ≫= vformat string_at k p ap
   else if conv =? 37 then conv_pct width o ≫= vformat string_at k p ap
   else
     out_ch 37 o ≫= fun o => (if conv =? 0 then Some o else out_ch conv o) ≫= fun o =>
     out_bytes p o ≫= fun o => Some (o, ap)) =
  let '(t, ap') := match convert string_at d ap with
    | Some (t, ap) => let '(t', ap) := render string_at k' p ap in (t ++ t', ap)
    | None => ([37] ++ (if d_conv d =? 0 then [] else [d_conv d]) ++ p, ap)
    end in out_bytes t o ≫= fun o => Some (o, ap').
Proof.
  intros Hp Hw Hgo. cbv zeta. unfold convert. set (v := va_slot ap (va_next ap)).
  assert (Hnum : forall base upper, 8 <= base <= 16 ->
    (let '(v, ap) := va_unsigned (d_lng d) ap in
     emit_uint v base upper 0 (d_width d) (d_zero d) (d_prec d) o ≫= vformat string_at k p ap) =
    let '(t, ap') :=
      let '(t', ap'') := render string_at k' p (mk_va (va_slot ap) (S (va_next ap))) in
      (field [] (unsigned_text (if d_lng d then u64 v else u32 v) base upper (d_prec d)) (d_width d) (d_zero d) (d_prec d) ++ t', ap'') in
    out_bytes t o ≫= fun o => Some (o, ap')).
  { intros base upper Hb. unfold va_unsigned, va_uint, va_arg. fold v.
    pose proof (u64_range v). pose proof (u32_range v).
    destruct (d_lng d);
      [rewrite (piece_then_rest k k' p _ _ o _ Hgo (emit_uint_out (u64 v) base upper 0 _ _ _ o Hb ltac:(lia) Hp Hw))
      |rewrite (piece_then_rest k k' p _ _ o _ Hgo (emit_uint_out (u32 v) base upper 0 _ _ _ o Hb ltac:(lia) Hp Hw))];
      by destruct (render _ _ _ _). }
  destruct ((d_conv d =? 100) || (d_conv d =? 105)).
  { unfold va_int, va_arg. fold v. pose proof (i64_range v). pose proof (i32_range v).
    destruct (d_lng d);
      [rewrite (piece_then_rest k k' p _ _ o _ Hgo (emit_signed_out (i64 v) _ _ _ o ltac:(lia) Hp Hw))
      |rewrite (piece_then_rest k k' p _ _ o _ Hgo (emit_signed_out (i32 v) _ _ _ o ltac:(lia) Hp Hw))];
      by destruct (render _ _ _ _). }
  do 4 (match goal with |- (if ?b then _ else _) = _ => destruct b end; [by apply Hnum|]).
  destruct (d_conv d =? 99).
  { unfold va_int, va_arg. fold v. unfold conv_c.
    rewrite (piece_then_rest k k' p _ _ o _ Hgo (emit_plain [u8 (i32 v)] _ o Hw ltac:(cbn; lia))).
    by rewrite u8_i32; destruct (render _ _ _ _). }
  destruct (d_conv d =? 115).
  { unfold va_arg. fold v. rewrite (piece_then_rest k k' p _ _ o _ Hgo (conv_s_out v _ _ o Hp Hw)). by destruct (render _ _ _ _). }
  destruct (d_conv d =? 112).
  { unfold va_arg. fold v. unfold conv_p. pose proof (u_to_digits_fits (u64 v) 16 false ltac:(lia) (u64_range v)) as [Hf _].
    rewrite (u_to_digits_numeral (u64 v)) in * by (try apply u64_range; lia).
    rewrite (piece_then_rest k k' p _ _ o _ Hgo (emit_plain ([48; 120] ++ numeral 64 16 false (u64 v)) _ o Hw ltac:(rewrite length_app; cbn [length]; lia))).
    by destruct (render _ _ _ _). }
  destruct (d_conv d =? 37).
  { unfold conv_pct. rewrite (piece_then_rest k k' p _ _ o _ Hgo (emit_plain [37] _ o Hw ltac:(cbn; lia))).
    by destruct (render string_at k' p ap). }
  cbn [app out_bytes]. destruct (out_ch 37 o) as [o1|]; [|done]. cbn [mbind option_bind].
  destruct (d_conv d =? 0); [done|]. cbn [app out_bytes]. by destruct (out_ch (d_conv d) o1).
Qed.

Lemma vformat_renders k : forall k' p, (length p < k)%nat -> (length p <= k')%nat -> goes_on k k' p.
Proof.
  induction k as [|k IH]; intros k' p Hk Hk' ap o; [lia|].
  destruct p as [|c p]; [by destruct k'|]. destruct k' as [|k']; [cbn in Hk'; lia|]. cbn in Hk, Hk'. cbn [vformat render].
  destruct (c =? 37) eqn:Ec; cbn [negb].
  - destruct p as [|c1 p]; [cbn; by destruct (out_ch 37 o)|]. rewrite bool_decide_eq_false_2 by done.
    rewrite <- read_directive_of. destruct (read_directive (c1 :: p) ap) as [[d p1] ap1] eqn:E.
    destruct (read_directive_spec _ _ _ _ _ E) as (Hp & Hw & Hl & _).
    etransitivity; [apply (conversion_renders k k' p1 d ap1 o Hp Hw), IH; cbn in *; lia|].
    by destruct (convert _ d ap1) as [[t ap2]|]; [destruct (render _ k' p1 ap2)|].
  - pose proof (IH k' p ltac:(lia) ltac:(lia) ap) as Hgo. destruct (render string_at k' p ap) as [t ap1].
    cbn. destruct (out_ch c o) as [o1|]; [apply Hgo|done].
Qed.

(** Formatting puts the rendering and leaves the arguments it leaves. *)
Lemma format_renders fmt ap o :
  format string_at fmt ap o =
  out_bytes (rendered string_at fmt ap).1 o ≫= fun o => Some (o, (rendered string_at fmt ap).2).
Proof. apply vformat_renders; lia. Qed.

(** *** The buffer of snprintf *)

Lemma out_bytes_buffer l e n : 0 <= n < 2 ^ 64 -> forall b pos t, 0 <= pos <= Z.max 0 (n - 1) ->
  let pos' := Z.min (Z.max 0 (n - 1)) (pos + Z.of_nat (length l)) in
  exists b', out_bytes l (mk_out b n pos (u64 t) (-1) None e) = Some (mk_out b' n pos' (u64 (t + Z.of_nat (length l))) (-1) None e) /\
  forall i, b' i = if (pos <=? i) && (i <? pos') then nth (Z.to_nat (i - pos)) l 0 else b i.
Proof.
  intros Hn. induction l as [|c l IH]; intros b pos t Hpos pos'.
  - exists b. subst pos'. cbn [length] in *. rewrite Z.add_0_r, Z.min_r by lia. rewrite Z.add_0_r.
    split; [done|]. intros i. destruct (Z.leb_spec pos i), (Z.ltb_spec i pos); cbn [andb]; try done; lia.
  - cbn [out_bytes length] in *. unfold out_ch. cbn.
    assert (Ht : u64 (u64 t + 1) = u64 (t + 1)) by (unfold u64; by rewrite Zplus_mod_idemp_l).
    rewrite Ht, u64_small by lia.
    destruct (Z.ltb_spec (pos + 1) n).
    + destruct (IH (set_byte b pos c) (pos + 1) (t + 1) ltac:(lia)) as (b' & E & Hb').
      exists b'. cbn [mbind option_bind]. split.
      { etransitivity; [exact E|]. do 2 f_equal; [subst pos'; lia|f_equal; lia]. }
      intros i. rewrite Hb'. unfold set_byte. subst pos'.
      destruct (Z.leb_spec (pos + 1) i), (Z.leb_spec pos i), (Z.eqb_spec i pos); cbn [andb]; try lia.
      * replace (pos + Z.of_nat (S (length l))) with (pos + 1 + Z.of_nat (length l)) by lia. case_match; [|done].
        replace (Z.to_nat (i - pos)) with (S (Z.to_nat (i - (pos + 1)))) by lia. done.
      * subst i. rewrite (proj2 (Z.ltb_lt _ _)) by lia. by rewrite Z.sub_diag.
    + destruct (IH b pos (t + 1) ltac:(lia)) as (b' & E & Hb').
      exists b'. cbn [mbind option_bind]. split.
      { etransitivity; [exact E|]. do 2 f_equal; [subst pos'; lia|f_equal; lia]. }
      intros i. rewrite Hb'. subst pos'. assert (pos = Z.max 0 (n - 1)) by lia.
      destruct (Z.leb_spec pos i); cbn [andb]; [|done].
      rewrite !(proj2 (Z.ltb_ge _ _)) by lia. done.
Qed.

Lemma i32_u64 x : i32 (u64 x) = i32 x.
Proof.
  unfold i32, u64. rewrite Zplus_mod, Z.mod_mod_divide by (exists (2 ^ 32); lia). by rewrite <- Zplus_mod.
Qed.
End Formatter.

Lemma vsnprintf_stores {W} `{Sys W} string_at str n fmt ap (e : env W) :
  short_strings string_at -> 0 <= n < 2 ^ 64 ->
  let text := (rendered string_at fmt ap).1 in
  let stored := Z.min (n - 1) (Z.of_nat (length text)) in
  exists m, vsnprintf string_at str n fmt ap e = Some (i32 (Z.of_nat (length text)), m, (rendered string_at fmt ap).2) /\
  (forall i, 0 <= i < stored -> m i = nth (Z.to_nat i) text 0) /\
  (0 < n -> m stored = 0) /\
  (forall i, i < 0 \/ stored < i \/ n = 0 -> m i = str i).
Proof.
  intros Hs Hn text stored. unfold vsnprintf. rewrite format_renders by done. fold text.
  destruct (out_bytes_buffer text e n Hn str 0 0 ltac:(lia)) as (b & E & Hb).
  change (u64 0) with 0 in E. rewrite E. cbn [mbind option_bind]. unfold fmt_finish. cbn. rewrite Z.add_0_l in *.
  subst stored. destruct (Z.ltb_spec 0 n) as [H0|H0]; cbn; eexists; (split; [by rewrite i32_u64|]).
  - rewrite Z.max_r in * by lia. split; [|split].
    + intros i Hi. unfold set_byte. rewrite (proj2 (Z.eqb_neq _ _)), Hb, Z.sub_0_r by lia.
      by rewrite (proj2 (Z.leb_le _ _)), (proj2 (Z.ltb_lt _ _)) by lia.
    + intros _. unfold set_byte. by rewrite Z.eqb_refl.
    + intros i Hi. unfold set_byte. rewrite (proj2 (Z.eqb_neq _ _)), Hb by lia.
      destruct (Z.leb_spec 0 i); cbn [andb]; [|done]. by rewrite (proj2 (Z.ltb_ge _ _)) by lia.
  - split; [lia|]. split; [lia|]. intros i _. rewrite Hb. rewrite Z.max_l, Z.min_l by lia.
    destruct (Z.leb_spec 0 i); cbn [andb]; [|done]. by rewrite (proj2 (Z.ltb_ge _ _)) by lia.
Qed.

(** C37: vsnprintf (and so snprintf and sprintf) returns the length of the whole
    rendering, as an int; the rendering is defined apart from the code
    ([rendered]: C's grammar of a directive with the flag 0, its numerals,
    padding and precision, for d i u o x X c s p and %; with anything else,
    the other flags included, the rest of the format is copied).  The length
    does not depend on the buffer's size, and the arguments are left as the
    directives leave them.  It stores the rendering's first [n - 1] bytes and a NUL
    behind them, and no byte before the buffer, behind the NUL or beyond the
    buffer changes; with size 0 nothing is stored.  Strings printed are
    shorter than 2^31. *)
Theorem vsnprintf_contract {W} `{Sys W} string_at str n fmt ap (e : env W) :
  short_strings string_at -> 0 <= n < 2 ^ 64 ->
  let text := (rendered string_at fmt ap).1 in
  let stored := Z.min (n - 1) (Z.of_nat (length text)) in
  exists m, vsnprintf string_at str n fmt ap e = Some (i32 (Z.of_nat (length text)), m, (rendered string_at fmt ap).2) /\
  (forall i, 0 <= i < stored -> m i = nth (Z.to_nat i) text 0) /\
  (0 < n -> m stored = 0) /\
  (forall i, i < 0 \/ stored < i \/ n = 0 -> m i = str i).
Proof. apply vsnprintf_stores. Qed.

(** ** Reading back what was printed *)

(** Every field is spaces, the sign, zeros and the digits. *)
Lemma field_shape sign body width zero prec :
  exists n m, field sign body width zero prec = replicate n 32 ++ sign ++ replicate m 48 ++ body.
Proof. unfold field, pad. case_match; [by exists 0%nat; eexists|]. do 2 eexists. done. Qed.

Lemma scan_ws_blanks n l : scan_ws (replicate n 32 ++ l) = scan_ws l.
Proof. induction n; [done|]. cbn. done. Qed.
Lemma alnum_not_space c : isalnum c = true -> isspace c = false.
Proof. unfold isalnum, isalpha, isspace, isdigit, between. lia. Qed.

(** What follows a numeral does not belong to it. *)
Definition ends_numeral (rest : list Z) : Prop := match rest with [] => True | c :: _ => isalnum c = false end.
Lemma not_alnum_no_digit c base : isalnum c = false -> scan_digit c base = -1.
Proof. unfold isalnum, isalpha, isdigit, between, scan_digit. intros H. repeat case_match; lia. Qed.

Lemma u64_step x base d : u64 (u64 x * base + d) = u64 (x * base + d).
Proof. unfold u64. by rewrite Zplus_mod, Zmult_mod_idemp_l, <- Zplus_mod. Qed.

Lemma scan_digits_numeral base l rest : is_numeral base l -> ends_numeral rest -> forall a any,
  scan_digits base (-1) (u64 a) any (l ++ rest) =
  (u64 (foldl (fun acc c => acc * base + scan_digit c base) a l), any || negb (bool_decide (l = [])), rest).
Proof.
  intros Hl Hr. induction Hl as [|c l [Hc _] Hl IH]; intros a any; cbn [app foldl].
  - rewrite bool_decide_eq_true_2, orb_false_r by done. destruct rest as [|c rest]; [done|]. cbn.
    by rewrite not_alnum_no_digit.
  - cbn [scan_digits]. change (-1 =? 0) with false. cbn match. rewrite (proj2 (Z.ltb_ge _ _)) by done.
    change (spend (-1)) with (-1). rewrite u64_step, IH. by rewrite orb_true_r.
Qed.

Lemma numeral_zeros base m l : numeral_value base (replicate m 48 ++ l) = numeral_value base l \/ base <= 0.
Proof.
  destruct (Z.le_gt_cases base 0); [by right|left]. unfold numeral_value. rewrite foldl_app. f_equal.
  assert (E : scan_digit 48 base = 0) by (unfold scan_digit; cbn; by rewrite (proj2 (Z.ltb_lt _ _))).
  induction m; [done|]. cbn [replicate foldl]. rewrite E. done.
Qed.
Lemma is_numeral_zeros base m l : 0 < base -> is_numeral base l -> is_numeral base (replicate m 48 ++ l).
Proof.
  intros Hb Hl. apply Forall_app. split; [|done]. apply Forall_replicate.
  unfold scan_digit. cbn. by rewrite (proj2 (Z.ltb_lt _ _)).
Qed.

(** A numeral of base 8, 10 or 16 with a sign, read without a width. *)
Lemma scan_int_numeral base (neg : bool) l rest : base = 8 \/ base = 10 \/ base = 16 -> is_numeral base l -> l <> [] -> ends_numeral rest ->
  scan_int base (-1) ((if neg then [45] else []) ++ l ++ rest) = Some (neg, u64 (numeral_value base l), rest).
Proof.
  intros Hb Hl Hne Hr. unfold scan_int. change (negb (-1 =? 0)) with true. cbn [andb].
  assert (Hhd : exists c l', l = c :: l' /\ isalnum c = true).
  { destruct l as [|c l']; [done|]. exists c, l'. split; [done|]. by inversion_clear Hl as [|? ? [? ?]]. }
  destruct Hhd as (c & l' & -> & Hc).
  set (stp := if (_ =? 43) || _ then _ else _).
  assert (Hs : stp = (neg, (c :: l') ++ rest, -1)).
  { subst stp. destruct neg; [done|]. cbn. replace ((c =? 43) || (c =? 45)) with false; [done|].
    revert Hc. unfold isalnum, isalpha, isdigit, between. lia. }
  rewrite Hs. clear Hs stp.
  assert (Hx : (nth 1 ((c :: l') ++ rest) 0 =? 120) || (nth 1 ((c :: l') ++ rest) 0 =? 88) = false \/ base <> 16).
  { destruct (Z.eq_dec base 16) as [->|]; [left|by right]. inversion_clear Hl as [|? ? _ Hl'].
    destruct l' as [|c' l'].
    - cbn. destruct rest as [|c' rest]; [done|]. cbn in *. revert Hr. unfold isalnum, isalpha, isdigit, between. lia.
    - inversion_clear Hl' as [|? ? [Hd _] _]. cbn. destruct (Z.eqb_spec c' 120) as [->|]; [done|].
      by destruct (Z.eqb_spec c' 88) as [->|]. }
  pose proof (scan_digits_numeral base _ _ Hl Hr 0 false) as E. change (u64 0) with 0 in E.
  rewrite (proj2 (Z.eqb_neq base 0)) by lia. destruct (Z.eqb_spec base 16) as [->|H16].
  - destruct Hx as [Hx|]; [|done]. rewrite Hx, andb_false_r. cbn [andb]. rewrite E. done.
  - rewrite E. done.
Qed.

Lemma rendered_directive string_at spec ap d ap' t ap'' :
  directive_of spec ap = (d, [], ap') -> convert string_at d ap' = Some (t, ap'') ->
  (rendered string_at (37 :: spec) ap).1 = t.
Proof.
  intros E C. unfold rendered. cbn [length render]. change (negb (37 =? 37)) with false. cbn match.
  destruct spec as [|c spec].
  - cbn in E. injection E as <- <-. discriminate C.
  - rewrite bool_decide_eq_false_2 by done. rewrite E, C. by destruct (length (c :: spec)); cbn; rewrite app_nil_r.
Qed.

Lemma i64_u64 x : i64 (u64 x) = i64 x.
Proof. unfold i64, u64. by rewrite Zplus_mod_idemp_l. Qed.
Lemma i32_u32 x : i32 (u32 x) = i32 x.
Proof. unfold i32, u32. by rewrite Zplus_mod_idemp_l. Qed.

(** The number sscanf stores for the sign and magnitude of [v]. *)
Lemma scanned_signed (v : Z) : - 2 ^ 63 <= v < 2 ^ 63 ->
  i64 (if v <? 0 then u64 (- i64 (u64 (Z.abs v))) else u64 (Z.abs v)) = v.
Proof.
  intros Hv. destruct (Z.ltb_spec v 0).
  - rewrite !i64_u64, Z.abs_neq by lia. destruct (Z.eq_dec v (- 2 ^ 63)) as [->|]; [done|].
    rewrite (i64_small (- v)), Z.opp_involutive, i64_small by lia. done.
  - rewrite i64_u64, Z.abs_eq, i64_small by lia. done.
Qed.
Lemma scanned_int (v : Z) : - 2 ^ 31 <= v < 2 ^ 31 ->
  i32 (if v <? 0 then u64 (- i64 (u64 (Z.abs v))) else u64 (Z.abs v)) = v.
Proof.
  intros Hv. destruct (Z.ltb_spec v 0).
  - rewrite i32_u64, i64_u64, Z.abs_neq, i64_small, Z.opp_involutive, i32_small by lia. done.
  - rewrite i32_u64, Z.abs_eq, i32_small by lia. done.
Qed.

(** sscanf with one integer conversion on a field and what follows it. *)
Lemma sscanf_field {D} `{Double D} conv (lng neg : bool) base l n rest args :
  conv = 100 /\ base = 10 \/ conv = 117 /\ base = 10 \/ conv = 111 /\ base = 8 \/ conv = 120 /\ base = 16 ->
  is_numeral base l -> l <> [] -> ends_numeral rest ->
  let uval := if neg then u64 (- i64 (u64 (numeral_value base l))) else u64 (numeral_value base l) in
  sscanf (replicate n 32 ++ (if neg then [45] else []) ++ l ++ rest) ([37] ++ (if lng then [108] else []) ++ [conv]) args =
  Some (1, [if lng then Slong (args 0%nat) (i64 uval) else Sint (args 0%nat) (i32 uval)]).
Proof.
  intros Hc Hl Hne Hr uval.
  assert (Hb : base = 8 \/ base = 10 \/ base = 16) by lia.
  pose proof (scan_int_numeral base neg l rest Hb Hl Hne Hr) as E.
  assert (Hws : scan_ws (replicate n 32 ++ (if neg then [45] else []) ++ l ++ rest) = (if neg then [45] else []) ++ l ++ rest).
  { rewrite scan_ws_blanks. destruct neg; [done|]. destruct l as [|c l]; [done|]. cbn.
    inversion_clear Hl as [|? ? [_ Ha] _]. by rewrite (alnum_not_space _ Ha). }
  unfold sscanf.
  destruct Hc as [[-> ->]|[[-> ->]|[[-> ->]|[-> ->]]]]; destruct lng; cbn; rewrite Hws, E; cbn; done.
Qed.

(** The same on the field of a magnitude. *)
Lemma field_scans {D} `{Double D} conv (lng neg upper : bool) base mag width zero prec rest args :
  conv = 100 /\ base = 10 \/ conv = 117 /\ base = 10 \/ conv = 111 /\ base = 8 \/ conv = 120 /\ base = 16 ->
  0 <= mag < 2 ^ 64 -> (prec = 0 -> mag <> 0) -> ends_numeral rest ->
  let uval := if neg then u64 (- i64 (u64 mag)) else u64 mag in
  sscanf (field (if neg then [45] else []) (unsigned_text mag base upper prec) width zero prec ++ rest)
    ([37] ++ (if lng then [108] else []) ++ [conv]) args =
  Some (1, [if lng then Slong (args 0%nat) (i64 uval) else Sint (args 0%nat) (i32 uval)]).
Proof.
  intros Hc Hm Hp Hr. cbv zeta.
  replace (unsigned_text mag base upper prec) with (u_to_digits mag base upper).
  2: { rewrite u_to_digits_numeral by lia. unfold unsigned_text. destruct (Z.eqb_spec prec 0), (Z.eqb_spec mag 0); cbn [andb]; try done. by destruct Hp. }
  destruct (field_shape (if neg then [45] else []) (u_to_digits mag base upper) width zero prec) as (n & m & ->).
  destruct (u_to_digits_value mag base upper ltac:(lia) Hm) as (Hv & Hn & Hne).
  rewrite <- !app_assoc, (app_assoc (replicate m 48)).
  rewrite (sscanf_field conv lng neg base (replicate m 48 ++ u_to_digits mag base upper)); [|done|apply is_numeral_zeros; [lia|done]|by intros [? ?]%app_nil|done].
  destruct (numeral_zeros base m (u_to_digits mag base upper)) as [->|]; [by rewrite Hv|lia].
Qed.

(** The conversion sscanf reads a printed conversion back with: [d] for [i],
    [x] for [X]. *)
Definition scan_conv (c : Z) : Z := if c =? 105 then 100 else if c =? 88 then 120 else c.
Definition integer_conv (c : Z) : Prop := In c [100; 105; 117; 111; 120; 88].

(** On the rendering. *)
Lemma rendering_scans {D} `{Double D} string_at spec ap d ap' args rest :
  directive_of spec ap = (d, [], ap') -> integer_conv (d_conv d) ->
  let arg := va_slot ap' (va_next ap') in
  let value := if d_lng d then i64 arg else i32 arg in
  (d_prec d = 0 -> value <> 0) -> ends_numeral rest ->
  sscanf ((rendered string_at (37 :: spec) ap).1 ++ rest) ([37] ++ (if d_lng d then [108] else []) ++ [scan_conv (d_conv d)]) args =
  Some (1, [if d_lng d then Slong (args 0%nat) value else Sint (args 0%nat) value]).
Proof.
  intros E Hc arg value Hp Hr.
  pose proof (i64_range arg). pose proof (i32_range arg). pose proof (u64_range arg). pose proof (u32_range arg).
  assert (Hu : d_prec d = 0 -> (if d_lng d then u64 arg else u32 arg) <> 0).
  { intros Hz Hw. apply (Hp Hz). subst value. destruct (d_lng d); [by rewrite <- i64_u64, Hw|by rewrite <- i32_u32, Hw]. }
  assert (Hn : forall base upper conv, conv = 117 /\ base = 10 \/ conv = 111 /\ base = 8 \/ conv = 120 /\ base = 16 ->
    sscanf (field [] (unsigned_text (if d_lng d then u64 arg else u32 arg) base upper (d_prec d)) (d_width d) (d_zero d) (d_prec d) ++ rest)
      ([37] ++ (if d_lng d then [108] else []) ++ [conv]) args =
    Some (1, [if d_lng d then Slong (args 0%nat) value else Sint (args 0%nat) value])).
  { intros base upper conv Hb. pose proof (field_scans conv (d_lng d) false upper base (if d_lng d then u64 arg else u32 arg)
      (d_width d) (d_zero d) (d_prec d) rest args ltac:(by right) ltac:(destruct (d_lng d); lia) Hu Hr) as F.
    cbv zeta in F. etransitivity; [exact F|]. subst value. destruct (d_lng d); [by rewrite !i64_u64|by rewrite i32_u64, i32_u32]. }
  assert (Hs : sscanf (field (if value <? 0 then [45] else []) (unsigned_text (Z.abs value) 10 false (d_prec d)) (d_width d) (d_zero d) (d_prec d) ++ rest)
      ([37] ++ (if d_lng d then [108] else []) ++ [100]) args =
    Some (1, [if d_lng d then Slong (args 0%nat) value else Sint (args 0%nat) value])).
  { pose proof (field_scans 100 (d_lng d) (value <? 0) false 10 (Z.abs value) (d_width d) (d_zero d) (d_prec d) rest args
      ltac:(by left) ltac:(subst value; destruct (d_lng d); lia) ltac:(lia) Hr) as F.
    etransitivity; [exact F|]. subst value. destruct (d_lng d); [by rewrite scanned_signed|by rewrite scanned_int]. }
  destruct Hc as [Hc|[Hc|[Hc|[Hc|[Hc|[Hc|[]]]]]]]; symmetry in Hc;
    (erewrite rendered_directive; [|done|unfold convert; rewrite Hc; cbn; done]); rewrite Hc; fold arg value;
    [exact Hs|exact Hs|apply Hn; auto..].
Qed.

Lemma bytes_of_text m (t : list Z) : (forall i, 0 <= i < Z.of_nat (length t) -> m i = nth (Z.to_nat i) t 0) ->
  bytes_of m (Z.of_nat (length t)) = t.
Proof.
  intros Hm. apply list_eq. intros i. unfold bytes_of. rewrite list_lookup_fmap.
  destruct (Nat.lt_ge_cases i (length t)) as [Hi|Hi].
  - rewrite lookup_seqZ_lt by lia. cbn. rewrite Z.add_0_l, Hm, Nat2Z.id by lia.
    destruct (nth_lookup_or_length t i 0) as [->|]; [done|lia].
  - rewrite lookup_seqZ_ge by lia. cbn. symmetry. by apply lookup_ge_None_2.
Qed.

(** C38: What snprintf prints for %d, %i, %u, %o, %x or %X into a buffer it
    fits, with any zero flag, width, precision and length modifier, sscanf
    reads back: %i as %d, %X as %x (which this sscanf does not know), the
    others with the same conversion.  It stores the argument's value, through
    padding, sign and leading zeros, whatever follows the number as long as
    its first byte is not a letter or digit.  Nothing is said of a zero with
    precision 0, which prints no digit, nor of scanning with %i, for which a
    leading zero means octal. *)
Theorem print_scan_roundtrip {W D} `{Sys W} `{Double D} string_at str n spec ap (e : env W) d ap' args rest :
  short_strings string_at -> directive_of spec ap = (d, [], ap') -> integer_conv (d_conv d) ->
  let arg := va_slot ap' (va_next ap') in
  let value := if d_lng d then i64 arg else i32 arg in
  (d_prec d = 0 -> value <> 0) -> ends_numeral rest ->
  let len := Z.of_nat (length (rendered string_at (37 :: spec) ap).1) in
  len < n <= 2 ^ 31 ->
  exists m ap'', vsnprintf string_at str n (37 :: spec) ap e = Some (len, m, ap'') /\
  sscanf (bytes_of m len ++ rest) ([37] ++ (if d_lng d then [108] else []) ++ [scan_conv (d_conv d)]) args =
  Some (1, [if d_lng d then Slong (args 0%nat) value else Sint (args 0%nat) value]).
Proof.
  intros Hs E Hc arg value Hp Hr len Hn.
  destruct (vsnprintf_stores string_at str n (37 :: spec) ap e Hs ltac:(lia)) as (m & V & Hm & _).
  exists m. eexists. rewrite V. fold len. rewrite i32_small by lia. split; [done|].
  subst len. rewrite bytes_of_text by (intros; apply Hm; lia). by apply (rendering_scans string_at spec ap d ap').
Qed.

(** ** Streams: output *)

(** What the library relies on: [output] is what has been written to a
    descriptor, [input] what is still to be read from it.  A write takes a
    prefix of the bytes and returns its length, or takes nothing and returns
    an error; a read returns a prefix of the input, nothing only at its end. *)
Class SysLaws {W : Type} `{Sys W} (output input : Z -> W -> list Z) : Prop := {
  write_law fd_ b w : let '(r, w') := sys_write fd_ b w in
    exists n, (n <= length b)%nat /\ output fd_ w' = output fd_ w ++ take n b /\
    (r = Z.of_nat n \/ n = O /\ -4095 <= i64 r <= -1);
  read_law fd_ n w : 0 < n -> let '(r, b, w') := sys_read fd_ n w in
    -4095 <= i64 r <= -1 /\ input fd_ w' = input fd_ w \/
    r = Z.of_nat (length b) /\ r <= n /\ input fd_ w = b ++ input fd_ w' /\ (b = [] -> input fd_ w' = []);
  input_bytes fd_ w : Forall (fun c => 0 <= c < 256) (input fd_ w);
  tty_law fd_ d w : output d (sys_tcgetattr fd_ w).2 = output d w }.

Lemma has_flag x k m : 0 <= k -> m = 2 ^ k -> has x m = Z.testbit x k.
Proof. intros Hk ->. by apply has_bit. Qed.

Section Output.
Context {W : Type} `{Sys W} {output input : Z -> W -> list Z} `{!SysLaws output input}.
Implicit Types (f : FILE) (e : env W).

Definition err f : bool := has (flags f) F_ERR.
Definition unbuffered f : bool := has (flags f) F_UNBUF.
Definition pending f : list Z := take (Z.to_nat (bufpos f)) (data f).

(** A buffered stream between writes. *)
Definition stream_ok f : Prop :=
  0 < bufcap f < 2 ^ 62 /\ Z.of_nat (length (data f)) = bufcap f /\ 0 <= bufpos f <= bufcap f /\
  (mode f = 2 \/ bufpos f = 0) /\ unbuffered f = false.

(** From [f], [e] to [f'], [e'] the bytes [b] were put: unless the error flag
    is up they are, after what was there before, on the descriptor or in the
    buffer. *)
Definition delivers (b : list Z) f e f' e' : Prop :=
  fd f' = fd f /\ stream_ok f' /\ (err f = true -> err f' = true) /\
  (err f' = false -> output (fd f) (e_world e') ++ pending f' = output (fd f) (e_world e) ++ pending f ++ b).

Lemma delivers_refl f e : stream_ok f -> delivers [] f e f e.
Proof. intros. split; [done|]. split; [done|]. split; [done|]. by rewrite app_nil_r. Qed.
Lemma delivers_trans a b f e f1 e1 f2 e2 : delivers a f e f1 e1 -> delivers b f1 e1 f2 e2 -> delivers (a ++ b) f e f2 e2.
Proof.
  intros (E1 & _ & P1 & D1) (E2 & K & P2 & D2). split; [congruence|]. split; [done|]. split; [auto|]. intros He.
  rewrite E1 in D2. rewrite (D2 He), (app_assoc _ (pending f1)), D1; [by rewrite <- !app_assoc|].
  destruct (err f1); [|done]. by rewrite P2 in He.
Qed.

Lemma syscall_ret_ok r e : 0 <= r < 2 ^ 62 -> syscall_ret r e = (r, e).
Proof.
  intros Hr. unfold syscall_ret. rewrite (u64_small r) by lia. change (u64 (-4096)) with (2 ^ 64 - 4096).
  rewrite (proj2 (Z.ltb_ge _ _)), i64_small by lia. done.
Qed.
Lemma syscall_ret_err r e : -4095 <= i64 r <= -1 -> exists e', syscall_ret r e = (-1, e') /\ e_world e' = e_world e.
Proof.
  intros Hr. unfold syscall_ret. change (u64 (-4096)) with (2 ^ 64 - 4096).
  assert (2 ^ 64 - 4096 < u64 r).
  { unfold i64, u64 in *. pose proof (Z.mod_pos_bound (r + 2 ^ 63) (2 ^ 64)). pose proof (Z.mod_pos_bound r (2 ^ 64)).
    pose proof (Z.div_mod r (2 ^ 64)). pose proof (Z.div_mod (r + 2 ^ 63) (2 ^ 64)). lia. }
  rewrite (proj2 (Z.ltb_lt _ _)) by done. by eexists.
Qed.

Lemma write_spec fd_ b e : Z.of_nat (length b) < 2 ^ 62 ->
  let '(n, e') := write fd_ b e in exists k, (k <= length b)%nat /\
  output fd_ (e_world e') = output fd_ (e_world e) ++ take k b /\ (n = Z.of_nat k \/ n = -1 /\ k = O).
Proof.
  intros Hb. unfold write. pose proof (write_law fd_ b (e_world e)) as L.
  destruct (sys_write fd_ b (e_world e)) as [r w]. destruct L as (k & Hk & Ho & [->|[-> Hr]]).
  - rewrite syscall_ret_ok by lia. exists k. auto.
  - destruct (syscall_ret_err r (e <| e_world := w |>) Hr) as (e' & -> & He). exists O. rewrite He. auto with lia.
Qed.

Lemma flush_spec f e : stream_ok f -> let '(rc, f', e') := flush_wbuf f e in
  delivers [] f e f' e' /\ mode f' = mode f /\ bufcap f' = bufcap f /\ (rc = 0 /\ bufpos f' = 0 \/ rc = -1 /\ err f' = true).
Proof.
  intros (Hc & Hd & Hp & Hm & Hu). unfold flush_wbuf. destruct (Z.ltb_spec 0 (bufpos f)) as [H0|H0].
  - pose proof (write_spec (fd f) (slice (data f) 0 (bufpos f)) e) as L.
    assert (Hl : length (slice (data f) 0 (bufpos f)) = Z.to_nat (bufpos f))
      by (unfold slice; rewrite drop_0, length_take; lia).
    rewrite Hl in L. destruct (write (fd f) _ e) as [n e']. destruct (L ltac:(lia)) as (k & Hk & Ho & Hn).
    destruct (Z.eqb_spec n (bufpos f)) as [->|Hne]; cbn [negb].
    + assert (k = Z.to_nat (bufpos f)) as -> by lia.
      split; [|cbn; split; [done|]; split; [done|by left]].
      split; [done|]. split; [repeat split; cbn; try lia; done|]. split; [done|]. intros _.
      cbn. unfold pending. cbn. rewrite take_0, !app_nil_r, Ho. unfold slice. by rewrite drop_0, take_take, Nat.min_id.
    + assert (He : err (f <| flags := Z.lor (flags f) F_ERR |>) = true).
      { unfold err. cbn. rewrite (has_flag _ 3), Z.lor_spec by done. by rewrite orb_true_r. }
      split; [|cbn; split; [done|]; split; [done|]; by right].
      split; [done|]. split; [|split; [done|by rewrite He]].
      repeat split; cbn; try lia; try done. revert Hu. unfold unbuffered. cbn.
      rewrite !(has_flag _ 4), Z.lor_spec by done. by rewrite orb_false_r.
  - split; [by apply delivers_refl|]. split; [done|]. split; [done|]. left. split; [done|lia].
Qed.

(** *** fwrite *)

Lemma slice_split l a n m : 0 <= a -> 0 <= n <= m -> slice l a m = slice l a n ++ slice l (a + n) (m - n).
Proof.
  intros. unfold slice. rewrite <- (take_drop (Z.to_nat n) (take (Z.to_nat m) _)). rewrite take_take, Nat.min_l by lia.
  f_equal. rewrite skipn_firstn_comm, drop_drop. f_equal; [lia|]. f_equal. lia.
Qed.

(** A chunk that fits goes behind the pending bytes. *)
Lemma chunk_delivers f e b : stream_ok f -> mode f = 2 -> bufpos f + Z.of_nat (length b) <= bufcap f ->
  delivers b f e (f <| data := splice (data f) (bufpos f) b |> <| bufpos := bufpos f + Z.of_nat (length b) |>) e.
Proof.
  intros (Hc & Hd & Hp & Hm & Hu) H2 Hb. split; [done|]. split; [|split; [done|]].
  - split; [done|]. cbn. split.
    + unfold splice. rewrite !length_app, length_take, length_drop. lia.
    + split; [lia|]. split; [by left|done].
  - intros _. f_equal. unfold pending. cbn. unfold splice. rewrite app_assoc, take_app_le.
    + rewrite take_ge; [done|]. rewrite length_app, length_take. lia.
    + rewrite length_app, length_take. lia.
Qed.

Lemma fwrite_loop_spec inp total fuel : forall put f e, stream_ok f -> mode f = 2 ->
  0 <= put <= total -> total <= Z.of_nat (length inp) -> total < 2 ^ 64 -> (Z.to_nat (total - put) < fuel)%nat ->
  exists put' f' e', fwrite_loop fuel inp total put f e = Some (put', f', e') /\
  delivers (slice inp put (total - put)) f e f' e' /\ 0 <= put' <= total /\ (put' = total \/ err f' = true).
Proof.
  induction fuel as [|k IH]; intros put f e Hok H2 Hput Htot Hmax Hfuel; [lia|]. cbn [fwrite_loop].
  destruct (Z.ltb_spec put total) as [Hlt|Hge].
  2: { exists put, f, e. split; [done|]. replace (total - put) with 0 by lia. split; [by apply delivers_refl|].
       split; [lia|]. left. lia. }
  set (fl := if bufcap f - bufpos f <=? 0 then flush_wbuf f e else (0, f, e)).
  assert (Hfl : delivers [] f e fl.1.2 fl.2 /\ mode fl.1.2 = 2 /\ bufcap fl.1.2 = bufcap f /\
    (fl.1.1 = 0 /\ bufpos fl.1.2 < bufcap fl.1.2 \/ fl.1.1 <> 0 /\ err fl.1.2 = true)).
  { pose proof (flush_spec f e Hok) as Hf. subst fl. destruct (Z.leb_spec (bufcap f - bufpos f) 0).
    - destruct (flush_wbuf f e) as [[rc f1] e1]. destruct Hf as (D & M & C & R). cbn. split; [done|]. split; [congruence|].
      split; [done|]. destruct Hok as ((? & ?) & _). destruct R as [[-> ->]|[-> ?]]; [left; split; [done|lia]|right; split; [lia|done]].
    - cbn. split; [by apply delivers_refl|]. split; [done|]. split; [done|]. left. split; [done|lia]. }
  destruct fl as [[rc f1] e1]. cbn in Hfl. destruct Hfl as (D & M & C & R).
  destruct (Z.eqb_spec rc 0) as [->|Hrc]; cbn [negb].
  2: { destruct R as [[-> _]|[_ R]]; [done|]. exists put, f1, e1. split; [done|]. split; [|split; [lia|by right]].
       destruct D as (? & ? & ? & _). split; [done|]. split; [done|]. split; [done|]. by rewrite R. }
  destruct R as [[_ R]|[? _]]; [|done]. pose proof (proj1 (proj2 D)) as Hok1.
  set (chunk := if _ <? _ then total - put else bufcap f1 - bufpos f1).
  assert (Hch : 0 < chunk <= total - put /\ chunk <= bufcap f1 - bufpos f1).
  { destruct Hok1 as (? & ? & ? & _). subst chunk. rewrite u64_small by lia.
    destruct (Z.ltb_spec (total - put) (bufcap f1 - bufpos f1)); lia. }
  assert (Hlen : Z.of_nat (length (slice inp put chunk)) = chunk)
    by (unfold slice; rewrite length_take, length_drop; lia).
  pose proof (chunk_delivers f1 e1 (slice inp put chunk) Hok1 M ltac:(lia)) as D1. rewrite Hlen in D1.
  destruct (IH (put + chunk) _ e1 (proj1 (proj2 D1)) M ltac:(lia) Htot Hmax ltac:(lia)) as (put' & f' & e' & E & D' & Hp' & R').
  exists put', f', e'. split; [exact E|]. split; [|by split].
  rewrite (slice_split inp put chunk) by lia. replace (total - put - chunk) with (total - (put + chunk)) by lia.
  apply (delivers_trans _ _ _ _ _ _ _ _ D) in D1. exact (delivers_trans _ _ _ _ _ _ _ _ D1 D').
Qed.

Lemma decide_delivers f e : stream_ok f -> let '(f', e') := decide_buffering f e in delivers [] f e f' e'.
Proof.
  intros Hok. unfold decide_buffering, isatty. pose proof (fun d => tty_law (fd f) d (e_world e)) as L.
  destruct (sys_tcgetattr (fd f) (e_world e)) as [r w]. cbn in L.
  destruct (syscall_ret r _) as [n e1] eqn:E.
  assert (He : e_world e1 = w) by (unfold syscall_ret in E; case_match; by injection E as <- <-).
  destruct Hok as (Hc & Hd & Hp & Hm & Hu). unfold unbuffered, err in *.
  rewrite (has_flag _ 4) in Hu by done.
  destruct (i32 n =? 0); (split; [done|]; split;
    [repeat split; cbn; try done; try lia; unfold unbuffered; cbn; rewrite (has_flag _ 4) by done; unfold clr; rewrite Z.ldiff_spec, ?Z.lor_spec, Hu; done|];
    cbn; unfold err; cbn; rewrite !(has_flag _ 3) by done; unfold clr; rewrite Z.ldiff_spec, ?Z.lor_spec; split;
    [by intros ->|intros _; cbn; rewrite ?He, L, app_nil_r; done]).
Qed.

Lemma settle f e : stream_ok f ->
  let '(f', e') := if has (flags f) F_PENDING then decide_buffering f e else (f, e) in delivers [] f e f' e'.
Proof. intros Hok. destruct (has (flags f) F_PENDING); [by apply decide_delivers|by apply delivers_refl]. Qed.

Lemma write_mode f : stream_ok f -> stream_ok (f <| mode := 2 |>).
Proof. intros (? & ? & ? & _ & ?). repeat split; cbn; try lia; try done. Qed.

(** fwrite ends; unless the error flag is up, all the bytes are put. *)
Lemma fwrite_spec inp size nmemb f e : stream_ok f -> u64 (size * nmemb) <= Z.of_nat (length inp) ->
  exists n f' e', fwrite inp size nmemb f e = Some (n, f', e') /\
  delivers (take (Z.to_nat (u64 (size * nmemb))) inp) f e f' e' /\
  (n = u64 (size * nmemb) / size \/ u64 (size * nmemb) = 0 /\ n = 0 \/ err f' = true).
Proof.
  intros Hok Hlen. unfold fwrite. set (total := u64 (size * nmemb)) in *. pose proof (u64_range (size * nmemb)) as Ht. fold total in Ht.
  destruct (Z.eqb_spec total 0) as [E0|Hne].
  { exists 0, f, e. rewrite E0. split; [done|]. split; [by apply delivers_refl|]. auto. }
  pose proof (settle f e Hok) as D. destruct (if has (flags f) F_PENDING then _ else _) as [f1 e1].
  pose proof (proj1 (proj2 D)) as Hok1.
  assert (Hu : has (flags f1) F_UNBUF = false) by apply Hok1. rewrite Hu.
  destruct (fwrite_loop_spec inp total (S (Z.to_nat total)) 0 (f1 <| mode := 2 |>) e1 (write_mode f1 Hok1) eq_refl
    ltac:(lia) Hlen ltac:(lia) ltac:(lia)) as (put & f2 & e2 & E & D2 & Hp & R).
  rewrite E. cbn [mbind option_bind].
  assert (D1 : delivers (take (Z.to_nat total) inp) f e f2 e2).
  { apply (delivers_trans [] _ _ _ _ _ _ _ D). unfold slice in D2. rewrite drop_0, Z.sub_0_r in D2. exact D2. }
  assert (D3 : let '(f3, e3) := if has (flags f2) F_LBF && bool_decide (10 ∈ slice inp 0 put)
      then let '(_, f3, e3) := flush_wbuf f2 e2 in (f3, e3) else (f2, e2) in delivers [] f2 e2 f3 e3).
  { pose proof (flush_spec f2 e2 (proj1 (proj2 D2))) as F. destruct (_ && _); [|apply delivers_refl, D2].
    by destruct (flush_wbuf f2 e2) as [[? ?] ?]; destruct F. }
  destruct (if has (flags f2) F_LBF && _ then _ else _) as [f3 e3]. exists (put / size), f3, e3. split; [done|].
  split; [rewrite <- (app_nil_r (take _ _)); exact (delivers_trans _ _ _ _ _ _ _ _ D1 D3)|].
  destruct R as [->|R]; [by left|]. right. right. by apply D3.
Qed.

Corollary fwrite_bytes b f e : stream_ok f -> Z.of_nat (length b) < 2 ^ 64 ->
  exists n f' e', fwrite b 1 (Z.of_nat (length b)) f e = Some (n, f', e') /\ delivers b f e f' e' /\
  (n = Z.of_nat (length b) \/ err f' = true).
Proof.
  intros Hok Hb. destruct (fwrite_spec b 1 (Z.of_nat (length b)) f e Hok) as (n & f' & e' & E & D & R);
    rewrite Z.mul_1_l, u64_small in * by lia; [done|].
  exists n, f', e'. split; [done|]. rewrite Nat2Z.id, firstn_all in D. split; [done|]. rewrite Z.div_1_r in R.
  destruct R as [R|[[R ->]|R]]; [by left| |by right]. left. lia.
Qed.

(** *** printf into a stream *)

Section Chunks.
Variables (f0 : FILE) (e0 : env W).
Hypothesis Hfd : 0 <= fd f0.

(** The text so far is what the stream got and what the chunk holds. *)
Definition holds (t : list Z) (o : fmtout W) : Prop := exists f b,
  o_stream o = Some f /\ delivers b f0 e0 f (o_env o) /\ t = b ++ bytes_of (o_buf o) (o_pos o) /\
  0 <= o_pos o < 256 /\ o_cap o = 256 /\ o_fd o = fd f0 /\ o_total o = u64 (Z.of_nat (length t)).

Lemma bytes_of_length b n : length (bytes_of b n) = Z.to_nat n.
Proof. unfold bytes_of. by rewrite length_map, length_seqZ. Qed.
Lemma bytes_of_snoc b n c : 0 <= n -> bytes_of (set_byte b n c) (n + 1) = bytes_of b n ++ [c].
Proof.
  intros Hn. unfold bytes_of. rewrite seqZ_app by lia. rewrite map_app. f_equal.
  - apply map_ext_in. intros i Hi. apply list_elem_of_In, elem_of_seqZ in Hi. unfold set_byte. by rewrite (proj2 (Z.eqb_neq _ _)) by lia.
  - change (seqZ (0 + n) 1) with [0 + (0 + n)]. cbn [map]. unfold set_byte. by rewrite !Z.add_0_l, Z.eqb_refl.
Qed.

Lemma chunk_flushed f b o : o_stream o = Some f -> delivers b f0 e0 f (o_env o) -> 0 <= o_pos o <= 256 ->
  exists f' e', out_flush_chunk o = Some (o <| o_stream := Some f' |> <| o_env := e' |>) /\
  delivers (b ++ bytes_of (o_buf o) (o_pos o)) f0 e0 f' e'.
Proof.
  intros Hs D Hp. unfold out_flush_chunk. rewrite Hs.
  destruct (fwrite_bytes (bytes_of (o_buf o) (o_pos o)) f (o_env o) (proj1 (proj2 D))) as (n & f' & e' & E & D' & _);
    rewrite bytes_of_length, ?Z2Nat.id in * by lia; [lia|].
  rewrite E. exists f', e'. split; [done|]. exact (delivers_trans _ _ _ _ _ _ _ _ D D').
Qed.

Lemma out_ch_holds t c o : holds t o -> exists o', out_ch c o = Some o' /\ holds (t ++ [c]) o'.
Proof.
  intros (f & b & Hs & D & Ht & Hp & Hc & Hf & Htot). unfold out_ch. cbn. rewrite Hf, (proj2 (Z.leb_le _ _)) by lia.
  assert (Htot' : u64 (o_total o + 1) = u64 (Z.of_nat (length (t ++ [c])))).
  { rewrite Htot, length_app, Nat2Z.inj_add. unfold u64. rewrite Zplus_mod_idemp_l. done. }
  set (o1 := o <| o_total := _ |> <| o_buf := _ |> <| o_pos := _ |>).
  assert (Hb1 : bytes_of (o_buf o1) (o_pos o1) = bytes_of (o_buf o) (o_pos o) ++ [c]) by (subst o1; cbn; apply bytes_of_snoc; lia).
  destruct (Z.eqb_spec (o_pos o + 1) (o_cap o)) as [Hfull|Hroom].
  - destruct (chunk_flushed f b o1 Hs D) as (f' & e' & E & D'); [subst o1; cbn; lia|]. rewrite E. cbn [mbind option_bind].
    eexists. split; [done|]. exists f', (t ++ [c]). cbn. split; [done|].
    split; [rewrite Ht, <- app_assoc, <- Hb1; exact D'|]. rewrite app_nil_r. split; [done|]. split; [lia|]. done.
  - eexists. split; [done|]. exists f, b. split; [done|]. split; [done|]. split; [rewrite Hb1, Ht; by rewrite <- app_assoc|].
    subst o1. cbn. split; [lia|]. done.
Qed.

Lemma out_bytes_holds l : forall t o, holds t o -> exists o', out_bytes l o = Some o' /\ holds (t ++ l) o'.
Proof.
  induction l as [|c l IH]; intros t o Ho; [exists o; rewrite app_nil_r; done|].
  destruct (out_ch_holds t c o Ho) as (o1 & E1 & H1). destruct (IH _ _ H1) as (o2 & E2 & H2).
  exists o2. cbn [out_bytes]. rewrite E1. cbn [mbind option_bind]. rewrite <- app_assoc in H2. done.
Qed.

Lemma fmt_finish_holds t o : holds t o -> exists o' f', fmt_finish o = Some (i32 (Z.of_nat (length t)), o') /\
  o_stream o' = Some f' /\ delivers t f0 e0 f' (o_env o').
Proof.
  intros (f & b & Hs & D & Ht & Hp & Hc & Hf & Htot). unfold fmt_finish. rewrite Hf, (proj2 (Z.leb_le _ _)) by lia.
  destruct (Z.ltb_spec 0 (o_pos o)).
  - destruct (chunk_flushed f b o Hs D ltac:(lia)) as (f' & e' & E & D'). rewrite E. cbn.
    rewrite Htot, i32_u64. do 2 eexists. split; [done|]. split; [done|]. cbn. by rewrite Ht.
  - cbn. rewrite Htot, i32_u64. exists o, f. split; [done|]. split; [done|].
    assert (o_pos o = 0) as E0 by lia. rewrite Ht, E0. change (bytes_of _ 0) with (@nil Z). by rewrite app_nil_r.
Qed.
End Chunks.

Lemma vfprintf_spec string_at sbuf fmt ap f e : short_strings string_at -> stream_ok f -> 0 <= fd f ->
  let text := (rendered string_at fmt ap).1 in
  exists f' e', vfprintf string_at sbuf fmt ap f e = Some (i32 (Z.of_nat (length text)), f', e') /\ delivers text f e f' e'.
Proof.
  intros Hs Hok Hfd text. unfold vfprintf. pose proof (settle f e Hok) as D.
  destruct (if has (flags f) F_PENDING then _ else _) as [f1 e1]. pose proof D as (E1 & Hok1 & _).
  assert (Hu : has (flags f1) F_UNBUF = false) by apply Hok1. rewrite Hu. rewrite format_renders by done. fold text.
  destruct (out_bytes_holds f e Hfd text [] (mk_out sbuf PRINTF_BUFSZ 0 0 (fd f1) (Some f1) e1)) as (o & Eo & Ho).
  { exists f1, []. cbn. split; [done|]. split; [done|]. split; [done|]. split; [lia|]. done. }
  rewrite Eo. cbn [mbind option_bind]. destruct (fmt_finish_holds f e Hfd _ _ Ho) as (o' & f' & E & Hs' & D').
  rewrite E. cbn [mbind option_bind]. rewrite Hs'. cbn. eauto.
Qed.

(** *** Any sequence of output *)

Inductive wop : Type :=
| Wputc (c : Z) | Wputs (s : list Z) | Wwrite (b : list Z) (size nmemb : Z) | Wprint (fmt : list Z) (ap : va_list) | Wflush.

Section Sequence.
Variables (string_at : Z -> list Z) (sbuf : Z -> Z).

Definition run_wop (op : wop) f e : option (Z * FILE * env W) :=
  match op with
  | Wputc c => fputc c f e
  | Wputs s => fputs s f e
  | Wwrite b size nmemb => fwrite b size nmemb f e
  | Wprint fmt ap => vfprintf string_at sbuf fmt ap f e
  | Wflush => Some (fflush f e)
  end.
Fixpoint run_wops (ops : list wop) f e : option (FILE * env W) :=
  match ops with [] => Some (f, e) | op :: ops => run_wop op f e ≫= fun '(_, f, e) => run_wops ops f e end.

Definition wop_bytes (op : wop) : list Z :=
  match op with
  | Wputc c => [u8 c] | Wputs s => s | Wwrite b size nmemb => take (Z.to_nat (u64 (size * nmemb))) b
  | Wprint fmt ap => (rendered string_at fmt ap).1 | Wflush => []
  end.
(** The memory a call names is there. *)
Definition wop_ok (op : wop) : Prop :=
  match op with
  | Wputs s => Z.of_nat (length s) < 2 ^ 64
  | Wwrite b size nmemb => u64 (size * nmemb) <= Z.of_nat (length b)
  | _ => True
  end.

Lemma fflush_spec f e : stream_ok f -> let '(rc, f', e') := fflush f e in
  delivers [] f e f' e' /\ (rc = 0 -> bufpos f' = 0).
Proof.
  intros Hok. unfold fflush. assert (Hu : has (flags f) F_UNBUF = false) by apply Hok. rewrite Hu.
  destruct (Z.eqb_spec (mode f) 2) as [Hm|Hm].
  - pose proof (flush_spec f e Hok) as F. destruct (flush_wbuf f e) as [[rc f'] e']. destruct F as (D & _ & _ & R).
    split; [done|]. intros ->. destruct R as [[_ ?]|[? _]]; [done|lia].
  - split; [by apply delivers_refl|]. intros _. destruct Hok as (_ & _ & _ & [?|?] & _); done.
Qed.

Hypothesis Hshort : short_strings string_at.

Lemma run_wop_delivers op f e : stream_ok f -> 0 <= fd f -> wop_ok op ->
  exists r f' e', run_wop op f e = Some (r, f', e') /\ delivers (wop_bytes op) f e f' e'.
Proof.
  intros Hok Hfd Hop. assert (Hu : has (flags f) F_UNBUF = false) by apply Hok. destruct op; cbn [run_wop wop_bytes].
  - unfold fputc. rewrite Hu. destruct (fwrite_bytes [u8 c] f e Hok ltac:(cbn; lia)) as (n & f' & e' & E & D & _).
    cbn [length] in E. change (Z.of_nat 1) with 1 in E. rewrite E. cbn. eauto.
  - unfold fputs. rewrite Hu. destruct (Z.eqb_spec (Z.of_nat (length s)) 0) as [H0|_].
    + destruct s; [|done]. do 3 eexists. split; [done|]. by apply delivers_refl.
    + destruct (fwrite_bytes s f e Hok Hop) as (n & f' & e' & E & D & _). rewrite E. cbn. eauto.
  - destruct (fwrite_spec b size nmemb f e Hok Hop) as (n & f' & e' & E & D & _). eauto.
  - destruct (vfprintf_spec string_at sbuf fmt ap f e Hshort Hok Hfd) as (f' & e' & E & D). eauto.
  - pose proof (fflush_spec f e Hok) as F. destruct (fflush f e) as [[rc f'] e']. do 3 eexists. split; [done|apply F].
Qed.

Lemma run_wops_delivers ops : forall f e, stream_ok f -> 0 <= fd f -> Forall wop_ok ops ->
  exists f' e', run_wops ops f e = Some (f', e') /\ delivers (concat (map wop_bytes ops)) f e f' e'.
Proof.
  induction ops as [|op ops IH]; intros f e Hok Hfd Hops; cbn [run_wops map concat].
  - do 2 eexists. split; [done|]. by apply delivers_refl.
  - inversion_clear Hops as [|? ? Hop Hops']. destruct (run_wop_delivers op f e Hok Hfd Hop) as (r & f1 & e1 & E & D).
    pose proof D as (Ef & Hok1 & _). destruct (IH f1 e1 Hok1 ltac:(lia) Hops') as (f2 & e2 & E2 & D2).
    rewrite E. cbn [mbind option_bind]. exists f2, e2. split; [done|]. exact (delivers_trans _ _ _ _ _ _ _ _ D D2).
Qed.
End Sequence.
End Output.

(** C35: Any sequence of fputc, fputs, fwrite, printf and fflush on a buffered
    stream, line-buffered or not, ends, also when writes are short or fail.
    As long as ferror reports nothing (a short or failed write sets it) every
    byte put is, once and in order, on the descriptor or in the buffer; after
    a final fflush that returns 0 with ferror still clear, all of them are on
    the descriptor.  ferror has to be looked at: after a short write a later
    fflush returns 0 although bytes were written twice or lost
    ([short_write_only_ferror_tells]).  (Strings printed are shorter than
    2^31, and fwrite is given the bytes it is asked to write.) *)
Theorem stream_output_in_order {W} `{Sys W} (output input : Z -> W -> list Z) `{!SysLaws output input}
    string_at sbuf ops f (e : env W) :
  short_strings string_at -> stream_ok f -> 0 <= fd f -> Forall wop_ok ops ->
  exists f1 e1, run_wops string_at sbuf ops f e = Some (f1, e1) /\ stream_ok f1 /\
  let put := output (fd f) (e_world e) ++ pending f ++ concat (map (wop_bytes string_at) ops) in
  (ferror f1 = 0 -> output (fd f) (e_world e1) ++ pending f1 = put) /\
  let '(rc, f2, e2) := fflush f1 e1 in
  rc = 0 -> ferror f2 = 0 -> output (fd f) (e_world e2) = put.
Proof.
  intros Hs Hok Hfd Hops. destruct (run_wops_delivers string_at sbuf Hs ops f e Hok Hfd Hops) as (f1 & e1 & E & D).
  exists f1, e1. split; [done|]. pose proof D as (Ef & Hok1 & _ & Hd). split; [done|].
  assert (Herr : forall g, ferror g = 0 -> err g = false) by (intros g; unfold ferror, err; by case_match).
  split; [intros He; by apply Hd, Herr|].
  pose proof (fflush_spec (output := output) f1 e1 Hok1) as F. destruct (fflush f1 e1) as [[rc f2] e2].
  destruct F as [D2 F]. intros Hrc He. destruct (delivers_trans _ _ _ _ _ _ _ _ D D2) as (_ & _ & _ & Hd2).
  specialize (Hd2 (Herr _ He)). unfold pending at 1 in Hd2. rewrite (F Hrc), take_0, !app_nil_r in Hd2. done.
Qed.

(** ** Streams: input *)

(** The allocator, which may fail, leaves what is to be read alone. *)
Class AllocLaws {W : Type} `{Sys W} (input : Z -> W -> list Z) : Prop := {
  malloc_law n w d : input d (malloc n w).2 = input d w;
  realloc_law p n w d : input d (realloc p n w).2 = input d w }.
Definition never_refuses (W : Type) `{Sys W} : Prop :=
  (forall n w, (malloc n w).1 <> 0) /\ (forall p n w, (realloc p n w).1 <> 0).

(** The first line of at most [n] bytes, with its newline. *)
Fixpoint first_line (n : nat) (l : list Z) : list Z :=
  match n, l with
  | S n, c :: l => if c =? 10 then [c] else c :: first_line n l
  | _, _ => []
  end.

Section Input.
Context {W : Type} `{Sys W} {output input : Z -> W -> list Z} `{!SysLaws output input}.
Implicit Types (f : FILE) (e : env W).

Definition buffered f : list Z := slice (data f) (bufpos f) (buflen f - bufpos f).
(** What the reader has still to get. *)
Definition unread f e : list Z := buffered f ++ input (fd f) (e_world e).

Definition reader_ok f : Prop :=
  0 < bufcap f < 2 ^ 62 /\ Z.of_nat (length (data f)) = bufcap f /\ 0 <= bufpos f <= buflen f /\ buflen f <= bufcap f /\
  Forall (fun c => 0 <= c < 256) (buffered f).

(** feof is reported only when nothing is left. *)
Definition eof_ok f e : Prop := feof f <> 0 -> unread f e = [].
Lemma feof_has f : feof f <> 0 <-> has (flags f) F_EOF = true.
Proof. unfold feof. by destruct (has (flags f) F_EOF). Qed.

(** The bytes [b] were taken from the front of what is unread. *)
Definition takes (b : list Z) f e f' e' : Prop :=
  reader_ok f' /\ (has (flags f) F_ERR = true -> has (flags f') F_ERR = true) /\ unread f e = b ++ unread f' e' /\
  (eof_ok f e -> eof_ok f' e').

Lemma takes_same b f e f' e' : reader_ok f' -> flags f' = flags f -> unread f e = b ++ unread f' e' -> takes b f e f' e'.
Proof.
  intros Hok Hf Hu. split; [done|]. split; [by rewrite Hf|]. split; [done|]. unfold eof_ok, feof. rewrite Hf. intros Hx Hn.
  specialize (Hx Hn). rewrite Hu in Hx. by apply app_eq_nil in Hx as [_ ?].
Qed.
Lemma takes_refl f e : reader_ok f -> takes [] f e f e.
Proof. intros ?. by apply takes_same. Qed.
Lemma takes_trans a b f e f1 e1 f2 e2 : takes a f e f1 e1 -> takes b f1 e1 f2 e2 -> takes (a ++ b) f e f2 e2.
Proof. intros (_ & P1 & U1 & F1) (K & P2 & U2 & F2). split; [done|]. split; [auto|]. split; [by rewrite U1, U2, app_assoc|auto]. Qed.

Lemma buffered_empty f : reader_ok f -> buflen f <= bufpos f -> buffered f = [].
Proof. intros (_ & _ & ? & _) Hb. unfold buffered, slice. by replace (Z.to_nat (buflen f - bufpos f)) with O by lia. Qed.

Lemma read_spec fd_ n e : 0 < n < 2 ^ 62 -> let '(r, b, e') := read fd_ n e in
  r = -1 /\ input fd_ (e_world e') = input fd_ (e_world e) \/
  r = Z.of_nat (length b) /\ r <= n /\ input fd_ (e_world e) = b ++ input fd_ (e_world e') /\ (b = [] -> input fd_ (e_world e') = []).
Proof.
  intros Hn. unfold read. pose proof (read_law fd_ n (e_world e) ltac:(lia)) as L.
  destruct (sys_read fd_ n (e_world e)) as [[r b] w]. destruct L as [[Hr Hi]|(-> & Hb & Hi & Hend)].
  - destruct (syscall_ret_err r (e <| e_world := w |>) Hr) as (e' & -> & He). left. rewrite He. done.
  - rewrite syscall_ret_ok by lia. right. done.
Qed.

(** Refilling an empty buffer. *)
Lemma fill_spec f e : reader_ok f -> buflen f <= bufpos f -> let '(r, f', e') := fill_rbuf f e in
  takes [] f e f' e' /\ mode f' = mode f /\
  (0 < r /\ bufpos f' < buflen f' /\ flags f' = flags f \/ r = 0 /\ unread f' e' = [] /\ feof f' <> 0 \/ r = -1 /\ has (flags f') F_ERR = true).
Proof.
  intros Hok He. pose proof (buffered_empty f Hok He) as Hb0. destruct Hok as (Hc & Hd & Hp & Hl & Hby).
  unfold fill_rbuf. pose proof (read_spec (fd f) (bufcap f) e ltac:(lia)) as L.
  destruct (read (fd f) (bufcap f) e) as [[r b] e']. unfold takes, unread. rewrite Hb0.
  assert (Herr : forall x, has (Z.lor x F_ERR) F_ERR = true)
    by (intros; rewrite (has_flag _ 3), Z.lor_spec by done; apply orb_true_r).
  destruct L as [[-> Hi]|(-> & Hn & Hi & Hend)].
  - cbn. split; [|split; [done|]; right; right; split; [done|apply Herr]]. split; [repeat split; cbn; try done; lia|].
    split; [intros _; apply Herr|]. cbn. split; [by rewrite Hi|]. intros Hx Hn. change (input (fd f) (e_world e') = []). rewrite Hi.
    unfold eof_ok, unread in Hx. rewrite Hb0 in Hx. apply Hx. apply feof_has. apply feof_has in Hn. revert Hn. cbn.
    rewrite !(has_flag _ 2), Z.lor_spec by done. by rewrite orb_false_r.
  - rewrite (proj2 (Z.ltb_ge _ _)) by lia. destruct (Z.eqb_spec (Z.of_nat (length b)) 0) as [H0|H0].
    + assert (b = []) as -> by (by destruct b). specialize (Hend eq_refl). rewrite Hend in Hi. cbn. rewrite Hend, Hi.
      assert (Heof : forall x, has (Z.lor x F_EOF) F_EOF = true)
        by (intros; rewrite (has_flag _ 2), Z.lor_spec by done; apply orb_true_r).
      split; [|split; [done|]; right; left; split; [done|]; split; [done|]; apply feof_has, Heof]. split; [repeat split; cbn; try done; lia|].
      split; [|split; [done|by intros _ _; unfold unread; cbn; rewrite Hend]].
      rewrite !(has_flag _ 3), Z.lor_spec by done. by intros ->.
    + rewrite (proj2 (Z.ltb_lt _ _)) by lia.
      assert (Hb : buffered (f <| data := splice (data f) 0 b |> <| bufpos := 0 |> <| buflen := Z.of_nat (length b) |>) = b).
      { unfold buffered, slice, splice. cbn -[take drop app]. rewrite Z.sub_0_r, Nat2Z.id. change (Z.to_nat 0) with O.
        rewrite drop_0, take_0. cbn [app]. apply take_app_length. }
      split; [|split; [done|]; left; split; [lia|]; split; [cbn; lia|done]].
      assert (T : takes [] f e (f <| data := splice (data f) 0 b |> <| bufpos := 0 |> <| buflen := Z.of_nat (length b) |>) e');
        [|unfold takes, unread in T; rewrite Hb0 in T; exact T].
      apply takes_same; [|done|unfold unread; rewrite Hb0, Hb; exact Hi].
      split; [done|]. cbn. split; [unfold splice; rewrite !length_app, length_take, length_drop; lia|]. split; [lia|]. split; [lia|].
      rewrite Hb. pose proof (input_bytes (fd f) (e_world e)) as Hall. rewrite Hi in Hall. by apply Forall_app in Hall as [? _].
Qed.

(** Taking [n] buffered bytes. *)
Lemma advance_takes f e n : reader_ok f -> 0 <= n <= buflen f - bufpos f ->
  takes (slice (data f) (bufpos f) n) f e (f <| bufpos := bufpos f + n |>) e /\
  Z.of_nat (length (slice (data f) (bufpos f) n)) = n.
Proof.
  intros (Hc & Hd & Hp & Hl & Hby) Hn.
  assert (E : buffered f = slice (data f) (bufpos f) n ++ buffered (f <| bufpos := bufpos f + n |>)).
  { unfold buffered. cbn. rewrite (slice_split _ (bufpos f) n) by lia. do 2 f_equal. lia. }
  split; [|unfold slice; rewrite length_take, length_drop; lia].
  apply takes_same; [|done|].
  - split; [done|]. cbn. split; [done|]. split; [lia|]. split; [done|]. rewrite E in Hby. by apply Forall_app in Hby as [_ ?].
  - unfold unread. rewrite E, <- app_assoc. done.
Qed.

Lemma read_mode f e : reader_ok f -> takes [] f e (f <| mode := 1 |>) e.
Proof. intros Hok. by apply takes_same. Qed.

Lemma fread_loop_spec total fuel : forall got out f e, reader_ok f -> 0 <= got <= total -> total < 2 ^ 64 ->
  (Z.to_nat (total - got) < fuel)%nat ->
  exists b f' e', fread_loop fuel total got out f e = Some (out ++ b, f', e') /\ takes b f e f' e' /\
  Z.of_nat (length b) <= total - got /\
  (Z.of_nat (length b) = total - got \/ unread f' e' = [] \/ has (flags f') F_ERR = true).
Proof.
  induction fuel as [|k IH]; intros got out f e Hok Hgot Hmax Hfuel; [lia|]. cbn [fread_loop].
  destruct (Z.ltb_spec got total) as [Hlt|Hge].
  2: { exists [], f, e. rewrite app_nil_r. split; [done|]. split; [by apply takes_refl|]. cbn. split; [lia|]. left. lia. }
  set (fl := if buflen f - bufpos f <=? 0 then fill_rbuf f e else (1, f, e)).
  assert (Hfl : takes [] f e fl.1.2 fl.2 /\
    (0 < fl.1.1 /\ bufpos fl.1.2 < buflen fl.1.2 \/ fl.1.1 <= 0 /\ (unread fl.1.2 fl.2 = [] \/ has (flags fl.1.2) F_ERR = true))).
  { subst fl. destruct (Z.leb_spec (buflen f - bufpos f) 0).
    - pose proof (fill_spec f e Hok ltac:(lia)) as F. destruct (fill_rbuf f e) as [[r f1] e1]. destruct F as (T & _ & R). cbn.
      split; [done|]. destruct R as [(? & ? & _)|[(-> & ? & _)|[-> ?]]]; [by left|right; auto with lia|right; auto with lia].
    - cbn. split; [by apply takes_refl|]. left. lia. }
  destruct fl as [[r f1] e1]. cbn in Hfl. destruct Hfl as (T & R).
  destruct (Z.leb_spec r 0) as [Hr|Hr].
  { exists [], f1, e1. rewrite app_nil_r. split; [done|]. split; [done|]. cbn. split; [lia|]. right. destruct R as [?|[_ R]]; [lia|done]. }
  destruct R as [[_ R]|[? _]]; [|lia]. pose proof (proj1 T) as Hok1.
  set (chunk := if _ <? _ then total - got else buflen f1 - bufpos f1).
  assert (Hch : 0 < chunk <= total - got /\ chunk <= buflen f1 - bufpos f1).
  { destruct Hok1 as (? & ? & ? & ? & _). subst chunk. rewrite u64_small by lia.
    destruct (Z.ltb_spec (total - got) (buflen f1 - bufpos f1)); lia. }
  destruct (advance_takes f1 e1 chunk Hok1 ltac:(lia)) as [T1 Hlen].
  destruct (IH (got + chunk) (out ++ slice (data f1) (bufpos f1) chunk) _ e1 (proj1 T1) ltac:(lia) Hmax ltac:(lia))
    as (b & f' & e' & E & T' & Hb & R').
  exists (slice (data f1) (bufpos f1) chunk ++ b), f', e'. rewrite app_assoc. split; [exact E|].
  split; [exact (takes_trans [] _ _ _ _ _ _ _ T (takes_trans _ _ _ _ _ _ _ _ T1 T'))|]. rewrite length_app, Nat2Z.inj_add, Hlen.
  split; [lia|]. destruct R' as [?|R']; [left; lia|by right].
Qed.

(** One byte, or the end. *)
Lemma getc_spec f e : reader_ok f -> let '(c, f', e') := rbuf_getc f e in
  0 <= c < 256 /\ takes [c] f e f' e' /\ flags f' = flags f \/
  c = EOF /\ takes [] f e f' e' /\ (unread f' e' = [] /\ feof f' <> 0 \/ has (flags f') F_ERR = true).
Proof.
  intros Hok. unfold rbuf_getc.
  assert (Hget : forall f1 e1, takes [] f e f1 e1 -> bufpos f1 < buflen f1 -> flags f1 = flags f ->
    let c := nth (Z.to_nat (bufpos f1)) (data f1) 0 in
    0 <= c < 256 /\ takes [c] f e (f1 <| bufpos := bufpos f1 + 1 |>) e1 /\ flags (f1 <| bufpos := bufpos f1 + 1 |>) = flags f).
  { intros f1 e1 T Hb Hfl c. pose proof (proj1 T) as Hok1. pose proof Hok1 as (? & ? & ? & ? & Hby).
    destruct (advance_takes f1 e1 1 Hok1 ltac:(lia)) as [T1 _].
    assert (Es : slice (data f1) (bufpos f1) 1 = [c]).
    { unfold slice. change (Z.to_nat 1) with 1%nat. subst c.
      destruct (nth_lookup_or_length (data f1) (Z.to_nat (bufpos f1)) 0) as [En|]; [|lia].
      rewrite (drop_S _ _ _ En). done. }
    rewrite Es in T1. split; [|split; [exact (takes_trans [] _ _ _ _ _ _ _ T T1)|done]].
    unfold buffered in Hby. rewrite (slice_split _ _ 1), Es in Hby by lia. by inversion_clear Hby. }
  destruct (Z.leb_spec (buflen f) (bufpos f)) as [He|He].
  - pose proof (fill_spec f e Hok He) as F. destruct (fill_rbuf f e) as [[r f1] e1]. destruct F as (T & _ & R).
    destruct (Z.leb_spec r 0).
    + right. split; [done|]. split; [done|]. destruct R as [[? _]|[(_ & R)|[_ R]]]; [lia|by left|by right].
    + left. destruct R as [(_ & R & Hfl)|[[? _]|[? _]]]; [|lia|lia]. by apply Hget.
  - left. by apply Hget; [apply takes_refl| |].
Qed.

Lemma fgets_loop_spec k : forall s f e, reader_ok f ->
  exists b f' e', fgets_loop k s f e = (s ++ b, f', e') /\ takes b f e f' e' /\
  (has (flags f') F_ERR = false -> b = first_line k (unread f e)).
Proof.
  induction k as [|k IH]; intros s f e Hok; cbn [fgets_loop].
  { exists [], f, e. rewrite app_nil_r. split; [done|]. split; [by apply takes_refl|]. done. }
  pose proof (getc_spec f e Hok) as G. destruct (rbuf_getc f e) as [[c f1] e1]. destruct G as [(Hc & T & Hfl)|(-> & T & R)].
  - rewrite (proj2 (Z.eqb_neq c EOF)) by (unfold EOF; lia). pose proof T as (Hok1 & _ & U & _). cbn in U. rewrite U. cbn [first_line].
    destruct (c =? 10); [exists [c], f1, e1; done|].
    destruct (IH (s ++ [c]) f1 e1 Hok1) as (b & f' & e' & E & T' & R). exists (c :: b), f', e'.
    rewrite E, <- app_assoc. split; [done|]. split; [exact (takes_trans [c] _ _ _ _ _ _ _ T T')|]. intros He. by rewrite R.
  - change (EOF =? EOF) with true. exists [], f1, e1. rewrite app_nil_r. split; [done|]. split; [done|]. intros He.
    destruct R as [[R _]|R]; [|congruence]. destruct T as (_ & _ & U & _). cbn in U. by rewrite U, R.
Qed.

Context `{!AllocLaws input}.

Lemma takes_env f e e' : reader_ok f -> input (fd f) (e_world e') = input (fd f) (e_world e) -> takes [] f e f e'.
Proof. intros Hok Hi. apply takes_same; [done|done|]. unfold unread. cbn. by rewrite Hi. Qed.

(** [ok] is false when realloc refused. *)
Lemma getline_loop_spec fuel : forall l f e, reader_ok f -> (length (unread f e) < fuel)%nat ->
  exists ok b l' f' e', getline_loop fuel l f e = Some (ok, l', f', e') /\ takes b f e f' e' /\ (never_refuses W -> ok = true) /\
  (ok = false -> flags f' = flags f) /\
  (ok = true -> chars l' = chars l ++ b /\ (b = [] -> feof f' <> 0 \/ has (flags f') F_ERR = true) /\
     (has (flags f') F_ERR = false -> b = first_line (length (unread f e)) (unread f e))).
Proof.
  induction fuel as [|k IH]; intros l f e Hok Hfuel; [lia|]. cbn [getline_loop].
  pose proof (getc_spec f e Hok) as G. destruct (rbuf_getc f e) as [[c f1] e1]. destruct G as [(Hc & T & Hfl)|(-> & T & R)].
  - rewrite (proj2 (Z.eqb_neq c EOF)) by (unfold EOF; lia). pose proof T as (Hok1 & _ & U & _). cbn in U. rewrite U in *.
    cbn [length first_line] in *. 
    set (g := if linecap l <=? _ then _ else _).
    assert (Hg : exists ok l1 e2, g = (ok, l1, e2) /\ (never_refuses W -> ok = true) /\ chars l1 = chars l /\ takes [] f1 e1 f1 e2).
    { subst g. destruct (linecap l <=? _); [|exists true, l, e1; split_and!; try done; by apply takes_refl].
      pose proof (realloc_law (lineptr l) (u64 (linecap l * 2)) (e_world e1) (fd f1)) as Hi.
      assert (Hn : never_refuses W -> (realloc (lineptr l) (u64 (linecap l * 2)) (e_world e1)).1 <> 0) by (intros [_ Hn]; apply Hn).
      destruct (realloc _ _ _) as [nb w]. cbn in Hn, Hi. destruct (Z.eqb_spec nb 0) as [E0|E0].
      - do 3 eexists. split; [done|]. split; [intros Hx; by specialize (Hn Hx)|]. split; [done|]. by apply takes_env.
      - do 3 eexists. split; [done|]. split; [done|]. split; [done|]. by apply takes_env. }
    destruct Hg as (ok & l1 & e2 & -> & Hnr & Hl1 & T2).
    assert (Tc : takes [c] f e f1 e2) by exact (takes_trans [c] [] _ _ _ _ _ _ T T2).
    destruct ok; cbn [negb]; [|exists false, [c]; do 3 eexists; done].
    destruct (c =? 10).
    + exists true, [c]. do 3 eexists. split; [done|]. cbn. rewrite Hl1. done.
    + assert (U2 : unread f1 e2 = unread f1 e1) by (symmetry; apply T2).
      destruct (IH (mk_line (lineptr l1) (linecap l1) (chars l1 ++ [c])) f1 e2 Hok1) as (ok & b & l' & f' & e' & E & T' & Hno & Hfk & R).
      { rewrite U2. lia. }
      exists ok, (c :: b), l', f', e'. split; [done|]. split; [exact (takes_trans [c] _ _ _ _ _ _ _ Tc T')|]. split; [done|]. split; [intros Hk; by rewrite Hfk|].
      intros Hk. destruct (R Hk) as (Hl' & _ & R'). rewrite Hl'. cbn. rewrite Hl1, <- app_assoc. split; [done|].
      split; [done|]. intros He. by rewrite R', U2.
  - change (EOF =? EOF) with true. exists true, [], l, f1, e1. rewrite app_nil_r. split; [done|]. split; [done|]. split; [done|]. split; [done|].
    intros _. split; [done|]. split; [intros _; destruct R as [[_ R]|R]; [by left|by right]|].
    intros He. destruct R as [[R _]|R]; [|congruence]. destruct T as (_ & _ & U & _). cbn in U. by rewrite U, R.
Qed.

(** *** Any sequence of input *)

Inductive rop : Type := Rgetc | Rread (size nmemb : Z) | Rgets (n : Z) | Rline (ptr cap : Z).

(** The bytes a call hands to its caller, terminators aside; and whether it
    may have dropped some: a getline that returns -1 although feof reports
    nothing. *)
Definition run_rop (fuel : nat) (op : rop) f e : option (list Z * bool * FILE * env W) :=
  match op with
  | Rgetc => fgetc f e ≫= fun '(c, f, e) => Some (if c =? EOF then [] else [c], false, f, e)
  | Rread size nmemb => fread size nmemb f e ≫= fun '(_, b, f, e) => Some (b, false, f, e)
  | Rgets n => let '(s, f, e) := fgets n f e in Some (default [] (@removelast Z <$> s), false, f, e)
  | Rline ptr cap =>
      getline fuel (Some (ptr, cap)) f e ≫= fun '(r, l, f, e) =>
      Some (if r <? 0 then [] else @removelast Z (chars l), (r <? 0) && (feof f =? 0), f, e)
  end.
Fixpoint run_rops (fuel : nat) (ops : list rop) f e : option (list (list Z * bool) * FILE * env W) :=
  match ops with
  | [] => Some ([], f, e)
  | op :: ops => run_rop fuel op f e ≫= fun '(b, f, e) => run_rops fuel ops f e ≫= fun '(bs, f, e) => Some (b :: bs, f, e)
  end.

(** What the calls return when the file is just a list of bytes. *)
Definition plain_rop (op : rop) (l : list Z) : list Z :=
  match op with
  | Rgetc => take 1 l
  | Rread size nmemb => take (Z.to_nat (u64 (size * nmemb))) l
  | Rgets n => first_line (Z.to_nat (n - 1)) l
  | Rline _ _ => first_line (length l) l
  end.
Fixpoint plain_rops (ops : list rop) (l : list Z) : list (list Z) * list Z :=
  match ops with
  | [] => ([], l)
  | op :: ops => let b := plain_rop op l in let '(bs, r) := plain_rops ops (drop (length b) l) in (b :: bs, r)
  end.

Lemma fread_spec size nmemb f e : reader_ok f ->
  exists n b f' e', fread size nmemb f e = Some (n, b, f', e') /\ takes b f e f' e' /\
  (u64 (size * nmemb) <> 0 -> n = Z.of_nat (length b) / size) /\ Z.of_nat (length b) <= u64 (size * nmemb) /\
  (has (flags f') F_ERR = false -> b = take (Z.to_nat (u64 (size * nmemb))) (unread f e)).
Proof.
  intros Hok. unfold fread. set (total := u64 (size * nmemb)). pose proof (u64_range (size * nmemb)) as Ht. fold total in Ht.
  destruct (Z.eqb_spec total 0) as [->|Hne].
  { do 4 eexists. split; [done|]. split; [by apply takes_refl|]. split; [done|]. cbn. split; [lia|done]. }
  pose proof (read_mode f e Hok) as T0.
  destruct (fread_loop_spec total (S (Z.to_nat total)) 0 [] _ e (proj1 T0) ltac:(lia) ltac:(lia) ltac:(lia)) as (b & f' & e' & E & T & Hb & R).
  rewrite E. cbn. do 4 eexists. split; [done|]. pose proof (takes_trans [] _ _ _ _ _ _ _ T0 T) as T1. cbn in T1. split; [done|].
  split; [done|]. rewrite Z.sub_0_r in *. split; [done|]. intros He. destruct T1 as (_ & _ & -> & _).
  destruct R as [R|[R|R]]; [|rewrite R, app_nil_r, take_ge by lia; done|congruence].
  rewrite take_app_le, take_ge by lia. done.
Qed.

Lemma removelast_snoc (l : list Z) c : @removelast Z (l ++ [c]) = l.
Proof. apply removelast_last. Qed.

(** What one call does: [t] was consumed, [b] handed out. *)
Definition reads (op : rop) (b : list Z) (dropped : bool) f e f' e' : Prop :=
  exists t, takes t f e f' e' /\ b `sublist_of` t /\ (dropped = false -> b = t) /\
  (dropped = false -> has (flags f') F_ERR = false -> b = plain_rop op (unread f e)) /\
  (never_refuses W -> has (flags f') F_ERR = false -> dropped = false).

Lemma reads_all op b f e f' e' : takes b f e f' e' -> (has (flags f') F_ERR = false -> b = plain_rop op (unread f e)) ->
  reads op b false f e f' e'.
Proof. intros T R. exists b. split_and!; try done. Qed.

(** A getline that fails without having read the end of the file. *)
Lemma reads_failed ptr cap t f e f' e' : eof_ok f e -> takes t f e f' e' ->
  (feof f' <> 0 -> flags f' = flags f) -> ~ never_refuses W -> reads (Rline ptr cap) [] (feof f' =? 0) f e f' e'.
Proof.
  intros He T Hf Hn. exists t. split; [done|]. split; [apply sublist_nil_l|].
  assert (Ht : feof f' <> 0 -> unread f e = [] /\ t = []).
  { intros H0. assert (Hu : unread f e = []) by (apply He; unfold feof in *; by rewrite <- (Hf H0)). split; [done|].
    destruct T as (_ & _ & U & _). rewrite Hu in U. symmetry in U. by apply app_eq_nil in U as [? _]. }
  split; [|split; [|done]]; intros Hd%Z.eqb_neq; destruct (Ht Hd) as [Hu ->]; [done|]. intros _. cbn. by rewrite Hu.
Qed.

Lemma getline_reads fuel ptr cap f e : reader_ok f -> eof_ok f e -> (length (unread f e) < fuel)%nat ->
  exists b d f' e', run_rop fuel (Rline ptr cap) f e = Some (b, d, f', e') /\ reads (Rline ptr cap) b d f e f' e'.
Proof.
  intros Hok Heof Hfuel. cbn [run_rop]. unfold getline. set (g := if (ptr =? 0) || (cap =? 0) then _ else _).
  assert (Hg : exists ok l e1, g = (ok, l, e1) /\ (ok = false -> ~ never_refuses W) /\ chars l = [] /\ takes [] f e f e1).
  { subst g. destruct (_ || _); [|exists true; do 2 eexists; split_and!; try done; by apply takes_refl].
    pose proof (malloc_law 128 (e_world e) (fd f)) as Hi.
    assert (Hn : never_refuses W -> (malloc 128 (e_world e)).1 <> 0) by (intros [Hn _]; apply Hn).
    destruct (malloc 128 (e_world e)) as [nb w]. cbn in Hn, Hi.
    destruct (Z.eqb_spec nb 0) as [E0|E0]; do 3 eexists; (split; [done|]; split; [|split; [done|by apply takes_env]]); [|done].
    intros _ Hx. by specialize (Hn Hx). }
  destruct Hg as (ok & l & e1 & -> & Hno & Hl & T0). destruct ok; cbn [negb].
  2: { do 4 eexists. split; [done|]. cbn [Z.ltb andb]. by apply (reads_failed _ _ []); [|exact T0| |apply Hno]. }
  assert (U1 : unread f e1 = unread f e) by (symmetry; apply T0).
  destruct (getline_loop_spec fuel l (f <| mode := 1 |>) e1 (proj1 (read_mode f e1 Hok))) as (ok & b & l' & f' & e' & E & T & Hnr & Hfl & R).
  { change (unread (f <| mode := 1 |>) e1) with (unread f e1). by rewrite U1. }
  change (unread (f <| mode := 1 |>) e1) with (unread f e1) in *. rewrite U1 in *.
  assert (T1 : takes b f e f' e') by exact (takes_trans [] _ _ _ _ _ _ _ T0 (takes_trans [] _ _ _ _ _ _ _ (read_mode f e1 Hok) T)).
  rewrite E. cbn [mbind option_bind]. destruct ok; cbn [negb].
  2: { do 4 eexists. split; [done|]. cbn [Z.ltb andb]. apply (reads_failed _ _ b); [done|done|intros _; by apply Hfl|]. intros Hx. by specialize (Hnr Hx). }
  destruct (R eq_refl) as (Hl' & Hend & R'). rewrite Hl', Hl. cbn [app].
  destruct b as [|c b].
  - cbn. do 4 eexists. split; [done|]. exists []. split; [done|]. split; [done|]. split; [done|]. split; [intros _; apply R'|].
    intros _ He. destruct (Hend eq_refl) as [Hx|Hx]; [by apply Z.eqb_neq|congruence].
  - rewrite (proj2 (Z.eqb_neq _ _)) by (cbn [length]; lia). cbn [mbind option_bind chars].
    rewrite (proj2 (Z.ltb_ge _ _)) by lia. cbn [andb]. rewrite removelast_snoc. do 4 eexists. split; [done|]. by apply reads_all.
Qed.

Lemma run_rop_reads fuel op f e : reader_ok f -> eof_ok f e -> (length (unread f e) < fuel)%nat ->
  exists b d f' e', run_rop fuel op f e = Some (b, d, f', e') /\ reads op b d f e f' e'.
Proof.
  intros Hok Heof Hfuel. destruct op; [| | |by apply getline_reads]; cbn [run_rop].
  - unfold fgetc. destruct (fread_spec 1 1 f e Hok) as (n & b & f' & e' & E & T & Hn & Hl & R). rewrite E.
    change (u64 (1 * 1)) with 1 in *. rewrite Z.div_1_r in Hn. specialize (Hn ltac:(done)). subst n.
    exists b, false, f', e'. cbn [mbind option_bind]. split; [|by apply reads_all]. do 4 f_equal.
    pose proof T as (_ & _ & U & _).
    destruct b as [|c [|? ?]]; [done| |cbn in Hl; lia]. cbn.
    assert (Hc : 0 <= c < 256).
    { assert (Hall : Forall (fun c => 0 <= c < 256) (unread f e)) by (apply Forall_app; split; [apply Hok|apply input_bytes]).
      rewrite U in Hall. by inversion_clear Hall. }
    change (negb (Z.of_nat 1 =? 1)) with false. cbn match. rewrite (proj2 (Z.eqb_neq c EOF)) by (unfold EOF; lia). done.
  - destruct (fread_spec size nmemb f e Hok) as (n & b & f' & e' & E & T & _ & _ & R). rewrite E. cbn. do 4 eexists.
    split; [done|]. by apply reads_all.
  - unfold fgets. destruct (Z.leb_spec n 0).
    + exists [], false, f, e. split; [done|]. apply reads_all; [by apply takes_refl|]. intros _. cbn. by replace (Z.to_nat (n - 1)) with O by lia.
    + pose proof (read_mode f e Hok) as T0.
      destruct (fgets_loop_spec (Z.to_nat (n - 1)) [] _ e (proj1 T0)) as (b & f' & e' & -> & T & R). cbn [app].
      exists b, false, f', e'. pose proof (takes_trans [] _ _ _ _ _ _ _ T0 T) as T1.
      split; [|apply reads_all; [exact T1|exact R]]. destruct b as [|c b]; [done|]. cbn [fmap option_fmap option_map default].
      by rewrite removelast_snoc.
Qed.

Lemma run_rops_reads fuel ops : forall f e, reader_ok f -> eof_ok f e -> (length (unread f e) < fuel)%nat ->
  exists rs f' e', run_rops fuel ops f e = Some (rs, f', e') /\
  (exists t, takes t f e f' e' /\ concat (map fst rs) `sublist_of` t /\ (forallb (negb ∘ snd) rs = true -> concat (map fst rs) = t)) /\
  (forallb (negb ∘ snd) rs = true -> has (flags f') F_ERR = false -> (map fst rs, unread f' e') = plain_rops ops (unread f e)) /\
  (never_refuses W -> has (flags f') F_ERR = false -> forallb (negb ∘ snd) rs = true).
Proof.
  induction ops as [|op ops IH]; intros f e Hok Heof Hfuel; cbn [run_rops plain_rops].
  { do 3 eexists. split; [done|]. split; [|done]. exists []. split; [by apply takes_refl|done]. }
  destruct (run_rop_reads fuel op f e Hok Heof Hfuel) as (b & d & f1 & e1 & E & t & T & Hsub & Hall & R & Hn). rewrite E. cbn [mbind option_bind].
  pose proof T as (Hok1 & _ & U & Heof1).
  destruct (IH f1 e1 Hok1 (Heof1 Heof)) as (rs & f2 & e2 & E2 & (t2 & T2 & Hsub2 & Hall2) & R2 & Hn2). { rewrite U, length_app in Hfuel. lia. }
  rewrite E2. cbn [mbind option_bind]. exists ((b, d) :: rs), f2, e2. split; [done|].
  assert (Herr : has (flags f2) F_ERR = false -> has (flags f1) F_ERR = false).
  { intros He. destruct (has (flags f1) F_ERR) eqn:X; [|done]. destruct T2 as (_ & P & _). by rewrite P in He. }
  cbn [map concat fst snd forallb compose]. split; [|split].
  - exists (t ++ t2). split; [exact (takes_trans _ _ _ _ _ _ _ _ T T2)|]. split; [by apply sublist_app|].
    intros [Hd Hr]%andb_prop. apply negb_true_iff in Hd. by rewrite (Hall Hd), (Hall2 Hr).
  - intros [Hd Hr]%andb_prop He. apply negb_true_iff in Hd. cbn in Hd. specialize (Hall Hd). subst b. rewrite <- (R Hd (Herr He)). rewrite U at 1.
    rewrite drop_app_length. by rewrite <- (R2 Hr He).
  - intros Hx He. cbn. rewrite (Hn Hx (Herr He)). cbn. by apply Hn2.
Qed.
End Input.

(** C36: Any sequence of fgetc, fread, fgets and getline on a stream ends, also
    when reads are short or fail and when the allocator behind getline refuses.
    (1) The bytes handed out are bytes of the stream's buffer and descriptor,
    in their order.  (2) As long as no getline returns -1 with feof clear, none
    of them is lost or repeated, with or without a read error.  (3) If moreover
    ferror reports nothing, each call returns what it would on a plain list of
    bytes, and leaves the rest.  (4) If the allocator never refuses and ferror
    reports nothing, no getline returns -1 with feof clear.  When the allocator
    does refuse, getline loses what it had read: [getline_drops_bytes].  feof
    is assumed to be reported only at the end of what there is to read. *)
Theorem stream_input_in_order {W} `{Sys W} (output input : Z -> W -> list Z) `{!SysLaws output input} `{!AllocLaws input}
    fuel ops f (e : env W) :
  reader_ok f -> eof_ok (input := input) f e -> (length (unread (input := input) f e) < fuel)%nat ->
  exists rs f' e', run_rops fuel ops f e = Some (rs, f', e') /\ reader_ok f' /\ eof_ok (input := input) f' e' /\
  let bs := map fst rs in let none_dropped := forallb (negb ∘ snd) rs in
  (exists t, unread (input := input) f e = t ++ unread (input := input) f' e' /\ concat bs `sublist_of` t) /\
  (none_dropped = true -> unread (input := input) f e = concat bs ++ unread (input := input) f' e') /\
  (none_dropped = true -> ferror f' = 0 -> (bs, unread (input := input) f' e') = plain_rops ops (unread (input := input) f e)) /\
  (never_refuses W -> ferror f' = 0 -> none_dropped = true).
Proof.
  intros Hok Heof Hfuel. destruct (run_rops_reads fuel ops f e Hok Heof Hfuel) as (rs & f' & e' & E & (t & (Hok' & _ & U & Heof') & Hsub & Hall) & R & Hn).
  assert (Herr : ferror f' = 0 -> has (flags f') F_ERR = false) by (unfold ferror; by case_match).
  exists rs, f', e'. split; [done|]. split; [done|]. split; [by apply Heof'|]. cbv zeta. split; [by exists t|].
  split; [intros Hd; by rewrite (Hall Hd)|]. split; auto.
Qed.

(** ** An unrecognised directive *)

(** After literal text, a directive that is no conversion is copied with all
    that follows it, and no argument is taken after it, whatever follows. *)
Theorem unknown_conversion_ends string_at lit spec ap d p ap' :
  Forall (fun c => c <> 37) lit -> spec <> [] -> directive_of spec ap = (d, p, ap') -> convert string_at d ap' = None ->
  rendered string_at (lit ++ 37 :: spec) ap = (lit ++ [37] ++ (if d_conv d =? 0 then [] else [d_conv d]) ++ p, ap').
Proof.
  intros Hlit Hs Hd Hc. unfold rendered.
  assert (G : forall k, (length lit + S (length spec) <= k)%nat ->
    render string_at k (lit ++ 37 :: spec) ap = (lit ++ [37] ++ (if d_conv d =? 0 then [] else [d_conv d]) ++ p, ap')); [|apply G; rewrite length_app; cbn [length]; lia].
  induction Hlit as [|c lit Hne Hlit IH]; intros k Hk; destruct k as [|k]; cbn in Hk; try lia; cbn [app render].
  - change (negb (37 =? 37)) with false. cbn match. rewrite bool_decide_eq_false_2 by done. by rewrite Hd, Hc.
  - rewrite (proj2 (Z.eqb_neq c 37)) by done. cbn [negb]. by rewrite IH by (cbn; lia).
Qed.

(** ** A world to run on

    One device: what was written, what is to be read, how many bytes each of
    the next writes takes (-1: it fails), and what was freed. *)
Record desk : Type := mk_desk { d_out : list Z; d_in : list Z; d_takes : list Z; d_freed : list Z }.
#[export] Instance desk_sys : Sys desk := {
  sys_write _ b w :=
    let q := match d_takes w with [] => Z.of_nat (length b) | q :: _ => q end in
    if q <? 0 then (u64 (-5), mk_desk (d_out w) (d_in w) (tail (d_takes w)) (d_freed w))
    else let b' := take (Z.to_nat q) b in
         (Z.of_nat (length b'), mk_desk (d_out w ++ b') (d_in w) (tail (d_takes w)) (d_freed w));
  sys_read _ n w :=
    let b := take (Z.to_nat n) (map u8 (d_in w)) in
    (Z.of_nat (length b), b, mk_desk (d_out w) (drop (length b) (d_in w)) (d_takes w) (d_freed w));
  sys_open _ _ _ w := (3, w); sys_close _ w := (0, w); sys_lseek _ _ _ w := (0, w); sys_tcgetattr _ w := (u64 (-25), w);
  malloc n w := (if n =? 4096 then 0x6000 else 0x5000, w); realloc _ _ w := (0x7000, w);
  free a w := mk_desk (d_out w) (d_in w) (d_takes w) (d_freed w ++ [a]) }.

Lemma take_of_length {A} (n : nat) (l : list A) : take (length (take n l)) l = take n l.
Proof. rewrite length_take. destruct (Nat.min_spec n (length l)) as [[? ->]|[? ->]]; [done|]. by rewrite !take_ge by lia. Qed.
Lemma take_app_drop {A} (n : nat) (l : list A) : l = take n l ++ drop (length (take n l)) l.
Proof. rewrite <- (take_of_length n l) at 1. symmetry. apply take_drop. Qed.

#[export] Instance desk_laws : SysLaws (W := desk) (fun _ => d_out) (fun _ w => map u8 (d_in w)).
Proof.
  split.
  - intros fd_ b w. cbn. destruct (Z.ltb_spec (match d_takes w with [] => Z.of_nat (length b) | q :: _ => q end) 0) as [Hq|Hq]; cbn.
    + exists O. split; [lia|]. rewrite take_0, app_nil_r. split; [done|]. right. split; [done|]. vm_compute. done.
    + eexists. split; [|split; [|by left]]; [rewrite length_take; lia|]. by rewrite take_of_length.
  - intros fd_ n w Hn. cbn. right. split; [done|]. split; [rewrite length_take; lia|].
    rewrite <- skipn_map. split; [apply take_app_drop|]. intros E. rewrite E. cbn.
    destruct (map u8 (d_in w)); [done|]. by destruct (Z.to_nat n) eqn:?; [lia|].
  - intros fd_ w. apply Forall_map, Forall_true. intros c. apply Z.mod_pos_bound. lia.
  - done.
Qed.
#[export] Instance desk_alloc : AllocLaws (W := desk) (fun _ w => map u8 (d_in w)).
Proof. done. Qed.

Definition desk0 : env desk := mk_env (mk_desk [] [] [] []) 0.
Definition z (s : string) : list Z := map (fun a => Z.of_nat (Ascii.nat_of_ascii a)) (list_ascii_of_string s).
Definition args_of (l : list Z) : nat -> Z := fun i => nth i l 0.
Definition hello : Z -> list Z := fun _ => z "hello".
Lemma hello_short : short_strings hello.
Proof. intros a. vm_compute. done. Qed.

(** ** Witnesses *)

(** "%05d %s" of -7 and a string, in a buffer of ten bytes. *)
Lemma vsnprintf_contract_witness :
  let text := (rendered hello (z "%05d %s") (mk_va (args_of [-7; 64]) 0)).1 in
  text = z "-0007 hello" /\
  exists m, vsnprintf hello (fun _ => 255) 10 (z "%05d %s") (mk_va (args_of [-7; 64]) 0) desk0 = Some (11, m, mk_va (args_of [-7; 64]) 2) /\
  (forall i, 0 <= i < 9 -> m i = nth (Z.to_nat i) text 0) /\ m 9 = 0 /\ m 10 = 255.
Proof.
  split; [vm_compute; reflexivity|].
  destruct (vsnprintf_contract hello (fun _ => 255) 10 (z "%05d %s") (mk_va (args_of [-7; 64]) 0) desk0 hello_short ltac:(lia)) as (m & E & H1 & H2 & H3).
  exists m. split; [exact E|]. split; [exact H1|]. split; [by apply H2|]. apply H3. right. left. vm_compute. done.
Defined.

(** A double for which no claim is made. *)
#[export] Instance unit_double : Double unit :=
  { d_of_int _ := tt; d_tenth := tt; d_add _ _ := tt; d_sub _ _ := tt; d_mul _ _ := tt }.
Lemma print_scan_roundtrip_witness :
  exists m ap'', vsnprintf hello (fun _ => 255) 32 (z "%08.4ld") (mk_va (args_of [-123]) 0) desk0 = Some (8, m, ap'') /\
  sscanf (bytes_of m 8 ++ z ", rest") (z "%ld") (args_of [64]) = Some (1, [Slong 64 (-123)] : list (scanned unit)).
Proof.
  refine (print_scan_roundtrip hello (fun _ => 255) 32 (z "08.4ld") (mk_va (args_of [-123]) 0) desk0 _ _ (args_of [64]) (z ", rest") hello_short eq_refl _ _ _ _).
  - by left.
  - done.
  - done.
  - vm_compute. done.
Defined.

(** A stream with a four-byte buffer, line-buffered. *)
Definition small : FILE := mk_FILE 3 (Z.lor F_WRITE F_LBF) 0 0x5000 [0; 0; 0; 0] 4 0 0.
Lemma stream_output_in_order_witness :
  exists f1 e1, run_wops hello (fun _ => 0) [Wputs (z "ab"); Wprint (z "%s=%d") (mk_va (args_of [64; 42]) 0); Wputc 10; Wwrite (z "xyz!") 1 3] small desk0 = Some (f1, e1) /\
  pending f1 = z "xyz" /\ d_out (e_world e1) ++ pending f1 = z "abhello=42" ++ [10] ++ z "xyz".
Proof.
  destruct (stream_output_in_order (W := desk) (fun _ => d_out) (fun _ w => map u8 (d_in w)) hello (fun _ => 0)
    [Wputs (z "ab"); Wprint (z "%s=%d") (mk_va (args_of [64; 42]) 0); Wputc 10; Wwrite (z "xyz!") 1 3] small desk0 hello_short) as (f1 & e1 & E & _ & Hd & _).
  - repeat split; (by vm_compute) || by right.
  - vm_compute. done.
  - repeat constructor; vm_compute; done.
  - exists f1, e1. split; [exact E|]. vm_compute in E. injection E as <- <-. split; [vm_compute; reflexivity|]. by apply Hd.
Defined.

(** A reader with a four-byte buffer over two lines. *)
Definition small_reader : FILE := mk_FILE 3 F_READ 0 0x5000 [0; 0; 0; 0] 4 0 0.
Lemma stream_input_in_order_witness :
  exists f1 e1, run_rops 20 [Rgetc; Rline 0 0; Rgets 4; Rread 2 3] small_reader (mk_env (mk_desk [] (z "abcdef" ++ [10] ++ z "ghijkl") [] []) 0) =
    Some (map (fun b => (b, false)) [z "a"; z "bcdef" ++ [10]; z "ghi"; z "jkl"], f1, e1) /\
  ([z "a"; z "bcdef" ++ [10]; z "ghi"; z "jkl"], []) = plain_rops [Rgetc; Rline 0 0; Rgets 4; Rread 2 3] (z "abcdef" ++ [10] ++ z "ghijkl").
Proof.
  destruct (stream_input_in_order (W := desk) (fun _ => d_out) (fun _ w => map u8 (d_in w)) 20 [Rgetc; Rline 0 0; Rgets 4; Rread 2 3]
    small_reader (mk_env (mk_desk [] (z "abcdef" ++ [10] ++ z "ghijkl") [] []) 0)) as (rs & f1 & e1 & E & _ & _ & _ & _ & R & _).
  - repeat split; (by vm_compute) || constructor.
  - intros Hx. by destruct Hx.
  - vm_compute. lia.
  - exists f1, e1. vm_compute in E. injection E as <- <- <-. split; [vm_compute; reflexivity|]. by apply R.
Defined.

(** ** exit *)

(** exit flushes every stream with output pending: afterwards a buffer still
    holds bytes only where a write failed. *)
Definition flushed (f : FILE) : Prop := bufpos f = 0 \/ has (flags f) F_ERR = true.
Section Flushing.
Context {W : Type} `{Sys W} (output input : Z -> W -> list Z) `{!SysLaws output input}.

Lemma flush_one_flushes f rc (e : env W) : stream_ok f -> flushed (flush_one f rc e).1.1.
Proof.
  intros Hok. unfold flush_one. destruct (Z.eqb_spec (mode f) 2) as [_|Hm].
  - pose proof (flush_spec (output := output) f e Hok) as F. destruct (flush_wbuf f e) as [[r f'] e']. cbn.
    destruct F as (_ & _ & _ & [[_ ?]|[_ ?]]); [by left|by right].
  - left. cbn. destruct Hok as (_ & _ & _ & [?|?] & _); done.
Qed.
Lemma flush_list_flushes l : forall rc (e : env W), Forall (fun p => stream_ok p.2) l ->
  Forall (fun p => flushed p.2) (flush_list l rc e).1.1.
Proof.
  induction l as [|[a f] l IH]; intros rc e Hl; cbn [flush_list]; [constructor|]. inversion_clear Hl as [|? ? Hf Hl'].
  pose proof (flush_one_flushes f rc e Hf) as F. destruct (flush_one f rc e) as [[f' rc'] e'].
  pose proof (IH rc' e' Hl') as L. destruct (flush_list l rc' e') as [[l' rc2] e2]. cbn in *. by constructor.
Qed.
Theorem flush_all_flushes (s : stdio W) : stream_ok (stdout_ s) -> Forall (fun p => stream_ok p.2) (g_streams s) ->
  flushed (stdout_ (stdio_flush_all s)) /\ Forall (fun p => flushed p.2) (g_streams (stdio_flush_all s)).
Proof.
  intros Ho Hl. unfold stdio_flush_all, fflush_null. pose proof (flush_one_flushes (stdout_ s) 0 (sio_env s) Ho) as F.
  destruct (flush_one (stdout_ s) 0 (sio_env s)) as [[o rc] e]. destruct (flush_one (stderr_ s) rc e) as [[er rc1] e1].
  pose proof (flush_list_flushes (g_streams s) rc1 e1 Hl) as L. by destruct (flush_list (g_streams s) rc1 e1) as [[l rc2] e2].
Qed.
End Flushing.

(** ** Where the library falls short *)

(** A write that takes three of six bytes fails the flush; the buffer is kept
    whole, so the next flush writes the first three again. *)
Example short_write_repeats :
  let f := mk_FILE 3 F_WRITE 2 0x5000 (z "abcdef") 6 6 0 in
  let '(rc1, f, e) := fflush f (mk_env (mk_desk [] [] [3] []) 0) in
  let '(rc2, f, e) := fflush (clearerr f) e in
  rc1 = -1 /\ rc2 = 0 /\ d_out (e_world e) = z "abcabcdef".
Proof. vm_compute. auto. Qed.

(** The same inside fputc: "abcdef" through a four-byte buffer whose first
    write takes two bytes.  The final fflush returns 0, the descriptor has
    "ababcdf", and only ferror tells. *)
Example short_write_only_ferror_tells :
  match run_wops hello (fun _ => 0) [Wputc 97; Wputc 98; Wputc 99; Wputc 100; Wputc 101; Wputc 102]
    (mk_FILE 3 F_WRITE 0 0x5000 [0; 0; 0; 0] 4 0 0) (mk_env (mk_desk [] [] [2] []) 0) with
  | Some (f, e) => let '(rc, f, e) := fflush f e in rc = 0 /\ ferror f = 1 /\ d_out (e_world e) = z "ababcdf"
  | None => False
  end.
Proof. vm_compute. auto. Qed.

(** getline with room for four bytes when realloc refuses: it returns -1 with
    feof and ferror clear, and the four bytes it read are gone. *)
Definition refusing_sys : Sys desk := {|
  sys_write := sys_write; sys_read := sys_read; sys_open := sys_open; sys_close := sys_close; sys_lseek := sys_lseek;
  sys_tcgetattr := sys_tcgetattr; malloc := malloc; realloc _ _ w := (0, w); free := free |}.
Example getline_drops_bytes :
  let f := mk_FILE 3 F_READ 0 0x5000 [0; 0; 0; 0; 0; 0; 0; 0] 8 0 0 in
  match @getline desk refusing_sys 20 (Some (0x9000, 4)) f (mk_env (mk_desk [] (z "abcdef") [] []) 0) with
  | Some (r, _, f, e) => r = -1 /\ feof f = 0 /\ ferror f = 0 /\ unread (input := fun _ w => d_in w) f e = z "ef"
  | None => False
  end.
Proof. vm_compute. auto. Qed.

(** printf to an unbuffered stream whose write fails returns the full count and
    leaves ferror clear. *)
Example failed_write_unreported :
  match fprintf hello (fun _ => 0) (z "%s") (args_of [64]) stderr0 (mk_env (mk_desk [] [] [-1] []) 0) with
  | Some (r, f, e) => r = 5 /\ ferror f = 0 /\ d_out (e_world e) = []
  | None => False
  end.
Proof. vm_compute. auto. Qed.

(** A buffer given with setvbuf to a stream from fopen is freed by fclose, and
    the stream's own (at 0x6000) is not. *)
Example fclose_frees_callers_buffer :
  let '(h, s) := fopen (z "f") (z "w") (stdio0 0x1000 0x2000 desk0) in
  h = Some 0x5000 /\
  match on_stream (Opened 0x5000) (fun f e => Some (setvbuf 0x9000 (replicate 16 0) IOFBF 16 f e)) s ≫= fun '(_, s) => fclose (Opened 0x5000) s with
  | Some (rc, s) => rc = 0 /\ d_freed (e_world (sio_env s)) = [0x9000; 0x5000]
  | None => False
  end.
Proof. vm_compute. auto. Qed.
