(* ===== verification/V2Opcode.v ===== *)
(** * The instruction set of the second-generation machine (src/src/v2)

    The primary opcode page as data (opcode_v2.h): for each byte its kind,
    its shape, and the slot class of each operand byte. *)
From Stdlib Require Import ZArith Lia Bool.
From stdpp Require Import base list numbers.
From S2P Require Import Prelude State.

(** ** Shapes and slots *)

Inductive Shape : Type :=
| ShapeNone | Op | OpR | OpRR | OpRRR | OpRRRR | OpI1 | OpI4
| OpRI1 | OpRI2 | OpRI4 | OpRI8 | OpRRI1 | OpRRI2 | OpRRI4 | OpRRI1I1.

Inductive Slot : Type := SlotNone | Plain | ByteSliced | QuarterSliced | HalfSliced.
Inductive OpcodeKind : Type := Reserved | Escape | Assigned.

#[global] Instance Shape_eq_dec : EqDecision Shape.
Proof. solve_decision. Defined.
#[global] Instance Slot_eq_dec : EqDecision Slot.
Proof. solve_decision. Defined.
#[global] Instance OpcodeKind_eq_dec : EqDecision OpcodeKind.
Proof. solve_decision. Defined.

(** The number of operand bytes, the widths of the immediates, the length. *)
Record ShapeInfo : Type := { sh_operands : nat; sh_immediates : list nat; sh_length : Z }.
Definition mk_shape (o : nat) (i : list nat) (n : Z) : ShapeInfo :=
  {| sh_operands := o; sh_immediates := i; sh_length := n |}.

Definition shape_info (s : Shape) : ShapeInfo :=
  match s with
  | ShapeNone => mk_shape 0 [] 0
  | Op => mk_shape 0 [] 1
  | OpR => mk_shape 1 [] 2
  | OpRR => mk_shape 2 [] 3
  | OpRRR => mk_shape 3 [] 4
  | OpRRRR => mk_shape 4 [] 5
  | OpI1 => mk_shape 0 [1%nat] 2
  | OpI4 => mk_shape 0 [4%nat] 5
  | OpRI1 => mk_shape 1 [1%nat] 3
  | OpRI2 => mk_shape 1 [2%nat] 4
  | OpRI4 => mk_shape 1 [4%nat] 6
  | OpRI8 => mk_shape 1 [8%nat] 10
  | OpRRI1 => mk_shape 2 [1%nat] 4
  | OpRRI2 => mk_shape 2 [2%nat] 5
  | OpRRI4 => mk_shape 2 [4%nat] 7
  | OpRRI1I1 => mk_shape 2 [1%nat; 1%nat] 5
  end.

Record OpcodeInfo : Type := { oi_kind : OpcodeKind; oi_shape : Shape; oi_slots : list Slot }.
Definition oi_length (i : OpcodeInfo) : Z := sh_length (shape_info (oi_shape i)).

Definition reserved_byte : OpcodeInfo := {| oi_kind := Reserved; oi_shape := ShapeNone; oi_slots := [] |}.
Definition escape_byte : OpcodeInfo := {| oi_kind := Escape; oi_shape := ShapeNone; oi_slots := [] |}.
Definition assign (s : Shape) (l : list Slot) : OpcodeInfo := {| oi_kind := Assigned; oi_shape := s; oi_slots := l |}.
(** Every slot plain. *)
Definition plain (s : Shape) : OpcodeInfo := assign s (replicate (sh_operands (shape_info s)) Plain).

(** ** Opcode bytes *)

Definition kMove : Z := 0x01.
Definition kMoveW : Z := 0x02.
Definition kMoveZb : Z := 0x03.
Definition kMoveSb : Z := 0x04.
Definition kMoveZq : Z := 0x05.
Definition kMoveSq : Z := 0x06.
Definition kMoveZh : Z := 0x07.
Definition kMoveSh : Z := 0x08.
Definition kPcAdd : Z := 0x09.
Definition kAdd : Z := 0x10.
Definition kShiftRightArithmeticH : Z := 0x28.
Definition kNot : Z := 0x29.
Definition kByteReverseH : Z := 0x2E.
Definition kAddCarry : Z := 0x2F.
Definition kSubtractBorrow : Z := 0x30.
Definition kAddImm : Z := 0x31.
Definition kXorImm : Z := 0x37.
Definition kShiftLeftImm : Z := 0x38.
Definition kShiftRightArithmeticHImm : Z := 0x3D.
Definition kCompareEq : Z := 0x40.
Definition kCompareGeUnsigned : Z := 0x49.
Definition kCompareImmBase : Z := 0x4A.
Definition kBranchBase : Z := 0x60.
Definition kJumpDisp : Z := 0x70.
Definition kJumpReg : Z := 0x71.
Definition kCallDisp : Z := 0x72.
Definition kCallReg : Z := 0x73.
Definition kReturn : Z := 0x74.
Definition kSelectNz : Z := 0x75.
Definition kSelectZ : Z := 0x76.
Definition kLoad : Z := 0x80.
Definition kLoadSh : Z := 0x86.
Definition kLoadDisp : Z := 0x87.
Definition kStore : Z := 0x8E.
Definition kStoreH : Z := 0x91.
Definition kStoreDisp : Z := 0x92.
Definition kExtractZb : Z := 0xA0.
Definition kExtractSh : Z := 0xA5.
Definition kInsertB : Z := 0xA6.
Definition kInsertH : Z := 0xA8.
Definition kBitfieldExtract : Z := 0xA9.
Definition kBitfieldExtractSigned : Z := 0xAA.
Definition kBitfieldInsert : Z := 0xAB.
Definition kBlockCopy : Z := 0xB0.
Definition kBlockCopyForward : Z := 0xB1.
Definition kBlockSet : Z := 0xB2.
Definition kCsrRead : Z := 0xB8.
Definition kCsrWrite : Z := 0xB9.
Definition kSysImm : Z := 0xBA.
Definition kSysReg : Z := 0xBB.
Definition kTrapReturn : Z := 0xBC.
Definition kHalt : Z := 0xBD.
Definition kWaitForInterrupt : Z := 0xBE.
Definition kNop : Z := 0xBF.
Definition kTlbInvalidateAll : Z := 0xC0.
Definition kTlbInvalidateAddress : Z := 0xC1.
Definition kPortIn : Z := 0xC2.
Definition kPortOut : Z := 0xC3.
Definition kCsrSwap : Z := 0xC4.
Definition kBreakpoint : Z := 0xFF.

(** ** The table *)

Definition upto (lo hi b : Z) : bool := (lo <=? b) && (b <=? hi).

(** The entry of byte [b]; the order of the cases is that of
    build_opcode_table. *)
Definition opcode_entry (b : Z) : OpcodeInfo :=
  if b =? kMove then plain OpRR
  else if b =? kMoveW then plain OpRI8
  else if upto kMoveZb kMoveSb b then plain OpRI1
  else if upto kMoveZq kMoveSq b then plain OpRI2
  else if upto kMoveZh kPcAdd b then plain OpRI4
  else if upto kAdd kShiftRightArithmeticH b then plain OpRRR
  else if upto kNot kByteReverseH b then plain OpRR
  else if upto kAddCarry kSubtractBorrow b then plain OpRRRR
  else if upto kAddImm kXorImm b then plain OpRRI4
  else if upto kShiftLeftImm kShiftRightArithmeticHImm b then plain OpRRI1
  else if upto kCompareEq kCompareGeUnsigned b then plain OpRRR
  else if upto kCompareImmBase (kCompareImmBase + 9) b then plain OpRRI4
  else if upto kBranchBase (kBranchBase + 9) b then plain OpRRI4
  else if b =? kJumpDisp then plain OpI4
  else if b =? kJumpReg then plain OpR
  else if b =? kCallDisp then plain OpI4
  else if b =? kCallReg then plain OpR
  else if b =? kReturn then plain Op
  else if upto kSelectNz kSelectZ b then plain OpRRR
  else if upto kLoad kLoadSh b then plain OpRR
  else if upto kLoadDisp (kLoadDisp + 6) b then plain OpRRI2
  else if upto kStore kStoreH b then plain OpRR
  else if upto kStoreDisp (kStoreDisp + 3) b then plain OpRRI2
  else if upto 0xA0 0xA1 b then assign OpRR [ByteSliced; Plain]
  else if upto 0xA2 0xA3 b then assign OpRR [QuarterSliced; Plain]
  else if upto 0xA4 0xA5 b then assign OpRR [HalfSliced; Plain]
  else if b =? 0xA6 then assign OpRR [Plain; ByteSliced]
  else if b =? 0xA7 then assign OpRR [Plain; QuarterSliced]
  else if b =? 0xA8 then assign OpRR [Plain; HalfSliced]
  else if upto kBitfieldExtract kBitfieldInsert b then plain OpRRI1I1
  else if upto kBlockCopy kBlockSet b then plain OpRRR
  else if upto kCsrRead kCsrWrite b then plain OpRI2
  else if b =? kSysImm then plain OpI1
  else if b =? kSysReg then plain OpR
  else if upto kTrapReturn kTlbInvalidateAll b then plain Op
  else if b =? kTlbInvalidateAddress then plain OpR
  else if upto kPortIn kPortOut b then plain OpRR
  else if b =? kCsrSwap then plain OpRRI2
  else if upto 0xC8 0xCF b then plain OpRRR
  else if upto 0xD0 0xD5 b then plain OpRR
  else if upto 0xD6 0xD9 b then plain OpRRRR
  else if upto 0xDA 0xE9 b then plain OpRRR
  else if upto 0xEA 0xF3 b then plain OpRR
  else if upto 0xF8 0xFE b then escape_byte
  else if b =? kBreakpoint then plain Op
  else reserved_byte.

(** Built once; looked up by the decoder. *)
Definition kOpcodeTable : list OpcodeInfo := Eval vm_compute in opcode_entry <$> seqZ 0 256.
Definition opcode_info (b : Z) : OpcodeInfo := default reserved_byte (kOpcodeTable !! Z.to_nat b).

Definition instruction_length (b : Z) : Z :=
  match oi_kind (opcode_info b) with Assigned => oi_length (opcode_info b) | _ => -1 end.

Definition form_is_legal (slot : Slot) (form : Z) : bool :=
  match slot with
  | Plain => form =? 0
  | ByteSliced => form <=? 7
  | QuarterSliced => form <=? 3
  | HalfSliced => form <=? 1
  | SlotNone => true
  end.

(** * Registers, physical memory and trap records of the second-generation machine

    registers_v2.h, memory_v2.h and trap_v2.h.  Words are numbers below 2^64;
    every addition that can wrap is written with [u64]. *)

(** ** The register file *)

Definition kRegisterCount : Z := 32.
Definition kLinkRegister : Z := 31.

Definition registers : Type := list Z.
Definition registers_reset : registers := replicate 32 0.
Definition reg_read (r : registers) (n : Z) : Z := if n =? 0 then 0 else zget r n.
Definition reg_write (r : registers) (n v : Z) : registers := if n =? 0 then r else zinsert n v r.

(** The positional views. *)
Definition byte_element (v i : Z) : Z := u8 (Z.shiftr v (i * 8)).
Definition quarter_element (v i : Z) : Z := u16 (Z.shiftr v (i * 16)).
Definition half_element (v i : Z) : Z := u32 (Z.shiftr v (i * 32)).
Definition insert_byte (target i v : Z) : Z := Z.lor (clr target (Z.shiftl 0xFF (i * 8))) (Z.shiftl (u8 v) (i * 8)).
Definition insert_quarter (target i v : Z) : Z := Z.lor (clr target (Z.shiftl 0xFFFF (i * 16))) (Z.shiftl (u16 v) (i * 16)).
Definition insert_half (target i v : Z) : Z := Z.lor (clr target (Z.shiftl 0xFFFFFFFF (i * 32))) (Z.shiftl (u32 v) (i * 32)).

Definition sign_extend (v bits : Z) : Z :=
  if 64 <=? bits then v else
  let sign := Z.shiftl 1 (bits - 1) in
  let mask := Z.shiftl 1 bits - 1 in
  u64 (Z.lxor (Z.land v mask) sign - sign).
Definition zero_extend (v bits : Z) : Z :=
  if 64 <=? bits then v else Z.land v (Z.shiftl 1 bits - 1).

(** ** Physical memory: the bytes and how many are populated *)

Record memory : Type := mk_memory { mm_bytes : Z -> Z; mm_size : Z }.

Definition accessible (m : memory) (a : Z) : bool := a <? mm_size m.

(** The numerically lowest address of a list that is not populated. *)
Definition lowest_of (m : memory) (l : list Z) : option Z :=
  foldl (fun acc a =>
    if accessible m a then acc
    else match acc with None => Some a | Some low => if a <? low then Some a else acc end) None l.
(** [None] when the whole range is accessible. *)
Definition check_range (m : memory) (a n : Z) : option Z := lowest_of m ((fun i => u64 (a + i)) <$> seqZ 0 n).

Definition read_byte (m : memory) (a : Z) : Z := mm_bytes m a.
Definition write_byte (m : memory) (a v : Z) : memory :=
  mk_memory (fun x => if x =? a then v else mm_bytes m x) (mm_size m).

(** The bytes at the addresses of a list, least significant first, and the
    store of a value's low bytes there. *)
Fixpoint read_bytes (m : memory) (l : list Z) : Z :=
  match l with
  | [] => 0
  | a :: l' => Z.lor (read_byte m a) (Z.shiftl (read_bytes m l') 8)
  end.
Fixpoint write_bytes (m : memory) (l : list Z) (v : Z) : memory :=
  match l with
  | [] => m
  | a :: l' => write_bytes (write_byte m a (u8 v)) l' (Z.shiftr v 8)
  end.
Definition read_little_endian (m : memory) (a : Z) (width : nat) : Z :=
  read_bytes m ((fun i => u64 (a + i)) <$> seqZ 0 (Z.of_nat width)).

(** ** Trap records *)

Definition kIllegalInstruction : Z := 0.
Definition kIllegalOperand : Z := 1.
Definition kDivideError : Z := 2.
Definition kBreakpointCause : Z := 3.
Definition kPrivilegedOperation : Z := 4.
Definition kSyscall : Z := 7.
Definition kPageFaultFetch : Z := 8.
Definition kPageFaultLoad : Z := 9.
Definition kPageFaultStore : Z := 10.
Definition kPhysicalMemoryFault : Z := 11.
Definition kFirstExternalInterrupt : Z := 32.

Definition kOperandForm : Z := 0.
Definition kInvalidImmediate : Z := 1.
Definition kUnimplementedCsr : Z := 3.
Definition kReadOnlyCsr : Z := 4.
Definition kBlockMemoryOperands : Z := 5.
Definition kInvalidCsrValue : Z := 6.
Definition kReservedCsrPrivilege : Z := 7.
Definition kDivideByZero : Z := 0.
Definition kQuotientOverflow : Z := 1.

Record trap : Type := mk_trap { t_cause : Z; t_subcode : Z; t_aux : Z; t_pc : Z }.

(** The four words of a frame and their order. *)
Definition kFrameBytes : Z := 32.
Definition encode_cause_word (cause subcode : Z) : Z := Z.lor cause (Z.shiftl subcode 8).
Definition kEntryBytes : Z := 8.
Definition entry_address (base cause : Z) : Z := u64 (base + cause * kEntryBytes).
