(* ===== verification/V2Csr.v ===== *)
(** * Control and status registers (csr_v2.h) and devices (device_v2.h) of the
    second-generation machine *)
From Stdlib Require Import ZArith Lia Bool.
From stdpp Require Import base list numbers.
From S2P Require Import Prelude State V2Opcode.

Inductive privilege : Type := User | Supervisor.
#[global] Instance privilege_eq_dec : EqDecision privilege.
Proof. solve_decision. Defined.
Definition privilege_number (p : privilege) : Z := match p with User => 0 | Supervisor => 1 end.

Definition kFcsr : Z := 0x0000.
Definition kFeatureBitmap : Z := 0x2000.
Definition kStatus : Z := 0x4000.
Definition kTrapStack : Z := 0x4001.
Definition kTrapVectorBase : Z := 0x4002.
Definition kPagingRoot : Z := 0x4003.
Definition kInterruptEnable0 : Z := 0x4004.
Definition kInterruptEnable3 : Z := 0x4007.
Definition kSyscallProvider : Z := 0x4008.
Definition kScratch : Z := 0x4009.
Definition kInterruptPending0 : Z := 0x6000.
Definition kInterruptPending3 : Z := 0x6003.
Definition kHaltCause : Z := 0x6004.
Definition kBootInfo : Z := 0x6005.

Definition csr_privilege_field (n : Z) : Z := Z.shiftr n 14.
Definition csr_read_only_bit (n : Z) : bool := Z.testbit n 13.

Definition kPrivilegeMask : Z := 0x3.
Definition kInterruptEnableBit : Z := 0x4.
Definition kDefinedMask : Z := 0x7.
Definition kResetValue : Z := 0x1.

Definition kKindHaltInstruction : Z := 0.
Definition kKindNoHandler : Z := 1.
Definition kKindDoubleFault : Z := 2.
Definition halt_encode (kind cause subcode : Z) : Z :=
  Z.lor (Z.lor cause (Z.shiftl subcode 8)) (Z.shiftl kind 16).

Definition kModeMask : Z := 0xF.
Definition kReservedMask : Z := 0xFF0.
Definition kModeBare : Z := 0.
Definition kModeSv48 : Z := 1.

Record csr_file : Type := mk_csr {
  c_fcsr : Z; c_feature_bitmap : Z; c_status : Z; c_trap_stack : Z; c_trap_vector_base : Z;
  c_paging_root : Z; c_interrupt_enable : list Z; c_syscall_provider : Z; c_scratch : Z;
  c_interrupt_pending : list Z; c_halt_cause : Z; c_boot_info : Z; c_translation_flushes : Z }.

Definition csr_eta (c : csr_file) : csr_file :=
  mk_csr (c_fcsr c) (c_feature_bitmap c) (c_status c) (c_trap_stack c) (c_trap_vector_base c)
    (c_paging_root c) (c_interrupt_enable c) (c_syscall_provider c) (c_scratch c)
    (c_interrupt_pending c) (c_halt_cause c) (c_boot_info c) (c_translation_flushes c).
#[export] Instance set_c_fcsr : Setter c_fcsr := ltac:(mk_setter csr_eta).
#[export] Instance set_c_status : Setter c_status := ltac:(mk_setter csr_eta).
#[export] Instance set_c_trap_stack : Setter c_trap_stack := ltac:(mk_setter csr_eta).
#[export] Instance set_c_trap_vector_base : Setter c_trap_vector_base := ltac:(mk_setter csr_eta).
#[export] Instance set_c_paging_root : Setter c_paging_root := ltac:(mk_setter csr_eta).
#[export] Instance set_c_interrupt_enable : Setter c_interrupt_enable := ltac:(mk_setter csr_eta).
#[export] Instance set_c_syscall_provider : Setter c_syscall_provider := ltac:(mk_setter csr_eta).
#[export] Instance set_c_scratch : Setter c_scratch := ltac:(mk_setter csr_eta).
#[export] Instance set_c_interrupt_pending : Setter c_interrupt_pending := ltac:(mk_setter csr_eta).
#[export] Instance set_c_halt_cause : Setter c_halt_cause := ltac:(mk_setter csr_eta).
#[export] Instance set_c_translation_flushes : Setter c_translation_flushes := ltac:(mk_setter csr_eta).

Definition csr_reset : csr_file := mk_csr 0 0 kResetValue 0 0 0 [0; 0; 0; 0] 0 0 [0; 0; 0; 0] 0 0 0.

Definition is_implemented (n : Z) : bool :=
  existsb (Z.eqb n) [kFcsr; kFeatureBitmap; kStatus; kTrapStack; kTrapVectorBase; kPagingRoot;
    0x4004; 0x4005; 0x4006; 0x4007; kSyscallProvider; kScratch; 0x6000; 0x6001; 0x6002; 0x6003; kHaltCause; kBootInfo].

Definition status_value_is_acceptable (v : Z) : bool :=
  (clr v kDefinedMask =? 0) && (Z.land v kPrivilegeMask <=? privilege_number Supervisor).

Definition value_is_acceptable (n v : Z) : bool :=
  if n =? kFcsr then clr v 0xFF =? 0
  else if n =? kStatus then status_value_is_acceptable v
  else if n =? kTrapStack then Z.land v 0xF =? 0
  else if n =? kTrapVectorBase then Z.land v 0x7FF =? 0
  else if n =? kPagingRoot then (Z.land v kModeMask <=? kModeSv48) && (Z.land v kReservedMask =? 0)
  else if n =? kInterruptEnable0 then Z.land v 0xFFFFFFFF =? 0
  else if n =? kSyscallProvider then clr v 1 =? 0
  else true.

Definition in_array (base n : Z) : bool := (base <=? n) && (n <=? base + 3).

Definition read_raw (c : csr_file) (n : Z) : Z :=
  if n =? kFcsr then c_fcsr c
  else if n =? kFeatureBitmap then c_feature_bitmap c
  else if n =? kStatus then c_status c
  else if n =? kTrapStack then c_trap_stack c
  else if n =? kTrapVectorBase then c_trap_vector_base c
  else if n =? kPagingRoot then c_paging_root c
  else if n =? kInterruptEnable0 then clr (zget (c_interrupt_enable c) 0) 0xFFFFFFFF
  else if in_array kInterruptEnable0 n then zget (c_interrupt_enable c) (n - kInterruptEnable0)
  else if n =? kSyscallProvider then c_syscall_provider c
  else if n =? kScratch then c_scratch c
  else if in_array kInterruptPending0 n then zget (c_interrupt_pending c) (n - kInterruptPending0)
  else if n =? kHaltCause then c_halt_cause c
  else if n =? kBootInfo then c_boot_info c
  else 0.

Definition csr_store (c : csr_file) (n v : Z) : csr_file :=
  if n =? kFcsr then c <| c_fcsr := v |>
  else if n =? kStatus then c <| c_status := v |>
  else if n =? kTrapStack then c <| c_trap_stack := v |>
  else if n =? kTrapVectorBase then c <| c_trap_vector_base := v |>
  else if n =? kPagingRoot then c <| c_paging_root := v |>
  else if in_array kInterruptEnable0 n then c <| c_interrupt_enable := zinsert (n - kInterruptEnable0) v (c_interrupt_enable c) |>
  else if n =? kSyscallProvider then c <| c_syscall_provider := v |>
  else if n =? kScratch then c <| c_scratch := v |>
  else c.

(** Refused with a cause, a subcode and the auxiliary word, or done: the value
    before, and whether the translation cache must be dropped. *)
Inductive csr_outcome : Type :=
| CsrTrap (cause subcode aux : Z)
| CsrOk (prior : Z) (flushed : bool).

Definition access (c : csr_file) (n : Z) (level : privilege) (is_write : bool) (v : Z) : csr_outcome * csr_file :=
  let required := csr_privilege_field n in
  if privilege_number Supervisor <? required then (CsrTrap kIllegalOperand kReservedCsrPrivilege n, c)
  else if privilege_number level <? required then (CsrTrap kPrivilegedOperation 0 n, c)
  else if is_write && csr_read_only_bit n then (CsrTrap kIllegalOperand kReadOnlyCsr n, c)
  else if negb (is_implemented n) then (CsrTrap kIllegalOperand kUnimplementedCsr n, c)
  else if is_write && negb (value_is_acceptable n v) then (CsrTrap kIllegalOperand kInvalidCsrValue v, c)
  else
    let prior := read_raw c n in
    if is_write then
      let c := csr_store c n v in
      if n =? kPagingRoot then (CsrOk prior true, c <| c_translation_flushes := u64 (c_translation_flushes c + 1) |>)
      else (CsrOk prior false, c)
    else (CsrOk prior false, c).

(** The live privilege level: the two-bit field is 0 or 1 in every state the
    machine can reach. *)
Definition csr_privilege (c : csr_file) : privilege :=
  if Z.land (c_status c) kPrivilegeMask =? 0 then User else Supervisor.
Definition interrupts_enabled (c : csr_file) : bool := has (c_status c) kInterruptEnableBit.

(** ** Pending and enabled causes *)

Definition kCauseCount : Z := 256.
Definition cause_bit (n : Z) : Z := Z.shiftl 1 (n mod 64).

Definition machine_raise_pending (c : csr_file) (n : Z) : csr_file :=
  c <| c_interrupt_pending := zinsert (n / 64) (Z.lor (zget (c_interrupt_pending c) (n / 64)) (cause_bit n)) (c_interrupt_pending c) |>.
Definition machine_clear_pending (c : csr_file) (n : Z) : csr_file :=
  c <| c_interrupt_pending := zinsert (n / 64) (clr (zget (c_interrupt_pending c) (n / 64)) (cause_bit n)) (c_interrupt_pending c) |>.
Definition pending (c : csr_file) (n : Z) : bool := has (zget (c_interrupt_pending c) (n / 64)) (cause_bit n).
Definition enabled (c : csr_file) (n : Z) : bool := has (read_raw c (kInterruptEnable0 + n / 64)) (cause_bit n).

(** The first cause of [l] that is both; the machine scans 0 to 255. *)
Definition lowest_pending_and_enabled (c : csr_file) : option Z :=
  find (fun n => pending c n && enabled c n) (seqZ 0 kCauseCount).

(** ** What the machine itself writes *)

Definition machine_set_trap_stack (c : csr_file) (v : Z) : csr_file := c <| c_trap_stack := v |>.
Definition machine_enter_supervisor (c : csr_file) : csr_file :=
  c <| c_status := Z.lor (clr (c_status c) (Z.lor kPrivilegeMask kInterruptEnableBit)) (privilege_number Supervisor) |>.
Definition machine_write_status (c : csr_file) (v : Z) : csr_file := c <| c_status := v |>.
Definition machine_record_halt (c : csr_file) (kind cause subcode : Z) : csr_file :=
  c <| c_halt_cause := halt_encode kind cause subcode |>.

(** ** The device surface (device_v2.h)

    Port space in blocks of sixteen: the machine block, a console and a timer.
    Both devices answer the same three skeleton ports and then their own. *)

Definition kPortsPerBlock : Z := 16.
Definition port_class_code (port : Z) : Z := port / kPortsPerBlock.
Definition port_offset (port : Z) : Z := port mod kPortsPerBlock.

Definition kMachineBlock : Z := 0.
Definition kConsole : Z := 1.
Definition kTimer : Z := 3.
Definition kHighestClassCode : Z := 7.

(** The skeleton's status bits; the classes give them their meaning. *)
Definition status_mask (bit : Z) : Z := Z.shiftl 1 bit.
Definition kInputAvailable : Z := 0.
Definition kOutputReady : Z := 3.
Definition kEndOfInput : Z := 4.
Definition kOverrun : Z := 5.
Definition kExpiryPending : Z := 0.
Definition kInvalidRequest : Z := 2.

Definition kModeCountingEnabled : Z := 1.
Definition kModePeriodic : Z := 2.
Definition kModeDefinedMask : Z := 3.
Definition kClassContractVersionInitial : Z := 1.
Definition kMachineMagic : Z := 0x4D32.
Definition kBaseSpecificationVersion : Z := 0x0200.
Definition kNanosecondsPerInstruction : Z := 1000.

Record console : Type := mk_console {
  con_ack : Z; con_irq : bool; con_output : list Z; con_input : list Z; con_input_read : Z;
  con_output_ready : bool; con_input_exhausted : bool }.
Record timer : Type := mk_timer {
  tim_ack : Z; tim_irq : bool; tim_period : Z; tim_mode : Z; tim_monotonic : Z; tim_next_expiry : Z; tim_armed : bool }.
Record devices : Type := mk_devices { dv_console : console; dv_timer : timer }.

Definition console_eta (c : console) := mk_console (con_ack c) (con_irq c) (con_output c) (con_input c) (con_input_read c) (con_output_ready c) (con_input_exhausted c).
Definition timer_eta (t : timer) := mk_timer (tim_ack t) (tim_irq t) (tim_period t) (tim_mode t) (tim_monotonic t) (tim_next_expiry t) (tim_armed t).
Definition devices_eta (d : devices) := mk_devices (dv_console d) (dv_timer d).
#[export] Instance set_con_ack : Setter con_ack := ltac:(mk_setter console_eta).
#[export] Instance set_con_irq : Setter con_irq := ltac:(mk_setter console_eta).
#[export] Instance set_con_output : Setter con_output := ltac:(mk_setter console_eta).
#[export] Instance set_con_input : Setter con_input := ltac:(mk_setter console_eta).
#[export] Instance set_con_output_ready : Setter con_output_ready := ltac:(mk_setter console_eta).
#[export] Instance set_con_input_exhausted : Setter con_input_exhausted := ltac:(mk_setter console_eta).
#[export] Instance set_con_input_read : Setter con_input_read := ltac:(mk_setter console_eta).
#[export] Instance set_tim_ack : Setter tim_ack := ltac:(mk_setter timer_eta).
#[export] Instance set_tim_irq : Setter tim_irq := ltac:(mk_setter timer_eta).
#[export] Instance set_tim_period : Setter tim_period := ltac:(mk_setter timer_eta).
#[export] Instance set_tim_mode : Setter tim_mode := ltac:(mk_setter timer_eta).
#[export] Instance set_tim_monotonic : Setter tim_monotonic := ltac:(mk_setter timer_eta).
#[export] Instance set_tim_next_expiry : Setter tim_next_expiry := ltac:(mk_setter timer_eta).
#[export] Instance set_tim_armed : Setter tim_armed := ltac:(mk_setter timer_eta).
#[export] Instance set_dv_console : Setter dv_console := ltac:(mk_setter devices_eta).
#[export] Instance set_dv_timer : Setter dv_timer := ltac:(mk_setter devices_eta).

Definition identification (class_code : Z) : Z := Z.lor class_code (Z.shiftl kClassContractVersionInitial 16).

(** ** The console *)

Definition console_reset : console := mk_console 0 false [] [] 0 true false.
Definition input_available (c : console) : bool := con_input_read c <? Z.of_nat (length (con_input c)).
Definition console_held (c : console) : Z :=
  let held := if input_available c then status_mask kInputAvailable else 0 in
  let held := if con_output_ready c then Z.lor held (status_mask kOutputReady) else held in
  if con_input_exhausted c then Z.lor held (status_mask kEndOfInput) else held.
Definition console_asserted (c : console) : bool := con_irq c && input_available c.

Definition console_read (c : console) (offset : Z) : Z * console :=
  if offset =? 0 then (identification kConsole, c)
  else if offset =? 1 then (Z.lor (con_ack c) (console_held c), c)
  else if offset =? 2 then (if con_irq c then 1 else 0, c)
  else if (offset =? 3) && input_available c
  then (zget (con_input c) (con_input_read c), c <| con_input_read := con_input_read c + 1 |>)
  else (0, c).
Definition console_write (c : console) (offset v : Z) : console :=
  if offset =? 0 then c
  else if offset =? 1 then c <| con_ack := clr (con_ack c) v |>
  else if offset =? 2 then c <| con_irq := has v 1 |>
  else if negb (offset =? 3) then c
  else if negb (con_output_ready c) then c <| con_ack := Z.lor (con_ack c) (status_mask kOverrun) |>
  else c <| con_output := con_output c ++ [Z.land v 0xFF] |>.

(** What the host does to a console from outside. *)
Definition host_push_input (c : console) (b : Z) : console := c <| con_input := con_input c ++ [b] |>.
Definition host_set_output_ready (c : console) (ready : bool) : console := c <| con_output_ready := ready |>.
Definition host_set_input_exhausted (c : console) (exhausted : bool) : console := c <| con_input_exhausted := exhausted |>.

(** ** The timer *)

Definition timer_reset : timer := mk_timer 0 false 0 0 0 0 false.
Definition counting_enabled (t : timer) : bool := has (tim_mode t) kModeCountingEnabled.
Definition periodic (t : timer) : bool := has (tim_mode t) kModePeriodic.
Definition timer_asserted (t : timer) : bool := tim_irq t && has (tim_ack t) (status_mask kExpiryPending).
Definition arm (t : timer) : timer := t <| tim_next_expiry := u64 (tim_monotonic t + tim_period t) |> <| tim_armed := true |>.
Definition refuse_counting_with_a_zero_period (t : timer) : timer :=
  t <| tim_ack := Z.lor (tim_ack t) (status_mask kInvalidRequest) |>
    <| tim_mode := clr (tim_mode t) kModeCountingEnabled |> <| tim_armed := false |>.

Definition timer_advance (t : timer) (ns : Z) : timer :=
  let t := t <| tim_monotonic := u64 (tim_monotonic t + ns) |> in
  if tim_armed t && (tim_next_expiry t <=? tim_monotonic t)
  then t <| tim_ack := Z.lor (tim_ack t) (status_mask kExpiryPending) |> <| tim_armed := false |>
  else t.
Definition nanoseconds_until_expiry (t : timer) : option Z :=
  if tim_armed t
  then Some (if tim_monotonic t <? tim_next_expiry t then tim_next_expiry t - tim_monotonic t else 0)
  else None.

Definition timer_read (t : timer) (offset : Z) : Z :=
  if offset =? 0 then identification kTimer
  else if offset =? 1 then tim_ack t
  else if offset =? 2 then (if tim_irq t then 1 else 0)
  else if offset =? 3 then tim_period t
  else if offset =? 4 then tim_mode t
  else if offset =? 5 then tim_monotonic t
  else 0.
Definition on_acknowledge (t : timer) (written : Z) : timer :=
  if negb (has written (status_mask kExpiryPending)) then t
  else if counting_enabled t && periodic t then arm t else t.
Definition timer_write (t : timer) (offset v : Z) : timer :=
  if offset =? 0 then t
  else if offset =? 1 then on_acknowledge (t <| tim_ack := clr (tim_ack t) v |>) v
  else if offset =? 2 then t <| tim_irq := has v 1 |>
  else if offset =? 3 then
    let t := t <| tim_period := v |> in
    if negb (counting_enabled t) then t <| tim_armed := false |>
    else if v =? 0 then refuse_counting_with_a_zero_period t else t
  else if offset =? 4 then
    let requested := Z.land v kModeDefinedMask in
    if has requested kModeCountingEnabled && (tim_period t =? 0)
    then refuse_counting_with_a_zero_period (t <| tim_mode := requested |>)
    else let t := t <| tim_mode := requested |> in
         if counting_enabled t then arm t else t <| tim_armed := false |>
  else t.

(** ** The surface *)

Definition devices_reset : devices := mk_devices console_reset timer_reset.
(** Which class codes have a device behind them. *)
Definition device_present (class_code : Z) : bool := (class_code =? kConsole) || (class_code =? kTimer).
Definition presence_bitmap : Z :=
  foldl (fun b code => if device_present code then Z.lor b (Z.shiftl 1 code) else b) 0 (seqZ 1 kHighestClassCode).
Definition machine_block_read (offset : Z) : Z :=
  if offset =? 0 then Z.lor kMachineMagic (Z.shiftl kBaseSpecificationVersion 16)
  else if offset =? 1 then presence_bitmap else 0.

Definition port_in (d : devices) (port : Z) : Z * devices :=
  let code := port_class_code port in let offset := port_offset port in
  if code =? kMachineBlock then (machine_block_read offset, d)
  else if code =? kConsole then let '(v, c) := console_read (dv_console d) offset in (v, d <| dv_console := c |>)
  else if code =? kTimer then (timer_read (dv_timer d) offset, d)
  else (0, d).
Definition port_out (d : devices) (port v : Z) : devices :=
  let code := port_class_code port in let offset := port_offset port in
  if code =? kMachineBlock then d
  else if code =? kConsole then d <| dv_console := console_write (dv_console d) offset v |>
  else if code =? kTimer then d <| dv_timer := timer_write (dv_timer d) offset v |>
  else d.

Definition interrupt_asserted (d : devices) (code : Z) : bool :=
  if code =? kConsole then console_asserted (dv_console d)
  else if code =? kTimer then timer_asserted (dv_timer d) else false.
Definition asserted_interrupt_lines (d : devices) : Z :=
  foldl (fun l code => if interrupt_asserted d code then Z.lor l (Z.shiftl 1 code) else l) 0 (seqZ 1 kHighestClassCode).
Definition advance_time (d : devices) (ns : Z) : devices := d <| dv_timer := timer_advance (dv_timer d) ns |>.
Definition nanoseconds_until_next_device_event (d : devices) : option Z := nanoseconds_until_expiry (dv_timer d).
