(* ===== verification/V2Translate.v ===== *)
(** * Address translation of the second-generation machine (translate_v2.h)

    The Sv48 walk with its six rejections, and the translation cache in front
    of it. *)
From Stdlib Require Import ZArith Lia Bool.
From stdpp Require Import base list numbers.
From S2P Require Import Prelude State Memory V2Opcode V2Csr.

(** The kinds of access are those of the first machine's walk. *)
Definition page_fault_cause (k : access_kind) : Z :=
  match k with Fetch => kPageFaultFetch | Load => kPageFaultLoad | Store => kPageFaultStore end.
Definition kNoMapping : Z := 0.
Definition kPermission : Z := 1.

Definition kValid : Z := 1.
Definition kReadable : Z := 2.
Definition kWritable : Z := 4.
Definition kExecutable : Z := 8.
Definition kUserAccessible : Z := 16.
Definition kPermissionMask : Z := 30.
(** [~0xFFF] is applied with [clr]. *)
Definition address_field (e : Z) : Z := clr e 0xFFF.

Definition kIndexMask : Z := 0x1FF.
Definition kTranslatedMask : Z := Z.shiftl 1 48 - 1.
Definition index_shift (level : nat) : Z := 12 + 9 * Z.of_nat level.
Definition page_offset_mask (level : nat) : Z := Z.shiftl 1 (index_shift level) - 1.

Definition leaf_admits (permissions : Z) (k : access_kind) (level : privilege) : bool :=
  if (if decide (level = User) then negb (has permissions kUserAccessible) else false) then false
  else match k with
       | Fetch => has permissions kExecutable
       | Load => has permissions kReadable
       | Store => has permissions kWritable
       end.

Record cached : Type := mk_cached { ct_virtual_base : Z; ct_physical_base : Z; ct_offset_mask : Z; ct_permissions : Z }.

(** ** The cache *)

Definition kCapacity : Z := 32.
(** An entry is valid or not; [tr_next] is the slot replaced next. *)
Record translator : Type := mk_translator {
  tr_entries : list (option cached); tr_next : Z; tr_walks : Z; tr_hits : Z }.
Definition translator_reset : translator := mk_translator (replicate 32 None) 0 0 0.

Definition hit (translated : Z) (e : option cached) : bool :=
  match e with Some c => clr translated (ct_offset_mask c) =? ct_virtual_base c | None => false end.
Definition lookup_cached (t : translator) (translated : Z) : option cached :=
  mjoin (find (hit translated) (tr_entries t)).
Definition insert_cached (t : translator) (c : cached) : translator :=
  mk_translator (zinsert (tr_next t) (Some c) (tr_entries t)) ((tr_next t + 1) mod kCapacity) (tr_walks t) (tr_hits t).
Definition invalidate_all (t : translator) : translator :=
  mk_translator ((fun _ => None) <$> tr_entries t) (tr_next t) (tr_walks t) (tr_hits t).
Definition invalidate_address (t : translator) (va : Z) : translator :=
  let translated := Z.land va kTranslatedMask in
  mk_translator ((fun e => if hit translated e then None else e) <$> tr_entries t) (tr_next t) (tr_walks t) (tr_hits t).

(** ** The walk *)

(** A refusal (without the program counter) or a physical address. *)
Definition translation : Type := (Z * Z * Z) + Z.
Definition page_fault (k : access_kind) (subcode va : Z) : Z * Z * Z := (page_fault_cause k, subcode, va).

Definition finish (c : cached) (translated va : Z) (k : access_kind) (level : privilege) : translation :=
  if leaf_admits (ct_permissions c) k level then inr (Z.lor (ct_physical_base c) (Z.land translated (ct_offset_mask c)))
  else inl (page_fault k kPermission va).

(** The leaf an address resolves to, or the refusal of the walk.  [level]
    counts down to 0. *)
Fixpoint walk_leaf (m : memory) (va : Z) (k : access_kind) (translated : Z) (level : nat) (table : Z) : (Z * Z * Z) + cached :=
  let index := Z.land (Z.shiftr translated (index_shift level)) kIndexMask in
  let entry_address := u64 (table + index * 8) in
  match check_range m entry_address 8 with
  | Some low => inl (kPhysicalMemoryFault, 0, low)
  | None =>
      let entry := read_little_endian m entry_address 8 in
      if negb (has entry kValid) then inl (page_fault k kNoMapping va) else
      if negb (has entry (Z.lor (Z.lor kReadable kWritable) kExecutable)) then
        match level with
        | O => inl (page_fault k kNoMapping va)
        | S level' => walk_leaf m va k translated level' (address_field entry)
        end
      else if has entry kWritable && negb (has entry kReadable) then inl (page_fault k kNoMapping va)
      else if has (address_field entry) (page_offset_mask level) then inl (page_fault k kNoMapping va)
      else inr (mk_cached (clr translated (page_offset_mask level)) (address_field entry) (page_offset_mask level) (Z.land entry kPermissionMask))
  end.

Definition translate (t : translator) (m : memory) (root : Z) (level : privilege) (k : access_kind) (va : Z) : translation * translator :=
  if Z.land root kModeMask =? kModeBare then (inr va, t) else
  let translated := Z.land va kTranslatedMask in
  match lookup_cached t translated with
  | Some c => (finish c translated va k level, mk_translator (tr_entries t) (tr_next t) (tr_walks t) (u64 (tr_hits t + 1)))
  | None =>
      let t := mk_translator (tr_entries t) (tr_next t) (u64 (tr_walks t + 1)) (tr_hits t) in
      match walk_leaf m va k translated 3 (address_field root) with
      | inl f => (inl f, t)
      | inr c => (finish c translated va k level, insert_cached t c)
      end
  end.

(** * The decoder of the second-generation machine (decode_v2.h, decode_v2.cpp)

    Bytes are fetched through the translator; a refused fetch, an unassigned
    opcode byte and an operand form that the slot does not admit are traps at
    the address of the instruction's first byte. *)

Record decoded : Type := mk_decoded {
  d_opcode : Z; d_pc : Z; d_next_pc : Z;
  d_reg : list Z; d_form : list Z;      (* one of each per operand byte *)
  d_immediate : list Z }.               (* raw fields *)

Definition operand_register (b : Z) : Z := Z.land b 0x1F.
Definition operand_form (b : Z) : Z := Z.shiftr b 5.

Section Decode.
Context (m : memory) (root : Z) (level : privilege).

(** One byte, or the refusal. *)
Definition fetch_byte (t : translator) (address : Z) : ((Z * Z * Z) + Z) * translator :=
  match translate t m root level Fetch address with
  | (inl f, t) => (inl f, t)
  | (inr physical, t) =>
      if accessible m physical then (inr (read_byte m physical), t)
      else (inl (kPhysicalMemoryFault, 0, physical), t)
  end.

(** The operand bytes, each against its slot: the register and form fields. *)
Fixpoint decode_operands (t : translator) (cursor : Z) (slots : list Slot) : ((Z * Z * Z) + list (Z * Z)) * translator :=
  match slots with
  | [] => (inr [], t)
  | slot :: slots' =>
      match fetch_byte t cursor with
      | (inl f, t) => (inl f, t)
      | (inr b, t) =>
          if negb (form_is_legal slot (operand_form b)) then (inl (kIllegalOperand, kOperandForm, b), t)
          else match decode_operands t (u64 (cursor + 1)) slots' with
               | (inl f, t) => (inl f, t)
               | (inr l, t) => (inr ((operand_register b, operand_form b) :: l), t)
               end
      end
  end.

(** One immediate of [width] bytes, little-endian. *)
Fixpoint decode_immediate (t : translator) (cursor : Z) (width : nat) : ((Z * Z * Z) + Z) * translator :=
  match width with
  | O => (inr 0, t)
  | S width' =>
      match fetch_byte t cursor with
      | (inl f, t) => (inl f, t)
      | (inr b, t) =>
          match decode_immediate t (u64 (cursor + 1)) width' with
          | (inl f, t) => (inl f, t)
          | (inr v, t) => (inr (Z.lor b (Z.shiftl v 8)), t)
          end
      end
  end.
Fixpoint decode_immediates (t : translator) (cursor : Z) (widths : list nat) : ((Z * Z * Z) + list Z) * translator :=
  match widths with
  | [] => (inr [], t)
  | w :: widths' =>
      match decode_immediate t cursor w with
      | (inl f, t) => (inl f, t)
      | (inr v, t) =>
          match decode_immediates t (u64 (cursor + Z.of_nat w)) widths' with
          | (inl f, t) => (inl f, t)
          | (inr l, t) => (inr (v :: l), t)
          end
      end
  end.

Definition trapped (pc : Z) (f : Z * Z * Z) : trap + decoded := let '(c, s, a) := f in inl (mk_trap c s a pc).

Definition decode_v2 (t : translator) (pc : Z) : (trap + decoded) * translator :=
  match fetch_byte t pc with
  | (inl f, t) => (trapped pc f, t)
  | (inr opcode_byte, t) =>
      let info := opcode_info opcode_byte in
      match oi_kind info with
      | Assigned =>
          let shape := shape_info (oi_shape info) in
          match decode_operands t (u64 (pc + 1)) (oi_slots info) with
          | (inl f, t) => (trapped pc f, t)
          | (inr operands, t) =>
              match decode_immediates t (u64 (u64 (pc + 1) + Z.of_nat (sh_operands shape))) (sh_immediates shape) with
              | (inl f, t) => (trapped pc f, t)
              | (inr immediates, t) =>
                  (inr (mk_decoded opcode_byte pc (u64 (pc + oi_length info)) operands.*1 operands.*2 immediates), t)
              end
          end
      | _ => (trapped pc (kIllegalInstruction, 0, opcode_byte), t)
      end
  end.
End Decode.
