(* ===== verification/V2Interp.v ===== *)
(** * The execute stage of the second-generation machine (interpreter_v2.h, interpreter_v2.cpp)

    One machine as a record; an instruction is a function from a machine to
    what the cycle reports and the machine after it.  The block-memory loops
    and the wait loop are [while] loops of Prelude, so [execute] and [step] are
    optional: that they always return is proved in V2Total. *)
From Stdlib Require Import ZArith Lia Bool.
From stdpp Require Import base list numbers.
From S2P Require Import Prelude State Memory V2Opcode V2Csr V2Translate.

Record machine : Type := mk_machine {
  x_mem : memory; x_regs : registers; x_dev : devices; x_csr : csr_file; x_tlb : translator;
  x_pc : Z; x_steps : Z; x_halted : bool }.
Definition machine_eta (x : machine) : machine :=
  mk_machine (x_mem x) (x_regs x) (x_dev x) (x_csr x) (x_tlb x) (x_pc x) (x_steps x) (x_halted x).
#[export] Instance set_x_mem : Setter x_mem := ltac:(mk_setter machine_eta).
#[export] Instance set_x_regs : Setter x_regs := ltac:(mk_setter machine_eta).
#[export] Instance set_x_dev : Setter x_dev := ltac:(mk_setter machine_eta).
#[export] Instance set_x_csr : Setter x_csr := ltac:(mk_setter machine_eta).
#[export] Instance set_x_tlb : Setter x_tlb := ltac:(mk_setter machine_eta).
#[export] Instance set_x_pc : Setter x_pc := ltac:(mk_setter machine_eta).
#[export] Instance set_x_steps : Setter x_steps := ltac:(mk_setter machine_eta).
#[export] Instance set_x_halted : Setter x_halted := ltac:(mk_setter machine_eta).

Definition machine_start (m : memory) (reset_pc : Z) : machine :=
  mk_machine m registers_reset devices_reset csr_reset translator_reset reset_pc 0 false.

Inductive disposition : Type := Delivered (handler : Z) | HaltedNoHandler | HaltedDoubleFault.
Inductive step_status : Type :=
| Advanced | Trapped (t : trap) (d : disposition) | Halted | Unimplemented | Suspended.
(** The status, the opcode byte and the address of the cycle's instruction. *)
Definition step_result : Type := step_status * Z * Z.

(** ** Arithmetic *)

Definition kAllOnes : Z := 2 ^ 64 - 1.
Definition low_half (v : Z) : Z := Z.land v 0xFFFFFFFF.
Definition field_mask (width : Z) : Z := if 64 <=? width then kAllOnes else Z.shiftl 1 width - 1.
Definition reverse_bytes (n : Z) (v : Z) : Z :=
  foldl (fun r i => Z.lor r (Z.shiftl (Z.land (Z.shiftr v (i * 8)) 0xFF) ((n - 1 - i) * 8))) 0 (seqZ 0 n).

Definition evaluate_predicate (predicate left right : Z) : bool :=
  match predicate with
  | 0 => left =? right
  | 1 => negb (left =? right)
  | 2 => i64 left <? i64 right
  | 3 => i64 left <=? i64 right
  | 4 => i64 right <? i64 left
  | 5 => i64 right <=? i64 left
  | 6 => left <? right
  | 7 => left <=? right
  | 8 => right <? left
  | 9 => right <=? left
  | _ => false
  end.

(** Low and high word of the product, from four 32-bit products. *)
Definition multiply_full_unsigned (a b : Z) : Z * Z :=
  let a_low := Z.land a 0xFFFFFFFF in let a_high := Z.shiftr a 32 in
  let b_low := Z.land b 0xFFFFFFFF in let b_high := Z.shiftr b 32 in
  let low_low := u64 (a_low * b_low) in let low_high := u64 (a_low * b_high) in
  let high_low := u64 (a_high * b_low) in let high_high := u64 (a_high * b_high) in
  let middle := u64 (u64 (Z.shiftr low_low 32 + Z.land low_high 0xFFFFFFFF) + Z.land high_low 0xFFFFFFFF) in
  (Z.lor (u64 (Z.shiftl middle 32)) (Z.land low_low 0xFFFFFFFF),
   u64 (u64 (u64 (high_high + Z.shiftr low_high 32) + Z.shiftr high_low 32) + Z.shiftr middle 32)).
Definition multiply_high_signed_value (a b : Z) : Z :=
  let high := (multiply_full_unsigned a b).2 in
  let high := if i64 a <? 0 then u64 (high - b) else high in
  if i64 b <? 0 then u64 (high - a) else high.

(** The register forms $10 to $28: a divide error's subcode, or the value. *)
Definition alu (opcode a b : Z) : Z + Z :=
  let a_half := low_half a in let b_half := low_half b in
  match opcode with
  | 0x10 => inr (u64 (a + b))
  | 0x11 => inr (u32 (a_half + b_half))
  | 0x12 => inr (u64 (a - b))
  | 0x13 => inr (u32 (a_half - b_half))
  | 0x14 => inr (u64 (a * b))
  | 0x15 => inr (u32 (a_half * b_half))
  | 0x16 => inr (multiply_high_signed_value a b)
  | 0x17 => inr (multiply_full_unsigned a b).2
  | 0x18 => if b =? 0 then inl kDivideByZero
            else if (a =? 2 ^ 63) && (b =? kAllOnes) then inl kQuotientOverflow
            else inr (u64 (Z.quot (i64 a) (i64 b)))
  | 0x19 => if b_half =? 0 then inl kDivideByZero
            else if (a_half =? 0x80000000) && (b_half =? 0xFFFFFFFF) then inl kQuotientOverflow
            else inr (u32 (Z.quot (i32 a_half) (i32 b_half)))
  | 0x1A => if b =? 0 then inl kDivideByZero else inr (a / b)
  | 0x1B => if b_half =? 0 then inl kDivideByZero else inr (a_half / b_half)
  | 0x1C => if b =? 0 then inl kDivideByZero
            else if (a =? 2 ^ 63) && (b =? kAllOnes) then inr 0
            else inr (u64 (Z.rem (i64 a) (i64 b)))
  | 0x1D => if b_half =? 0 then inl kDivideByZero
            else if (a_half =? 0x80000000) && (b_half =? 0xFFFFFFFF) then inr 0
            else inr (u32 (Z.rem (i32 a_half) (i32 b_half)))
  | 0x1E => if b =? 0 then inl kDivideByZero else inr (a mod b)
  | 0x1F => if b_half =? 0 then inl kDivideByZero else inr (a_half mod b_half)
  | 0x20 => inr (Z.land a b)
  | 0x21 => inr (Z.lor a b)
  | 0x22 => inr (Z.lxor a b)
  | 0x23 => inr (u64 (Z.shiftl a (Z.land b 63)))
  | 0x24 => inr (u32 (Z.shiftl a_half (Z.land b_half 31)))
  | 0x25 => inr (Z.shiftr a (Z.land b 63))
  | 0x26 => inr (Z.shiftr a_half (Z.land b_half 31))
  | 0x27 => inr (u64 (Z.shiftr (i64 a) (Z.land b 63)))
  | _ => inr (u32 (Z.shiftr (i32 a_half) (Z.land b_half 31)))
  end.

(** $29 to $2E. *)
Definition unary (opcode a : Z) : Z :=
  let a_half := low_half a in
  match opcode with
  | 0x29 => Z.lxor a kAllOnes
  | 0x2A => Z.lxor a_half 0xFFFFFFFF
  | 0x2B => u64 (0 - a)
  | 0x2C => u32 (0 - a_half)
  | 0x2D => reverse_bytes 8 a
  | _ => reverse_bytes 4 a_half
  end.

(** add_carry and subtract_borrow: the total and the carry out. *)
Definition add_carry (a b carry_in : Z) : Z * Z :=
  let partial := u64 (a + b) in
  let total := u64 (partial + carry_in) in
  (total, if (partial <? a) || (total <? partial) then 1 else 0).
Definition subtract_borrow (a b carry_in : Z) : Z * Z :=
  let partial := u64 (a - b) in
  (u64 (partial - carry_in), if (a <? b) || (partial <? carry_in) then 1 else 0).

(** $31 to $37. *)
Definition alu_imm (opcode a imm : Z) : Z :=
  let literal := sign_extend imm 32 in let literal_half := u32 imm in let a_half := low_half a in
  match opcode with
  | 0x31 => u64 (a + literal)
  | 0x32 => u32 (a_half + literal_half)
  | 0x33 => u64 (a - literal)
  | 0x34 => u32 (a_half - literal_half)
  | 0x35 => Z.land a literal
  | 0x36 => Z.lor a literal
  | _ => Z.lxor a literal
  end.

(** $38 to $3D. *)
Definition shift_imm (opcode a count : Z) : Z :=
  let a_half := low_half a in
  match opcode with
  | 0x38 => u64 (Z.shiftl a (Z.land count 63))
  | 0x39 => u32 (Z.shiftl a_half (Z.land count 31))
  | 0x3A => Z.shiftr a (Z.land count 63)
  | 0x3B => Z.shiftr a_half (Z.land count 31)
  | 0x3C => u64 (Z.shiftr (i64 a) (Z.land count 63))
  | _ => u32 (Z.shiftr (i32 a_half) (Z.land count 31))
  end.

(** $A0 to $A5 and $A6 to $A8. *)
Definition extract (opcode source element : Z) : Z :=
  match opcode with
  | 0xA0 => byte_element source element
  | 0xA1 => sign_extend (byte_element source element) 8
  | 0xA2 => quarter_element source element
  | 0xA3 => sign_extend (quarter_element source element) 16
  | 0xA4 => half_element source element
  | _ => sign_extend (half_element source element) 32
  end.
Definition insert_element (opcode target element source : Z) : Z :=
  match opcode with
  | 0xA6 => insert_byte target element (u8 source)
  | 0xA7 => insert_quarter target element (u16 source)
  | _ => insert_half target element (u32 source)
  end.

(** ** Memory access *)

Definition level_of (x : machine) : privilege := csr_privilege (x_csr x).

(** Translates every byte of an access, then judges reachability: a refusal,
    or the physical address of each byte. *)
Fixpoint plan_bytes (x : machine) (addresses : list Z) (k : access_kind) (level : privilege) : ((Z * Z * Z) + list Z) * machine :=
  match addresses with
  | [] => (inr [], x)
  | a :: addresses' =>
      let '(r, t) := translate (x_tlb x) (x_mem x) (c_paging_root (x_csr x)) level k a in
      let x := x <| x_tlb := t |> in
      match r with
      | inl f => (inl f, x)
      | inr p =>
          match plan_bytes x addresses' k level with
          | (inl f, x) => (inl f, x)
          | (inr l, x) => (inr (p :: l), x)
          end
      end
  end.
Definition plan_access (x : machine) (address length : Z) (k : access_kind) (level : privilege) : ((Z * Z * Z) + list Z) * machine :=
  match plan_bytes x ((fun i => u64 (address + i)) <$> seqZ 0 length) k level with
  | (inl f, x) => (inl f, x)
  | (inr plan, x) =>
      match lowest_of (x_mem x) plan with
      | Some low => (inl (kPhysicalMemoryFault, 0, low), x)
      | None => (inr plan, x)
      end
  end.
Definition plan_byte (x : machine) (address : Z) (k : access_kind) : ((Z * Z * Z) + Z) * machine :=
  match plan_access x address 1 k (level_of x) with
  | (inl f, x) => (inl f, x)
  | (inr plan, x) => (inr (zget plan 0), x)
  end.

Definition read_planned (x : machine) (plan : list Z) (offset width : nat) : Z :=
  read_bytes (x_mem x) (take width (drop offset plan)).
Definition write_planned (x : machine) (plan : list Z) (offset width : nat) (v : Z) : machine :=
  x <| x_mem := write_bytes (x_mem x) (take width (drop offset plan)) v |>.

(** ** Results *)

Definition advance (d : decoded) (x : machine) : step_result * machine :=
  ((Advanced, d_opcode d, d_pc d), x <| x_pc := d_next_pc d |>).
Definition branch_to (d : decoded) (target : Z) (x : machine) : step_result * machine :=
  ((Advanced, d_opcode d, d_pc d), x <| x_pc := target |>).

Definition halt_without_delivering (t : trap) (opcode pc : Z) (disp : disposition) (kind : Z) (x : machine) : step_result * machine :=
  ((Trapped t disp, opcode, pc),
   x <| x_csr := machine_record_halt (x_csr x) kind (t_cause t) (t_subcode t) |> <| x_halted := true |>).

(** The delivery sequence. *)
Definition push_frame (t : trap) (plan : list Z) (x : machine) : machine :=
  let x := write_planned x plan 0 8 (t_pc t) in
  let x := write_planned x plan 8 8 (c_status (x_csr x)) in
  let x := write_planned x plan 16 8 (encode_cause_word (t_cause t) (t_subcode t)) in
  write_planned x plan 24 8 (t_aux t).
Definition deliver (t : trap) (opcode pc : Z) (x : machine) : step_result * machine :=
  let entry := entry_address (c_trap_vector_base (x_csr x)) (t_cause t) in
  match plan_access x entry kEntryBytes Load Supervisor with
  | (inl _, x) => halt_without_delivering t opcode pc HaltedDoubleFault kKindDoubleFault x
  | (inr plan, x) =>
      let handler := read_planned x plan 0 8 in
      if handler =? 0 then halt_without_delivering t opcode pc HaltedNoHandler kKindNoHandler x else
      let frame := u64 (c_trap_stack (x_csr x) - kFrameBytes) in
      match plan_access x frame kFrameBytes Store Supervisor with
      | (inl _, x) => halt_without_delivering t opcode pc HaltedDoubleFault kKindDoubleFault x
      | (inr plan, x) =>
          let x := push_frame t plan x in
          let x := x <| x_csr := machine_set_trap_stack (x_csr x) frame |> in
          let x := x <| x_csr := machine_enter_supervisor (x_csr x) |> in
          ((Trapped t (Delivered handler), opcode, pc), x <| x_pc := handler |>)
      end
  end.

(** A fault captures the instruction's own address, a trap the next one. *)
Definition raise (d : decoded) (f : Z * Z * Z) (x : machine) : step_result * machine :=
  let '(cause, subcode, aux) := f in deliver (mk_trap cause subcode aux (d_pc d)) (d_opcode d) (d_pc d) x.
Definition raise_trap_class (d : decoded) (cause subcode aux : Z) (x : machine) : step_result * machine :=
  deliver (mk_trap cause subcode aux (d_next_pc d)) (d_opcode d) (d_pc d) x.

Definition execute_trap_return (d : decoded) (x : machine) : step_result * machine :=
  let frame := c_trap_stack (x_csr x) in
  match plan_access x frame kFrameBytes Load (level_of x) with
  | (inl f, x) => raise d f x
  | (inr plan, x) =>
      let pc_word := read_planned x plan 0 8 in
      let status := read_planned x plan 8 8 in
      if negb (status_value_is_acceptable status) then raise d (kIllegalOperand, kInvalidCsrValue, status) x else
      let x := x <| x_csr := machine_write_status (x_csr x) status |> in
      let x := x <| x_csr := machine_set_trap_stack (x_csr x) (u64 (frame + kFrameBytes)) |> in
      branch_to d pc_word x
  end.

(** ** Interrupts *)

(** Every device line becomes, or stops being, a pending cause. *)
Definition sample_device_interrupts (x : machine) : machine :=
  let lines := asserted_interrupt_lines (x_dev x) in
  x <| x_csr := foldl (fun c line =>
         if Z.testbit lines line then machine_raise_pending c (kFirstExternalInterrupt + line)
         else machine_clear_pending c (kFirstExternalInterrupt + line)) (x_csr x) (seqZ 0 (kHighestClassCode + 1)) |>.
Definition deliverable_interrupt (x : machine) : option Z :=
  if interrupts_enabled (x_csr x) then lowest_pending_and_enabled (x_csr x) else None.
Definition deliver_interrupt (cause resume_pc : Z) (x : machine) : step_result * machine :=
  let x := x <| x_csr := machine_clear_pending (x_csr x) cause |> in
  deliver (mk_trap cause 0 0 resume_pc) 0 resume_pc x.

(** One turn of the wait: awake, stuck for good, or on to the next event. *)
Definition wait_body (d : decoded) (x : machine) : machine + (step_result * machine) :=
  let x := sample_device_interrupts x in
  match lowest_pending_and_enabled (x_csr x) with
  | Some _ => inr (advance d x)
  | None =>
      match nanoseconds_until_next_device_event (x_dev x) with
      | None => inr ((Suspended, d_opcode d, d_pc d), x)
      | Some delay => inl (x <| x_dev := advance_time (x_dev x) delay |>)
      end
  end.
Definition execute_wait_for_interrupt (d : decoded) (x : machine) : option (step_result * machine) := while (wait_body d) x.

(** ** Instructions *)

Definition reg0 (d : decoded) : Z := zget (d_reg d) 0.
Definition reg1 (d : decoded) : Z := zget (d_reg d) 1.
Definition reg2 (d : decoded) : Z := zget (d_reg d) 2.
Definition reg3 (d : decoded) : Z := zget (d_reg d) 3.
Definition imm0 (d : decoded) : Z := zget (d_immediate d) 0.
Definition imm1 (d : decoded) : Z := zget (d_immediate d) 1.
Definition rd (x : machine) (n : Z) : Z := reg_read (x_regs x) n.
Definition wr (x : machine) (n v : Z) : machine := x <| x_regs := reg_write (x_regs x) n v |>.

Definition execute_load (d : decoded) (width : nat) (sign_extended displaced : bool) (x : machine) : step_result * machine :=
  let displacement := if displaced then sign_extend (imm0 d) 16 else 0 in
  let address := u64 (rd x (reg0 d) + displacement) in
  match plan_access x address (Z.of_nat width) Load (level_of x) with
  | (inl f, x) => raise d f x
  | (inr plan, x) =>
      let raw := read_planned x plan 0 width in
      let bits := Z.of_nat width * 8 in
      let value := if sign_extended then sign_extend raw bits else zero_extend raw bits in
      advance d (wr x (reg1 d) value)
  end.

Definition execute_store (d : decoded) (width : nat) (displaced : bool) (x : machine) : step_result * machine :=
  let displacement := if displaced then sign_extend (imm0 d) 16 else 0 in
  let address := u64 (rd x (reg1 d) + displacement) in
  match plan_access x address (Z.of_nat width) Store (level_of x) with
  | (inl f, x) => raise d f x
  | (inr plan, x) => advance d (write_planned x plan 0 width (rd x (reg0 d)))
  end.

(** *** Block memory *)

Definition kBlockInterruptCheckBytes : Z := 64.

(** At a mid-operation boundary the clock moves and the lines are sampled. *)
Definition block_mid_operation_interrupt (transferred : Z) (x : machine) : option Z * machine :=
  if (transferred =? 0) || negb (transferred mod kBlockInterruptCheckBytes =? 0) then (None, x) else
  let x := sample_device_interrupts (x <| x_dev := advance_time (x_dev x) kNanosecondsPerInstruction |>) in
  (deliverable_interrupt x, x).

(** One byte of block_set at [i]: what the cycle reports when it stops here,
    or the machine to go on with. *)
Definition block_set_byte (d : decoded) (fill destination count i : Z) (x : machine) : machine + (step_result * machine) :=
  let address := u64 (destination + i) in
  match plan_byte x address Store with
  | (inl f, x) => inr (raise d f (wr (wr x (reg1 d) address) (reg2 d) (count - i)))
  | (inr physical, x) =>
      let x := x <| x_mem := write_byte (x_mem x) physical fill |> in
      match block_mid_operation_interrupt (i + 1) x with
      | (Some cause, x) => inr (deliver_interrupt cause (d_pc d) (wr (wr x (reg1 d) (u64 (address + 1))) (reg2 d) (count - (i + 1))))
      | (None, x) => inl x
      end
  end.

(** Reading then writing one byte of a copy: a refusal, or done. *)
Definition copy_byte (x : machine) (from to : Z) : ((Z * Z * Z) + unit) * machine :=
  match plan_byte x from Load with
  | (inl f, x) => (inl f, x)
  | (inr from_physical, x) =>
      match plan_byte x to Store with
      | (inl f, x) => (inl f, x)
      | (inr to_physical, x) => (inr tt, x <| x_mem := write_byte (x_mem x) to_physical (read_byte (x_mem x) from_physical) |>)
      end
  end.
Definition copy_up_byte (d : decoded) (source destination count i : Z) (x : machine) : machine + (step_result * machine) :=
  let from := u64 (source + i) in let to := u64 (destination + i) in
  match copy_byte x from to with
  | (inl f, x) => inr (raise d f (wr (wr (wr x (reg0 d) from) (reg1 d) to) (reg2 d) (count - i)))
  | (inr _, x) =>
      match block_mid_operation_interrupt (i + 1) x with
      | (Some cause, x) =>
          inr (deliver_interrupt cause (d_pc d)
            (wr (wr (wr x (reg0 d) (u64 (from + 1))) (reg1 d) (u64 (to + 1))) (reg2 d) (count - (i + 1))))
      | (None, x) => inl x
      end
  end.
Definition copy_down_byte (d : decoded) (source destination count i : Z) (x : machine) : machine + (step_result * machine) :=
  let from := u64 (source + i) in let to := u64 (destination + i) in
  match copy_byte x from to with
  | (inl f, x) => inr (raise d f (wr x (reg2 d) (i + 1)))
  | (inr _, x) =>
      match block_mid_operation_interrupt (count - i) x with
      | (Some cause, x) => inr (deliver_interrupt cause (d_pc d) (wr x (reg2 d) i))
      | (None, x) => inl x
      end
  end.

(** The three loops; [finish] is what follows a loop that ran to its end. *)
Definition loop_up (count : Z) (body : Z -> machine -> machine + (step_result * machine))
    (finish : machine -> step_result * machine) (x : machine) : option (step_result * machine) :=
  while (fun '(x, i) => if i <? count then match body i x with inl x => inl (x, i + 1) | inr r => inr r end
                        else inr (finish x)) (x, 0).
Definition loop_down (count : Z) (body : Z -> machine -> machine + (step_result * machine))
    (finish : machine -> step_result * machine) (x : machine) : option (step_result * machine) :=
  while (fun '(x, i) => if 0 <? i then match body (i - 1) x with inl x => inl (x, i - 1) | inr r => inr r end
                        else inr (finish x)) (x, count).

(** The operand slot the encoding rules reject, if any. *)
Definition block_bad_slot (d : decoded) : option Z :=
  let is_set := d_opcode d =? kBlockSet in
  if negb is_set && (reg0 d =? 0) then Some (reg0 d)
  else if reg1 d =? 0 then Some (reg1 d)
  else if reg2 d =? 0 then Some (reg2 d)
  else if reg1 d =? reg0 d then Some (reg1 d)
  else if (reg2 d =? reg0 d) || (reg2 d =? reg1 d) then Some (reg2 d)
  else None.

Definition execute_block (d : decoded) (x : machine) : option (step_result * machine) :=
  match block_bad_slot d with
  | Some r => Some (raise d (kIllegalOperand, kBlockMemoryOperands, r) x)
  | None =>
      let count := rd x (reg2 d) in
      if count =? 0 then Some (advance d x) else
      let destination := rd x (reg1 d) in
      if d_opcode d =? kBlockSet then
        loop_up count (block_set_byte d (u8 (rd x (reg0 d))) destination count)
          (fun x => advance d (wr (wr x (reg1 d) (u64 (destination + count))) (reg2 d) 0)) x
      else
        let source := rd x (reg0 d) in
        let offset := u64 (destination - source) in
        let descending := (d_opcode d =? kBlockCopy) && negb (offset =? 0) && (offset <? count) in
        let finish x := advance d (wr (wr (wr x (reg0 d) (u64 (source + count))) (reg1 d) (u64 (destination + count))) (reg2 d) 0) in
        if descending then loop_down count (copy_down_byte d source destination count) finish x
        else loop_up count (copy_up_byte d source destination count) finish x
  end.

Definition execute_csr (d : decoded) (x : machine) : step_result * machine :=
  let is_write := negb (d_opcode d =? kCsrRead) in
  let value := if is_write then rd x (reg0 d) else 0 in
  let '(outcome, c) := access (x_csr x) (u16 (imm0 d)) (level_of x) is_write value in
  let x := x <| x_csr := c |> in
  match outcome with
  | CsrTrap cause subcode aux => raise d (cause, subcode, aux) x
  | CsrOk prior flushed =>
      let x := if flushed : bool then x <| x_tlb := invalidate_all (x_tlb x) |> else x in
      let x := if d_opcode d =? kCsrRead then wr x (reg0 d) prior
               else if d_opcode d =? kCsrSwap then wr x (reg1 d) prior else x in
      advance d x
  end.

(** Bit fields: position and width are validated first. *)
Definition execute_bitfield (d : decoded) (x : machine) : step_result * machine :=
  let position := Z.land (imm0 d) 0xFF in let width := Z.land (imm1 d) 0xFF in
  if width =? 0 then raise d (kIllegalOperand, kInvalidImmediate, width) x
  else if 64 <? position + width then raise d (kIllegalOperand, kInvalidImmediate, position) x
  else
    let source := rd x (reg0 d) in let mask := field_mask width in
    if d_opcode d =? kBitfieldInsert then
      let field := Z.land source mask in let target := rd x (reg1 d) in
      advance d (wr x (reg1 d) (Z.lor (clr target (u64 (Z.shiftl mask position))) (u64 (Z.shiftl field position))))
    else
      let field := Z.land (Z.shiftr source position) mask in
      advance d (wr x (reg1 d) (if d_opcode d =? kBitfieldExtractSigned then sign_extend field width else field)).

Definition bool_word (b : bool) : Z := if b then 1 else 0.

(** Moves, arithmetic, compares, control transfer: no memory, no trap but the
    divide error. *)
Definition execute_move (d : decoded) (x : machine) : step_result * machine :=
  let o := d_opcode d in
  if o =? kMove then advance d (wr x (reg1 d) (rd x (reg0 d)))
  else advance d (wr x (reg0 d)
    (if o =? kMoveW then imm0 d
     else if o =? kMoveZb then zero_extend (imm0 d) 8
     else if o =? kMoveSb then sign_extend (imm0 d) 8
     else if o =? kMoveZq then zero_extend (imm0 d) 16
     else if o =? kMoveSq then sign_extend (imm0 d) 16
     else if o =? kMoveZh then zero_extend (imm0 d) 32
     else if o =? kMoveSh then sign_extend (imm0 d) 32
     else u64 (d_next_pc d + sign_extend (imm0 d) 32))).

Definition execute_carry (d : decoded) (x : machine) : step_result * machine :=
  let f := if d_opcode d =? kAddCarry then add_carry else subtract_borrow in
  let '(total, carry) := f (rd x (reg0 d)) (rd x (reg1 d)) (Z.land (rd x (reg2 d)) 1) in
  advance d (wr (wr x (reg3 d) total) (reg2 d) carry).

Definition execute_control (d : decoded) (x : machine) : step_result * machine :=
  let o := d_opcode d in
  let displaced := u64 (d_next_pc d + sign_extend (imm0 d) 32) in
  if o =? kJumpDisp then branch_to d displaced x
  else if o =? kJumpReg then branch_to d (rd x (reg0 d)) x
  else if o =? kCallDisp then branch_to d displaced (wr x kLinkRegister (d_next_pc d))
  else if o =? kCallReg then branch_to d (rd x (reg0 d)) (wr x kLinkRegister (d_next_pc d))
  else if o =? kReturn then branch_to d (rd x kLinkRegister) x
  else
    let holds := if o =? kSelectNz then negb (rd x (reg1 d) =? 0) else rd x (reg1 d) =? 0 in
    advance d (if holds then wr x (reg2 d) (rd x (reg0 d)) else x).

Definition load_width (index : Z) : nat := match index with 0 => 8 | 1 | 2 => 1 | 3 | 4 => 2 | _ => 4 end.
Definition load_signed (index : Z) : bool := (index =? 2) || (index =? 4) || (index =? 6).
Definition store_width (index : Z) : nat := match index with 0 => 8 | 1 => 1 | 2 => 2 | _ => 4 end.

(** The system band. *)
Definition execute_system (d : decoded) (x : machine) : option (step_result * machine) :=
  let o := d_opcode d in
  let supervisor := bool_decide (level_of x = Supervisor) in
  if ((o =? kTrapReturn) || (o =? kWaitForInterrupt) || (o =? kTlbInvalidateAll) || (o =? kTlbInvalidateAddress)) && negb supervisor
  then Some (raise d (kPrivilegedOperation, 0, o) x)
  else if o =? kTrapReturn then Some (execute_trap_return d x)
  else if o =? kWaitForInterrupt then execute_wait_for_interrupt d x
  else if o =? kTlbInvalidateAll then Some (advance d (x <| x_tlb := invalidate_all (x_tlb x) |>))
  else if o =? kTlbInvalidateAddress then Some (advance d (x <| x_tlb := invalidate_address (x_tlb x) (rd x (reg0 d)) |>))
  else if o =? kSysImm then Some (raise_trap_class d kSyscall 0 (Z.land (imm0 d) 0xFF) x)
  else if o =? kSysReg then Some (raise_trap_class d kSyscall 0 (Z.land (rd x (reg0 d)) 0xFF) x)
  else if o =? kBreakpoint then Some (raise_trap_class d kBreakpointCause 0 0 x)
  else if o =? kHalt then
    if negb supervisor then Some (raise d (kPrivilegedOperation, 0, o) x)
    else Some ((Halted, o, d_pc d),
      x <| x_pc := d_next_pc d |> <| x_halted := true |> <| x_csr := machine_record_halt (x_csr x) kKindHaltInstruction 0 0 |>)
  else if (o =? kPortIn) || (o =? kPortOut) then
    if negb supervisor then Some (raise d (kPrivilegedOperation, 0, o) x)
    else if o =? kPortIn then
      let '(v, dev) := port_in (x_dev x) (u16 (rd x (reg0 d))) in
      Some (advance d (wr (x <| x_dev := dev |>) (reg1 d) v))
    else Some (advance d (x <| x_dev := port_out (x_dev x) (u16 (rd x (reg1 d))) (rd x (reg0 d)) |>))
  else Some ((Unimplemented, o, d_pc d), x).

Definition execute (d : decoded) (x : machine) : option (step_result * machine) :=
  let o := d_opcode d in
  if upto kMove kPcAdd o then Some (execute_move d x)
  else if upto kAdd kShiftRightArithmeticH o then
    match alu o (rd x (reg0 d)) (rd x (reg1 d)) with
    | inl subcode => Some (raise d (kDivideError, subcode, 0) x)
    | inr v => Some (advance d (wr x (reg2 d) v))
    end
  else if upto kNot kByteReverseH o then Some (advance d (wr x (reg1 d) (unary o (rd x (reg0 d)))))
  else if upto kAddCarry kSubtractBorrow o then Some (execute_carry d x)
  else if upto kAddImm kXorImm o then Some (advance d (wr x (reg1 d) (alu_imm o (rd x (reg0 d)) (imm0 d))))
  else if upto kShiftLeftImm kShiftRightArithmeticHImm o then Some (advance d (wr x (reg1 d) (shift_imm o (rd x (reg0 d)) (imm0 d))))
  else if upto kCompareEq kCompareGeUnsigned o then
    Some (advance d (wr x (reg2 d) (bool_word (evaluate_predicate (o - kCompareEq) (rd x (reg0 d)) (rd x (reg1 d))))))
  else if upto kCompareImmBase (kCompareImmBase + 9) o then
    Some (advance d (wr x (reg1 d) (bool_word (evaluate_predicate (o - kCompareImmBase) (rd x (reg0 d)) (sign_extend (imm0 d) 32)))))
  else if upto kBranchBase (kBranchBase + 9) o then
    if evaluate_predicate (o - kBranchBase) (rd x (reg0 d)) (rd x (reg1 d))
    then Some (branch_to d (u64 (d_next_pc d + sign_extend (imm0 d) 32)) x) else Some (advance d x)
  else if upto kJumpDisp kSelectZ o then Some (execute_control d x)
  else if upto kLoad (kLoadDisp + 6) o then
    let displaced := kLoadDisp <=? o in let index := if displaced then o - kLoadDisp else o - kLoad in
    Some (execute_load d (load_width index) (load_signed index) displaced x)
  else if upto kStore (kStoreDisp + 3) o then
    let displaced := kStoreDisp <=? o in let index := if displaced then o - kStoreDisp else o - kStore in
    Some (execute_store d (store_width index) displaced x)
  else if upto kExtractZb kExtractSh o then
    Some (advance d (wr x (reg1 d) (extract o (rd x (reg0 d)) (zget (d_form d) 0))))
  else if upto kInsertB kInsertH o then
    Some (advance d (wr x (reg1 d) (insert_element o (rd x (reg1 d)) (zget (d_form d) 1) (rd x (reg0 d)))))
  else if upto kBitfieldExtract kBitfieldInsert o then Some (execute_bitfield d x)
  else if upto kBlockCopy kBlockSet o then execute_block d x
  else if (o =? kCsrRead) || (o =? kCsrWrite) || (o =? kCsrSwap) then Some (execute_csr d x)
  else execute_system d x.

(** ** The cycle *)

Definition step (x : machine) : option (step_result * machine) :=
  if x_halted x then Some ((Halted, 0, x_pc x), x) else
  let x := sample_device_interrupts x in
  let '(r, t) := decode_v2 (x_mem x) (c_paging_root (x_csr x)) (level_of x) (x_tlb x) (x_pc x) in
  let x := x <| x_tlb := t |> in
  match r with
  | inl tr => Some (deliver tr 0 (t_pc tr) x)
  | inr d =>
      match deliverable_interrupt x with
      | Some cause => Some (deliver_interrupt cause (x_pc x) x)
      | None =>
          execute d (x <| x_steps := u64 (x_steps x + 1) |>) ≫= fun '(r, x) =>
          Some (r, x <| x_dev := advance_time (x_dev x) kNanosecondsPerInstruction |>)
      end
  end.

(** [run] with a budget of [n] steps, [n] not 0: it goes on until the status
    is not Advanced or the budget is spent.  With a budget of 0 the code runs
    without a bound, which is no function of the machine. *)
Fixpoint run_steps (n : nat) (x : machine) : option (step_result * machine) :=
  match n with
  | O => None
  | S n' => step x ≫= fun '(r, x') =>
      match n', r with
      | S _, (Advanced, _, _) => run_steps n' x'
      | _, _ => Some (r, x')
      end
  end.

(** What can happen to a machine: a cycle, or the host acting on the console
    between two cycles. *)
Inductive v2_event : Type := Cycle | Key (b : Z) | OutputReady (ready : bool) | InputExhausted (exhausted : bool).
Definition on_console (f : console -> console) (x : machine) : machine := x <| x_dev := (x_dev x) <| dv_console := f (dv_console (x_dev x)) |> |>.
Inductive v2_step : machine -> v2_event -> machine -> Prop :=
| step_cycle x r x' : step x = Some (r, x') -> v2_step x Cycle x'
| step_key x b : 0 <= b < 256 -> v2_step x (Key b) (on_console (fun c => host_push_input c b) x)
| step_ready x ready : v2_step x (OutputReady ready) (on_console (fun c => host_set_output_ready c ready) x)
| step_exhausted x e : v2_step x (InputExhausted e) (on_console (fun c => host_set_input_exhausted c e) x).
Inductive v2_reachable (x : machine) : machine -> Prop :=
| reach_start : v2_reachable x x
| reach_step y e z : v2_reachable x y -> v2_step y e z -> v2_reachable x z.
