(* ===== verification/V2Word.v ===== *)
(** * Words of the second-generation machine

    [fits n z]: the value is an [n]-bit unsigned number.  The lemmas say which
    of the machine's arithmetic keeps a value in its width; they are the hint
    database [words]. *)
From Stdlib Require Import ZArith Lia Bool.
From stdpp Require Import base list numbers.
From S2P Require Import Prelude State MemFacts V2Opcode V2Csr V2Interp.

Definition fits (n z : Z) : Prop := 0 <= z < 2 ^ n.
Definition word (z : Z) : Prop := fits 64 z.
Definition byte (z : Z) : Prop := fits 8 z.

Create HintDb words.

(** ** Widths and bits *)

Lemma fits_bits n z : 0 <= n -> fits n z <-> 0 <= z /\ forall i, n <= i -> Z.testbit z i = false.
Proof.
  intros Hn. split.
  - intros [H0 H1]. split; [done|]. intros i Hi. destruct (decide (z = 0)) as [->|Hz]; [apply Z.bits_0|].
    apply Z.bits_above_log2; [done|]. apply Z.log2_lt_pow2; [lia|].
    apply (Z.lt_le_trans _ (2 ^ n)); [done|]. by apply Z.pow_le_mono_r.
  - intros [H0 H1]. split; [done|]. destruct (decide (z = 0)) as [->|Hz]; [by apply Z.pow_pos_nonneg|].
    apply Z.log2_lt_pow2; [lia|]. destruct (Z_lt_le_dec (Z.log2 z) n) as [|Hle]; [done|].
    specialize (H1 _ Hle). rewrite Z.bit_log2 in H1 by lia. done.
Qed.
Lemma fits_mono n k z : fits n z -> n <= k -> fits k z.
Proof. intros [? ?] ?. split; [done|]. apply (Z.lt_le_trans _ (2 ^ n)); [done|]. by apply Z.pow_le_mono_r. Qed.
Lemma fits_0 n : 0 <= n -> fits n 0.
Proof. split; [done|]. by apply Z.pow_pos_nonneg. Qed.

Lemma fits_lor n x y : 0 <= n -> fits n x -> fits n y -> fits n (Z.lor x y).
Proof.
  intros Hn [Hx Hx']%fits_bits [Hy Hy']%fits_bits; [|done..]. apply fits_bits; [done|].
  split; [by apply Z.lor_nonneg|]. intros i Hi. by rewrite Z.lor_spec, Hx', Hy'.
Qed.
Lemma fits_lxor n x y : 0 <= n -> fits n x -> fits n y -> fits n (Z.lxor x y).
Proof.
  intros Hn [Hx Hx']%fits_bits [Hy Hy']%fits_bits; [|done..]. apply fits_bits; [done|].
  split; [by apply Z.lxor_nonneg|]. intros i Hi. by rewrite Z.lxor_spec, Hx', Hy'.
Qed.
Lemma fits_land_l n x y : 0 <= n -> fits n x -> fits n (Z.land x y).
Proof.
  intros Hn [Hx Hx']%fits_bits; [|done]. apply fits_bits; [done|].
  split; [apply Z.land_nonneg; by left|]. intros i Hi. by rewrite Z.land_spec, Hx'.
Qed.
Lemma fits_land_r n x y : 0 <= n -> fits n y -> fits n (Z.land x y).
Proof. intros. rewrite Z.land_comm. by apply fits_land_l. Qed.
Lemma fits_clr n x y : 0 <= n -> fits n x -> fits n (clr x y).
Proof.
  intros Hn [Hx Hx']%fits_bits; [|done]. apply fits_bits; [done|]. unfold clr.
  split; [apply Z.ldiff_nonneg; by left|]. intros i Hi. by rewrite Z.ldiff_spec, Hx'.
Qed.
Lemma fits_shiftr n x k : 0 <= n -> 0 <= k -> fits n x -> fits n (Z.shiftr x k).
Proof.
  intros Hn Hk [Hx Hx']%fits_bits; [|done]. apply fits_bits; [done|].
  split; [by apply Z.shiftr_nonneg|]. intros i Hi. rewrite Z.shiftr_spec by lia. apply Hx'. lia.
Qed.
Lemma fits_shiftl n k x : 0 <= n -> 0 <= k -> fits n x -> fits (n + k) (Z.shiftl x k).
Proof.
  intros Hn Hk [H0 H1]. rewrite Z.shiftl_mul_pow2 by done. split; [lia|].
  rewrite Z.pow_add_r by done. apply Z.mul_lt_mono_pos_r; [by apply Z.pow_pos_nonneg|done].
Qed.
Lemma fits_mod n x : 0 <= n -> fits n (x mod 2 ^ n).
Proof. intros. apply Z.mod_pos_bound. by apply Z.pow_pos_nonneg. Qed.

(** ** Words *)

Lemma word_0 : word 0.
Proof. by apply fits_0. Qed.
Lemma word_u64 x : word (u64 x).
Proof. by apply fits_mod. Qed.
Lemma word_u32 x : word (u32 x).
Proof. apply (fits_mono 32); [by apply fits_mod|lia]. Qed.
Lemma word_u16 x : word (u16 x).
Proof. apply (fits_mono 16); [by apply fits_mod|lia]. Qed.
Lemma word_u8 x : word (u8 x).
Proof. apply (fits_mono 8); [by apply fits_mod|lia]. Qed.
Lemma byte_u8 x : byte (u8 x).
Proof. by apply fits_mod. Qed.
Lemma word_byte x : byte x -> word x.
Proof. intros. apply (fits_mono 8); [done|lia]. Qed.
Lemma word_lor x y : word x -> word y -> word (Z.lor x y).
Proof. by apply fits_lor. Qed.
Lemma word_lxor x y : word x -> word y -> word (Z.lxor x y).
Proof. by apply fits_lxor. Qed.
Lemma word_land_l x y : word x -> word (Z.land x y).
Proof. by apply fits_land_l. Qed.
Lemma word_land_r x y : word y -> word (Z.land x y).
Proof. by apply fits_land_r. Qed.
Lemma word_clr x y : word x -> word (clr x y).
Proof. by apply fits_clr. Qed.
Lemma word_shiftr x k : 0 <= k -> word x -> word (Z.shiftr x k).
Proof. by apply fits_shiftr. Qed.
Lemma word_sign_extend v k : word v -> word (sign_extend v k).
Proof. unfold sign_extend. intros. destruct (64 <=? k); [done|]. apply word_u64. Qed.
Lemma word_zero_extend v k : word v -> word (zero_extend v k).
Proof. unfold zero_extend. intros. destruct (64 <=? k); [done|]. by apply word_land_l. Qed.
Lemma word_bool b : word (bool_word b).
Proof. by destruct b. Qed.
Lemma word_if (b : bool) x y : word x -> word y -> word (if b then x else y).
Proof. by destruct b. Qed.
#[export] Hint Resolve word_0 word_u64 word_u32 word_u16 word_u8 byte_u8 word_byte word_lor word_lxor word_land_l word_clr
  word_sign_extend word_zero_extend word_bool word_if : words.
#[export] Hint Extern 2 (0 <= Z.land _ _) => (apply Z.land_nonneg; right; lia) : words.
#[export] Hint Resolve word_shiftr : words.

Lemma low_half_fits a : word a -> fits 32 (low_half a).
Proof. intros. apply fits_land_r; [lia|]. split; lia. Qed.
Lemma div_word a b : word a -> word b -> b <> 0 -> word (a / b).
Proof. unfold word, fits. intros ? ? ?. split; [apply Z.div_pos; lia|]. apply Z.div_lt_upper_bound; [lia|]. nia. Qed.
Lemma mod_word a b : word b -> b <> 0 -> word (a mod b).
Proof. unfold word, fits. intros ? ?. pose proof (Z.mod_pos_bound a b). lia. Qed.
Lemma word_low_half a : word a -> word (low_half a).
Proof. intros. by apply word_land_l. Qed.
#[export] Hint Resolve word_low_half : words.

(** ** The arithmetic of the instructions *)

Lemma multiply_full_word a b : word (multiply_full_unsigned a b).2.
Proof. apply word_u64. Qed.
Lemma multiply_high_word a b : word (multiply_high_signed_value a b).
Proof. unfold multiply_high_signed_value. auto 6 using multiply_full_word with words. Qed.

Lemma alu_word o a b v : word a -> word b -> alu o a b = inr v -> word v.
Proof.
  intros Ha Hb. pose proof (word_low_half a Ha). pose proof (word_low_half b Hb).
  unfold alu. intros E.
  repeat match type of E with
  | (match ?z with _ => _ end) = _ => is_var z; destruct z
  | (if ?c then _ else _) = _ => let H := fresh in destruct c eqn:H; try discriminate E
  end; simplify_eq; rewrite ?Z.eqb_neq in *; auto using multiply_full_word, multiply_high_word, div_word, mod_word with words.
Qed.

Lemma alu_subcode o a b s : alu o a b = inl s -> fits 8 s.
Proof.
  unfold alu. intros E.
  repeat match type of E with
  | (match ?z with _ => _ end) = _ => is_var z; destruct z
  | (if ?c then _ else _) = _ => destruct c
  end; simplify_eq; done.
Qed.

Lemma fits_lnot n v : 0 <= n -> fits n v -> fits n (Z.lxor v (2 ^ n - 1)).
Proof.
  intros Hn Hv. apply fits_lxor; [done|done|]. pose proof (Z.pow_pos_nonneg 2 n ltac:(lia) Hn). split; lia.
Qed.
Lemma reverse_bytes_fits n v : 0 <= n -> fits (n * 8) (reverse_bytes n v).
Proof.
  intros Hn. unfold reverse_bytes.
  assert (forall l r, Forall (fun i => 0 <= i < n) l -> fits (n * 8) r ->
    fits (n * 8) (foldl (fun r i => Z.lor r (Z.shiftl (Z.land (Z.shiftr v (i * 8)) 0xFF) ((n - 1 - i) * 8))) r l)) as Hl.
  { induction l as [|i l IH]; intros r Hl Hr; [done|]. cbn [foldl]. inversion Hl; subst. apply IH; [done|].
    apply fits_lor; [lia|done|]. apply (fits_mono (8 + (n - 1 - i) * 8)); [|lia].
    apply fits_shiftl; [lia..|]. apply fits_land_r; [lia|]. split; lia. }
  apply Hl; [|apply fits_0; lia]. apply Forall_seqZ. intros i Hi. lia.
Qed.
Lemma unary_word o a : word a -> word (unary o a).
Proof.
  intros Ha.
  assert (word (reverse_bytes 8 a)) by (apply (reverse_bytes_fits 8); lia).
  assert (word (reverse_bytes 4 (low_half a))) by (apply (fits_mono (4 * 8)); [apply reverse_bytes_fits; lia|lia]).
  assert (word kAllOnes /\ word 0xFFFFFFFF) as [? ?] by (unfold kAllOnes; split; split; lia).
  unfold unary.
  repeat match goal with |- word (match ?z with _ => _ end) => is_var z; destruct z end; auto with words.
Qed.
Lemma add_carry_word a b c : word (add_carry a b c).1 /\ word (add_carry a b c).2.
Proof. cbn. split; [apply word_u64|]. by destruct (_ || _). Qed.
Lemma subtract_borrow_word a b c : word (subtract_borrow a b c).1 /\ word (subtract_borrow a b c).2.
Proof. cbn. split; [apply word_u64|]. by destruct (_ || _). Qed.
Lemma alu_imm_word o a i : word a -> word i -> word (alu_imm o a i).
Proof.
  intros Ha Hi. unfold alu_imm.
  repeat match goal with |- word (match ?z with _ => _ end) => is_var z; destruct z end; auto with words.
Qed.
Lemma shift_imm_word o a c : word a -> word (shift_imm o a c).
Proof.
  intros Ha. unfold shift_imm.
  repeat match goal with |- word (match ?z with _ => _ end) => is_var z; destruct z end; auto with words.
Qed.
Lemma extract_word o s e : word (extract o s e).
Proof.
  unfold extract, byte_element, quarter_element, half_element.
  repeat match goal with |- word (match ?z with _ => _ end) => is_var z; destruct z end; auto with words.
Qed.
(** The element index an insertion was decoded with stays inside the word. *)
Lemma insert_element_word o t e s : word t ->
  0 <= e -> (o = 0xA6 -> e <= 7) -> (o = 0xA7 -> e <= 3) -> (o <> 0xA6 -> o <> 0xA7 -> e <= 1) ->
  word (insert_element o t e s).
Proof.
  intros Ht He H8 H16 H32.
  assert (forall n k x, 0 <= n -> 0 <= k -> n + k <= 64 -> fits n x -> word (Z.shiftl x k)) as Hs.
  { intros n k x ? ? ? ?. apply (fits_mono (n + k)); [by apply fits_shiftl|done]. }
  destruct (decide (o = 0xA6)) as [->|H6]; [|destruct (decide (o = 0xA7)) as [->|H7]].
  - apply word_lor; [auto with words|]. apply (Hs 8); [lia..|apply fits_mod; lia].
  - apply word_lor; [auto with words|]. apply (Hs 16); [lia..|apply fits_mod; lia].
  - assert (insert_element o t e s = insert_half t e (u32 s)) as ->.
    { unfold insert_element. repeat match goal with |- match ?z with _ => _ end = _ => is_var z; destruct z; try done end. }
    apply word_lor; [auto with words|]. apply (Hs 32); [lia..|apply fits_mod; lia].
Qed.
#[export] Hint Resolve unary_word alu_imm_word shift_imm_word extract_word : words.

(** * Wide arithmetic of the second-generation machine

    The two-word product built from four 32-bit products, its signed high
    word, and the carry chain. *)

Lemma low32 a : Z.land a 0xFFFFFFFF = a mod 2 ^ 32.
Proof. change 0xFFFFFFFF with (Z.ones 32). by rewrite Z.land_ones by lia. Qed.
Lemma high32 a : Z.shiftr a 32 = a / 2 ^ 32.
Proof. by rewrite Z.shiftr_div_pow2 by lia. Qed.

(** The schoolbook product of two two-digit numbers in base [B]. *)
Lemma schoolbook B al ah bl bh : 0 < B -> 0 <= al < B -> 0 <= bl < B -> 0 <= ah < B -> 0 <= bh < B ->
  let mid := al * bl / B + (al * bh) mod B + (ah * bl) mod B in
  ah * bh + al * bh / B + ah * bl / B + mid / B = (al + ah * B) * (bl + bh * B) / (B * B) /\
  (mid mod B) * B + (al * bl) mod B = ((al + ah * B) * (bl + bh * B)) mod (B * B) /\
  0 <= mid < 3 * B.
Proof.
  intros HB Hal Hbl Hah Hbh mid.
  pose proof (Z.div_mod (al * bl) B ltac:(lia)) as E1. pose proof (Z.mod_pos_bound (al * bl) B HB) as B1.
  pose proof (Z.div_mod (al * bh) B ltac:(lia)) as E2. pose proof (Z.mod_pos_bound (al * bh) B HB) as B2.
  pose proof (Z.div_mod (ah * bl) B ltac:(lia)) as E3. pose proof (Z.mod_pos_bound (ah * bl) B HB) as B3.
  pose proof (Z.div_mod mid B ltac:(lia)) as E4. pose proof (Z.mod_pos_bound mid B HB) as B4.
  assert (0 <= al * bl / B < B) as B5 by (split; [apply Z.div_pos; nia|apply Z.div_lt_upper_bound; nia]).
  assert (0 <= mid < 3 * B) as Bm by (unfold mid; lia).
  set (hi := ah * bh + al * bh / B + ah * bl / B + mid / B). set (lo := (mid mod B) * B + (al * bl) mod B).
  assert ((al + ah * B) * (bl + bh * B) = hi * (B * B) + lo) as E.
  { replace ((al + ah * B) * (bl + bh * B)) with (al * bl + (al * bh + ah * bl) * B + ah * bh * (B * B)) by ring.
    unfold hi, lo. unfold mid in *. nia. }
  assert (0 <= lo < B * B) as Blo by (unfold lo; nia).
  split; [|split; [|done]].
  - apply (Z.div_unique _ _ _ lo); [by left|lia].
  - apply (Z.mod_unique _ _ hi); [by left|lia].
Qed.

Lemma multiply_full_spec a b : word a -> word b ->
  multiply_full_unsigned a b = ((a * b) mod 2 ^ 64, a * b / 2 ^ 64).
Proof.
  intros Ha Hb. unfold word, fits in *. unfold multiply_full_unsigned. rewrite !low32, !high32.
  set (B := 2 ^ 32). assert (2 ^ 64 = B * B) as EB by reflexivity. assert (0 < B) as HB by reflexivity.
  pose proof (Z.div_mod a B ltac:(lia)) as Ea. pose proof (Z.mod_pos_bound a B HB) as Ba.
  pose proof (Z.div_mod b B ltac:(lia)) as Eb. pose proof (Z.mod_pos_bound b B HB) as Bb.
  assert (0 <= a / B < B) as Bah by (split; [apply Z.div_pos; lia|apply Z.div_lt_upper_bound; lia]).
  assert (0 <= b / B < B) as Bbh by (split; [apply Z.div_pos; lia|apply Z.div_lt_upper_bound; lia]).
  set (al := a mod B) in *. set (ah := a / B) in *. set (bl := b mod B) in *. set (bh := b / B) in *.
  clearbody al ah bl bh. assert (a = al + ah * B) as -> by lia. assert (b = bl + bh * B) as -> by lia.
  destruct (schoolbook B al ah bl bh HB Ba Bb Bah Bbh) as (Hhi & Hlo & Hmid).
  assert (forall x y, 0 <= x < B -> 0 <= y < B -> u64 (x * y) = x * y) as Hu.
  { intros x y ? ?. apply Z.mod_small. rewrite EB. nia. }
  rewrite !Hu by done.
  assert (forall x, 0 <= x < 4 * B -> u64 x = x) as Hs by (intros; apply Z.mod_small; unfold B in *; lia).
  assert (0 <= al * bl / B < B) as B5 by (split; [apply Z.div_pos; nia|apply Z.div_lt_upper_bound; nia]).
  pose proof (Z.mod_pos_bound (al * bh) B HB). pose proof (Z.mod_pos_bound (ah * bl) B HB).
  rewrite (Hs (al * bl / B + (al * bh) mod B)) by lia. rewrite (Hs (al * bl / B + (al * bh) mod B + (ah * bl) mod B)) by lia.
  set (mid := al * bl / B + (al * bh) mod B + (ah * bl) mod B) in *.
  f_equal.
  - rewrite Z.shiftl_mul_pow2 by lia. fold B. unfold u64. rewrite EB.
    rewrite Z.mul_mod_distr_r by lia. rewrite (pow_lor 32); [done|lia|apply Z.mod_mul; lia|apply Z.mod_pos_bound; lia].
  - unfold u64. rewrite Zplus_mod_idemp_l, <- Z.add_assoc, Zplus_mod_idemp_l, Z.add_assoc, Hhi. rewrite EB. apply Z.mod_small.
    split; [apply Z.div_pos; nia|apply Z.div_lt_upper_bound; nia].
Qed.

Lemma i64_cases a : word a -> i64 a = a /\ a < 2 ^ 63 \/ i64 a = a - 2 ^ 64 /\ 2 ^ 63 <= a.
Proof.
  unfold word, fits, i64. intros Ha. destruct (Z_lt_le_dec a (2 ^ 63)).
  - left. rewrite Z.mod_small by lia. lia.
  - right. rewrite <- (Z_mod_plus_full _ (-1)), Z.mod_small by lia. lia.
Qed.
Lemma multiply_high_spec a b : word a -> word b ->
  multiply_high_signed_value a b = (i64 a * i64 b / 2 ^ 64) mod 2 ^ 64.
Proof.
  intros Ha Hb. unfold multiply_high_signed_value. rewrite multiply_full_spec by done. cbn [snd].
  assert (forall q k, (a * b + 2 ^ 64 * k) / 2 ^ 64 = q -> q = a * b / 2 ^ 64 + k) as Hq.
  { intros q k <-. rewrite (Z.mul_comm (2 ^ 64)), Z.div_add by lia. done. }
  unfold u64. pose proof Ha as Ha'. pose proof Hb as Hb'. unfold word, fits in Ha', Hb'.
  destruct (i64_cases a Ha) as [[-> Ea]|[-> Ea]], (i64_cases b Hb) as [[-> Eb]|[-> Eb]].
  - rewrite !(proj2 (Z.ltb_ge _ 0)) by lia. symmetry. apply Z.mod_small. split; [apply Z.div_pos; nia|apply Z.div_lt_upper_bound; nia].
  - rewrite (proj2 (Z.ltb_ge a 0)), (proj2 (Z.ltb_lt (b - 2 ^ 64) 0)) by lia.
    rewrite (Hq (a * (b - 2 ^ 64) / 2 ^ 64) (- a)) by (f_equal; ring). f_equal; lia.
  - rewrite (proj2 (Z.ltb_lt (a - 2 ^ 64) 0)), (proj2 (Z.ltb_ge b 0)) by lia.
    rewrite (Hq ((a - 2 ^ 64) * b / 2 ^ 64) (- b)) by (f_equal; ring). f_equal; lia.
  - rewrite (proj2 (Z.ltb_lt (a - 2 ^ 64) 0)), (proj2 (Z.ltb_lt (b - 2 ^ 64) 0)) by lia.
    rewrite (Hq ((a - 2 ^ 64) * (b - 2 ^ 64) / 2 ^ 64) (- a - b + 2 ^ 64)) by (f_equal; ring).
    rewrite Zminus_mod_idemp_l. rewrite <- (Z_mod_plus_full (a * b / 2 ^ 64 - b - a) 1). f_equal; lia.
Qed.

Lemma add_carry_spec a b c : word a -> word b -> 0 <= c <= 1 ->
  a + b + c = (add_carry a b c).1 + 2 ^ 64 * (add_carry a b c).2.
Proof.
  unfold word, fits. intros Ha Hb Hc. unfold add_carry. cbn [fst snd]. set (p := u64 (a + b)). set (t := u64 (p + c)).
  assert (p = a + b \/ p = a + b - 2 ^ 64) as Hp.
  { unfold p, u64. destruct (Z_lt_le_dec (a + b) (2 ^ 64)); [left; apply Z.mod_small; lia|].
    right. rewrite <- (Z_mod_plus_full _ (-1)), Z.mod_small; lia. }
  assert (0 <= p < 2 ^ 64) as Bp by (apply Z.mod_pos_bound; lia).
  assert (t = p + c \/ t = p + c - 2 ^ 64) as Ht.
  { unfold t, u64. destruct (Z_lt_le_dec (p + c) (2 ^ 64)); [left; apply Z.mod_small; lia|].
    right. rewrite <- (Z_mod_plus_full _ (-1)), Z.mod_small; lia. }
  assert (0 <= t < 2 ^ 64) as Bt by (apply Z.mod_pos_bound; lia).
  destruct (Z.ltb_spec p a), (Z.ltb_spec t p); cbn; lia.
Qed.
Lemma subtract_borrow_spec a b c : word a -> word b -> 0 <= c <= 1 ->
  a - b - c = (subtract_borrow a b c).1 - 2 ^ 64 * (subtract_borrow a b c).2.
Proof.
  unfold word, fits. intros Ha Hb Hc. unfold subtract_borrow. cbn [fst snd]. set (p := u64 (a - b)).
  assert ((p = a - b /\ b <= a) \/ (p = a - b + 2 ^ 64 /\ a < b)) as Hp.
  { unfold p, u64. destruct (Z_lt_le_dec a b); [right; rewrite <- (Z_mod_plus_full _ 1), Z.mod_small; lia|].
    left. rewrite Z.mod_small; lia. }
  assert (u64 (p - c) = p - c /\ c <= p \/ u64 (p - c) = p - c + 2 ^ 64 /\ p < c) as Ht.
  { unfold u64. destruct (Z_lt_le_dec p c); [right; rewrite <- (Z_mod_plus_full _ 1), Z.mod_small; lia|].
    left. rewrite Z.mod_small; lia. }
  destruct (Z.ltb_spec a b), (Z.ltb_spec p c); cbn; lia.
Qed.

(** The wide arithmetic is exact.  The two words of the unsigned product
    are the 128-bit product although only 64-bit arithmetic is used; the
    signed high word is that of the two's-complement product; add-with-carry
    and subtract-with-borrow give the result and the carry or borrow of the
    65-bit operation. *)
Theorem wide_arithmetic_exact a b c : word a -> word b -> 0 <= c <= 1 ->
  a * b = (multiply_full_unsigned a b).2 * 2 ^ 64 + (multiply_full_unsigned a b).1 /\
  multiply_high_signed_value a b = (i64 a * i64 b / 2 ^ 64) mod 2 ^ 64 /\
  a + b + c = (add_carry a b c).1 + 2 ^ 64 * (add_carry a b c).2 /\
  a - b - c = (subtract_borrow a b c).1 - 2 ^ 64 * (subtract_borrow a b c).2.
Proof.
  intros Ha Hb Hc. split; [|split; [|split]].
  - rewrite multiply_full_spec by done. cbn [fst snd]. pose proof (Z.div_mod (a * b) (2 ^ 64) ltac:(lia)). lia.
  - by apply multiply_high_spec.
  - by apply add_carry_spec.
  - by apply subtract_borrow_spec.
Qed.
Lemma wide_arithmetic_exact_witness :
  multiply_high_signed_value (2 ^ 64 - 3) 5 = (i64 (2 ^ 64 - 3) * i64 5 / 2 ^ 64) mod 2 ^ 64.
Proof. apply (wide_arithmetic_exact (2 ^ 64 - 3) 5 1); [split; lia|split; lia|lia]. Defined.
