(* ===== verification/V2Wf.v ===== *)
(** * Well-formed machines

    The values every field of the second-generation machine can hold: words
    are words, register 0 is zero, the control registers hold values their
    own rules accept, only device lines are pending, the translation cache
    has its 32 entries.  The parts of an instruction keep them. *)
From Stdlib Require Import ZArith Lia Bool.
From stdpp Require Import base list numbers.
From S2P Require Import Prelude State Memory V2Opcode V2Csr V2Translate V2Interp V2Word.

#[global] Arguments zget : simpl never.
#[global] Arguments zinsert : simpl never.

(** ** The invariant *)

Definition mem_wf (m : memory) : Prop := (forall a, byte (mm_bytes m a)) /\ 0 <= mm_size m <= 2 ^ 64.
Definition regs_wf (r : registers) : Prop := length r = 32%nat /\ Forall word r /\ zget r 0 = 0.

(** The bits that device lines 0 to 7 occupy. *)
Definition line_mask : Z := Z.shiftl 0xFF 32.

Record csr_wf (c : csr_file) : Prop := {
  cw_fcsr : fits 8 (c_fcsr c);
  cw_feature : word (c_feature_bitmap c);
  cw_status : word (c_status c) /\ status_value_is_acceptable (c_status c) = true;
  cw_stack : word (c_trap_stack c) /\ Z.land (c_trap_stack c) 0xF = 0;
  cw_vector : word (c_trap_vector_base c) /\ Z.land (c_trap_vector_base c) 0x7FF = 0;
  cw_root : word (c_paging_root c) /\ value_is_acceptable kPagingRoot (c_paging_root c) = true;
  cw_enable : length (c_interrupt_enable c) = 4%nat /\ Forall word (c_interrupt_enable c) /\
              Z.land (zget (c_interrupt_enable c) 0) 0xFFFFFFFF = 0;
  cw_provider : fits 1 (c_syscall_provider c);
  cw_scratch : word (c_scratch c);
  cw_pending : exists p, c_interrupt_pending c = [p; 0; 0; 0] /\ word p /\ clr p line_mask = 0;
  cw_halt : word (c_halt_cause c);
  cw_boot : word (c_boot_info c) }.

Definition cached_wf (e : option cached) : Prop :=
  match e with Some c => word (ct_physical_base c) /\ fits 48 (ct_offset_mask c) | None => True end.
Definition tlb_wf (t : translator) : Prop :=
  length (tr_entries t) = 32%nat /\ Forall cached_wf (tr_entries t) /\ 0 <= tr_next t < kCapacity.

Definition console_wf (c : console) : Prop :=
  word (con_ack c) /\ Forall byte (con_input c) /\ Forall byte (con_output c) /\
  0 <= con_input_read c <= Z.of_nat (length (con_input c)).
(** Counting is never enabled with a period of zero, and an armed timer is
    counting. *)
Definition timer_wf (t : timer) : Prop :=
  word (tim_ack t) /\ word (tim_period t) /\ fits 2 (tim_mode t) /\ word (tim_monotonic t) /\ word (tim_next_expiry t) /\
  (counting_enabled t = true -> tim_period t <> 0) /\ (tim_armed t = true -> counting_enabled t = true).
Definition devices_wf (d : devices) : Prop := console_wf (dv_console d) /\ timer_wf (dv_timer d).

Record machine_wf (x : machine) : Prop := {
  mw_mem : mem_wf (x_mem x);
  mw_regs : regs_wf (x_regs x);
  mw_dev : devices_wf (x_dev x);
  mw_csr : csr_wf (x_csr x);
  mw_tlb : tlb_wf (x_tlb x);
  mw_pc : word (x_pc x) }.

Definition fault_wf (f : Z * Z * Z) : Prop := let '(c, s, a) := f in fits 8 c /\ fits 8 s /\ word a.
Definition trap_wf (t : trap) : Prop := fits 8 (t_cause t) /\ fits 8 (t_subcode t) /\ word (t_aux t) /\ word (t_pc t).
Definition slot_wf (slot : Slot) (form : Z) : Prop := form_is_legal slot form = true /\ 0 <= form.
Record decoded_wf (d : decoded) : Prop := {
  dw_opcode : byte (d_opcode d);
  dw_pc : word (d_pc d);
  dw_next : word (d_next_pc d);
  dw_reg : Forall (fits 5) (d_reg d);
  dw_form : Forall2 slot_wf (oi_slots (opcode_info (d_opcode d))) (d_form d);
  dw_imm : Forall word (d_immediate d) }.

(** ** One field at a time *)

Lemma wf_set_mem x v : machine_wf x -> mem_wf v -> machine_wf (x <| x_mem := v |>).
Proof. intros [] ?. by constructor. Qed.
Lemma wf_set_regs x v : machine_wf x -> regs_wf v -> machine_wf (x <| x_regs := v |>).
Proof. intros [] ?. by constructor. Qed.
Lemma wf_set_dev x v : machine_wf x -> devices_wf v -> machine_wf (x <| x_dev := v |>).
Proof. intros [] ?. by constructor. Qed.
Lemma wf_set_csr x v : machine_wf x -> csr_wf v -> machine_wf (x <| x_csr := v |>).
Proof. intros [] ?. by constructor. Qed.
Lemma wf_set_tlb x v : machine_wf x -> tlb_wf v -> machine_wf (x <| x_tlb := v |>).
Proof. intros [] ?. by constructor. Qed.
Lemma wf_set_pc x v : machine_wf x -> word v -> machine_wf (x <| x_pc := v |>).
Proof. intros [] ?. by constructor. Qed.
Lemma wf_set_steps x v : machine_wf x -> machine_wf (x <| x_steps := v |>).
Proof. intros []. by constructor. Qed.
Lemma wf_set_halted x v : machine_wf x -> machine_wf (x <| x_halted := v |>).
Proof. intros []. by constructor. Qed.
#[export] Hint Resolve wf_set_mem wf_set_regs wf_set_dev wf_set_csr wf_set_tlb wf_set_pc wf_set_steps wf_set_halted mw_mem mw_regs mw_dev mw_csr mw_tlb mw_pc dw_opcode dw_pc dw_next : words.

Lemma machine_start_wf m pc : mem_wf m -> word pc -> machine_wf (machine_start m pc).
Proof.
  intros Hm Hp. constructor; cbn; try done.
  - split; [done|]. split; [|done]. by apply (Forall_replicate word 32 0).
  - constructor; cbn; try done; try (split; [done|]; done).
    + split; [done|]. split; [|done]. repeat constructor; done.
    + by exists 0.
  - split; [done|]. split; [by apply (Forall_replicate cached_wf 32 None)|done].
Qed.

(** ** Registers and memory *)

Lemma zget_Forall (P : Z -> Prop) l i : Forall P l -> P 0 -> P (zget l i).
Proof.
  intros Hl H0. unfold zget, zlookup. destruct (i <? 0); [done|].
  destruct (l !! Z.to_nat i) as [v|] eqn:E; [|done]. cbn. by eapply Forall_lookup_1.
Qed.
Lemma zget_zinsert l i j v : 0 <= i < Z.of_nat (length l) -> 0 <= j ->
  zget (zinsert i v l) j = if decide (i = j) then v else zget l j.
Proof.
  intros Hi Hj. unfold zget, zlookup, zinsert. destruct (Z.ltb_spec j 0); [lia|].
  destruct (decide (i = j)) as [->|Hne]; [by rewrite list_lookup_insert_eq by lia|].
  rewrite list_lookup_insert_ne by lia. done.
Qed.
Lemma zget_zinsert_ne l i j v : i <> j -> 0 <= i -> 0 <= j -> zget (zinsert i v l) j = zget l j.
Proof.
  intros. unfold zget, zlookup, zinsert. destruct (j <? 0); [done|]. rewrite list_lookup_insert_ne by lia. done.
Qed.
Lemma reg_read_word r n : regs_wf r -> word (reg_read r n).
Proof. intros (_ & H & _). unfold reg_read. destruct (n =? 0); [apply word_0|]. apply zget_Forall; [done|apply word_0]. Qed.
Lemma reg_write_wf r n v : regs_wf r -> 0 <= n -> word v -> regs_wf (reg_write r n v).
Proof.
  intros (Hl & Hr & H0) Hn Hv. unfold reg_write. destruct (Z.eqb_spec n 0); [done|].
  unfold zinsert. split; [by rewrite length_insert|]. split; [by apply Forall_insert|].
  rewrite <- H0 at 2. by apply zget_zinsert_ne.
Qed.
Lemma rd_word x n : machine_wf x -> word (rd x n).
Proof. intros []. by apply reg_read_word. Qed.
Lemma wr_wf x n v : machine_wf x -> 0 <= n -> word v -> machine_wf (wr x n v).
Proof. intros H ? ?. apply wf_set_regs; [done|]. apply reg_write_wf; [apply H|done..]. Qed.
#[export] Hint Resolve rd_word wr_wf : words.

Lemma write_byte_wf m a v : mem_wf m -> byte v -> mem_wf (write_byte m a v).
Proof. intros [Hm Hs] Hv. split; [|done]. intros y. cbn. by destruct (y =? a). Qed.
Lemma write_bytes_wf l m v : mem_wf m -> mem_wf (write_bytes m l v).
Proof. revert m v. induction l as [|a l IH]; intros m v Hm; [done|]. cbn. apply IH. apply write_byte_wf; [done|apply byte_u8]. Qed.
Lemma read_bytes_fits l m : mem_wf m -> fits (8 * Z.of_nat (length l)) (read_bytes m l).
Proof.
  intros [Hm _]. induction l as [|a l IH]; [by split|]. cbn [read_bytes length].
  apply fits_lor; [lia| |].
  - apply (fits_mono 8); [apply Hm|lia].
  - apply (fits_mono (8 * Z.of_nat (length l) + 8)); [apply fits_shiftl; [lia..|done]|lia].
Qed.
Lemma read_little_endian_word m a : mem_wf m -> word (read_little_endian m a 8).
Proof. intros Hm. eapply fits_mono; [by apply read_bytes_fits|]. rewrite length_fmap, length_seqZ. done. Qed.
Lemma read_planned_word x plan o w : machine_wf x -> (w <= 8)%nat -> word (read_planned x plan o w).
Proof.
  intros H Hw. eapply fits_mono; [apply read_bytes_fits, H|]. rewrite length_take. lia.
Qed.
Lemma write_planned_wf x plan o w v : machine_wf x -> machine_wf (write_planned x plan o w v).
Proof. intros H. apply wf_set_mem; [done|]. apply write_bytes_wf, H. Qed.
#[export] Hint Resolve read_planned_word write_planned_wf write_byte_wf : words.

(** ** Translation and access planning *)

Lemma fits_const n v : 0 <= v -> v < 2 ^ n -> fits n v.
Proof. by split. Qed.
Lemma page_offset_mask_fits level : (level <= 3)%nat -> fits 48 (page_offset_mask level).
Proof. intros. assert (level = 0 \/ level = 1 \/ level = 2 \/ level = 3)%nat as [->|[->|[->| ->]]] by lia; done. Qed.
Lemma page_fault_wf k s va : s = kNoMapping \/ s = kPermission -> word va -> fault_wf (page_fault k s va).
Proof. intros [-> | ->] ?; destruct k; done. Qed.

Lemma lowest_of_elem m l low : lowest_of m l = Some low -> low ∈ l /\ accessible m low = false.
Proof.
  unfold lowest_of.
  assert (forall l acc, (forall a, acc = Some a -> accessible m a = false) ->
    forall low, foldl (fun acc a => if accessible m a then acc
      else match acc with None => Some a | Some low => if a <? low then Some a else acc end) acc l = Some low ->
    (acc = Some low \/ low ∈ l) /\ accessible m low = false) as H.
  { clear. induction l as [|a l IH]; intros acc Hacc low E; cbn in E; [split; [by left|by apply Hacc]|].
    apply IH in E as [[E|E] H].
    - split; [|done]. destruct (accessible m a) eqn:Ea; [by left|].
      destruct acc as [b|]; [destruct (a <? b)|]; simplify_eq; (by left) || (right; by left).
    - split; [|done]. right. by right.
    - destruct (accessible m a) eqn:Ea; [done|]. intros b. destruct acc as [c|]; [destruct (a <? c); [|apply Hacc]|]; intros; by simplify_eq. }
  intros E. apply H in E as [[?|?] ?]; done.
Qed.
Lemma lowest_of_None m l : lowest_of m l = None -> Forall (fun a => accessible m a = true) l.
Proof.
  unfold lowest_of.
  assert (forall l acc, foldl (fun acc a => if accessible m a then acc
      else match acc with None => Some a | Some low => if a <? low then Some a else acc end) acc l = None ->
    acc = None /\ Forall (fun a => accessible m a = true) l) as H; [|intros E; by apply H in E as [_ ?]].
  clear. induction l as [|a l IH]; intros acc E; [done|]. cbn in E. apply IH in E as [E H].
  destruct (accessible m a) eqn:Ea; [split; [done|by constructor]|]. destruct acc as [b|]; [destruct (a <? b)|]; done.
Qed.

Lemma check_range_word m a n low : check_range m a n = Some low -> word low.
Proof. intros [H _]%lowest_of_elem. apply list_elem_of_fmap in H as (? & -> & _). apply word_u64. Qed.

Lemma walk_leaf_wf m va k tr level table : mem_wf m -> word va -> (level <= 3)%nat ->
  match walk_leaf m va k tr level table with inl f => fault_wf f | inr c => cached_wf (Some c) end.
Proof.
  intros Hm Hva. revert table. induction level as [|level IH]; intros table Hl; cbn [walk_leaf];
    (destruct (check_range _ _ _) as [low|] eqn:Ec; [split; [done|]; split; [done|by eapply check_range_word]|]);
    repeat match goal with |- context [if ?c then _ else _] => destruct c end;
    try (apply page_fault_wf; [by left|done]); try (apply IH; lia).
  all: split; [apply word_clr, read_little_endian_word, Hm|by apply page_offset_mask_fits].
Qed.

Lemma insert_cached_wf t c : tlb_wf t -> cached_wf (Some c) -> tlb_wf (insert_cached t c).
Proof.
  intros (Hl & Hf & Hn) Hc. split; [cbn; unfold zinsert; by rewrite length_insert|].
  split; [by apply Forall_insert|]. cbn. by apply Z.mod_pos_bound.
Qed.
Lemma invalidate_all_wf t : tlb_wf t -> tlb_wf (invalidate_all t).
Proof. intros (Hl & Hf & Hn). split; [by cbn; rewrite length_fmap|]. split; [|done]. cbn. apply Forall_fmap. by eapply List.Forall_impl; [|exact Hf]. Qed.
Lemma invalidate_address_wf t va : tlb_wf t -> tlb_wf (invalidate_address t va).
Proof.
  intros (Hl & Hf & Hn). split; [by cbn; rewrite length_fmap|]. split; [|done]. cbn. apply Forall_fmap.
  eapply List.Forall_impl; [|exact Hf]. intros e He. cbn. by destruct (hit _ e).
Qed.
#[export] Hint Resolve insert_cached_wf invalidate_all_wf invalidate_address_wf : words.

Lemma lookup_cached_wf t tr c : tlb_wf t -> lookup_cached t tr = Some c -> cached_wf (Some c).
Proof.
  intros (_ & Hf & _). unfold lookup_cached. destruct (find (hit tr) (tr_entries t)) as [[c'|]|] eqn:E; cbn; intros; simplify_eq.
  apply List.find_some in E as [Hin _]. rewrite List.Forall_forall in Hf. by apply Hf in Hin.
Qed.
Lemma finish_wf c tr va k l : word va -> word tr -> cached_wf (Some c) ->
  match finish c tr va k l with inl f => fault_wf f | inr p => word p end.
Proof.
  intros Hva Htr [Hp Hm]. unfold finish. destruct (leaf_admits _ _ _); [|apply page_fault_wf; [by right|done]].
  apply word_lor; [done|]. by apply word_land_l.
Qed.
Lemma translate_wf t m root l k va r t' : tlb_wf t -> mem_wf m -> word va ->
  translate t m root l k va = (r, t') -> tlb_wf t' /\ match r with inl f => fault_wf f | inr p => word p end.
Proof.
  intros Ht Hm Hva. unfold translate. destruct (_ =? kModeBare); [by intros [= <- <-]|].
  set (tr := Z.land va kTranslatedMask). assert (word tr) by (by apply word_land_l).
  destruct (lookup_cached t tr) as [c|] eqn:El.
  - intros [= <- <-]. split; [done|]. apply finish_wf; [done..|]. by eapply lookup_cached_wf.
  - pose proof (walk_leaf_wf m va k tr 3 (address_field root) Hm Hva ltac:(lia)) as Hw.
    destruct (walk_leaf _ _ _ _ _ _) as [f|c]; intros [= <- <-]; [done|].
    split; [by apply insert_cached_wf|by apply finish_wf].
Qed.

(** Planning only moves the translation cache. *)
Lemma plan_bytes_wf l x k level r x' : machine_wf x -> Forall word l -> plan_bytes x l k level = (r, x') ->
  exists t, tlb_wf t /\ x' = x <| x_tlb := t |> /\
  match r with inl f => fault_wf f | inr plan => Forall word plan /\ length plan = length l end.
Proof.
  revert x r x'. induction l as [|a l IH]; intros x r x' Hx Hl; cbn [plan_bytes].
  { intros [= <- <-]. exists (x_tlb x). split; [apply Hx|]. by destruct x. }
  apply Forall_cons_1 in Hl as [Ha Hl]. destruct (translate _ _ _ _ _ _) as [q t] eqn:Et.
  apply translate_wf in Et as [Ht Hq]; [|apply Hx..|done]. destruct q as [f|p]; [intros [= <- <-]; by exists t|].
  destruct (plan_bytes _ l k level) as [[f|plan] x1] eqn:Ep; intros [= <- <-];
    (apply IH in Ep as (t1 & Ht1 & -> & Hr); [|by apply wf_set_tlb|done]); exists t1; (split; [done|]); (split; [done|]); [done|].
  destruct Hr as [Hr1 Hr2]. split; [by constructor|]. cbn. by rewrite Hr2.
Qed.
Lemma plan_access_wf x a n k level r x' : machine_wf x -> plan_access x a n k level = (r, x') ->
  exists t, tlb_wf t /\ x' = x <| x_tlb := t |> /\
  match r with
  | inl f => fault_wf f
  | inr plan => Forall word plan /\ length plan = Z.to_nat n /\ Forall (fun p => accessible (x_mem x) p = true) plan
  end.
Proof.
  intros Hx. unfold plan_access. destruct (plan_bytes _ _ _ _) as [q x1] eqn:E.
  apply plan_bytes_wf in E as (t & Ht & -> & Hq); [|done|apply Forall_fmap, Forall_forall; intros; apply word_u64].
  destruct q as [f|plan]; [intros [= <- <-]; by exists t|]. rewrite length_fmap, length_seqZ in Hq. destruct Hq as [Hq Hl].
  destruct (lowest_of _ plan) as [low|] eqn:Elow; intros [= <- <-]; exists t; (split; [done|]); (split; [done|]).
  - apply lowest_of_elem in Elow as [Elow _]. split; [done|]. split; [done|]. rewrite list.Forall_forall in Hq. by apply Hq.
  - split; [done|]. split; [done|]. by apply lowest_of_None in Elow.
Qed.
Lemma plan_byte_wf x a k r x' : machine_wf x -> plan_byte x a k = (r, x') ->
  exists t, tlb_wf t /\ x' = x <| x_tlb := t |> /\
  match r with inl f => fault_wf f | inr p => word p /\ accessible (x_mem x) p = true end.
Proof.
  intros Hx. unfold plan_byte. destruct (plan_access _ _ _ _ _) as [q x1] eqn:E.
  apply plan_access_wf in E as (t & Ht & -> & Hq); [|done]. destruct q as [f|plan]; intros [= <- <-]; exists t; [done|].
  split; [done|]. split; [done|]. destruct Hq as (H1 & H2 & H3). destruct plan as [|p [|? ?]]; try done.
  apply Forall_cons_1 in H1 as [? _]. apply Forall_cons_1 in H3 as [? _]. done.
Qed.

(** ** Control registers *)

Lemma clr_0_fits v n : word v -> 0 <= n -> clr v (Z.ones n) = 0 -> fits n v.
Proof.
  intros [H0 _] Hn E. apply fits_bits; [done|]. split; [done|]. intros i Hi.
  assert (Z.testbit (clr v (Z.ones n)) i = false) as Hb by (rewrite E; apply Z.bits_0). unfold clr in Hb.
  rewrite Z.ldiff_spec, Z.ones_spec_high in Hb by lia. by rewrite andb_true_r in Hb.
Qed.

Lemma csr_store_wf c n v : csr_wf c -> word v -> value_is_acceptable n v = true -> csr_wf (csr_store c n v).
Proof.
  intros [] Hv. unfold value_is_acceptable, csr_store.
  destruct (n =? kFcsr); [intros ?%Z.eqb_eq; constructor; try done; by apply (clr_0_fits v 8)|].
  destruct (n =? kStatus); [by constructor|].
  destruct (n =? kTrapStack); [intros ?%Z.eqb_eq; by constructor|].
  destruct (n =? kTrapVectorBase); [intros ?%Z.eqb_eq; by constructor|].
  destruct (n =? kPagingRoot); [by constructor|].
  destruct (in_array kInterruptEnable0 n) eqn:Ea.
  - unfold in_array in Ea. apply andb_true_iff in Ea as [Ea1%Z.leb_le Ea2%Z.leb_le].
    intros Hok. destruct cw_enable0 as (Hl & Hf & Hz). constructor; cbn; try done.
    split; [unfold zinsert; by rewrite length_insert|]. split; [by apply Forall_insert|].
    rewrite zget_zinsert by lia. destruct (decide _) as [E|]; [|done].
    replace n with kInterruptEnable0 in Hok by lia. rewrite Z.eqb_refl in Hok. by apply Z.eqb_eq.
  - replace (n =? kInterruptEnable0) with false by (symmetry; apply Z.eqb_neq; intros ->; done).
    destruct (n =? kSyscallProvider); [intros ?%Z.eqb_eq; constructor; try done; by apply (clr_0_fits v 1)|].
    destruct (n =? kScratch); by constructor.
Qed.
Lemma set_flushes_wf c v : csr_wf c -> csr_wf (c <| c_translation_flushes := v |>).
Proof. intros []. by constructor. Qed.

Lemma read_raw_word c n : csr_wf c -> word (read_raw c n).
Proof.
  intros []. unfold read_raw. destruct cw_enable0 as (_ & He & _). destruct cw_pending0 as (p & -> & Hp & _).
  assert (Forall word [p; 0; 0; 0]) by (apply Forall_cons_2; [done|by apply (Forall_replicate word 3 0)]).
  assert (word (c_fcsr c)) by (by apply (fits_mono 8)). assert (word (c_syscall_provider c)) by (by apply (fits_mono 1)).
  repeat match goal with |- word (if ?b then _ else _) => destruct b end; try done; try tauto; try apply word_clr;
    apply zget_Forall; done || apply word_0.
Qed.

Definition outcome_wf (o : csr_outcome) : Prop :=
  match o with CsrTrap c s a => fault_wf (c, s, a) | CsrOk prior _ => word prior end.
Lemma access_wf c n l w v o c' : csr_wf c -> fits 16 n -> word v -> access c n l w v = (o, c') -> csr_wf c' /\ outcome_wf o.
Proof.
  intros Hc Hn Hv. assert (word n) by (by apply (fits_mono 16)). pose proof (read_raw_word c n Hc). unfold access.
  repeat match goal with |- context [if ?b then (CsrTrap _ _ _, _) else _] => destruct b eqn:?; [by intros [= <- <-]|] end.
  destruct w; [|by intros [= <- <-]]. cbn in *.
  match goal with H : negb (value_is_acceptable _ _) = false |- _ => apply negb_false_iff in H end.
  destruct (n =? kPagingRoot); intros [= <- <-]; split; try done; [apply set_flushes_wf|]; by apply csr_store_wf.
Qed.

Lemma trap_stack_step v k : word v -> Z.land v 0xF = 0 -> k mod 16 = 0 -> Z.land (u64 (v + k)) 0xF = 0.
Proof.
  intros _ Hv Hk. change 0xF with (Z.ones 4) in *. rewrite Z.land_ones in * by lia. change (2 ^ 4) with 16 in *.
  unfold u64. change (2 ^ 64) with (16 * 2 ^ 60). rewrite Z.rem_mul_r by lia.
  rewrite Z.mul_comm, Z_mod_plus_full, Z.mod_mod, Z.add_mod, Hv, Hk by lia. done.
Qed.
Lemma set_trap_stack_wf c k : csr_wf c -> k mod 16 = 0 -> csr_wf (machine_set_trap_stack c (u64 (c_trap_stack c + k))).
Proof. intros [] Hk. constructor; try done. split; [apply word_u64|]. destruct cw_stack0. by apply trap_stack_step. Qed.
Lemma write_status_wf c v : csr_wf c -> word v -> status_value_is_acceptable v = true -> csr_wf (machine_write_status c v).
Proof. intros [] ? ?. by constructor. Qed.

(** The five statuses. *)
Lemma status_cases v : word v -> status_value_is_acceptable v = true -> v = 0 \/ v = 1 \/ v = 4 \/ v = 5.
Proof.
  intros Hv H. unfold status_value_is_acceptable in H. apply andb_true_iff in H as [H1%Z.eqb_eq H2].
  apply (clr_0_fits v 3) in H1 as [? Hlt]; [|done..]. change (2 ^ 3) with 8 in Hlt.
  assert (v = 0 \/ v = 1 \/ v = 2 \/ v = 3 \/ v = 4 \/ v = 5 \/ v = 6 \/ v = 7) as Hc by lia.
  destruct Hc as [->|[->|[->|[->|[->|[->|[->| ->]]]]]]]; vm_compute in H2; try discriminate; tauto.
Qed.
Lemma enter_supervisor_wf c : csr_wf c -> csr_wf (machine_enter_supervisor c).
Proof.
  intros Hc. destruct (Hc). destruct cw_status0 as [Hs Ha]. constructor; cbn; try done.
  apply status_cases in Ha as [->|[->|[->| ->]]]; done.
Qed.
Lemma record_halt_wf c k a b : csr_wf c -> fits 8 k -> fits 8 a -> fits 8 b -> csr_wf (machine_record_halt c k a b).
Proof.
  intros [] Hk Ha Hb. constructor; cbn; try done. unfold halt_encode.
  apply word_lor; [apply word_lor|]; [by apply (fits_mono 8)| |].
  - apply (fits_mono (8 + 8)); [by apply fits_shiftl|lia].
  - apply (fits_mono (8 + 16)); [by apply fits_shiftl|lia].
Qed.
#[export] Hint Resolve set_flushes_wf set_trap_stack_wf write_status_wf enter_supervisor_wf record_halt_wf : words.

(** ** Devices and interrupts *)

Lemma cause_bit_line n : 32 <= n < 40 -> word (cause_bit n) /\ Z.land (cause_bit n) line_mask = cause_bit n.
Proof.
  intros Hn. assert (n = 32 \/ n = 33 \/ n = 34 \/ n = 35 \/ n = 36 \/ n = 37 \/ n = 38 \/ n = 39) as Hc by lia.
  destruct Hc as [->|[->|[->|[->|[->|[->|[->| ->]]]]]]]; done.
Qed.
Lemma clr_lor_0 x y m : clr x m = 0 -> Z.land y m = y -> clr (Z.lor x y) m = 0.
Proof.
  unfold clr. intros Hx <-. apply Z.bits_inj'. intros i Hi. pose proof (f_equal (fun z => Z.testbit z i) Hx) as Hb. cbn in Hb.
  rewrite Z.ldiff_spec in Hb. rewrite Z.ldiff_spec, Z.lor_spec, Z.land_spec, Z.bits_0 in *.
  destruct (Z.testbit x i), (Z.testbit m i), (Z.testbit y i); done.
Qed.
Lemma clr_clr_0 x y m : clr x m = 0 -> clr (clr x y) m = 0.
Proof.
  unfold clr. intros Hx. apply Z.bits_inj'. intros i Hi. pose proof (f_equal (fun z => Z.testbit z i) Hx) as Hb. cbn in Hb.
  rewrite Z.ldiff_spec in Hb. rewrite !Z.ldiff_spec, Z.bits_0 in *.
  destruct (Z.testbit x i), (Z.testbit m i), (Z.testbit y i); done.
Qed.
Lemma raise_pending_wf c n : csr_wf c -> 32 <= n < 40 -> csr_wf (machine_raise_pending c n).
Proof.
  intros [] Hn. constructor; cbn; try done. destruct cw_pending0 as (p & -> & Hp & Hm).
  replace (n / 64) with 0 by (symmetry; apply Z.div_small; lia). destruct (cause_bit_line n Hn) as [Hw Hl].
  exists (Z.lor p (cause_bit n)). split; [done|]. split; [by apply word_lor|by apply clr_lor_0].
Qed.
Lemma clear_pending_wf c n : csr_wf c -> 32 <= n < 40 -> csr_wf (machine_clear_pending c n).
Proof.
  intros [] Hn. constructor; cbn; try done. destruct cw_pending0 as (p & -> & Hp & Hm).
  replace (n / 64) with 0 by (symmetry; apply Z.div_small; lia).
  exists (clr p (cause_bit n)). split; [done|]. split; [by apply word_clr|by apply clr_clr_0].
Qed.
Lemma sample_wf x : machine_wf x -> machine_wf (sample_device_interrupts x).
Proof.
  intros Hx. apply wf_set_csr; [done|]. generalize (asserted_interrupt_lines (x_dev x)). intros lines.
  assert (forall l c, Forall (fun i => 0 <= i < 8) l -> csr_wf c ->
    csr_wf (foldl (fun c line => if Z.testbit lines line then machine_raise_pending c (kFirstExternalInterrupt + line)
         else machine_clear_pending c (kFirstExternalInterrupt + line)) c l)) as H.
  { induction l as [|i l IH]; intros c Hl Hc; [done|]. apply Forall_cons_1 in Hl as [Hi Hl]. cbn [foldl]. apply IH; [done|].
    unfold kFirstExternalInterrupt. destruct (Z.testbit lines i); [apply raise_pending_wf|apply clear_pending_wf]; done || lia. }
  apply H; [|apply Hx]. apply Forall_seqZ. unfold kHighestClassCode. lia.
Qed.

(** Only a device line can be pending. *)
Lemma pending_line c n : csr_wf c -> 0 <= n < 256 -> pending c n = true -> 32 <= n < 40.
Proof.
  intros Hc Hn. destruct (cw_pending c Hc) as (p & E & Hp & Hm). unfold pending, has. rewrite E. intros Hb.
  apply negb_true_iff, Z.eqb_neq in Hb. assert (n < 64) as Hn'.
  { destruct (Z_lt_le_dec n 64); [done|]. destruct Hb. assert (1 <= n / 64 < 4) as Hd.
    { split; [apply Z.div_le_lower_bound; lia|apply Z.div_lt_upper_bound; lia]. }
    assert (n / 64 = 1 \/ n / 64 = 2 \/ n / 64 = 3) as [->|[->| ->]] by lia; done. }
  rewrite Z.div_small in Hb by lia. change (zget [p; 0; 0; 0] 0) with p in Hb.
  unfold cause_bit in Hb. rewrite Z.mod_small in Hb by lia.
  assert (Z.testbit p n = true) as Ht.
  { destruct (Z.testbit p n) eqn:Et; [done|]. destruct Hb. apply Z.bits_inj'. intros i Hi.
    rewrite Z.land_spec, Z.shiftl_1_l, Z.bits_0. destruct (decide (i = n)) as [->|]; [by rewrite Et|].
    rewrite Z.pow2_bits_false by done. apply andb_false_r. }
  pose proof (f_equal (fun z => Z.testbit z n) Hm) as Hb'. cbn in Hb'. unfold clr, line_mask in Hb'.
  rewrite Z.ldiff_spec, Ht, Z.bits_0, Z.shiftl_spec in Hb' by lia.
  destruct (decide (n < 32)); [rewrite Z.testbit_neg_r in Hb' by lia; done|].
  destruct (decide (40 <= n)); [|lia]. rewrite (Z.bits_above_log2 0xFF) in Hb' by (cbn; lia). done.
Qed.
Lemma lowest_pending_line c n : csr_wf c -> lowest_pending_and_enabled c = Some n -> 32 <= n < 40.
Proof.
  intros Hc E. apply List.find_some in E as [Hin Hb]. apply list_elem_of_In, elem_of_seqZ in Hin.
  apply andb_true_iff in Hb as [Hb _]. apply (pending_line c); [done|exact Hin|done].
Qed.

Lemma console_write_wf c o v : console_wf c -> word v -> console_wf (console_write c o v).
Proof.
  intros (Ha & Hi & Ho & Hr) Hv. unfold console_write.
  repeat match goal with |- context [if ?b then _ else _] => destruct b end; try done; refine (conj _ (conj _ (conj _ _))); cbn; auto with words.
  { by apply word_lor. }
  apply Forall_app. split; [done|]. apply Forall_singleton. apply fits_land_r; [lia|done].
Qed.
Lemma console_read_wf c o v c' : console_wf c -> console_read c o = (v, c') -> word v /\ console_wf c'.
Proof.
  intros (Ha & Hi & Ho & Hr). unfold console_read.
  destruct (o =? 0); [by intros [= <- <-]|]. destruct (o =? 1).
  { intros [= <- <-]. split; [|done]. apply word_lor; [done|]. unfold console_held.
    by destruct (input_available c), (con_output_ready c), (con_input_exhausted c). }
  destruct (o =? 2); [intros [= <- <-]; by destruct (con_irq c)|].
  destruct (_ && _) eqn:E; [|by intros [= <- <-]]. apply andb_true_iff in E as [_ E].
  unfold input_available in E. apply Z.ltb_lt in E. intros [= <- <-].
  split; [apply word_byte; by apply zget_Forall|]. refine (conj _ (conj _ (conj _ _))); cbn; try done. lia.
Qed.
(** The seven parts of a timer, most of them unchanged. *)
Ltac timer_split := refine (conj _ (conj _ (conj _ (conj _ (conj _ (conj _ _)))))); cbn; try done; auto with words.
Lemma arm_wf t : timer_wf t -> counting_enabled t = true -> timer_wf (arm t).
Proof. intros (? & ? & ? & ? & ? & ? & ?) ?. timer_split. Qed.
Lemma refuse_wf t : timer_wf t \/ timer_wf (t <| tim_mode := 0 |> <| tim_armed := false |>) /\ fits 2 (tim_mode t) ->
  timer_wf (refuse_counting_with_a_zero_period t).
Proof.
  intros H. assert (word (tim_ack t) /\ word (tim_period t) /\ fits 2 (tim_mode t) /\ word (tim_monotonic t) /\ word (tim_next_expiry t)) as (Ha & Hp & Hm & Hn & He).
  { destruct H as [(? & ? & ? & ? & ? & _)|[(? & ? & ? & ? & ? & _) ?]]; done. }
  timer_split.
  - by apply word_lor.
  - by apply fits_clr.
  - unfold counting_enabled. cbn. assert (forall m, has (clr m kModeCountingEnabled) kModeCountingEnabled = false) as ->; [|done].
    intros m. unfold has, clr. apply negb_false_iff, Z.eqb_eq, Z.bits_inj'. intros i Hi.
    rewrite Z.land_spec, Z.ldiff_spec, Z.bits_0. by destruct (Z.testbit m i), (Z.testbit kModeCountingEnabled i).
Qed.
Lemma timer_write_wf t o v : timer_wf t -> word v -> timer_wf (timer_write t o v).
Proof.
  intros Ht Hv. pose proof Ht as (Ha & Hp & Hm & Hn & He & Hc & Hr).
  assert (fits 2 (Z.land v kModeDefinedMask)) as Hf by (apply fits_land_r; [lia|done]). unfold timer_write.
  destruct (o =? 0); [done|]. destruct (o =? 1).
  { assert (timer_wf (t <| tim_ack := clr (tim_ack t) v |>)) as Ht' by (timer_split).
    unfold on_acknowledge. destruct (negb _); [done|]. destruct (_ && _) eqn:E; [|done]. apply andb_true_iff in E as [E _]. by apply arm_wf. }
  destruct (o =? 2); [done|]. destruct (o =? 3).
  { destruct (counting_enabled (t <| tim_period := v |>)) eqn:Ec; cbn [negb].
    - destruct (Z.eqb_spec v 0) as [->|Hv0]; [|timer_split].
      apply refuse_wf. right. split; [|done]. timer_split.
    - unfold timer_wf. cbn. change (counting_enabled (t <| tim_period := v |> <| tim_armed := false |>)) with (counting_enabled (t <| tim_period := v |>)).
      rewrite Ec. repeat (split; [done|]). done. }
  destruct (o =? 4); [|done]. destruct (has _ _ && _) eqn:E.
  { apply refuse_wf. right. split; [|done]. timer_split. }
  destruct (counting_enabled (t <| tim_mode := Z.land v kModeDefinedMask |>)) eqn:Ec.
  - unfold counting_enabled in Ec. cbn in Ec. rewrite Ec in E. cbn in E. apply Z.eqb_neq in E.
    timer_split.
  - timer_split.
    unfold counting_enabled in *. cbn in *. by rewrite Ec.
Qed.
Lemma timer_advance_wf t ns : timer_wf t -> timer_wf (timer_advance t ns).
Proof.
  intros (Ha & Hp & Hm & Hn & He & Hc & Hr). unfold timer_advance. cbn.
  destruct (_ && _); timer_split. by apply word_lor.
Qed.
Lemma timer_read_word t o : timer_wf t -> word (timer_read t o).
Proof.
  intros (Ha & Hp & Hm & Hn & He & _). unfold timer_read. assert (word (tim_mode t)) by (by apply (fits_mono 2)).
  repeat match goal with |- word (if ?b then _ else _) => destruct b end; done.
Qed.
Lemma advance_time_wf d ns : devices_wf d -> devices_wf (advance_time d ns).
Proof. intros [? ?]. split; [done|]. by apply timer_advance_wf. Qed.
Lemma port_in_wf d p v d' : devices_wf d -> port_in d p = (v, d') -> word v /\ devices_wf d'.
Proof.
  intros Hd. unfold port_in. destruct (_ =? kMachineBlock).
  { intros [= <- <-]. split; [|done]. unfold machine_block_read. generalize (port_offset p). intros o. by destruct (o =? 0), (o =? 1). }
  destruct (_ =? kConsole).
  - destruct (console_read _ _) as [w c] eqn:E. intros [= <- <-]. apply console_read_wf in E as [? ?]; [|apply Hd]. by destruct Hd.
  - destruct (_ =? kTimer); intros [= <- <-]; [|done]. split; [apply timer_read_word, Hd|done].
Qed.
Lemma port_out_wf d p v : devices_wf d -> word v -> devices_wf (port_out d p v).
Proof.
  intros [Hc Ht] Hv. unfold port_out. destruct (_ =? kMachineBlock); [done|].
  destruct (_ =? kConsole); [split; [by apply console_write_wf|done]|].
  destruct (_ =? kTimer); [split; [done|by apply timer_write_wf]|done].
Qed.
#[export] Hint Resolve sample_wf advance_time_wf port_out_wf : words.
