(* ===== verification/V2Total.v ===== *)
(** * Every cycle ends in a well-formed machine

    The decoder's result is well formed, every instruction keeps the machine
    well formed, and the two loops of the execute stage end: a block operation
    after at most 2^64 bytes, a wait after the one timer expiry that can be
    ahead of it. *)
From Stdlib Require Import ZArith Lia Bool.
From stdpp Require Import base list numbers.
From S2P Require Import Prelude State Memory V2Opcode V2Csr V2Translate V2Interp V2Word V2Wf.

(** ** Decoding *)

Section Decode.
Context (m : memory) (root : Z) (level : privilege) (Hm : mem_wf m).

Lemma fetch_byte_wf t a r t' : tlb_wf t -> word a -> fetch_byte m root level t a = (r, t') ->
  tlb_wf t' /\ match r with inl f => fault_wf f | inr b => byte b end.
Proof.
  intros Ht Ha. unfold fetch_byte. destruct (translate _ _ _ _ _ _) as [q t1] eqn:E.
  apply translate_wf in E as [Ht1 Hq]; [|done..]. destruct q as [f|p]; [by intros [= <- <-]|].
  destruct (accessible m p); intros [= <- <-]; [split; [done|apply Hm]|done].
Qed.

Lemma operand_fields b : byte b -> fits 5 (operand_register b) /\ 0 <= operand_form b.
Proof. intros [? ?]. split; [apply fits_land_r; [lia|done]|]. by apply Z.shiftr_nonneg. Qed.

Lemma decode_operands_wf slots t a r t' : tlb_wf t -> word a -> decode_operands m root level t a slots = (r, t') ->
  tlb_wf t' /\ match r with inl f => fault_wf f | inr l => Forall (fits 5) l.*1 /\ Forall2 slot_wf slots l.*2 end.
Proof.
  revert t a r t'. induction slots as [|slot slots IH]; intros t a r t' Ht Ha; cbn [decode_operands].
  { intros [= <- <-]. repeat split; [apply Ht..| |]; constructor. }
  destruct (fetch_byte _ _ _ _ _) as [q t1] eqn:E. apply fetch_byte_wf in E as [Ht1 Hq]; [|done..].
  destruct q as [f|b]; [by intros [= <- <-]|]. destruct (form_is_legal slot _) eqn:Ef; cbn [negb].
  2:{ intros [= <- <-]. split; [done|]. split; [done|]. split; [done|]. by apply word_byte. }
  destruct (decode_operands _ _ _ t1 _ slots) as [q t2] eqn:E. apply IH in E as [Ht2 Hq2]; [|done|apply word_u64].
  destruct q as [f|l]; intros [= <- <-]; [done|]. split; [done|]. destruct (operand_fields b Hq), Hq2.
  cbn. split; constructor; done.
Qed.

Lemma decode_immediate_wf w t a r t' : tlb_wf t -> word a -> decode_immediate m root level t a w = (r, t') ->
  tlb_wf t' /\ match r with inl f => fault_wf f | inr v => fits (8 * Z.of_nat w) v end.
Proof.
  revert t a r t'. induction w as [|w IH]; intros t a r t' Ht Ha; cbn [decode_immediate]; [by intros [= <- <-]|].
  destruct (fetch_byte _ _ _ _ _) as [q t1] eqn:E. apply fetch_byte_wf in E as [Ht1 Hq]; [|done..].
  destruct q as [f|b]; [by intros [= <- <-]|].
  destruct (decode_immediate _ _ _ t1 _ w) as [q t2] eqn:E. apply IH in E as [Ht2 Hq2]; [|done|apply word_u64].
  destruct q as [f|v]; intros [= <- <-]; [done|]. split; [done|]. apply fits_lor; [lia| |].
  - apply (fits_mono 8); [done|lia].
  - apply (fits_mono (8 * Z.of_nat w + 8)); [apply fits_shiftl; [lia..|done]|lia].
Qed.
Lemma decode_immediates_wf ws t a r t' : Forall (fun w => (w <= 8)%nat) ws -> tlb_wf t -> word a ->
  decode_immediates m root level t a ws = (r, t') ->
  tlb_wf t' /\ match r with inl f => fault_wf f | inr l => Forall word l end.
Proof.
  intros Hw. revert t a r t'. induction Hw as [|w ws Hw _ IH]; intros t a r t' Ht Ha; cbn [decode_immediates]; [by intros [= <- <-]|].
  destruct (decode_immediate _ _ _ _ _ _) as [q t1] eqn:E. apply decode_immediate_wf in E as [Ht1 Hq]; [|done..].
  destruct q as [f|v]; [by intros [= <- <-]|].
  destruct (decode_immediates _ _ _ t1 _ ws) as [q t2] eqn:E. apply IH in E as [Ht2 Hq2]; [|done|apply word_u64].
  destruct q as [f|l]; intros [= <- <-]; [done|]. split; [done|]. constructor; [|done]. apply (fits_mono (8 * Z.of_nat w)); [done|lia].
Qed.

Lemma shape_widths s : Forall (fun w => (w <= 8)%nat) (sh_immediates (shape_info s)).
Proof. destruct s; cbn; repeat constructor; lia. Qed.

Lemma decode_wf t pc r t' : tlb_wf t -> word pc -> decode_v2 m root level t pc = (r, t') ->
  tlb_wf t' /\ match r with inl tr => trap_wf tr | inr d => decoded_wf d /\ d_pc d = pc end.
Proof.
  intros Ht Hpc. assert (forall f, fault_wf f -> match trapped pc f with inl tr => trap_wf tr | inr d => decoded_wf d /\ d_pc d = pc end) as Htr.
  { intros [[c s] a] (? & ? & ?). done. }
  unfold decode_v2. destruct (fetch_byte _ _ _ _ _) as [q t1] eqn:E. apply fetch_byte_wf in E as [Ht1 Hq]; [|done..].
  destruct q as [f|o]; [intros [= <- <-]; split; [done|by apply Htr]|].
  destruct (oi_kind _); [intros [= <- <-]; split; [done|]; apply (Htr (kIllegalInstruction, 0, o)); split; [done|]; split; [done|]; by apply word_byte..|].
  destruct (decode_operands _ _ _ _ _ _) as [q t2] eqn:E. apply decode_operands_wf in E as [Ht2 Hq2]; [|done|apply word_u64].
  destruct q as [f|l]; [intros [= <- <-]; split; [done|by apply Htr]|]. destruct Hq2.
  destruct (decode_immediates _ _ _ _ _ _) as [q t3] eqn:E.
  apply decode_immediates_wf in E as [Ht3 Hq3]; [|apply shape_widths|done|apply word_u64].
  destruct q as [f|imms]; intros [= <- <-]; [split; [done|by apply Htr]|]. split; [done|]. split; [|done]. constructor; try done. apply word_u64.
Qed.
End Decode.

(** ** Delivery *)

Definition result_wf (r : step_result * machine) : Prop := machine_wf r.2.

Lemma advance_wf d x : decoded_wf d -> machine_wf x -> result_wf (advance d x).
Proof. intros ? ?. apply wf_set_pc; [done|by apply dw_next]. Qed.
Lemma branch_to_wf d a x : word a -> machine_wf x -> result_wf (branch_to d a x).
Proof. intros ? ?. by apply wf_set_pc. Qed.
Lemma halt_wf t o pc disp k x : trap_wf t -> fits 8 k -> machine_wf x -> result_wf (halt_without_delivering t o pc disp k x).
Proof.
  intros (? & ? & _) ? ?. apply wf_set_halted, wf_set_csr; [done|]. apply record_halt_wf; [by apply mw_csr|done..].
Qed.
Lemma push_frame_wf t plan x : machine_wf x -> machine_wf (push_frame t plan x).
Proof. intros. unfold push_frame. auto using write_planned_wf. Qed.
Lemma deliver_wf t o pc x : trap_wf t -> machine_wf x -> result_wf (deliver t o pc x).
Proof.
  intros Ht Hx. unfold deliver. destruct (plan_access x _ _ _ _) as [q x1] eqn:E.
  apply plan_access_wf in E as (t1 & Ht1 & -> & Hq); [|done].
  destruct q as [f|plan]; [by apply halt_wf; [..|apply wf_set_tlb]|].
  destruct (_ =? 0); [by apply halt_wf; [..|apply wf_set_tlb]|].
  destruct (plan_access (x <| x_tlb := t1 |>) _ _ _ _) as [q x2] eqn:E2.
  apply plan_access_wf in E2 as (t2 & Ht2 & -> & Hq2); [|by apply wf_set_tlb].
  assert (machine_wf (x <| x_tlb := t1 |> <| x_tlb := t2 |>)) as Hx2 by (apply wf_set_tlb; [by apply wf_set_tlb|done]).
  destruct q as [f|plan2]; [by apply halt_wf|]. apply wf_set_pc; [|apply read_planned_word; [by apply wf_set_tlb|lia]].
  apply wf_set_csr; [apply wf_set_csr; [by apply push_frame_wf|]|]; [|apply enter_supervisor_wf].
  all: apply (set_trap_stack_wf (x_csr x) (- kFrameBytes)); [by apply mw_csr|done].
Qed.
Lemma raise_wf d f x : decoded_wf d -> fault_wf f -> machine_wf x -> result_wf (raise d f x).
Proof. intros Hd Hf Hx. destruct f as [[c s] a]. destruct Hf as (? & ? & ?). apply deliver_wf; [|done]. refine (conj _ (conj _ (conj _ _))); try done. by apply dw_pc. Qed.
Lemma raise_trap_class_wf d c s a x : decoded_wf d -> fault_wf (c, s, a) -> machine_wf x -> result_wf (raise_trap_class d c s a x).
Proof. intros Hd (? & ? & ?) Hx. apply deliver_wf; [|done]. refine (conj _ (conj _ (conj _ _))); try done. by apply dw_next. Qed.
Lemma deliver_interrupt_wf c pc x : 32 <= c < 40 -> word pc -> machine_wf x -> result_wf (deliver_interrupt c pc x).
Proof.
  intros Hc Hpc Hx. apply deliver_wf; [refine (conj _ (conj _ (conj _ _))); try done; split; cbn; lia|].
  apply wf_set_csr; [done|]. apply clear_pending_wf; [by apply mw_csr|done].
Qed.
Lemma deliverable_line x c : machine_wf x -> deliverable_interrupt x = Some c -> 32 <= c < 40.
Proof. intros Hx. unfold deliverable_interrupt. destruct (interrupts_enabled _); [|done]. apply lowest_pending_line, Hx. Qed.

Lemma trap_return_wf d x : decoded_wf d -> machine_wf x -> result_wf (execute_trap_return d x).
Proof.
  intros Hd Hx. unfold execute_trap_return. destruct (plan_access _ _ _ _ _) as [q x1] eqn:E.
  apply plan_access_wf in E as (t1 & Ht1 & -> & Hq); [|done].
  assert (machine_wf (x <| x_tlb := t1 |>)) as Hx1 by (by apply wf_set_tlb).
  destruct q as [f|plan]; [by apply raise_wf|].
  destruct (status_value_is_acceptable _) eqn:Es; cbn [negb].
  - apply branch_to_wf; [apply read_planned_word; [done|lia]|].
    apply wf_set_csr; [apply wf_set_csr|]; [done| |].
    + apply write_status_wf; [by apply mw_csr|apply read_planned_word; [done|lia]|done].
    + apply (set_trap_stack_wf (machine_write_status (x_csr x) _)); [|done].
      apply write_status_wf; [by apply mw_csr|apply read_planned_word; [done|lia]|done].
  - apply raise_wf; [done| |done]. split; [done|]. split; [done|]. apply read_planned_word; [done|lia].
Qed.
#[export] Hint Resolve advance_wf branch_to_wf raise_wf raise_trap_class_wf trap_return_wf : words.

(** ** The block loops *)

(** With an invariant [J] of the index and the machine the loop returns, in
    [Q]. *)
Section LoopRule.
Context (count : Z) (Hcount : word count) (J : Z -> machine -> Prop) (Q : step_result * machine -> Prop).
Context (body : Z -> machine -> machine + (step_result * machine)) (fin : machine -> step_result * machine).

Lemma loop_up_rule x :
  (forall i x, 0 <= i < count -> J i x -> match body i x with inl x' => J (i + 1) x' | inr r => Q r end) ->
  (forall x, J count x -> Q (fin x)) -> J 0 x -> exists r, loop_up count body fin x = Some r /\ Q r.
Proof.
  intros Hbody Hfin Hx. unfold loop_up. unfold word, fits in *.
  apply (while_spec _ (fun '(x, i) => J i x /\ 0 <= i <= count) (fun '(_, i) => count - i)); [|split; [done|lia]|lia].
  intros [y i] [Hy Hi]. destruct (Z.ltb_spec i count); [|apply Hfin; by replace count with i by lia].
  specialize (Hbody i y ltac:(lia) Hy). destruct (body i y); [|done]. split; [split; [done|]|]; lia.
Qed.
Lemma loop_down_rule x :
  (forall i x, 0 <= i < count -> J (i + 1) x -> match body i x with inl x' => J i x' | inr r => Q r end) ->
  (forall x, J 0 x -> Q (fin x)) -> J count x -> exists r, loop_down count body fin x = Some r /\ Q r.
Proof.
  intros Hbody Hfin Hx. unfold loop_down. unfold word, fits in *.
  apply (while_spec _ (fun '(x, i) => J i x /\ 0 <= i <= count) (fun '(_, i) => i)); [|split; [done|lia]|lia].
  intros [y i] [Hy Hi]. destruct (Z.ltb_spec 0 i); [|apply Hfin; by replace 0 with i by lia].
  specialize (Hbody (i - 1) y ltac:(lia)). rewrite Z.sub_add in Hbody. specialize (Hbody Hy).
  destruct (body (i - 1) y); [|done]. split; [split; [done|]|]; lia.
Qed.
End LoopRule.

(** ** Instructions *)

Definition runs_wf (o : option (step_result * machine)) : Prop := exists r, o = Some r /\ result_wf r.
Lemma runs_some r : result_wf r -> runs_wf (Some r).
Proof. by exists r. Qed.

Section Instruction.
Context (d : decoded) (Hd : decoded_wf d).

Lemma reg_index i : 0 <= zget (d_reg d) i.
Proof. apply (zget_Forall (fun z => 0 <= z)); [|done]. eapply List.Forall_impl; [|apply Hd]. by intros ? [? ?]. Qed.
Lemma imm_word i : word (zget (d_immediate d) i).
Proof. apply zget_Forall; [apply Hd|apply word_0]. Qed.
Lemma form_nonneg i : 0 <= zget (d_form d) i.
Proof.
  apply (zget_Forall (fun z => 0 <= z)); [|done]. pose proof (dw_form d Hd) as H. induction H as [|? ? ? ? [? ?]]; constructor; done.
Qed.
#[local] Hint Resolve reg_index imm_word form_nonneg : words.
#[local] Hint Unfold reg0 reg1 reg2 reg3 imm0 imm1 : words.
#[local] Hint Extern 1 (0 <= reg0 _) => apply reg_index : words.
#[local] Hint Extern 1 (0 <= reg1 _) => apply reg_index : words.
#[local] Hint Extern 1 (0 <= reg2 _) => apply reg_index : words.
#[local] Hint Extern 1 (0 <= reg3 _) => apply reg_index : words.
#[local] Hint Extern 1 (word (imm0 _)) => apply imm_word : words.

Lemma load_wf w s disp x : (w <= 8)%nat -> machine_wf x -> result_wf (execute_load d w s disp x).
Proof.
  intros Hw Hx. unfold execute_load. destruct (plan_access _ _ _ _ _) as [q x1] eqn:E.
  apply plan_access_wf in E as (t1 & Ht1 & -> & Hq); [|done]. destruct q as [f|plan]; auto with words.
  apply advance_wf; [done|]. apply wr_wf; [auto with words..|]. apply word_if; auto with words.
Qed.
Lemma store_wf w disp x : machine_wf x -> result_wf (execute_store d w disp x).
Proof.
  intros Hx. unfold execute_store. destruct (plan_access _ _ _ _ _) as [q x1] eqn:E.
  apply plan_access_wf in E as (t1 & Ht1 & -> & Hq); [|done]. destruct q as [f|plan]; auto with words.
Qed.

(** *** Block memory *)

Definition body_wf (count : Z) (body : Z -> machine -> machine + (step_result * machine)) : Prop :=
  forall i x, 0 <= i < count -> machine_wf x -> match body i x with inl x' => machine_wf x' | inr r => result_wf r end.

Lemma mid_operation_wf k x r x' : machine_wf x -> block_mid_operation_interrupt k x = (r, x') ->
  machine_wf x' /\ forall c, r = Some c -> 32 <= c < 40.
Proof.
  intros Hx. unfold block_mid_operation_interrupt. destruct (_ || _); [by intros [= <- <-]|].
  intros [= <- <-]. split; [auto with words|]. intros c. apply deliverable_line. auto with words.
Qed.
Lemma copy_byte_wf x a b r x' : machine_wf x -> copy_byte x a b = (r, x') ->
  machine_wf x' /\ forall f, r = inl f -> fault_wf f.
Proof.
  intros Hx. unfold copy_byte. destruct (plan_byte _ _ _) as [q x1] eqn:E.
  apply plan_byte_wf in E as (t1 & Ht1 & -> & Hq); [|done].
  destruct q as [f|p]; [intros [= <- <-]; split; [auto with words|]; by intros ? [= <-]|].
  destruct (plan_byte _ b _) as [q x1] eqn:E.
  apply plan_byte_wf in E as (t2 & Ht2 & -> & Hq2); [|auto with words].
  destruct q as [f|p2]; intros [= <- <-]; split; auto 10 with words; [by intros ? [= <-]|..|by intros].
  apply wf_set_mem; [auto with words|]. apply write_byte_wf; [apply Hx|]. apply Hx.
Qed.

Section Loops.
Context (count : Z) (Hcount : word count).
#[local] Hint Extern 1 (word (count - _)) => (unfold word, fits in *; lia) : words.
#[local] Hint Extern 1 (word (_ + 1)) => (unfold word, fits in *; lia) : words.

Lemma block_set_byte_wf fill dest : byte fill -> body_wf count (block_set_byte d fill dest count).
Proof.
  intros Hf i x Hi Hx. unfold block_set_byte. destruct (plan_byte _ _ _) as [q x1] eqn:E.
  apply plan_byte_wf in E as (t1 & Ht1 & -> & Hq); [|done]. destruct q as [f|p]; [auto 8 with words|].
  destruct (block_mid_operation_interrupt _ _) as [c x2] eqn:E. apply mid_operation_wf in E as [Hx2 Hc].
  - destruct c as [c|]; [|done]. apply deliver_interrupt_wf; [by apply Hc|by apply dw_pc|]. auto 8 with words.
  - apply wf_set_mem; [auto with words|]. apply write_byte_wf; [apply Hx|done].
Qed.
Lemma copy_up_byte_wf src dest : body_wf count (copy_up_byte d src dest count).
Proof.
  intros i x Hi Hx. unfold copy_up_byte. destruct (copy_byte _ _ _) as [q x1] eqn:E.
  apply copy_byte_wf in E as [Hx1 Hq]; [|done]. destruct q as [f|p]; [auto 10 with words|].
  destruct (block_mid_operation_interrupt _ _) as [c x2] eqn:E. apply mid_operation_wf in E as [Hx2 Hc]; [|done].
  destruct c as [c|]; [|done]. apply deliver_interrupt_wf; [by apply Hc|by apply dw_pc|]. auto 10 with words.
Qed.
Lemma copy_down_byte_wf src dest : body_wf count (copy_down_byte d src dest count).
Proof.
  intros i x Hi Hx. assert (word i) by (unfold word, fits in *; lia). unfold copy_down_byte. destruct (copy_byte _ _ _) as [q x1] eqn:E.
  apply copy_byte_wf in E as [Hx1 Hq]; [|done]. destruct q as [f|p]; [auto 10 with words|].
  destruct (block_mid_operation_interrupt _ _) as [c x2] eqn:E. apply mid_operation_wf in E as [Hx2 Hc]; [|done].
  destruct c as [c|]; [|done]. apply deliver_interrupt_wf; [by apply Hc|by apply dw_pc|]. auto 10 with words.
Qed.

Lemma loop_up_wf body fin x : body_wf count body -> (forall x, machine_wf x -> result_wf (fin x)) ->
  machine_wf x -> runs_wf (loop_up count body fin x).
Proof. intros. by apply (loop_up_rule count Hcount (fun _ => machine_wf) result_wf). Qed.
Lemma loop_down_wf body fin x : body_wf count body -> (forall x, machine_wf x -> result_wf (fin x)) ->
  machine_wf x -> runs_wf (loop_down count body fin x).
Proof. intros. by apply (loop_down_rule count Hcount (fun _ => machine_wf) result_wf). Qed.
End Loops.

Lemma block_wf x : machine_wf x -> runs_wf (execute_block d x).
Proof.
  intros Hx. unfold execute_block. destruct (block_bad_slot d) as [r|] eqn:Eb.
  { apply runs_some, raise_wf; [done| |done]. split; [done|]. split; [done|].
    assert (forall i, word (zget (d_reg d) i)) as Hw.
    { intros i. apply zget_Forall; [|apply word_0]. eapply List.Forall_impl; [|apply Hd]. intros a Ha. by apply (fits_mono 5). }
    unfold block_bad_slot in Eb. repeat case_match; simplify_eq; apply Hw. }
  destruct (_ =? 0); [apply runs_some; auto with words|].
  destruct (_ =? kBlockSet).
  - apply loop_up_wf; auto 8 with words. apply block_set_byte_wf; auto with words.
  - destruct (_ && _ && _); [apply loop_down_wf|apply loop_up_wf]; auto 10 using copy_up_byte_wf, copy_down_byte_wf with words.
Qed.

(** *** Waiting *)

Lemma advance_to_expiry_disarms t ns : timer_wf t -> nanoseconds_until_expiry t = Some ns -> tim_armed (timer_advance t ns) = false.
Proof.
  intros (_ & _ & _ & Hn & He & _). unfold nanoseconds_until_expiry, timer_advance. destruct (tim_armed t) eqn:Ea; [|done].
  intros [= <-]. cbn. rewrite Ea. unfold u64. unfold word, fits in *.
  destruct (Z.ltb_spec (tim_monotonic t) (tim_next_expiry t)).
  - replace (tim_monotonic t + _) with (tim_next_expiry t) by lia. rewrite Z.mod_small by lia. by rewrite Z.leb_refl.
  - rewrite Z.add_0_r, Z.mod_small by lia. rewrite (proj2 (Z.leb_le _ _)) by lia. done.
Qed.
Lemma wait_wf x : machine_wf x -> runs_wf (execute_wait_for_interrupt d x).
Proof.
  intros Hx. unfold runs_wf, execute_wait_for_interrupt.
  apply (while_spec _ machine_wf (fun x => if tim_armed (dv_timer (x_dev x)) then 1 else 0)); [|done|by destruct (tim_armed _)].
  clear x Hx. intros x Hx. unfold wait_body. assert (machine_wf (sample_device_interrupts x)) as Hs by auto with words.
  destruct (lowest_pending_and_enabled _); [auto with words|].
  change (nanoseconds_until_next_device_event (x_dev (sample_device_interrupts x))) with (nanoseconds_until_expiry (dv_timer (x_dev x))).
  destruct (nanoseconds_until_expiry _) as [ns|] eqn:En; [|done].
  split; [auto with words|]. cbn. rewrite (advance_to_expiry_disarms _ ns); [|apply Hx|done].
  unfold nanoseconds_until_expiry in En. destruct (tim_armed _); [lia|done].
Qed.

(** *** The rest *)

Lemma csr_instruction_wf x : machine_wf x -> result_wf (execute_csr d x).
Proof.
  intros Hx. unfold execute_csr. destruct (access _ _ _ _ _) as [o c] eqn:E.
  apply access_wf in E as [Hc Ho]; [|apply Hx|by apply fits_mod|auto with words]. destruct o as [cause sub aux|prior fl].
  - apply raise_wf; auto with words.
  - apply advance_wf; [done|]. destruct fl, (d_opcode d =? kCsrRead), (d_opcode d =? kCsrSwap); auto 10 with words.
Qed.
Lemma bitfield_wf x : machine_wf x -> result_wf (execute_bitfield d x).
Proof.
  intros Hx. unfold execute_bitfield.
  assert (fits 8 (Z.land (imm0 d) 0xFF) /\ fits 8 (Z.land (imm1 d) 0xFF)) as [? ?] by (split; apply fits_land_r; lia || done).
  destruct (_ =? 0); [apply raise_wf; [done| |done]; split; [done|]; split; [done|]; by apply (fits_mono 8)|].
  destruct (64 <? _); [apply raise_wf; [done| |done]; split; [done|]; split; [done|]; by apply (fits_mono 8)|].
  destruct (d_opcode d =? kBitfieldInsert); [auto 10 with words|].
  assert (0 <= Z.land (imm0 d) 255) by (apply Z.land_nonneg; right; lia).
  destruct (_ =? kBitfieldExtractSigned); auto 10 with words.
Qed.
Lemma move_wf x : machine_wf x -> result_wf (execute_move d x).
Proof.
  intros Hx. unfold execute_move.
  repeat match goal with |- context [if ?b then _ else _] => destruct b end; auto 10 with words.
Qed.
Lemma carry_wf x : machine_wf x -> result_wf (execute_carry d x).
Proof.
  intros Hx. unfold execute_carry.
  pose proof (add_carry_word (rd x (reg0 d)) (rd x (reg1 d)) (Z.land (rd x (reg2 d)) 1)) as [? ?].
  pose proof (subtract_borrow_word (rd x (reg0 d)) (rd x (reg1 d)) (Z.land (rd x (reg2 d)) 1)) as [? ?].
  destruct (_ =? kAddCarry); [destruct (add_carry _ _ _)|destruct (subtract_borrow _ _ _)]; apply advance_wf; auto 10 with words.
Qed.
Lemma control_wf x : machine_wf x -> result_wf (execute_control d x).
Proof.
  intros Hx. unfold execute_control. assert (0 <= kLinkRegister) by done.
  assert (forall b : bool, machine_wf (if b then wr x (reg2 d) (rd x (reg0 d)) else x)) by (intros []; auto with words).
  repeat match goal with |- result_wf (if ?b then _ else _) => destruct b end; auto 10 with words.
Qed.
Lemma system_wf x : machine_wf x -> runs_wf (execute_system d x).
Proof.
  intros Hx. unfold execute_system. assert (word (d_opcode d)) by (apply word_byte, Hd).
  assert (fault_wf (kPrivilegedOperation, 0, d_opcode d)) by (by split).
  assert (forall v, word v -> fault_wf (kSyscall, 0, v)) by (by split).
  assert (fault_wf (kBreakpointCause, 0, 0)) by (by split).
  destruct (_ && _); [apply runs_some; auto with words|].
  destruct (_ =? kTrapReturn); [apply runs_some; auto with words|].
  destruct (_ =? kWaitForInterrupt); [by apply wait_wf|].
  destruct (_ =? kTlbInvalidateAll); [apply runs_some; auto 8 with words|].
  destruct (_ =? kTlbInvalidateAddress); [apply runs_some; auto 8 with words|].
  destruct (_ =? kSysImm); [apply runs_some; auto 8 with words|].
  destruct (_ =? kSysReg); [apply runs_some; auto 8 with words|].
  destruct (_ =? kBreakpoint); [apply runs_some; auto 8 with words|].
  destruct (_ =? kHalt).
  { destruct (negb _); apply runs_some; [auto with words|].
    apply wf_set_csr; [auto with words|]. apply record_halt_wf; [apply Hx|done..]. }
  destruct (_ || _); [|by apply runs_some].
  destruct (negb _); [apply runs_some; auto with words|].
  destruct (_ =? kPortIn); [|apply runs_some; auto 10 with words].
  destruct (port_in _ _) as [v dev] eqn:E. apply port_in_wf in E as [? ?]; [|apply Hx]. apply runs_some. auto 10 with words.
Qed.

(** The element an insertion names is one its slot admits. *)
Lemma insert_wf x : machine_wf x -> upto kInsertB kInsertH (d_opcode d) = true ->
  word (insert_element (d_opcode d) (rd x (reg1 d)) (zget (d_form d) 1) (rd x (reg0 d))).
Proof.
  intros Hx Ho. pose proof (dw_form d Hd) as Hf. unfold upto in Ho. apply andb_true_iff in Ho as [H1%Z.leb_le H2%Z.leb_le].
  assert (d_opcode d = 0xA6 \/ d_opcode d = 0xA7 \/ d_opcode d = 0xA8) as Ho by (unfold kInsertB, kInsertH in *; lia).
  assert (exists f0 f1, d_form d = [f0; f1] /\ (d_opcode d = 0xA6 -> f1 <= 7) /\ (d_opcode d = 0xA7 -> f1 <= 3) /\
    (d_opcode d = 0xA8 -> f1 <= 1)) as (f0 & f1 & E & ? & ? & ?).
  { destruct Ho as [Ho|[Ho|Ho]]; rewrite Ho in *; vm_compute (oi_slots _) in Hf;
      apply Forall2_cons_inv_l in Hf as (f0 & l & _ & Hf & E); apply Forall2_cons_inv_l in Hf as (f1 & l' & [Hf1 _] & Hl & ->);
      apply Forall2_nil_inv_l in Hl as ->; exists f0, f1; (split; [done|]); cbn in Hf1; apply Z.leb_le in Hf1; lia. }
  pose proof (form_nonneg 1) as Hn. apply insert_element_word; auto with words; rewrite E in *; change (zget [f0; f1] 1) with f1; lia.
Qed.

Lemma execute_wf x : machine_wf x -> runs_wf (execute d x).
Proof.
  intros Hx. unfold execute.
  destruct (upto kMove _ _); [by apply runs_some, move_wf|].
  destruct (upto kAdd _ _).
  { destruct (alu _ _ _) as [s|v] eqn:E; apply runs_some.
    - apply raise_wf; [done| |done]. split; [done|]. split; [by eapply alu_subcode|done]. 
    - apply advance_wf; [done|]. apply wr_wf; auto with words. eapply alu_word; [..|exact E]; auto with words. }
  destruct (upto kNot _ _); [apply runs_some; auto 8 with words|].
  destruct (upto kAddCarry _ _); [by apply runs_some, carry_wf|].
  destruct (upto kAddImm _ _); [apply runs_some; auto 8 with words|].
  destruct (upto kShiftLeftImm _ _); [apply runs_some; auto 8 with words|].
  destruct (upto kCompareEq _ _); [apply runs_some; auto 8 with words|].
  destruct (upto kCompareImmBase _ _); [apply runs_some; auto 8 with words|].
  destruct (upto kBranchBase _ _); [destruct (evaluate_predicate _ _ _); apply runs_some; auto 8 with words|].
  destruct (upto kJumpDisp _ _); [by apply runs_some, control_wf|].
  destruct (upto kLoad _ _).
  { apply runs_some, load_wf; [|done]. generalize (if kLoadDisp <=? d_opcode d then d_opcode d - kLoadDisp else d_opcode d - kLoad).
    intros i. unfold load_width. repeat case_match; lia. }
  destruct (upto kStore _ _); [by apply runs_some, store_wf|].
  destruct (upto kExtractZb _ _); [apply runs_some; auto 8 with words|].
  destruct (upto kInsertB _ _) eqn:Ei; [apply runs_some; auto 8 using insert_wf with words|].
  destruct (upto kBitfieldExtract _ _); [by apply runs_some, bitfield_wf|].
  destruct (upto kBlockCopy _ _); [by apply block_wf|].
  destruct (_ || _); [by apply runs_some, csr_instruction_wf|].
  by apply system_wf.
Qed.
End Instruction.

(** ** The cycle *)

Lemma step_runs x : machine_wf x -> runs_wf (step x).
Proof.
  intros Hx. unfold step. destruct (x_halted x); [by apply runs_some|].
  assert (machine_wf (sample_device_interrupts x)) as Hs by auto with words.
  destruct (decode_v2 _ _ _ _ _) as [r t] eqn:E. apply decode_wf in E as [Ht Hr]; [|apply Hs..].
  assert (machine_wf ((sample_device_interrupts x) <| x_tlb := t |>)) as Hd by auto with words.
  destruct r as [tr|d]; [by apply runs_some, deliver_wf|]. destruct Hr as [Hr Epc].
  destruct (deliverable_interrupt _) as [c|] eqn:Ec.
  - apply runs_some, deliver_interrupt_wf; [by eapply deliverable_line|apply Hd|done].
  - set (z := (sample_device_interrupts x) <| x_tlb := t |>) in *.
    destruct (execute_wf d Hr _ (wf_set_steps z (u64 (x_steps z + 1)) Hd)) as ([r y] & Ey & Hy).
    exists (r, y <| x_dev := advance_time (x_dev y) kNanosecondsPerInstruction |>). split; [by rewrite Ey|].
    apply wf_set_dev; [done|]. apply advance_time_wf, Hy.
Qed.
Lemma v2_step_wf x e y : machine_wf x -> v2_step x e y -> machine_wf y.
Proof.
  intros Hx. inversion 1 as [? r ? E|? b Hb| |]; subst.
  - destruct (step_runs x Hx) as ([r' z] & E' & Hz). rewrite E in E'. by simplify_eq.
  - destruct (mw_dev x Hx) as [(? & ? & ? & ?) ?]. apply wf_set_dev; [done|]. split; [|done].
    refine (conj _ (conj _ (conj _ _))); cbn; try done; [by apply Forall_app_2; [|apply Forall_singleton]|].
    rewrite length_app. lia.
  - apply wf_set_dev; [done|]. by destruct (mw_dev x Hx).
  - apply wf_set_dev; [done|]. by destruct (mw_dev x Hx).
Qed.
Lemma v2_reachable_wf x y : machine_wf x -> v2_reachable x y -> machine_wf y.
Proof. intros Hx. induction 1; [done|]. by eapply v2_step_wf. Qed.

(** The two unfoldings of [run_steps]. *)
Lemma run_one x r y : step x = Some (r, y) -> run_steps 1 x = Some (r, y).
Proof. intros E. cbn [run_steps]. rewrite E. done. Qed.
Lemma run_more n x r y : step x = Some (r, y) ->
  run_steps (S (S n)) x = match r with (Advanced, _, _) => run_steps (S n) y | _ => Some (r, y) end.
Proof.
  intros E. change (run_steps (S (S n)) x) with
    (step x ≫= fun '(r, x') => match r with (Advanced, _, _) => run_steps (S n) x' | _ => Some (r, x') end). by rewrite E.
Qed.

(** C21: well-formedness is an invariant of the second-generation machine.
    Started on a memory of bytes at any address, after any sequence of cycles
    and host console events, every register holds a 64-bit word, register 0 is
    zero, memory holds bytes, status is one of the four legal words, trap
    stack and vector base are aligned, the paging root names a defined mode,
    enable word 0 is clear below cause 32, only the eight device lines can be
    pending, the timer never counts a zero period, and the translation cache has its 32 entries. *)
Theorem machine_always_wf m pc x : mem_wf m -> word pc -> v2_reachable (machine_start m pc) x -> machine_wf x.
Proof. intros Hm Hpc. apply v2_reachable_wf. by apply machine_start_wf. Qed.

(** C22: every cycle returns.  In every reachable machine the next step has a
    result, although a block operation loops over up to 2^64 bytes, each of
    which can fault or be interrupted, and a wait loops over timer expiries;
    so a run with a budget of [n] steps returns as well. *)
Theorem run_returns m pc x n : mem_wf m -> word pc -> v2_reachable (machine_start m pc) x ->
  exists r y, run_steps (S n) x = Some (r, y) /\ v2_reachable (machine_start m pc) y.
Proof.
  intros Hm Hpc. pose proof (machine_start_wf m pc Hm Hpc) as H0. revert x. induction n as [|n IH]; intros x Hx;
    destruct (step_runs x (v2_reachable_wf _ _ H0 Hx)) as ([r y] & E & Hy);
    pose proof (reach_step _ _ _ _ Hx (step_cycle _ _ _ E)) as Hr.
  - exists r, y. by rewrite (run_one _ _ _ E).
  - rewrite (run_more _ _ _ _ E). destruct r as [[[] o] p]; try (by eexists _, y). by apply IH.
Qed.
