(* ===== verification/V2Trap.v ===== *)
(** * The translation cache is transparent

    The reference translation walks the tables on every access.  A cache whose
    entries agree with the tables gives the same answer for every address,
    access and privilege level, and what it takes in agrees with them too. *)
From Stdlib Require Import ZArith Lia Bool.
From stdpp Require Import base list numbers.
From S2P Require Import Prelude State Memory MemFacts V2Opcode V2Csr V2Translate V2Interp V2Word V2Wf.

(** ** The reference *)

Definition translate_uncached (m : memory) (root : Z) (level : privilege) (k : access_kind) (va : Z) : translation :=
  if Z.land root kModeMask =? kModeBare then inr va else
  let translated := Z.land va kTranslatedMask in
  match walk_leaf m va k translated 3 (address_field root) with
  | inl f => inl f
  | inr c => finish c translated va k level
  end.

(** An entry agrees with the tables on every address it matches. *)
Definition entry_coherent (m : memory) (root : Z) (e : option cached) : Prop :=
  forall c tr va k, e = Some c -> hit tr e = true -> walk_leaf m va k tr 3 (address_field root) = inr c.
Definition tlb_coherent (m : memory) (root : Z) (t : translator) : Prop := Forall (entry_coherent m root) (tr_entries t).

(** ** A leaf covers its whole page *)

Lemma page_offset_mask_ones level : page_offset_mask level = Z.ones (index_shift level).
Proof. unfold page_offset_mask. rewrite Z.ones_equiv, Z.shiftl_1_l. lia. Qed.
Lemma index_shift_nonneg level : 0 <= index_shift level.
Proof. unfold index_shift. lia. Qed.
Lemma clr_ones_shiftr a b n k : 0 <= n <= k -> clr a (Z.ones n) = clr b (Z.ones n) -> Z.shiftr a k = Z.shiftr b k.
Proof.
  intros Hn E. apply Z.bits_inj'. intros i Hi. rewrite !Z.shiftr_spec by done.
  pose proof (f_equal (fun z => Z.testbit z (i + k)) E) as Hb. cbn in Hb. unfold clr in Hb.
  rewrite !Z.ldiff_spec, !Z.ones_spec_high, !andb_true_r in Hb by lia. done.
Qed.

(** The leaf a walk finds is at or below the level it started from. *)
Lemma walk_leaf_level m va k tr level table c : walk_leaf m va k tr level table = inr c ->
  exists l, (l <= level)%nat /\ ct_offset_mask c = page_offset_mask l /\ ct_virtual_base c = clr tr (page_offset_mask l).
Proof.
  revert table. induction level as [|level IH]; intros table; cbn [walk_leaf]; repeat case_match; intros E; simplify_eq; cbn;
    try (by exists 0%nat); try (by exists (S level)).
  apply IH in E as (l & ? & ? & ?). exists l. split; [lia|done].
Qed.

(** Two addresses of one page go through the same entries. *)
Lemma same_page_index tr tr' l level : (l <= level)%nat -> clr tr' (page_offset_mask l) = clr tr (page_offset_mask l) ->
  Z.shiftr tr' (index_shift level) = Z.shiftr tr (index_shift level).
Proof.
  intros Hl. rewrite page_offset_mask_ones. apply clr_ones_shiftr. unfold index_shift. lia.
Qed.
Lemma walk_leaf_page m va k tr level table c va' k' tr' : walk_leaf m va k tr level table = inr c ->
  hit tr' (Some c) = true -> walk_leaf m va' k' tr' level table = inr c.
Proof.
  intros E Hh. cbn in Hh. apply Z.eqb_eq in Hh. revert table E. induction level as [|level IH]; intros table E;
    pose proof (walk_leaf_level _ _ _ _ _ _ _ E) as (l & Hl & Hmask & Hbase);
    assert (clr tr' (page_offset_mask l) = clr tr (page_offset_mask l)) as Hp by congruence;
    cbn [walk_leaf] in *; rewrite (same_page_index _ _ _ _ Hl Hp); repeat case_match; simplify_eq; try (by apply IH).
  - cbn in Hmask. f_equal. f_equal. cbn in Hh. done.
  - cbn in Hh. f_equal. f_equal. done.
Qed.

(** ** Transparency *)

Lemma lookup_coherent m root t tr c va k : tlb_coherent m root t -> lookup_cached t tr = Some c ->
  walk_leaf m va k tr 3 (address_field root) = inr c.
Proof.
  intros Ht. unfold lookup_cached. destruct (find (hit tr) (tr_entries t)) as [[c'|]|] eqn:E; cbn; intros; simplify_eq.
  apply List.find_some in E as [Hin Hh]. unfold tlb_coherent in Ht. rewrite List.Forall_forall in Ht.
  by apply (Ht _ Hin).
Qed.
Lemma insert_coherent m root t c va k tr : tlb_coherent m root t ->
  walk_leaf m va k tr 3 (address_field root) = inr c -> tlb_coherent m root (insert_cached t c).
Proof.
  intros Ht E. apply Forall_insert; [done|]. intros c' tr' va' k' [= <-] Hh. by eapply walk_leaf_page.
Qed.
Lemma invalidate_all_coherent m root t : tlb_coherent m root (invalidate_all t).
Proof. apply Forall_fmap, Forall_true. by intros e c. Qed.
Lemma invalidate_address_coherent m root t va :
  Forall (fun e => hit (Z.land va kTranslatedMask) e = false -> entry_coherent m root e) (tr_entries t) ->
  tlb_coherent m root (invalidate_address t va).
Proof.
  intros H. apply Forall_fmap. eapply List.Forall_impl; [|exact H]. intros e He. cbn.
  destruct (hit _ e) eqn:Eh; [by intros c|by apply He].
Qed.

Lemma translate_coherent m root t level k va : tlb_coherent m root t ->
  (translate t m root level k va).1 = translate_uncached m root level k va /\
  tlb_coherent m root (translate t m root level k va).2.
Proof.
  intros Ht. unfold translate, translate_uncached. destruct (_ =? kModeBare); [done|].
  destruct (lookup_cached t _) as [c|] eqn:El.
  - by rewrite (lookup_coherent m root t _ c va k Ht El).
  - destruct (walk_leaf _ _ _ _ _ _) as [f|c] eqn:Ew; [done|]. split; [done|].
    by eapply (insert_coherent m root (mk_translator _ _ _ _)); [|exact Ew].
Qed.

(** C23: the translation cache cannot be observed in what it answers.  With a
    cache that agrees with the page tables, [translate] returns what a walk
    without a cache returns - the physical address, or the same fault - and
    leaves a cache that agrees with them; and dropping all entries, or those
    of the address whose mapping changed, restores the agreement after any
    change to the tables or the root. *)
Theorem translate_cache_transparent m root t level k va : tlb_coherent m root t ->
  (translate t m root level k va).1 = translate_uncached m root level k va /\
  tlb_coherent m root (translate t m root level k va).2 /\
  (forall m' root', tlb_coherent m' root' (invalidate_all t)) /\
  (forall m' a, Forall (fun e => hit (Z.land a kTranslatedMask) e = false -> entry_coherent m' root e) (tr_entries t) ->
    tlb_coherent m' root (invalidate_address t a)).
Proof.
  intros Ht. destruct (translate_coherent m root t level k va Ht). split; [done|]. split; [done|].
  split; [intros; apply invalidate_all_coherent|intros; by apply invalidate_address_coherent].
Qed.

(** ** What a walk reads

    A set of tables closed under the entries in them: the walk from one of
    them reads nothing else, so two memories that hold the same entries there
    walk alike, and the leaf it finds is one of those entries. *)
Section Tables.
Context (m : memory) (T : Z -> Prop).
Definition entry_at (m : memory) (t i : Z) : Z := read_little_endian m (u64 (t + i * 8)) 8.
Context (Hclosed : forall t i, T t -> 0 <= i < 512 -> has (entry_at m t i) kValid = true -> T (address_field (entry_at m t i)) \/
  has (entry_at m t i) (Z.lor (Z.lor kReadable kWritable) kExecutable) = true).

Lemma walk_index_bound tr level : 0 <= Z.land (Z.shiftr tr (index_shift level)) kIndexMask < 512.
Proof. change kIndexMask with (Z.ones 9). rewrite Z.land_ones by lia. by apply Z.mod_pos_bound. Qed.

Lemma walk_leaf_ext m' va k tr level t : T t ->
  (forall t i, T t -> 0 <= i < 512 -> check_range m' (u64 (t + i * 8)) 8 = check_range m (u64 (t + i * 8)) 8 /\ entry_at m' t i = entry_at m t i) ->
  walk_leaf m' va k tr level t = walk_leaf m va k tr level t.
Proof.
  intros Ht Hsame. revert t Ht. induction level as [|level IH]; intros t Ht; cbn [walk_leaf];
    set (i := Z.land (Z.shiftr tr _) kIndexMask); pose proof (walk_index_bound tr 0 : 0 <= i < 512) as Hi || pose proof (walk_index_bound tr (S level) : 0 <= i < 512) as Hi;
    destruct (Hsame t i Ht Hi) as [-> E]; unfold entry_at in E; rewrite E; destruct (check_range _ _ _); try done.
  destruct (has _ kValid) eqn:Ev; [|done]. cbn [negb].
  destruct (has _ (Z.lor (Z.lor kReadable kWritable) kExecutable)) eqn:El; [done|]. cbn [negb].
  apply IH. destruct (Hclosed t i Ht Hi Ev) as [|El']; [done|]. unfold entry_at in El'. by rewrite El' in El.
Qed.

Lemma walk_leaf_entry va k tr level t c : T t -> walk_leaf m va k tr level t = inr c ->
  exists t i, T t /\ 0 <= i < 512 /\ ct_physical_base c = address_field (entry_at m t i) /\
    ct_permissions c = Z.land (entry_at m t i) kPermissionMask.
Proof.
  revert t. induction level as [|level IH]; intros t Ht; cbn [walk_leaf];
    set (i := Z.land (Z.shiftr tr _) kIndexMask); pose proof (walk_index_bound tr 0 : 0 <= i < 512) as Hi || pose proof (walk_index_bound tr (S level) : 0 <= i < 512) as Hi;
    (destruct (check_range _ _ _); [done|]); (destruct (has _ kValid) eqn:Ev; [|done]); cbn [negb];
    destruct (has _ (Z.lor (Z.lor kReadable kWritable) kExecutable)) eqn:El; cbn [negb].
  1,3: destruct (_ && _); [done|]; destruct (has _ (page_offset_mask _)); [done|]; intros [= <-]; by exists t, i.
  { done. }
  apply IH. destruct (Hclosed t i Ht Hi Ev) as [|El']; [done|]. unfold entry_at in El'. by rewrite El' in El.
Qed.
End Tables.

(** * A trap and its return

    What trap_return undoes of a delivery: with the frame as the delivery left
    it, the interrupted program counter, status and trap stack come back and
    nothing else moves. *)

(** ** Bytes read back *)

Lemma write_bytes_other l m v a : a ∉ l -> mm_bytes (write_bytes m l v) a = mm_bytes m a.
Proof.
  revert m v. induction l as [|b l IH]; intros m v Ha; [done|]. apply not_elem_of_cons in Ha as [Hab Ha].
  cbn [write_bytes]. rewrite IH by done. cbn. by rewrite (proj2 (Z.eqb_neq _ _)).
Qed.
Lemma write_bytes_size l m v : mm_size (write_bytes m l v) = mm_size m.
Proof. revert m v. induction l as [|b l IH]; intros m v; [done|]. cbn [write_bytes]. by rewrite IH. Qed.
Lemma read_bytes_ext l m m' : (forall a, a ∈ l -> mm_bytes m a = mm_bytes m' a) -> read_bytes m l = read_bytes m' l.
Proof.
  induction l as [|b l IH]; intros H; [done|]. cbn [read_bytes]. unfold read_byte. rewrite H by left.
  rewrite IH; [done|]. intros a Ha. apply H. by right.
Qed.
Lemma read_write_bytes l m v : NoDup l -> read_bytes (write_bytes m l v) l = v mod 2 ^ (8 * Z.of_nat (length l)).
Proof.
  revert m v. induction l as [|b l IH]; intros m v Hl; [by rewrite Z.mod_1_r|]. pose proof (NoDup_cons_1_1 _ _ Hl) as Hb. apply NoDup_cons_1_2 in Hl.
  cbn [write_bytes read_bytes length]. rewrite IH by done. unfold read_byte. rewrite write_bytes_other by done. cbn [mm_bytes write_byte].
  rewrite Z.eqb_refl, Z.shiftr_div_pow2 by lia. unfold u8. change (2 ^ 8) with 256.
  rewrite lor_byte_shift by (apply Z.mod_pos_bound; lia).
  replace (8 * Z.of_nat (S (length l))) with (8 + 8 * Z.of_nat (length l)) by lia.
  rewrite Z.pow_add_r by lia. change (2 ^ 8) with 256. rewrite Z.rem_mul_r by (try apply Z.pow_nonzero; lia). lia.
Qed.

(** A frame of words, each read back where it was written. *)
Definition piece (plan : list Z) (o : nat) : list Z := take 8 (drop o plan).
Lemma piece_length plan o : (o + 8 <= length plan)%nat -> length (piece plan o) = 8%nat.
Proof. intros. unfold piece. rewrite length_take, length_drop. lia. Qed.
Lemma piece_NoDup plan o : NoDup plan -> NoDup (piece plan o).
Proof. intros H. eapply sublist_NoDup; [exact H|]. etrans; [apply sublist_take|apply sublist_drop]. Qed.
Lemma piece_lookup plan o a : a ∈ piece plan o -> exists i, (o <= i < o + 8)%nat /\ plan !! i = Some a.
Proof.
  intros [i Hi]%list_elem_of_lookup. apply lookup_take_Some in Hi as [Hi Hl]. rewrite lookup_drop in Hi. exists (o + i)%nat. split; [lia|done].
Qed.
Lemma piece_disjoint plan o o' a : NoDup plan -> (o + 8 <= o' \/ o' + 8 <= o)%nat -> a ∈ piece plan o -> a ∉ piece plan o'.
Proof.
  intros Hn Ho (i & Hi & Ei)%piece_lookup (j & Hj & Ej)%piece_lookup.
  pose proof (NoDup_lookup _ _ _ _ Hn Ei Ej). lia.
Qed.
Lemma piece_in plan o a : a ∈ piece plan o -> a ∈ plan.
Proof. intros (i & _ & E)%piece_lookup. by eapply list_elem_of_lookup_2. Qed.

Lemma write_then_read m plan o v : NoDup plan -> (o + 8 <= length plan)%nat -> word v ->
  read_bytes (write_bytes m (piece plan o) v) (piece plan o) = v.
Proof.
  intros Hn Ho Hv. rewrite read_write_bytes by (by apply piece_NoDup). rewrite piece_length by done. by apply Z.mod_small.
Qed.
Lemma write_elsewhere m plan o o' v : NoDup plan -> (o + 8 <= o' \/ o' + 8 <= o)%nat ->
  read_bytes (write_bytes m (piece plan o') v) (piece plan o) = read_bytes m (piece plan o).
Proof. intros Hn Ho. apply read_bytes_ext. intros a Ha. apply write_bytes_other. by eapply piece_disjoint. Qed.

Lemma push_frame_words t plan x : NoDup plan -> length plan = 32%nat -> word (t_pc t) -> word (c_status (x_csr x)) ->
  read_planned (push_frame t plan x) plan 0 8 = t_pc t /\ read_planned (push_frame t plan x) plan 8 8 = c_status (x_csr x).
Proof.
  intros Hn Hl Hp Hs. unfold read_planned, push_frame, write_planned. cbn [x_mem x_csr setter set_x_mem].
  change (take 8 (drop ?o plan)) with (piece plan o). split.
  - rewrite !write_elsewhere by (done || lia). apply write_then_read; [done|lia|done].
  - rewrite !write_elsewhere by (done || lia). apply write_then_read; [done|lia|done].
Qed.

(** ** Plans under a coherent cache *)

Definition coherent (x : machine) : Prop := tlb_coherent (x_mem x) (c_paging_root (x_csr x)) (x_tlb x).
Definition resolves (x : machine) (level : privilege) (k : access_kind) (a p : Z) : Prop :=
  translate_uncached (x_mem x) (c_paging_root (x_csr x)) level k a = inr p.

Lemma plan_bytes_coherent l x k level r x' : coherent x -> plan_bytes x l k level = (r, x') ->
  exists t, x' = x <| x_tlb := t |> /\ tlb_coherent (x_mem x) (c_paging_root (x_csr x)) t /\
  (forall plan, r = inr plan -> Forall2 (resolves x level k) l plan).
Proof.
  revert x r x'. induction l as [|a l IH]; intros x r x' Hx; cbn [plan_bytes].
  { intros [= <- <-]. exists (x_tlb x). split; [by destruct x|]. split; [done|]. by intros ? [= <-]. }
  pose proof (translate_coherent _ _ _ level k a Hx) as [H1 H2]. destruct (translate _ _ _ _ _ _) as [q t] eqn:Et. cbn in H1, H2.
  destruct q as [f|p]; [intros [= <- <-]; by exists t|].
  destruct (plan_bytes _ l k level) as [[f|plan] x1] eqn:Ep; intros [= <- <-];
    (apply IH in Ep as (t1 & -> & Ht1 & Hr); [|done]); exists t1; (split; [done|]); (split; [done|]); [done|].
  intros ? [= <-]. constructor; [done|]. by apply Hr.
Qed.
Lemma plan_bytes_run l plan x k level : coherent x -> Forall2 (resolves x level k) l plan ->
  exists t, plan_bytes x l k level = (inr plan, x <| x_tlb := t |>).
Proof.
  intros Hx H. revert x Hx H. revert plan. induction l as [|a l IH]; intros plan x Hx H; inversion H as [|? p ? plan' Hp Hl]; subst.
  { exists (x_tlb x). by destruct x. }
  cbn [plan_bytes]. pose proof (translate_coherent _ _ _ level k a Hx) as [H1 H2].
  destruct (translate _ _ _ _ _ _) as [q t] eqn:Et. cbn in H1, H2. rewrite Hp in H1. subst q.
  destruct (IH plan' (x <| x_tlb := t |>)) as [t1 E]; [done|done|]. exists t1. by rewrite E.
Qed.
Lemma lowest_of_all m l : Forall (fun p => accessible m p = true) l -> lowest_of m l = None.
Proof. intros H. unfold lowest_of. induction H as [|a l Ha _ IH]; [done|]. cbn. by rewrite Ha. Qed.
Lemma plan_access_run x a n k level plan : coherent x ->
  Forall2 (resolves x level k) ((fun i => u64 (a + i)) <$> seqZ 0 n) plan -> Forall (fun p => accessible (x_mem x) p = true) plan ->
  exists t, plan_access x a n k level = (inr plan, x <| x_tlb := t |>).
Proof.
  intros Hx Hp Ha. destruct (plan_bytes_run _ _ _ _ _ Hx Hp) as [t E]. exists t. unfold plan_access. rewrite E. cbn [x_mem setter set_x_tlb].
  by rewrite lowest_of_all.
Qed.
Lemma plan_access_inv x a n k level plan x' : coherent x -> plan_access x a n k level = (inr plan, x') ->
  exists t, x' = x <| x_tlb := t |> /\ tlb_coherent (x_mem x) (c_paging_root (x_csr x)) t /\
  Forall2 (resolves x level k) ((fun i => u64 (a + i)) <$> seqZ 0 n) plan /\ Forall (fun p => accessible (x_mem x) p = true) plan.
Proof.
  intros Hx. unfold plan_access. destruct (plan_bytes _ _ _ _) as [q x1] eqn:E.
  apply plan_bytes_coherent in E as (t & -> & Ht & Hq); [|done]. destruct q as [f|l]; [done|].
  destruct (lowest_of _ l) eqn:El; [done|]. intros [= <- <-]. exists t. apply lowest_of_None in El. eauto.
Qed.

(** ** What a mapping keeps of the address *)

(** The leaf a walk returns: its base is aligned to its page, and a writable
    one is readable. *)
Lemma walk_leaf_shape m va k tr level table c : walk_leaf m va k tr level table = inr c ->
  (exists l, ct_offset_mask c = page_offset_mask l /\ Z.land (ct_physical_base c) (page_offset_mask l) = 0) /\
  (has (ct_permissions c) kWritable = true -> has (ct_permissions c) kReadable = true).
Proof.
  assert (forall e b, Z.land b kPermissionMask = b -> has (Z.land e kPermissionMask) b = has e b) as Hperm.
  { intros e b Hb. unfold has. rewrite <- Z.land_assoc, (Z.land_comm kPermissionMask), Hb. done. }
  assert (forall l e, has e (Z.lor (Z.lor kReadable kWritable) kExecutable) = true -> has e kWritable && negb (has e kReadable) = false ->
    has (address_field e) (page_offset_mask l) = false ->
    let c := mk_cached (clr tr (page_offset_mask l)) (address_field e) (page_offset_mask l) (Z.land e kPermissionMask) in
    (exists l, ct_offset_mask c = page_offset_mask l /\ Z.land (ct_physical_base c) (page_offset_mask l) = 0) /\
    (has (ct_permissions c) kWritable = true -> has (ct_permissions c) kReadable = true)) as Hleaf.
  { intros l e _ Hw Ha. split; [exists l; split; [done|]; by apply negb_false_iff, Z.eqb_eq in Ha|].
    cbn. rewrite !Hperm by done. by destruct (has e kWritable), (has e kReadable). }
  revert table. induction level as [|level IH]; intros table; cbn [walk_leaf];
    repeat case_match; intros E; simplify_eq; try (by eapply IH); apply Hleaf; try done; by apply negb_false_iff.
Qed.

(** A byte that can be stored to can be loaded, at the same place. *)
Lemma resolves_load x level a p : resolves x level Store a p -> resolves x level Load a p.
Proof.
  unfold resolves, translate_uncached. destruct (_ =? kModeBare); [done|].
  destruct (walk_leaf _ _ Store _ _ _) as [f|c] eqn:E; [done|].
  assert (hit (Z.land a kTranslatedMask) (Some c) = true) as Hh.
  { destruct (walk_leaf_level _ _ _ _ _ _ _ E) as (l & _ & Hm & Hb). cbn. rewrite Hm, Hb. apply Z.eqb_refl. }
  rewrite (walk_leaf_page _ _ _ _ _ _ _ a Load _ E Hh). destruct (walk_leaf_shape _ _ _ _ _ _ _ E) as [_ Hr].
  unfold finish, leaf_admits. destruct (if decide _ then _ else _); [done|].
  destruct (has _ kWritable) eqn:Ew; [|done]. by rewrite (Hr eq_refl).
Qed.

(** The offset in a 4096-byte page is the address's. *)
Lemma lor_ones_low base tr n : 12 <= n -> Z.land base (Z.ones n) = 0 -> Z.lor base (Z.land tr (Z.ones n)) mod 4096 = tr mod 4096.
Proof.
  intros Hn Hb. change 4096 with (2 ^ 12). rewrite <- !Z.land_ones by lia. apply Z.bits_inj'. intros i Hi.
  rewrite !Z.land_spec, Z.lor_spec, Z.land_spec. destruct (Z_lt_le_dec i 12).
  - rewrite !Z.ones_spec_low by lia. pose proof (f_equal (fun z => Z.testbit z i) Hb) as Hb'. cbn in Hb'.
    rewrite Z.land_spec, Z.ones_spec_low, Z.bits_0, andb_true_r in Hb' by lia. by rewrite Hb', !andb_true_r.
  - rewrite (Z.ones_spec_high 12) by lia. by rewrite !andb_false_r.
Qed.
Lemma resolves_offset x level k a p : resolves x level k a p -> p mod 4096 = a mod 4096.
Proof.
  unfold resolves, translate_uncached. destruct (_ =? kModeBare); [by intros [= <-]|].
  destruct (walk_leaf _ _ _ _ _ _) as [f|c] eqn:E; [done|].
  destruct (walk_leaf_shape _ _ _ _ _ _ _ E) as [(l & Hm & Hb) _]. unfold finish. destruct (leaf_admits _ _ _); [|done].
  intros [= <-]. rewrite Hm, page_offset_mask_ones in *. rewrite lor_ones_low; [|unfold index_shift; lia|done].
  unfold kTranslatedMask. change (Z.shiftl 1 48 - 1) with (Z.ones 48). rewrite Z.land_ones by lia.
  change (2 ^ 48) with (4096 * 2 ^ 36). rewrite Z.rem_mul_r by lia. rewrite Z.mul_comm, Z_mod_plus_full. by apply Z.mod_mod.
Qed.
(** So the bytes of an access of at most a page are distinct. *)
Lemma plan_NoDup x a n k level plan : 0 <= n <= 4096 ->
  Forall2 (resolves x level k) ((fun i => u64 (a + i)) <$> seqZ 0 n) plan -> NoDup plan.
Proof.
  intros Hn Hp. apply NoDup_alt. intros i j p Hi Hj.
  assert (forall i, plan !! i = Some p -> Z.of_nat i < n /\ p mod 4096 = (a + Z.of_nat i) mod 4096) as H.
  { clear i j Hi Hj. intros i Hi. destruct (Forall2_lookup_r _ _ _ _ _ Hp Hi) as (b & Hb & Hr).
    rewrite list_lookup_fmap in Hb. destruct (seqZ 0 n !! i) as [z|] eqn:Ez; [|done]. apply lookup_seqZ in Ez as [-> Hlt].
    cbn in Hb. injection Hb as <-. split; [lia|]. apply resolves_offset in Hr. rewrite Hr. unfold u64.
    change (2 ^ 64) with (4096 * 2 ^ 52). rewrite Z.rem_mul_r, Z.mul_comm, Z_mod_plus_full, Z.mod_mod by lia. done. }
  apply H in Hi as [? Hi], Hj as [? Hj]. rewrite Hi in Hj.
  pose proof (Z.div_mod (a + Z.of_nat i) 4096). pose proof (Z.div_mod (a + Z.of_nat j) 4096). lia.
Qed.

(** ** The round trip *)

(** What a delivery that reached its handler did. *)
Lemma deliver_inv t o pc x h x1 : machine_wf x -> coherent x -> deliver t o pc x = ((Trapped t (Delivered h), o, pc), x1) ->
  let frame := u64 (c_trap_stack (x_csr x) - kFrameBytes) in
  exists plan tl, Forall2 (resolves x Supervisor Store) ((fun i => u64 (frame + i)) <$> seqZ 0 kFrameBytes) plan /\
    Forall (fun p => accessible (x_mem x) p = true) plan /\
    x1 = (push_frame t plan x) <| x_tlb := tl |> <| x_csr := machine_enter_supervisor (machine_set_trap_stack (x_csr x) frame) |> <| x_pc := h |>.
Proof.
  intros Hx Hc. unfold deliver. destruct (plan_access x _ _ _ _) as [q y] eqn:E. destruct q as [f|plan]; [done|].
  apply plan_access_inv in E as (t1 & -> & Ht1 & _ & _); [|done]. destruct (_ =? 0); [done|].
  destruct (plan_access _ _ _ Store _) as [q y] eqn:E. destruct q as [f|plan2]; [done|].
  apply plan_access_inv in E as (t2 & -> & Ht2 & Hp & Ha); [|done]. intros [= <- <-]. exists plan2, t2. done.
Qed.

(** C24: a trap and its return are inverse.  A delivery pushes a frame; when
    the handler has left the frame's bytes, the mapping of the frame and the
    trap stack register as they were, trap_return resumes at the captured
    program counter with the interrupted status word and the trap stack of
    before, and leaves registers, memory and devices as the handler had them.
    This covers a frame that straddles two pages: its 32 bytes never overlap
    in physical memory. *)
Theorem trap_return_undoes_delivery x t o pc h x1 x2 d :
  machine_wf x -> trap_wf t -> coherent x -> coherent x2 ->
  deliver t o pc x = ((Trapped t (Delivered h), o, pc), x1) ->
  level_of x2 = Supervisor -> c_trap_stack (x_csr x2) = c_trap_stack (x_csr x1) -> mm_size (x_mem x2) = mm_size (x_mem x) ->
  (forall i a p, 0 <= i < kFrameBytes -> a = u64 (c_trap_stack (x_csr x1) + i) -> resolves x Supervisor Store a p ->
    resolves x2 Supervisor Store a p /\ mm_bytes (x_mem x2) p = mm_bytes (x_mem x1) p) ->
  exists tl, execute_trap_return d x2 =
    ((Advanced, d_opcode d, d_pc d),
     x2 <| x_tlb := tl |> <| x_csr := machine_set_trap_stack (machine_write_status (x_csr x2) (c_status (x_csr x))) (c_trap_stack (x_csr x)) |>
        <| x_pc := t_pc t |>).
Proof.
  intros Hx Ht Hc Hc2 Hd Hlev Hstack Hsize Hkeep. destruct (cw_status _ (mw_csr x Hx)) as [Hsw Hsa].
  apply deliver_inv in Hd as (plan & tl & Hp & Ha & ->); [|done..]. cbn in Hstack.
  set (frame := u64 (c_trap_stack (x_csr x) - kFrameBytes)) in *.
  assert (NoDup plan) as Hnd by (by eapply (plan_NoDup x frame kFrameBytes)).
  assert (length plan = 32%nat) as Hl by (rewrite <- (Forall2_length Hp), length_fmap, length_seqZ; done).
  assert (forall i a p, ((fun i => u64 (frame + i)) <$> seqZ 0 kFrameBytes) !! i = Some a -> plan !! i = Some p -> resolves x Supervisor Store a p ->
    resolves x2 Supervisor Store a p /\ mm_bytes (x_mem x2) p = mm_bytes (x_mem (push_frame t plan x)) p) as Hframe.
  { intros i a p Hi _. rewrite list_lookup_fmap in Hi. destruct (seqZ 0 kFrameBytes !! i) as [z|] eqn:Ez; [|done].
    apply lookup_seqZ in Ez as [-> Hlt]. cbn in Hi. injection Hi as <-. apply (Hkeep (0 + Z.of_nat i)); [lia|done]. }
  assert (Forall2 (resolves x2 Supervisor Load) ((fun i => u64 (frame + i)) <$> seqZ 0 kFrameBytes) plan) as Hp2.
  { apply Forall2_same_length_lookup. split; [by eapply Forall2_length|]. intros i a p Ha' Hp'.
    apply resolves_load. eapply Hframe; [done..|]. by eapply Forall2_lookup_lr. }
  destruct (plan_access_run x2 frame kFrameBytes Load Supervisor plan Hc2 Hp2) as [t2 E2].
  { eapply List.Forall_impl; [|exact Ha]. intros p. unfold accessible. by rewrite Hsize. }
  assert (forall i, read_planned (x2 <| x_tlb := t2 |>) plan i 8 = read_planned (push_frame t plan x) plan i 8) as Hread.
  { intros i. apply read_bytes_ext. intros p Hin. apply piece_in in Hin. apply list_elem_of_lookup in Hin as [j Hj].
    destruct (Forall2_lookup_r _ _ _ _ _ Hp Hj) as (a & Hj' & Hr). by destruct (Hframe j a p). }
  destruct (push_frame_words t plan x Hnd Hl ltac:(apply Ht) Hsw) as [Hw1 Hw2].
  exists t2. unfold execute_trap_return. rewrite Hlev, Hstack, E2, !Hread, Hw1, Hw2, Hsa. cbn [negb].
  unfold branch_to. replace (u64 (frame + kFrameBytes)) with (c_trap_stack (x_csr x)); [done|].
  destruct (cw_stack _ (mw_csr x Hx)) as [Hsk _]. unfold frame, u64. rewrite Zplus_mod_idemp_l, Z.sub_add. symmetry. by apply Z.mod_small.
Qed.
