(* ===== verification/V2User.v ===== *)
(** * User programs are confined

    What instructions executed at user level can reach: memory that the page
    tables let user level store to, the registers, the user CSR; and nothing
    of the supervisor's control registers, of the devices' settings, or of the
    rest of memory. *)
From Stdlib Require Import ZArith Lia Bool.
From stdpp Require Import base list numbers.
From S2P Require Import Prelude State Memory V2Opcode V2Csr V2Translate V2Interp V2Word V2Wf V2Total V2Trap.

(** ** Statement *)

Definition user_writable (x : machine) (p : Z) : Prop := exists a, resolves x User Store a p.
(** The kernel's part: no byte the walk reads is one user level can store to,
    so memories that differ only where user level can store walk alike. *)
Definition tables_protected (x : machine) : Prop :=
  forall m, mm_size m = mm_size (x_mem x) -> (forall p, user_writable x p \/ mm_bytes m p = mm_bytes (x_mem x) p) ->
  forall va k tr, walk_leaf m va k tr 3 (address_field (c_paging_root (x_csr x))) =
                  walk_leaf (x_mem x) va k tr 3 (address_field (c_paging_root (x_csr x))).

(** Equal but for fcsr, the one CSR user level can write, and the pending
    bits, which follow the device lines. *)
Definition csr_same (c c' : csr_file) : Prop :=
  c' = c <| c_fcsr := c_fcsr c' |> <| c_interrupt_pending := c_interrupt_pending c' |>.
Definition devices_same (d d' : devices) : Prop :=
  dv_console d' = dv_console d /\ tim_irq (dv_timer d') = tim_irq (dv_timer d) /\
  tim_period (dv_timer d') = tim_period (dv_timer d) /\ tim_mode (dv_timer d') = tim_mode (dv_timer d).

(** What has happened between [x] and [y] is within the user's reach. *)
Record confined (x y : machine) : Prop := {
  cf_csr : csr_same (x_csr x) (x_csr y);
  cf_dev : devices_same (x_dev x) (x_dev y);
  cf_size : mm_size (x_mem y) = mm_size (x_mem x);
  cf_mem : forall p, user_writable x p \/ mm_bytes (x_mem y) p = mm_bytes (x_mem x) p;
  cf_tlb : tlb_coherent (x_mem x) (c_paging_root (x_csr x)) (x_tlb y) }.

Lemma csr_same_trans a b c : csr_same a b -> csr_same b c -> csr_same a c.
Proof. unfold csr_same. intros -> E. destruct c, a. cbn in *. by injection E as -> -> -> -> -> -> -> -> -> -> ->. Qed.
Lemma csr_same_refl c : csr_same c c.
Proof. by destruct c. Qed.

Section Confined.
Context (x0 : machine) (Hlevel : level_of x0 = User) (Htables : tables_protected x0).

Lemma confined_level y : confined x0 y -> level_of y = User.
Proof. intros [E _ _ _ _]. rewrite <- Hlevel. unfold level_of, csr_privilege. rewrite E. done. Qed.
Lemma confined_root y : confined x0 y -> c_paging_root (x_csr y) = c_paging_root (x_csr x0).
Proof. intros [E _ _ _ _]. rewrite E. done. Qed.
Lemma confined_walk y va k tr : confined x0 y ->
  walk_leaf (x_mem y) va k tr 3 (address_field (c_paging_root (x_csr x0))) =
  walk_leaf (x_mem x0) va k tr 3 (address_field (c_paging_root (x_csr x0))).
Proof. intros [_ _ ? ? _]. by apply Htables. Qed.
Lemma confined_coherent y t : confined x0 y -> tlb_coherent (x_mem x0) (c_paging_root (x_csr x0)) t ->
  tlb_coherent (x_mem y) (c_paging_root (x_csr y)) t.
Proof.
  intros Hy Ht. rewrite (confined_root y Hy). eapply List.Forall_impl; [|exact Ht]. intros e He c tr va k Ee Hh.
  rewrite confined_walk by done. by apply He.
Qed.
Lemma coherent_confined y t : confined x0 y -> tlb_coherent (x_mem y) (c_paging_root (x_csr y)) t ->
  tlb_coherent (x_mem x0) (c_paging_root (x_csr x0)) t.
Proof.
  intros Hy Ht. rewrite (confined_root y Hy) in Ht. eapply List.Forall_impl; [|exact Ht]. intros e He c tr va k Ee Hh.
  rewrite <- (confined_walk y) by done. by apply He.
Qed.
Lemma confined_resolves y k a p : confined x0 y -> resolves y User k a p -> resolves x0 User k a p.
Proof.
  intros Hy. unfold resolves, translate_uncached. rewrite (confined_root y Hy), confined_walk by done. done.
Qed.

(** ** The parts of an instruction *)

Lemma confined_tlb y t : confined x0 y -> tlb_coherent (x_mem y) (c_paging_root (x_csr y)) t -> confined x0 (y <| x_tlb := t |>).
Proof. intros Hy Ht. pose proof (coherent_confined y t Hy Ht). destruct Hy. by constructor. Qed.
Lemma confined_csr y c : confined x0 y -> csr_same (x_csr y) c -> confined x0 (y <| x_csr := c |>).
Proof. intros [] Hc. constructor; try done. by eapply csr_same_trans. Qed.
Lemma confined_wr y n v : confined x0 y -> confined x0 (wr y n v).
Proof. intros []. by constructor. Qed.
Lemma confined_pc y v : confined x0 y -> confined x0 (y <| x_pc := v |>).
Proof. intros []. by constructor. Qed.
Lemma confined_steps y v : confined x0 y -> confined x0 (y <| x_steps := v |>).
Proof. intros []. by constructor. Qed.
Lemma timer_advance_same t ns : let t' := timer_advance t ns in
  tim_irq t' = tim_irq t /\ tim_period t' = tim_period t /\ tim_mode t' = tim_mode t.
Proof. unfold timer_advance. cbn zeta. by destruct (tim_armed _ && _). Qed.
Lemma confined_time y ns : confined x0 y -> confined x0 (y <| x_dev := advance_time (x_dev y) ns |>).
Proof.
  intros [Hc (H1 & H2 & H3 & H4) Hs Hm Ht]. constructor; try done. split; [done|]. rewrite <- H2, <- H3, <- H4.
  apply (timer_advance_same (dv_timer (x_dev y)) ns).
Qed.
Lemma confined_write_bytes y l v : confined x0 y -> Forall (user_writable x0) l ->
  confined x0 (y <| x_mem := write_bytes (x_mem y) l v |>).
Proof.
  intros [] Hl. constructor; try done; cbn; [by rewrite write_bytes_size|].
  intros p. destruct (decide (p ∈ l)) as [Hin|Hin]; [left; rewrite list.Forall_forall in Hl; by apply Hl|].
  rewrite write_bytes_other by done. apply cf_mem0.
Qed.
Lemma sample_csr_same c lines l :
  csr_same c (foldl (fun c line => if Z.testbit lines line then machine_raise_pending c (kFirstExternalInterrupt + line)
         else machine_clear_pending c (kFirstExternalInterrupt + line)) c l).
Proof.
  revert c. induction l as [|i l IH]; intros c; [apply csr_same_refl|]. cbn [foldl]. eapply csr_same_trans; [|apply IH].
  by destruct (Z.testbit lines i), c.
Qed.
Lemma confined_sample y : confined x0 y -> confined x0 (sample_device_interrupts y).
Proof. intros Hy. apply confined_csr; [done|]. apply sample_csr_same. Qed.

Lemma confined_plan y a n k level r y' : confined x0 y -> level = User -> plan_access y a n k level = (r, y') ->
  confined x0 y' /\ (forall plan, r = inr plan -> k = Store -> Forall (user_writable x0) plan).
Proof.
  intros Hy ->. unfold plan_access. destruct (plan_bytes _ _ _ _) as [q x1] eqn:E.
  apply plan_bytes_coherent in E as (t & -> & Ht & Hq); [|by apply confined_coherent, cf_tlb].
  assert (confined x0 (y <| x_tlb := t |>)) by (by apply confined_tlb).
  destruct q as [f|l]; [by intros [= <- <-]|]. destruct (lowest_of _ l); intros [= <- <-]; (split; [done|]); [done|].
  intros plan [= <-] ->. specialize (Hq _ eq_refl). clear -Hq Hy Htables. induction Hq as [|b p la lp Hr _ IH]; constructor; [|done].
  exists b. by apply (confined_resolves y).
Qed.
Lemma confined_plan_byte y a k r y' : confined x0 y -> plan_byte y a k = (r, y') ->
  confined x0 y' /\ (forall p, r = inr p -> k = Store -> user_writable x0 p).
Proof.
  intros Hy. unfold plan_byte. destruct (plan_access _ _ _ _ _) as [q x1] eqn:E.
  pose proof E as E'. apply confined_plan in E as [H1 Hq]; [|done|by apply confined_level].
  destruct q as [f|plan]; intros [= <- <-]; (split; [done|]); [done|]. intros p [= <-] ->.
  specialize (Hq _ eq_refl eq_refl). unfold plan_access in E'. destruct (plan_bytes _ _ _ _) as [q2 x2] eqn:E2.
  apply plan_bytes_coherent in E2 as (t & -> & Ht & Hl); [|by apply confined_coherent, cf_tlb].
  destruct q2 as [f|l]; [done|]. destruct (lowest_of _ l); [done|]. injection E' as -> _. specialize (Hl _ eq_refl).
  apply Forall2_length in Hl. rewrite length_fmap, length_seqZ in Hl. destruct plan as [|p plan]; [done|].
  by apply Forall_cons_1 in Hq as [? _].
Qed.

(** ** Instructions *)

Create HintDb confined.

(** The instruction traps, stops or stays confined. *)
Definition confined_result (r : step_result * machine) : Prop := r.1.1.1 = Advanced -> confined x0 r.2.

Lemma deliver_confined t o pc y : confined_result (deliver t o pc y).
Proof. unfold confined_result, deliver, halt_without_delivering. repeat case_match; done. Qed.
Lemma raise_confined d f y : confined_result (raise d f y).
Proof. destruct f as [[? ?] ?]. apply deliver_confined. Qed.
Lemma advance_confined d y : confined x0 y -> confined_result (advance d y).
Proof. intros H _. by apply confined_pc. Qed.
Lemma branch_confined d a y : confined x0 y -> confined_result (branch_to d a y).
Proof. intros H _. by apply confined_pc. Qed.
#[local] Hint Resolve deliver_confined raise_confined advance_confined branch_confined confined_wr confined_pc confined_steps confined_time confined_sample : confined.

Lemma load_confined d w s disp y : confined x0 y -> confined_result (execute_load d w s disp y).
Proof.
  intros Hy. unfold execute_load. destruct (plan_access _ _ _ _ _) as [q y1] eqn:E.
  apply confined_plan in E as [H1 _]; [|done|by apply confined_level]. destruct q; auto with confined.
Qed.
Lemma store_confined d w disp y : confined x0 y -> confined_result (execute_store d w disp y).
Proof.
  intros Hy. unfold execute_store. destruct (plan_access _ _ _ _ _) as [q y1] eqn:E.
  apply confined_plan in E as [H1 Hq]; [|done|by apply confined_level]. destruct q as [f|plan]; [auto with confined|].
  apply advance_confined, confined_write_bytes; [done|]. apply Forall_take, Forall_drop. by apply Hq.
Qed.

Definition confined_body (count : Z) (body : Z -> machine -> machine + (step_result * machine)) : Prop :=
  forall i y, 0 <= i < count -> confined x0 y -> match body i y with inl y' => confined x0 y' | inr r => confined_result r end.
Lemma mid_confined k y r y' : confined x0 y -> block_mid_operation_interrupt k y = (r, y') -> confined x0 y'.
Proof. intros Hy. unfold block_mid_operation_interrupt. destruct (_ || _); intros [= <- <-]; auto with confined. Qed.
Lemma interrupt_confined c pc y : confined_result (deliver_interrupt c pc y).
Proof. apply deliver_confined. Qed.
#[local] Hint Resolve interrupt_confined : confined.
Lemma write_byte_confined y p v : confined x0 y -> user_writable x0 p -> confined x0 (y <| x_mem := write_byte (x_mem y) p v |>).
Proof.
  intros [] Hp. constructor; try done. cbn. intros q. destruct (Z.eqb_spec q p) as [->|]; [by left|apply cf_mem0].
Qed.
Lemma set_byte_confined d fill dest count : confined_body count (block_set_byte d fill dest count).
Proof.
  intros i y Hi Hy. unfold block_set_byte. destruct (plan_byte _ _ _) as [q y1] eqn:E.
  apply confined_plan_byte in E as [H1 Hq]; [|done]. destruct q as [f|p]; [auto with confined|].
  destruct (block_mid_operation_interrupt _ _) as [c y2] eqn:E. apply mid_confined in E; [destruct c; auto with confined|].
  apply write_byte_confined; [done|]. by apply Hq.
Qed.
Lemma copy_byte_confined y a b r y' : confined x0 y -> copy_byte y a b = (r, y') -> confined x0 y'.
Proof.
  intros Hy. unfold copy_byte. destruct (plan_byte _ _ _) as [q y1] eqn:E.
  apply confined_plan_byte in E as [H1 _]; [|done]. destruct q as [f|p]; [by intros [= <- <-]|].
  destruct (plan_byte _ b _) as [q y2] eqn:E. apply confined_plan_byte in E as [H2 Hq]; [|done].
  destruct q as [f|p2]; intros [= <- <-]; [done|]. apply write_byte_confined; [done|]. by apply Hq.
Qed.
Lemma copy_up_confined d src dest count : confined_body count (copy_up_byte d src dest count).
Proof.
  intros i y Hi Hy. unfold copy_up_byte. destruct (copy_byte _ _ _) as [q y1] eqn:E. apply copy_byte_confined in E; [|done].
  destruct q as [f|p]; [auto with confined|].
  destruct (block_mid_operation_interrupt _ _) as [c y2] eqn:E2. apply mid_confined in E2; [|done]. destruct c; auto with confined.
Qed.
Lemma copy_down_confined d src dest count : confined_body count (copy_down_byte d src dest count).
Proof.
  intros i y Hi Hy. unfold copy_down_byte. destruct (copy_byte _ _ _) as [q y1] eqn:E. apply copy_byte_confined in E; [|done].
  destruct q as [f|p]; [auto with confined|].
  destruct (block_mid_operation_interrupt _ _) as [c y2] eqn:E2. apply mid_confined in E2; [|done]. destruct c; auto with confined.
Qed.

Definition confined_runs (o : option (step_result * machine)) : Prop := exists r, o = Some r /\ confined_result r.
Lemma block_confined d y : machine_wf y -> confined x0 y -> confined_runs (execute_block d y).
Proof.
  intros Hw Hy. pose proof (rd_word y (reg2 d) Hw) as Hc. unfold execute_block, confined_runs.
  destruct (block_bad_slot d); [eauto with confined|]. destruct (_ =? 0); [eauto with confined|].
  destruct (_ =? kBlockSet).
  - apply (loop_up_rule _ Hc (fun _ => confined x0) confined_result); [apply set_byte_confined|auto with confined|done].
  - destruct (_ && _ && _).
    + apply (loop_down_rule _ Hc (fun _ => confined x0) confined_result); [apply copy_down_confined|auto with confined|done].
    + apply (loop_up_rule _ Hc (fun _ => confined x0) confined_result); [apply copy_up_confined|auto with confined|done].
Qed.

(** User level reaches only the CSRs whose number says so. *)
Lemma access_user c n w v o c' : 0 <= n -> access c n User w v = (o, c') -> csr_same c c'.
Proof.
  intros Hn. unfold access, csr_privilege_field. cbn [privilege_number].
  destruct (1 <? _); [intros [= <- <-]; apply csr_same_refl|].
  destruct (Z.ltb_spec 0 (Z.shiftr n 14)) as [|Hs]; [intros [= <- <-]; apply csr_same_refl|].
  assert (n < 0x4000) as Hlow.
  { rewrite Z.shiftr_div_pow2 in Hs by lia. pose proof (Z.div_mod n (2 ^ 14)). pose proof (Z.mod_pos_bound n (2 ^ 14)). lia. }
  repeat match goal with |- context [if ?b then (CsrTrap _ _ _, _) else _] => destruct b; [intros [= <- <-]; apply csr_same_refl|] end.
  assert (forall k, 0x4000 <= k -> (n =? k) = false) as Hne by (intros; apply Z.eqb_neq; lia).
  destruct w; [|intros [= <- <-]; apply csr_same_refl]. rewrite (Hne kPagingRoot) by (vm_compute; discriminate). intros [= <- <-].
  unfold csr_store, in_array. rewrite (Hne kStatus), (Hne kTrapStack), (Hne kTrapVectorBase), (Hne kPagingRoot), (Hne kSyscallProvider), (Hne kScratch) by (vm_compute; discriminate). replace (kInterruptEnable0 <=? n) with false by (symmetry; apply Z.leb_gt; unfold kInterruptEnable0; lia).
  cbn. destruct (n =? kFcsr); by destruct c.
Qed.
Lemma csr_confined d y : confined x0 y -> confined_result (execute_csr d y).
Proof.
  intros Hy. unfold execute_csr. rewrite (confined_level y Hy). destruct (access _ _ _ _ _) as [o c] eqn:E.
  apply access_user in E; [|by apply Z.mod_pos_bound]. assert (confined x0 (y <| x_csr := c |>)) as Hc by (by apply confined_csr).
  destruct o as [cause sub aux|prior fl]; [auto with confined|]. apply advance_confined.
  assert (confined x0 (if fl then y <| x_csr := c |> <| x_tlb := invalidate_all (x_tlb (y <| x_csr := c |>)) |> else y <| x_csr := c |>)) as Hf.
  { destruct fl; [|done]. apply confined_tlb; [done|]. apply invalidate_all_coherent. }
  repeat case_match; auto with confined.
Qed.
Lemma bitfield_confined d y : confined x0 y -> confined_result (execute_bitfield d y).
Proof. intros Hy. unfold execute_bitfield. repeat case_match; auto with confined. Qed.
Lemma move_confined d y : confined x0 y -> confined_result (execute_move d y).
Proof. intros Hy. unfold execute_move. destruct (_ =? kMove); auto with confined. Qed.
Lemma carry_confined d y : confined x0 y -> confined_result (execute_carry d y).
Proof. intros Hy. unfold execute_carry. destruct (_ _ _ _); auto with confined. Qed.
Lemma control_confined d y : confined x0 y -> confined_result (execute_control d y).
Proof.
  intros Hy. unfold execute_control. repeat match goal with |- confined_result (if ?b then _ else _) => destruct b end; auto with confined.
  apply advance_confined. repeat case_match; auto with confined.
Qed.
Lemma system_confined d y : confined x0 y -> confined_runs (execute_system d y).
Proof.
  intros Hy. unfold execute_system, confined_runs. rewrite (confined_level y Hy). cbn [negb bool_decide decide_rel].
  change (bool_decide (User = Supervisor)) with false. cbn [negb]. rewrite andb_true_r.
  destruct (d_opcode d =? kTrapReturn), (d_opcode d =? kWaitForInterrupt), (d_opcode d =? kTlbInvalidateAll), (d_opcode d =? kTlbInvalidateAddress);
    cbn [orb]; try (eexists; split; [done|apply raise_confined]).
  repeat match goal with |- context [if ?b then _ else _] => destruct b end; eexists; (split; [done|]); try apply raise_confined;
    try apply deliver_confined. by intros ?.
Qed.

Lemma execute_confined d y : machine_wf y -> confined x0 y -> confined_runs (execute d y).
Proof.
  intros Hw Hy. unfold execute. assert (forall r, confined_result r -> confined_runs (Some r)) as Hs by (intros r ?; by exists r).
  destruct (upto kMove _ _); [by apply Hs, move_confined|].
  destruct (upto kAdd _ _); [destruct (alu _ _ _); auto with confined|].
  destruct (upto kNot _ _); [auto with confined|].
  destruct (upto kAddCarry _ _); [by apply Hs, carry_confined|].
  do 4 (destruct (upto _ _ _); [auto with confined|]).
  destruct (upto kBranchBase _ _); [destruct (evaluate_predicate _ _ _); auto with confined|].
  destruct (upto kJumpDisp _ _); [by apply Hs, control_confined|].
  destruct (upto kLoad _ _); [by apply Hs, load_confined|].
  destruct (upto kStore _ _); [by apply Hs, store_confined|].
  do 2 (destruct (upto _ _ _); [auto with confined|]).
  destruct (upto kBitfieldExtract _ _); [by apply Hs, bitfield_confined|].
  destruct (upto kBlockCopy _ _); [by apply block_confined|].
  destruct (_ || _); [by apply Hs, csr_confined|by apply system_confined].
Qed.

(** Fetching moves only the cache. *)
Lemma decode_coherent m root level t pc : tlb_coherent m root t -> tlb_coherent m root (decode_v2 m root level t pc).2.
Proof.
  assert (forall t a, tlb_coherent m root t -> tlb_coherent m root (fetch_byte m root level t a).2) as Hf.
  { intros t1 a Ht. unfold fetch_byte. pose proof (translate_coherent m root t1 level Fetch a Ht) as [_ H].
    destruct (translate _ _ _ _ _ _) as [[f|p] t2]; [done|]. by destruct (accessible m p). }
  assert (forall slots t a, tlb_coherent m root t -> tlb_coherent m root (decode_operands m root level t a slots).2) as Ho.
  { induction slots as [|s slots IH]; intros t1 a Ht; [done|]. cbn [decode_operands]. specialize (Hf t1 a Ht).
    destruct (fetch_byte _ _ _ _ _) as [[f|b] t2]; [done|]. destruct (negb _); [done|].
    specialize (IH t2 (u64 (a + 1)) Hf). by destruct (decode_operands _ _ _ _ _ _) as [[f|l] t3]. }
  assert (forall w t a, tlb_coherent m root t -> tlb_coherent m root (decode_immediate m root level t a w).2) as Hi.
  { induction w as [|w IH]; intros t1 a Ht; [done|]. cbn [decode_immediate]. specialize (Hf t1 a Ht).
    destruct (fetch_byte _ _ _ _ _) as [[f|b] t2]; [done|].
    specialize (IH t2 (u64 (a + 1)) Hf). by destruct (decode_immediate _ _ _ _ _ _) as [[f|l] t3]. }
  assert (forall ws t a, tlb_coherent m root t -> tlb_coherent m root (decode_immediates m root level t a ws).2) as His.
  { induction ws as [|w ws IH]; intros t1 a Ht; [done|]. cbn [decode_immediates]. specialize (Hi w t1 a Ht).
    destruct (decode_immediate _ _ _ _ _ _) as [[f|b] t2]; [done|].
    specialize (IH t2 (u64 (a + Z.of_nat w)) Hi). by destruct (decode_immediates _ _ _ _ _ _) as [[f|l] t3]. }
  intros Ht. unfold decode_v2. specialize (Hf t pc Ht). destruct (fetch_byte _ _ _ _ _) as [[f|o] t1]; [done|].
  destruct (oi_kind _); try done. specialize (Ho (oi_slots (opcode_info o)) t1 (u64 (pc + 1)) Hf).
  destruct (decode_operands _ _ _ _ _ _) as [[f|l] t2]; [done|].
  specialize (His (sh_immediates (shape_info (oi_shape (opcode_info o)))) t2
    (u64 (u64 (pc + 1) + Z.of_nat (sh_operands (shape_info (oi_shape (opcode_info o)))))) Ho).
  by destruct (decode_immediates _ _ _ _ _ _) as [[f|l'] t3].
Qed.

Lemma step_confined y r y' : machine_wf y -> confined x0 y -> step y = Some (r, y') -> r.1.1 = Advanced -> confined x0 y'.
Proof.
  intros Hw Hy. pose proof (step_runs y Hw) as Hok. unfold step in *. destruct (x_halted y); [intros E; injection E as <- <-; done|].
  pose proof (confined_sample y Hy) as Hs. pose proof (sample_wf y Hw) as Hsw.
  set (ys := sample_device_interrupts y) in *.
  pose proof (decode_coherent (x_mem ys) (c_paging_root (x_csr ys)) (level_of ys) (x_tlb ys) (x_pc ys)
    (confined_coherent ys _ Hs (cf_tlb _ _ Hs))) as Hd.
  destruct (decode_v2 _ _ _ _ _) as [q t] eqn:E. apply decode_wf in E as [Ht Hq]; [|apply Hsw..]. cbn in Hd.
  assert (confined x0 (ys <| x_tlb := t |>)) as Hst by (by apply confined_tlb).
  destruct q as [tr|d]; [intros [= E] Ha; pose proof (deliver_confined tr 0 (t_pc tr) (ys <| x_tlb := t |>)) as Hr; rewrite E in Hr; by apply Hr|].
  destruct (deliverable_interrupt _) as [c|]; [intros [= E] Ha; pose proof (interrupt_confined c (x_pc y) (ys <| x_tlb := t |>)) as Hr; rewrite E in Hr; by apply Hr|].
  set (z := ys <| x_tlb := t |>) in *.
  destruct (execute_confined d (z <| x_steps := u64 (x_steps z + 1) |>)) as ([r1 z1] & E & Hr); [|auto with confined|].
  { by apply wf_set_steps, wf_set_tlb. }
  rewrite E. intros [= <- <-] Ha. apply confined_time. by apply Hr.
Qed.
End Confined.

(** ** Any number of steps *)

Lemma confined_start x : coherent x -> confined x x.
Proof. intros Hx. constructor; try done; [apply csr_same_refl|by right]. Qed.
Lemma run_confined x0 n x r y : level_of x0 = User -> tables_protected x0 -> machine_wf x -> confined x0 x ->
  run_steps n x = Some (r, y) -> r.1.1 = Advanced -> confined x0 y.
Proof.
  intros Hl Ht. revert x. induction n as [|n IH]; intros x Hw Hx; [done|].
  destruct (step_runs x Hw) as ([r1 x1] & E & Hw1). pose proof (step_confined x0 Hl Ht x r1 x1 Hw Hx E) as Hc.
  destruct n as [|n]; [rewrite (run_one _ _ _ E); intros [= <- <-]; by apply Hc|].
  rewrite (run_more _ _ _ _ E). intros Hr Ha.
  destruct r1 as [[[] o] p]; try (injection Hr as <- <-; done). apply (IH x1); [done|by apply Hc|done..].
Qed.

(** C20: a user program is confined.  From a user-level machine whose
    kernel keeps the page tables out of user level's reach, however many
    instructions advance, the machine is still at user level; status, trap
    stack, vector base, paging root, enables, scratch and the other supervisor
    registers, the console and the timer's settings are untouched; and every
    byte of memory that changed is one the page tables let user level store
    to.  Block copies, CSR instructions and the cache are included. *)
Theorem user_program_confined x n r y : machine_wf x -> coherent x -> level_of x = User -> tables_protected x ->
  run_steps n x = Some (r, y) -> r.1.1 = Advanced ->
  level_of y = User /\ csr_same (x_csr x) (x_csr y) /\ devices_same (x_dev x) (x_dev y) /\ mm_size (x_mem y) = mm_size (x_mem x) /\
  (forall p, mm_bytes (x_mem y) p <> mm_bytes (x_mem x) p -> user_writable x p) /\ coherent y.
Proof.
  intros Hw Hc Hl Ht Hr Ha. pose proof (run_confined x n x r y Hl Ht Hw (confined_start x Hc) Hr Ha) as Hy.
  split; [by eapply confined_level|]. split; [apply Hy|]. split; [apply Hy|]. split; [apply Hy|].
  split; [|by apply (confined_coherent x Ht), cf_tlb].
  intros p Hd. by destruct (cf_mem _ _ Hy p).
Qed.
