(* ===== verification/V2Run.v ===== *)
(** * block_copy moves memory

    In bare mode and with interrupts off, block_copy leaves at the destination
    the bytes the source range held before, whatever the overlap: the machine
    chooses the direction of the copy. *)
From Stdlib Require Import ZArith Lia Bool.
From stdpp Require Import base list numbers.
From S2P Require Import Prelude State Memory V2Opcode V2Csr V2Translate V2Interp V2Word V2Wf V2Total V2Trap V2User.

Definition bare (x : machine) : Prop := (Z.land (c_paging_root (x_csr x)) kModeMask =? kModeBare) = true.

Lemma plan_byte_bare x a k : bare x -> 0 <= a < 2 ^ 64 -> a < mm_size (x_mem x) -> plan_byte x a k = (inr a, x).
Proof.
  intros Hb Ha Hs. unfold plan_byte, plan_access. change (seqZ 0 1) with [0]. cbn [fmap list_fmap plan_bytes].
  unfold translate. unfold bare in Hb. rewrite Hb. rewrite Z.add_0_r. unfold u64. rewrite Z.mod_small by done.
  assert (lowest_of (x_mem x) [a] = None) as E.
  { apply lowest_of_all, Forall_singleton. by apply Z.ltb_lt. }
  cbn [x_mem setter set_x_tlb]. rewrite E. by destruct x.
Qed.

(** At an interrupt check with interrupts off, only the clock and the pending
    bits move. *)
Definition quiet (x x' : machine) : Prop :=
  x_mem x' = x_mem x /\ x_regs x' = x_regs x /\ csr_same (x_csr x) (x_csr x').
Lemma mid_quiet k x : interrupts_enabled (x_csr x) = false ->
  exists x', block_mid_operation_interrupt k x = (None, x') /\ quiet x x'.
Proof.
  intros Hi. unfold block_mid_operation_interrupt. destruct (_ || _).
  { exists x. split; [done|]. split; [done|]. split; [done|apply csr_same_refl]. }
  set (x1 := x <| x_dev := advance_time (x_dev x) kNanosecondsPerInstruction |>).
  assert (csr_same (x_csr x) (x_csr (sample_device_interrupts x1))) as E by apply sample_csr_same.
  exists (sample_device_interrupts x1). split; [|by split; [|split]]. f_equal. unfold deliverable_interrupt.
  assert (interrupts_enabled (x_csr (sample_device_interrupts x1)) = false) as ->; [|done].
  unfold interrupts_enabled in *. by rewrite E.
Qed.

Section Copy.
Context (x0 : machine) (d : decoded) (source destination count : Z).
Context (Hbare : bare x0) (Hoff : interrupts_enabled (x_csr x0) = false).
Context (Hsize : mm_size (x_mem x0) <= 2 ^ 64).
Context (Hsrc : 0 <= source /\ source + count <= mm_size (x_mem x0)).
Context (Hdst : 0 <= destination /\ destination + count <= mm_size (x_mem x0)).

(** The bytes [from, to) of the transfer are done. *)
Definition copied (from to p : Z) : Z :=
  if (destination + from <=? p) && (p <? destination + to) then mm_bytes (x_mem x0) (source + (p - destination))
  else mm_bytes (x_mem x0) p.
Record progress (from to : Z) (x : machine) : Prop := {
  pg_mem : forall p, mm_bytes (x_mem x) p = copied from to p;
  pg_size : mm_size (x_mem x) = mm_size (x_mem x0);
  pg_regs : x_regs x = x_regs x0;
  pg_csr : csr_same (x_csr x0) (x_csr x) }.

Lemma progress_bare from to x : progress from to x -> bare x.
Proof. intros [_ _ _ E]. unfold bare. by rewrite E. Qed.
Lemma progress_off from to x : progress from to x -> interrupts_enabled (x_csr x) = false.
Proof. intros [_ _ _ E]. unfold interrupts_enabled. by rewrite E. Qed.
Lemma progress_quiet from to x x' : progress from to x -> quiet x x' -> progress from to x'.
Proof.
  intros [] (E1 & E2 & E3). constructor; rewrite ?E1, ?E2; try done. by eapply csr_same_trans.
Qed.

(** One byte, whichever way the copy runs. *)
Lemma copy_byte_progress from to i x : 0 <= i < count -> progress from to x ->
  mm_bytes (x_mem x) (source + i) = mm_bytes (x_mem x0) (source + i) ->
  copy_byte x (u64 (source + i)) (u64 (destination + i)) =
    (inr tt, x <| x_mem := write_byte (x_mem x) (destination + i) (mm_bytes (x_mem x0) (source + i)) |>).
Proof.
  intros Hi Hx Hb. pose proof (pg_size _ _ _ Hx) as Hs. unfold copy_byte, u64. rewrite !Z.mod_small by lia.
  rewrite plan_byte_bare; [|by eapply progress_bare|lia|lia]. rewrite plan_byte_bare; [|by eapply progress_bare|lia|lia].
  unfold read_byte. by rewrite Hb.
Qed.
Lemma write_progress from to from' to' i x : progress from to x ->
  (forall p, copied from' to' p = if p =? destination + i then mm_bytes (x_mem x0) (source + i) else copied from to p) ->
  progress from' to' (x <| x_mem := write_byte (x_mem x) (destination + i) (mm_bytes (x_mem x0) (source + i)) |>).
Proof.
  intros [Hm Hs Hr Hc] H. constructor; try done. intros p. cbn. rewrite H, Hm. done.
Qed.

Lemma copied_grow_up i p : 0 <= i -> copied 0 (i + 1) p = if p =? destination + i then mm_bytes (x_mem x0) (source + i) else copied 0 i p.
Proof.
  intros Hi. unfold copied. destruct (Z.eqb_spec p (destination + i)) as [->|Hp].
  - rewrite (proj2 (Z.leb_le _ _)), (proj2 (Z.ltb_lt _ _)) by lia. cbn. f_equal. lia.
  - destruct (Z.leb_spec (destination + 0) p), (Z.ltb_spec p (destination + (i + 1))), (Z.ltb_spec p (destination + i)); cbn; lia || done.
Qed.
Lemma copied_grow_down i p : i < count -> copied i count p = if p =? destination + i then mm_bytes (x_mem x0) (source + i) else copied (i + 1) count p.
Proof.
  intros Hi. unfold copied. destruct (Z.eqb_spec p (destination + i)) as [->|Hp].
  - rewrite (proj2 (Z.leb_le _ _)), (proj2 (Z.ltb_lt _ _)) by lia. cbn. f_equal. lia.
  - destruct (Z.leb_spec (destination + i) p), (Z.leb_spec (destination + (i + 1)) p), (Z.ltb_spec p (destination + count)); cbn; lia || done.
Qed.

Lemma copy_up_progress i x : ~ (source < destination < source + count) -> 0 <= i < count -> progress 0 i x ->
  match copy_up_byte d source destination count i x with inl x' => progress 0 (i + 1) x' | inr _ => False end.
Proof.
  intros Hov Hi Hx. unfold copy_up_byte. rewrite (copy_byte_progress 0 i); [|done..|].
  - set (x1 := x <| x_mem := _ |>). assert (progress 0 (i + 1) x1) as H1.
    { apply (write_progress 0 i); [done|]. intros p. apply copied_grow_up. lia. }
    destruct (mid_quiet (i + 1) x1) as (x2 & -> & Hq); [by eapply progress_off|]. by eapply progress_quiet.
  - rewrite (pg_mem _ _ _ Hx). unfold copied.
    destruct (Z.leb_spec (destination + 0) (source + i)), (Z.ltb_spec (source + i) (destination + i)); cbn; try done.
    destruct (Z.eq_dec source destination); [|lia]. f_equal. lia.
Qed.
Lemma copy_down_progress i x : source < destination -> 0 <= i < count -> progress (i + 1) count x ->
  match copy_down_byte d source destination count i x with inl x' => progress i count x' | inr _ => False end.
Proof.
  intros Hov Hi Hx. unfold copy_down_byte. rewrite (copy_byte_progress (i + 1) count); [|done..|].
  - set (x1 := x <| x_mem := _ |>). assert (progress i count x1) as H1.
    { apply (write_progress (i + 1) count); [done|]. intros p. apply copied_grow_down. lia. }
    destruct (mid_quiet (count - i) x1) as (x2 & -> & Hq); [by eapply progress_off|]. by eapply progress_quiet.
  - rewrite (pg_mem _ _ _ Hx). unfold copied. destruct (Z.leb_spec (destination + (i + 1)) (source + i)); [lia|done].
Qed.

Definition copy_done (r : step_result * machine) : Prop :=
  r.1 = (Advanced, d_opcode d, d_pc d) /\ x_pc r.2 = d_next_pc d /\
  (forall p, mm_bytes (x_mem r.2) p = copied 0 count p) /\ mm_size (x_mem r.2) = mm_size (x_mem x0) /\
  x_regs r.2 = reg_write (reg_write (reg_write (x_regs x0) (reg0 d) (u64 (source + count))) (reg1 d) (u64 (destination + count))) (reg2 d) 0 /\
  csr_same (x_csr x0) (x_csr r.2).

Lemma execute_block_copy : d_opcode d = kBlockCopy -> block_bad_slot d = None -> word count ->
  rd x0 (reg0 d) = source -> rd x0 (reg1 d) = destination -> rd x0 (reg2 d) = count -> 0 < count ->
  exists r, execute_block d x0 = Some r /\ copy_done r.
Proof.
  intros Ho Hslot Hc Es Ed Ec Hpos. unfold execute_block. rewrite Hslot, Es, Ed, Ec, Ho.
  rewrite (proj2 (Z.eqb_neq count 0)) by lia. change (kBlockCopy =? kBlockSet) with false. change (kBlockCopy =? kBlockCopy) with true.
  cbn [andb]. set (fin := fun x => advance d _).
  assert (forall x, progress 0 count x -> copy_done (fin x)) as Hfin.
  { intros x [Hm Hs Hr Hcs]. refine (conj _ (conj _ (conj _ (conj _ (conj _ _))))); try done. cbn. by rewrite Hr. }
  assert (forall k, 0 <= k <= count -> progress k k x0) as H0.
  { intros k Hk. constructor; try done; [|apply csr_same_refl]. intros p. unfold copied.
    destruct (Z.leb_spec (destination + k) p), (Z.ltb_spec p (destination + k)); cbn; lia || done. }
  destruct (_ && _) eqn:Edir.
  - apply andb_true_iff in Edir as [E1 E2]. apply negb_true_iff, Z.eqb_neq in E1. apply Z.ltb_lt in E2.
    assert (source < destination) as Hlt.
    { destruct (Z_lt_le_dec source destination); [done|]. unfold u64 in *. destruct (Z.eq_dec source destination) as [->|]; [by rewrite Z.sub_diag in E1|].
      rewrite <- (Z_mod_plus_full _ 1), Z.mod_small in E2 by lia. lia. }
    apply (loop_down_rule count Hc (fun i => progress i count) copy_done); [|done|apply H0; lia].
    intros i x Hi Hx. pose proof (copy_down_progress i x Hlt Hi Hx). by destruct (copy_down_byte _ _ _ _ _ _).
  - assert (~ (source < destination < source + count)) as Hov.
    { intros Hlt. apply andb_false_iff in Edir. unfold u64 in Edir. rewrite Z.mod_small in Edir by lia.
      destruct Edir as [E|E]; [apply negb_false_iff, Z.eqb_eq in E; lia|apply Z.ltb_ge in E; lia]. }
    apply (loop_up_rule count Hc (progress 0) copy_done); [|done|apply H0; lia].
    intros i x Hi Hx. pose proof (copy_up_progress i x Hov Hi Hx). by destruct (copy_up_byte _ _ _ _ _ _).
Qed.
End Copy.

(** Block_copy is memmove.  In bare mode with interrupts off, for any two
    ranges inside memory, overlapping or not, the instruction completes: each
    destination byte is the source byte of before, no other byte of memory
    changes, the two addresses have advanced by the count, the count is zero,
    and of the control registers only pending bits may have moved. *)
Theorem block_copy_moves x d : machine_wf x -> decoded_wf d -> bare x -> interrupts_enabled (x_csr x) = false ->
  d_opcode d = kBlockCopy -> block_bad_slot d = None ->
  let source := rd x (reg0 d) in let destination := rd x (reg1 d) in let count := rd x (reg2 d) in
  0 < count -> source + count <= mm_size (x_mem x) -> destination + count <= mm_size (x_mem x) ->
  exists y, execute d x = Some ((Advanced, d_opcode d, d_pc d), y) /\ x_pc y = d_next_pc d /\
    (forall p, mm_bytes (x_mem y) p =
      if (destination <=? p) && (p <? destination + count) then mm_bytes (x_mem x) (source + (p - destination)) else mm_bytes (x_mem x) p) /\
    x_regs y = reg_write (reg_write (reg_write (x_regs x) (reg0 d) (u64 (source + count))) (reg1 d) (u64 (destination + count))) (reg2 d) 0 /\
    csr_same (x_csr x) (x_csr y).
Proof.
  intros Hx Hd Hb Hi Ho Hslot source destination count Hpos Hs1 Hs2.
  pose proof (rd_word x (reg0 d) Hx) as [? ?]. pose proof (rd_word x (reg1 d) Hx) as [? ?]. pose proof (rd_word x (reg2 d) Hx) as Hc.
  destruct (execute_block_copy x d source destination count Hb Hi) as ([r y] & E & E1 & E2 & E3 & E4 & E5 & E6); try done.
  { apply Hx. }
  exists y. unfold execute. rewrite Ho. cbn in E1. rewrite Ho in E1.
  replace (execute_block d x) with (Some (r, y)). split; [cbn; by rewrite E1|]. split; [done|]. split; [|done].
  intros p. cbn [snd] in E3. rewrite E3. unfold copied. by rewrite Z.add_0_r.
Qed.

(** * Waiting ends

    What sampling does to the pending bits, and what wait_for_interrupt
    returns: with the timer armed and its cause enabled the wait always ends
    in a pending, enabled cause; it reports a suspended machine only when
    nothing is pending and no device has an event to come. *)

(** ** Pending bits *)

Definition kTimerCause : Z := kFirstExternalInterrupt + kTimer.

Lemma pending_bit c p n : c_interrupt_pending c = [p; 0; 0; 0] -> 0 <= n < 64 -> pending c n = Z.testbit p n.
Proof.
  intros E Hn. unfold pending, has, cause_bit. rewrite E, Z.div_small, Z.mod_small by done. change (zget [p; 0; 0; 0] 0) with p.
  rewrite Z.shiftl_1_l. destruct (Z.testbit p n) eqn:Eb.
  - apply negb_true_iff, Z.eqb_neq. intros H0. pose proof (f_equal (fun z => Z.testbit z n) H0) as H1. cbn in H1.
    by rewrite Z.land_spec, Eb, Z.pow2_bits_true, Z.bits_0 in H1 by lia.
  - apply negb_false_iff, Z.eqb_eq, Z.bits_inj'. intros i Hi. rewrite Z.land_spec, Z.bits_0.
    destruct (decide (i = n)) as [->|]; [by rewrite Eb|]. by rewrite Z.pow2_bits_false, andb_false_r by done.
Qed.
Definition set_line (c : csr_file) (line : Z) (b : bool) : csr_file :=
  if b then machine_raise_pending c (kFirstExternalInterrupt + line) else machine_clear_pending c (kFirstExternalInterrupt + line).
Lemma set_line_wf c i b : csr_wf c -> 0 <= i < 8 -> csr_wf (set_line c i b).
Proof. intros Hc Hi. unfold set_line, kFirstExternalInterrupt. destruct b; [apply raise_pending_wf|apply clear_pending_wf]; done || lia. Qed.
Lemma pending_set_line c i b m : csr_wf c -> 0 <= i < 8 -> 0 <= m < 8 ->
  pending (set_line c i b) (kFirstExternalInterrupt + m) = if m =? i then b else pending c (kFirstExternalInterrupt + m).
Proof.
  intros Hc Hi Hm. destruct (cw_pending c Hc) as (p & Ep & _). unfold kFirstExternalInterrupt.
  rewrite (pending_bit c p) by (done || lia). pose proof (Z.shiftl_1_l (32 + i)) as Hs.
  assert (c_interrupt_pending (set_line c i b) = [if b then Z.lor p (Z.shiftl 1 (32 + i)) else clr p (Z.shiftl 1 (32 + i)); 0; 0; 0]) as E.
  { unfold set_line, machine_raise_pending, machine_clear_pending, kFirstExternalInterrupt, cause_bit.
    destruct b; cbn; rewrite Ep, Z.div_small, Z.mod_small by lia; done. }
  rewrite (pending_bit _ _ _ E) by lia. rewrite Hs. destruct b; unfold clr; rewrite ?Z.lor_spec, ?Z.ldiff_spec.
  - destruct (Z.eqb_spec m i) as [->|]; [rewrite Z.pow2_bits_true by lia; apply orb_true_r|].
    rewrite Z.pow2_bits_false by lia. apply orb_false_r.
  - destruct (Z.eqb_spec m i) as [->|]; [rewrite Z.pow2_bits_true by lia; apply andb_false_r|].
    rewrite Z.pow2_bits_false by lia. apply andb_true_r.
Qed.

(** After sampling, a line's cause is pending exactly when the line is
    asserted. *)
Lemma sample_pending x m : machine_wf x -> 0 <= m < 8 ->
  pending (x_csr (sample_device_interrupts x)) (kFirstExternalInterrupt + m) = Z.testbit (asserted_interrupt_lines (x_dev x)) m.
Proof.
  intros Hx Hm. unfold sample_device_interrupts. cbn [x_csr setter set_x_csr]. generalize (asserted_interrupt_lines (x_dev x)). intros lines.
  assert (forall l c, Forall (fun i => 0 <= i < 8) l -> csr_wf c ->
    pending (foldl (fun c line => if Z.testbit lines line then machine_raise_pending c (kFirstExternalInterrupt + line)
      else machine_clear_pending c (kFirstExternalInterrupt + line)) c l) (kFirstExternalInterrupt + m) =
    if existsb (Z.eqb m) l then Z.testbit lines m else pending c (kFirstExternalInterrupt + m)) as H.
  { induction l as [|i l IH]; intros c Hl Hc; [done|]. apply Forall_cons_1 in Hl as [Hi Hl]. cbn [foldl existsb].
    change (if Z.testbit lines i then _ else _) with (set_line c i (Z.testbit lines i)).
    rewrite IH; [|done|by apply set_line_wf]. rewrite pending_set_line by done.
    destruct (Z.eqb_spec m i) as [->|]; cbn; [by destruct (existsb _ l)|done]. }
  rewrite H; [|apply Forall_seqZ; unfold kHighestClassCode; lia|apply Hx].
  replace (existsb (Z.eqb m) (seqZ 0 (kHighestClassCode + 1))) with true; [done|]. symmetry. apply existsb_exists. exists m.
  split; [apply list_elem_of_In, elem_of_seqZ; unfold kHighestClassCode; lia|apply Z.eqb_refl].
Qed.
Lemma timer_line d : Z.testbit (asserted_interrupt_lines d) kTimer = timer_asserted (dv_timer d).
Proof.
  unfold asserted_interrupt_lines. change (seqZ 1 kHighestClassCode) with [1; 2; 3; 4; 5; 6; 7]. cbn [foldl].
  unfold interrupt_asserted. cbn. destruct (console_asserted _), (timer_asserted _); done.
Qed.

Lemma lowest_exists c n : 0 <= n < 256 -> pending c n = true -> enabled c n = true ->
  exists k, lowest_pending_and_enabled c = Some k.
Proof.
  intros Hn Hp He. unfold lowest_pending_and_enabled. destruct (find _ _) as [k|] eqn:E; [by exists k|].
  eapply List.find_none in E; [|apply list_elem_of_In, elem_of_seqZ; exact Hn]. cbn in E. by rewrite Hp, He in E.
Qed.
Lemma sample_timer_enabled x : enabled (x_csr (sample_device_interrupts x)) kTimerCause = enabled (x_csr x) kTimerCause.
Proof.
  assert (csr_same (x_csr x) (x_csr (sample_device_interrupts x))) as E by apply sample_csr_same.
  assert (forall c, enabled c kTimerCause = has (clr (zget (c_interrupt_enable c) 0) 0xFFFFFFFF) (cause_bit kTimerCause)) as He by done.
  rewrite !He. f_equal. f_equal. by rewrite E.
Qed.

(** ** The wait *)

Definition expired (t : timer) : Prop := has (tim_ack t) (status_mask kExpiryPending) = true.
Lemma has_lor_self a b : b <> 0 -> has (Z.lor a b) b = true.
Proof.
  intros Hb. unfold has. apply negb_true_iff, Z.eqb_neq. replace (Z.land (Z.lor a b) b) with b; [done|].
  apply Z.bits_inj'. intros i Hi. rewrite Z.land_spec, Z.lor_spec. by destruct (Z.testbit a i), (Z.testbit b i).
Qed.
Lemma advance_expires t ns : timer_wf t -> nanoseconds_until_expiry t = Some ns ->
  expired (timer_advance t ns) /\ tim_irq (timer_advance t ns) = tim_irq t.
Proof.
  intros Ht En. pose proof (advance_to_expiry_disarms t ns Ht En) as Hd. unfold nanoseconds_until_expiry in En.
  destruct (tim_armed t) eqn:Ea; [|done]. unfold timer_advance in *. cbn in Hd |- *. rewrite Ea in *. cbn in *.
  destruct (_ <=? _); [|cbn in Hd; congruence]. split; [|done]. apply has_lor_self. done.
Qed.

(** A machine whose timer will bring the enabled timer cause. *)
Record timer_due (x0 x : machine) : Prop := {
  td_wf : machine_wf x;
  td_on : tim_irq (dv_timer (x_dev x)) = true;
  td_enabled : enabled (x_csr x) kTimerCause = true;
  td_when : tim_armed (dv_timer (x_dev x)) = true \/ expired (dv_timer (x_dev x));
  td_mem : x_mem x = x_mem x0;
  td_regs : x_regs x = x_regs x0 }.

Lemma wait_wakes_run d x : timer_due x x -> decoded_wf d ->
  exists y k, execute_wait_for_interrupt d x = Some ((Advanced, d_opcode d, d_pc d), y) /\ x_pc y = d_next_pc d /\
    lowest_pending_and_enabled (x_csr y) = Some k /\ x_mem y = x_mem x /\ x_regs y = x_regs x.
Proof.
  intros Hx Hd. unfold execute_wait_for_interrupt.
  destruct (while_spec (wait_body d) (timer_due x) (fun x => if tim_armed (dv_timer (x_dev x)) then 1 else 0)
    (fun r => r.1 = (Advanced, d_opcode d, d_pc d) /\ x_pc r.2 = d_next_pc d /\ (exists k, lowest_pending_and_enabled (x_csr r.2) = Some k) /\
      x_mem r.2 = x_mem x /\ x_regs r.2 = x_regs x) x) as ([r y] & E & E1 & E2 & (k & E3) & E4 & E5); [|exact Hx|by destruct (tim_armed _)|
      exists y, k; cbn in E1; rewrite <- E1; done].
  intros z Hz. pose proof (td_wf _ _ Hz) as Hw. unfold wait_body.
  destruct (lowest_pending_and_enabled (x_csr (sample_device_interrupts z))) as [k|] eqn:El.
  { refine (conj _ (conj _ (conj _ (conj _ _)))); try done; [by exists k|apply Hz|apply Hz]. }
  change (nanoseconds_until_next_device_event (x_dev (sample_device_interrupts z))) with (nanoseconds_until_expiry (dv_timer (x_dev z))).
  assert (expired (dv_timer (x_dev z)) -> False) as Hne.
  { intros He. destruct (lowest_exists (x_csr (sample_device_interrupts z)) kTimerCause) as [k Hk]; [done| | |congruence].
    - change kTimerCause with (kFirstExternalInterrupt + kTimer). rewrite sample_pending, timer_line by done. unfold timer_asserted.
      by rewrite (td_on _ _ Hz), He.
    - rewrite sample_timer_enabled. apply Hz. }
  destruct (td_when _ _ Hz) as [Ha|]; [|tauto].
  destruct (nanoseconds_until_expiry _) as [ns|] eqn:En; [|unfold nanoseconds_until_expiry in En; by rewrite Ha in En].
  destruct (advance_expires _ ns ltac:(apply Hw) En) as [He Hi].
  split.
  - constructor; [apply wf_set_dev; [by apply sample_wf|apply advance_time_wf, Hw]| | |by right|apply Hz|apply Hz].
    + change (tim_irq (timer_advance (dv_timer (x_dev z)) ns) = true). rewrite Hi. apply Hz.
    + change (enabled (x_csr (sample_device_interrupts z)) kTimerCause = true). rewrite sample_timer_enabled. apply Hz.
  - cbn. rewrite Ha, (advance_to_expiry_disarms _ ns); [done|apply Hw|done].
Qed.
Lemma wait_suspends_run d x y : execute_wait_for_interrupt d x = Some ((Suspended, d_opcode d, d_pc d), y) -> machine_wf x ->
  lowest_pending_and_enabled (x_csr y) = None /\ tim_armed (dv_timer (x_dev y)) = false.
Proof.
  intros E Hx. unfold execute_wait_for_interrupt in E.
  destruct (while_spec (wait_body d) machine_wf (fun x => if tim_armed (dv_timer (x_dev x)) then 1 else 0)
    (fun r => r.1.1.1 = Suspended -> lowest_pending_and_enabled (x_csr r.2) = None /\ tim_armed (dv_timer (x_dev r.2)) = false) x)
    as ([r z] & E' & Hr); [|exact Hx|by destruct (tim_armed _)|rewrite E' in E; injection E as -> ->; by apply Hr].
  clear. intros x Hx. unfold wait_body. destruct (lowest_pending_and_enabled _) eqn:El; [done|].
  change (nanoseconds_until_next_device_event (x_dev (sample_device_interrupts x))) with (nanoseconds_until_expiry (dv_timer (x_dev x))).
  destruct (nanoseconds_until_expiry _) as [ns|] eqn:En.
  - split; [auto with words|]. cbn. rewrite (advance_to_expiry_disarms _ ns); [|apply Hx|done].
    unfold nanoseconds_until_expiry in En. destruct (tim_armed _); [lia|done].
  - intros _. split; [done|]. cbn. unfold nanoseconds_until_expiry in En. by destruct (tim_armed _).
Qed.

(** C25: waiting makes progress.  A machine that waits with the timer's
    interrupt on and its cause enabled, armed or already expired, comes back:
    the wait completes, some enabled cause is pending for the next boundary,
    and registers and memory are as they were.  A wait is reported as
    suspended only when no enabled cause is pending and no timer is armed. *)
Theorem wait_makes_progress d x : machine_wf x -> decoded_wf d ->
  (tim_irq (dv_timer (x_dev x)) = true -> enabled (x_csr x) kTimerCause = true ->
   tim_armed (dv_timer (x_dev x)) = true \/ expired (dv_timer (x_dev x)) ->
   exists y k, execute_wait_for_interrupt d x = Some ((Advanced, d_opcode d, d_pc d), y) /\ x_pc y = d_next_pc d /\
     lowest_pending_and_enabled (x_csr y) = Some k /\ x_mem y = x_mem x /\ x_regs y = x_regs x) /\
  (forall y, execute_wait_for_interrupt d x = Some ((Suspended, d_opcode d, d_pc d), y) ->
     lowest_pending_and_enabled (x_csr y) = None /\ tim_armed (dv_timer (x_dev y)) = false).
Proof.
  intros Hx Hd. split; [|intros y E; by apply (wait_suspends_run d x)].
  intros Hi He Hw. by apply wait_wakes_run.
Qed.

(** ** A period that wraps

    [arm] adds the period to the clock modulo 2^64.  A period longer than what
    is left of the 64-bit clock gives an expiry in the past, so the longest
    interval a guest can ask for expires at the next instruction. *)
Theorem long_period_expires_at_once t ns : word (tim_monotonic t) -> word (tim_period t) ->
  2 ^ 64 <= tim_monotonic t + tim_period t -> 0 <= ns -> tim_monotonic t + ns < 2 ^ 64 ->
  nanoseconds_until_expiry (arm t) = Some 0 /\ expired (timer_advance (arm t) ns).
Proof.
  unfold word, fits. intros Hm Hp Hw Hns Hlt.
  assert (u64 (tim_monotonic t + tim_period t) = tim_monotonic t + tim_period t - 2 ^ 64) as E.
  { unfold u64. rewrite <- (Z_mod_plus_full _ (-1)), Z.mod_small by lia. lia. }
  split.
  - unfold nanoseconds_until_expiry. cbn. rewrite E. by rewrite (proj2 (Z.ltb_ge _ _)) by lia.
  - unfold timer_advance. cbn. rewrite E. unfold u64. rewrite Z.mod_small by lia. rewrite (proj2 (Z.leb_le _ _)) by lia.
    by apply has_lor_self.
Qed.
Lemma long_period_expires_at_once_witness : expired (timer_advance (arm (mk_timer 0 true (2 ^ 64 - 1) 1 5 0 false)) 1000).
Proof. apply long_period_expires_at_once; cbn; [split; lia|split; lia|lia|lia|lia]. Defined.
