(* ===== verification/V2Demo.v ===== *)
(** * A concrete machine

    Four megabytes of memory with a three-level table: the low two megabytes
    for the supervisor, the rest for user level, where a small program lies;
    the theorems about the second-generation machine applied to it. *)
From Stdlib Require Import ZArith Lia Bool.
From stdpp Require Import base list numbers.
From S2P Require Import Prelude State Memory V2Opcode V2Csr V2Translate V2Interp V2Word V2Wf V2Total V2Trap V2User V2Run.

Definition demo_contents : list (Z * Z) :=
  [ (* the vector of cause 7 and the tables *)
    (57, 0x01); (0x1000, 0x01); (0x1001, 0x20); (0x2000, 0x01); (0x2001, 0x30);
    (0x3000, 0x0F); (0x3008, 0x1F); (0x300A, 0x20);
    (* move.zb $07 r1; move.zh $00300000 r2; store.b r1 @r2 *)
    (0x200000, 0x03); (0x200001, 1); (0x200002, 7);
    (0x200003, 0x07); (0x200004, 2); (0x200005, 0); (0x200006, 0); (0x200007, 0x30); (0x200008, 0);
    (0x200009, 0x8F); (0x20000A, 1); (0x20000B, 2) ].
Definition demo_byte (a : Z) : Z := match find (fun e => e.1 =? a) demo_contents with Some e => e.2 | None => 0 end.
Definition demo_mem : memory := mk_memory demo_byte 0x400000.
Definition demo_csr : csr_file := csr_reset <| c_status := 0 |> <| c_trap_stack := 0x8010 |> <| c_paging_root := 0x1001 |>.
Definition demo : machine := (machine_start demo_mem 0x200000) <| x_csr := demo_csr |>.
Definition demo_tables : list Z := [0x1000; 0x2000; 0x3000].

Lemma demo_mem_wf : mem_wf demo_mem.
Proof.
  split; [|split; done]. intros a. cbn. unfold demo_byte. destruct (find _ _) as [e|] eqn:E; [|done].
  apply List.find_some in E as [Hin _]. revert e Hin. apply List.Forall_forall. unfold demo_contents.
  repeat (apply List.Forall_cons; [done|]). apply List.Forall_nil.
Qed.
Lemma demo_wf : machine_wf demo.
Proof.
  apply wf_set_csr; [apply machine_start_wf; [apply demo_mem_wf|done]|].
  pose proof (mw_csr _ (machine_start_wf demo_mem 0x200000 demo_mem_wf ltac:(done))) as []. by constructor.
Qed.
Lemma demo_coherent : coherent demo.
Proof. apply (Forall_replicate _ 32 None). by intros c. Qed.

(** Everything about its 1536 entries that the proofs need, evaluated. *)
Definition table_check (f : Z -> Z -> bool) : bool := forallb (fun t => forallb (f t) (seqZ 0 512)) demo_tables.
Lemma table_check_all f t i : table_check f = true -> t ∈ demo_tables -> 0 <= i < 512 -> f t i = true.
Proof.
  intros H Ht Hi. unfold table_check in H. rewrite forallb_forall in H. specialize (H t (proj1 (list_elem_of_In _ _) Ht)).
  rewrite forallb_forall in H. apply H, list_elem_of_In, elem_of_seqZ. lia.
Qed.
Lemma demo_closed t i : t ∈ demo_tables -> 0 <= i < 512 -> has (entry_at demo_mem t i) kValid = true ->
  address_field (entry_at demo_mem t i) ∈ demo_tables \/ has (entry_at demo_mem t i) (Z.lor (Z.lor kReadable kWritable) kExecutable) = true.
Proof.
  intros Ht Hi Hv.
  assert (table_check (fun t i => let e := entry_at demo_mem t i in
    implb (has e kValid) (existsb (Z.eqb (address_field e)) demo_tables || has e (Z.lor (Z.lor kReadable kWritable) kExecutable))) = true) as Hc by (by vm_compute).
  pose proof (table_check_all _ t i Hc Ht Hi) as H. cbv beta zeta in H. rewrite Hv in H. cbn [implb] in H. apply orb_true_iff in H as [H|H]; [|by right].
  left. apply existsb_exists in H as (z & Hz & ->%Z.eqb_eq). by apply list_elem_of_In.
Qed.
Lemma demo_user_entries t i : t ∈ demo_tables -> 0 <= i < 512 ->
  has (Z.land (entry_at demo_mem t i) kPermissionMask) kUserAccessible = true -> 0x200000 <= address_field (entry_at demo_mem t i).
Proof.
  intros Ht Hi Hu.
  assert (table_check (fun t i => let e := entry_at demo_mem t i in
    implb (has (Z.land e kPermissionMask) kUserAccessible) (0x200000 <=? address_field e)) = true) as Hc by (by vm_compute).
  pose proof (table_check_all _ t i Hc Ht Hi) as H. cbv beta zeta in H. rewrite Hu in H. by apply Z.leb_le.
Qed.

Lemma lor_le_l x y : 0 <= x -> 0 <= y -> x <= Z.lor x y.
Proof.
  intros Hx Hy. assert (Z.lor x y = x + Z.ldiff y x) as ->.
  { rewrite Z.add_nocarry_lxor.
    - apply Z.bits_inj'. intros j Hj. rewrite Z.lor_spec, Z.lxor_spec, Z.ldiff_spec. by destruct (Z.testbit x j), (Z.testbit y j).
    - apply Z.bits_inj'. intros j Hj. rewrite Z.land_spec, Z.ldiff_spec, Z.bits_0. by destruct (Z.testbit x j), (Z.testbit y j). }
  assert (0 <= Z.ldiff y x) by (apply Z.ldiff_nonneg; by left). lia.
Qed.
Lemma demo_user_writable p : user_writable demo p -> 0x200000 <= p.
Proof.
  intros [a Hr]. unfold resolves, translate_uncached in Hr.
  change (Z.land (c_paging_root (x_csr demo)) kModeMask =? kModeBare) with false in Hr. cbn [x_mem] in Hr.
  destruct (walk_leaf _ _ _ _ _ _) as [f|c] eqn:E; [done|]. change (x_mem demo) with demo_mem in E.
  destruct (walk_leaf_entry demo_mem (fun t => t ∈ demo_tables) demo_closed a Store _ 3 0x1000 c ltac:(by left) E) as (t & i & Ht & Hi & Hb & Hp).
  unfold finish, leaf_admits in Hr. change (bool_decide (User = User)) with true in Hr.
  destruct (has (ct_permissions c) kUserAccessible) eqn:Eu; [|done]. rewrite Hp in Eu. pose proof (demo_user_entries t i Ht Hi Eu) as Hlow.
  destruct (if decide _ then _ else _); [done|]. destruct (has _ kWritable); [|done]. injection Hr as <-. rewrite Hb.
  etrans; [exact Hlow|]. apply lor_le_l; [lia|]. apply Z.land_nonneg. left. apply Z.land_nonneg. right. by vm_compute.
Qed.

(** The tables are below user memory, so the machine meets its kernel's part
    of the contract. *)
Lemma entry_at_ext m m' t i : t ∈ demo_tables -> 0 <= i < 512 -> (forall p, 0 <= p < 0x4000 -> mm_bytes m' p = mm_bytes m p) ->
  entry_at m' t i = entry_at m t i.
Proof.
  intros Ht Hi Hm. apply read_bytes_ext. intros a (j & -> & Hj%elem_of_seqZ)%list_elem_of_fmap. apply Hm.
  assert (0 <= t <= 0x3000) by (unfold demo_tables in Ht; rewrite !elem_of_cons in Ht; destruct Ht as [->|[->|[->|Ht]]]; [lia..|by apply elem_of_nil in Ht]).
  cbn in Hj. unfold u64. rewrite (Z.mod_small (t + i * 8)), Z.mod_small by lia. lia.
Qed.
Lemma check_range_size m m' a n : mm_size m' = mm_size m -> check_range m' a n = check_range m a n.
Proof. unfold check_range, lowest_of, accessible. by intros ->. Qed.
Lemma demo_protected : tables_protected demo.
Proof.
  intros m Hs Hb va k tr. change (address_field (c_paging_root (x_csr demo))) with 0x1000. change (x_mem demo) with demo_mem in *.
  apply (walk_leaf_ext demo_mem (fun t => t ∈ demo_tables) demo_closed); [by left|]. intros t i Ht Hi.
  split; [by apply check_range_size|]. apply entry_at_ext; [done..|]. intros p Hp.
  destruct (Hb p) as [Hu|]; [|done]. apply demo_user_writable in Hu. lia.
Qed.

(** ** The theorems, applied *)

Lemma machine_always_wf_witness : exists x, v2_reachable (machine_start demo_mem 0) x /\ machine_wf x /\ con_input (dv_console (x_dev x)) = [65].
Proof.
  exists (on_console (fun c => host_push_input c 65) (machine_start demo_mem 0)).
  assert (v2_reachable (machine_start demo_mem 0) (on_console (fun c => host_push_input c 65) (machine_start demo_mem 0))) as H.
  { eapply reach_step; [apply reach_start|]. apply step_key. lia. }
  split; [exact H|]. split; [|reflexivity]. apply (machine_always_wf demo_mem 0); [apply demo_mem_wf|by split|exact H].
Defined.
Lemma run_returns_witness : exists r y, run_steps 5 (machine_start demo_mem 0x200000) = Some (r, y).
Proof.
  destruct (run_returns demo_mem 0x200000 (machine_start demo_mem 0x200000) 4) as (r & y & E & _);
    [apply demo_mem_wf|by split|apply reach_start|]. exists r, y. exact E.
Defined.
Lemma translate_cache_transparent_witness :
  (translate translator_reset demo_mem 0x1001 User Store 0x300000).1 = translate_uncached demo_mem 0x1001 User Store 0x300000 /\
  translate_uncached demo_mem 0x1001 User Store 0x300000 = inr 0x300000.
Proof.
  split; [|by vm_compute]. apply (translate_cache_transparent demo_mem 0x1001 translator_reset User Store 0x300000). apply demo_coherent.
Defined.

(** Three instructions of the program at user level: the store lands in user
    memory, and nothing else moves. *)
Lemma user_program_confined_witness :
  exists r y, run_steps 3 demo = Some (r, y) /\ level_of y = User /\ csr_same (x_csr demo) (x_csr y) /\
  (forall p, mm_bytes (x_mem y) p <> mm_bytes (x_mem demo) p -> user_writable demo p).
Proof.
  assert (match run_steps 3 demo with Some (r, y) => Some (r.1.1, mm_bytes (x_mem y) 0x300000) | None => None end = Some (Advanced, 7)) as Hc
    by (by vm_compute).
  destruct (run_steps 3 demo) as [[r y]|] eqn:E; [|discriminate Hc]. exists r, y. split; [reflexivity|].
  assert (r.1.1 = Advanced) as Ha by congruence.
  destruct (user_program_confined demo 3 r y demo_wf demo_coherent eq_refl demo_protected E Ha) as (H1 & H2 & _ & _ & H3 & _). tauto.
Defined.

(** A system call from user level, returned from at once. *)
Definition demo_trap : trap := mk_trap kSyscall 0 1 0x200002.
Definition demo_return : decoded := mk_decoded kTrapReturn 0x100 0x101 [] [] [].
Definition demo_delivered : machine := (deliver demo_trap kSysImm 0x200000 demo).2.
Definition demo_handler : machine := demo_delivered <| x_tlb := translator_reset |>.
Lemma demo_delivers : deliver demo_trap kSysImm 0x200000 demo = ((Trapped demo_trap (Delivered 0x100), kSysImm, 0x200000), demo_delivered).
Proof.
  assert ((deliver demo_trap kSysImm 0x200000 demo).1 = (Trapped demo_trap (Delivered 0x100), kSysImm, 0x200000)) as E by (by vm_compute).
  unfold demo_delivered. destruct (deliver demo_trap kSysImm 0x200000 demo) as [r y]. cbn in E. rewrite E. reflexivity.
Qed.
Lemma x_mem_flush x t : x_mem (x <| x_tlb := t |>) = x_mem x.
Proof. reflexivity. Qed.
Lemma demo_handler_same_tables t i : t ∈ demo_tables -> 0 <= i < 512 -> entry_at (x_mem demo_handler) t i = entry_at demo_mem t i.
Proof.
  intros Ht Hi. assert (table_check (fun t i => entry_at (x_mem demo_handler) t i =? entry_at demo_mem t i) = true) as Hc by (by vm_compute).
  by apply Z.eqb_eq, (table_check_all _ t i Hc).
Qed.
Lemma demo_handler_resolves level k a p : resolves demo level k a p -> resolves demo_handler level k a p.
Proof.
  unfold resolves, translate_uncached. assert (c_paging_root (x_csr demo_handler) = 0x1001) as -> by (by vm_compute).
  change (c_paging_root (x_csr demo)) with 0x1001. change (address_field 0x1001) with 0x1000.
  rewrite (walk_leaf_ext demo_mem (fun t => t ∈ demo_tables) demo_closed (x_mem demo_handler)); [done|by left|].
  intros t i Ht Hi. split; [|by apply demo_handler_same_tables]. apply check_range_size. by vm_compute.
Qed.
Lemma demo_trap_wf : trap_wf demo_trap.
Proof. by refine (conj _ (conj _ (conj _ _))). Qed.
Lemma demo_handler_coherent : coherent demo_handler.
Proof. apply (Forall_replicate _ 32 None). by intros c. Qed.
Lemma trap_return_undoes_delivery_witness :
  exists tl, execute_trap_return demo_return demo_handler =
    ((Advanced, kTrapReturn, 0x100),
     demo_handler <| x_tlb := tl |> <| x_csr := machine_set_trap_stack (machine_write_status (x_csr demo_handler) 0) 0x8010 |>
        <| x_pc := 0x200002 |>).
Proof.
  apply (trap_return_undoes_delivery demo demo_trap kSysImm 0x200000 0x100 demo_delivered demo_handler demo_return).
  - apply demo_wf.
  - apply demo_trap_wf.
  - apply demo_coherent.
  - apply demo_handler_coherent.
  - apply demo_delivers.
  - vm_compute. reflexivity.
  - vm_compute. reflexivity.
  - vm_compute. reflexivity.
  - intros i a p _ _ Hr. split; [exact (demo_handler_resolves _ _ _ _ Hr)|]. exact (f_equal (fun m => mm_bytes m p) (x_mem_flush demo_delivered translator_reset)).
Defined.

(** Seven bytes moved up by one, in bare mode. *)
Definition demo_copy : decoded := mk_decoded kBlockCopy 0x100 0x104 [1; 2; 3] [0; 0; 0] [].
Definition demo_bare : machine := wr (wr (wr (machine_start demo_mem 0x100) 1 0x200000) 2 0x200001) 3 7.
Lemma block_copy_moves_witness :
  exists y, execute demo_copy demo_bare = Some ((Advanced, kBlockCopy, 0x100), y) /\ mm_bytes (x_mem y) 0x200004 = 0x07.
Proof.
  assert (machine_wf demo_bare) as Hw.
  { unfold demo_bare. repeat apply wr_wf; try (apply machine_start_wf; [apply demo_mem_wf|by vm_compute]); by vm_compute. }
  assert (decoded_wf demo_copy) as Hd.
  { constructor; [split; done..| | |constructor].
    - cbn. repeat (apply Forall_cons_2; [split; done|]). apply Forall_nil_2.
    - change (oi_slots (opcode_info (d_opcode demo_copy))) with [Plain; Plain; Plain]. cbn. repeat (constructor; [split; done|]). constructor. }
  destruct (block_copy_moves demo_bare demo_copy Hw Hd eq_refl eq_refl eq_refl eq_refl) as (y & E & _ & Hm & _);
    [reflexivity|vm_compute; discriminate|vm_compute; discriminate|].
  exists y. split; [exact E|]. rewrite Hm. vm_compute. reflexivity.
Defined.

(** A supervisor that waits five microseconds. *)
Definition demo_wait : decoded := mk_decoded kWaitForInterrupt 0x100 0x101 [] [] [].
Definition demo_timer : machine :=
  (machine_start demo_mem 0x100) <| x_dev := mk_devices console_reset (mk_timer 0 true 5000 1 0 5000 true) |>
    <| x_csr := csr_reset <| c_interrupt_enable := [2 ^ 35; 0; 0; 0] |> |>.
Lemma wait_makes_progress_witness :
  exists y k, execute_wait_for_interrupt demo_wait demo_timer = Some ((Advanced, kWaitForInterrupt, 0x100), y) /\
    lowest_pending_and_enabled (x_csr y) = Some k.
Proof.
  assert (machine_wf demo_timer) as Hw.
  { apply wf_set_csr; [apply wf_set_dev; [apply machine_start_wf; [apply demo_mem_wf|by split]|]|].
    - split; [apply (mw_dev _ (machine_start_wf demo_mem 0 demo_mem_wf ltac:(by split)))|].
      by refine (conj _ (conj _ (conj _ (conj _ (conj _ (conj _ _)))))).
    - pose proof (mw_csr _ (machine_start_wf demo_mem 0 demo_mem_wf ltac:(by split))) as []. constructor; try done.
      split; [done|]. split; [|done]. repeat (apply Forall_cons_2; [by split|]). apply Forall_nil_2. }
  assert (decoded_wf demo_wait) as Hd.
  { constructor; [split; done..| | |constructor]; [constructor|]. change (oi_slots (opcode_info (d_opcode demo_wait))) with (@nil Slot). constructor. }
  destruct (wait_makes_progress demo_wait demo_timer Hw Hd) as [H _].
  destruct (H eq_refl eq_refl (or_introl eq_refl)) as (y & k & E & _ & Ek & _). exists y, k. split; [exact E|exact Ek].
Defined.
