(* ===== verification/MzObj.v ===== *)
(** * The object and executable formats

    maize_obj.h: the constants of the .mzo, .mza and .mzx layouts and the
    little-endian fields they are made of.  A buffer is a list of bytes; a read
    at a pointer past its end is [None]. *)
From Stdlib Require Import ZArith Lia Bool.
From stdpp Require Import base list numbers.
From S2P Require Import Prelude.

(** ** Constants *)

Definition MZO_MAGIC0 : Z := 0x4D.
Definition MZO_MAGIC1 : Z := 0x5A.
Definition MZO_MAGIC2 : Z := 0x4F.
Definition MZO_VERSION : Z := 1.
Definition MZO_VERSION_V2 : Z := 2.
Definition MZO_HEADER_SIZE : Z := 48.
Definition SECTION_HDR_SIZE : Z := 40.
Definition SYMBOL_SIZE : Z := 24.
Definition RELOC_SIZE : Z := 24.
Definition MZA_MAGIC0 : Z := 0x4D.
Definition MZA_MAGIC1 : Z := 0x5A.
Definition MZA_MAGIC2 : Z := 0x41.
Definition MZA_VERSION : Z := 1.
Definition MZA_HEADER_SIZE : Z := 16.
Definition MZA_INDEX_ENTRY_SIZE : Z := 24.
Definition MZX_MAGIC0 : Z := 0x4D.
Definition MZX_MAGIC1 : Z := 0x5A.
Definition MZX_MAGIC2 : Z := 0x58.
Definition MZX_VERSION : Z := 1.
Definition SEGMENT_SIZE : Z := 40.
Definition SEC_NULL : Z := 0.
Definition SEC_CODE : Z := 1.
Definition SEC_RODATA : Z := 2.
Definition SEC_DATA : Z := 3.
Definition SEC_BSS : Z := 4.
Definition ATTR_EXEC : Z := 0x01.
Definition ATTR_READ : Z := 0x02.
Definition ATTR_WRITE : Z := 0x04.
Definition ATTR_ALLOC : Z := 0x08.
Definition ATTR_NOBITS : Z := 0x10.
Definition default_attrs (kind : Z) : Z :=
  if kind =? SEC_CODE then Z.lor (Z.lor ATTR_EXEC ATTR_READ) ATTR_ALLOC
  else if kind =? SEC_RODATA then Z.lor ATTR_READ ATTR_ALLOC
  else if kind =? SEC_DATA then Z.lor (Z.lor ATTR_READ ATTR_WRITE) ATTR_ALLOC
  else if kind =? SEC_BSS then Z.lor (Z.lor (Z.lor ATTR_READ ATTR_WRITE) ATTR_ALLOC) ATTR_NOBITS
  else 0.
Definition BIND_LOCAL : Z := 0.
Definition BIND_GLOBAL : Z := 1.
Definition TYPE_NOTYPE : Z := 0.
Definition TYPE_FUNC : Z := 1.
Definition TYPE_OBJECT : Z := 2.
Definition SHN_UNDEF : Z := 0xFFFF.
Definition SHN_ABS : Z := 0xFFF0.
Definition ENTRY_NONE : Z := 0xFFFFFFFF.
Definition R_MAIZE_NONE : Z := 0.
Definition R_MAIZE_ABS8 : Z := 1.
Definition R_MAIZE_ABS16 : Z := 2.
Definition R_MAIZE_ABS32 : Z := 3.
Definition R_MAIZE_ABS64 : Z := 4.
Definition R_MAIZE_REL32 : Z := 5.
Definition reloc_width (r_type : Z) : nat :=
  if r_type =? R_MAIZE_ABS8 then 1 else if r_type =? R_MAIZE_ABS16 then 2
  else if r_type =? R_MAIZE_ABS32 then 4 else if r_type =? R_MAIZE_ABS64 then 8 else 0.
Definition reloc_for_width (width : nat) : Z :=
  match width with
  | 1%nat => R_MAIZE_ABS8 | 2%nat => R_MAIZE_ABS16 | 4%nat => R_MAIZE_ABS32 | 8%nat => R_MAIZE_ABS64
  | _ => R_MAIZE_NONE
  end.

(** ** Fields *)

(** [(v >> (8 * i)) & 0xFF] for the first [n] values of [i]. *)
Fixpoint le_bytes (n : nat) (v : Z) : list Z :=
  match n with
  | O => []
  | S n => Z.land v 0xFF :: le_bytes n (Z.shiftr v 8)
  end.
Definition put_u8 (b : list Z) (v : Z) : list Z := b ++ [u8 v].
Definition put_u16 (b : list Z) (v : Z) : list Z := b ++ le_bytes 2 (u16 v).
Definition put_u32 (b : list Z) (v : Z) : list Z := b ++ le_bytes 4 (u32 v).
Definition put_u64 (b : list Z) (v : Z) : list Z := b ++ le_bytes 8 (u64 v).

Definition byte_at (b : list Z) (off : Z) : option Z := if off <? 0 then None else b !! Z.to_nat off.
(** The sum of the [n] bytes from [off], each shifted into place. *)
Fixpoint get_le (n : nat) (b : list Z) (off : Z) : option Z :=
  match n with
  | O => Some 0
  | S n => c ← byte_at b off; v ← get_le n b (off + 1); Some (Z.lor c (Z.shiftl v 8))
  end.
Definition get_u8 (b : list Z) (off : Z) : option Z := byte_at b off.
Definition get_u16 (b : list Z) (off : Z) : option Z := get_le 2 b off.
Definition get_u32 (b : list Z) (off : Z) : option Z := get_le 4 b off.
Definition get_u64 (b : list Z) (off : Z) : option Z := get_le 8 b off.
(** The bytes [b + off, b + off + n). *)
Definition slice (b : list Z) (off n : Z) : option (list Z) :=
  if (off <? 0) || (n <? 0) || (Z.of_nat (length b) <? off + n) then None
  else Some (take (Z.to_nat n) (drop (Z.to_nat off) b)).

(** ** What is written is read *)

Lemma i64_of_u64 x : i64 (u64 x) = i64 x.
Proof. unfold u64, i64. by rewrite Zplus_mod_idemp_l. Qed.
Lemma le_bytes_length n : forall v, length (le_bytes n v) = n.
Proof. induction n as [|n IH]; intros v; [done|]. cbn. by rewrite IH. Qed.
Lemma le_bytes_range n : forall v, Forall (fun c => 0 <= c < 256) (le_bytes n v).
Proof.
  induction n as [|n IH]; intros v; constructor; [|apply IH]. change 255 with (Z.ones 8). rewrite Z.land_ones by lia. apply Z.mod_pos_bound. lia.
Qed.
Lemma byte_at_app_r b l off : Z.of_nat (length b) <= off -> byte_at (b ++ l) off = byte_at l (off - Z.of_nat (length b)).
Proof.
  intros Ho. unfold byte_at. rewrite !(proj2 (Z.ltb_ge _ _)) by lia. rewrite lookup_app_r by lia. f_equal. lia.
Qed.
Lemma byte_at_app_l b l off : off < Z.of_nat (length b) -> byte_at (b ++ l) off = byte_at b off.
Proof. intros Ho. unfold byte_at. destruct (Z.ltb_spec off 0); [done|]. by rewrite lookup_app_l by lia. Qed.
Lemma get_le_app_r n : forall b l off, Z.of_nat (length b) <= off -> get_le n (b ++ l) off = get_le n l (off - Z.of_nat (length b)).
Proof.
  induction n as [|n IH]; intros b l off Ho; [done|]. cbn. rewrite byte_at_app_r, IH by lia. by replace (off + 1 - _) with (off - Z.of_nat (length b) + 1) by lia.
Qed.
Lemma get_le_app_l n : forall b l off, off + Z.of_nat n <= Z.of_nat (length b) -> get_le n (b ++ l) off = get_le n b off.
Proof. induction n as [|n IH]; intros b l off Ho; [done|]. cbn. by rewrite byte_at_app_l, IH by lia. Qed.
(** The field at the head of a buffer. *)
Lemma get_le_head n : forall v l, get_le n (le_bytes n v ++ l) 0 = Some (v mod 2 ^ (8 * Z.of_nat n)).
Proof.
  induction n as [|n IH]; intros v l; [cbn; by rewrite Z.mod_1_r|]. cbn [get_le le_bytes app].
  change (byte_at (Z.land v 255 :: le_bytes n (Z.shiftr v 8) ++ l) 0) with (Some (Z.land v 255)). cbn [mbind option_bind].
  change (Z.land v 255 :: le_bytes n (Z.shiftr v 8) ++ l) with ([Z.land v 255] ++ le_bytes n (Z.shiftr v 8) ++ l).
  rewrite get_le_app_r by done. change (0 + 1 - Z.of_nat (length [Z.land v 255])) with 0. rewrite IH. cbn [mbind option_bind]. f_equal.
  apply low_byte_lor.
Qed.
Lemma get_le_range n : forall b off v, Forall (fun c => 0 <= c < 256) b -> get_le n b off = Some v -> 0 <= v < 2 ^ (8 * Z.of_nat n).
Proof.
  induction n as [|n IH]; intros b off v Hb; cbn [get_le]; [intros [= <-]; cbn; lia|].
  destruct (byte_at b off) as [c|] eqn:Ec; [|done]. destruct (get_le n b (off + 1)) as [w|] eqn:Ew; [|done]. intros [= <-].
  assert (Hc : 0 <= c < 256).
  { unfold byte_at in Ec. destruct (off <? 0); [done|]. exact (Forall_lookup_1 _ _ _ _ Hb Ec). }
  apply IH in Ew; [|done]. rewrite lor_byte_shift by done.
  replace (8 * Z.of_nat (S n)) with (8 * Z.of_nat n + 8) by lia. rewrite Z.pow_add_r by lia. lia.
Qed.
