(* ===== verification/V2Mnemonic.v ===== *)
(** * The mnemonic table of the assembler (mnemonic_v2.h)

    One row per assigned opcode byte: the byte, the spelling, and which of a
    mnemonic's encodings the row is.  Shapes and lengths are not repeated
    here; they are those of the opcode table. *)
From Stdlib Require Import ZArith Lia Bool.
From stdpp Require Import base list numbers strings.
From S2P Require Import Prelude V2Opcode.

(** The opcode bytes of opcode_v2.h that only the assembler names. *)
Definition kAddH : Z := 0x11.
Definition kSubtract : Z := 0x12.
Definition kSubtractH : Z := 0x13.
Definition kMultiply : Z := 0x14.
Definition kMultiplyH : Z := 0x15.
Definition kMultiplyHighSigned : Z := 0x16.
Definition kMultiplyHighUnsigned : Z := 0x17.
Definition kDivideSigned : Z := 0x18.
Definition kDivideSignedH : Z := 0x19.
Definition kDivideUnsigned : Z := 0x1A.
Definition kDivideUnsignedH : Z := 0x1B.
Definition kRemainderSigned : Z := 0x1C.
Definition kRemainderSignedH : Z := 0x1D.
Definition kRemainderUnsigned : Z := 0x1E.
Definition kRemainderUnsignedH : Z := 0x1F.
Definition kAnd : Z := 0x20.
Definition kOr : Z := 0x21.
Definition kXor : Z := 0x22.
Definition kShiftLeft : Z := 0x23.
Definition kShiftLeftH : Z := 0x24.
Definition kShiftRightLogical : Z := 0x25.
Definition kShiftRightLogicalH : Z := 0x26.
Definition kShiftRightArithmetic : Z := 0x27.
Definition kNotH : Z := 0x2A.
Definition kNegate : Z := 0x2B.
Definition kNegateH : Z := 0x2C.
Definition kByteReverse : Z := 0x2D.
Definition kAddHImm : Z := 0x32.
Definition kSubtractImm : Z := 0x33.
Definition kSubtractHImm : Z := 0x34.
Definition kAndImm : Z := 0x35.
Definition kOrImm : Z := 0x36.
Definition kShiftLeftHImm : Z := 0x39.
Definition kShiftRightLogicalImm : Z := 0x3A.
Definition kShiftRightLogicalHImm : Z := 0x3B.
Definition kShiftRightArithmeticImm : Z := 0x3C.
Definition kCompareNe : Z := 0x41.
Definition kCompareLtSigned : Z := 0x42.
Definition kCompareLeSigned : Z := 0x43.
Definition kCompareGtSigned : Z := 0x44.
Definition kCompareGeSigned : Z := 0x45.
Definition kCompareLtUnsigned : Z := 0x46.
Definition kCompareLeUnsigned : Z := 0x47.
Definition kCompareGtUnsigned : Z := 0x48.
Definition kLoadZb : Z := 0x81.
Definition kLoadSb : Z := 0x82.
Definition kLoadZq : Z := 0x83.
Definition kLoadSq : Z := 0x84.
Definition kLoadZh : Z := 0x85.
Definition kStoreB : Z := 0x8F.
Definition kStoreQ : Z := 0x90.
Definition kExtractSb : Z := 0xA1.
Definition kExtractZq : Z := 0xA2.
Definition kExtractSq : Z := 0xA3.
Definition kExtractZh : Z := 0xA4.
Definition kInsertQ : Z := 0xA7.

Inductive Select : Type :=
| SelNone | RegForm | ImmForm | RegTarget | DispTarget | Bare | Displaced.
#[global] Instance Select_eq_dec : EqDecision Select.
Proof. solve_decision. Defined.

Record MnemonicEntry : Type := mk_entry { me_opcode : Z; me_text : string; me_select : Select }.

Definition kMnemonics : list MnemonicEntry := [
  mk_entry kMove "move" SelNone;
  mk_entry kMoveW "move.w" SelNone;
  mk_entry kMoveZb "move.zb" SelNone;
  mk_entry kMoveSb "move.sb" SelNone;
  mk_entry kMoveZq "move.zq" SelNone;
  mk_entry kMoveSq "move.sq" SelNone;
  mk_entry kMoveZh "move.zh" SelNone;
  mk_entry kMoveSh "move.sh" SelNone;
  mk_entry kPcAdd "pc_add" SelNone;
  mk_entry kAdd "add" RegForm;
  mk_entry kAddH "add.h" RegForm;
  mk_entry kSubtract "subtract" RegForm;
  mk_entry kSubtractH "subtract.h" RegForm;
  mk_entry kMultiply "multiply" SelNone;
  mk_entry kMultiplyH "multiply.h" SelNone;
  mk_entry kMultiplyHighSigned "multiply_high_signed" SelNone;
  mk_entry kMultiplyHighUnsigned "multiply_high_unsigned" SelNone;
  mk_entry kDivideSigned "divide_signed" SelNone;
  mk_entry kDivideSignedH "divide_signed.h" SelNone;
  mk_entry kDivideUnsigned "divide_unsigned" SelNone;
  mk_entry kDivideUnsignedH "divide_unsigned.h" SelNone;
  mk_entry kRemainderSigned "remainder_signed" SelNone;
  mk_entry kRemainderSignedH "remainder_signed.h" SelNone;
  mk_entry kRemainderUnsigned "remainder_unsigned" SelNone;
  mk_entry kRemainderUnsignedH "remainder_unsigned.h" SelNone;
  mk_entry kAnd "and" RegForm;
  mk_entry kOr "or" RegForm;
  mk_entry kXor "xor" RegForm;
  mk_entry kShiftLeft "shift_left" RegForm;
  mk_entry kShiftLeftH "shift_left.h" RegForm;
  mk_entry kShiftRightLogical "shift_right_logical" RegForm;
  mk_entry kShiftRightLogicalH "shift_right_logical.h" RegForm;
  mk_entry kShiftRightArithmetic "shift_right_arithmetic" RegForm;
  mk_entry kShiftRightArithmeticH "shift_right_arithmetic.h" RegForm;
  mk_entry kNot "not" SelNone;
  mk_entry kNotH "not.h" SelNone;
  mk_entry kNegate "negate" SelNone;
  mk_entry kNegateH "negate.h" SelNone;
  mk_entry kByteReverse "byte_reverse" SelNone;
  mk_entry kByteReverseH "byte_reverse.h" SelNone;
  mk_entry kAddCarry "add_carry" SelNone;
  mk_entry kSubtractBorrow "subtract_borrow" SelNone;
  mk_entry kAddImm "add" ImmForm;
  mk_entry kAddHImm "add.h" ImmForm;
  mk_entry kSubtractImm "subtract" ImmForm;
  mk_entry kSubtractHImm "subtract.h" ImmForm;
  mk_entry kAndImm "and" ImmForm;
  mk_entry kOrImm "or" ImmForm;
  mk_entry kXorImm "xor" ImmForm;
  mk_entry kShiftLeftImm "shift_left" ImmForm;
  mk_entry kShiftLeftHImm "shift_left.h" ImmForm;
  mk_entry kShiftRightLogicalImm "shift_right_logical" ImmForm;
  mk_entry kShiftRightLogicalHImm "shift_right_logical.h" ImmForm;
  mk_entry kShiftRightArithmeticImm "shift_right_arithmetic" ImmForm;
  mk_entry kShiftRightArithmeticHImm "shift_right_arithmetic.h" ImmForm;
  mk_entry kCompareEq "compare_eq" RegForm;
  mk_entry kCompareNe "compare_ne" RegForm;
  mk_entry kCompareLtSigned "compare_lt_signed" RegForm;
  mk_entry kCompareLeSigned "compare_le_signed" RegForm;
  mk_entry kCompareGtSigned "compare_gt_signed" RegForm;
  mk_entry kCompareGeSigned "compare_ge_signed" RegForm;
  mk_entry kCompareLtUnsigned "compare_lt_unsigned" RegForm;
  mk_entry kCompareLeUnsigned "compare_le_unsigned" RegForm;
  mk_entry kCompareGtUnsigned "compare_gt_unsigned" RegForm;
  mk_entry kCompareGeUnsigned "compare_ge_unsigned" RegForm;
  mk_entry (kCompareImmBase + 0) "compare_eq" ImmForm;
  mk_entry (kCompareImmBase + 1) "compare_ne" ImmForm;
  mk_entry (kCompareImmBase + 2) "compare_lt_signed" ImmForm;
  mk_entry (kCompareImmBase + 3) "compare_le_signed" ImmForm;
  mk_entry (kCompareImmBase + 4) "compare_gt_signed" ImmForm;
  mk_entry (kCompareImmBase + 5) "compare_ge_signed" ImmForm;
  mk_entry (kCompareImmBase + 6) "compare_lt_unsigned" ImmForm;
  mk_entry (kCompareImmBase + 7) "compare_le_unsigned" ImmForm;
  mk_entry (kCompareImmBase + 8) "compare_gt_unsigned" ImmForm;
  mk_entry (kCompareImmBase + 9) "compare_ge_unsigned" ImmForm;
  mk_entry (kBranchBase + 0) "branch_eq" SelNone;
  mk_entry (kBranchBase + 1) "branch_ne" SelNone;
  mk_entry (kBranchBase + 2) "branch_lt_signed" SelNone;
  mk_entry (kBranchBase + 3) "branch_le_signed" SelNone;
  mk_entry (kBranchBase + 4) "branch_gt_signed" SelNone;
  mk_entry (kBranchBase + 5) "branch_ge_signed" SelNone;
  mk_entry (kBranchBase + 6) "branch_lt_unsigned" SelNone;
  mk_entry (kBranchBase + 7) "branch_le_unsigned" SelNone;
  mk_entry (kBranchBase + 8) "branch_gt_unsigned" SelNone;
  mk_entry (kBranchBase + 9) "branch_ge_unsigned" SelNone;
  mk_entry kJumpDisp "jump" DispTarget;
  mk_entry kJumpReg "jump" RegTarget;
  mk_entry kCallDisp "call" DispTarget;
  mk_entry kCallReg "call" RegTarget;
  mk_entry kReturn "return" SelNone;
  mk_entry kSelectNz "select_nz" SelNone;
  mk_entry kSelectZ "select_z" SelNone;
  mk_entry kLoad "load" Bare;
  mk_entry kLoadZb "load.zb" Bare;
  mk_entry kLoadSb "load.sb" Bare;
  mk_entry kLoadZq "load.zq" Bare;
  mk_entry kLoadSq "load.sq" Bare;
  mk_entry kLoadZh "load.zh" Bare;
  mk_entry kLoadSh "load.sh" Bare;
  mk_entry (kLoadDisp + 0) "load" Displaced;
  mk_entry (kLoadDisp + 1) "load.zb" Displaced;
  mk_entry (kLoadDisp + 2) "load.sb" Displaced;
  mk_entry (kLoadDisp + 3) "load.zq" Displaced;
  mk_entry (kLoadDisp + 4) "load.sq" Displaced;
  mk_entry (kLoadDisp + 5) "load.zh" Displaced;
  mk_entry (kLoadDisp + 6) "load.sh" Displaced;
  mk_entry kStore "store" Bare;
  mk_entry kStoreB "store.b" Bare;
  mk_entry kStoreQ "store.q" Bare;
  mk_entry kStoreH "store.h" Bare;
  mk_entry (kStoreDisp + 0) "store" Displaced;
  mk_entry (kStoreDisp + 1) "store.b" Displaced;
  mk_entry (kStoreDisp + 2) "store.q" Displaced;
  mk_entry (kStoreDisp + 3) "store.h" Displaced;
  mk_entry kExtractZb "extract.zb" SelNone;
  mk_entry kExtractSb "extract.sb" SelNone;
  mk_entry kExtractZq "extract.zq" SelNone;
  mk_entry kExtractSq "extract.sq" SelNone;
  mk_entry kExtractZh "extract.zh" SelNone;
  mk_entry kExtractSh "extract.sh" SelNone;
  mk_entry kInsertB "insert.b" SelNone;
  mk_entry kInsertQ "insert.q" SelNone;
  mk_entry kInsertH "insert.h" SelNone;
  mk_entry kBitfieldExtract "bitfield_extract" SelNone;
  mk_entry kBitfieldExtractSigned "bitfield_extract_signed" SelNone;
  mk_entry kBitfieldInsert "bitfield_insert" SelNone;
  mk_entry kBlockCopy "block_copy" SelNone;
  mk_entry kBlockCopyForward "block_copy_forward" SelNone;
  mk_entry kBlockSet "block_set" SelNone;
  mk_entry kCsrRead "csr_read" SelNone;
  mk_entry kCsrWrite "csr_write" SelNone;
  mk_entry kSysImm "sys" DispTarget;
  mk_entry kSysReg "sys" RegTarget;
  mk_entry kTrapReturn "trap_return" SelNone;
  mk_entry kHalt "halt" SelNone;
  mk_entry kWaitForInterrupt "wait_for_interrupt" SelNone;
  mk_entry kNop "nop" SelNone;
  mk_entry kTlbInvalidateAll "tlb_invalidate_all" SelNone;
  mk_entry kTlbInvalidateAddress "tlb_invalidate_address" SelNone;
  mk_entry kPortIn "port_in" SelNone;
  mk_entry kPortOut "port_out" SelNone;
  mk_entry kCsrSwap "csr_swap" SelNone;
  mk_entry 0xC8 "float_add" SelNone;
  mk_entry 0xC9 "float_add.h" SelNone;
  mk_entry 0xCA "float_subtract" SelNone;
  mk_entry 0xCB "float_subtract.h" SelNone;
  mk_entry 0xCC "float_multiply" SelNone;
  mk_entry 0xCD "float_multiply.h" SelNone;
  mk_entry 0xCE "float_divide" SelNone;
  mk_entry 0xCF "float_divide.h" SelNone;
  mk_entry 0xD0 "float_square_root" SelNone;
  mk_entry 0xD1 "float_square_root.h" SelNone;
  mk_entry 0xD2 "float_negate" SelNone;
  mk_entry 0xD3 "float_negate.h" SelNone;
  mk_entry 0xD4 "float_absolute" SelNone;
  mk_entry 0xD5 "float_absolute.h" SelNone;
  mk_entry 0xD6 "float_multiply_add" SelNone;
  mk_entry 0xD7 "float_multiply_add.h" SelNone;
  mk_entry 0xD8 "float_multiply_subtract" SelNone;
  mk_entry 0xD9 "float_multiply_subtract.h" SelNone;
  mk_entry 0xDA "float_minimum" SelNone;
  mk_entry 0xDB "float_minimum.h" SelNone;
  mk_entry 0xDC "float_maximum" SelNone;
  mk_entry 0xDD "float_maximum.h" SelNone;
  mk_entry 0xDE "float_compare_eq" SelNone;
  mk_entry 0xDF "float_compare_eq.h" SelNone;
  mk_entry 0xE0 "float_compare_ne" SelNone;
  mk_entry 0xE1 "float_compare_ne.h" SelNone;
  mk_entry 0xE2 "float_compare_lt" SelNone;
  mk_entry 0xE3 "float_compare_lt.h" SelNone;
  mk_entry 0xE4 "float_compare_le" SelNone;
  mk_entry 0xE5 "float_compare_le.h" SelNone;
  mk_entry 0xE6 "float_compare_ordered" SelNone;
  mk_entry 0xE7 "float_compare_ordered.h" SelNone;
  mk_entry 0xE8 "float_compare_unordered" SelNone;
  mk_entry 0xE9 "float_compare_unordered.h" SelNone;
  mk_entry 0xEA "float_narrow" SelNone;
  mk_entry 0xEB "float_widen" SelNone;
  mk_entry 0xEC "float_to_signed" SelNone;
  mk_entry 0xED "float_to_signed.h" SelNone;
  mk_entry 0xEE "float_to_unsigned" SelNone;
  mk_entry 0xEF "float_to_unsigned.h" SelNone;
  mk_entry 0xF0 "signed_to_float" SelNone;
  mk_entry 0xF1 "signed_to_float.h" SelNone;
  mk_entry 0xF2 "unsigned_to_float" SelNone;
  mk_entry 0xF3 "unsigned_to_float.h" SelNone;
  mk_entry kBreakpoint "breakpoint" SelNone].

(** mnemonic_index: the rows that spell [text], in the order of the table. *)
Definition mnemonic_candidates (text : string) : list MnemonicEntry :=
  filter (fun e => me_text e = text) kMnemonics.
