(* ===== verification/V2AsmExpr.v ===== *)
(** * Reserved words, field fit and expressions of the assembler

    mzasm_lexer.cpp: register names and reserved words, the dual-reading fit
    rule, escapes, and the recursive-descent expression parser.  The parser
    works on the text that is left ([text_] from [position_] on); a failure
    carries the one message that [fail] records, since every failure returns
    at once.  Parentheses are the only recursion that is not on a strictly
    shorter suffix by construction, so the parser takes fuel; [parse_expression]
    gives it one more than the length of the text. *)
From Stdlib Require Import ZArith Lia Bool Ascii.
From stdpp Require Import base list numbers strings.
From S2P Require Import Prelude V2Opcode.

(** ** Characters *)

Definition code (c : ascii) : Z := Z.of_N (N_of_ascii c).
Definition is_char (n : Z) (c : ascii) : bool := code c =? n.
Definition chr (z : Z) : ascii := ascii_of_N (Z.to_N z).
Definition isdigit (c : ascii) : bool := upto 0x30 0x39 (code c).
Definition isalpha (c : ascii) : bool := upto 0x41 0x5A (code c) || upto 0x61 0x7A (code c).
Definition isalnum (c : ascii) : bool := isalpha c || isdigit c.
Definition ident_char (c : ascii) : bool := isalnum c || is_char 0x5F c.

Fixpoint str_all (p : ascii -> bool) (s : string) : bool :=
  match s with EmptyString => true | String c r => p c && str_all p r end.
Definition str_empty (s : string) : bool := match s with EmptyString => true | _ => false end.
Definition one_char (c : ascii) : string := String c EmptyString.
Definition in_quotes (s : string) : string := "'" +:+ s +:+ "'".

(** ** Reserved words *)

Definition kRegisterAliases : list (string * Z) :=
  [("zero", 0); ("tp", 1); ("a0", 2); ("a1", 3); ("a2", 4); ("a3", 5); ("a4", 6);
   ("a5", 7); ("a6", 8); ("a7", 9); ("t0", 10); ("t1", 11); ("t2", 12); ("t3", 13);
   ("t4", 14); ("t5", 15); ("t6", 16); ("t7", 17); ("t8", 18); ("t9", 19); ("s0", 20);
   ("s1", 21); ("s2", 22); ("s3", 23); ("s4", 24); ("s5", 25); ("s6", 26); ("s7", 27);
   ("s8", 28); ("fp", 29); ("sp", 30); ("ra", 31)].

Definition kDirectiveNames : list string :=
  ["section"; "origin"; "align"; "data_byte"; "data_quarter_word"; "data_half_word";
   "data_word"; "data_string"; "data_string_zero"; "data_fill"; "reserve"; "constant";
   "global"; "extern"; "include"].

(** The accumulation of a register number, which stops when it passes 31. *)
Fixpoint register_digits (value : Z) (digits : string) : option Z :=
  match digits with
  | EmptyString => Some value
  | String d r =>
      let value := value * 10 + (code d - 0x30) in
      if 31 <? value then None else register_digits value r
  end.

Definition canonical_register (text : string) : option Z :=
  match text with
  | String c (String d r as digits) =>
      if is_char 0x72 c && str_all isdigit digits && (str_empty r || negb (is_char 0x30 d))
      then register_digits 0 digits else None
  | _ => None
  end.

Fixpoint find_alias (text : string) (l : list (string * Z)) : option Z :=
  match l with
  | [] => None
  | (name, number) :: l => if bool_decide (text = name) then Some number else find_alias text l
  end.

Definition is_register_name (text : string) : option Z :=
  match canonical_register text with
  | Some n => Some n
  | None => find_alias text kRegisterAliases
  end.

Definition is_reserved_word (text : string) : bool :=
  match is_register_name text with
  | Some _ => true
  | None => bool_decide (text = "here") || bool_decide (text ∈ kDirectiveNames)
  end.

(** ** Field fit *)

(** [fits] of the lexer: [value] is a 64-bit pattern. *)
Definition field_fits (value width_bits : Z) : bool :=
  if 64 <=? width_bits then true
  else
    let unsigned_max := u64 (Z.shiftl 1 width_bits - 1) in
    if value <=? unsigned_max then true
    else
      let signed_min := Z.lor (Z.lxor unsigned_max (2 ^ 64 - 1)) (Z.shiftl 1 (width_bits - 1)) in
      signed_min <=? value.

(** ** Escapes *)

Definition hex_digit (c : ascii) : option Z :=
  if isdigit c then Some (code c - 0x30)
  else if upto 0x61 0x66 (code c) then Some (code c - 0x61 + 10)
  else if upto 0x41 0x46 (code c) then Some (code c - 0x41 + 10)
  else None.

(** At a backslash: the byte and the text after the escape. *)
Definition decode_escape (s : string) : option (Z * string) :=
  match s with
  | String b (String c r) =>
      if negb (is_char 0x5C b) then None
      else if is_char 0x5C c then Some (0x5C, r)
      else if is_char 0x22 c then Some (0x22, r)
      else if is_char 0x27 c then Some (0x27, r)
      else if is_char 0x6E c then Some (0x0A, r)
      else if is_char 0x72 c then Some (0x0D, r)
      else if is_char 0x74 c then Some (0x09, r)
      else if is_char 0x30 c then Some (0, r)
      else if is_char 0x78 c then
        match r with
        | String h (String l r) =>
            match hex_digit h, hex_digit l with
            | Some high, Some low => Some (u8 (Z.lor (Z.shiftl high 4) low), r)
            | _, _ => None
            end
        | _ => None
        end
      else None
  | _ => None
  end.

(** ** Values and the parser's results *)

Record ExprValue : Type := mk_value { ev_constant : Z; ev_symbol : string }.
Definition constant_value (z : Z) : ExprValue := mk_value z EmptyString.
Definition is_relocatable (v : ExprValue) : bool := negb (str_empty (ev_symbol v)).

Record SymbolQuery : Type := mk_query { sq_defined : bool; sq_is_constant : bool; sq_value : Z; sq_section : Z }.

Inductive presult (A : Type) : Type :=
| PFuel | PFail (message : string) | PDone (v : A) (rest : string).
Arguments PFuel {A}.
Arguments PFail {A}.
Arguments PDone {A}.

Definition pbind {A B : Type} (e : presult A) (k : A -> string -> presult B) : presult B :=
  match e with PDone v r => k v r | PFail m => PFail m | PFuel => PFuel end.

(** The message of [require_constant], when it fails. *)
Definition not_constant (operation : string) : string :=
  "a symbol cannot be an operand of " +:+ operation +:+
  " (only a symbol alone, a symbol plus or minus a constant, and one symbol minus another in the same section are relocatable)".

(** ** Literals *)

Definition parse_character (s : string) : presult ExprValue :=
  let closing (value : Z) (r : string) :=
    match r with
    | String q r => if is_char 0x27 q then PDone (constant_value value) r
                    else PFail "a character literal holds exactly one character"
    | EmptyString => PFail "a character literal holds exactly one character"
    end in
  match s with
  | EmptyString => PFail "unterminated character literal"
  | String c r =>
      if is_char 0x5C c then
        match decode_escape s with
        | None => PFail "unrecognized escape in character literal"
        | Some (value, r) => closing value r
        end
      else if 255 <? code c then PFail "a character literal above code point 255 is not representable"
      else closing (code c) r
  end.

(** The digit loop: the digits kept, whether the last character was a
    separator, whether a digit was seen, and the rest. *)
Fixpoint scan_digits (base : Z) (s digits : string) (previous_was_separator saw_digit : bool)
    : string + (string * bool * bool * string) :=
  match s with
  | EmptyString => inr (digits, previous_was_separator, saw_digit, s)
  | String c r =>
      if is_char 0x2C c || is_char 0x60 c then
        if previous_was_separator then inl "a digit separator must sit between two digits"
        else scan_digits base r digits true saw_digit
      else
        match hex_digit c with
        | Some d => if base <=? d then inr (digits, previous_was_separator, saw_digit, s)
                    else scan_digits base r (digits +:+ one_char c) false true
        | None => inr (digits, previous_was_separator, saw_digit, s)
        end
  end.

Fixpoint digits_value (base value : Z) (digits : string) : Z :=
  match digits with
  | EmptyString => value
  | String c r => digits_value base (u64 (value * base + default 0 (hex_digit c))) r
  end.

(** The digits of a literal, once its base and sign are known. *)
Definition number_literal (base : Z) (base_name : string) (negative : bool) (s : string) : presult ExprValue :=
  match scan_digits base s EmptyString true false with
  | inl m => PFail m
  | inr (digits, previous_was_separator, saw_digit, rest) =>
      if negb saw_digit then PFail ("a " +:+ base_name +:+ " literal needs at least one digit")
      else if previous_was_separator then PFail "a digit separator must sit between two digits"
      else
        let value := digits_value base 0 digits in
        PDone (constant_value (if negative then u64 (0 - value) else value)) rest
  end.

Definition parse_number (marker : ascii) (s : string) : presult ExprValue :=
  let '(base, base_name) :=
    if is_char 0x24 marker then (16, "hexadecimal") else if is_char 0x25 marker then (2, "binary") else (10, "decimal") in
  match s with
  | String c r =>
      if is_char 0x2D c then number_literal base base_name true r
      else if is_char 0x2B c then number_literal base base_name false r
      else number_literal base base_name false s
  | EmptyString => number_literal base base_name false s
  end.

(** The longest prefix of identifier characters, and the rest. *)
Fixpoint scan_identifier (s : string) : string * string :=
  match s with
  | EmptyString => (EmptyString, s)
  | String c r => if ident_char c then let '(n, rest) := scan_identifier r in (String c n, rest) else (EmptyString, s)
  end.

(** ** Operators *)

Definition on_constants (operation : string) (f : Z -> Z -> string + Z) (out rhs : ExprValue) : string + ExprValue :=
  if is_relocatable out then inl (not_constant operation)
  else if is_relocatable rhs then inl (not_constant operation)
  else match f (ev_constant out) (ev_constant rhs) with inl m => inl m | inr z => inr (constant_value z) end.

Definition divide_words (a b : Z) : string + Z :=
  let signed_min := Z.shiftl 1 63 in
  if b =? 0 then inl "division by zero in expression"
  else if (a =? signed_min) && (b =? 2 ^ 64 - 1) then inr signed_min
  else inr (u64 (Z.quot (i64 a) (i64 b))).

Section Parser.
(** What the assembler installs for one evaluation: the symbol lookup and the
    current address. *)
Context (lookup : string -> option SymbolQuery) (here : Z).

Definition fold_symbol_difference (out rhs : ExprValue) : string + ExprValue :=
  match lookup (ev_symbol out), lookup (ev_symbol rhs) with
  | Some l, Some r =>
      if negb (sq_defined l) || negb (sq_defined r)
      then inl "one symbol minus another is relocatable only when this module defines both"
      else if negb (sq_section l =? sq_section r)
      then inl "one symbol minus another is relocatable only when both live in the same section"
      else
        let difference := u64 (sq_value l - sq_value r) in
        inr (constant_value (u64 (u64 (ev_constant out - ev_constant rhs) + difference)))
  | _, _ => inl "one symbol minus another is relocatable only when this module defines both"
  end.

Definition combine_additive (subtract : bool) (out rhs : ExprValue) : string + ExprValue :=
  let sum := if subtract then u64 (ev_constant out - ev_constant rhs) else u64 (ev_constant out + ev_constant rhs) in
  match is_relocatable out, is_relocatable rhs with
  | false, false | true, false => inr (mk_value sum (ev_symbol out))
  | false, true => if subtract then inl "a constant minus a symbol is not a relocatable form"
                   else inr (mk_value sum (ev_symbol rhs))
  | true, true => if subtract then fold_symbol_difference out rhs else inl "two symbols cannot be added"
  end.

Definition combine_multiplicative (divide : bool) : ExprValue -> ExprValue -> string + ExprValue :=
  if divide then on_constants "/" divide_words else on_constants "*" (fun a b => inr (u64 (a * b))).
Definition combine_shift (left : bool) : ExprValue -> ExprValue -> string + ExprValue :=
  if left then on_constants "<<" (fun a b => inr (u64 (Z.shiftl a (Z.land b 63))))
  else on_constants ">>" (fun a b => inr (u64 (Z.shiftr (i64 a) (Z.land b 63)))).
Definition combine_and (_ : bool) := on_constants "&" (fun a b => inr (Z.land a b)).
Definition combine_xor (_ : bool) := on_constants "^" (fun a b => inr (Z.lxor a b)).
Definition combine_or (_ : bool) := on_constants "|" (fun a b => inr (Z.lor a b)).

(** The operator at the start of the text, if it is one of the level's. *)
Definition two_operators (yes no : Z) (s : string) : option (bool * string) :=
  match s with
  | String c r => if is_char yes c then Some (true, r) else if is_char no c then Some (false, r) else None
  | EmptyString => None
  end.
Definition one_operator (n : Z) (s : string) : option (bool * string) := two_operators n n s.
Definition shift_operator (s : string) : option (bool * string) :=
  match s with
  | String a (String b r) =>
      if is_char 0x3C a && is_char 0x3C b then Some (true, r)
      else if is_char 0x3E a && is_char 0x3E b then Some (false, r) else None
  | _ => None
  end.

(** The loop of a binary level: while the text starts with one of its
    operators, an operand of the next level and the combination. *)
Fixpoint chain (fuel : nat) (operator : string -> option (bool * string)) (operand : string -> presult ExprValue)
    (combine : bool -> ExprValue -> ExprValue -> string + ExprValue) (out : ExprValue) (s : string) : presult ExprValue :=
  match operator s with
  | None => PDone out s
  | Some (o, r) =>
      match fuel with
      | O => PFuel
      | S fuel =>
          pbind (operand r) (fun rhs r =>
            match combine o out rhs with
            | inl m => PFail m
            | inr out => chain fuel operator operand combine out r
            end)
      end
  end.
Definition level (operator : string -> option (bool * string)) (operand : string -> presult ExprValue)
    (combine : bool -> ExprValue -> ExprValue -> string + ExprValue) (s : string) : presult ExprValue :=
  pbind (operand s) (fun out r => chain (String.length r) operator operand combine out r).

(** A name: [here], a constant, a symbol. *)
Definition symbol_leaf (name : string) (rest : string) : presult ExprValue :=
  if bool_decide (name = "here") then PDone (constant_value here) rest
  else match is_register_name name with
  | Some _ => PFail (in_quotes name +:+ " is a register name and cannot appear in an expression")
  | None =>
      match lookup name with
      | Some q => if sq_is_constant q then PDone (constant_value (sq_value q)) rest
                  else PDone (mk_value 0 name) rest
      | None => PFail ("undefined symbol " +:+ in_quotes name +:+
                       " (define it, or declare it extern if another module defines it)")
      end
  end.

Section Levels.
Context (nested : string -> presult ExprValue).

Definition parse_primary (s : string) : presult ExprValue :=
  match s with
  | EmptyString => PFail "an expression is missing"
  | String c r =>
      if is_char 0x28 c then
        pbind (nested r) (fun v r =>
          match r with
          | String p r => if is_char 0x29 p then PDone v r else PFail "a '(' in this expression has no matching ')'"
          | EmptyString => PFail "a '(' in this expression has no matching ')'"
          end)
      else if is_char 0x23 c || is_char 0x24 c || is_char 0x25 c then parse_number c r
      else if is_char 0x27 c then parse_character r
      else if isdigit c then
        PFail ("a numeric literal names its base: write #" +:+ s +:+ " for decimal, $" +:+ s +:+
               " for hexadecimal, or %" +:+ s +:+ " for binary")
      else if isalpha c || is_char 0x5F c then
        let '(name, rest) := scan_identifier s in symbol_leaf name rest
      else PFail (in_quotes (one_char c) +:+ " does not begin an expression")
  end.

Fixpoint parse_unary (s : string) : presult ExprValue :=
  match s with
  | String c r =>
      if is_char 0x2D c then
        pbind (parse_unary r) (fun v rest =>
          if is_relocatable v then PFail (not_constant "unary -")
          else PDone (constant_value (u64 (0 - ev_constant v))) rest)
      else if is_char 0x7E c then
        pbind (parse_unary r) (fun v rest =>
          if is_relocatable v then PFail (not_constant "unary ~")
          else PDone (constant_value (Z.lxor (ev_constant v) (2 ^ 64 - 1))) rest)
      else parse_primary s
  | EmptyString => parse_primary s
  end.

Definition parse_multiplicative := level (two_operators 0x2F 0x2A) parse_unary combine_multiplicative.
Definition parse_additive := level (two_operators 0x2D 0x2B) parse_multiplicative combine_additive.
Definition parse_shift := level shift_operator parse_additive combine_shift.
Definition parse_and := level (one_operator 0x26) parse_shift combine_and.
Definition parse_xor := level (one_operator 0x5E) parse_and combine_xor.
Definition parse_or := level (one_operator 0x7C) parse_xor combine_or.
End Levels.

Fixpoint parse_nested (fuel : nat) (s : string) : presult ExprValue :=
  match fuel with
  | O => PFuel
  | S fuel => parse_or (parse_nested fuel) s
  end.

(** [ExprParser::parse] on the whole of [text]. *)
Definition parse_expression (text : string) : presult ExprValue :=
  pbind (parse_nested (S (String.length text)) text) (fun v rest =>
    if str_empty rest then PDone v rest
    else PFail ("unexpected " +:+ in_quotes rest +:+ " in expression")).
End Parser.
