(* ===== verification/V2AsmSource.v ===== *)
(** * Source of the assembler: its data, its state, and the parser of lines

    mzasm.h and the parsing half of mzasm_assemble.cpp: fields of a line,
    operands, statements and [include].  The host's file system is a record of
    functions; [include] is the only recursion, and its nesting is the fuel. *)
From Stdlib Require Import ZArith Lia Bool Ascii.
From stdpp Require Import base list numbers strings gmap pretty.
From S2P Require Import Prelude MzObj V2Opcode V2AsmExpr.

(** ** Data *)

Inductive SourceLoc : Type := mk_loc (file : string) (line : Z) (included_from : option SourceLoc).
Record Diagnostic : Type := mk_diag { dg_where : SourceLoc; dg_message : string }.

Inductive SliceWidth : Type := SliceByte | SliceQuarter | SliceHalf.
#[global] Instance SliceWidth_eq_dec : EqDecision SliceWidth.
Proof. solve_decision. Defined.

(** An operand's kind with the fields that the kind uses. *)
Inductive OperandBody : Type :=
| Register (reg : Z)
| Slice (reg : Z) (width : SliceWidth) (index : Z)
| Memory (reg : Z) (displacement : option (bool * string))   (* negated, text *)
| Expression (text : string)
| StringText (value : list Z)
| SectionKind (kind : Z).
Record Operand : Type := mk_operand { o_text : string; o_body : OperandBody }.

(** [expression_text]: empty in an operand of another kind. *)
Definition expression_text (o : Operand) : string :=
  match o_body o with Expression t => t | _ => EmptyString end.
Definition is_expression (o : Operand) : bool := match o_body o with Expression _ => true | _ => false end.

Inductive StatementKind : Type := Label | Instruction | Directive.
Record Statement : Type := mk_statement {
  st_kind : StatementKind;
  st_where : SourceLoc;
  st_name : string;
  st_operands : list Operand;
  st_address : Z;
  st_section : Z;
  st_opcode : Z;
  st_length : Z }.

Record Symbol : Type := mk_symbol {
  sy_name : string;
  sy_value : Z;
  sy_section : Z;
  sy_defined : bool;
  sy_exported : bool;
  sy_external : bool;
  sy_is_constant : bool;
  sy_where : SourceLoc }.

Record Relocation : Type := mk_relocation {
  re_section : Z; re_offset : Z; re_symbol : string; re_type : Z; re_addend : Z }.

Inductive PlacementMode : Type := Undecided | Flat | Sectioned.
#[global] Instance PlacementMode_eq_dec : EqDecision PlacementMode.
Proof. solve_decision. Defined.

Record assembler : Type := mk_assembler {
  a_diags : list Diagnostic;
  a_mode : PlacementMode;
  a_statements : list Statement;
  a_symbols : gmap string Symbol;
  a_relocations : list Relocation;
  a_include_stack : gset string;
  a_include_order : list string;
  a_flat_image : list Z;
  a_flat_base : Z;
  a_flat_base_set : bool;
  a_sections : list (list Z);
  a_section_sizes : list Z;
  a_current_section : Z;
  a_address : Z;
  a_second_pass : bool }.

Definition statement_eta (s : Statement) := mk_statement (st_kind s) (st_where s) (st_name s) (st_operands s) (st_address s) (st_section s) (st_opcode s) (st_length s).
#[export] Instance set_st_kind : Setter st_kind := ltac:(mk_setter statement_eta).
#[export] Instance set_st_where : Setter st_where := ltac:(mk_setter statement_eta).
#[export] Instance set_st_name : Setter st_name := ltac:(mk_setter statement_eta).
#[export] Instance set_st_operands : Setter st_operands := ltac:(mk_setter statement_eta).
#[export] Instance set_st_address : Setter st_address := ltac:(mk_setter statement_eta).
#[export] Instance set_st_section : Setter st_section := ltac:(mk_setter statement_eta).
#[export] Instance set_st_opcode : Setter st_opcode := ltac:(mk_setter statement_eta).
#[export] Instance set_st_length : Setter st_length := ltac:(mk_setter statement_eta).
Definition symbol_eta (s : Symbol) := mk_symbol (sy_name s) (sy_value s) (sy_section s) (sy_defined s) (sy_exported s) (sy_external s) (sy_is_constant s) (sy_where s).
#[export] Instance set_sy_name : Setter sy_name := ltac:(mk_setter symbol_eta).
#[export] Instance set_sy_value : Setter sy_value := ltac:(mk_setter symbol_eta).
#[export] Instance set_sy_section : Setter sy_section := ltac:(mk_setter symbol_eta).
#[export] Instance set_sy_defined : Setter sy_defined := ltac:(mk_setter symbol_eta).
#[export] Instance set_sy_exported : Setter sy_exported := ltac:(mk_setter symbol_eta).
#[export] Instance set_sy_external : Setter sy_external := ltac:(mk_setter symbol_eta).
#[export] Instance set_sy_is_constant : Setter sy_is_constant := ltac:(mk_setter symbol_eta).
#[export] Instance set_sy_where : Setter sy_where := ltac:(mk_setter symbol_eta).
Definition assembler_eta (a : assembler) := mk_assembler (a_diags a) (a_mode a) (a_statements a) (a_symbols a) (a_relocations a) (a_include_stack a) (a_include_order a) (a_flat_image a) (a_flat_base a) (a_flat_base_set a) (a_sections a) (a_section_sizes a) (a_current_section a) (a_address a) (a_second_pass a).
#[export] Instance set_a_diags : Setter a_diags := ltac:(mk_setter assembler_eta).
#[export] Instance set_a_mode : Setter a_mode := ltac:(mk_setter assembler_eta).
#[export] Instance set_a_statements : Setter a_statements := ltac:(mk_setter assembler_eta).
#[export] Instance set_a_symbols : Setter a_symbols := ltac:(mk_setter assembler_eta).
#[export] Instance set_a_relocations : Setter a_relocations := ltac:(mk_setter assembler_eta).
#[export] Instance set_a_include_stack : Setter a_include_stack := ltac:(mk_setter assembler_eta).
#[export] Instance set_a_include_order : Setter a_include_order := ltac:(mk_setter assembler_eta).
#[export] Instance set_a_flat_image : Setter a_flat_image := ltac:(mk_setter assembler_eta).
#[export] Instance set_a_flat_base : Setter a_flat_base := ltac:(mk_setter assembler_eta).
#[export] Instance set_a_flat_base_set : Setter a_flat_base_set := ltac:(mk_setter assembler_eta).
#[export] Instance set_a_sections : Setter a_sections := ltac:(mk_setter assembler_eta).
#[export] Instance set_a_section_sizes : Setter a_section_sizes := ltac:(mk_setter assembler_eta).
#[export] Instance set_a_current_section : Setter a_current_section := ltac:(mk_setter assembler_eta).
#[export] Instance set_a_address : Setter a_address := ltac:(mk_setter assembler_eta).
#[export] Instance set_a_second_pass : Setter a_second_pass := ltac:(mk_setter assembler_eta).

Definition no_loc : SourceLoc := mk_loc EmptyString 0 None.
Definition fresh_statement (k : StatementKind) (w : SourceLoc) (name : string) (l : list Operand) : Statement :=
  mk_statement k w name l 0 0 0 0.
Definition fresh_symbol : Symbol := mk_symbol EmptyString 0 0 false false false false no_loc.
Definition assembler_start : assembler :=
  mk_assembler [] Undecided [] ∅ [] ∅ [] [] 0 false (replicate 5 []) (replicate 5 0) 0 0 false.

Definition error (a : assembler) (w : SourceLoc) (m : string) : assembler :=
  a <| a_diags := a_diags a ++ [mk_diag w m] |>.
Definition no_diags (a : assembler) : bool := match a_diags a with [] => true | _ => false end.

(** [Diagnostics::format]: a line per diagnostic and per enclosing include. *)
Fixpoint include_notes (w : SourceLoc) : string :=
  match w with
  | mk_loc _ _ (Some (mk_loc file line _ as parent)) =>
      "mzasm: " +:+ file +:+ ":" +:+ pretty line +:+ ": note: included from here" +:+ one_char (chr 0x0A) +:+ include_notes parent
  | _ => EmptyString
  end.
Definition format_one (d : Diagnostic) : string :=
  match dg_where d with
  | mk_loc file line _ =>
      "mzasm: " +:+ file +:+ ":" +:+ pretty line +:+ ": error: " +:+ dg_message d +:+ one_char (chr 0x0A) +:+ include_notes (dg_where d)
  end.
Definition format_diagnostics (a : assembler) : string := foldr (fun d s => format_one d +:+ s) EmptyString (a_diags a).

(** ** Fields of a line *)

Definition is_space (c : ascii) : bool := is_char 0x20 c || is_char 0x09 c.
Definition push_field (current : string) (out : list string) : list string :=
  if str_empty current then out else out ++ [current].

(** In a literal, [in_literal] is the quote that closes it. *)
Fixpoint split_loop (s current : string) (in_literal : option Z) (out : list string) : string + list string :=
  match s with
  | EmptyString =>
      match in_literal with
      | Some q => inl (if q =? 0x22 then "unterminated string literal" else "unterminated character literal")
      | None => inr (push_field current out)
      end
  | String c r =>
      match in_literal with
      | Some q =>
          match r with
          | String d r' =>
              if is_char 0x5C c then split_loop r' (current +:+ one_char c +:+ one_char d) (Some q) out
              else split_loop r (current +:+ one_char c) (if is_char q c then None else Some q) out
          | EmptyString => split_loop r (current +:+ one_char c) (if is_char q c then None else Some q) out
          end
      | None =>
          if is_char 0x3B c then inr (push_field current out)
          else if is_char 0x22 c || is_char 0x27 c then split_loop r (current +:+ one_char c) (Some (code c)) out
          else if is_space c then split_loop r EmptyString None (push_field current out)
          else split_loop r (current +:+ one_char c) None out
      end
  end.
Definition split_fields (line : string) : string + list string := split_loop line EmptyString None [].

(** The first byte that is not legal outside a literal or a comment. *)
Fixpoint offending_byte (s : string) (in_literal : option Z) : option ascii :=
  match s with
  | EmptyString => None
  | String c r =>
      match in_literal with
      | Some q =>
          match r with
          | String _ r' =>
              if is_char 0x5C c then offending_byte r' (Some q)
              else offending_byte r (if is_char q c then None else Some q)
          | EmptyString => None
          end
      | None =>
          if is_char 0x3B c then None
          else if is_char 0x22 c || is_char 0x27 c then offending_byte r (Some (code c))
          else if negb (is_char 0x09 c) && ((code c <? 0x20) || (0x7E <? code c)) then Some c
          else offending_byte r None
      end
  end.
Definition line_characters_are_legal (line : string) : option ascii := offending_byte line None.

Definition is_directive_name (name : string) : bool := bool_decide (name ∈ kDirectiveNames).
Definition is_identifier (text : string) : bool :=
  match text with
  | EmptyString => false
  | String c _ => (isalpha c || is_char 0x5F c) && str_all ident_char text
  end.
Definition section_kind_from_name (name : string) : Z :=
  if bool_decide (name = "code") then SEC_CODE
  else if bool_decide (name = "rodata") then SEC_RODATA
  else if bool_decide (name = "data") then SEC_DATA
  else if bool_decide (name = "bss") then SEC_BSS else SEC_NULL.

(** A byte in upper-case hexadecimal, without leading zeros. *)
Definition hex_char (d : Z) : ascii := chr (if d <? 10 then d + 0x30 else d - 10 + 0x41).
Definition hex_text (z : Z) : string :=
  if z <? 16 then one_char (hex_char z) else one_char (hex_char (z / 16)) +:+ one_char (hex_char (z mod 16)).

(** ** Operands *)

Fixpoint last_char (s : string) : option ascii :=
  match s with EmptyString => None | String c EmptyString => Some c | String _ r => last_char r end.
Fixpoint drop_last (s : string) : string :=
  match s with EmptyString => EmptyString | String c EmptyString => EmptyString | String c r => String c (drop_last r) end.

(** The text before the first character that satisfies [p], and that character
    with the text after it. *)
Fixpoint split_at (p : ascii -> bool) (s : string) : string * option (ascii * string) :=
  match s with
  | EmptyString => (EmptyString, None)
  | String c r => if p c then (EmptyString, Some (c, r))
                  else let '(before, after) := split_at p r in (String c before, after)
  end.

(** The bytes of a string literal's body; [None] for a bad escape. *)
Fixpoint string_bytes (fuel : nat) (body : string) : option (list Z) :=
  match fuel, body with
  | _, EmptyString => Some []
  | O, _ => None
  | S fuel, String c r =>
      if is_char 0x5C c then
        '(z, r) ← decode_escape body; cons z <$> string_bytes fuel r
      else cons (code c) <$> string_bytes fuel r
  end.

Definition parse_slice (field : string) (number : Z) (suffix : string) : string + OperandBody :=
  match suffix with
  | String w (String d EmptyString) =>
      if negb (isdigit d) then
        inl (in_quotes field +:+ " is not a slice; write a width letter b, q or h and a single index digit, as in r3.b5")
      else
        let index := code d - 0x30 in
        if is_char 0x62 w then inr (Slice number SliceByte index)
        else if is_char 0x71 w then inr (Slice number SliceQuarter index)
        else if is_char 0x68 w then inr (Slice number SliceHalf index)
        else inl (in_quotes field +:+ " names width " +:+ in_quotes (one_char w) +:+ "; a slice is written .b, .q or .h")
  | _ => inl (in_quotes field +:+ " is not a slice; write a width letter b, q or h and a single index digit, as in r3.b5")
  end.

Definition parse_memory (field rest : string) : string + OperandBody :=
  let '(register_text, displacement) := split_at (fun c => is_char 0x2B c || is_char 0x2D c) rest in
  match is_register_name register_text with
  | None => inl (in_quotes register_text +:+ " in " +:+ in_quotes field +:+
                 " is not a register name; a memory operand names a base register after the @ sigil")
  | Some number =>
      match displacement with
      | None => inr (Memory number None)
      | Some (sign, text) =>
          if str_empty text then inl (in_quotes field +:+ " has a sign with no displacement after it")
          else inr (Memory number (Some (is_char 0x2D sign, text)))
      end
  end.

Definition parse_string (field rest : string) : string + OperandBody :=
  match last_char rest with
  | Some q =>
      if negb (is_char 0x22 q) then inl "unterminated string literal"
      else match string_bytes (String.length rest) (drop_last rest) with
           | Some bytes => inr (StringText bytes)
           | None => inl ("unrecognized escape in string literal " +:+ in_quotes field)
           end
  | None => inl "unterminated string literal"
  end.

(** A register, a section kind, or else an expression. *)
Definition parse_plain (field : string) : OperandBody :=
  match is_register_name field with
  | Some number => Register number
  | None =>
      if bool_decide (field ∈ ["code"; "rodata"; "data"; "bss"]) then SectionKind (section_kind_from_name field)
      else Expression field
  end.

Definition parse_body (field : string) : string + OperandBody :=
  match field with
  | EmptyString => inl "an empty operand"
  | String c rest =>
      if is_char 0x22 c then parse_string field rest
      else if is_char 0x40 c then parse_memory field rest
      else
        match split_at (is_char 0x2E) field with
        | (register_text, Some (_, suffix)) =>
            match is_register_name register_text with
            | Some number => parse_slice field number suffix
            | None => inr (parse_plain field)
            end
        | (_, None) => inr (parse_plain field)
        end
  end.
Definition parse_operand (a : assembler) (field : string) (w : SourceLoc) : assembler * option Operand :=
  match parse_body field with
  | inl m => (error a w m, None)
  | inr b => (a, Some (mk_operand field b))
  end.
Fixpoint parse_operands (a : assembler) (fields : list string) (w : SourceLoc) : assembler * option (list Operand) :=
  match fields with
  | [] => (a, Some [])
  | f :: fields =>
      match parse_operand a f w with
      | (a, None) => (a, None)
      | (a, Some o) =>
          match parse_operands a fields w with
          | (a, None) => (a, None)
          | (a, Some l) => (a, Some (o :: l))
          end
      end
  end.

(** ** Lines and files *)

(** What the assembler uses of the host: reading a file, the directory of a
    path, a path relative to a directory, and the normal form that identifies
    a file. *)
Record file_system : Type := mk_fs {
  fs_read : string -> option string;
  fs_parent : string -> string;
  fs_join : string -> string -> string;
  fs_canonical : string -> string }.

Definition add_statement (a : assembler) (s : Statement) : assembler := a <| a_statements := a_statements a ++ [s] |>.

Definition parse_label (a : assembler) (w : SourceLoc) (head : string) (fields : list string) : assembler :=
  let name := drop_last head in
  match fields with
  | f :: _ => error a w ("a label definition stands alone on its line; " +:+ in_quotes f +:+ " follows " +:+ in_quotes head)
  | [] =>
      if negb (is_identifier name) then error a w (in_quotes name +:+ " is not an identifier")
      else if is_reserved_word name
      then error a w (in_quotes name +:+ " is a reserved word and cannot be defined as a label")
      else add_statement a (fresh_statement Label w name [])
  end.

(** Lines as getline yields them. *)
Fixpoint lines_loop (s current : string) : list string :=
  match s with
  | EmptyString => if str_empty current then [] else [current]
  | String c r => if is_char 0x0A c then current :: lines_loop r EmptyString else lines_loop r (current +:+ one_char c)
  end.
Definition strip_return (line : string) : string :=
  match last_char line with Some c => if is_char 0x0D c then drop_last line else line | None => line end.

Fixpoint cycle_text (order : list string) (key : string) : string :=
  match order with [] => key | e :: order => e +:+ " -> " +:+ cycle_text order key end.

Section Files.
Context (fs : file_system).

Section Line.
(** parse_text on an included file. *)
Context (included : assembler -> string -> string -> string -> option SourceLoc -> option assembler).

Definition parse_include (a : assembler) (w : SourceLoc) (dir : string) (operands : list Operand) : option assembler :=
  match operands with
  | [mk_operand _ (StringText value)] =>
      let path := String.string_of_list_ascii (chr <$> value) in
      let key := fs_canonical fs (fs_join fs dir path) in
      if bool_decide (key ∈ a_include_stack a)
      then Some (error a w ("include cycle: " +:+ cycle_text (a_include_order a) key))
      else match fs_read fs key with
      | None => Some (error a w ("cannot read " +:+ in_quotes key))
      | Some text =>
          let a := (a <| a_include_stack := {[ key ]} ∪ a_include_stack a |>) <| a_include_order := a_include_order a ++ [key] |> in
          a ← included a text key (fs_parent fs key) (Some w);
          Some ((a <| a_include_order := removelast (a_include_order a) |>) <| a_include_stack := a_include_stack a ∖ {[ key ]} |>)
      end
  | _ => Some (error a w "include takes exactly one string literal naming a path")
  end.

Definition parse_line (a : assembler) (line : string) (w : SourceLoc) (dir : string) : option assembler :=
  match line_characters_are_legal line with
  | Some c => Some (error a w ("byte 0x" +:+ hex_text (code c) +:+ " is not a printable ASCII character, a space, or a tab"))
  | None =>
      match split_fields line with
      | inl m => Some (error a w m)
      | inr [] => Some a
      | inr (head :: fields) =>
          if (2 <=? String.length head)%nat && bool_decide (last_char head = Some (chr 0x3A))
          then Some (parse_label a w head fields)
          else
            let kind := if is_directive_name head then Directive else Instruction in
            match parse_operands a fields w with
            | (a, None) => Some a
            | (a, Some operands) =>
                if bool_decide (head = "include") then parse_include a w dir operands
                else Some (add_statement a (fresh_statement kind w head operands))
            end
      end
  end.

Fixpoint parse_lines (a : assembler) (lines : list string) (file : string) (number : Z) (dir : string)
    (included_from : option SourceLoc) : option assembler :=
  match lines with
  | [] => Some a
  | line :: lines =>
      a ← parse_line a (strip_return line) (mk_loc file number included_from) dir;
      parse_lines a lines file (number + 1) dir included_from
  end.
End Line.

Fixpoint parse_text (fuel : nat) (a : assembler) (text file dir : string) (included_from : option SourceLoc) : option assembler :=
  match fuel with
  | O => None
  | S fuel => parse_lines (parse_text fuel) a (lines_loop text EmptyString) file 1 dir included_from
  end.
End Files.
