(* ===== verification/V2AsmPasses.v ===== *)
(** * The two passes of the assembler (mzasm_assemble.cpp)

    Mnemonic selection, directive sizes, the encoder, the emission of
    directives, and the passes that walk the statements.  An operation that
    returns false in the source returns [None] here, after the diagnostics it
    reported. *)
From Stdlib Require Import ZArith Lia Bool Ascii.
From stdpp Require Import base list numbers strings gmap pretty.
From S2P Require Import Prelude MzObj V2Opcode V2Mnemonic V2AsmExpr V2AsmSource.

(** ** Operand patterns *)

Inductive Syn : Type := SynReg | SynMemBare | SynMemDisp | SynImm | SynTarget | SynImmAbs.

Definition pattern_for (opcode : Z) : list Syn :=
  if opcode =? kMove then [SynReg; SynReg]
  else if opcode =? kMoveW then [SynImmAbs; SynReg]
  else if opcode =? kPcAdd then [SynTarget; SynReg]
  else if (opcode =? kJumpDisp) || (opcode =? kCallDisp) then [SynTarget]
  else if (opcode =? kJumpReg) || (opcode =? kCallReg) || (opcode =? kSysReg) || (opcode =? kTlbInvalidateAddress) then [SynReg]
  else if opcode =? kSysImm then [SynImm]
  else if opcode =? kCsrRead then [SynImm; SynReg]
  else if opcode =? kCsrWrite then [SynReg; SynImm]
  else if opcode =? kCsrSwap then [SynReg; SynImm; SynReg]
  else if (opcode =? kBlockCopy) || (opcode =? kBlockCopyForward) then [SynMemBare; SynMemBare; SynReg]
  else if opcode =? kBlockSet then [SynReg; SynMemBare; SynReg]
  else if upto kMoveZb kMoveSh opcode then [SynImm; SynReg]
  else if upto kAddImm kShiftRightArithmeticHImm opcode || upto kCompareImmBase (kCompareImmBase + 9) opcode
  then [SynReg; SynImm; SynReg]
  else if upto kBranchBase (kBranchBase + 9) opcode then [SynReg; SynReg; SynTarget]
  else if upto kLoad kLoadSh opcode then [SynMemBare; SynReg]
  else if upto kLoadDisp (kLoadDisp + 6) opcode then [SynMemDisp; SynReg]
  else if upto kStore kStoreH opcode then [SynReg; SynMemBare]
  else if upto kStoreDisp (kStoreDisp + 3) opcode then [SynReg; SynMemDisp]
  else if upto kBitfieldExtract kBitfieldInsert opcode then [SynReg; SynImm; SynImm; SynReg]
  else replicate (sh_operands (shape_info (oi_shape (opcode_info opcode)))) SynReg.

(** ** Evaluation *)

Definition query_of (s : Symbol) : SymbolQuery := mk_query (sy_defined s) (sy_is_constant s) (sy_value s) (sy_section s).
Definition lookup_in_assembler (a : assembler) (name : string) : option SymbolQuery := query_of <$> a_symbols a !! name.

Definition evaluate (a : assembler) (text : string) (w : SourceLoc) : assembler * option ExprValue :=
  match parse_expression (lookup_in_assembler a) (a_address a) text with
  | PDone v _ => (a, Some v)
  | PFail m => (error a w m, None)
  | PFuel => (a, None)
  end.

(** ** Emission *)

(** The vector grows with zeros up to [index], then the byte is appended or
    replaces the one that is there. *)
Definition store_at (l : list Z) (index : Z) (value : Z) : list Z :=
  let l := if Z.of_nat (length l) <? index then l ++ replicate (Z.to_nat index - length l) 0 else l in
  if Z.of_nat (length l) =? index then l ++ [value] else <[Z.to_nat index := value]> l.

Definition section_bytes (a : assembler) (section : Z) : list Z := default [] (a_sections a !! Z.to_nat section).
Definition section_size (a : assembler) (section : Z) : Z := default 0 (a_section_sizes a !! Z.to_nat section).

Definition put_byte (a : assembler) (value : Z) : assembler :=
  if a_second_pass a then
    match a_mode a with
    | Sectioned =>
        let target := store_at (section_bytes a (a_current_section a)) (a_address a) value in
        a <| a_sections := <[Z.to_nat (a_current_section a) := target]> (a_sections a) |>
    | _ => a <| a_flat_image := store_at (a_flat_image a) (u64 (a_address a - a_flat_base a)) value |>
    end
  else a.
Definition emit_byte (a : assembler) (value : Z) : assembler :=
  let a := put_byte a value in a <| a_address := u64 (a_address a + 1) |>.
Definition emit_bytes (a : assembler) (data : list Z) : assembler := foldl emit_byte a data.

(** The little-endian bytes of an immediate. *)
Fixpoint immediate_bytes (value : Z) (bytes : nat) : list Z :=
  match bytes with
  | O => []
  | S bytes => Z.land value 0xFF :: immediate_bytes (Z.shiftr value 8) bytes
  end.
Definition emit_immediate (a : assembler) (value : Z) (bytes : nat) : assembler := emit_bytes a (immediate_bytes value bytes).
Definition reserve_space (a : assembler) (count : Z) : assembler := a <| a_address := u64 (a_address a + count) |>.

(** ** Mnemonic selection *)

Definition has_select (s : Select) (l : list MnemonicEntry) : bool := existsb (fun e => bool_decide (me_select e = s)) l.
Fixpoint pick_select (wanted : Select) (l : list MnemonicEntry) : option Z :=
  match l with
  | [] => None
  | e :: l => if bool_decide (me_select e = wanted) then Some (me_opcode e) else pick_select wanted l
  end.
Fixpoint first_memory (l : list Operand) : option (option (bool * string)) :=
  match l with
  | [] => None
  | o :: l => match o_body o with Memory _ d => Some d | _ => first_memory l end
  end.

(** The sibling that the operand syntax asks for, or a message. *)
Definition wanted_select (s : Statement) (candidates : list MnemonicEntry) : string + Select :=
  let quoted := in_quotes (st_name s) in
  if has_select Bare candidates && has_select Displaced candidates then
    match first_memory (st_operands s) with
    | None => inl (quoted +:+ " takes a memory operand written @rb or @rb+$disp")
    | Some d => inr (match d with Some _ => Displaced | None => Bare end)
    end
  else if has_select RegForm candidates && has_select ImmForm candidates then
    match st_operands s with
    | _ :: o :: _ => inr (if is_expression o then ImmForm else RegForm)
    | _ => inl (quoted +:+ " takes three operands")
    end
  else if has_select RegTarget candidates && has_select DispTarget candidates then
    match st_operands s with
    | [o] => inr (match o_body o with Register _ => RegTarget | _ => DispTarget end)
    | _ => inl (quoted +:+ " takes one operand")
    end
  else inl ("internal: " +:+ quoted +:+ " has siblings with no selection rule").

Definition select_opcode (s : Statement) : string + Z :=
  match mnemonic_candidates (st_name s) with
  | [] => inl (in_quotes (st_name s) +:+ " is not a mnemonic or a directive")
  | [e] =>
      match st_operands s with
      | o :: _ =>
          if bool_decide (st_name s = "move") && is_expression o
          then inl "an immediate move names its width: write move.zb, move.sb, move.zq, move.sq, move.zh, move.sh or move.w rather than a bare move"
          else inr (me_opcode e)
      | [] => inr (me_opcode e)
      end
  | candidates =>
      match wanted_select s candidates with
      | inl m => inl m
      | inr wanted =>
          match pick_select wanted candidates with
          | Some opcode => inr opcode
          | None => inl ("no encoding of " +:+ in_quotes (st_name s) +:+ " takes these operands")
          end
      end
  end.
Definition resolve_opcode (a : assembler) (s : Statement) : assembler * option Z :=
  match select_opcode s with
  | inl m => (error a (st_where s) m, None)
  | inr opcode => (a, Some opcode)
  end.

(** ** Directive sizes *)

Definition data_directive_width (name : string) : nat :=
  if bool_decide (name = "data_byte") then 1
  else if bool_decide (name = "data_quarter_word") then 2
  else if bool_decide (name = "data_half_word") then 4
  else if bool_decide (name = "data_word") then 8 else 0.

Definition padding_to (address alignment : Z) : Z :=
  let remainder := address mod alignment in if remainder =? 0 then 0 else alignment - remainder.

(** data_fill, reserve and align, whose first operand is a constant. *)
Definition counted_size (a : assembler) (s : Statement) (count : Z) : assembler * option Z :=
  let refuse m := (error a (st_where s) m, None) in
  if bool_decide (st_name s = "align") then
    if negb (length (st_operands s) =? 1)%nat then refuse "align takes one constant expression"
    else if (count =? 0) || negb (Z.land count (u64 (count - 1)) =? 0) then refuse "an alignment is a power of two and is never zero"
    else (a, Some (padding_to (a_address a) count))
  else if bool_decide (st_name s = "reserve") then
    if negb (length (st_operands s) =? 1)%nat then refuse "reserve takes one constant expression"
    else if bool_decide (a_mode a = Sectioned) && negb (a_current_section a =? SEC_BSS)
    then refuse "reserve names storage in a bss section; a section that carries bytes cannot use it"
    else (a, Some count)
  else if negb (length (st_operands s) =? 2)%nat then refuse "data_fill takes a count and a value"
  else (a, Some count).

Definition directive_size (a : assembler) (s : Statement) : assembler * option Z :=
  let name := st_name s in
  let refuse m := (error a (st_where s) m, None) in
  let width := data_directive_width name in
  if bool_decide (a_mode a = Sectioned) && (a_current_section a =? SEC_BSS)
     && negb (bool_decide (name ∈ ["reserve"; "align"; "constant"; "global"; "extern"]))
  then refuse "the bss section holds no emitted bytes, so reserve and align are the only directives legal inside it"
  else if negb (width =? 0)%nat then
    match st_operands s with
    | [] => refuse (name +:+ " takes one or more expressions")
    | l => (a, Some (Z.of_nat (length l) * Z.of_nat width))
    end
  else if bool_decide (name ∈ ["data_string"; "data_string_zero"]) then
    match st_operands s with
    | [mk_operand _ (StringText value)] =>
        (a, Some (Z.of_nat (length value) + if bool_decide (name = "data_string_zero") then 1 else 0))
    | _ => refuse (name +:+ " takes exactly one string literal")
    end
  else if bool_decide (name ∈ ["data_fill"; "reserve"; "align"]) then
    match st_operands s with
    | o :: _ =>
        if negb (is_expression o) then refuse (name +:+ " takes a constant expression")
        else match evaluate a (expression_text o) (st_where s) with
             | (a, None) => (a, None)
             | (a, Some count) =>
                 if is_relocatable count then (error a (st_where s) (name +:+ " takes a constant expression"), None)
                 else counted_size a s (ev_constant count)
             end
    | [] => refuse (name +:+ " takes a constant expression")
    end
  else refuse (in_quotes name +:+ " is not a directive").

(** ** Pass 1: addresses *)

(** The walk's own variables beside the assembler's. *)
Record pass1 : Type := mk_pass1 { p1_asm : assembler; p1_counters : list Z; p1_pending : bool }.

Definition counter (l : list Z) (section : Z) : Z := default 0 (l !! Z.to_nat section).

Definition pass_one_label (p : pass1) (s : Statement) : pass1 * Statement :=
  let a := p1_asm p in
  let s := s <| st_address := a_address a |> in
  let symbol := default fresh_symbol (a_symbols a !! st_name s) in
  if sy_defined symbol
  then (mk_pass1 (error a (st_where s) (in_quotes (st_name s) +:+ " is already defined")) (p1_counters p) (p1_pending p), s)
  else
    let symbol := mk_symbol (st_name s) (a_address a) (a_current_section a) true (sy_exported symbol)
                            (sy_external symbol) (sy_is_constant symbol) (st_where s) in
    (mk_pass1 (a <| a_symbols := <[st_name s := symbol]> (a_symbols a) |>) (p1_counters p) (p1_pending p), s).

Definition mixed_placement : string := "a module cannot mix origin and section; both answer the same placement question".

Definition pass_one_section (p : pass1) (s : Statement) : pass1 * Statement :=
  let a := p1_asm p in
  let keep a := mk_pass1 a (p1_counters p) (p1_pending p) in
  if bool_decide (a_mode a = Flat) then (keep (error a (st_where s) mixed_placement), s)
  else match st_operands s with
  | [mk_operand _ (SectionKind kind)] =>
      let counters := <[Z.to_nat (a_current_section a) := a_address a]> (p1_counters p) in
      let a := ((a <| a_mode := Sectioned |>) <| a_current_section := kind |>) <| a_address := counter counters kind |> in
      (mk_pass1 a counters (p1_pending p), s <| st_section := kind |>)
  | _ => (keep (error a (st_where s) "section takes one of code, rodata, data or bss"), s)
  end.

Definition pass_one_origin (p : pass1) (s : Statement) : pass1 * Statement :=
  let a := p1_asm p in
  let keep a := mk_pass1 a (p1_counters p) (p1_pending p) in
  if bool_decide (a_mode a = Sectioned) then (keep (error a (st_where s) mixed_placement), s)
  else
    let a := a <| a_mode := Flat |> in
    match st_operands s with
    | [o] =>
        if negb (is_expression o) then (keep (error a (st_where s) "origin takes one constant expression"), s)
        else match evaluate a (expression_text o) (st_where s) with
        | (a, None) => (keep a, s)
        | (a, Some value) =>
            if is_relocatable value then (keep (error a (st_where s) "origin takes a constant expression"), s)
            else
              let a := a <| a_address := ev_constant value |> in
              if p1_pending p then
                (mk_pass1 ((a <| a_flat_base := a_address a |>) <| a_flat_base_set := true |>) (p1_counters p) false,
                 s <| st_address := a_address a |>)
              else if a_address a <? a_flat_base a
              then (keep (error a (st_where s) "origin moves below the start of the image"), s)
              else (keep a, s <| st_address := a_address a |>)
        end
    | _ => (keep (error a (st_where s) "origin takes one constant expression"), s)
    end.

(** A module that places bytes without [section] is flat, and its first such
    statement fixes the base. *)
Definition decide_flat (p : pass1) (decides : bool) : pass1 :=
  let a := p1_asm p in
  let a := if bool_decide (a_mode a = Undecided) && decides then a <| a_mode := Flat |> else a in
  if p1_pending p && bool_decide (a_mode a = Flat)
  then mk_pass1 ((a <| a_flat_base := a_address a |>) <| a_flat_base_set := true |>) (p1_counters p) false
  else mk_pass1 a (p1_counters p) (p1_pending p).

Definition pass_one_constant (a : assembler) (s : Statement) : assembler :=
  let refuse := error a (st_where s) in
  match st_operands s with
  | [o; e] =>
      let name := o_text o in
      if match o_body o with Register _ => true | _ => is_reserved_word name end
      then refuse (in_quotes name +:+ " is a reserved word and cannot be defined as a constant")
      else if negb (is_identifier name) then refuse (in_quotes name +:+ " is not an identifier")
      else if match a_symbols a !! name with Some y => sy_defined y | None => false end
      then refuse (in_quotes name +:+ " is already defined; a second value gets a second name")
      else if negb (is_expression e) then refuse "constant takes a constant expression"
      else match evaluate a (expression_text e) (st_where s) with
      | (a, None) => a
      | (a, Some value) =>
          if is_relocatable value
          then error a (st_where s) ("constant takes a constant expression, and " +:+ in_quotes (o_text e) +:+ " is relocatable")
          else
            let symbol := default fresh_symbol (a_symbols a !! name) in
            let symbol := mk_symbol name (ev_constant value) SEC_NULL true (sy_exported symbol) (sy_external symbol) true (st_where s) in
            a <| a_symbols := <[name := symbol]> (a_symbols a) |>
      end
  | _ => refuse "constant takes an identifier and a constant expression"
  end.

Definition pass_one_linkage (a : assembler) (s : Statement) : assembler :=
  match st_operands s with
  | [o] =>
      let name := o_text o in
      if negb (is_identifier name) || is_reserved_word name
      then error a (st_where s) (in_quotes name +:+ " is not a symbol name")
      else
        let symbol := (default fresh_symbol (a_symbols a !! name)) <| sy_name := name |> in
        let symbol := if bool_decide (st_name s = "global") then symbol <| sy_exported := true |>
                      else (symbol <| sy_external := true |>) <| sy_section := SEC_NULL |> in
        a <| a_symbols := <[name := symbol]> (a_symbols a) |>
  | _ => error a (st_where s) (st_name s +:+ " takes one identifier")
  end.

Definition pass_one_directive (p : pass1) (s : Statement) : pass1 * Statement :=
  let name := st_name s in
  if bool_decide (name = "section") then pass_one_section p s
  else if bool_decide (name = "origin") then pass_one_origin p s
  else
    let s := s <| st_address := a_address (p1_asm p) |> in
    let binding := bool_decide (name ∈ ["constant"; "global"; "extern"]) in
    let p := decide_flat p (negb binding) in
    let keep a := mk_pass1 a (p1_counters p) (p1_pending p) in
    let a := p1_asm p in
    if bool_decide (name = "constant") then (keep (pass_one_constant a s), s)
    else if bool_decide (name = "global") || bool_decide (name = "extern") then (keep (pass_one_linkage a s), s)
    else match directive_size a s with
    | (a, None) => (keep a, s)
    | (a, Some size) => (keep (a <| a_address := u64 (a_address a + size) |>), s)
    end.

Definition pass_one_instruction (p : pass1) (s : Statement) : pass1 * Statement :=
  let s := s <| st_address := a_address (p1_asm p) |> in
  let p := decide_flat p true in
  let a := p1_asm p in
  let keep a := mk_pass1 a (p1_counters p) (p1_pending p) in
  if bool_decide (a_mode a = Sectioned) && negb (a_current_section a =? SEC_CODE)
  then (keep (error a (st_where s) "instructions are legal in the code section only"), s)
  else match resolve_opcode a s with
  | (a, None) => (keep a, s)
  | (a, Some opcode) =>
      let s := (s <| st_opcode := opcode |>) <| st_length := oi_length (opcode_info opcode) |> in
      (keep (a <| a_address := u64 (a_address a + st_length s) |>), s)
  end.

Definition pass_one_statement (p : pass1) (s : Statement) : pass1 * Statement :=
  let s := s <| st_section := a_current_section (p1_asm p) |> in
  match st_kind s with
  | Label => pass_one_label p s
  | Directive => pass_one_directive p s
  | Instruction => pass_one_instruction p s
  end.

Fixpoint pass_one_loop (p : pass1) (l : list Statement) : pass1 * list Statement :=
  match l with
  | [] => (p, [])
  | s :: l =>
      let '(p, s) := pass_one_statement p s in
      let '(p, l) := pass_one_loop p l in (p, s :: l)
  end.

Definition pass_one (a : assembler) : assembler :=
  let start := ((a <| a_second_pass := false |>) <| a_address := 0 |>) <| a_current_section := 0 |> in
  let '(p, l) := pass_one_loop (mk_pass1 start (replicate 5 0) true) (a_statements a) in
  let a := (p1_asm p) <| a_statements := l |> in
  let counters := <[Z.to_nat (a_current_section a) := a_address a]> (p1_counters p) in
  let a := a <| a_section_sizes := counters |> in
  let a := if bool_decide (a_mode a = Undecided) then a <| a_mode := Flat |> else a in
  if p1_pending p then a <| a_flat_base := 0 |> else a.

(** ** Relocations *)

Definition add_relocation (a : assembler) (offset : Z) (symbol : string) (type addend : Z) (w : SourceLoc) : assembler :=
  if negb (bool_decide (a_mode a = Sectioned))
  then error a w (in_quotes symbol +:+ " needs a relocation, which only a section-mode module can carry; a flat image is loaded exactly as it is assembled")
  else a <| a_relocations := a_relocations a ++ [mk_relocation (a_current_section a) offset symbol type addend] |>.

(** ** Instruction encoding *)

(** The operand bytes and the immediates (value and width) collected so far. *)
Record pending : Type := mk_pending { pn_operands : list Z; pn_immediates : list (Z * nat) }.

Definition target_is_literal_displacement (text : string) : bool :=
  match text with String c _ => is_char 0x23 c || is_char 0x24 c || is_char 0x25 c | EmptyString => false end.

(** What a sliced slot asks for: its letter, the largest index, the width. *)
Definition slot_slice (slot : Slot) : string * Z * SliceWidth :=
  match slot with
  | ByteSliced => ("b", 7, SliceByte)
  | QuarterSliced => ("q", 3, SliceQuarter)
  | HalfSliced => ("h", 1, SliceHalf)
  | _ => (EmptyString, 0, SliceByte)
  end.

Section Encode.
Context (s : Statement).
Let w := st_where s.
Let info := opcode_info (st_opcode s).
Let shape := shape_info (oi_shape info).

Definition next_immediate_offset (k : pending) : Z :=
  u64 (st_address s + 1 + Z.of_nat (sh_operands shape) + Z.of_nat (sum_list (snd <$> pn_immediates k))).
Definition immediate_width (k : pending) : nat := default 0%nat (sh_immediates shape !! length (pn_immediates k)).

Definition push_operand (k : pending) (b : Z) : pending := mk_pending (pn_operands k ++ [b]) (pn_immediates k).
Definition push_immediate (k : pending) (value : Z) : pending :=
  mk_pending (pn_operands k) (pn_immediates k ++ [(value, immediate_width k)]).
Definition width_text (k : pending) : string := pretty (Z.of_nat (immediate_width k) * 8).
Definition fits_field (k : pending) (value : Z) : bool := field_fits value (Z.of_nat (immediate_width k) * 8).

Definition encode_register (k : pending) (o : Operand) : string + pending :=
  let quoted := in_quotes (o_text o) in
  let slot := default SlotNone (oi_slots info !! length (pn_operands k)) in
  if bool_decide (slot = Plain) then
    match o_body o with
    | Register reg => inr (push_operand k reg)
    | Slice _ _ _ => inl (quoted +:+ " is a slice, and this operand slot names a whole register")
    | _ => inl (quoted +:+ " is not a register")
    end
  else
    match o_body o with
    | Slice reg width index =>
        let '(expected, limit, wanted) := slot_slice slot in
        if negb (bool_decide (width = wanted)) then inl (quoted +:+ " is sliced at the wrong width; this slot takes ." +:+ expected)
        else if limit <? index
        then inl (quoted +:+ " names element " +:+ pretty index +:+ ", and this slot admits 0 through " +:+ pretty limit)
        else inr (push_operand k (u8 (Z.lor reg (Z.shiftl index 5))))
    | _ => inl (quoted +:+ " names a whole register, and this operand slot is sliced; write the element, as in r3.b5")
    end.

Definition encode_memory (a : assembler) (k : pending) (displaced : bool) (o : Operand) : assembler * option pending :=
  let quoted := in_quotes (o_text o) in
  match o_body o with
  | Memory reg displacement =>
      if negb displaced then
        match displacement with
        | Some _ => (error a w (quoted +:+ " carries a displacement this form has no field for"), None)
        | None => (a, Some (push_operand k reg))
        end
      else
        let '(negated, text) := default (false, EmptyString) displacement in
        match evaluate a text w with
        | (a, None) => (a, None)
        | (a, Some value) =>
            let k := push_operand k reg in
            if is_relocatable value then (error a w "a memory displacement takes a constant expression", None)
            else
              let displacement := if negated : bool then u64 (- i64 (ev_constant value)) else ev_constant value in
              if negb (fits_field k displacement)
              then (error a w ("the displacement in " +:+ quoted +:+ " does not fit the " +:+ width_text k +:+
                               "-bit field, and the assembler never truncates one"), None)
              else (a, Some (push_immediate k displacement))
        end
  | _ => (error a w (quoted +:+ " is not a memory operand; write @rb or @rb+$disp"), None)
  end.

Definition encode_immediate (a : assembler) (k : pending) (o : Operand) : assembler * option pending :=
  let quoted := in_quotes (o_text o) in
  if negb (is_expression o) then (error a w (quoted +:+ " is not an expression; this operand is an immediate"), None)
  else match evaluate a (expression_text o) w with
  | (a, None) => (a, None)
  | (a, Some value) =>
      if is_relocatable value
      then (error a w (quoted +:+ " is relocatable, and only move.w's immediate and a target slot accept one"), None)
      else if negb (fits_field k (ev_constant value))
      then (error a w (quoted +:+ " does not fit the " +:+ width_text k +:+
                       "-bit field, and the assembler never truncates a literal to make it fit"), None)
      else (a, Some (push_immediate k (ev_constant value)))
  end.

Definition encode_absolute (a : assembler) (k : pending) (o : Operand) : assembler * option pending :=
  if negb (is_expression o)
  then (error a w (in_quotes (o_text o) +:+ " is not an expression; move.w takes a 64-bit immediate"), None)
  else match evaluate a (expression_text o) w with
  | (a, None) => (a, None)
  | (a, Some value) =>
      if is_relocatable value
      then (add_relocation a (next_immediate_offset k) (ev_symbol value) R_MAIZE_ABS64 (i64 (ev_constant value)) w,
            Some (push_immediate k 0))
      else (a, Some (push_immediate k (ev_constant value)))
  end.

(** A target given as an address: the displacement from the next
    instruction. *)
Definition encode_address (a : assembler) (k : pending) (o : Operand) (target : Z) : assembler * option pending :=
  let displacement := i64 (i64 target - i64 (u64 (st_address s + st_length s))) in
  if (displacement <? -2147483648) || (2147483647 <? displacement)
  then (error a w ("the displacement to " +:+ in_quotes (o_text o) +:+
                   " does not fit a signed 32-bit field, and the assembler does not rewrite one instruction into several"), None)
  else (a, Some (push_immediate k (u64 displacement))).

Definition encode_target (a : assembler) (k : pending) (o : Operand) : assembler * option pending :=
  let quoted := in_quotes (o_text o) in
  if negb (is_expression o) then (error a w (quoted +:+ " is not a target"), None)
  else match evaluate a (expression_text o) w with
  | (a, None) => (a, None)
  | (a, Some value) =>
      if target_is_literal_displacement (expression_text o) then
        if negb (fits_field k (ev_constant value))
        then (error a w (quoted +:+ " does not fit the " +:+ width_text k +:+ "-bit displacement field"), None)
        else (a, Some (push_immediate k (ev_constant value)))
      else if is_relocatable value then
        match a_symbols a !! ev_symbol value with
        | Some y =>
            if sy_defined y && (sy_section y =? a_current_section a)
            then encode_address a k o (u64 (ev_constant value + sy_value y))
            else (add_relocation a (next_immediate_offset k) (ev_symbol value) R_MAIZE_REL32 (i64 (ev_constant value)) w,
                  Some (push_immediate k 0))
        | None => (add_relocation a (next_immediate_offset k) (ev_symbol value) R_MAIZE_REL32 (i64 (ev_constant value)) w,
                   Some (push_immediate k 0))
        end
      else encode_address a k o (ev_constant value)
  end.

Definition encode_operand (a : assembler) (k : pending) (syn : Syn) (o : Operand) : assembler * option pending :=
  match syn with
  | SynReg => match encode_register k o with inl m => (error a w m, None) | inr k => (a, Some k) end
  | SynMemBare => encode_memory a k false o
  | SynMemDisp => encode_memory a k true o
  | SynImm => encode_immediate a k o
  | SynImmAbs => encode_absolute a k o
  | SynTarget => encode_target a k o
  end.

Fixpoint encode_operands (a : assembler) (k : pending) (pattern : list Syn) (l : list Operand) : assembler * option pending :=
  match pattern, l with
  | syn :: pattern, o :: l =>
      match encode_operand a k syn o with
      | (a, None) => (a, None)
      | (a, Some k) => encode_operands a k pattern l
      end
  | _, _ => (a, Some k)
  end.

Definition instruction_bytes (k : pending) : list Z :=
  st_opcode s :: pn_operands k ++ concat ((fun i => immediate_bytes (fst i) (snd i)) <$> pn_immediates k).

Definition encode_instruction (a : assembler) : assembler :=
  let pattern := pattern_for (st_opcode s) in
  if negb (length (st_operands s) =? length pattern)%nat
  then error a w (in_quotes (st_name s) +:+ " takes " +:+ pretty (Z.of_nat (length pattern)) +:+ " operand" +:+
                  (if (length pattern =? 1)%nat then EmptyString else "s") +:+ ", not " +:+ pretty (Z.of_nat (length (st_operands s))))
  else match encode_operands a (mk_pending [] []) pattern (st_operands s) with
  | (a, None) => a
  | (a, Some k) =>
      if negb (length (pn_operands k) =? sh_operands shape)%nat || negb (length (pn_immediates k) =? length (sh_immediates shape))%nat
      then error a w ("internal: the assembly form of " +:+ in_quotes (st_name s) +:+ " does not match the shape its opcode declares")
      else emit_bytes a (instruction_bytes k)
  end.
End Encode.

(** ** Directive emission *)

Definition emit_align (a : assembler) (s : Statement) : assembler :=
  match st_operands s with
  | [] => a
  | o :: _ =>
      match evaluate a (expression_text o) (st_where s) with
      | (a, None) => a
      | (a, Some alignment) =>
          let padding := padding_to (a_address a) (ev_constant alignment) in
          let code_like := bool_decide (a_mode a = Flat) || (a_current_section a =? SEC_CODE) in
          if bool_decide (a_mode a = Sectioned) && (a_current_section a =? SEC_BSS) then reserve_space a padding
          else emit_bytes a (replicate (Z.to_nat padding) (if code_like then kNop else 0))
      end
  end.

Definition emit_reserve (a : assembler) (s : Statement) : assembler :=
  match st_operands s with
  | [] => a
  | o :: _ =>
      match evaluate a (expression_text o) (st_where s) with
      | (a, None) => a
      | (a, Some count) => reserve_space a (ev_constant count)
      end
  end.

Definition emit_string (a : assembler) (s : Statement) : assembler :=
  match st_operands s with
  | mk_operand _ (StringText value) :: _ =>
      emit_bytes a (value ++ if bool_decide (st_name s = "data_string_zero") then [0] else [])
  | _ => a
  end.

Definition emit_fill (a : assembler) (s : Statement) : assembler :=
  match st_operands s with
  | o :: o' :: _ =>
      match evaluate a (expression_text o) (st_where s) with
      | (a, None) => a
      | (a, Some count) =>
          match evaluate a (expression_text o') (st_where s) with
          | (a, None) => a
          | (a, Some value) =>
              if is_relocatable value || negb (field_fits (ev_constant value) 8)
              then error a (st_where s) "a data_fill value accepts the byte range, -128 through 255"
              else emit_bytes a (replicate (Z.to_nat (ev_constant count)) (Z.land (ev_constant value) 0xFF))
          end
      end
  | _ => a
  end.

(** One operand of a width directive; [None] ends the directive. *)
Definition emit_datum (a : assembler) (width : nat) (w : SourceLoc) (o : Operand) : assembler * bool :=
  let quoted := in_quotes (o_text o) in
  if negb (is_expression o) then (error a w (quoted +:+ " is not an expression"), false)
  else match evaluate a (expression_text o) w with
  | (a, None) => (a, false)
  | (a, Some value) =>
      if is_relocatable value then
        if negb (width =? 4)%nat && negb (width =? 8)%nat
        then (error a w (quoted +:+ " is relocatable, and no relocation is defined at " +:+ pretty (Z.of_nat width * 8) +:+ " bits"), false)
        else
          let a := add_relocation a (a_address a) (ev_symbol value) (if (width =? 4)%nat then R_MAIZE_ABS32 else R_MAIZE_ABS64)
                                  (i64 (ev_constant value)) w in
          (emit_immediate a 0 width, true)
      else if negb (field_fits (ev_constant value) (Z.of_nat width * 8))
      then (error a w (quoted +:+ " does not fit the " +:+ pretty (Z.of_nat width * 8) +:+
                       "-bit field this directive emits, and the assembler never truncates one"), false)
      else (emit_immediate a (ev_constant value) width, true)
  end.
Fixpoint emit_data (a : assembler) (width : nat) (w : SourceLoc) (l : list Operand) : assembler :=
  match l with
  | [] => a
  | o :: l => match emit_datum a width w o with (a, true) => emit_data a width w l | (a, false) => a end
  end.

Definition emit_directive (a : assembler) (s : Statement) : assembler :=
  let name := st_name s in
  if bool_decide (name ∈ ["constant"; "global"; "extern"]) then a
  else if bool_decide (name = "align") then emit_align a s
  else if bool_decide (name = "reserve") then emit_reserve a s
  else if bool_decide (name ∈ ["data_string"; "data_string_zero"]) then emit_string a s
  else if bool_decide (name = "data_fill") then emit_fill a s
  else
    let width := data_directive_width name in
    if (width =? 0)%nat then error a (st_where s) (in_quotes name +:+ " is not a directive")
    else emit_data a width (st_where s) (st_operands s).

(** ** Pass 2: bytes *)

Definition pass_two_statement (q : assembler * list Z) (s : Statement) : assembler * list Z :=
  let '(a, counters) := q in
  match st_kind s with
  | Label => (a, counters)
  | Directive =>
      if bool_decide (st_name s = "section") then
        let counters := <[Z.to_nat (a_current_section a) := a_address a]> counters in
        ((a <| a_current_section := st_section s |>) <| a_address := counter counters (st_section s) |>, counters)
      else if bool_decide (st_name s = "origin") then (a <| a_address := st_address s |>, counters)
      else (emit_directive a s, counters)
  | Instruction => if st_length s =? 0 then (a, counters) else (encode_instruction s a, counters)
  end.

Definition pass_two_start (a : assembler) : assembler * list Z :=
  (((a <| a_second_pass := true |>) <| a_address := match a_mode a with Flat => a_flat_base a | _ => 0 end |>)
     <| a_current_section := 0 |>, replicate 5 0).
Definition pass_two (a : assembler) : assembler := (foldl pass_two_statement (pass_two_start a) (a_statements a)).1.

(** ** Entry points *)

(** The text of a module to the finished assembler; [no_diags] of it is what
    assemble_text returns. *)
Definition assemble_text (fs : file_system) (fuel : nat) (a : assembler) (text name base_path : string) : option assembler :=
  a ← parse_text fs fuel a text name base_path None;
  let a := pass_one a in
  Some (if no_diags a then pass_two a else a).

Definition assemble_file (fs : file_system) (fuel : nat) (a : assembler) (path : string) : option assembler :=
  match fs_read fs path with
  | None => Some (error a (mk_loc path 0 None) ("cannot read " +:+ in_quotes path))
  | Some text =>
      let key := fs_canonical fs path in
      assemble_text fs fuel (a <| a_include_stack := {[ key ]} ∪ a_include_stack a |>) text key (fs_parent fs path)
  end.
