(* ===== verification/V2AsmExprProps.v ===== *)
(** * The expression parser: it ends, its values are words, its constants are
    settled

    Three facts about mzasm_lexer.cpp, each by one walk over the levels.  The
    parser always returns: a parenthesis, an operator or a sign consumes
    text.  Two evaluations of one text under two symbol tables agree wherever
    both succeed and the relation [R] is kept by the leaves and the operators;
    with the table equal to itself this gives the width of every value, with a
    table and one that extends it that a constant never changes. *)
From Stdlib Require Import ZArith Lia Bool Ascii.
From stdpp Require Import base list numbers strings.
From S2P Require Import Prelude V2Opcode V2AsmExpr V2Csr V2Interp V2Word.

Abbreviation strlen := String.length.

(** ** The parser returns *)

(** A result that is not out of fuel and, on success, has consumed text. *)
Definition progress {A} (s : string) (r : presult A) : Prop :=
  match r with PFuel => False | PFail _ => True | PDone _ rest => (strlen rest < strlen s)%nat end.
Definition returns_below (n : nat) (p : string -> presult ExprValue) : Prop :=
  forall s, (strlen s < n)%nat -> progress s (p s).
Definition shrinks (operator : string -> option (bool * string)) : Prop :=
  forall s o r, operator s = Some (o, r) -> (strlen r < strlen s)%nat.

Lemma progress_bind {A B} s (e : presult A) (k : A -> string -> presult B) :
  progress s e -> (forall v r, (strlen r < strlen s)%nat -> progress s (k v r)) -> progress s (pbind e k).
Proof. destruct e; simpl; auto. Qed.
Lemma progress_le {A} s s' (r : presult A) : progress s r -> (strlen s <= strlen s')%nat -> progress s' r.
Proof. destruct r; simpl; [done..|lia]. Qed.

Lemma scan_digits_length base s d p w d' p' w' rest :
  scan_digits base s d p w = inr (d', p', w', rest) -> (strlen rest <= strlen s)%nat.
Proof.
  revert d p w. induction s as [|c s IH]; intros d p w; simpl; [by intros [= <- <- <- <-]|].
  repeat case_match; intros H'; simplify_eq; simpl; try lia; apply IH in H'; lia.
Qed.
Lemma scan_identifier_length s : (strlen (scan_identifier s).2 <= strlen s)%nat.
Proof. induction s as [|c s IH]; simpl; [done|]. destruct (ident_char c); simpl; [|done]. destruct (scan_identifier s); simpl in *; lia. Qed.
Lemma decode_escape_length s z r : decode_escape s = Some (z, r) -> (strlen r < strlen s)%nat.
Proof.
  unfold decode_escape. intros H. repeat case_match; try discriminate H; injection H as <- <-;
    simpl; lia.
Qed.

Lemma number_literal_progress base name neg c r s :
  (strlen s <= strlen r)%nat -> progress (String c r) (number_literal base name neg s).
Proof.
  intros Hs. unfold number_literal. destruct (scan_digits base s EmptyString true false) as [m|[[[d p] w] rest]] eqn:E; [done|].
  apply scan_digits_length in E. destruct (negb w); [done|]. destruct p; [done|]. simpl. lia.
Qed.
Lemma parse_number_progress c r : progress (String c r) (parse_number c r).
Proof.
  unfold parse_number. destruct (if is_char 36 c then _ else _) as [base name].
  destruct r as [|d r]; [by apply number_literal_progress|].
  destruct (is_char 45 d); [|destruct (is_char 43 d)]; apply number_literal_progress; simpl; lia.
Qed.
Lemma parse_character_progress q r : progress (String q r) (parse_character r).
Proof.
  unfold parse_character. destruct r as [|c r]; [done|].
  destruct (is_char 92 c).
  - destruct (decode_escape (String c r)) as [[z r']|] eqn:E; [|done]. apply decode_escape_length in E.
    destruct r' as [|x r']; [done|]. destruct (is_char 39 x); simpl in *; [lia|done].
  - destruct (255 <? code c); [done|]. destruct r as [|x r]; [done|]. destruct (is_char 39 x); simpl; [lia|done].
Qed.

Lemma chain_progress n f s0 op operand comb out s :
  shrinks op -> returns_below n operand -> (strlen s < strlen s0)%nat -> (strlen s0 <= n)%nat -> (strlen s <= f)%nat ->
  progress s0 (chain f op operand comb out s).
Proof.
  intros Hop Hopd. revert out s. induction f as [|f IH]; intros out s Hs Hn Hf; simpl; destruct (op s) as [[o r]|] eqn:E; try done.
  - apply Hop in E. lia.
  - apply Hop in E. specialize (Hopd r ltac:(lia)). destruct (operand r) as [|m|v r']; simpl in *; [done..|].
    destruct (comb o out v); [done|]. apply IH; lia.
Qed.
Lemma level_returns n op operand comb : shrinks op -> returns_below n operand -> returns_below n (level op operand comb).
Proof.
  intros Hop Hopd s Hs. unfold level. pose proof (Hopd s Hs) as H. destruct (operand s) as [|m|v r]; simpl in *; [done..|].
  apply (chain_progress n); [done..|lia|lia].
Qed.
Lemma two_operators_shrinks y n : shrinks (two_operators y n).
Proof. intros [|c s] o r; simpl; [done|]. repeat case_match; intros; simplify_eq; lia. Qed.
Lemma shift_operator_shrinks : shrinks shift_operator.
Proof. intros [|c [|d s]] o r; simpl; [done..|]. repeat case_match; intros; simplify_eq; lia. Qed.
#[local] Hint Resolve level_returns two_operators_shrinks shift_operator_shrinks : core.

Section Returns.
Context (lookup : string -> option SymbolQuery) (here : Z).

Lemma symbol_leaf_progress s name rest : (strlen rest < strlen s)%nat -> progress s (symbol_leaf lookup here name rest).
Proof. intros. unfold symbol_leaf. by repeat case_match. Qed.
Lemma parse_primary_returns n nested : returns_below n nested -> returns_below (S n) (parse_primary lookup here nested).
Proof.
  intros Hn [|c s] Hs; simpl in *; [done|]. destruct (is_char 40 c).
  - pose proof (Hn s ltac:(lia)) as H. destruct (nested s) as [|m|v r]; simpl in *; [done..|].
    destruct r as [|p r]; [done|]. destruct (is_char 41 p); simpl in *; [lia|done].
  - destruct (is_char 35 c || _ || _); [apply parse_number_progress|].
    destruct (is_char 39 c); [apply parse_character_progress|]. destruct (isdigit c); [done|].
    destruct (isalpha c || is_char 95 c) eqn:E; [|done].
    assert (Hc : ident_char c = true).
    { unfold ident_char, isalnum. apply orb_true_iff in E as [-> | ->]; [done|]. by rewrite orb_true_r. }
    rewrite Hc. pose proof (scan_identifier_length s) as H. destruct (scan_identifier s) as [name rest]; simpl in H.
    apply symbol_leaf_progress. simpl. lia.
Qed.
Lemma parse_unary_returns n nested : returns_below n nested -> returns_below (S n) (parse_unary lookup here nested).
Proof.
  intros Hn s. induction s as [|c s IH]; intros Hs; [by apply (parse_primary_returns n)|]. simpl in Hs.
  cbn [parse_unary]. pose proof (IH ltac:(lia)) as H.
  destruct (is_char 45 c); [|destruct (is_char 126 c); [|by apply (parse_primary_returns n)]].
  all: eapply progress_bind; [eapply progress_le; [exact H|simpl; lia]|]; intros v r Hr; by destruct (is_relocatable v).
Qed.
Lemma parse_nested_returns fuel : returns_below fuel (parse_nested lookup here fuel).
Proof.
  induction fuel as [|n IH]; [intros s Hs; lia|]. cbn [parse_nested].
  pose proof (parse_unary_returns n _ IH).
  unfold parse_or, parse_xor, parse_and, parse_shift, parse_additive, parse_multiplicative, one_operator.
  change (fun s => ?f s) with f. repeat (apply level_returns; [by auto|]). done.
Qed.

(** Every expression evaluates: the parser's fuel is enough. *)
Lemma parse_expression_returns text : parse_expression lookup here text <> PFuel.
Proof.
  unfold parse_expression. pose proof (parse_nested_returns (S (strlen text)) text ltac:(lia)) as H.
  destruct (parse_nested _ _ _ _) as [|m|v r]; [done..|]. cbn [pbind]. by destruct (str_empty r).
Qed.
End Returns.

(** ** Two evaluations of one text *)

(** Results that, where both succeed, leave the same text and related values. *)
Definition related (R : ExprValue -> ExprValue -> Prop) (r r' : presult ExprValue) : Prop :=
  match r, r' with
  | PDone v s, PDone v' s' => s = s' /\ R v v'
  | _, _ => True
  end.
Definition keeps (R : ExprValue -> ExprValue -> Prop) (c c' : bool -> ExprValue -> ExprValue -> string + ExprValue) : Prop :=
  forall o v v' x x' y y', R v v' -> R x x' -> c o v x = inr y -> c' o v' x' = inr y' -> R y y'.

Section Relational.
Context (R : ExprValue -> ExprValue -> Prop).

Lemma related_bind r r' k k' :
  related R r r' -> (forall v v' s, R v v' -> related R (k v s) (k' v' s)) -> related R (pbind r k) (pbind r' k').
Proof.
  destruct r as [|m|v s], r' as [|m'|v' s']; simpl; try done; try (by intros; destruct (k _ _)).
  intros [-> H] Hk. by apply Hk.
Qed.
Lemma chain_related f op p p' c c' out out' s :
  (forall s, related R (p s) (p' s)) -> keeps R c c' -> R out out' -> related R (chain f op p c out s) (chain f op p' c' out' s).
Proof.
  intros Hp Hc. revert out out' s. induction f as [|f IH]; intros out out' s Ho; simpl; destruct (op s) as [[o r]|]; try (by simpl).
  apply related_bind; [apply Hp|]. intros v v' t Hv.
  destruct (c o out v) as [m|y] eqn:E; [done|]. destruct (c' o out' v') as [m'|y'] eqn:E'; [by destruct (chain _ _ _ _ _ _)|].
  apply IH. exact (Hc _ _ _ _ _ _ _ Ho Hv E E').
Qed.
Lemma level_related op p p' c c' s :
  (forall s, related R (p s) (p' s)) -> keeps R c c' -> related R (level op p c s) (level op p' c' s).
Proof. intros Hp Hc. apply related_bind; [apply Hp|]. intros. by apply chain_related. Qed.

(** A relation that leaves and sums keep under two symbol tables, and that on
    constants is equality; [strict] asks that they are words too. *)
Context (strict : bool).
Definition sound (z : Z) : Prop := strict = true -> word z.
Record keeps_leaves (lookup lookup' : string -> option SymbolQuery) (here here' : Z) : Prop := mk_keeps {
  kl_equal : forall v v', R v v' -> is_relocatable v = false -> v = v' /\ sound (ev_constant v);
  kl_sound : forall z, sound z -> R (constant_value z) (constant_value z);
  kl_leaf : forall c name rest, related R (symbol_leaf lookup here (String c name) rest) (symbol_leaf lookup' here' (String c name) rest);
  kl_add : keeps R (combine_additive lookup) (combine_additive lookup') }.

Lemma sound_word z : word z -> sound z.
Proof. by intros ??. Qed.

Section Levels.
Context (lookup lookup' : string -> option SymbolQuery) (here here' : Z).
Context (K : keeps_leaves lookup lookup' here here').

Lemma constants_keep name f :
  (forall x y z, sound x -> sound y -> f x y = inr z -> sound z) -> keeps R (fun _ => on_constants name f) (fun _ => on_constants name f).
Proof.
  intros Hf o v v' x x' y y' Hv Hx. unfold on_constants.
  destruct (is_relocatable v) eqn:Ev; [done|]. destruct (is_relocatable x) eqn:Ex; [done|].
  destruct (kl_equal _ _ _ _ K _ _ Hv Ev) as [<- Sv], (kl_equal _ _ _ _ K _ _ Hx Ex) as [<- Sx]. rewrite Ev, Ex.
  destruct (f (ev_constant v) (ev_constant x)) as [m|z] eqn:E; intros [= <-] [= <-].
  apply (kl_sound _ _ _ _ K). by eapply Hf in E.
Qed.
Lemma constant_related z rest rest' : sound z -> rest = rest' -> related R (PDone (constant_value z) rest) (PDone (constant_value z) rest').
Proof. intros. split; [done|]. by apply (kl_sound _ _ _ _ K). Qed.

Lemma parse_number_related c r : related R (parse_number c r) (parse_number c r).
Proof.
  assert (Hw : forall base ds z, word z -> word (digits_value base z ds)).
  { intros base ds. induction ds as [|d ds IH]; intros z Hz; simpl; [done|]. apply IH, word_u64. }
  assert (Hl : forall base name neg s, related R (number_literal base name neg s) (number_literal base name neg s)).
  { intros base name neg s. unfold number_literal. destruct (scan_digits _ _ _ _ _) as [m|[[[d p] w] rest]]; [done|].
    destruct (negb w), p; try done. apply constant_related; [|done]. apply sound_word.
    destruct neg; [apply word_u64|apply Hw, word_0]. }
  unfold parse_number. destruct (if is_char 36 c then _ else _). repeat case_match; apply Hl.
Qed.

Lemma code_byte c : byte (code c).
Proof. unfold byte, fits, code. pose proof (N_ascii_bounded c). lia. Qed.
Lemma decode_escape_byte s z r : decode_escape s = Some (z, r) -> byte z.
Proof.
  unfold decode_escape. intros H. repeat case_match; try discriminate H; injection H as <- <-; try (split; done).
  apply byte_u8.
Qed.
Lemma parse_character_related r : related R (parse_character r) (parse_character r).
Proof.
  assert (Hc : forall z r, byte z -> related R
    match r with String q r => if is_char 39 q then PDone (constant_value z) r else PFail "a character literal holds exactly one character"
               | EmptyString => PFail "a character literal holds exactly one character" end
    match r with String q r => if is_char 39 q then PDone (constant_value z) r else PFail "a character literal holds exactly one character"
               | EmptyString => PFail "a character literal holds exactly one character" end).
  { intros z [|q s] Hz; [done|]. destruct (is_char 39 q); [|done]. apply constant_related; [|done]. by apply sound_word, word_byte. }
  unfold parse_character. destruct r as [|c r]; [done|]. destruct (is_char 92 c).
  - destruct (decode_escape (String c r)) as [[z r']|] eqn:E; [|done]. apply Hc. by apply decode_escape_byte in E.
  - destruct (255 <? code c); [done|]. apply Hc, code_byte.
Qed.

Lemma parse_primary_related n n' s :
  (forall s, related R (n s) (n' s)) -> related R (parse_primary lookup here n s) (parse_primary lookup' here' n' s).
Proof.
  intros Hn. destruct s as [|c s]; [done|]. cbn [parse_primary]. destruct (is_char 40 c).
  { apply related_bind; [apply Hn|]. intros v v' [|p r] Hv; [done|]. by destruct (is_char 41 p). }
  destruct (is_char 35 c || _ || _); [apply parse_number_related|].
  destruct (is_char 39 c); [apply parse_character_related|]. destruct (isdigit c); [done|].
  destruct (isalpha c || is_char 95 c) eqn:E; [|done]. cbn [scan_identifier].
  assert (ident_char c = true) as ->.
  { unfold ident_char, isalnum. apply orb_true_iff in E as [-> | ->]; [done|]. by rewrite orb_true_r. }
  destruct (scan_identifier s) as [name rest]. apply (kl_leaf _ _ _ _ K).
Qed.
Lemma parse_unary_related n n' s :
  (forall s, related R (n s) (n' s)) -> related R (parse_unary lookup here n s) (parse_unary lookup' here' n' s).
Proof.
  intros Hn. induction s as [|c s IH]; [by apply parse_primary_related|]. cbn [parse_unary].
  assert (Hk : forall f m v v' rest, (forall z, sound z -> sound (f z)) -> R v v' -> related R
    (if is_relocatable v then PFail m else PDone (constant_value (f (ev_constant v))) rest)
    (if is_relocatable v' then PFail m else PDone (constant_value (f (ev_constant v'))) rest)).
  { intros f m v v' rest Hf Hv. destruct (is_relocatable v) eqn:Ev; [done|].
    destruct (kl_equal _ _ _ _ K _ _ Hv Ev) as [<- Sv]. rewrite Ev. apply constant_related; auto. }
  destruct (is_char 45 c); [|destruct (is_char 126 c); [|by apply parse_primary_related]].
  - apply related_bind; [done|]. intros v v' r Hv. apply (Hk (fun z => u64 (0 - z))); [|done]. intros. apply sound_word, word_u64.
  - apply related_bind; [done|]. intros v v' r Hv. apply (Hk (fun z => Z.lxor z (2 ^ 64 - 1))); [|done].
    intros z Hz He. by apply fits_lnot, Hz.
Qed.

Lemma shift_keeps : keeps R combine_shift combine_shift.
Proof.
  intros []; simple refine (constants_keep _ _ _ true); intros x y z _ _ [= <-]; apply sound_word, word_u64.
Qed.
Lemma multiplicative_keeps : keeps R combine_multiplicative combine_multiplicative.
Proof.
  intros []; simple refine (constants_keep _ _ _ true); intros x y z _ _; unfold divide_words;
    repeat case_match; intros [= <-]; apply sound_word; try apply word_u64. by split.
Qed.
Lemma parse_nested_related fuel s : related R (parse_nested lookup here fuel s) (parse_nested lookup' here' fuel s).
Proof.
  revert s. induction fuel as [|n IH]; intros s; [done|]. cbn [parse_nested].
  unfold parse_or, parse_xor, parse_and, parse_shift, parse_additive, parse_multiplicative.
  repeat (intros; apply level_related); intros; try by apply parse_unary_related.
  - apply multiplicative_keeps.
  - apply (kl_add _ _ _ _ K).
  - apply shift_keeps.
  - apply (constants_keep "&" (fun a b => inr (Z.land a b))). intros x y z Hx Hy [= <-] He. by apply word_land_l, Hx.
  - apply (constants_keep "^" (fun a b => inr (Z.lxor a b))). intros x y z Hx Hy [= <-] He. by apply word_lxor; [apply Hx|apply Hy].
  - apply (constants_keep "|" (fun a b => inr (Z.lor a b))). intros x y z Hx Hy [= <-] He. by apply word_lor; [apply Hx|apply Hy].
Qed.
Lemma parse_expression_related text : related R (parse_expression lookup here text) (parse_expression lookup' here' text).
Proof.
  unfold parse_expression. apply related_bind; [apply parse_nested_related|]. intros v v' r Hv. by destruct (str_empty r).
Qed.
End Levels.
End Relational.

(** ** Values are words *)

Definition table_words (lookup : string -> option SymbolQuery) : Prop := forall s q, lookup s = Some q -> word (sq_value q).

Section Words.
Context (lookup : string -> option SymbolQuery) (here : Z) (Hl : table_words lookup) (Hh : word here).

Definition same_word (v v' : ExprValue) : Prop := v = v' /\ word (ev_constant v).

Lemma same_word_keeps : keeps_leaves same_word true lookup lookup here here.
Proof.
  split.
  - intros v v' [<- Hv] _. split; [done|]. by intros _.
  - intros z Hz. split; [done|]. by apply Hz.
  - intros c name rest. unfold symbol_leaf. repeat case_match; try done; split; try done; split; try done; by eapply Hl.
  - intros o v v' x x' y y' [<- Hv] [<- Hx] E1 E2. rewrite E1 in E2. injection E2 as <-. split; [done|]. revert E1.
    unfold combine_additive, fold_symbol_difference. repeat case_match; intros; simplify_eq/=; apply word_u64.
Qed.
Lemma parse_expression_word text v rest : parse_expression lookup here text = PDone v rest -> word (ev_constant v).
Proof.
  intros E. pose proof (parse_expression_related _ _ _ _ _ _ same_word_keeps text) as H. rewrite E in H. by destruct H as [_ [_ ?]].
Qed.
End Words.

(** ** Constants are settled

    A later table knows every symbol of an earlier one; a symbol that was
    defined keeps its value and its kind (its section may change). *)
Definition settles (lookup lookup' : string -> option SymbolQuery) : Prop :=
  forall s q, lookup s = Some q -> exists q', lookup' s = Some q' /\
    (sq_is_constant q = true -> sq_defined q = true) /\
    (sq_defined q = true -> sq_defined q' = true /\ sq_is_constant q' = sq_is_constant q /\ sq_value q' = sq_value q).

Section Settled.
Context (lookup lookup' : string -> option SymbolQuery) (here : Z) (Hs : settles lookup lookup').

(** Equal, or a symbol that the earlier table declares and does not define. *)
Definition settled (v v' : ExprValue) : Prop :=
  v = v' \/ (is_relocatable v = true /\ exists q, lookup (ev_symbol v) = Some q /\ sq_defined q = false).

Lemma fold_settled v x y : fold_symbol_difference lookup v x = inr y ->
  exists p q, lookup (ev_symbol v) = Some p /\ lookup (ev_symbol x) = Some q /\ sq_defined p = true /\ sq_defined q = true /\
    y = constant_value (u64 (u64 (ev_constant v - ev_constant x) + u64 (sq_value p - sq_value q))).
Proof.
  unfold fold_symbol_difference. destruct (lookup (ev_symbol v)) as [p|], (lookup (ev_symbol x)) as [q|]; try done.
  destruct (sq_defined p) eqn:Ep, (sq_defined q) eqn:Eq; simpl; try done. case_match; intros [= <-]. eauto 10.
Qed.
Lemma additive_settled : keeps settled (combine_additive lookup) (combine_additive lookup').
Proof.
  intros o v v' x x' y y' Hv Hx E E'. unfold combine_additive in E.
  destruct (is_relocatable v) eqn:Ev, (is_relocatable x) eqn:Ex.
  - destruct o; [|done]. apply fold_settled in E as (p & q & Ep & Eq & Dp & Dq & ->).
    destruct Hv as [<-|[_ (p' & Ep' & Dp')]]; [|congruence]. destruct Hx as [<-|[_ (q' & Eq' & Dq')]]; [|congruence].
    unfold combine_additive, fold_symbol_difference in E'. rewrite Ev, Ex in E'.
    destruct (Hs _ _ Ep) as (p' & Ep' & _ & Hp), (Hs _ _ Eq) as (q' & Eq' & _ & Hq). destruct (Hp Dp) as (? & _ & Vp), (Hq Dq) as (? & _ & Vq).
    rewrite Ep', Eq' in E'. repeat case_match; simplify_eq. left. by rewrite Vp, Vq.
  - injection E as <-. destruct Hv as [<-|[_ Hv]]; [|by right]. destruct Hx as [<-|[? _]]; [|congruence].
    unfold combine_additive in E'. rewrite Ev, Ex in E'. injection E' as <-. by left.
  - destruct o; [done|]. injection E as <-. destruct Hv as [<-|[? _]]; [|congruence]. destruct Hx as [<-|[_ Hx]]; [|by right].
    unfold combine_additive in E'. rewrite Ev, Ex in E'. injection E' as <-. by left.
  - injection E as <-. destruct Hv as [<-|[? _]]; [|congruence]. destruct Hx as [<-|[? _]]; [|congruence].
    unfold combine_additive in E'. rewrite Ev, Ex in E'. injection E' as <-. by left.
Qed.
Lemma settled_keeps : keeps_leaves settled false lookup lookup' here here.
Proof.
  split.
  - intros v v' [<-|[? _]] ?; [done|congruence].
  - by left.
  - intros c name rest. unfold symbol_leaf. case_bool_decide; [split; [done|by left]|].
    destruct (is_register_name _); [done|]. destruct (lookup (String c name)) as [q|] eqn:E; [|done].
    destruct (Hs _ _ E) as (q' & -> & Hk & Hq). destruct (sq_is_constant q) eqn:Ec.
    + destruct (Hq (Hk eq_refl)) as (_ & -> & ->). split; [done|by left].
    + destruct (sq_defined q) eqn:Ed.
      * destruct (Hq eq_refl) as (_ & -> & _). split; [done|by left].
      * destruct (sq_is_constant q'); (split; [done|]); right; eauto.
  - apply additive_settled.
Qed.

(** A constant of the earlier table is the same constant later, if the text
    still evaluates. *)
Lemma constant_settled text v rest v' rest' :
  parse_expression lookup here text = PDone v rest -> is_relocatable v = false ->
  parse_expression lookup' here text = PDone v' rest' -> v' = v.
Proof.
  intros E Hc E'. pose proof (parse_expression_related _ _ _ _ _ _ settled_keeps text) as H. rewrite E, E' in H.
  destruct H as [_ [->|[? _]]]; [done|congruence].
Qed.
End Settled.

(** ** The fit rule *)

Lemma i64_word v : word v -> i64 v = if v <? 2 ^ 63 then v else v - 2 ^ 64.
Proof.
  intros [H0 H1]. unfold i64. destruct (Z.ltb_spec v (2 ^ 63)).
  - rewrite Z.mod_small; lia.
  - rewrite <- (Z.mod_unique (v + 2 ^ 63) (2 ^ 64) 1 (v - 2 ^ 63)) by lia. lia.
Qed.
Lemma signed_min_value n : 0 < n < 64 -> Z.lor (Z.lxor (u64 (Z.shiftl 1 n - 1)) (2 ^ 64 - 1)) (Z.shiftl 1 (n - 1)) = 2 ^ 64 - 2 ^ (n - 1).
Proof.
  intros Hn. assert (Hall : forall k, 0 < k < 64 ->
    Z.lor (Z.lxor (u64 (Z.shiftl 1 k - 1)) (2 ^ 64 - 1)) (Z.shiftl 1 (k - 1)) = 2 ^ 64 - 2 ^ (k - 1)).
  { assert (Hc : forallb (fun k => Z.lor (Z.lxor (u64 (Z.shiftl 1 k - 1)) (2 ^ 64 - 1)) (Z.shiftl 1 (k - 1)) =? 2 ^ 64 - 2 ^ (k - 1)) (seqZ 1 63) = true) by reflexivity.
    rewrite forallb_forall in Hc. intros k Hk. apply Z.eqb_eq, Hc. apply list_elem_of_In, elem_of_seqZ. lia. }
  by apply Hall.
Qed.

(** A field of [n] bits accepts a 64-bit pattern exactly when its unsigned or
    its signed reading is representable in [n] bits. *)
Theorem field_fits_iff v n : word v -> 0 < n <= 64 ->
  field_fits v n = true <-> 0 <= v < 2 ^ n \/ - 2 ^ (n - 1) <= i64 v < 2 ^ (n - 1).
Proof.
  intros Hv Hn. unfold field_fits. destruct (Z.leb_spec 64 n).
  - assert (n = 64) as -> by lia. split; [intros _; left; exact Hv|done].
  - rewrite signed_min_value by lia. rewrite i64_word by done. destruct Hv as [H0 H1].
    assert (Hp : 2 ^ n = 2 * 2 ^ (n - 1)) by (rewrite <- Z.pow_succ_r by lia; f_equal; lia).
    assert (H63 : 2 ^ (n - 1) <= 2 ^ 62) by (apply Z.pow_le_mono_r; lia).
    assert (0 < 2 ^ (n - 1)) by (apply Z.pow_pos_nonneg; lia).
    assert (Hm : u64 (Z.shiftl 1 n - 1) = 2 ^ n - 1).
    { rewrite Z.shiftl_1_l. unfold u64. apply Z.mod_small. lia. }
    rewrite Hm. destruct (Z.leb_spec v (2 ^ n - 1)); [split; [intros _; left; lia|done]|].
    rewrite Z.leb_le. destruct (Z.ltb_spec v (2 ^ 63)); lia.
Qed.

(** The top bit of a field, cleared by an exclusive or. *)
Lemma lxor_top z n : 0 <= n -> 0 <= z < 2 ^ n -> Z.lxor (z + 2 ^ n) (2 ^ n) = z.
Proof.
  intros Hn Hz. rewrite Z.add_nocarry_lxor.
  - by rewrite Z.lxor_assoc, Z.lxor_nilpotent, Z.lxor_0_r.
  - apply Z.bits_inj'. intros i Hi. rewrite Z.land_spec, Z.bits_0. destruct (decide (i = n)) as [->|Hne].
    + apply andb_false_iff. left. apply (proj1 (fits_bits n z Hn)); [exact Hz|lia].
    + rewrite Z.pow2_bits_false by lia. apply andb_false_r.
Qed.

Lemma pow2_half n : 0 < n -> 2 ^ n = 2 * 2 ^ (n - 1) /\ 0 < 2 ^ (n - 1).
Proof. intros. split; [rewrite <- Z.pow_succ_r by lia; f_equal; lia|apply Z.pow_pos_nonneg; lia]. Qed.

(** A value whose signed reading has [n] bits is the sign extension of its low
    [n] bits. *)
Lemma signed_field_recovers v n : word v -> 0 < n <= 64 -> - 2 ^ (n - 1) <= i64 v < 2 ^ (n - 1) -> sign_extend (v mod 2 ^ n) n = v.
Proof.
  intros Hv Hn Hf. unfold sign_extend. destruct (Z.leb_spec 64 n).
  { assert (n = 64) as -> by lia. by apply Z.mod_small. }
  destruct (pow2_half n) as [Hp Hpos]; [lia|].
  assert (Hq : 2 ^ 64 = 2 ^ n * 2 ^ (64 - n)) by (rewrite <- Z.pow_add_r by lia; f_equal; lia).
  assert (H63 : 2 ^ (n - 1) <= 2 ^ 62) by (apply Z.pow_le_mono_r; lia).
  rewrite !Z.shiftl_1_l, Z.sub_1_r, <- Z.ones_equiv, !Z.land_ones, !Z.mod_mod by lia.
  rewrite i64_word in Hf by done. destruct Hv as [Hv0 Hv1]. destruct (Z.ltb_spec v (2 ^ 63)).
  - rewrite Z.mod_small by lia. rewrite <- (lxor_top v (n - 1)) at 1 by lia.
    rewrite Z.lxor_assoc, Z.lxor_nilpotent, Z.lxor_0_r. unfold u64. rewrite Z.mod_small; lia.
  - rewrite <- (Z.mod_unique v (2 ^ n) (2 ^ (64 - n) - 1) (v - 2 ^ 64 + 2 ^ n)) by nia.
    replace (v - 2 ^ 64 + 2 ^ n) with (v - 2 ^ 64 + 2 ^ (n - 1) + 2 ^ (n - 1)) by lia. rewrite lxor_top by lia.
    symmetry. apply Z.mod_unique with (-1); lia.
Qed.
(** What a field that fits keeps: the sign- or zero-extension of its bits is
    the value. *)
Lemma field_recovers v n : word v -> 0 < n <= 64 -> field_fits v n = true ->
  zero_extend (v mod 2 ^ n) n = v \/ sign_extend (v mod 2 ^ n) n = v.
Proof.
  intros Hv Hn [Hf|Hf]%field_fits_iff; [left|right; by apply signed_field_recovers|done..].
  rewrite Z.mod_small by done. unfold zero_extend. case_match; [done|].
  rewrite Z.shiftl_1_l, Z.sub_1_r, <- Z.ones_equiv, Z.land_ones by lia. by apply Z.mod_small.
Qed.
