(* ===== verification/V2AsmRound.v ===== *)
(** * What the assembler emits, the machine decodes

    The encoder of mzasm_assemble.cpp against the decoder of decode_v2.cpp:
    the bytes of an instruction decode to its opcode, to the registers and
    slices that its operands name, and to the low bits of the values that its
    operands denote, which fit their fields. *)
From Stdlib Require Import ZArith Lia Bool Ascii.
From stdpp Require Import base list numbers strings gmap pretty.
From S2P Require Import Prelude State MzObj Memory V2Opcode V2Mnemonic V2Csr V2Translate V2Interp V2Word V2AsmExpr V2AsmSource V2AsmPasses V2AsmExprProps.

(** ** Operands *)

(** A register number names a register; a slice's index is a digit. *)
Definition body_wf (b : OperandBody) : Prop :=
  match b with
  | Register r | Memory r _ => 0 <= r < 32
  | Slice r _ i => 0 <= r < 32 /\ 0 <= i < 10
  | _ => True
  end.
Definition operand_wf (o : Operand) : Prop := body_wf (o_body o).

Lemma register_digits_range ds v n : 0 <= v < 32 -> str_all isdigit ds = true -> register_digits v ds = Some n -> 0 <= n < 32.
Proof.
  revert v. induction ds as [|d ds IH]; intros v Hv Hd; simpl in *; [by intros [= <-]|].
  apply andb_true_iff in Hd as [Hd Hs]. unfold isdigit, upto in Hd. case_match; [done|]. apply IH; [lia|done].
Qed.
Lemma find_alias_range text l n : Forall (fun p => 0 <= p.2 < 32) l -> find_alias text l = Some n -> 0 <= n < 32.
Proof. induction 1 as [|[x k] l Hx Hl IH]; simpl; [done|]. case_bool_decide; [by intros [= <-]|done]. Qed.
Lemma register_name_range text n : is_register_name text = Some n -> 0 <= n < 32.
Proof.
  unfold is_register_name. destruct (canonical_register text) as [k|] eqn:E.
  - intros [= <-]. unfold canonical_register in E. destruct text as [|c [|d r]]; [done..|].
    destruct (_ && _) eqn:Hb in E; [|done]. apply andb_true_iff in Hb as [[_ Hd]%andb_true_iff _].
    by eapply register_digits_range in E.
  - apply find_alias_range. repeat constructor; simpl; lia.
Qed.
Lemma parse_body_wf field b : parse_body field = inr b -> body_wf b.
Proof.
  assert (Hp : forall f, body_wf (parse_plain f)).
  { intros f. unfold parse_plain. destruct (is_register_name f) eqn:E; [by apply register_name_range in E|]. by case_bool_decide. }
  unfold parse_body. destruct field as [|c rest]; [done|].
  destruct (is_char 34 c); [unfold parse_string; repeat case_match; intros; by simplify_eq|].
  destruct (is_char 64 c).
  - unfold parse_memory. destruct (split_at _ rest) as [r d]. destruct (is_register_name r) eqn:E; [|done].
    apply register_name_range in E. repeat case_match; intros; simplify_eq; done.
  - destruct (split_at _ _) as [r [[dot suffix]|]]; [|intros [= <-]; apply Hp].
    destruct (is_register_name r) eqn:E; [|intros [= <-]; apply Hp]. apply register_name_range in E.
    unfold parse_slice. destruct suffix as [|x [|d [|? ?]]]; [done..| |done].
    destruct (isdigit d) eqn:Hd; [|done]. unfold isdigit, upto in Hd. simpl.
    repeat case_match; intros; simplify_eq; simpl; lia.
Qed.

(** The register and form fields that an operand names. *)
Definition operand_field (o : Operand) : option (Z * Z) :=
  match o_body o with
  | Register r | Memory r _ => Some (r, 0)
  | Slice r _ i => Some (r, i)
  | _ => None
  end.

(** ** Patterns match shapes *)

(** A pattern against the slots and the immediate widths that remain. *)
Fixpoint pattern_matches (pattern : list Syn) (slots : list Slot) (widths : list nat) : bool :=
  match pattern, slots, widths with
  | [], [], [] => true
  | SynReg :: p, sl :: slots, _ => bool_decide (sl <> SlotNone) && pattern_matches p slots widths
  | SynMemBare :: p, Plain :: slots, _ => pattern_matches p slots widths
  | SynMemDisp :: p, Plain :: slots, w :: widths => (0 <? w)%nat && (w <=? 8)%nat && pattern_matches p slots widths
  | SynImm :: p, _, w :: widths => (0 <? w)%nat && (w <=? 8)%nat && pattern_matches p slots widths
  | SynImmAbs :: p, _, w :: widths => (w =? 8)%nat && pattern_matches p slots widths
  | SynTarget :: p, _, w :: widths => (w =? 4)%nat && pattern_matches p slots widths
  | _, _, _ => false
  end.

(** Every assigned opcode: its pattern matches its shape, its length is that
    of the shape's parts. *)
Definition opcode_sound (b : Z) : bool :=
  let info := opcode_info b in
  let shape := shape_info (oi_shape info) in
  match oi_kind info with
  | Assigned =>
      pattern_matches (pattern_for b) (oi_slots info) (sh_immediates shape)
      && (sh_operands shape =? length (oi_slots info))%nat
      && (oi_length info =? 1 + Z.of_nat (sh_operands shape) + Z.of_nat (sum_list (sh_immediates shape)))
  | _ => true
  end.
Lemma opcodes_sound b : 0 <= b < 256 -> opcode_sound b = true.
Proof.
  intros Hb. assert (H : forallb opcode_sound (seqZ 0 256) = true) by (vm_compute; reflexivity).
  rewrite forallb_forall in H. apply H, list_elem_of_In, elem_of_seqZ. lia.
Qed.

(** The table of mnemonics names assigned bytes only, and all of them. *)
Lemma mnemonics_assigned :
  (fun e => oi_kind (opcode_info (me_opcode e))) <$> kMnemonics = replicate 187 Assigned /\
  Forall (fun e => 0 <= me_opcode e < 256) kMnemonics /\
  forall b, 0 <= b < 256 -> oi_kind (opcode_info b) = Assigned -> b ∈ me_opcode <$> kMnemonics.
Proof.
  split; [vm_compute; reflexivity|]. split.
  - apply Forall_forall. intros e He. assert (H : forallb (fun e => (0 <=? me_opcode e) && (me_opcode e <? 256)) kMnemonics = true) by (vm_compute; reflexivity).
    rewrite forallb_forall in H. apply list_elem_of_In in He. specialize (H e He). lia.
  - intros b Hb Hk.
    assert (H : forallb (fun b => match oi_kind (opcode_info b) with Assigned => bool_decide (b ∈ me_opcode <$> kMnemonics) | _ => true end) (seqZ 0 256) = true)
      by (vm_compute; reflexivity).
    rewrite forallb_forall in H. specialize (H b). rewrite Hk in H. apply bool_decide_eq_true in H; [done|].
    apply list_elem_of_In, elem_of_seqZ. lia.
Qed.

Lemma pick_select_elem wanted l b : pick_select wanted l = Some b -> b ∈ me_opcode <$> l.
Proof.
  induction l as [|e l IH]; simpl; [done|]. case_bool_decide; [intros [= <-]; by left|]. intros. right. by apply IH.
Qed.
(** An opcode that is selected is assigned: no reserved byte is emitted. *)
Lemma selected_assigned s b : select_opcode s = inr b -> 0 <= b < 256 /\ oi_kind (opcode_info b) = Assigned.
Proof.
  intros H. assert (Hin : b ∈ me_opcode <$> mnemonic_candidates (st_name s)).
  { revert H. unfold select_opcode. destruct (mnemonic_candidates (st_name s)) as [|e [|e' l]]; [done|..].
    - intros H. assert (b = me_opcode e) as -> by (repeat case_match; congruence). by left.
    - destruct (wanted_select s _); [done|]. destruct (pick_select _ _) eqn:E; [|done]. intros [= <-]. by apply pick_select_elem in E. }
  apply list_elem_of_fmap in Hin as (e & -> & [_ He]%list_elem_of_filter).
  destruct mnemonics_assigned as (Hk & Hr & _). split; [by eapply list.Forall_forall in Hr|].
  apply list_elem_of_lookup in He as [i Hi]. assert (Hi' := Hi). apply (f_equal (fmap (fun e => oi_kind (opcode_info (me_opcode e))))) in Hi.
  rewrite <- list_lookup_fmap, Hk in Hi. by apply lookup_replicate in Hi as [Hi _].
Qed.

(** ** What the encoder leaves alone *)

(** The parts of the state that evaluation and emission depend on. *)
Definition same_context (a a' : assembler) : Prop :=
  a_symbols a' = a_symbols a /\ a_address a' = a_address a /\ a_mode a' = a_mode a /\
  a_current_section a' = a_current_section a /\ a_second_pass a' = a_second_pass a /\
  a_flat_image a' = a_flat_image a /\ a_flat_base a' = a_flat_base a /\ a_sections a' = a_sections a /\
  a_statements a' = a_statements a.
#[global] Instance same_context_preorder : PreOrder same_context.
Proof.
  split; [by intros a; unfold same_context|].
  intros a b c (?&?&?&?&?&?&?&?&?) (?&?&?&?&?&?&?&?&?). unfold same_context. intuition congruence.
Qed.
Lemma error_context a w m : same_context a (error a w m).
Proof. done. Qed.
Lemma relocation_context a off y t ad w : same_context a (add_relocation a off y t ad w).
Proof. unfold add_relocation. by destruct (negb _). Qed.

(** Evaluation changes nothing but the diagnostics. *)
Lemma evaluate_context a text w : same_context a (evaluate a text w).1.
Proof. unfold evaluate. by destruct (parse_expression _ _ _). Qed.
Lemma evaluate_some a text w a' v : evaluate a text w = (a', Some v) ->
  a' = a /\ exists rest, parse_expression (lookup_in_assembler a) (a_address a) text = PDone v rest.
Proof. unfold evaluate. destruct (parse_expression _ _ _) eqn:E; [done..|]. intros [= <- <-]. eauto. Qed.

Definition context_words (a : assembler) : Prop := word (a_address a) /\ table_words (lookup_in_assembler a).
Lemma context_words_same a a' : same_context a a' -> context_words a -> context_words a'.
Proof. intros (Hs & Ha & _) [??]. unfold context_words, lookup_in_assembler. by rewrite Hs, Ha. Qed.
Lemma evaluate_word a text w a' v : context_words a -> evaluate a text w = (a', Some v) -> word (ev_constant v).
Proof. intros [Ha Hl] [_ [rest E]]%evaluate_some. by eapply parse_expression_word in E. Qed.

(** ** What an operand denotes *)

Definition value_of (a : assembler) (text : string) (v : ExprValue) : Prop :=
  exists rest, parse_expression (lookup_in_assembler a) (a_address a) text = PDone v rest.

(** The value of an immediate field, from the source: the expression's value
    for an immediate, the signed displacement of a memory operand, and for a
    target (docs/spec-v2/assembler.md, "Branch targets, pc_add, and
    relocations") the displacement itself when it is a numeric literal, and
    the distance of the address from the next instruction when it names a
    symbol, unless that is left to the linker. *)
Definition local_target (a : assembler) (name : string) : bool :=
  match a_symbols a !! name with Some y => sy_defined y && (sy_section y =? a_current_section a) | None => false end.
Inductive denotes (a : assembler) (s : Statement) : Syn -> Operand -> Z -> Prop :=
| den_immediate o v : value_of a (expression_text o) v -> is_relocatable v = false -> denotes a s SynImm o (ev_constant v)
| den_displacement o reg (negated : bool) text v :
    o_body o = Memory reg (Some (negated, text)) -> value_of a text v -> is_relocatable v = false ->
    denotes a s SynMemDisp o (if negated then u64 (- ev_constant v) else ev_constant v)
| den_absolute o v : value_of a (expression_text o) v -> is_relocatable v = false -> denotes a s SynImmAbs o (ev_constant v)
| den_relocated o v : value_of a (expression_text o) v -> is_relocatable v = true -> denotes a s SynImmAbs o 0
| den_literal o v : target_is_literal_displacement (expression_text o) = true ->
    value_of a (expression_text o) v -> is_relocatable v = false -> denotes a s SynTarget o (ev_constant v)
| den_address o v : target_is_literal_displacement (expression_text o) = false ->
    value_of a (expression_text o) v -> is_relocatable v = false ->
    denotes a s SynTarget o (u64 (ev_constant v - (st_address s + st_length s)))
| den_symbol o v y : target_is_literal_displacement (expression_text o) = false ->
    value_of a (expression_text o) v -> is_relocatable v = true ->
    a_symbols a !! ev_symbol v = Some y -> sy_defined y = true -> sy_section y = a_current_section a ->
    denotes a s SynTarget o (u64 (sy_value y + ev_constant v - (st_address s + st_length s)))
| den_external o v : target_is_literal_displacement (expression_text o) = false ->
    value_of a (expression_text o) v -> is_relocatable v = true -> local_target a (ev_symbol v) = false ->
    denotes a s SynTarget o 0.

(** What the encoder puts into the field.  It is what the operand denotes,
    except for a target that starts with a number and names a symbol as well,
    such as [#4+label]: the symbol is dropped. *)
Inductive emitted (a : assembler) (s : Statement) (syn : Syn) (o : Operand) (v : Z) : Prop :=
| em_denoted : denotes a s syn o v -> emitted a s syn o v
| em_dropped x : syn = SynTarget -> target_is_literal_displacement (expression_text o) = true ->
    value_of a (expression_text o) x -> is_relocatable x = true -> v = ev_constant x -> emitted a s syn o v.
(** The exception does not arise. *)
Definition plain_target (a : assembler) (p : Syn * Operand) : bool :=
  match p.1 with
  | SynTarget =>
      negb (target_is_literal_displacement (expression_text p.2)) ||
      match parse_expression (lookup_in_assembler a) (a_address a) (expression_text p.2) with
      | PDone v _ => negb (is_relocatable v)
      | _ => true
      end
  | _ => true
  end.
Lemma emitted_denoted a s p v : plain_target a p = true -> emitted a s p.1 p.2 v -> denotes a s p.1 p.2 v.
Proof.
  intros Hp [Hd|x Es Hl [rest Hx] Hr _]; [done|]. unfold plain_target in Hp. rewrite Es, Hl, Hx, Hr in Hp. done.
Qed.

(** A target that is written as an address: its distance is signed. *)
Definition address_target (syn : Syn) (o : Operand) : bool :=
  match syn with SynTarget => negb (target_is_literal_displacement (expression_text o)) | _ => false end.
(** The extension of the field's [n] bits gives back the value. *)
Definition recovered (syn : Syn) (o : Operand) (v n : Z) : Prop :=
  if address_target syn o then sign_extend (v mod 2 ^ n) n = v
  else zero_extend (v mod 2 ^ n) n = v \/ sign_extend (v mod 2 ^ n) n = v.

(** An immediate that is pushed: its value is denoted, is a word, and fits. *)
Definition immediate_ok (a : assembler) (s : Statement) (syn : Syn) (o : Operand) (i : Z * nat) : Prop :=
  emitted a s syn o i.1 /\ word i.1 /\ ((0 < i.2 <= 8)%nat -> recovered syn o i.1 (Z.of_nat i.2 * 8)).
Lemma immediate_fits a s syn o v w : emitted a s syn o v -> address_target syn o = false -> word v -> field_fits v (Z.of_nat w * 8) = true ->
  immediate_ok a s syn o (v, w).
Proof. intros Hd Ha Hw Hf. split; [done|]. split; [done|]. intros Hn. unfold recovered. rewrite Ha. apply field_recovers; [done|cbn in *; lia|done]. Qed.
Lemma immediate_signed a s syn o v w : emitted a s syn o v -> word v -> - 2 ^ (Z.of_nat w * 8 - 1) <= i64 v < 2 ^ (Z.of_nat w * 8 - 1) ->
  immediate_ok a s syn o (v, w).
Proof.
  intros Hd Hw Hf. split; [done|]. split; [done|]. cbn. intros Hn. pose proof (signed_field_recovers v (Z.of_nat w * 8) Hw ltac:(lia) Hf) as H.
  unfold recovered. case_match; [done|by right].
Qed.

(** ** One operand *)

Definition fields_of (b : Z) : Z * Z := (operand_register b, operand_form b).

Lemma operand_byte_fields reg form : 0 <= reg < 32 -> 0 <= form < 8 ->
  fields_of (u8 (Z.lor reg (Z.shiftl form 5))) = (reg, form) /\ byte (u8 (Z.lor reg (Z.shiftl form 5))).
Proof.
  intros Hr Hf. split; [|apply byte_u8].
  assert (H : forallb (fun reg => forallb (fun form => bool_decide (fields_of (u8 (Z.lor reg (Z.shiftl form 5))) = (reg, form))) (seqZ 0 8)) (seqZ 0 32) = true)
    by (vm_compute; reflexivity).
  rewrite forallb_forall in H. specialize (H reg). rewrite forallb_forall in H.
  eapply bool_decide_eq_true, H; apply list_elem_of_In, elem_of_seqZ; lia.
Qed.
Lemma plain_byte_fields reg : 0 <= reg < 32 -> fields_of reg = (reg, 0) /\ byte reg.
Proof.
  intros Hr. destruct (operand_byte_fields reg 0 Hr ltac:(lia)) as [H1 H2]. rewrite Z.shiftl_0_l, Z.lor_0_r in *.
  unfold u8 in *. rewrite Z.mod_small in * by lia. done.
Qed.

(** The byte of an operand in a slot. *)
Definition byte_ok (slot : Slot) (o : Operand) (b : Z) : Prop :=
  byte b /\ operand_field o = Some (fields_of b) /\ form_is_legal slot (operand_form b) = true.

Section Operand.
Context (s : Statement).
Let info := opcode_info (st_opcode s).
Let shape := shape_info (oi_shape info).

Lemma encode_register_ok k o k' slot : operand_wf o -> oi_slots info !! length (pn_operands k) = Some slot -> slot <> SlotNone ->
  encode_register s k o = inr k' -> exists b, k' = push_operand k b /\ byte_ok slot o b.
Proof.
  intros Hw Hs Hn. unfold encode_register. fold info. rewrite Hs. cbn [default from_option id]. unfold operand_wf in Hw.
  unfold byte_ok, operand_field. case_bool_decide as Hp.
  - subst slot. destruct (o_body o) as [reg|reg wd i|reg dsp|text|value|kind]; try done.
    intros [= <-]. destruct (plain_byte_fields reg Hw) as [Hf Hb]. eexists. split; [done|]. split; [done|].
    rewrite Hf. split; [done|]. unfold fields_of in Hf. by injection Hf as _ ->.
  - destruct (o_body o) as [reg|reg wd i|reg dsp|text|value|kind]; try done. destruct Hw as [Hr Hi].
    destruct slot; try done; simpl; case_bool_decide; simpl; try done; case_match eqn:Hl; try done; intros [= <-];
      (destruct (operand_byte_fields reg i Hr ltac:(lia)) as [Hf Hb]; eexists; split; [done|]; split; [done|]; rewrite Hf; split; [done|];
       unfold fields_of in Hf; injection Hf as _ ->; simpl; lia).
Qed.
End Operand.

Lemma u64_i64 x : u64 (i64 x) = u64 x.
Proof.
  unfold u64, i64. rewrite Zminus_mod_idemp_l. f_equal. lia.
Qed.
Lemma i64_signed x : - 2 ^ 63 <= x < 2 ^ 63 -> i64 x = x.
Proof. intros. unfold i64. rewrite Z.mod_small; lia. Qed.
(** A displacement computed on signed words is the distance modulo 2^64. *)
Lemma u64_distance t n : u64 (i64 (i64 t - i64 n)) = u64 (t - n).
Proof.
  rewrite u64_i64. unfold u64. rewrite Zminus_mod. change (i64 t mod 2 ^ 64) with (u64 (i64 t)). change (i64 n mod 2 ^ 64) with (u64 (i64 n)).
  rewrite !u64_i64. unfold u64. by rewrite <- Zminus_mod.
Qed.
Lemma u64_sub_r t n : u64 (t - u64 n) = u64 (t - n).
Proof. unfold u64. by rewrite Zminus_mod_idemp_r. Qed.

Section Immediates.
Context (s : Statement).
Let shape := shape_info (oi_shape (opcode_info (st_opcode s))).

(** An immediate was pushed for [o] at the current width. *)
Definition pushed (a : assembler) (syn : Syn) (o : Operand) (k k' : pending) : Prop :=
  exists v, k' = push_immediate s k v /\ immediate_ok a s syn o (v, immediate_width s k).

Lemma encode_immediate_ok a k o a' k' : context_words a -> encode_immediate s a k o = (a', Some k') ->
  a' = a /\ pushed a SynImm o k k'.
Proof.
  intros Hc. unfold encode_immediate. destruct (negb (is_expression o)); [done|].
  destruct (evaluate a _ _) as [a1 [v|]] eqn:E; [|done]. pose proof (evaluate_word _ _ _ _ _ Hc E).
  apply evaluate_some in E as [-> E]. destruct (is_relocatable v) eqn:Er; [done|].
  destruct (fits_field _ _ _) eqn:Ef; [|done]. intros [= <- <-]. split; [done|]. eexists. split; [done|]. by apply immediate_fits; [apply em_denoted; constructor|..].
Qed.
Lemma fits_8 v : field_fits v (Z.of_nat 8 * 8) = true.
Proof. done. Qed.
Lemma encode_absolute_ok a k o a' k' : context_words a -> immediate_width s k = 8%nat -> encode_absolute s a k o = (a', Some k') ->
  same_context a a' /\ pushed a SynImmAbs o k k'.
Proof.
  intros Hc Hw. unfold encode_absolute. destruct (negb (is_expression o)); [done|].
  destruct (evaluate a _ _) as [a1 [v|]] eqn:E; [|done]. pose proof (evaluate_word _ _ _ _ _ Hc E).
  apply evaluate_some in E as [-> E]. destruct (is_relocatable v) eqn:Er; intros [= <- <-].
  - split; [apply relocation_context|]. exists 0. split; [done|]. rewrite Hw.
    apply immediate_fits; [apply em_denoted; by eapply den_relocated|done|apply word_0|apply fits_8].
  - split; [done|]. exists (ev_constant v). split; [done|]. rewrite Hw. by apply immediate_fits; [apply em_denoted; constructor|..].
Qed.
Lemma encode_address_ok a k o t a' k' : immediate_width s k = 4%nat -> encode_address s a k o t = (a', Some k') ->
  a' = a /\ k' = push_immediate s k (u64 (t - (st_address s + st_length s))) /\
  let n := Z.of_nat (immediate_width s k) * 8 in - 2 ^ (n - 1) <= i64 (u64 (t - (st_address s + st_length s))) < 2 ^ (n - 1).
Proof.
  intros Hw. unfold encode_address. rewrite i64_of_u64.
  set (d := i64 (i64 t - i64 (st_address s + st_length s))).
  destruct ((d <? _) || (_ <? d)) eqn:E; [done|]. apply orb_false_iff in E as [E1%Z.ltb_ge E2%Z.ltb_ge]. intros [= <- <-].
  assert (Hd : u64 d = u64 (t - (st_address s + st_length s))) by apply u64_distance. rewrite <- Hd.
  split; [done|]. split; [done|]. rewrite Hw. cbn zeta. rewrite i64_of_u64, i64_signed; lia.
Qed.
Lemma encode_target_ok a k o a' k' : context_words a -> immediate_width s k = 4%nat -> encode_target s a k o = (a', Some k') ->
  same_context a a' /\ pushed a SynTarget o k k'.
Proof.
  intros Hc Hw. unfold encode_target. destruct (negb (is_expression o)); [done|].
  destruct (evaluate a _ _) as [a1 [v|]] eqn:E; [|done]. pose proof (evaluate_word _ _ _ _ _ Hc E) as Hv.
  apply evaluate_some in E as [-> E]. destruct (target_is_literal_displacement _) eqn:El.
  { destruct (fits_field _ _ _) eqn:Ef; [|done]. intros [= <- <-]. split; [done|]. eexists. split; [done|].
    apply immediate_fits; [|unfold address_target; by rewrite El|done..].
    destruct (is_relocatable v) eqn:Er; [by eapply em_dropped|apply em_denoted; by constructor]. }
  assert (Hext : is_relocatable v = true -> local_target a (ev_symbol v) = false -> forall off ad,
    same_context a (add_relocation a off (ev_symbol v) R_MAIZE_REL32 ad (st_where s)) /\ pushed a SynTarget o k (push_immediate s k 0)).
  { intros Er Hl off ad. split; [apply relocation_context|]. exists 0. split; [done|].
    apply immediate_signed; [apply em_denoted; by eapply den_external|apply word_0|]. rewrite Hw. by vm_compute. }
  assert (Hadr : forall t, emitted a s SynTarget o (u64 (t - (st_address s + st_length s))) -> encode_address s a k o t = (a', Some k') ->
    same_context a a' /\ pushed a SynTarget o k k').
  { intros t Ht (-> & -> & Hf)%encode_address_ok; [|done]. split; [done|]. eexists. split; [done|].
    by apply immediate_signed; [|apply word_u64|]. }
  destruct (is_relocatable v) eqn:Er.
  - pose proof (Hext eq_refl) as He. unfold local_target in He. destruct (a_symbols a !! ev_symbol v) as [y|] eqn:Ey.
    + destruct (sy_defined y && _) eqn:Ed; [|intros [= <- <-]; by apply He].
      apply andb_true_iff in Ed as [Ed Es%Z.eqb_eq]. apply Hadr.
      replace (u64 (u64 (ev_constant v + sy_value y) - _)) with (u64 (sy_value y + ev_constant v - (st_address s + st_length s))).
      * apply em_denoted. by eapply den_symbol.
      * unfold u64. rewrite Zminus_mod_idemp_l. f_equal. lia.
    + intros [= <- <-]; by apply He.
  - apply Hadr. apply em_denoted. by constructor.
Qed.
Lemma encode_memory_ok a k d o a' k' : context_words a -> operand_wf o -> encode_memory s a k d o = (a', Some k') ->
  a' = a /\ exists b, byte_ok Plain o b /\
    if d then pushed a SynMemDisp o (push_operand k b) k' else k' = push_operand k b.
Proof.
  intros Hc Hw. unfold encode_memory, byte_ok, operand_field. unfold operand_wf in Hw.
  destruct (o_body o) as [reg|reg wd i|reg dsp|text|value|kind] eqn:Eo; try done. simpl in Hw.
  assert (Hb : byte reg /\ Some (reg, 0) = Some (fields_of reg) /\ form_is_legal Plain (operand_form reg) = true).
  { destruct (plain_byte_fields reg Hw) as [Hf Hb]. split; [done|]. rewrite Hf. split; [done|]. unfold fields_of in Hf. by injection Hf as _ ->. }
  destruct d; simpl.
  - destruct dsp as [[neg text]|]; simpl.
    + destruct (evaluate a _ _) as [a1 [v|]] eqn:E; [|done]. pose proof (evaluate_word _ _ _ _ _ Hc E) as Hv.
      apply evaluate_some in E as [-> E]. destruct (is_relocatable v) eqn:Er; [done|].
      destruct (fits_field _ _ _) eqn:Ef; [|done]. intros [= <- <-]. split; [done|]. exists reg. split; [done|].
      eexists. split; [done|].
      assert (Hn : (if neg then u64 (- i64 (ev_constant v)) else ev_constant v) = (if neg then u64 (- ev_constant v) else ev_constant v)).
      { destruct neg; [|done]. rewrite <- (Z.sub_0_l (i64 _)), <- (Z.sub_0_l (ev_constant v)). rewrite <- (u64_sub_r 0 (i64 _)), u64_i64. apply u64_sub_r. }
      unfold fits_field in Ef. rewrite Hn in Ef |- *. apply immediate_fits; [apply em_denoted; by eapply den_displacement|done| |exact Ef]. destruct neg; [apply word_u64|done].
    + by destruct (evaluate a EmptyString (st_where s)) as [a1 [v|]] eqn:E.
  - destruct dsp; [done|]. intros [= <- <-]. split; [done|]. by exists reg.
Qed.
End Immediates.

(** ** All operands *)

Section Operands.
Context (s : Statement).
Let info := opcode_info (st_opcode s).
Let slots := oi_slots info.
Let widths := sh_immediates (shape_info (oi_shape info)).

(** The fields of a list of operands, in the order of the bytes. *)
Definition operand_fields (l : list Operand) : list (Z * Z) := omap operand_field l.

(** The operands with their syntax, those that have an immediate field. *)
Definition immediate_syn (syn : Syn) : bool := match syn with SynReg | SynMemBare => false | _ => true end.
Definition immediate_operands (pattern : list Syn) (l : list Operand) : list (Syn * Operand) :=
  filter (fun p => immediate_syn p.1 = true) (zip pattern l).

(** What the encoder adds for the operands [l]: legal bytes whose fields are
    the operands', and an accepted immediate for each operand that has one. *)
Record encodes (a : assembler) (pattern : list Syn) (l : list Operand) (sl : list Slot) (ws : list nat)
    (bs : list Z) (ims : list (Z * nat)) : Prop := mk_encodes {
  en_bytes : Forall2 (fun slot b => byte b /\ form_is_legal slot (operand_form b) = true) sl bs;
  en_fields : operand_fields l = fields_of <$> bs;
  en_widths : ims.*2 = ws;
  en_values : Forall2 (fun p i => immediate_ok a s p.1 p.2 i) (immediate_operands pattern l) ims }.

Lemma immediate_ok_same a a' syn o i : same_context a a' -> immediate_ok a' s syn o i -> immediate_ok a s syn o i.
Proof.
  intros (Hs & Ha & _ & Hc & _) [Hd Hi]. split; [|done]. clear Hi. destruct i as [v w]; simpl in *.
  assert (Hv : forall text x, value_of a' text x -> value_of a text x) by (intros; unfold value_of, lookup_in_assembler in *; by rewrite Hs, Ha in *).
  destruct Hd as [Hd|x ? ? ? ? ?]; [apply em_denoted|by eapply em_dropped; eauto].
  destruct Hd; try (econstructor; eauto; congruence).
  eapply den_external; eauto. unfold local_target in *. by rewrite Hs, Hc in *.
Qed.

Lemma encodes_byte a syn p o l slot sl ws b bs ims : immediate_syn syn = false -> byte_ok slot o b ->
  encodes a p l sl ws bs ims -> encodes a (syn :: p) (o :: l) (slot :: sl) ws (b :: bs) ims.
Proof.
  intros Hs (Hb & Hf & Hl) []. split; [by constructor| |done|].
  - unfold operand_fields in *. simpl. rewrite Hf. simpl. by f_equal.
  - unfold immediate_operands in *. simpl. rewrite filter_cons_False; [done|]. simpl. congruence.
Qed.
Lemma encodes_immediate a syn p o l sl w ws v bs ims : immediate_syn syn = true -> operand_field o = None ->
  immediate_ok a s syn o (v, w) -> encodes a p l sl ws bs ims -> encodes a (syn :: p) (o :: l) sl (w :: ws) bs ((v, w) :: ims).
Proof.
  intros Hs Hf Hi []. split; [done|..].
  - unfold operand_fields in *. simpl. by rewrite Hf.
  - simpl. by f_equal.
  - unfold immediate_operands in *. simpl. rewrite filter_cons_True by done. by constructor.
Qed.
Lemma encodes_both a syn p o l slot sl w ws b v bs ims : immediate_syn syn = true -> byte_ok slot o b ->
  immediate_ok a s syn o (v, w) -> encodes a p l sl ws bs ims ->
  encodes a (syn :: p) (o :: l) (slot :: sl) (w :: ws) (b :: bs) ((v, w) :: ims).
Proof.
  intros Hs (Hb & Hf & Hl) Hi []. split; [by constructor|..].
  - unfold operand_fields in *. simpl. rewrite Hf. simpl. by f_equal.
  - simpl. by f_equal.
  - unfold immediate_operands in *. simpl. rewrite filter_cons_True by done. by constructor.
Qed.
Lemma expression_no_field o : is_expression o = true -> operand_field o = None.
Proof. unfold is_expression, operand_field. by destruct (o_body o). Qed.
Lemma encodes_same a a' p l sl ws bs ims : same_context a a' -> encodes a' p l sl ws bs ims -> encodes a p l sl ws bs ims.
Proof. intros Hs []. split; [done..|]. eapply Forall2_impl; [done|]. intros. by eapply immediate_ok_same. Qed.

(** Slots and widths that the operands so far leave. *)
Definition rest_slots (k : pending) : list Slot := drop (length (pn_operands k)) slots.
Definition rest_widths (k : pending) : list nat := drop (length (pn_immediates k)) widths.

Lemma rest_slots_push k b slot sl : rest_slots k = slot :: sl -> slots !! length (pn_operands k) = Some slot /\ rest_slots (push_operand k b) = sl.
Proof.
  unfold rest_slots. intros H. split.
  - by rewrite <- (Nat.add_0_r (length _)), <- lookup_drop, H.
  - cbn. rewrite length_app. cbn [length]. by rewrite <- drop_drop, H.
Qed.
Lemma rest_widths_push k v w ws : rest_widths k = w :: ws -> immediate_width s k = w /\ rest_widths (push_immediate s k v) = ws.
Proof.
  unfold rest_widths. intros H. split.
  - unfold immediate_width. fold info. fold widths. by rewrite <- (Nat.add_0_r (length _)), <- lookup_drop, H.
  - cbn. rewrite length_app. cbn [length]. by rewrite <- drop_drop, H.
Qed.

(** From [k] to [k1] the encoder has done operand [o], and [p] remains. *)
Definition advances (a : assembler) (syn : Syn) (p : list Syn) (o : Operand) (k k1 : pending) : Prop :=
  exists bs1 ims1, k1 = mk_pending (pn_operands k ++ bs1) (pn_immediates k ++ ims1) /\
    pattern_matches p (rest_slots k1) (rest_widths k1) = true /\
    forall l bs ims, encodes a p l (rest_slots k1) (rest_widths k1) bs ims ->
      encodes a (syn :: p) (o :: l) (rest_slots k) (rest_widths k) (bs1 ++ bs) (ims1 ++ ims).

Lemma advance_byte a syn p o k b slot sl : immediate_syn syn = false -> rest_slots k = slot :: sl -> byte_ok slot o b ->
  pattern_matches p sl (rest_widths k) = true -> advances a syn p o k (push_operand k b).
Proof.
  intros Hs Hd Hb Hp. exists [b], []. split; [by rewrite app_nil_r|]. destruct (rest_slots_push k b _ _ Hd) as [_ ->].
  change (rest_widths (push_operand k b)) with (rest_widths k). split; [done|]. intros. rewrite Hd. by apply encodes_byte.
Qed.
Lemma advance_immediate a syn p o k k1 w ws : immediate_syn syn = true -> operand_field o = None -> rest_widths k = w :: ws ->
  pushed s a syn o k k1 -> pattern_matches p (rest_slots k) ws = true -> advances a syn p o k k1.
Proof.
  intros Hs Hf Hd (v & -> & Hi) Hp. destruct (rest_widths_push k v _ _ Hd) as [Hw Hd']. rewrite Hw in Hi.
  exists [], [(v, w)]. split; [unfold push_immediate; by rewrite Hw, app_nil_r|]. rewrite Hd'.
  change (rest_slots (push_immediate s k v)) with (rest_slots k). split; [done|]. intros. rewrite Hd. by apply encodes_immediate.
Qed.
Lemma advance_both a syn p o k k1 b slot sl w ws : immediate_syn syn = true -> rest_slots k = slot :: sl -> rest_widths k = w :: ws ->
  byte_ok slot o b -> pushed s a syn o (push_operand k b) k1 -> pattern_matches p sl ws = true -> advances a syn p o k k1.
Proof.
  intros Hs Hd Hdw Hb (v & -> & Hi) Hp. destruct (rest_slots_push k b _ _ Hd) as [_ Hd'].
  destruct (rest_widths_push (push_operand k b) v _ _ Hdw) as [Hw Hdw']. rewrite Hw in Hi.
  exists [b], [(v, w)]. split; [unfold push_immediate; by rewrite Hw|]. rewrite Hdw'.
  change (rest_slots (push_immediate s (push_operand k b) v)) with (rest_slots (push_operand k b)). rewrite Hd'. split; [done|].
  intros. rewrite Hd, Hdw. by apply encodes_both.
Qed.

(** One operand at the head of a pattern that matches. *)
Lemma encode_operand_ok syn p o a k a1 k1 : context_words a -> operand_wf o ->
  pattern_matches (syn :: p) (rest_slots k) (rest_widths k) = true ->
  encode_operand s a k syn o = (a1, Some k1) -> same_context a a1 /\ advances a syn p o k k1.
Proof.
  intros Hc Ho Hm He.
  assert (Hx : forall e k', (if negb (is_expression o) then (error a (st_where s) e, None) else k') = (a1, Some k1) -> operand_field o = None).
  { intros e k'. destruct (is_expression o) eqn:E; [|done]. intros _. by apply expression_no_field. }
  destruct syn; simpl in He, Hm.
  - destruct (encode_register s k o) as [m|k2] eqn:E; [done|]. injection He as <- <-. split; [done|].
    destruct (rest_slots k) as [|slot sl] eqn:Hd; [done|]. apply andb_true_iff in Hm as [Hn%bool_decide_eq_true Hm].
    destruct (rest_slots_push k 0 _ _ Hd) as [Hslot _].
    destruct (encode_register_ok s k o k2 slot Ho Hslot Hn E) as (b & -> & Hb). by eapply advance_byte.
  - apply encode_memory_ok in He as (-> & b & Hb & ->); [|done..]. split; [done|].
    destruct (rest_slots k) as [|[] sl] eqn:Hd; try done. by eapply advance_byte.
  - apply encode_memory_ok in He as (-> & b & Hb & Hp); [|done..]. split; [done|].
    destruct (rest_slots k) as [|[] sl] eqn:Hd, (rest_widths k) as [|w ws] eqn:Hdw; try done.
    apply andb_true_iff in Hm as [_ Hm]. by eapply advance_both.
  - destruct (rest_widths k) as [|w ws] eqn:Hdw; [by destruct (rest_slots k)|].
    assert (Hm' : pattern_matches p (rest_slots k) ws = true) by (destruct (rest_slots k); by apply andb_true_iff in Hm as [_ Hm]).
    pose proof (Hx _ _ He). apply encode_immediate_ok in He as [-> Hp]; [|done]. split; [done|]. by eapply advance_immediate.
  - destruct (rest_widths k) as [|w ws] eqn:Hdw; [by destruct (rest_slots k)|].
    assert (Hm' : w = 4%nat /\ pattern_matches p (rest_slots k) ws = true) by (destruct (rest_slots k); apply andb_true_iff in Hm as [?%Nat.eqb_eq Hm]; done).
    destruct Hm' as [-> Hm']. pose proof (Hx _ _ He). destruct (rest_widths_push k 0 _ _ Hdw) as [Hw _].
    apply encode_target_ok in He as [Hs Hp]; [|done..]. split; [done|]. by eapply advance_immediate.
  - destruct (rest_widths k) as [|w ws] eqn:Hdw; [by destruct (rest_slots k)|].
    assert (Hm' : w = 8%nat /\ pattern_matches p (rest_slots k) ws = true) by (destruct (rest_slots k); apply andb_true_iff in Hm as [?%Nat.eqb_eq Hm]; done).
    destruct Hm' as [-> Hm']. pose proof (Hx _ _ He). destruct (rest_widths_push k 0 _ _ Hdw) as [Hw _].
    apply encode_absolute_ok in He as [Hs Hp]; [|done..]. split; [done|]. by eapply advance_immediate.
Qed.

Lemma encode_operands_ok pattern : forall l a k a' k', context_words a -> Forall operand_wf l -> length l = length pattern ->
  pattern_matches pattern (rest_slots k) (rest_widths k) = true ->
  encode_operands s a k pattern l = (a', Some k') ->
  same_context a a' /\ exists bs ims, k' = mk_pending (pn_operands k ++ bs) (pn_immediates k ++ ims) /\
    encodes a pattern l (rest_slots k) (rest_widths k) bs ims.
Proof.
  induction pattern as [|syn p IH]; intros l a k a' k' Hc Hl Hlen Hm He.
  - destruct l; [|done]. injection He as <- <-. split; [done|]. exists [], []. rewrite !app_nil_r. split; [by destruct k|].
    simpl in Hm. by destruct (rest_slots k), (rest_widths k).
  - destruct l as [|o l]; [done|]. apply Forall_cons in Hl as [Ho Hl]. injection Hlen as Hlen. simpl in He.
    destruct (encode_operand s a k syn o) as [a1 [k1|]] eqn:E1; [|done].
    apply (encode_operand_ok syn p) in E1 as [Hs (bs1 & ims1 & Hk1 & Hm1 & Hen)]; [|done..].
    apply IH in He as [Hs' (bs & ims & -> & He)]; [|by eapply context_words_same|done..].
    split; [by etrans|]. exists (bs1 ++ bs), (ims1 ++ ims). split; [rewrite Hk1; simpl; by rewrite !app_assoc|].
    apply Hen. by eapply encodes_same.
Qed.
End Operands.

(** ** Decoding *)

Section Decoding.
Context (m : memory) (root : Z) (level : privilege) (Hbare : Z.land root kModeMask = kModeBare).

(** [bytes] are at [pc] and in populated memory. *)
Definition holds (pc : Z) (bytes : list Z) : Prop :=
  forall i b, bytes !! i = Some b -> read_byte m (u64 (pc + Z.of_nat i)) = b /\ accessible m (u64 (pc + Z.of_nat i)) = true.

Lemma u64_add_u64 a b : u64 (u64 a + b) = u64 (a + b).
Proof. unfold u64. by rewrite Zplus_mod_idemp_l. Qed.
Lemma holds_cons pc b bs : holds pc (b :: bs) -> read_byte m (u64 pc) = b /\ accessible m (u64 pc) = true /\ holds (u64 (pc + 1)) bs.
Proof.
  intros H. destruct (H 0%nat b eq_refl) as [H1 H2]. rewrite Z.add_0_r in H1, H2. split; [done|]. split; [done|].
  intros i c Hi. destruct (H (S i) c Hi) as [H3 H4]. rewrite u64_add_u64. by replace (pc + 1 + Z.of_nat i) with (pc + Z.of_nat (S i)) by lia.
Qed.
Lemma holds_app pc l l' : holds pc (l ++ l') -> holds pc l /\ holds (u64 (pc + Z.of_nat (length l))) l'.
Proof.
  intros H. split.
  - intros i b Hi. apply H. by apply lookup_app_l_Some.
  - intros i b Hi. rewrite u64_add_u64, <- Z.add_assoc, <- Nat2Z.inj_add. apply H. rewrite lookup_app_r by lia. by rewrite Nat.add_sub', Hi || (rewrite Nat.add_comm, Nat.add_sub; exact Hi).
Qed.

Lemma fetch_held t pc b bs : word pc -> holds pc (b :: bs) -> fetch_byte m root level t pc = (inr b, t).
Proof.
  intros Hp (H1 & H2 & _)%holds_cons. unfold fetch_byte, translate. rewrite Hbare. unfold u64 in H1, H2. rewrite Z.mod_small in H1, H2 by exact Hp.
  cbn. by rewrite H2, H1.
Qed.
Lemma decode_operands_held slots bs : forall t pc, word pc ->
  Forall2 (fun slot b => byte b /\ form_is_legal slot (operand_form b) = true) slots bs -> holds pc bs ->
  decode_operands m root level t pc slots = (inr (fields_of <$> bs), t).
Proof.
  revert bs. induction slots as [|slot slots IH]; intros bs t pc Hp Hf Hh; apply Forall2_cons_inv_l in Hf || apply Forall2_nil_inv_l in Hf.
  - by subst.
  - destruct Hf as (b & bs' & [Hb Hl] & Hf & ->). simpl. rewrite (fetch_held t pc b bs' Hp Hh), Hl. simpl.
    apply holds_cons in Hh as (_ & _ & Hh). by rewrite (IH bs' t (u64 (pc + 1)) (word_u64 _) Hf Hh).
Qed.
Lemma immediate_bytes_length v n : length (immediate_bytes v n) = n.
Proof. revert v. induction n as [|n IH]; intros v; simpl; [done|]. by rewrite IH. Qed.
Lemma decode_immediate_held n : forall t pc v, word pc -> 0 <= v -> holds pc (immediate_bytes v n) ->
  decode_immediate m root level t pc n = (inr (v mod 2 ^ (8 * Z.of_nat n)), t).
Proof.
  induction n as [|n IH]; intros t pc v Hp Hv Hh; [simpl; by rewrite Z.mod_1_r|].
  cbn [decode_immediate]. simpl in Hh. rewrite (fetch_held t pc _ _ Hp Hh). apply holds_cons in Hh as (_ & _ & Hh).
  rewrite (IH t (u64 (pc + 1)) (Z.shiftr v 8) (word_u64 _)); [|by apply Z.shiftr_nonneg|done].
  by rewrite low_byte_lor.
Qed.
Lemma decode_immediates_held ims : forall t pc, word pc -> Forall (fun i => word i.1) ims ->
  holds pc (concat ((fun i => immediate_bytes (fst i) (snd i)) <$> ims)) ->
  decode_immediates m root level t pc ims.*2 = (inr ((fun i => i.1 mod 2 ^ (8 * Z.of_nat i.2)) <$> ims), t).
Proof.
  induction ims as [|[v w] ims IH]; intros t pc Hp Hw Hh; [done|]. apply Forall_cons in Hw as [Hv Hw].
  rewrite !fmap_cons in *. cbn [concat fst snd decode_immediates] in *. apply holds_app in Hh as [Hh1 Hh2]. rewrite immediate_bytes_length in Hh2.
  rewrite (decode_immediate_held w t pc v Hp (proj1 Hv) Hh1). by rewrite (IH t _ (word_u64 _) Hw Hh2).
Qed.
End Decoding.

(** ** The round trip *)

(** The instruction that a statement says: its opcode, the registers and forms
    that its operands name, and for each operand with an immediate field the
    low bits of its value, [field], from which the machine's extension
    recovers the value. *)
Record means_by (field : Syn -> Operand -> Z -> Prop) (s : Statement) (pc : Z) (d : decoded) : Prop := mk_means {
  mn_opcode : d_opcode d = st_opcode s;
  mn_pc : d_pc d = pc /\ d_next_pc d = u64 (pc + st_length s);
  mn_reg : d_reg d = (operand_fields (st_operands s)).*1;
  mn_form : d_form d = (operand_fields (st_operands s)).*2;
  mn_immediates : exists vs : list Z,
    let widths := (fun w => Z.of_nat w * 8) <$> sh_immediates (shape_info (oi_shape (opcode_info (st_opcode s)))) in
    Forall2 (fun p v => field p.1 p.2 v) (immediate_operands (pattern_for (st_opcode s)) (st_operands s)) vs /\
    d_immediate d = zip_with (fun v n => v mod 2 ^ n) vs widths /\
    Forall2 (fun p vn => recovered p.1 p.2 vn.1 vn.2) (immediate_operands (pattern_for (st_opcode s)) (st_operands s)) (zip vs widths) }.

Definition means (a : assembler) (s : Statement) : Z -> decoded -> Prop := means_by (denotes a s) s.
Definition encoded_as (a : assembler) (s : Statement) : Z -> decoded -> Prop := means_by (emitted a s) s.
Definition plain_targets (a : assembler) (s : Statement) : bool :=
  forallb (plain_target a) (immediate_operands (pattern_for (st_opcode s)) (st_operands s)).
Lemma encoded_means a s pc d : plain_targets a s = true -> encoded_as a s pc d -> means a s pc d.
Proof.
  intros Hp [H1 H2 H3 H4 (vs & Hd & Hi)]. split; [done..|]. exists vs. split; [|done]. clear Hi.
  unfold plain_targets in Hp. induction Hd as [|p v ps vs Hv _ IH]; [constructor|].
  cbn [forallb] in Hp. apply andb_true_iff in Hp as [Hp1 Hp]. constructor; [by apply emitted_denoted|by apply IH].
Qed.

(** What pass 1 leaves in a statement. *)
Definition resolved (s : Statement) : Prop :=
  select_opcode s = inr (st_opcode s) /\ st_length s = oi_length (opcode_info (st_opcode s)) /\ Forall operand_wf (st_operands s).

Lemma shape_widths_bound sh : Forall (fun w => (0 < w <= 8)%nat) (sh_immediates (shape_info sh)).
Proof. destruct sh; repeat constructor; lia. Qed.

(** ** The encoder's diagnostics *)

Definition ndiags (a : assembler) : nat := length (a_diags a).
(** A failure adds a diagnostic; nothing removes one. *)
Definition reports {A} (a : assembler) (r : assembler * option A) : Prop :=
  match r.2 with
  | None => (length (a_diags a) < length (a_diags r.1))%nat
  | Some _ => (length (a_diags a) <= length (a_diags r.1))%nat
  end.
Lemma error_length a w m : length (a_diags (error a w m)) = S (length (a_diags a)).
Proof. cbn. rewrite length_app. simpl. lia. Qed.
Lemma error_reports {A} a w m : reports (A := A) a (error a w m, None).
Proof. unfold reports. cbn [fst snd]. rewrite error_length. lia. Qed.
Lemma evaluate_reports a text w : reports a (evaluate a text w).
Proof.
  unfold evaluate. pose proof (parse_expression_returns (lookup_in_assembler a) (a_address a) text).
  destruct (parse_expression _ _ _); [done|apply error_reports|]. unfold reports. simpl. lia.
Qed.
Lemma relocation_length a off y ty ad w : (length (a_diags a) <= length (a_diags (add_relocation a off y ty ad w)))%nat.
Proof. unfold add_relocation. case_match; [rewrite error_length; lia|]. cbn. lia. Qed.
(** After an evaluation, a continuation that reports on the same state. *)
Lemma evaluated_reports {A} a text w (f : assembler -> ExprValue -> assembler * option A) :
  (forall v, reports a (f a v)) -> reports a (match evaluate a text w with (a1, None) => (a1, None) | (a1, Some v) => f a1 v end).
Proof.
  intros Hf. pose proof (evaluate_reports a text w) as He. destruct (evaluate a text w) as [a1 [v|]] eqn:E; [|exact He].
  apply evaluate_some in E as [-> _]. apply Hf.
Qed.
Ltac reporting := repeat first [apply error_reports | apply evaluated_reports; intros | case_match]; try (unfold reports; cbn; try apply relocation_length; lia).
Section RoundTrip.
Context (s : Statement) (Hr : resolved s).
Let info := opcode_info (st_opcode s).
Let shape := shape_info (oi_shape info).
Let pattern := pattern_for (st_opcode s).

Lemma resolved_opcode : 0 <= st_opcode s < 256 /\ oi_kind info = Assigned /\
  pattern_matches pattern (oi_slots info) (sh_immediates shape) = true /\ sh_operands shape = length (oi_slots info) /\
  st_length s = 1 + Z.of_nat (sh_operands shape) + Z.of_nat (sum_list (sh_immediates shape)).
Proof.
  destruct Hr as (Hs & Hl & _). apply selected_assigned in Hs as [Hb Hk]. pose proof (opcodes_sound _ Hb) as H.
  unfold opcode_sound in H. rewrite Hk in H. apply andb_true_iff in H as [[Hm Ho%Nat.eqb_eq]%andb_true_iff Hn%Z.eqb_eq].
  rewrite Hl. done.
Qed.
Lemma encoded_length a l bs ims : encodes s a pattern l (oi_slots info) (sh_immediates shape) bs ims ->
  length bs = sh_operands shape /\ length ims = length (sh_immediates shape) /\
  Z.of_nat (length (instruction_bytes s (mk_pending bs ims))) = st_length s.
Proof.
  intros [Hb _ Hw _]. destruct resolved_opcode as (_ & _ & _ & Ho & Hl). pose proof (Forall2_length _ _ _ Hb) as Hlb.
  assert (Hli : length ims = length (sh_immediates shape)) by (rewrite <- Hw, length_fmap; done).
  assert (Hc : length (concat ((fun i => immediate_bytes (fst i) (snd i)) <$> ims)) = sum_list (sh_immediates shape)).
  { rewrite <- Hw. clear. induction ims as [|[v w] ims IH]; [done|]. rewrite !fmap_cons. cbn [concat sum_list snd fst].
    rewrite length_app, immediate_bytes_length, IH. done. }
  split; [lia|]. split; [done|]. unfold instruction_bytes. cbn [length pn_operands pn_immediates]. rewrite length_app, Hc. lia.
Qed.
Lemma encoded_decodes a bs ims m root level t pc :
  encodes s a pattern (st_operands s) (oi_slots info) (sh_immediates shape) bs ims ->
  Z.land root kModeMask = kModeBare -> word pc -> holds m pc (instruction_bytes s (mk_pending bs ims)) ->
  exists d, decode_v2 m root level t pc = (inr d, t) /\ encoded_as a s pc d.
Proof.
  intros He Hbare Hp Hh. pose proof (encoded_length _ _ _ _ He) as (Hlb & Hli & _). destruct He as [Hb Hf Hw Hv].
  destruct resolved_opcode as (_ & Hk & _ & Ho & Hl). destruct Hr as (_ & Hlen & _).
  unfold instruction_bytes in Hh. cbn [pn_operands pn_immediates] in Hh. unfold decode_v2.
  rewrite (fetch_held m root level Hbare t pc _ _ Hp Hh). apply holds_cons in Hh as (_ & _ & Hh). apply holds_app in Hh as [Hh1 Hh2].
  fold info. rewrite Hk, (decode_operands_held m root level Hbare _ bs t _ (word_u64 _) Hb Hh1). fold shape. rewrite <- Hlb.
  assert (Hwd : Forall (fun i => word i.1) ims) by (clear -Hv; induction Hv as [|p i ? ? (_ & ? & _)]; constructor; done).
  rewrite <- Hw, (decode_immediates_held m root level Hbare ims t _ (word_u64 _) Hwd Hh2).
  eexists. split; [done|]. split; cbn [d_opcode d_pc d_next_pc d_reg d_form d_immediate]; [done| |by rewrite Hf|by rewrite Hf|].
  - split; [done|]. by rewrite Hlen.
  - exists ims.*1. fold info shape. rewrite <- Hw. split; [|split].
    + apply Forall2_fmap_r. eapply Forall2_impl; [exact Hv|]. by intros p i (? & _).
    + clear. induction ims as [|[v w] ims IH]; [done|]. rewrite !fmap_cons. cbn [zip_with fst snd]. f_equal; [f_equal; f_equal; lia|done].
    + pose proof (shape_widths_bound (oi_shape info)) as Hsb. fold shape in Hsb. rewrite <- Hw in Hsb. fold pattern. clear -Hv Hsb.
      induction Hv as [|p [v w] ps ims (_ & _ & Hff) Hv IH]; [constructor|]. rewrite !fmap_cons in *.
      apply Forall_cons in Hsb as [Hsw Hsb]. constructor; [by apply Hff|by apply IH].
Qed.

Lemma encode_operand_reports a k syn o : reports a (encode_operand s a k syn o).
Proof.
  destruct syn; cbn [encode_operand]; unfold encode_memory, encode_immediate, encode_absolute, encode_target, encode_address; reporting.
Qed.
Lemma encode_operands_reports p : forall l a k, reports a (encode_operands s a k p l).
Proof.
  induction p as [|syn p IH]; intros [|o l] a k; cbn [encode_operands]; try (unfold reports; cbn; lia).
  pose proof (encode_operand_reports a k syn o) as H. destruct (encode_operand s a k syn o) as [a1 [k1|]]; [|exact H].
  specialize (IH l a1 k1). unfold reports in *. destruct (encode_operands s a1 k1 p l) as [a2 [k2|]]; simpl in *; lia.
Qed.
Lemma emit_bytes_context a a' l : same_context a a' -> same_context (emit_bytes a l) (emit_bytes a' l).
Proof.
  revert a a'. induction l as [|b l IH]; intros a a' H; [done|]. cbn. apply IH. clear IH.
  destruct H as (H1 & H2 & H3 & H4 & H5 & H6 & H7 & H8 & H9).
  unfold emit_byte, put_byte, section_bytes. rewrite H5, H3. unfold same_context.
  destruct (a_second_pass a) eqn:?; [destruct (a_mode a) eqn:?|]; cbn; repeat (split; [congruence|]); congruence.
Qed.
Lemma emit_bytes_diags a l : a_diags (emit_bytes a l) = a_diags a.
Proof.
  revert a. induction l as [|b l IH]; intros a; [done|]. cbn. etrans; [apply IH|]. unfold emit_byte, put_byte. repeat case_match; done.
Qed.

(** The encoder without a new diagnostic: the bytes of the operands, which
    decode to what the statement says. *)
Lemma encode_instruction_ok a : context_words a -> (ndiags (encode_instruction s a) <= ndiags a)%nat ->
  exists bs ims, encodes s a pattern (st_operands s) (oi_slots info) (sh_immediates shape) bs ims /\
    same_context (emit_bytes a (instruction_bytes s (mk_pending bs ims))) (encode_instruction s a).
Proof.
  intros Hc. unfold encode_instruction. fold pattern. fold info. fold shape. destruct (negb _) eqn:El.
  { unfold ndiags. rewrite error_length. lia. }
  apply negb_false_iff, Nat.eqb_eq in El. pose proof (encode_operands_reports pattern (st_operands s) a (mk_pending [] [])) as Hrep.
  destruct (encode_operands s a _ pattern _) as [a1 [k|]] eqn:E; [|unfold ndiags, reports in *; simpl in *; lia].
  destruct resolved_opcode as (_ & _ & Hm & _). destruct Hr as (_ & _ & Hw).
  destruct (encode_operands_ok s pattern _ _ (mk_pending [] []) _ _ Hc Hw El Hm E) as [Hs (bs & ims & -> & He)].
  cbn [app pn_operands pn_immediates] in *.
  pose proof (encoded_length _ _ _ _ He) as (Hlb & Hli & _). unfold reports in Hrep; simpl in Hrep.
  destruct (negb _ || _) eqn:En.
  { unfold ndiags. rewrite error_length. lia. }
  intros _. exists bs, ims. split; [done|]. by apply emit_bytes_context.
Qed.
End RoundTrip.

(** The bytes of an instruction that the encoder accepts decode, wherever they
    are loaded, to that instruction. *)
Theorem instruction_roundtrip a s : resolved s -> context_words a -> (ndiags (encode_instruction s a) <= ndiags a)%nat ->
  exists bytes, Z.of_nat (length bytes) = st_length s /\ same_context (emit_bytes a bytes) (encode_instruction s a) /\
    forall m root level t pc, Z.land root kModeMask = kModeBare -> word pc -> holds m pc bytes ->
      exists d, decode_v2 m root level t pc = (inr d, t) /\ encoded_as a s pc d.
Proof.
  intros Hr Hc Hd. destruct (encode_instruction_ok s Hr a Hc Hd) as (bs & ims & He & Hs).
  exists (instruction_bytes s (mk_pending bs ims)). split; [by eapply encoded_length|]. split; [done|].
  intros. by eapply encoded_decodes.
Qed.
