(* ===== verification/V2AsmAgree.v ===== *)
(** * The two passes of the assembler agree on every address

    mzasm.h rests the two-pass design on one claim: pass 2 emits at the
    addresses that pass 1 assigned.  It holds because lengths come from the
    syntax and counts from constants, which [constant_settled] says do not
    change between the passes.  The proof is a simulation: a relation between
    the walk of pass 1 and the walk of pass 2 that every statement keeps when
    neither pass reports a diagnostic. *)
From Stdlib Require Import ZArith Lia Bool Ascii.
From stdpp Require Import base list numbers strings gmap pretty.
From S2P Require Import Prelude State V2Opcode V2Csr V2Translate V2Interp V2Word MzObj V2Mnemonic V2AsmExpr V2AsmSource V2AsmPasses V2AsmExprProps V2AsmRound.

(** ** Diagnostics only grow *)

Lemma ndiags_error a w m : ndiags (error a w m) = S (ndiags a).
Proof. apply error_length. Qed.
Lemma ndiags_evaluate a text w : (ndiags a <= ndiags (evaluate a text w).1)%nat.
Proof. pose proof (evaluate_reports a text w) as H. unfold reports in H. unfold ndiags. destruct (evaluate a text w) as [a' [v|]]; simpl in *; lia. Qed.
Lemma directive_size_reports a s : reports a (directive_size a s).
Proof. unfold directive_size, counted_size. reporting. Qed.
Lemma resolve_reports a s : reports a (resolve_opcode a s).
Proof. unfold resolve_opcode. reporting. Qed.
Lemma directive_size_some a s a' n : directive_size a s = (a', Some n) -> a' = a.
Proof.
  unfold directive_size, counted_size. intros H. repeat case_match; simplify_eq; try done;
    match goal with E : evaluate _ _ _ = (_, Some _) |- _ => by apply evaluate_some in E as [-> _] end.
Qed.

(** The operations of pass 1, unless they refuse, leave the assembler alone. *)
Lemma resolve_some a s a' b : resolve_opcode a s = (a', Some b) -> a' = a /\ select_opcode s = inr b.
Proof. unfold resolve_opcode. destruct (select_opcode s); [done|]. by intros [= <- <-]. Qed.

(** ** A statement of pass 1 that reports nothing *)

Definition table_ok (S : gmap string Symbol) : Prop :=
  forall s y, S !! s = Some y -> (sy_is_constant y = true -> sy_defined y = true) /\ word (sy_value y).
Definition table_settles (S S' : gmap string Symbol) : Prop := settles (fun n => query_of <$> S !! n) (fun n => query_of <$> S' !! n).

Record pass1_ok (p : pass1) : Prop := mk_ok1 {
  ok_address : word (a_address (p1_asm p));
  ok_table : table_ok (a_symbols (p1_asm p));
  ok_flat : a_mode (p1_asm p) = Flat -> p1_pending p = false;
  ok_counters : Forall word (p1_counters p);
  ok_base : word (a_flat_base (p1_asm p));
  ok_null : a_mode (p1_asm p) <> Sectioned -> a_current_section (p1_asm p) = 0 /\
    forall n y, a_symbols (p1_asm p) !! n = Some y -> sy_section y = 0 }.
(** A name's section is the open one, none, or the one it had. *)
Definition sections_within (p : pass1) (S' : gmap string Symbol) : Prop :=
  forall n y', S' !! n = Some y' -> sy_section y' = 0 \/ sy_section y' = a_current_section (p1_asm p) \/
    exists y, a_symbols (p1_asm p) !! n = Some y /\ sy_section y' = sy_section y.
Lemma sections_within_insert p name y' :
  sy_section y' = 0 \/ sy_section y' = a_current_section (p1_asm p) \/ sy_section y' = sy_section (default fresh_symbol (a_symbols (p1_asm p) !! name)) ->
  sections_within p (<[name := y']> (a_symbols (p1_asm p))).
Proof.
  intros H n z. destruct (decide (n = name)) as [->|Hne].
  - rewrite lookup_insert_eq. intros [= <-]. destruct H as [?|[?|H]]; [by left|by right; left|].
    destruct (a_symbols (p1_asm p) !! name) as [y|]; [|by left]. right. right. by exists y.
  - rewrite lookup_insert_ne by done. intros Hz. right. right. by exists z.
Qed.

Lemma settles_trans l1 l2 l3 : settles l1 l2 -> settles l2 l3 -> settles l1 l3.
Proof.
  intros H1 H2 s q Hq. destruct (H1 s q Hq) as (q2 & Hq2 & Hc & Hd). destruct (H2 s q2 Hq2) as (q3 & Hq3 & _ & Hd3).
  exists q3. split; [done|]. split; [done|]. intros D. destruct (Hd D) as (D2 & C2 & V2). destruct (Hd3 D2) as (D3 & C3 & V3). by rewrite C3, V3.
Qed.
Lemma table_settles_refl S : table_ok S -> table_settles S S.
Proof.
  intros HS s q Hq. exists q. split; [done|]. split; [|done]. destruct (S !! s) as [y|] eqn:E; [|done].
  injection Hq as <-. by apply (HS s y E).
Qed.
(** Redefining one name: what was defined keeps its value and its kind. *)
Lemma table_settles_insert S name y' : table_ok S ->
  (forall y, S !! name = Some y -> sy_defined y = true ->
     sy_defined y' = true /\ sy_is_constant y' = sy_is_constant y /\ sy_value y' = sy_value y) ->
  table_settles S (<[name := y']> S).
Proof.
  intros HS Hy s q Hq. destruct (S !! s) as [y|] eqn:E; [|done]. injection Hq as <-.
  destruct (decide (s = name)) as [->|Hne].
  - exists (query_of y'). rewrite lookup_insert_eq. split; [done|]. split; [by apply (HS name)|]. by apply Hy.
  - exists (query_of y). rewrite lookup_insert_ne, E by done. split; [done|]. split; [by apply (HS s)|]. done.
Qed.
Lemma table_ok_insert S name y' : table_ok S -> (sy_is_constant y' = true -> sy_defined y' = true) -> word (sy_value y') -> table_ok (<[name := y']> S).
Proof.
  intros HS Hc Hw s y. destruct (decide (s = name)) as [->|Hne]; [rewrite lookup_insert_eq; by intros [= <-]|].
  rewrite lookup_insert_ne by done. apply HS.
Qed.
Lemma table_default S name : table_ok S -> (sy_is_constant (default fresh_symbol (S !! name)) = true -> sy_defined (default fresh_symbol (S !! name)) = true)
  /\ word (sy_value (default fresh_symbol (S !! name))).
Proof. intros HS. destruct (S !! name) as [y|] eqn:E; [by apply (HS name)|]. split; [done|apply word_0]. Qed.

(** The statements that place bytes or reserve room. *)
Definition is_binding (name : string) : bool := bool_decide (name ∈ ["constant"; "global"; "extern"]).
Definition placing (s : Statement) : bool :=
  match st_kind s with
  | Label => false
  | Instruction => true
  | Directive => negb (bool_decide (st_name s = "section")) && negb (bool_decide (st_name s = "origin")) && negb (is_binding (st_name s))
  end.
(** Labels, and the directives that only bind names. *)
Definition naming (s : Statement) : bool :=
  match st_kind s with Label => true | Instruction => false | Directive => is_binding (st_name s) end.

Definition same_text (s s1 : Statement) : Prop := st_kind s1 = st_kind s /\ st_name s1 = st_name s /\ st_operands s1 = st_operands s.
Definition advance1 (p : pass1) (n : Z) : pass1 :=
  mk_pass1 ((p1_asm p) <| a_address := u64 (a_address (p1_asm p) + n) |>) (p1_counters p) (p1_pending p).

Inductive quiet (p : pass1) (s : Statement) : pass1 -> Statement -> Prop :=
| quiet_naming S' s1 : naming s = true -> same_text s s1 -> table_settles (a_symbols (p1_asm p)) S' -> table_ok S' -> sections_within p S' ->
    (st_kind s = Label -> st_address s1 = a_address (p1_asm p) /\
       exists y, S' !! st_name s = Some y /\ sy_value y = a_address (p1_asm p) /\ sy_section y = a_current_section (p1_asm p) /\
                 sy_defined y = true /\ sy_is_constant y = false) ->
    quiet p s (mk_pass1 ((p1_asm p) <| a_symbols := S' |>) (p1_counters p) (p1_pending p)) s1
| quiet_section kind s1 : st_kind s = Directive -> st_name s = "section" -> same_text s s1 -> a_mode (p1_asm p) <> Flat -> st_section s1 = kind ->
    let counters := <[Z.to_nat (a_current_section (p1_asm p)) := a_address (p1_asm p)]> (p1_counters p) in
    quiet p s (mk_pass1 ((((p1_asm p) <| a_mode := Sectioned |>) <| a_current_section := kind |>) <| a_address := counter counters kind |>)
                        counters (p1_pending p)) s1
| quiet_origin v s1 base bset : st_kind s = Directive -> st_name s = "origin" -> same_text s s1 -> a_mode (p1_asm p) <> Sectioned ->
    word v -> st_address s1 = v -> base = (if p1_pending p then v else a_flat_base (p1_asm p)) ->
    quiet p s (mk_pass1 (((((p1_asm p) <| a_mode := Flat |>) <| a_address := v |>) <| a_flat_base := base |>) <| a_flat_base_set := bset |>)
                        (p1_counters p) false) s1
| quiet_sized n s1 : st_kind s = Directive -> placing s = true -> same_text s s1 ->
    st_address s1 = a_address (p1_asm p) -> st_section s1 = a_current_section (p1_asm p) ->
    directive_size (p1_asm (decide_flat p true)) s1 = (p1_asm (decide_flat p true), Some n) ->
    quiet p s (advance1 (decide_flat p true) n) s1
| quiet_instruction s1 : st_kind s = Instruction -> same_text s s1 ->
    st_address s1 = a_address (p1_asm p) -> st_section s1 = a_current_section (p1_asm p) ->
    select_opcode s1 = inr (st_opcode s1) -> st_length s1 = oi_length (opcode_info (st_opcode s1)) ->
    (a_mode (p1_asm p) = Sectioned -> a_current_section (p1_asm p) = SEC_CODE) ->
    quiet p s (advance1 (decide_flat p true) (st_length s1)) s1.

(** What the first placing statement decides. *)
Lemma decide_flat_same p : same_context (p1_asm p) ((p1_asm (decide_flat p true)) <| a_mode := a_mode (p1_asm p) |> <| a_flat_base := a_flat_base (p1_asm p) |>)
  /\ p1_counters (decide_flat p true) = p1_counters p /\ ndiags (p1_asm (decide_flat p true)) = ndiags (p1_asm p).
Proof. unfold decide_flat. repeat case_match; done. Qed.
Lemma decide_flat_mode p : a_mode (p1_asm (decide_flat p true)) = match a_mode (p1_asm p) with Undecided => Flat | m => m end.
Proof. unfold decide_flat. destruct (p1_asm p) as [? md]; destruct md, (p1_pending p); done. Qed.
Lemma decide_flat_base p : pass1_ok p ->
  let base := bool_decide (a_mode (p1_asm p) = Undecided) && p1_pending p in
  a_flat_base (p1_asm (decide_flat p true)) = (if base then a_address (p1_asm p) else a_flat_base (p1_asm p)) /\
  p1_pending (decide_flat p true) = (if base then false else p1_pending p).
Proof.
  intros Hp. pose proof (ok_flat p Hp) as Hf. unfold decide_flat.
  destruct (p1_asm p) as [? md]; destruct md, (p1_pending p); simpl in *; try done. by specialize (Hf eq_refl).
Qed.

(** A refusal contradicts silence. *)
Ltac refused := match goal with H : ndiags _ = ndiags _ |- _ => exfalso; clear -H; unfold ndiags, error in H; cbn in H; rewrite ?length_app in H; cbn in H; lia end.

Section Quiet.
Context (p : pass1) (Hp : pass1_ok p).
#[local] Abbreviation a := (p1_asm p).

Lemma ok_context : context_words a.
Proof.
  split; [apply Hp|]. intros s q Hq. unfold lookup_in_assembler in Hq. destruct (a_symbols a !! s) as [y|] eqn:E; [|done].
  injection Hq as <-. by apply (ok_table p Hp s).
Qed.
Lemma label_quiet s p1 s1 : st_kind s = Label -> pass_one_label p (s <| st_section := a_current_section a |>) = (p1, s1) ->
  ndiags (p1_asm p1) = ndiags a -> quiet p s p1 s1.
Proof.
  intros Hk. unfold pass_one_label. cbn. set (y := default fresh_symbol _). destruct (sy_defined y) eqn:Ed; intros [= <- <-] Hq; [refused|].
  pose proof (table_default (a_symbols a) (st_name s) (ok_table p Hp)) as [Hc _]. fold y in Hc.
  assert (Hn : sy_is_constant y = false) by (destruct (sy_is_constant y); [|done]; specialize (Hc eq_refl); congruence).
  apply quiet_naming; [unfold naming; by rewrite Hk|done|..].
  - apply table_settles_insert; [apply Hp|]. intros y0 E D. exfalso. unfold y in Ed.  rewrite E in Ed. cbn in Ed. congruence.
  - apply table_ok_insert; [apply Hp| |apply Hp]. done.
  - apply sections_within_insert. by right; left.
  - intros _. split; [done|]. eexists. split; [apply lookup_insert_eq|]. done.
Qed.
Lemma constant_quiet s : st_name s = "constant" -> ndiags (pass_one_constant a s) = ndiags a ->
  exists S', pass_one_constant a s = a <| a_symbols := S' |> /\ table_settles (a_symbols a) S' /\ table_ok S' /\ sections_within p S'.
Proof.
  intros Hn. unfold pass_one_constant. destruct (st_operands s) as [|o [|e [|? ?]]]; try (intros; refused).
  destruct (match o_body o with Register _ => _ | _ => _ end); [intros; refused|].
  destruct (negb (is_identifier (o_text o))); [intros; refused|].
  destruct (match a_symbols a !! o_text o with Some y => _ | None => _ end) eqn:Ed; [intros; refused|].
  destruct (negb (is_expression e)); [intros; refused|].
  pose proof (evaluate_reports a (expression_text e) (st_where s)) as Hr.
  destruct (evaluate a _ _) as [a1 [v|]] eqn:Ee; [|intros H; unfold reports, ndiags in *; simpl in *; lia].
  pose proof (evaluate_word _ _ _ _ _ ok_context Ee) as Hv. apply evaluate_some in Ee as [-> _].
  destruct (is_relocatable v); [intros; refused|]. intros _. eexists. split; [done|]. split.
  - apply table_settles_insert; [apply Hp|]. intros y E D. by rewrite E, D in Ed.
  - split; [by apply table_ok_insert; [apply Hp|..]|]. apply sections_within_insert. by left.
Qed.
Lemma linkage_quiet s : ndiags (pass_one_linkage a s) = ndiags a ->
  exists S', pass_one_linkage a s = a <| a_symbols := S' |> /\ table_settles (a_symbols a) S' /\ table_ok S' /\ sections_within p S'.
Proof.
  unfold pass_one_linkage. destruct (st_operands s) as [|o [|? ?]]; try (intros; refused).
  destruct (negb _ || _); [intros; refused|]. intros _. eexists. split; [done|].
  pose proof (table_default (a_symbols a) (o_text o) (ok_table p Hp)) as [Hc Hw]. set (y := default fresh_symbol _) in *. split.
  - apply table_settles_insert; [apply Hp|]. intros y0 E D. assert (y = y0) as -> by (unfold y; by rewrite E). by case_bool_decide.
  - split; [apply table_ok_insert; [apply Hp|case_bool_decide; exact Hc|case_bool_decide; exact Hw]|].
    apply sections_within_insert. case_bool_decide; [by right; right|by left].
Qed.
Lemma decide_flat_false : decide_flat p false = p.
Proof.
  pose proof (ok_flat p Hp) as Hf. destruct p as [b l []]; simpl in *; unfold decide_flat; simpl; rewrite andb_false_r; [|done].
  case_bool_decide as Em; [|done]. by apply Hf in Em.
Qed.
Lemma section_quiet s p1 s1 : st_kind s = Directive -> st_name s = "section" ->
  pass_one_section p (s <| st_section := a_current_section a |>) = (p1, s1) -> ndiags (p1_asm p1) = ndiags a -> quiet p s p1 s1.
Proof.
  intros Hk Hn. unfold pass_one_section. case_bool_decide as Em; [intros [= <- <-] ?; refused|]. cbn [st_operands].
  destruct (st_operands _) as [|[t []] [|? ?]]; intros [= <- <-] Hq; try refused.
  by apply (quiet_section p s kind).
Qed.
Lemma origin_quiet s p1 s1 : st_kind s = Directive -> st_name s = "origin" ->
  pass_one_origin p (s <| st_section := a_current_section a |>) = (p1, s1) -> ndiags (p1_asm p1) = ndiags a -> quiet p s p1 s1.
Proof.
  intros Hk Hn. unfold pass_one_origin. case_bool_decide as Em; [intros [= <- <-] ?; refused|].
  destruct (st_operands _) as [|o [|? ?]]; try (intros [= <- <-] Hq; refused).
  destruct (negb (is_expression o)); [intros [= <- <-] Hq; refused|].
  set (a0 := a <| a_mode := Flat |>). pose proof (evaluate_reports a0 (expression_text o) (st_where (s <| st_section := a_current_section a |>))) as Hr.
  destruct (evaluate a0 _ _) as [a1 [v|]] eqn:Ee; [|intros [= <- <-] Hq; unfold reports, ndiags in *; simpl in *; lia].
  assert (Hc0 : context_words a0) by (exact ok_context).
  pose proof (evaluate_word _ _ _ _ _ Hc0 Ee) as Hv. apply evaluate_some in Ee as [-> _].
  destruct (is_relocatable v); [intros [= <- <-] Hq; refused|]. destruct (p1_pending p) eqn:Epd.
  - intros [= <- <-] _. by eapply (quiet_origin p s (ev_constant v) _ (ev_constant v) true); rewrite ?Epd.
  - case_match; intros [= <- <-] Hq; [refused|]. assert (He : forall x : assembler, (x <| a_flat_base := a_flat_base x |>) <| a_flat_base_set := a_flat_base_set x |> = x) by (by intros []).
    rewrite <- (He (a0 <| a_address := _ |>)).
    by eapply (quiet_origin p s (ev_constant v)); rewrite ?Epd.
Qed.

(** A statement that reports nothing did one of the five things. *)
Lemma pass_one_quiet s p1 s1 : Forall operand_wf (st_operands s) ->
  pass_one_statement p s = (p1, s1) -> ndiags (p1_asm p1) = ndiags a -> quiet p s p1 s1.
Proof.
  intros Hw. unfold pass_one_statement. change (st_kind (s <| st_section := a_current_section a |>)) with (st_kind s). destruct (st_kind s) eqn:Hk.
  - by apply label_quiet.
  - unfold pass_one_instruction. cbn. set (s0 := _ <| st_address := _ |>).
    destruct (bool_decide _ && _) eqn:Ec; [intros [= <- <-] ?; unfold decide_flat in *; repeat case_match; refused|].
    destruct (resolve_opcode _ s0) as [a1 [b|]] eqn:Er.
    + apply resolve_some in Er as [-> Hs]. intros [= <- <-] _. set (s2 := (s0 <| st_opcode := b |>) <| st_length := oi_length (opcode_info b) |>).
      assert (Hl : st_length s2 = oi_length (opcode_info b)) by reflexivity. rewrite <- Hl. apply (quiet_instruction p s s2); try done.
      intros Hm. apply andb_false_iff in Ec as [Ec|Ec].
      * apply bool_decide_eq_false in Ec. exfalso. apply Ec. by rewrite decide_flat_mode, Hm.
      * apply negb_false_iff, Z.eqb_eq in Ec. rewrite <- Ec. unfold decide_flat. by repeat case_match.
    + intros [= <- <-] Hq. pose proof (resolve_reports (p1_asm (decide_flat p true)) s0) as H. rewrite Er in H.
      destruct (decide_flat_same p) as (_ & _ & Hd). unfold reports, ndiags in *. simpl in *. lia.
  - unfold pass_one_directive. cbn [st_name]. change (st_name (s <| st_section := _ |>)) with (st_name s).
    case_bool_decide as En; [by apply section_quiet|]. case_bool_decide as En'; [by apply origin_quiet|].
    fold (is_binding (st_name s)). set (s0 := _ <| st_address := _ |>).
    destruct (is_binding (st_name s)) eqn:Eb; cbn [negb].
    + rewrite decide_flat_false.
      assert (Hn : naming s = true) by (unfold naming; by rewrite Hk).
      case_bool_decide as Ec.
      { intros [= <- <-] Hq. destruct (constant_quiet s0) as (S' & -> & ? & ? & ?); [done..|]. apply (quiet_naming p s S' s0); try done; by rewrite Hk. }
      destruct (bool_decide _ || _) eqn:Eg.
      { intros [= <- <-] Hq. destruct (linkage_quiet s0) as (S' & -> & ? & ? & ?); [done..|]. apply (quiet_naming p s S' s0); try done; by rewrite Hk. }
      exfalso. apply bool_decide_eq_true in Eb. apply orb_false_iff in Eg as [?%bool_decide_eq_false ?%bool_decide_eq_false]. set_solver.
    + assert (Hx : bool_decide (st_name s = "constant") = false /\ bool_decide (st_name s = "global") || bool_decide (st_name s = "extern") = false).
      { apply bool_decide_eq_false in Eb. rewrite !bool_decide_eq_false_2 by set_solver. done. }
      destruct Hx as [-> ->]. destruct (directive_size _ s0) as [a1 [n|]] eqn:Ed; intros [= <- <-] Hq.
      * pose proof (directive_size_some _ _ _ _ Ed) as ->. apply (quiet_sized p s n s0); try done.
        unfold placing. rewrite Hk, Eb, !bool_decide_eq_false_2 by done. done.
      * pose proof (directive_size_reports (p1_asm (decide_flat p true)) s0) as H. rewrite Ed in H.
        destruct (decide_flat_same p) as (_ & _ & Hd). unfold reports, ndiags in *. simpl in *. lia.
Qed.
End Quiet.

(** ** What a quiet statement keeps *)

(** [F] is a state that the walk of pass 1 can still end in. *)
Record leads (p : pass1) (F : assembler) : Prop := mk_leads {
  ld_mode : a_mode (p1_asm p) <> Undecided -> a_mode F = a_mode (p1_asm p);
  ld_base : p1_pending p = false -> a_flat_base F = a_flat_base (p1_asm p);
  ld_table : table_settles (a_symbols (p1_asm p)) (a_symbols F) }.

Lemma counter_word l k : Forall word l -> word (counter l k).
Proof. intros H. unfold counter. destruct (l !! Z.to_nat k) eqn:E; [by eapply Forall_lookup_1 in H|apply word_0]. Qed.
Lemma decide_flat_ok p : pass1_ok p -> pass1_ok (decide_flat p true).
Proof.
  intros Hp. destruct (decide_flat_same p) as ((Hs & Ha & _ & Hcs & _) & Hc & _). destruct (decide_flat_base p Hp) as [_ Hpd].
  pose proof (decide_flat_mode p) as Hm. change (a_symbols _) with (a_symbols (p1_asm (decide_flat p true))) in Hs at 1.
  change (a_address (p1_asm (decide_flat p true)) = a_address (p1_asm p)) in Ha.
  split; [rewrite Ha; apply Hp|rewrite Hs; apply Hp| |rewrite Hc; apply Hp| |].
  3: { rewrite Hm, Hs. intros Hx. change (a_current_section (p1_asm (decide_flat p true))) with (a_current_section ((p1_asm (decide_flat p true)) <| a_mode := a_mode (p1_asm p) |> <| a_flat_base := a_flat_base (p1_asm p) |>)).
       rewrite Hcs. apply (ok_null p Hp). by destruct (a_mode (p1_asm p)). }
  2: { destruct (decide_flat_base p Hp) as [-> _]. destruct (_ && _); apply Hp. }
  rewrite Hm, Hpd. pose proof (ok_flat p Hp). destruct (a_mode (p1_asm p)); cbn; [by destruct (p1_pending p)|done|done].
Qed.
Lemma decide_flat_leads p F : pass1_ok p -> leads (decide_flat p true) F -> leads p F.
Proof.
  intros Hp [Hm Hb Ht]. destruct (decide_flat_same p) as ((Hs & _) & _ & _). destruct (decide_flat_base p Hp) as [Hfb Hpd].
  change (a_symbols (p1_asm (decide_flat p true)) = a_symbols (p1_asm p)) in Hs. rewrite decide_flat_mode in Hm. rewrite Hs in Ht.
  rewrite Hpd, Hfb in Hb. split; [|intros Hpf|done].
  - intros Hu. destruct (a_mode (p1_asm p)); [done|by apply Hm..].
  - rewrite Hpf, andb_false_r in Hb. by apply Hb.
Qed.
Lemma quiet_ok p s p1 s1 : pass1_ok p -> quiet p s p1 s1 -> pass1_ok p1.
Proof.
  intros Hp [S' s1' Hn Ht Hs HS' Hsec _|kind s1' Hk Hn Ht Hm Hsec counters|v s1' base bset Hk Hn Ht Hm Hv Ha Hb|n s1' Hk Hn Ht Ha Hsec Hd|s1' Hk Ht Ha Hsec Hsel Hl Hm].
  - split; [apply Hp|done|apply Hp..|]. intros Hm. destruct (ok_null p Hp Hm) as [H0 Hn0]. split; [done|]. intros n y Hy. cbn in *.
    destruct (Hsec n y Hy) as [->|[->|(y0 & Hy0 & ->)]]; [done|done|by eapply Hn0].
  - assert (Hc : Forall word counters) by (apply Forall_insert; [apply Hp|apply Hp]).
    split; [by apply counter_word|apply Hp|done|done|apply Hp|done].
  - split; [done|apply Hp|done|apply Hp|cbn; rewrite Hb; case_match; [done|apply Hp]|]. intros _. by apply (ok_null p Hp).
  - pose proof (decide_flat_ok p Hp) as []. split; [apply word_u64|done..].
  - pose proof (decide_flat_ok p Hp) as []. split; [apply word_u64|done..].
Qed.
Lemma quiet_leads p s p1 s1 F : pass1_ok p -> quiet p s p1 s1 -> leads p1 F -> leads p F.
Proof.
  intros Hp Hq. destruct Hq as [S' s1' Hn Ht Hs HS' _ _|kind s1' Hk Hn Ht Hm Hsec counters|v s1' base bset Hk Hn Ht Hm Hv Ha Hb|n s1' Hk Hn Ht Ha Hsec Hd|s1' Hk Ht Ha Hsec Hsel Hl Hm]; intros [Lm Lb Lt]; cbn in *.
  - split; [done|done|]. by eapply settles_trans.
  - split; [|done|done]. intros Hu. rewrite Lm by done. by destruct (a_mode (p1_asm p)).
  - split; [|intros Hpf|done].
    + intros Hu. rewrite Lm by done. by destruct (a_mode (p1_asm p)).
    + rewrite Lb by done. by rewrite Hb, Hpf.
  - apply decide_flat_leads; [done|by split].
  - apply decide_flat_leads; [done|by split].
Qed.

(** ** What the second pass does with an emission *)

(** The counter moved by [n]; nothing that a later statement reads changed. *)
Record moved (a a' : assembler) (n : Z) : Prop := mk_moved {
  mv_symbols : a_symbols a' = a_symbols a;
  mv_mode : a_mode a' = a_mode a;
  mv_section : a_current_section a' = a_current_section a;
  mv_second : a_second_pass a' = a_second_pass a;
  mv_base : a_flat_base a' = a_flat_base a;
  mv_address : a_address a' = u64 (a_address a + n) }.

Lemma moved_trans a b c n k : moved a b n -> moved b c k -> moved a c (n + k).
Proof.
  intros [] []. split; try congruence. rewrite mv_address1, mv_address0, u64_add_u64. f_equal. lia.
Qed.
Lemma moved_0 a : word (a_address a) -> moved a a 0.
Proof. intros H. split; try done. rewrite Z.add_0_r. unfold u64. by rewrite Z.mod_small. Qed.
Lemma moved_context a a' b n : same_context a a' -> moved a' b n -> moved a b n.
Proof. intros (?&?&?&?&?&?&?&?&?) []. split; congruence. Qed.
Lemma emit_byte_moved a b : moved a (emit_byte a b) 1.
Proof. unfold emit_byte, put_byte. by destruct (a_second_pass a) eqn:?; [destruct (a_mode a) eqn:?|]. Qed.
Lemma emit_bytes_moved a l : word (a_address a) -> moved a (emit_bytes a l) (Z.of_nat (length l)).
Proof.
  revert a. induction l as [|b l IH]; intros a Ha; [by apply moved_0|].
  cbn [length].
  replace (Z.of_nat (S (length l))) with (1 + Z.of_nat (length l)) by lia.
  eapply moved_trans; [apply emit_byte_moved|]. apply IH. cbn. apply word_u64.
Qed.

(** A value that pass 1 read as a constant is the value that pass 2 reads. *)
Section SameValue.
Context (a1 a2 : assembler).
Context (Ht : table_settles (a_symbols a1) (a_symbols a2)) (Ha : a_address a2 = a_address a1).

Lemma same_constant text w w' a1' v a2' v' :
  evaluate a1 text w = (a1', Some v) -> is_relocatable v = false -> evaluate a2 text w' = (a2', Some v') -> a2' = a2 /\ v' = v.
Proof.
  intros [_ [r E]]%evaluate_some Hc [-> [r' E']]%evaluate_some. split; [done|].
  rewrite Ha in E'. by eapply (constant_settled _ _ _ Ht) in E'.
Qed.
Lemma evaluate_quiet text w a2' o : evaluate a2 text w = (a2', o) -> (ndiags a2' <= ndiags a2)%nat -> exists v, o = Some v /\ a2' = a2.
Proof.
  intros E Hn. pose proof (evaluate_reports a2 text w) as Hr. rewrite E in Hr. destruct o as [v|].
  - apply evaluate_some in E as [-> _]. eauto.
  - unfold reports, ndiags in *. simpl in *. lia.
Qed.
End SameValue.

Lemma padding_nonneg x k : 0 < k -> 0 <= padding_to x k.
Proof. intros Hk. unfold padding_to. pose proof (Z.mod_pos_bound x k Hk). case_match; lia. Qed.
Lemma emit_replicate_moved a n b : word (a_address a) -> 0 <= n -> moved a (emit_bytes a (replicate (Z.to_nat n) b)) n.
Proof. intros Ha Hn. pose proof (emit_bytes_moved a (replicate (Z.to_nat n) b) Ha) as H. rewrite length_replicate, Z2Nat.id in H; done. Qed.
Lemma ndiags_emit a l : ndiags (emit_bytes a l) = ndiags a.
Proof. unfold ndiags. by rewrite emit_bytes_diags. Qed.

Lemma emit_datum_moved a w wh o a' : context_words a -> emit_datum a w wh o = (a', true) -> moved a a' (Z.of_nat w).
Proof.
  intros Hc. unfold emit_datum, emit_immediate. destruct (negb (is_expression o)); [done|].
  destruct (evaluate a _ _) as [a1 [v|]] eqn:E; [|done]. apply evaluate_some in E as [-> _].
  assert (Hm : forall b z, same_context a b -> moved a (emit_bytes b (immediate_bytes z w)) (Z.of_nat w)).
  { intros b z Hs. eapply moved_context; [exact Hs|]. pose proof (emit_bytes_moved b (immediate_bytes z w)) as H.
    rewrite immediate_bytes_length in H. apply H. destruct Hs as (_ & -> & _). apply Hc. }
  repeat case_match; intros [= <-]; apply Hm; [apply relocation_context..|done].
Qed.
Lemma emit_datum_diags a w wh o : (ndiags a + (if (emit_datum a w wh o).2 then 0 else 1) <= ndiags (emit_datum a w wh o).1)%nat.
Proof.
  unfold emit_datum, emit_immediate. destruct (negb (is_expression o)); [cbn; rewrite length_app; cbn; unfold ndiags; lia|].
  pose proof (evaluate_reports a (expression_text o) wh) as Hr. destruct (evaluate a _ _) as [a1 [v|]]; unfold reports, ndiags in *; simpl in *; [|lia].
  repeat case_match; cbn [fst snd] in *; try discriminate; rewrite ?emit_bytes_diags, ?error_length; try lia; (etrans; [|apply relocation_length]); lia.
Qed.
Lemma moved_words a a' n : moved a a' n -> context_words a -> context_words a'.
Proof. intros [] [Ha Ht]. split; [rewrite mv_address0; apply word_u64|]. unfold lookup_in_assembler. by rewrite mv_symbols0. Qed.
Lemma emit_data_moved w wh l : forall a, context_words a -> (ndiags (emit_data a w wh l) <= ndiags a)%nat ->
  moved a (emit_data a w wh l) (Z.of_nat (length l) * Z.of_nat w).
Proof.
  assert (Hge : forall l0 a, (ndiags a <= ndiags (emit_data a w wh l0))%nat).
  { intros l0. induction l0 as [|o l' IH]; intros a; [apply Nat.le_refl|]. cbn [emit_data]. pose proof (emit_datum_diags a w wh o) as H.
    destruct (emit_datum a w wh o) as [a' []]; simpl in H; [|lia]. specialize (IH a'). lia. }
  induction l as [|o l IH]; intros a Hc Hn; [apply moved_0, Hc|]. cbn [emit_data length] in *.
  pose proof (emit_datum_diags a w wh o) as Hd. destruct (emit_datum a w wh o) as [a' []] eqn:E; simpl in Hd; [|lia].
  specialize (Hge l a'). apply emit_datum_moved in E; [|done]. replace (Z.of_nat (S (length l)) * Z.of_nat w) with (Z.of_nat w + Z.of_nat (length l) * Z.of_nat w) by lia.
  eapply moved_trans; [exact E|]. apply IH; [by eapply moved_words|lia].
Qed.

(** Tests of a known name, evaluated. *)
Ltac known_names :=
  repeat match goal with
  | |- context [data_directive_width ?n] => let k := eval vm_compute in (data_directive_width n) in change (data_directive_width n) with k
  | |- context [bool_decide ?P] => let b := eval vm_compute in (bool_decide P) in
      (first [constr_eq b true | constr_eq b false]); change (bool_decide P) with b
  end; cbn [negb andb Nat.eqb].

(** The directives that have a size, one by one. *)
Section Sized.
Context (a1 a2 : assembler) (s : Statement) (n : Z).
Context (Ht : table_settles (a_symbols a1) (a_symbols a2)) (Ha : a_address a2 = a_address a1) (Hc : context_words a2).

Lemma counted_directive : st_name s ∈ ["align"; "reserve"; "data_fill"] -> directive_size a1 s = (a1, Some n) ->
  exists o l v, st_operands s = o :: l /\ evaluate a1 (expression_text o) (st_where s) = (a1, Some v) /\
    is_relocatable v = false /\ counted_size a1 s (ev_constant v) = (a1, Some n).
Proof.
  intros Hs Hd. unfold directive_size in Hd. destruct (_ && _ && _) in Hd; [done|].
  assert (Hg : forall x y z : assembler * option Z, (if negb (data_directive_width (st_name s) =? 0)%nat then x
    else if bool_decide (st_name s ∈ ["data_string"; "data_string_zero"]) then y
    else if bool_decide (st_name s ∈ ["data_fill"; "reserve"; "align"]) then z else (error a1 (st_where s) (in_quotes (st_name s) +:+ " is not a directive"), None)) = z).
  { intros x y z. rewrite !elem_of_cons in Hs. destruct Hs as [-> |[-> |[-> |Hs]]]; [by known_names..|by apply not_elem_of_nil in Hs]. }
  rewrite Hg in Hd. destruct (st_operands s) as [|o l] eqn:Eo; [done|]. destruct (negb (is_expression o)); [done|].
  destruct (evaluate a1 _ _) as [a1' [v|]] eqn:E; [|done]. destruct (evaluate_some _ _ _ _ _ E) as [-> _].
  destruct (is_relocatable v) eqn:Er; [done|]. eauto 10.
Qed.
Lemma counted_value o l a1' v : st_operands s = o :: l -> evaluate a1 (expression_text o) (st_where s) = (a1', Some v) ->
  is_relocatable v = false -> forall f, (ndiags (match evaluate a2 (expression_text o) (st_where s) with (a, None) => a | (a, Some v) => f a v end) <= ndiags a2)%nat ->
  match evaluate a2 (expression_text o) (st_where s) with (a, None) => a | (a, Some v) => f a v end = f a2 v /\ word (ev_constant v).
Proof.
  intros Ho E Hr f Hn. pose proof (evaluate_reports a2 (expression_text o) (st_where s)) as Hrep.
  destruct (evaluate a2 _ _) as [a2' [v'|]] eqn:E2; [|unfold reports, ndiags in *; simpl in *; lia].
  pose proof (evaluate_word _ _ _ _ _ Hc E2). by destruct (same_constant a1 a2 Ht Ha _ _ _ _ _ _ _ E Hr E2) as [-> ->].
Qed.
Lemma align_moved : st_name s = "align" -> directive_size a1 s = (a1, Some n) -> (ndiags (emit_align a2 s) <= ndiags a2)%nat ->
  moved a2 (emit_align a2 s) n.
Proof.
  intros Hs (o & l & v & Eo & E & Er & Hd)%counted_directive; [|rewrite Hs; set_solver]. revert Hd. unfold counted_size. rewrite Hs. known_names.
  destruct (negb _); [done|]. destruct ((_ =? 0) || _) eqn:E0; [done|]. intros [= <-].
  unfold emit_align. rewrite Eo. intros Hn. destruct (counted_value o l _ v Eo E Er _ Hn) as [-> Hv].
  apply orb_false_iff in E0 as [E0%Z.eqb_neq _]. rewrite <- Ha. pose proof (padding_nonneg (a_address a2) (ev_constant v) ltac:(destruct Hv; lia)) as Hp.
  destruct (_ && _); [by split|]. by apply emit_replicate_moved; [apply Hc|].
Qed.
Lemma reserve_moved : st_name s = "reserve" -> directive_size a1 s = (a1, Some n) -> (ndiags (emit_reserve a2 s) <= ndiags a2)%nat ->
  moved a2 (emit_reserve a2 s) n.
Proof.
  intros Hs (o & l & v & Eo & E & Er & Hd)%counted_directive; [|rewrite Hs; set_solver]. revert Hd. unfold counted_size. rewrite Hs. known_names.
  destruct (negb _); [done|]. destruct (_ && _); [done|]. intros [= <-].
  unfold emit_reserve. rewrite Eo. intros Hn. destruct (counted_value o l _ v Eo E Er _ Hn) as [-> Hv]. by split.
Qed.
Lemma fill_moved : st_name s = "data_fill" -> directive_size a1 s = (a1, Some n) -> (ndiags (emit_fill a2 s) <= ndiags a2)%nat ->
  moved a2 (emit_fill a2 s) n.
Proof.
  intros Hs (o & l & v & Eo & E & Er & Hd)%counted_directive; [|rewrite Hs; set_solver]. revert Hd. unfold counted_size. rewrite Hs. known_names.
  destruct (negb _) eqn:El; [done|]. intros [= <-]. rewrite Eo in El.
  unfold emit_fill. rewrite Eo. destruct l as [|o' l]; [done|]. intros Hn. destruct (counted_value o _ _ v Eo E Er _ Hn) as [Heq Hv].
  rewrite Heq in Hn |- *. pose proof (evaluate_reports a2 (expression_text o') (st_where s)) as Hrep.
  destruct (evaluate a2 (expression_text o') _) as [a2' [v'|]] eqn:E2; [|unfold reports, ndiags in *; simpl in *; lia].
  apply evaluate_some in E2 as [-> _]. destruct (_ || _); [rewrite ndiags_error in Hn; lia|].
  by apply emit_replicate_moved; [apply Hc|apply Hv].
Qed.
Lemma string_moved : st_name s = "data_string" \/ st_name s = "data_string_zero" -> directive_size a1 s = (a1, Some n) ->
  moved a2 (emit_string a2 s) n.
Proof.
  intros Hs. unfold directive_size, emit_string. destruct Hs as [-> | ->]; (destruct (_ && _ && _); [done|]); known_names;
    destruct (st_operands s) as [|[t []] [|? ?]]; try done; intros [= <-]; pose proof (emit_bytes_moved a2) as Hm.
  - rewrite app_nil_r, Z.add_0_r. apply Hm, Hc.
  - specialize (Hm (value ++ [0]) (proj1 Hc)). rewrite length_app in Hm. cbn [length] in Hm. by rewrite Nat2Z.inj_add in Hm.
Qed.
Lemma data_moved : data_directive_width (st_name s) <> 0%nat -> directive_size a1 s = (a1, Some n) ->
  (ndiags (emit_data a2 (data_directive_width (st_name s)) (st_where s) (st_operands s)) <= ndiags a2)%nat ->
  moved a2 (emit_data a2 (data_directive_width (st_name s)) (st_where s) (st_operands s)) n.
Proof.
  intros Hw. unfold directive_size. destruct (_ && _ && _); [done|]. rewrite (proj2 (Nat.eqb_neq _ _) Hw). cbn.
  destruct (st_operands s) as [|o l]; [done|]. intros [= <-] Hn. by apply (emit_data_moved _ _ (o :: l)).
Qed.

(** A sized directive: pass 2 moves by the size of pass 1. *)
Lemma emit_directive_moved : st_kind s = Directive -> placing s = true -> directive_size a1 s = (a1, Some n) ->
  (ndiags (emit_directive a2 s) <= ndiags a2)%nat -> moved a2 (emit_directive a2 s) n.
Proof.
  intros Hk Hpl Hd. unfold placing in Hpl. rewrite Hk in Hpl. apply andb_true_iff in Hpl as [_ Hb%negb_true_iff]. unfold is_binding in Hb.
  unfold emit_directive. rewrite Hb. clear Hb. case_bool_decide as E1; [by apply align_moved|]. case_bool_decide as E2; [by apply reserve_moved|].
  case_bool_decide as E3; [intros _; apply string_moved; [set_solver|done]|]. case_bool_decide as E4; [by apply fill_moved|].
  case_match eqn:E5; [intros Hn; rewrite ndiags_error in Hn; lia|]. apply data_moved; [|done]. by apply Nat.eqb_neq.
Qed.
End Sized.

(** ** The simulation *)

(** Before a statement: the walk [p] of pass 1 and the state of pass 2, which
    runs with the final table of [F].  The counters agree, except before the
    first placing statement of a flat image that an origin opens. *)
Record passes_match (F : assembler) (p : pass1) (q : assembler * list Z) : Prop := mk_match {
  pm_counters : q.2 = p1_counters p;
  pm_section : a_current_section q.1 = a_current_section (p1_asm p);
  pm_symbols : a_symbols q.1 = a_symbols F;
  pm_mode : a_mode q.1 = a_mode F;
  pm_base : a_flat_base q.1 = a_flat_base F;
  pm_second : a_second_pass q.1 = true;
  pm_word : word (a_address q.1);
  pm_address : a_address q.1 = a_address (p1_asm p) \/
    (p1_pending p = true /\ a_mode F = Flat /\ a_address (p1_asm p) = 0 /\ a_address q.1 = a_flat_base F) }.

Section Simulation.
Context (F : assembler) (HF : table_ok (a_symbols F)).

Lemma match_context p q : passes_match F p q -> context_words q.1.
Proof.
  intros []. split; [done|]. intros s k Hk. unfold lookup_in_assembler in Hk. rewrite pm_symbols0 in Hk.
  destruct (a_symbols F !! s) as [y|] eqn:E; [|done]. injection Hk as <-. by apply (HF s).
Qed.
(** Once a placing statement has decided the mode, the counters agree. *)
Lemma match_decided p q : pass1_ok p -> passes_match F p q -> leads (decide_flat p true) F ->
  passes_match F (decide_flat p true) q /\ a_address q.1 = a_address (p1_asm p).
Proof.
  intros Hp Hm [Lm Lb _]. destruct (decide_flat_same p) as ((_ & Ha & _ & Hs & _) & Hc & _).
  change (a_address (p1_asm (decide_flat p true)) = a_address (p1_asm p)) in Ha.
  change (a_current_section (p1_asm (decide_flat p true)) = a_current_section (p1_asm p)) in Hs.
  assert (He : a_address q.1 = a_address (p1_asm p)).
  { destruct (pm_address _ _ _ Hm) as [|(Hpd & Hfl & H0 & H1)]; [done|]. rewrite H1, H0.
    destruct (decide_flat_base p Hp) as [Hfb Hpd']. rewrite decide_flat_mode in Lm. pose proof (ok_flat p Hp).
    destruct (a_mode (p1_asm p)) eqn:Em; cbn in *.
    - rewrite Hpd in *. rewrite Lb, Hfb; done.
    - rewrite H in Hpd by done. done.
    - rewrite Lm in Hfl; done. }
  split; [|done]. destruct Hm. split; rewrite ?Hc, ?Hs, ?Ha; auto.
Qed.
Lemma match_advance p q a' n : passes_match F p q -> a_address q.1 = a_address (p1_asm p) -> moved q.1 a' n ->
  passes_match F (advance1 p n) (a', q.2).
Proof.
  intros Hm He []. destruct Hm. split; cbn; try congruence; [by rewrite mv_address0; apply word_u64|]. left. by rewrite mv_address0, He.
Qed.

(** A name emits nothing. *)
Lemma pass_two_naming q s : naming s = true -> pass_two_statement q s = q /\ placing s = false.
Proof.
  destruct q as [a2 counters2]. unfold naming, placing, pass_two_statement. destruct (st_kind s); [done|done|]. intros Hb.
  unfold emit_directive. unfold is_binding in *. rewrite Hb. rewrite andb_false_r. apply bool_decide_eq_true in Hb.
  rewrite !bool_decide_eq_false_2; [done|intros Hx; rewrite Hx in Hb; set_solver..].
Qed.

(** One statement. *)
Lemma match_step p s p1 s1 q : pass1_ok p -> Forall operand_wf (st_operands s) -> quiet p s p1 s1 -> leads p1 F -> passes_match F p q ->
  (ndiags (pass_two_statement q s1).1 <= ndiags q.1)%nat ->
  passes_match F p1 (pass_two_statement q s1) /\
  (placing s1 = true -> a_address q.1 = st_address s1 /\ a_current_section q.1 = st_section s1).
Proof.
  intros Hp Hw Hq Hl Hm Hn. destruct q as [a2 counters2]. unfold pass_two_statement in *.
  destruct Hq as [S' s1 Hnm (Ek & En & Eo) Hs HS' _ _|kind s1 Hk Hnm (Ek & En & Eo) Hmd Hsec counters
    |v s1 base bset Hk Hnm (Ek & En & Eo) Hmd Hv Ha Hb|n s1 Hk Hpl (Ek & En & Eo) Ha Hsec Hd|s1 Hk (Ek & En & Eo) Ha Hsec Hsel Hlen Hcode].
  - assert (Hnm1 : naming s1 = true) by (unfold naming in *; by rewrite Ek, En).
    destruct (pass_two_naming (a2, counters2) s1 Hnm1) as [Heq ->]. unfold pass_two_statement in Heq. rewrite Heq. split; [|done].
    destruct Hm. by split.
  - rewrite Ek, Hk, En, Hnm. rewrite bool_decide_eq_true_2 by done. assert (HM : a_mode F = Sectioned) by (by apply Hl).
    destruct Hm as [Hm1 Hm2 Hm3 Hm4 Hm5 Hm6 Hm7 [Hm8|(_ & Hf & _)]]; [|congruence]. cbn [fst snd] in *. split.
    + rewrite Hm1, Hm2, Hm8, Hsec. split; cbn; try done; [|by left]. apply counter_word, Forall_insert; apply Hp.
    + unfold placing. rewrite Ek, Hk, En, Hnm. done.
  - rewrite Ek, Hk, En, Hnm. rewrite bool_decide_eq_false_2, bool_decide_eq_true_2 by done. split.
    + destruct Hm as [Hm1 Hm2 Hm3 Hm4 Hm5 Hm6 Hm7 _]. split; cbn; try done; [by rewrite Ha|by left].
    + unfold placing. rewrite Ek, Hk, En, Hnm. done.
  - assert (Hl' : leads (decide_flat p true) F) by (by destruct Hl). destruct (match_decided p (a2, counters2) Hp Hm Hl') as [Hm' He].
    assert (Hpl1 : placing s1 = true) by (unfold placing in *; by rewrite Ek, En). cbn [fst] in *.
    rewrite Ek, Hk in *. assert (Hns : bool_decide (st_name s1 = "section") = false /\ bool_decide (st_name s1 = "origin") = false).
    { unfold placing in Hpl1. rewrite Ek in Hpl1. by apply andb_true_iff in Hpl1 as [[?%negb_true_iff ?%negb_true_iff]%andb_true_iff _]. }
    destruct Hns as [E1 E2]. rewrite E1, E2 in *. cbn [fst] in Hn.
    assert (Hadr : a_address a2 = a_address (p1_asm (decide_flat p true))) by (rewrite He; symmetry; apply (decide_flat_same p)).
    assert (Hmv : moved a2 (emit_directive a2 s1) n).
    { apply (emit_directive_moved (p1_asm (decide_flat p true)) a2); try done.
      - destruct Hl' as [_ _ Hl']. pose proof (pm_symbols _ _ _ Hm) as Hsy. cbn in Hsy. by rewrite Hsy.
      - by apply (match_context p (a2, counters2)). }
    split; [by apply (match_advance _ (a2, counters2))|]. intros _. rewrite Ha, Hsec. split; [done|]. by destruct Hm.
  - assert (Hl' : leads (decide_flat p true) F) by (by destruct Hl). destruct (match_decided p (a2, counters2) Hp Hm Hl') as [Hm' He].
    rewrite Ek, Hk in *. cbn [fst] in *. assert (Hr : resolved s1) by (split; [done|]; split; [done|by rewrite Eo]).
    assert (Hadr : a_address a2 = a_address (p1_asm (decide_flat p true))) by (rewrite He; symmetry; apply (decide_flat_same p)).
    destruct (resolved_opcode s1 Hr) as (_ & _ & _ & _ & Hlen'). rewrite (proj2 (Z.eqb_neq _ _)) in Hn |- * by lia. cbn [fst] in Hn.
    destruct (encode_instruction_ok s1 Hr a2 (match_context p (a2, counters2) Hm) Hn) as (bs & ims & Hen & Hctx).
    assert (Hmv : moved a2 (encode_instruction s1 a2) (st_length s1)).
    { destruct (encoded_length s1 Hr a2 _ _ _ Hen) as (_ & _ & <-). pose proof (emit_bytes_moved a2 (instruction_bytes s1 (mk_pending bs ims)) (pm_word _ _ _ Hm)) as Hmv.
      destruct Hctx as (?&?&?&?&?&?&?&?&?), Hmv. split; congruence. }
    split; [by apply (match_advance _ (a2, counters2))|]. intros _. rewrite Ha, Hsec. split; [done|]. by destruct Hm.
Qed.
End Simulation.

(** ** The loops *)

Lemma decide_flat_diags p b : ndiags (p1_asm (decide_flat p b)) = ndiags (p1_asm p).
Proof. unfold decide_flat. by repeat case_match. Qed.
Lemma constant_diags a s : (ndiags a <= ndiags (pass_one_constant a s))%nat.
Proof.
  unfold pass_one_constant. pose proof (fun t w => ndiags_evaluate a t w) as He.
  repeat (case_match; rewrite ?ndiags_error; try lia).
  all: match goal with H : evaluate ?x ?t ?w = _ |- _ => specialize (He t w); rewrite H in He; simpl in He end; try lia; rewrite ?ndiags_error; try lia; done.
Qed.
Lemma linkage_diags a s : (ndiags a <= ndiags (pass_one_linkage a s))%nat.
Proof. unfold pass_one_linkage. repeat case_match; rewrite ?ndiags_error; try lia; done. Qed.
Lemma section_diags p s : (ndiags (p1_asm p) <= ndiags (p1_asm (pass_one_section p s).1))%nat.
Proof. unfold pass_one_section. repeat case_match; cbn [fst p1_asm]; rewrite ?ndiags_error; try lia; done. Qed.
Lemma origin_diags p s : (ndiags (p1_asm p) <= ndiags (p1_asm (pass_one_origin p s).1))%nat.
Proof.
  unfold pass_one_origin. pose proof (fun t w => ndiags_evaluate ((p1_asm p) <| a_mode := Flat |>) t w) as He.
  change (ndiags ((p1_asm p) <| a_mode := Flat |>)) with (ndiags (p1_asm p)) in He.
  repeat case_match; cbn [fst p1_asm]; rewrite ?ndiags_error; try (cbn; unfold ndiags; cbn; lia).
  all: match goal with H : evaluate ?x ?t ?w = _ |- _ => specialize (He t w); rewrite H in He; simpl in He end; try lia;
    unfold ndiags in *; cbn in *; lia.
Qed.
Lemma pass_one_statement_diags p s : (ndiags (p1_asm p) <= ndiags (p1_asm (pass_one_statement p s).1))%nat.
Proof.
  unfold pass_one_statement, pass_one_label, pass_one_directive, pass_one_instruction. destruct (st_kind _).
  - case_match; cbn [fst p1_asm]; rewrite ?ndiags_error; try lia; done.
  - case_match; [cbn [fst p1_asm]; rewrite ndiags_error, decide_flat_diags; lia|].
    pose proof (resolve_reports (p1_asm (decide_flat p true))) as Hrr. match goal with |- context [resolve_opcode ?x ?y] => specialize (Hrr y); destruct (resolve_opcode x y) as [b [o|]] end;
      pose proof (decide_flat_diags p true); unfold reports, ndiags in *; simpl in *; lia.
  - case_bool_decide; [apply (section_diags p)|]. case_bool_decide; [apply (origin_diags p)|].
    case_bool_decide; [cbn [fst p1_asm]; etrans; [|apply constant_diags]; by rewrite decide_flat_diags|].
    case_match; [cbn [fst p1_asm]; etrans; [|apply linkage_diags]; by rewrite decide_flat_diags|].
    match goal with |- context [directive_size ?x ?y] => pose proof (directive_size_reports x y) as Hrr; assert (Hx : ndiags x = ndiags (p1_asm p)) by apply decide_flat_diags; destruct (directive_size x y) as [b [o|]] end;
      unfold reports, ndiags in *; simpl in *; lia.
Qed.
Lemma pass_one_loop_diags l : forall p p' l', pass_one_loop p l = (p', l') -> (ndiags (p1_asm p) <= ndiags (p1_asm p'))%nat.
Proof.
  induction l as [|s l IH]; intros p p' l' H; cbn [pass_one_loop] in H; [by injection H as <- <-|].
  pose proof (pass_one_statement_diags p s) as H1. destruct (pass_one_statement p s) as [p1 s1]. destruct (pass_one_loop p1 l) as [p2 l2] eqn:E.
  injection H as <- <-. apply IH in E. simpl in H1. lia.
Qed.

Lemma emit_directive_diags a s : (ndiags a <= ndiags (emit_directive a s))%nat.
Proof.
  assert (Hd : forall w wh l b, (ndiags b <= ndiags (emit_data b w wh l))%nat).
  { intros w wh l. induction l as [|o l IH]; intros b; [apply Nat.le_refl|]. cbn [emit_data]. pose proof (emit_datum_diags b w wh o) as H.
    destruct (emit_datum b w wh o) as [b' []]; simpl in H; [|lia]. specialize (IH b'). lia. }
  pose proof (ndiags_evaluate a) as He.
  unfold emit_directive, emit_align, emit_reserve, emit_string, emit_fill.
  repeat (case_match; rewrite ?ndiags_error, ?ndiags_emit; try lia); try apply Hd;
    repeat match goal with H : evaluate ?x ?t ?w = (?y, _) |- _ => pose proof (ndiags_evaluate x t w); rewrite H in *; simpl in *; clear H end;
    try lia; unfold ndiags in *; cbn; lia.
Qed.
Lemma pass_two_statement_diags q s : (ndiags q.1 <= ndiags (pass_two_statement q s).1)%nat.
Proof.
  destruct q as [a counters]. unfold pass_two_statement. destruct (st_kind s); [done| |].
  - case_match; [done|]. cbn [fst]. unfold encode_instruction. case_match; [rewrite ndiags_error; lia|].
    pose proof (encode_operands_reports s (pattern_for (st_opcode s)) (st_operands s) a (mk_pending [] [])) as Hr.
    destruct (encode_operands _ _ _ _ _) as [a1 [k|]]; unfold reports in Hr; simpl in Hr; [|unfold ndiags; lia].
    case_match; [rewrite ndiags_error|rewrite ndiags_emit]; unfold ndiags; lia.
  - case_match; [done|]. case_match; [done|]. apply emit_directive_diags.
Qed.
Lemma pass_two_loop_diags l : forall q, (ndiags q.1 <= ndiags (foldl pass_two_statement q l).1)%nat.
Proof. induction l as [|s l IH]; intros q; [done|]. cbn [foldl]. etrans; [apply pass_two_statement_diags|apply IH]. Qed.

Definition statement_wf (s : Statement) : Prop :=
  Forall operand_wf (st_operands s) /\ (st_kind s = Label -> is_identifier (st_name s) = true /\ is_reserved_word (st_name s) = false).

(** The first statement of a quiet walk, and the rest. *)
Lemma loop_cons s l p p' l' : pass1_ok p -> Forall statement_wf (s :: l) -> pass_one_loop p (s :: l) = (p', l') ->
  (ndiags (p1_asm p') <= ndiags (p1_asm p))%nat ->
  exists p1 s1 l1, l' = s1 :: l1 /\ quiet p s p1 s1 /\ pass1_ok p1 /\ statement_wf s /\ Forall statement_wf l /\
    pass_one_loop p1 l = (p', l1) /\ (ndiags (p1_asm p') <= ndiags (p1_asm p1))%nat.
Proof.
  intros Hp [Hs Hw]%Forall_cons E Hn. cbn [pass_one_loop] in E.
  destruct (pass_one_statement p s) as [p1 s1] eqn:E1. destruct (pass_one_loop p1 l) as [p2 l2] eqn:E2.
  injection E as <- <-. pose proof (pass_one_statement_diags p s) as D1. rewrite E1 in D1. pose proof (pass_one_loop_diags _ _ _ _ E2) as D2. simpl in D1.
  assert (Hq : quiet p s p1 s1) by (apply pass_one_quiet; [done|apply Hs|done|lia]).
  exists p1, s1, l2. repeat (split; [done|]). split; [by eapply quiet_ok|]. repeat (split; [done|]). lia.
Qed.
Lemma loop_ok l : forall p p' l', pass1_ok p -> Forall statement_wf l -> pass_one_loop p l = (p', l') ->
  (ndiags (p1_asm p') <= ndiags (p1_asm p))%nat -> pass1_ok p'.
Proof.
  induction l as [|s l IH]; intros p p' l' Hp Hw E Hn; [by injection E as <- <-|].
  destruct (loop_cons _ _ _ _ _ Hp Hw E Hn) as (p1 & s1 & l1 & -> & _ & Hp1 & _ & Hw1 & E1 & Hn1). by eapply IH.
Qed.
Lemma quiet_image p s p1 s1 : quiet p s p1 s1 -> a_flat_image (p1_asm p1) = a_flat_image (p1_asm p).
Proof. destruct (decide_flat_same p) as ((_ & _ & _ & _ & _ & Hi & _) & _). by intros []. Qed.
Lemma loop_image l : forall p p' l', pass1_ok p -> Forall statement_wf l -> pass_one_loop p l = (p', l') ->
  (ndiags (p1_asm p') <= ndiags (p1_asm p))%nat -> a_flat_image (p1_asm p') = a_flat_image (p1_asm p).
Proof.
  induction l as [|s l IH]; intros p p' l' Hp Hw E Hn; [by injection E as <- <-|].
  destruct (loop_cons _ _ _ _ _ Hp Hw E Hn) as (p1 & s1 & l1 & -> & Hq & Hp1 & _ & Hw1 & E1 & Hn1).
  apply quiet_image in Hq. rewrite <- Hq. by eapply IH.
Qed.
Lemma loop_leads F l : forall p p' l', pass1_ok p -> Forall statement_wf l -> pass_one_loop p l = (p', l') ->
  (ndiags (p1_asm p') <= ndiags (p1_asm p))%nat -> leads p' F -> leads p F.
Proof.
  induction l as [|s l IH]; intros p p' l' Hp Hw E Hn Hl; [by injection E as <- <-|].
  destruct (loop_cons _ _ _ _ _ Hp Hw E Hn) as (p1 & s1 & l1 & -> & Hq & Hp1 & _ & Hw1 & E1 & Hn1).
  eapply quiet_leads; [done..|]. by eapply IH.
Qed.
(** Every statement of the walk finds the two passes in step. *)
Lemma loops_match F l : table_ok (a_symbols F) -> forall p p' l' q, pass1_ok p -> Forall statement_wf l -> pass_one_loop p l = (p', l') ->
  (ndiags (p1_asm p') <= ndiags (p1_asm p))%nat -> leads p' F -> passes_match F p q ->
  (ndiags (foldl pass_two_statement q l').1 <= ndiags q.1)%nat ->
  passes_match F p' (foldl pass_two_statement q l') /\
  forall pre s1 post, l' = pre ++ s1 :: post -> placing s1 = true ->
    exists pk sk, pass1_ok pk /\ leads pk F /\ statement_wf sk /\ passes_match F pk (foldl pass_two_statement q pre) /\ same_text sk s1 /\
      a_address (foldl pass_two_statement q pre).1 = st_address s1 /\ a_current_section (foldl pass_two_statement q pre).1 = st_section s1 /\
      (st_kind s1 = Instruction -> resolved s1).
Proof.
  intros HF. induction l as [|s l IH]; intros p p' l' q Hp Hw E Hn Hl Hm Hn2.
  { injection E as <- <-. split; [done|]. intros [|? pre] s1 post Hpre; done. }
  destruct (loop_cons _ _ _ _ _ Hp Hw E Hn) as (p1 & s1 & l2 & -> & Hq & Hp1 & Hs & Hw1 & E2 & D2).
  pose proof (loop_leads F l p1 p' l2 Hp1 Hw1 E2 D2 Hl) as Hl1. cbn [foldl] in Hn2.
  pose proof (pass_two_statement_diags q s1) as D3. pose proof (pass_two_loop_diags l2 (pass_two_statement q s1)) as D4.
  destruct (match_step F HF p s p1 s1 q) as [Hm1 Hpl]; [done|apply Hs|done..|lia|].
  destruct (IH p1 p' l2 (pass_two_statement q s1)) as [Hm2 Hrest]; [done..|lia|]. split; [done|].
  intros [|s0 pre] s' post Hpre Hp'; simplify_eq/=.
  - exists p, s. destruct (Hpl Hp'). split; [done|]. split; [by eapply quiet_leads|]. split; [done|]. split; [done|].
    assert (Ht : same_text s s') by (by destruct Hq). split; [done|]. split; [done|]. split; [done|].
    intros Hk. destruct Ht as (Hk' & _ & Ho). rewrite Hk in Hk'. destruct Hq; try congruence.
    + unfold naming in *. rewrite <- Hk' in *. done.
    + split; [done|]. split; [done|]. rewrite Ho. apply Hs.
  - by apply (Hrest pre s' post).
Qed.

(** ** From the source *)

(** What parsing leaves for pass 1. *)
Record parsed (a : assembler) : Prop := mk_parsed {
  ps_statements : Forall statement_wf (a_statements a);
  ps_mode : a_mode a = Undecided;
  ps_symbols : a_symbols a = ∅;
  ps_base : a_flat_base a = 0;
  ps_image : a_flat_image a = [];
  ps_sections : a_sections a = replicate 5 [] }.

Lemma parsed_start : parsed assembler_start.
Proof. split; done || constructor. Qed.
Lemma parsed_error a w m : parsed a -> parsed (error a w m).
Proof. intros []. by split. Qed.
Lemma parsed_add a s : parsed a -> statement_wf s -> parsed (add_statement a s).
Proof. intros [] Hs. split; try done. apply Forall_app. split; [done|by constructor]. Qed.
Lemma parse_operands_parsed fields : forall a w a' o, parsed a -> parse_operands a fields w = (a', o) ->
  parsed a' /\ forall l, o = Some l -> Forall operand_wf l.
Proof.
  induction fields as [|f fields IH]; intros a w a' o Hp; cbn [parse_operands]; [intros [= <- <-]; split; [done|]; intros l [= <-]; constructor|].
  unfold parse_operand. destruct (parse_body f) as [m|b] eqn:Eb; [intros [= <- <-]; split; [by apply parsed_error|done]|].
  destruct (parse_operands a fields w) as [a1 [l|]] eqn:E; intros [= <- <-]; apply IH in E as [Ha Hl]; try done. split; [done|].
  intros l' [= <-]. constructor; [by apply parse_body_wf in Eb|by apply Hl].
Qed.
Section Parsed.
Context (fs : file_system) (inc : assembler -> string -> string -> string -> option SourceLoc -> option assembler).
Context (Hinc : forall a t k d w a', parsed a -> inc a t k d w = Some a' -> parsed a').

Lemma parse_line_parsed a line w dir a' : parsed a -> parse_line fs inc a line w dir = Some a' -> parsed a'.
Proof.
  intros Hp. unfold parse_line. destruct (line_characters_are_legal line); [intros [= <-]; by apply parsed_error|].
  destruct (split_fields line) as [m|[|head fields]]; [intros [= <-]; by apply parsed_error|by intros [= <-]|].
  destruct (_ && _).
  { intros [= <-]. unfold parse_label. repeat case_match; try by apply parsed_error. apply parsed_add; [done|]. split; [constructor|]. intros _. split; [by apply negb_false_iff|done]. }
  destruct (parse_operands a fields w) as [a1 [l|]] eqn:E; apply parse_operands_parsed in E as [Ha Hl]; try done; [|by intros [= <-]].
  case_bool_decide; [|intros [= <-]; apply parsed_add; [done|split; [by apply Hl|by case_match]]].
  unfold parse_include. repeat case_match; try (intros [= <-]; by apply parsed_error).
  match goal with |- context [inc ?x ?t ?k ?d ?y] => destruct (inc x t k d y) as [a2|] eqn:Ei; [|done] end. cbn. intros [= <-].
  apply Hinc in Ei; [|by destruct Ha]. by destruct Ei.
Qed.
Lemma parse_lines_parsed lines : forall a file k dir w a', parsed a -> parse_lines fs inc a lines file k dir w = Some a' -> parsed a'.
Proof.
  induction lines as [|line lines IH]; intros a file k dir w a' Hp; cbn [parse_lines]; [by intros [= <-]|].
  destruct (parse_line _ _ _ _ _ _) as [a1|] eqn:E; [|done]. cbn. apply IH. by eapply parse_line_parsed.
Qed.
End Parsed.
Lemma parse_text_parsed fs fuel : forall a text file dir w a', parsed a -> parse_text fs fuel a text file dir w = Some a' -> parsed a'.
Proof.
  induction fuel as [|fuel IH]; intros a text file dir w a' Hp; cbn [parse_text]; [done|]. apply parse_lines_parsed; [|done]. intros. by eapply IH.
Qed.

(** ** Pass 1 and the start of pass 2 *)

Definition pass_one_begin (a : assembler) : pass1 :=
  mk_pass1 (((a <| a_second_pass := false |>) <| a_address := 0 |>) <| a_current_section := 0 |>) (replicate 5 0) true.

Lemma begin_ok a : parsed a -> pass1_ok (pass_one_begin a).
Proof.
  intros []. split; cbn; [apply word_0|rewrite ps_symbols0; by intros s y|by rewrite ps_mode0|by repeat constructor|rewrite ps_base0; apply word_0|].
  intros _. split; [done|]. rewrite ps_symbols0. by intros n y.
Qed.
Lemma pass_one_ends a p l : pass_one_loop (pass_one_begin a) (a_statements a) = (p, l) -> pass1_ok p ->
  a_statements (pass_one a) = l /\ leads p (pass_one a) /\ a_symbols (pass_one a) = a_symbols (p1_asm p) /\
  ndiags (pass_one a) = ndiags (p1_asm p) /\ word (a_flat_base (pass_one a)) /\ a_mode (pass_one a) <> Undecided /\
  a_flat_image (pass_one a) = a_flat_image (p1_asm p) /\ a_sections (pass_one a) = a_sections (p1_asm p).
Proof.
  intros E Hp. unfold pass_one. unfold pass_one_begin in E. rewrite E. pose proof (table_settles_refl _ (ok_table p Hp)).
  destruct Hp as [_ _ _ _ Hb].
  case_bool_decide as Hm; destruct (p1_pending p) eqn:Ep; cbn in *; repeat (split; [first [done|by split|apply word_0]|]); try done.
  all: split; [split; cbn; by rewrite ?Ep|]; repeat (split; [first [done|apply word_0]|]); done.
Qed.

Lemma start_match a : parsed a -> word (a_flat_base (pass_one a)) -> passes_match (pass_one a) (pass_one_begin a) (pass_two_start (pass_one a)).
Proof.
  intros Hp Hb. unfold pass_two_start. split; cbn; try done.
  - destruct (a_mode (pass_one a)); [apply word_0|done|apply word_0].
  - destruct (a_mode (pass_one a)); [by left|by right|by left].
Qed.

(** The state of pass 2 once it has walked [pre]. *)
Definition pass_two_before (a : assembler) (pre : list Statement) : assembler :=
  (foldl pass_two_statement (pass_two_start (pass_one a)) pre).1.

(** A module that assembles: what parsing read and what pass 2 left. *)
Lemma assembled fs fuel text name base a a' :
  parse_text fs fuel assembler_start text name base None = Some a -> assemble_text fs fuel assembler_start text name base = Some a' ->
  no_diags a' = true -> parsed a /\ a' = pass_two_before a (a_statements (pass_one a)) /\ ndiags (pass_one a) = 0%nat /\ ndiags a' = 0%nat.
Proof.
  intros Hp Ha Hn. unfold assemble_text in Ha. rewrite Hp in Ha. cbn in Ha. injection Ha as <-.
  assert (H0 : forall b, no_diags b = true -> ndiags b = 0%nat) by (intros b; unfold no_diags, ndiags; by destruct (a_diags b)).
  pose proof (parse_text_parsed _ _ _ _ _ _ _ _ parsed_start Hp) as Hps.
  destruct (no_diags (pass_one a)) eqn:E; [|congruence]. split; [done|]. split; [done|]. auto.
Qed.

(** The walk of a pass 1 that reports nothing. *)
Lemma pass_one_walk a : parsed a -> ndiags (pass_one a) = 0%nat -> exists p l,
  pass_one_loop (pass_one_begin a) (a_statements a) = (p, l) /\ pass1_ok p /\ (ndiags (p1_asm p) <= ndiags (p1_asm (pass_one_begin a)))%nat /\
  a_statements (pass_one a) = l /\ leads p (pass_one a) /\ a_symbols (pass_one a) = a_symbols (p1_asm p) /\
  word (a_flat_base (pass_one a)) /\ a_flat_image (pass_one a) = [].
Proof.
  intros Hps Hn. destruct (pass_one_loop (pass_one_begin a) (a_statements a)) as [p l] eqn:E.
  pose proof (begin_ok a Hps) as Hb. pose proof (pass_one_loop_diags _ _ _ _ E) as Hd.
  assert (Hno : ndiags (p1_asm p) = ndiags (pass_one a)).
  { unfold pass_one. unfold pass_one_begin in E. rewrite E. repeat case_match; done. }
  assert (Hle : (ndiags (p1_asm p) <= ndiags (p1_asm (pass_one_begin a)))%nat) by lia.
  pose proof (loop_ok _ _ _ _ Hb (ps_statements a Hps) E Hle) as Hokp.
  destruct (pass_one_ends a p l E Hokp) as (Hst & Hld & Hsy & _ & Hw & _ & Hi & _). exists p, l.
  repeat (split; [done|]). rewrite Hi, (loop_image _ _ _ _ Hb (ps_statements a Hps) E Hle). by destruct Hps.
Qed.

(** Every placing statement of a module that assembles meets pass 2 where pass
    1 put it, and an instruction there has its opcode and its length. *)
Lemma statement_in_step a : parsed a -> ndiags (pass_one a) = 0%nat -> ndiags (pass_two_before a (a_statements (pass_one a))) = 0%nat ->
  forall pre s post, a_statements (pass_one a) = pre ++ s :: post -> placing s = true ->
  a_address (pass_two_before a pre) = st_address s /\ a_current_section (pass_two_before a pre) = st_section s /\
  context_words (pass_two_before a pre) /\ a_symbols (pass_two_before a pre) = a_symbols (pass_one a) /\
  a_mode (pass_two_before a pre) = a_mode (pass_one a) /\ a_flat_base (pass_two_before a pre) = a_flat_base (pass_one a) /\
  a_second_pass (pass_two_before a pre) = true /\ (st_kind s = Instruction -> resolved s) /\
  (a_mode (pass_one a) = Flat -> st_section s = 0).
Proof.
  intros Hps Hn Hn2 pre s post Hpre Hpl. destruct (pass_one_walk a Hps Hn) as (p & l & E & Hokp & Hle & Hst & Hld & Hsy & Hw & _).
  rewrite Hst in Hpre, Hn2.
  assert (HF : table_ok (a_symbols (pass_one a))) by (rewrite Hsy; apply Hokp).
  destruct (loops_match (pass_one a) (a_statements a) HF (pass_one_begin a) p l (pass_two_start (pass_one a))) as [_ Hall];
    [by apply begin_ok|apply Hps|done|done|done|by apply start_match|unfold pass_two_before in Hn2; lia|].
  destruct (Hall pre s post Hpre Hpl) as (pk & sk & Hpk & Hlk & _ & Hm & _ & Ha & Hsec & Hr). unfold pass_two_before.
  split; [done|]. split; [done|]. split; [by eapply match_context|]. destruct Hm. repeat (split; [done|]).
  intros Hf. rewrite <- Hsec, pm_section0. apply (ok_null pk Hpk). intros Hx. destruct Hlk as [Hlm _ _]. rewrite Hlm in Hf; congruence.
Qed.
