(* ===== verification/V2AsmImage.v ===== *)
(** * The image of a flat module

    End to end: the image that a module without diagnostics assembles to,
    loaded at its base, decodes at the address of every instruction statement
    to that instruction; a label is the address of the statement after it, and
    an instruction that names a label as its target reaches it. *)
From Stdlib Require Import ZArith Lia Bool Ascii.
From stdpp Require Import base list numbers strings gmap pretty.
From S2P Require Import Prelude State MzObj Memory V2Opcode V2Mnemonic V2Csr V2Translate V2Interp V2Word V2AsmExpr V2AsmSource V2AsmPasses V2AsmExprProps V2AsmRound V2AsmAgree.

(** ** Appending to the image *)

(** Where the next byte goes in a flat image. *)
Definition position (a : assembler) : Z := u64 (a_address a - a_flat_base a).
Definition flat_second (a : assembler) : Prop := a_mode a = Flat /\ a_second_pass a = true.
Abbreviation image_length a := (Z.of_nat (length (a_flat_image a))).

Lemma store_at_append l i v : Z.of_nat (length l) <= i -> store_at l i v = l ++ replicate (Z.to_nat i - length l) 0 ++ [v].
Proof.
  intros Hi. unfold store_at. destruct (Z.ltb_spec (Z.of_nat (length l)) i).
  - rewrite length_app, length_replicate. rewrite (proj2 (Z.eqb_eq _ _)) by lia. by rewrite <- app_assoc.
  - rewrite (proj2 (Z.eqb_eq _ _)) by lia. by replace (Z.to_nat i - length l)%nat with 0%nat by lia.
Qed.
Lemma store_at_length l i v : 0 <= i -> (length l <= length (store_at l i v))%nat.
Proof.
  intros Hi. unfold store_at. repeat case_match; rewrite ?length_app, ?length_insert, ?length_app; simpl; lia.
Qed.

(** The image only grows; while it ends at or before the position and is
    shorter than 2^64, what is there stays there. *)
Record appends (a a' : assembler) : Prop := mk_appends {
  ap_flat : flat_second a -> flat_second a';
  ap_base : a_flat_base a' = a_flat_base a;
  ap_length : flat_second a -> (length (a_flat_image a) <= length (a_flat_image a'))%nat;
  ap_prefix : flat_second a -> image_length a <= position a -> image_length a' < 2 ^ 64 ->
    a_flat_image a `prefix_of` a_flat_image a' /\ image_length a' <= position a' }.
#[global] Instance appends_preorder : PreOrder appends.
Proof.
  split; [by intros a; split|]. intros a b c [F1 B1 L1 P1] [F2 B2 L2 P2]. split; [auto|congruence| |].
  - intros Hf. specialize (L1 Hf). specialize (L2 (F1 Hf)). lia.
  - intros Hf Hp Hl. specialize (L2 (F1 Hf)). destruct (P1 Hf Hp ltac:(lia)) as [Q1 R1]. destruct (P2 (F1 Hf) R1 Hl) as [Q2 R2].
    split; [by etrans|done].
Qed.
Lemma appends_context a a' : same_context a a' -> appends a a'.
Proof.
  intros (H1 & H2 & H3 & H4 & H5 & H6 & H7 & H8 & H9). split; unfold flat_second, position; rewrite ?H2, ?H3, ?H5, ?H6, ?H7; auto.
Qed.
Lemma position_emit a b : position (emit_byte a b) = u64 (position a + 1).
Proof.
  assert (H : a_address (emit_byte a b) = u64 (a_address a + 1) /\ a_flat_base (emit_byte a b) = a_flat_base a).
  { unfold emit_byte, put_byte. by repeat case_match. }
  destruct H as [H1 H2]. unfold position. rewrite H1, H2. unfold u64. rewrite Zplus_mod_idemp_l, Zminus_mod_idemp_l. f_equal. lia.
Qed.
Lemma position_word a : word (position a).
Proof. apply word_u64. Qed.
Lemma emit_byte_image a b : flat_second a -> image_length a <= position a ->
  a_flat_image (emit_byte a b) = a_flat_image a ++ replicate (Z.to_nat (position a) - length (a_flat_image a)) 0 ++ [b] /\
  image_length (emit_byte a b) = position a + 1.
Proof.
  intros [Hm Hs] Hp. assert (E : a_flat_image (emit_byte a b) = store_at (a_flat_image a) (position a) b).
  { unfold emit_byte, put_byte. by rewrite Hs, Hm. }
  rewrite E, store_at_append by done. split; [done|]. rewrite !length_app, length_replicate. cbn [length].
  pose proof (position_word a) as []. lia.
Qed.
Lemma emit_byte_appends a b : appends a (emit_byte a b).
Proof.
  split.
  - unfold flat_second, emit_byte, put_byte. intros [Hm Hs]. by rewrite Hs, Hm.
  - unfold emit_byte, put_byte. by destruct (a_second_pass a); [destruct (a_mode a)|].
  - unfold emit_byte, put_byte. intros [Hm Hs]. rewrite Hs, Hm. apply store_at_length. apply word_u64.
  - intros Hf Hp Hl. destruct (emit_byte_image a b Hf Hp) as [E L].
    split; [rewrite E; by apply prefix_app_r|]. rewrite position_emit, L. pose proof (position_word a) as []. unfold u64. rewrite Z.mod_small; lia.
Qed.
Lemma emit_bytes_appends l : forall a, appends a (emit_bytes a l).
Proof. induction l as [|b l IH]; intros a; [done|]. cbn. etrans; [apply emit_byte_appends|apply IH]. Qed.

(** The bytes are at the position. *)
Lemma emit_bytes_at l : forall a, flat_second a -> image_length a <= position a -> image_length (emit_bytes a l) < 2 ^ 64 ->
  forall i b, l !! i = Some b -> a_flat_image (emit_bytes a l) !! (Z.to_nat (position a) + i)%nat = Some b.
Proof.
  induction l as [|c l IH]; intros a Hf Hp Hl i b Hi; [done|]. cbn [emit_bytes foldl] in *. fold (emit_bytes (emit_byte a c) l) in *.
  pose proof (emit_byte_appends a c) as [F1 B1 L1 P1]. pose proof (emit_bytes_appends l (emit_byte a c)) as [F2 B2 L2 P2].
  specialize (L2 (F1 Hf)). destruct (P1 Hf Hp ltac:(lia)) as [Q1 R1]. destruct (P2 (F1 Hf) R1 Hl) as [Q2 R2].
  destruct (emit_byte_image a c Hf Hp) as [Himg Hlen]. destruct i as [|i].
  - injection Hi as <-. rewrite Nat.add_0_r. eapply prefix_lookup_Some; [|exact Q2]. rewrite Himg, app_assoc, lookup_app_r; rewrite length_app, length_replicate; [|lia].
    by replace (_ - _)%nat with 0%nat by lia.
  - rewrite <- (IH (emit_byte a c) (F1 Hf) R1 Hl i b Hi), position_emit. f_equal. pose proof (position_word a) as []. unfold u64. rewrite Z.mod_small; lia.
Qed.

(** ** Statements *)

(** The directives that move the counter without emitting. *)
Definition moves_counter (s : Statement) : bool :=
  match st_kind s with Directive => bool_decide (st_name s ∈ ["section"; "origin"; "reserve"]) | _ => false end.

Lemma appends_forward a a' : a_flat_image a' = a_flat_image a -> a_mode a' = a_mode a -> a_second_pass a' = a_second_pass a ->
  a_flat_base a' = a_flat_base a -> position a <= position a' -> appends a a'.
Proof.
  intros Hi Hm Hs Hb Hp. split; unfold flat_second; rewrite ?Hi, ?Hm, ?Hs; try done. intros _ Hl _. split; [done|lia].
Qed.
Lemma appends_sectioned a a' : a_mode a = Sectioned -> a_flat_base a' = a_flat_base a -> appends a a'.
Proof. intros Hm Hb. assert (Hf : ~ flat_second a) by (unfold flat_second; rewrite Hm; by intros [? _]). by split; intros; try done. Qed.
Lemma evaluate_appends a text w b o : evaluate a text w = (b, o) -> appends a b.
Proof. intros E. apply appends_context. pose proof (evaluate_context a text w) as H. by rewrite E in H. Qed.
Lemma error_appends a w m : appends a (error a w m).
Proof. apply appends_context, error_context. Qed.

Lemma emit_datum_appends a w wh o : appends a (emit_datum a w wh o).1.
Proof.
  unfold emit_datum, emit_immediate. destruct (negb (is_expression o)); [apply error_appends|].
  destruct (evaluate a _ _) as [b [v|]] eqn:E; apply evaluate_appends in E; [|done]. etrans; [exact E|].
  repeat case_match; cbn [fst]; try apply error_appends; (etrans; [|apply emit_bytes_appends]); first [apply appends_context, relocation_context|done].
Qed.
Lemma emit_data_appends w wh l : forall a, appends a (emit_data a w wh l).
Proof.
  induction l as [|o l IH]; intros a; [done|]. cbn [emit_data]. pose proof (emit_datum_appends a w wh o) as H.
  destruct (emit_datum a w wh o) as [b []]; simpl in H; [|done]. by etrans.
Qed.
Lemma emit_directive_appends a s : st_name s <> "reserve" -> appends a (emit_directive a s).
Proof.
  intros Hr. unfold emit_directive. case_bool_decide; [done|]. case_bool_decide; [|rewrite (bool_decide_eq_false_2 _ Hr); case_bool_decide; [|case_bool_decide]].
  - unfold emit_align. destruct (st_operands s) as [|o l]; [done|]. destruct (evaluate a _ _) as [b [v|]] eqn:E; apply evaluate_appends in E; [|done].
    etrans; [exact E|]. case_match eqn:Em; [|apply emit_bytes_appends]. apply andb_true_iff in Em as [Em%bool_decide_eq_true _]. by apply appends_sectioned.
  - unfold emit_string. repeat case_match; done || apply emit_bytes_appends.
  - unfold emit_fill. destruct (st_operands s) as [|o [|o' l]]; [done|done|]. destruct (evaluate a _ _) as [b [v|]] eqn:E; apply evaluate_appends in E; [|done].
    etrans; [exact E|]. destruct (evaluate b _ _) as [c [v'|]] eqn:E'; apply evaluate_appends in E'; [|done]. etrans; [exact E'|].
    case_match; [apply error_appends|apply emit_bytes_appends].
  - case_match; [apply error_appends|apply emit_data_appends].
Qed.
Lemma encode_operand_context s a k syn o : same_context a (encode_operand s a k syn o).1.
Proof.
  destruct syn; cbn [encode_operand]; unfold encode_memory, encode_immediate, encode_absolute, encode_target, encode_address.
  all: repeat (case_match; try done); try done.
  all: repeat match goal with E : evaluate ?x ?t ?w = (?y, _) |- _ => pose proof (evaluate_context x t w) as ?; rewrite E in *; clear E end; cbn [fst] in *.
  all: try done; try (etrans; [eassumption|]); try apply error_context; try apply relocation_context.
Qed.
Lemma encode_operands_context s p : forall l a k, same_context a (encode_operands s a k p l).1.
Proof.
  induction p as [|syn p IH]; intros [|o l] a k; cbn [encode_operands]; try done.
  pose proof (encode_operand_context s a k syn o) as H. destruct (encode_operand s a k syn o) as [b [k1|]]; [|done]. by etrans.
Qed.
Lemma encode_instruction_appends s a : appends a (encode_instruction s a).
Proof.
  unfold encode_instruction. case_match; [apply error_appends|].
  pose proof (encode_operands_context s (pattern_for (st_opcode s)) (st_operands s) a (mk_pending [] [])) as Hx.
  destruct (encode_operands _ _ _ _ _) as [b [k|]]; apply appends_context in Hx; [|done]. etrans; [exact Hx|].
  case_match; [apply error_appends|apply emit_bytes_appends].
Qed.
Lemma statement_appends q s : (moves_counter s = true -> position q.1 <= position (pass_two_statement q s).1) -> appends q.1 (pass_two_statement q s).1.
Proof.
  destruct q as [a counters]. unfold moves_counter, pass_two_statement. destruct (st_kind s); [done|intros _; case_match; [done|apply encode_instruction_appends]|].
  destruct (decide (st_name s = "section")) as [E1|E1].
  { rewrite E1. known_names. intros H. apply appends_forward; try done. by apply H. }
  destruct (decide (st_name s = "origin")) as [E2|E2].
  { rewrite E2. known_names. intros H. apply appends_forward; try done. by apply H. }
  rewrite (bool_decide_eq_false_2 _ E1), (bool_decide_eq_false_2 _ E2). intros H. cbn [fst] in *. destruct (decide (st_name s = "reserve")) as [E3|E3]; [|by apply emit_directive_appends].
  assert (Hm : position a <= position (emit_directive a s)) by (apply H; by rewrite E3).
  revert Hm. unfold emit_directive. rewrite E3. known_names. unfold emit_reserve. destruct (st_operands s); [done|].
  destruct (evaluate a _ _) as [b [v|]] eqn:E; pose proof (evaluate_context a (expression_text o) (st_where s)) as Hc; rewrite E in Hc; cbn [fst] in Hc;
    [|intros _; by apply appends_context].
  intros Hm. destruct Hc as (H1 & H2 & H3 & H4 & H5 & H6 & H7 & H8 & H9). by apply appends_forward.
Qed.

(** ** The image decodes *)

(** No statement moves the counter back below what is emitted. *)
Definition forward (a : assembler) : Prop :=
  forall pre s post, a_statements (pass_one a) = pre ++ s :: post -> moves_counter s = true ->
    position (pass_two_before a pre) <= position (pass_two_before a (pre ++ [s])).

Lemma pass_two_before_snoc a pre s : pass_two_before a (pre ++ [s]) = (pass_two_statement (foldl pass_two_statement (pass_two_start (pass_one a)) pre) s).1.
Proof. unfold pass_two_before. by rewrite foldl_app. Qed.
Lemma before_appends a : forward a -> forall mid pre post, a_statements (pass_one a) = pre ++ mid ++ post ->
  appends (pass_two_before a pre) (pass_two_before a (pre ++ mid)).
Proof.
  intros Hf mid. induction mid as [|s mid IH]; intros pre post Hst; [by rewrite app_nil_r|].
  etrans; [|replace (pre ++ s :: mid) with ((pre ++ [s]) ++ mid) by (by rewrite <- app_assoc); apply (IH (pre ++ [s]) post); by rewrite <- app_assoc].
  rewrite pass_two_before_snoc. apply statement_appends. intros Hm. rewrite <- pass_two_before_snoc.
  by apply (Hf pre s (mid ++ post)).
Qed.

Section Image.
Context (a : assembler) (Hps : parsed a) (Hn : ndiags (pass_one a) = 0%nat).
Let F := pass_one a.
Let final := pass_two_before a (a_statements F).
Context (Hn2 : ndiags final = 0%nat) (Hflat : a_mode F = Flat) (Hfwd : forward a) (Hlen : image_length final < 2 ^ 64).

Lemma before_start : a_flat_image (pass_two_before a []) = [] /\ flat_second (pass_two_before a []).
Proof.
  destruct (pass_one_walk a Hps Hn) as (p & l & _ & _ & _ & _ & _ & _ & _ & Hi).
  unfold pass_two_before, pass_two_start, flat_second. cbn. fold F. by rewrite Hflat.
Qed.
(** Before any statement the image ends at or before the position. *)
Lemma before_ends pre post : a_statements F = pre ++ post -> flat_second (pass_two_before a pre) /\
  image_length (pass_two_before a pre) <= position (pass_two_before a pre) /\
  a_flat_image (pass_two_before a pre) `prefix_of` a_flat_image final.
Proof.
  intros Hst. destruct before_start as [Hi Hf]. pose proof (before_appends a Hfwd pre [] post Hst) as [F1 _ L1 P1].
  pose proof (before_appends a Hfwd post pre [] ltac:(rewrite app_nil_r; exact Hst)) as [F2 _ L2 P2]. rewrite app_nil_l in *.
  rewrite <- Hst in *. specialize (L2 (F1 Hf)). fold final in L2, P2.
  destruct P1 as [_ R1]; [done|rewrite Hi; apply position_word|lia|]. destruct (P2 (F1 Hf) R1 Hlen) as [Q2 _]. auto.
Qed.

(** The bytes of an instruction are in the final image, and decode to it. *)
Lemma image_instruction pre s post m root level t :
  a_statements F = pre ++ s :: post -> st_kind s = Instruction -> Z.land root kModeMask = kModeBare ->
  holds m (a_flat_base F) (a_flat_image final) ->
  exists d, decode_v2 m root level t (st_address s) = (inr d, t) /\ encoded_as (pass_two_before a pre) s (st_address s) d.
Proof.
  intros Hst Hk Hbare Hh. assert (Hpl : placing s = true) by (unfold placing; by rewrite Hk).
  destruct (statement_in_step a Hps Hn Hn2 pre s post Hst Hpl) as (Ha & _ & Hc & _ & Hm & Hb & Hs & Hr & _). specialize (Hr Hk).
  set (q := pass_two_before a pre) in *. destruct (resolved_opcode s Hr) as (_ & _ & _ & _ & Hl).
  assert (Hq' : pass_two_before a (pre ++ [s]) = encode_instruction s q).
  { rewrite pass_two_before_snoc. unfold pass_two_statement. unfold q, pass_two_before. destruct (foldl _ _ pre) as [b c]. rewrite Hk.
    by rewrite (proj2 (Z.eqb_neq _ _)) by lia. }
  assert (Hst' : a_statements F = (pre ++ [s]) ++ post) by (by rewrite <- app_assoc).
  destruct (before_ends pre (s :: post) Hst) as (Hf & Hle & _). fold q in Hf, Hle.
  destruct (before_ends (pre ++ [s]) post Hst') as (_ & _ & Hpre).
  assert (Hd : (ndiags (encode_instruction s q) <= ndiags q)%nat).
  { rewrite <- Hq'. unfold pass_two_before in *.
    pose proof (pass_two_loop_diags post (foldl pass_two_statement (pass_two_start (pass_one a)) (pre ++ [s]))) as H. rewrite <- foldl_app, <- Hst' in H.
    unfold final in Hn2. lia. }
  destruct (instruction_roundtrip q s Hr Hc Hd) as (bytes & Hlb & Hctx & Hdec).
  apply Hdec; [done|rewrite <- Ha; apply Hc|]. destruct Hctx as (_ & _ & _ & _ & _ & Himg & _). rewrite Hq', Himg in Hpre.
  assert (Hlb' : image_length (emit_bytes q bytes) < 2 ^ 64) by (apply prefix_length in Hpre; lia).
  intros i b Hi. pose proof (emit_bytes_at bytes q Hf Hle Hlb' i b Hi) as Hat. eapply prefix_lookup_Some in Hat; [|exact Hpre].
  destruct (Hh _ _ Hat) as [H1 H2]. replace (u64 (a_flat_base F + Z.of_nat (Z.to_nat (position q) + i))) with (u64 (st_address s + Z.of_nat i)) in H1, H2; [done|].
  pose proof (position_word q) as [H0 _]. rewrite Nat2Z.inj_add, Z2Nat.id by done. unfold position. rewrite Ha, Hb. fold F.
  unfold u64. rewrite Z.add_assoc. rewrite <- (Zplus_mod_idemp_l (a_flat_base F + _)). rewrite Zplus_mod_idemp_r, Zplus_mod_idemp_l. f_equal. lia.
Qed.
End Image.

(** ** Labels *)

(** A label is the address of the placing statement that follows it. *)
Lemma loop_label F l : forall p p' l', pass1_ok p -> Forall statement_wf l -> pass_one_loop p l = (p', l') ->
  (ndiags (p1_asm p') <= ndiags (p1_asm p))%nat -> leads p' F ->
  forall pre lab s post, l' = pre ++ lab :: s :: post -> st_kind lab = Label -> placing s = true ->
  exists y, a_symbols F !! st_name lab = Some y /\ sy_defined y = true /\ sy_is_constant y = false /\ sy_value y = st_address s /\
    is_identifier (st_name lab) = true /\ is_reserved_word (st_name lab) = false.
Proof.
  induction l as [|s0 l IH]; intros p p' l' Hp Hw E Hn Hl pre lab s post Hl' Hk Hpl.
  { injection E as <- <-. by destruct pre. }
  destruct (loop_cons _ _ _ _ _ Hp Hw E Hn) as (p1 & s1 & l1 & -> & Hq & Hp1 & [_ Hid] & Hw1 & E1 & Hn1).
  destruct pre as [|? pre]; simplify_eq/=; [|by eapply IH].
  pose proof (loop_leads F l p1 p' (s :: post) Hp1 Hw1 E1 Hn1 Hl) as Hl1.
  assert (Ht : same_text s0 lab) by (by destruct Hq). destruct Ht as (Hk0 & Hn0 & _). rewrite Hk in Hk0.
  destruct Hq as [S' s1' Hnm _ _ _ _ Hlab| | | |]; try congruence.
  destruct (Hlab (eq_sym Hk0)) as (_ & y & Hy & Hv & _ & Hd & Hc).
  destruct l as [|s2 l]; [done|]. destruct (loop_cons _ _ _ _ _ Hp1 Hw1 E1 Hn1) as (p2 & s3 & l2 & Heq & Hq2 & _). injection Heq as <- <-.
  assert (Hs : st_address s = a_address (p1_asm p)).
  { destruct Hq2 as [? ? Hnm2 (Hk2 & Hn2 & _)|? ? Hk3 Hn3 (Hk2 & Hn2 & _)|? ? ? ? Hk3 Hn3 (Hk2 & Hn2 & _)|n s3 _ _ _ Ha|s3 _ _ Ha]; try done.
    all: exfalso; revert Hpl; unfold placing; rewrite Hk2, Hn2.
    - unfold naming in Hnm2. destruct (st_kind s2); [done..|]. rewrite Hnm2. by rewrite andb_false_r.
    - by rewrite Hk3, Hn3.
    - by rewrite Hk3, Hn3. }
  destruct Hl1 as [_ _ Hset]. destruct (Hset (st_name s1') (query_of y)) as (q & Hq & _ & Hqd); [cbn; by rewrite Hn0, Hy|].
  destruct (a_symbols F !! st_name s1') as [y'|]; [|done]. injection Hq as <-. destruct (Hqd Hd) as (D & C & V).
  exists y'. cbn in D, C, V. split; [done|]. split; [done|]. split; [by rewrite C|]. split; [by rewrite V, Hv, Hs|].
  rewrite Hn0. by apply Hid.
Qed.

(** ** Names as expressions *)

Lemma scan_identifier_all s : str_all ident_char s = true -> scan_identifier s = (s, EmptyString).
Proof. induction s as [|c s IH]; simpl; [done|]. intros [-> Hs]%andb_true_iff. by rewrite IH. Qed.
Lemma level_done op operand comb s v : op EmptyString = None -> operand s = PDone v EmptyString -> level op operand comb s = PDone v EmptyString.
Proof. intros Ho Hs. unfold level. rewrite Hs. cbn. by rewrite Ho. Qed.
Lemma name_starts c n : isalpha c || is_char 95 c = true -> n < 65 \/ n = 126 -> is_char n c = false.
Proof.
  unfold isalpha, is_char, upto. intros H Hn. apply Z.eqb_neq. intros E. subst n.
  apply orb_true_iff in H as [[H|H]%orb_true_iff|H%Z.eqb_eq]; [apply andb_true_iff in H as [?%Z.leb_le ?%Z.leb_le]; lia..|lia].
Qed.
(** The name of a symbol, used alone, evaluates to that symbol. *)
Lemma name_evaluates lookup here name q : is_identifier name = true -> name <> "here" -> is_register_name name = None ->
  lookup name = Some q -> sq_is_constant q = false -> parse_expression lookup here name = PDone (mk_value 0 name) EmptyString.
Proof.
  intros Hid Hh Hr Hl Hc. destruct name as [|c r]; [done|]. apply andb_true_iff in Hid as [Hc1 Hall].
  assert (Hp : forall n, parse_unary lookup here n (String c r) = PDone (mk_value 0 (String c r)) EmptyString).
  { intros n. cbn [parse_unary]. rewrite !(name_starts c) by (done || lia). cbn [parse_primary]. rewrite !(name_starts c) by (done || lia). cbn [orb].
    assert (isdigit c = false) as ->.
    { unfold isdigit, upto. destruct (code c <=? 57) eqn:E; [|by rewrite andb_false_r]. apply Z.leb_le in E. exfalso.
      pose proof (name_starts c (code c) Hc1 ltac:(lia)) as Hx. unfold is_char in Hx. by rewrite Z.eqb_refl in Hx. }
    rewrite Hc1, (scan_identifier_all _ Hall). unfold symbol_leaf. rewrite (bool_decide_eq_false_2 _ Hh), Hr, Hl, Hc. done. }
  unfold parse_expression. cbn [parse_nested String.length].
  assert (Ho : forall n, parse_or lookup here n (String c r) = PDone (mk_value 0 (String c r)) EmptyString).
  { intros n. do 6 (apply level_done; [done|]). apply Hp. }
  rewrite Ho. done.
Qed.

(** The field of the first target is four bytes wide. *)
Lemma target_width p : forall slots widths l o rest, pattern_matches p slots widths = true ->
  immediate_operands p l = (SynTarget, o) :: rest -> exists ws, widths = 4%nat :: ws.
Proof.
  induction p as [|syn p IH]; intros slots widths l o rest Hm Hi; [done|]. destruct l as [|o' l]; [done|].
  unfold immediate_operands in Hi. cbn [zip zip_with] in Hi. destruct (immediate_syn syn) eqn:Es.
  - rewrite filter_cons_True in Hi by done. injection Hi as -> _ _. destruct slots, widths; try done; apply andb_true_iff in Hm as [->%Nat.eqb_eq _]; by eexists.
  - rewrite filter_cons_False in Hi by (cbn; congruence). destruct syn; try done; destruct slots as [|[] slots]; try done; cbn in Hm;
      try (apply andb_true_iff in Hm as [_ Hm]); by eapply IH.
Qed.

(** The field of a target that names a symbol of the open section. *)
Lemma target_field q s pc d o name y : resolved s -> word (sy_value y) -> pc = st_address s -> encoded_as q s pc d ->
  immediate_operands (pattern_for (st_opcode s)) (st_operands s) = [(SynTarget, o)] -> expression_text o = name ->
  is_identifier name = true -> is_reserved_word name = false -> lookup_in_assembler q name = Some (query_of y) -> a_symbols q !! name = Some y ->
  sy_defined y = true -> sy_is_constant y = false -> sy_section y = a_current_section q ->
  exists f, d_immediate d = [f] /\ u64 (d_next_pc d + sign_extend f 32) = sy_value y.
Proof.
  intros Hr Hw -> [_ [_ Hnext] _ _ (vs & Hden & Himm & Hrec)] Hio Ho Hid Hres Hlk Hy Hd Hc Hsec.
  rewrite Hio in Hden, Hrec. cbn zeta in *.
  assert (Hvals : forall v, value_of q (expression_text o) v -> v = mk_value 0 name).
  { intros v [rest Hv]. unfold is_reserved_word in Hres. destruct (is_register_name name) eqn:Er; [done|].
    apply orb_false_iff in Hres as [Hh%bool_decide_eq_false _]. rewrite Ho in Hv.
    rewrite (name_evaluates _ _ name (query_of y) Hid Hh Er Hlk Hc) in Hv. by injection Hv as <-. }
  apply Forall2_cons_inv_l in Hden as (v & vs' & Hden & Hnil & ->). apply Forall2_nil_inv_l in Hnil as ->. cbn [fst snd] in Hden.
  destruct (resolved_opcode s Hr) as (_ & _ & Hm & _). destruct (target_width _ _ _ _ _ _ Hm Hio) as [ws Hws].
  rewrite Hws in Himm, Hrec. cbn in Himm, Hrec. apply Forall2_cons in Hrec as [Hrec _]. cbn [fst snd] in Hrec.
  assert (Hlit : target_is_literal_displacement (expression_text o) = false).
  { rewrite Ho. destruct name as [|c r]; [done|]. apply andb_true_iff in Hid as [Hc1 _]. cbn. by rewrite !(name_starts c) by (done || lia). }
  unfold recovered, address_target in Hrec. rewrite Hlit in Hrec. cbn [negb] in Hrec. eexists. split; [exact Himm|]. rewrite Hnext.
  change (Z.of_nat 4 * 8) with 32 in *. rewrite Hrec. clear Hrec Himm Hws.
  destruct Hden as [Hden|]; [|congruence].
  inversion Hden as [| | | |? ? Hx|? ? _ Hx Hy'|? ? y' _ Hx _ Hy' _ _|? ? _ Hx _ Hy']; subst; try congruence.
  - by rewrite (Hvals _ Hx) in Hy'; destruct (expression_text o).
  - rewrite (Hvals _ Hx) in Hy' |- *. cbn in Hy' |- *. rewrite Hy in Hy'. injection Hy' as <-. unfold u64. rewrite <- Zplus_mod. etrans; [|apply Z.mod_small, Hw]. f_equal. lia.
  - exfalso. rewrite (Hvals _ Hx) in Hy'. unfold local_target in Hy'. cbn in Hy'. rewrite Hy, Hd, Hsec, Z.eqb_refl in Hy'. done.
Qed.

(** ** The theorems *)

(** The two passes agree: a module that assembles meets pass 2 at the address
    and in the section that pass 1 assigned, statement by statement. *)
Theorem two_passes_agree fs fuel text name base a a' pre s post :
  parse_text fs fuel assembler_start text name base None = Some a -> assemble_text fs fuel assembler_start text name base = Some a' ->
  no_diags a' = true -> a_statements (pass_one a) = pre ++ s :: post -> placing s = true ->
  a_address (pass_two_before a pre) = st_address s /\ a_current_section (pass_two_before a pre) = st_section s.
Proof.
  intros Hp Ha Hn Hst Hpl. destruct (assembled _ _ _ _ _ _ _ Hp Ha Hn) as (Hps & -> & H1 & H2).
  destruct (statement_in_step a Hps H1 H2 pre s post Hst Hpl) as (? & ? & _). done.
Qed.

(** C26: when a module assembles without a diagnostic in the flat mode (no
    section directive), each of its origins is at or past the bytes before it
    (a backward origin overwrites them), and its image fits the address space,
    then the image, loaded at its base, decodes at the address of every
    instruction to that instruction: the opcode its mnemonic and operands
    select, their registers, and the values their expressions denote as the
    second pass sees them.  Excepted is an instruction with a target that
    starts with a number and also names a symbol, such as [jump #4+label]
    ([plain_targets] is false): the assembler drops the symbol, where the
    specification has the target name an address. *)
Theorem flat_image_decodes fs fuel text name base a a' pre s post m root level t :
  parse_text fs fuel assembler_start text name base None = Some a -> assemble_text fs fuel assembler_start text name base = Some a' ->
  no_diags a' = true -> a_mode (pass_one a) = Flat -> forward a -> Z.of_nat (length (a_flat_image a')) < 2 ^ 64 ->
  a_statements (pass_one a) = pre ++ s :: post -> st_kind s = Instruction -> plain_targets (pass_two_before a pre) s = true ->
  Z.land root kModeMask = kModeBare -> holds m (a_flat_base (pass_one a)) (a_flat_image a') ->
  exists d, decode_v2 m root level t (st_address s) = (inr d, t) /\ means (pass_two_before a pre) s (st_address s) d.
Proof.
  intros Hp Ha Hn Hm Hf Hl Hst Hk Hpt Hb Hh. destruct (assembled _ _ _ _ _ _ _ Hp Ha Hn) as (Hps & -> & H1 & H2).
  destruct (image_instruction a Hps H1 H2 Hm Hf Hl pre s post m root level t Hst Hk Hb Hh) as (d & Hd & He).
  exists d. split; [done|]. by apply encoded_means.
Qed.

(** An instruction of such a module whose target is a label, fetched from
    the image, has the displacement that leads from the instruction after it
    to the address of the statement after the label. *)
Theorem target_reaches_label fs fuel text name base a a' pre s post m root level t o before lab dest after :
  parse_text fs fuel assembler_start text name base None = Some a -> assemble_text fs fuel assembler_start text name base = Some a' ->
  no_diags a' = true -> a_mode (pass_one a) = Flat -> forward a -> Z.of_nat (length (a_flat_image a')) < 2 ^ 64 ->
  a_statements (pass_one a) = pre ++ s :: post -> st_kind s = Instruction ->
  immediate_operands (pattern_for (st_opcode s)) (st_operands s) = [(SynTarget, o)] -> expression_text o = st_name lab ->
  a_statements (pass_one a) = before ++ lab :: dest :: after -> st_kind lab = Label -> placing dest = true ->
  Z.land root kModeMask = kModeBare -> holds m (a_flat_base (pass_one a)) (a_flat_image a') ->
  exists d f, decode_v2 m root level t (st_address s) = (inr d, t) /\ d_immediate d = [f] /\
    u64 (d_next_pc d + sign_extend f 32) = st_address dest.
Proof.
  intros Hp Ha Hn Hm Hf Hl Hst Hk Hio Ho Hlst Hlk Hpl Hb Hh.
  destruct (assembled _ _ _ _ _ _ _ Hp Ha Hn) as (Hps & -> & H1 & H2).
  destruct (pass_one_walk a Hps H1) as (p & l & E & Hok & Hle & Hsl & Hld & Hsyp & _). rewrite Hsl in Hlst.
  destruct (loop_label (pass_one a) _ _ _ _ (begin_ok a Hps) (ps_statements a Hps) E Hle Hld before lab dest after Hlst Hlk Hpl)
    as (y & Hy & Hd & Hc & Hv & Hid & Hres).
  destruct (image_instruction a Hps H1 H2 Hm Hf Hl pre s post m root level t Hst Hk Hb Hh) as (d & Hdec & Hmean).
  destruct (statement_in_step a Hps H1 H2 pre s post Hst ltac:(unfold placing; by rewrite Hk)) as (Hadr & Hcs & Hcw & Hsy & _ & _ & _ & Hr & H0).
  specialize (Hr Hk). specialize (H0 Hm). set (q := pass_two_before a pre) in *.
  assert (Hsec : sy_section y = a_current_section q).
  { rewrite Hcs, H0. destruct (ok_null p Hok) as [_ Hz]; [|by apply (Hz (st_name lab)); rewrite <- Hsyp].
    intros Hx. destruct Hld as [Hlm _ _]. rewrite Hlm in Hm; congruence. }
  assert (Hlk' : lookup_in_assembler q (st_name lab) = Some (query_of y)) by (unfold lookup_in_assembler; by rewrite Hsy, Hy).
  destruct (target_field q s (st_address s) d o (st_name lab) y) as (f & Hf1 & Hf2); try done; [|by rewrite Hsy|].
  - rewrite Hsyp in Hy. by apply (ok_table p Hok _ _ Hy).
  - exists d, f. split; [done|]. split; [done|]. by rewrite Hf2.
Qed.
