(* ===== verification/V2AsmDemo.v ===== *)
(** * Includes end

    Reading a source with its includes returns on every input of a host with
    finitely many readable files: a file that is being read is not read again,
    so the nesting is bounded by their number. *)
From Stdlib Require Import ZArith Lia Bool Ascii.
From stdpp Require Import base list numbers strings gmap.
From S2P Require Import Prelude State V2Opcode V2Csr V2Translate MzObj V2AsmExpr V2AsmSource V2AsmPasses V2AsmRound V2AsmAgree V2AsmImage.

Lemma error_stack a w m : a_include_stack (error a w m) = a_include_stack a.
Proof. done. Qed.
Lemma parse_operands_stack fields w : forall a, a_include_stack (parse_operands a fields w).1 = a_include_stack a.
Proof.
  induction fields as [|f fields IH]; intros a; [done|]. cbn [parse_operands]. unfold parse_operand.
  destruct (parse_body f); [done|]. specialize (IH a). by destruct (parse_operands a fields w) as [b [l|]].
Qed.
Lemma parse_label_stack a w head fields : a_include_stack (parse_label a w head fields) = a_include_stack a.
Proof. unfold parse_label. by repeat case_match. Qed.

Section Includes.
Context (fs : file_system) (K : gset string) (HK : forall key text, fs_read fs key = Some text -> key ∈ K).

(** The readable files that are not being read. *)
Definition unread (a : assembler) : nat := size (K ∖ a_include_stack a).
(** A read that returns, with the files being read as they were. *)
Definition returns_to (a : assembler) (r : option assembler) : Prop :=
  exists a', r = Some a' /\ a_include_stack a' = a_include_stack a.

Lemma unread_push a b key : key ∈ K -> key ∉ a_include_stack a -> a_include_stack b = {[ key ]} ∪ a_include_stack a -> (unread b < unread a)%nat.
Proof. intros Hk Hn Hb. unfold unread. rewrite Hb. apply subset_size. set_solver. Qed.

Section Line.
Context (n : nat) (included : assembler -> string -> string -> string -> option SourceLoc -> option assembler).
Context (Hinc : forall b text key dir from, (unread b < n)%nat -> returns_to b (included b text key dir from)).

Lemma parse_include_returns a w dir operands : (unread a < S n)%nat -> returns_to a (parse_include fs included a w dir operands).
Proof.
  intros Hn. unfold parse_include.
  assert (He : forall m, returns_to a (Some (error a w m))) by (intros m; by exists (error a w m)).
  destruct operands as [|[? []] [|]]; try apply He. cbn zeta. set (key := fs_canonical fs _).
  case_bool_decide as Hs; [apply He|]. destruct (fs_read fs key) as [text|] eqn:Er; [|apply He]. apply HK in Er.
  set (b := (a <| a_include_stack := _ |>) <| a_include_order := _ |>).
  pose proof (unread_push a b key Er Hs eq_refl) as Hlt.
  destruct (Hinc b text key (fs_parent fs key) (Some w) ltac:(lia)) as (c & -> & Hc). cbn [mbind option_bind].
  eexists. split; [done|]. cbn. rewrite Hc. unfold b. cbn. set_solver.
Qed.
Lemma parse_line_returns a line w dir : (unread a < S n)%nat -> returns_to a (parse_line fs included a line w dir).
Proof.
  intros Hn. unfold parse_line.
  assert (Hd : forall b, a_include_stack b = a_include_stack a -> returns_to a (Some b)) by (intros b Hb; by exists b).
  destruct (line_characters_are_legal line); [by apply Hd|]. destruct (split_fields line) as [|[|head fields]]; [by apply Hd..|].
  case_match; [apply Hd, parse_label_stack|]. pose proof (parse_operands_stack fields w a) as Hs.
  destruct (parse_operands a fields w) as [b [operands|]]; cbn in Hs; [|by apply Hd].
  destruct (bool_decide (head = "include")); [|by apply Hd]. destruct (parse_include_returns b w dir operands) as (c & -> & Hc); [unfold unread in *; by rewrite Hs|].
  apply Hd. by rewrite Hc.
Qed.
Lemma parse_lines_returns lines file dir from : forall a number, (unread a < S n)%nat ->
  returns_to a (parse_lines fs included a lines file number dir from).
Proof.
  induction lines as [|line lines IH]; intros a number Hn; [by exists a|]. cbn [parse_lines].
  destruct (parse_line_returns a (strip_return line) (mk_loc file number from) dir Hn) as (b & -> & Hb). cbn [mbind option_bind].
  destruct (IH b (number + 1)) as (c & -> & Hc); [unfold unread in *; by rewrite Hb|]. exists c. split; [done|]. by rewrite Hc.
Qed.
End Line.

Lemma parse_text_returns fuel : forall a text file dir from, (unread a < fuel)%nat -> returns_to a (parse_text fs fuel a text file dir from).
Proof.
  induction fuel as [|fuel IH]; intros a text file dir from Hn; [lia|]. cbn [parse_text].
  apply (parse_lines_returns fuel); [|done]. intros. by apply IH.
Qed.
End Includes.

(** ** More fuel changes nothing *)

Section Fuel.
Context (fs : file_system) (f g : assembler -> string -> string -> string -> option SourceLoc -> option assembler).
Context (Hfg : forall a text key dir from b, f a text key dir from = Some b -> g a text key dir from = Some b).

Lemma parse_line_more a line w dir b : parse_line fs f a line w dir = Some b -> parse_line fs g a line w dir = Some b.
Proof.
  unfold parse_line, parse_include. repeat (case_match; try done). intros Hr.
  match type of Hr with f ?a ?t ?k ?d ?fr ≫= _ = _ => destruct (f a t k d fr) as [c|] eqn:E end; [|done]. by rewrite (Hfg _ _ _ _ _ _ E).
Qed.
Lemma parse_lines_more lines file dir from b : forall a number, parse_lines fs f a lines file number dir from = Some b ->
  parse_lines fs g a lines file number dir from = Some b.
Proof.
  induction lines as [|line lines IH]; intros a number; [done|]. cbn [parse_lines].
  destruct (parse_line fs f a _ _ _) as [c|] eqn:E; [|done]. rewrite (parse_line_more _ _ _ _ _ E). cbn. apply IH.
Qed.
End Fuel.
Lemma parse_text_more fs fuel : forall more a text file dir from b, (fuel <= more)%nat ->
  parse_text fs fuel a text file dir from = Some b -> parse_text fs more a text file dir from = Some b.
Proof.
  induction fuel as [|fuel IH]; intros more a text file dir from b Hle; [done|]. destruct more as [|more]; [lia|].
  cbn [parse_text]. apply parse_lines_more. intros. apply IH; [lia|done].
Qed.

(** The assembler returns: with fuel for every readable file, assembling has
    one result, whatever the source and its includes are. *)
Theorem assembling_returns fs (K : gset string) a text name base :
  (forall key text, fs_read fs key = Some text -> key ∈ K) ->
  exists a', forall fuel, (size K < fuel)%nat -> assemble_text fs fuel a text name base = Some a'.
Proof.
  intros HK. assert (Hn : (unread K a < S (size K))%nat) by (unfold unread; apply Nat.lt_succ_r, subseteq_size; set_solver).
  destruct (parse_text_returns fs K HK _ a text name base None Hn) as (b & Hb & _).
  eexists. intros fuel Hf. unfold assemble_text. rewrite (parse_text_more fs (S (size K)) fuel _ _ _ _ _ _ ltac:(lia) Hb). cbn. done.
Qed.

(** Two files that include one another. *)
Definition twin_files : file_system :=
  let quote := String (chr 0x22) EmptyString in
  mk_fs (fun p => if bool_decide (p = "a") then Some ("include " +:+ quote +:+ "b" +:+ quote)
                  else if bool_decide (p = "b") then Some ("include " +:+ quote +:+ "a" +:+ quote) else None) id (fun _ p => p) id.
Lemma assembling_returns_witness : exists a', forall fuel, (2 < fuel)%nat ->
  assemble_text twin_files fuel assembler_start ("include " +:+ String (chr 0x22) ("a" +:+ String (chr 0x22) EmptyString)) "main" "" = Some a'.
Proof.
  replace 2%nat with (size ({[ "a"; "b" ]} : gset string)) by (vm_compute; reflexivity). apply assembling_returns. intros key text. unfold twin_files. cbn [fs_read].
  repeat case_bool_decide; set_solver.
Defined.
(** They are reported as a cycle. *)
Lemma twin_cycle : dg_message <$> a_diags (default assembler_start
    (assemble_file (mk_fs (fs_read twin_files) id (fun _ p => p) id) 4 assembler_start "a")) = ["include cycle: b -> a"].
Proof. vm_compute. reflexivity. Qed.

(** * A program assembled

    A small flat module with an origin, labels and branches, assembled,
    loaded at its base and decoded: the theorems about the assembler applied
    to it. *)

Definition newline : string := String (chr 10) EmptyString.
Definition demo_source : string := String.concat newline
  [ "constant count #3 ; how often";
    "    origin $1000";
    "start:";
    "    move.zb count r1";
    "loop:";
    "    subtract r1 $1 r1";
    "    branch_eq r1 r0 done";
    "    jump loop";
    "    data_quarter_word $1234 #2";
    "    origin $1040";
    "done:";
    "    return" ].
Definition no_files : file_system := mk_fs (fun _ => None) id (fun _ p => p) id.
Definition demo_parsed : assembler := default assembler_start (parse_text no_files 1 assembler_start demo_source "demo" "" None).
Definition demo_assembled : assembler := default assembler_start (assemble_text no_files 1 assembler_start demo_source "demo" "").
Definition demo_statements : list Statement := a_statements (pass_one demo_parsed).

(** ** Its image in memory *)

(** [image] at [base] in a memory of [size] bytes. *)
Definition loaded (base : Z) (image : list Z) (size : Z) : memory :=
  mk_memory (fun x => default 0 (image !! Z.to_nat (x - base))) size.
Lemma loaded_holds base image size : 0 <= base -> base + Z.of_nat (length image) <= size -> size <= 2 ^ 64 -> holds (loaded base image size) base image.
Proof.
  intros Hb Hs Hm i b Hi. pose proof (lookup_lt_Some _ _ _ Hi). unfold read_byte, accessible, loaded, u64. cbn [mm_bytes mm_size].
  rewrite Z.mod_small by lia. split; [|apply Z.ltb_lt; lia]. replace (Z.to_nat (base + Z.of_nat i - base)) with i by lia. by rewrite Hi.
Qed.

(** [forward], evaluated. *)
Definition forward_check (a : assembler) : bool :=
  let l := a_statements (pass_one a) in
  forallb (fun i => position (pass_two_before a (take i l)) <=? position (pass_two_before a (take (S i) l))) (seq 0 (length l)).
Lemma forward_checked a : forward_check a = true -> forward a.
Proof.
  unfold forward_check. intros H pre s post Hl _. rewrite forallb_forall in H. specialize (H (length pre)).
  rewrite Hl in H. rewrite take_app_length in H. replace (S (length pre)) with (length (pre ++ [s])) in H by (rewrite length_app; simpl; lia).
  replace (pre ++ s :: post) with ((pre ++ [s]) ++ post) in H by (by rewrite <- app_assoc). rewrite take_app_length in H.
  apply Z.leb_le, H, in_seq. rewrite !length_app. simpl. lia.
Qed.
Lemma demo_forward : forward demo_parsed.
Proof. apply forward_checked. vm_compute. reflexivity. Qed.

Lemma demo_parse : parse_text no_files 1 assembler_start demo_source "demo" "" None = Some demo_parsed.
Proof. vm_compute. reflexivity. Qed.
Lemma demo_assemble : assemble_text no_files 1 assembler_start demo_source "demo" "" = Some demo_assembled.
Proof. vm_compute. reflexivity. Qed.
Definition demo_memory : memory := loaded 4096 (a_flat_image demo_assembled) 0x10000.
Lemma demo_holds : holds demo_memory (a_flat_base (pass_one demo_parsed)) (a_flat_image demo_assembled).
Proof.
  replace (a_flat_base (pass_one demo_parsed)) with 4096 by (vm_compute; reflexivity).
  apply loaded_holds; [lia| |lia]. apply Z.leb_le. vm_compute. reflexivity.
Qed.
(** The statements around the [n]-th. *)
Lemma demo_split n s : demo_statements !! n = Some s -> demo_statements = take n demo_statements ++ s :: drop (S n) demo_statements.
Proof. intros H. by rewrite take_drop_middle. Qed.
Definition demo_statement (n : nat) : Statement := default (fresh_statement Label (mk_loc "" 0 None) "" []) (demo_statements !! n).
Lemma demo_at n : (n < 12)%nat -> demo_statements = take n demo_statements ++ demo_statement n :: drop (S n) demo_statements.
Proof.
  intros Hn. apply demo_split. unfold demo_statement. destruct (demo_statements !! n) eqn:E; [done|]. apply lookup_ge_None in E.
  replace (length demo_statements) with 12%nat in E by (vm_compute; reflexivity). lia.
Qed.
Lemma demo_image_short : Z.of_nat (length (a_flat_image demo_assembled)) < 2 ^ 64.
Proof. apply Z.ltb_lt. vm_compute. reflexivity. Qed.

Lemma demo_loop : demo_statements = take 4 demo_statements ++ demo_statement 4 :: demo_statement 5 :: drop 6 demo_statements.
Proof. vm_compute. reflexivity. Qed.

(** The [return] after the second origin. *)
Lemma two_passes_agree_witness : a_address (pass_two_before demo_parsed (take 11 demo_statements)) = 0x1040.
Proof.
  destruct (two_passes_agree no_files 1 demo_source "demo" "" demo_parsed demo_assembled (take 11 demo_statements) (demo_statement 11) (drop 12 demo_statements)
    demo_parse demo_assemble ltac:(vm_compute; reflexivity) (demo_at 11 ltac:(lia)) ltac:(vm_compute; reflexivity)) as [-> _].
  vm_compute. reflexivity.
Defined.
(** The [branch_eq] over the data. *)
Lemma flat_image_decodes_witness : exists d, decode_v2 demo_memory 0 Supervisor translator_reset 0x100A = (inr d, translator_reset) /\ d_opcode d = st_opcode (demo_statement 6).
Proof.
  destruct (flat_image_decodes no_files 1 demo_source "demo" "" demo_parsed demo_assembled (take 6 demo_statements) (demo_statement 6) (drop 7 demo_statements)
    demo_memory 0 Supervisor translator_reset demo_parse demo_assemble ltac:(vm_compute; reflexivity) ltac:(vm_compute; reflexivity) demo_forward demo_image_short
    (demo_at 6 ltac:(lia)) ltac:(vm_compute; reflexivity) ltac:(vm_compute; reflexivity) ltac:(reflexivity) demo_holds) as (d & H & []).
  exists d. split; [|done]. replace 0x100A with (st_address (demo_statement 6)) by (vm_compute; reflexivity). exact H.
Defined.
(** The [jump] back to the loop. *)
Lemma target_reaches_label_witness : exists d f, decode_v2 demo_memory 0 Supervisor translator_reset 0x1011 = (inr d, translator_reset) /\
  d_immediate d = [f] /\ u64 (d_next_pc d + sign_extend f 32) = 0x1003.
Proof.
  destruct (target_reaches_label no_files 1 demo_source "demo" "" demo_parsed demo_assembled (take 7 demo_statements) (demo_statement 7) (drop 8 demo_statements)
    demo_memory 0 Supervisor translator_reset (mk_operand "loop" (Expression "loop")) (take 4 demo_statements) (demo_statement 4) (demo_statement 5) (drop 6 demo_statements)
    demo_parse demo_assemble ltac:(vm_compute; reflexivity) ltac:(vm_compute; reflexivity) demo_forward demo_image_short
    (demo_at 7 ltac:(lia)) ltac:(vm_compute; reflexivity) ltac:(vm_compute; reflexivity) ltac:(vm_compute; reflexivity) demo_loop
    ltac:(vm_compute; reflexivity) ltac:(vm_compute; reflexivity) ltac:(reflexivity) demo_holds) as (d & f & H1 & H2 & H3).
  exists d, f. split; [|split; [exact H2|]].
  - replace 0x1011 with (st_address (demo_statement 7)) by (vm_compute; reflexivity). exact H1.
  - rewrite H3. vm_compute. reflexivity.
Defined.
