(* ===== verification/ObjWriter.v ===== *)
(** * Writing relocatable objects

    The two producers of .mzo files, write_object of mazm.cpp and
    serialize_object of mzasm_object.cpp.  Both collect sections, symbols and
    relocations and lay them out the same way; the layout is [write_layout]. *)
From Stdlib Require Import ZArith Lia Bool Ascii String.
From stdpp Require Import base list numbers strings gmap sorting.
From S2P Require Import Prelude MzObj V2AsmExpr V2AsmSource.

(** ** Strings *)

Definition text_bytes (s : string) : list Z := code <$> String.list_ascii_of_string s.
(** [add_string] appends the text and a NUL and returns where it starts. *)
Definition add_string (strtab : list Z) (text : string) : list Z * Z :=
  (strtab ++ text_bytes text ++ [0], u32 (Z.of_nat (length strtab))).
(** Several, in order. *)
Fixpoint add_strings (strtab : list Z) (l : list string) : list Z * list Z :=
  match l with
  | [] => (strtab, [])
  | t :: l =>
      let '(strtab, off) := add_string strtab t in
      let '(strtab, offs) := add_strings strtab l in
      (strtab, off :: offs)
  end.
Definition kind_name (kind : Z) : string :=
  if kind =? SEC_CODE then ".text" else if kind =? SEC_RODATA then ".rodata"
  else if kind =? SEC_DATA then ".data" else if kind =? SEC_BSS then ".bss" else EmptyString.

(** ** Records *)

Record OutSymbol : Type := mk_out_symbol {
  ou_name_offset : Z; ou_section_index : Z; ou_binding : Z; ou_type : Z; ou_value : Z; ou_size : Z }.
Record OutRelocation : Type := mk_out_relocation {
  or_offset : Z; or_symbol : Z; or_type : Z; or_addend : Z }.
(** A section that is written: its header's fields, its bytes (none for bss)
    and its relocations. *)
Record OutSection : Type := mk_out_section {
  os_name_offset : Z; os_kind : Z; os_align : Z; os_size : Z; os_data : list Z; os_relocs : list OutRelocation }.

(** ** The layout *)

(** The file offset of each section's contents, zero for bss, and the cursor
    after them. *)
Fixpoint content_offsets (cursor : Z) (secs : list OutSection) : list Z * Z :=
  match secs with
  | [] => ([], cursor)
  | s :: secs =>
      if os_kind s =? SEC_BSS then
        let '(offs, cursor) := content_offsets cursor secs in (0 :: offs, cursor)
      else
        let '(offs, cursor') := content_offsets (u64 (cursor + Z.of_nat (length (os_data s)))) secs in (cursor :: offs, cursor')
  end.
(** The file offset of each section's relocations, zero where it has none. *)
Fixpoint reloc_offsets (cursor : Z) (secs : list OutSection) : list Z * Z :=
  match secs with
  | [] => ([], cursor)
  | s :: secs =>
      match os_relocs s with
      | [] => let '(offs, cursor) := reloc_offsets cursor secs in (0 :: offs, cursor)
      | _ => let '(offs, cursor') := reloc_offsets (u64 (cursor + Z.of_nat (length (os_relocs s)) * RELOC_SIZE)) secs in (cursor :: offs, cursor')
      end
  end.

Definition put_section_header (file : list Z) (s : OutSection) (file_off reloc_off : Z) : list Z :=
  let file := put_u32 file (os_name_offset s) in
  let file := put_u8 file (os_kind s) in
  let file := put_u8 file (default_attrs (os_kind s)) in
  let file := put_u8 file (os_align s) in
  let file := put_u8 file 0 in
  let file := put_u64 file file_off in
  let file := put_u64 file (os_size s) in
  let file := put_u64 file reloc_off in
  put_u64 file (Z.of_nat (length (os_relocs s))).
Fixpoint put_section_headers (file : list Z) (secs : list OutSection) (file_offs reloc_offs : list Z) : list Z :=
  match secs, file_offs, reloc_offs with
  | s :: secs, f :: file_offs, r :: reloc_offs => put_section_headers (put_section_header file s f r) secs file_offs reloc_offs
  | _, _, _ => file
  end.
Definition put_relocation (file : list Z) (r : OutRelocation) : list Z :=
  let file := put_u64 file (or_offset r) in
  let file := put_u32 file (or_symbol r) in
  let file := put_u8 file (or_type r) in
  let file := put_u8 (put_u8 (put_u8 file 0) 0) 0 in
  put_u64 file (or_addend r).
Definition put_symbol (file : list Z) (y : OutSymbol) : list Z :=
  let file := put_u32 file (ou_name_offset y) in
  let file := put_u16 file (ou_section_index y) in
  let file := put_u8 file (ou_binding y) in
  let file := put_u8 file (ou_type y) in
  let file := put_u64 file (ou_value y) in
  put_u64 file (ou_size y).
Definition put_header (file : list Z) (version section_count shoff symoff symcount stroff strsize entry : Z) : list Z :=
  let file := put_u8 file MZO_MAGIC0 in
  let file := put_u8 file MZO_MAGIC1 in
  let file := put_u8 file MZO_MAGIC2 in
  let file := put_u8 file version in
  let file := put_u16 file 0 in
  let file := put_u16 file section_count in
  let file := put_u64 file shoff in
  let file := put_u64 file symoff in
  let file := put_u32 file symcount in
  let file := put_u64 file stroff in
  let file := put_u32 file strsize in
  let file := put_u32 file entry in
  put_u32 file 0.

Definition write_layout (version entry : Z) (secs : list OutSection) (syms : list OutSymbol) (strtab : list Z) : list Z :=
  let shoff := MZO_HEADER_SIZE in
  let cursor := u64 (MZO_HEADER_SIZE + Z.of_nat (length secs) * SECTION_HDR_SIZE) in
  let '(file_offs, cursor) := content_offsets cursor secs in
  let '(reloc_offs, symoff) := reloc_offsets cursor secs in
  let stroff := u64 (symoff + Z.of_nat (length syms) * SYMBOL_SIZE) in
  let file := put_header [] version (Z.of_nat (length secs)) shoff symoff (Z.of_nat (length syms)) stroff (Z.of_nat (length strtab)) entry in
  let file := put_section_headers file secs file_offs reloc_offs in
  let file := foldl (fun file s => if os_kind s =? SEC_BSS then file else file ++ os_data s) file secs in
  let file := foldl (fun file s => foldl put_relocation file (os_relocs s)) file secs in
  let file := foldl put_symbol file syms in
  file ++ strtab.

(** The fixed section order, and the position of a kind among those present. *)
Definition section_order : list Z := [SEC_CODE; SEC_RODATA; SEC_DATA; SEC_BSS].
Fixpoint index_of (kind : Z) (present : list Z) : option Z :=
  match present with
  | [] => None
  | k :: present => if k =? kind then Some 0 else Z.succ <$> index_of kind present
  end.

(** ** mzasm: serialize_object *)

(** The symbols in name order; a constant is not written. *)
Definition name_le (p q : string * Symbol) : Prop := String.leb p.1 q.1 = true.
#[global] Instance name_le_dec p q : Decision (name_le p q) := bool_eq_dec _ _.
Definition linkable (a : assembler) : list (string * Symbol) :=
  filter (fun p => sy_is_constant p.2 = false) (merge_sort name_le (map_to_list (a_symbols a))).

Definition out_symbol (present : list Z) (y : Symbol) (off : Z) : OutSymbol :=
  if negb (sy_defined y) then mk_out_symbol off SHN_UNDEF BIND_GLOBAL TYPE_NOTYPE 0 0
  else
    let binding := if sy_exported y then BIND_GLOBAL else BIND_LOCAL in
    match index_of (sy_section y) present with
    | Some i => mk_out_symbol off (u16 i) binding (if sy_section y =? SEC_CODE then TYPE_FUNC else TYPE_OBJECT) (sy_value y) 0
    | None => mk_out_symbol off SHN_ABS binding TYPE_NOTYPE (sy_value y) 0
    end.
(** The index of a name among the symbols written. *)
Fixpoint name_index (name : string) (names : list string) : option Z :=
  match names with
  | [] => None
  | n :: names => if bool_decide (n = name) then Some 0 else Z.succ <$> name_index name names
  end.
Definition out_relocations (names : list string) (kind : Z) (l : list Relocation) : list OutRelocation :=
  (fun r => mk_out_relocation (re_offset r) (default 0 (name_index (re_symbol r) names)) (re_type r) (re_addend r))
    <$> filter (fun r => re_section r = kind) l.
Definition resized (bytes : list Z) (size : nat) : list Z := take size bytes ++ replicate (size - length bytes) 0.

Definition serialize_object (a : assembler) : list Z :=
  let size kind := default 0 (a_section_sizes a !! Z.to_nat kind) in
  let present := filter (fun kind => (0 <? size kind) = true) section_order in
  let '(strtab, section_names) := add_strings [0] (kind_name <$> present) in
  let names := (linkable a).*1 in
  let '(strtab, offs) := add_strings strtab names in
  let syms := zip_with (out_symbol present) (linkable a).*2 offs in
  let entry := default ENTRY_NONE (name_index "_start" names) in
  let secs := zip_with (fun kind off =>
    mk_out_section off kind 0 (size kind)
      (if kind =? SEC_BSS then [] else resized (default [] (a_sections a !! Z.to_nat kind)) (Z.to_nat (size kind)))
      (out_relocations names kind (a_relocations a))) present section_names in
  write_layout MZO_VERSION_V2 entry secs syms strtab.

(** ** mazm: write_object *)

Record sec_span : Type := mk_span { sp_kind : Z; sp_start : Z; sp_end : Z }.
Record obj_reloc_rec : Type := mk_obj_reloc { rr_flat_off : Z; rr_symbol : string; rr_type : Z; rr_addend : Z }.
(** What the assembler has collected in object mode.  A label is a 32-bit flat
    address; the largest one marks a name that is only referenced. *)
Record mazm_state : Type := mk_mazm {
  mz_memory : Z -> Z;
  mz_address : Z;
  mz_spans : list sec_span;
  mz_cur_kind : Z;
  mz_cur_start : Z;
  mz_labels : gmap string Z;
  mz_relocs : list obj_reloc_rec;
  mz_sec_align : list Z;
  mz_exports : gset string;
  mz_externs : gset string;
  mz_data_refs : gset string }.
Definition no_address : Z := 0xFFFFFFFF.

(** SECTION: close the open span and open one of [kind]. *)
Definition switch_section (m : mazm_state) (kind : Z) : mazm_state :=
  mk_mazm (mz_memory m) (mz_address m) (mz_spans m ++ [mk_span (mz_cur_kind m) (mz_cur_start m) (mz_address m)]) kind (mz_address m)
    (mz_labels m) (mz_relocs m) (mz_sec_align m) (mz_exports m) (mz_externs m) (mz_data_refs m).

(** The closed spans with the offset of each in its section. *)
Record span_info : Type := mk_span_info { si_kind : Z; si_start : Z; si_end : Z; si_base : Z }.
Fixpoint place_spans (cum : Z -> Z) (l : list sec_span) : list span_info :=
  match l with
  | [] => []
  | s :: l =>
      if sp_end s <? sp_start s then place_spans cum l
      else mk_span_info (sp_kind s) (sp_start s) (sp_end s) (cum (sp_kind s))
           :: place_spans (fun k => if k =? sp_kind s then u64 (cum k + (sp_end s - sp_start s)) else cum k) l
  end.
Definition spans_of (kind : Z) (l : list span_info) : list span_info := filter (fun s => si_kind s = kind) l.
(** The bytes of a section, and its size. *)
Definition section_content (memory : Z -> Z) (kind : Z) (l : list span_info) : list Z :=
  if kind =? SEC_BSS then [] else concat ((fun s => memory <$> seqZ (si_start s) (si_end s - si_start s)) <$> spans_of kind l).
Definition span_total (kind : Z) (l : list span_info) : Z :=
  foldl (fun n s => u64 (n + (si_end s - si_start s))) 0 (spans_of kind l).

(** The section and offset of a flat address: the first span that contains
    it, or else the first that ends at it. *)
Definition locate (l : list span_info) (addr : Z) : option (Z * Z) :=
  let at_span s := (si_kind s, u64 (si_base s + (addr - si_start s))) in
  match find (fun s => (si_start s <=? addr) && (addr <? si_end s)) l with
  | Some s => Some (at_span s)
  | None => at_span <$> find (fun s => (si_start s <? si_end s) && (si_start s <=? addr) && (addr <=? si_end s)) l
  end.

(** The spans with the open one closed, the kinds that have bytes or space, and
    the labels in name order. *)
Definition closed_spans (m : mazm_state) : list span_info :=
  place_spans (fun _ => 0) (mz_spans m ++ [mk_span (mz_cur_kind m) (mz_cur_start m) (mz_address m)]).
Definition present_kinds (spans : list span_info) : list Z := filter (fun kind => (0 <? span_total kind spans) = true) section_order.
Definition label_le (p q : string * Z) : Prop := String.leb p.1 q.1 = true.
#[global] Instance label_le_dec p q : Decision (label_le p q) := bool_eq_dec _ _.
Definition sorted_labels (m : mazm_state) : list (string * Z) := merge_sort label_le (map_to_list (mz_labels m)).

Section Mazm.
Context (m : mazm_state).
Let spans := closed_spans m.
Let present := present_kinds spans.

(** One symbol; a name without an address is an import or an error. *)
Definition mazm_symbol (name : string) (val off : Z) : string + OutSymbol :=
  if val =? no_address then
    if bool_decide (name ∈ mz_exports m) then inl ("cannot export undefined symbol " +:+ in_quotes name)
    else if negb (bool_decide (name ∈ mz_externs m)) && negb (bool_decide (name ∈ mz_data_refs m))
    then inl ("undefined symbol " +:+ in_quotes name +:+ " (declare it EXTERN if defined in another module)")
    else inr (mk_out_symbol off SHN_UNDEF BIND_GLOBAL TYPE_NOTYPE 0 0)
  else
    let binding := if bool_decide (name ∈ mz_exports m) then BIND_GLOBAL else BIND_LOCAL in
    let absolute := mk_out_symbol off SHN_ABS binding TYPE_NOTYPE val 0 in
    match locate spans val with
    | Some (kind, offset) =>
        match index_of kind present with
        | Some i => inr (mk_out_symbol off (u16 i) binding (if kind =? SEC_CODE then TYPE_FUNC else TYPE_OBJECT) offset 0)
        | None => inr absolute
        end
    | None => inr absolute
    end.
Fixpoint mazm_symbols (l : list (string * Z)) (offs : list Z) : string + list OutSymbol :=
  match l, offs with
  | (name, val) :: l, off :: offs =>
      match mazm_symbol name val off, mazm_symbols l offs with
      | inl e, _ => inl e
      | _, inl e => inl e
      | inr y, inr ys => inr (y :: ys)
      end
  | _, _ => inr []
  end.
(** The relocations in order, each with the kind of its section. *)
Fixpoint mazm_relocations (names : list string) (l : list obj_reloc_rec) : string + list (Z * OutRelocation) :=
  match l with
  | [] => inr []
  | r :: l =>
      match locate spans (rr_flat_off r) with
      | Some (kind, off) =>
          match index_of kind present, mazm_relocations names l with
          | None, _ => inl "internal: relocation outside any section"
          | _, inl e => inl e
          | Some _, inr rs => inr ((kind, mk_out_relocation off (default 0 (name_index (rr_symbol r) names)) (rr_type r) (rr_addend r)) :: rs)
          end
      | None => inl "internal: relocation outside any section"
      end
  end.

Definition write_object : string + list Z :=
  let '(strtab, section_names) := add_strings [0] (kind_name <$> present) in
  let labels := sorted_labels m in
  let '(strtab, offs) := add_strings strtab labels.*1 in
  match mazm_symbols labels offs, mazm_relocations labels.*1 (mz_relocs m) with
  | inl e, _ => inl e
  | _, inl e => inl e
  | inr syms, inr relocs =>
      let entry := default ENTRY_NONE (name_index "_start" labels.*1) in
      let secs := zip_with (fun kind off =>
        mk_out_section off kind (u8 (default 1 (mz_sec_align m !! Z.to_nat kind))) (span_total kind spans)
          (section_content (mz_memory m) kind spans) (filter (fun p => p.1 = kind) relocs).*2) present section_names in
      inr (write_layout MZO_VERSION entry secs syms strtab)
  end.
End Mazm.
