(* ===== verification/Mzld.v ===== *)
(** * The linker

    mzld.cpp: reading objects and archives, placing sections, resolving
    symbols, applying relocations, merging segments and writing the .mzx.  The
    arguments of the command line are parameters.  A link ends in [Refused]
    with the diagnostic, or in [Wild] where the C++ code reads or writes
    outside a buffer. *)
From Stdlib Require Import ZArith Lia Bool Ascii String.
From stdpp Require Import base list numbers strings gmap pretty sorting.
From S2P Require Import Prelude MzObj V2AsmExpr.

(** ** Outcomes *)

Inductive outcome (A : Type) : Type := Done (x : A) | Refused (message : string) | Wild.
Arguments Done {A} _.
Arguments Refused {A} _.
Arguments Wild {A}.
#[global] Instance outcome_ret : MRet outcome := fun A => Done.
#[global] Instance outcome_bind : MBind outcome := fun A B f o =>
  match o with Done x => f x | Refused m => Refused m | Wild => Wild end.
#[global] Instance outcome_fmap : FMap outcome := fun A B f o =>
  match o with Done x => Done (f x) | Refused m => Refused m | Wild => Wild end.
(** A read outside the buffer. *)
Definition wild_none {A} (o : option A) : outcome A := match o with Some x => Done x | None => Wild end.
Fixpoint outcome_map {A B} (f : A -> outcome B) (l : list A) : outcome (list B) :=
  match l with
  | [] => Done []
  | x :: l => y ← f x; ys ← outcome_map f l; Done (y :: ys)
  end.

(** ** Objects *)

Record Reloc : Type := mk_reloc { r_offset : Z; r_symbol : Z; r_type : Z; r_addend : Z }.
Record LdSymbol : Type := mk_ld_symbol {
  ls_name : string; ls_section_index : Z; ls_binding : Z; ls_type : Z; ls_value : Z; ls_size : Z }.
Record LdSection : Type := mk_ld_section {
  lc_name : string; lc_kind : Z; lc_attrs : Z; lc_align : Z; lc_size : Z; lc_data : list Z; lc_relocs : list Reloc;
  lc_vaddr : Z; lc_placed : bool }.
Record LdObject : Type := mk_ld_object { lo_source : string; lo_sections : list LdSection; lo_symbols : list LdSymbol }.

Definition ld_section_eta (s : LdSection) := mk_ld_section (lc_name s) (lc_kind s) (lc_attrs s) (lc_align s) (lc_size s) (lc_data s) (lc_relocs s) (lc_vaddr s) (lc_placed s).
#[export] Instance set_lc_data : Setter lc_data := ltac:(mk_setter ld_section_eta).
#[export] Instance set_lc_vaddr : Setter lc_vaddr := ltac:(mk_setter ld_section_eta).
#[export] Instance set_lc_placed : Setter lc_placed := ltac:(mk_setter ld_section_eta).
Definition ld_object_eta (o : LdObject) := mk_ld_object (lo_source o) (lo_sections o) (lo_symbols o).
#[export] Instance set_lo_sections : Setter lo_sections := ltac:(mk_setter ld_object_eta).

(** ** Reading *)

(** The text from [off] to the first NUL, [None] when there is none. *)
Fixpoint c_string (b : list Z) : option string :=
  match b with
  | [] => None
  | c :: b => if c =? 0 then Some EmptyString else String (chr c) <$> c_string b
  end.
Definition read_string (strtab : list Z) (off : Z) : outcome string :=
  if Z.of_nat (length strtab) <=? off then Done EmptyString else wild_none (c_string (drop (Z.to_nat off) strtab)).

Section Buffer.
Context (buf : list Z) (path : string).
Let size := Z.of_nat (length buf).
Definition u8_at (off : Z) : outcome Z := wild_none (get_u8 buf off).
Definition u16_at (off : Z) : outcome Z := wild_none (get_u16 buf off).
Definition u32_at (off : Z) : outcome Z := wild_none (get_u32 buf off).
Definition u64_at (off : Z) : outcome Z := wild_none (get_u64 buf off).
Definition refuse {A} (what : string) : outcome A := Refused (in_quotes path +:+ what).

Fixpoint read_relocs (n : nat) (r reloc_off : Z) : outcome (list Reloc) :=
  match n with
  | O => Done []
  | S n =>
      let ro := u64 (reloc_off + u64 (r * RELOC_SIZE)) in
      offset ← u64_at ro; symbol ← u32_at (ro + 8); type ← u8_at (ro + 12); addend ← u64_at (ro + 16);
      rest ← read_relocs n (r + 1) reloc_off;
      Done (mk_reloc offset symbol type (i64 addend) :: rest)
  end.

Definition read_section (strtab : list Z) (so : Z) : outcome LdSection :=
  if size <? u64 (so + SECTION_HDR_SIZE) then refuse " section header out of bounds"
  else
    name_off ← u32_at so;
    name ← read_string strtab name_off;
    kind ← u8_at (so + 4);
    attrs ← u8_at (so + 5);
    align ← u8_at (so + 6);
    file_off ← u64_at (so + 8);
    sec_size ← u64_at (so + 16);
    reloc_off ← u64_at (so + 24);
    reloc_count ← u64_at (so + 32);
    data ← (if negb (has attrs ATTR_NOBITS) && (0 <? sec_size)
            then if size <? u64 (file_off + sec_size) then refuse (" section " +:+ in_quotes name +:+ " contents out of bounds")
                 else wild_none (slice buf file_off sec_size)
            else Done []);
    relocs ← (if negb (reloc_off =? 0) && negb (reloc_count =? 0)
              then if size <? u64 (reloc_off + u64 (reloc_count * RELOC_SIZE)) then refuse (" section " +:+ in_quotes name +:+ " relocations out of bounds")
                   else read_relocs (Z.to_nat reloc_count) 0 reloc_off
              else Done []);
    Done (mk_ld_section name kind attrs (if align =? 0 then 1 else align) sec_size data relocs 0 false).
Fixpoint read_sections (n : nat) (strtab : list Z) (i shoff : Z) : outcome (list LdSection) :=
  match n with
  | O => Done []
  | S n =>
      s ← read_section strtab (u64 (shoff + i * SECTION_HDR_SIZE));
      rest ← read_sections n strtab (i + 1) shoff;
      Done (s :: rest)
  end.
Definition read_symbol (strtab : list Z) (yo : Z) : outcome LdSymbol :=
  if size <? u64 (yo + SYMBOL_SIZE) then refuse " symbol table out of bounds"
  else
    name_off ← u32_at yo;
    name ← read_string strtab name_off;
    section ← u16_at (yo + 4);
    binding ← u8_at (yo + 6);
    type ← u8_at (yo + 7);
    value ← u64_at (yo + 8);
    sym_size ← u64_at (yo + 16);
    Done (mk_ld_symbol name section binding type value sym_size).
Fixpoint read_symbols (n : nat) (strtab : list Z) (i symoff : Z) : outcome (list LdSymbol) :=
  match n with
  | O => Done []
  | S n =>
      y ← read_symbol strtab (u64 (symoff + i * SYMBOL_SIZE));
      rest ← read_symbols n strtab (i + 1) symoff;
      Done (y :: rest)
  end.

Definition parse_object_buf : outcome LdObject :=
  if size <? MZO_HEADER_SIZE then refuse " is too small to be a .mzo"
  else if negb (bool_decide (take 4 buf = [MZO_MAGIC0; MZO_MAGIC1; MZO_MAGIC2; MZO_VERSION])) then refuse " is not a v1 .mzo object (bad magic)"
  else
    section_count ← u16_at 6;
    shoff ← u64_at 8;
    symoff ← u64_at 16;
    symcount ← u32_at 24;
    stroff ← u64_at 28;
    strsize ← u32_at 36;
    if size <? u64 (stroff + strsize) then refuse " string table out of bounds"
    else
      strtab ← wild_none (slice buf stroff strsize);
      sections ← read_sections (Z.to_nat section_count) strtab 0 shoff;
      symbols ← read_symbols (Z.to_nat symcount) strtab 0 symoff;
      Done (mk_ld_object path sections symbols).
End Buffer.

(** An archive: every member in the declared order. *)
Fixpoint member_tag (b : list Z) : string :=
  match b with
  | [] => EmptyString
  | c :: b => if c =? 0 then EmptyString else String (chr c) (member_tag b)
  end.
Fixpoint read_members (n : nat) (path : string) (buf : list Z) (i index_off : Z) : outcome (list LdObject) :=
  match n with
  | O => Done []
  | S n =>
      let size := Z.of_nat (length buf) in
      let eo := u64 (index_off + i * MZA_INDEX_ENTRY_SIZE) in
      if size <? u64 (eo + MZA_INDEX_ENTRY_SIZE) then refuse path " archive member index out of bounds"
      else
        name_off ← u32_at buf eo;
        member_off ← u64_at buf (eo + 8);
        member_size ← u64_at buf (eo + 16);
        if size <? u64 (member_off + member_size) then refuse path " archive member contents out of bounds"
        else
          let tag := member_tag (drop (Z.to_nat name_off) buf) in
          member ← wild_none (slice buf member_off member_size);
          o ← parse_object_buf member (path +:+ "(" +:+ (if bool_decide (tag = EmptyString) then pretty i else tag) +:+ ")");
          rest ← read_members n path buf (i + 1) index_off;
          Done (o :: rest)
  end.
Definition parse_archive (path : string) (buf : list Z) : outcome (list LdObject) :=
  if Z.of_nat (length buf) <? MZA_HEADER_SIZE then refuse path " is too small to be a .mza archive"
  else
    version ← u8_at buf 3;
    if negb (version =? MZA_VERSION) then refuse path " is not a v1 .mza archive (bad version)"
    else
      member_count ← u16_at buf 6;
      index_off ← u64_at buf 8;
      read_members (Z.to_nat member_count) path buf 0 index_off.

Definition is_archive (buf : list Z) : bool := (4 <=? length buf)%nat && bool_decide (take 3 buf = [MZA_MAGIC0; MZA_MAGIC1; MZA_MAGIC2]).
(** The inputs with their contents, [None] where a file cannot be read. *)
Definition read_input (input : string * option (list Z)) : outcome (list LdObject) :=
  match input.2 with
  | None => Refused ("cannot read input " +:+ in_quotes input.1)
  | Some buf => if is_archive buf then parse_archive input.1 buf else o ← parse_object_buf buf input.1; Done [o]
  end.
Definition read_inputs (inputs : list (string * option (list Z))) : outcome (list LdObject) :=
  l ← outcome_map read_input inputs; Done (List.concat l).

(** ** Placing sections *)

(** No section is both writable and executable. *)
Definition wx_section (s : LdSection) : bool := has (lc_attrs s) ATTR_EXEC && has (lc_attrs s) ATTR_WRITE.
Fixpoint check_wx (objects : list LdObject) : outcome unit :=
  match objects with
  | [] => Done tt
  | o :: objects =>
      match find wx_section (lo_sections o) with
      | Some s => Refused ("section " +:+ in_quotes (lc_name s) +:+ " in " +:+ in_quotes (lo_source o) +:+ " is both writable and executable (W+X)")
      | None => check_wx objects
      end
  end.

Definition align_up (v a : Z) : Z := if a <=? 1 then v else clr (u64 (v + (a - 1))) (a - 1).
Definition link_order : list Z := [SEC_CODE; SEC_RODATA; SEC_DATA; SEC_BSS].

(** One walk over the sections of kind [k]; the cursor comes first. *)
Fixpoint place_sections (k cursor : Z) (l : list LdSection) : Z * list LdSection :=
  match l with
  | [] => (cursor, [])
  | s :: l =>
      if negb (lc_kind s =? k) || (lc_size s =? 0) then
        let '(cursor, l) := place_sections k cursor l in (cursor, s :: l)
      else
        let at_ := align_up cursor (lc_align s) in
        let '(cursor, l) := place_sections k (u64 (at_ + lc_size s)) l in
        (cursor, ((s <| lc_vaddr := at_ |>) <| lc_placed := true |>) :: l)
  end.
Fixpoint place_objects (k cursor : Z) (l : list LdObject) : Z * list LdObject :=
  match l with
  | [] => (cursor, [])
  | o :: l =>
      let '(cursor, secs) := place_sections k cursor (lo_sections o) in
      let '(cursor, l) := place_objects k cursor l in
      (cursor, (o <| lo_sections := secs |>) :: l)
  end.
Definition layout (image_base : Z) (objects : list LdObject) : Z * list LdObject :=
  foldl (fun p k => place_objects k p.1 p.2) (image_base, objects) link_order.

(** ** Symbols *)

(** Every exported definition by name: the positions of its object and of the
    symbol there. *)
Definition exported (y : LdSymbol) : bool := (ls_binding y =? BIND_GLOBAL) && negb (ls_section_index y =? SHN_UNDEF).
Definition source_of (objects : list LdObject) (oi : nat) : string := default EmptyString (lo_source <$> objects !! oi).
Fixpoint collect_symbols (objects : list LdObject) (oi i : nat) (l : list LdSymbol) (globals : gmap string (nat * nat)) : outcome (gmap string (nat * nat)) :=
  match l with
  | [] => Done globals
  | y :: l =>
      if exported y then
        match globals !! ls_name y with
        | Some (first, _) =>
            Refused ("duplicate global symbol " +:+ in_quotes (ls_name y) +:+ " defined in " +:+ in_quotes (source_of objects first) +:+
                     " and " +:+ in_quotes (source_of objects oi))
        | None => collect_symbols objects oi (S i) l (<[ls_name y := (oi, i)]> globals)
        end
      else collect_symbols objects oi (S i) l globals
  end.
Fixpoint collect_globals (objects : list LdObject) (oi : nat) (l : list LdObject) (globals : gmap string (nat * nat)) : outcome (gmap string (nat * nat)) :=
  match l with
  | [] => Done globals
  | o :: l => globals ← collect_symbols objects oi 0 (lo_symbols o) globals; collect_globals objects (S oi) l globals
  end.

Section Linked.
Context (objects : list LdObject) (globals : gmap string (nat * nat)).

Definition section_at (o : LdObject) (index : Z) : option LdSection := lo_sections o !! Z.to_nat index.
(** The address of an exported definition: [sections[def.section_index]] is
    not checked. *)
Definition global_address (d : nat * nat) : outcome Z :=
  o ← wild_none (objects !! d.1); y ← wild_none (lo_symbols o !! d.2);
  s ← wild_none (section_at o (ls_section_index y));
  Done (u64 (lc_vaddr s + ls_value y)).
Definition resolve (o : LdObject) (sym_index : Z) : outcome Z :=
  match lo_symbols o !! Z.to_nat sym_index with
  | None => Refused "relocation references out-of-range symbol index"
  | Some y =>
      if ls_section_index y =? SHN_ABS then Done (ls_value y)
      else if ls_section_index y =? SHN_UNDEF then
        match globals !! ls_name y with
        | None => Refused ("undefined symbol " +:+ in_quotes (ls_name y) +:+ " referenced from " +:+ in_quotes (lo_source o))
        | Some d => global_address d
        end
      else
        match section_at o (ls_section_index y) with
        | None => Refused ("symbol " +:+ in_quotes (ls_name y) +:+ " names an out-of-range section")
        | Some s => Done (u64 (lc_vaddr s + ls_value y))
        end
  end.

(** ** Relocations *)

Definition lower_hex (d : Z) : ascii := chr (if d <? 10 then d + 0x30 else d - 10 + 0x61).
Fixpoint hex_loop (fuel : nat) (z : Z) (acc : string) : string :=
  match fuel with
  | O => acc
  | S fuel => if z =? 0 then acc else hex_loop fuel (z / 16) (String (lower_hex (z mod 16)) acc)
  end.
Definition hex_word (z : Z) : string := if z =? 0 then "0" else hex_loop 16 z EmptyString.

(** [width] bytes of [value] stored from [offset] on; [None] past the end. *)
Definition patch (data : list Z) (offset : Z) (width : nat) (value : Z) : option (list Z) :=
  if (0 <=? offset) && (offset + Z.of_nat width <=? Z.of_nat (length data))
  then Some (take (Z.to_nat offset) data ++ le_bytes width value ++ drop (Z.to_nat offset + width) data)
  else None.
Definition apply_reloc (o : LdObject) (name : string) (data : list Z) (rel : Reloc) : outcome (list Z) :=
  let width := reloc_width (r_type rel) in
  if (width =? 0)%nat then Refused ("unsupported relocation type " +:+ pretty (r_type rel) +:+ " in " +:+ in_quotes (lo_source o))
  else if Z.of_nat (length data) <? u64 (r_offset rel + Z.of_nat width)
  then Refused ("relocation at offset " +:+ pretty (r_offset rel) +:+ " in section " +:+ in_quotes name +:+ " of " +:+
                in_quotes (lo_source o) +:+ " lands outside the section")
  else
    sym_addr ← resolve o (r_symbol rel);
    let value := u64 (sym_addr + r_addend rel) in
    if (width <? 8)%nat && (2 ^ (8 * Z.of_nat width) <=? value)
    then Refused ("relocation value 0x" +:+ hex_word value +:+ " does not fit in " +:+ pretty (8 * Z.of_nat width) +:+
                  "-bit relocation for symbol referenced from " +:+ in_quotes (lo_source o))
    else wild_none (patch data (r_offset rel) width value).
Fixpoint apply_relocs (o : LdObject) (name : string) (data : list Z) (l : list Reloc) : outcome (list Z) :=
  match l with
  | [] => Done data
  | rel :: l => data ← apply_reloc o name data rel; apply_relocs o name data l
  end.
Definition relocate_section (o : LdObject) (s : LdSection) : outcome LdSection :=
  data ← apply_relocs o (lc_name s) (lc_data s) (lc_relocs s); Done (s <| lc_data := data |>).
Definition relocate_object (o : LdObject) : outcome LdObject :=
  secs ← outcome_map (relocate_section o) (lo_sections o); Done (o <| lo_sections := secs |>).

(** ** The entry point *)

Fixpoint local_entry (name : string) (l : list LdObject) : option Z :=
  match l with
  | [] => None
  | o :: l =>
      match find (fun y => bool_decide (ls_name y = name) && negb (ls_section_index y =? SHN_UNDEF)
                           && (ls_section_index y <? Z.of_nat (length (lo_sections o)))) (lo_symbols o) with
      | Some y => (fun s => u64 (lc_vaddr s + ls_value y)) <$> section_at o (ls_section_index y)
      | None => local_entry name l
      end
  end.
Definition entry_address (name : string) : outcome Z :=
  match globals !! name with
  | Some d => global_address d
  | None => match local_entry name objects with
            | Some a => Done a
            | None => Refused ("entry symbol " +:+ in_quotes name +:+ " is unresolved")
            end
  end.
End Linked.

(** ** The map file *)

(** A label that the compiler generates for a basic block: Lm and digits. *)
Definition is_block_label (n : string) : bool :=
  match n with
  | String c1 (String c2 (String c3 rest)) => is_char 0x4C c1 && is_char 0x6D c2 && str_all isdigit (String c3 rest)
  | _ => false
  end.
Definition map_row (o : LdObject) (y : LdSymbol) : option (Z * string) :=
  if (ls_section_index y =? SHN_UNDEF) || (Z.of_nat (length (lo_sections o)) <=? ls_section_index y) then None
  else if bool_decide (ls_name y = EmptyString) || is_block_label (ls_name y) then None
  else (fun s => (u64 (lc_vaddr s + ls_value y), ls_name y)) <$> section_at o (ls_section_index y).
Definition row_le (p q : Z * string) : Prop := if p.1 =? q.1 then String.leb p.2 q.2 = true else p.1 < q.1.
#[global] Instance row_le_dec p q : Decision (row_le p q).
Proof. unfold row_le. destruct (p.1 =? q.1); apply _. Defined.
Definition map_rows (objects : list LdObject) : list (Z * string) :=
  merge_sort row_le (objects ≫= (fun o => omap (map_row o) (lo_symbols o))).
Fixpoint hex_padded (digits : nat) (z : Z) : string :=
  match digits with
  | O => EmptyString
  | S d => String (lower_hex (Z.land (Z.shiftr z (4 * Z.of_nat d)) 15)) (hex_padded d z)
  end.
Definition map_line (row : Z * string) : string := "0x" +:+ hex_padded 16 row.1 +:+ " " +:+ row.2 +:+ String (chr 10) EmptyString.
Definition map_text (objects : list LdObject) : string := String.concat EmptyString (map_line <$> map_rows objects).

(** ** Segments *)

Record Segment : Type := mk_segment {
  sg_kind : Z; sg_attrs : Z; sg_vaddr : Z; sg_mem_size : Z; sg_data : list Z; sg_nobits : bool; sg_used : bool }.
Definition segment_start (k : Z) : Segment := mk_segment k (default_attrs k) 0 0 [] (k =? SEC_BSS) false.

(** One placed section appended; a gap before it is filled with zeros. *)
Definition append_section (seg : Segment) (s : LdSection) : Segment :=
  let vaddr := if sg_used seg then sg_vaddr seg else lc_vaddr s in
  let seg_end := u64 (vaddr + sg_mem_size seg) in
  let gap := if seg_end <? lc_vaddr s then lc_vaddr s - seg_end else 0 in
  mk_segment (sg_kind seg) (sg_attrs seg) vaddr (u64 (u64 (sg_mem_size seg + gap) + lc_size s))
    (if sg_nobits seg then sg_data seg else sg_data seg ++ replicate (Z.to_nat gap) 0 ++ lc_data s) (sg_nobits seg) true.
Definition merge_segment (objects : list LdObject) (k : Z) : Segment :=
  foldl append_section (segment_start k) (filter (fun s => lc_kind s = k /\ lc_placed s = true) (objects ≫= lo_sections)).
Definition segments (objects : list LdObject) : list Segment := merge_segment objects <$> link_order.

Definition segs_overlap (a c : Segment) : bool :=
  (sg_vaddr a <? u64 (sg_vaddr c + sg_mem_size c)) && (sg_vaddr c <? u64 (sg_vaddr a + sg_mem_size a)).
Fixpoint any_overlap (l : list Segment) : bool :=
  match l with
  | [] => false
  | a :: l => (sg_used a && existsb (fun c => sg_used c && segs_overlap a c) l) || any_overlap l
  end.

(** ** The executable *)

Definition put_segment (file : list Z) (seg : Segment) (file_off file_size : Z) : list Z :=
  let file := put_u8 file (sg_kind seg) in
  let file := put_u8 file (sg_attrs seg) in
  let file := put_u8 (put_u8 (put_u8 (put_u8 (put_u8 (put_u8 file 0) 0) 0) 0) 0) 0 in
  let file := put_u64 file (sg_vaddr seg) in
  let file := put_u64 file file_off in
  let file := put_u64 file (sg_mem_size seg) in
  put_u64 file file_size.
Fixpoint put_segments (file : list Z) (cur_off : Z) (l : list Segment) : list Z :=
  match l with
  | [] => file
  | seg :: l =>
      if sg_nobits seg then put_segments (put_segment file seg 0 0) cur_off l
      else
        let n := Z.of_nat (length (sg_data seg)) in
        put_segments (put_segment file seg cur_off n) (u64 (cur_off + n)) l
  end.
Definition write_executable (entry : Z) (used : list Segment) : list Z :=
  let table_off := 24 in
  let contents_off := u64 (table_off + Z.of_nat (length used) * SEGMENT_SIZE) in
  let file := put_u8 (put_u8 (put_u8 (put_u8 [] MZX_MAGIC0) MZX_MAGIC1) MZX_MAGIC2) MZX_VERSION in
  let file := put_u16 file 0 in
  let file := put_u16 file (Z.of_nat (length used)) in
  let file := put_u64 file entry in
  let file := put_u64 file table_off in
  let file := put_segments file contents_off used in
  foldl (fun file seg => if sg_nobits seg then file else file ++ sg_data seg) file used.

(** ** The link *)

Definition link (entry_name : string) (image_base : Z) (objects : list LdObject) : outcome (list LdObject * list Z) :=
  check_wx objects ;;
  let objects := (layout image_base objects).2 in
  globals ← collect_globals objects 0 objects ∅;
  objects ← outcome_map (relocate_object objects globals) objects;
  entry ← entry_address objects globals entry_name;
  let segs := segments objects in
  if any_overlap segs then Refused "linked segments overlap in address space"
  else Done (objects, write_executable entry (filter (fun s => sg_used s = true) segs)).
Definition mzld (entry_name : string) (image_base : Z) (inputs : list (string * option (list Z))) : outcome (list Z) :=
  objects ← read_inputs inputs; r ← link entry_name image_base objects; Done r.2.
