(* ===== verification/ObjProps.v ===== *)
(** * Objects are read as they were written

    The layout that both writers share, read by the linker, gives back its
    sections, relocations, symbols and names. *)
From Stdlib Require Import ZArith Lia Bool Ascii String.
From stdpp Require Import base list numbers strings gmap sorting.
From S2P Require Import Prelude MzObj V2AsmExpr V2AsmSource ObjWriter Mzld.

(** ** Pieces of a buffer *)

(** [bytes] are in [buf] from [off] on. *)
Definition at_file (buf : list Z) (off : Z) (bytes : list Z) : Prop :=
  exists pre post, buf = pre ++ bytes ++ post /\ Z.of_nat (length pre) = off.

Lemma at_file_mid pre bytes post : at_file (pre ++ bytes ++ post) (Z.of_nat (length pre)) bytes.
Proof. by exists pre, post. Qed.
Lemma at_file_app_l buf off l l' : at_file buf off (l ++ l') -> at_file buf off l.
Proof. intros (pre & post & -> & H). exists pre, (l' ++ post). by rewrite <- app_assoc. Qed.
Lemma at_file_app_r buf off l l' : at_file buf off (l ++ l') -> at_file buf (off + Z.of_nat (length l)) l'.
Proof. intros (pre & post & -> & H). exists (pre ++ l), post. rewrite <- !app_assoc, length_app. split; [done|lia]. Qed.
Lemma at_file_bound buf off l : at_file buf off l -> 0 <= off /\ off + Z.of_nat (length l) <= Z.of_nat (length buf).
Proof. intros (pre & post & -> & H). rewrite !length_app. lia. Qed.
Lemma at_file_byte buf off l i : at_file buf off l -> 0 <= i < Z.of_nat (length l) -> byte_at buf (off + i) = byte_at l i.
Proof.
  intros (pre & post & -> & <-) Hi. rewrite byte_at_app_r by lia. replace (Z.of_nat (length pre) + i - Z.of_nat (length pre)) with i by lia. apply byte_at_app_l. lia.
Qed.
Lemma at_file_slice buf off l : at_file buf off l -> slice buf off (Z.of_nat (length l)) = Some l.
Proof.
  intros H. pose proof (at_file_bound _ _ _ H) as [H0 H1]. destruct H as (pre & post & -> & <-). unfold slice.
  rewrite !(proj2 (Z.ltb_ge _ _)) by lia. cbn. rewrite !Nat2Z.id, drop_app_length, take_app_length. done.
Qed.

(** ** Records as fields *)

(** A record: the widths and values of its fields. *)
Definition fields_bytes (fs : list (nat * Z)) : list Z := fs ≫= (fun f => le_bytes f.1 f.2).
Definition fields_width (fs : list (nat * Z)) : nat := sum_list fs.*1.
Lemma fields_bytes_length fs : length (fields_bytes fs) = fields_width fs.
Proof. unfold fields_bytes, fields_width. induction fs as [|[w v] fs IH]; [done|]. cbn. rewrite length_app, le_bytes_length. cbn in IH. lia. Qed.
Lemma fields_bytes_app fs gs : fields_bytes (fs ++ gs) = fields_bytes fs ++ fields_bytes gs.
Proof. unfold fields_bytes. apply bind_app. Qed.

(** The field at position [i] of a record at [off]. *)
Lemma field_read buf off fs i w v : at_file buf off (fields_bytes fs) -> fs !! i = Some (w, v) ->
  get_le w buf (off + Z.of_nat (fields_width (take i fs))) = Some (v mod 2 ^ (8 * Z.of_nat w)).
Proof.
  intros Hf Hi. rewrite <- (take_drop_middle fs i (w, v) Hi), fields_bytes_app in Hf. apply at_file_app_r in Hf.
  change (fields_bytes ((w, v) :: drop (S i) fs)) with (le_bytes w v ++ fields_bytes (drop (S i) fs)) in Hf. apply at_file_app_l in Hf.
  rewrite fields_bytes_length in Hf. destruct Hf as (pre & post & -> & <-). rewrite get_le_app_r by lia. rewrite Z.sub_diag. apply get_le_head.
Qed.

Lemma le_bytes_mod n : forall v, le_bytes n (v mod 2 ^ (8 * Z.of_nat n)) = le_bytes n v.
Proof.
  induction n as [|n IH]; intros v; [done|]. cbn [le_bytes]. rewrite <- (IH (Z.shiftr v 8)). replace (8 * Z.of_nat (S n)) with (8 + 8 * Z.of_nat n) by lia. f_equal.
  - change 255 with (Z.ones 8). rewrite !Z.land_ones by lia. rewrite Z.pow_add_r, Z.rem_mul_r by lia.
    rewrite (Z.mul_comm (2 ^ 8)), Z.mod_add by lia. apply Z.mod_mod. lia.
  - rewrite !Z.shiftr_div_pow2 by lia. rewrite Z.pow_add_r, Z.rem_mul_r by lia. rewrite (Z.mul_comm (2 ^ 8)), Z.div_add by lia.
    rewrite (Z.div_small (v mod 2 ^ 8)) by (apply Z.mod_pos_bound; lia). by rewrite Z.add_0_l, IH.
Qed.
Lemma put_u8_field b v : put_u8 b v = b ++ fields_bytes [(1%nat, v)].
Proof. unfold put_u8, u8. cbn. change 255 with (Z.ones 8). by rewrite Z.land_ones by lia. Qed.
Lemma put_u16_field b v : put_u16 b v = b ++ fields_bytes [(2%nat, v)].
Proof. unfold put_u16, u16, fields_bytes. cbn [mbind list_bind]. rewrite app_nil_r. f_equal. apply (le_bytes_mod 2). Qed.
Lemma put_u32_field b v : put_u32 b v = b ++ fields_bytes [(4%nat, v)].
Proof. unfold put_u32, u32, fields_bytes. cbn [mbind list_bind]. rewrite app_nil_r. f_equal. apply (le_bytes_mod 4). Qed.
Lemma put_u64_field b v : put_u64 b v = b ++ fields_bytes [(8%nat, v)].
Proof. unfold put_u64, u64, fields_bytes. cbn [mbind list_bind]. rewrite app_nil_r. f_equal. apply (le_bytes_mod 8). Qed.
Create Rewrite HintDb puts.
#[global] Hint Rewrite put_u8_field put_u16_field put_u32_field put_u64_field : puts.
(** A run of [put]s is one record. *)
Ltac as_record := autorewrite with puts; rewrite <- ?app_assoc, <- ?fields_bytes_app; cbn [app]; try done.

(** ** The records of an object *)

Definition header_fields (version section_count shoff symoff symcount stroff strsize entry : Z) : list (nat * Z) :=
  [(1%nat, MZO_MAGIC0); (1%nat, MZO_MAGIC1); (1%nat, MZO_MAGIC2); (1%nat, version); (2%nat, 0); (2%nat, section_count);
   (8%nat, shoff); (8%nat, symoff); (4%nat, symcount); (8%nat, stroff); (4%nat, strsize); (4%nat, entry); (4%nat, 0)].
Definition section_fields (s : OutSection) (f r : Z) : list (nat * Z) :=
  [(4%nat, os_name_offset s); (1%nat, os_kind s); (1%nat, default_attrs (os_kind s)); (1%nat, os_align s); (1%nat, 0);
   (8%nat, f); (8%nat, os_size s); (8%nat, r); (8%nat, Z.of_nat (length (os_relocs s)))].
Definition reloc_fields (r : OutRelocation) : list (nat * Z) :=
  [(8%nat, or_offset r); (4%nat, or_symbol r); (1%nat, or_type r); (1%nat, 0); (1%nat, 0); (1%nat, 0); (8%nat, or_addend r)].
Definition symbol_fields (y : OutSymbol) : list (nat * Z) :=
  [(4%nat, ou_name_offset y); (2%nat, ou_section_index y); (1%nat, ou_binding y); (1%nat, ou_type y); (8%nat, ou_value y); (8%nat, ou_size y)].

Lemma put_header_fields b v n sh sy ny st ns e : put_header b v n sh sy ny st ns e = b ++ fields_bytes (header_fields v n sh sy ny st ns e).
Proof. unfold put_header. as_record. Qed.
Lemma put_section_fields b s f r : put_section_header b s f r = b ++ fields_bytes (section_fields s f r).
Proof. unfold put_section_header. as_record. Qed.
Lemma put_relocation_fields b r : put_relocation b r = b ++ fields_bytes (reloc_fields r).
Proof. unfold put_relocation. as_record. Qed.
Lemma put_symbol_fields b y : put_symbol b y = b ++ fields_bytes (symbol_fields y).
Proof. unfold put_symbol. as_record. Qed.

(** The parts of the file. *)
Definition headers_bytes (secs : list OutSection) (file_offs reloc_offs : list Z) : list Z :=
  zip_with (fun s p => fields_bytes (section_fields s p.1 p.2)) secs (zip file_offs reloc_offs) ≫= id.
Definition content_bytes (s : OutSection) : list Z := if os_kind s =? SEC_BSS then [] else os_data s.
Definition relocs_bytes (l : list OutRelocation) : list Z := l ≫= (fun r => fields_bytes (reloc_fields r)).
Definition symbols_bytes (l : list OutSymbol) : list Z := l ≫= (fun y => fields_bytes (symbol_fields y)).

Lemma put_headers_bytes secs : forall b fo ro, put_section_headers b secs fo ro = b ++ headers_bytes secs fo ro.
Proof.
  induction secs as [|s secs IH]; intros b fo ro; [by rewrite app_nil_r|]. destruct fo as [|f fo], ro as [|r ro]; cbn [put_section_headers]; try by rewrite app_nil_r.
  rewrite IH, put_section_fields, <- app_assoc. done.
Qed.
Lemma foldl_append {A} (f : list Z -> A -> list Z) (g : A -> list Z) l : (forall b x, f b x = b ++ g x) -> forall b, foldl f b l = b ++ (l ≫= g).
Proof. intros H. induction l as [|x l IH]; intros b; cbn; [by rewrite app_nil_r|]. rewrite IH, H, <- app_assoc. done. Qed.

Lemma reloc_width_24 r : length (fields_bytes (reloc_fields r)) = 24%nat.
Proof. by rewrite fields_bytes_length. Qed.
Lemma symbol_width_24 y : length (fields_bytes (symbol_fields y)) = 24%nat.
Proof. by rewrite fields_bytes_length. Qed.
Lemma bind_length_const {A} (f : A -> list Z) n l : (forall x, length (f x) = n) -> length (l ≫= f) = (length l * n)%nat.
Proof. intros H. induction l as [|x l IH]; [done|]. cbn. rewrite length_app, H. cbn in IH. by rewrite IH. Qed.

Record layout_of (version entry : Z) (secs : list OutSection) (syms : list OutSymbol) (strtab : list Z) (buf : list Z)
    (file_offs reloc_offs : list Z) (symoff stroff : Z) : Prop := mk_layout {
  ly_content : (content_offsets (MZO_HEADER_SIZE + Z.of_nat (length secs) * SECTION_HDR_SIZE) secs).1 = file_offs;
  ly_relocs : reloc_offsets (content_offsets (MZO_HEADER_SIZE + Z.of_nat (length secs) * SECTION_HDR_SIZE) secs).2 secs = (reloc_offs, symoff);
  ly_buf : buf = fields_bytes (header_fields version (Z.of_nat (length secs)) MZO_HEADER_SIZE symoff (Z.of_nat (length syms)) stroff (Z.of_nat (length strtab)) entry) ++
    headers_bytes secs file_offs reloc_offs ++ (secs ≫= content_bytes) ++ (secs ≫= (fun s => relocs_bytes (os_relocs s))) ++ symbols_bytes syms ++ strtab;
  ly_stroff : stroff = u64 (symoff + Z.of_nat (length syms) * SYMBOL_SIZE) }.
Lemma write_layout_parts version entry secs syms strtab : MZO_HEADER_SIZE + Z.of_nat (length secs) * SECTION_HDR_SIZE < 2 ^ 64 ->
  exists fo ro symoff stroff, layout_of version entry secs syms strtab (write_layout version entry secs syms strtab) fo ro symoff stroff.
Proof.
  intros Hn. unfold write_layout. assert (E : u64 (MZO_HEADER_SIZE + Z.of_nat (length secs) * SECTION_HDR_SIZE) = MZO_HEADER_SIZE + Z.of_nat (length secs) * SECTION_HDR_SIZE).
  { unfold u64. apply Z.mod_small. unfold MZO_HEADER_SIZE, SECTION_HDR_SIZE in *. lia. }
  rewrite E. destruct (content_offsets _ secs) as [fo cursor] eqn:Ec. destruct (reloc_offsets cursor secs) as [ro symoff] eqn:Er.
  exists fo, ro, symoff, (u64 (symoff + Z.of_nat (length syms) * SYMBOL_SIZE)). split; [by rewrite Ec|by rewrite Ec| |done].
  rewrite put_header_fields, app_nil_l, put_headers_bytes.
  rewrite (foldl_append _ _ syms put_symbol_fields).
  rewrite (foldl_append (fun file s => foldl put_relocation file (os_relocs s)) (fun s => relocs_bytes (os_relocs s))) by (intros b s; apply (foldl_append _ _ _ put_relocation_fields)).
  rewrite (foldl_append (fun file s => if os_kind s =? SEC_BSS then file else file ++ os_data s) content_bytes) by (intros b s; unfold content_bytes; destruct (_ =? _); by rewrite ?app_nil_r).
  by rewrite <- !app_assoc.
Qed.

Lemma content_offsets_length secs : forall c, length (content_offsets c secs).1 = length secs.
Proof.
  induction secs as [|s secs IH]; intros c; [done|]. cbn [content_offsets].
  destruct (os_kind s =? SEC_BSS); [specialize (IH c)|specialize (IH (u64 (c + Z.of_nat (length (os_data s)))))]; destruct (content_offsets _ secs); simpl in *; lia.
Qed.
Lemma reloc_offsets_length secs : forall c, length (reloc_offsets c secs).1 = length secs.
Proof.
  induction secs as [|s secs IH]; intros c; [done|]. cbn [reloc_offsets].
  destruct (os_relocs s) as [|x l]; [specialize (IH c)|specialize (IH (u64 (c + Z.of_nat (length (x :: l)) * RELOC_SIZE)))]; destruct (reloc_offsets _ secs); simpl in *; lia.
Qed.

(** ** Where the parts are *)

Section Positions.
Context (buf : list Z) (Hlen : Z.of_nat (length buf) < 2 ^ 64).

Lemma u64_in_file off l : at_file buf off l -> u64 (off + Z.of_nat (length l)) = off + Z.of_nat (length l).
Proof. intros [H0 H1]%at_file_bound. unfold u64. apply Z.mod_small. lia. Qed.

Lemma contents_at secs : forall cursor, at_file buf cursor (secs ≫= content_bytes) ->
  (content_offsets cursor secs).2 = cursor + Z.of_nat (length (secs ≫= content_bytes)) /\
  forall i s f, secs !! i = Some s -> (content_offsets cursor secs).1 !! i = Some f -> os_kind s <> SEC_BSS -> at_file buf f (os_data s).
Proof.
  induction secs as [|s secs IH]; intros cursor Hat; [cbn; split; [lia|done]|].
  change ((s :: secs) ≫= content_bytes) with (content_bytes s ++ (secs ≫= content_bytes)) in *.
  pose proof (at_file_app_r _ _ _ _ Hat) as Hr. apply at_file_app_l in Hat. rewrite length_app. cbn [content_offsets]. unfold content_bytes in Hat, Hr at 1 |- * at 1.
  destruct (Z.eqb_spec (os_kind s) SEC_BSS) as [Hb|Hb].
  - rewrite Z.add_0_r in Hr. destruct (IH cursor Hr) as (H2 & H3). destruct (content_offsets cursor secs) as [offs c]. cbn in *.
    split; [lia|]. intros [|i] s' f Hs Hf Hk; simplify_eq/=; try done; by eapply H3.
  - rewrite (u64_in_file _ _ Hat). destruct (IH _ Hr) as (H2 & H3). destruct (content_offsets _ secs) as [offs c]. cbn in *.
    split; [lia|]. intros [|i] s' f Hs Hf Hk; simplify_eq/=; try done; by eapply H3.
Qed.
Lemma relocs_at secs : forall cursor, 0 < cursor -> at_file buf cursor (secs ≫= (fun s => relocs_bytes (os_relocs s))) ->
  (reloc_offsets cursor secs).2 = cursor + Z.of_nat (length (secs ≫= (fun s => relocs_bytes (os_relocs s)))) /\
  forall i s r, secs !! i = Some s -> (reloc_offsets cursor secs).1 !! i = Some r ->
    if bool_decide (os_relocs s = []) then r = 0 else 0 < r /\ at_file buf r (relocs_bytes (os_relocs s)).
Proof.
  induction secs as [|s secs IH]; intros cursor Hc Hat; [cbn; split; [lia|done]|].
  change ((s :: secs) ≫= (fun s => relocs_bytes (os_relocs s))) with (relocs_bytes (os_relocs s) ++ (secs ≫= (fun s => relocs_bytes (os_relocs s)))) in *.
  pose proof (at_file_app_r _ _ _ _ Hat) as Hr. apply at_file_app_l in Hat. rewrite length_app. cbn [reloc_offsets].
  assert (Hl : Z.of_nat (length (os_relocs s)) * RELOC_SIZE = Z.of_nat (length (relocs_bytes (os_relocs s)))).
  { unfold relocs_bytes. rewrite (bind_length_const _ 24) by apply reloc_width_24. unfold RELOC_SIZE. lia. }
  destruct (os_relocs s) as [|r0 rs] eqn:Es.
  - cbn in Hr. rewrite Z.add_0_r in Hr. destruct (IH cursor Hc Hr) as (H2 & H3). destruct (reloc_offsets cursor secs) as [offs c]. cbn in *.
    split; [lia|]. intros [|i] s' r Hs Hf; simplify_eq/=; [by rewrite Es|by eapply H3].
  - rewrite Hl, (u64_in_file _ _ Hat). destruct (IH (cursor + Z.of_nat (length (relocs_bytes (r0 :: rs)))) ltac:(lia) Hr) as (H2 & H3). destruct (reloc_offsets _ secs) as [offs c]. cbn [fst snd] in *.
    split; [lia|]. intros [|i] s' r Hs Hf; [|by eapply H3].
    injection Hs as <-. injection Hf as <-. rewrite Es. done.
Qed.
Lemma headers_at secs : forall off fo ro, at_file buf off (headers_bytes secs fo ro) -> length fo = length secs -> length ro = length secs ->
  forall i s f r, secs !! i = Some s -> fo !! i = Some f -> ro !! i = Some r ->
    at_file buf (off + Z.of_nat i * SECTION_HDR_SIZE) (fields_bytes (section_fields s f r)).
Proof.
  induction secs as [|s0 secs IH]; intros off fo ro Hat Hf Hr i s f r Hs Hfi Hri; [done|].
  destruct fo as [|f0 fo]; [done|]. destruct ro as [|r0 ro]; [done|].
  change (headers_bytes (s0 :: secs) (f0 :: fo) (r0 :: ro)) with (fields_bytes (section_fields s0 f0 r0) ++ headers_bytes secs fo ro) in Hat.
  destruct i as [|i].
  - injection Hs as ->. injection Hfi as ->. injection Hri as ->. rewrite Z.mul_0_l, Z.add_0_r. by eapply at_file_app_l.
  - apply at_file_app_r in Hat. rewrite fields_bytes_length in Hat. change (fields_width _) with 40%nat in Hat.
    replace (off + Z.of_nat (S i) * SECTION_HDR_SIZE) with (off + Z.of_nat 40 + Z.of_nat i * SECTION_HDR_SIZE) by (unfold SECTION_HDR_SIZE; lia).
    injection Hf as Hf. injection Hr as Hr. by eapply (IH _ fo ro).
Qed.
End Positions.
Lemma headers_length secs : forall fo ro, length fo = length secs -> length ro = length secs -> length (headers_bytes secs fo ro) = (length secs * 40)%nat.
Proof.
  induction secs as [|s secs IH]; intros fo ro Hf Hr; [done|]. destruct fo as [|f fo]; [done|]. destruct ro as [|r ro]; [done|].
  change (headers_bytes (s :: secs) (f :: fo) (r :: ro)) with (fields_bytes (section_fields s f r) ++ headers_bytes secs fo ro).
  rewrite length_app, fields_bytes_length, IH by (simpl in *; lia). done.
Qed.

(** ** Reading the records *)

Section Fields.
Context (buf : list Z) (off : Z) (fs : list (nat * Z)) (Hat : at_file buf off (fields_bytes fs)).
Lemma u8_field i v o : fs !! i = Some (1%nat, v) -> o = off + Z.of_nat (fields_width (take i fs)) -> u8_at buf o = Done (u8 v).
Proof.
  intros Hi ->. pose proof (field_read _ _ _ _ _ _ Hat Hi) as H. unfold u8_at, get_u8. cbn [get_le] in H. destruct (byte_at buf _) as [c|]; [|done].
  cbn in H. rewrite Z.lor_0_r in H. injection H as ->. done.
Qed.
Lemma u16_field i v o : fs !! i = Some (2%nat, v) -> o = off + Z.of_nat (fields_width (take i fs)) -> u16_at buf o = Done (u16 v).
Proof. intros Hi ->. unfold u16_at, get_u16. by rewrite (field_read _ _ _ _ _ _ Hat Hi). Qed.
Lemma u32_field i v o : fs !! i = Some (4%nat, v) -> o = off + Z.of_nat (fields_width (take i fs)) -> u32_at buf o = Done (u32 v).
Proof. intros Hi ->. unfold u32_at, get_u32. by rewrite (field_read _ _ _ _ _ _ Hat Hi). Qed.
Lemma u64_field i v o : fs !! i = Some (8%nat, v) -> o = off + Z.of_nat (fields_width (take i fs)) -> u64_at buf o = Done (u64 v).
Proof. intros Hi ->. unfold u64_at, get_u64. by rewrite (field_read _ _ _ _ _ _ Hat Hi). Qed.
End Fields.

Lemma outcome_bind_done {A B} (x : A) (f : A -> outcome B) : (Done x ≫= f) = f x.
Proof. done. Qed.

(** The next read of a record at [H] is of its field [i]. *)
Ltac read_field H i :=
  lazymatch goal with
  | |- (u8_at ?b ?o ≫= _) = _ => rewrite (u8_field b _ _ H i _ o eq_refl) by (cbn; lia)
  | |- (u16_at ?b ?o ≫= _) = _ => rewrite (u16_field b _ _ H i _ o eq_refl) by (cbn; lia)
  | |- (u32_at ?b ?o ≫= _) = _ => rewrite (u32_field b _ _ H i _ o eq_refl) by (cbn; lia)
  | |- (u64_at ?b ?o ≫= _) = _ => rewrite (u64_field b _ _ H i _ o eq_refl) by (cbn; lia)
  end; rewrite outcome_bind_done; cbv beta.

(** What the linker has of what was written. *)
Definition ld_reloc (r : OutRelocation) : Reloc := mk_reloc (u64 (or_offset r)) (u32 (or_symbol r)) (u8 (or_type r)) (i64 (or_addend r)).
Definition ld_symbol (name : string) (y : OutSymbol) : LdSymbol :=
  mk_ld_symbol name (u16 (ou_section_index y)) (u8 (ou_binding y)) (u8 (ou_type y)) (u64 (ou_value y)) (u64 (ou_size y)).
Definition ld_section (name : string) (s : OutSection) : LdSection :=
  mk_ld_section name (os_kind s) (default_attrs (os_kind s)) (if u8 (os_align s) =? 0 then 1 else u8 (os_align s)) (os_size s)
    (content_bytes s) (ld_reloc <$> os_relocs s) 0 false.

Section Reading.
Context (buf : list Z) (Hlen : Z.of_nat (length buf) < 2 ^ 64) (path : string).
Abbreviation size := (Z.of_nat (length buf)).

Lemma read_relocs_at l : forall r base, 0 <= base -> 0 <= r -> at_file buf (base + r * RELOC_SIZE) (relocs_bytes l) ->
  read_relocs buf (length l) r base = Done (ld_reloc <$> l).
Proof.
  induction l as [|x l IH]; intros r base Hb Hr Hat; [done|].
  change (relocs_bytes (x :: l)) with (fields_bytes (reloc_fields x) ++ relocs_bytes l) in Hat.
  pose proof (at_file_app_r _ _ _ _ Hat) as Hrest. apply at_file_app_l in Hat. rewrite reloc_width_24 in Hrest.
  pose proof (at_file_bound _ _ _ Hat) as [H0 H1]. rewrite reloc_width_24 in H1. unfold RELOC_SIZE in *. cbn [length read_relocs].
  assert (E : u64 (base + u64 (r * RELOC_SIZE)) = base + r * 24).
  { unfold RELOC_SIZE, u64. rewrite (Z.mod_small (r * 24)) by lia. apply Z.mod_small. lia. }
  rewrite E. read_field Hat 0%nat. read_field Hat 1%nat. read_field Hat 2%nat. read_field Hat 6%nat.
  rewrite IH by (lia || (replace (base + (r + 1) * 24) with (base + r * 24 + Z.of_nat 24) by lia; done)). cbn. unfold ld_reloc. by rewrite i64_of_u64.
Qed.

Lemma read_symbol_at strtab y yo name : at_file buf yo (fields_bytes (symbol_fields y)) -> read_string strtab (u32 (ou_name_offset y)) = Done name ->
  read_symbol buf path strtab yo = Done (ld_symbol name y).
Proof.
  intros Hat Hn. pose proof (at_file_bound _ _ _ Hat) as [H0 H1]. rewrite symbol_width_24 in H1. unfold read_symbol.
  rewrite (proj2 (Z.ltb_ge _ _)) by (unfold u64, SYMBOL_SIZE; rewrite Z.mod_small; lia).
  read_field Hat 0%nat. rewrite Hn, outcome_bind_done. read_field Hat 1%nat. read_field Hat 2%nat. read_field Hat 3%nat. read_field Hat 4%nat. read_field Hat 5%nat. done.
Qed.
Lemma read_symbols_at strtab syms : forall names i symoff, 0 <= symoff -> 0 <= i ->
  at_file buf (symoff + i * SYMBOL_SIZE) (symbols_bytes syms) ->
  Forall2 (fun y name => read_string strtab (u32 (ou_name_offset y)) = Done name) syms names ->
  read_symbols buf path (length syms) strtab i symoff = Done (zip_with ld_symbol names syms).
Proof.
  induction syms as [|y syms IH]; intros names i symoff Hs Hi Hat Hn.
  { apply Forall2_nil_inv_l in Hn as ->. done. }
  apply Forall2_cons_inv_l in Hn as (name & names' & Hname & Hn & ->).
  change (symbols_bytes (y :: syms)) with (fields_bytes (symbol_fields y) ++ symbols_bytes syms) in Hat.
  pose proof (at_file_app_r _ _ _ _ Hat) as Hrest. apply at_file_app_l in Hat. rewrite symbol_width_24 in Hrest.
  pose proof (at_file_bound _ _ _ Hat) as [H0 H1]. rewrite symbol_width_24 in H1. cbn [length read_symbols].
  assert (E : u64 (symoff + i * SYMBOL_SIZE) = symoff + i * SYMBOL_SIZE) by (unfold u64; apply Z.mod_small; lia). rewrite E.
  rewrite (read_symbol_at strtab y _ name Hat Hname), outcome_bind_done.
  rewrite (IH names') by (done || lia || (replace (symoff + (i + 1) * SYMBOL_SIZE) with (symoff + i * SYMBOL_SIZE + Z.of_nat 24) by (unfold SYMBOL_SIZE; lia); done)).
  done.
Qed.

(** What a section that is written has. *)
Definition section_wf (s : OutSection) : Prop :=
  os_kind s ∈ section_order /\ 0 <= os_size s < 2 ^ 64 /\ (os_kind s <> SEC_BSS -> Z.of_nat (length (os_data s)) = os_size s).
Lemma kind_cases s : section_wf s -> os_kind s = 1 \/ os_kind s = 2 \/ os_kind s = 3 \/ os_kind s = 4.
Proof. intros [H _]. unfold section_order in H. set_solver. Qed.
Lemma kind_fields s : section_wf s -> u8 (os_kind s) = os_kind s /\ u8 (default_attrs (os_kind s)) = default_attrs (os_kind s) /\
  has (default_attrs (os_kind s)) ATTR_NOBITS = (os_kind s =? SEC_BSS).
Proof. intros H%kind_cases. destruct H as [->|[->|[->| ->]]]; vm_compute; done. Qed.

Lemma read_data s f m : section_wf s -> (os_kind s <> SEC_BSS -> at_file buf f (os_data s)) ->
  (if negb (has (default_attrs (os_kind s)) ATTR_NOBITS) && (0 <? os_size s)
   then if size <? u64 (u64 f + os_size s) then refuse path m else wild_none (slice buf (u64 f) (os_size s))
   else Done []) = Done (content_bytes s).
Proof.
  intros Hw Hf. destruct (kind_fields s Hw) as (_ & _ & ->). destruct Hw as (_ & Hs & Hd). unfold content_bytes.
  destruct (Z.eqb_spec (os_kind s) SEC_BSS) as [Hb|Hb]; [done|]. cbn [negb andb]. specialize (Hf Hb). specialize (Hd Hb).
  destruct (Z.ltb_spec 0 (os_size s)) as [Hp|Hp]; [|by destruct (os_data s); [|simpl in Hd; lia]].
  pose proof (at_file_bound _ _ _ Hf) as [H0 H1]. assert (u64 f = f) as -> by (unfold u64; apply Z.mod_small; lia).
  rewrite (proj2 (Z.ltb_ge _ _)) by (unfold u64; rewrite Z.mod_small; lia). rewrite <- Hd. by rewrite (at_file_slice _ _ _ Hf).
Qed.
Lemma read_reloc_list s r m : (if bool_decide (os_relocs s = []) then r = 0 else 0 < r /\ at_file buf r (relocs_bytes (os_relocs s))) ->
  (if negb (u64 r =? 0) && negb (u64 (Z.of_nat (length (os_relocs s))) =? 0)
   then if size <? u64 (u64 r + u64 (u64 (Z.of_nat (length (os_relocs s))) * RELOC_SIZE)) then refuse path m
        else read_relocs buf (Z.to_nat (u64 (Z.of_nat (length (os_relocs s))))) 0 (u64 r)
   else Done []) = Done (ld_reloc <$> os_relocs s).
Proof.
  case_bool_decide as He; [intros ->; by rewrite He|]. intros [Hp Hat]. pose proof (at_file_bound _ _ _ Hat) as [H0 H1].
  assert (Hl : Z.of_nat (length (relocs_bytes (os_relocs s))) = Z.of_nat (length (os_relocs s)) * RELOC_SIZE).
  { unfold relocs_bytes. rewrite (bind_length_const _ 24) by apply reloc_width_24. unfold RELOC_SIZE. lia. }
  assert (Hn : (0 < length (os_relocs s))%nat) by (destruct (os_relocs s); [done|simpl; lia]). unfold RELOC_SIZE in *.
  assert (u64 r = r) as -> by (unfold u64; apply Z.mod_small; lia).
  assert (u64 (Z.of_nat (length (os_relocs s))) = Z.of_nat (length (os_relocs s))) as -> by (unfold u64; apply Z.mod_small; lia).
  rewrite !(proj2 (Z.eqb_neq _ _)) by lia. cbn [negb andb].
  rewrite (proj2 (Z.ltb_ge _ _)) by (unfold u64; rewrite (Z.mod_small (_ * 24)), Z.mod_small; lia).
  rewrite Nat2Z.id. apply read_relocs_at; [lia|lia|]. by rewrite Z.mul_0_l, Z.add_0_r.
Qed.
Lemma read_section_at strtab s f r so name : section_wf s -> at_file buf so (fields_bytes (section_fields s f r)) ->
  read_string strtab (u32 (os_name_offset s)) = Done name -> (os_kind s <> SEC_BSS -> at_file buf f (os_data s)) ->
  (if bool_decide (os_relocs s = []) then r = 0 else 0 < r /\ at_file buf r (relocs_bytes (os_relocs s))) ->
  read_section buf path strtab so = Done (ld_section name s).
Proof.
  intros Hw Hat Hn Hf Hr. pose proof (at_file_bound _ _ _ Hat) as [H0 H1]. rewrite fields_bytes_length in H1. change (fields_width _) with 40%nat in H1.
  unfold read_section. rewrite (proj2 (Z.ltb_ge _ _)) by (unfold u64, SECTION_HDR_SIZE; rewrite Z.mod_small; lia).
  read_field Hat 0%nat. rewrite Hn, outcome_bind_done. read_field Hat 1%nat. read_field Hat 2%nat. read_field Hat 3%nat. read_field Hat 5%nat.
  read_field Hat 6%nat. read_field Hat 7%nat. read_field Hat 8%nat. destruct (kind_fields s Hw) as (-> & -> & _).
  assert (u64 (os_size s) = os_size s) as -> by (destruct Hw as (_ & ? & _); unfold u64; by apply Z.mod_small).
  rewrite (read_data s f _ Hw Hf), outcome_bind_done, (read_reloc_list s r _ Hr). done.
Qed.
Lemma read_sections_at strtab secs : forall names fo ro i shoff, 0 <= shoff -> 0 <= i -> Forall section_wf secs ->
  length fo = length secs -> length ro = length secs ->
  (forall j s f r, secs !! j = Some s -> fo !! j = Some f -> ro !! j = Some r ->
    at_file buf (shoff + (i + Z.of_nat j) * SECTION_HDR_SIZE) (fields_bytes (section_fields s f r)) /\
    (os_kind s <> SEC_BSS -> at_file buf f (os_data s)) /\
    (if bool_decide (os_relocs s = []) then r = 0 else 0 < r /\ at_file buf r (relocs_bytes (os_relocs s)))) ->
  Forall2 (fun s name => read_string strtab (u32 (os_name_offset s)) = Done name) secs names ->
  read_sections buf path (length secs) strtab i shoff = Done (zip_with ld_section names secs).
Proof.
  induction secs as [|s secs IH]; intros names fo ro i shoff Hs Hi Hw Hfo Hro Hat Hn.
  { apply Forall2_nil_inv_l in Hn as ->. done. }
  apply Forall2_cons_inv_l in Hn as (name & names' & Hname & Hn & ->). apply Forall_cons in Hw as [Hw0 Hw].
  destruct fo as [|f fo]; [done|]. destruct ro as [|r ro]; [done|]. injection Hfo as Hfo. injection Hro as Hro.
  destruct (Hat 0%nat s f r eq_refl eq_refl eq_refl) as (Hh & Hd & Hr). rewrite Z.add_0_r in Hh.
  pose proof (at_file_bound _ _ _ Hh) as [H0 H1]. rewrite fields_bytes_length in H1. change (fields_width _) with 40%nat in H1. cbn [length read_sections].
  assert (E : u64 (shoff + i * SECTION_HDR_SIZE) = shoff + i * SECTION_HDR_SIZE) by (unfold u64; apply Z.mod_small; lia). rewrite E.
  rewrite (read_section_at strtab s f r _ name Hw0 Hh Hname Hd Hr), outcome_bind_done.
  rewrite (IH names' fo ro); [done|lia|lia|done..| |done]. intros j s' f' r' Hs' Hf' Hr'.
  replace (i + 1 + Z.of_nat j) with (i + Z.of_nat (S j)) by lia. by apply (Hat (S j)).
Qed.
End Reading.

(** ** Names *)

Definition no_nul (s : string) : Prop := Forall (fun c => code c <> 0) (String.list_ascii_of_string s).
Lemma chr_code c : chr (code c) = c.
Proof. unfold chr, code. rewrite N2Z.id. apply ascii_N_embedding. Qed.
Lemma c_string_text s rest : no_nul s -> c_string (text_bytes s ++ 0 :: rest) = Some s.
Proof.
  unfold text_bytes, no_nul. induction s as [|c s IH]; cbn; [done|]. intros [Hc Hs]%Forall_cons. rewrite (proj2 (Z.eqb_neq _ _)) by done.
  cbn in IH. by rewrite IH, chr_code.
Qed.
(** A string that was added is read back from the table it is part of. *)
Lemma added_string_read strtab text rest : no_nul text -> Z.of_nat (length strtab) < 2 ^ 32 ->
  read_string (strtab ++ (text_bytes text ++ [0]) ++ rest) (u32 (u32 (Z.of_nat (length strtab)))) = Done text.
Proof.
  intros Hn Hl. unfold u32. rewrite Z.mod_mod, Z.mod_small by lia. unfold read_string. rewrite !length_app. cbn [length].
  rewrite (proj2 (Z.leb_gt _ _)) by lia. rewrite Nat2Z.id, drop_app_length, <- app_assoc. cbn [app]. by rewrite c_string_text.
Qed.
Lemma add_strings_read l : forall strtab T offs rest, Forall no_nul l -> add_strings strtab l = (T, offs) -> Z.of_nat (length T) < 2 ^ 32 ->
  (exists more, T = strtab ++ more) /\ length offs = length l /\ Forall2 (fun off name => read_string (T ++ rest) (u32 off) = Done name) offs l.
Proof.
  induction l as [|t l IH]; intros strtab T offs rest Hl E HT; cbn in E.
  { injection E as <- <-. split; [exists []; by rewrite app_nil_r|]. split; [done|constructor]. }
  apply Forall_cons in Hl as [Ht Hl]. destruct (add_strings (strtab ++ text_bytes t ++ [0]) l) as [T1 offs1] eqn:E1. injection E as <- <-.
  destruct (IH _ _ _ rest Hl E1 HT) as ([more ->] & Hn & Hf). rewrite !length_app in HT. split; [exists ((text_bytes t ++ [0]) ++ more); by rewrite <- !app_assoc|].
  split; [simpl; lia|]. constructor; [|done]. rewrite <- !app_assoc. rewrite (app_assoc (text_bytes t)). apply added_string_read; [done|lia].
Qed.

(** ** The file *)

Section File.
Context (version entry : Z) (secs : list OutSection) (syms : list OutSymbol) (strtab : list Z) (section_names names : list string).
Context (Hsec : Forall section_wf secs) (Hns : Z.of_nat (length secs) < 2 ^ 16) (Hny : Z.of_nat (length syms) < 2 ^ 32) (Hnt : Z.of_nat (length strtab) < 2 ^ 32).
Context (Hsn : Forall2 (fun s name => read_string strtab (u32 (os_name_offset s)) = Done name) secs section_names).
Context (Hyn : Forall2 (fun y name => read_string strtab (u32 (ou_name_offset y)) = Done name) syms names).
Let buf := write_layout version entry secs syms strtab.
Context (Hlen : Z.of_nat (length buf) < 2 ^ 64).

Lemma read_layout path : version = MZO_VERSION ->
  parse_object_buf buf path = Done (mk_ld_object path (zip_with ld_section section_names secs) (zip_with ld_symbol names syms)).
Proof.
  intros Hv. destruct (write_layout_parts version entry secs syms strtab) as (fo & ro & symoff & stroff & [Lf Lr Lb Ls]); [unfold MZO_HEADER_SIZE, SECTION_HDR_SIZE; lia|].
  fold buf in Lb. set (hdr := fields_bytes (header_fields _ _ _ _ _ _ _ _)) in Lb.
  assert (Hhl : Z.of_nat (length hdr) = 48) by (unfold hdr; by rewrite fields_bytes_length).
  assert (Hh : at_file buf 0 hdr) by (rewrite Lb; exists [], (headers_bytes secs fo ro ++ (secs ≫= content_bytes) ++ (secs ≫= (fun s => relocs_bytes (os_relocs s))) ++ symbols_bytes syms ++ strtab); done).
  assert (Hrest : at_file buf 48 (headers_bytes secs fo ro ++ (secs ≫= content_bytes) ++ (secs ≫= (fun s => relocs_bytes (os_relocs s))) ++ symbols_bytes syms ++ strtab)).
  { rewrite Lb. exists hdr, []. by rewrite app_nil_r. }
  pose proof (at_file_app_l _ _ _ _ Hrest) as Hhd. apply at_file_app_r in Hrest.
  pose proof (content_offsets_length secs (MZO_HEADER_SIZE + Z.of_nat (length secs) * SECTION_HDR_SIZE)) as Hfl. rewrite Lf in Hfl.
  pose proof (reloc_offsets_length secs (content_offsets (MZO_HEADER_SIZE + Z.of_nat (length secs) * SECTION_HDR_SIZE) secs).2) as Hrl. rewrite Lr in Hrl.
  rewrite (headers_length secs fo ro Hfl Hrl) in Hrest. pose proof (at_file_app_l _ _ _ _ Hrest) as Hct. apply at_file_app_r in Hrest.
  pose proof (at_file_app_l _ _ _ _ Hrest) as Hrt. apply at_file_app_r in Hrest. pose proof (at_file_app_l _ _ _ _ Hrest) as Hyt. apply at_file_app_r in Hrest.
  replace (48 + Z.of_nat (length secs * 40)) with (MZO_HEADER_SIZE + Z.of_nat (length secs) * SECTION_HDR_SIZE) in * by (unfold MZO_HEADER_SIZE, SECTION_HDR_SIZE; lia).
  destruct (contents_at buf Hlen secs _ Hct) as (Hcc & Hca). rewrite Lf in Hca. rewrite <- Hcc in Hrt, Hyt, Hrest.
  assert (Hpos : 0 < (content_offsets (MZO_HEADER_SIZE + Z.of_nat (length secs) * SECTION_HDR_SIZE) secs).2) by (rewrite Hcc; unfold MZO_HEADER_SIZE, SECTION_HDR_SIZE; lia).
  destruct (relocs_at buf Hlen secs _ Hpos Hrt) as (Hrc & Hra). rewrite Lr in Hrc, Hra. cbn [fst snd] in Hrc, Hra.
  rewrite <- Hrc in Hyt, Hrest.
  unfold symbols_bytes in Hrest. rewrite (bind_length_const _ 24) in Hrest by apply symbol_width_24. fold (symbols_bytes syms) in Hrest.
  pose proof (at_file_bound _ _ _ Hrest) as [Hs0 Hs1]. pose proof (at_file_bound _ _ _ Hyt) as [Hy0 _].
  assert (Hst : stroff = symoff + Z.of_nat (length syms * 24)) by (rewrite Ls; unfold SYMBOL_SIZE, u64; rewrite Z.mod_small; lia). rewrite <- Hst in *.
  unfold parse_object_buf. rewrite (proj2 (Z.ltb_ge _ _)) by (pose proof (at_file_bound _ _ _ Hh) as [_ Hb0]; unfold MZO_HEADER_SIZE; lia).
  rewrite bool_decide_eq_true_2 by (rewrite Lb; unfold hdr; rewrite Hv; done). cbn [negb]. unfold hdr in Hh.
  read_field Hh 5%nat. read_field Hh 6%nat. read_field Hh 7%nat. read_field Hh 8%nat. read_field Hh 9%nat. read_field Hh 10%nat.
  assert (u16 (Z.of_nat (length secs)) = Z.of_nat (length secs)) as -> by (unfold u16; apply Z.mod_small; lia).
  assert (u64 symoff = symoff) as -> by (unfold u64; apply Z.mod_small; lia).
  assert (u64 stroff = stroff) as -> by (unfold u64; apply Z.mod_small; lia).
  assert (u32 (Z.of_nat (length strtab)) = Z.of_nat (length strtab)) as -> by (unfold u32; apply Z.mod_small; lia).
  assert (u32 (Z.of_nat (length syms)) = Z.of_nat (length syms)) as -> by (unfold u32; apply Z.mod_small; lia).
  rewrite (proj2 (Z.ltb_ge _ _)) by (unfold u64; rewrite Z.mod_small; lia).
  rewrite (at_file_slice _ _ _ Hrest). cbn [wild_none]. rewrite outcome_bind_done, !Nat2Z.id.
  rewrite (read_sections_at buf Hlen path strtab secs section_names fo ro); [|done..| |done].
  - rewrite outcome_bind_done. rewrite (read_symbols_at buf Hlen path strtab syms names); [done|done..| |done]. by rewrite Z.mul_0_l, Z.add_0_r.
  - intros j s f r Hs Hf Hr. split; [|split]; [|by eapply Hca|by eapply Hra].
    change (u64 MZO_HEADER_SIZE) with 48. rewrite Z.add_0_l. by eapply headers_at.
Qed.
(** Any other version is refused. *)
Lemma read_layout_version path : u8 version <> MZO_VERSION -> exists m, parse_object_buf buf path = Refused m.
Proof.
  intros Hv. unfold parse_object_buf, refuse. destruct (_ <? MZO_HEADER_SIZE); [by eexists|]. rewrite bool_decide_eq_false_2; [by eexists|].
  destruct (write_layout_parts version entry secs syms strtab) as (fo & ro & symoff & stroff & [_ _ Lb _]); [unfold MZO_HEADER_SIZE, SECTION_HDR_SIZE; lia|].
  fold buf in Lb. rewrite Lb. cbn. intros [= H]. apply Hv. unfold u8. rewrite <- H. change 255 with (Z.ones 8). by rewrite Z.land_ones.
Qed.
End File.

(** * What the writers hand to the linker

    An object of mazm, read by mzld, has the sections, relocations and symbols
    the assembler collected; one of mzasm has them too, under a version that
    mzld refuses. *)

(** ** Shared *)

Lemma kind_name_no_nul k : no_nul (kind_name k).
Proof. unfold kind_name. repeat case_match; repeat constructor; by vm_compute. Qed.
(** The table of the section names and the symbol names. *)
Lemma names_read present names T T1 offs offs1 : Forall no_nul names ->
  add_strings [0] (kind_name <$> present) = (T, offs) -> add_strings T names = (T1, offs1) -> Z.of_nat (length T1) < 2 ^ 32 ->
  length offs = length present /\ length offs1 = length names /\
  Forall2 (fun off k => read_string T1 (u32 off) = Done (kind_name k)) offs present /\
  Forall2 (fun off name => read_string T1 (u32 off) = Done name) offs1 names.
Proof.
  intros Hn E E1 Hl. destruct (add_strings_read names T T1 offs1 [] Hn E1 Hl) as ([more ->] & H1 & H2). rewrite app_nil_r in H2. rewrite length_app in Hl.
  destruct (add_strings_read (kind_name <$> present) [0] T offs more) as (_ & H3 & H4); [|done|lia|].
  { apply Forall_fmap, Forall_true. intros. apply kind_name_no_nul. }
  rewrite length_fmap in H3. rewrite Forall2_fmap_r in H4. done.
Qed.
Lemma present_wf (f : Z -> bool) : Forall (fun k => k ∈ link_order) (filter (fun k => f k = true) section_order) /\
  (length (filter (fun k => f k = true) section_order) <= 4)%nat.
Proof.
  split; [|apply length_filter]. apply Forall_forall. intros k [_ H]%list_elem_of_filter. exact H.
Qed.
(** The parts of a file are no longer than it. *)
Lemma write_layout_length version entry secs syms strtab : (length secs <= 4)%nat ->
  let n := length (write_layout version entry secs syms strtab) in
  (length syms * 24 <= n)%nat /\ (length strtab <= n)%nat /\ (length (secs ≫= content_bytes) <= n)%nat.
Proof.
  intros Hs. destruct (write_layout_parts version entry secs syms strtab) as (fo & ro & symoff & stroff & [_ _ -> _]); [unfold MZO_HEADER_SIZE, SECTION_HDR_SIZE; lia|].
  cbn zeta. rewrite !length_app. unfold symbols_bytes. rewrite (bind_length_const (fun y => fields_bytes (symbol_fields y)) 24) by apply symbol_width_24. lia.
Qed.
Lemma content_length s secs : s ∈ secs -> (length (content_bytes s) <= length (secs ≫= content_bytes))%nat.
Proof.
  induction secs as [|s' secs IH]; [by intros ?%elem_of_nil|]. change ((s' :: secs) ≫= content_bytes) with (content_bytes s' ++ (secs ≫= content_bytes)).
  rewrite length_app. intros [->|H]%elem_of_cons; [lia|]. apply IH in H. lia.
Qed.

(** The sections built for the present kinds. *)
Lemma sections_read (g : Z -> Z -> OutSection) T present offs :
  (forall k off, os_name_offset (g k off) = off) -> (forall k off, ld_section (kind_name k) (g k off) = ld_section (kind_name k) (g k 0)) ->
  Forall2 (fun off k => read_string T (u32 off) = Done (kind_name k)) offs present ->
  Forall2 (fun s name => read_string T (u32 (os_name_offset s)) = Done name) (zip_with g present offs) (kind_name <$> present) /\
  zip_with ld_section (kind_name <$> present) (zip_with g present offs) = (fun k => ld_section (kind_name k) (g k 0)) <$> present.
Proof.
  intros Hn Hg. induction 1 as [|off k offs present H _ [IH1 IH2]]; [by split; constructor|]. cbn. split.
  - constructor; [by rewrite Hn|done].
  - by rewrite Hg, IH2.
Qed.
Lemma sections_wf (g : Z -> Z -> OutSection) present offs : Forall (fun k => forall off, section_wf (g k off)) present -> Forall section_wf (zip_with g present offs).
Proof. intros H. revert offs. induction H as [|k present Hk _ IH]; intros [|off offs]; constructor; auto. Qed.

(** ** mazm *)

Section Spans.
Context (memory : Z -> Z).
Definition spans_ok (l : list span_info) : Prop := Forall (fun s => si_start s <= si_end s) l.
Lemma place_spans_ok l : forall cum, spans_ok (place_spans cum l).
Proof.
  induction l as [|s l IH]; intros cum; [constructor|]. cbn. destruct (Z.ltb_spec (sp_end s) (sp_start s)); [apply IH|]. constructor; [done|apply IH].
Qed.
Lemma span_total_length kind l : spans_ok l -> kind <> SEC_BSS -> Z.of_nat (length (section_content memory kind l)) < 2 ^ 64 ->
  Z.of_nat (length (section_content memory kind l)) = span_total kind l.
Proof.
  intros Hl Hk. unfold section_content, span_total. rewrite (proj2 (Z.eqb_neq _ _)) by done.
  assert (Hf : spans_ok (spans_of kind l)) by (apply Forall_forall; intros s [_ Hs]%list_elem_of_filter; by apply (proj1 (Forall_forall _ l) Hl)). revert Hf. generalize (spans_of kind l). clear l Hl. intros l Hl.
  set (g := fun s => memory <$> seqZ (si_start s) (si_end s - si_start s)).
  assert (H : forall n, n + Z.of_nat (length (concat (g <$> l))) < 2 ^ 64 -> 0 <= n ->
    n + Z.of_nat (length (concat (g <$> l))) = foldl (fun n s => u64 (n + (si_end s - si_start s))) n l).
  { induction l as [|s l IH]; intros n Hn H0; [cbn; lia|]. apply Forall_cons in Hl as [Hs Hl]. rewrite fmap_cons in Hn |- *. cbn [concat foldl] in Hn |- *.
    rewrite length_app in Hn |- *. unfold g at 1 in Hn. unfold g at 1. rewrite length_fmap, length_seqZ in Hn |- *.
    assert (E : u64 (n + (si_end s - si_start s)) = n + (si_end s - si_start s)) by (unfold u64; apply Z.mod_small; lia).
    rewrite E, <- IH by (done || lia). lia. }
  intros Hb. rewrite <- (H 0) by lia. lia.
Qed.
End Spans.

Lemma u64_total kind l : 0 <= span_total kind l < 2 ^ 64.
Proof.
  unfold span_total. generalize (spans_of kind l). intros l'. assert (H : forall n, 0 <= n < 2 ^ 64 -> 0 <= foldl (fun n s => u64 (n + (si_end s - si_start s))) n l' < 2 ^ 64); [|by apply H].
  induction l' as [|s l' IH]; intros n Hn; [done|]. apply IH. apply Z.mod_pos_bound. lia.
Qed.
Lemma mazm_symbols_offsets m l : forall offs syms, length offs = length l -> mazm_symbols m l offs = inr syms -> ou_name_offset <$> syms = offs.
Proof.
  induction l as [|[name val] l IH]; intros offs syms Hl E; destruct offs as [|off offs]; try done; cbn in E; [by injection E as <-|].
  destruct (mazm_symbol m name val off) as [|y] eqn:Ey; [done|]. destruct (mazm_symbols m l offs) as [|ys] eqn:Es; [done|]. injection E as <-.
  injection Hl as Hl. cbn. f_equal; [|by eapply IH]. unfold mazm_symbol in Ey. repeat case_match; by simplify_eq/=.
Qed.

Section MazmRead.
Context (m : mazm_state).
Let spans := closed_spans m.
Let present := present_kinds spans.
Let labels := sorted_labels m.

(** The section of a kind, with the relocations located in it. *)
Definition mazm_section (relocs : list (Z * OutRelocation)) (kind : Z) : LdSection :=
  let align := u8 (default 1 (mz_sec_align m !! Z.to_nat kind)) in
  mk_ld_section (kind_name kind) kind (default_attrs kind) (if align =? 0 then 1 else align) (span_total kind spans)
    (section_content (mz_memory m) kind spans) (ld_reloc <$> (filter (fun p => p.1 = kind) relocs).*2) 0 false.

(** C29: the object that mazm writes, read by mzld, has one section per kind
    with bytes or space, in the fixed order, each with the bytes of its spans,
    its alignment and the relocations located in it, and one symbol per label
    in name order, for every module whose label names have no NUL and whose
    object stays under 4 GiB. *)
Theorem mazm_object_parsed file path : Forall no_nul labels.*1 -> write_object m = inr file -> Z.of_nat (length file) < 2 ^ 32 ->
  exists offs syms relocs, mazm_symbols m labels offs = inr syms /\ mazm_relocations m labels.*1 (mz_relocs m) = inr relocs /\
    parse_object_buf file path = Done (mk_ld_object path (mazm_section relocs <$> present) (zip_with ld_symbol labels.*1 syms)).
Proof.
  intros Hn E Hl. unfold write_object in E. fold spans in E. fold present in E. fold labels in E.
  destruct (add_strings [0] (kind_name <$> present)) as [T offs] eqn:Et. destruct (add_strings T labels.*1) as [T1 offs1] eqn:Et1.
  destruct (mazm_symbols m labels offs1) as [|syms] eqn:Es; [done|]. destruct (mazm_relocations m labels.*1 (mz_relocs m)) as [|relocs] eqn:Er; [done|].
  injection E as <-. exists offs1, syms, relocs. split; [done|]. split; [done|].
  set (g := fun kind off => mk_out_section off kind (u8 (default 1 (mz_sec_align m !! Z.to_nat kind))) (span_total kind spans) (section_content (mz_memory m) kind spans) (filter (fun p => p.1 = kind) relocs).*2).
  set (secs := zip_with g present offs). set (entry := default ENTRY_NONE (name_index "_start" labels.*1)) in *.
  change (Z.of_nat (length (write_layout MZO_VERSION entry secs syms T1)) < 2 ^ 32) in Hl.
  change (zip_with _ present offs) with secs. destruct (present_wf (fun kind => 0 <? span_total kind spans)) as [Hp Hp4]. change (filter _ section_order) with present in Hp, Hp4.
  assert (Hs4 : (length secs <= 4)%nat) by (unfold secs; rewrite length_zip_with; lia).
  destruct (write_layout_length MZO_VERSION entry secs syms T1 Hs4) as (L1 & L2 & L3).
  assert (HT1 : Z.of_nat (length T1) < 2 ^ 32) by lia.
  destruct (names_read present labels.*1 T T1 offs offs1 Hn Et Et1 HT1) as (H1 & H2 & H3 & H4).
  pose proof (mazm_symbols_offsets m labels offs1 syms ltac:(by rewrite H2, length_fmap) Es) as Ho.
  destruct (sections_read g T1 present offs) as [R1 R2]; [done|done|done|]. fold secs in R1, R2.
  rewrite (read_layout MZO_VERSION _ secs syms T1 (kind_name <$> present) labels.*1); try done; try lia.
  - rewrite R2. do 2 f_equal. apply list_fmap_ext. intros _ k _. unfold g, ld_section, mazm_section, content_bytes. cbn [os_kind os_align os_size os_data os_relocs].
    assert (E8 : forall z, u8 (u8 z) = u8 z) by (intros z; unfold u8; by rewrite Z.mod_mod). rewrite E8. f_equal. unfold section_content. by destruct (k =? SEC_BSS).
  - apply Forall_forall. intros s Hs. pose proof (content_length s secs Hs) as Hc. unfold secs, g in Hs. apply elem_of_lookup_zip_with in Hs as (i & k & off & -> & Hk & _).
    eapply Forall_lookup_1 in Hp; [|exact Hk]. split; [done|]. cbn [os_size os_data os_kind]. split; [apply u64_total|].
    intros Hb. unfold content_bytes in Hc. cbn [os_kind os_data] in Hc. rewrite (proj2 (Z.eqb_neq _ _)) in Hc by done. apply span_total_length; [apply place_spans_ok|done|].
    change (fun s => if os_kind s =? SEC_BSS then [] else os_data s) with content_bytes in Hc. lia.
  - rewrite <- Ho in H4. by rewrite Forall2_fmap_l in H4.
Qed.
End MazmRead.

(** ** mzasm *)

(** The version is the fourth byte and nothing else. *)
Lemma write_layout_stamp v v' entry secs syms strtab : 0 <= v' < 256 ->
  <[3%nat := v']> (write_layout v entry secs syms strtab) = write_layout v' entry secs syms strtab.
Proof.
  intros Hv. unfold write_layout. destruct (content_offsets _ secs) as [fo cursor]. destruct (reloc_offsets cursor secs) as [ro symoff].
  rewrite !put_header_fields, !put_headers_bytes, !app_nil_l.
  rewrite !(foldl_append (fun file s => if os_kind s =? SEC_BSS then file else file ++ os_data s) content_bytes) by (intros b s; unfold content_bytes; destruct (_ =? _); by rewrite ?app_nil_r).
  rewrite !(foldl_append (fun file s => foldl put_relocation file (os_relocs s)) (fun s => relocs_bytes (os_relocs s))) by (intros b s; apply (foldl_append _ _ _ put_relocation_fields)).
  rewrite !(foldl_append _ _ syms put_symbol_fields). rewrite <- !app_assoc. generalize (headers_bytes secs fo ro ++ (secs ≫= content_bytes) ++ (secs ≫= (fun s => relocs_bytes (os_relocs s))) ++ (syms ≫= (fun x => fields_bytes (symbol_fields x))) ++ strtab).
  intros rest. unfold fields_bytes, header_fields. cbn [mbind list_bind le_bytes fst snd app insert list_insert]. do 3 f_equal. f_equal.
  change 255 with (Z.ones 8). rewrite Z.land_ones by lia. symmetry. by apply Z.mod_small.
Qed.

Section MzasmRead.
Context (a : assembler).
Let size kind := default 0 (a_section_sizes a !! Z.to_nat kind).
Definition mzasm_present : list Z := filter (fun kind => (0 <? size kind) = true) section_order.
Let names := (linkable a).*1.
Definition mzasm_content (kind : Z) : list Z :=
  if kind =? SEC_BSS then [] else resized (default [] (a_sections a !! Z.to_nat kind)) (Z.to_nat (size kind)).
Definition mzasm_section (kind : Z) : LdSection :=
  mk_ld_section (kind_name kind) kind (default_attrs kind) 1 (size kind) (mzasm_content kind) (ld_reloc <$> out_relocations names kind (a_relocations a)) 0 false.
Definition mzasm_symbols : list LdSymbol := (fun p => ld_symbol p.1 (out_symbol mzasm_present p.2 0)) <$> linkable a.

Lemma out_symbol_offset present y off : ou_name_offset (out_symbol present y off) = off.
Proof. unfold out_symbol. by repeat case_match. Qed.
Lemma out_symbol_read name present y off : ld_symbol name (out_symbol present y off) = ld_symbol name (out_symbol present y 0).
Proof. unfold out_symbol. by repeat case_match. Qed.
Lemma symbols_read T present offs l : Forall2 (fun off name => read_string T (u32 off) = Done name) offs l.*1 ->
  Forall2 (fun y name => read_string T (u32 (ou_name_offset y)) = Done name) (zip_with (out_symbol present) l.*2 offs) l.*1 /\
  zip_with ld_symbol l.*1 (zip_with (out_symbol present) l.*2 offs) = (fun p => ld_symbol p.1 (out_symbol present p.2 0)) <$> l.
Proof.
  revert offs. induction l as [|[name y] l IH]; intros offs H; [split; [by destruct offs|done]|].
  apply Forall2_cons_inv_r in H as (off & offs' & Ho & H & ->). destruct (IH _ H) as [H1 H2]. cbn. split.
  - constructor; [by rewrite out_symbol_offset|done].
  - by rewrite H2, out_symbol_read.
Qed.

(** Mzld refuses the object that mzasm writes, and only its version byte
    is in the way: with that byte set to the first version it reads the
    sections with their bytes and relocations and the symbols exactly as the
    assembler holds them. *)
Theorem mzasm_object_parsed path : Forall (fun z => 0 <= z < 2 ^ 64) (a_section_sizes a) -> Forall no_nul names ->
  Z.of_nat (length (serialize_object a)) < 2 ^ 32 ->
  (exists m, parse_object_buf (serialize_object a) path = Refused m) /\
  parse_object_buf (<[3%nat := MZO_VERSION]> (serialize_object a)) path = Done (mk_ld_object path (mzasm_section <$> mzasm_present) mzasm_symbols).
Proof.
  intros Hz Hn. unfold serialize_object. change (filter _ section_order) with mzasm_present. fold names.
  destruct (add_strings [0] (kind_name <$> mzasm_present)) as [T offs] eqn:Et. destruct (add_strings T names) as [T1 offs1] eqn:Et1.
  set (entry := default ENTRY_NONE (name_index "_start" names)). set (syms := zip_with (out_symbol mzasm_present) (linkable a).*2 offs1).
  set (g := fun kind off => mk_out_section off kind 0 (size kind) (mzasm_content kind) (out_relocations names kind (a_relocations a))).
  change (zip_with _ mzasm_present offs) with (zip_with g mzasm_present offs). set (secs := zip_with g mzasm_present offs). intros Hl.
  destruct (present_wf (fun kind => 0 <? size kind)) as [Hp Hp4]. change (filter _ section_order) with mzasm_present in Hp, Hp4.
  assert (Hs4 : (length secs <= 4)%nat) by (unfold secs; rewrite length_zip_with; lia).
  destruct (write_layout_length MZO_VERSION_V2 entry secs syms T1 Hs4) as (L1 & L2 & L3). assert (HT1 : Z.of_nat (length T1) < 2 ^ 32) by lia.
  destruct (names_read mzasm_present names T T1 offs offs1 Hn Et Et1 HT1) as (H1 & H2 & H3 & H4).
  destruct (sections_read g T1 mzasm_present offs) as [R1 R2]; [done|done|done|]. fold secs in R1, R2.
  destruct (symbols_read T1 mzasm_present offs1 (linkable a) H4) as [Y1 Y2]. fold syms in Y1, Y2.
  assert (Hsw : Forall section_wf secs).
  { apply sections_wf. eapply Forall_impl; [exact Hp|]. intros k Hk off. split; [done|]. cbn [g os_size os_kind os_data].
    assert (Hr : 0 <= size k < 2 ^ 64) by (unfold size; destruct (a_section_sizes a !! Z.to_nat k) eqn:E; [exact (Forall_lookup_1 _ _ _ _ Hz E)|done]).
    split; [done|]. intros Hb. unfold mzasm_content. rewrite (proj2 (Z.eqb_neq _ _)) by done. unfold resized.
    rewrite length_app, length_take, length_replicate. lia. }
  split; [eapply read_layout_version; try done; try lia|].
  rewrite write_layout_stamp by done.
  rewrite (read_layout MZO_VERSION _ secs syms T1 (kind_name <$> mzasm_present) names); try done; try lia.
  - rewrite R2. unfold names. rewrite Y2. do 2 f_equal. apply list_fmap_ext. intros _ k _. unfold g, ld_section, mzasm_section, content_bytes, mzasm_content. cbn [os_kind os_align os_size os_data os_relocs].
    by destruct (k =? SEC_BSS).
  - rewrite <- (write_layout_stamp MZO_VERSION_V2) by done. rewrite length_insert. lia.
Qed.
End MzasmRead.
