(* ===== verification/MzldLink.v ===== *)
(** * Where the linker puts sections

    The layout places every section with bytes or space once, aligned, after
    the ones before it in the order of the kinds, so that no two of them
    share an address. *)
From Stdlib Require Import ZArith Lia Bool Ascii String.
From stdpp Require Import base list numbers strings gmap sorting.
From S2P Require Import Prelude MzObj V2AsmExpr Mzld.

(** ** Alignment *)

Lemma clr_low n v : 0 <= n -> clr v (2 ^ n - 1) = v - v mod 2 ^ n.
Proof.
  intros Hn. unfold clr.
  replace (2 ^ n - 1) with (Z.ones n) by (rewrite Z.ones_equiv; lia). rewrite Z.ldiff_ones_r, Z.shiftl_mul_pow2, Z.shiftr_div_pow2 by lia.
  rewrite (Z.div_mod v (2 ^ n)) at 2 by (apply Z.pow_nonzero; lia). lia.
Qed.
(** The next multiple, for a power of two. *)
Lemma align_up_spec v n : 0 <= n < 8 -> 0 <= v -> v + 2 ^ n < 2 ^ 64 ->
  v <= align_up v (2 ^ n) < v + 2 ^ n /\ align_up v (2 ^ n) mod 2 ^ n = 0.
Proof.
  intros Hn Hv Hb. unfold align_up. destruct (Z.leb_spec (2 ^ n) 1) as [H1|H1].
  - assert (2 ^ n = 1) as -> by (pose proof (Z.pow_pos_nonneg 2 n); lia). rewrite Z.mod_1_r. lia.
  - rewrite clr_low by lia. unfold u64. rewrite (Z.mod_small (v + _)) by lia.
    pose proof (Z.mod_pos_bound (v + (2 ^ n - 1)) (2 ^ n)). split; [lia|]. rewrite Zminus_mod_idemp_r, Z.sub_diag. apply Z.mod_0_l. lia.
Qed.

(** ** One walk *)

(** What a section has before it is placed. *)
Record section_ok (s : LdSection) : Prop := mk_section_ok {
  so_size : 0 <= lc_size s < 2 ^ 64;
  so_align : exists n, 0 <= n < 8 /\ lc_align s = 2 ^ n;
  so_data : Z.of_nat (length (lc_data s)) = if lc_kind s =? SEC_BSS then 0 else lc_size s }.

(** [s] is [s0] with an address. *)
Definition same_section (s0 s : LdSection) : Prop :=
  lc_name s = lc_name s0 /\ lc_kind s = lc_kind s0 /\ lc_attrs s = lc_attrs s0 /\ lc_align s = lc_align s0 /\ lc_size s = lc_size s0 /\
  lc_relocs s = lc_relocs s0 /\ length (lc_data s) = length (lc_data s0).
#[global] Instance same_section_equiv : Equivalence same_section.
Proof.
  unfold same_section. split; [done|..].
  - intros s t (-> & -> & -> & -> & -> & -> & ->). done.
  - intros s t u (-> & -> & -> & -> & -> & -> & ->) (-> & -> & -> & -> & -> & -> & ->). done.
Qed.
Definition wanted (k : Z) (s : LdSection) : bool := (lc_kind s =? k) && negb (lc_size s =? 0).
(** The addresses that the sections of a kind can take, alignment included. *)
Fixpoint room (k : Z) (l : list LdSection) : Z :=
  match l with
  | [] => 0
  | s :: l => (if wanted k s then lc_size s + lc_align s else 0) + room k l
  end.
Definition section_end (s : LdSection) : Z := lc_vaddr s + lc_size s.
(** [s] lies below [t]. *)
Definition below (s t : LdSection) : Prop := section_end s <= lc_vaddr t.

(** What a walk over kind [k] that starts at [lo] and ends at [hi] does to a
    section. *)
Definition walked (k lo hi : Z) (s s' : LdSection) : Prop :=
  if wanted k s then same_section s s' /\ lc_data s' = lc_data s /\ lc_placed s' = true /\ lo <= lc_vaddr s' /\ section_end s' <= hi /\ lc_vaddr s' mod lc_align s' = 0
  else s' = s.
Lemma walked_wider k lo hi lo' hi' s s' : lo' <= lo -> hi <= hi' -> walked k lo hi s s' -> walked k lo' hi' s s'.
Proof. unfold walked. intros Hl Hh. destruct (wanted k s); [|done]. intros (H1 & H2 & H3 & H4 & H5 & H6). split; [done|]. split; [done|]. split; [done|]. split; [lia|]. split; [lia|done]. Qed.
Lemma room_nonneg k l : Forall section_ok l -> 0 <= room k l.
Proof.
  induction 1 as [|s l [Hz [n [Hn Ha]] _] _ IH]; [done|]. cbn. rewrite Ha. pose proof (Z.pow_pos_nonneg 2 n ltac:(lia) ltac:(lia)).
  case_match; lia.
Qed.

Lemma place_sections_walk k l : forall cursor, Forall section_ok l -> 0 <= cursor -> cursor + room k l < 2 ^ 64 ->
  let r := place_sections k cursor l in
  cursor <= r.1 <= cursor + room k l /\ Forall2 (walked k cursor r.1) l r.2 /\
  forall i j s t, (i < j)%nat -> r.2 !! i = Some s -> r.2 !! j = Some t -> wanted k s = true -> wanted k t = true -> below s t.
Proof.
  induction l as [|s l IH]; intros cursor Hl Hc Hr; [cbn; split; [lia|]; split; [constructor|]; by intros ? ? ? ? ? ?|].
  apply Forall_cons in Hl as [Hs Hl]. pose proof (room_nonneg k l Hl) as Hn. cbn [place_sections room] in *. cbn zeta.
  replace (negb (lc_kind s =? k) || (lc_size s =? 0)) with (negb (wanted k s)) by (unfold wanted; by destruct (lc_kind s =? k), (lc_size s =? 0)).
  destruct (wanted k s) eqn:Ew; cbn [negb].
  - destruct Hs as [Hz [n [Hnr Ha]] _]. rewrite Ha in *. pose proof (Z.pow_pos_nonneg 2 n ltac:(lia) ltac:(lia)) as Hp.
    destruct (align_up_spec cursor n Hnr Hc ltac:(lia)) as [Hb Hm]. set (v := align_up cursor (2 ^ n)) in *.
    assert (E : u64 (v + lc_size s) = v + lc_size s) by (unfold u64; apply Z.mod_small; lia). rewrite E.
    specialize (IH (v + lc_size s) Hl ltac:(lia) ltac:(lia)). destruct (place_sections k (v + lc_size s) l) as [c' l'] eqn:El. cbn in IH |- *.
    destruct IH as (IH1 & IH2 & IH3). split; [lia|]. split.
    + constructor.
      * unfold walked. rewrite Ew. cbn. split; [by repeat split|]. rewrite Ha. unfold section_end. cbn. repeat split; try done; lia.
      * eapply Forall2_impl; [exact IH2|]. intros a b. apply walked_wider; lia.
    + intros [|i] [|j] a b Hij Ha' Hb' Hwa Hwb; [lia| |lia|]; cbn in Ha', Hb'; [|eapply (IH3 i j); try done; lia].
      injection Ha' as <-. unfold below, section_end. cbn. destruct (Forall2_lookup_r _ _ _ _ _ IH2 Hb') as (b0 & Hb0 & Hw). unfold walked in Hw.
      destruct (wanted k b0) eqn:Eb; [|congruence]. destruct Hw as (_ & _ & _ & ? & _). lia.
  - specialize (IH cursor Hl Hc ltac:(lia)). destruct (place_sections k cursor l) as [c' l'] eqn:El. cbn in IH |- *. destruct IH as (IH1 & IH2 & IH3).
    split; [lia|]. split; [constructor; [unfold walked; by rewrite Ew|done]|].
    intros [|i] [|j] a b Hij Ha' Hb' Hwa Hwb; [lia| |lia|]; cbn in Ha', Hb'; [congruence|]. eapply (IH3 i j); try done; lia.
Qed.

(** ** All walks *)

Definition wanted_any (ks : list Z) (s : LdSection) : bool := existsb (fun k => wanted k s) ks.
Definition placed_in (ks : list Z) (lo hi : Z) (s s' : LdSection) : Prop :=
  if wanted_any ks s then same_section s s' /\ lc_data s' = lc_data s /\ lc_placed s' = true /\ lo <= lc_vaddr s' /\ section_end s' <= hi /\ lc_vaddr s' mod lc_align s' = 0
  else s' = s.
Definition walks (ks : list Z) (p : Z * list LdSection) : Z * list LdSection := foldl (fun p k => place_sections k p.1 p.2) p ks.
Definition total_room (ks : list Z) (l : list LdSection) : Z := foldr (fun k n => room k l + n) 0 ks.

Lemma wanted_same k s s' : same_section s s' -> wanted k s' = wanted k s.
Proof. intros (_ & Hk & _ & _ & Hz & _). unfold wanted. by rewrite Hk, Hz. Qed.
Lemma wanted_unique k k' s : wanted k s = true -> wanted k' s = true -> k = k'.
Proof. unfold wanted. intros [?%Z.eqb_eq _]%andb_true_iff [?%Z.eqb_eq _]%andb_true_iff. congruence. Qed.
Lemma wanted_any_same ks s s' : same_section s s' -> wanted_any ks s' = wanted_any ks s.
Proof. intros H. unfold wanted_any. induction ks as [|k ks IH]; [done|]. cbn. by rewrite IH, (wanted_same k s s' H). Qed.
Lemma wanted_any_in ks s : wanted_any ks s = true -> exists k, k ∈ ks /\ wanted k s = true.
Proof. unfold wanted_any. rewrite existsb_exists. intros (k & Hk & Hw). exists k. split; [by apply list_elem_of_In|done]. Qed.
Lemma walked_same k lo hi s s' : walked k lo hi s s' -> same_section s s'.
Proof. unfold walked. case_match; [tauto|]. by intros ->. Qed.
Lemma section_ok_same s s' : same_section s s' -> section_ok s -> section_ok s'.
Proof. intros (H1 & H2 & H3 & H4 & H5 & H6 & H7) [O1 O2 O3]. split; by rewrite ?H2, ?H3, ?H4, ?H5, ?H7. Qed.
Lemma walked_ok k lo hi l l' : Forall2 (walked k lo hi) l l' -> Forall section_ok l -> Forall section_ok l'.
Proof. induction 1 as [|s s' l l' H _ IH]; [done|]. intros [Hs Hl]%Forall_cons. constructor; [eapply section_ok_same; [by eapply walked_same|done]|auto]. Qed.
Lemma room_walked k k' lo hi l l' : Forall2 (walked k lo hi) l l' -> room k' l' = room k' l.
Proof.
  induction 1 as [|s s' l l' H _ IH]; [done|]. cbn. apply walked_same in H. rewrite IH, (wanted_same k' _ _ H). by destruct H as (_ & _ & _ & -> & -> & _).
Qed.
Lemma total_room_walked k ks lo hi l l' : Forall2 (walked k lo hi) l l' -> total_room ks l' = total_room ks l.
Proof. intros H. unfold total_room. induction ks as [|k' ks IH]; [done|]. cbn. by rewrite IH, (room_walked _ k' _ _ _ _ H). Qed.
Lemma total_room_nonneg ks l : Forall section_ok l -> 0 <= total_room ks l.
Proof. intros H. unfold total_room. induction ks as [|k ks IH]; [done|]. cbn. pose proof (room_nonneg k l H). lia. Qed.

Lemma walks_place ks : forall cursor l, NoDup ks -> Forall section_ok l -> 0 <= cursor -> cursor + total_room ks l < 2 ^ 64 ->
  let r := walks ks (cursor, l) in
  cursor <= r.1 <= cursor + total_room ks l /\ Forall2 (placed_in ks cursor r.1) l r.2 /\
  forall i j s t, (i < j)%nat -> r.2 !! i = Some s -> r.2 !! j = Some t -> wanted_any ks s = true -> wanted_any ks t = true ->
    (below s t \/ below t s) /\ (lc_kind s = lc_kind t -> below s t).
Proof.
  induction ks as [|k ks IH]; intros cursor l Hd Hl Hc Hr; cbn zeta.
  { split; [cbn; lia|]. split; [|done]. apply Forall_Forall2_diag, Forall_true. intros s. unfold placed_in. done. }
  apply NoDup_cons in Hd as [Hk Hd]. cbn [total_room foldr] in Hr. fold (total_room ks l) in Hr. pose proof (total_room_nonneg ks l Hl) as Ht.
  destruct (place_sections_walk k l cursor Hl Hc ltac:(lia)) as (W1 & W2 & W3). cbn [walks foldl fst snd]. fold (walks ks (place_sections k cursor l)).
  destruct (place_sections k cursor l) as [c1 l1]. cbn [fst snd] in *.
  specialize (IH c1 l1 Hd (walked_ok _ _ _ _ _ W2 Hl) ltac:(lia) ltac:(rewrite (total_room_walked _ ks _ _ _ _ W2); lia)). cbn zeta in IH.
  rewrite (total_room_walked _ ks _ _ _ _ W2) in IH. set (r := walks ks (c1, l1)) in *. destruct IH as (I1 & I2 & I3).
  assert (Hboth : forall s, wanted k s = true -> wanted_any ks s = true -> False).
  { intros s H1 (k' & Hk' & H2)%wanted_any_in. by rewrite (wanted_unique _ _ _ H1 H2) in Hk. }
  split; [cbn [total_room foldr]; fold (total_room ks l); lia|]. split.
  - eapply Forall2_trans; [|exact W2|exact I2]. cbn beta. intros s s1 s' H1 H2. pose proof (walked_same _ _ _ _ _ H1) as Hs1.
    unfold placed_in in *. change (wanted_any (k :: ks) s) with (wanted k s || wanted_any ks s). rewrite (wanted_any_same ks _ _ Hs1) in H2. unfold walked in H1.
    destruct (wanted k s) eqn:Ew; cbn [orb].
    + destruct (wanted_any ks s) eqn:Ea; [by exfalso; eapply Hboth|]. subst s'. destruct H1 as (? & ? & ? & ? & ? & ?). repeat (split; [done || lia|]). done.
    + subst s1. destruct (wanted_any ks s) eqn:Ea; [|done]. destruct H2 as (? & ? & ? & ? & ? & ?). repeat (split; [done || lia|]). done.
  - intros i j s t Hij Hi Hj. destruct (Forall2_lookup_r _ _ _ _ _ I2 Hi) as (s1 & Hs1 & Hps). destruct (Forall2_lookup_r _ _ _ _ _ I2 Hj) as (t1 & Ht1 & Hpt).
    destruct (Forall2_lookup_r _ _ _ _ _ W2 Hs1) as (s0 & _ & Hws). destruct (Forall2_lookup_r _ _ _ _ _ W2 Ht1) as (t0 & _ & Hwt).
    change (wanted_any (k :: ks) s) with (wanted k s || wanted_any ks s). change (wanted_any (k :: ks) t) with (wanted k t || wanted_any ks t).
    assert (Hfst : forall x x1 x0, placed_in ks c1 r.1 x1 x -> walked k cursor c1 x0 x1 -> wanted k x = true -> x = x1 /\ section_end x <= c1).
    { intros x x1 x0 Hp Hw Hx. unfold placed_in in Hp. destruct (wanted_any ks x1) eqn:Ea.
      - exfalso. destruct Hp as (Hp & _). rewrite (wanted_same k _ _ Hp) in Hx. by eapply Hboth.
      - subst x. split; [done|]. unfold walked in Hw. destruct (wanted k x0) eqn:E0; [tauto|]. subst x1. congruence. }
    assert (Hsnd : forall x x1, placed_in ks c1 r.1 x1 x -> wanted_any ks x = true -> c1 <= lc_vaddr x).
    { intros x x1 Hp Hx. unfold placed_in in Hp. destruct (wanted_any ks x1) eqn:Ea; [tauto|]. subst x. congruence. }
    intros Hs%orb_true_iff Ht'%orb_true_iff. unfold below. destruct Hs as [Hs|Hs], Ht' as [Ht'|Ht'].
    + destruct (Hfst _ _ _ Hps Hws Hs) as [-> _]. destruct (Hfst _ _ _ Hpt Hwt Ht') as [-> _]. pose proof (W3 i j s1 t1 Hij Hs1 Ht1 Hs Ht') as Hb. auto.
    + destruct (Hfst _ _ _ Hps Hws Hs) as [_ He]. pose proof (Hsnd _ _ Hpt Ht') as Hv. split; [left; lia|intros; lia].
    + destruct (Hfst _ _ _ Hpt Hwt Ht') as [_ He]. pose proof (Hsnd _ _ Hps Hs) as Hv. split; [right; lia|]. intros Hkk. exfalso. eapply (Hboth s); [|done].
      unfold wanted in Ht' |- *. rewrite Hkk. apply andb_true_iff in Ht' as [-> _]. apply wanted_any_in in Hs as (k' & _ & [_ ->]%andb_true_iff). done.
    + by apply (I3 i j).
Qed.

(** ** The layout of objects *)

Definition sections_of (l : list LdObject) : list LdSection := l ≫= lo_sections.
(** Objects with the same symbols and as many sections. *)
Definition same_shape (o o' : LdObject) : Prop :=
  lo_source o' = lo_source o /\ lo_symbols o' = lo_symbols o /\ length (lo_sections o') = length (lo_sections o).
#[global] Instance same_shape_preorder : PreOrder same_shape.
Proof. split; [done|]. intros a b c (H1 & H2 & H3) (H4 & H5 & H6). unfold same_shape. by rewrite H4, H5, H6. Qed.

Lemma place_sections_app k l1 l2 : forall c, place_sections k c (l1 ++ l2) =
  let r1 := place_sections k c l1 in let r2 := place_sections k r1.1 l2 in (r2.1, r1.2 ++ r2.2).
Proof.
  induction l1 as [|s l1 IH]; intros c; cbn [app place_sections]; [cbn; by destruct (place_sections k c l2)|].
  destruct (_ || _); rewrite IH; cbn zeta.
  - destruct (place_sections k c l1) as [c1 l1']. cbn. by destruct (place_sections k c1 l2).
  - destruct (place_sections k _ l1) as [c1 l1']. cbn. by destruct (place_sections k c1 l2).
Qed.
Lemma place_sections_length k l : forall c, length (place_sections k c l).2 = length l.
Proof. induction l as [|s l IH]; intros c; cbn; [done|]. destruct (_ || _); [specialize (IH c)|specialize (IH (u64 (align_up c (lc_align s) + lc_size s)))]; destruct (place_sections k _ l); cbn in *; lia. Qed.
Lemma place_objects_flat k l : forall c, ((place_objects k c l).1, sections_of (place_objects k c l).2) = place_sections k c (sections_of l) /\
  Forall2 same_shape l (place_objects k c l).2.
Proof.
  induction l as [|o l IH]; intros c; [split; [done|constructor]|]. change (sections_of (o :: l)) with (lo_sections o ++ sections_of l).
  rewrite place_sections_app. cbn [place_objects]. pose proof (place_sections_length k (lo_sections o) c) as Hl.
  destruct (place_sections k c (lo_sections o)) as [c1 secs]. cbn [fst snd] in *. destruct (IH c1) as [E F].
  destruct (place_objects k c1 l) as [c2 l2]. cbn [fst snd] in *. rewrite <- E. split; [done|]. by constructor.
Qed.
Lemma layout_flat_loop ks : forall c l, let r := foldl (fun p k => place_objects k p.1 p.2) (c, l) ks in
  (r.1, sections_of r.2) = walks ks (c, sections_of l) /\ Forall2 same_shape l r.2.
Proof.
  induction ks as [|k ks IH]; intros c l; cbn zeta; [split; [done|]; by apply Forall_Forall2_diag, Forall_true|].
  cbn [foldl walks]. destruct (place_objects_flat k l c) as [E F]. cbn [fst snd]. rewrite <- E. destruct (place_objects k c l) as [c1 l1]. cbn [fst snd] in *.
  destruct (IH c1 l1) as [E1 F1]. split; [done|]. by etrans.
Qed.
Lemma layout_flat base objects : ((layout base objects).1, sections_of (layout base objects).2) = walks link_order (base, sections_of objects) /\
  Forall2 same_shape objects (layout base objects).2.
Proof. apply layout_flat_loop. Qed.

(** The layout changes addresses only. *)
Definition kept (s s' : LdSection) : Prop := same_section s s' /\ lc_data s' = lc_data s.
Definition kept_object (o o' : LdObject) : Prop := same_shape o o' /\ Forall2 kept (lo_sections o) (lo_sections o').
#[global] Instance kept_preorder : PreOrder kept.
Proof. split; [by intros s|]. intros a b c [H1 H2] [H3 H4]. split; [by etrans|congruence]. Qed.
#[global] Instance kept_object_preorder : PreOrder kept_object.
Proof. split; [by intros o|]. intros a b c [H1 H2] [H3 H4]. split; by etrans. Qed.
Lemma place_sections_kept k l : forall c, Forall2 kept l (place_sections k c l).2.
Proof.
  induction l as [|s l IH]; intros c; cbn; [constructor|]. destruct (_ || _).
  - specialize (IH c). destruct (place_sections k c l). by constructor.
  - match goal with |- context [place_sections k ?c' l] => specialize (IH c'); destruct (place_sections k c' l) end. by constructor.
Qed.
Lemma place_objects_kept k l : forall c, Forall2 kept_object l (place_objects k c l).2.
Proof.
  induction l as [|o l IH]; intros c; cbn; [constructor|]. pose proof (place_sections_kept k (lo_sections o) c) as Hk.
  destruct (place_sections k c (lo_sections o)) as [c1 secs]. specialize (IH c1). destruct (place_objects k c1 l) as [c2 l2].
  constructor; [|done]. split; [|done]. repeat split. cbn. symmetry. by eapply Forall2_length.
Qed.
Lemma layout_kept base objects : Forall2 kept_object objects (layout base objects).2.
Proof.
  unfold layout. generalize link_order base. intros ks. revert objects. induction ks as [|k ks IH]; intros objects c; [reflexivity|].
  cbn [foldl fst snd]. pose proof (place_objects_kept k objects c) as H. destruct (place_objects k c objects) as [c1 l1]. etrans; [exact H|apply IH].
Qed.

Lemma link_order_nodup : NoDup link_order.
Proof. apply (bool_decide_unpack _). by vm_compute. Qed.
(** A section that the layout places. *)
Definition places (s : LdSection) : bool := wanted_any link_order s.
Lemma places_iff s : places s = true <-> lc_kind s ∈ link_order /\ lc_size s <> 0.
Proof.
  unfold places. split.
  - intros (k & Hk & [->%Z.eqb_eq Hz%negb_true_iff%Z.eqb_neq]%andb_true_iff)%wanted_any_in. done.
  - intros [Hk Hz]. unfold wanted_any. apply existsb_exists. exists (lc_kind s). split; [by apply list_elem_of_In|]. unfold wanted. by rewrite Z.eqb_refl, (proj2 (Z.eqb_neq _ _)).
Qed.
(** What the layout does, section by section. *)
Lemma layout_spec base objects : Forall section_ok (sections_of objects) -> 0 <= base -> base + total_room link_order (sections_of objects) < 2 ^ 64 ->
  exists limit, limit < 2 ^ 64 /\ Forall2 (placed_in link_order base limit) (sections_of objects) (sections_of (layout base objects).2) /\
  forall i j s t, (i < j)%nat -> sections_of (layout base objects).2 !! i = Some s -> sections_of (layout base objects).2 !! j = Some t ->
    places s = true -> places t = true -> (below s t \/ below t s) /\ (lc_kind s = lc_kind t -> below s t).
Proof.
  intros Hs Hb Hr. destruct (layout_flat base objects) as [E _]. destruct (walks_place link_order base (sections_of objects) link_order_nodup Hs Hb Hr) as (H1 & H2 & H3).
  rewrite <- E in H1, H2, H3. cbn [fst snd] in *. exists (layout base objects).1. split; [lia|]. done.
Qed.

(** * What the linker leaves in a section and in a segment

    Relocation writes the address of its symbol plus the addend into every
    field and nothing else; merging puts the bytes of every section at its
    address within the segment of its kind. *)

(** ** Outcomes *)

Lemma bind_done {A B} (o : outcome A) (f : A -> outcome B) y : (o ≫= f) = Done y -> exists x, o = Done x /\ f x = Done y.
Proof. destruct o as [x| |]; [|done..]. by exists x. Qed.
Lemma outcome_map_done {A B} (f : A -> outcome B) l : forall l', outcome_map f l = Done l' -> Forall2 (fun x y => f x = Done y) l l'.
Proof.
  induction l as [|x l IH]; intros l' H; cbn in H; [injection H as <-; constructor|].
  apply bind_done in H as (y & Hy & H). apply bind_done in H as (ys & Hys & H). injection H as <-. constructor; [done|by apply IH].
Qed.
Lemma wild_none_done {A} (o : option A) x : wild_none o = Done x -> o = Some x.
Proof. destruct o; [|done]. by intros [= ->]. Qed.

(** ** Relocations *)

(** The field is written and the rest is kept. *)
Lemma patch_spec data off w v d : patch data off w v = Some d ->
  0 <= off /\ off + Z.of_nat w <= Z.of_nat (length data) /\ length d = length data /\
  get_le w d off = Some (v mod 2 ^ (8 * Z.of_nat w)) /\
  (forall i, i < off \/ off + Z.of_nat w <= i -> byte_at d i = byte_at data i).
Proof.
  unfold patch. destruct (_ && _) eqn:E; [|done]. intros [= <-]. apply andb_true_iff in E as [H0%Z.leb_le H1%Z.leb_le].
  split; [done|]. split; [done|]. assert (Hl : length (take (Z.to_nat off) data) = Z.to_nat off) by (rewrite length_take; lia).
  split; [rewrite !length_app, le_bytes_length, length_drop; lia|]. split.
  - rewrite get_le_app_r by lia. rewrite Hl. replace (off - Z.of_nat (Z.to_nat off)) with 0 by lia. apply get_le_head.
  - intros i Hi. unfold byte_at. destruct (Z.ltb_spec i 0); [done|]. destruct Hi as [Hi|Hi].
    + rewrite lookup_app_l by lia. apply lookup_take_lt. lia.
    + rewrite lookup_app_r by lia. rewrite lookup_app_r by (rewrite le_bytes_length; lia). rewrite lookup_drop, le_bytes_length, Hl. f_equal. lia.
Qed.
(** A field depends on its own bytes. *)
Lemma get_le_ext n : forall b b' off, (forall i, off <= i < off + Z.of_nat n -> byte_at b i = byte_at b' i) -> get_le n b off = get_le n b' off.
Proof. induction n as [|n IH]; intros b b' off H; [done|]. cbn. rewrite H by lia. by rewrite (IH b b') by (intros; apply H; lia). Qed.

Section Relocated.
Context (objects : list LdObject) (globals : gmap string (nat * nat)) (o : LdObject) (name : string).
Abbreviation width r := (Z.of_nat (reloc_width (r_type r))).

(** The value that a relocation asks for. *)
Definition relocated_value (rel : Reloc) (value : Z) : Prop :=
  exists addr, resolve objects globals o (r_symbol rel) = Done addr /\ value = u64 (addr + r_addend rel) /\ value < 2 ^ (8 * width rel).
Lemma apply_reloc_spec data rel d : apply_reloc objects globals o name data rel = Done d ->
  0 < width rel /\ 0 <= r_offset rel /\ r_offset rel + width rel <= Z.of_nat (length data) /\ length d = length data /\
  (exists v, relocated_value rel v /\ get_le (reloc_width (r_type rel)) d (r_offset rel) = Some v) /\
  (forall i, i < r_offset rel \/ r_offset rel + width rel <= i -> byte_at d i = byte_at data i).
Proof.
  unfold apply_reloc. set (w := reloc_width (r_type rel)). assert (Hw8 : (w <= 8)%nat) by (unfold w, reloc_width; repeat case_match; lia).
  destruct (Nat.eqb_spec w 0) as [|Hw]; [done|]. destruct (_ <? _); [done|]. intros (addr & Ha & H)%bind_done. cbv zeta in H.
  destruct (_ && _) eqn:Ef; [done|]. apply wild_none_done in H. apply patch_spec in H as (H0 & H1 & H2 & H3 & H4).
  assert (Hv : u64 (addr + r_addend rel) < 2 ^ (8 * Z.of_nat w)).
  { apply andb_false_iff in Ef as [Ef%Nat.ltb_ge|Ef%Z.leb_gt]; [|done]. replace w with 8%nat by lia. apply Z.mod_pos_bound. lia. }
  split; [lia|]. repeat (split; [done|]). split; [|done]. exists (u64 (addr + r_addend rel)). split; [by exists addr|].
  rewrite H3. f_equal. apply Z.mod_small. split; [apply Z.mod_pos_bound; lia|done].
Qed.

(** Two fields that share no byte. *)
Definition apart (r r' : Reloc) : Prop := r_offset r + width r <= r_offset r' \/ r_offset r' + width r' <= r_offset r.
Definition outside (i : Z) (r : Reloc) : Prop := i < r_offset r \/ r_offset r + width r <= i.
Lemma apply_relocs_spec l : forall data d, apply_relocs objects globals o name data l = Done d ->
  length d = length data /\ (forall i, Forall (outside i) l -> byte_at d i = byte_at data i) /\
  forall i rel, l !! i = Some rel -> (forall j rel', (i < j)%nat -> l !! j = Some rel' -> apart rel rel') ->
    exists v, relocated_value rel v /\ get_le (reloc_width (r_type rel)) d (r_offset rel) = Some v.
Proof.
  induction l as [|rel l IH]; intros data d H; cbn in H; [injection H as <-; by repeat split|].
  apply bind_done in H as (d1 & H1 & H). apply apply_reloc_spec in H1 as (W & _ & _ & L1 & (v & Hv & Hg) & K1). destruct (IH _ _ H) as (L2 & K2 & R2).
  split; [congruence|]. split.
  - intros i [Hi Hl]%Forall_cons. rewrite K2 by done. by apply K1.
  - intros [|i] rel' Hi Ha; [|apply (R2 i rel' Hi); intros j r Hj Hr; apply (Ha (S j)); [lia|done]].
    injection Hi as <-. exists v. split; [done|]. rewrite <- Hg. apply get_le_ext. intros i Hi. apply K2. apply Forall_forall. intros r Hr.
    apply list_elem_of_lookup in Hr as (j & Hj). specialize (Ha (S j) r ltac:(lia) Hj). unfold apart in Ha. unfold outside. lia.
Qed.
End Relocated.

(** A relocated object keeps its sections but for their bytes. *)
Definition relocated objects globals (o o' : LdObject) : Prop :=
  same_shape o o' /\ Forall2 (fun s s' => same_section s s' /\ lc_vaddr s' = lc_vaddr s /\ lc_placed s' = lc_placed s /\
    apply_relocs objects globals o (lc_name s) (lc_data s) (lc_relocs s) = Done (lc_data s')) (lo_sections o) (lo_sections o').
Lemma relocate_object_spec objects globals o o' : relocate_object objects globals o = Done o' -> relocated objects globals o o'.
Proof.
  intros (secs & H & E)%bind_done. injection E as <-. apply outcome_map_done in H.
  split; [split; [done|]; split; [done|]; cbn; symmetry; by eapply Forall2_length|]. cbn. eapply Forall2_impl; [exact H|]. cbn beta.
  intros s s' (d & Hd & E)%bind_done. injection E as <-. split; [|done]. repeat split; try done. cbn. by apply apply_relocs_spec in Hd as [Hl _].
Qed.

(** ** Segments *)

Lemma filter_sorted {A} (P : A -> Prop) `{!forall x, Decision (P x)} (R : A -> A -> Prop) l :
  (forall i j s t, (i < j)%nat -> l !! i = Some s -> l !! j = Some t -> P s -> P t -> R s t) -> StronglySorted R (filter P l).
Proof.
  induction l as [|x l IH]; intros Hr; [constructor|].
  assert (Hs : StronglySorted R (filter P l)) by (apply IH; intros i j s t Hij Hi Hj; apply (Hr (S i) (S j)); [lia|done|done]).
  rewrite filter_cons. case_decide; [|done]. constructor; [done|]. apply Forall_forall. intros y [Hy Hl]%list_elem_of_filter.
  apply list_elem_of_lookup in Hl as (j & Hj). by apply (Hr 0%nat (S j)); [lia|..].
Qed.

(** A section that can be appended: its bytes are as many as its size, unless
    the segment has none. *)
Definition appendable (nobits : bool) (hi : Z) (s : LdSection) : Prop :=
  0 <= lc_size s /\ 0 <= lc_vaddr s /\ section_end s <= hi /\ (nobits = false -> Z.of_nat (length (lc_data s)) = lc_size s).
(** A segment whose bytes, if any, are as many as its size in memory. *)
Record segment_ok (hi : Z) (g : Segment) : Prop := mk_segment_ok {
  sk_vaddr : 0 <= sg_vaddr g;
  sk_size : 0 <= sg_mem_size g;
  sk_end : sg_vaddr g + sg_mem_size g <= hi;
  sk_unused : sg_used g = false -> sg_mem_size g = 0;
  sk_data : Z.of_nat (length (sg_data g)) = if sg_nobits g then 0 else sg_mem_size g }.
(** [s] is in [g] at its address. *)
Definition contains (g : Segment) (s : LdSection) : Prop :=
  sg_vaddr g <= lc_vaddr s /\ section_end s <= sg_vaddr g + sg_mem_size g /\
  (sg_nobits g = false -> forall i, 0 <= i < lc_size s -> byte_at (sg_data g) (lc_vaddr s - sg_vaddr g + i) = byte_at (lc_data s) i).
(** [g'] extends [g]. *)
Definition extends (g g' : Segment) : Prop :=
  sg_kind g' = sg_kind g /\ sg_attrs g' = sg_attrs g /\ sg_nobits g' = sg_nobits g /\ (sg_used g = true -> sg_used g' = true /\ sg_vaddr g' = sg_vaddr g) /\
  sg_mem_size g <= sg_mem_size g' /\ exists more, sg_data g' = sg_data g ++ more.
#[global] Instance extends_preorder : PreOrder extends.
Proof.
  split; [intros g; repeat split; try done; by exists []; rewrite app_nil_r|].
  intros a b c (K1 & A1 & N1 & U1 & S1 & m1 & D1) (K2 & A2 & N2 & U2 & S2 & m2 & D2). unfold extends. rewrite K2, A2, N2, D2, D1.
  repeat (split; [done|]). split; [|split; [lia|exists (m1 ++ m2); by rewrite app_assoc]].
  intros Hu. destruct (U1 Hu) as [Hu1 Hv1]. destruct (U2 Hu1) as [Hu2 Hv2]. split; [done|congruence].
Qed.
Lemma contains_extends hi g g' s : segment_ok hi g -> sg_used g = true -> extends g g' -> contains g s -> contains g' s.
Proof.
  intros Hg Hu (_ & _ & Hn & Hv & Hs & more & Hd) (C1 & C2 & C3). destruct (Hv Hu) as [_ Hv']. unfold contains. rewrite Hv', Hn, Hd. split; [done|]. split; [lia|].
  intros Hb i Hi. rewrite <- (C3 Hb i Hi). apply byte_at_app_l. destruct Hg as [_ _ _ _ Hl]. rewrite Hb in Hl. unfold section_end in *. lia.
Qed.

Section Merge.
Context (hi : Z) (Hhi : hi < 2 ^ 64).
Lemma append_section_spec g s : segment_ok hi g -> appendable (sg_nobits g) hi s -> (sg_used g = true -> sg_vaddr g + sg_mem_size g <= lc_vaddr s) ->
  let g' := append_section g s in
  segment_ok hi g' /\ extends g g' /\ sg_used g' = true /\ contains g' s /\ sg_vaddr g' + sg_mem_size g' = section_end s.
Proof.
  intros [G1 G2 G3 G4 G5] (S1 & S2 & S3 & S4) Hb. cbn zeta. unfold append_section.
  set (v := if sg_used g then sg_vaddr g else lc_vaddr s).
  assert (Hv : 0 <= v /\ v + sg_mem_size g <= lc_vaddr s) by (unfold v; destruct (sg_used g); [specialize (Hb eq_refl); lia|specialize (G4 eq_refl); lia]).
  unfold section_end in *. assert (E1 : u64 (v + sg_mem_size g) = v + sg_mem_size g) by (unfold u64; apply Z.mod_small; lia). rewrite E1.
  set (gap := if v + sg_mem_size g <? lc_vaddr s then lc_vaddr s - (v + sg_mem_size g) else 0).
  assert (Hgap : gap = lc_vaddr s - (v + sg_mem_size g)) by (unfold gap; destruct (Z.ltb_spec (v + sg_mem_size g) (lc_vaddr s)); lia).
  assert (E2 : u64 (u64 (sg_mem_size g + gap) + lc_size s) = section_end s - v).
  { unfold section_end. rewrite Hgap. unfold u64. rewrite (Z.mod_small (sg_mem_size g + _)) by lia. rewrite Z.mod_small by lia. lia. }
  rewrite E2. unfold section_end in *. repeat split; cbn; try done; try lia.
  - destruct (sg_nobits g) eqn:En; [done|]. rewrite !length_app, length_replicate, !Nat2Z.inj_add, G5, (S4 eq_refl). lia.
  - unfold v. by destruct (sg_used g).
  - destruct (sg_nobits g); [exists []; by rewrite app_nil_r|by eexists].
  - unfold section_end. lia.
  - intros Hn i Hi. rewrite Hn in *. specialize (S4 eq_refl). rewrite app_assoc, byte_at_app_r; rewrite length_app, length_replicate; [f_equal; lia|lia].
Qed.
Lemma merge_spec l : forall g, segment_ok hi g -> Forall (appendable (sg_nobits g) hi) l -> StronglySorted below l ->
  (sg_used g = true -> Forall (fun s => sg_vaddr g + sg_mem_size g <= lc_vaddr s) l) ->
  let g' := foldl append_section g l in
  segment_ok hi g' /\ extends g g' /\ Forall (contains g') l /\ (l <> [] -> sg_used g' = true).
Proof.
  induction l as [|s l IH]; intros g Hg Ha Hs Hb; cbn zeta; [split; [done|]; split; [reflexivity|]; split; [constructor|done]|].
  apply Forall_cons in Ha as [Ha Hal]. inversion Hs as [|? ? Hsl Hbl]; subst.
  destruct (append_section_spec g s Hg Ha) as (A1 & A2 & A3 & A4 & A5); [intros Hu; specialize (Hb Hu); by apply Forall_cons in Hb as [? _]|].
  assert (Hn : sg_nobits (append_section g s) = sg_nobits g) by done.
  destruct (IH (append_section g s) A1) as (I1 & I2 & I3 & I4); [by rewrite Hn|done| |].
  { intros _. rewrite A5. eapply Forall_impl; [exact Hbl|]. by intros t. }
  cbn [foldl]. split; [done|]. split; [by etrans|]. split; [constructor; [exact (contains_extends hi _ _ _ A1 A3 I2 A4)|done]|].
  intros _. destruct I2 as (_ & _ & _ & Hu & _). by apply Hu.
Qed.
End Merge.

(** * What a symbol stands for

    The table of exported definitions has exactly one entry per exported
    name, and a relocation's symbol resolves to its own section's address, to
    its absolute value or to the one definition exported under its name. *)

(** ** The table *)

Lemma collect_symbols_spec objects oi l : forall i g g', collect_symbols objects oi i l g = Done g' -> forall name d,
  g' !! name = Some d <-> g !! name = Some d \/ exists j y, l !! j = Some y /\ exported y = true /\ ls_name y = name /\ d = (oi, (i + j)%nat).
Proof.
  induction l as [|y l IH]; intros i g g' H name d; cbn in H.
  { injection H as <-. split; [by left|]. intros [?|(j & y & Hj & _)]; [done|by rewrite lookup_nil in Hj]. }
  destruct (exported y) eqn:Ee.
  - destruct (g !! ls_name y) as [[first x]|] eqn:Eg; [done|]. rewrite (IH _ _ _ H name d). clear IH H. split.
    + intros [Hi|(j & y' & Hj & He & Hn & ->)]; [|right; exists (S j), y'; split; [done|]; split; [done|]; split; [done|]; by rewrite Nat.add_succ_r].
      apply lookup_insert_Some in Hi as [[<- <-]|[_ Hi]]; [|by left]. right. exists 0%nat, y. by rewrite Nat.add_0_r.
    + intros [Hi|([|j] & y' & Hj & He & Hn & ->)].
      * left. rewrite lookup_insert_ne; [done|]. intros <-. congruence.
      * injection Hj as <-. subst name. left. by rewrite lookup_insert_eq, Nat.add_0_r.
      * right. exists j, y'. by rewrite Nat.add_succ_r.
  - rewrite (IH _ _ _ H name d). clear IH H. split.
    + intros [Hi|(j & y' & Hj & He & Hn & ->)]; [by left|]. right. exists (S j), y'. by rewrite Nat.add_succ_r.
    + intros [Hi|([|j] & y' & Hj & He & Hn & ->)]; [by left| |].
      * injection Hj as <-. congruence.
      * right. exists j, y'. by rewrite Nat.add_succ_r.
Qed.
(** Symbol [j] of object [k] is exported as [name]. *)
Definition exports (objects : list LdObject) (name : string) (d : nat * nat) : Prop :=
  exists o y, objects !! d.1 = Some o /\ lo_symbols o !! d.2 = Some y /\ exported y = true /\ ls_name y = name.
Lemma collect_globals_loop objects l : forall oi g g', collect_globals objects oi l g = Done g' -> forall name d,
  g' !! name = Some d <-> g !! name = Some d \/ exists k j, d = ((oi + k)%nat, j) /\ exports l name (k, j).
Proof.
  induction l as [|o l IH]; intros oi g g' H name d; cbn in H.
  { injection H as <-. split; [by left|]. intros [?|(k & j & _ & o & y & Hk & _)]; [done|by rewrite lookup_nil in Hk]. }
  apply bind_done in H as (g1 & H1 & H). rewrite (IH _ _ _ H name d), (collect_symbols_spec _ _ _ _ _ _ H1 name d). clear IH H H1. split.
  - intros [[Hg|(j & y & Hj & He & Hn & ->)]|(k & j & -> & o' & y & Hk & Hx)]; [by left|right..].
    + exists 0%nat, j. rewrite Nat.add_0_r. split; [done|]. by exists o, y.
    + exists (S k), j. rewrite Nat.add_succ_r. split; [done|]. by exists o', y.
  - intros [Hg|([|k] & j & -> & o' & y & Hk & Hj & He & Hn)]; [by do 2 left|..].
    + injection Hk as <-. left. right. exists j, y. by rewrite Nat.add_0_r.
    + right. exists k, j. rewrite Nat.add_succ_r. split; [done|]. by exists o', y.
Qed.
Lemma collect_globals_spec objects l globals : collect_globals objects 0 l ∅ = Done globals -> forall name d, globals !! name = Some d <-> exports l name d.
Proof.
  intros H name d. rewrite (collect_globals_loop _ _ _ _ _ H name d), lookup_empty. split.
  - intros [?|(k & j & -> & Hx)]; [done|done].
  - intros Hx. right. by exists d.1, d.2; destruct d.
Qed.

(** ** What a symbol denotes *)

Inductive denotes (objects : list LdObject) (o : LdObject) (index : Z) : Z -> Prop :=
| denotes_abs y : lo_symbols o !! Z.to_nat index = Some y -> ls_section_index y = SHN_ABS -> denotes objects o index (ls_value y)
| denotes_local y s : lo_symbols o !! Z.to_nat index = Some y -> section_at o (ls_section_index y) = Some s -> ls_section_index y <> SHN_UNDEF ->
    denotes objects o index (u64 (lc_vaddr s + ls_value y))
| denotes_extern y d o' y' s : lo_symbols o !! Z.to_nat index = Some y -> ls_section_index y = SHN_UNDEF -> exports objects (ls_name y) d ->
    (forall d', exports objects (ls_name y) d' -> d' = d) ->
    objects !! d.1 = Some o' -> lo_symbols o' !! d.2 = Some y' -> section_at o' (ls_section_index y') = Some s ->
    denotes objects o index (u64 (lc_vaddr s + ls_value y')).
Lemma resolve_denotes objects globals o index addr : collect_globals objects 0 objects ∅ = Done globals ->
  resolve objects globals o index = Done addr -> denotes objects o index addr.
Proof.
  intros Hg. pose proof (collect_globals_spec _ _ _ Hg) as Hx. unfold resolve. destruct (lo_symbols o !! Z.to_nat index) as [y|] eqn:Ey; [|done].
  destruct (Z.eqb_spec (ls_section_index y) SHN_ABS) as [Ea|Ea]; [intros [= <-]; by apply denotes_abs|].
  destruct (Z.eqb_spec (ls_section_index y) SHN_UNDEF) as [Eu|Eu].
  - destruct (globals !! ls_name y) as [d|] eqn:Ed; [|done]. intros (o' & Ho & H)%bind_done. apply bind_done in H as (y' & Hy & H). apply bind_done in H as (s & Hs & H). injection H as <-.
    apply wild_none_done in Ho, Hy, Hs. eapply denotes_extern; [done|done|by apply Hx| |done..]. intros d' Hd'%Hx. congruence.
  - destruct (section_at o _) as [s|] eqn:Es; [|done]. intros [= <-]. by eapply denotes_local.
Qed.

(** ** Objects that differ in the bytes of their sections *)

(** The same symbols, and sections at the same addresses. *)
Definition same_places (o o' : LdObject) : Prop :=
  lo_source o' = lo_source o /\ lo_symbols o' = lo_symbols o /\ lc_vaddr <$> lo_sections o' = lc_vaddr <$> lo_sections o.
Lemma section_at_places o o' i s : same_places o o' -> section_at o i = Some s -> exists s', section_at o' i = Some s' /\ lc_vaddr s' = lc_vaddr s.
Proof.
  intros (_ & _ & H) Hs. unfold section_at in *. apply (f_equal (.!! Z.to_nat i)) in H. rewrite !list_lookup_fmap, Hs in H. cbn in H.
  destruct (lo_sections o' !! Z.to_nat i) as [s'|]; [|done]. injection H as H. by exists s'.
Qed.
Lemma source_of_places l l' i : Forall2 same_places l l' -> source_of l' i = source_of l i.
Proof. intros H. unfold source_of. revert i. induction H as [|o o' l l' (E & _) _ IH]; intros [|i]; [done..|cbn; by rewrite E|apply IH]. Qed.
Lemma collect_symbols_places l l' oi ys : Forall2 same_places l l' -> forall i g, collect_symbols l' oi i ys g = collect_symbols l oi i ys g.
Proof.
  intros H. induction ys as [|y ys IH]; intros i g; [done|]. cbn. destruct (exported y); [|done]. destruct (g !! ls_name y) as [[first x]|]; [|done].
  by rewrite !(source_of_places _ _ _ H).
Qed.
Lemma collect_globals_places l l' : Forall2 same_places l l' -> forall m m', Forall2 same_places m m' -> forall oi g, collect_globals l' oi m' g = collect_globals l oi m g.
Proof.
  intros H. induction 1 as [|o o' m m' (_ & E & _) _ IH]; intros oi g; [done|]. cbn. rewrite E, (collect_symbols_places _ _ _ _ H).
  destruct (collect_symbols l oi 0 (lo_symbols o) g); [|done..]. apply IH.
Qed.
Lemma exports_places l l' name d : Forall2 same_places l l' -> exports l' name d <-> exports l name d.
Proof.
  intros H. split.
  - intros (o' & y & Ho & Hy & He & Hn). destruct (Forall2_lookup_r _ _ _ _ _ H Ho) as (o & Ho' & (_ & E & _)). exists o, y. rewrite E in Hy. done.
  - intros (o & y & Ho & Hy & He & Hn). destruct (Forall2_lookup_l _ _ _ _ _ H Ho) as (o' & Ho' & (_ & E & _)). exists o', y. rewrite <- E in Hy. done.
Qed.
Lemma denotes_places l l' o o' index addr : Forall2 same_places l l' -> same_places o o' -> denotes l o index addr -> denotes l' o' index addr.
Proof.
  intros Hl Ho. pose proof Ho as (_ & Ey & _). intros [y Hy Ha|y s Hy Hs Hu|y d o1 y1 s Hy Hu Hx Huniq Hd Hy1 Hs].
  - apply denotes_abs; [by rewrite Ey|done].
  - destruct (section_at_places _ _ _ _ Ho Hs) as (s' & Hs' & <-). apply denotes_local; [by rewrite Ey|done|done].
  - destruct (Forall2_lookup_l _ _ _ _ _ Hl Hd) as (o2 & Hd2 & H2). destruct (section_at_places _ _ _ _ H2 Hs) as (s' & Hs' & <-). pose proof H2 as (_ & E2 & _).
    eapply denotes_extern; [by rewrite Ey|done|by apply (exports_places _ _ _ _ Hl)|intros d' H%(exports_places _ _ _ _ Hl); by apply Huniq|exact Hd2|by rewrite E2|done].
Qed.

(** ** The map file *)

#[global] Instance row_le_total : Total row_le.
Proof.
  intros [a n] [c k]. unfold row_le. cbn. rewrite (Z.eqb_sym c a). destruct (Z.eqb_spec a c); [|lia].
  destruct (String.leb_total n k) as [->| ->]; [by left|by right].
Qed.
(** Its lines are in order of address, then of name, and there is one for
    every defined symbol with a name of its own. *)
Lemma map_rows_spec objects : Sorted row_le (map_rows objects) /\ forall addr name, (addr, name) ∈ map_rows objects <->
  exists o y s, o ∈ objects /\ y ∈ lo_symbols o /\ section_at o (ls_section_index y) = Some s /\ ls_section_index y <> SHN_UNDEF /\ ls_section_index y < Z.of_nat (length (lo_sections o)) /\
    name = ls_name y /\ name <> EmptyString /\ is_block_label name = false /\ addr = u64 (lc_vaddr s + ls_value y).
Proof.
  split; [apply Sorted_merge_sort, _|]. intros addr name. unfold map_rows. rewrite merge_sort_Permutation, list_elem_of_bind. split.
  - intros (o & H & Ho). apply list_elem_of_omap in H as (y & Hy & E). exists o, y. unfold map_row in E.
    destruct (Z.eqb_spec (ls_section_index y) SHN_UNDEF); [done|]. destruct (Z.leb_spec (Z.of_nat (length (lo_sections o))) (ls_section_index y)); [done|].
    cbn in E. case_bool_decide; [done|]. destruct (is_block_label (ls_name y)) eqn:Eb; [done|]. cbn in E.
    destruct (section_at o _) as [s|]; [|done]. injection E as <- <-. by exists s.
  - intros (o & y & s & Ho & Hy & Hs & Hu & Hl & -> & Hn & Hb & ->). exists o. split; [|done]. apply list_elem_of_omap. exists y. split; [done|]. unfold map_row.
    rewrite (proj2 (Z.eqb_neq _ _)) by done. rewrite (proj2 (Z.leb_gt _ _)) by lia. rewrite bool_decide_false by done. by rewrite Hb, Hs.
Qed.
