(* ===== verification/MzldProps.v ===== *)
(** * The executable, as the kernel's loader reads it

    The header and the segment table that mzld writes, read with the loader's
    own functions, give the entry point and the segments; the bytes of every
    segment are where the table says. *)
From Stdlib Require Import ZArith Lia Bool Ascii String.
From stdpp Require Import base list numbers strings gmap sorting.
From S2P Require Import Prelude State Support Process MzObj V2AsmExpr V2AsmSource V2AsmPasses V2AsmDemo ObjWriter Mzld ObjProps MzldLink.

(** ** The loader's integers *)

Lemma get_le_snoc n : forall b off v, get_le (S n) b off = Some v -> Forall (fun c => 0 <= c < 256) b ->
  exists w c, get_le n b off = Some w /\ byte_at b (off + Z.of_nat n) = Some c /\ 0 <= c < 256 /\ v = w + c * 2 ^ (8 * Z.of_nat n).
Proof.
  induction n as [|n IH]; intros b off v H Hb.
  - cbn in H. destruct (byte_at b off) as [c|] eqn:E; [|done]. cbn in H. rewrite Z.lor_0_r in H. injection H as <-. exists 0, c. rewrite Z.add_0_r.
    split; [done|]. split; [done|]. unfold byte_at in E. destruct (off <? 0); [done|]. split; [exact (Forall_lookup_1 _ _ _ _ Hb E)|]. cbn. lia.
  - change (get_le (S (S n)) b off) with (c ← byte_at b off; v ← get_le (S n) b (off + 1); Some (Z.lor c (Z.shiftl v 8))) in H.
    change (get_le (S n) b off) with (c ← byte_at b off; v ← get_le n b (off + 1); Some (Z.lor c (Z.shiftl v 8))).
    destruct (byte_at b off) as [c0|] eqn:E; [|done]. cbn [mbind option_bind] in H |- *. destruct (get_le (S n) b (off + 1)) as [v1|] eqn:E1; [|done]. injection H as <-.
    destruct (IH _ _ _ E1 Hb) as (w & c & Hw & Hc & Hr & ->). rewrite Hw. assert (Hc0 : 0 <= c0 < 256) by (unfold byte_at in E; destruct (off <? 0); [done|]; exact (Forall_lookup_1 _ _ _ _ Hb E)).
    cbn [mbind option_bind]. rewrite !lor_byte_shift by done. exists (c0 + w * 256), c. split; [done|]. split; [rewrite <- Hc; f_equal; lia|]. split; [done|].
    replace (8 * Z.of_nat (S n)) with (8 * Z.of_nat n + 8) by lia. rewrite Z.pow_add_r by lia. lia.
Qed.
Lemma zget_byte b off c : byte_at b off = Some c -> zget b off = c.
Proof. unfold byte_at, zget, zlookup. destruct (off <? 0) eqn:E; [done|]. intros H. repeat case_match; try lia; by rewrite ?H. Qed.
Lemma rd_u64_loop_le n b off : forall v w, Forall (fun c => 0 <= c < 256) b -> get_le n b off = Some w -> 0 <= v -> (v + 1) * 2 ^ (8 * Z.of_nat n) <= 2 ^ 64 ->
  rd_u64_loop n b off v = v * 2 ^ (8 * Z.of_nat n) + w.
Proof.
  induction n as [|n IH]; intros v w Hb H Hv Hs; [cbn in *; injection H as <-; lia|].
  apply get_le_snoc in H as (w0 & c & Hw & Hc & Hr & ->); [|done]. cbn [rd_u64_loop]. rewrite (zget_byte _ _ _ Hc).
  replace (8 * Z.of_nat (S n)) with (8 * Z.of_nat n + 8) in Hs |- * by lia. rewrite Z.pow_add_r in Hs |- * by lia.
  pose proof (Z.pow_pos_nonneg 2 (8 * Z.of_nat n) ltac:(lia) ltac:(lia)) as Hp.
  assert (E : Z.lor (u64 (Z.shiftl v 8)) c = c + v * 256).
  { unfold u64. rewrite Z.mod_small by (rewrite Z.shiftl_mul_pow2 by lia; nia). rewrite Z.lor_comm. by apply lor_byte_shift. }
  rewrite E, (IH _ w0) by (done || nia). lia.
Qed.
Lemma rd_u64_le b off v : Forall (fun c => 0 <= c < 256) b -> get_le 8 b off = Some v -> rd_u64 b off = v.
Proof. intros Hb H. unfold rd_u64. rewrite (rd_u64_loop_le 8 b off 0 v) by done. lia. Qed.
Lemma rd_u16_le b off v : Forall (fun c => 0 <= c < 256) b -> get_le 2 b off = Some v -> rd_u16 b off = v.
Proof.
  intros Hb H. pose proof (get_le_range 2 b off v Hb H) as Hr. cbn in H. destruct (byte_at b off) as [c|] eqn:E1; [|done]. destruct (byte_at b (off + 1)) as [c1|] eqn:E2; [|done].
  cbn in H. rewrite Z.lor_0_r in H. injection H as <-. unfold rd_u16. rewrite (zget_byte _ _ _ E1), (zget_byte _ _ _ E2). unfold u16. by apply Z.mod_small.
Qed.

(** ** The loader's view of a file *)

Record mzx_segment : Type := mk_mzx_segment { mx_vaddr : Z; mx_file_off : Z; mx_mem_size : Z; mx_file_size : Z }.
(** What [load_segment] computes from the entry at [so]. *)
Definition read_mzx_segment (file : list Z) (so : Z) : mzx_segment :=
  let seg := take (Z.to_nat MZX_SEGMENT_SIZE) (drop (Z.to_nat so) file) in
  mk_mzx_segment (rd_u64 seg 8) (rd_u64 seg 16) (rd_u64 seg 24) (rd_u64 seg 32).
Definition mzx_header (file : list Z) : list Z := take (Z.to_nat MZX_HEADER_SIZE) file.
(** What [load_segments] walks. *)
Definition mzx_segments (file : list Z) : list mzx_segment :=
  let hdr := mzx_header file in
  (fun i => read_mzx_segment file (u64 (rd_u64 hdr 16 + i * MZX_SEGMENT_SIZE))) <$> seqZ 0 (rd_u16 hdr 6).
(** The byte that loading leaves at an address: the file's, or zero past the
    file's bytes of a segment. *)
Definition mzx_byte (file : list Z) (addr : Z) : option Z :=
  match find (fun g => (mx_vaddr g <=? addr) && (addr <? mx_vaddr g + mx_mem_size g)) (mzx_segments file) with
  | None => None
  | Some g => if addr - mx_vaddr g <? mx_file_size g then byte_at file (mx_file_off g + (addr - mx_vaddr g)) else Some 0
  end.

(** ** The parts of the file *)

Definition mzx_header_fields (n entry : Z) : list (nat * Z) :=
  [(1%nat, MZX_MAGIC0); (1%nat, MZX_MAGIC1); (1%nat, MZX_MAGIC2); (1%nat, MZX_VERSION); (2%nat, 0); (2%nat, n); (8%nat, entry); (8%nat, 24)].
Definition segment_fields (g : Segment) (off size : Z) : list (nat * Z) :=
  [(1%nat, sg_kind g); (1%nat, sg_attrs g); (1%nat, 0); (1%nat, 0); (1%nat, 0); (1%nat, 0); (1%nat, 0); (1%nat, 0);
   (8%nat, sg_vaddr g); (8%nat, off); (8%nat, sg_mem_size g); (8%nat, size)].
Definition segment_bytes (g : Segment) : list Z := if sg_nobits g then [] else sg_data g.
(** Where each segment's bytes go, and how many there are. *)
Fixpoint segment_places (cur : Z) (l : list Segment) : list (Z * Z) :=
  match l with
  | [] => []
  | g :: l => if sg_nobits g then (0, 0) :: segment_places cur l
              else (cur, Z.of_nat (length (sg_data g))) :: segment_places (u64 (cur + Z.of_nat (length (sg_data g)))) l
  end.
Definition table_bytes (cur : Z) (l : list Segment) : list Z := zip_with (fun g p => fields_bytes (segment_fields g p.1 p.2)) l (segment_places cur l) ≫= id.

Lemma put_segment_fields b g off n : put_segment b g off n = b ++ fields_bytes (segment_fields g off n).
Proof. unfold put_segment. as_record. Qed.
Lemma put_segments_bytes l : forall b cur, put_segments b cur l = b ++ table_bytes cur l.
Proof.
  induction l as [|g l IH]; intros b cur; [by rewrite app_nil_r|]. cbn [put_segments]. unfold table_bytes. cbn [segment_places].
  destruct (sg_nobits g); rewrite IH, put_segment_fields, <- app_assoc; done.
Qed.
Lemma segment_places_length l : forall cur, length (segment_places cur l) = length l.
Proof. induction l as [|g l IH]; intros cur; [done|]. cbn. destruct (sg_nobits g); cbn; by rewrite IH. Qed.
Lemma write_executable_parts entry used : (length used <= 4)%nat ->
  write_executable entry used = fields_bytes (mzx_header_fields (Z.of_nat (length used)) entry) ++
    table_bytes (24 + Z.of_nat (length used) * SEGMENT_SIZE) used ++ (used ≫= segment_bytes).
Proof.
  intros Hn. unfold write_executable. assert (E : u64 (24 + Z.of_nat (length used) * SEGMENT_SIZE) = 24 + Z.of_nat (length used) * SEGMENT_SIZE) by (unfold u64, SEGMENT_SIZE; apply Z.mod_small; lia).
  rewrite E, (foldl_append (fun file seg => if sg_nobits seg then file else file ++ sg_data seg) segment_bytes) by (intros b s; unfold segment_bytes; destruct (sg_nobits s); by rewrite ?app_nil_r).
  rewrite put_segments_bytes, <- app_assoc. f_equal. as_record.
Qed.
Lemma fields_bytes_range fs : Forall (fun c => 0 <= c < 256) (fields_bytes fs).
Proof. unfold fields_bytes. apply Forall_bind, Forall_true. intros f. apply le_bytes_range. Qed.

Section File.
Context (entry : Z) (used : list Segment) (Hentry : 0 <= entry < 2 ^ 64) (Hn : (length used <= 4)%nat).
Let file := write_executable entry used.
Context (Hlen : Z.of_nat (length file) < 2 ^ 64).

Lemma table_at l : forall off cur, at_file file off (table_bytes cur l) -> forall i g p, l !! i = Some g -> segment_places cur l !! i = Some p ->
  at_file file (off + Z.of_nat i * 40) (fields_bytes (segment_fields g p.1 p.2)).
Proof.
  induction l as [|g0 l IH]; intros off cur Hat i g p Hg Hp; [done|].
  assert (H : exists p0 cur', segment_places cur (g0 :: l) = p0 :: segment_places cur' l) by (cbn; destruct (sg_nobits g0); eauto). destruct H as (p0 & cur' & E).
  unfold table_bytes in Hat. rewrite E in Hat, Hp. change (zip_with _ (g0 :: l) _ ≫= id) with (fields_bytes (segment_fields g0 p0.1 p0.2) ++ table_bytes cur' l) in Hat.
  destruct i as [|i].
  - injection Hg as ->. injection Hp as ->. rewrite Z.add_0_r. by eapply at_file_app_l.
  - apply at_file_app_r in Hat. rewrite fields_bytes_length in Hat. change (fields_width _) with 40%nat in Hat.
    replace (off + Z.of_nat (S i) * 40) with (off + Z.of_nat 40 + Z.of_nat i * 40) by lia. by eapply (IH _ cur').
Qed.
Lemma segments_at l : forall cur, at_file file cur (l ≫= segment_bytes) -> forall i g p, l !! i = Some g -> segment_places cur l !! i = Some p ->
  p.2 = Z.of_nat (length (segment_bytes g)) /\ at_file file p.1 (segment_bytes g) /\ 0 <= p.1 < 2 ^ 64.
Proof.
  induction l as [|g0 l IH]; intros cur Hat i g p Hg Hp; [done|]. change ((g0 :: l) ≫= segment_bytes) with (segment_bytes g0 ++ (l ≫= segment_bytes)) in Hat.
  pose proof (at_file_app_r _ _ _ _ Hat) as Hr. apply at_file_app_l in Hat. pose proof (at_file_bound _ _ _ Hat) as [B0 B1].
  cbn [segment_places] in Hp. unfold segment_bytes in Hat, Hr at 1, B1. destruct (sg_nobits g0) eqn:En.
  - rewrite Z.add_0_r in Hr. destruct i as [|i]; [|by eapply (IH cur)]. injection Hg as ->. injection Hp as <-. cbn. unfold segment_bytes. rewrite En. split; [done|]. split; [by exists [], file|lia].
  - assert (E : u64 (cur + Z.of_nat (length (sg_data g0))) = cur + Z.of_nat (length (sg_data g0))) by (unfold u64; apply Z.mod_small; lia). rewrite E in Hp.
    destruct i as [|i]; [|by eapply (IH (cur + Z.of_nat (length (sg_data g0))))]. injection Hg as ->. injection Hp as <-. cbn [fst snd]. unfold segment_bytes. rewrite En. split; [done|]. split; [done|lia].
Qed.

(** The fields of a record, as the loader reads them. *)
Lemma record_u64 fs i v o : fs !! i = Some (8%nat, v) -> 0 <= v < 2 ^ 64 -> o = Z.of_nat (fields_width (take i fs)) -> rd_u64 (fields_bytes fs) o = v.
Proof.
  intros Hi Hv ->. apply rd_u64_le; [apply fields_bytes_range|]. rewrite <- (Z.add_0_l (Z.of_nat _)).
  rewrite (field_read (fields_bytes fs) 0 fs i 8 v); [f_equal; by apply Z.mod_small|exists [], []; by rewrite app_nil_r|done].
Qed.
Lemma mzx_header_is : mzx_header file = fields_bytes (mzx_header_fields (Z.of_nat (length used)) entry).
Proof. unfold mzx_header, file. rewrite write_executable_parts by done. apply take_app_length'. by rewrite fields_bytes_length. Qed.
Lemma header_reads : mzx_magic (mzx_header file) = true /\ rd_u64 (mzx_header file) 8 = entry /\ rd_u64 (mzx_header file) 16 = 24 /\
  rd_u16 (mzx_header file) 6 = Z.of_nat (length used).
Proof.
  rewrite mzx_header_is. split; [done|]. split; [by apply (record_u64 _ 6)|]. split; [by apply (record_u64 _ 7)|].
  apply rd_u16_le; [apply fields_bytes_range|]. change 6 with (0 + Z.of_nat (fields_width (take 5 (mzx_header_fields (Z.of_nat (length used)) entry)))).
  rewrite (field_read _ 0 _ 5 2 (Z.of_nat (length used))); [f_equal; apply Z.mod_small; lia|exists [], []; by rewrite app_nil_r|done].
Qed.

Definition segment_word (g : Segment) : Prop := 0 <= sg_vaddr g < 2 ^ 64 /\ 0 <= sg_mem_size g < 2 ^ 64.
Lemma table_length l cur : length (table_bytes cur l) = (length l * 40)%nat.
Proof.
  unfold table_bytes. pose proof (segment_places_length l cur) as Hl. revert Hl. generalize (segment_places cur l). induction l as [|g l IH]; intros ps Hl; [done|].
  destruct ps as [|p ps]; [done|]. injection Hl as Hl. specialize (IH ps Hl). cbn [zip_with]. rewrite bind_cons, length_app, IH. unfold id at 1. by rewrite fields_bytes_length.
Qed.
Lemma executable_parts_at : at_file file 24 (table_bytes (24 + Z.of_nat (length used) * SEGMENT_SIZE) used) /\
  at_file file (24 + Z.of_nat (length used) * SEGMENT_SIZE) (used ≫= segment_bytes).
Proof.
  assert (H : at_file file 24 (table_bytes (24 + Z.of_nat (length used) * SEGMENT_SIZE) used ++ (used ≫= segment_bytes))).
  { unfold file. rewrite write_executable_parts by done. eexists _, []. rewrite app_nil_r. split; [done|]. by rewrite fields_bytes_length. }
  split; [by eapply at_file_app_l|]. apply at_file_app_r in H. rewrite table_length in H.
  by replace (24 + Z.of_nat (length used * 40)) with (24 + Z.of_nat (length used) * SEGMENT_SIZE) in H by (unfold SEGMENT_SIZE; lia).
Qed.
Lemma segment_reads i g : Forall segment_word used -> used !! i = Some g -> exists p,
  read_mzx_segment file (u64 (24 + Z.of_nat i * MZX_SEGMENT_SIZE)) = mk_mzx_segment (sg_vaddr g) p (sg_mem_size g) (Z.of_nat (length (segment_bytes g))) /\
  at_file file p (segment_bytes g).
Proof.
  intros Hw Hg. destruct executable_parts_at as [Ht Hs]. pose proof (lookup_lt_Some _ _ _ Hg) as Hi.
  destruct (lookup_lt_is_Some_2 (segment_places (24 + Z.of_nat (length used) * SEGMENT_SIZE) used) i) as [[p n] Hp]; [by rewrite segment_places_length|].
  pose proof (table_at used _ _ Ht i g _ Hg Hp) as Hat. destruct (segments_at used _ Hs i g _ Hg Hp) as (E & Hd & Hr). cbn [fst snd] in *.
  pose proof (at_file_bound _ _ _ Hat) as [B0 B1]. destruct (Forall_lookup_1 _ _ _ _ Hw Hg) as [W1 W2].
  exists p. split; [|done].
  assert (Eo : u64 (24 + Z.of_nat i * MZX_SEGMENT_SIZE) = 24 + Z.of_nat i * 40) by (unfold u64, MZX_SEGMENT_SIZE; apply Z.mod_small; lia).
  unfold read_mzx_segment. rewrite Eo. destruct Hat as (pre & post & Ef & Hpre).
  assert (Es : take (Z.to_nat MZX_SEGMENT_SIZE) (drop (Z.to_nat (24 + Z.of_nat i * 40)) file) = fields_bytes (segment_fields g p n)).
  { rewrite <- Hpre, Nat2Z.id, Ef, drop_app_length. apply take_app_length'. by rewrite fields_bytes_length. }
  rewrite Es. f_equal; [by apply (record_u64 _ 8)|by apply (record_u64 _ 9)|by apply (record_u64 _ 10)|].
  rewrite <- E. apply (record_u64 _ 11); [done| |done]. rewrite E. pose proof (at_file_bound _ _ _ Hs) as [_ Hb].
  assert (Hle : (length (segment_bytes g) <= length (used ≫= segment_bytes))%nat).
  { apply list_elem_of_lookup_2 in Hg. clear - Hg. induction used as [|g0 l IH]; [by apply elem_of_nil in Hg|].
    change ((g0 :: l) ≫= segment_bytes) with (segment_bytes g0 ++ (l ≫= segment_bytes)). rewrite length_app. apply elem_of_cons in Hg as [->|Hg]; [lia|]. apply IH in Hg. lia. }
  unfold SEGMENT_SIZE in Hb. lia.
Qed.

(** An address that only one segment covers gives that segment's byte. *)
Lemma mzx_byte_of g a : Forall segment_word used -> g ∈ used -> sg_vaddr g <= a < sg_vaddr g + sg_mem_size g ->
  (forall g', g' ∈ used -> sg_vaddr g' <= a < sg_vaddr g' + sg_mem_size g' -> g' = g) ->
  mzx_byte file a = if a - sg_vaddr g <? Z.of_nat (length (segment_bytes g)) then byte_at (segment_bytes g) (a - sg_vaddr g) else Some 0.
Proof.
  intros Hw Hg Ha Hu. destruct header_reads as (_ & _ & Hoff & Hcount). unfold mzx_byte, mzx_segments. rewrite Hoff, Hcount.
  set (read := fun i => read_mzx_segment file (u64 (24 + i * MZX_SEGMENT_SIZE))). destruct (find _ _) as [m|] eqn:E.
  - apply find_some in E as [Hin [H1%Z.leb_le H2%Z.ltb_lt]%andb_true_iff]. apply list_elem_of_In, list_elem_of_fmap in Hin as (k & -> & Hk%elem_of_seqZ).
    destruct (lookup_lt_is_Some_2 used (Z.to_nat k)) as [g' Hg']; [lia|]. destruct (segment_reads _ _ Hw Hg') as (p & Hr & Hp).
    rewrite Z2Nat.id in Hr by lia. unfold read in *. rewrite Hr in H1, H2 |- *. cbn [mx_vaddr mx_file_off mx_mem_size mx_file_size] in *.
    assert (g' = g) as -> by (apply Hu; [by eapply list_elem_of_lookup_2|lia]). destruct (Z.ltb_spec (a - sg_vaddr g) (Z.of_nat (length (segment_bytes g)))); [|done].
    apply at_file_byte; [exact Hp|lia].
  - exfalso. apply list_elem_of_lookup in Hg as (i & Hg). destruct (segment_reads _ _ Hw Hg) as (p & Hr & _). pose proof (lookup_lt_Some _ _ _ Hg).
    apply (find_none _ _ ) with (x := read (Z.of_nat i)) in E; [|apply list_elem_of_In, list_elem_of_fmap; exists (Z.of_nat i); split; [done|]; apply elem_of_seqZ; lia].
    unfold read in E. rewrite Hr in E. cbn in E. apply andb_false_iff in E as [E%Z.leb_gt|E%Z.ltb_ge]; lia.
Qed.
End File.

(** * A link is correct

    The executable of a link that succeeds holds every section at its own
    addresses, shared with no other section, with every relocation applied;
    the kernel's loader finds the entry point and the segments in it. *)

(** The steps of a link. *)
Record linked (entry_name : string) (base : Z) (objects objs : list LdObject) (file : list Z) (globals : gmap string (nat * nat)) (entry : Z) : Prop := mk_linked {
  lk_globals : collect_globals (layout base objects).2 0 (layout base objects).2 ∅ = Done globals;
  lk_relocated : Forall2 (relocated (layout base objects).2 globals) (layout base objects).2 objs;
  lk_entry : entry_address objs globals entry_name = Done entry;
  lk_apart : any_overlap (segments objs) = false;
  lk_file : file = write_executable entry (filter (fun g => sg_used g = true) (segments objs)) }.
Lemma link_steps entry_name base objects objs file : link entry_name base objects = Done (objs, file) ->
  exists globals entry, linked entry_name base objects objs file globals entry.
Proof.
  unfold link. intros (u & _ & H)%bind_done. apply bind_done in H as (globals & Hg & H). apply bind_done in H as (objs' & Ho & H). apply bind_done in H as (entry & He & H).
  cbv zeta in H. destruct (any_overlap (segments objs')) eqn:Ea; [done|]. injection H as <- <-. exists globals, entry. split; try done.
  apply outcome_map_done in Ho. eapply Forall2_impl; [exact Ho|]. intros. by apply relocate_object_spec.
Qed.

(** ** Sections through the link *)

(** [s] is [s0] placed by the link, its relocations applied. *)
Record linked_section (base limit : Z) (s0 s : LdSection) : Prop := mk_linked_section {
  lz_same : same_section s0 s;
  lz_placed : lc_placed s = places s0;
  lz_low : places s0 = true -> base <= lc_vaddr s;
  lz_high : places s0 = true -> section_end s <= limit;
  lz_aligned : places s0 = true -> lc_vaddr s mod lc_align s = 0 }.

Lemma Forall2_bind_inv {A} (R : A -> A -> Prop) (f : LdObject -> list A) l l' : Forall2 (fun o o' => Forall2 R (f o) (f o')) l l' -> Forall2 R (l ≫= f) (l' ≫= f).
Proof. induction 1; cbn; [constructor|]. by apply Forall2_app. Qed.

Section Link.
Context (entry_name : string) (base : Z) (objects objs : list LdObject) (file : list Z) (globals : gmap string (nat * nat)) (entry : Z).
Context (Hlink : linked entry_name base objects objs file globals entry).
Context (Hok : Forall section_ok (sections_of objects)) (Hfresh : Forall (fun s => lc_placed s = false) (sections_of objects)).
Context (Hbase : 0 <= base) (Hroom : base + total_room link_order (sections_of objects) < 2 ^ 64).
Let laid := (layout base objects).2.

Lemma relocated_sections : Forall2 (fun s s' => same_section s s' /\ lc_vaddr s' = lc_vaddr s /\ lc_placed s' = lc_placed s) (sections_of laid) (sections_of objs).
Proof.
  apply Forall2_bind_inv. eapply Forall2_impl; [exact (lk_relocated _ _ _ _ _ _ _ Hlink)|]. intros o o' [_ H]. eapply Forall2_impl; [exact H|]. by intros s s' (? & ? & ? & _).
Qed.
Lemma linked_sections : exists limit, limit < 2 ^ 64 /\ Forall2 (linked_section base limit) (sections_of objects) (sections_of objs) /\
  forall i j s t, (i < j)%nat -> sections_of objs !! i = Some s -> sections_of objs !! j = Some t -> lc_placed s = true -> lc_placed t = true ->
    (below s t \/ below t s) /\ (lc_kind s = lc_kind t -> below s t).
Proof.
  destruct (layout_spec base objects Hok Hbase Hroom) as (limit & Hl & H1 & H2). fold laid in H1, H2. exists limit. split; [done|].
  assert (Hz : Forall2 (linked_section base limit) (sections_of objects) (sections_of objs)).
  { apply Forall2_same_length_lookup. assert (Hlen : length (sections_of objects) = length (sections_of objs)) by (etrans; [by eapply Forall2_length|by eapply Forall2_length, relocated_sections]).
    split; [done|]. intros i s0 s Hs0 Hs. destruct (Forall2_lookup_r _ _ _ _ _ relocated_sections Hs) as (s1 & Hs1 & R1 & R2 & R3).
    pose proof (Forall2_lookup_lr _ _ _ _ _ _ H1 Hs0 Hs1) as Hp. pose proof (Forall_lookup_1 _ _ _ _ Hfresh Hs0) as Hf. cbn beta in Hf.
    pose proof R1 as (_ & _ & _ & Ra & Rz & _). unfold placed_in in Hp. unfold places. destruct (wanted_any link_order s0) eqn:Ew.
    - destruct Hp as (P1 & P2 & P3 & P4 & P5 & P6). unfold section_end in *. split; unfold section_end; rewrite ?R2, ?R3, ?Ra, ?Rz; try done; [by etrans|]. unfold places. by rewrite Ew.
    - subst s1. split; unfold places; rewrite ?Ew; try done. congruence. }
  split; [done|]. intros i j s t Hij Hs Ht Ps Pt.
  destruct (Forall2_lookup_r _ _ _ _ _ relocated_sections Hs) as (s1 & Hs1 & R1 & R2 & _). destruct (Forall2_lookup_r _ _ _ _ _ relocated_sections Ht) as (t1 & Ht1 & T1 & T2 & _).
  destruct (Forall2_lookup_r _ _ _ _ _ Hz Hs) as (s0 & _ & [Zs Zp _ _ _]). destruct (Forall2_lookup_r _ _ _ _ _ Hz Ht) as (t0 & _ & [Zt Zq _ _ _]).
  assert (Hps : places s1 = true) by (unfold places in *; rewrite <- (wanted_any_same _ _ _ R1), (wanted_any_same _ _ _ Zs); congruence).
  assert (Hpt : places t1 = true) by (unfold places in *; rewrite <- (wanted_any_same _ _ _ T1), (wanted_any_same _ _ _ Zt); congruence).
  destruct (H2 i j s1 t1 Hij Hs1 Ht1 Hps Hpt) as [B1 B2]. destruct R1 as (_ & K1 & _ & _ & Z1 & _). destruct T1 as (_ & K2 & _ & _ & Z2 & _).
  unfold below, section_end in *. rewrite R2, T2, Z1, Z2, K1, K2. done.
Qed.

(** The segment of a kind holds its sections. *)
Lemma merged k limit : 0 <= limit -> limit < 2 ^ 64 -> Forall2 (linked_section base limit) (sections_of objects) (sections_of objs) ->
  (forall i j s t, (i < j)%nat -> sections_of objs !! i = Some s -> sections_of objs !! j = Some t -> lc_placed s = true -> lc_placed t = true ->
    (below s t \/ below t s) /\ (lc_kind s = lc_kind t -> below s t)) ->
  let g := merge_segment objs k in
  segment_ok limit g /\ sg_nobits g = (k =? SEC_BSS) /\
  forall i s, sections_of objs !! i = Some s -> lc_kind s = k -> lc_placed s = true -> contains g s /\ sg_used g = true.
Proof.
  intros Hl0 Hl Hz Hord. cbn zeta. unfold merge_segment. fold (sections_of objs).
  set (P := fun s => lc_kind s = k /\ lc_placed s = true). change (filter _ (sections_of objs)) with (filter P (sections_of objs)).
  destruct (merge_spec limit Hl (filter P (sections_of objs)) (segment_start k)) as (M1 & M2 & M3 & M4).
  - split; cbn; try done; try lia. by destruct (k =? SEC_BSS).
  - apply Forall_forall. intros s [[Hk Hp] Hs]%list_elem_of_filter. apply list_elem_of_lookup in Hs as (i & Hs).
    destruct (Forall2_lookup_r _ _ _ _ _ Hz Hs) as (s0 & Hs0 & [Z1 Z2 Z3 Z4 _]). rewrite Hp in Z2. symmetry in Z2. specialize (Z3 Z2). specialize (Z4 Z2).
    destruct (Forall_lookup_1 _ _ _ _ Hok Hs0) as [O1 _ O4]. destruct Z1 as (_ & K & _ & _ & S & _ & D). unfold appendable. rewrite S in *. split; [lia|]. split; [lia|]. split; [done|].
    cbn. intros Hb. rewrite D, O4, <- K, Hk, Hb. done.
  - apply filter_sorted. intros i j s t Hij Hs Ht [Ks Ps] [Kt Pt]. apply (Hord i j s t Hij Hs Ht Ps Pt). congruence.
  - done.
  - split; [done|]. split; [by destruct M2 as (_ & _ & -> & _)|]. intros i s Hs Hk Hp.
    assert (Hin : s ∈ filter P (sections_of objs)) by (apply list_elem_of_filter; split; [done|by eapply list_elem_of_lookup_2]).
    split; [by eapply Forall_forall in M3|]. apply M4. intros E. rewrite E in Hin. by apply elem_of_nil in Hin.
Qed.
Lemma any_overlap_apart l : any_overlap l = false -> forall i j a c, (i < j)%nat -> l !! i = Some a -> l !! j = Some c -> sg_used a = true -> sg_used c = true -> segs_overlap a c = false.
Proof.
  induction l as [|x l IH]; intros H i j a c Hij Hi Hj Ha Hc; [done|]. cbn in H. apply orb_false_iff in H as [H1 H2]. destruct j as [|j]; [lia|].
  destruct i as [|i]; [|apply (IH H2 i j); try done; lia]. injection Hi as ->. rewrite Ha in H1. cbn in H1. cbn in Hj.
  destruct (segs_overlap a c) eqn:E; [|done]. exfalso. apply not_true_iff_false in H1. apply H1. apply existsb_exists. exists c. rewrite Hc, E. split; [|done].
  apply list_elem_of_In. by eapply list_elem_of_lookup_2.
Qed.

(** Segments that do not overlap are told apart by an address. *)
Lemma sorted_unique l limit a g g' : limit < 2 ^ 64 -> StronglySorted (fun a c => segs_overlap a c = false) l -> g ∈ l -> g' ∈ l ->
  segment_ok limit g -> segment_ok limit g' -> sg_vaddr g <= a < sg_vaddr g + sg_mem_size g -> sg_vaddr g' <= a < sg_vaddr g' + sg_mem_size g' -> g' = g.
Proof.
  intros Hl Hs Hg Hg' [? ? ? _ _] [? ? ? _ _] H1 H2.
  assert (Ho : segs_overlap g g' = true /\ segs_overlap g' g = true) by (unfold segs_overlap, u64; rewrite !Z.mod_small by lia; split; apply andb_true_iff; split; apply Z.ltb_lt; lia).
  destruct Ho as [O1 O2]. clear - Hs Hg Hg' O1 O2. induction Hs as [|x l _ IH Hx]; [by apply elem_of_nil in Hg|].
  rewrite Forall_forall in Hx. apply elem_of_cons in Hg as [->|Hg], Hg' as [->|Hg']; [done| | |by apply IH].
  - specialize (Hx _ Hg'). congruence.
  - specialize (Hx _ Hg). congruence.
Qed.

(** A byte of a placed section, in the executable. *)
Lemma linked_byte limit (Hlen : Z.of_nat (length file) < 2 ^ 64) : 0 <= limit -> limit < 2 ^ 64 ->
  Forall2 (linked_section base limit) (sections_of objects) (sections_of objs) ->
  (forall i j s t, (i < j)%nat -> sections_of objs !! i = Some s -> sections_of objs !! j = Some t -> lc_placed s = true -> lc_placed t = true ->
    (below s t \/ below t s) /\ (lc_kind s = lc_kind t -> below s t)) ->
  0 <= entry < 2 ^ 64 ->
  (mzx_magic (mzx_header file) = true /\ rd_u64 (mzx_header file) 8 = entry) /\
  forall i s j, sections_of objs !! i = Some s -> lc_placed s = true -> 0 <= j < lc_size s ->
    mzx_byte file (lc_vaddr s + j) = if lc_kind s =? SEC_BSS then Some 0 else byte_at (lc_data s) j.
Proof.
  intros Hl0 Hl Hz Hord He. destruct Hlink as [_ _ _ Hap Hf]. set (used := filter (fun g => sg_used g = true) (segments objs)) in *.
  assert (Hn : (length used <= 4)%nat) by (etrans; [apply length_filter|done]). rewrite Hf in Hlen.
  assert (Hseg : forall g, g ∈ used -> segment_ok limit g /\ sg_used g = true).
  { intros g [Hu Hg]%list_elem_of_filter. split; [|done]. unfold segments in Hg. apply list_elem_of_fmap in Hg as (k & -> & _). by apply (merged k limit). }
  assert (Hw : Forall segment_word used) by (apply Forall_forall; intros g Hg; destruct (Hseg g Hg) as [[] _]; split; lia).
  destruct (header_reads entry used He Hn) as (R1 & R2 & R3 & R4). rewrite <- Hf in R1, R2, R3, R4.
  split; [done|]. intros i s j Hs Hp Hj.
  destruct (Forall2_lookup_r _ _ _ _ _ Hz Hs) as (s0 & Hs0 & [Z1 Z2 _ _ _]). rewrite Hp in Z2. symmetry in Z2. apply places_iff in Z2 as [Hk _].
  destruct Z1 as (_ & K & _). rewrite <- K in Hk. destruct (merged (lc_kind s) limit Hl0 Hl Hz Hord) as (G1 & G2 & G3). set (g := merge_segment objs (lc_kind s)) in *.
  destruct (G3 i s Hs eq_refl Hp) as [[C1 [C2 C3]] Hu].
  assert (Hgu : g ∈ used) by (apply list_elem_of_filter; split; [done|]; apply list_elem_of_fmap; by exists (lc_kind s)).
  set (a := lc_vaddr s + j).
  assert (Hin : sg_vaddr g <= a < sg_vaddr g + sg_mem_size g) by (unfold section_end, a in *; lia).
  assert (Hs' : StronglySorted (fun a c => segs_overlap a c = false) used) by (apply filter_sorted; intros; by eapply any_overlap_apart).
  assert (Huniq : forall g', g' ∈ used -> sg_vaddr g' <= a < sg_vaddr g' + sg_mem_size g' -> g' = g).
  { intros g' Hg' I. destruct (Hseg g Hgu) as [O1 _]. destruct (Hseg g' Hg') as [O2 _]. by apply (sorted_unique used limit a). }
  rewrite Hf, (mzx_byte_of entry used He Hn Hlen g a Hw Hgu Hin Huniq). unfold segment_bytes. rewrite G2. destruct G1 as [_ _ _ _ Gd]. rewrite G2 in Gd, C3.
  destruct (lc_kind s =? SEC_BSS).
  - cbn [length]. destruct (Z.ltb_spec (a - sg_vaddr g) (Z.of_nat 0)); [lia|done].
  - rewrite Gd. destruct (Z.ltb_spec (a - sg_vaddr g) (sg_mem_size g)); [|lia]. rewrite <- (C3 eq_refl j Hj). f_equal. unfold a. lia.
Qed.
End Link.

(** ** The theorems *)

Lemma relocated_places objects globals o o' : relocated objects globals o o' -> same_places o o'.
Proof.
  intros [(H1 & H2 & _) H]. split; [done|]. split; [done|]. induction H as [|s s' l l' (_ & E & _) _ IH]; [done|]. cbn. by rewrite E, IH.
Qed.
Lemma laid_places entry_name base objects objs file globals entry : linked entry_name base objects objs file globals entry ->
  Forall2 same_places (layout base objects).2 objs /\ collect_globals objs 0 objs ∅ = Done globals.
Proof.
  intros [Hg Hr _ _ _]. assert (H : Forall2 same_places (layout base objects).2 objs) by (eapply Forall2_impl; [exact Hr|]; intros o o'; apply relocated_places).
  split; [done|]. by rewrite (collect_globals_places _ _ H _ _ H).
Qed.
Lemma entry_range objs globals name a : entry_address objs globals name = Done a -> 0 <= a < 2 ^ 64.
Proof.
  assert (Hu : forall z, 0 <= u64 z < 2 ^ 64) by (intros z; apply Z.mod_pos_bound; lia). unfold entry_address. destruct (globals !! name) as [d|].
  - intros (o & _ & H)%bind_done. apply bind_done in H as (y & _ & H). apply bind_done in H as (s & _ & H). injection H as <-. apply Hu.
  - destruct (local_entry name objs) as [x|] eqn:E; [|done]. intros [= ->]. induction objs as [|o l IH]; cbn in E; [done|]. destruct (find _ _) as [y|]; [|by apply IH].
    destruct (section_at o _); [|done]. injection E as <-. apply Hu.
Qed.
Lemma linked_section_wider base limit limit' s0 s : limit <= limit' -> linked_section base limit s0 s -> linked_section base limit' s0 s.
Proof. intros Hl [H1 H2 H3 H4 H5]. split; try done. intros H. specialize (H4 H). lia. Qed.

(** A linked section [s] of object [o]: the bytes outside the fields of its
    relocations are those of [s0], and a field that no later relocation
    touches holds what its symbol denotes, plus the addend. *)
Definition relocated_section (objs : list LdObject) (o : LdObject) (s0 s : LdSection) : Prop :=
  same_section s0 s /\ (forall i, Forall (outside i) (lc_relocs s0) -> byte_at (lc_data s) i = byte_at (lc_data s0) i) /\
  forall i rel, lc_relocs s0 !! i = Some rel -> (forall j rel', (i < j)%nat -> lc_relocs s0 !! j = Some rel' -> apart rel rel') ->
    exists addr, denotes objs o (r_symbol rel) addr /\ u64 (addr + r_addend rel) < 2 ^ (8 * Z.of_nat (reloc_width (r_type rel))) /\
      get_le (reloc_width (r_type rel)) (lc_data s) (r_offset rel) = Some (u64 (addr + r_addend rel)).

(** C27: a link that succeeds relocates every section of every object: a field
    that no later relocation touches holds the address its symbol denotes plus
    the addend, in the width of the relocation and without truncation, and all
    other bytes are those of the input.  A symbol denotes its own section's
    address plus its value, its absolute value, or the address of the one
    definition that any object exports under its name. *)
Theorem link_relocates entry_name base objects objs file : link entry_name base objects = Done (objs, file) ->
  Forall2 (fun o0 o => lo_symbols o = lo_symbols o0 /\ Forall2 (relocated_section objs o) (lo_sections o0) (lo_sections o)) objects objs.
Proof.
  intros (globals & entry & H)%link_steps. destruct (laid_places _ _ _ _ _ _ _ H) as [Hp _]. destruct H as [Hg Hr _ _ _].
  eapply Forall2_trans; [|exact (layout_kept base objects)|exact Hr]. cbn beta. intros o0 o1 o [(_ & E1 & _) K] Hro. pose proof (relocated_places _ _ _ _ Hro) as Hso.
  destruct Hro as [(_ & E2 & _) R]. split; [congruence|]. eapply Forall2_trans; [|exact K|exact R]. cbn beta. intros s0 s1 s [Hs Hd] (Hs' & _ & _ & Ha).
  apply apply_relocs_spec in Ha as (_ & A1 & A2). assert (El : lc_relocs s1 = lc_relocs s0) by (by destruct Hs as (_ & _ & _ & _ & _ & -> & _)). rewrite El, Hd in A1. rewrite El in A2.
  split; [by etrans|]. split; [done|]. intros i rel Hi Hap. destruct (A2 i rel Hi Hap) as (v & (addr & Hres & -> & Hv) & Hf). exists addr.
  split; [|done]. eapply denotes_places; [exact Hp|exact Hso|]. by eapply resolve_denotes.
Qed.

(** C28: the executable of a link that succeeds, for sections with as many
    bytes as their size says, alignments that are powers of two and an address
    space they fit in: every section with bytes or space has an aligned address
    of its own above the base, no two sections share an address, and the
    kernel's loader reads from the file a valid magic, the address of the entry
    symbol, and at each address of each section that section's byte, zero for
    bss. *)
Theorem link_image entry_name base objects objs file : link entry_name base objects = Done (objs, file) ->
  Forall section_ok (sections_of objects) -> Forall (fun s => lc_placed s = false) (sections_of objects) ->
  0 <= base -> base + total_room link_order (sections_of objects) < 2 ^ 64 -> Z.of_nat (length file) < 2 ^ 64 ->
  Forall2 (linked_section base (2 ^ 64 - 1)) (sections_of objects) (sections_of objs) /\
  (forall i j s t, i <> j -> sections_of objs !! i = Some s -> sections_of objs !! j = Some t -> lc_placed s = true -> lc_placed t = true -> below s t \/ below t s) /\
  mzx_magic (mzx_header file) = true /\
  (exists globals, collect_globals objs 0 objs ∅ = Done globals /\ entry_address objs globals entry_name = Done (rd_u64 (mzx_header file) 8)) /\
  (forall i s j, sections_of objs !! i = Some s -> lc_placed s = true -> 0 <= j < lc_size s ->
    mzx_byte file (lc_vaddr s + j) = if lc_kind s =? SEC_BSS then Some 0 else byte_at (lc_data s) j).
Proof.
  intros (globals & entry & H)%link_steps Hok Hfresh Hb Hr Hlen. destruct (linked_sections _ _ _ _ _ _ _ H Hok Hfresh Hb Hr) as (limit & Hl & Hz & Hord).
  assert (Hz' : Forall2 (linked_section base (Z.max 0 limit)) (sections_of objects) (sections_of objs)) by (eapply Forall2_impl; [exact Hz|]; intros s0 s; apply linked_section_wider; lia).
  destruct (linked_byte _ _ _ _ _ _ _ H Hok Hb (Z.max 0 limit) Hlen ltac:(lia) ltac:(lia) Hz' Hord (entry_range _ _ _ _ (lk_entry _ _ _ _ _ _ _ H))) as [[M1 M2] M3].
  split; [eapply Forall2_impl; [exact Hz|]; intros s0 s; apply linked_section_wider; lia|]. split.
  { intros i j s t Hij Hs Ht Ps Pt. destruct (Nat.lt_total i j) as [L|[?|L]]; [by apply (Hord i j s t)|done|]. destruct (Hord j i t s L Ht Hs Pt Ps) as [[?|?] _]; auto. }
  split; [done|]. split; [|done]. exists globals. destruct (laid_places _ _ _ _ _ _ _ H) as [_ ->]. split; [done|]. rewrite M2. by destruct H.
Qed.

(** * A link of two modules, and links that go wrong

    Two small mazm modules, written, read back and linked; the theorems about
    objects and links at them; and what mzld does with an exported absolute
    symbol and what mazm does with a small constant. *)

(** ** The modules *)

(** Eight bytes of code with a 32-bit reference to [msg] plus one at 2. *)
Definition main_module : mazm_state :=
  mk_mazm (fun a => if a <? 8 then a + 1 else 0) 8 [] SEC_CODE 0 {[ "_start" := 0; "msg" := no_address ]}
    [mk_obj_reloc 2 "msg" R_MAIZE_ABS32 1] [1; 1; 1; 1; 1] {[ "_start" ]} {[ "msg" ]} ∅.
(** Five bytes of constants with [msg] at the third, then five zeroed bytes at
    a multiple of eight. *)
Definition data_module : mazm_state :=
  mk_mazm (fun a => 0x41 + a) 10 [mk_span SEC_CODE 0 0; mk_span SEC_RODATA 0 5] SEC_BSS 5 {[ "msg" := 2; "buf" := 5 ]} [] [1; 1; 4; 1; 8] {[ "msg" ]} ∅ ∅.

Definition object_bytes (m : mazm_state) : list Z := match write_object m with inr f => f | inl _ => [] end.
Definition main_bytes : list Z := Eval vm_compute in object_bytes main_module.
Definition data_bytes : list Z := Eval vm_compute in object_bytes data_module.
Definition demo_objects : list LdObject := Eval vm_compute in
  match read_inputs [("a.mzo", Some main_bytes); ("b.mzo", Some data_bytes)] with Done l => l | _ => [] end.
Definition demo_link : list LdObject * list Z := Eval vm_compute in
  match link "_start" 0x2000 demo_objects with Done r => r | _ => ([], []) end.

Lemma demo_links : link "_start" 0x2000 demo_objects = Done (demo_link.1, demo_link.2).
Proof. by vm_compute. Qed.
Lemma demo_sections : Forall section_ok (sections_of demo_objects).
Proof.
  repeat constructor; try done; [exists 0|exists 2|exists 3]; done.
Qed.

Lemma mazm_object_parsed_witness : exists offs syms relocs, mazm_symbols main_module (sorted_labels main_module) offs = inr syms /\
  mazm_relocations main_module (sorted_labels main_module).*1 (mz_relocs main_module) = inr relocs /\
  parse_object_buf main_bytes "a.mzo" = Done (mk_ld_object "a.mzo" (mazm_section main_module relocs <$> present_kinds (closed_spans main_module)) (zip_with ld_symbol (sorted_labels main_module).*1 syms)).
Proof. apply (mazm_object_parsed main_module main_bytes "a.mzo"); [apply (bool_decide_unpack _); by vm_compute|by vm_compute|by vm_compute]. Defined.

(** The reference to [msg], at 0x2002 in the image, holds 0x200B: [msg] is the
    third byte of the constants at 0x2008. *)
Lemma link_relocates_witness : exists o0 o, demo_objects !! 0%nat = Some o0 /\ demo_link.1 !! 0%nat = Some o /\
  Forall2 (relocated_section demo_link.1 o) (lo_sections o0) (lo_sections o).
Proof.
  pose proof (link_relocates _ _ _ _ _ demo_links) as H. destruct (Forall2_lookup_l _ _ _ 0%nat _ H eq_refl) as (o & Ho & _ & Hs). by exists (default (mk_ld_object "" [] []) (demo_objects !! 0%nat)), o.
Defined.
Lemma link_image_witness : mzx_byte demo_link.2 0x2002 = Some 0x0B /\ rd_u64 (mzx_header demo_link.2) 8 = 0x2000.
Proof.
  destruct (link_image "_start" 0x2000 demo_objects demo_link.1 demo_link.2 demo_links demo_sections) as (_ & _ & _ & (g & Hg & He) & Hb);
    [repeat constructor; done|done|by vm_compute|by vm_compute|]. split.
  - destruct (sections_of demo_link.1 !! 0%nat) as [s|] eqn:E; [|done]. specialize (Hb 0%nat s 2 E). vm_compute in E. injection E as <-. exact (Hb eq_refl ltac:(cbn; lia)).
  - by vm_compute.
Defined.

(** ** A module of the second generation *)

Definition v2_source : string := String.concat newline
  [ "extern msg"; "global _start"; "section code"; "_start:"; "    jump msg"; "    return"; "section data"; "    data_word _start" ].
Definition v2_module : assembler := Eval vm_compute in default assembler_start (assemble_text no_files 1 assembler_start v2_source "m" "").
Lemma mzasm_object_parsed_witness : (exists m, parse_object_buf (serialize_object v2_module) "m.mzo" = Refused m) /\
  parse_object_buf (<[3%nat := MZO_VERSION]> (serialize_object v2_module)) "m.mzo" = Done (mk_ld_object "m.mzo" (mzasm_section v2_module <$> mzasm_present v2_module) (mzasm_symbols v2_module)).
Proof. apply (mzasm_object_parsed v2_module "m.mzo"); [apply (bool_decide_unpack _); by vm_compute|apply (bool_decide_unpack _); by vm_compute|by vm_compute]. Defined.
Lemma v2_module_assembles : a_diags v2_module = [] /\ mzasm_present v2_module = [SEC_CODE; SEC_DATA].
Proof. by vm_compute. Qed.

(** ** An exported absolute symbol *)

(** A reference from another object to a definition exported with no section
    indexes the section table of the defining object with 0xFFF0. *)
Theorem absolute_export_wild objects globals o index y d o' y' :
  lo_symbols o !! Z.to_nat index = Some y -> ls_section_index y = SHN_UNDEF -> globals !! ls_name y = Some d ->
  objects !! d.1 = Some o' -> lo_symbols o' !! d.2 = Some y' -> ls_section_index y' = SHN_ABS -> Z.of_nat (length (lo_sections o')) <= SHN_ABS ->
  resolve objects globals o index = Wild.
Proof.
  intros Hy Hu Hg Ho Hy' Ha Hl. unfold resolve, global_address. rewrite Hy, Hu, Hg. cbn. rewrite Ho. cbn. rewrite Hy'. cbn.
  unfold section_at. rewrite Ha, lookup_ge_None_2 by (unfold SHN_ABS in *; lia). done.
Qed.
(** mazm writes one for an exported LABEL constant beyond the image; here
    [limit] is 4096. *)
Definition constant_module (value : Z) : mazm_state :=
  mk_mazm (fun a => 0) 8 [] SEC_DATA 0 {[ "limit" := value ]} [] [1; 1; 1; 1; 1] {[ "limit" ]} ∅ ∅.
Definition user_module : mazm_state :=
  mk_mazm (fun a => 0) 8 [] SEC_CODE 0 {[ "_start" := 0; "limit" := no_address ]}
    [mk_obj_reloc 2 "limit" R_MAIZE_ABS32 0] [1; 1; 1; 1; 1] {[ "_start" ]} {[ "limit" ]} ∅.
Example absolute_export_link : mzld "_start" 0x2000 [("a.mzo", Some (object_bytes user_module)); ("b.mzo", Some (object_bytes (constant_module 4096)))] = Wild.
Proof. by vm_compute. Qed.
(** A smaller constant is taken for an address: [limit] is 4, and the
    reference to it holds 0x200C. *)
Example small_constant_moves : exists file,
  mzld "_start" 0x2000 [("a.mzo", Some (object_bytes user_module)); ("b.mzo", Some (object_bytes (constant_module 4)))] = Done file /\
  (mzx_byte file 0x2002, mzx_byte file 0x2003) = (Some 0x0C, Some 0x20).
Proof. eexists. split; [vm_compute; reflexivity|by vm_compute]. Qed.
(** The mark of a name without an address is a value that a constant can have:
    [limit] is 0xFFFFFFFF, and the object is refused. *)
Example largest_constant_refused : write_object (constant_module no_address) = inl ("cannot export undefined symbol " +:+ in_quotes "limit").
Proof. by vm_compute. Qed.
