(* ===== verification/V1Memory.v ===== *)
(** * Guest memory of the first-generation machine

    [memory_module] of maize_cpu.h and cpu.cpp: 4 KiB blocks allocated on
    first touch, the authoritative map from block bases to blocks, the
    direct-mapped cache of 8192 block pointers and the pointer to the last
    block used.  A block is reached from three places, so blocks live in a
    store of their own and the map, the cache slots and [cache] hold
    pointers.  The theorems say that the module is one flat byte memory over
    all 64-bit addresses: reads, which allocate and refill the cache, leave
    it unchanged, and writes change exactly the bytes written, across block
    boundaries and across the end of the address space. *)
From Stdlib Require Import ZArith Lia Bool.
From stdpp Require Import base list numbers gmap.
From S2P Require Import Prelude Monad State Memory Paging MemFacts.

Definition block_shift : Z := 12.
Definition block_size : Z := bit block_shift.
Definition block_mask : Z := block_size - 1.
Definition l1_count : Z := 8192.
Definition l1_mask : Z := l1_count - 1.

Record memory_module : Type := mk_mm {
  memory_map : gmap Z Z;       (* block base -> block pointer *)
  mm_blocks : gmap Z (Z -> Z); (* block pointer -> its bytes *)
  mm_next : Z;                 (* the next pointer new[] returns *)
  l1_ptr : gmap Z Z;           (* absent: nullptr *)
  l1_base : gmap Z Z;          (* absent: 0 *)
  cache_base : Z;
  mm_cache : option Z;         (* [cache]; None: nullptr *)
  highest_block_ : Z;
  any_block_ : bool
}.
Definition mm_reset : memory_module := mk_mm ∅ ∅ 0 ∅ ∅ (2 ^ 64 - 1) None 0 false.

Definition eta_mm (r : memory_module) :=
  mk_mm (memory_map r) (mm_blocks r) (mm_next r) (l1_ptr r) (l1_base r) (cache_base r) (mm_cache r) (highest_block_ r) (any_block_ r).
#[export] Instance set_memory_map : Setter memory_map. Proof. mk_setter eta_mm. Defined.
#[export] Instance set_mm_blocks : Setter mm_blocks. Proof. mk_setter eta_mm. Defined.
#[export] Instance set_mm_next : Setter mm_next. Proof. mk_setter eta_mm. Defined.
#[export] Instance set_l1_ptr : Setter l1_ptr. Proof. mk_setter eta_mm. Defined.
#[export] Instance set_l1_base : Setter l1_base. Proof. mk_setter eta_mm. Defined.
#[export] Instance set_cache_base : Setter cache_base. Proof. mk_setter eta_mm. Defined.
#[export] Instance set_mm_cache : Setter mm_cache. Proof. mk_setter eta_mm. Defined.
#[export] Instance set_highest_block : Setter highest_block_. Proof. mk_setter eta_mm. Defined.
#[export] Instance set_any_block : Setter any_block_. Proof. mk_setter eta_mm. Defined.

(** ** Resolving a block *)

Definition resolve_block_miss (m : memory_module) (base slot : Z) : memory_module :=
  let '(m1, blk) :=
    match memory_map m !! base with
    | Some p => (m, p)
    | None =>
        let p := mm_next m in
        let m1 := m <| mm_blocks := <[p := fun _ => 0]> (mm_blocks m) |> <| mm_next := p + 1 |>
                    <| memory_map := <[base := p]> (memory_map m) |> in
        (if negb (any_block_ m) || (highest_block_ m <? base)
         then m1 <| highest_block_ := base |> <| any_block_ := true |> else m1, p)
    end in
  m1 <| l1_base := <[slot := base]> (l1_base m1) |> <| l1_ptr := <[slot := blk]> (l1_ptr m1) |>
     <| mm_cache := Some blk |>.

(** The module with the block of [address] in [cache], and the bytes left in
    that block. *)
Definition set_cache_address (m : memory_module) (address : Z) : memory_module * Z :=
  let base := clr address block_mask in
  let m' :=
    if cache_base m =? base then m else
    let m1 := m <| cache_base := base |> in
    let slot := Z.land (Z.shiftr base block_shift) l1_mask in
    match l1_ptr m1 !! slot with
    | Some p => if default 0 (l1_base m1 !! slot) =? base then m1 <| mm_cache := Some p |>
                else resolve_block_miss m1 base slot
    | None => resolve_block_miss m1 base slot
    end in
  (m', block_size - Z.land address block_mask).

(** The bytes behind [cache], and the store of the low [n] bytes of [v] at an
    index of it. *)
Definition cache_bytes (m : memory_module) : Z -> Z :=
  match mm_cache m with Some p => default (fun _ => 0) (mm_blocks m !! p) | None => fun _ => 0 end.
Definition cache_store (m : memory_module) (n idx v : Z) : memory_module :=
  match mm_cache m with
  | Some p => m <| mm_blocks := <[p := store n (cache_bytes m) idx v]> (mm_blocks m) |>
  | None => m
  end.

(** ** Writes *)

Definition mm_write_byte (m : memory_module) (address v : Z) : memory_module :=
  let '(m1, rem) := set_cache_address m address in
  cache_store m1 1 (block_size - rem) v.

(** The byte loop of a store that crosses a block boundary: after each byte
    the block of the next address is resolved. *)
Fixpoint write_straddle (count : nat) (m : memory_module) (address idx v : Z) : memory_module :=
  match count with
  | O => m
  | S count' =>
      let m1 := cache_store m 1 idx (Z.land v 0xff) in
      let address' := u64 (address + 1) in
      let '(m2, rem) := set_cache_address m1 address' in
      write_straddle count' m2 address' (block_size - rem) (Z.shiftr v 8)
  end.
Definition mm_write_bytes (m : memory_module) (address v : Z) (count : Z) : memory_module :=
  let '(m1, rem) := set_cache_address m address in
  let idx := block_size - rem in
  if count <=? rem then cache_store m1 count idx v
  else write_straddle (Z.to_nat count) m1 address idx v.
Definition mm_write_qword (m : memory_module) (a v : Z) : memory_module := mm_write_bytes m a (u16 v) 2.
Definition mm_write_hword (m : memory_module) (a v : Z) : memory_module := mm_write_bytes m a (u32 v) 4.
Definition mm_write_word (m : memory_module) (a v : Z) : memory_module := mm_write_bytes m a (u64 v) 8.

(** ** Reads *)

(** [reg[i] = b] on the backing word. *)
Definition byte_ref_set (w i b : Z) : Z :=
  let mask := Z.shiftl 0xFF (i * 8) in Z.lor (clr w mask) (Z.land (Z.shiftl b (i * 8)) mask).

Fixpoint read_straddle (count : nat) (m : memory_module) (address idx reg dst_idx : Z) : memory_module * Z :=
  match count with
  | O => (m, reg)
  | S count' =>
      let reg' := byte_ref_set reg dst_idx (cache_bytes m idx) in
      let address' := u64 (address + 1) in
      let '(m1, rem) := set_cache_address m address' in
      read_straddle count' m1 address' (block_size - rem) reg' (dst_idx + 1)
  end.

(** [read(address, reg, count, dst_idx)] for [count] at most 8: the module
    and the new register word.  (A larger count shifts by more than the word,
    which the machine reports as undefined before it gets here.) *)
Definition mm_read (m : memory_module) (address reg count dst_idx : Z) : memory_module * Z :=
  let '(m1, rem) := set_cache_address m address in
  let idx := block_size - rem in
  if count <=? rem then
    let val := load (Z.to_nat count) (cache_bytes m1) idx in
    if (dst_idx =? 0) && (8 <=? count) then (m1, val) else
    let mask := Z.shiftl (bit (count * 8) - 1) (dst_idx * 8) in
    (m1, Z.lor (clr reg mask) (Z.land (Z.shiftl val (dst_idx * 8)) mask))
  else read_straddle (Z.to_nat count) m1 address idx reg dst_idx.

(** The reads into a vector. *)
Fixpoint read_vec_straddle (count : nat) (m : memory_module) (address idx : Z) : memory_module * list Z :=
  match count with
  | O => (m, [])
  | S count' =>
      let b := cache_bytes m idx in
      let address' := u64 (address + 1) in
      let '(m1, rem) := set_cache_address m address' in
      let '(m2, l) := read_vec_straddle count' m1 address' (block_size - rem) in
      (m2, b :: l)
  end.
Definition mm_read_vec (m : memory_module) (address count : Z) : memory_module * list Z :=
  if count =? 0 then (m, []) else
  let '(m1, rem) := set_cache_address m address in
  let idx := block_size - rem in
  if count <=? rem then (m1, cache_bytes m1 <$> seqZ idx count)
  else read_vec_straddle (Z.to_nat count) m1 address idx.

(** [read_into] and [write_from]: one copy per block.  Every pass moves at
    least one byte, so [count] passes are enough. *)
Fixpoint read_into_loop (fuel : nat) (m : memory_module) (address count : Z) : memory_module * list Z :=
  match fuel with
  | O => (m, [])
  | S fuel' =>
      if count =? 0 then (m, []) else
      let '(m1, rem) := set_cache_address m address in
      let n := if rem <? count then rem else count in
      let chunk := cache_bytes m1 <$> seqZ (block_size - rem) n in
      let '(m2, l) := read_into_loop fuel' m1 (u64 (address + n)) (count - n) in
      (m2, chunk ++ l)
  end.
Definition mm_read_into (m : memory_module) (address count : Z) : memory_module * list Z :=
  read_into_loop (Z.to_nat count) m address count.

Definition cache_copy (m : memory_module) (idx : Z) (l : list Z) : memory_module :=
  match mm_cache m with
  | Some p => m <| mm_blocks := <[p := mem_write (cache_bytes m) idx l]> (mm_blocks m) |>
  | None => m
  end.
Fixpoint write_from_loop (fuel : nat) (m : memory_module) (address : Z) (src : list Z) : memory_module :=
  match fuel with
  | O => m
  | S fuel' =>
      let count := Z.of_nat (length src) in
      if count =? 0 then m else
      let '(m1, rem) := set_cache_address m address in
      let n := if rem <? count then rem else count in
      let m2 := cache_copy m1 (block_size - rem) (take (Z.to_nat n) src) in
      write_from_loop fuel' m2 (u64 (address + n)) (drop (Z.to_nat n) src)
  end.
Definition mm_write_from (m : memory_module) (address : Z) (src : list Z) : memory_module :=
  write_from_loop (length src) m address src.

Definition mm_read_byte (m : memory_module) (address : Z) : memory_module * Z :=
  let '(m1, rem) := set_cache_address m address in (m1, cache_bytes m1 (block_size - rem)).
Definition last_block (m : memory_module) : Z := highest_block_ m.

(** ** The flat memory the module implements *)

(** [n] bytes from [a] on, little-endian, addresses modulo 2^64. *)
Fixpoint phys_load (n : nat) (m : mem) (a : Z) : Z :=
  match n with
  | O => 0
  | S n' => m a + 256 * phys_load n' m (u64 (a + 1))
  end.
Definition phys_store (n : Z) (m : mem) (a v : Z) : mem := fun x =>
  let k := u64 (x - a) in if k <? n then (v / 256 ^ k) mod 256 else m x.
Definition phys_write (m : mem) (a : Z) (l : list Z) : mem := fun x =>
  let k := u64 (x - a) in if k <? Z.of_nat (length l) then zget l k else m x.
Definition phys_bytes (m : mem) (a n : Z) : list Z := (fun i => m (u64 (a + i))) <$> seqZ 0 n.

Definition flat (m : memory_module) : mem := fun a =>
  match memory_map m !! page_of a with
  | Some p => default (fun _ => 0) (mm_blocks m !! p) (a mod block_size)
  | None => 0
  end.

(** The representation invariant. *)
Record mm_ok (m : memory_module) : Prop := {
  ok_keys : forall b p, memory_map m !! b = Some p -> aligned b /\ 0 <= b < 2 ^ 64 /\ p < mm_next m;
  ok_inj : forall b b' p, memory_map m !! b = Some p -> memory_map m !! b' = Some p -> b = b';
  ok_l1 : forall s p, l1_ptr m !! s = Some p -> memory_map m !! default 0 (l1_base m !! s) = Some p;
  ok_cache : cache_base m = 2 ^ 64 - 1 \/ exists p, memory_map m !! cache_base m = Some p /\ mm_cache m = Some p;
  ok_fresh : forall p f, mm_blocks m !! p = Some f -> p < mm_next m;
  ok_bytes : forall p f i, mm_blocks m !! p = Some f -> 0 <= f i < 256;
  ok_any : any_block_ m = false -> memory_map m = ∅;
  ok_highest : any_block_ m = true ->
    is_Some (memory_map m !! highest_block_ m) /\ forall b, is_Some (memory_map m !! b) -> b <= highest_block_ m
}.

(** [cache] holds the block of [a]. *)
Definition cached (m : memory_module) (a : Z) : Prop :=
  cache_base m = page_of a /\ exists p, memory_map m !! page_of a = Some p /\ mm_cache m = Some p.

(** Same memory, seen from outside. *)
Definition same_flat (m m' : memory_module) : Prop := forall x, flat m' x = flat m x.

(** ** Blocks and offsets *)

Lemma block_size_eq : block_size = PAGE_SIZE.
Proof. reflexivity. Qed.
Lemma block_base a : clr a block_mask = page_of a.
Proof. reflexivity. Qed.
Lemma block_rem a : block_size - (block_size - Z.land a block_mask) = a mod PAGE_SIZE.
Proof. rewrite <- offset_eq. change block_mask with 0xFFF. lia. Qed.

Lemma page_of_bound a : 0 <= a < 2 ^ 64 -> 0 <= page_of a < 2 ^ 64.
Proof.
  intros Ha. rewrite page_of_eq. pose proof (Z.mod_pos_bound a PAGE_SIZE). pose proof (Z.mod_le a PAGE_SIZE). plia.
Qed.
Lemma page_split a : a = page_of a + a mod PAGE_SIZE.
Proof. rewrite page_of_eq. lia. Qed.
Lemma page_of_in b i : aligned b -> 0 <= i < PAGE_SIZE -> page_of (b + i) = b /\ (b + i) mod PAGE_SIZE = i.
Proof.
  intros Hb Hi. rewrite <- (aligned_lor b i), page_of_lor by done. split; [done|].
  rewrite aligned_lor by done. unfold aligned in Hb. rewrite <- Z.add_mod_idemp_l, Hb by plia. by apply Z.mod_small.
Qed.
(** [x] lies in the block at [b] exactly when its page is [b]. *)
Lemma page_of_iff b x : aligned b -> page_of x = b <-> b <= x < b + PAGE_SIZE.
Proof.
  intros Hb. split.
  - intros <-. pose proof (page_split x). pose proof (Z.mod_pos_bound x PAGE_SIZE). plia.
  - intros Hx. replace x with (b + (x - b)) by lia. apply page_of_in; [done|lia].
Qed.

Lemma flat_block m b p i : memory_map m !! b = Some p -> aligned b -> 0 <= i < PAGE_SIZE ->
  flat m (b + i) = default (fun _ => 0) (mm_blocks m !! p) i.
Proof. intros Hp Hb Hi. unfold flat. change block_size with PAGE_SIZE. destruct (page_of_in b i Hb Hi) as [-> ->]. by rewrite Hp. Qed.

(** ** [set_cache_address] *)

Lemma mm_reset_ok : mm_ok mm_reset.
Proof. split; simpl; try done; try (by left). Qed.
Lemma mm_reset_flat a : flat mm_reset a = 0.
Proof. reflexivity. Qed.

(** Moving the cache pointer to a mapped block. *)
Lemma cache_move_ok m b p : mm_ok m -> memory_map m !! b = Some p ->
  mm_ok (m <| cache_base := b |> <| mm_cache := Some p |>).
Proof. intros [Hk Hi Hl Hc Hf Hb Ha Hh] Hp. split; simpl; eauto. Qed.
(** Filling a slot with a mapped block. *)
Lemma slot_fill_ok m s b p : mm_ok m -> memory_map m !! b = Some p ->
  mm_ok (m <| l1_base := <[s := b]> (l1_base m) |> <| l1_ptr := <[s := p]> (l1_ptr m) |>).
Proof.
  intros [Hk Hi Hl Hc Hf Hb Ha Hh] Hp. split; simpl; eauto. intros s' q. destruct (decide (s' = s)) as [->|Hs].
  - rewrite !lookup_insert_eq. intros [= <-]. done.
  - rewrite !lookup_insert_ne by done. apply Hl.
Qed.

(** The state after [new u_byte[block_size] {0}] and the map insertion. *)
Definition with_block (m : memory_module) (b : Z) : memory_module :=
  let p := mm_next m in
  let m1 := m <| mm_blocks := <[p := fun _ => 0]> (mm_blocks m) |> <| mm_next := p + 1 |>
              <| memory_map := <[b := p]> (memory_map m) |> in
  if negb (any_block_ m) || (highest_block_ m <? b) then m1 <| highest_block_ := b |> <| any_block_ := true |> else m1.

Lemma with_block_fields m b :
  memory_map (with_block m b) = <[b := mm_next m]> (memory_map m)
  /\ mm_blocks (with_block m b) = <[mm_next m := fun _ => 0]> (mm_blocks m)
  /\ mm_next (with_block m b) = mm_next m + 1
  /\ l1_ptr (with_block m b) = l1_ptr m /\ l1_base (with_block m b) = l1_base m
  /\ cache_base (with_block m b) = cache_base m /\ mm_cache (with_block m b) = mm_cache m.
Proof. unfold with_block. by destruct (negb (any_block_ m) || (highest_block_ m <? b)). Qed.

(** A new block is not under any base or pointer in use. *)
Lemma with_block_ok m b : mm_ok m -> aligned b -> 0 <= b < 2 ^ 64 -> memory_map m !! b = None -> mm_ok (with_block m b).
Proof.
  intros [Hk Hi Hl Hc Hf Hb Ha Hh] Hal Hbd Hnone.
  destruct (with_block_fields m b) as (Em & Eb & En & Ep & El & Ecb & Ec).
  assert (Hold : forall b' p, memory_map m !! b' = Some p -> b' <> b) by (intros b' p E ->; congruence).
  split; rewrite ?Em, ?Eb, ?En, ?Ep, ?El, ?Ecb, ?Ec.
  - intros b' p [[<- <-]|[? E]]%lookup_insert_Some; [split_and!; try done; lia|].
    destruct (Hk _ _ E) as (? & ? & ?). split_and!; try done; lia.
  - intros b1 b2 p [[<- <-]|[? E1]]%lookup_insert_Some [[<- E]|[? E2]]%lookup_insert_Some; try done.
    + destruct (Hk _ _ E2). lia.
    + destruct (Hk _ _ E1). lia.
    + eauto.
  - intros s p E. apply Hl in E. rewrite lookup_insert_ne; [done|]. intros ->. congruence.
  - destruct Hc as [Hc|(p & Hp & Hc)]; [by left|]. right. exists p.
    rewrite lookup_insert_ne by (intros ->; congruence). done.
  - intros p f [[<- <-]|[? E]]%lookup_insert_Some; [lia|]. apply Hf in E. lia.
  - intros p f i [[<- <-]|[? E]]%lookup_insert_Some; [lia|]. eauto.
  - unfold with_block. destruct (negb (any_block_ m) || (highest_block_ m <? b)) eqn:E; simpl; [done|].
    intros Hn. rewrite Hn in E. done.
  - unfold with_block. destruct (negb (any_block_ m) || (highest_block_ m <? b)) eqn:E; simpl.
    + intros _. rewrite lookup_insert_eq. split; [by eexists|]. intros b' [p [[<- <-]|[? E']]%lookup_insert_Some]; [done|].
      destruct (any_block_ m) eqn:Eany; [|by rewrite (Ha eq_refl), lookup_empty in E'].
      apply Z.ltb_lt in E. destruct (Hh eq_refl) as [_ Hmax]. specialize (Hmax b' ltac:(by eexists)). lia.
    + apply orb_false_iff in E as [Eany%negb_false_iff Elt%Z.ltb_ge]. intros _. destruct (Hh Eany) as [[p Hp] Hmax]. split.
      * rewrite lookup_insert_ne by (intros Eh; rewrite Eh in Hnone; congruence). by eexists.
      * intros b' [q [[<- <-]|[? E']]%lookup_insert_Some]; [done|]. apply Hmax. by eexists.
Qed.

Lemma with_block_flat m b : mm_ok m -> memory_map m !! b = None -> same_flat m (with_block m b).
Proof.
  intros Hm Hnone x. destruct (with_block_fields m b) as (Em & Eb & _). unfold flat. rewrite Em, Eb.
  destruct (decide (page_of x = b)) as [->|Hne].
  - rewrite lookup_insert_eq, Hnone. by rewrite lookup_insert_eq.
  - rewrite lookup_insert_ne by done. destruct (memory_map m !! page_of x) as [p|] eqn:E; [|done].
    rewrite lookup_insert_ne; [done|]. destruct (ok_keys m Hm _ _ E). lia.
Qed.

(** What [resolve_block_miss] is in those terms. *)
Lemma resolve_block_miss_eq m b s :
  resolve_block_miss m b s =
    let m1 := match memory_map m !! b with Some _ => m | None => with_block m b end in
    let p := default (mm_next m) (memory_map m !! b) in
    m1 <| l1_base := <[s := b]> (l1_base m1) |> <| l1_ptr := <[s := p]> (l1_ptr m1) |> <| mm_cache := Some p |>.
Proof. unfold resolve_block_miss, with_block. by destruct (memory_map m !! b). Qed.

Lemma cache_base_unused m a : mm_ok m -> cache_base m <> 2 ^ 64 - 1 \/ cache_base m <> page_of a.
Proof.
  intros _. destruct (decide (cache_base m = 2 ^ 64 - 1)) as [E|]; [right|by left]. rewrite E.
  intros Hp. pose proof (aligned_page_of a) as Hal. rewrite <- Hp in Hal. done.
Qed.

(** The block of [b] in the cache, for a base in and out of the map. *)
Lemma block_switch m b s p : mm_ok m -> memory_map m !! b = Some p ->
  let m' := m <| cache_base := b |> <| l1_base := <[s := b]> (l1_base m) |> <| l1_ptr := <[s := p]> (l1_ptr m) |>
              <| mm_cache := Some p |> in
  mm_ok m' /\ same_flat m m'.
Proof.
  intros Hm Hp. split; [|by intros x]. exact (slot_fill_ok _ s b p (cache_move_ok m b p Hm Hp) Hp).
Qed.

Lemma resolve_block_miss_spec m b s : mm_ok m -> aligned b -> 0 <= b < 2 ^ 64 ->
  let m' := resolve_block_miss (m <| cache_base := b |>) b s in
  mm_ok m' /\ cache_base m' = b /\ (exists p, memory_map m' !! b = Some p /\ mm_cache m' = Some p) /\ same_flat m m'.
Proof.
  intros Hm Hal Hb. unfold resolve_block_miss. simpl. destruct (memory_map m !! b) as [p|] eqn:Hp.
  - destruct (block_switch m b s p Hm Hp) as [Hok Hfl]. split_and!; [exact Hok|done|by exists p|exact Hfl].
  - pose proof (with_block_ok m b Hm Hal Hb Hp) as Hok. pose proof (with_block_flat m b Hm Hp) as Hfl.
    assert (Hin : memory_map (with_block m b) !! b = Some (mm_next m))
      by (destruct (with_block_fields m b) as (-> & _); apply lookup_insert_eq).
    destruct (block_switch (with_block m b) b s (mm_next m) Hok Hin) as [Hok' Hfl'].
    unfold with_block in *. destruct (negb (any_block_ m) || (highest_block_ m <? b)).
    all: split_and!; [exact Hok'|done|exists (mm_next m); split; [exact Hin|done]|].
    all: intros x; rewrite <- (Hfl x); apply (Hfl' x).
Qed.

(** After [set_cache_address] the block of the address is cached, the memory
    is the same and the invariant holds. *)
Lemma set_cache_address_spec m a : mm_ok m -> 0 <= a < 2 ^ 64 ->
  let r := set_cache_address m a in
  mm_ok r.1 /\ cached r.1 a /\ same_flat m r.1 /\ r.2 = PAGE_SIZE - a mod PAGE_SIZE.
Proof.
  intros Hm Ha. unfold set_cache_address. rewrite block_base. cbn [fst snd].
  assert (Hrem : block_size - Z.land a block_mask = PAGE_SIZE - a mod PAGE_SIZE) by (by rewrite <- offset_eq).
  destruct (Z.eqb_spec (cache_base m) (page_of a)) as [Ec|Ec].
  - destruct (ok_cache m Hm) as [E|Hc]; [destruct (cache_base_unused m a Hm); congruence|].
    rewrite Ec in Hc. by split_and!.
  - pose proof (resolve_block_miss_spec m (page_of a)
      (Z.land (Z.shiftr (page_of a) block_shift) l1_mask) Hm (aligned_page_of a) (page_of_bound a Ha)) as Hmiss.
    simpl in *. set (slot := Z.land _ l1_mask) in *. destruct (l1_ptr m !! slot) as [p|] eqn:Hp; [|destruct Hmiss as (? & ? & ? & ?); by split_and!].
    destruct (Z.eqb_spec (default 0 (l1_base m !! slot)) (page_of a)) as [Eb|Eb]; [|destruct Hmiss as (? & ? & ? & ?); by split_and!].
    assert (Hin : memory_map m !! page_of a = Some p) by (rewrite <- Eb; exact (ok_l1 m Hm _ _ Hp)).
    split_and!; [exact (cache_move_ok m _ p Hm Hin)|split; [done|by exists p]|by intros x|done].
Qed.

Lemma block_size_sub a : block_size - (PAGE_SIZE - a mod PAGE_SIZE) = a mod PAGE_SIZE.
Proof. change block_size with PAGE_SIZE. lia. Qed.

(** ** Access to the cached block *)

Lemma cached_bytes m a i : cached m a -> 0 <= i < PAGE_SIZE -> cache_bytes m i = flat m (page_of a + i).
Proof. intros (_ & p & Hp & Hc) Hi. unfold cache_bytes. rewrite Hc. symmetry. by apply flat_block. Qed.

(** A change of the bytes of the cached block alone. *)
Lemma cached_update m a (g : Z -> Z) p : mm_ok m -> mm_cache m = Some p -> memory_map m !! page_of a = Some p ->
  (forall i, 0 <= g i < 256) ->
  let m' := m <| mm_blocks := <[p := g]> (mm_blocks m) |> in
  mm_ok m' /\ forall x, flat m' x = if in_range (page_of a) PAGE_SIZE x then g (x mod PAGE_SIZE) else flat m x.
Proof.
  intros Hm Hc Hp Hg. split.
  - destruct Hm as [Hk Hi Hl Hc' Hf Hb Ha Hh]. split; simpl; try done.
    + intros q f [[<- <-]|[? E]]%lookup_insert_Some; [by apply Hk in Hp as (_ & _ & ?)|eauto].
    + intros q f i [[<- <-]|[? E]]%lookup_insert_Some; eauto.
  - intros x. unfold flat. simpl. change block_size with PAGE_SIZE. destruct (in_range _ _ x) eqn:E.
    + apply in_range_true, page_of_iff in E; [|done]. rewrite E, Hp. by rewrite lookup_insert_eq.
    + destruct (memory_map m !! page_of x) as [q|] eqn:Hq; [|done].
      rewrite lookup_insert_ne; [done|]. intros ->.
      pose proof (ok_inj m Hm _ _ _ Hp Hq) as Eq. apply in_range_false in E. apply E, page_of_iff; [done|]. by symmetry.
Qed.

Lemma block_room a : 0 <= a < 2 ^ 64 -> a + (PAGE_SIZE - a mod PAGE_SIZE) <= 2 ^ 64.
Proof.
  intros Ha. pose proof (page_split a). pose proof (page_of_bound a Ha). pose proof (aligned_page_of a) as Hal.
  unfold aligned in Hal. apply Z.mod_divide in Hal as [k Hk]; plia.
Qed.
(** The wrapped distance from the start of a range that does not wrap. *)
Lemma range_dist a n x : 0 <= a -> 0 <= n -> a + n <= 2 ^ 64 -> 0 <= x < 2 ^ 64 ->
  (u64 (x - a) <? n) = in_range a n x /\ (in_range a n x = true -> u64 (x - a) = x - a).
Proof.
  intros Ha H0 Hn Hx. unfold u64. destruct (in_range a n x) eqn:E.
  - apply in_range_true in E. rewrite Z.mod_small by lia. split; [apply Z.ltb_lt; lia|done].
  - apply in_range_false in E. split; [|done]. apply Z.ltb_ge. destruct (Z_lt_le_dec x a) as [Hlt|Hle].
    + replace (x - a) with (x - a + 2 ^ 64 + (-1) * 2 ^ 64) by lia. rewrite Z.mod_add, Z.mod_small by lia. lia.
    + rewrite Z.mod_small by lia. lia.
Qed.

(** A write of part of the cached block, given the bytes it leaves there. *)
Lemma cached_write m a n (g : Z -> Z) p (f : Z -> Z) : mm_ok m -> 0 <= a < 2 ^ 64 -> cached m a -> mm_cache m = Some p ->
  0 <= n <= PAGE_SIZE - a mod PAGE_SIZE ->
  (forall i, 0 <= g i < 256) ->
  (forall i, 0 <= i < PAGE_SIZE -> g i = if in_range (a mod PAGE_SIZE) n i then f (i - a mod PAGE_SIZE) else cache_bytes m i) ->
  let m' := m <| mm_blocks := <[p := g]> (mm_blocks m) |> in
  mm_ok m' /\ cached m' a /\
  forall x, 0 <= x < 2 ^ 64 -> flat m' x = if u64 (x - a) <? n then f (u64 (x - a)) else flat m x.
Proof.
  intros Hm Ha Hca Hc Hn Hg Hgi. pose proof Hca as (Hcb & q & Hq & Hcq). rewrite Hc in Hcq. injection Hcq as ->.
  destruct (cached_update m a g q Hm Hc Hq Hg) as [Hok Hfl]. split_and!; [done|split; [done|by exists q]|].
  intros x Hx. rewrite Hfl. pose proof (block_room a Ha). pose proof (page_split a) as Hsp.
  destruct (range_dist a n x) as [-> Hd]; [lia..|]. pose proof (Z.mod_pos_bound a PAGE_SIZE ltac:(plia)).
  destruct (in_range (page_of a) PAGE_SIZE x) eqn:E.
  - apply in_range_true in E. destruct (page_of_in (page_of a) (x - page_of a) (aligned_page_of a)) as [_ Hxm]; [lia|].
    replace (page_of a + (x - page_of a)) with x in Hxm by lia. rewrite Hgi, Hxm by (apply Z.mod_pos_bound; plia).
    destruct (in_range a n x) eqn:E2.
    + rewrite Hd by done. apply in_range_true in E2. rewrite (proj2 (in_range_true _ _ _)) by lia. f_equal. lia.
    + apply in_range_false in E2. rewrite (proj2 (in_range_false _ _ _)) by lia.
      rewrite (cached_bytes m a) by (done || lia). f_equal. lia.
  - destruct (in_range a n x) eqn:E2; [|done]. apply in_range_true in E2. apply in_range_false in E. lia.
Qed.

Lemma cache_bytes_byte m i : mm_ok m -> 0 <= cache_bytes m i < 256.
Proof.
  intros Hm. unfold cache_bytes. destruct (mm_cache m) as [p|]; [|lia].
  destruct (mm_blocks m !! p) as [f|] eqn:E; simpl; [exact (ok_bytes m Hm _ _ _ E)|lia].
Qed.

Lemma cache_store_spec m a n v : mm_ok m -> 0 <= a < 2 ^ 64 -> cached m a -> 0 <= n <= PAGE_SIZE - a mod PAGE_SIZE ->
  let m' := cache_store m n (a mod PAGE_SIZE) v in
  mm_ok m' /\ cached m' a /\ forall x, 0 <= x < 2 ^ 64 -> flat m' x = phys_store n (flat m) a v x.
Proof.
  intros Hm Ha Hca Hn. pose proof Hca as (_ & q & _ & Hc). unfold cache_store. rewrite Hc. cbv zeta.
  apply (cached_write m a n _ q (fun k => (v / 256 ^ k) mod 256)); try done.
  intros i. unfold store. destruct (in_range _ n i); [apply Z.mod_pos_bound; lia|by apply cache_bytes_byte].
Qed.

Lemma cache_copy_spec m a l : mm_ok m -> 0 <= a < 2 ^ 64 -> cached m a -> Forall (fun b => 0 <= b < 256) l ->
  Z.of_nat (length l) <= PAGE_SIZE - a mod PAGE_SIZE ->
  let m' := cache_copy m (a mod PAGE_SIZE) l in
  mm_ok m' /\ cached m' a /\ forall x, 0 <= x < 2 ^ 64 -> flat m' x = phys_write (flat m) a l x.
Proof.
  intros Hm Ha Hca Hl Hn. pose proof Hca as (_ & q & _ & Hc). unfold cache_copy. rewrite Hc. cbv zeta.
  apply (cached_write m a _ _ q (zget l)); try done; [lia|].
  intros i. unfold mem_write. destruct (in_range _ _ i); [|by apply cache_bytes_byte].
  unfold zget, zlookup. destruct (_ <? 0); simpl; [lia|]. destruct (l !! _) as [b|] eqn:E; simpl; [|lia].
  exact (Forall_lookup_1 _ _ _ _ Hl E).
Qed.

(** ** The flat operations byte by byte *)

Lemma u64_next x a : u64 (x - u64 (a + 1)) = u64 (u64 (x - a) - 1).
Proof.
  unfold u64. rewrite Zminus_mod_idemp_r, Zminus_mod_idemp_l. f_equal. lia.
Qed.
Lemma u64_bound x : 0 <= u64 x < 2 ^ 64.
Proof. unfold u64. apply Z.mod_pos_bound. lia. Qed.
(** Whether a byte is the first of a range of [n + 1], or one of the rest. *)
Lemma dist_next x a n : 0 <= n < 2 ^ 64 ->
  u64 (x - a) = 0 /\ (u64 (x - u64 (a + 1)) <? n) = false
  \/ 0 < u64 (x - a) /\ u64 (x - u64 (a + 1)) = u64 (x - a) - 1.
Proof.
  intros Hn. rewrite u64_next. pose proof (u64_bound (x - a)).
  destruct (decide (u64 (x - a) = 0)) as [->|]; [left|right].
  - split; [done|]. apply Z.ltb_ge. unfold u64. change ((0 - 1) mod 2 ^ 64) with (2 ^ 64 - 1). lia.
  - split; [lia|]. unfold u64 at 1. rewrite Z.mod_small by lia. done.
Qed.

Lemma phys_store_next n m a v x : 0 <= n < 2 ^ 64 ->
  phys_store (n + 1) m a v x = phys_store n (phys_store 1 m a (Z.land v 0xff)) (u64 (a + 1)) (Z.shiftr v 8) x.
Proof.
  intros Hn. unfold phys_store. change 0xff with (Z.ones 8). rewrite Z.land_ones, Z.shiftr_div_pow2 by lia.
  destruct (dist_next x a n Hn) as [[E ->]|[Hp ->]].
  - rewrite E. rewrite (proj2 (Z.ltb_lt 0 (n + 1))) by lia. simpl. rewrite !Z.div_1_r. by rewrite Z.mod_mod.
  - set (k := u64 (x - a)) in *. rewrite (proj2 (Z.ltb_ge k 1)) by lia.
    destruct (Z.ltb_spec k (n + 1)), (Z.ltb_spec (k - 1) n); try lia.
    f_equal. replace (256 ^ k) with (256 * 256 ^ (k - 1)) by (rewrite <- Z.pow_succ_r by lia; f_equal; lia).
    by rewrite <- Z.div_div by lia.
Qed.
Lemma phys_store_ext n m m' a v : (forall x, 0 <= x < 2 ^ 64 -> m x = m' x) ->
  forall x, 0 <= x < 2 ^ 64 -> phys_store n m a v x = phys_store n m' a v x.
Proof. intros H x Hx. unfold phys_store. destruct (_ <? n); [done|by apply H]. Qed.

Lemma phys_load_ext n m m' a : 0 <= a < 2 ^ 64 -> (forall x, 0 <= x < 2 ^ 64 -> m x = m' x) ->
  phys_load n m a = phys_load n m' a.
Proof.
  revert a. induction n as [|n IH]; intros a Ha H; [done|]. cbn [phys_load]. rewrite H by done.
  rewrite (IH (u64 (a + 1))); [done|apply u64_bound|done].
Qed.
(** Away from the end of the address space these are the plain operations. *)
Lemma phys_load_flat n m a : 0 <= a -> a + Z.of_nat n <= 2 ^ 64 -> phys_load n m a = load n m a.
Proof.
  revert a. induction n as [|n IH]; intros a Ha Hn; [done|]. cbn [phys_load load].
  destruct n as [|n]; [done|]. rewrite u64_small by lia. by rewrite IH by lia.
Qed.
Lemma phys_store_flat n m a v x : 0 <= a -> 0 <= n -> a + n <= 2 ^ 64 -> 0 <= x < 2 ^ 64 ->
  phys_store n m a v x = store n m a v x.
Proof.
  intros Ha H0 Hn Hx. unfold phys_store, store. destruct (range_dist a n x) as [-> Hd]; [lia..|].
  destruct (in_range a n x); [|done]. by rewrite Hd.
Qed.

(** ** Writes *)

Lemma write_straddle_spec n m a v : mm_ok m -> 0 <= a < 2 ^ 64 -> cached m a -> Z.of_nat n < 2 ^ 64 ->
  let m' := write_straddle n m a (a mod PAGE_SIZE) v in
  mm_ok m' /\ forall x, 0 <= x < 2 ^ 64 -> flat m' x = phys_store (Z.of_nat n) (flat m) a v x.
Proof.
  revert m a v. induction n as [|n IH]; intros m a v Hm Ha Hca Hn.
  - split; [done|]. intros x Hx. cbn [write_straddle]. unfold phys_store. pose proof (u64_bound (x - a)).
    by rewrite (proj2 (Z.ltb_ge _ _)) by lia.
  - cbn [write_straddle]. pose proof (Z.mod_pos_bound a PAGE_SIZE ltac:(plia)).
    destruct (cache_store_spec m a 1 (Z.land v 0xff) Hm Ha Hca) as (Hok1 & _ & Hfl1); [lia|].
    set (m1 := cache_store m 1 (a mod PAGE_SIZE) (Z.land v 0xff)) in *.
    destruct (set_cache_address_spec m1 (u64 (a + 1)) Hok1 (u64_bound _)) as (Hok2 & Hca2 & Hfl2 & Hrem).
    destruct (set_cache_address m1 (u64 (a + 1))) as [m2 rem]. simpl in *. rewrite Hrem, block_size_sub.
    destruct (IH m2 (u64 (a + 1)) (Z.shiftr v 8) Hok2 (u64_bound _) Hca2) as [Hok3 Hfl3]; [lia|].
    split; [done|]. intros x Hx. rewrite Hfl3 by done.
    replace (Z.of_nat (S n)) with (Z.of_nat n + 1) by lia. rewrite phys_store_next by lia.
    apply phys_store_ext; [|done]. intros y Hy. rewrite (Hfl2 y). by apply Hfl1.
Qed.

Lemma mm_write_bytes_spec m a v n : mm_ok m -> 0 <= a < 2 ^ 64 -> 0 <= n < 2 ^ 64 ->
  let m' := mm_write_bytes m a v n in
  mm_ok m' /\ forall x, 0 <= x < 2 ^ 64 -> flat m' x = phys_store n (flat m) a v x.
Proof.
  intros Hm Ha Hn. unfold mm_write_bytes.
  destruct (set_cache_address_spec m a Hm Ha) as (Hok1 & Hca1 & Hfl1 & Hrem).
  destruct (set_cache_address m a) as [m1 rem]. simpl in *. rewrite Hrem, block_size_sub.
  assert (Hext : forall x, 0 <= x < 2 ^ 64 -> phys_store n (flat m1) a v x = phys_store n (flat m) a v x)
    by (intros x Hx; apply phys_store_ext; [intros y _; apply Hfl1|done]).
  destruct (Z.leb_spec n (PAGE_SIZE - a mod PAGE_SIZE)) as [Hle|Hgt].
  - destruct (cache_store_spec m1 a n v Hok1 Ha Hca1) as (? & _ & Hfl2); [lia|]. split; [done|].
    intros x Hx. rewrite Hfl2 by done. by apply Hext.
  - destruct (write_straddle_spec (Z.to_nat n) m1 a v Hok1 Ha Hca1) as (? & Hfl2); [lia|]. split; [done|].
    intros x Hx. rewrite Hfl2 by done. rewrite Z2Nat.id by lia. by apply Hext.
Qed.

Lemma mm_write_byte_spec m a v : mm_ok m -> 0 <= a < 2 ^ 64 ->
  let m' := mm_write_byte m a v in
  mm_ok m' /\ forall x, 0 <= x < 2 ^ 64 -> flat m' x = phys_store 1 (flat m) a v x.
Proof.
  intros Hm Ha. unfold mm_write_byte.
  destruct (set_cache_address_spec m a Hm Ha) as (Hok1 & Hca1 & Hfl1 & Hrem).
  destruct (set_cache_address m a) as [m1 rem]. simpl in *. rewrite Hrem, block_size_sub.
  pose proof (Z.mod_pos_bound a PAGE_SIZE ltac:(plia)).
  destruct (cache_store_spec m1 a 1 v Hok1 Ha Hca1) as (? & _ & Hfl2); [lia|]. split; [done|].
  intros x Hx. rewrite Hfl2 by done. apply phys_store_ext; [intros y _; apply Hfl1|done].
Qed.

(** ** Reads *)

(** The register word with [count] bytes of [val] from byte [i] on. *)
Definition merge_bytes (reg val count i : Z) : Z :=
  let mask := Z.shiftl (bit (count * 8) - 1) (i * 8) in
  Z.lor (clr reg mask) (Z.land (Z.shiftl val (i * 8)) mask).

Lemma mask_bits count i k : 0 <= count -> 0 <= i -> 0 <= k ->
  Z.testbit (Z.shiftl (bit (count * 8) - 1) (i * 8)) k = (i * 8 <=? k) && (k <? (i + count) * 8).
Proof.
  intros Hc Hi Hk. unfold bit. rewrite Z.shiftl_1_l. replace (2 ^ (count * 8) - 1) with (Z.ones (count * 8)) by (rewrite Z.ones_equiv; lia).
  rewrite Z.shiftl_spec by lia. destruct (Z.leb_spec (i * 8) k).
  - rewrite Z.testbit_ones_nonneg by lia. destruct (Z.ltb_spec (k - i * 8) (count * 8)), (Z.ltb_spec k ((i + count) * 8)); done || lia.
  - by rewrite Z.testbit_neg_r by lia.
Qed.
Lemma merge_bytes_bits reg val count i k : 0 <= count -> 0 <= i -> 0 <= k ->
  Z.testbit (merge_bytes reg val count i) k =
    if (i * 8 <=? k) && (k <? (i + count) * 8) then Z.testbit val (k - i * 8) else Z.testbit reg k.
Proof.
  intros Hc Hi Hk. unfold merge_bytes, clr. rewrite Z.lor_spec, Z.ldiff_spec, Z.land_spec, mask_bits, Z.shiftl_spec by lia.
  destruct ((i * 8 <=? k) && (k <? (i + count) * 8)); simpl; rewrite ?andb_false_r, ?andb_true_r, ?orb_false_r, ?orb_false_l; done.
Qed.
Lemma byte_ref_set_eq w i b : byte_ref_set w i b = merge_bytes w b 1 i.
Proof. reflexivity. Qed.

(** The first byte, then the rest. *)
Lemma merge_bytes_next reg b v n i : 0 <= n -> 0 <= i -> 0 <= b < 256 ->
  merge_bytes reg (b + 256 * v) (n + 1) i = merge_bytes (merge_bytes reg b 1 i) v n (i + 1).
Proof.
  intros Hn Hi Hb. apply Z.bits_inj'. intros k Hk. rewrite !merge_bytes_bits by lia.
  replace (b + 256 * v) with (b + v * 2 ^ 8) by lia.
  destruct (Z.leb_spec ((i + 1) * 8) k), (Z.ltb_spec k ((i + 1 + n) * 8)), (Z.leb_spec (i * 8) k), (Z.ltb_spec k ((i + (n + 1)) * 8)), (Z.ltb_spec k ((i + 1) * 8));
    simpl; try lia; try done.
  - replace (k - i * 8) with ((k - (i + 1) * 8) + 8) by lia. rewrite <- Z.div_pow2_bits by lia.
    rewrite Z.div_add, (Z.div_small b) by lia. done.
  - rewrite <- (Z.mod_pow2_bits_low (b + v * 2 ^ 8) 8) by lia. rewrite Z.mod_add, Z.mod_small by lia. done.
Qed.

Lemma flat_byte m x : mm_ok m -> 0 <= flat m x < 256.
Proof.
  intros Hm. unfold flat. destruct (memory_map m !! _) as [p|]; [|lia].
  destruct (mm_blocks m !! p) as [f|] eqn:E; simpl; [exact (ok_bytes m Hm _ _ _ E)|lia].
Qed.
Lemma cached_byte m a : cached m a -> cache_bytes m (a mod PAGE_SIZE) = flat m a.
Proof.
  intros Hca. rewrite (cached_bytes m a) by (done || (apply Z.mod_pos_bound; plia)). by rewrite <- page_split.
Qed.

Lemma read_straddle_spec n m a reg i : mm_ok m -> 0 <= a < 2 ^ 64 -> cached m a -> 0 <= i ->
  let r := read_straddle n m a (a mod PAGE_SIZE) reg i in
  mm_ok r.1 /\ same_flat m r.1 /\ r.2 = merge_bytes reg (phys_load n (flat m) a) (Z.of_nat n) i.
Proof.
  revert m a reg i. induction n as [|n IH]; intros m a reg i Hm Ha Hca Hi.
  - cbn. split_and!; [done|by intros x|]. apply Z.bits_inj'. intros k Hk. rewrite merge_bytes_bits by lia.
    change (Z.of_nat 0) with 0. destruct (Z.leb_spec (i * 8) k), (Z.ltb_spec k ((i + 0) * 8)); simpl; done || lia.
  - cbn [read_straddle]. rewrite cached_byte, byte_ref_set_eq by done.
    destruct (set_cache_address_spec m (u64 (a + 1)) Hm (u64_bound _)) as (Hok1 & Hca1 & Hfl1 & Hrem).
    destruct (set_cache_address m (u64 (a + 1))) as [m1 rem]. simpl in *. rewrite Hrem, block_size_sub.
    specialize (IH m1 (u64 (a + 1)) (merge_bytes reg (flat m a) 1 i) (i + 1) Hok1 (u64_bound _) Hca1 ltac:(lia)).
    destruct (read_straddle n m1 _ _ _ _) as [m2 w]. simpl in *. destruct IH as (Hok2 & Hfl2 & ->).
    split_and!; [done|intros x; by rewrite (Hfl2 x)|].
    rewrite (phys_load_ext n (flat m1) (flat m)) by (apply u64_bound || (intros x _; apply Hfl1)).
    rewrite <- merge_bytes_next by (lia || by apply flat_byte). f_equal. lia.
Qed.

Lemma cached_load n m a : cached m a -> 0 <= a < 2 ^ 64 -> Z.of_nat n <= PAGE_SIZE - a mod PAGE_SIZE ->
  load n (cache_bytes m) (a mod PAGE_SIZE) = phys_load n (flat m) a.
Proof.
  intros Hca Ha Hn. pose proof (block_room a Ha). rewrite phys_load_flat by lia.
  pose proof (page_split a). pose proof (Z.mod_pos_bound a PAGE_SIZE ltac:(plia)).
  assert (Hsh : forall k b c, (forall j, 0 <= j < Z.of_nat k -> cache_bytes m (b + j) = flat m (c + j)) ->
    load k (cache_bytes m) b = load k (flat m) c).
  { induction k as [|k IH]; intros b c Hj; [done|]. cbn [load]. f_equal.
    - specialize (Hj 0). rewrite !Z.add_0_r in Hj. apply Hj. lia.
    - f_equal. apply IH. intros j Hj'. specialize (Hj (1 + j)). rewrite !Z.add_assoc in Hj. apply Hj. lia. }
  apply Hsh. intros j Hj. rewrite (cached_bytes m a) by (done || lia). f_equal. lia.
Qed.

Lemma phys_load_bound n m a : mem_bytes m -> 0 <= phys_load n m a < 256 ^ Z.of_nat n.
Proof.
  intros Hm. revert a. induction n as [|n IH]; intros a; [cbn; lia|]. cbn [phys_load].
  specialize (IH (u64 (a + 1))). specialize (Hm a). replace (Z.of_nat (S n)) with (Z.succ (Z.of_nat n)) by lia.
  rewrite Z.pow_succ_r by lia. lia.
Qed.

Lemma word_high_bits x k : 0 <= x < 2 ^ 64 -> 64 <= k -> Z.testbit x k = false.
Proof.
  intros Hx Hk. destruct (Z.eq_dec x 0) as [->|]; [apply Z.bits_0|]. apply Z.bits_above_log2; [lia|].
  apply (Z.lt_le_trans _ 64); [apply Z.log2_lt_pow2; lia|lia].
Qed.

Lemma mm_read_spec m a reg n i : mm_ok m -> 0 <= a < 2 ^ 64 -> 0 <= reg < 2 ^ 64 -> 0 <= n <= 8 -> 0 <= i ->
  let r := mm_read m a reg n i in
  mm_ok r.1 /\ same_flat m r.1 /\ r.2 = merge_bytes reg (phys_load (Z.to_nat n) (flat m) a) n i.
Proof.
  intros Hm Ha Hreg Hn Hi. unfold mm_read.
  destruct (set_cache_address_spec m a Hm Ha) as (Hok1 & Hca1 & Hfl1 & Hrem).
  destruct (set_cache_address m a) as [m1 rem]. simpl in *. rewrite Hrem, block_size_sub.
  assert (Hld : phys_load (Z.to_nat n) (flat m1) a = phys_load (Z.to_nat n) (flat m) a)
    by (apply phys_load_ext; [done|intros x _; apply Hfl1]).
  destruct (Z.leb_spec n (PAGE_SIZE - a mod PAGE_SIZE)) as [Hle|Hgt].
  - rewrite cached_load, Hld by (done || lia).
    destruct ((i =? 0) && (8 <=? n)) eqn:E; simpl; [|done]. split_and!; try done.
    apply andb_true_iff in E as [->%Z.eqb_eq E%Z.leb_le]. replace n with 8 in * by lia.
    assert (Hb : mem_bytes (flat m)) by (intros x; by apply flat_byte).
    apply Z.bits_inj'. intros k Hk. rewrite merge_bytes_bits by lia. rewrite Z.sub_0_r.
    destruct (Z.leb_spec (0 * 8) k), (Z.ltb_spec k ((0 + 8) * 8)); cbn [andb]; try lia; [done|].
    pose proof (phys_load_bound (Z.to_nat 8) (flat m) a Hb) as Hv. change (256 ^ Z.of_nat (Z.to_nat 8)) with (2 ^ 64) in Hv.
    by rewrite !(word_high_bits _ k) by lia.
  - destruct (read_straddle_spec (Z.to_nat n) m1 a reg i Hok1 Ha Hca1 Hi) as (? & Hfl2 & ->).
    split_and!; [done|intros x; by rewrite (Hfl2 x)|]. by rewrite Hld, Z2Nat.id by lia.
Qed.

(** ** Vectors and bulk copies *)

Lemma phys_bytes_app m a n k : 0 <= n -> 0 <= k ->
  phys_bytes m a (n + k) = phys_bytes m a n ++ phys_bytes m (u64 (a + n)) k.
Proof.
  intros Hn Hk. unfold phys_bytes. rewrite seqZ_app, fmap_app by lia. f_equal.
  replace (0 + n) with (n + 0) by lia. rewrite <- (fmap_add_seqZ n 0 k), <- list_fmap_compose.
  apply list_fmap_ext. intros j x _. simpl. f_equal. unfold u64. rewrite Zplus_mod_idemp_l. f_equal. lia.
Qed.
Lemma phys_bytes_ext m m' a n : (forall x, m x = m' x) -> phys_bytes m a n = phys_bytes m' a n.
Proof. intros H. apply list_fmap_ext. intros; apply H. Qed.
Lemma cached_chunk m a n : cached m a -> 0 <= a < 2 ^ 64 -> 0 <= n <= PAGE_SIZE - a mod PAGE_SIZE ->
  cache_bytes m <$> seqZ (a mod PAGE_SIZE) n = phys_bytes (flat m) a n.
Proof.
  intros Hca Ha Hn. unfold phys_bytes. replace (seqZ (a mod PAGE_SIZE) n) with (seqZ (a mod PAGE_SIZE + 0) n) by (f_equal; lia).
  rewrite <- (fmap_add_seqZ (a mod PAGE_SIZE) 0 n), <- list_fmap_compose. apply list_fmap_ext. intros j x Hx. simpl.
  apply lookup_seqZ in Hx as [-> Hj]. pose proof (block_room a Ha). pose proof (page_split a).
  pose proof (Z.mod_pos_bound a PAGE_SIZE ltac:(plia)).
  rewrite u64_small by lia. rewrite (cached_bytes m a) by (done || lia). f_equal. lia.
Qed.

Lemma read_into_spec fuel m a n : mm_ok m -> 0 <= a < 2 ^ 64 -> 0 <= n <= Z.of_nat fuel ->
  let r := read_into_loop fuel m a n in
  mm_ok r.1 /\ same_flat m r.1 /\ r.2 = phys_bytes (flat m) a n.
Proof.
  revert m a n. induction fuel as [|fuel IH]; intros m a n Hm Ha Hn.
  - replace n with 0 by lia. done.
  - cbn [read_into_loop]. destruct (Z.eqb_spec n 0) as [->|Hn0]; [done|].
    destruct (set_cache_address_spec m a Hm Ha) as (Hok1 & Hca1 & Hfl1 & Hrem).
    destruct (set_cache_address m a) as [m1 rem]. simpl in *. rewrite Hrem, block_size_sub.
    pose proof (Z.mod_pos_bound a PAGE_SIZE ltac:(plia)). set (r := PAGE_SIZE - a mod PAGE_SIZE) in *.
    set (k := if r <? n then r else n). assert (Hk : 0 < k <= n /\ k <= r) by (unfold k; destruct (Z.ltb_spec r n); lia).
    specialize (IH m1 (u64 (a + k)) (n - k) Hok1 (u64_bound _) ltac:(lia)).
    destruct (read_into_loop fuel m1 (u64 (a + k)) (n - k)) as [m2 l]. simpl in *. destruct IH as (Hok2 & Hfl2 & ->).
    split_and!; [done|intros x; by rewrite (Hfl2 x)|].
    rewrite cached_chunk by (done || lia). rewrite !(phys_bytes_ext (flat m1) (flat m)) by done.
    rewrite <- phys_bytes_app by lia. f_equal. lia.
Qed.

Lemma read_vec_straddle_spec n m a : mm_ok m -> 0 <= a < 2 ^ 64 -> cached m a ->
  let r := read_vec_straddle n m a (a mod PAGE_SIZE) in
  mm_ok r.1 /\ same_flat m r.1 /\ r.2 = phys_bytes (flat m) a (Z.of_nat n).
Proof.
  revert m a. induction n as [|n IH]; intros m a Hm Ha Hca; [done|]. cbn [read_vec_straddle]. rewrite cached_byte by done.
  destruct (set_cache_address_spec m (u64 (a + 1)) Hm (u64_bound _)) as (Hok1 & Hca1 & Hfl1 & Hrem).
  destruct (set_cache_address m (u64 (a + 1))) as [m1 rem]. simpl in *. rewrite Hrem, block_size_sub.
  specialize (IH m1 (u64 (a + 1)) Hok1 (u64_bound _) Hca1). destruct (read_vec_straddle n m1 _ _) as [m2 l].
  simpl in *. destruct IH as (Hok2 & Hfl2 & ->). split_and!; [done|intros x; by rewrite (Hfl2 x)|].
  replace (Z.of_nat (S n)) with (1 + Z.of_nat n) by lia. rewrite phys_bytes_app by lia.
  rewrite (phys_bytes_ext (flat m1) (flat m)) by done. unfold phys_bytes at 2. change (seqZ 0 1) with [0]. simpl.
  by rewrite Z.add_0_r, (u64_small a) by done.
Qed.

Lemma mm_read_vec_spec m a n : mm_ok m -> 0 <= a < 2 ^ 64 -> 0 <= n ->
  let r := mm_read_vec m a n in
  mm_ok r.1 /\ same_flat m r.1 /\ r.2 = phys_bytes (flat m) a n.
Proof.
  intros Hm Ha Hn. unfold mm_read_vec. destruct (Z.eqb_spec n 0) as [->|Hn0]; [done|].
  destruct (set_cache_address_spec m a Hm Ha) as (Hok1 & Hca1 & Hfl1 & Hrem).
  destruct (set_cache_address m a) as [m1 rem]. simpl in *. rewrite Hrem, block_size_sub.
  destruct (Z.leb_spec n (PAGE_SIZE - a mod PAGE_SIZE)).
  - simpl. split_and!; [done..|]. rewrite cached_chunk by (done || lia). by apply phys_bytes_ext.
  - destruct (read_vec_straddle_spec (Z.to_nat n) m1 a Hok1 Ha Hca1) as (? & Hfl2 & ->).
    split_and!; [done|intros x; by rewrite (Hfl2 x)|]. rewrite Z2Nat.id by lia. by apply phys_bytes_ext.
Qed.

Lemma phys_write_app m a l1 l2 x : Z.of_nat (length (l1 ++ l2)) < 2 ^ 64 ->
  phys_write (phys_write m a l1) (u64 (a + Z.of_nat (length l1))) l2 x = phys_write m a (l1 ++ l2) x.
Proof.
  rewrite length_app. intros Hl. unfold phys_write. rewrite length_app.
  set (n1 := Z.of_nat (length l1)) in *. set (k := u64 (x - a)).
  assert (E : u64 (x - u64 (a + n1)) = u64 (k - n1)).
  { unfold k, u64. rewrite Zminus_mod_idemp_r, Zminus_mod_idemp_l. f_equal. lia. }
  rewrite E. pose proof (u64_bound (x - a)). fold k in H. unfold u64. destruct (Z_lt_le_dec k n1) as [Hlt|Hge].
  - replace (k - n1) with (k - n1 + 2 ^ 64 + (-1) * 2 ^ 64) by lia. rewrite Z.mod_add, Z.mod_small by lia.
    rewrite (proj2 (Z.ltb_ge _ _)), (proj2 (Z.ltb_lt k n1)), (proj2 (Z.ltb_lt k _)) by lia.
    unfold zget, zlookup. rewrite (proj2 (Z.ltb_ge k 0)) by lia. by rewrite lookup_app_l by lia.
  - rewrite Z.mod_small by lia. rewrite (proj2 (Z.ltb_ge k n1)) by lia.
    destruct (Z.ltb_spec (k - n1) (Z.of_nat (length l2))).
    + rewrite (proj2 (Z.ltb_lt k _)) by lia. unfold zget, zlookup. rewrite !(proj2 (Z.ltb_ge _ 0)) by lia.
      rewrite lookup_app_r by lia. do 2 f_equal. lia.
    + rewrite (proj2 (Z.ltb_ge k _)) by lia. done.
Qed.

Lemma phys_write_ext m m' a l x : m x = m' x -> phys_write m a l x = phys_write m' a l x.
Proof. intros H. unfold phys_write. by destruct (_ <? _). Qed.

Lemma write_from_spec fuel m a l : mm_ok m -> 0 <= a < 2 ^ 64 -> Forall (fun b => 0 <= b < 256) l ->
  (length l <= fuel)%nat -> Z.of_nat (length l) < 2 ^ 64 ->
  let m' := write_from_loop fuel m a l in
  mm_ok m' /\ forall x, 0 <= x < 2 ^ 64 -> flat m' x = phys_write (flat m) a l x.
Proof.
  assert (Hnil : forall m a x, phys_write (flat m) a [] x = flat m x).
  { intros m' a' x. unfold phys_write. pose proof (u64_bound (x - a')). change (Z.of_nat (length [])) with 0. by destruct (Z.ltb_spec (u64 (x - a')) 0); [lia|]. }
  revert m a l. induction fuel as [|fuel IH]; intros m a l Hm Ha Hl Hf Hlen.
  - destruct l; [|simpl in Hf; lia]. split; [done|]. intros x Hx. by rewrite Hnil.
  - cbn [write_from_loop]. destruct (Z.eqb_spec (Z.of_nat (length l)) 0) as [E|Hn0].
    { destruct l; [|simpl in E; lia]. split; [done|]. intros x Hx. by rewrite Hnil. }
    destruct (set_cache_address_spec m a Hm Ha) as (Hok1 & Hca1 & Hfl1 & Hrem).
    destruct (set_cache_address m a) as [m1 rem]. simpl in *. rewrite Hrem, block_size_sub.
    pose proof (Z.mod_pos_bound a PAGE_SIZE ltac:(plia)). set (r := PAGE_SIZE - a mod PAGE_SIZE) in *.
    set (k := if r <? Z.of_nat (length l) then r else Z.of_nat (length l)).
    assert (Hk : 0 < k <= Z.of_nat (length l) /\ k <= r) by (unfold k; destruct (Z.ltb_spec r (Z.of_nat (length l))); lia).
    assert (Hlk : Z.of_nat (length (take (Z.to_nat k) l)) = k) by (rewrite length_take; lia).
    destruct (cache_copy_spec m1 a (take (Z.to_nat k) l) Hok1 Ha Hca1) as (Hok2 & _ & Hfl2); [by apply Forall_take|lia|].
    destruct (IH (cache_copy m1 (a mod PAGE_SIZE) (take (Z.to_nat k) l)) (u64 (a + k)) (drop (Z.to_nat k) l)) as [Hok3 Hfl3];
      [done|apply u64_bound|by apply Forall_drop|rewrite length_drop; lia|rewrite length_drop; lia|].
    split; [done|]. intros x Hx. rewrite Hfl3 by done.
    assert (El : phys_write (flat m) a l x = phys_write (flat m) a (take (Z.to_nat k) l ++ drop (Z.to_nat k) l) x)
      by (by rewrite take_drop). rewrite El.
    rewrite <- phys_write_app by (rewrite take_drop; done). rewrite Hlk.
    apply phys_write_ext. rewrite Hfl2 by done. apply phys_write_ext, Hfl1.
Qed.

(** Which kind of access, for the summary. *)
Inductive mm_op : Type :=
  | OpWrite (a v n : Z) | OpWriteFrom (a : Z) (l : list Z)
  | OpRead (a n : Z) | OpReadVec (a n : Z) | OpReadInto (a n : Z).

Definition mm_op_ok (o : mm_op) : Prop :=
  match o with
  | OpWrite a _ n => 0 <= a < 2 ^ 64 /\ 0 <= n <= 8
  | OpWriteFrom a l => 0 <= a < 2 ^ 64 /\ Forall (fun b => 0 <= b < 256) l /\ Z.of_nat (length l) < 2 ^ 64
  | OpRead a n => 0 <= a < 2 ^ 64 /\ 0 <= n <= 8
  | OpReadVec a n | OpReadInto a n => 0 <= a < 2 ^ 64 /\ 0 <= n
  end.

(** The operation on the module, with what it returns as bytes. *)
Definition mm_do (o : mm_op) (m : memory_module) : memory_module * list Z :=
  match o with
  | OpWrite a v n => (mm_write_bytes m a v n, [])
  | OpWriteFrom a l => (mm_write_from m a l, [])
  | OpRead a n => let '(m', v) := mm_read m a 0 n 0 in (m', [v])
  | OpReadVec a n => mm_read_vec m a n
  | OpReadInto a n => mm_read_into m a n
  end.
(** The operation on a flat memory. *)
Definition flat_do (o : mm_op) (m : mem) : mem * list Z :=
  match o with
  | OpWrite a v n => (phys_store n m a v, [])
  | OpWriteFrom a l => (phys_write m a l, [])
  | OpRead a n => (m, [phys_load (Z.to_nat n) m a])
  | OpReadVec a n => (m, phys_bytes m a n)
  | OpReadInto a n => (m, phys_bytes m a n)
  end.
Fixpoint mm_run (l : list mm_op) (m : memory_module) : memory_module * list (list Z) :=
  match l with
  | [] => (m, [])
  | o :: l' => let '(m1, r) := mm_do o m in let '(m2, rs) := mm_run l' m1 in (m2, r :: rs)
  end.
Fixpoint flat_run (l : list mm_op) (m : mem) : mem * list (list Z) :=
  match l with
  | [] => (m, [])
  | o :: l' => let '(m1, r) := flat_do o m in let '(m2, rs) := flat_run l' m1 in (m2, r :: rs)
  end.

Definition agrees (m : memory_module) (f : mem) : Prop := mm_ok m /\ forall x, 0 <= x < 2 ^ 64 -> flat m x = f x.

Lemma merge_bytes_0 v n : 0 <= n -> 0 <= v < 2 ^ (n * 8) -> merge_bytes 0 v n 0 = v.
Proof.
  intros Hn Hv. unfold merge_bytes, clr, bit. rewrite Z.ldiff_0_l, Z.lor_0_l, !Z.shiftl_0_r, Z.shiftl_1_l.
  replace (2 ^ (n * 8) - 1) with (Z.ones (n * 8)) by (rewrite Z.ones_equiv; lia).
  rewrite Z.land_ones by lia. by apply Z.mod_small.
Qed.

Lemma mm_do_agrees o m f : mm_op_ok o -> agrees m f ->
  (mm_do o m).2 = (flat_do o f).2 /\ agrees (mm_do o m).1 (flat_do o f).1.
Proof.
  intros Ho [Hm Hf].
  assert (Hby : forall a n, phys_bytes (flat m) a n = phys_bytes f a n)
    by (intros a n; apply list_fmap_ext; intros i x _; apply Hf, u64_bound).
  destruct o as [a v n|a l|a n|a n|a n]; simpl in *.
  - destruct Ho as [Ha Hn]. destruct (mm_write_bytes_spec m a v n Hm Ha) as [Hok Hfl]; [lia|]. split; [done|].
    split; [done|]. intros x Hx. rewrite Hfl by done. by apply phys_store_ext.
  - destruct Ho as (Ha & Hl & Hlen). destruct (write_from_spec (length l) m a l Hm Ha Hl) as [Hok Hfl]; [done..|].
    split; [done|]. split; [done|]. intros x Hx. unfold mm_write_from. rewrite Hfl by done.
    by apply phys_write_ext, Hf.
  - destruct Ho as [Ha Hn]. destruct (mm_read_spec m a 0 n 0 Hm Ha) as (Hok & Hfl & E); [lia..|].
    destruct (mm_read m a 0 n 0) as [m' w]. simpl in *. subst w. split.
    + rewrite <- (phys_load_ext (Z.to_nat n) (flat m) f a Ha Hf). rewrite merge_bytes_0; [done|lia|].
      pose proof (phys_load_bound (Z.to_nat n) (flat m) a (fun x => flat_byte m x Hm)) as Hb.
      rewrite Z2Nat.id in Hb by lia. change 256 with (2 ^ 8) in Hb. rewrite <- Z.pow_mul_r in Hb by lia.
      by rewrite Z.mul_comm.
    + split; [done|]. intros x Hx. rewrite (Hfl x). by apply Hf.
  - destruct Ho as [Ha Hn]. destruct (mm_read_vec_spec m a n Hm Ha Hn) as (Hok & Hfl & E).
    destruct (mm_read_vec m a n) as [m' r]. simpl in *. subst r. split; [done|]. split; [done|].
    intros x Hx. rewrite (Hfl x). by apply Hf.
  - destruct Ho as [Ha Hn]. destruct (read_into_spec (Z.to_nat n) m a n Hm Ha) as (Hok & Hfl & E); [lia|].
    unfold mm_read_into. destruct (read_into_loop (Z.to_nat n) m a n) as [m' r]. simpl in *. subst r. split; [done|].
    split; [done|]. intros x Hx. rewrite (Hfl x). by apply Hf.
Qed.

(** [last_block] is the highest block ever touched. *)
Lemma last_block_highest m : mm_ok m -> any_block_ m = true ->
  is_Some (memory_map m !! last_block m) /\ forall b, is_Some (memory_map m !! b) -> b <= last_block m.
Proof. exact (ok_highest m). Qed.

(** C13: from power-on, any sequence of reads and writes through the block map and
    its caches returns what a flat, zero-filled memory of 2^64 bytes returns,
    and leaves the module standing for the memory the writes produce. *)
Theorem memory_module_refines_flat l : Forall mm_op_ok l ->
  (mm_run l mm_reset).2 = (flat_run l (fun _ => 0)).2 /\ agrees (mm_run l mm_reset).1 (flat_run l (fun _ => 0)).1.
Proof.
  intros Hl. assert (Hag : agrees mm_reset (fun _ => 0)) by (split; [exact mm_reset_ok|done]).
  revert Hag. generalize mm_reset, ((fun _ => 0) : mem). induction Hl as [|o l Ho Hl IH]; intros m f Hag; [done|].
  simpl. destruct (mm_do_agrees o m f Ho Hag) as [Er Hag1].
  destruct (mm_do o m) as [m1 r], (flat_do o f) as [f1 r']. simpl in *. subst r'.
  destruct (IH m1 f1 Hag1) as [Ers Hag2].
  destruct (mm_run l m1) as [m2 rs], (flat_run l f1) as [f2 rs']. simpl in *. by subst.
Qed.
