(* ===== verification/V1Alu.v ===== *)
(** * Subregisters, lazy flags and the ALU of the first-generation machine

    The tables and bit operations on subregisters (maize_cpu.h, cpu.cpp), the
    deferred flag descriptor with [materialize_flags], the condition table,
    [run_alu] over the staging bank and the in-place [alu_*] functions.  The
    source writes each ALU case out for the widths 1, 2, 4 and 8; here the
    width is an argument and [trunc w] is the cast to the [w]-byte type. *)
From Stdlib Require Import ZArith Lia Bool.
From stdpp Require Import base list numbers.
From S2P Require Import Prelude State.

(** ** Subregisters

    A subregister is its 4-bit encoding, b0..b7, q0..q3, h0, h1, w0; 15 is
    undefined and has the tables' value-initialized entry. *)
Definition sr_b0 : Z := 0.
Definition sr_q0 : Z := 8.
Definition sr_h0 : Z := 12.
Definition sr_w0 : Z := 14.

Definition subreg_size_map (sr : Z) : Z := zget [1;1;1;1;1;1;1;1;2;2;2;2;4;4;8] sr.
Definition subreg_offset_map (sr : Z) : Z := zget [0;8;16;24;32;40;48;56;0;16;32;48;0;32;0] sr.
Definition subreg_mask_map (sr : Z) : Z :=
  zget [0xFF; 0xFF00; 0xFF0000; 0xFF000000; 0xFF00000000; 0xFF0000000000; 0xFF000000000000; 0xFF00000000000000;
        0xFFFF; 0xFFFF0000; 0xFFFF00000000; 0xFFFF000000000000; 0xFFFFFFFF; 0xFFFFFFFF00000000; 0xFFFFFFFFFFFFFFFF] sr.
Definition subreg_sign_bit (sr : Z) : Z :=
  zget [0x80; 0x8000; 0x800000; 0x80000000; 0x8000000000; 0x800000000000; 0x80000000000000; 0x8000000000000000;
        0x8000; 0x80000000; 0x800000000000; 0x8000000000000000; 0x80000000; 0x8000000000000000; 0x8000000000000000] sr.
Definition subreg_neg_bits (sr : Z) : Z :=
  zget [0xFFFFFFFFFFFFFF00; 0xFFFFFFFFFFFFFF00; 0xFFFFFFFFFFFFFF00; 0xFFFFFFFFFFFFFF00;
        0xFFFFFFFFFFFFFF00; 0xFFFFFFFFFFFFFF00; 0xFFFFFFFFFFFFFF00; 0xFFFFFFFFFFFFFF00;
        0xFFFFFFFFFFFF0000; 0xFFFFFFFFFFFF0000; 0xFFFFFFFFFFFF0000; 0xFFFFFFFFFFFF0000;
        0xFFFFFFFF00000000; 0xFFFFFFFF00000000; 0] sr.
Definition width0_subreg (size : Z) : Z :=
  if size =? 1 then sr_b0 else if size =? 2 then sr_q0 else if size =? 4 then sr_h0 else sr_w0.
(** Indexed by the byte size of an immediate, 1 to 128. *)
Definition imm_size_subreg_map (size : Z) : Z :=
  if size =? 2 then sr_q0 else if size =? 4 then sr_h0 else if size =? 8 then sr_w0 else sr_b0.

Definition read_subreg_bits (src sr : Z) : Z :=
  Z.shiftr (Z.land src (subreg_mask_map sr)) (subreg_offset_map sr).
(** Sign extension by the tables. *)
Definition sign_fill (value sr : Z) : Z :=
  if has value (subreg_sign_bit sr) then Z.lor value (subreg_neg_bits sr) else value.
Definition read_subreg_signext (src sr : Z) : Z := sign_fill (read_subreg_bits src sr) sr.
(** The destination word with [bits] in the field of [sr]. *)
Definition merge_subreg (dst sr bits : Z) : Z :=
  Z.lor (Z.land (Z.lxor (subreg_mask_map sr) (2 ^ 64 - 1)) dst)
        (Z.land (u64 (Z.shiftl bits (subreg_offset_map sr))) (subreg_mask_map sr)).
Definition cmp_regval_reg (src src_sr dst dst_sr : Z) : bool :=
  read_subreg_bits src src_sr =? read_subreg_bits dst dst_sr.

(** ** RF *)

Definition bit_carryout : Z := bit 0.
Definition bit_negative : Z := bit 1.
Definition bit_overflow : Z := bit 2.
Definition bit_parity : Z := bit 3.
Definition bit_zero : Z := bit 4.
Definition bit_privilege : Z := bit 32.
Definition bit_interrupt_enabled : Z := bit 33.
Definition bit_interrupt_set : Z := bit 34.
Definition bit_running : Z := bit 35.
Definition bit_syscall_guest : Z := bit 36.
Definition rf_privileged_mask : Z :=
  Z.lor bit_privilege (Z.lor bit_interrupt_enabled (Z.lor bit_interrupt_set (Z.lor bit_running bit_syscall_guest))).
(** [flag<b>::set]. *)
Definition flag_set (rf b : Z) (v : bool) : Z := Z.lor (clr rf b) (if v then b else 0).

(** ** Opcodes the ALU dispatches on *)

Definition add_opcode : Z := 0x03.
Definition sub_opcode : Z := 0x04.
Definition mul_opcode : Z := 0x05.
Definition div_opcode : Z := 0x06.
Definition mod_opcode : Z := 0x07.
Definition and_opcode : Z := 0x08.
Definition or_opcode : Z := 0x09.
Definition nor_opcode : Z := 0x0A.
Definition nand_opcode : Z := 0x0B.
Definition xor_opcode : Z := 0x0C.
Definition shl_opcode : Z := 0x0D.
Definition shr_opcode : Z := 0x0E.
Definition cmp_opcode : Z := 0x0F.
Definition test_opcode : Z := 0x10.
Definition sar_opcode : Z := 0x2E.
Definition cmpind_opcode : Z := 0x2F.
Definition testind_opcode : Z := 0x30.
Definition udiv_opcode : Z := 0x35.
Definition umod_opcode : Z := 0x36.
Definition adc_opcode : Z := 0x3B.
Definition sbb_opcode : Z := 0x3C.
Definition mulw_opcode : Z := 0x3D.
Definition umulw_opcode : Z := 0x3E.
Definition alu_uop_inc : Z := 0x31.
Definition alu_uop_dec : Z := 0x32.
Definition alu_uop_not : Z := 0x33.
Definition alu_uop_neg : Z := 0x2A.

(** ** Deferred flags *)

Record pending_flags_t : Type := mk_pending {
  pf_dirty : bool; pf_op_kind : Z; pf_width : Z; pf_dst_before : Z; pf_src : Z; pf_result : Z }.
Definition no_pending : pending_flags_t := mk_pending false 0 0 0 0 0.

(** RF and the pending descriptor, the state the ALU works on. *)
Record flag_state : Type := mk_fs { fs_rf : Z; fs_pending : pending_flags_t }.

Definition stage_pending_flags (op_kind width dst_before src result : Z) (f : flag_state) : flag_state :=
  mk_fs (fs_rf f) (mk_pending true op_kind width dst_before src result).

Definition op_width (w : Z) : bool := (w =? 1) || (w =? 2) || (w =? 4) || (w =? 8).
Definition trunc (w x : Z) : Z := x mod 2 ^ (8 * w).
Definition wsign (w : Z) : Z := 2 ^ (8 * w - 1).
(** The value as a signed [w]-byte integer. *)
Definition wsigned (w x : Z) : Z := if x <? wsign w then x else x - 2 ^ (8 * w).

(** [is_mul_overflow] and [is_mul_underflow] at an unsigned type, whose
    minimum is 0: the tests for negative operands are false. *)
Definition is_mul_overflow (w a b : Z) : bool :=
  if b =? 0 then false else
  ((0 <=? b) && (0 <=? a) && ((2 ^ (8 * w) - 1) / b <? a)) || ((b <? 0) && (a <? 0) && (a <? (2 ^ (8 * w) - 1) / b)).
Definition is_mul_underflow (w a b : Z) : bool :=
  if b =? 0 then false else
  ((0 <=? b) && (a <? 0) && (a <? 0 / b)) || ((b <? 0) && (0 <=? a) && (0 / b <? a)).

(** The flags of an operation: zero, negative, carry, overflow. *)
Record zncv : Type := mk_zncv { f_z : bool; f_n : bool; f_c : bool; f_v : bool }.

Section Flags.
Context (w : Z).

Definition flags_add (d s r : Z) : zncv :=
  mk_zncv (r =? 0) (has r (wsign w)) (r <? d)
    (has (Z.land (Z.lnot (Z.lxor d s)) (Z.lxor d r)) (wsign w)).
Definition flags_sub (d s r : Z) : zncv :=
  mk_zncv (r =? 0) (has r (wsign w)) (d <? r) (has (Z.land (Z.lxor d s) (Z.lxor d r)) (wsign w)).
Definition flags_adc (d s r : Z) : zncv :=
  let sum1 := trunc w (d + s) in
  mk_zncv (r =? 0) (has r (wsign w)) ((sum1 <? d) || (r <? sum1))
    (has (Z.land (Z.lnot (Z.lxor d s)) (Z.lxor d r)) (wsign w)).
Definition flags_sbb (d s r : Z) : zncv :=
  let diff1 := trunc w (d - s) in
  mk_zncv (r =? 0) (has r (wsign w)) ((d <? diff1) || (diff1 <? r))
    (has (Z.land (Z.lxor d s) (Z.lxor d r)) (wsign w)).
Definition flags_mul (d s r : Z) : zncv :=
  let ovf := is_mul_overflow w s d || is_mul_underflow w s d in
  mk_zncv (r =? 0) (has r (wsign w)) ovf ovf.
(** The two halves of a double-width product. *)
Definition wide_lo (p : Z) : Z := trunc w p.
Definition wide_hi (p : Z) : Z := trunc w (Z.shiftr (p mod 2 ^ (16 * w)) (8 * w)).
Definition flags_mulw (d s : Z) : zncv :=
  let p := wsigned w d * wsigned w s in
  let lo := wide_lo p in let hi := wide_hi p in
  mk_zncv ((lo =? 0) && (hi =? 0)) (has hi (wsign w)) (negb (hi =? 0)) ((p <? - wsign w) || (wsign w - 1 <? p)).
Definition flags_umulw (d s : Z) : zncv :=
  let p := d * s in
  let lo := wide_lo p in let hi := wide_hi p in
  mk_zncv ((lo =? 0) && (hi =? 0)) (has hi (wsign w)) (negb (hi =? 0)) (negb (hi =? 0)).
Definition flags_logic (r : Z) : zncv := mk_zncv (r =? 0) (has r (wsign w)) false false.
Definition flags_neg (x r : Z) : zncv :=
  mk_zncv (r =? 0) (has r (wsign w)) (negb (r =? 0)) (has (Z.land x r) (wsign w)).
Definition flags_shl (d n r : Z) : zncv :=
  let bits := 8 * w in
  if n <=? bits then
    mk_zncv (r =? 0) (has r (wsign w)) (Z.testbit d (bits - n))
      ((n =? 1) && negb (eqb (Z.testbit d (bits - 1)) (Z.testbit d (bits - 2))))
  else mk_zncv true false false false.
Definition flags_shr (d n r : Z) : zncv :=
  let bits := 8 * w in
  if n <=? bits then
    mk_zncv (r =? 0) (has r (wsign w)) (Z.testbit d (n - 1)) ((n =? 1) && Z.testbit d (bits - 1))
  else mk_zncv true false false false.
Definition flags_sar (d n r : Z) : zncv :=
  let bits := 8 * w in
  mk_zncv (r =? 0) (has r (wsign w)) (if n <? bits then Z.testbit d (n - 1) else Z.testbit d (bits - 1)) false.

End Flags.

Definition is_in (x : Z) (l : list Z) : bool := existsb (Z.eqb x) l.

(** The flags a descriptor stands for; [None] when it leaves RF alone. *)
Definition pending_zncv (p : pending_flags_t) : option zncv :=
  let k := pf_op_kind p in let w := pf_width p in
  let d := trunc w (pf_dst_before p) in let s := trunc w (pf_src p) in let r := trunc w (pf_result p) in
  let n := pf_src p in
  let none := mk_zncv false false false false in
  if is_in k [shl_opcode; shr_opcode; sar_opcode] && (n =? 0) then None else
  if negb (op_width w) then Some none else Some (
  if is_in k [add_opcode; alu_uop_inc] then flags_add w d s r
  else if is_in k [sub_opcode; cmp_opcode; cmpind_opcode; alu_uop_dec] then flags_sub w d s r
  else if k =? adc_opcode then flags_adc w d s r
  else if k =? sbb_opcode then flags_sbb w d s r
  else if k =? mul_opcode then flags_mul w d s r
  else if k =? mulw_opcode then flags_mulw w d s
  else if k =? umulw_opcode then flags_umulw w d s
  else if is_in k [and_opcode; test_opcode; testind_opcode; or_opcode; nor_opcode; nand_opcode; xor_opcode;
                   div_opcode; mod_opcode; udiv_opcode; umod_opcode; alu_uop_not] then flags_logic w r
  else if k =? alu_uop_neg then flags_neg w d r
  else if k =? shl_opcode then flags_shl w d n r
  else if k =? shr_opcode then flags_shr w d n r
  else if k =? sar_opcode then flags_sar w d n r
  else none).

Definition store_zncv (rf : Z) (f : zncv) : Z :=
  Z.lor (clr rf (Z.lor bit_zero (Z.lor bit_negative (Z.lor bit_carryout bit_overflow))))
    (Z.lor (if f_z f then bit_zero else 0) (Z.lor (if f_n f then bit_negative else 0)
    (Z.lor (if f_c f then bit_carryout else 0) (if f_v f then bit_overflow else 0)))).

Definition clear_dirty (p : pending_flags_t) : pending_flags_t :=
  mk_pending false (pf_op_kind p) (pf_width p) (pf_dst_before p) (pf_src p) (pf_result p).

Definition materialize_flags (f : flag_state) : flag_state :=
  if negb (pf_dirty (fs_pending f)) then f else
  mk_fs (match pending_zncv (fs_pending f) with Some q => store_zncv (fs_rf f) q | None => fs_rf f end)
        (clear_dirty (fs_pending f)).

(** ** Conditions *)

Definition opcode_flag : Z := 0xC0.
Definition decode_condition (op base : Z) : Z :=
  let row := Z.shiftr (Z.land op opcode_flag) 6 in
  let col := u8 (Z.land op 0x3F - base) in
  u8 (row * 3 + col).
(** The predicate table, on an RF whose flags are concrete; [None] is an
    unallocated encoding. *)
Definition condition_holds (rf cond : Z) : option bool :=
  let z := has rf bit_zero in let n := has rf bit_negative in
  let c := has rf bit_carryout in let v := has rf bit_overflow in
  match cond with
  | 0 => Some z
  | 1 => Some (negb z)
  | 2 => Some (negb (eqb n v))
  | 3 => Some c
  | 4 => Some (negb z && eqb n v)
  | 5 => Some (negb c && negb z)
  | 6 => Some (eqb n v)
  | 7 => Some (z || negb (eqb n v))
  | 8 => Some (c || z)
  | 9 => Some (negb c)
  | 10 => Some (has rf bit_parity)
  | _ => None
  end.

(** ** The in-place ALU functions: [None] is a divide error *)

Definition alu_fn : Type := Z -> Z -> Z -> Z -> flag_state -> option (Z * flag_state).

(** The width switch: no case for an undefined width, the result is 0. *)
Definition at_width (w : Z) (f : flag_state) (body : option (Z * flag_state)) : option (Z * flag_state) :=
  if op_width w then body else Some (0, f).

Definition alu_add : alu_fn := fun k w src_in dst_in f => at_width w f (
  let d := trunc w dst_in in let s := trunc w src_in in let r := trunc w (d + s) in
  Some (r, stage_pending_flags k w d s r f)).
Definition alu_sub : alu_fn := fun k w src_in dst_in f => at_width w f (
  let d := trunc w dst_in in let s := trunc w src_in in let r := trunc w (d - s) in
  Some (r, stage_pending_flags k w d s r f)).
Definition alu_adc : alu_fn := fun k w src_in dst_in f0 =>
  let f := materialize_flags f0 in
  let carry_in := if has (fs_rf f) bit_carryout then 1 else 0 in
  at_width w f (
  let d := trunc w dst_in in let s := trunc w src_in in
  let sum1 := trunc w (d + s) in let r := trunc w (sum1 + carry_in) in
  Some (r, stage_pending_flags k w d s r f)).
Definition alu_sbb : alu_fn := fun k w src_in dst_in f0 =>
  let f := materialize_flags f0 in
  let borrow_in := if has (fs_rf f) bit_carryout then 1 else 0 in
  at_width w f (
  let d := trunc w dst_in in let s := trunc w src_in in
  let diff1 := trunc w (d - s) in let r := trunc w (diff1 - borrow_in) in
  Some (r, stage_pending_flags k w d s r f)).
(** At width 2 the operands promote to [int], whose product can overflow;
    the model takes the low 16 bits, as the targets compute them. *)
Definition alu_mul : alu_fn := fun k w src_in dst_in f => at_width w f (
  let d := trunc w dst_in in let s := trunc w src_in in let r := trunc w (d * s) in
  Some (r, stage_pending_flags k w d s r f)).
Definition signed_divisible (w divisor dividend : Z) : bool :=
  negb (divisor =? 0) && negb ((divisor =? -1) && (dividend =? - wsign w)).
Definition alu_div : alu_fn := fun k w src_in dst_in f => at_width w f (
  let divisor := wsigned w (trunc w src_in) in let dividend := wsigned w (trunc w dst_in) in
  if negb (signed_divisible w divisor dividend) then None else
  let r := trunc w (Z.quot dividend divisor) in
  Some (r, stage_pending_flags k w 0 0 r f)).
Definition alu_mod : alu_fn := fun k w src_in dst_in f => at_width w f (
  let divisor := wsigned w (trunc w src_in) in let dividend := wsigned w (trunc w dst_in) in
  if negb (signed_divisible w divisor dividend) then None else
  let r := trunc w (Z.rem dividend divisor) in
  Some (r, stage_pending_flags k w 0 0 r f)).
Definition alu_udiv : alu_fn := fun k w src_in dst_in f => at_width w f (
  let divisor := trunc w src_in in
  if divisor =? 0 then None else
  let r := trunc w dst_in / divisor in
  Some (r, stage_pending_flags k w 0 0 r f)).
Definition alu_umod : alu_fn := fun k w src_in dst_in f => at_width w f (
  let divisor := trunc w src_in in
  if divisor =? 0 then None else
  let r := trunc w dst_in mod divisor in
  Some (r, stage_pending_flags k w 0 0 r f)).

(** The logic operations, [g] on the truncated operands. *)
Definition alu_logic (g : Z -> Z -> Z) : alu_fn := fun k w src_in dst_in f => at_width w f (
  let r := trunc w (g (trunc w dst_in) (trunc w src_in)) in
  Some (r, stage_pending_flags k w 0 0 r f)).
Definition alu_and : alu_fn := alu_logic Z.land.
Definition alu_or : alu_fn := alu_logic Z.lor.
Definition alu_nor : alu_fn := alu_logic (fun d s => Z.lnot (Z.lor d s)).
Definition alu_nand : alu_fn := alu_logic (fun d s => Z.lnot (Z.land d s)).
Definition alu_xor : alu_fn := alu_logic Z.lxor.

Definition alu_shl : alu_fn := fun k w src_in dst_in f => at_width w f (
  let d := trunc w dst_in in let n := trunc w src_in in let bits := 8 * w in
  if n =? 0 then Some (d, f)
  else if n <=? bits then
    let r := if n =? bits then 0 else trunc w (Z.shiftl d n) in
    Some (r, stage_pending_flags k w d n r f)
  else Some (0, stage_pending_flags k w d n 0 f)).
Definition alu_shr : alu_fn := fun k w src_in dst_in f => at_width w f (
  let d := trunc w dst_in in let n := trunc w src_in in let bits := 8 * w in
  if n =? 0 then Some (d, f)
  else if n <=? bits then
    let r := if n =? bits then 0 else trunc w (Z.shiftr d n) in
    Some (r, stage_pending_flags k w d n r f)
  else Some (0, stage_pending_flags k w d n 0 f)).
Definition alu_sar : alu_fn := fun k w src_in dst_in f => at_width w f (
  let d := trunc w dst_in in let n := trunc w src_in in let bits := 8 * w in
  let sign := Z.testbit d (bits - 1) in
  if n =? 0 then Some (d, f)
  else if n <? bits then
    let r := trunc w (Z.shiftr (wsigned w d) n) in
    Some (r, stage_pending_flags k w d n r f)
  else
    let r := if sign then 2 ^ bits - 1 else 0 in
    Some (r, stage_pending_flags k w d n r f)).

(** ** The staging bank

    [arithmetic_logic_unit]: its own word holds the opcode in b0 and the
    sizes in b1 and b2; the operands are [op1_reg] and [op2_reg]. *)
Record arithmetic_logic_unit : Type := mk_alu { alu_b0 : Z; alu_b1 : Z; alu_b2 : Z; alu_op1 : Z; alu_op2 : Z }.

Definition opflag_code : Z := 0x3F.

(** One case of the switch: the new [op1_reg] and [op2_reg], and the flag
    state. *)
Definition run_alu_case (op w op1 op2 : Z) (f : flag_state) : option (Z * Z * flag_state) :=
  let bank (r : option (Z * flag_state)) := '(v, f') ← r; Some (op1, v, f') in
  let keep := Some (op1, op2, f) in
  if negb (op_width w) then
    (* ADC and SBB materialize before the width switch *)
    if is_in op [adc_opcode; sbb_opcode] then Some (op1, op2, materialize_flags f) else keep
  else if op =? add_opcode then bank (alu_add op w op1 op2 f)
  else if is_in op [cmp_opcode; cmpind_opcode; sub_opcode] then bank (alu_sub op w op1 op2 f)
  else if op =? adc_opcode then bank (alu_adc op w op1 op2 f)
  else if op =? sbb_opcode then bank (alu_sbb op w op1 op2 f)
  else if op =? mul_opcode then bank (alu_mul op w op1 op2 f)
  else if op =? mulw_opcode then
    let d := trunc w op2 in let s := trunc w op1 in
    let p := wsigned w d * wsigned w s in
    Some (wide_hi w p, wide_lo w p, stage_pending_flags op w d s (wide_lo w p) f)
  else if op =? umulw_opcode then
    let d := trunc w op2 in let s := trunc w op1 in
    let p := d * s in
    Some (wide_hi w p, wide_lo w p, stage_pending_flags op w d s (wide_lo w p) f)
  else if op =? div_opcode then bank (alu_div op w op1 op2 f)
  else if op =? mod_opcode then bank (alu_mod op w op1 op2 f)
  else if op =? udiv_opcode then bank (alu_udiv op w op1 op2 f)
  else if op =? umod_opcode then bank (alu_umod op w op1 op2 f)
  else if is_in op [test_opcode; testind_opcode; and_opcode] then bank (alu_and op w op1 op2 f)
  else if op =? or_opcode then bank (alu_or op w op1 op2 f)
  else if op =? nor_opcode then bank (alu_nor op w op1 op2 f)
  else if op =? nand_opcode then bank (alu_nand op w op1 op2 f)
  else if op =? xor_opcode then bank (alu_xor op w op1 op2 f)
  else if op =? shl_opcode then bank (alu_shl op w op1 op2 f)
  else if op =? shr_opcode then bank (alu_shr op w op1 op2 f)
  else if op =? sar_opcode then bank (alu_sar op w op1 op2 f)
  else if op =? alu_uop_inc then
    let d := trunc w op2 in let r := trunc w (d + 1) in Some (op1, r, stage_pending_flags op w d 1 r f)
  else if op =? alu_uop_dec then
    let d := trunc w op2 in let r := trunc w (d - 1) in Some (op1, r, stage_pending_flags op w d 1 r f)
  else if op =? alu_uop_not then
    let r := trunc w (Z.lnot (trunc w op2)) in Some (op1, r, stage_pending_flags op w 0 0 r f)
  else if op =? alu_uop_neg then
    let x := trunc w op2 in let r := trunc w (0 - x) in Some (op1, r, stage_pending_flags op w x 0 r f)
  else keep.

(** CMP, CMPIND, TEST and TSTIND leave [op2_reg] as it was. *)
Definition run_alu (a : arithmetic_logic_unit) (f : flag_state) : option (arithmetic_logic_unit * flag_state) :=
  let op := Z.land (alu_b0 a) opflag_code in
  '(op1, op2, f') ← run_alu_case op (alu_b2 a) (alu_op1 a) (alu_op2 a) f;
  let op2' := if is_in op [cmp_opcode; cmpind_opcode; test_opcode; testind_opcode] then alu_op2 a else op2 in
  Some (mk_alu (alu_b0 a) (alu_b1 a) (alu_b2 a) op1 op2', f').

(** ** The two-operand instructions

    The dispatch labels of tick(): each runs one of the functions under its
    own opcode; CMP and TEST discard the result. *)
Inductive alu_op : Type :=
  | ADD | SUB | MUL | DIV | MOD | UDIV | ADC | SBB | UMOD | AND | OR | NOR | NAND | XOR | SHL | SHR | SAR | CMP | TEST.

#[export] Instance alu_op_eq_dec : EqDecision alu_op.
Proof. solve_decision. Defined.

Definition alu_op_kind (o : alu_op) : Z :=
  match o with
  | ADD => add_opcode | SUB => sub_opcode | MUL => mul_opcode | DIV => div_opcode | MOD => mod_opcode
  | UDIV => udiv_opcode | ADC => adc_opcode | SBB => sbb_opcode | UMOD => umod_opcode | AND => and_opcode
  | OR => or_opcode | NOR => nor_opcode | NAND => nand_opcode | XOR => xor_opcode | SHL => shl_opcode
  | SHR => shr_opcode | SAR => sar_opcode | CMP => cmp_opcode | TEST => test_opcode
  end.
Definition alu_op_fn (o : alu_op) : alu_fn :=
  match o with
  | ADD => alu_add | SUB => alu_sub | MUL => alu_mul | DIV => alu_div | MOD => alu_mod
  | UDIV => alu_udiv | ADC => alu_adc | SBB => alu_sbb | UMOD => alu_umod | AND => alu_and
  | OR => alu_or | NOR => alu_nor | NAND => alu_nand | XOR => alu_xor | SHL => alu_shl
  | SHR => alu_shr | SAR => alu_sar | CMP => alu_sub | TEST => alu_and
  end.
Definition alu_op_writes (o : alu_op) : bool := match o with CMP | TEST => false | _ => true end.

(** ** Bits and words *)

Lemma bit_pow k : bit k = 2 ^ k.
Proof. unfold bit. apply Z.shiftl_1_l. Qed.

(** The top bit of a value below twice it. *)
Lemma top_bit k x : 0 <= k -> 0 <= x < 2 ^ (k + 1) -> Z.testbit x k = (2 ^ k <=? x).
Proof.
  intros Hk Hx. rewrite Z.pow_add_r in Hx by lia. rewrite Z.testbit_eqb by lia.
  assert (Hp : 0 < 2 ^ k) by (apply Z.pow_pos_nonneg; lia).
  destruct (Z.leb_spec (2 ^ k) x).
  - assert (x / 2 ^ k = 1) as -> by (symmetry; apply (Z.div_unique x (2 ^ k) 1 (x - 2 ^ k)); lia). done.
  - rewrite Z.div_small by lia. done.
Qed.

Section Widths.
Context (w : Z) (Hw : op_width w = true).

Lemma width_pos : 1 <= w <= 8.
Proof using Hw. unfold op_width in Hw. lia. Qed.
Lemma wsign_double : 2 ^ (8 * w) = 2 * wsign w /\ 128 <= wsign w.
Proof using Hw.
  pose proof width_pos. unfold wsign. split.
  - rewrite <- Z.pow_succ_r by lia. f_equal. lia.
  - change 128 with (2 ^ 7). apply Z.pow_le_mono_r; lia.
Qed.
Lemma trunc_bound x : 0 <= trunc w x < 2 * wsign w.
Proof using Hw. destruct wsign_double as [E ?]. unfold trunc. rewrite E. apply Z.mod_pos_bound. lia. Qed.
Lemma trunc_small x : 0 <= x < 2 * wsign w -> trunc w x = x.
Proof using Hw. destruct wsign_double as [E ?]. intros Hx. unfold trunc. rewrite E. by apply Z.mod_small. Qed.
Lemma trunc_trunc x : trunc w (trunc w x) = trunc w x.
Proof using Hw. apply trunc_small, trunc_bound. Qed.
Lemma trunc_add x : 0 <= x < 4 * wsign w -> trunc w x = if x <? 2 * wsign w then x else x - 2 * wsign w.
Proof using Hw.
  destruct wsign_double as [E ?]. intros Hx. unfold trunc. rewrite E. destruct (Z.ltb_spec x (2 * wsign w)); [apply Z.mod_small; lia|].
  symmetry. apply (Z.mod_unique x (2 * wsign w) 1); lia.
Qed.
Lemma trunc_sub x : - (2 * wsign w) <= x < 2 * wsign w -> trunc w x = if x <? 0 then x + 2 * wsign w else x.
Proof using Hw.
  destruct wsign_double as [E ?]. intros Hx. unfold trunc. rewrite E. destruct (Z.ltb_spec x 0); [|apply Z.mod_small; lia].
  symmetry. apply (Z.mod_unique x (2 * wsign w) (-1)); lia.
Qed.
Lemma sign_bit x : 0 <= x < 2 * wsign w -> has x (wsign w) = (wsign w <=? x).
Proof using Hw.
  intros Hx. pose proof width_pos. destruct wsign_double as [E _]. unfold wsign in *. rewrite has_bit by lia. apply top_bit; [lia|].
  replace (8 * w - 1 + 1) with (8 * w) by lia. lia.
Qed.
(** Sign tests of the combinations the flag formulas use. *)
Lemma sign_bit_and2 x y : has (Z.land x y) (wsign w) = has x (wsign w) && has y (wsign w).
Proof using Hw. pose proof width_pos. unfold wsign. rewrite !has_bit, Z.land_spec by lia. done. Qed.
Lemma sign_bit_xor x y : has (Z.lxor x y) (wsign w) = xorb (has x (wsign w)) (has y (wsign w)).
Proof using Hw. pose proof width_pos. unfold wsign. rewrite !has_bit, Z.lxor_spec by lia. done. Qed.
Lemma sign_bit_not x : has (Z.lnot x) (wsign w) = negb (has x (wsign w)).
Proof using Hw. pose proof width_pos. unfold wsign. rewrite !has_bit, Z.lnot_spec by lia. done. Qed.

End Widths.

(** Turns sign tests into comparisons and decides them. *)
Ltac zcases :=
  repeat match goal with
  | |- context [if ?a <? ?b then _ else _] =>
      lazymatch a with context [if _ then _ else _] => fail | _ => destruct (Z.ltb_spec a b) end
  end;
  repeat match goal with
  | |- context [Z.leb ?a ?b] => destruct (Z.leb_spec a b)
  | |- context [Z.ltb ?a ?b] => destruct (Z.ltb_spec a b)
  | |- context [Z.eqb ?a ?b] => destruct (Z.eqb_spec a b)
  end; cbn [xorb negb andb orb eqb]; try reflexivity; try lia.

(** ** What the flags mean *)

(** The reference: carry and overflow of an exact result against the width's
    unsigned and signed ranges. *)
Definition exact_zncv (w u s : Z) : zncv :=
  mk_zncv (trunc w u =? 0) (wsigned w (trunc w u) <? 0)
    ((u <? 0) || (2 ^ (8 * w) <=? u)) ((s <? - wsign w) || (wsign w <=? s)).

Section Exact.
Context (w : Z) (Hw : op_width w = true) (d s : Z) (Hd : 0 <= d < 2 ^ (8 * w)) (Hs : 0 <= s < 2 ^ (8 * w)).

Ltac flag_cases :=
  unfold flags_add, flags_sub, flags_adc, flags_sbb, exact_zncv;
  destruct (wsign_double w Hw) as [Edbl Hbig]; rewrite ?Edbl in *;
  rewrite ?sign_bit_and2, ?sign_bit_not, ?sign_bit_xor by done.

Lemma flags_add_exact : flags_add w d s (trunc w (d + s)) = exact_zncv w (d + s) (wsigned w d + wsigned w s).
Proof using Hw Hd Hs.
  flag_cases. rewrite (trunc_add w Hw) by lia. unfold wsigned. rewrite Edbl.
  rewrite !sign_bit by (done || (destruct (Z.ltb_spec (d + s) (2 * wsign w)); lia)).
  f_equal; zcases.
Qed.
Lemma flags_sub_exact : flags_sub w d s (trunc w (d - s)) = exact_zncv w (d - s) (wsigned w d - wsigned w s).
Proof using Hw Hd Hs.
  flag_cases. rewrite (trunc_sub w Hw) by lia. unfold wsigned. rewrite Edbl.
  rewrite !sign_bit by (done || (destruct (Z.ltb_spec (d - s) 0); lia)).
  f_equal; zcases.
Qed.
Lemma flags_adc_exact c : 0 <= c <= 1 ->
  flags_adc w d s (trunc w (trunc w (d + s) + c)) = exact_zncv w (d + s + c) (wsigned w d + wsigned w s + c).
Proof using Hw Hd Hs.
  intros Hc. flag_cases. rewrite (trunc_add w Hw (d + s)), (trunc_add w Hw (d + s + c)) by lia.
  assert (E : trunc w ((if d + s <? 2 * wsign w then d + s else d + s - 2 * wsign w) + c)
    = if d + s + c <? 2 * wsign w then d + s + c else d + s + c - 2 * wsign w).
  { rewrite (trunc_add w Hw) by (destruct (Z.ltb_spec (d + s) (2 * wsign w)); lia). zcases. }
  rewrite E. unfold wsigned. rewrite Edbl.
  rewrite !sign_bit by (done || (destruct (Z.ltb_spec (d + s + c) (2 * wsign w)); lia)).
  f_equal; zcases.
Qed.
Lemma flags_sbb_exact c : 0 <= c <= 1 ->
  flags_sbb w d s (trunc w (trunc w (d - s) - c)) = exact_zncv w (d - s - c) (wsigned w d - wsigned w s - c).
Proof using Hw Hd Hs.
  intros Hc. flag_cases. rewrite (trunc_sub w Hw (d - s)), (trunc_sub w Hw (d - s - c)) by lia.
  assert (E : trunc w ((if d - s <? 0 then d - s + 2 * wsign w else d - s) - c)
    = if d - s - c <? 0 then d - s - c + 2 * wsign w else d - s - c).
  { rewrite (trunc_sub w Hw) by (destruct (Z.ltb_spec (d - s) 0); lia). zcases. }
  rewrite E. unfold wsigned. rewrite Edbl.
  rewrite !sign_bit by (done || (destruct (Z.ltb_spec (d - s - c) 0); lia)).
  f_equal; zcases.
Qed.
(** The multiplication's carry and overflow are both the unsigned overflow
    of the product. *)
Lemma mul_overflow_unsigned :
  is_mul_overflow w s d || is_mul_underflow w s d = (2 ^ (8 * w) <=? d * s).
Proof using Hw Hd Hs.
  unfold is_mul_overflow, is_mul_underflow. destruct (Z.eqb_spec d 0) as [->|Hd0].
  - rewrite Z.mul_0_l. destruct (wsign_double w Hw). by rewrite (proj2 (Z.leb_gt _ _)) by lia.
  - rewrite (proj2 (Z.leb_le 0 d)), (proj2 (Z.leb_le 0 s)), (proj2 (Z.ltb_ge d 0)), (proj2 (Z.ltb_ge s 0)) by lia. simpl.
    rewrite !orb_false_r. destruct (Z.ltb_spec ((2 ^ (8 * w) - 1) / d) s) as [Hlt|Hge]; symmetry.
    + apply Z.leb_le. pose proof (Z.mul_succ_div_gt (2 ^ (8 * w) - 1) d). nia.
    + apply Z.leb_gt. pose proof (Z.mul_div_le (2 ^ (8 * w) - 1) d). nia.
Qed.
End Exact.
