(* ===== verification/V1AluProps.v ===== *)
(** * The ALU computes what its instructions mean

    A reference for every two-operand instruction in terms of integers: the
    exact sum, difference, product or quotient, the carry and overflow of
    that exact result, the bits shifted out.  Executing an instruction with
    deferred flags and resolving them later leaves the registers and RF the
    reference, which sets its flags at once, leaves (MUL's carry and overflow
    are the exception, and are stated apart); after a comparison the
    conditional instructions decide the order of the two integers, signed and
    unsigned, at every width. *)
From Stdlib Require Import ZArith Lia Bool.
From stdpp Require Import base list numbers.
From S2P Require Import Prelude State V1Alu.

(** ** The reference *)

(** A result whose flags are its sign and whether it is zero. *)
Definition ref_logic (w r : Z) : option (Z * option zncv) :=
  Some (r, Some (mk_zncv (r =? 0) (wsigned w r <? 0) false false)).

(** [c] is the carry before the instruction, [d] the destination and [s] the
    source, below [2 ^ (8 * w)].  [None] is a divide error; flags of [None]
    are left as they were.  The flags are those of the instruction reference
    (docs/spec/instruction-reference.md, sections 7.2 to 7.5): C and V of MUL
    are both its signed overflow, and a shift left or right by more than the
    width gives zero with Z set and N, C and V clear. *)
Definition alu_ref (o : alu_op) (w c d s : Z) : option (Z * option zncv) :=
  let sd := wsigned w d in let ss := wsigned w s in
  let top := 2 ^ (8 * w) - 1 in
  match o with
  | ADD => Some (trunc w (d + s), Some (exact_zncv w (d + s) (sd + ss)))
  | ADC => Some (trunc w (d + s + c), Some (exact_zncv w (d + s + c) (sd + ss + c)))
  | SUB | CMP => Some (trunc w (d - s), Some (exact_zncv w (d - s) (sd - ss)))
  | SBB => Some (trunc w (d - s - c), Some (exact_zncv w (d - s - c) (sd - ss - c)))
  | MUL => let r := trunc w (d * s) in let v := negb ((- wsign w <=? sd * ss) && (sd * ss <? wsign w)) in
           Some (r, Some (mk_zncv (r =? 0) (wsigned w r <? 0) v v))
  | DIV => if (ss =? 0) || ((ss =? -1) && (sd =? - wsign w)) then None else ref_logic w (trunc w (Z.quot sd ss))
  | MOD => if (ss =? 0) || ((ss =? -1) && (sd =? - wsign w)) then None else ref_logic w (trunc w (Z.rem sd ss))
  | UDIV => if s =? 0 then None else ref_logic w (d / s)
  | UMOD => if s =? 0 then None else ref_logic w (d mod s)
  | AND | TEST => ref_logic w (Z.land d s)
  | OR => ref_logic w (Z.lor d s)
  | XOR => ref_logic w (Z.lxor d s)
  | NOR => ref_logic w (top - Z.lor d s)
  | NAND => ref_logic w (top - Z.land d s)
  | SHL => if s =? 0 then Some (d, None) else
           let r := trunc w (d * 2 ^ s) in
           Some (r, Some (mk_zncv (r =? 0) (wsigned w r <? 0) (Z.testbit d (8 * w - s))
                            ((s =? 1) && xorb (Z.testbit d (8 * w - 1)) (Z.testbit d (8 * w - 2)))))
  | SHR => if s =? 0 then Some (d, None) else
           let r := d / 2 ^ s in
           Some (r, Some (mk_zncv (r =? 0) (wsigned w r <? 0) (Z.testbit d (s - 1)) ((s =? 1) && Z.testbit d (8 * w - 1))))
  | SAR => if s =? 0 then Some (d, None) else
           let r := trunc w (sd / 2 ^ s) in
           Some (r, Some (mk_zncv (r =? 0) (wsigned w r <? 0) (Z.testbit sd (s - 1)) false))
  end.

(** RF as a program sees it: with the deferred flags resolved. *)
Definition rf_view (f : flag_state) : Z := fs_rf (materialize_flags f).
Definition set_flags (rf : Z) (q : option zncv) : Z := match q with Some q => store_zncv rf q | None => rf end.

(** ** Flags in RF *)

Definition zncv_mask : Z := Z.lor bit_zero (Z.lor bit_negative (Z.lor bit_carryout bit_overflow)).
Definition zncv_bits (q : zncv) : Z :=
  Z.lor (if f_z q then bit_zero else 0) (Z.lor (if f_n q then bit_negative else 0)
  (Z.lor (if f_c q then bit_carryout else 0) (if f_v q then bit_overflow else 0))).
Lemma store_zncv_eq rf q : store_zncv rf q = Z.lor (clr rf zncv_mask) (zncv_bits q).
Proof. reflexivity. Qed.

Lemma store_zncv_twice rf p q : store_zncv (store_zncv rf p) q = store_zncv rf q.
Proof.
  rewrite !store_zncv_eq. f_equal. unfold clr.
  assert (E : Z.ldiff (zncv_bits p) zncv_mask = 0) by (by destruct p as [[] [] [] []]).
  apply Z.bits_inj'. intros i Hi. rewrite !Z.ldiff_spec, Z.lor_spec, Z.ldiff_spec.
  apply (f_equal (fun x => Z.testbit x i)) in E. rewrite Z.ldiff_spec, Z.bits_0 in E.
  destruct (Z.testbit rf i), (Z.testbit zncv_mask i), (Z.testbit (zncv_bits p) i); done.
Qed.

Lemma has_store rf q m : Z.land m zncv_mask = m -> has (store_zncv rf q) m = has (zncv_bits q) m.
Proof.
  intros Hm. rewrite store_zncv_eq. unfold has. rewrite Z.land_lor_distr_l.
  assert (E : Z.land (clr rf zncv_mask) m = 0).
  { rewrite <- Hm. unfold clr. apply Z.bits_inj'. intros i Hi. rewrite !Z.land_spec, Z.ldiff_spec, Z.bits_0.
    destruct (Z.testbit rf i), (Z.testbit zncv_mask i), (Z.testbit m i); done. }
  by rewrite E, Z.lor_0_l.
Qed.
Lemma store_zncv_flags rf q :
  has (store_zncv rf q) bit_zero = f_z q /\ has (store_zncv rf q) bit_negative = f_n q /\
  has (store_zncv rf q) bit_carryout = f_c q /\ has (store_zncv rf q) bit_overflow = f_v q.
Proof. rewrite !has_store by done. by destruct q as [[] [] [] []]. Qed.

(** A new descriptor replaces the flags an old one stands for. *)
Lemma view_stage k w d s r f q : pending_zncv (mk_pending true k w d s r) = Some q ->
  rf_view (stage_pending_flags k w d s r f) = store_zncv (rf_view f) q.
Proof.
  intros Hq. unfold rf_view, materialize_flags, stage_pending_flags. cbn [fs_pending pf_dirty negb fs_rf]. rewrite Hq.
  destruct (pf_dirty (fs_pending f)); simpl; [|done]. destruct (pending_zncv (fs_pending f)); [|done].
  by rewrite store_zncv_twice.
Qed.
Lemma view_materialized f : rf_view (materialize_flags f) = rf_view f.
Proof. unfold rf_view, materialize_flags. destruct (pf_dirty (fs_pending f)) eqn:E; simpl; [done|by rewrite E]. Qed.

(** ** One instruction *)

(** [alu_refines o w r f src dst]: the function's outcome from flag state [f]
    is the reference's. *)
Definition alu_refines (o : alu_op) (w src dst : Z) (f : flag_state) : Prop :=
  let c := if has (rf_view f) bit_carryout then 1 else 0 in
  match alu_op_fn o (alu_op_kind o) w src dst f, alu_ref o w c (trunc w dst) (trunc w src) with
  | Some (r, f'), Some (r', q) => r = r' /\ rf_view f' = set_flags (rf_view f) q
  | None, None => True
  | _, _ => False
  end.

(** Computes the case of [pending_zncv] a constant opcode selects. *)
Ltac pending_with Hw := unfold pending_zncv; cbn [pf_op_kind pf_width pf_dst_before pf_src pf_result];
  rewrite Hw, ?(trunc_trunc _ Hw).

Section Refine.
Context (w : Z) (Hw : op_width w = true).

Lemma negative_flag r : 0 <= r < 2 * wsign w -> has r (wsign w) = (wsigned w r <? 0).
Proof using Hw.
  intros Hr. rewrite (sign_bit w Hw) by done. destruct (wsign_double w Hw) as [E ?]. unfold wsigned. rewrite E. zcases.
Qed.
Lemma flags_logic_exact r : 0 <= r < 2 * wsign w -> flags_logic w r = mk_zncv (r =? 0) (wsigned w r <? 0) false false.
Proof using Hw. intros Hr. unfold flags_logic. by rewrite negative_flag. Qed.

(** A logical result staged and resolved. *)
Lemma view_logic k r f : is_in k [and_opcode; test_opcode; testind_opcode; or_opcode; nor_opcode; nand_opcode; xor_opcode;
    div_opcode; mod_opcode; udiv_opcode; umod_opcode; alu_uop_not] = true -> 0 <= r < 2 * wsign w ->
  rf_view (stage_pending_flags k w 0 0 r f) = store_zncv (rf_view f) (mk_zncv (r =? 0) (wsigned w r <? 0) false false).
Proof using Hw.
  intros Hk Hr. apply view_stage. rewrite <- flags_logic_exact by done. unfold pending_zncv. cbn [pf_op_kind pf_width pf_dst_before pf_src pf_result].
  rewrite Hw, (trunc_small w Hw r) by done. unfold is_in in Hk.
  repeat (apply orb_true_iff in Hk as [->%Z.eqb_eq|Hk]; [done|]). done.
Qed.

Ltac start o := unfold alu_refines; cbn [alu_op_fn alu_op_kind alu_ref];
  unfold o, at_width; rewrite Hw.
Ltac pending := pending_with Hw.

Lemma trunc_bitwise x y g : (forall i, 0 <= i -> Z.testbit (g x y) i = true -> Z.testbit x i = true \/ Z.testbit y i = true) ->
  0 <= g x y -> 0 <= x < 2 ^ (8 * w) -> 0 <= y < 2 ^ (8 * w) -> trunc w (g x y) = g x y.
Proof using Hw.
  intros Hg H0 Hx Hy. pose proof (width_pos w Hw). unfold trunc. rewrite <- Z.land_ones by lia. apply Z.bits_inj'. intros i Hi.
  rewrite Z.land_spec. destruct (Z.testbit (g x y) i) eqn:E; [|done]. rewrite Z.testbit_ones_nonneg by lia.
  destruct (Z.ltb_spec i (8 * w)) as [|Hge]; [done|]. exfalso.
  assert (Hhi : forall z, 0 <= z < 2 ^ (8 * w) -> Z.testbit z i = false).
  { intros z Hz. destruct (Z.eq_dec z 0) as [->|]; [apply Z.bits_0|]. apply Z.bits_above_log2; [lia|].
    apply (Z.lt_le_trans _ (8 * w)); [apply Z.log2_lt_pow2; lia|done]. }
  destruct (Hg i Hi E) as [E'|E']; rewrite Hhi in E'; done.
Qed.
Lemma trunc_lnot x : 0 <= x < 2 ^ (8 * w) -> trunc w (Z.lnot x) = 2 ^ (8 * w) - 1 - x.
Proof using Hw.
  intros Hx. unfold Z.lnot, trunc. symmetry. apply (Z.mod_unique _ _ (-1)); lia.
Qed.
Lemma wsigned_bound x : 0 <= x < 2 * wsign w -> - wsign w <= wsigned w x < wsign w.
Proof using Hw. destruct (wsign_double w Hw) as [E ?]. unfold wsigned. rewrite E. zcases. Qed.
Lemma signed_divisible_spec divisor dividend :
  negb (signed_divisible w divisor dividend) = (divisor =? 0) || ((divisor =? -1) && (dividend =? - wsign w)).
Proof. unfold signed_divisible. by rewrite negb_andb, !negb_involutive. Qed.

Context (src dst : Z) (f : flag_state).
Let d := trunc w dst.
Let s := trunc w src.
Lemma operand_bounds : 0 <= d < 2 ^ (8 * w) /\ 0 <= s < 2 ^ (8 * w).
Proof. destruct (wsign_double w Hw) as [E _]. rewrite E. split; apply (trunc_bound w Hw). Qed.

Lemma add_refines : alu_refines ADD w src dst f.
Proof.
  start alu_add. split; [done|]. apply view_stage. pending. destruct operand_bounds. by rewrite <- flags_add_exact.
Qed.
Lemma sub_refines : alu_refines SUB w src dst f.
Proof.
  start alu_sub. split; [done|]. apply view_stage. pending. destruct operand_bounds. by rewrite <- flags_sub_exact.
Qed.
Lemma cmp_refines : alu_refines CMP w src dst f.
Proof.
  start alu_sub. split; [done|]. apply view_stage. pending. destruct operand_bounds. by rewrite <- flags_sub_exact.
Qed.
Lemma trunc_add_l x y : trunc w (trunc w x + y) = trunc w (x + y).
Proof. unfold trunc. by rewrite Zplus_mod_idemp_l. Qed.
Lemma trunc_sub_l x y : trunc w (trunc w x - y) = trunc w (x - y).
Proof. unfold trunc. by rewrite Zminus_mod_idemp_l. Qed.

Lemma adc_refines : alu_refines ADC w src dst f.
Proof.
  start alu_adc. fold (rf_view f). set (c := if has (rf_view f) bit_carryout then 1 else 0).
  assert (Hc : 0 <= c <= 1) by (unfold c; destruct (has _ _); lia).
  split; [apply trunc_add_l|]. rewrite <- (view_materialized f). apply view_stage. pending.
  destruct operand_bounds. rewrite <- flags_adc_exact by done. done.
Qed.
Lemma sbb_refines : alu_refines SBB w src dst f.
Proof.
  start alu_sbb. fold (rf_view f). set (c := if has (rf_view f) bit_carryout then 1 else 0).
  assert (Hc : 0 <= c <= 1) by (unfold c; destruct (has _ _); lia).
  split; [apply trunc_sub_l|]. rewrite <- (view_materialized f). apply view_stage. pending.
  destruct operand_bounds. rewrite <- flags_sbb_exact by done. done.
Qed.
(** MUL has the result, Z and N of the reference; its C and V tell whether the
    product of the operands as unsigned integers fits. *)
Lemma mul_flags : exists q f', alu_ref MUL w 0 d s = Some (trunc w (d * s), Some q) /\
  alu_op_fn MUL (alu_op_kind MUL) w src dst f = Some (trunc w (d * s), f') /\
  rf_view f' = store_zncv (rf_view f) (mk_zncv (f_z q) (f_n q) (2 ^ (8 * w) <=? d * s) (2 ^ (8 * w) <=? d * s)).
Proof.
  cbn [alu_op_fn alu_op_kind alu_ref]. unfold alu_mul, at_width. rewrite Hw. eexists _, _.
  split; [reflexivity|]. split; [reflexivity|]. apply view_stage. pending. destruct operand_bounds.
  cbn [f_z f_n]. unfold flags_mul. rewrite mul_overflow_unsigned by done.
  by rewrite negative_flag by apply (trunc_bound w Hw).
Qed.


Lemma div_refines : alu_refines DIV w src dst f.
Proof.
  start alu_div. rewrite signed_divisible_spec. destruct (_ || _); [done|]. unfold ref_logic. split; [done|].
  apply view_logic; [done|apply (trunc_bound w Hw)].
Qed.
Lemma mod_refines : alu_refines MOD w src dst f.
Proof.
  start alu_mod. rewrite signed_divisible_spec. destruct (_ || _); [done|]. unfold ref_logic. split; [done|].
  apply view_logic; [done|apply (trunc_bound w Hw)].
Qed.
Lemma udiv_refines : alu_refines UDIV w src dst f.
Proof.
  start alu_udiv. destruct (Z.eqb_spec (trunc w src) 0) as [|Hne]; [done|]. split; [done|]. apply view_logic; [done|].
  pose proof (trunc_bound w Hw dst). pose proof (trunc_bound w Hw src). split; [apply Z.div_pos; lia|].
  apply (Z.le_lt_trans _ (trunc w dst)); [apply Z.div_le_upper_bound; nia|lia].
Qed.
Lemma umod_refines : alu_refines UMOD w src dst f.
Proof.
  start alu_umod. destruct (Z.eqb_spec (trunc w src) 0) as [|Hne]; [done|]. split; [done|]. apply view_logic; [done|].
  pose proof (trunc_bound w Hw src). pose proof (Z.mod_pos_bound (trunc w dst) (trunc w src)). lia.
Qed.

(** Bitwise results stay in the width. *)
Lemma logic_refines o g h : alu_op_fn o = alu_logic g ->
  is_in (alu_op_kind o) [and_opcode; test_opcode; testind_opcode; or_opcode; nor_opcode; nand_opcode; xor_opcode;
    div_opcode; mod_opcode; udiv_opcode; umod_opcode; alu_uop_not] = true ->
  (forall c, alu_ref o w c d s = ref_logic w h) -> trunc w (g d s) = h -> alu_refines o w src dst f.
Proof.
  intros Hfn Hk Href Hg. unfold alu_refines. rewrite Hfn, Href. unfold alu_logic, at_width. rewrite Hw.
  unfold d, s in Hg. rewrite Hg. unfold ref_logic. split; [done|]. apply view_logic; [done|]. rewrite <- Hg. apply (trunc_bound w Hw).
Qed.
Lemma and_trunc : trunc w (Z.land d s) = Z.land d s.
Proof.
  destruct operand_bounds. apply trunc_bitwise; try done; [|apply Z.land_nonneg; lia].
  intros i _. rewrite Z.land_spec. destruct (Z.testbit d i); auto.
Qed.
Lemma or_trunc : trunc w (Z.lor d s) = Z.lor d s.
Proof.
  destruct operand_bounds. apply trunc_bitwise; try done; [|apply Z.lor_nonneg; lia].
  intros i _. rewrite Z.lor_spec. destruct (Z.testbit d i); auto.
Qed.
Lemma xor_trunc : trunc w (Z.lxor d s) = Z.lxor d s.
Proof.
  destruct operand_bounds. apply trunc_bitwise; try done; [|apply Z.lxor_nonneg; lia].
  intros i _. rewrite Z.lxor_spec. destruct (Z.testbit d i), (Z.testbit s i); auto.
Qed.
Lemma bitwise_refines o : In o [AND; TEST; OR; XOR; NOR; NAND] -> alu_refines o w src dst f.
Proof.
  assert (Hlt : forall x, trunc w x = x -> 0 <= x < 2 ^ (8 * w)).
  { intros x Hx. destruct (wsign_double w Hw) as [E _]. rewrite E, <- Hx. apply (trunc_bound w Hw). }
  intros Ho. simpl in Ho. destruct_or?; try done; subst o.
  - by apply (logic_refines AND Z.land (Z.land d s)), and_trunc.
  - by apply (logic_refines TEST Z.land (Z.land d s)), and_trunc.
  - by apply (logic_refines OR Z.lor (Z.lor d s)), or_trunc.
  - by apply (logic_refines XOR Z.lxor (Z.lxor d s)), xor_trunc.
  - by apply (logic_refines NOR (fun d s => Z.lnot (Z.lor d s)) (2 ^ (8 * w) - 1 - Z.lor d s)), trunc_lnot, Hlt, or_trunc.
  - by apply (logic_refines NAND (fun d s => Z.lnot (Z.land d s)) (2 ^ (8 * w) - 1 - Z.land d s)), trunc_lnot, Hlt, and_trunc.
Qed.

(** *** Shifts *)

Lemma pending_shift k d' n r : is_in k [shl_opcode; shr_opcode; sar_opcode] = true -> n <> 0 ->
  trunc w d' = d' -> trunc w r = r ->
  pending_zncv (mk_pending true k w d' n r) =
    Some (if k =? shl_opcode then flags_shl w d' n r else if k =? shr_opcode then flags_shr w d' n r else flags_sar w d' n r).
Proof.
  intros Hk Hn Hd Hr. pending. rewrite Hk, Hd, Hr, (proj2 (Z.eqb_neq n 0)) by done. cbn [andb negb].
  unfold is_in in Hk. simpl in Hk. apply orb_true_iff in Hk as [->%Z.eqb_eq|Hk]; [done|].
  apply orb_true_iff in Hk as [->%Z.eqb_eq|Hk]; [done|]. rewrite orb_false_r in Hk. apply Z.eqb_eq in Hk as ->. done.
Qed.

Lemma trunc_shl_high n : 8 * w <= n -> trunc w (d * 2 ^ n) = 0.
Proof.
  intros Hn. pose proof (width_pos w Hw). unfold trunc. replace n with (8 * w + (n - 8 * w)) by lia.
  rewrite Z.pow_add_r by lia. rewrite Z.mul_assoc, Z.mul_comm, Z.mul_assoc. by rewrite Z.mod_mul by lia.
Qed.
Lemma wsigned_0 : (wsigned w 0 <? 0) = false.
Proof. destruct (wsign_double w Hw). unfold wsigned. by rewrite (proj2 (Z.ltb_lt 0 (wsign w))) by lia. Qed.

Lemma flags_shl_exact n r : 0 < n -> r = trunc w (d * 2 ^ n) ->
  flags_shl w d n r = mk_zncv (r =? 0) (wsigned w r <? 0) (Z.testbit d (8 * w - n))
    ((n =? 1) && xorb (Z.testbit d (8 * w - 1)) (Z.testbit d (8 * w - 2))).
Proof.
  intros Hn ->. pose proof (width_pos w Hw). unfold flags_shl. destruct (Z.leb_spec n (8 * w)) as [Hle|Hgt].
  - rewrite negative_flag by apply (trunc_bound w Hw). by destruct (Z.testbit d (8 * w - 1)), (Z.testbit d (8 * w - 2)).
  - rewrite trunc_shl_high, wsigned_0, Z.testbit_neg_r by lia. by rewrite (proj2 (Z.eqb_neq n 1)) by lia.
Qed.
Lemma shl_refines : alu_refines SHL w src dst f.
Proof.
  start alu_shl. fold d s. destruct (Z.eqb_spec s 0) as [E|Hn0]; [done|]. destruct operand_bounds as [Hd Hs].
  pose proof (width_pos w Hw).
  assert (Hr : (if s =? 8 * w then 0 else trunc w (Z.shiftl d s)) = trunc w (d * 2 ^ s)).
  { destruct (Z.eqb_spec s (8 * w)) as [Es|]; [by rewrite trunc_shl_high by lia|]. by rewrite Z.shiftl_mul_pow2 by lia. }
  destruct (Z.leb_spec s (8 * w)) as [Hle|Hgt].
  - rewrite Hr. split; [done|]. apply view_stage. rewrite pending_shift by (done || apply (trunc_trunc w Hw)).
    simpl. by rewrite flags_shl_exact by (lia || done).
  - rewrite trunc_shl_high by lia. split; [done|]. apply view_stage. rewrite pending_shift by (done || apply (trunc_trunc w Hw)).
    simpl. by rewrite flags_shl_exact by (lia || by rewrite trunc_shl_high by lia).
Qed.

Lemma shr_bound n : 0 <= n -> 0 <= d / 2 ^ n < 2 * wsign w.
Proof.
  intros Hn. destruct operand_bounds as [Hd _]. destruct (wsign_double w Hw) as [E _]. rewrite E in Hd.
  split; [apply Z.div_pos; lia|]. apply (Z.le_lt_trans _ d); [|lia]. apply Z.div_le_upper_bound; [lia|].
  assert (0 < 2 ^ n) by lia. nia.
Qed.
Lemma shr_high n : 8 * w <= n -> d / 2 ^ n = 0.
Proof.
  intros Hn. destruct operand_bounds as [Hd _]. pose proof (width_pos w Hw). apply Z.div_small. split; [lia|].
  apply (Z.lt_le_trans _ (2 ^ (8 * w))); [lia|apply Z.pow_le_mono_r; lia].
Qed.
Lemma high_bit i : 8 * w <= i -> Z.testbit d i = false.
Proof.
  intros Hi. destruct operand_bounds as [Hd _]. destruct (Z.eq_dec d 0) as [->|]; [apply Z.bits_0|]. apply Z.bits_above_log2; [lia|].
  apply (Z.lt_le_trans _ (8 * w)); [apply Z.log2_lt_pow2; lia|done].
Qed.
Lemma flags_shr_exact n r : 0 < n -> r = d / 2 ^ n ->
  flags_shr w d n r = mk_zncv (r =? 0) (wsigned w r <? 0) (Z.testbit d (n - 1)) ((n =? 1) && Z.testbit d (8 * w - 1)).
Proof.
  intros Hn ->. pose proof (width_pos w Hw). unfold flags_shr. destruct (Z.leb_spec n (8 * w)) as [Hle|Hgt].
  - by rewrite negative_flag by (apply shr_bound; lia).
  - rewrite shr_high, wsigned_0, high_bit by lia. by rewrite (proj2 (Z.eqb_neq n 1)) by lia.
Qed.
Lemma shr_refines : alu_refines SHR w src dst f.
Proof.
  start alu_shr. fold d s. destruct (Z.eqb_spec s 0) as [E|Hn0]; [done|]. destruct operand_bounds as [Hd Hs].
  pose proof (width_pos w Hw).
  assert (Ht : trunc w (d / 2 ^ s) = d / 2 ^ s) by (apply (trunc_small w Hw), shr_bound; lia).
  assert (Hr : (if s =? 8 * w then 0 else trunc w (Z.shiftr d s)) = d / 2 ^ s).
  { rewrite Z.shiftr_div_pow2 by lia. destruct (Z.eqb_spec s (8 * w)) as [Es|]; [by rewrite shr_high by lia|done]. }
  destruct (Z.leb_spec s (8 * w)) as [Hle|Hgt].
  - rewrite Hr. split; [done|]. apply view_stage. rewrite pending_shift by (done || apply (trunc_trunc w Hw)).
    simpl. by rewrite flags_shr_exact by (lia || done).
  - rewrite shr_high by lia. split; [done|]. apply view_stage. rewrite pending_shift by (done || apply (trunc_trunc w Hw)).
    simpl. by rewrite flags_shr_exact by (lia || by rewrite shr_high by lia).
Qed.

(** The signed value has the same low bits, and its sign above them. *)
Lemma wsigned_mod : wsigned w d mod 2 ^ (8 * w) = d.
Proof.
  destruct operand_bounds as [Hd _]. unfold wsigned. destruct (d <? wsign w); [by apply Z.mod_small|].
  replace (d - 2 ^ (8 * w)) with (d + (-1) * 2 ^ (8 * w)) by lia. rewrite Z.mod_add by lia. by apply Z.mod_small.
Qed.
Lemma wsigned_low_bit i : 0 <= i < 8 * w -> Z.testbit (wsigned w d) i = Z.testbit d i.
Proof. intros Hi. rewrite <- wsigned_mod at 2. by rewrite Z.mod_pow2_bits_low by lia. Qed.
Lemma sar_high n : 8 * w <= n + 1 -> wsigned w d / 2 ^ n = if wsigned w d <? 0 then -1 else 0.
Proof.
  intros Hn. pose proof (width_pos w Hw). destruct operand_bounds as [Hd _]. destruct (wsign_double w Hw) as [E Hbig]. rewrite E in Hd.
  pose proof (wsigned_bound d Hd) as Hb.
  assert (Hle : wsign w <= 2 ^ n) by (unfold wsign; apply Z.pow_le_mono_r; lia).
  destruct (Z.ltb_spec (wsigned w d) 0).
  - symmetry. apply (Z.div_unique _ _ (-1) (wsigned w d + 2 ^ n)); lia.
  - apply Z.div_small. lia.
Qed.
Lemma wsigned_sign_bit i : 8 * w - 1 <= i -> Z.testbit (wsigned w d) i = Z.testbit d (8 * w - 1).
Proof.
  intros Hi. pose proof (width_pos w Hw). rewrite <- (Z.add_0_l i) at 1. rewrite <- Z.div_pow2_bits by lia.
  rewrite sar_high by lia. rewrite <- (wsigned_low_bit (8 * w - 1)) by lia. rewrite <- (Z.add_0_l (8 * w - 1)) at 1.
  rewrite <- Z.div_pow2_bits by lia. by rewrite sar_high by lia.
Qed.
Lemma flags_sar_exact n r : 0 < n -> r = trunc w (wsigned w d / 2 ^ n) ->
  flags_sar w d n r = mk_zncv (r =? 0) (wsigned w r <? 0) (Z.testbit (wsigned w d) (n - 1)) false.
Proof.
  intros Hn ->. pose proof (width_pos w Hw). unfold flags_sar. rewrite negative_flag by apply (trunc_bound w Hw). f_equal.
  destruct (Z.ltb_spec n (8 * w)) as [Hlt|Hge]; [by rewrite wsigned_low_bit by lia|by rewrite wsigned_sign_bit by lia].
Qed.
Lemma sar_refines : alu_refines SAR w src dst f.
Proof.
  start alu_sar. fold d s. destruct (Z.eqb_spec s 0) as [E|Hn0]; [done|]. destruct operand_bounds as [Hd Hs].
  pose proof (width_pos w Hw).
  assert (Hr : (if Z.testbit d (8 * w - 1) then 2 ^ (8 * w) - 1 else 0) = trunc w (if wsigned w d <? 0 then -1 else 0)).
  { destruct (wsign_double w Hw) as [E ?]. unfold wsigned. rewrite (top_bit (8 * w - 1)) by (lia || by replace (8 * w - 1 + 1) with (8 * w) by lia).
    fold (wsign w). unfold trunc. rewrite E in *. destruct (Z.ltb_spec d (wsign w)).
    - rewrite (proj2 (Z.leb_gt _ _)), (proj2 (Z.ltb_ge d 0)) by lia. done.
    - rewrite (proj2 (Z.leb_le _ _)), (proj2 (Z.ltb_lt _ 0)) by lia. apply (Z.mod_unique _ _ (-1)); lia. }
  destruct (Z.ltb_spec s (8 * w)) as [Hlt|Hge].
  - rewrite Z.shiftr_div_pow2 by lia. split; [done|]. apply view_stage. rewrite pending_shift by (done || apply (trunc_trunc w Hw)).
    simpl. by rewrite flags_sar_exact by (lia || done).
  - rewrite Hr, <- (sar_high s) by lia. split; [done|]. apply view_stage.
    rewrite pending_shift by (done || apply (trunc_trunc w Hw)). simpl. by rewrite flags_sar_exact by (lia || done).
Qed.
End Refine.

(** C12: every two-operand instruction, at every width and from every flag
    state, deferred flags included, gives the result the instruction
    reference describes and, once resolved, the carry, overflow, sign and zero
    flags it describes; it stops with a divide error exactly for a zero
    divisor and for the quotient that does not fit.  The exception is MUL,
    whose result, Z and N are as described, but whose C and V are set when the
    product of the operands taken as unsigned integers does not fit, where the
    reference asks for signed overflow: the two agree on all flags exactly
    when both tests do. *)
Theorem lazy_flags_exact o w src dst f : op_width w = true ->
  if decide (o = MUL) then
    let d := trunc w dst in let s := trunc w src in
    let unsigned_overflow := 2 ^ (8 * w) <=? d * s in
    exists q f', alu_ref MUL w 0 d s = Some (trunc w (d * s), Some q) /\
      alu_op_fn MUL (alu_op_kind MUL) w src dst f = Some (trunc w (d * s), f') /\
      rf_view f' = store_zncv (rf_view f) (mk_zncv (f_z q) (f_n q) unsigned_overflow unsigned_overflow) /\
      (alu_refines MUL w src dst f <-> unsigned_overflow = f_v q)
  else alu_refines o w src dst f.
Proof.
  intros Hw. case_decide as Hm.
  { cbv zeta. destruct (mul_flags w Hw src dst f) as (q & f' & Er & Ef & Ev). exists q, f'.
    split; [exact Er|]. split; [exact Ef|]. split; [exact Ev|]. unfold alu_refines.
    rewrite Ef. change (alu_ref MUL w _ (trunc w dst) (trunc w src)) with (alu_ref MUL w 0 (trunc w dst) (trunc w src)).
    rewrite Er, Ev. assert (Hcv : f_c q = f_v q) by (cbn [alu_ref] in Er; by injection Er as <-). split.
    - intros [_ E]. apply (f_equal (fun x => has x bit_overflow)) in E. cbn [set_flags] in E.
      pose proof (store_zncv_flags (rf_view f) q) as (_ & _ & _ & Hv).
      destruct (store_zncv_flags (rf_view f) (mk_zncv (f_z q) (f_n q) (2 ^ (8 * w) <=? trunc w dst * trunc w src)
        (2 ^ (8 * w) <=? trunc w dst * trunc w src))) as (_ & _ & _ & Hv'). cbn [f_v] in Hv'. congruence.
    - intros ->. split; [done|]. cbn [set_flags]. f_equal. destruct q as [z n c v]. cbn in *. congruence. }
  destruct o.
  - by apply add_refines.
  - by apply sub_refines.
  - done.
  - by apply div_refines.
  - by apply mod_refines.
  - by apply udiv_refines.
  - by apply adc_refines.
  - by apply sbb_refines.
  - by apply umod_refines.
  - apply bitwise_refines; [done|by left].
  - apply bitwise_refines; [done|]. simpl. tauto.
  - apply bitwise_refines; [done|]. simpl. tauto.
  - apply bitwise_refines; [done|]. simpl. tauto.
  - apply bitwise_refines; [done|]. simpl. tauto.
  - by apply shl_refines.
  - by apply shr_refines.
  - by apply sar_refines.
  - by apply cmp_refines.
  - apply bitwise_refines; [done|]. simpl. tauto.
Qed.

Lemma lazy_flags_exact_witness :
  op_width 1 = true /\ alu_refines SBB 1 0x80 0x7F (stage_pending_flags add_opcode 8 (2 ^ 64 - 1) 1 0 (mk_fs 0 no_pending)).
Proof. split; [reflexivity|]. exact (lazy_flags_exact SBB 1 _ _ _ eq_refl). Defined.

(** 0xFF * 0xFF at one byte is (-1) * (-1): no signed overflow, and C and V are
    set nevertheless. *)
Lemma mul_flags_differ : alu_refines MUL 1 0xFF 0xFF (mk_fs 0 no_pending) -> False.
Proof. intros [_ E]. vm_compute in E. discriminate. Qed.

(** ** Comparisons *)

(** The order of two integers each condition names. *)
Definition condition_means (cond d s sd ss : Z) : bool :=
  match cond with
  | 0 => d =? s
  | 1 => negb (d =? s)
  | 2 => sd <? ss
  | 3 => d <? s
  | 4 => ss <? sd
  | 5 => s <? d
  | 6 => ss <=? sd
  | 7 => sd <=? ss
  | 8 => d <=? s
  | _ => s <=? d
  end.

Lemma condition_store rf q cond : 0 <= cond <= 9 ->
  condition_holds (store_zncv rf q) cond =
    Some (match cond with
          | 0 => f_z q | 1 => negb (f_z q) | 2 => xorb (f_n q) (f_v q) | 3 => f_c q
          | 4 => negb (f_z q) && negb (xorb (f_n q) (f_v q)) | 5 => negb (f_c q) && negb (f_z q)
          | 6 => negb (xorb (f_n q) (f_v q)) | 7 => f_z q || xorb (f_n q) (f_v q)
          | 8 => f_c q || f_z q | _ => negb (f_c q) end).
Proof.
  intros Hc. destruct (store_zncv_flags rf q) as (Ez & En & Ec & Ev). unfold condition_holds. rewrite Ez, En, Ec, Ev.
  assert (In cond [0; 1; 2; 3; 4; 5; 6; 7; 8; 9]) as Hin by (simpl; lia). simpl in Hin.
  destruct_or! Hin; try done; subst cond; by destruct q as [[] [] [] []].
Qed.

(** After a comparison at any width, every conditional jump and set
    decides the integer order its name says, unsigned for B, A, BE and AE and
    signed for LT, GT, GE and LE, overflow and all. *)
Theorem compare_decides w src dst f cond : op_width w = true -> 0 <= cond <= 9 ->
  exists r f', alu_sub cmp_opcode w src dst f = Some (r, f') /\
    condition_holds (rf_view f') cond =
      Some (condition_means cond (trunc w dst) (trunc w src) (wsigned w (trunc w dst)) (wsigned w (trunc w src))).
Proof.
  intros Hw Hc. pose proof (cmp_refines w Hw src dst f) as H. unfold alu_refines in H. cbn [alu_op_fn alu_op_kind alu_ref] in H.
  destruct (alu_sub cmp_opcode w src dst f) as [[r f']|]; [|done]. destruct H as [_ H]. exists r, f'. split; [done|].
  rewrite H. cbn [set_flags]. rewrite condition_store by done.
  destruct (wsign_double w Hw) as [E Hbig]. pose proof (trunc_bound w Hw dst) as Hd. pose proof (trunc_bound w Hw src) as Hs.
  set (d := trunc w dst) in *. set (s := trunc w src) in *. unfold exact_zncv. cbn [f_z f_n f_c f_v].
  rewrite (trunc_sub w Hw (d - s)) by lia. unfold wsigned. rewrite E.
  assert (In cond [0; 1; 2; 3; 4; 5; 6; 7; 8; 9]) as Hin by (simpl; lia). simpl in Hin.
  destruct_or! Hin; try done; subst cond; cbn [condition_means]; f_equal; zcases.
Qed.

Lemma compare_decides_witness : exists r f', alu_sub cmp_opcode 2 1 0x8000 (mk_fs 0 no_pending) = Some (r, f') /\
  condition_holds (rf_view f') 2 = Some true.
Proof.
  destruct (compare_decides 2 1 0x8000 (mk_fs 0 no_pending) 2) as (r & f' & E & H); [reflexivity|lia|].
  exists r, f'. split; [exact E|exact H].
Defined.

(** ** Wide products and one-operand instructions through the staging bank *)

Section Unary.
Context (w : Z) (Hw : op_width w = true).

Lemma wide_split p : 0 <= p < 2 ^ (16 * w) -> wide_lo w p + 2 ^ (8 * w) * wide_hi w p = p.
Proof using Hw.
  intros Hp. pose proof (width_pos w Hw). unfold wide_lo, wide_hi, trunc. rewrite (Z.mod_small p (2 ^ (16 * w))), Z.shiftr_div_pow2 by lia.
  rewrite (Z.mod_small (p / _)); [pose proof (Z.div_mod p (2 ^ (8 * w))); lia|].
  split; [apply Z.div_pos; lia|]. apply Z.div_lt_upper_bound; [lia|]. rewrite <- Z.pow_add_r by lia.
  replace (8 * w + 8 * w) with (16 * w) by lia. lia.
Qed.
Lemma wide_mod p : wide_lo w p = wide_lo w (p mod 2 ^ (16 * w)) /\ wide_hi w p = wide_hi w (p mod 2 ^ (16 * w)).
Proof using Hw.
  pose proof (width_pos w Hw). unfold wide_hi. rewrite Z.mod_mod by lia. split; [|done]. unfold wide_lo, trunc.
  replace (16 * w) with (8 * w + 8 * w) by lia. rewrite Z.pow_add_r, Z.rem_mul_r by lia.
  rewrite (Z.mul_comm (2 ^ (8 * w)) (_ mod _)), Z.mod_add by lia. by rewrite Z.mod_mod by lia.
Qed.
End Unary.

(** The wide multiplications leave in the bank the low and high halves of
    the full product, signed for MULW and unsigned for UMULW, at every width;
    carry says that the high half is not zero, and overflow that the product
    does not fit the low half. *)
Theorem wide_multiply_exact w op1 op2 f : op_width w = true ->
  let d := trunc w op2 in let s := trunc w op1 in
  (exists hi lo f', run_alu_case mulw_opcode w op1 op2 f = Some (hi, lo, f')
    /\ (lo + 2 ^ (8 * w) * hi) mod 2 ^ (16 * w) = (wsigned w d * wsigned w s) mod 2 ^ (16 * w)
    /\ has (rf_view f') bit_overflow = negb ((- wsign w <=? wsigned w d * wsigned w s) && (wsigned w d * wsigned w s <? wsign w))
    /\ has (rf_view f') bit_carryout = negb (hi =? 0))
  /\ exists hi lo f', run_alu_case umulw_opcode w op1 op2 f = Some (hi, lo, f')
    /\ lo + 2 ^ (8 * w) * hi = d * s
    /\ has (rf_view f') bit_overflow = (2 ^ (8 * w) <=? d * s)
    /\ has (rf_view f') bit_carryout = (2 ^ (8 * w) <=? d * s).
Proof.
  intros Hw d s. pose proof (width_pos w Hw). destruct (wsign_double w Hw) as [E Hbig].
  pose proof (trunc_bound w Hw op2) as Hd. pose proof (trunc_bound w Hw op1) as Hs. fold d in Hd. fold s in Hs.
  assert (Hsq : 2 ^ (16 * w) = 2 ^ (8 * w) * 2 ^ (8 * w)) by (rewrite <- Z.pow_add_r by lia; f_equal; lia).
  split.
  - set (p := wsigned w d * wsigned w s). exists (wide_hi w p), (wide_lo w p), (stage_pending_flags mulw_opcode w d s (wide_lo w p) f).
    split_and!; [unfold run_alu_case; rewrite Hw; done| | |].
    + destruct (wide_mod w Hw p) as [-> ->]. rewrite wide_split; [by apply Z.mod_mod; lia|done|apply Z.mod_pos_bound; lia].
    + rewrite (view_stage _ _ _ _ _ _ (flags_mulw w d s)).
      2: { by pending_with Hw; rewrite !(trunc_small w Hw d), !(trunc_small w Hw s) by done. }
      destruct (store_zncv_flags (rf_view f) (flags_mulw w d s)) as (_ & _ & _ & ->). unfold flags_mulw. cbn [f_v]. fold p. zcases.
    + rewrite (view_stage _ _ _ _ _ _ (flags_mulw w d s)).
      2: { by pending_with Hw; rewrite !(trunc_small w Hw d), !(trunc_small w Hw s) by done. }
      by destruct (store_zncv_flags (rf_view f) (flags_mulw w d s)) as (_ & _ & -> & _).
  - set (p := d * s). exists (wide_hi w p), (wide_lo w p), (stage_pending_flags umulw_opcode w d s (wide_lo w p) f).
    assert (Hp : 0 <= p < 2 ^ (16 * w)) by (unfold p; rewrite Hsq, E; nia).
    assert (Hhi : negb (wide_hi w p =? 0) = (2 ^ (8 * w) <=? p)).
    { pose proof (wide_split w Hw p Hp). pose proof (trunc_bound w Hw p) as Hlo. fold (wide_lo w p) in Hlo.
      pose proof (trunc_bound w Hw (Z.shiftr (p mod 2 ^ (16 * w)) (8 * w))) as Hhi. fold (wide_hi w p) in Hhi. rewrite E in *.
      destruct (Z.eqb_spec (wide_hi w p) 0) as [Hz|Hz]; symmetry; [apply Z.leb_gt|apply Z.leb_le]; nia. }
    assert (Hview : rf_view (stage_pending_flags umulw_opcode w d s (wide_lo w p) f) = store_zncv (rf_view f) (flags_umulw w d s)).
    { apply view_stage. by pending_with Hw; rewrite !(trunc_small w Hw d), !(trunc_small w Hw s) by done. }
    destruct (store_zncv_flags (rf_view f) (flags_umulw w d s)) as (_ & _ & Ec & Ev).
    split_and!; [unfold run_alu_case; rewrite Hw; done|by apply wide_split|by rewrite Hview, Ev|by rewrite Hview, Ec].
Qed.

Lemma wide_multiply_exact_witness : exists hi lo f', run_alu_case mulw_opcode 1 0xFF 0x80 (mk_fs 0 no_pending) = Some (hi, lo, f')
  /\ (lo + 2 ^ 8 * hi) mod 2 ^ 16 = 128.
Proof.
  destruct (wide_multiply_exact 1 0xFF 0x80 (mk_fs 0 no_pending)) as [(hi & lo & f' & E & H & _) _]; [reflexivity|].
  exists hi, lo, f'. split; [exact E|]. exact H.
Defined.

(** INC, DEC, NEG and NOT, and their flags: NEG's overflow is the one value
    whose negation does not fit. *)
Theorem unary_exact w op1 op2 f : op_width w = true ->
  let d := trunc w op2 in let sd := wsigned w d in
  let runs op r q := exists f', run_alu_case op w op1 op2 f = Some (op1, r, f') /\ rf_view f' = store_zncv (rf_view f) q in
  runs alu_uop_inc (trunc w (d + 1)) (exact_zncv w (d + 1) (sd + 1))
  /\ runs alu_uop_dec (trunc w (d - 1)) (exact_zncv w (d - 1) (sd - 1))
  /\ runs alu_uop_neg (trunc w (- d)) (mk_zncv (d =? 0) (wsigned w (trunc w (- d)) <? 0) (negb (d =? 0)) (d =? wsign w))
  /\ runs alu_uop_not (2 ^ (8 * w) - 1 - d) (mk_zncv (2 ^ (8 * w) - 1 - d =? 0) (wsigned w (2 ^ (8 * w) - 1 - d) <? 0) false false).
Proof.
  intros Hw d sd runs. pose proof (width_pos w Hw). destruct (wsign_double w Hw) as [E Hbig].
  pose proof (trunc_bound w Hw op2) as Hd. fold d in Hd.
  assert (H1 : trunc w 1 = 1) by (apply trunc_small; [done|lia]).
  assert (Hs1 : wsigned w 1 = 1) by (unfold wsigned; rewrite (proj2 (Z.ltb_lt _ _)) by lia; done).
  assert (Hrun : forall k s r q, run_alu_case k w op1 op2 f = Some (op1, r, stage_pending_flags k w d s r f) ->
    pending_zncv (mk_pending true k w d s r) = Some q -> runs k r q).
  { intros k s r q Hr Hq. eexists. split; [exact Hr|]. by apply view_stage. }
  split_and!.
  - apply (Hrun _ 1); [unfold run_alu_case; rewrite Hw; done|]. pending_with Hw. rewrite H1, (trunc_small w Hw d) by done.
    pose proof (flags_add_exact w Hw d 1) as Hx. rewrite Hs1 in Hx. fold sd in Hx. by rewrite <- Hx by lia.
  - apply (Hrun _ 1); [unfold run_alu_case; rewrite Hw; done|]. pending_with Hw. rewrite H1, (trunc_small w Hw d) by done.
    pose proof (flags_sub_exact w Hw d 1) as Hx. rewrite Hs1 in Hx. fold sd in Hx. by rewrite <- Hx by lia.
  - apply (Hrun _ 0); [unfold run_alu_case; rewrite Hw; done|]. pending_with Hw. rewrite (trunc_small w Hw d) by done. f_equal.
    change (flags_neg w d (trunc w (- d)) = mk_zncv (d =? 0) (wsigned w (trunc w (- d)) <? 0) (negb (d =? 0)) (d =? wsign w)).
    unfold flags_neg. rewrite (sign_bit_and2 w Hw), !(sign_bit w Hw) by (done || apply (trunc_bound w Hw)).
    rewrite (trunc_sub w Hw) by lia. unfold wsigned. rewrite E. f_equal; zcases.
  - assert (Hn : trunc w (Z.lnot d) = 2 ^ (8 * w) - 1 - d) by (apply (trunc_lnot w Hw); lia).
    exists (stage_pending_flags alu_uop_not w 0 0 (2 ^ (8 * w) - 1 - d) f).
    split; [unfold run_alu_case; rewrite Hw; fold d; rewrite Hn; done|]. apply (view_logic w Hw); [done|lia].
Qed.
