(* ===== verification/V1Machine.v ===== *)
(** * The first-generation machine: state, address translation, traps

    The globals of cpu.cpp as one record, the computations over it, the
    register and memory helpers every instruction goes through, the Sv48
    translation with its two caches, trap delivery, the interrupt controller
    and the timer.  Guest memory is the flat memory that V1Memory shows the
    block-mapped [memory_module] implements.

    An instruction can end early by a C++ exception: [page_fault_redirect]
    once a page fault has been delivered, [guest_trap_halt] for a trap with
    no handler.  [Undefined] is C++ undefined behaviour (a copy larger than
    the host variable it goes to); [FloatingPoint] stands for the
    floating-point instructions, which are not modelled.  The JIT, the block
    survey and the performance counters are off. *)
From Stdlib Require Import ZArith Lia Bool.
From stdpp Require Import base list numbers gmap.
From S2P Require Import Prelude Monad State Memory V1Memory V1Alu.

(** ** Data *)

Record tlb_entry : Type := mk_tlb { te_valid : bool; te_tag : Z; te_ppn : Z; te_r : bool; te_w : bool; te_x : bool; te_u : bool }.
Definition tlb_empty : tlb_entry := mk_tlb false 0 0 false false false false.
Record fast_page : Type := mk_fast { fp_key : Z; fp_pa_page : Z }.

Record timer_device : Type := mk_timer {
  t_period : Z; t_control : Z; t_status : Z; t_counter : Z; t_irq_vector : Z }.

(** What is behind a port: a passive register, one of the timer's three
    registers, or a device of the host. *)
Inductive port_device : Type := Passive | TimerPeriod | TimerControl | TimerStatus | HostDevice.

Record cpu (H : Type) : Type := mk_cpu {
  c_regs : list Z;                 (* the 16 operand registers; slot 12 is in [c_fs] *)
  c_fs : flag_state;               (* RF and the deferred flags *)
  c_ri : Z;
  c_alu : arithmetic_logic_unit;
  c_operand1 : Z;
  c_operand2 : Z;
  c_mem : mem;
  c_cr : list Z;                   (* control_regs *)
  c_tlb : Z -> tlb_entry;          (* software_tlb *)
  c_fast : Z -> Z -> fast_page;    (* fast_pages, by access kind and way *)
  c_victim : Z -> Z;               (* fast_page_victim *)
  c_instr_pc : Z;                  (* current_instr_pc *)
  c_delivering : bool;             (* delivering_trap *)
  c_fault_stale : bool;            (* page_fault_detail_is_stale *)
  c_power : bool;                  (* is_power_on *)
  c_irq_pending : bool;
  c_irq_mask : gset Z;             (* irq_pending_mask *)
  c_timer : option timer_device;   (* active_timer_ptr *)
  c_devices : gmap Z port_device;
  c_ports : gmap Z Z;              (* the words of the passive devices *)
  c_input : bool;                  (* active_input_ptr is set *)
  c_input_ctr : Z;                 (* input_tick_ctr_ *)
  c_host : H
}.
Arguments mk_cpu {H}.
Arguments c_regs {H}. Arguments c_fs {H}. Arguments c_ri {H}. Arguments c_alu {H}. Arguments c_operand1 {H}.
Arguments c_operand2 {H}. Arguments c_mem {H}. Arguments c_cr {H}. Arguments c_tlb {H}. Arguments c_fast {H}.
Arguments c_victim {H}. Arguments c_instr_pc {H}. Arguments c_delivering {H}. Arguments c_fault_stale {H}.
Arguments c_power {H}. Arguments c_irq_pending {H}. Arguments c_irq_mask {H}. Arguments c_timer {H}.
Arguments c_devices {H}. Arguments c_ports {H}. Arguments c_input {H}. Arguments c_input_ctr {H}. Arguments c_host {H}.

(** The host: the devices behind the [on_port_*] hooks, which see guest
    memory and may raise interrupts, the native system calls, which see the
    argument registers, may write memory and may power the machine off, and
    the input source. *)
Record sys_result (H : Type) : Type := mk_sys { sr_rv : Z; sr_mem : mem; sr_host : H; sr_power_off : bool }.
Arguments mk_sys {H}. Arguments sr_rv {H}. Arguments sr_mem {H}. Arguments sr_host {H}. Arguments sr_power_off {H}.
Inductive tick_result : Type := NotReady | Raised | Latched | Terminal.
Class V1Host (H : Type) : Type := {
  host_port_write : Z -> Z -> Z -> mem -> H -> H * list Z;
  host_port_read : Z -> Z -> mem -> H -> Z * H * list Z;
  host_sys_call : Z -> list Z -> mem -> H -> sys_result H;
  host_input_tick : H -> tick_result * H * list Z;
  host_rearm_ready_edge : H -> H
}.

Section Setters.
Context {H : Type}.
Definition eta_cpu (r : cpu H) : cpu H :=
  mk_cpu (c_regs r) (c_fs r) (c_ri r) (c_alu r) (c_operand1 r) (c_operand2 r) (c_mem r) (c_cr r) (c_tlb r) (c_fast r)
    (c_victim r) (c_instr_pc r) (c_delivering r) (c_fault_stale r) (c_power r) (c_irq_pending r) (c_irq_mask r)
    (c_timer r) (c_devices r) (c_ports r) (c_input r) (c_input_ctr r) (c_host r).
#[global] Instance set_c_regs : Setter (@c_regs H). Proof. mk_setter eta_cpu. Defined.
#[global] Instance set_c_fs : Setter (@c_fs H). Proof. mk_setter eta_cpu. Defined.
#[global] Instance set_c_ri : Setter (@c_ri H). Proof. mk_setter eta_cpu. Defined.
#[global] Instance set_c_alu : Setter (@c_alu H). Proof. mk_setter eta_cpu. Defined.
#[global] Instance set_c_operand1 : Setter (@c_operand1 H). Proof. mk_setter eta_cpu. Defined.
#[global] Instance set_c_operand2 : Setter (@c_operand2 H). Proof. mk_setter eta_cpu. Defined.
#[global] Instance set_c_mem : Setter (@c_mem H). Proof. mk_setter eta_cpu. Defined.
#[global] Instance set_c_cr : Setter (@c_cr H). Proof. mk_setter eta_cpu. Defined.
#[global] Instance set_c_tlb : Setter (@c_tlb H). Proof. mk_setter eta_cpu. Defined.
#[global] Instance set_c_fast : Setter (@c_fast H). Proof. mk_setter eta_cpu. Defined.
#[global] Instance set_c_victim : Setter (@c_victim H). Proof. mk_setter eta_cpu. Defined.
#[global] Instance set_c_instr_pc : Setter (@c_instr_pc H). Proof. mk_setter eta_cpu. Defined.
#[global] Instance set_c_delivering : Setter (@c_delivering H). Proof. mk_setter eta_cpu. Defined.
#[global] Instance set_c_fault_stale : Setter (@c_fault_stale H). Proof. mk_setter eta_cpu. Defined.
#[global] Instance set_c_power : Setter (@c_power H). Proof. mk_setter eta_cpu. Defined.
#[global] Instance set_c_irq_pending : Setter (@c_irq_pending H). Proof. mk_setter eta_cpu. Defined.
#[global] Instance set_c_irq_mask : Setter (@c_irq_mask H). Proof. mk_setter eta_cpu. Defined.
#[global] Instance set_c_timer : Setter (@c_timer H). Proof. mk_setter eta_cpu. Defined.
#[global] Instance set_c_ports : Setter (@c_ports H). Proof. mk_setter eta_cpu. Defined.
#[global] Instance set_c_input_ctr : Setter (@c_input_ctr H). Proof. mk_setter eta_cpu. Defined.
#[global] Instance set_c_host : Setter (@c_host H). Proof. mk_setter eta_cpu. Defined.
End Setters.

(** ** Computations *)

Inductive xstop : Type :=
  | Redirect               (* page_fault_redirect *)
  | TrapHalt (cause : Z)   (* guest_trap_halt *)
  | Undefined
  | FloatingPoint.
#[export] Instance xstop_eq_dec : EqDecision xstop.
Proof. solve_decision. Defined.

Inductive xres (A : Type) : Type := XRet (a : A) | XStop (e : xstop).
Arguments XRet {A} a.
Arguments XStop {A} e.

Definition X (H A : Type) : Type := cpu H -> xres A * cpu H.

Section Ops.
Context {H : Type}.
#[global] Instance X_ret : MRet (X H) := fun A a s => (XRet a, s).
#[global] Instance X_bind : MBind (X H) := fun A B f m s =>
  match m s with
  | (XRet a, s') => f a s'
  | (XStop e, s') => (XStop e, s')
  end.
Definition xgets {A} (f : cpu H -> A) : X H A := fun s => (XRet (f s), s).
Definition xmodify (f : cpu H -> cpu H) : X H unit := fun s => (XRet tt, f s).
Definition xthrow {A} (e : xstop) : X H A := fun s => (XStop e, s).
Definition xwhen (b : bool) (m : X H unit) : X H unit := if b then m else mret tt.
End Ops.

(** Trap causes and tables. *)
Definition cause_illegal_instruction : Z := 0.
Definition cause_divide_error : Z := 2.
Definition cause_breakpoint : Z := 3.
Definition cause_privileged_op : Z := 4.
Definition cause_syscall : Z := 7.
Definition cause_page_fault : Z := 8.
Definition trap_vector_table_base : Z := 0x1000.
Definition trap_vector_entry_size : Z := 8.

Definition REG_RV : Z := 11.
Definition REG_RF : Z := 12.
Definition REG_RB : Z := 13.
Definition REG_RP : Z := 14.
Definition REG_RS : Z := 15.

(** A reference to a register: an operand register, the two operands of the
    staging bank, the two scratch operands, a control register. *)
Inductive rref : Type := RReg (i : Z) | RAlu1 | RAlu2 | ROperand1 | ROperand2 | RControl (i : Z).

Section Machine.
Context {H : Type} `{V1Host H}.
Abbreviation C := (cpu H).
Abbreviation XM := (X H).

Definition reg_get (s : C) (i : Z) : Z := if i =? REG_RF then fs_rf (c_fs s) else zget (c_regs s) i.
Definition reg_set (i v : Z) (s : C) : C :=
  if i =? REG_RF then s <| c_fs := mk_fs v (fs_pending (c_fs s)) |> else s <| c_regs := zinsert i v (c_regs s) |>.
Definition rget (s : C) (r : rref) : Z :=
  match r with
  | RReg i => reg_get s i
  | RAlu1 => alu_op1 (c_alu s)
  | RAlu2 => alu_op2 (c_alu s)
  | ROperand1 => c_operand1 s
  | ROperand2 => c_operand2 s
  | RControl i => zget (c_cr s) i
  end.
Definition set_alu1 (v : Z) (a : arithmetic_logic_unit) : arithmetic_logic_unit := mk_alu (alu_b0 a) (alu_b1 a) (alu_b2 a) v (alu_op2 a).
Definition set_alu2 (v : Z) (a : arithmetic_logic_unit) : arithmetic_logic_unit := mk_alu (alu_b0 a) (alu_b1 a) (alu_b2 a) (alu_op1 a) v.
Definition rput (r : rref) (v : Z) (s : C) : C :=
  match r with
  | RReg i => reg_set i v s
  | RAlu1 => s <| c_alu := set_alu1 v (c_alu s) |>
  | RAlu2 => s <| c_alu := set_alu2 v (c_alu s) |>
  | ROperand1 => s <| c_operand1 := v |>
  | ROperand2 => s <| c_operand2 := v |>
  | RControl i => s <| c_cr := zinsert i v (c_cr s) |>
  end.

Definition flag (b : Z) (s : C) : bool := has (fs_rf (c_fs s)) b.
Definition set_flag (b : Z) (v : bool) (s : C) : C := reg_set REG_RF (flag_set (fs_rf (c_fs s)) b v) s.
Definition privileged (s : C) : bool := flag bit_privilege s.
Definition rp (s : C) : Z := reg_get s REG_RP.
Definition rs (s : C) : Z := reg_get s REG_RS.
Definition add_rp (n : Z) : XM unit := xmodify (fun s => reg_set REG_RP (u64 (rp s + n)) s).

Definition materialize : XM unit := xmodify (fun s => s <| c_fs := materialize_flags (c_fs s) |>).

(** The one place a register destination is written: a user-mode write to RF
    keeps its privileged bits. *)
Definition commit_reg_w0 (dst : rref) (new_w0 : Z) : XM unit := xmodify (fun s =>
  let v := match dst with
           | RReg i => if (i =? REG_RF) && negb (privileged s)
                       then Z.lor (clr new_w0 rf_privileged_mask) (Z.land (fs_rf (c_fs s)) rf_privileged_mask)
                       else new_w0
           | _ => new_w0
           end in
  rput dst v s).

Definition write_subreg_bits (dst : rref) (sr bits : Z) : XM unit :=
  w ← xgets (fun s => rget s dst); commit_reg_w0 dst (merge_subreg w sr bits).
Definition clr_reg (dst : rref) (sr : Z) : XM unit := write_subreg_bits dst sr 0.
Definition set_reg (dst : rref) (sr : Z) (condition : bool) : XM unit :=
  write_subreg_bits dst sr (if condition then 1 else 0).
Definition copy_regval_reg (src src_sr : Z) (dst : rref) (dst_sr : Z) : XM unit :=
  write_subreg_bits dst dst_sr (read_subreg_signext src src_sr).
Definition copy_regval_reg_zext (src src_sr : Z) (dst : rref) (dst_sr : Z) : XM unit :=
  write_subreg_bits dst dst_sr (read_subreg_bits src src_sr).

(** ** Address translation *)

Definition kind_index (k : access_kind) : Z := match k with Fetch => 0 | Load => 1 | Store => 2 end.
Definition tlb_size : Z := 64.
Definition vpn_tag_mask : Z := bit 36 - 1.
Definition fast_page_ways : Z := 3.
Definition vpn_of (va : Z) : Z := Z.land (Z.shiftr va 12) vpn_tag_mask.
Definition tlb_index (va : Z) : Z := Z.land (Z.shiftr va 12) (tlb_size - 1).
Definition fast_page_key (s : C) (va : Z) : Z :=
  Z.lor (Z.shiftl (vpn_of va) 1) (if privileged s then 1 else 0) + 1.

Definition fupd {A} (f : Z -> A) (i : Z) (a : A) : Z -> A := fun j => if j =? i then a else f j.

(** The way of a kind that holds a key. *)
Definition fast_probe (s : C) (kind : access_kind) (key : Z) : option fast_page :=
  let k := kind_index kind in
  let hit w := if fp_key (c_fast s k w) =? key then Some (c_fast s k w) else None in
  match hit 0 with Some p => Some p | None => match hit 1 with Some p => Some p | None => hit 2 end end.

(** Install in the round-robin victim way and advance it. *)
Definition fast_install (kind : access_kind) (key pa_page : Z) (s : C) : C :=
  let k := kind_index kind in let v := c_victim s k in
  s <| c_fast := fupd (c_fast s) k (fupd (c_fast s k) v (mk_fast key pa_page)) |>
    <| c_victim := fupd (c_victim s) k (u8 ((v + 1) mod fast_page_ways)) |>.
Definition tlb_install (va ppn : Z) (r w x u : bool) (s : C) : C :=
  s <| c_tlb := fupd (c_tlb s) (tlb_index va) (mk_tlb true (vpn_of va) ppn r w x u) |>.

Section Walk.
(** What a failed translation does. *)
Context (fault : forall A : Type, Z -> access_kind -> bool -> XM A).

Definition read_pte (s : C) (pa : Z) : Z := phys_load 8 (c_mem s) pa.

Fixpoint walk_level (level : nat) (va : Z) (kind : access_kind) (table_base : Z) : XM Z :=
  let sh := 12 + Z.of_nat level * 9 in
  let vpn := Z.land (Z.shiftr va sh) 0x1FF in
  pte ← xgets (fun s => read_pte s (u64 (table_base + vpn * 8)));
  if negb (has pte 0x1) then fault Z va kind false else
  let r := has pte 0x2 in let w := has pte 0x4 in
  let x := has pte 0x8 in let u := has pte 0x10 in
  if r || w || x then
    if w && negb r then fault Z va kind false else
    let offset_mask := bit sh - 1 in
    if has pte (clr offset_mask 0xFFF) then fault Z va kind false else
    p ← xgets privileged;
    if negb (leaf_permits kind p r w x u) then fault Z va kind true else
    let pa := Z.lor (clr pte 0xFFF) (Z.land va offset_mask) in
    xmodify (fun s => fast_install kind (fast_page_key s va) (clr pa 0xFFF) s) ;;
    xwhen (Nat.eqb level 0) (xmodify (tlb_install va (clr pte 0xFFF) r w x u)) ;;
    mret pa
  else
    match level with
    | O => fault Z va kind false
    | S level' => walk_level level' va kind (clr pte 0xFFF)
    end.
Definition mmu_walk (va : Z) (kind : access_kind) : XM Z :=
  base ← xgets (fun s => clr (zget (c_cr s) 0) 0xFFF);
  walk_level 3 va kind base.

Definition translate_slow (va : Z) (kind : access_kind) : XM Z :=
  e ← xgets (fun s => c_tlb s (tlb_index va));
  if te_valid e && (te_tag e =? vpn_of va) then
    p ← xgets privileged;
    if negb (leaf_permits kind p (te_r e) (te_w e) (te_x e) (te_u e)) then fault Z va kind true else
    xmodify (fun s => fast_install kind (fast_page_key s va) (te_ppn e) s) ;;
    mret (Z.lor (te_ppn e) (Z.land va 0xFFF))
  else mmu_walk va kind.

Definition translate_with (va : Z) (kind : access_kind) : XM Z :=
  mode ← xgets (fun s => Z.land (zget (c_cr s) 0) 0xF);
  if negb (mode =? 1) then mret va else
  hit ← xgets (fun s => fast_probe s kind (fast_page_key s va));
  match hit with
  | Some fp => mret (Z.lor (fp_pa_page fp) (Z.land va 0xFFF))
  | None => translate_slow va kind
  end.

(** The store of a subregister's bytes at a translated address. *)
Definition store_with (size va v : Z) : XM unit :=
  pa ← translate_with va Store;
  xmodify (fun s => if op_width size then s <| c_mem := phys_store size (c_mem s) pa v |> else s).

(** ** Trap delivery *)

Definition push_word_with (value : Z) : XM unit :=
  xmodify (fun s => reg_set REG_RS (u64 (rs s - 8)) s) ;;
  sp ← xgets rs;
  store_with 8 sp value.

Definition read_vector_entry (s : C) (vector : Z) : Z :=
  phys_load 8 (c_mem s) (trap_vector_table_base + vector * trap_vector_entry_size).

Definition deliver_vectored_with (vector subcode aux saved_pc : Z) : XM unit :=
  handler ← xgets (fun s => read_vector_entry s vector);
  if handler =? 0 then xthrow (TrapHalt vector) else
  materialize ;;
  saved_rf ← xgets (fun s => fs_rf (c_fs s));
  xmodify (set_flag bit_privilege true) ;;
  let cause := Z.lor vector (Z.shiftl subcode 8) in
  push_word_with saved_pc ;;
  push_word_with saved_rf ;;
  push_word_with cause ;;
  push_word_with aux ;;
  xmodify (set_flag bit_interrupt_enabled false) ;;
  xmodify (reg_set REG_RP handler).
End Walk.

(** A page fault while a trap frame is being pushed is a double fault. *)
Definition double_fault (A : Type) (va : Z) (kind : access_kind) (present : bool) : XM A :=
  xmodify (fun s => s <| c_fault_stale := true |>) ;;
  xthrow (TrapHalt cause_page_fault).

Definition fault_error (s : C) (kind : access_kind) (present : bool) : Z :=
  Z.lor (if present then 1 else 0) (Z.lor (Z.shiftl (kind_index kind) 1) (if privileged s then 0 else 8)).

Definition raise_page_fault (A : Type) (va : Z) (kind : access_kind) (present : bool) : XM A :=
  d ← xgets c_delivering;
  if (d : bool) then double_fault A va kind present else
  xmodify (fun s => s <| c_cr := zinsert 2 (fault_error s kind present) (zinsert 1 va (c_cr s)) |>) ;;
  xmodify (fun s => s <| c_delivering := true |>) ;;
  pc ← xgets c_instr_pc;
  deliver_vectored_with double_fault cause_page_fault 0 0 pc ;;
  xmodify (fun s => s <| c_delivering := false |>) ;;
  xthrow Redirect.

Definition translate : Z -> access_kind -> XM Z := translate_with raise_page_fault.
Definition deliver_vectored : Z -> Z -> Z -> Z -> XM unit := deliver_vectored_with raise_page_fault.

Definition tlb_flush_all (s : C) : C :=
  s <| c_tlb := fun i => let e := c_tlb s i in mk_tlb false (te_tag e) (te_ppn e) (te_r e) (te_w e) (te_x e) (te_u e) |>
    <| c_fast := fun k w => mk_fast 0 (fp_pa_page (c_fast s k w)) |>.
Definition tlb_flush_va (va : Z) (s : C) : C :=
  let idx := tlb_index va in let e := c_tlb s idx in
  let s1 := if te_valid e && (te_tag e =? vpn_of va)
            then s <| c_tlb := fupd (c_tlb s) idx (mk_tlb false (te_tag e) (te_ppn e) (te_r e) (te_w e) (te_x e) (te_u e)) |> else s in
  s1 <| c_fast := fun k w => let f := c_fast s1 k w in
          if negb (fp_key f =? 0) && (Z.shiftr (fp_key f - 1) 1 =? vpn_of va) then mk_fast 0 (fp_pa_page f) else f |>.

(** ** Memory operands *)

(** [mm.read] of [count] bytes into a zeroed register: counts above 8 shift
    past the word. *)
Definition mm_fetch (pa count : Z) : XM Z :=
  if 8 <? count then xthrow Undefined else xgets (fun s => phys_load (Z.to_nat count) (c_mem s) pa).
(** [read_into] of [size] bytes into an 8-byte variable. *)
Definition read_raw (pa size : Z) : XM Z :=
  if 8 <? size then xthrow Undefined else xgets (fun s => phys_load (Z.to_nat size) (c_mem s) pa).

Definition copy_memval_reg (address size : Z) (dst : rref) (dst_sr : Z) (kind : access_kind) : XM unit :=
  pa ← translate address kind;
  raw ← read_raw pa size;
  write_subreg_bits dst dst_sr (sign_fill raw (imm_size_subreg_map size)).
Definition copy_memval_reg_zext (address size : Z) (dst : rref) (dst_sr : Z) (kind : access_kind) : XM unit :=
  pa ← translate address kind;
  raw ← read_raw pa size;
  write_subreg_bits dst dst_sr raw.

(** The data an address operand loads: as many bytes as [dst_sr] holds. *)
Definition load_at (va dst_sr : Z) : XM Z := pa ← translate va Load; mm_fetch pa (subreg_size_map dst_sr).
(** An address written in the instruction. *)
Definition fetch_address (address size : Z) : XM Z := pa ← translate address Fetch; mm_fetch pa size.

Definition copy_regaddr_reg (src src_sr : Z) (dst : rref) (dst_sr : Z) : XM unit :=
  data ← load_at (read_subreg_bits src src_sr) dst_sr;
  write_subreg_bits dst dst_sr data.
Definition copy_memaddr_reg (address size : Z) (dst : rref) (dst_sr : Z) : XM unit :=
  src_address ← fetch_address address size;
  data ← load_at src_address dst_sr;
  write_subreg_bits dst dst_sr data.
Definition copy_regaddr_reg_zext (src src_sr : Z) (dst : rref) (dst_sr : Z) : XM unit :=
  data ← load_at (read_subreg_bits src src_sr) dst_sr;
  commit_reg_w0 dst data.
Definition copy_memaddr_reg_zext (address size : Z) (dst : rref) (dst_sr : Z) : XM unit :=
  src_address ← fetch_address address size;
  data ← load_at src_address dst_sr;
  commit_reg_w0 dst data.

Definition copy_regval_regaddr (src src_sr dst dst_sr : Z) : XM unit :=
  store_with raise_page_fault (subreg_size_map src_sr) (read_subreg_bits dst dst_sr) (read_subreg_bits src src_sr).
Definition copy_memval_regaddr (address size dst dst_sr : Z) : XM unit :=
  src_data ← fetch_address address size;
  store_with raise_page_fault size (read_subreg_bits dst dst_sr) src_data.

End Machine.

(** ** Interrupts, the timer, ports and control registers *)

Section Devices.
Context {H : Type} `{V1Host H}.
Abbreviation C := (cpu H).
Abbreviation XM := (X H).

Definition raise_irq (vector : Z) (s : C) : C :=
  set_flag bit_interrupt_set true (s <| c_irq_mask := {[vector]} ∪ c_irq_mask s |> <| c_irq_pending := true |>).

(** The scan of [take_next_pending_vector] from [v] on. *)
Fixpoint scan_pending (n : nat) (v : Z) (mask : gset Z) : option Z :=
  match n with
  | O => None
  | S n' => if decide (v ∈ mask) then Some v else scan_pending n' (v + 1) mask
  end.
Definition take_next_pending_vector : XM Z := fun s =>
  match scan_pending 224 32 (c_irq_mask s) with
  | Some v =>
      let mask := c_irq_mask s ∖ {[v]} in
      let s1 := set_flag bit_interrupt_set false (s <| c_irq_mask := mask |>) in
      (XRet v, s1 <| c_irq_pending := negb (bool_decide (mask = ∅)) |>)
  | None => (XRet 0, (set_flag bit_interrupt_set false s) <| c_irq_pending := false |>)
  end.

Definition try_deliver_interrupt : XM bool :=
  ready ← xgets (fun s => flag bit_interrupt_enabled s && c_irq_pending s);
  if negb ready then mret false else
  vector ← take_next_pending_vector;
  pc ← xgets rp;
  deliver_vectored vector 0 0 pc ;;
  mret true.

(** [advance_active_timer]: the timer after [n] ticks, and whether it raised
    its interrupt. *)
Definition advance_timer (t : timer_device) (n : Z) : timer_device * bool :=
  if n =? 0 then (t, false) else
  if negb (has (t_control t) 0x1) then (t, false) else
  if has (t_status t) 0x1 then (t, false) else
  let counter := if t_counter t =? 0 then t_period t else t_counter t in
  if counter =? 0 then (mk_timer (t_period t) (t_control t) (t_status t) counter (t_irq_vector t), false) else
  if n <? counter then (mk_timer (t_period t) (t_control t) (t_status t) (counter - n) (t_irq_vector t), false) else
  let control := if has (t_control t) 0x2 then t_control t else clr (t_control t) 0x1 in
  (mk_timer (t_period t) control (Z.lor (t_status t) 0x1) 0 (t_irq_vector t), true).
Definition advance_active_timer (n : Z) (s : C) : C :=
  match c_timer s with
  | None => s
  | Some t =>
      let '(t', fired) := advance_timer t n in
      let s1 := s <| c_timer := Some t' |> in
      if fired then raise_irq (t_irq_vector t) s1 else s1
  end.

(** [power_off]. *)
Definition power_off (s : C) : C := (set_flag bit_running false s) <| c_power := false |>.
(** [set_running]. *)
Definition set_running (on : bool) (s : C) : C := set_flag bit_running (on && c_power s) s.

(** The port table: 16-bit port numbers. *)
Definition find_device (s : C) (port : Z) : option port_device := c_devices s !! Z.land port 0xFFFF.
Definition raise_all (l : list Z) (s : C) : C := foldl (fun s v => raise_irq v s) s l.

Definition timer_write (f : timer_device -> timer_device) (s : C) : C :=
  match c_timer s with Some t => s <| c_timer := Some (f t) |> | None => s end.

Definition port_write (port word sr : Z) (s : C) : C :=
  let value := read_subreg_signext word sr in
  match find_device s port with
  | None => s
  | Some Passive => s <| c_ports := <[Z.land port 0xFFFF := value]> (c_ports s) |>
  | Some TimerPeriod => timer_write (fun t => mk_timer value (t_control t) (t_status t) (t_counter t) (t_irq_vector t)) s
  | Some TimerControl => timer_write (fun t => mk_timer (t_period t) value (t_status t) (t_counter t) (t_irq_vector t)) s
  | Some TimerStatus => timer_write (fun t => mk_timer (t_period t) (t_control t) value (t_counter t) (t_irq_vector t)) s
  | Some HostDevice =>
      let '(h, raised) := host_port_write (Z.land port 0xFFFF) word sr (c_mem s) (c_host s) in
      raise_all raised (s <| c_host := h |>)
  end.
(** What a port reads, [None] when nothing is there. *)
Definition port_value (port sr : Z) (s : C) : option Z * C :=
  let timer f := (Some (match c_timer s with Some t => f t | None => 0 end), s) in
  match find_device s port with
  | None => (None, s)
  | Some Passive => (Some (default 0 (c_ports s !! Z.land port 0xFFFF)), s)
  | Some TimerPeriod => timer t_period
  | Some TimerControl => timer t_control
  | Some TimerStatus => timer t_status
  | Some HostDevice =>
      let '(v, h, raised) := host_port_read (Z.land port 0xFFFF) sr (c_mem s) (c_host s) in
      (Some v, raise_all raised (s <| c_host := h |>))
  end.
Definition port_read (port : Z) (dst : rref) (sr : Z) : XM unit :=
  v ← (fun s => let '(v, s') := port_value port sr s in (XRet v, s'));
  match v with
  | None => clr_reg dst sr
  | Some v => copy_regval_reg v sr_w0 dst sr
  end.

Definition control_reg_count : Z := 3.
Definition cr_write (crn word sr : Z) : XM unit :=
  if control_reg_count <=? crn then mret tt else
  copy_regval_reg word sr (RControl crn) sr_w0 ;;
  xwhen (crn =? 0) (xmodify (fun s =>
    tlb_flush_all (s <| c_cr := zinsert 0 (clr (zget (c_cr s) 0) 0x0FF0) (c_cr s) |>))).
Definition cr_read (crn : Z) (dst : rref) (sr : Z) : XM unit :=
  if control_reg_count <=? crn then clr_reg dst sr else
  v ← xgets (fun s => zget (c_cr s) crn);
  copy_regval_reg v sr_w0 dst sr.

End Devices.
