(* ===== verification/V1Exec.v ===== *)
(** * The first-generation machine: the instructions and the run loop

    [dtbl], the handlers of [tick()], the per-instruction preamble of
    [MAIZE_NEXT] and the power loop of [run()], from cpu.cpp. *)
From Stdlib Require Import ZArith Lia Bool.
From stdpp Require Import base list numbers gmap.
From S2P Require Import Prelude Monad State Memory V1Memory V1Alu V1Machine.

(** ** Decoding *)

Inductive mode : Type := RegVal | ImmVal | RegAddr | ImmAddr.
Definition mode_of (op : Z) : mode :=
  match Z.shiftr (Z.land op opcode_flag) 6 with 0 => RegVal | 1 => ImmVal | 2 => RegAddr | _ => ImmAddr end.

Inductive instr : Type :=
  | IHalt | IClr | ISetcc | IJcc
  | ICp (m : mode) | ICpz (m : mode)          (* the address modes are LD and LDZ *)
  | ISt (m : mode)
  | IAlu (m : mode) (o : alu_op)
  | IUnary
  | ICmpind (m : mode)
  | ICmpxchg (m : mode)
  | ILea (m : mode)
  | IMulw (m : mode)
  | IXchg
  | IOut (m : mode) | IOutr (m : mode) | IIn (m : mode)
  | ISys (m : mode)
  | IPop | IPush (m : mode) | IPushall | IPopall
  | ICall (m : mode) | IRet | IIret
  | IJmp (m : mode)
  | ICarry (v : bool)                         (* SETCRY, CLRCRY *)
  | ISetSysFlag (b : Z) (v : bool)            (* SETINT, CLRINT, SETSYSG, CLRSYSG *)
  | IMovtcr (m : mode) | IMovfcr
  | ITlbinv | ITlbinva
  | INop | IBrk
  | IFloat.

Definition alu_op_of_base (base : Z) : option alu_op :=
  match base with
  | 0x03 => Some ADD | 0x04 => Some SUB | 0x05 => Some MUL | 0x06 => Some DIV | 0x07 => Some MOD
  | 0x08 => Some AND | 0x09 => Some OR | 0x0A => Some NOR | 0x0B => Some NAND | 0x0C => Some XOR
  | 0x0D => Some SHL | 0x0E => Some SHR | 0x0F => Some CMP | 0x10 => Some TEST | 0x2E => Some SAR
  | 0x35 => Some UDIV | 0x36 => Some UMOD | 0x3B => Some ADC | 0x3C => Some SBB
  | _ => None
  end.

(** The dispatch table; [None] is [LBL_default]. *)
Definition dtbl (op : Z) : option instr :=
  let m := mode_of op in
  match alu_op_of_base (Z.land op 0x3F) with
  | Some o => Some (IAlu m o)
  | None =>
    match op with
    | 0x00 => Some IHalt
    | 0x01 | 0x41 | 0x81 | 0xC1 => Some (ICp m)
    | 0x02 | 0x42 => Some (ISt m)
    | 0x11 | 0x51 | 0x91 | 0xD1 => Some (ICmpxchg m)
    | 0x12 | 0x52 | 0x92 | 0xD2 => Some (ILea m)
    | 0x13 | 0x53 | 0x93 | 0xD3 => Some (ICpz m)
    | 0x14 | 0x54 | 0x94 | 0xD4 => Some (IOut m)
    | 0x16 | 0x56 | 0x96 | 0xD6 => Some (IJmp m)
    | 0x17 | 0x18 | 0x19 | 0x57 | 0x58 | 0x59 | 0x97 | 0x98 | 0x99 | 0xD7 | 0xD8 => Some IJcc
    | 0x1D | 0x5D | 0x9D | 0xDD => Some (ICall m)
    | 0x1E | 0x5E | 0x9E | 0xDE => Some (IOutr m)
    | 0x1F | 0x5F | 0x9F | 0xDF => Some (IIn m)
    | 0x20 | 0x60 => Some (IPush m)
    | 0xA0 => Some IPushall
    | 0xE0 => Some IXchg
    | 0xA4 => Some (ISetSysFlag bit_syscall_guest true)
    | 0xE4 => Some (ISetSysFlag bit_syscall_guest false)
    | 0x26 | 0x66 => Some (IMovtcr m)
    | 0xA6 => Some IMovfcr
    | 0x27 => Some IRet
    | 0x67 => Some IIret
    | 0xA7 => Some INop
    | 0x28 => Some ITlbinv
    | 0x68 => Some ITlbinva
    | 0x29 => Some (ISetSysFlag bit_interrupt_enabled true)
    | 0x69 => Some (ISetSysFlag bit_interrupt_enabled false)
    | 0xA9 => Some (ICarry true)
    | 0xE9 => Some (ICarry false)
    | 0x2B | 0x2C | 0x2D | 0x6B | 0x6C | 0x6D | 0xAB | 0xAC | 0xAD | 0xEB | 0xEC => Some ISetcc
    | 0x2F | 0x6F | 0x30 | 0x70 => Some (ICmpind m)
    | 0x31 | 0x71 | 0xB1 | 0xF1 => Some IUnary
    | 0x32 => Some IClr
    | 0x72 => Some IPop
    | 0xB2 => Some IPopall
    | 0x34 | 0x74 => Some (ISys m)
    | 0x3D | 0x7D | 0xBD | 0xFD | 0x3E | 0x7E | 0xBE | 0xFE => Some (IMulw m)
    | 0xFF => Some IBrk
    | 0x1A | 0x5A | 0x9A | 0xDA | 0x1B | 0x5B | 0x9B | 0xDB | 0x1C | 0x5C | 0x9C | 0xDC
    | 0x21 | 0x61 | 0xA1 | 0xE1 | 0x2A | 0x6A | 0xAA | 0xEA | 0x22 | 0x62 | 0xA2
    | 0x33 | 0x73 | 0x39 | 0x79 | 0xB9 | 0x3A | 0x7A
    | 0x23 | 0x63 | 0xA3 | 0xE3 | 0x25 | 0x65 | 0xA5 | 0xE5 | 0x15 | 0x55 => Some IFloat
    | _ => None
    end
  end.

Section Exec.
Context {H : Type} `{V1Host H}.
Abbreviation C := (cpu H).
Abbreviation XM := (X H).

(** ** Operand bytes *)

Definition ri_b (s : C) (i : Z) : Z := u8 (Z.shiftr (c_ri s) (8 * i)).
Definition op_subreg (s : C) (i : Z) : Z := Z.land (ri_b s i) 0xF.
Definition op_subreg_size (s : C) (i : Z) : Z := subreg_size_map (op_subreg s i).
Definition op_imm_size (s : C) (i : Z) : Z := Z.shiftl 1 (Z.land (ri_b s i) 7).
Definition op_reg_index (s : C) (i : Z) : Z := Z.shiftr (Z.land (ri_b s i) 0xF0) 4.
(** [op1_reg], [op2_reg], [op3_reg]: naming RF resolves its deferred flags. *)
Definition op_reg (i : Z) : XM Z :=
  k ← xgets (fun s => op_reg_index s i);
  xwhen (k =? REG_RF) materialize ;;
  mret k.
Definition op_word (i : Z) : XM Z := k ← op_reg i; xgets (fun s => reg_get s k).

(** ** ALU calls *)

Definition x_alu (o : alu_op) (w src dst : Z) : XM Z := fun s =>
  match alu_op_fn o (alu_op_kind o) w src dst (c_fs s) with
  | Some (r, f) => (XRet r, s <| c_fs := f |>)
  | None => (XStop (TrapHalt cause_divide_error), s)
  end.
Definition x_run_alu : XM unit := fun s =>
  match run_alu (c_alu s) (c_fs s) with
  | Some (a, f) => (XRet tt, s <| c_alu := a |> <| c_fs := f |>)
  | None => (XStop (TrapHalt cause_divide_error), s)
  end.
Definition set_alu (b0 b1 b2 : Z) : XM unit :=
  xmodify (fun s => s <| c_alu := mk_alu b0 b1 b2 (alu_op1 (c_alu s)) (alu_op2 (c_alu s)) |>).

(** The four forms of a source operand: into the bank's [op1_reg]. *)
Definition stage_source (m : mode) (dst : rref) (dst_sr : Z) : XM unit :=
  sr ← xgets (fun s => op_subreg s 1);
  n ← xgets (fun s => op_imm_size s 1);
  match m with
  | RegVal => v ← op_word 1; copy_regval_reg v sr dst dst_sr
  | ImmVal => p ← xgets rp; copy_memval_reg p n dst dst_sr Fetch
  | RegAddr => v ← op_word 1; copy_regaddr_reg v sr dst dst_sr
  | ImmAddr => p ← xgets rp; copy_memaddr_reg p n dst dst_sr
  end.
Definition is_imm (m : mode) : bool := match m with ImmVal | ImmAddr => true | _ => false end.
(** [regs::rp.w0 += src_size] of the immediate forms. *)
Definition skip_imm (m : mode) : XM unit :=
  n ← xgets (fun s => op_imm_size s 1); xwhen (is_imm m) (add_rp n).

(** MAIZE_ALU_RV, _IV, _RA, _IA and their _NW variants. *)
Definition exec_alu (m : mode) (o : alu_op) : XM unit :=
  add_rp 2 ;;
  sr2 ← xgets (fun s => op_subreg s 2);
  w ← xgets (fun s => op_subreg_size s 2);
  src ← match m with
        | RegVal => v ← op_word 1; sr1 ← xgets (fun s => op_subreg s 1); mret (read_subreg_signext v sr1)
        | ImmVal => stage_source m RAlu1 sr_w0 ;; xgets (fun s => rget s RAlu1)
        | _ => stage_source m RAlu1 (width0_subreg w) ;; xgets (fun s => rget s RAlu1)
        end;
  v2 ← op_word 2;
  r ← x_alu o w src (read_subreg_bits v2 sr2);
  skip_imm m ;;
  if alu_op_writes o then d ← op_reg 2; write_subreg_bits (RReg d) sr2 r else mret tt.

Definition uop_sel (row : Z) : Z :=
  match row with 0 => alu_uop_inc | 1 => alu_uop_dec | 2 => alu_uop_not | _ => alu_uop_neg end.
Definition exec_unary : XM unit :=
  add_rp 1 ;;
  sr ← xgets (fun s => op_subreg s 1);
  n ← xgets (fun s => op_subreg_size s 1);
  row ← xgets (fun s => Z.shiftr (Z.land (ri_b s 0) opcode_flag) 6);
  v ← op_word 1;
  copy_regval_reg v sr RAlu2 sr_w0 ;;
  set_alu (uop_sel row) n n ;;
  x_run_alu ;;
  d ← op_reg 1;
  r ← xgets (fun s => rget s RAlu2);
  copy_regval_reg r sr_w0 (RReg d) sr.

(** CMPIND and TSTIND: the operation width is the size [op1]'s byte names as
    a subregister, in the immediate form too. *)
Definition exec_cmpind (m : mode) : XM unit :=
  add_rp 2 ;;
  size ← xgets (fun s => match m with ImmVal => op_imm_size s 1 | _ => op_subreg_size s 1 end);
  stage_source m RAlu1 sr_w0 ;;
  v2 ← op_word 2;
  sr2 ← xgets (fun s => op_subreg s 2);
  copy_regaddr_reg v2 sr2 RAlu2 sr2 ;;
  skip_imm m ;;
  op ← xgets (fun s => ri_b s 0);
  w ← xgets (fun s => op_subreg_size s 1);
  set_alu op size w ;;
  x_run_alu.

(** CMPXCHG: the immediate forms step over the immediate before reading it. *)
Definition exec_cmpxchg (m : mode) : XM unit :=
  add_rp 3 ;;
  skip_imm m ;;
  materialize ;;
  v3 ← op_word 3;
  v2 ← op_word 2;
  sr2 ← xgets (fun s => op_subreg s 2);
  sr3 ← xgets (fun s => op_subreg s 3);
  if cmp_regval_reg v3 sr3 v2 sr2 then
    xmodify (set_flag bit_zero true) ;;
    d ← op_reg 2;
    stage_source m (RReg d) sr2
  else
    xmodify (set_flag bit_zero false) ;;
    v ← op_word 2;
    d ← op_reg 3;
    copy_regval_reg v sr2 (RReg d) sr3.

Definition exec_lea (m : mode) : XM unit :=
  add_rp 3 ;;
  size ← xgets (fun s => match m with RegVal => op_subreg_size s 1 | _ => op_imm_size s 1 end);
  stage_source m RAlu1 sr_w0 ;;
  v2 ← op_word 2;
  sr2 ← xgets (fun s => op_subreg s 2);
  copy_regval_reg v2 sr2 RAlu2 sr_w0 ;;
  w ← xgets (fun s => op_subreg_size s 2);
  set_alu (Z.lor add_opcode (match m with ImmVal => 0x40 | ImmAddr => 0xC0 | _ => 0 end)) size w ;;
  saved_pending ← xgets (fun s => fs_pending (c_fs s));
  saved_fl ← xgets (fun s => u32 (fs_rf (c_fs s)));
  x_run_alu ;;
  xmodify (fun s => s <| c_fs := mk_fs (Z.lor (clr (fs_rf (c_fs s)) 0xFFFFFFFF) saved_fl) saved_pending |>) ;;
  skip_imm m ;;
  d ← op_reg 3;
  sr3 ← xgets (fun s => op_subreg s 3);
  r ← xgets (fun s => rget s RAlu2);
  copy_regval_reg r sr_w0 (RReg d) sr3.

Definition exec_mulw (m : mode) : XM unit :=
  add_rp 3 ;;
  size ← xgets (fun s => if is_imm m then op_imm_size s 1 else op_subreg_size s 1);
  stage_source m RAlu1 sr_w0 ;;
  v2 ← op_word 2;
  sr2 ← xgets (fun s => op_subreg s 2);
  copy_regval_reg v2 sr2 RAlu2 sr_w0 ;;
  op ← xgets (fun s => ri_b s 0);
  w ← xgets (fun s => op_subreg_size s 2);
  set_alu op size w ;;
  x_run_alu ;;
  skip_imm m ;;
  d2 ← op_reg 2;
  lo ← xgets (fun s => rget s RAlu2);
  copy_regval_reg lo sr_w0 (RReg d2) sr2 ;;
  d3 ← op_reg 3;
  sr3 ← xgets (fun s => op_subreg s 3);
  hi ← xgets (fun s => rget s RAlu1);
  copy_regval_reg hi sr_w0 (RReg d3) sr3.

(** ** Data movement *)

Definition exec_cp (m : mode) : XM unit :=
  add_rp 2 ;;
  d ← op_reg 2;
  sr2 ← xgets (fun s => op_subreg s 2);
  stage_source m (RReg d) sr2 ;;
  skip_imm m.
Definition exec_cpz (m : mode) : XM unit :=
  add_rp 2 ;;
  sr1 ← xgets (fun s => op_subreg s 1);
  n ← xgets (fun s => op_imm_size s 1);
  d ← op_reg 2;
  sr2 ← xgets (fun s => op_subreg s 2);
  match m with
  | RegVal => v ← op_word 1; copy_regval_reg_zext v sr1 (RReg d) sr2
  | ImmVal => p ← xgets rp; copy_memval_reg_zext p n (RReg d) sr2 Fetch
  | RegAddr => v ← op_word 1; copy_regaddr_reg_zext v sr1 (RReg d) sr2
  | ImmAddr => p ← xgets rp; copy_memaddr_reg_zext p n (RReg d) sr2
  end ;;
  skip_imm m.
Definition exec_st (m : mode) : XM unit :=
  add_rp 2 ;;
  sr1 ← xgets (fun s => op_subreg s 1);
  n ← xgets (fun s => op_imm_size s 1);
  sr2 ← xgets (fun s => op_subreg s 2);
  match m with
  | ImmVal => p ← xgets rp; v2 ← op_word 2; copy_memval_regaddr p n v2 sr2
  | _ => v1 ← op_word 1; v2 ← op_word 2; copy_regval_regaddr v1 sr1 v2 sr2
  end ;;
  skip_imm m.
Definition exec_clr : XM unit :=
  add_rp 1 ;; d ← op_reg 1; sr ← xgets (fun s => op_subreg s 1); clr_reg (RReg d) sr.
Definition exec_xchg : XM unit :=
  add_rp 2 ;;
  sr1 ← xgets (fun s => op_subreg s 1);
  sr2 ← xgets (fun s => op_subreg s 2);
  v1 ← op_word 1;
  copy_regval_reg v1 sr1 ROperand1 sr_w0 ;;
  v2 ← op_word 2;
  d1 ← op_reg 1;
  copy_regval_reg v2 sr2 (RReg d1) sr1 ;;
  t ← xgets c_operand1;
  d2 ← op_reg 2;
  copy_regval_reg t sr_w0 (RReg d2) sr2.

(** ** Conditions, jumps, calls *)

Definition jcc_base : Z := 0x17.
Definition setcc_base : Z := 0x2B.
Definition eval_condition (base : Z) : XM bool :=
  materialize ;;
  c ← xgets (fun s => condition_holds (fs_rf (c_fs s)) (decode_condition (ri_b s 0) base));
  match c with
  | Some b => mret b
  | None => xthrow (TrapHalt cause_illegal_instruction)
  end.
Definition exec_setcc : XM unit :=
  add_rp 1 ;;
  b ← eval_condition setcc_base;
  d ← op_reg 1;
  sr ← xgets (fun s => op_subreg s 1);
  set_reg (RReg d) sr b.
Definition jump_to_immediate : XM unit :=
  n ← xgets (fun s => op_imm_size s 1);
  p ← xgets rp;
  target ← fetch_address p n;
  xmodify (reg_set REG_RP target).
Definition exec_jcc : XM unit :=
  add_rp 1 ;;
  b ← eval_condition jcc_base;
  if (b : bool) then jump_to_immediate else n ← xgets (fun s => op_imm_size s 1); add_rp n.
Definition exec_jmp (m : mode) : XM unit :=
  add_rp 1 ;;
  n ← xgets (fun s => op_imm_size s 1);
  match m with
  | RegVal => v ← op_word 1; copy_regval_reg_zext v sr_w0 (RReg REG_RP) sr_w0
  | ImmVal => jump_to_immediate
  | RegAddr => v ← op_word 1; copy_regaddr_reg v sr_w0 (RReg REG_RP) sr_w0
  | ImmAddr => p ← xgets rp; copy_memaddr_reg p n (RReg REG_RP) sr_w0
  end.

(** The store at the decremented stack pointer, which is committed only after
    the store. *)
Definition push_reg (size : Z) (store : Z -> XM unit) : XM unit :=
  new_rs ← xgets (fun s => u64 (rs s - size));
  store new_rs ;;
  xmodify (reg_set REG_RS new_rs).
Definition push_return : XM unit :=
  push_reg 8 (fun new_rs => p ← xgets rp; copy_regval_regaddr p sr_w0 new_rs sr_w0).

Definition exec_call (m : mode) : XM unit :=
  add_rp 1 ;;
  n ← xgets (fun s => op_imm_size s 1);
  sr1 ← xgets (fun s => op_subreg s 1);
  match m with
  | RegVal =>
      push_return ;;
      v ← op_word 1; copy_regval_reg_zext v sr1 (RReg REG_RP) sr_w0
  | ImmVal =>
      p ← xgets rp; target ← fetch_address p n;
      add_rp n ;; push_return ;; xmodify (reg_set REG_RP target)
  | RegAddr =>
      v ← op_word 1; target ← load_at (read_subreg_bits v sr1) sr_w0;
      push_return ;; xmodify (reg_set REG_RP target)
  | ImmAddr =>
      p ← xgets rp; literal ← fetch_address p n;
      add_rp n ;;
      target ← load_at literal sr_w0;
      push_return ;; xmodify (reg_set REG_RP target)
  end.
Definition add_rs (n : Z) : XM unit := xmodify (fun s => reg_set REG_RS (u64 (rs s + n)) s).
Definition exec_ret : XM unit :=
  p ← xgets rs; copy_memval_reg p 8 (RReg REG_RP) sr_w0 Load ;; add_rs 8.
Definition need_privilege : XM unit :=
  p ← xgets privileged; xwhen (negb p) (xthrow (TrapHalt cause_privileged_op)).
(** Both words are read before any register changes. *)
Definition exec_iret : XM unit :=
  need_privilege ;;
  p ← xgets rs;
  pa1 ← translate p Load; saved_rf ← read_raw pa1 8;
  pa2 ← translate (u64 (p + 8)) Load; saved_rp ← read_raw pa2 8;
  xmodify (fun s => s <| c_fs := mk_fs saved_rf (clear_dirty (fs_pending (c_fs s))) |>) ;;
  xmodify (reg_set REG_RP saved_rp) ;;
  add_rs 16.

Definition exec_pop : XM unit :=
  add_rp 1 ;;
  n ← xgets (fun s => op_subreg_size s 1);
  sr ← xgets (fun s => op_subreg s 1);
  p ← xgets rs;
  d ← op_reg 1;
  copy_memval_reg p n (RReg d) sr Load ;;
  add_rs n.
Definition exec_push (m : mode) : XM unit :=
  add_rp 1 ;;
  sr ← xgets (fun s => op_subreg s 1);
  match m with
  | RegVal =>
      n ← xgets (fun s => op_subreg_size s 1);
      push_reg n (fun new_rs => v ← op_word 1; copy_regval_regaddr v sr new_rs sr_w0)
  | _ =>
      n ← xgets (fun s => op_imm_size s 1);
      push_reg n (fun new_rs => p ← xgets rp; copy_memval_regaddr p n new_rs sr_w0) ;;
      add_rp n
  end.

(** PUSHALL and POPALL: R0 to R9, RT, RV and RB, ascending from RS. *)
Definition ctx_order : list Z := [0; 1; 2; 3; 4; 5; 6; 7; 8; 9; 10; 11; 13].
Definition ctx_bytes : Z := 13 * 8.
Fixpoint store_ctx (l : list Z) (slot : Z) : XM unit :=
  match l with
  | [] => mret tt
  | v :: l' =>
      pa ← translate slot Store;
      xmodify (fun s => s <| c_mem := phys_store 8 (c_mem s) pa v |>) ;;
      store_ctx l' (u64 (slot + 8))
  end.
Fixpoint load_ctx (n : nat) (slot : Z) : XM (list Z) :=
  match n with
  | O => mret []
  | S n' =>
      pa ← translate slot Load;
      v ← xgets (fun s => phys_load 8 (c_mem s) pa);
      l ← load_ctx n' (u64 (slot + 8));
      mret (v :: l)
  end.
Fixpoint set_ctx (order vals : list Z) (s : C) : C :=
  match order, vals with
  | i :: order', v :: vals' => set_ctx order' vals' (reg_set i v s)
  | _, _ => s
  end.
Definition exec_pushall : XM unit :=
  ctx ← xgets (fun s => reg_get s <$> ctx_order);
  base ← xgets (fun s => u64 (rs s - ctx_bytes));
  translate base Store ;;
  translate (u64 (base + ctx_bytes - 1)) Store ;;
  store_ctx ctx base ;;
  xmodify (reg_set REG_RS base).
Definition exec_popall : XM unit :=
  base ← xgets rs;
  translate base Load ;;
  translate (u64 (base + ctx_bytes - 1)) Load ;;
  ctx ← load_ctx 13 base;
  xmodify (set_ctx ctx_order ctx) ;;
  xmodify (reg_set REG_RS (u64 (base + ctx_bytes))).

(** ** Privileged instructions and system calls *)

Definition exec_halt : XM unit :=
  need_privilege ;;
  i ← xgets (flag bit_interrupt_enabled);
  if (i : bool) then xmodify (set_flag bit_running false) else xmodify power_off.

(** The port or control-register number in the instruction, at [op2]. *)
Definition imm_port : XM unit :=
  p ← xgets rp; n ← xgets (fun s => op_imm_size s 2); copy_memval_reg p n ROperand2 sr_w0 Fetch.
Definition skip_port : XM unit := n ← xgets (fun s => op_imm_size s 2); add_rp n.
(** The value an OUT writes: a register and its subregister, or a full word
    staged in [operand1]. *)
Definition out_value (m : mode) : XM (Z * Z) :=
  match m with
  | RegVal => v ← op_word 1; sr ← xgets (fun s => op_subreg s 1); mret (v, sr)
  | _ => v ← xgets c_operand1; mret (v, sr_w0)
  end.
Definition stage_operand1 (m : mode) : XM unit :=
  match m with RegVal => mret tt | _ => stage_source m ROperand1 sr_w0 ;; skip_imm m end.

Definition exec_out (m : mode) : XM unit :=
  need_privilege ;;
  add_rp 2 ;;
  stage_operand1 m ;;
  imm_port ;;
  '(v, sr) ← out_value m;
  port ← xgets (fun s => u16 (c_operand2 s));
  xmodify (port_write port v sr) ;;
  skip_port.
Definition exec_outr (m : mode) : XM unit :=
  need_privilege ;;
  add_rp 2 ;;
  stage_operand1 m ;;
  port ← op_word 2;
  '(v, sr) ← out_value m;
  xmodify (port_write (u16 port) v sr).
Definition exec_in (m : mode) : XM unit :=
  need_privilege ;;
  add_rp 2 ;;
  stage_operand1 m ;;
  '(port, _) ← out_value m;
  d ← op_reg 2;
  sr2 ← xgets (fun s => op_subreg s 2);
  port_read (u16 port) (RReg d) sr2.

Definition exec_movtcr (m : mode) : XM unit :=
  need_privilege ;;
  add_rp 2 ;;
  stage_operand1 m ;;
  imm_port ;;
  '(v, sr) ← out_value m;
  crn ← xgets (fun s => u16 (c_operand2 s));
  cr_write crn v sr ;;
  skip_port.
Definition exec_movfcr : XM unit :=
  need_privilege ;;
  add_rp 2 ;;
  stage_operand1 ImmVal ;;
  crn ← xgets (fun s => u16 (c_operand1 s));
  d ← op_reg 2;
  sr2 ← xgets (fun s => op_subreg s 2);
  cr_read crn (RReg d) sr2.
Definition exec_tlbinva : XM unit :=
  need_privilege ;;
  add_rp 1 ;;
  va ← op_word 1;
  xmodify (tlb_flush_va va).

(** The native provider: [sys::call] returns the value for RV. *)
Definition native_call (number : Z) : XM unit := xmodify (fun s =>
  let r := host_sys_call number (c_regs s) (c_mem s) (c_host s) in
  let s1 := s <| c_mem := sr_mem r |> <| c_host := sr_host r |> in
  reg_set REG_RV (sr_rv r) (if sr_power_off r then power_off s1 else s1)).
Definition sys_number (m : mode) : XM Z :=
  match m with
  | ImmVal => stage_operand1 m ;; v ← xgets c_operand1; mret (u8 v)
  | _ => v ← op_word 1; mret (u8 v)
  end.
Definition exec_sys (m : mode) : XM unit :=
  add_rp 1 ;;
  number ← sys_number m;
  guest ← xgets (flag bit_syscall_guest);
  if (guest : bool) then pc ← xgets rp; deliver_vectored cause_syscall 0 number pc
  else native_call number.

(** ** One instruction *)

Definition exec (i : instr) : XM unit :=
  match i with
  | IHalt => exec_halt
  | IClr => exec_clr
  | ISetcc => exec_setcc
  | IJcc => exec_jcc
  | ICp m => exec_cp m
  | ICpz m => exec_cpz m
  | ISt m => exec_st m
  | IAlu m o => exec_alu m o
  | IUnary => exec_unary
  | ICmpind m => exec_cmpind m
  | ICmpxchg m => exec_cmpxchg m
  | ILea m => exec_lea m
  | IMulw m => exec_mulw m
  | IXchg => exec_xchg
  | IOut m => exec_out m
  | IOutr m => exec_outr m
  | IIn m => exec_in m
  | ISys m => exec_sys m
  | IPop => exec_pop
  | IPush m => exec_push m
  | IPushall => exec_pushall
  | IPopall => exec_popall
  | ICall m => exec_call m
  | IRet => exec_ret
  | IIret => exec_iret
  | IJmp m => exec_jmp m
  | ICarry v => materialize ;; xmodify (set_flag bit_carryout v)
  | ISetSysFlag b v => need_privilege ;; xmodify (set_flag b v)
  | IMovtcr m => exec_movtcr m
  | IMovfcr => exec_movfcr
  | ITlbinv => need_privilege ;; xmodify tlb_flush_all
  | ITlbinva => exec_tlbinva
  | INop => mret tt
  | IBrk => xthrow (TrapHalt cause_breakpoint)
  | IFloat => xthrow FloatingPoint
  end.

Definition INPUT_TICK_MASK : Z := 0x3FFF.
Definition input_tick : XM unit := xmodify (fun s =>
  if negb (c_input s) then s else
  let ctr := u64 (c_input_ctr s + 1) in
  let s1 := s <| c_input_ctr := ctr |> in
  if negb (Z.land ctr INPUT_TICK_MASK =? 0) then s1 else
  let '(_, h, raised) := host_input_tick (c_host s1) in
  raise_all raised (s1 <| c_host := h |>)).

(** MAIZE_NEXT up to the dispatch; [false] when [tick] returns instead. *)
Definition fetch_next : XM bool :=
  running ← xgets (flag bit_running);
  if negb running then mret false else
  try_deliver_interrupt ;;
  xmodify (advance_active_timer 1) ;;
  input_tick ;;
  pc ← xgets rp;
  xmodify (fun s => s <| c_instr_pc := pc |>) ;;
  pa ← translate pc Fetch;
  ri ← xgets (fun s => phys_load 8 (c_mem s) pa);
  xmodify (fun s => s <| c_ri := ri |>) ;;
  add_rp 1 ;;
  mret true.
Definition dispatch : XM unit :=
  op ← xgets (fun s => ri_b s 0);
  match dtbl op with
  | Some i => exec i
  | None => xthrow (TrapHalt cause_illegal_instruction)
  end.

(** At most [n] instructions of [tick()]: [true] when it returned. *)
Fixpoint tick_loop (n : nat) : XM bool :=
  match n with
  | O => mret false
  | S n' =>
      go ← fetch_next;
      if negb go then mret true else dispatch ;; tick_loop n'
  end.
Definition tick (n : nat) : XM bool := xmodify (set_flag bit_running true) ;; tick_loop n.

(** ** The power loop

    One pass of [run()]: what it leaves the machine in.  A park is waiting
    for an interrupt some other thread raises; [Crashed] is an exception that
    leaves [run()]. *)
Inductive run_state : Type :=
  | Running            (* the next pass *)
  | Parked (bounded : bool)   (* in the wait for an interrupt; [bounded]: with a deadline *)
  | Off                (* the loop is left *)
  | Crashed (e : xstop).

Definition run_start (s : C) : C := set_flag bit_privilege true (s <| c_power := true |>).

(** The tail of a pass after [tick()] has returned: the park. *)
Definition wake (s : C) : run_state * C :=
  let '(r, s1) := take_next_pending_vector s in
  match r with
  | XStop e => (Crashed e, s1)
  | XRet vector =>
      let s2 := set_flag bit_running true s1 in
      match deliver_vectored vector 0 0 (rp s2) s2 with
      | (XRet _, s3) => (Running, s3)
      | (XStop e, s3) => (Crashed e, s3)
      end
  end.
(** [poll] is the park hook's probe, when there is a park input. *)
Definition park (poll : bool) (s0 : C) : run_state * C :=
  let '(r, s) := if poll then let '(r, h, raised) := host_input_tick (c_host s0) in (r, raise_all raised (s0 <| c_host := h |>))
                 else (NotReady, s0) in
  if negb (c_power s) then (Off, s) else
  if c_irq_pending s && flag bit_interrupt_enabled s then wake s else
  (Parked match r with Latched => true | _ => false end, s).
(** A parked machine after another thread has raised vectors. *)
Definition unpark (bounded : bool) (raised : list Z) (s0 : C) : run_state * C :=
  let s := raise_all raised s0 in
  if negb (c_power s) then (Off, s) else
  if c_irq_pending s && flag bit_interrupt_enabled s then wake s else (Parked bounded, s).
(** The deadline of a bounded park: input was readable and already
    signalled. *)
Definition park_expired (s : C) : run_state * C := (Running, s <| c_host := host_rearm_ready_edge (c_host s) |>).

Definition run_pass (poll : bool) (n : nat) (s : C) : run_state * C :=
  if negb (c_power s) then (Off, s) else
  match tick n s with
  | (XRet true, s1) => park poll s1
  | (XRet false, s1) => (Running, s1)      (* [n] instructions were not enough *)
  | (XStop Redirect, s1) => (Running, s1)
  | (XStop (TrapHalt _), s1) => (Off, power_off s1)
  | (XStop e, s1) => (Crashed e, s1)
  end.

End Exec.
