(* ===== verification/V1Props.v ===== *)
(** * What an instruction of the first-generation machine can do

    A logic for the machine's computations that follows what they keep, and
    three results from it: user code reaches supervisor mode only through a
    trap vector; an instruction that page-faults has changed no register, so
    that it can be executed again; translation through the caches is the
    page-table walk. *)
From Stdlib Require Import ZArith Lia Bool.
From stdpp Require Import base list numbers gmap.
From S2P Require Import Prelude Monad State Memory Paging MemFacts FrameLemmas V1Memory V1Alu V1AluProps V1Machine V1Exec.

(** ** The logic *)

Section Logic.
Context {H : Type} `{V1Host H}.
Abbreviation C := (cpu H).
Abbreviation XM := (X H).

(** [s'] is the state after a page fault raised in [s0]. *)
Definition page_fault_from (s0 s' : C) : Prop :=
  exists A va kind present, raise_page_fault A va kind present s0 = (XStop Redirect, s').

(** [quiet P m]: [m] relates its states by [P], up to the point where a page
    fault is raised if there is one. *)
Definition quiet (P : C -> C -> Prop) {A} (m : XM A) : Prop := forall s,
  match m s with
  | (XRet _, s') => P s s'
  | (XStop Redirect, s') => exists s0, P s s0 /\ page_fault_from s0 s'
  | (XStop _, _) => True
  end.
(** [guarded P m]: the same for the page faults alone. *)
Definition guarded (P : C -> C -> Prop) {A} (m : XM A) : Prop := forall s s',
  m s = (XStop Redirect, s') -> exists s0, P s s0 /\ page_fault_from s0 s'.
(** [faultless m]: it raises no page fault. *)
Definition faultless {A} (m : XM A) : Prop := forall s s', m s <> (XStop Redirect, s').

Section Rules.
Context (P : C -> C -> Prop) `{!PreOrder P}.

Lemma quiet_ret {A} (a : A) : quiet P (mret a).
Proof. intros s. cbn. reflexivity. Qed.
Lemma quiet_bind {A B} (m : XM A) (f : A -> XM B) : quiet P m -> (forall a, quiet P (f a)) -> quiet P (m ≫= f).
Proof.
  intros Hm Hf s. unfold mbind, X_bind. specialize (Hm s). destruct (m s) as [[a|e] s1]; [|by destruct e].
  specialize (Hf a s1). destruct (f a s1) as [[b|[]] s2]; try done; [by trans s1|].
  destruct Hf as (s0 & ? & ?). exists s0. split; [by trans s1|done].
Qed.
Lemma quiet_gets {A} (g : C -> A) : quiet P (xgets g).
Proof. intros s. cbn. reflexivity. Qed.
Lemma quiet_gets_bind {A B} (g : C -> A) (f : A -> XM B) : (forall s, quiet P (f (g s))) -> quiet P (xgets g ≫= f).
Proof. intros Hf s. apply Hf. Qed.
Lemma quiet_throw {A} e : e <> Redirect -> quiet P (xthrow e : XM A).
Proof. intros He s. by destruct e. Qed.
Lemma quiet_modify g : (forall s, P s (g s)) -> quiet P (xmodify g).
Proof. intros Hg s. apply Hg. Qed.
Lemma quiet_when b (m : XM unit) : quiet P m -> quiet P (xwhen b m).
Proof. intros Hm. destruct b; [done|apply quiet_ret]. Qed.
Lemma quiet_if {A} (b : bool) (m1 m2 : XM A) : quiet P m1 -> quiet P m2 -> quiet P (if b then m1 else m2).
Proof. by destruct b. Qed.

Lemma quiet_guarded {A} (m : XM A) : quiet P m -> guarded P m.
Proof. intros Hm s s' E. specialize (Hm s). by rewrite E in Hm. Qed.
Lemma guarded_bind {A B} (m : XM A) (f : A -> XM B) : quiet P m -> (forall a, guarded P (f a)) -> guarded P (m ≫= f).
Proof.
  intros Hm Hf s s' E. unfold mbind, X_bind in E. specialize (Hm s). destruct (m s) as [[a|e] s1].
  - destruct (Hf a s1 s' E) as (s0 & ? & ?). exists s0. split; [by trans s1|done].
  - by simplify_eq.
Qed.
Lemma guarded_last {A B} (m : XM A) (f : A -> XM B) : guarded P m -> (forall a, faultless (f a)) -> guarded P (m ≫= f).
Proof.
  intros Hm Hf s s' E. unfold mbind, X_bind in E. destruct (m s) as [[a|e] s1] eqn:Em; [by apply Hf in E|].
  simplify_eq. by apply (Hm s).
Qed.
Lemma guarded_faultless {A} (m : XM A) : faultless m -> guarded P m.
Proof. intros Hm s s' E. by apply Hm in E. Qed.
Lemma guarded_if {A} (b : bool) (m1 m2 : XM A) : guarded P m1 -> guarded P m2 -> guarded P (if b then m1 else m2).
Proof. by destruct b. Qed.
End Rules.

Lemma faultless_ret {A} (a : A) : faultless (mret a).
Proof. done. Qed.
Lemma faultless_bind {A B} (m : XM A) (f : A -> XM B) : faultless m -> (forall a, faultless (f a)) -> faultless (m ≫= f).
Proof.
  intros Hm Hf s s' E. unfold mbind, X_bind in E. destruct (m s) as [[a|e] s1] eqn:Em; [by apply Hf in E|].
  simplify_eq. by apply Hm in Em.
Qed.
Lemma faultless_gets {A} (g : C -> A) : faultless (xgets g).
Proof. done. Qed.
Lemma faultless_modify g : faultless (xmodify g).
Proof. done. Qed.
Lemma faultless_throw {A} e : e <> Redirect -> faultless (xthrow e : XM A).
Proof. intros He s s' E. by inversion E. Qed.
Lemma faultless_when b (m : XM unit) : faultless m -> faultless (xwhen b m).
Proof. by destruct b. Qed.
Lemma faultless_if {A} (b : bool) (m1 m2 : XM A) : faultless m1 -> faultless m2 -> faultless (if b then m1 else m2).
Proof. by destruct b. Qed.

End Logic.

Create HintDb quiet discriminated.
#[export] Hint Constants Opaque : quiet.
#[export] Hint Variables Opaque : quiet.

(** Splits a computation at its binds and closes the steps with the lemmas of
    the database; what is left are the primitive steps. *)
Ltac quiet_step :=
  first
    [ solve [eauto 2 with quiet nocore]
    | lazymatch goal with
      | |- quiet _ (mret _) => apply quiet_ret; apply _
      | |- quiet _ (xgets _) => apply quiet_gets; apply _
      | |- quiet _ (_ ≫= _) => apply quiet_bind; [apply _| |intros ?]
      | |- quiet _ (xthrow _) => apply quiet_throw; done
      | |- quiet _ (xwhen _ _) => apply quiet_when; [apply _|]
      | |- quiet _ (if _ then _ else _) => apply quiet_if
      | |- quiet _ (match ?x with _ => _ end) => destruct x
      end ].
Ltac quiet_all := repeat quiet_step.
Ltac faultless_step :=
  first
    [ solve [eauto 2 with quiet nocore]
    | lazymatch goal with
      | |- faultless (mret _) => apply faultless_ret
      | |- faultless (xgets _) => apply faultless_gets
      | |- faultless (xmodify _) => apply faultless_modify
      | |- faultless (_ ≫= _) => apply faultless_bind; [|intros ?]
      | |- faultless (xthrow _) => apply faultless_throw; done
      | |- faultless (xwhen _ _) => apply faultless_when
      | |- faultless (if _ then _ else _) => apply faultless_if
      | |- faultless (match ?x with _ => _ end) => destruct x
      end ].
Ltac faultless_all := repeat faultless_step.

(** ** The register and memory helpers, for any relation that allows the
    caches to change *)

Section Helpers.
Context {H : Type} `{V1Host H}.
Abbreviation C := (cpu H).
Abbreviation XM := (X H).

Lemma quiet_fault (P : C -> C -> Prop) `{!PreOrder P} A va kind present : quiet P (raise_page_fault A va kind present).
Proof.
  intros s. destruct (raise_page_fault A va kind present s) as [[a|[]] s'] eqn:E; try done.
  - exfalso. unfold raise_page_fault, double_fault, mbind, X_bind, xgets, xmodify, xthrow in E.
    destruct (c_delivering s); [done|]. by destruct (deliver_vectored_with _ _ _ _ _ _) as [[]].
  - exists s. split; [done|]. by exists A, va, kind, present.
Qed.

Section Caches.
Context (P : C -> C -> Prop) `{!PreOrder P}.
Context (Hfast : forall kind key pa s, P s (fast_install kind key pa s)).
Context (Htlb : forall va ppn r w x u s, P s (tlb_install va ppn r w x u s)).
Context (fault : forall A : Type, Z -> access_kind -> bool -> XM A).
Context (Hfault : forall A va kind present, quiet P (fault A va kind present)).

Lemma quiet_walk level va kind base : quiet P (walk_level fault level va kind base).
Proof.
  revert base. induction level as [|level IH]; intros base; cbn [walk_level].
  all: quiet_all; try apply Hfault; try (apply quiet_modify; intros; apply Hfast || apply Htlb).
Qed.
Lemma quiet_translate va kind : quiet P (translate_with fault va kind).
Proof.
  unfold translate_with, translate_slow, mmu_walk. quiet_all; try apply Hfault.
  all: try (apply quiet_modify; intros; apply Hfast).
  apply quiet_walk.
Qed.
Lemma quiet_mm_fetch pa n : quiet P (mm_fetch pa n).
Proof. unfold mm_fetch. quiet_all. Qed.
Lemma quiet_read_raw pa n : quiet P (read_raw pa n).
Proof. unfold read_raw. quiet_all. Qed.

Context (Hmem : forall s m, P s (s <| c_mem := m |>)).
Lemma quiet_store size va v : quiet P (store_with fault size va v).
Proof.
  unfold store_with. apply quiet_bind; [apply _|apply quiet_translate|intros pa].
  apply quiet_modify. intros s. destruct (op_width size); [apply Hmem|reflexivity].
Qed.
End Caches.

Lemma faultless_deliver vector subcode aux pc : faultless (deliver_vectored_with (double_fault (H := H)) vector subcode aux pc).
Proof.
  assert (W : forall level va kind base, faultless (walk_level (double_fault (H := H)) level va kind base)).
  { intros level. induction level as [|level IH]; intros va kind base; cbn [walk_level]; unfold double_fault; faultless_all; apply IH. }
  assert (S : forall v, faultless (push_word_with (double_fault (H := H)) v)).
  { intros v. unfold push_word_with, store_with, translate_with, translate_slow, mmu_walk, double_fault. faultless_all; apply W. }
  unfold deliver_vectored_with, materialize. faultless_all; apply S.
Qed.
Lemma quiet_double_fault (P : C -> C -> Prop) A va kind present : quiet P (double_fault A va kind present).
Proof. by intros s. Qed.
End Helpers.

(** ** Registers and flags *)

Section Registers.
Context {H : Type} `{V1Host H}.
Abbreviation C := (cpu H).

Lemma flag_set_same rf k v : 0 <= k -> has (flag_set rf (bit k) v) (bit k) = v.
Proof.
  intros Hk. rewrite bit_pow, has_bit by done. unfold flag_set, clr.
  rewrite Z.lor_spec, Z.ldiff_spec, Z.pow2_bits_true by done.
  destruct v; [by rewrite Z.pow2_bits_true, orb_true_r|by rewrite Z.bits_0, andb_false_r].
Qed.
Lemma flag_set_other rf k j v : 0 <= k -> 0 <= j -> k <> j -> has (flag_set rf (bit k) v) (bit j) = has rf (bit j).
Proof.
  intros Hk Hj Hn. rewrite !bit_pow, !has_bit by done. unfold flag_set, clr.
  rewrite Z.lor_spec, Z.ldiff_spec, Z.pow2_bits_false by done.
  destruct v; [rewrite Z.pow2_bits_false by done|rewrite Z.bits_0]; by rewrite andb_true_r, orb_false_r.
Qed.

Lemma length_reg_set i v (s : C) : length (c_regs (reg_set i v s)) = length (c_regs s).
Proof. unfold reg_set. destruct (i =? REG_RF); [done|apply length_insert]. Qed.
Lemma reg_get_set i v (s : C) : 0 <= i < Z.of_nat (length (c_regs s)) -> reg_get (reg_set i v s) i = v.
Proof.
  intros Hi. unfold reg_get, reg_set. destruct (Z.eqb_spec i REG_RF); [done|]. cbn [c_regs].
  apply zget_zinsert_same. lia.
Qed.
Lemma reg_get_set_ne i j v (s : C) : 0 <= i -> 0 <= j -> i <> j -> reg_get (reg_set i v s) j = reg_get s j.
Proof.
  intros Hi Hj Hn. unfold reg_get, reg_set. destruct (Z.eqb_spec i REG_RF), (Z.eqb_spec j REG_RF); try done; try congruence.
  apply zget_zinsert_other; lia.
Qed.
End Registers.

(** ** User mode *)

(** The bits of RF that say what the machine may do. *)
Definition sys_mask : Z := Z.lor bit_privilege (Z.lor bit_interrupt_enabled bit_syscall_guest).
Definition sys_bits (rf : Z) : Z := Z.land rf sys_mask.

Lemma sys_bits_lor a b : sys_bits (Z.lor a b) = Z.lor (sys_bits a) (sys_bits b).
Proof. apply Z.land_lor_distr_l. Qed.
Lemma sys_bits_clr a m : Z.land m sys_mask = 0 -> sys_bits (clr a m) = sys_bits a.
Proof.
  intros Hm. unfold sys_bits, clr. apply Z.bits_inj'. intros i Hi. rewrite !Z.land_spec, Z.ldiff_spec.
  apply (f_equal (fun x => Z.testbit x i)) in Hm. rewrite Z.land_spec, Z.bits_0 in Hm.
  destruct (Z.testbit a i), (Z.testbit m i), (Z.testbit sys_mask i); done.
Qed.
Lemma sys_bits_store rf q : sys_bits (store_zncv rf q) = sys_bits rf.
Proof.
  unfold store_zncv. rewrite sys_bits_lor, sys_bits_clr by done.
  destruct q as [[] [] [] []]; apply Z.lor_0_r.
Qed.
Lemma sys_bits_materialize f : sys_bits (fs_rf (materialize_flags f)) = sys_bits (fs_rf f).
Proof.
  unfold materialize_flags. destruct (pf_dirty (fs_pending f)); [|done]. simpl.
  destruct (pending_zncv (fs_pending f)); [apply sys_bits_store|done].
Qed.
Lemma sys_bits_flag rf b v : Z.land b sys_mask = 0 -> sys_bits (flag_set rf b v) = sys_bits rf.
Proof.
  intros Hb. unfold flag_set. rewrite sys_bits_lor, sys_bits_clr by done.
  replace (sys_bits (if v then b else 0)) with 0 by (by destruct v). apply Z.lor_0_r.
Qed.
(** The bits alone say whether a system flag is set. *)
Lemma has_sys_bits rf b : Z.land b sys_mask = b -> has rf b = has (sys_bits rf) b.
Proof. intros Hb. unfold has, sys_bits. by rewrite <- Z.land_assoc, (Z.land_comm sys_mask), Hb. Qed.
(** A write to RF from user mode keeps them. *)
Lemma sys_bits_user v rf : sys_bits (Z.lor (clr v rf_privileged_mask) (Z.land rf rf_privileged_mask)) = sys_bits rf.
Proof.
  unfold sys_bits, clr. apply Z.bits_inj'. intros i Hi. rewrite !Z.land_spec, Z.lor_spec, Z.ldiff_spec, Z.land_spec.
  assert (E : Z.testbit sys_mask i = Z.testbit sys_mask i && Z.testbit rf_privileged_mask i) by (rewrite <- Z.land_spec; done).
  rewrite E. destruct (Z.testbit v i), (Z.testbit rf i), (Z.testbit rf_privileged_mask i), (Z.testbit sys_mask i); done.
Qed.
(** The restore of the low half of RF that LEA does. *)
Lemma sys_bits_low rf fl : 0 <= fl < 2 ^ 32 -> sys_bits (Z.lor (clr rf 0xFFFFFFFF) fl) = sys_bits rf.
Proof.
  intros Hfl. rewrite sys_bits_lor, sys_bits_clr by done. replace (sys_bits fl) with 0; [apply Z.lor_0_r|].
  unfold sys_bits. apply Z.bits_inj'. intros i Hi. rewrite Z.land_spec, Z.bits_0.
  destruct (Z.ltb_spec i 32) as [|Hge].
  - replace (Z.testbit sys_mask i) with false; [by rewrite andb_false_r|].
    replace sys_mask with (Z.shiftl 19 32) by done. by rewrite Z.shiftl_spec_low.
  - rewrite <- (Z.mod_small fl (2 ^ 32)), Z.mod_pow2_bits_high by lia. done.
Qed.

(** What an ALU function leaves in RF before the flags are resolved. *)
Lemma alu_fn_rf o k w src dst f r f' : alu_op_fn o k w src dst f = Some (r, f') ->
  fs_rf f' = fs_rf f \/ fs_rf f' = fs_rf (materialize_flags f).
Proof.
  destruct o; cbn [alu_op_fn]; unfold alu_add, alu_sub, alu_mul, alu_div, alu_mod, alu_udiv, alu_umod, alu_adc, alu_sbb,
    alu_and, alu_or, alu_nor, alu_nand, alu_xor, alu_logic, alu_shl, alu_shr, alu_sar, at_width;
    intros E; repeat case_match; simplify_eq; auto.
Qed.
Lemma run_alu_case_rf op w op1 op2 f a b f' : run_alu_case op w op1 op2 f = Some (a, b, f') ->
  fs_rf f' = fs_rf f \/ fs_rf f' = fs_rf (materialize_flags f).
Proof.
  intros E. unfold run_alu_case in E. destruct (negb (op_width w)); [destruct (is_in _ _); simplify_eq; auto|].
  repeat match type of E with
  | (if ?c then _ else _) = _ => destruct c
  end; try (simplify_eq; auto; done).
  all: match type of E with mbind _ ?x = _ => destruct x as [[v f1]|] eqn:Ea; [|done] end.
  all: simpl in E; simplify_eq.
  all: first [eapply (alu_fn_rf ADD), Ea|eapply (alu_fn_rf SUB), Ea|eapply (alu_fn_rf ADC), Ea|eapply (alu_fn_rf SBB), Ea
    |eapply (alu_fn_rf MUL), Ea|eapply (alu_fn_rf DIV), Ea|eapply (alu_fn_rf MOD), Ea|eapply (alu_fn_rf UDIV), Ea
    |eapply (alu_fn_rf UMOD), Ea|eapply (alu_fn_rf AND), Ea|eapply (alu_fn_rf OR), Ea|eapply (alu_fn_rf NOR), Ea
    |eapply (alu_fn_rf NAND), Ea|eapply (alu_fn_rf XOR), Ea|eapply (alu_fn_rf SHL), Ea|eapply (alu_fn_rf SHR), Ea|eapply (alu_fn_rf SAR), Ea].
Qed.

(** What no user instruction changes: the control registers, the timer, the
    ports, the state of the interrupt controller; and the privilege,
    interrupt-enable and system-call bits. *)
Section User.
Context {H : Type} `{V1Host H}.
Abbreviation C := (cpu H).
Abbreviation XM := (X H).

Definition same_devices (s s' : C) : Prop :=
  c_cr s' = c_cr s /\ c_timer s' = c_timer s /\ c_devices s' = c_devices s /\ c_ports s' = c_ports s /\
  c_irq_mask s' = c_irq_mask s /\ c_irq_pending s' = c_irq_pending s /\ c_delivering s' = c_delivering s /\
  c_instr_pc s' = c_instr_pc s /\ length (c_regs s') = length (c_regs s).
#[global] Instance same_devices_pre : PreOrder same_devices.
Proof.
  split; [by intros s|]. intros s1 s2 s3 (? & ? & ? & ? & ? & ? & ? & ? & ?) (? & ? & ? & ? & ? & ? & ? & ? & ?).
  repeat split; congruence.
Qed.
Definition same_system (s s' : C) : Prop :=
  sys_bits (fs_rf (c_fs s')) = sys_bits (fs_rf (c_fs s)) /\ same_devices s s'.
#[global] Instance same_system_pre : PreOrder same_system.
Proof.
  split; [by intros s|]. intros s1 s2 s3 (E1 & D1) (E2 & D2). split; [congruence|by trans s2].
Qed.
Lemma same_privilege s s' : same_system s s' -> privileged s' = privileged s.
Proof.
  intros (E & _). unfold privileged, flag.
  rewrite (has_sys_bits (fs_rf (c_fs s'))), (has_sys_bits (fs_rf (c_fs s))) by done. by rewrite E.
Qed.

Definition user_keeps (s s' : C) : Prop := privileged s = false -> same_system s s'.
#[global] Instance user_keeps_pre : PreOrder user_keeps.
Proof.
  split; [by intros s _|]. intros s1 s2 s3 E1 E2 Hu. specialize (E1 Hu). trans s2; [done|].
  apply E2. by rewrite (same_privilege s1 s2).
Qed.
Lemma keeps_same s s' : same_system s s' -> user_keeps s s'.
Proof. by intros ? _. Qed.

Ltac by_fields := apply quiet_modify; intros s; apply keeps_same; by repeat split.

Lemma same_fs s f : sys_bits (fs_rf f) = sys_bits (fs_rf (c_fs s)) -> same_system s (s <| c_fs := f |>).
Proof. intros E. by repeat split. Qed.
Lemma same_reg i v s : i <> REG_RF -> same_system s (reg_set i v s).
Proof. intros Hi. unfold reg_set. destruct (Z.eqb_spec i REG_RF); [done|]. repeat split. apply length_insert. Qed.
Lemma same_flag b v s : Z.land b sys_mask = 0 -> same_system s (set_flag b v s).
Proof. intros Hb. unfold set_flag, reg_set. rewrite Z.eqb_refl. apply same_fs. by apply sys_bits_flag. Qed.

Lemma u_reg i f : i <> REG_RF -> quiet user_keeps (xmodify (fun s => reg_set i (f s) s)).
Proof. intros Hi. apply quiet_modify. intros s. by apply keeps_same, same_reg. Qed.
Lemma u_flag b v : Z.land b sys_mask = 0 -> quiet user_keeps (xmodify (set_flag b v)).
Proof. intros Hb. apply quiet_modify. intros s. by apply keeps_same, same_flag. Qed.
Lemma u_materialize : quiet user_keeps (materialize : XM unit).
Proof. apply quiet_modify. intros s. apply keeps_same, same_fs, sys_bits_materialize. Qed.

(** The destinations an instruction can name. *)
Definition not_control (dst : rref) : Prop := match dst with RControl _ => False | _ => True end.
Lemma u_commit dst v : not_control dst -> quiet user_keeps (commit_reg_w0 dst v).
Proof.
  intros Hd. apply quiet_modify. intros s Hu. destruct dst as [i| | | | |]; try done; [|by repeat split..].
  cbn [rput]. rewrite Hu, andb_true_r. unfold reg_set. destruct (Z.eqb_spec i REG_RF); [|repeat split; apply length_insert].
  apply same_fs. apply sys_bits_user.
Qed.
Lemma u_write dst sr v : not_control dst -> quiet user_keeps (write_subreg_bits dst sr v).
Proof. intros. unfold write_subreg_bits. quiet_all. by apply u_commit. Qed.

Lemma u_fast kind key pa s : user_keeps s (fast_install kind key pa s).
Proof. apply keeps_same. by repeat split. Qed.
Lemma u_tlb va ppn r w x u s : user_keeps s (tlb_install va ppn r w x u s).
Proof. apply keeps_same. by repeat split. Qed.
Lemma u_mem s m : user_keeps s (s <| c_mem := m |>).
Proof. apply keeps_same. by repeat split. Qed.
Lemma u_fault A va kind present : quiet user_keeps (raise_page_fault A va kind present).
Proof. apply quiet_fault, _. Qed.
Lemma u_translate va kind : quiet user_keeps (translate va kind).
Proof. apply quiet_translate; eauto using u_fast, u_tlb, u_fault with typeclass_instances. Qed.
Lemma u_store size va v : quiet user_keeps (store_with raise_page_fault size va v).
Proof. apply quiet_store; eauto using u_fast, u_tlb, u_fault, u_mem with typeclass_instances. Qed.
Lemma u_fetch pa n : quiet user_keeps (mm_fetch pa n).
Proof. apply quiet_mm_fetch, _. Qed.
Lemma u_raw pa n : quiet user_keeps (read_raw pa n).
Proof. apply quiet_read_raw, _. Qed.

Lemma u_alu o w src dst : quiet user_keeps (x_alu o w src dst).
Proof.
  intros s. unfold x_alu. destruct (alu_op_fn _ _ _ _ _ _) as [[r f]|] eqn:E; [|done].
  apply keeps_same, same_fs. destruct (alu_fn_rf _ _ _ _ _ _ _ _ E) as [->| ->]; [done|apply sys_bits_materialize].
Qed.
Lemma run_alu_sys a f a' f' : run_alu a f = Some (a', f') -> sys_bits (fs_rf f') = sys_bits (fs_rf f).
Proof.
  unfold run_alu. destruct (run_alu_case _ _ _ _ _) as [[[x y] g]|] eqn:E; [|done]. intros [= <- <-].
  destruct (run_alu_case_rf _ _ _ _ _ _ _ _ E) as [->| ->]; [done|apply sys_bits_materialize].
Qed.
Lemma u_run_alu : quiet user_keeps (x_run_alu : XM unit).
Proof.
  intros s. unfold x_run_alu. destruct (run_alu _ _) as [[a f]|] eqn:E; [|done].
  apply keeps_same. apply run_alu_sys in E. by repeat split.
Qed.
Lemma u_set_alu b0 b1 b2 : quiet user_keeps (set_alu b0 b1 b2 : XM unit).
Proof. by_fields. Qed.
Lemma u_add_rp n : quiet user_keeps (add_rp n : XM unit).
Proof. by apply u_reg. Qed.
Lemma u_native n : quiet user_keeps (native_call n).
Proof.
  apply quiet_modify. intros s. apply keeps_same.
  set (r := host_sys_call n (c_regs s) (c_mem s) (c_host s)).
  trans (if sr_power_off r then power_off (s <| c_mem := sr_mem r |> <| c_host := sr_host r |>)
         else s <| c_mem := sr_mem r |> <| c_host := sr_host r |>); [|by apply same_reg].
  destruct (sr_power_off r); [|by repeat split].
  etrans; [|unfold power_off; etrans; [by apply (same_flag bit_running false)|by repeat split]]. by repeat split.
Qed.

#[local] Hint Resolve u_materialize u_translate u_store u_fetch u_raw u_alu u_run_alu u_set_alu u_add_rp u_native : quiet.
#[local] Hint Extern 1 (quiet user_keeps (write_subreg_bits _ _ _)) => apply u_write; exact I : quiet.
#[local] Hint Extern 1 (quiet user_keeps (commit_reg_w0 _ _)) => apply u_commit; exact I : quiet.
#[local] Hint Extern 1 (quiet user_keeps (xmodify (reg_set _ _))) => apply u_reg; discriminate : quiet.
#[local] Hint Extern 1 (quiet user_keeps (xmodify (set_flag _ _))) => apply u_flag; reflexivity : quiet.

Lemma u_op_reg i : quiet user_keeps (op_reg i : XM Z).
Proof. unfold op_reg. quiet_all. Qed.
#[local] Hint Resolve u_op_reg : quiet.
Lemma u_op_word i : quiet user_keeps (op_word i : XM Z).
Proof. unfold op_word. quiet_all. Qed.
#[local] Hint Resolve u_op_word : quiet.
Lemma u_stage m dst sr : not_control dst -> quiet user_keeps (stage_source m dst sr).
Proof.
  intros Hd. assert (W : forall sr v, quiet user_keeps (write_subreg_bits dst sr v)) by (intros; by apply u_write).
  unfold stage_source, copy_regval_reg, copy_memval_reg, copy_regaddr_reg, copy_memaddr_reg, load_at, fetch_address.
  quiet_all.
Qed.
#[local] Hint Extern 1 (quiet user_keeps (stage_source _ _ _)) => apply u_stage; exact I : quiet.
Lemma u_skip m : quiet user_keeps (skip_imm m : XM unit).
Proof. unfold skip_imm. quiet_all. Qed.
#[local] Hint Resolve u_skip : quiet.
Lemma u_push n st : (forall a, quiet user_keeps (st a)) -> quiet user_keeps (push_reg n st).
Proof. intros. unfold push_reg. quiet_all. Qed.
Lemma u_push_return : quiet user_keeps (push_return : XM unit).
Proof. apply u_push. intros a. unfold copy_regval_regaddr. quiet_all. Qed.
#[local] Hint Resolve u_push_return : quiet.
Lemma u_store_ctx l a : quiet user_keeps (store_ctx l a).
Proof.
  revert a. induction l as [|v l IH]; intros a; cbn [store_ctx]; quiet_all. apply quiet_modify. intros s. apply u_mem.
Qed.
Lemma u_load_ctx n a : quiet user_keeps (load_ctx n a).
Proof. revert a. induction n as [|n IH]; intros a; cbn [load_ctx]; quiet_all. Qed.
#[local] Hint Resolve u_store_ctx u_load_ctx : quiet.
Lemma same_set_ctx order vals s : ~ In REG_RF order -> same_system s (set_ctx order vals s).
Proof.
  revert vals s. induction order as [|i order IH]; intros [|v vals] s Hi; cbn [set_ctx]; try reflexivity.
  trans (reg_set i v s); [apply same_reg; intros ->; apply Hi; by left|apply IH; intros ?; apply Hi; by right].
Qed.

(** The instructions a user program may execute, the system call apart. *)
Definition user_instr (i : instr) : bool :=
  match i with
  | IHalt | IOut _ | IOutr _ | IIn _ | IIret | ISetSysFlag _ _ | IMovtcr _ | IMovfcr | ITlbinv | ITlbinva | ISys _ => false
  | _ => true
  end.
Lemma u_add_rs n : quiet user_keeps (add_rs n : XM unit).
Proof. by apply u_reg. Qed.
#[local] Hint Resolve u_add_rs : quiet.
Lemma u_lea_restore p fl : 0 <= fl < 2 ^ 32 ->
  quiet user_keeps (xmodify (fun s : C => s <| c_fs := mk_fs (Z.lor (clr (fs_rf (c_fs s)) 0xFFFFFFFF) fl) p |>)).
Proof. intros Hfl. apply quiet_modify. intros s. apply keeps_same, same_fs. by apply sys_bits_low. Qed.
Lemma u_lea m : quiet user_keeps (exec_lea m : XM unit).
Proof.
  unfold exec_lea, copy_regval_reg.
  repeat lazymatch goal with
  | |- quiet _ (xgets _ ≫= _) => apply quiet_gets_bind; intros ?
  | _ => quiet_step
  end.
  apply u_lea_restore. apply Z.mod_pos_bound. lia.
Qed.
Lemma user_instr_keeps i : user_instr i = true -> quiet user_keeps (exec i : XM unit).
Proof.
  intros Hi. destruct i; try discriminate Hi; clear Hi; cbn [exec].
  all: unfold exec_clr, exec_setcc, exec_jcc, exec_cp, exec_cpz, exec_st, exec_alu, exec_unary, exec_cmpind, exec_cmpxchg,
    exec_mulw, exec_xchg, exec_pop, exec_push, exec_pushall, exec_popall, exec_call, exec_ret, exec_jmp,
    eval_condition, jump_to_immediate, set_reg, clr_reg, copy_regval_reg, copy_regval_reg_zext, copy_memval_reg,
    copy_memval_reg_zext, copy_regaddr_reg, copy_regaddr_reg_zext, copy_memaddr_reg, copy_memaddr_reg_zext,
    copy_regval_regaddr, copy_memval_regaddr, load_at, fetch_address.
  all: quiet_all; try apply u_lea; try (apply u_push; intros ?; quiet_all).
  apply quiet_modify. intros s. apply keeps_same, same_set_ctx. vm_compute. intuition discriminate.
Qed.

(** ** Entering supervisor mode *)

(** [s'] is where a trap taken in [s0] starts: at the address in the vector's
    slot, in supervisor mode, with interrupts off. *)
Definition entered (vector : Z) (s0 s' : C) : Prop :=
  rp s' = read_vector_entry s0 vector /\ rp s' <> 0 /\ privileged s' = true /\ flag bit_interrupt_enabled s' = false.

Lemma xbind_ret {A B} (m : XM A) (f : A -> XM B) s b s' : (m ≫= f) s = (XRet b, s') ->
  exists a s1, m s = (XRet a, s1) /\ f a s1 = (XRet b, s').
Proof. unfold mbind, X_bind. destruct (m s) as [[a|] s1]; [|done]. eauto. Qed.

(** Pushing a frame keeps RF and the devices. *)
Definition pushed (s s' : C) : Prop := c_fs s' = c_fs s /\ same_devices s s'.
#[global] Instance pushed_pre : PreOrder pushed.
Proof. split; [by intros s|]. intros s1 s2 s3 (? & ?) (? & ?). split; [congruence|by trans s2]. Qed.

Section Fault.
Context (fault : forall A : Type, Z -> access_kind -> bool -> XM A).
Context (Hfault : forall A va kind present, quiet pushed (fault A va kind present)).
Lemma quiet_push_word v : quiet pushed (push_word_with fault v).
Proof.
  unfold push_word_with. apply quiet_bind; [apply _| |intros _; apply quiet_bind; [apply _|apply quiet_gets; apply _|intros sp]].
  - apply quiet_modify. intros s. repeat split. apply length_insert.
  - apply quiet_store; try apply _; try apply Hfault; intros; by repeat split.
Qed.
Lemma delivered vector subcode aux pc s u s' : length (c_regs s) = 16%nat ->
  deliver_vectored_with fault vector subcode aux pc s = (XRet u, s') -> entered vector s s' /\ same_devices s s'.
Proof.
  intros Hl E. unfold deliver_vectored_with in E.
  apply xbind_ret in E as (h & ? & Eh & E). injection Eh as <- <-.
  destruct (Z.eqb_spec (read_vector_entry s vector) 0) as [|Hh]; [done|].
  apply xbind_ret in E as (? & s1 & E1 & E). injection E1 as _ <-. apply xbind_ret in E as (rf & ? & E1 & E). injection E1 as <- <-.
  apply xbind_ret in E as (? & s2 & E1 & E). injection E1 as _ <-.
  set (s2 := set_flag bit_privilege true _) in E.
  apply xbind_ret in E as (? & s3 & P1 & E). apply xbind_ret in E as (? & s4 & P2 & E). apply xbind_ret in E as (? & s5 & P3 & E).
  apply xbind_ret in E as (? & s6 & P4 & E). apply xbind_ret in E as (? & s7 & E1 & E). injection E1 as _ <-. injection E as _ <-.
  assert (P : pushed s2 s6).
  { pose proof (quiet_push_word pc s2) as Q1. rewrite P1 in Q1. trans s3; [done|].
    match type of P2 with push_word_with _ ?v _ = _ => pose proof (quiet_push_word v s3) as Q2 end. rewrite P2 in Q2. trans s4; [done|].
    match type of P3 with push_word_with _ ?v _ = _ => pose proof (quiet_push_word v s4) as Q3 end. rewrite P3 in Q3. trans s5; [done|].
    pose proof (quiet_push_word aux s5) as Q4. by rewrite P4 in Q4. }
  destruct P as [Pf Pd]. assert (L6 : length (c_regs s6) = 16%nat) by (destruct Pd as (_ & _ & _ & _ & _ & _ & _ & _ & ->); done).
  assert (Hrp : rp (reg_set REG_RP (read_vector_entry s vector) (set_flag bit_interrupt_enabled false s6)) = read_vector_entry s vector).
  { apply reg_get_set. unfold set_flag. rewrite length_reg_set, L6. done. }
  assert (Dv : same_devices s (reg_set REG_RP (read_vector_entry s vector) (set_flag bit_interrupt_enabled false s6))).
  { trans s2; [by repeat split|]. trans s6; [done|]. repeat split. apply length_insert. }
  split; [|done]. split; [done|]. split; [by rewrite Hrp|].
  unfold privileged, flag, set_flag, reg_set. cbn -[flag_set has]. rewrite Pf. cbn -[flag_set has].
  unfold bit_privilege, bit_interrupt_enabled. rewrite flag_set_other, flag_set_same, flag_set_same by done. done.
Qed.
End Fault.

Lemma fault_entered A va kind present s s' : length (c_regs s) = 16%nat ->
  raise_page_fault A va kind present s = (XStop Redirect, s') ->
  entered cause_page_fault s s' /\ c_cr s' = zinsert 2 (fault_error s kind present) (zinsert 1 va (c_cr s)).
Proof.
  intros Hl E. unfold raise_page_fault, mbind, X_bind, xgets, xmodify, xthrow in E. destruct (c_delivering s); [done|].
  match type of E with context [deliver_vectored_with ?f ?v ?b ?a ?p ?t] =>
    destruct (deliver_vectored_with f v b a p t) as [[u|e] s1] eqn:Ed end; injection E as E; [|subst; by apply faultless_deliver in Ed].
  apply delivered in Ed as [Hent Hd]; [|intros; apply quiet_double_fault|exact Hl].
  subst s'. split; [exact Hent|]. destruct Hd as (Hc & _). exact Hc.
Qed.

(** Delivering a trap changes no device either when it page-faults itself. *)
Lemma deliver_quiet vector subcode aux pc : quiet same_devices (deliver_vectored vector subcode aux pc).
Proof.
  assert (Q : forall v, quiet same_devices (push_word_with raise_page_fault v)).
  { intros v. unfold push_word_with. apply quiet_bind; [apply _| |intros _; apply quiet_bind; [apply _|apply quiet_gets; apply _|intros sp]].
    - apply quiet_modify. intros s. repeat split. apply length_insert.
    - apply quiet_store; try apply _; try (intros; by repeat split). intros. apply quiet_fault, _. }
  unfold deliver_vectored, deliver_vectored_with, materialize. quiet_all; try apply Q.
  all: apply quiet_modify; intros s; repeat split; apply length_insert.
Qed.

(** The instructions that need the privilege. *)
Definition supervisor_only (i : instr) : bool := negb (user_instr i) && match i with ISys _ => false | _ => true end.
Lemma supervisor_only_traps i s : supervisor_only i = true -> privileged s = false ->
  exec i s = (XStop (TrapHalt cause_privileged_op), s).
Proof.
  intros Hi Hp.
  assert (N : forall A (f : unit -> XM A), (need_privilege ≫= f) s = (XStop (TrapHalt cause_privileged_op), s)).
  { intros A f. unfold need_privilege, mbind, X_bind, xgets, xwhen, xthrow. by rewrite Hp. }
  destruct i; try discriminate Hi; cbn [exec]; apply N.
Qed.

(** What the end of a user instruction can be: the system state is as it was,
    or a trap has been taken through its vector. *)
Definition user_outcome {A} (s : C) (r : xres A) (s' : C) : Prop :=
  match r with
  | XRet _ => same_system s s' \/
      exists s0, same_system s s0 /\ flag bit_syscall_guest s = true /\ entered cause_syscall s0 s' /\ same_devices s s'
  | XStop Redirect => exists s0, same_devices s s0 /\ (privileged s0 = false \/ flag bit_syscall_guest s = true) /\
      entered cause_page_fault s0 s'
  | XStop _ => True
  end.
Lemma quiet_outcome {A} (m : XM A) s : length (c_regs s) = 16%nat -> privileged s = false -> quiet user_keeps m ->
  user_outcome s (m s).1 (m s).2.
Proof.
  intros Hl Hp Q. specialize (Q s). destruct (m s) as [[u|[]] s']; cbn [fst snd user_outcome]; try done; [left; by apply Q|].
  destruct Q as (s0 & Q & B & va & kind & present & E). specialize (Q Hp). exists s0.
  pose proof (same_privilege _ _ Q) as Hp0. destruct Q as [_ Q]. split; [done|]. split; [left; congruence|].
  apply fault_entered in E as [? _]; [done|]. destruct Q as (_ & _ & _ & _ & _ & _ & _ & _ & ->). done.
Qed.
Lemma outcome_trans {A} s s1 (r : xres A) s' : same_system s s1 -> user_outcome s1 r s' -> user_outcome s r s'.
Proof.
  intros Hs. assert (G : flag bit_syscall_guest s1 = flag bit_syscall_guest s).
  { unfold flag. rewrite (has_sys_bits (fs_rf (c_fs s1))), (has_sys_bits (fs_rf (c_fs s))) by done. by rewrite (proj1 Hs). }
  destruct r as [a|[]]; cbn [user_outcome]; try done; rewrite G.
  - intros [O|(s0 & O & ? & ? & D)]; [left; by trans s1|]. right. exists s0. split; [by trans s1|]. split; [done|]. split; [done|].
    trans s1; [apply Hs|done].
  - intros (s0 & O & ? & ?). exists s0. split; [|done]. trans s1; [apply Hs|done].
Qed.
Lemma outcome_bind {A B} (m : XM A) (f : A -> XM B) s : length (c_regs s) = 16%nat -> privileged s = false -> quiet user_keeps m ->
  (forall a s1, length (c_regs s1) = 16%nat -> privileged s1 = false -> user_outcome s1 (f a s1).1 (f a s1).2) ->
  user_outcome s ((m ≫= f) s).1 ((m ≫= f) s).2.
Proof.
  intros Hl Hp Q Hf. pose proof (quiet_outcome m s Hl Hp Q) as O. specialize (Q s). unfold mbind, X_bind.
  destruct (m s) as [[a|e] s1]; [|destruct e; exact O]. specialize (Q Hp). apply (outcome_trans s s1); [done|]. apply Hf.
  - destruct Q as (_ & _ & _ & _ & _ & _ & _ & _ & _ & ->). done.
  - rewrite (same_privilege s s1); done.
Qed.
Lemma sys_outcome m s : length (c_regs s) = 16%nat -> privileged s = false -> user_outcome s (exec_sys m s).1 (exec_sys m s).2.
Proof.
  intros Hl Hp. unfold exec_sys. apply outcome_bind; [done..|auto with quiet|]. clear s Hl Hp. intros _ s Hl Hp.
  apply outcome_bind; [done..|unfold sys_number, stage_operand1; quiet_all|]. clear s Hl Hp. intros n s Hl Hp.
  unfold mbind, X_bind, xgets. destruct (flag bit_syscall_guest s) eqn:G; [|by apply quiet_outcome; auto with quiet].
  pose proof (deliver_quiet cause_syscall 0 n (rp s) s) as Q.
  destruct (deliver_vectored cause_syscall 0 n (rp s) s) as [[u|[]] s'] eqn:E; cbn [fst snd user_outcome]; try done.
  - right. exists s. apply delivered in E as [? ?]; [done|..|done]. intros. apply quiet_fault, _.
  - destruct Q as (s0 & Q & B & va & kind & present & Ef). exists s0. split; [done|]. split; [by right|].
    apply fault_entered in Ef as [? _]; [done|]. destruct Q as (_ & _ & _ & _ & _ & _ & _ & _ & ->). done.
Qed.

(** C9: user code reaches supervisor mode only through a trap vector.  From a
    user-mode state, an instruction that needs the privilege stops with
    cause 4 before it changes anything; any other instruction that completes
    leaves the privilege, interrupt-enable and system-call bits, the control
    registers, the timer, the ports and the interrupt controller as they
    were, except that SYS under the guest system-call flag, and a page fault,
    leave the machine at the address the trap's slot of the vector table
    holds, in supervisor mode, with interrupts off. *)
Theorem user_enters_through_vector (s : C) : length (c_regs s) = 16%nat -> privileged s = false ->
  user_outcome s (dispatch s).1 (dispatch s).2 /\
  (forall i, dtbl (ri_b s 0) = Some i -> supervisor_only i = true ->
    dispatch s = (XStop (TrapHalt cause_privileged_op), s)).
Proof.
  intros Hl Hp. assert (E : dispatch s = match dtbl (ri_b s 0) with
    Some i => exec i s | None => (XStop (TrapHalt cause_illegal_instruction), s) end).
  { unfold dispatch, mbind, X_bind, xgets. by destruct (dtbl (ri_b s 0)). }
  split; [|intros i Hd Hi; rewrite E, Hd; by apply supervisor_only_traps].
  rewrite E. destruct (dtbl (ri_b s 0)) as [i|]; [|done].
  destruct (user_instr i) eqn:Hu; [by apply quiet_outcome, user_instr_keeps|].
  destruct (supervisor_only i) eqn:Hs; [by rewrite supervisor_only_traps|].
  unfold supervisor_only in Hs. rewrite Hu in Hs. destruct i; try discriminate Hs. by apply sys_outcome.
Qed.
End User.

(** ** Restarting an instruction *)

Section Restart.
Context {H : Type} `{V1Host H}.
Abbreviation C := (cpu H).
Abbreviation XM := (X H).

(** What an instruction has kept when it page-faults: the registers other
    than RP, RF as programs see it, memory, the address of the instruction,
    the control registers, the privilege.  [rf] and [mm] say whether RF and
    memory are among it. *)
Definition restart (rf mm : bool) (s s' : C) : Prop :=
  (forall j, 0 <= j -> j <> REG_RP -> zget (c_regs s') j = zget (c_regs s) j) /\
  (rf = true -> rf_view (c_fs s') = rf_view (c_fs s)) /\ (mm = true -> c_mem s' = c_mem s) /\
  c_instr_pc s' = c_instr_pc s /\ c_cr s' = c_cr s /\ privileged s' = privileged s /\
  length (c_regs s') = length (c_regs s).
#[local] Instance restart_pre rf mm : PreOrder (restart rf mm).
Proof.
  split; [by intros s|]. intros s1 s2 s3 (R1 & F1 & M1 & ? & ? & ? & ?) (R2 & F2 & M2 & ? & ? & ? & ?).
  repeat split; try congruence; intros.
  - by rewrite R2, R1.
  - by rewrite F2, F1.
  - by rewrite M2, M1.
Qed.

Section At.
Context (rf mm : bool).
Abbreviation R := (restart rf mm).

Lemma priv_materialize (s : C) : privileged (s <| c_fs := materialize_flags (c_fs s) |>) = privileged s.
Proof.
  apply same_privilege. by apply same_fs, sys_bits_materialize.
Qed.
Lemma r_materialize : quiet R (materialize : XM unit).
Proof.
  apply quiet_modify. intros s. split; [done|]. split; [intros _; apply view_materialized|]. repeat split; try done.
  apply priv_materialize.
Qed.
Lemma r_add_rp n : quiet R (add_rp n : XM unit).
Proof.
  apply quiet_modify. intros s. repeat split; [|apply length_insert]. intros j Hj Hn. cbn -[zget zinsert].
  apply zget_zinsert_other; [done..|]. by intros <-.
Qed.
Lemma r_translate va kind : quiet R (translate va kind).
Proof.
  apply quiet_translate; [apply _|by intros; repeat split|by intros; repeat split|intros; apply quiet_fault, _].
Qed.
Lemma r_fetch pa n : quiet R (mm_fetch pa n).
Proof. apply quiet_mm_fetch, _. Qed.
Lemma r_raw pa n : quiet R (read_raw pa n).
Proof. apply quiet_read_raw, _. Qed.
Lemma r_set_alu b0 b1 b2 : quiet R (set_alu b0 b1 b2 : XM unit).
Proof. apply quiet_modify. intros s. by repeat split. Qed.
(** The operands of the staging bank and the scratch operands. *)
Definition scratch (dst : rref) : Prop := match dst with RReg _ | RControl _ => False | _ => True end.
Lemma r_write dst sr v : scratch dst -> quiet R (write_subreg_bits dst sr v).
Proof.
  intros Hd. unfold write_subreg_bits, commit_reg_w0. quiet_all. apply quiet_modify. intros s.
  destruct dst; try done; by repeat split.
Qed.
Lemma f_write (dst : rref) sr v : faultless (write_subreg_bits (H := H) dst sr v).
Proof. unfold write_subreg_bits, commit_reg_w0. faultless_all. Qed.
Lemma f_alu o w src dst : faultless (x_alu (H := H) o w src dst).
Proof. intros s s'. unfold x_alu. by destruct (alu_op_fn _ _ _ _ _ _) as [[]|]. Qed.
Lemma f_run_alu : faultless (x_run_alu (H := H)).
Proof. intros s s'. unfold x_run_alu. by destruct (run_alu _ _) as [[]|]. Qed.
End At.
#[local] Hint Resolve r_materialize r_add_rp r_translate r_fetch r_raw r_set_alu f_write f_alu f_run_alu : quiet.
#[local] Hint Extern 1 (quiet (restart _ _) (write_subreg_bits _ _ _)) => apply r_write; exact I : quiet.

Section At.
Context (rf mm : bool).
Abbreviation R := (restart rf mm).
Lemma r_op_reg i : quiet R (op_reg i : XM Z).
Proof. unfold op_reg. quiet_all. Qed.
#[local] Hint Resolve r_op_reg : quiet.
Lemma r_op_word i : quiet R (op_word i : XM Z).
Proof. unfold op_word. quiet_all. Qed.
#[local] Hint Resolve r_op_word : quiet.
Lemma r_stage m dst sr : scratch dst -> quiet R (stage_source m dst sr).
Proof.
  intros Hd. assert (W : forall sr v, quiet R (write_subreg_bits dst sr v)) by (intros; by apply r_write).
  unfold stage_source, copy_regval_reg, copy_memval_reg, copy_regaddr_reg, copy_memaddr_reg, load_at, fetch_address. quiet_all.
Qed.
Lemma r_skip m : quiet R (skip_imm m : XM unit).
Proof. unfold skip_imm. quiet_all. Qed.
Lemma r_need : quiet R (need_privilege : XM unit).
Proof. unfold need_privilege. quiet_all. Qed.
Lemma f_op_reg i : faultless (op_reg i : XM Z).
Proof. unfold op_reg, materialize. faultless_all. Qed.
#[local] Hint Resolve f_op_reg : quiet.
Lemma f_op_word i : faultless (op_word i : XM Z).
Proof. unfold op_word. faultless_all. Qed.
End At.
#[local] Hint Resolve r_op_reg r_op_word r_skip r_need f_op_reg f_op_word : quiet.
#[local] Hint Extern 1 (quiet (restart _ _) (stage_source _ _ _)) => apply r_stage; exact I : quiet.

Lemma f_skip m : faultless (skip_imm m : XM unit).
Proof. unfold skip_imm, add_rp. faultless_all. Qed.
Lemma f_add_rp n : faultless (add_rp n : XM unit).
Proof. unfold add_rp. faultless_all. Qed.
Lemma f_port port dst sr : faultless (port_read (H := H) port dst sr).
Proof.
  unfold port_read, clr_reg, copy_regval_reg. faultless_all. intros s s'. by destruct (port_value port sr s).
Qed.
#[local] Hint Resolve f_skip f_add_rp f_port : quiet.

(** A computation that only changes what may change, then one that faults no
    more. *)
Ltac guarded_step :=
  lazymatch goal with
  | |- guarded _ (_ ≫= _) =>
      first [ apply guarded_bind; [apply _|solve [quiet_all]|intros ?]
            | apply guarded_last; [|intros ?; solve [faultless_all]] ]
  | |- guarded _ (if _ then _ else _) => apply guarded_if
  | |- guarded _ (match ?x with _ => _ end) => destruct x
  | |- guarded _ _ => apply guarded_faultless; solve [faultless_all]
  end.
Ltac guarded_all := repeat guarded_step.

Section At.
Context (rf mm : bool).
Abbreviation R := (restart rf mm).
Lemma g_store size va v : guarded R (store_with raise_page_fault size va v).
Proof. apply guarded_bind; [apply _|apply r_translate|]. intros pa. by apply guarded_faultless. Qed.
Lemma g_push n st : (forall a, guarded R (st a)) -> guarded R (push_reg n st).
Proof.
  intros Hs. unfold push_reg. apply guarded_bind; [apply _|quiet_all|]. intros a. apply guarded_last; [apply Hs|].
  intros. apply faultless_modify.
Qed.
Lemma g_push_return : guarded R (push_return : XM unit).
Proof.
  apply g_push. intros a. apply guarded_bind; [apply _|apply quiet_gets, _|intros p; apply g_store].
Qed.
Lemma g_stage m dst sr : guarded R (stage_source m dst sr).
Proof.
  unfold stage_source, copy_regval_reg, copy_memval_reg, copy_regaddr_reg, copy_memaddr_reg, load_at, fetch_address. guarded_all.
Qed.
End At.

Ltac guarded_next :=
  lazymatch goal with
  | |- guarded _ (stage_source _ _ _) => apply g_stage
  | |- guarded _ (store_with _ _ _ _) => apply g_store
  | |- guarded _ push_return => apply g_push_return
  | |- guarded _ (push_reg _ _) => apply g_push; intros ?
  | _ => guarded_step
  end.

Definition keeps_rf (i : instr) : bool := match i with ICmpxchg _ => false | _ => true end.
Definition keeps_mem (i : instr) : bool := match i with IPushall => false | _ => true end.
Definition is_sys (i : instr) : bool := match i with ISys _ => true | _ => false end.

Lemma g_cmpxchg m mm : guarded (restart false mm) (exec_cmpxchg m : XM unit).
Proof.
  assert (Z : forall v, quiet (restart false mm) (xmodify (set_flag bit_zero v) : XM unit)).
  { intros v. apply quiet_modify. intros s. repeat split; try done. by apply same_privilege, same_flag. }
  unfold exec_cmpxchg, copy_regval_reg. repeat guarded_next.
Qed.
Lemma g_pushall rf : guarded (restart rf false) (exec_pushall : XM unit).
Proof.
  assert (S : forall l a, quiet (restart rf false) (store_ctx l a)).
  { intros l. induction l as [|v l IH]; intros a; cbn [store_ctx]; quiet_all. apply quiet_modify. intros s. by repeat split. }
  unfold exec_pushall. guarded_all.
Qed.
Lemma r_load_ctx rf mm n a : quiet (restart rf mm) (load_ctx n a).
Proof. revert a. induction n as [|n IH]; intros a; cbn [load_ctx]; quiet_all. Qed.
#[local] Hint Resolve r_load_ctx : quiet.

Lemma exec_guarded i : is_sys i = false -> guarded (restart (keeps_rf i) (keeps_mem i)) (exec i : XM unit).
Proof.
  intros Hi. destruct i; try discriminate Hi; clear Hi; cbn [exec keeps_rf keeps_mem].
  all: try apply g_cmpxchg; try apply g_pushall.
  all: unfold exec_halt, exec_clr, exec_setcc, exec_jcc, exec_cp, exec_cpz, exec_st, exec_alu, exec_unary, exec_cmpind,
    exec_lea, exec_mulw, exec_xchg, exec_out, exec_outr, exec_in, exec_pop, exec_push, exec_popall, exec_call, exec_ret, exec_iret,
    exec_jmp, exec_movtcr, exec_movfcr, exec_tlbinva, cr_write, cr_read, imm_port, skip_port, out_value, stage_operand1,
    eval_condition, jump_to_immediate, add_rs, set_reg, clr_reg, copy_regval_reg, copy_regval_reg_zext, copy_memval_reg,
    copy_memval_reg_zext, copy_regaddr_reg, copy_regaddr_reg_zext, copy_memaddr_reg, copy_memaddr_reg_zext,
    copy_regval_regaddr, copy_memval_regaddr, load_at, fetch_address, commit_reg_w0.
  all: repeat guarded_next.
Qed.

(** A frame moves RS down by four words. *)
Lemma push_regs (fault : forall A : Type, Z -> access_kind -> bool -> XM A) v s u s' :
  (forall A va kind present, quiet (fun s s' : C => c_regs s' = c_regs s) (fault A va kind present)) ->
  push_word_with fault v s = (XRet u, s') -> c_regs s' = zinsert REG_RS (u64 (rs s - 8)) (c_regs s).
Proof.
  intros Hf E. unfold push_word_with in E. apply xbind_ret in E as (? & s1 & E1 & E). injection E1 as _ <-.
  apply xbind_ret in E as (sp & ? & E1 & E). injection E1 as <- <-.
  assert (Q : PreOrder (fun s s' : C => c_regs s' = c_regs s)) by (split; [done|intros ? ? ?; congruence]).
  epose proof (quiet_store (fun s s' : C => c_regs s' = c_regs s) _ _ fault Hf _ 8 _ v _) as St. rewrite E in St. exact St.
  Unshelve. all: done.
Qed.
Definition moved (n : Z) (s s' : C) : Prop :=
  length (c_regs s') = length (c_regs s) /\ rs s' = u64 (rs s - n) /\
  forall j, 0 <= j -> j <> REG_RP -> j <> REG_RS -> zget (c_regs s') j = zget (c_regs s) j.
Lemma moved_compose n n' s1 s2 s3 : moved n s1 s2 -> moved n' s2 s3 -> moved (n + n') s1 s3.
Proof.
  intros (L1 & R1 & O1) (L2 & R2 & O2). split; [congruence|]. split.
  - rewrite R2, R1. unfold u64. rewrite Zminus_mod_idemp_l. f_equal. lia.
  - intros j ? ? ?. by rewrite O2, O1.
Qed.
Lemma push_moved (fault : forall A : Type, Z -> access_kind -> bool -> XM A) v s u s' :
  (forall A va kind present, quiet (fun s s' : C => c_regs s' = c_regs s) (fault A va kind present)) ->
  length (c_regs s) = 16%nat -> push_word_with fault v s = (XRet u, s') -> moved 8 s s'.
Proof.
  intros Hf Hl E. apply push_regs in E; [|done]. split; [|split].
  - rewrite E. apply length_insert.
  - unfold rs at 1, reg_get. cbn -[zget zinsert]. rewrite E. apply zget_zinsert_same. rewrite Hl. done.
  - intros j Hj Hp Hs. rewrite E. apply zget_zinsert_other; [done..|by intros <-].
Qed.
Lemma deliver_moved (fault : forall A : Type, Z -> access_kind -> bool -> XM A) vector subcode aux pc s u s' :
  (forall A va kind present, quiet (fun s s' : C => c_regs s' = c_regs s) (fault A va kind present)) ->
  length (c_regs s) = 16%nat -> deliver_vectored_with fault vector subcode aux pc s = (XRet u, s') -> moved 32 s s'.
Proof.
  intros Hf Hl E. unfold deliver_vectored_with in E.
  apply xbind_ret in E as (h & ? & Eh & E). injection Eh as <- <-. destruct (read_vector_entry s vector =? 0); [done|].
  apply xbind_ret in E as (? & s1 & E1 & E). injection E1 as _ <-. apply xbind_ret in E as (rf & ? & E1 & E). injection E1 as <- <-.
  apply xbind_ret in E as (? & s2 & E1 & E). injection E1 as _ <-.
  apply xbind_ret in E as (? & s3 & P1 & E). apply xbind_ret in E as (? & s4 & P2 & E). apply xbind_ret in E as (? & s5 & P3 & E).
  apply xbind_ret in E as (? & s6 & P4 & E). apply xbind_ret in E as (? & s7 & E1 & E). injection E1 as _ <-. injection E as _ <-.
  apply push_moved in P1; [|done..]. assert (M1 : moved 8 s s3) by exact P1. clear P1.
  apply push_moved in P2; [|done|by rewrite (proj1 M1)]. pose proof (moved_compose _ _ _ _ _ M1 P2) as M2.
  apply push_moved in P3; [|done|by rewrite (proj1 M2)]. pose proof (moved_compose _ _ _ _ _ M2 P3) as M3.
  apply push_moved in P4; [|done|by rewrite (proj1 M3)]. destruct (moved_compose _ _ _ _ _ M3 P4) as (L & R & O).
  split; [rewrite <- L; apply length_insert|]. split.
  - etrans; [|exact R]. by apply reg_get_set_ne.
  - intros j Hj Hp Hs. rewrite <- O by done. apply zget_zinsert_other; [done..|by intros <-].
Qed.

(** C14: an instruction that page-faults can be executed again.  Up to the fault
    it has changed no register but RP, nor RF as programs see it, nor memory,
    nor the address that goes into the frame, so that the handler finds every
    other register as the instruction found it and RS a frame lower; the
    exceptions are CMPXCHG, which may have decided its comparison, PUSHALL,
    whose stores go below RS, and SYS, whose own trap may fault. *)
Theorem fault_restartable (i : instr) (s s' : C) : is_sys i = false -> length (c_regs s) = 16%nat ->
  exec i s = (XStop Redirect, s') ->
  exists s0, restart (keeps_rf i) (keeps_mem i) s s0 /\ page_fault_from s0 s' /\ rs s' = u64 (rs s - 32) /\
    forall j, 0 <= j -> j <> REG_RP -> j <> REG_RS -> zget (c_regs s') j = zget (c_regs s) j.
Proof.
  intros Hi Hl E. destruct (exec_guarded i Hi s s' E) as (s0 & R & F). exists s0. split; [done|]. split; [done|].
  destruct R as (R & _ & _ & _ & _ & _ & Hl0). destruct F as (A & va & kind & present & F).
  unfold raise_page_fault, mbind, X_bind, xgets, xmodify, xthrow in F. destruct (c_delivering s0); [done|].
  match type of F with context [deliver_vectored_with ?f ?v ?b ?a ?p ?t] =>
    destruct (deliver_vectored_with f v b a p t) as [[u|e] s1] eqn:Ed end; injection F as F; [|subst; by apply faultless_deliver in Ed].
  apply deliver_moved in Ed as (_ & M & O); [|intros; apply quiet_double_fault|cbn; congruence]. subst s'. split.
  - etrans; [exact M|]. f_equal. f_equal. apply R; done.
  - intros j Hj Hp Hs. etrans; [by apply O|]. by apply R.
Qed.
End Restart.
