(* ===== verification/V1Mmu.v ===== *)
(** * Address translation of the first-generation machine

    The software TLB and the per-kind page caches in front of the Sv48 walk
    of cpu.cpp are transparent: while they are coherent with the page tables,
    a translation is the walk.  Flushing makes them coherent, and TLBINVA is
    enough after a change to one page. *)
From Stdlib Require Import ZArith Lia Bool.
From stdpp Require Import base list numbers gmap.
From S2P Require Import Prelude Monad State Memory Paging MemFacts FrameLemmas V1Memory V1Alu V1AluProps V1Machine V1Exec V1Props.

(** ** The leaf a walk finds *)

(** The leaf entry for an address and its level, whatever the access. *)
Fixpoint find_leaf (m : mem) (va : Z) (level : nat) (table_base : Z) : option (Z * nat) :=
  let sh := 12 + Z.of_nat level * 9 in
  let pte := load 8 m (u64 (table_base + Z.land (Z.shiftr va sh) 0x1FF * 8)) in
  if negb (has pte 0x1) then None else
  if has pte 0x2 || has pte 0x4 || has pte 0x8 then
    if has pte 0x4 && negb (has pte 0x2) then None else
    if has pte (clr (bit sh - 1) 0xFFF) then None else Some (pte, level)
  else match level with O => None | S level' => find_leaf m va level' (clr pte 0xFFF) end.

Definition pte_permits (kind : access_kind) (p : bool) (pte : Z) : bool :=
  leaf_permits kind p (has pte 0x2) (has pte 0x4) (has pte 0x8) (has pte 0x10).
Definition leaf_pa (pte : Z) (level : nat) (va : Z) : Z :=
  Z.lor (clr pte 0xFFF) (Z.land va (bit (12 + Z.of_nat level * 9) - 1)).

Lemma sv48_find m va kind p level base : sv48_level m va kind p level base =
  match find_leaf m va level base with
  | Some (pte, l) => if pte_permits kind p pte then Some (leaf_pa pte l va) else None
  | None => None
  end.
Proof.
  revert base. induction level as [|level IH]; intros base; cbn [sv48_level find_leaf]; unfold pte_permits, leaf_pa.
  all: match goal with |- context [load 8 ?m ?a] => generalize (load 8 m a) end; intros pte.
  all: destruct (negb (has pte 1)); [done|]; destruct (has pte 2 || has pte 4 || has pte 8); [|done || apply IH].
  all: destruct (has pte 4 && negb (has pte 2)); [done|]; destruct (has pte (clr _ _)); [done|].
  all: by destruct (leaf_permits _ _ _ _ _ _).
Qed.

(** Two addresses of one page have the same bits from 12 to 47. *)
Lemma vpn_bits va va' i : vpn_of va = vpn_of va' -> 12 <= i < 48 -> Z.testbit va i = Z.testbit va' i.
Proof.
  intros E Hi. apply (f_equal (fun x => Z.testbit x (i - 12))) in E. unfold vpn_of in E. rewrite !Z.land_spec, !Z.shiftr_spec in E by lia.
  replace vpn_tag_mask with (Z.ones 36) in E by done. rewrite Z.ones_spec_low, !andb_true_r in E by lia.
  by replace (i - 12 + 12) with i in E by lia.
Qed.
Lemma vpn_index va va' sh : vpn_of va = vpn_of va' -> 12 <= sh <= 39 ->
  Z.land (Z.shiftr va sh) 0x1FF = Z.land (Z.shiftr va' sh) 0x1FF.
Proof.
  intros E Hs. apply Z.bits_inj'. intros i Hi. rewrite !Z.land_spec, !Z.shiftr_spec by lia. replace 0x1FF with (Z.ones 9) by done.
  destruct (Z.ltb_spec i 9); [rewrite (vpn_bits va va') by (done || lia); done|]. by rewrite Z.ones_spec_high, !andb_false_r by lia.
Qed.
Lemma tlb_index_vpn va : tlb_index va = Z.land (vpn_of va) (tlb_size - 1).
Proof. unfold tlb_index, vpn_of. by rewrite <- Z.land_assoc. Qed.
Lemma find_leaf_vpn m va va' level base : vpn_of va = vpn_of va' -> (level <= 3)%nat ->
  find_leaf m va level base = find_leaf m va' level base.
Proof.
  intros E. revert base. induction level as [|level IH]; intros base Hl; cbn [find_leaf];
    rewrite (vpn_index va va') by (done || lia); [done|]. by rewrite IH by lia.
Qed.
Lemma find_leaf_level m va level base pte l : find_leaf m va level base = Some (pte, l) -> (l <= level)%nat.
Proof.
  revert base. induction level as [|level IH]; intros base E; cbn [find_leaf] in E;
    repeat match type of E with context [if ?c then _ else _] => destruct c; try done end; simplify_eq; try lia.
  apply IH in E. lia.
Qed.
(** The page of a leaf address serves every address of its page. *)
Lemma leaf_pa_page pte l va va' : vpn_of va = vpn_of va' -> (l <= 3)%nat ->
  leaf_pa pte l va' = Z.lor (clr (leaf_pa pte l va) 0xFFF) (Z.land va' 0xFFF).
Proof.
  intros E Hl. unfold leaf_pa, clr. rewrite bit_pow. replace 0xFFF with (Z.ones 12) by done.
  set (sh := 12 + Z.of_nat l * 9). assert (Hs : 12 <= sh <= 39) by lia. clearbody sh.
  replace (2 ^ sh - 1) with (Z.ones sh) by (rewrite Z.ones_equiv; lia).
  apply Z.bits_inj'. intros i Hi. rewrite ?Z.lor_spec, ?Z.ldiff_spec, ?Z.land_spec, ?Z.lor_spec, ?Z.ldiff_spec, ?Z.land_spec.
  destruct (Z.ltb_spec i 12); [rewrite !Z.ones_spec_low by lia; by destruct (Z.testbit pte i), (Z.testbit va i), (Z.testbit va' i)|].
  rewrite (Z.ones_spec_high 12) by lia. destruct (Z.ltb_spec i sh).
  - rewrite Z.ones_spec_low, (vpn_bits va va') by (done || lia). by destruct (Z.testbit pte i), (Z.testbit va' i).
  - rewrite Z.ones_spec_high by lia. by destruct (Z.testbit pte i), (Z.testbit va i), (Z.testbit va' i).
Qed.

(** ** Coherence *)

Section Coherence.
Context {H : Type} `{V1Host H}.
Abbreviation C := (cpu H).
Abbreviation XM := (X H).

Definition root (s : C) : Z := clr (zget (c_cr s) 0) 0xFFF.
Definition leaf_at (s : C) (va : Z) : option (Z * nat) := find_leaf (c_mem s) va 3 (root s).
Definition walk_at (s : C) (va : Z) (kind : access_kind) (p : bool) : option Z :=
  sv48_walk (c_mem s) (zget (c_cr s) 0) va kind p.

Definition page_key (vpn : Z) (p : bool) : Z := Z.lor (Z.shiftl vpn 1) (if p then 1 else 0) + 1.

(** What the caches hold is what the tables say. *)
Definition tlb_ok (s : C) : Prop := forall va, let e := c_tlb s (tlb_index va) in
  te_valid e = true -> te_tag e = vpn_of va ->
  exists pte, leaf_at s va = Some (pte, O) /\ te_ppn e = clr pte 0xFFF /\
    te_r e = has pte 0x2 /\ te_w e = has pte 0x4 /\ te_x e = has pte 0x8 /\ te_u e = has pte 0x10.
Definition fast_ok (s : C) : Prop := forall kind w va p,
  fp_key (c_fast s (kind_index kind) w) = page_key (vpn_of va) p ->
  walk_at s va kind p = Some (Z.lor (fp_pa_page (c_fast s (kind_index kind) w)) (Z.land va 0xFFF)).
Definition coherent (s : C) : Prop := tlb_ok s /\ fast_ok s.

Definition only_caches (s s' : C) : Prop := exists t f v, s' = s <| c_tlb := t |> <| c_fast := f |> <| c_victim := v |>.

Lemma page_key_inj v p v' p' : page_key v p = page_key v' p' -> v = v' /\ p = p'.
Proof.
  unfold page_key. intros E. assert (E' : Z.lor (Z.shiftl v 1) (if p then 1 else 0) = Z.lor (Z.shiftl v' 1) (if p' then 1 else 0)) by lia.
  assert (B : forall v (p : bool), Z.lor (Z.shiftl v 1) (if p then 1 else 0) = 2 * v + Z.b2z p).
  { intros v0 p0. rewrite Z.shiftl_mul_pow2, Z.pow_1_r, Z.mul_comm by lia.
    destruct p0; [|rewrite Z.lor_0_r; simpl; lia]. symmetry. apply (Z.add_nocarry_lor (2 * v0) 1).
    replace 1 with (Z.ones 1) by done. rewrite Z.land_ones by lia. rewrite Z.mul_comm. apply Z_mod_mult. }
  rewrite !B in E'. destruct p, p'; simpl in E'; split; try done; lia.
Qed.
Lemma page_key_vpn v p : Z.shiftr (page_key v p - 1) 1 = v.
Proof.
  unfold page_key. replace (Z.lor (Z.shiftl v 1) (if p then 1 else 0) + 1 - 1) with (Z.lor (Z.shiftl v 1) (if p then 1 else 0)) by lia.
  rewrite Z.shiftr_lor, Z.shiftr_shiftl_l by lia. destruct p; apply Z.lor_0_r.
Qed.
Lemma page_key_pos v p : 0 <= v -> page_key v p <> 0.
Proof. intros Hv. unfold page_key. assert (0 <= Z.lor (Z.shiftl v 1) (if p then 1 else 0)); [|lia].
  apply Z.lor_nonneg. split; [by apply Z.shiftl_nonneg|by destruct p]. Qed.
Lemma vpn_nonneg va : 0 <= vpn_of va.
Proof. apply Z.land_nonneg. right. done. Qed.

Lemma walk_at_find s va kind p : walk_at s va kind p =
  match leaf_at s va with
  | Some (pte, l) => if pte_permits kind p pte then Some (leaf_pa pte l va) else None
  | None => None
  end.
Proof. apply sv48_find. Qed.
(** What a walk finds for one address of a page it finds for the others. *)
Lemma walk_at_page s va va' kind p pa : vpn_of va = vpn_of va' -> walk_at s va kind p = Some pa ->
  walk_at s va' kind p = Some (Z.lor (clr pa 0xFFF) (Z.land va' 0xFFF)).
Proof.
  intros E. rewrite !walk_at_find. unfold leaf_at. rewrite (find_leaf_vpn _ va va') by (done || lia).
  destruct (find_leaf _ _ _ _) as [[pte l]|] eqn:El; [|done]. destruct (pte_permits _ _ _); [|done]. intros [= <-].
  f_equal. apply leaf_pa_page; [done|]. by apply find_leaf_level in El.
Qed.

Lemma kind_index_inj k k' : kind_index k = kind_index k' -> k = k'.
Proof. by destruct k, k'. Qed.

Lemma fast_install_at kind key pa (s : C) k w : c_fast (fast_install kind key pa s) k w =
  if (k =? kind_index kind) && (w =? c_victim s k) then mk_fast key pa else c_fast s k w.
Proof.
  unfold fast_install, fupd. simpl. destruct (Z.eqb_spec k (kind_index kind)); [|done]. subst k. by destruct (w =? _).
Qed.
Lemma fast_install_ok s kind va pa : coherent s -> walk_at s va kind (privileged s) = Some pa ->
  coherent (fast_install kind (fast_page_key s va) (clr pa 0xFFF) s).
Proof.
  intros [Ht Hf] Hw. split; [exact Ht|]. intros kind' w va' p. rewrite !fast_install_at.
  destruct (Z.eqb_spec (kind_index kind') (kind_index kind)) as [Ek|]; [|apply Hf].
  destruct (w =? _); [|apply Hf]. cbn [andb fp_key fp_pa_page]. intros E.
  apply kind_index_inj in Ek as ->. apply page_key_inj in E as [Ev Ep]. subst p. by apply (walk_at_page s va).
Qed.
Lemma tlb_install_ok s va pte : coherent s -> leaf_at s va = Some (pte, O) ->
  coherent (tlb_install va (clr pte 0xFFF) (has pte 0x2) (has pte 0x4) (has pte 0x8) (has pte 0x10) s).
Proof.
  intros [Ht Hf] Hl. split; [|exact Hf]. intros va'. unfold tlb_install, fupd. simpl.
  destruct (Z.eqb_spec (tlb_index va') (tlb_index va)); [|apply Ht]. simpl. intros _ E. exists pte.
  split; [|done]. etrans; [|exact Hl]. apply find_leaf_vpn; [done|lia].
Qed.
Lemma only_caches_fast kind key pa s : only_caches s (fast_install kind key pa s).
Proof. by eexists _, _, _. Qed.
Lemma only_caches_tlb va ppn r w x u s : only_caches s (tlb_install va ppn r w x u s).
Proof. by eexists _, _, _. Qed.
#[local] Instance only_caches_pre : PreOrder only_caches.
Proof.
  split; [intros []; by eexists _, _, _|]. intros s1 s2 s3 (? & ? & ? & ->) (? & ? & ? & ->). by eexists _, _, _.
Qed.

(** ** The machine's walk *)

(** A translation that the tables allow returns the address and keeps the
    caches coherent; one they do not raises a page fault. *)
Definition walk_result (s : C) (va : Z) (kind : access_kind) (r : xres Z * C) : Prop :=
  match walk_at s va kind (privileged s) with
  | Some pa => exists s', r = (XRet pa, s') /\ coherent s' /\ only_caches s s'
  | None => exists present, r = raise_page_fault Z va kind present s
  end.

Lemma table_slot base va level m : 0 <= base < 2 ^ 64 -> base mod PAGE_SIZE = 0 ->
  let a := u64 (base + Z.land (Z.shiftr va (12 + Z.of_nat level * 9)) 0x1FF * 8) in
  phys_load 8 m a = load 8 m a.
Proof.
  intros Hb Ha a. assert (Hi : 0 <= Z.land (Z.shiftr va (12 + Z.of_nat level * 9)) 0x1FF < 512).
  { replace 0x1FF with (Z.ones 9) by done. rewrite Z.land_ones by lia. apply Z.mod_pos_bound. lia. }
  assert (Hp : base + PAGE_SIZE <= 2 ^ 64).
  { unfold PAGE_SIZE in *. pose proof (Z.div_mod base 4096). assert (base / 4096 < 2 ^ 64 / 4096); [|lia].
    apply Z.div_lt_upper_bound; [lia|]. change (4096 * (2 ^ 64 / 4096)) with (2 ^ 64). lia. }
  unfold PAGE_SIZE in Hp. apply phys_load_flat; subst a; unfold u64; rewrite Z.mod_small; lia.
Qed.
Lemma pte_base m a : mem_bytes m -> 0 <= clr (load 8 m a) 0xFFF < 2 ^ 64 /\ clr (load 8 m a) 0xFFF mod PAGE_SIZE = 0.
Proof.
  intros Hm. change (clr (load 8 m a) 0xFFF) with (page_of (load 8 m a)).
  split; [apply page_of_bound, (load_bound 8), Hm|apply aligned_page_of].
Qed.

Lemma walk_level_leaf s va kind level base : mem_bytes (c_mem s) -> 0 <= base < 2 ^ 64 -> base mod PAGE_SIZE = 0 ->
  walk_level raise_page_fault level va kind base s = (
  match find_leaf (c_mem s) va level base with
  | None => raise_page_fault Z va kind false s
  | Some (pte, l) =>
      if pte_permits kind (privileged s) pte then
        let pa := leaf_pa pte l va in
        let s1 := fast_install kind (fast_page_key s va) (clr pa 0xFFF) s in
        (XRet pa, if Nat.eqb l 0 then tlb_install va (clr pte 0xFFF) (has pte 0x2) (has pte 0x4) (has pte 0x8) (has pte 0x10) s1 else s1)
      else raise_page_fault Z va kind true s
  end : xres Z * C).
Proof.
  intros Hm. revert base. induction level as [|level IH]; intros base Hb Ha; cbn [walk_level find_leaf]; unfold mbind at 1, X_bind at 1, xgets at 1, read_pte;
    cbv zeta; rewrite table_slot by done; unfold pte_permits, leaf_pa.
  all: match goal with |- context [load 8 ?m ?a] => pose proof (pte_base m a Hm) as [Hpb Hpa]; revert Hpb Hpa; generalize (load 8 m a) end; intros pte Hpb Hpa.
  all: destruct (negb (has pte 1)); [done|]; destruct (has pte 2 || has pte 4 || has pte 8); [|done || by apply IH].
  all: destruct (has pte 4 && negb (has pte 2)); [done|]; destruct (has pte (clr _ _)); [done|].
  all: unfold mbind, X_bind, xgets, xmodify, xwhen; destruct (leaf_permits _ _ _ _ _ _); done.
Qed.

Lemma root_base s : 0 <= zget (c_cr s) 0 < 2 ^ 64 -> 0 <= root s < 2 ^ 64 /\ root s mod PAGE_SIZE = 0.
Proof. intros Hr. split; [by apply page_of_bound|apply aligned_page_of]. Qed.

Lemma mmu_walk_result s va kind : coherent s -> mem_bytes (c_mem s) -> 0 <= zget (c_cr s) 0 < 2 ^ 64 ->
  walk_result s va kind (mmu_walk raise_page_fault va kind s).
Proof.
  intros Hc Hm Hr. destruct (root_base s Hr) as [Hb Ha]. unfold mmu_walk, mbind, X_bind, xgets. fold (root s).
  rewrite walk_level_leaf by done. unfold walk_result. rewrite walk_at_find. fold (leaf_at s va).
  pose proof (walk_at_find s va kind (privileged s)) as Ew. destruct (leaf_at s va) as [[pte l]|] eqn:El; [|by exists false].
  destruct (pte_permits _ _ _); [|by exists true]. pose proof (fast_install_ok s kind va _ Hc Ew) as Hf. cbv zeta.
  eexists. split; [done|]. destruct l as [|l]; cbn [Nat.eqb]; [|split; [done|apply only_caches_fast]].
  split; [by apply tlb_install_ok|]. etrans; [apply only_caches_fast|apply only_caches_tlb].
Qed.
Lemma translate_slow_result s va kind : coherent s -> mem_bytes (c_mem s) -> 0 <= zget (c_cr s) 0 < 2 ^ 64 ->
  walk_result s va kind (translate_slow raise_page_fault va kind s).
Proof.
  intros Hc Hm Hr. unfold translate_slow, mbind at 1, X_bind at 1, xgets at 1.
  destruct (te_valid _ && _) eqn:E; [|by apply mmu_walk_result]. apply andb_prop in E as [Ev Et]. apply Z.eqb_eq in Et.
  destruct (proj1 Hc va Ev Et) as (pte & El & Ep & -> & -> & -> & ->). rewrite Ep.
  pose proof (walk_at_find s va kind (privileged s)) as Ew. rewrite El in Ew. unfold walk_result. rewrite Ew.
  unfold mbind, X_bind, xgets, xmodify. unfold pte_permits in *. destruct (leaf_permits _ _ _ _ _ _); cbn [negb]; [|by exists true].
  pose proof (fast_install_ok s kind va _ Hc Ew) as Hf.
  eexists. split; [reflexivity|]. split; [|apply only_caches_fast].
  assert (Eq : clr (leaf_pa pte 0 va) 0xFFF = clr pte 0xFFF); [|by rewrite Eq in Hf].
  unfold leaf_pa, clr. change (bit (12 + Z.of_nat 0 * 9) - 1) with 0xFFF. apply Z.bits_inj'. intros i Hi.
  rewrite !Z.ldiff_spec, Z.lor_spec, Z.ldiff_spec, Z.land_spec. by destruct (Z.testbit pte i), (Z.testbit va i), (Z.testbit 4095 i).
Qed.

Lemma flush_all_coherent s : coherent (tlb_flush_all s).
Proof.
  split; [by intros va|]. intros kind w va p E. cbn [tlb_flush_all] in E. exfalso. symmetry in E. revert E.
  apply page_key_pos, vpn_nonneg.
Qed.

Lemma flush_va_coherent s va m' : coherent s ->
  (forall va', vpn_of va' <> vpn_of va -> find_leaf m' va' 3 (root s) = leaf_at s va') ->
  coherent (tlb_flush_va va (s <| c_mem := m' |>)).
Proof.
  intros [Ht Hf] Hsame. set (s1 := s <| c_mem := m' |>).
  assert (Lf : forall va', vpn_of va' <> vpn_of va -> leaf_at (tlb_flush_va va s1) va' = leaf_at s va').
  { intros va' Hn. rewrite <- Hsame by done. unfold tlb_flush_va, leaf_at, root. by destruct (te_valid _ && _). }
  split.
  - intros va' e Hv Htag. destruct (decide (vpn_of va' = vpn_of va)) as [E|Hn].
    + exfalso. subst e. unfold tlb_flush_va in Hv, Htag. rewrite (tlb_index_vpn va'), E, <- tlb_index_vpn in Hv, Htag.
      change (c_tlb s1) with (c_tlb s) in *. set (e := c_tlb s (tlb_index va)) in *.
      destruct (te_valid e && (te_tag e =? vpn_of va)) eqn:Eb; simpl in Hv, Htag.
      * unfold fupd in Hv. by rewrite Z.eqb_refl in Hv.
      * fold e in Hv, Htag. rewrite Hv, Htag, Z.eqb_refl in Eb. done.
    + rewrite (Lf va' Hn). assert (Ee : e = c_tlb s (tlb_index va') \/ te_valid e = false).
      { subst e. unfold tlb_flush_va. destruct (te_valid _ && _); [|by left]. simpl. unfold fupd. destruct (_ =? _); [by right|by left]. }
      destruct Ee as [Ee|]; [|congruence]. rewrite Ee in Hv, Htag |- *. by apply Ht.
  - intros kind w va' p E.
    assert (Ec : c_fast (tlb_flush_va va s1) (kind_index kind) w = let f := c_fast s (kind_index kind) w in
      if negb (fp_key f =? 0) && (Z.shiftr (fp_key f - 1) 1 =? vpn_of va) then mk_fast 0 (fp_pa_page f) else f).
    { unfold tlb_flush_va. by destruct (te_valid _ && _). }
    rewrite Ec in E |- *. cbv zeta in *. destruct (negb _ && _) eqn:Eb.
    { exfalso. symmetry in E. revert E. apply page_key_pos, vpn_nonneg. }
    assert (Hn : vpn_of va' <> vpn_of va).
    { intros Ev. rewrite E, (proj2 (Z.eqb_neq _ _)) in Eb by (apply page_key_pos, vpn_nonneg).
      rewrite page_key_vpn, Ev, Z.eqb_refl in Eb. done. }
    rewrite walk_at_find, (Lf va' Hn), <- walk_at_find. by apply Hf.
Qed.

(** C11: translation through the TLB and the page caches is the page-table
    walk.  While the caches are coherent with the tables CR0 names, an access
    translates to the address the Sv48 walk gives and keeps them coherent,
    and where the walk gives none it raises the page fault; flushing makes
    them coherent whatever they held; and after a change of memory that moves
    no page but one, invalidating that page is enough. *)
Theorem translate_refines_walk (s : C) va kind : mem_bytes (c_mem s) -> 0 <= zget (c_cr s) 0 < 2 ^ 64 ->
  Z.land (zget (c_cr s) 0) 0xF = 1 ->
  (coherent s -> walk_result s va kind (translate va kind s)) /\
  coherent (tlb_flush_all s) /\
  (forall m', coherent s -> (forall va', vpn_of va' <> vpn_of va -> find_leaf m' va' 3 (root s) = leaf_at s va') ->
    coherent (tlb_flush_va va (s <| c_mem := m' |>))).
Proof.
  intros Hm Hr Hmode. split; [|split; [apply flush_all_coherent|]].
  - intros Hc. unfold translate, translate_with, mbind, X_bind, xgets. rewrite Hmode. cbn [negb Z.eqb Pos.eqb].
    destruct (fast_probe s kind (fast_page_key s va)) as [fp|] eqn:Ef; [|by apply translate_slow_result].
    assert (Hw : exists w, fp = c_fast s (kind_index kind) w /\ fp_key fp = page_key (vpn_of va) (privileged s)).
    { unfold fast_probe in Ef. repeat case_match; simplify_eq; repeat match goal with Hq : (_ =? _) = true |- _ => apply Z.eqb_eq in Hq end; eauto. }
    destruct Hw as (w & -> & Ek). unfold walk_result. rewrite (proj2 Hc kind w va (privileged s) Ek).
    exists s. split; [done|]. split; [done|reflexivity].
  - intros m' Hc Hsame. by apply flush_va_coherent.
Qed.
End Coherence.
