(* ===== verification/V1Trap.v ===== *)
(** * Traps, contexts and the timer of the first-generation machine

    With paging off: a trap frame and the IRET that consumes it, PUSHALL and
    POPALL, CALL and RET are inverse to each other.  The timer advanced by a
    block of instructions is the timer advanced one instruction at a time. *)
From Stdlib Require Import ZArith Lia Bool.
From stdpp Require Import base list numbers gmap.
From S2P Require Import Prelude Monad State Memory Paging MemFacts FrameLemmas V1Memory V1Alu V1AluProps V1Machine V1Exec V1Props V1Mmu.

(** ** Words in memory *)

Lemma word_load_same m a v : 0 <= a -> a + 8 <= 2 ^ 64 -> 0 <= v < 2 ^ 64 -> phys_load 8 (phys_store 8 m a v) a = v.
Proof.
  intros Ha Hb Hv. rewrite (phys_load_ext 8 _ (store 8 m a v)) by (try lia; intros; apply phys_store_flat; lia).
  rewrite phys_load_flat by lia. etrans; [apply (load_store_same 8)|]. apply Z.mod_small. lia.
Qed.
Lemma word_load_other m a b v : 0 <= a -> a + 8 <= 2 ^ 64 -> 0 <= b -> b + 8 <= 2 ^ 64 -> a + 8 <= b \/ b + 8 <= a ->
  phys_load 8 (phys_store 8 m a v) b = phys_load 8 m b.
Proof.
  intros Ha Ha' Hb Hb' Hd. rewrite (phys_load_ext 8 _ (store 8 m a v)) by (try lia; intros; apply phys_store_flat; lia).
  rewrite !phys_load_flat by lia. apply load_store_disj. lia.
Qed.

Section Traps.
Context {H : Type} `{V1Host H}.
Abbreviation C := (cpu H).
Abbreviation XM := (X H).

Definition bare (s : C) : Prop := Z.land (zget (c_cr s) 0) 0xF <> 1.
Lemma translate_bare (fault : forall A : Type, Z -> access_kind -> bool -> XM A) va kind s : bare s ->
  translate_with fault va kind s = (XRet va, s).
Proof.
  intros Hb. unfold translate_with, mbind, X_bind, xgets.
  destruct (Z.eqb_spec (Z.land (zget (c_cr s) 0) 0xF) 1) as [E|]; [by destruct (Hb E)|done].
Qed.

Lemma rs_set v (s : C) : length (c_regs s) = 16%nat -> rs (reg_set REG_RS v s) = v.
Proof. intros Hl. apply reg_get_set. by rewrite Hl. Qed.

(** The push of a trap frame's word. *)
Definition push_to (v : Z) (s : C) : C :=
  (reg_set REG_RS (rs s - 8) s) <| c_mem := phys_store 8 (c_mem s) (rs s - 8) v |>.
Lemma push_bare (fault : forall A : Type, Z -> access_kind -> bool -> XM A) v s : bare s -> length (c_regs s) = 16%nat ->
  8 <= rs s < 2 ^ 64 -> push_word_with fault v s = (XRet tt, push_to v s).
Proof.
  intros Hb Hl Hr. unfold push_word_with, store_with. unfold mbind, X_bind, xmodify, xgets. rewrite u64_small by lia.
  rewrite rs_set by done. rewrite translate_bare by exact Hb. done.
Qed.

Lemma push_to_facts v (s : C) : length (c_regs s) = 16%nat -> rs (push_to v s) = rs s - 8 /\
  length (c_regs (push_to v s)) = 16%nat /\ c_cr (push_to v s) = c_cr s /\
  c_mem (push_to v s) = phys_store 8 (c_mem s) (rs s - 8) v.
Proof. intros Hl. split; [by apply (rs_set (rs s - 8) s)|]. split; [|done]. by rewrite <- Hl; apply length_insert. Qed.
Lemma xbind_step {A B} (m : XM A) (f : A -> XM B) s a s1 : m s = (XRet a, s1) -> (m ≫= f) s = f a s1.
Proof. intros E. unfold mbind, X_bind. by rewrite E. Qed.

Lemma push_step (fault : forall A : Type, Z -> access_kind -> bool -> XM A) v n s :
  bare s -> length (c_regs s) = 16%nat -> 8 <= rs s < 2 ^ 64 -> rs s = n -> exists s1,
  push_word_with fault v s = (XRet tt, s1) /\ bare s1 /\ length (c_regs s1) = 16%nat /\ rs s1 = n - 8 /\
  c_mem s1 = phys_store 8 (c_mem s) (n - 8) v.
Proof.
  intros Hb Hl Hr <-. destruct (push_to_facts v s Hl) as (R & L & Cr & M). exists (push_to v s).
  split; [by apply push_bare|]. split; [|done]. unfold bare. by rewrite Cr.
Qed.

(** The memory after the four words of a frame. *)
Definition frame_mem (m : mem) (sp aux cause rf pc : Z) : mem :=
  phys_store 8 (phys_store 8 (phys_store 8 (phys_store 8 m (sp - 8) pc) (sp - 8 - 8) rf) (sp - 8 - 8 - 8) cause) (sp - 8 - 8 - 8 - 8) aux.
Lemma deliver_bare vector subcode aux pc s : bare s -> length (c_regs s) = 16%nat -> 32 <= rs s < 2 ^ 64 ->
  read_vector_entry s vector <> 0 ->
  exists s', deliver_vectored vector subcode aux pc s = (XRet tt, s') /\ entered vector s s' /\ same_devices s s' /\
    rs s' = rs s - 32 /\ c_mem s' = frame_mem (c_mem s) (rs s) aux (Z.lor vector (Z.shiftl subcode 8)) (rf_view (c_fs s)) pc.
Proof.
  intros Hb Hl Hr Hh.
  assert (E : exists s', deliver_vectored vector subcode aux pc s = (XRet tt, s') /\ rs s' = rs s - 32 /\
    c_mem s' = frame_mem (c_mem s) (rs s) aux (Z.lor vector (Z.shiftl subcode 8)) (rf_view (c_fs s)) pc).
  { unfold deliver_vectored, deliver_vectored_with, materialize. erewrite xbind_step by done.
    destruct (Z.eqb_spec (read_vector_entry s vector) 0); [done|].
    erewrite xbind_step by done. erewrite xbind_step by done. erewrite xbind_step by done.
    set (s1 := set_flag bit_privilege true _). cbv zeta.
    assert (F1 : rs s1 = rs s /\ c_mem s1 = c_mem s /\ c_cr s1 = c_cr s /\ length (c_regs s1) = 16%nat) by done.
    change (fs_rf (c_fs (s <| c_fs := materialize_flags (c_fs s) |>))) with (rf_view (c_fs s)). clearbody s1.
    destruct F1 as (R1 & M1 & C1 & L1). assert (B1 : bare s1) by (unfold bare; by rewrite C1).
    destruct (push_step raise_page_fault pc _ s1 B1 L1 ltac:(lia) R1) as (s2 & E2 & B2 & L2 & R2 & M2).
    destruct (push_step raise_page_fault (rf_view (c_fs s)) _ s2 B2 L2 ltac:(lia) R2) as (s3 & E3 & B3 & L3 & R3 & M3).
    destruct (push_step raise_page_fault (Z.lor vector (Z.shiftl subcode 8)) _ s3 B3 L3 ltac:(lia) R3) as (s4 & E4 & B4 & L4 & R4 & M4).
    destruct (push_step raise_page_fault aux _ s4 B4 L4 ltac:(lia) R4) as (s5 & E5 & B5 & L5 & R5 & M5).
    erewrite xbind_step by exact E2. erewrite xbind_step by exact E3. erewrite xbind_step by exact E4. erewrite xbind_step by exact E5.
    eexists. split; [done|]. split.
    - etrans; [by apply (reg_get_set_ne REG_RP REG_RS)|]. etrans; [exact R5|]. lia.
    - unfold frame_mem. rewrite <- M1, <- M2, <- M3, <- M4, <- M5. done. }
  destruct E as (s' & E & R & M). exists s'. split; [done|]. apply delivered in E as [? ?]; [done|..|done]. intros. apply quiet_fault, _.
Qed.
Lemma frame_mem_words m sp aux cause rf pc : 32 <= sp < 2 ^ 64 -> 0 <= aux < 2 ^ 64 -> 0 <= cause < 2 ^ 64 -> 0 <= rf < 2 ^ 64 ->
  0 <= pc < 2 ^ 64 -> let m' := frame_mem m sp aux cause rf pc in
  phys_load 8 m' (sp - 32) = aux /\ phys_load 8 m' (sp - 24) = cause /\ phys_load 8 m' (sp - 16) = rf /\ phys_load 8 m' (sp - 8) = pc.
Proof.
  intros Hs Ha Hc Hr Hp m'. subst m'. unfold frame_mem.
  replace (sp - 8 - 8 - 8 - 8) with (sp - 32) by lia. replace (sp - 8 - 8 - 8) with (sp - 24) by lia. replace (sp - 8 - 8) with (sp - 16) by lia.
  rewrite !word_load_same by lia. rewrite !word_load_other by lia. rewrite !word_load_same by lia. 
  rewrite !word_load_other by lia. rewrite !word_load_same by lia. rewrite !word_load_other by lia. rewrite !word_load_same by lia. done.
Qed.

Lemma iret_bare s : bare s -> privileged s = true -> length (c_regs s) = 16%nat -> 0 <= rs s -> rs s + 16 < 2 ^ 64 ->
  exec_iret s = (XRet tt, reg_set REG_RS (rs s + 16) (reg_set REG_RP (phys_load 8 (c_mem s) (rs s + 8))
    (s <| c_fs := mk_fs (phys_load 8 (c_mem s) (rs s)) (clear_dirty (fs_pending (c_fs s))) |>))).
Proof.
  intros Hb Hp Hl Hr Hr'. unfold exec_iret, need_privilege, translate. erewrite xbind_step by (unfold mbind, X_bind, xgets; by rewrite Hp).
  erewrite xbind_step by done. erewrite xbind_step by (by apply translate_bare). erewrite xbind_step by done.
  erewrite xbind_step by (by apply translate_bare). erewrite xbind_step by done. rewrite !u64_small by lia.
  erewrite xbind_step by done. erewrite xbind_step by done. unfold add_rs, xmodify. f_equal. f_equal.
  unfold rs at 1. rewrite reg_get_set_ne by done. apply u64_small. unfold rs in *. cbn -[zget]. cbn -[zget] in Hr, Hr'. lia.
Qed.

(** A trap is undone by IRET.  With paging off and a handler installed,
    a delivery saves the address, RF as the program sees it with the deferred
    flags resolved, and the cause below RS, and starts the handler; whatever
    the handler has done since, when RS points to the saved RF and the two
    saved words are unchanged, IRET in supervisor mode puts RP, RF and RS back
    to what they were, with no flags left to resolve. *)
Theorem trap_iret_roundtrip vector subcode aux pc (s : C) : bare s -> length (c_regs s) = 16%nat -> 32 <= rs s < 2 ^ 64 ->
  read_vector_entry s vector <> 0 -> 0 <= vector < 256 -> 0 <= subcode < 256 -> 0 <= aux < 2 ^ 64 -> 0 <= pc < 2 ^ 64 ->
  0 <= rf_view (c_fs s) < 2 ^ 64 ->
  exists s1, deliver_vectored vector subcode aux pc s = (XRet tt, s1) /\ entered vector s s1 /\
    rs s1 = rs s - 32 /\ phys_load 8 (c_mem s1) (rs s1) = aux /\ phys_load 8 (c_mem s1) (rs s1 + 8) = vector + 256 * subcode /\
    forall s2 : C, bare s2 -> privileged s2 = true -> length (c_regs s2) = 16%nat -> rs s2 = rs s1 + 16 ->
      phys_load 8 (c_mem s2) (rs s2) = phys_load 8 (c_mem s1) (rs s2) ->
      phys_load 8 (c_mem s2) (rs s2 + 8) = phys_load 8 (c_mem s1) (rs s2 + 8) ->
      exists s3, exec_iret s2 = (XRet tt, s3) /\ rp s3 = pc /\ rs s3 = rs s /\ fs_rf (c_fs s3) = rf_view (c_fs s) /\
        rf_view (c_fs s3) = rf_view (c_fs s).
Proof.
  intros Hb Hl Hr Hh Hv Hsub Ha Hp Hf. destruct (deliver_bare vector subcode aux pc s Hb Hl Hr Hh) as (s1 & E & Hent & _ & R & M).
  assert (Ec : Z.lor vector (Z.shiftl subcode 8) = vector + 256 * subcode).
  { rewrite Z.shiftl_mul_pow2, Z.lor_comm by lia. replace (vector + 256 * subcode) with (subcode * 2 ^ 8 + vector) by lia.
    symmetry. apply Z.add_nocarry_lor. rewrite <- Z.shiftl_mul_pow2 by lia. apply Z.bits_inj'. intros i Hi. rewrite Z.land_spec, Z.bits_0.
    destruct (Z.ltb_spec i 8); [by rewrite Z.shiftl_spec_low|].
    rewrite <- (Z.mod_small vector (2 ^ 8)), (Z.mod_pow2_bits_high vector), andb_false_r by lia. done. }
  rewrite Ec in M.
  destruct (frame_mem_words (c_mem s) (rs s) aux (vector + 256 * subcode) (rf_view (c_fs s)) pc) as (W1 & W2 & W3 & W4); [lia..|].
  exists s1. rewrite M, R. replace (rs s - 32 + 8) with (rs s - 24) by lia. do 5 (split; [done|]).
  intros s2 Hb2 Hp2 Hl2 R2. replace (rs s2) with (rs s - 16) by lia. replace (rs s - 16 + 8) with (rs s - 8) by lia.
  rewrite W3, W4. intros F2 P2. rewrite iret_bare by (done || lia). eexists. split; [reflexivity|].
  replace (rs s2) with (rs s - 16) by lia. replace (rs s - 16 + 8) with (rs s - 8) by lia. rewrite F2, P2.
  split; [|split; [|split]].
  - unfold rp. rewrite reg_get_set_ne by done. apply reg_get_set. cbn. by rewrite Hl2.
  - rewrite rs_set; [lia|]. by rewrite length_reg_set.
  - done.
  - done.
Qed.

(** ** Saving and restoring a context *)

(** The words [l] are in memory from [a] on. *)
Fixpoint words_at (m : mem) (a : Z) (l : list Z) : Prop :=
  match l with [] => True | v :: l' => phys_load 8 m a = v /\ words_at m (a + 8) l' end.
Lemma words_at_ext m m' a l : (forall b, a <= b -> b + 8 <= a + 8 * Z.of_nat (length l) -> phys_load 8 m' b = phys_load 8 m b) ->
  words_at m a l -> words_at m' a l.
Proof.
  revert a. induction l as [|v l IH]; intros a E; [done|]. cbn [words_at length] in *. intros [Ev El]. split.
  - rewrite E by lia. done.
  - apply IH; [|done]. intros b ? ?. apply E; lia.
Qed.

Lemma store_ctx_bare l a s : bare s -> Forall (fun v => 0 <= v < 2 ^ 64) l -> 0 <= a -> a + 8 * Z.of_nat (length l) < 2 ^ 64 ->
  exists m', store_ctx l a s = (XRet tt, s <| c_mem := m' |>) /\ words_at m' a l /\
    forall b, 0 <= b -> b + 8 <= a -> phys_load 8 m' b = phys_load 8 (c_mem s) b.
Proof.
  intros Hb Hl. revert a s Hb. induction Hl as [|v l Hv Hl IH]; intros a s Hb Ha Hn; cbn [store_ctx length] in *.
  { exists (c_mem s). split; [by destruct s|done]. }
  erewrite xbind_step by (by apply translate_bare). erewrite xbind_step by done. rewrite u64_small by lia.
  set (s1 := s <| c_mem := phys_store 8 (c_mem s) a v |>).
  destruct (IH (a + 8) s1 Hb ltac:(lia) ltac:(lia)) as (m' & E & W & K). exists m'. split; [exact E|]. split.
  - split; [|done]. rewrite K by lia. apply word_load_same; lia.
  - intros b H1 H2. rewrite K by lia. apply word_load_other; lia.
Qed.
Lemma load_ctx_bare l a s : bare s -> words_at (c_mem s) a l -> 0 <= a -> a + 8 * Z.of_nat (length l) < 2 ^ 64 ->
  load_ctx (length l) a s = (XRet l, s).
Proof.
  intros Hb. revert a. induction l as [|v l IH]; intros a W Ha Hn; cbn [load_ctx length words_at] in *; [done|].
  destruct W as [Wv Wl]. erewrite xbind_step by (by apply translate_bare). erewrite xbind_step by done. rewrite u64_small by lia.
  erewrite xbind_step by (apply IH; [done|lia..]). by rewrite Wv.
Qed.
(** The registers after [set_ctx]. *)
Lemma set_ctx_regs order vals (s : C) : NoDup order -> length vals = length order ->
  Forall (fun i => 0 <= i < Z.of_nat (length (c_regs s))) order ->
  length (c_regs (set_ctx order vals s)) = length (c_regs s) /\
  (forall i, 0 <= i -> i ∉ order -> reg_get (set_ctx order vals s) i = reg_get s i) /\
  reg_get (set_ctx order vals s) <$> order = vals.
Proof.
  revert vals s. induction order as [|i order IH]; intros [|v vals] s Hn Hl Hr; try done. cbn [set_ctx].
  apply NoDup_cons in Hn as [Hi Hn]. apply Forall_cons in Hr as [Hri Hr]. injection Hl as Hl.
  destruct (IH vals (reg_set i v s) Hn Hl) as (L & O & E).
  { eapply Forall_impl; [exact Hr|]. intros j Hj. by rewrite length_reg_set. }
  rewrite length_reg_set in L. split; [done|]. split.
  - intros j Hj Hnj. apply not_elem_of_cons in Hnj as [Hne Hnj]. rewrite O by done. apply reg_get_set_ne; [lia..|done].
  - cbn [fmap list_fmap]. f_equal; [|done]. rewrite O by (done || lia). by apply reg_get_set.
Qed.

(** POPALL restores the context PUSHALL saved.  With paging off, PUSHALL
    stores R0 to R9, RT, RV and RB below RS; whatever happened since, when RS
    is where PUSHALL left it and the thirteen words are unchanged, POPALL
    gives those registers back the values they had, RS included, and changes
    no other register. *)
Theorem context_roundtrip (s : C) : bare s -> length (c_regs s) = 16%nat -> Forall (fun v => 0 <= v < 2 ^ 64) (c_regs s) ->
  ctx_bytes <= rs s < 2 ^ 64 ->
  exists s1, exec_pushall s = (XRet tt, s1) /\ rs s1 = rs s - ctx_bytes /\
    (forall i, 0 <= i -> i <> REG_RS -> reg_get s1 i = reg_get s i) /\
    words_at (c_mem s1) (rs s1) (reg_get s <$> ctx_order) /\
    forall s2 : C, bare s2 -> length (c_regs s2) = 16%nat -> rs s2 = rs s1 ->
      words_at (c_mem s2) (rs s2) (reg_get s <$> ctx_order) ->
      exists s3, exec_popall s2 = (XRet tt, s3) /\ rs s3 = rs s /\
        reg_get s3 <$> ctx_order = reg_get s <$> ctx_order /\
        forall i, 0 <= i -> i <> REG_RS -> i ∉ ctx_order -> reg_get s3 i = reg_get s2 i.
Proof.
  intros Hb Hl Hw Hr. assert (Eb : ctx_bytes = 104) by done. rewrite Eb in *.
  assert (Hv : Forall (fun v => 0 <= v < 2 ^ 64) (reg_get s <$> ctx_order)).
  { assert (G : forall i, i <> REG_RF -> 0 <= reg_get s i < 2 ^ 64).
    { intros i Hi. unfold reg_get. destruct (Z.eqb_spec i REG_RF); [done|]. unfold zget, zlookup. destruct (i <? 0); [done|].
      destruct (c_regs s !! Z.to_nat i) as [v|] eqn:Ei; [|done]. by apply (Forall_lookup_1 _ _ _ _ Hw Ei). }
    apply Forall_fmap. unfold ctx_order. repeat constructor; by apply G. }
  assert (Ho : Forall (fun i => 0 <= i /\ REG_RS <> i) ctx_order) by (unfold ctx_order; repeat constructor; done).
  destruct (store_ctx_bare (reg_get s <$> ctx_order) (rs s - 104) s Hb Hv) as (m' & E & W & _); [lia|cbn [length fmap list_fmap ctx_order]; lia|].
  assert (Ep : exec_pushall s = (XRet tt, reg_set REG_RS (rs s - 104) (s <| c_mem := m' |>))).
  { unfold exec_pushall, translate. rewrite Eb. erewrite xbind_step by done. erewrite xbind_step by done. rewrite !u64_small by lia.
    erewrite xbind_step by (by apply translate_bare). erewrite xbind_step by (by apply translate_bare).
    by erewrite xbind_step by exact E. }
  eexists. split; [exact Ep|]. assert (R1 : rs (reg_set REG_RS (rs s - 104) (s <| c_mem := m' |>)) = rs s - 104) by (by apply rs_set).
  rewrite R1. split; [done|]. split; [intros i Hi Hn; by rewrite reg_get_set_ne by (done || by intros <-)|]. split; [exact W|].
  intros s2 Hb2 Hl2 R2 W2. rewrite R2 in W2.
  destruct (set_ctx_regs ctx_order (reg_get s <$> ctx_order) s2) as (L & O & G).
  { apply (bool_decide_unpack _). by vm_compute. } { done. } { rewrite Hl2. apply (bool_decide_unpack _). by vm_compute. }
  assert (Ld : load_ctx (length (reg_get s <$> ctx_order)) (rs s - 104) s2 = (XRet (reg_get s <$> ctx_order), s2)).
  { apply load_ctx_bare; [done|done|lia|cbn [length fmap list_fmap ctx_order]; lia]. }
  eexists. split.
  { unfold exec_popall, translate. rewrite Eb. erewrite xbind_step by done. rewrite R2, !u64_small by lia.
    erewrite xbind_step by (by apply translate_bare). erewrite xbind_step by (by apply translate_bare).
    erewrite xbind_step by exact Ld.
    erewrite xbind_step by done. reflexivity. }
  split; [rewrite rs_set by congruence; lia|]. split.
  - etrans; [|exact G]. apply list_fmap_ext. intros k i Hk. destruct (Forall_lookup_1 _ _ _ _ Ho Hk). by apply reg_get_set_ne.
  - intros i Hi Hn Hc. rewrite reg_get_set_ne by (done || by intros <-). by apply O.
Qed.

(** ** The timer *)

(** The ticks of an idle timer do nothing. *)
Definition idle (t : timer_device) : bool := negb (has (t_control t) 0x1) || has (t_status t) 0x1.
Lemma advance_idle t n : idle t = true -> advance_timer t n = (t, false).
Proof. unfold idle, advance_timer. destruct (n =? 0), (has (t_control t) 1), (has (t_status t) 1); done. Qed.
Lemma advance_fired t n t' : advance_timer t n = (t', true) -> idle t' = true.
Proof.
  unfold advance_timer, idle. destruct (n =? 0); [done|]. destruct (negb (has (t_control t) 1)); [done|].
  destruct (has (t_status t) 1); [done|]. destruct (_ =? 0); [done|]. destruct (n <? _); [done|]. intros [= <-]. simpl.
  apply orb_true_iff. right. unfold has. rewrite Z.land_lor_distr_l.
  destruct (Z.eqb_spec (Z.lor (Z.land (t_status t) 1) (Z.land 1 1)) 0) as [E|]; [|done]. apply Z.lor_eq_0_iff in E as [_ E]. done.
Qed.
Definition reload (t : timer_device) : Z := if t_counter t =? 0 then t_period t else t_counter t.
Definition with_counter (t : timer_device) (c : Z) : timer_device := mk_timer (t_period t) (t_control t) (t_status t) c (t_irq_vector t).
Lemma advance_live t n : idle t = false -> n <> 0 -> advance_timer t n =
  if reload t =? 0 then (with_counter t 0, false) else
  if n <? reload t then (with_counter t (reload t - n), false) else
  (mk_timer (t_period t) (if has (t_control t) 0x2 then t_control t else clr (t_control t) 0x1) (Z.lor (t_status t) 0x1) 0 (t_irq_vector t), true).
Proof.
  intros Hi Hn. unfold idle in Hi. apply orb_false_iff in Hi as [Hc1 Hs1]. unfold advance_timer. rewrite Hc1, Hs1.
  destruct (Z.eqb_spec n 0); [done|]. fold (reload t). destruct (Z.eqb_spec (reload t) 0) as [->|]; done.
Qed.
(** A block of [n + 1] ticks is one tick and then [n]. *)
Lemma advance_split t n : 0 <= n -> 0 <= t_counter t -> 0 <= t_period t ->
  advance_timer t (n + 1) = let '(t1, f1) := advance_timer t 1 in let '(t2, f2) := advance_timer t1 n in (t2, f1 || f2).
Proof.
  intros Hn Hc Hp. destruct (idle t) eqn:Hi; [by rewrite !advance_idle by (done || by rewrite advance_idle)|].
  assert (Hr : 0 <= reload t) by (unfold reload; destruct (_ =? 0); lia).
  rewrite (advance_live t (n + 1)), (advance_live t 1) by (done || lia).
  destruct (Z.eqb_spec (reload t) 0) as [E0|].
  { destruct (Z.eqb_spec n 0) as [->|]; [done|]. rewrite advance_live by done.
    replace (reload (with_counter t 0)) with 0; [done|]. unfold reload in *. simpl. destruct (Z.eqb_spec (t_counter t) 0); lia. }
  destruct (Z.ltb_spec 1 (reload t)).
  - destruct (Z.eqb_spec n 0) as [->|]; [by destruct (Z.ltb_spec (0 + 1) (reload t)); [|lia]|]. rewrite advance_live by done.
    assert (E : reload (with_counter t (reload t - 1)) = reload t - 1).
    { unfold reload at 1. simpl. destruct (Z.eqb_spec (reload t - 1) 0); [lia|done]. }
    rewrite E. destruct (Z.eqb_spec (reload t - 1) 0); [lia|].
    destruct (Z.ltb_spec (n + 1) (reload t)), (Z.ltb_spec n (reload t - 1)); try lia; [|done].
    unfold with_counter. simpl. do 2 f_equal. lia.
  - destruct (Z.ltb_spec (n + 1) (reload t)); [lia|]. rewrite advance_idle; [done|]. apply (advance_fired t 1).
    rewrite advance_live by done. destruct (Z.eqb_spec (reload t) 0); [done|]. by destruct (Z.ltb_spec 1 (reload t)); [lia|].
Qed.
Lemma advance_counter t n t' f : 0 <= n -> 0 <= t_counter t -> 0 <= t_period t -> advance_timer t n = (t', f) ->
  0 <= t_counter t' /\ t_period t' = t_period t /\ t_irq_vector t' = t_irq_vector t.
Proof.
  intros Hn Hc Hp E. destruct (idle t) eqn:Hi; [rewrite advance_idle in E by done; by simplify_eq|].
  destruct (Z.eqb_spec n 0) as [->|]; [injection E as <- <-; done|]. rewrite advance_live in E by done.
  destruct (_ =? 0); [by simplify_eq|]. destruct (Z.ltb_spec n (reload t)); simplify_eq; simpl; [lia|done].
Qed.

(** Advancing the timer by a block of instructions is advancing it once
    per instruction: the counter, the control and status words and the
    interrupt raised are the same, for a counter that runs out inside the
    block, one-shot or periodic, too. *)
Theorem timer_block_is_ticks (n : nat) (s : C) : (forall t, c_timer s = Some t -> 0 <= t_counter t /\ 0 <= t_period t) ->
  advance_active_timer (Z.of_nat n) s = Nat.iter n (advance_active_timer 1) s.
Proof.
  revert s. induction n as [|n IH]; intros s Ht.
  { unfold advance_active_timer, advance_timer. simpl. destruct (c_timer s) eqn:E; [|done]. destruct s. simpl in E. by subst. }
  rewrite Nat.iter_succ_r, <- IH.
  - unfold advance_active_timer at 1 3. destruct (c_timer s) as [t|] eqn:E; [|by unfold advance_active_timer; rewrite E].
    destruct (Ht t eq_refl) as [Hc Hp]. rewrite Nat2Z.inj_succ, <- Z.add_1_r, advance_split by (done || lia).
    destruct (advance_timer t 1) as [t1 f1] eqn:E1.
    destruct (advance_counter t 1 t1 f1) as (Hc1 & Hp1 & Hv); [done..|].
    unfold advance_active_timer. destruct f1.
    + assert (Hi : idle t1 = true) by (by apply (advance_fired t 1)).
      change (c_timer (raise_irq (t_irq_vector t) (s <| c_timer := Some t1 |>))) with (Some t1).
      rewrite !(advance_idle t1) by done. by destruct s.
    + simpl. destruct (advance_timer t1 (Z.of_nat n)) as [t2 f2]. simpl. rewrite Hv. by destruct f2.
  - intros t1. unfold advance_active_timer. destruct (c_timer s) as [t|] eqn:E; [|congruence].
    destruct (Ht t eq_refl) as [Hc Hp]. destruct (advance_timer t 1) as [t' f] eqn:E1.
    destruct (advance_counter t 1 t' f) as (Hc1 & Hp1 & _); [done..|].
    assert (Et : c_timer (if f then raise_irq (t_irq_vector t) (s <| c_timer := Some t' |>) else s <| c_timer := Some t' |>) = Some t') by (by destruct f).
    rewrite Et. intros [= <-]. lia.
Qed.
End Traps.

(** * The first-generation machine on concrete programs

    A machine with no devices, the instances of the general theorems on it,
    and one program that shows what trap delivery on the user's stack pointer
    allows. *)

(** A host with no devices whose system calls do nothing. *)
#[export] Instance quiet_host : V1Host unit := {
  host_port_write := fun _ _ _ _ h => (h, []);
  host_port_read := fun _ _ _ h => (0, h, []);
  host_sys_call := fun _ _ m h => mk_sys 0 m h false;
  host_input_tick := fun h => (NotReady, h, []);
  host_rearm_ready_edge := fun h => h
}.

(** A machine after reset with the given RF, RP, RS, R0, CR0 and memory. *)
Definition demo_machine (rf rp rs r0 cr0 : Z) (m : mem) : cpu unit :=
  mk_cpu [r0; 0; 0; 0; 0; 0; 0; 0; 0; 0; 0; 0; 0; 0; rp; rs] (mk_fs rf no_pending) 0 (mk_alu 0 0 0 0 0) 0 0 m [cr0; 0; 0]
    (fun _ => tlb_empty) (fun _ _ => mk_fast 0 0) (fun _ => 0) 0 false false true false ∅ None ∅ ∅ false 0 tt.

Definition words (l : list (Z * Z)) : mem := foldr (fun '(a, v) m => store 8 m a v) (fun _ => 0) l.

(** User code at 0x20000: SYS, then a load from an unmapped page.  The vector
    table and the kernel's handler at 0x30000, [ADD $10 RS; IRET], are mapped
    for the supervisor only. *)
Definition escalation_mem : mem := words [
  (0x1038, 0x30000); (0x1040, 0x30000);                      (* vectors 7 and 8 *)
  (0x10000, 0x11001); (0x11000, 0x12001); (0x12000, 0x13001); (* the tables down to level 0 *)
  (0x13000 + 8 * 0x01, 0x1007);                              (* the vector table: R W *)
  (0x13000 + 8 * 0x20, 0x2001B);                             (* user code: R X U *)
  (0x13000 + 8 * 0x30, 0x3000B);                             (* the handler: R X *)
  (0x20000, 0x1E0E81000074);                                 (* SYS $00; CP @R0 R1 *)
  (0x30000, 0x6710FE0043) ].                                 (* ADD $10 RS; IRET *)
Definition escalation_start : cpu unit :=
  demo_machine bit_syscall_guest 0x20000 0x1048 0x999000 0x10001 escalation_mem.

(** A computation's end, from its result alone. *)
Lemma stops {A} (p : xres A * cpu unit) e : p.1 = XStop e -> p = (XStop e, p.2).
Proof. destruct p as [r s]. by intros [= ->]. Qed.

(** C10: trap delivery writes its frame through the user's stack pointer with
    the supervisor's rights, so a user program can take the machine over.  In
    the user-mode machine above, whose page tables let user code write no byte
    of the vector table and execute nothing but its own page, a SYS with RS
    inside the table overwrites the page-fault vector, and the next page fault
    starts the user's own code in supervisor mode. *)
Theorem user_takes_over_vectors :
  privileged escalation_start = false /\
  Forall (fun a => walk_at escalation_start a Store false = None) (seqZ 0x1000 0x800) /\
  exists s', tick 4 escalation_start = (XStop Redirect, s') /\ privileged s' = true /\ rp s' = 0x20003 /\
    walk_at s' (rp s') Fetch true = Some 0x20003 /\ walk_at escalation_start 0x20003 Fetch false = Some 0x20003.
Proof.
  split; [done|]. split.
  - apply Forall_seqZ. intros a Ha. rewrite walk_at_find. unfold leaf_at.
    assert (E : Z.shiftr a 12 = 1).
    { rewrite Z.shiftr_div_pow2 by lia. symmetry. apply (Z.div_unique _ _ _ (a - 4096)); lia. }
    rewrite (find_leaf_vpn _ a 0x1000) by (try lia; unfold vpn_of; by rewrite E).
    by vm_compute.
  - exists (tick 4 escalation_start).2. split; [apply stops; by vm_compute|]. by vm_compute.
Qed.

(** ** Instances of the general theorems *)

Lemma memory_module_refines_flat_witness :
  let l := [OpWrite 0x1FFE 0x1122334455667788 8; OpWrite 5 7 1; OpRead 0x1FFE 8] in
  Forall mm_op_ok l /\ (mm_run l mm_reset).2 = (flat_run l (fun _ => 0)).2.
Proof.
  assert (Hl : Forall mm_op_ok [OpWrite 0x1FFE 0x1122334455667788 8; OpWrite 5 7 1; OpRead 0x1FFE 8]) by (repeat constructor; done).
  split; [exact Hl|]. exact (proj1 (memory_module_refines_flat _ Hl)).
Defined.

(** A user machine about to execute HALT. *)
Definition user_halt : cpu unit := demo_machine bit_syscall_guest 0x20001 0x1048 0 0x10001 escalation_mem.
Lemma user_enters_through_vector_witness :
  privileged user_halt = false /\ user_outcome user_halt (dispatch user_halt).1 (dispatch user_halt).2 /\
  dispatch user_halt = (XStop (TrapHalt cause_privileged_op), user_halt).
Proof.
  assert (Hp : privileged user_halt = false) by reflexivity.
  destruct (user_enters_through_vector user_halt eq_refl Hp) as [O T].
  split; [exact Hp|]. split; [exact O|]. exact (T IHalt eq_refl eq_refl).
Defined.

(** The load of the program above, at its page fault. *)
Definition before_load : cpu unit := (tick 3 escalation_start).2 <| c_ri := 0x1E0E81 |> <| c_instr_pc := 0x20003 |>.
Lemma fault_restartable_witness : exists s', exec (ICp RegAddr) before_load = (XStop Redirect, s') /\
  rs s' = u64 (rs before_load - 32) /\ zget (c_regs s') 1 = zget (c_regs before_load) 1.
Proof.
  assert (E : exec (ICp RegAddr) before_load = (XStop Redirect, (exec (ICp RegAddr) before_load).2))
    by (apply stops; vm_compute; reflexivity).
  exists (exec (ICp RegAddr) before_load).2. split; [exact E|].
  destruct (fault_restartable (ICp RegAddr) before_load _ eq_refl eq_refl E) as (s0 & _ & _ & R & O).
  split; [exact R|]. apply O; done.
Defined.

Lemma mem_bytes_words l : mem_bytes (words l).
Proof.
  intros x. induction l as [|[a v] l IH]; cbn [words foldr]; [done|]. unfold store. destruct (in_range _ _ _); [|exact IH].
  apply Z.mod_pos_bound. lia.
Qed.
Lemma translate_refines_walk_witness :
  coherent escalation_start /\ walk_result escalation_start 0x20004 Load (translate 0x20004 Load escalation_start).
Proof.
  assert (Hc : coherent escalation_start).
  { split; [by intros va|]. intros kind w va p E. exfalso. symmetry in E. revert E. apply page_key_pos, vpn_nonneg. }
  split; [exact Hc|].
  assert (Hr : 0 <= zget (c_cr escalation_start) 0 < 2 ^ 64) by (change (zget (c_cr escalation_start) 0) with 0x10001; lia).
  exact (proj1 (translate_refines_walk escalation_start 0x20004 Load (mem_bytes_words _) Hr eq_refl) Hc).
Defined.

(** A supervisor with paging off and a handler for vector 7. *)
Definition kernel_demo : cpu unit := demo_machine bit_privilege 0x20000 0x8000 42 0 (words [(0x1038, 0x30000)]).
Lemma trap_iret_roundtrip_witness : exists s1, deliver_vectored 7 0 5 0x20003 kernel_demo = (XRet tt, s1) /\
  entered 7 kernel_demo s1 /\ rs s1 = 0x8000 - 32.
Proof.
  assert (Hv : read_vector_entry kernel_demo 7 <> 0) by (vm_compute; discriminate).
  destruct (trap_iret_roundtrip 7 0 5 0x20003 kernel_demo) as (s1 & E & Ent & R & _);
    [discriminate|reflexivity|split; [discriminate|reflexivity]|exact Hv|lia..|split; [discriminate|reflexivity]|].
  exists s1. split; [exact E|]. split; [exact Ent|exact R].
Defined.
Lemma context_roundtrip_witness : exists s1, exec_pushall kernel_demo = (XRet tt, s1) /\ rs s1 = 0x8000 - 104.
Proof.
  destruct (context_roundtrip kernel_demo) as (s1 & E & R & _); [done|done|repeat constructor; done|done|].
  exists s1. split; [exact E|exact R].
Defined.

(** A one-shot timer that runs out inside a block of ten instructions. *)
Definition timer_demo : cpu unit := kernel_demo <| c_timer := Some (mk_timer 4 1 0 0 33) |>.
Lemma timer_block_is_ticks_witness :
  advance_active_timer 10 timer_demo = Nat.iter 10 (advance_active_timer 1) timer_demo /\
  c_irq_pending (advance_active_timer 10 timer_demo) = true.
Proof.
  split; [|reflexivity]. apply (timer_block_is_ticks 10 timer_demo). intros t [= <-]. split; done.
Defined.
