(* ===== verification/HostFs.v ===== *)
(** * The host file-system core

    src/hostfs/hostfs_core.c: the mount table, path normalisation and
    longest-prefix mount selection, the write gate, the guest descriptor
    table, the synthetic and the merged root directory, and the byte images
    of [struct stat] and [linux_dirent64].  The backend, which touches the
    host's files, is the interface [Backend]; a [hostfs_mount *] is its index
    in the table, a handle an address (0 is NULL), a C string the bytes before
    its NUL, and a buffer the bytes written to it so far. *)
From Stdlib Require Import ZArith Lia Bool String.
From stdpp Require Import base list numbers.
From S2P Require Import Prelude Monad State Support MzObj.

Definition HOSTFS_MAX_FDS : Z := 256.
Definition HOSTFS_FD_BASE : Z := 3.
Definition HOSTFS_MAX_MOUNTS : Z := 64.
Definition HOSTFS_MERGE_NAME_MAX : Z := 64.
Definition HOSTFS_PATH_MAX : Z := 4096.
Definition HOSTFS_O_ACCMODE : Z := 0x3.
Definition HOSTFS_O_WRONLY : Z := 0x1.
Definition HOSTFS_O_RDWR : Z := 0x2.
Definition HOSTFS_O_CREAT : Z := 0x40.
Definition HOSTFS_O_TRUNC : Z := 0x200.
Definition HOSTFS_SEEK_SET : Z := 0.
Definition HOSTFS_SEEK_CUR : Z := 1.
Definition HOSTFS_SEEK_END : Z := 2.
Definition HOSTFS_S_IFDIR : Z := 0x4000.
Definition HOSTFS_DT_DIR : Z := 4.
Definition HOSTFS_ROOT_INO : Z := 1.
Definition HOSTFS_ENOENT : Z := 2.
Definition HOSTFS_EBADF : Z := 9.
Definition HOSTFS_ENOMEM : Z := 12.
Definition HOSTFS_EXDEV : Z := 18.
Definition HOSTFS_EISDIR : Z := 21.
Definition HOSTFS_EINVAL : Z := 22.
Definition HOSTFS_EROFS : Z := 30.
Definition HOSTFS_ENAMETOOLONG : Z := 36.
Definition HOSTFS_ENOSYS : Z := 38.

(** ** Data *)

Inductive hostfs_mode : Type := HOSTFS_RO | HOSTFS_RW.
#[export] Instance hostfs_mode_eq_dec : EqDecision hostfs_mode.
Proof. solve_decision. Defined.

Record hostfs_mount : Type := mk_mount { guest_prefix : list Z; host_root : list Z; mt_mode : hostfs_mode; anchor : Z }.
(** [mounts], [count] and [cwd] of [hostfs_table]; an empty [cwd] is NULL or
    "".  The [ops] are the instance of [Backend]. *)
Record hostfs_table : Type := mk_table { mounts : list hostfs_mount; tb_cwd : list Z }.

Record hostfs_stat : Type := mk_stat {
  st_dev : Z; st_ino : Z; st_nlink : Z; st_mode : Z; st_uid : Z; st_gid : Z; st_rdev : Z; st_size : Z; st_blksize : Z;
  st_blocks : Z; st_atime_sec : Z; st_atime_nsec : Z; st_mtime_sec : Z; st_mtime_nsec : Z; st_ctime_sec : Z; st_ctime_nsec : Z }.

(** [hostfs_backend_ops]: each operation changes the host and returns its
    result; the last four may be absent. *)
Class Backend (B : Type) : Type := {
  ops_confine : hostfs_mount -> list Z -> Z -> B -> Z * Z * B;
  ops_close : Z -> B -> Z * B;
  ops_read : Z -> Z -> B -> Z * list Z * B;
  ops_write : Z -> list Z -> B -> Z * B;
  ops_lseek : Z -> Z -> Z -> B -> Z * B;
  ops_fstat : Z -> B -> Z * hostfs_stat * B;
  ops_getdents : Z -> Z -> B -> Z * list Z * B;
  ops_mkdir : option (hostfs_mount -> list Z -> Z -> B -> Z * B);
  ops_unlink : option (hostfs_mount -> list Z -> B -> Z * B);
  ops_rename : option (hostfs_mount -> list Z -> list Z -> B -> Z * B);
  ops_ftruncate : option (Z -> Z -> B -> Z * B)
}.

Record hostfs_fd_slot : Type := mk_slot {
  in_use : bool; is_root : bool; merge_root : bool; root_cursor : Z;
  merge_names : list (list Z);     (* the first merge_count names *)
  fd_mount : option nat; fd_handle : Z }.
Definition slot_zero : hostfs_fd_slot := mk_slot false false false 0 [] None 0.
Record hostfs (B : Type) : Type := mk_hostfs { g_fds : list hostfs_fd_slot; h_bk : B }.
Arguments mk_hostfs {B}. Arguments g_fds {B}. Arguments h_bk {B}.

(** ** Paths *)

Definition hostfs_flags_write_intent (flags : Z) : bool :=
  let acc := Z.land flags HOSTFS_O_ACCMODE in
  if (acc =? HOSTFS_O_WRONLY) || (acc =? HOSTFS_O_RDWR) then true
  else has flags (Z.lor HOSTFS_O_CREAT HOSTFS_O_TRUNC).

(** [strncmp(path, pfx, plen) == 0 && (is_root_pfx || path[plen] is NUL or '/')] *)
Definition prefix_matches (path pfx : list Z) : bool :=
  let plen := length pfx in
  let is_root_pfx := bool_decide (pfx = [slash]) in
  bool_decide (take plen path = pfx) &&
  (is_root_pfx || match drop plen path with [] => true | c :: _ => c =? slash end).

(** The loop over the mounts from index [i] on, with the best so far. *)
Fixpoint match_loop (l : list hostfs_mount) (i : nat) (path : list Z) (best : option nat) (bestlen : nat) : option nat * nat :=
  match l with
  | [] => (best, bestlen)
  | m :: l' =>
      let plen := length (guest_prefix m) in
      if prefix_matches path (guest_prefix m) && (bestlen <? plen)%nat then match_loop l' (S i) path (Some i) plen
      else match_loop l' (S i) path best bestlen
  end.
Definition match_mount (t : hostfs_table) (path : list Z) (relcap : Z) : option (nat * list Z) :=
  match match_loop (mounts t) 0 path None 0 with
  | (None, _) => None
  | (Some best, bestlen) =>
      let rem := skip_seps (drop bestlen path) in
      match rem with
      | [] => if relcap <? 2 then None else Some (best, [dot])
      | _ => if relcap <? Z.of_nat (length rem) + 1 then None else Some (best, rem)
      end
  end.

(** [while (k > 1 && out[k - 1] != '/') --k;] *)
Fixpoint last_slash (k : nat) (out : list Z) : nat :=
  match k with
  | O => O
  | S k' => if (1 <? k)%nat && negb (zget out (Z.of_nat k') =? slash) then last_slash k' out else k
  end.
Definition pop_segment (out : list Z) : list Z :=
  let oi := length out in
  if (1 <? oi)%nat then
    let k := last_slash oi out in
    take (if (1 <? k)%nat then k - 1 else 1) out
  else out.
Definition push_segment (out seg : list Z) (outcap : Z) : option (list Z) :=
  let oi := Z.of_nat (length out) in
  if (1 <? oi) && (outcap <=? oi + 1) then None else
  let out1 := if 1 <? oi then out ++ [slash] else out in
  if outcap <=? Z.of_nat (length out1) + Z.of_nat (length seg) then None else Some (out1 ++ seg).

(** The component loop over what is left of [joined]. *)
Fixpoint normalize_comps (fuel : nat) (joined out : list Z) (outcap : Z) : option (list Z) :=
  match fuel with
  | O => None
  | S f =>
      match joined with
      | [] => Some out
      | c :: rest =>
          if c =? slash then normalize_comps f rest out outcap else
          let '(seg, after) := take_comp joined in
          if bool_decide (seg = [dot]) then normalize_comps f after out outcap
          else if bool_decide (seg = [dot; dot]) then normalize_comps f after (pop_segment out) outcap
          else match push_segment out seg outcap with
               | None => None
               | Some out' => normalize_comps f after out' outcap
               end
      end
  end.

(** [joined[HOSTFS_PATH_MAX * 2]]: appending a string, one byte left for the
    NUL. *)
Definition join_append (joined l : list Z) : option (list Z) :=
  if Z.of_nat (length joined) + Z.of_nat (length l) + 1 <=? HOSTFS_PATH_MAX * 2 then Some (joined ++ l) else None.
Definition join_cwd (t : hostfs_table) (path : list Z) : option (list Z) :=
  start ← (if match path with c :: _ => c =? slash | [] => false end then Some []
           else joined ← join_append [] (match tb_cwd t with [] => [slash] | cwd => cwd end); join_append joined [slash]);
  join_append start path.
Definition normalize_path (t : hostfs_table) (path : list Z) (outcap : Z) : option (list Z) :=
  joined ← join_cwd t path;
  if outcap <? 2 then None else normalize_comps (S (length joined)) joined [slash] outcap.

(** ** Byte images *)

Definition hostfs_encode_stat (s : hostfs_stat) : list Z :=
  le_bytes 8 (st_dev s) ++ le_bytes 8 (st_ino s) ++ le_bytes 8 (st_nlink s) ++
  le_bytes 4 (st_mode s) ++ le_bytes 4 (st_uid s) ++ le_bytes 4 (st_gid s) ++ le_bytes 4 0 ++
  le_bytes 8 (st_rdev s) ++ le_bytes 8 (st_size s) ++ le_bytes 8 (st_blksize s) ++ le_bytes 8 (st_blocks s) ++
  le_bytes 8 (st_atime_sec s) ++ le_bytes 8 (st_atime_nsec s) ++ le_bytes 8 (st_mtime_sec s) ++ le_bytes 8 (st_mtime_nsec s) ++
  le_bytes 8 (st_ctime_sec s) ++ le_bytes 8 (st_ctime_nsec s) ++ replicate 24 0.

Definition hostfs_dirent_reclen (name_len : Z) : Z := clr (u64 (u64 (19 + name_len + 1) + 7)) 7.
(** The buffer with one more record, or [None] when it does not fit. *)
Definition hostfs_emit_dirent (buf : list Z) (bufcap ino cookie d_type : Z) (name : list Z) : option (list Z) :=
  let nlen := Z.of_nat (length name) in
  let reclen := hostfs_dirent_reclen nlen in
  if bufcap <? u64 (Z.of_nat (length buf) + reclen) then None else
  Some (buf ++ le_bytes 8 ino ++ le_bytes 8 cookie ++ le_bytes 2 reclen ++ [u8 d_type] ++ name ++
        replicate (Z.to_nat (reclen - 19 - nlen)) 0).

(** ** Directory listings of the core *)

Definition top_component (prefix : list Z) (cap : Z) : list Z :=
  take (Z.to_nat (cap - 1)) (fst (take_comp (skip_seps prefix))).
Fixpoint root_names_loop (l : list hostfs_mount) (store : list (list Z)) : list (list Z) :=
  match l with
  | [] => store
  | m :: l' =>
      if Z.of_nat (length store) <? HOSTFS_MAX_MOUNTS then
        let comp := top_component (guest_prefix m) 256 in
        root_names_loop l' (if existsb (fun n => bool_decide (n = comp)) store then store else store ++ [comp])
      else store
  end.
Definition build_root_names (t : hostfs_table) : list (list Z) := root_names_loop (mounts t) [].

(** [for (; k < n; ++k) if (!emit(names[k])) break;]: the buffer and the
    cursor. *)
Fixpoint emit_names (names : list (list Z)) (k : Z) (buf : list Z) (count : Z) : list Z * Z :=
  match names with
  | [] => (buf, k)
  | name :: names' =>
      match hostfs_emit_dirent buf count (HOSTFS_ROOT_INO + k + 1) (k + 1) HOSTFS_DT_DIR name with
      | None => (buf, k)
      | Some buf' => emit_names names' (k + 1) buf' count
      end
  end.

(** ** The descriptor table and the guest's calls *)

Definition HM (B A : Type) : Type := hostfs B -> A * hostfs B.
#[export] Instance HM_ret B : MRet (HM B) := fun A a s => (a, s).
#[export] Instance HM_bind B : MBind (HM B) := fun A C f m s => let '(a, s') := m s in f a s'.

Section Core.
Context {B : Type} `{Backend B}.
Abbreviation G := (HM B).

Definition backend {A} (f : B -> A * B) : G A := fun s =>
  let '(a, b) := f (h_bk s) in (a, mk_hostfs (g_fds s) b).
Definition set_slot (idx : Z) (f : hostfs_fd_slot -> hostfs_fd_slot) : G unit := fun s =>
  (tt, mk_hostfs (alter f (Z.to_nat idx) (g_fds s)) (h_bk s)).

Definition hostfs_reset_fds : G unit := fun s => (tt, mk_hostfs (replicate (Z.to_nat HOSTFS_MAX_FDS) slot_zero) (h_bk s)).

Fixpoint first_free (l : list hostfs_fd_slot) (i : Z) : option Z :=
  match l with
  | [] => None
  | s :: l' => if in_use s then first_free l' (i + 1) else Some i
  end.
(** Lowest free guest descriptor, cleared and taken, or -1. *)
Definition alloc_fd : G Z := fun s =>
  match first_free (g_fds s) 0 with
  | Some i => (i + HOSTFS_FD_BASE, (set_slot i (fun _ => mk_slot true false false 0 [] None 0) s).2)
  | None => (-1, s)
  end.
Definition slot_for_fd (fd : Z) : G (option (Z * hostfs_fd_slot)) := fun s =>
  let idx := fd - HOSTFS_FD_BASE in
  if (idx <? 0) || (HOSTFS_MAX_FDS <=? idx) then (None, s) else
  match zlookup (g_fds s) idx with
  | Some sl => (if in_use sl then Some (idx, sl) else None, s)
  | None => (None, s)
  end.

Context (t : hostfs_table).

(** ops->confine on a mount of the table: the result code and the handle. *)
Definition confine (m : nat) (rel : list Z) (flags : Z) : G (Z * Z) :=
  match mounts t !! m with
  | Some mt => backend (ops_confine mt rel flags)
  | None => mret (-HOSTFS_ENOENT, 0)
  end.
Definition close_handle (h : Z) : G Z := backend (ops_close h).

Fixpoint merge_loop (l : list hostfs_mount) (i root : nat) (names : list (list Z)) : G (list (list Z)) :=
  match l with
  | [] => mret names
  | m :: l' =>
      if negb (Z.of_nat (length names) <? HOSTFS_MAX_MOUNTS) then mret names else
      if Nat.eqb i root then merge_loop l' (S i) root names else
      let comp := top_component (guest_prefix m) HOSTFS_MERGE_NAME_MAX in
      if existsb (fun n => bool_decide (n = comp)) names then merge_loop l' (S i) root names else
      '(rc, probe) ← confine root comp 0;
      if 0 <=? rc then close_handle probe ;; merge_loop l' (S i) root names
      else merge_loop l' (S i) root (names ++ [comp])
  end.
Definition cache_merge_extra_names (root : nat) (idx : Z) : G unit :=
  names ← merge_loop (mounts t) 0 root [];
  set_slot idx (fun s => mk_slot (in_use s) (is_root s) (merge_root s) (root_cursor s) names (fd_mount s) (fd_handle s)).

Definition mount_mode (m : nat) : hostfs_mode := match mounts t !! m with Some mt => mt_mode mt | None => HOSTFS_RO end.
Definition is_ro (m : nat) : bool := bool_decide (mount_mode m = HOSTFS_RO).
Definition is_root_mount (m : nat) : bool :=
  match mounts t !! m with Some mt => bool_decide (guest_prefix mt = [slash]) | None => false end.

Definition hostfs_open (path : list Z) (flags mode : Z) : G Z :=
  match normalize_path t path HOSTFS_PATH_MAX with
  | None => mret (-HOSTFS_ENAMETOOLONG)
  | Some norm =>
      match match_mount t norm HOSTFS_PATH_MAX with
      | Some (m, rel) =>
          if is_ro m && hostfs_flags_write_intent flags then mret (-HOSTFS_EROFS) else
          '(rc, handle) ← confine m rel flags;
          if rc <? 0 then mret rc else
          fd ← alloc_fd;
          if fd <? 0 then close_handle handle ;; mret (-HOSTFS_ENOMEM) else
          let idx := fd - HOSTFS_FD_BASE in
          set_slot idx (fun s => mk_slot (in_use s) (is_root s) (merge_root s) (root_cursor s) (merge_names s) (Some m) handle) ;;
          (if is_root_mount m && bool_decide (rel = [dot]) then
             set_slot idx (fun s => mk_slot (in_use s) (is_root s) true (root_cursor s) (merge_names s) (fd_mount s) (fd_handle s)) ;;
             cache_merge_extra_names m idx
           else mret tt) ;;
          mret fd
      | None =>
          if bool_decide (norm = [slash]) then
            if hostfs_flags_write_intent flags then mret (-HOSTFS_EROFS) else
            fd ← alloc_fd;
            if fd <? 0 then mret (-HOSTFS_ENOMEM) else
            set_slot (fd - HOSTFS_FD_BASE) (fun s => mk_slot (in_use s) true (merge_root s) 0 (merge_names s) (fd_mount s) (fd_handle s)) ;;
            mret fd
          else mret (-HOSTFS_ENOENT)
      end
  end.

(** The calls on a descriptor: -EBADF, or [f] on its slot. *)
Definition with_fd {A} (bad : A) (fd : Z) (f : Z -> hostfs_fd_slot -> G A) : G A :=
  s ← slot_for_fd fd;
  match s with None => mret bad | Some (idx, sl) => f idx sl end.

Definition hostfs_close (fd : Z) : G Z := with_fd (-HOSTFS_EBADF) fd (fun idx s =>
  rc ← (if negb (is_root s) && negb (fd_handle s =? 0) then close_handle (fd_handle s) else mret 0);
  set_slot idx (fun s => mk_slot false false (merge_root s) (root_cursor s) (merge_names s) None 0) ;;
  mret rc).

Definition hostfs_read (fd count : Z) : G (Z * list Z) := with_fd (-HOSTFS_EBADF, []) fd (fun _ s =>
  if is_root s then mret (-HOSTFS_EISDIR, []) else backend (ops_read (fd_handle s) count)).

(** A root descriptor, or one of a read-only mount. *)
Definition gated (s : hostfs_fd_slot) : bool :=
  is_root s || match fd_mount s with Some m => is_ro m | None => false end.
Definition hostfs_write (fd : Z) (data : list Z) : G Z := with_fd (-HOSTFS_EBADF) fd (fun _ s =>
  if gated s then mret (-HOSTFS_EROFS) else backend (ops_write (fd_handle s) data)).
Definition hostfs_ftruncate (fd length : Z) : G Z := with_fd (-HOSTFS_EBADF) fd (fun _ s =>
  if gated s then mret (-HOSTFS_EROFS) else
  if length <? 0 then mret (-HOSTFS_EINVAL) else
  match ops_ftruncate with
  | None => mret (-HOSTFS_ENOSYS)
  | Some op => backend (op (fd_handle s) length)
  end).

Definition set_cursor (idx c : Z) : G unit :=
  set_slot idx (fun s => mk_slot (in_use s) (is_root s) (merge_root s) c (merge_names s) (fd_mount s) (fd_handle s)).
Definition hostfs_lseek (fd offset whence : Z) : G Z := with_fd (-HOSTFS_EBADF) fd (fun idx s =>
  if negb ((whence =? HOSTFS_SEEK_SET) || (whence =? HOSTFS_SEEK_CUR) || (whence =? HOSTFS_SEEK_END))
  then mret (-HOSTFS_EINVAL) else
  let rewind := (whence =? HOSTFS_SEEK_SET) && (offset =? 0) in
  if is_root s then
    if rewind then set_cursor idx 0 ;; mret 0 else mret (-HOSTFS_EINVAL)
  else if merge_root s then
    if rewind then
      set_cursor idx 0 ;;
      '(rc, fresh) ← match fd_mount s with Some m => confine m [dot] 0 | None => mret (-HOSTFS_ENOENT, 0) end;
      if rc <? 0 then mret rc else
      close_handle (fd_handle s) ;;
      set_slot idx (fun s => mk_slot (in_use s) (is_root s) (merge_root s) (root_cursor s) (merge_names s) (fd_mount s) fresh) ;;
      mret 0
    else mret (-HOSTFS_EINVAL)
  else backend (ops_lseek (fd_handle s) offset whence)).

Definition encode_root_stat : list Z :=
  hostfs_encode_stat (mk_stat 0 HOSTFS_ROOT_INO 2 (Z.lor HOSTFS_S_IFDIR 0x16D) 0 0 0 0 4096 0 0 0 0 0 0 0).
Definition hostfs_fstat (fd : Z) : G (Z * list Z) := with_fd (-HOSTFS_EBADF, []) fd (fun _ s =>
  if is_root s then mret (0, encode_root_stat) else
  '(rc, st) ← backend (ops_fstat (fd_handle s));
  if rc <? 0 then mret (rc, []) else mret (0, hostfs_encode_stat st)).

(** A call's worth of records of [names] from the cursor on. *)
Definition list_names (idx cursor count : Z) (names : list (list Z)) : G (Z * list Z) :=
  let '(buf, k) := emit_names (drop (Z.to_nat cursor) names) cursor [] count in
  if bool_decide (buf = []) then mret (-HOSTFS_EINVAL, []) else
  set_cursor idx k ;; mret (Z.of_nat (length buf), buf).
Definition getdents_root (idx : Z) (s : hostfs_fd_slot) (count : Z) : G (Z * list Z) :=
  let names := build_root_names t in
  if Z.of_nat (length names) <=? root_cursor s then mret (0, [])
  else list_names idx (root_cursor s) count names.
Definition getdents_merge_root (idx : Z) (s : hostfs_fd_slot) (count : Z) : G (Z * list Z) :=
  if root_cursor s <? Z.of_nat (length (merge_names s)) then list_names idx (root_cursor s) count (merge_names s)
  else backend (ops_getdents (fd_handle s) count).
Definition hostfs_getdents (fd count : Z) : G (Z * list Z) := with_fd (-HOSTFS_EBADF, []) fd (fun idx s =>
  if is_root s then getdents_root idx s count
  else if merge_root s then getdents_merge_root idx s count
  else backend (ops_getdents (fd_handle s) count)).

(** ** Calls that change the name space *)

Definition resolve_writable (path : list Z) : Z + (nat * list Z) :=
  match normalize_path t path HOSTFS_PATH_MAX with
  | None => inl (-HOSTFS_ENAMETOOLONG)
  | Some norm =>
      match match_mount t norm HOSTFS_PATH_MAX with
      | None => inl (if bool_decide (norm = [slash]) then -HOSTFS_EROFS else -HOSTFS_ENOENT)
      | Some (m, rel) => if is_ro m then inl (-HOSTFS_EROFS) else inr (m, rel)
      end
  end.
(** The backend's operation on a mount, when it has one. *)
Definition on_mount (op : option (hostfs_mount -> B -> Z * B)) (m : nat) : G Z :=
  match op, mounts t !! m with
  | Some f, Some mt => backend (f mt)
  | _, _ => mret (-HOSTFS_ENOSYS)
  end.
Definition hostfs_mkdir (path : list Z) (mode : Z) : G Z :=
  match resolve_writable path with
  | inl e => mret e
  | inr (m, rel) => on_mount ((fun f mt => f mt rel mode) <$> ops_mkdir) m
  end.
Definition hostfs_unlink (path : list Z) : G Z :=
  match resolve_writable path with
  | inl e => mret e
  | inr (m, rel) => on_mount ((fun f mt => f mt rel) <$> ops_unlink) m
  end.
Definition hostfs_rename (oldp newp : list Z) : G Z :=
  match resolve_writable oldp with
  | inl e => mret e
  | inr (mo, relold) =>
      match resolve_writable newp with
      | inl e => mret e
      | inr (mn, relnew) =>
          if negb (Nat.eqb mo mn) then mret (-HOSTFS_EXDEV)
          else on_mount ((fun f mt => f mt relold relnew) <$> ops_rename) mo
      end
  end.

End Core.
