(* ===== verification/HostFsProps.v ===== *)
(** * The host file-system core keeps guests inside their mounts

    Normalisation is the component-wise resolution the kernel's own paths are
    proved against; mount selection is by longest component prefix; whatever
    a guest asks for, the backend is only called with names below a mount and
    never to change a read-only one; directory records read back. *)
From Stdlib Require Import ZArith Lia Bool String.
From stdpp Require Import base list numbers.
From S2P Require Import Prelude Monad State Support Paths MzObj HostFs.

(** ** Normalisation *)

Lemma print_cons c st : print_path (c :: st) = render st ++ slash :: c.
Proof. unfold print_path. change (render (c :: st)) with (render st ++ slash :: c). by destruct (render st). Qed.
Lemma print_nonempty st : st <> [] -> print_path st = render st.
Proof. destruct st as [|c st]; [done|]. intros _. by rewrite print_cons. Qed.
Lemma render_nonempty c st : Forall plain (c :: st) -> (1 < length (render (c :: st)))%nat.
Proof.
  intros H. apply Forall_cons_1 in H as [(Hc & _) _]. rewrite render_cons_length. destruct c; [done|]. simpl. lia.
Qed.

Lemma last_slash_at a c n : slash ∉ c -> (n <= length c)%nat -> last_slash (length a + S n) (a ++ slash :: c) = S (length a).
Proof.
  intros Hc. induction n as [|n IH]; intros Hn.
  - replace (length a + 1)%nat with (S (length a)) by lia. cbn [last_slash].
    assert (Ez : zget (a ++ slash :: c) (Z.of_nat (length a)) = slash).
    { unfold zget, zlookup. destruct (Z.ltb_spec (Z.of_nat (length a)) 0); [lia|]. by rewrite Nat2Z.id, list_lookup_middle. }
    rewrite Ez, Z.eqb_refl. by rewrite andb_false_r.
  - replace (length a + S (S n))%nat with (S (length a + S n)) by lia. cbn [last_slash].
    assert (Ez : zget (a ++ slash :: c) (Z.of_nat (length a + S n)) <> slash).
    { unfold zget, zlookup. destruct (Z.ltb_spec (Z.of_nat (length a + S n)) 0); [lia|]. rewrite Nat2Z.id.
      rewrite lookup_app_r by lia. replace (length a + S n - length a)%nat with (S n) by lia. cbn.
      destruct (c !! n) as [y|] eqn:Ey; [|apply lookup_ge_None in Ey; lia]. intros E. simpl in E. subst y. apply Hc.
      by apply list_elem_of_lookup_2 in Ey. }
    destruct (Z.eqb_spec (zget (a ++ slash :: c) (Z.of_nat (length a + S n))) slash); [done|].
    replace (1 <? S (length a + S n))%nat with true by (symmetry; apply Nat.ltb_lt; lia). cbn [andb negb]. apply IH. lia.
Qed.
Lemma pop_segment_spec st : Forall plain st -> pop_segment (print_path st) = print_path (tail st).
Proof.
  intros H. destruct st as [|c st]; [done|]. pose proof (render_nonempty c st H) as Hl. apply Forall_cons_1 in H as [Hc Hst].
  rewrite print_cons. unfold pop_segment. rewrite length_app. cbn [length]. rewrite render_cons_length in Hl.
  replace (1 <? length (render st) + S (length c))%nat with true by (symmetry; apply Nat.ltb_lt; lia).
  rewrite (last_slash_at (render st) c (length c) (proj2 (proj2 (proj2 Hc)))) by lia. cbn [list.tail].
  destruct st as [|d st]; [done|]. rewrite (print_nonempty (d :: st)) by done.
  pose proof (render_nonempty d st Hst). replace (1 <? S (length (render (d :: st))))%nat with true by (symmetry; apply Nat.ltb_lt; lia).
  replace (S (length (render (d :: st))) - 1)%nat with (length (render (d :: st))) by lia. by rewrite take_app_length.
Qed.
Lemma push_segment_spec st seg cap out : Forall plain st -> push_segment (print_path st) seg cap = Some out -> out = print_path (seg :: st).
Proof.
  intros H. unfold push_segment. destruct (_ && _); [done|]. destruct (_ <=? _); [done|]. intros [= <-]. rewrite print_cons.
  destruct st as [|c st]; [done|]. rewrite (print_nonempty (c :: st)) by done. pose proof (render_nonempty c st H).
  destruct (Z.ltb_spec 1 (Z.of_nat (length (render (c :: st))))); [|lia]. by rewrite <- app_assoc.
Qed.
Lemma push_segment_fits st seg cap : Forall plain st -> seg <> [] -> Z.of_nat (weight st + S (length seg)) < cap ->
  is_Some (push_segment (print_path st) seg cap).
Proof.
  intros H Hs Hc. unfold push_segment. destruct st as [|c st].
  - change (print_path []) with [slash]. change (1 <? Z.of_nat (length [slash])) with false. cbn [andb]. unfold weight in Hc. cbn in Hc.
    match goal with |- context [?a <=? ?b] => destruct (Z.leb_spec a b); [cbn in *; lia|by eexists] end.
  - assert (L : length (print_path (c :: st)) = weight (c :: st)) by (by rewrite print_nonempty, render_weight).
    assert (1 <= length seg)%nat by (destruct seg; [done|simpl; lia]). rewrite L.
    destruct (Z.leb_spec cap (Z.of_nat (weight (c :: st)) + 1)); [lia|]. rewrite andb_false_r.
    destruct (1 <? _); rewrite ?length_app, L; cbn [length];
      match goal with |- context [?a <=? ?b] => destruct (Z.leb_spec a b); [lia|by eexists] end.
Qed.

(** The loop resolves the components it has yet to read onto [st]. *)
Lemma normalize_comps_spec fuel joined st cap : (length joined < fuel)%nat -> Forall plain st ->
  match normalize_comps fuel joined (print_path st) cap with
  | Some out => out = print_path (foldl resolve_step st (comps joined))
  | None => cap <= Z.of_nat (weight st + weight (comps joined))
  end.
Proof.
  revert joined st. induction fuel as [|fuel IH]; intros joined st Hf Hst; [lia|].
  destruct joined as [|c rest]; [done|]. cbn [normalize_comps]. cbn [length] in Hf.
  destruct (Z.eqb_spec c slash) as [->|Hc]; [rewrite comps_slash; apply IH; [lia|done]|].
  destruct (take_comp (c :: rest)) as [seg after] eqn:Et.
  pose proof (take_comp_spec _ _ _ Et) as (Ej & Hns & _).
  assert (Hseg : seg <> []). { intros ->. cbn in Et. destruct (Z.eqb_spec c slash); [done|]. by destruct (take_comp rest). }
  assert (Hk : comps (c :: rest) = seg :: comps after).
  { rewrite (comps_take _ seg after); [by rewrite decide_False|]. cbn [skip_seps]. by destruct (Z.eqb_spec c slash). }
  assert (Hlen : (length after < fuel)%nat).
  { apply (f_equal length) in Ej. rewrite length_app in Ej. destruct seg; [done|]. simpl in Ej. lia. }
  rewrite Hk. cbn [foldl].
  assert (Hw : forall st', (weight st' <= weight st + S (length seg))%nat ->
    cap <= Z.of_nat (weight st' + weight (comps after)) -> cap <= Z.of_nat (weight st + weight (seg :: comps after))).
  { intros st' H1 H2. change (weight (seg :: comps after)) with (S (length seg) + weight (comps after))%nat. lia. }
  unfold resolve_step at 2. destruct (bool_decide_reflect (seg = [dot])) as [E1|E1].
  { rewrite decide_True by done. specialize (IH after st Hlen Hst). destruct (normalize_comps _ _ _ _); [done|]. apply (Hw st); [lia|done]. }
  rewrite (decide_False (P := seg = [dot])) by done. destruct (bool_decide_reflect (seg = [dot; dot])) as [E2|E2].
  { rewrite decide_True, pop_segment_spec by done. specialize (IH after (tail st) Hlen).
    assert (Htl : Forall plain (tail st)) by (destruct st; [done|by apply Forall_cons_1 in Hst as [_ ?]]). specialize (IH Htl).
    destruct (normalize_comps _ _ _ _); [done|]. apply (Hw (tail st)); [|done]. destruct st as [|d st]; unfold weight; simpl; lia. }
  rewrite decide_False by done. assert (Hp : Forall plain (seg :: st)) by (constructor; [done|done]).
  destruct (push_segment (print_path st) seg cap) as [out'|] eqn:Ep.
  - apply push_segment_spec in Ep as ->; [|done]. specialize (IH after (seg :: st) Hlen Hp).
    destruct (normalize_comps _ _ _ _); [done|]. apply (Hw (seg :: st)); [unfold weight; simpl; lia|done].
  - destruct (Z.lt_ge_cases (Z.of_nat (weight st + S (length seg))) cap) as [Hlt|].
    + destruct (push_segment_fits st seg cap Hst Hseg Hlt) as [? E]. congruence.
    + change (weight (seg :: comps after)) with (S (length seg) + weight (comps after))%nat. lia.
Qed.

(** The path a name stands for: itself when absolute, below the working
    directory otherwise. *)
Definition named (t : hostfs_table) (path : list Z) : list (list Z) :=
  (if match path with c :: _ => c =? slash | [] => false end then [] else comps (tb_cwd t)) ++ comps path.

Lemma join_cwd_comps t path joined : join_cwd t path = Some joined -> comps joined = named t path.
Proof.
  unfold join_cwd, named, join_append. destruct (match path with c :: _ => c =? slash | [] => false end).
  - cbn. destruct (_ <=? _); [|done]. by intros [= <-].
  - set (cwd := match tb_cwd t with [] => [slash] | _ => _ end).
    assert (Ec : comps cwd = comps (tb_cwd t)) by (unfold cwd; by destruct (tb_cwd t)). cbn -[cwd Z.leb].
    repeat (destruct (_ <=? _); [cbn -[cwd Z.leb]|done]). intros [= <-].
    rewrite <- app_assoc. cbn [app]. by rewrite comps_app_slash, Ec.
Qed.

Lemma join_cwd_short t path : absolute (tb_cwd t) \/ tb_cwd t = [] -> Z.of_nat (length (tb_cwd t) + length path) < HOSTFS_PATH_MAX - 2 ->
  exists joined, join_cwd t path = Some joined /\ absolute joined /\ Z.of_nat (length joined) < HOSTFS_PATH_MAX.
Proof.
  intros Hcwd Hlen. unfold join_cwd, join_append, HOSTFS_PATH_MAX in *.
  destruct path as [|c path]; [|destruct (Z.eqb_spec c slash) as [->|]].
  2: { cbn -[Z.leb Z.of_nat length]. destruct (Z.leb_spec (Z.of_nat (length (@nil Z)) + Z.of_nat (length (slash :: path)) + 1) (4096 * 2)).
       - eexists. split; [done|]. split; [done|]. cbn [length] in *. lia.
       - cbn [length] in *. lia. }
  all: set (cwd := match tb_cwd t with [] => [slash] | _ => _ end).
  all: assert (Hc : absolute cwd /\ (length cwd <= S (length (tb_cwd t)))%nat) by (unfold cwd; destruct (tb_cwd t); [done|split; [by destruct Hcwd|lia]]).
  all: clearbody cwd; destruct Hc as [Ha Hl]; cbn -[Z.leb Z.of_nat length].
  all: repeat (match goal with |- context [?a <=? ?b] => destruct (Z.leb_spec a b); [cbn -[Z.leb Z.of_nat length]|rewrite ?length_app in *; cbn [length] in *; lia] end).
  all: eexists; split; [done|]; split; [unfold absolute in *; by destruct cwd|rewrite !length_app; cbn [length] in *; lia].
Qed.

(** A guest path is normalised to the component-wise resolution of the name
    against the working directory; the only failure is a path too long for
    the buffers. *)
Lemma normalize_path_spec t path :
  (forall out, normalize_path t path HOSTFS_PATH_MAX = Some out -> out = print_path (resolve (named t path)) /\ canonical out) /\
  (absolute (tb_cwd t) \/ tb_cwd t = [] -> Z.of_nat (length (tb_cwd t) + length path) < HOSTFS_PATH_MAX - 2 ->
   is_Some (normalize_path t path HOSTFS_PATH_MAX)).
Proof.
  unfold normalize_path. split.
  - intros out. destruct (join_cwd t path) as [joined|] eqn:Ej; [|done]. cbn -[normalize_comps].
    pose proof (normalize_comps_spec (S (length joined)) joined [] HOSTFS_PATH_MAX ltac:(lia) (Forall_nil_2 _)) as Hn.
    change (print_path []) with [slash] in Hn. intros E. rewrite E in Hn. subst out. rewrite <- (join_cwd_comps t path joined Ej).
    split; [done|]. eexists. split; [apply resolve_plain|done].
  - intros Hcwd Hlen. destruct (join_cwd_short t path Hcwd Hlen) as (joined & Ej & Ha & Hl). rewrite Ej. cbn -[normalize_comps].
    pose proof (normalize_comps_spec (S (length joined)) joined [] HOSTFS_PATH_MAX ltac:(lia) (Forall_nil_2 _)) as Hn.
    change (print_path []) with [slash] in Hn. destruct (normalize_comps _ _ _ _); [by eexists|].
    pose proof (comps_weight joined Ha). unfold weight at 1 in Hn. simpl in Hn. lia.
Qed.

(** ** Mount selection *)

(** What is left of a path below a mount: "." for the mount itself. *)
Definition rel_of (q : list (list Z)) : list Z := match render q with [] => [dot] | _ :: r => r end.
(** A name a backend may be given: entries below the mount, no "..". *)
Definition clean (rel : list Z) : Prop := exists q, Forall plain q /\ rel = rel_of q.
(** Every guest prefix is canonical and granted once. *)
Definition table_ok (t : hostfs_table) : Prop :=
  Forall (fun m => canonical (guest_prefix m)) (mounts t) /\ NoDup (guest_prefix <$> mounts t).

Lemma render_app q p : render (q ++ p) = render p ++ render q.
Proof.
  induction q as [|c q IH]; [by rewrite app_nil_r|]. cbn [app]. change (render (c :: q ++ p)) with (render (q ++ p) ++ slash :: c).
  rewrite IH. change (render (c :: q)) with (render q ++ slash :: c). by rewrite app_assoc.
Qed.
Lemma skip_render q : Forall plain q -> skip_seps (render q) = match render q with [] => [] | _ :: r => r end.
Proof.
  intros H. destruct q as [|c q] using rev_ind; [done|]. rewrite render_app. apply Forall_app in H as [_ H].
  apply Forall_cons_1 in H as [(Hc & _ & _ & Hs) _]. change (render [c]) with (slash :: c). cbn [app skip_seps].
  rewrite Z.eqb_refl. destruct c as [|x c]; [done|]. cbn [app skip_seps]. destruct (Z.eqb_spec x slash); [|done].
  subst x. destruct Hs. constructor.
Qed.
Lemma rel_of_skip q : Forall plain q -> rel_of q = match skip_seps (render q) with [] => [dot] | r => r end.
Proof.
  intros H. rewrite skip_render by done. unfold rel_of. destruct q as [|c q] using rev_ind; [done|]. clear IHq. rewrite render_app.
  apply Forall_app in H as [_ H]. apply Forall_cons_1 in H as [(Hc & _) _]. change (render [c]) with (slash :: c). by destruct c.
Qed.
Lemma print_root_iff p : Forall plain p -> print_path p = [slash] <-> p = [].
Proof.
  intros H. split; [|by intros ->]. destruct p as [|c p]; [done|]. intros E. pose proof (render_nonempty c p H).
  rewrite print_nonempty in E by done. rewrite E in *. simpl in *. lia.
Qed.

(** Matching a prefix is matching its components. *)
Lemma prefix_matches_spec p st : Forall plain p -> Forall plain st ->
  prefix_matches (print_path st) (print_path p) = true <-> p `suffix_of` st.
Proof.
  intros Hp Hst. unfold prefix_matches. destruct (decide (p = [])) as [->|Hne].
  { split; [intros _; apply suffix_nil|intros _]. change (print_path []) with [slash]. cbn [length]. rewrite andb_true_iff. split.
    - apply bool_decide_eq_true. pose proof (print_absolute st) as Ha. unfold absolute in Ha. destruct (print_path st); [done|].
      simpl in *. by injection Ha as ->.
    - by rewrite bool_decide_true. }
  rewrite (bool_decide_false (print_path p = [slash])) by (by rewrite print_root_iff). cbn [orb]. rewrite print_nonempty by done. split.
  - intros [Ht Hd]%andb_true_iff. apply bool_decide_eq_true in Ht.
    assert (E : print_path st = render p ++ drop (length (render p)) (print_path st)) by (rewrite <- Ht at 1; by rewrite take_drop).
    assert (Er : rev st = rev p ++ comps (drop (length (render p)) (print_path st))).
    { rewrite <- comps_print, E, <- comps_render by done. rewrite E in Hd at 1. rewrite drop_app_length in Hd. rewrite drop_app_length.
      destruct (drop _ (print_path st)) as [|x r]; [by rewrite !app_nil_r|]. apply Z.eqb_eq in Hd as ->. by rewrite comps_app_slash. }
    eexists (rev _). apply (f_equal (@rev _)) in Er. rewrite rev_involutive, rev_app_distr, rev_involutive in Er. exact Er.
  - intros [q ->]. rewrite (print_nonempty (q ++ p)) by (destruct q; [done|done]). rewrite render_app.
    rewrite take_app_length, drop_app_length, bool_decide_true by done. cbn [andb].
    destruct (render_absolute q) as [->|Ha]; [done|]. unfold absolute in Ha. destruct (render q); [done|]. injection Ha as ->. done.
Qed.
Lemma print_length_le p p' : Forall plain p' -> p `suffix_of` p' -> (length (print_path p) <= length (print_path p'))%nat.
Proof.
  intros H [q ->]. destruct p as [|c p].
  - change (length (print_path [])) with 1%nat. pose proof (print_absolute (q ++ [])) as Ha. unfold absolute in Ha.
    destruct (print_path (q ++ [])); [done|simpl; lia].
  - rewrite !print_nonempty by (by try destruct q). rewrite render_app, length_app. lia.
Qed.
Lemma suffix_total (p p' st : list (list Z)) : p `suffix_of` st -> p' `suffix_of` st -> p `suffix_of` p' \/ p' `suffix_of` p.
Proof.
  intros [q ->] [q' E]. apply app_eq_inv in E as [(k & -> & ->)|(k & -> & ->)]; [left|right]; by exists k.
Qed.

Lemma match_loop_spec l i path best bl :
  let '(b', bl') := match_loop l i path best bl in
  (bl <= bl')%nat /\
  (forall m, m ∈ l -> prefix_matches path (guest_prefix m) = true -> (length (guest_prefix m) <= bl')%nat) /\
  ((b' = best /\ bl' = bl) \/
   exists j m, l !! j = Some m /\ b' = Some (i + j)%nat /\ bl' = length (guest_prefix m) /\ prefix_matches path (guest_prefix m) = true /\ (bl < bl')%nat).
Proof.
  revert i best bl. induction l as [|m l IH]; intros i best bl; cbn [match_loop].
  { split; [done|]. split; [by intros ? ?%not_elem_of_nil|by left]. }
  destruct (prefix_matches path (guest_prefix m) && (bl <? length (guest_prefix m))%nat) eqn:E;
    [specialize (IH (S i) (Some i) (length (guest_prefix m)))|specialize (IH (S i) best bl)];
    destruct (match_loop _ _ _ _ _) as [b' bl'] eqn:Em; destruct IH as (H1 & H2 & H3).
  - apply andb_true_iff in E as [Ep El]. apply Nat.ltb_lt in El. split; [lia|]. split.
    + intros m' [->|Hm]%elem_of_cons; [done|by apply H2].
    + right. destruct H3 as [[-> ->]|(j & m' & Hj & -> & ? & ? & ?)].
      * exists 0%nat, m. by rewrite Nat.add_0_r.
      * exists (S j), m'. split; [done|]. split; [f_equal; lia|]. split; [done|]. split; [done|lia].
  - split; [done|]. split.
    + intros m' [->|Hm]%elem_of_cons Hp; [|by apply H2]. rewrite Hp in E. apply Nat.ltb_ge in E. lia.
    + destruct H3 as [?|(j & m' & Hj & -> & ? & ? & ?)]; [by left|]. right. exists (S j), m'. split; [done|]. split; [f_equal; lia|done].
Qed.

(** Below which mounts a resolved path lies. *)
Definition covers (m : hostfs_mount) (st : list (list Z)) : Prop := exists p, Forall plain p /\ guest_prefix m = print_path p /\ p `suffix_of` st.
Lemma covers_matches t m st : table_ok t -> Forall plain st -> m ∈ mounts t ->
  prefix_matches (print_path st) (guest_prefix m) = true <-> covers m st.
Proof.
  intros [Hc _] Hst Hm. rewrite list.Forall_forall in Hc. destruct (Hc m Hm) as (p & Hp & E). rewrite E. rewrite prefix_matches_spec by done.
  split; [by exists p|]. intros (p' & Hp' & E' & Hs). rewrite E in E'. apply (f_equal comps) in E'. rewrite !comps_print in E' by done.
  apply (f_equal (@rev _)) in E'. rewrite !rev_involutive in E'. by subst.
Qed.
Lemma drop_print p q : Forall plain p -> Forall plain q ->
  skip_seps (drop (length (print_path p)) (print_path (q ++ p))) = skip_seps (render q).
Proof.
  intros Hp Hq. destruct p as [|c p].
  - change (length (print_path [])) with 1%nat. rewrite app_nil_r. destruct q as [|d q]; [done|]. rewrite print_nonempty by done.
    destruct (render_absolute (d :: q)) as [->|Ha]; [done|]. unfold absolute in Ha. destruct (render (d :: q)); [done|].
    injection Ha as ->. cbn [drop skip_seps]. by rewrite Z.eqb_refl.
  - rewrite !print_nonempty by (by try destruct q). by rewrite render_app, drop_app_length.
Qed.
Lemma render_print_length q : (length (render q) <= length (print_path q))%nat.
Proof. unfold print_path. destruct (render q); simpl; lia. Qed.
Lemma skip_fits l n : (length l <= n)%nat -> (length (skip_seps l) <= n)%nat.
Proof. pose proof (skip_seps_length l). lia. Qed.

(** The deepest mount that covers a resolved path is selected. *)
Lemma match_mount_spec t st : table_ok t -> Forall plain st -> Z.of_nat (length (print_path st)) < HOSTFS_PATH_MAX ->
  match match_mount t (print_path st) HOSTFS_PATH_MAX with
  | Some (i, rel) => exists m p q, mounts t !! i = Some m /\ guest_prefix m = print_path p /\ st = q ++ p /\ rel = rel_of q /\
      forall m', m' ∈ mounts t -> covers m' st -> (length (guest_prefix m') <= length (guest_prefix m))%nat
  | None => forall m, m ∈ mounts t -> ~ covers m st
  end.
Proof.
  intros Hok Hst Hlen. unfold match_mount. pose proof (match_loop_spec (mounts t) 0 (print_path st) None 0) as H.
  destruct (match_loop _ _ _ _ _) as [b bl]. destruct H as (_ & Hmax & [[-> ->]|(j & m & Hj & -> & -> & Hp & _)]).
  - intros m Hm Hc. apply (covers_matches t m st Hok Hst Hm) in Hc. specialize (Hmax m Hm Hc).
    destruct Hok as [Hk _]. rewrite list.Forall_forall in Hk. destruct (Hk m Hm) as (p & _ & E). pose proof (print_absolute p) as Ha.
    rewrite E in Hmax. unfold absolute in Ha. destruct (print_path p); [done|simpl in Hmax; lia].
  - assert (Hm : m ∈ mounts t) by (by eapply list_elem_of_lookup_2). apply (covers_matches t m st Hok Hst Hm) in Hp.
    destruct Hp as (p & Hpp & Ep & q & ->). rewrite Ep, drop_print by (by apply Forall_app in Hst as [??]).
    assert (Hq : Forall plain q) by (by apply Forall_app in Hst as [??]). cbn [Nat.add].
    assert (Hrel : match skip_seps (render q) with [] => if HOSTFS_PATH_MAX <? 2 then None else Some (j, [dot])
                   | _ => if HOSTFS_PATH_MAX <? Z.of_nat (length (skip_seps (render q))) + 1 then None else Some (j, skip_seps (render q)) end
                   = Some (j, rel_of q)).
    { rewrite rel_of_skip by done. destruct (skip_seps (render q)) as [|x r] eqn:Es; [done|].
      destruct (Z.ltb_spec HOSTFS_PATH_MAX (Z.of_nat (length (x :: r)) + 1)); [|done]. exfalso. rewrite <- Es in *.
      pose proof (skip_fits (render q) (length (print_path (q ++ p)))). pose proof (render_print_length (q ++ p)) as Hr.
      rewrite render_app, length_app in Hr. lia. }
    destruct (skip_seps (render q)); rewrite Hrel; exists m, p, q; do 4 (split; [done|]);
      intros m' Hm' Hc; apply Hmax; try done; by apply (covers_matches t m' (q ++ p) Hok Hst Hm').
Qed.

Lemma normalize_comps_length fuel joined out cap res : Z.of_nat (length out) < cap ->
  normalize_comps fuel joined out cap = Some res -> Z.of_nat (length res) < cap.
Proof.
  revert joined out. induction fuel as [|fuel IH]; intros joined out Ho; [done|]. destruct joined as [|c rest]; [by intros [= <-]|].
  cbn [normalize_comps]. destruct (c =? slash); [by apply IH|]. destruct (take_comp (c :: rest)) as [seg after].
  destruct (bool_decide (seg = [dot])); [by apply IH|]. destruct (bool_decide (seg = [dot; dot])).
  - apply IH. unfold pop_segment. destruct (1 <? _)%nat; [|done]. rewrite length_take. lia.
  - unfold push_segment. destruct (_ && _); [done|]. destruct (Z.leb_spec cap
      (Z.of_nat (length (if 1 <? Z.of_nat (length out) then out ++ [slash] else out)) + Z.of_nat (length seg))); [done|].
    apply IH. rewrite length_app. lia.
Qed.
(** What a name resolves to: a plain path that fits the buffer. *)
Lemma normalize_path_some t path out : normalize_path t path HOSTFS_PATH_MAX = Some out ->
  exists st, Forall plain st /\ out = print_path st /\ st = resolve (named t path) /\ Z.of_nat (length (print_path st)) < HOSTFS_PATH_MAX.
Proof.
  intros E. destruct (normalize_path_spec t path) as [H _]. destruct (H out E) as [-> _]. unfold normalize_path in E.
  destruct (join_cwd t path) as [joined|] eqn:Ej; [|done]. cbn -[normalize_comps] in E.
  rewrite <- (join_cwd_comps t path joined Ej) in *. eexists. split; [apply (resolve_plain joined)|]. split; [done|]. split; [done|].
  apply (normalize_comps_length _ _ _ _ _ (eq_refl : Z.of_nat (length [slash]) < HOSTFS_PATH_MAX) E).
Qed.
Lemma select_clean t path norm i rel : table_ok t -> normalize_path t path HOSTFS_PATH_MAX = Some norm ->
  match_mount t norm HOSTFS_PATH_MAX = Some (i, rel) -> is_Some (mounts t !! i) /\ clean rel.
Proof.
  intros Hok (st & Hst & -> & _ & Hlen)%normalize_path_some Em. pose proof (match_mount_spec t st Hok Hst Hlen) as H. rewrite Em in H.
  destruct H as (m & p & q & Hi & _ & -> & -> & _). split; [by eexists|]. exists q. split; [|done]. by apply Forall_app in Hst as [??].
Qed.

(** C16: for any table of distinct canonical prefixes, a guest's path that
    fits the buffers is normalised, with ".." never rising above the root,
    to the component-wise resolution of the name against the working
    directory, and handed to the mount with the deepest prefix that covers
    it, whole components at a time, with what is left of the path below that
    mount ("." for the mount itself); a path no mount covers goes to none. *)
Theorem hostfs_resolution_correct t path : table_ok t ->
  absolute (tb_cwd t) \/ tb_cwd t = [] -> Z.of_nat (length (tb_cwd t) + length path) < HOSTFS_PATH_MAX - 2 ->
  let st := resolve (named t path) in
  normalize_path t path HOSTFS_PATH_MAX = Some (print_path st) /\ Forall plain st /\
  match match_mount t (print_path st) HOSTFS_PATH_MAX with
  | Some (i, rel) => exists m p q, mounts t !! i = Some m /\ guest_prefix m = print_path p /\ st = q ++ p /\ rel = rel_of q /\
      forall m', m' ∈ mounts t -> covers m' st -> (length (guest_prefix m') <= length (guest_prefix m))%nat
  | None => forall m, m ∈ mounts t -> ~ covers m st
  end.
Proof.
  intros Hok Hcwd Hlen st. destruct (proj2 (normalize_path_spec t path) Hcwd Hlen) as [out E].
  destruct (normalize_path_some t path out E) as (st' & Hst & Eo & Es & Hl). unfold st. rewrite <- Es. split; [congruence|].
  split; [done|]. by apply match_mount_spec.
Qed.

Definition demo_table : hostfs_table :=
  mk_table [mk_mount (cs "/") (cs "/srv") HOSTFS_RO 1; mk_mount (cs "/home/me") (cs "/u") HOSTFS_RW 2] (cs "/home/me").
Lemma demo_table_ok : table_ok demo_table.
Proof.
  split; [|by apply (bool_decide_unpack _); vm_compute]. repeat constructor.
  - exists []. split; [constructor|done].
  - exists [cs "me"; cs "home"]. split; [|done]. repeat constructor; try done; by apply (bool_decide_unpack _); vm_compute.
Qed.
Lemma hostfs_resolution_correct_witness :
  normalize_path demo_table (cs "../../../home//me/./x") HOSTFS_PATH_MAX = Some (cs "/home/me/x") /\
  match_mount demo_table (cs "/home/me/x") HOSTFS_PATH_MAX = Some (1%nat, cs "x").
Proof.
  destruct (hostfs_resolution_correct demo_table (cs "../../../home//me/./x") demo_table_ok (or_introl eq_refl) eq_refl) as (H1 & _ & _).
  split; [rewrite H1; by vm_compute|by vm_compute].
Defined.

(** ** What the backend is asked to do *)

Inductive bk_call : Type :=
  | CConfine (m : hostfs_mount) (rel : list Z) (flags rc h : Z)
  | CClose (h : Z)
  | CUse (h : Z)                                  (* read, lseek, fstat, getdents *)
  | CChange (h : Z)                               (* write, ftruncate *)
  | CPath (m : hostfs_mount) (rels : list (list Z)). (* mkdir, unlink, rename *)

Section Confined.
Context {B : Type} `{Backend B}.

(** The backend with a log of the calls it has served, newest first. *)
Definition logging {A} (c : A -> bk_call) (f : B -> A * B) (b : B * list bk_call) : A * (B * list bk_call) :=
  let '(a, b') := f b.1 in (a, (b', c a :: b.2)).
#[local] Instance logged : Backend (B * list bk_call) := {
  ops_confine m rel flags := logging (fun r => CConfine m rel flags r.1 r.2) (ops_confine m rel flags);
  ops_close h := logging (fun _ => CClose h) (ops_close h);
  ops_read h n := logging (fun _ => CUse h) (ops_read h n);
  ops_write h d := logging (fun _ => CChange h) (ops_write h d);
  ops_lseek h o w := logging (fun _ => CUse h) (ops_lseek h o w);
  ops_fstat h := logging (fun _ => CUse h) (ops_fstat h);
  ops_getdents h n := logging (fun _ => CUse h) (ops_getdents h n);
  ops_mkdir := (fun f m rel mode => logging (fun _ => CPath m [rel]) (f m rel mode)) <$> ops_mkdir;
  ops_unlink := (fun f m rel => logging (fun _ => CPath m [rel]) (f m rel)) <$> ops_unlink;
  ops_rename := (fun f m a c => logging (fun _ => CPath m [a; c]) (f m a c)) <$> ops_rename;
  ops_ftruncate := (fun f h n => logging (fun _ => CChange h) (f h n)) <$> ops_ftruncate
}.

(** The mount an open handle was confined to. *)
Fixpoint owner (log : list bk_call) (h : Z) : option hostfs_mount :=
  match log with
  | [] => None
  | CConfine m _ _ rc h' :: past => if (0 <=? rc) && (h' =? h) then Some m else owner past h
  | CClose h' :: past => if h' =? h then None else owner past h
  | _ :: past => owner past h
  end.
(** What the backend owes: a handle it gives out is not NULL and not open. *)
Fixpoint fresh_handles (log : list bk_call) : Prop :=
  match log with
  | [] => True
  | CConfine _ _ _ rc h :: past => fresh_handles past /\ (0 <= rc -> h <> 0 /\ owner past h = None)
  | _ :: past => fresh_handles past
  end.

Context (t : hostfs_table).

(** What the core owes for each call, after the calls before it. *)
Definition permitted (past : list bk_call) (c : bk_call) : Prop :=
  match c with
  | CConfine m rel flags _ _ => m ∈ mounts t /\ clean rel /\ (mt_mode m = HOSTFS_RO -> hostfs_flags_write_intent flags = false)
  | CPath m rels => m ∈ mounts t /\ mt_mode m = HOSTFS_RW /\ Forall clean rels
  | CClose h | CUse h => fresh_handles past -> is_Some (owner past h)
  | CChange h => fresh_handles past -> exists m, owner past h = Some m /\ m ∈ mounts t /\ mt_mode m = HOSTFS_RW
  end.
Fixpoint all_permitted (log : list bk_call) : Prop :=
  match log with [] => True | c :: past => permitted past c /\ all_permitted past end.

(** The requests of a guest. *)
Inductive request : Type :=
  | ROpen (path : list Z) (flags mode : Z) | RClose (fd : Z) | RRead (fd count : Z) | RWrite (fd : Z) (data : list Z)
  | RFtruncate (fd len : Z) | RLseek (fd offset whence : Z) | RFstat (fd : Z) | RGetdents (fd count : Z)
  | RMkdir (path : list Z) (mode : Z) | RUnlink (path : list Z) | RRename (oldp newp : list Z).
Definition serve (r : request) (s : hostfs (B * list bk_call)) : hostfs (B * list bk_call) :=
  match r with
  | ROpen path flags mode => (hostfs_open t path flags mode s).2
  | RClose fd => (hostfs_close fd s).2
  | RRead fd count => (hostfs_read fd count s).2
  | RWrite fd data => (hostfs_write t fd data s).2
  | RFtruncate fd len => (hostfs_ftruncate t fd len s).2
  | RLseek fd offset whence => (hostfs_lseek t fd offset whence s).2
  | RFstat fd => (hostfs_fstat fd s).2
  | RGetdents fd count => (hostfs_getdents t fd count s).2
  | RMkdir path mode => (hostfs_mkdir t path mode s).2
  | RUnlink path => (hostfs_unlink t path s).2
  | RRename oldp newp => (hostfs_rename t oldp newp s).2
  end.
Definition session (l : list request) (b : B) : hostfs (B * list bk_call) :=
  foldl (fun s r => serve r s) (hostfs_reset_fds (mk_hostfs [] (b, []))).2 l.

(** ** The descriptor table owns the open handles *)

(** The handle a slot holds, with its mount. *)
Definition slot_key (s : hostfs_fd_slot) : option (Z * nat) :=
  if in_use s && negb (is_root s) then m ← fd_mount s; Some (fd_handle s, m) else None.
Definition slot_wf (s : hostfs_fd_slot) : Prop := in_use s = true -> is_root s = false -> is_Some (fd_mount s).
Record keys_ok (own : Z -> option hostfs_mount) (ks : list (option (Z * nat))) : Prop := {
  ko_owner : forall h m, own h = Some m <-> exists i n, ks !! i = Some (Some (h, n)) /\ mounts t !! n = Some m;
  ko_inj : forall i j h n n', ks !! i = Some (Some (h, n)) -> ks !! j = Some (Some (h, n')) -> i = j;
  ko_mount : forall i h n, ks !! i = Some (Some (h, n)) -> h <> 0 /\ is_Some (mounts t !! n)
}.
Definition own_add (own : Z -> option hostfs_mount) (h : Z) (m : hostfs_mount) (h' : Z) : option hostfs_mount := if h =? h' then Some m else own h'.
Definition own_del (own : Z -> option hostfs_mount) (h h' : Z) : option hostfs_mount := if h =? h' then None else own h'.

Lemma keys_ext own own' ks : (forall h, own' h = own h) -> keys_ok own ks -> keys_ok own' ks.
Proof. intros E [H1 H2 H3]. constructor; [|done|done]. intros h m. by rewrite E. Qed.
Lemma keys_add own ks i h n m : keys_ok own ks -> ks !! i = Some None -> own h = None -> h <> 0 -> mounts t !! n = Some m ->
  keys_ok (own_add own h m) (<[i := Some (h, n)]> ks).
Proof.
  intros [H1 H2 H3] Hi Hn Hh Hm. pose proof (lookup_lt_Some _ _ _ Hi) as Hl.
  assert (Hnew : forall j n', ks !! j = Some (Some (h, n')) -> False).
  { intros j n' Hj. destruct (H3 _ _ _ Hj) as [_ [m' Hm']]. pose proof (proj2 (H1 h m') (ex_intro _ j (ex_intro _ n' (conj Hj Hm')))) as Ho. congruence. }
  constructor.
  - intros h' m'. unfold own_add. destruct (Z.eqb_spec h h') as [<-|Hne].
    + split; [intros [= <-]; exists i, n; by rewrite list_lookup_insert_eq|]. intros (j & n' & Hj & Hm').
      apply list_lookup_insert_Some in Hj as [(<- & E & _)|(? & Hj)]; [congruence|by destruct (Hnew _ _ Hj)].
    + rewrite H1. split; intros (j & n' & Hj & Hm').
      * exists j, n'. split; [|done]. rewrite list_lookup_insert_ne; [done|]. intros <-. congruence.
      * apply list_lookup_insert_Some in Hj as [(<- & E & _)|(? & Hj)]; [congruence|by exists j, n'].
  - intros j k h' n1 n2 Hj Hk. apply list_lookup_insert_Some in Hj as [(<- & Ej & _)|(? & Hj)];
      apply list_lookup_insert_Some in Hk as [(<- & Ek & _)|(? & Hk)]; simplify_eq; try done; try (by edestruct Hnew). by eapply H2.
  - intros j h' n' Hj. apply list_lookup_insert_Some in Hj as [(<- & Ej & _)|(? & Hj)]; simplify_eq; [by split|by eapply H3].
Qed.
Lemma keys_del own ks i h n : keys_ok own ks -> ks !! i = Some (Some (h, n)) -> keys_ok (own_del own h) (<[i := None]> ks).
Proof.
  intros [H1 H2 H3] Hi. pose proof (lookup_lt_Some _ _ _ Hi) as Hl. constructor.
  - intros h' m'. unfold own_del. destruct (Z.eqb_spec h h') as [<-|Hne].
    + split; [done|]. intros (j & n' & Hj & _). apply list_lookup_insert_Some in Hj as [(_ & ? & _)|(Hne & Hj)]; [done|].
      by destruct (Hne (H2 _ _ _ _ _ Hi Hj)).
    + rewrite H1. split; intros (j & n' & Hj & Hm').
      * exists j, n'. split; [|done]. rewrite list_lookup_insert_ne; [done|]. intros <-. congruence.
      * apply list_lookup_insert_Some in Hj as [(_ & ? & _)|(_ & Hj)]; [done|by exists j, n'].
  - intros j k h' n1 n2 Hj Hk. apply list_lookup_insert_Some in Hj as [(_ & ? & _)|(? & Hj)]; [done|].
    apply list_lookup_insert_Some in Hk as [(_ & ? & _)|(? & Hk)]; [done|]. by eapply H2.
  - intros j h' n' Hj. apply list_lookup_insert_Some in Hj as [(_ & ? & _)|(? & Hj)]; [done|by eapply H3].
Qed.

Record table_owns (fds : list hostfs_fd_slot) (log : list bk_call) : Prop := {
  to_length : length fds = Z.to_nat HOSTFS_MAX_FDS;
  to_wf : Forall slot_wf fds;
  to_log : all_permitted log;
  to_keys : fresh_handles log -> keys_ok (owner log) (slot_key <$> fds)
}.
Definition fs_ok (s : hostfs (B * list bk_call)) : Prop := table_owns (g_fds s) (h_bk s).2.

Lemma backend_logged {A} (c : A -> bk_call) (f : B -> A * B) (s : hostfs (B * list bk_call)) :
  exists a b', backend (B := B * list bk_call) (logging c f) s = (a, mk_hostfs (g_fds s) (b', c a :: (h_bk s).2)).
Proof. unfold backend, logging. destruct (f (h_bk s).1) as [a b']. by exists a, b'. Qed.

Lemma alter_insert {A} (f : A -> A) (l : list A) (i : nat) x : l !! i = Some x -> alter f i l = <[i := f x]> l.
Proof. revert i. induction l as [|y l IH]; intros [|i] E; [done..|by injection E as ->|]. cbn. f_equal. by apply IH. Qed.
Lemma keys_insert (fds : list hostfs_fd_slot) (i : nat) x : slot_key <$> <[i := x]> fds = <[i := slot_key x]> (slot_key <$> fds).
Proof. apply list_fmap_insert. Qed.

(** A call that opens and closes nothing. *)
Lemma owns_call fds log c : table_owns fds log -> permitted log c -> (fresh_handles (c :: log) -> fresh_handles log) ->
  (forall h, owner (c :: log) h = owner log h) -> table_owns fds (c :: log).
Proof. intros [H1 H2 H3 H4] Hp Hf Ho. constructor; [done|done|done|]. intros Hn. eapply keys_ext, H4; [done|by apply Hf]. Qed.
(** A change of a slot that keeps its handle. *)
Lemma owns_alter fds log i g : table_owns fds log ->
  (forall x, slot_key (g x) = slot_key x /\ (slot_wf x -> slot_wf (g x))) -> table_owns (alter g i fds) log.
Proof.
  intros [H1 H2 H3 H4] Hg. constructor; [by rewrite length_alter| |done|].
  - apply Forall_alter; [done|]. intros x _ Hx. by apply Hg.
  - intros Hf. replace (slot_key <$> alter g i fds) with (slot_key <$> fds); [by apply H4|].
    apply list_eq. intros j. rewrite !list_lookup_fmap. destruct (decide (i = j)) as [<-|].
    + rewrite list_lookup_alter_eq. destruct (fds !! i); [|done]. simpl. f_equal. symmetry. apply Hg.
    + by rewrite list_lookup_alter_ne.
Qed.
(** A slot that holds no handle before or after. *)
Lemma owns_unkeyed fds log i sl x : table_owns fds log -> fds !! i = Some sl -> slot_key sl = None -> slot_key x = None -> slot_wf x ->
  table_owns (<[i := x]> fds) log.
Proof.
  intros [H1 H2 H3 H4] Hi Hk Hx Hw. constructor; [by rewrite length_insert|by apply Forall_insert|done|].
  intros Hf. rewrite keys_insert, Hx, list_insert_id; [by apply H4|]. rewrite list_lookup_fmap, Hi. simpl. by rewrite Hk.
Qed.
(** What a slot in use holds. *)
Lemma owns_slot fds log i sl : table_owns fds log -> fds !! i = Some sl -> in_use sl = true -> is_root sl = false ->
  exists n, fd_mount sl = Some n /\ slot_key sl = Some (fd_handle sl, n) /\
    (fresh_handles log -> fd_handle sl <> 0 /\ exists m, mounts t !! n = Some m /\ owner log (fd_handle sl) = Some m).
Proof.
  intros [_ H2 _ H4] Hi Hu Hr. rewrite list.Forall_forall in H2. destruct (H2 sl (list_elem_of_lookup_2 _ _ _ Hi) Hu Hr) as [n Hn].
  assert (Hk : slot_key sl = Some (fd_handle sl, n)) by (unfold slot_key; by rewrite Hu, Hr, Hn). exists n. split; [done|]. split; [done|].
  intros Hf. destruct (H4 Hf) as [K1 _ K3]. assert (Hl : (slot_key <$> fds) !! i = Some (Some (fd_handle sl, n))) by (by rewrite list_lookup_fmap, Hi; simpl; rewrite Hk).
  destruct (K3 _ _ _ Hl) as [Hh [m Hm]]. split; [done|]. exists m. split; [done|]. apply K1. by exists i, n.
Qed.
Lemma with_fd_ok {A} (bad : A) fd f s : fs_ok s ->
  (forall i sl, 0 <= i -> g_fds s !! Z.to_nat i = Some sl -> in_use sl = true -> fs_ok (f i sl s).2) -> fs_ok (with_fd bad fd f s).2.
Proof.
  intros Hs Hf. unfold with_fd, slot_for_fd, mbind, HM_bind. destruct (Z.ltb_spec (fd - HOSTFS_FD_BASE) 0) as [|H0]; [done|]. cbn.
  destruct (_ <=? _); [done|]. destruct (zlookup (g_fds s) (fd - HOSTFS_FD_BASE)) as [sl|] eqn:E; [|done].
  destruct (in_use sl) eqn:Eu; [|done]. apply Hf; [done| |done]. unfold zlookup in E.
  destruct (Z.ltb_spec (fd - HOSTFS_FD_BASE) 0); [lia|done].
Qed.
(** A call on the handle of a descriptor that is not the root's. *)
Lemma use_ok {A} (f : Z -> B -> A * B) (i : Z) sl s : fs_ok s -> g_fds s !! Z.to_nat i = Some sl -> in_use sl = true -> is_root sl = false ->
  fs_ok (backend (B := B * list bk_call) (logging (fun _ => CUse (fd_handle sl)) (f (fd_handle sl))) s).2.
Proof.
  intros Hs Hi Hu Hr. destruct (backend_logged (fun _ => CUse (fd_handle sl)) (f (fd_handle sl)) s) as (a & b' & ->).
  destruct (owns_slot _ _ _ _ Hs Hi Hu Hr) as (n & _ & _ & Hown). apply owns_call; [done| |done|done].
  intros Hf. destruct (Hown Hf) as (_ & m & _ & E). by eexists.
Qed.
Lemma change_ok {A} (f : Z -> B -> A * B) (i : Z) sl s : fs_ok s -> g_fds s !! Z.to_nat i = Some sl -> in_use sl = true -> gated t sl = false ->
  fs_ok (backend (B := B * list bk_call) (logging (fun _ => CChange (fd_handle sl)) (f (fd_handle sl))) s).2.
Proof.
  intros Hs Hi Hu [Hr Hg]%orb_false_iff. destruct (backend_logged (fun _ => CChange (fd_handle sl)) (f (fd_handle sl)) s) as (a & b' & ->).
  destruct (owns_slot _ _ _ _ Hs Hi Hu Hr) as (n & En & _ & Hown). apply owns_call; [done| |done|done].
  intros Hf. destruct (Hown Hf) as (_ & m & Em & E). exists m. split; [done|]. split; [by eapply list_elem_of_lookup_2|].
  rewrite En in Hg. unfold is_ro, mount_mode in Hg. rewrite Em in Hg. apply bool_decide_eq_false in Hg. by destruct (mt_mode m).
Qed.

(** The core's names for the other mounts in a merged listing. *)
Lemma take_comp_app c r : slash ∉ c -> r = [] \/ absolute r -> take_comp (c ++ r) = (c, r).
Proof.
  intros Hc Hr. induction c as [|x c IH]; cbn [app].
  - destruct r as [|y r]; [done|]. destruct Hr as [|Ha]; [done|]. injection Ha as ->. cbn [take_comp]. by rewrite Z.eqb_refl.
  - apply not_elem_of_cons in Hc as [Hx Hc]. cbn [take_comp]. destruct (Z.eqb_spec x slash); [congruence|]. by rewrite IH.
Qed.
Lemma top_component_clean m : canonical (guest_prefix m) -> guest_prefix m <> [slash] ->
  clean (top_component (guest_prefix m) HOSTFS_MERGE_NAME_MAX).
Proof.
  intros (st & Hst & E) Hne. rewrite E in *. destruct st as [|c q] using rev_ind; [done|]. clear IHq. rewrite print_nonempty by (by destruct q).
  apply Forall_app in Hst as [Hq Hc]. apply Forall_cons_1 in Hc as [(H1 & H2 & H3 & H4) _]. rewrite render_app. change (render [c]) with (slash :: c).
  unfold top_component. cbn [app skip_seps]. rewrite Z.eqb_refl.
  assert (Es : skip_seps (c ++ render q) = c ++ render q).
  { destruct c as [|x c]; [done|]. cbn [app skip_seps]. destruct (Z.eqb_spec x slash); [|done]. subst x. destruct H4. constructor. }
  rewrite Es, take_comp_app by (done || apply render_absolute). cbn [fst]. change (Z.to_nat (HOSTFS_MERGE_NAME_MAX - 1)) with 63%nat.
  exists [take 63 c]. split; [|done]. constructor; [|done]. destruct (Nat.le_gt_cases (length c) 63).
  - by rewrite take_ge.
  - assert (Hl : length (take 63 c) = 63%nat) by (rewrite length_take; lia). repeat split; try (by intros E'; rewrite E' in Hl).
    intros Hin. apply H4. eapply list.elem_of_take in Hin as (k & Hk & _). by eapply list_elem_of_lookup_2.
Qed.

(** [confine] on a mount of the table. *)
Lemma confine_logged n m rel flags s : mounts t !! n = Some m ->
  exists rc h b', confine t n rel flags s = (rc, h, mk_hostfs (g_fds s) (b', CConfine m rel flags rc h :: (h_bk s).2)).
Proof.
  intros Em. unfold confine. rewrite Em. destruct (backend_logged (fun r => CConfine m rel flags r.1 r.2) (ops_confine m rel flags) s) as ([rc h] & b' & E).
  exists rc, h, b'. exact E.
Qed.
Lemma close_logged h s : exists rc b', close_handle h s = (rc, mk_hostfs (g_fds s) (b', CClose h :: (h_bk s).2)).
Proof. unfold close_handle. destruct (backend_logged (fun _ => CClose h) (ops_close h) s) as (a & b' & E). exists a, b'. exact E. Qed.
Lemma owner_confine m rel flags rc h log h' : 0 <= rc -> owner (CConfine m rel flags rc h :: log) h' = own_add (owner log) h m h'.
Proof. intros Hrc. cbn [owner]. unfold own_add. by destruct (Z.leb_spec 0 rc); [|lia]. Qed.
Lemma confine_failed fds log m rel flags rc h : table_owns fds log -> permitted log (CConfine m rel flags rc h) -> rc < 0 ->
  table_owns fds (CConfine m rel flags rc h :: log).
Proof. intros Ht Hp Hrc. apply owns_call; [done|done|by intros []|]. intros h'. cbn [owner]. by destruct (Z.leb_spec 0 rc); [lia|]. Qed.
(** A handle that is given back at once. *)
Lemma confine_closed fds log m rel flags rc h : table_owns fds log -> permitted log (CConfine m rel flags rc h) -> 0 <= rc ->
  table_owns fds (CClose h :: CConfine m rel flags rc h :: log).
Proof.
  intros [H1 H2 H3 H4] Hp Hrc. constructor; [done|done| |].
  - split; [|done]. intros _. rewrite owner_confine by done. unfold own_add. rewrite Z.eqb_refl. by eexists.
  - intros [Hf Hn]. destruct (Hn Hrc) as [_ Ho]. eapply keys_ext, H4; [|done]. intros h'. cbn [owner].
    destruct (Z.eqb_spec h h') as [<-|]; [done|]. by rewrite andb_false_r.
Qed.
(** A handle that is put into a free slot. *)
Lemma confine_installed fds log m rel flags rc h n i sl x : table_owns fds log -> permitted log (CConfine m rel flags rc h) -> 0 <= rc ->
  mounts t !! n = Some m -> fds !! i = Some sl -> in_use sl = false -> slot_key x = Some (h, n) -> slot_wf x ->
  table_owns (<[i := x]> fds) (CConfine m rel flags rc h :: log).
Proof.
  intros [H1 H2 H3 H4] Hp Hrc Hm Hi Hu Hk Hw. constructor; [by rewrite length_insert|by apply Forall_insert|done|].
  intros [Hf Hn]. destruct (Hn Hrc) as [Hh Ho]. rewrite keys_insert, Hk. eapply keys_ext; [intros h'; by apply owner_confine|].
  apply keys_add; [by apply H4| |done|done|done]. rewrite list_lookup_fmap, Hi. simpl. unfold slot_key. by rewrite Hu.
Qed.

Lemma merge_loop_ok root m l i names s : mounts t !! root = Some m ->
  (forall j m', l !! j = Some m' -> (i + j)%nat <> root -> clean (top_component (guest_prefix m') HOSTFS_MERGE_NAME_MAX)) ->
  fs_ok s -> fs_ok (merge_loop t l i root names s).2.
Proof.
  intros Em. revert i names s. induction l as [|m' l IH]; intros i names s Hl Hs; [done|]. cbn [merge_loop].
  assert (Hl' : forall j m', l !! j = Some m' -> (S i + j)%nat <> root -> clean (top_component (guest_prefix m') HOSTFS_MERGE_NAME_MAX))
    by (intros j m'' Hj Hne; apply (Hl (S j)); [done|lia]).
  destruct (negb _); [done|]. destruct (Nat.eqb_spec i root) as [|Hne]; [by apply IH|]. destruct (existsb _ _); [by apply IH|].
  unfold mbind, HM_bind. set (comp := top_component (guest_prefix m') HOSTFS_MERGE_NAME_MAX).
  assert (Hc : clean comp) by (apply (Hl 0%nat); [done|lia]).
  destruct (confine_logged root m comp 0 s Em) as (rc & h & b' & ->).
  assert (Hp : permitted (h_bk s).2 (CConfine m comp 0 rc h)) by (split; [by eapply list_elem_of_lookup_2|by split]).
  destruct (Z.leb_spec 0 rc).
  - destruct (close_logged h (mk_hostfs (g_fds s) (b', CConfine m comp 0 rc h :: (h_bk s).2))) as (rc' & b'' & ->).
    apply IH; [done|]. by apply confine_closed.
  - apply IH; [done|]. by apply confine_failed.
Qed.
Lemma set_slot_ok i g s : fs_ok s -> (forall x, slot_key (g x) = slot_key x /\ (slot_wf x -> slot_wf (g x))) ->
  fs_ok (set_slot (B := B * list bk_call) i g s).2.
Proof. intros Hs Hg. by apply owns_alter. Qed.

Lemma first_free_spec l i k : first_free l i = Some k -> exists j sl, k = i + Z.of_nat j /\ l !! j = Some sl /\ in_use sl = false.
Proof.
  revert i. induction l as [|x l IH]; intros i; [done|]. cbn [first_free]. destruct (in_use x) eqn:E.
  - intros (j & sl & -> & Hj & Hu)%IH. exists (S j), sl. split; [lia|done].
  - intros [= <-]. exists 0%nat, x. split; [lia|done].
Qed.
(** Taking the lowest free descriptor. *)
Lemma alloc_fd_spec (s : hostfs (B * list bk_call)) :
  (alloc_fd s = (-1, s)) \/
  exists i sl, g_fds s !! i = Some sl /\ in_use sl = false /\
    alloc_fd s = (Z.of_nat i + HOSTFS_FD_BASE, mk_hostfs (<[i := mk_slot true false false 0 [] None 0]> (g_fds s)) (h_bk s)).
Proof.
  unfold alloc_fd. destruct (first_free (g_fds s) 0) as [k|] eqn:E; [|by left]. right.
  destruct (first_free_spec _ _ _ E) as (j & sl & -> & Hj & Hu). exists j, sl. split; [done|]. split; [done|]. cbn [set_slot snd].
  rewrite Z.add_0_l, Nat2Z.id. by rewrite (alter_insert _ _ _ _ Hj).
Qed.

Context (Hok : table_ok t).

Lemma root_merge_clean root m : mounts t !! root = Some m -> guest_prefix m = [slash] ->
  forall j m', mounts t !! j = Some m' -> (0 + j)%nat <> root -> clean (top_component (guest_prefix m') HOSTFS_MERGE_NAME_MAX).
Proof.
  intros Em Er j m' Ej Hne. destruct Hok as [Hc Hnd]. rewrite list.Forall_forall in Hc. apply top_component_clean.
  - apply Hc. by eapply list_elem_of_lookup_2.
  - intros E. apply Hne. cbn. apply (NoDup_lookup _ _ _ [slash] Hnd); rewrite list_lookup_fmap, ?Ej, ?Em; simpl; by rewrite ?E, ?Er.
Qed.
Lemma merge_names_ok root m idx s : mounts t !! root = Some m -> guest_prefix m = [slash] -> fs_ok s ->
  fs_ok (cache_merge_extra_names t root idx s).2.
Proof.
  intros Em Er Hs. unfold cache_merge_extra_names, mbind, HM_bind.
  pose proof (merge_loop_ok root m (mounts t) 0 [] s Em (root_merge_clean root m Em Er) Hs) as Hm.
  destruct (merge_loop _ _ _ _ _ _) as [names s']. by apply set_slot_ok.
Qed.
Lemma open_ok path flags mode s : fs_ok s -> fs_ok (hostfs_open t path flags mode s).2.
Proof.
  intros Hs. unfold hostfs_open. destruct (normalize_path t path HOSTFS_PATH_MAX) as [norm|] eqn:En; [|done].
  destruct (match_mount t norm HOSTFS_PATH_MAX) as [[n rel]|] eqn:Em.
  - destruct (select_clean _ _ _ _ _ Hok En Em) as [[m Hm] Hc]. destruct (is_ro t n && _) eqn:Eg; [done|]. unfold mbind, HM_bind.
    destruct (confine_logged n m rel flags s Hm) as (rc & h & b' & ->).
    assert (Hp : permitted (h_bk s).2 (CConfine m rel flags rc h)).
    { split; [by eapply list_elem_of_lookup_2|]. split; [done|]. intros Hro. unfold is_ro, mount_mode in Eg. rewrite Hm in Eg.
      rewrite bool_decide_true in Eg by done. done. }
    destruct (Z.ltb_spec rc 0); [by apply confine_failed|]. set (s1 := mk_hostfs _ _).
    destruct (alloc_fd_spec s1) as [->|(i & sl & Hi & Hu & ->)].
    + cbn [Z.ltb]. change (-1 <? 0) with true. cbn iota. destruct (close_logged h s1) as (rc' & b'' & ->). by apply confine_closed.
    + destruct (Z.ltb_spec (Z.of_nat i + HOSTFS_FD_BASE) 0); [unfold HOSTFS_FD_BASE in *; lia|].
      replace (Z.of_nat i + HOSTFS_FD_BASE - HOSTFS_FD_BASE) with (Z.of_nat i) by lia. cbn [set_slot g_fds h_bk]. rewrite Nat2Z.id.
      erewrite alter_insert by (apply list_lookup_insert_eq; by eapply lookup_lt_Some). rewrite list_insert_insert_eq.
      set (s2 := mk_hostfs _ _). assert (Hs2 : fs_ok s2) by (eapply confine_installed; eauto; intros _ _; by eexists).
      destruct (is_root_mount t n && bool_decide (rel = [dot])) eqn:Er; [|done].
      apply andb_true_iff in Er as [Er _]. unfold is_root_mount in Er. rewrite Hm in Er. apply bool_decide_eq_true in Er.
      match goal with |- fs_ok (let '(_, s') := cache_merge_extra_names t n ?i ?s3 in _).2 =>
        pose proof (merge_names_ok n m i s3 Hm Er) as Hx; destruct (cache_merge_extra_names t n i s3) as [[] s4] end.
      apply Hx. by apply (owns_alter (g_fds s2)).
  - destruct (bool_decide (norm = [slash])); [|done]. destruct (hostfs_flags_write_intent flags); [done|]. unfold mbind, HM_bind.
    destruct (alloc_fd_spec s) as [->|(i & sl & Hi & Hu & ->)]; [done|].
    destruct (Z.ltb_spec (Z.of_nat i + HOSTFS_FD_BASE) 0); [unfold HOSTFS_FD_BASE in *; lia|].
    replace (Z.of_nat i + HOSTFS_FD_BASE - HOSTFS_FD_BASE) with (Z.of_nat i) by lia. cbn [set_slot g_fds h_bk]. rewrite Nat2Z.id.
    erewrite alter_insert by (apply list_lookup_insert_eq; by eapply lookup_lt_Some). rewrite list_insert_insert_eq.
    eapply owns_unkeyed; [done|done| |done|done]. unfold slot_key. by rewrite Hu.
Qed.

Lemma close_ok fd s : fs_ok s -> fs_ok (hostfs_close fd s).2.
Proof.
  intros Hs. apply with_fd_ok; [done|]. intros i sl Hi0 Hi Hu. unfold mbind, HM_bind.
  destruct (is_root sl) eqn:Er; cbn [negb andb].
  { cbn [mret HM_ret set_slot snd]. rewrite (alter_insert _ _ _ _ Hi). eapply owns_unkeyed; [done|done| |done|done].
    unfold slot_key. by rewrite Er, andb_false_r. }
  destruct (owns_slot _ _ _ _ Hs Hi Hu Er) as (n & En & Ek & Hown). destruct (Z.eqb_spec (fd_handle sl) 0) as [Hz|Hz]; cbn [negb].
  - cbn [mret HM_ret set_slot snd]. rewrite (alter_insert _ _ _ _ Hi). destruct Hs as [H1 H2 H3 _].
    constructor; [cbn; by rewrite length_insert|by apply Forall_insert|done|]. intros Hf. by destruct (Hown Hf).
  - destruct (close_logged (fd_handle sl) s) as (rc & b' & ->). cbn [mret HM_ret set_slot snd g_fds h_bk]. rewrite (alter_insert _ _ _ _ Hi).
    destruct Hs as [H1 H2 H3 H4]. constructor; [cbn; by rewrite length_insert|by apply Forall_insert| |].
    + split; [|done]. intros Hf. destruct (Hown Hf) as (_ & m & _ & E). by eexists.
    + intros Hf. cbn [g_fds]. rewrite keys_insert. eapply keys_ext; [|eapply (keys_del _ _ (Z.to_nat i) (fd_handle sl) n); [by apply H4|]].
      * done.
      * rewrite list_lookup_fmap, Hi. simpl. by rewrite Ek.
Qed.
(** A slot whose handle is replaced by a fresh one on the same mount. *)
Lemma confine_replaced fds log m rc h n i sl x : table_owns fds log -> permitted log (CConfine m [dot] 0 rc h) -> 0 <= rc ->
  mounts t !! n = Some m -> fds !! i = Some sl -> slot_key sl = Some (fd_handle sl, n) ->
  (fresh_handles log -> owner log (fd_handle sl) = Some m) -> slot_key x = Some (h, n) -> slot_wf x ->
  table_owns (<[i := x]> fds) (CClose (fd_handle sl) :: CConfine m [dot] 0 rc h :: log).
Proof.
  intros [H1 H2 H3 H4] Hp Hrc Hm Hi Hk Hold Hx Hw. constructor; [by rewrite length_insert|by apply Forall_insert| |].
  - split; [|done]. intros [Hf _]. rewrite owner_confine by done. unfold own_add. destruct (_ =? _); [by eexists|]. rewrite (Hold Hf). by eexists.
  - intros [Hf Hn]. destruct (Hn Hrc) as [Hh Ho]. specialize (Hold Hf). rewrite keys_insert, Hx.
    apply (keys_ext (own_add (own_del (owner log) (fd_handle sl)) h m)).
    + intros h'. change (owner (CClose (fd_handle sl) :: CConfine m [dot] 0 rc h :: log) h') with
        (own_del (owner (CConfine m [dot] 0 rc h :: log)) (fd_handle sl) h').
      unfold own_del. rewrite owner_confine by done. unfold own_add.
      destruct (Z.eqb_spec (fd_handle sl) h'), (Z.eqb_spec h h'); congruence.
    + assert (Hl : (slot_key <$> fds) !! i = Some (Some (fd_handle sl, n))) by (by rewrite list_lookup_fmap, Hi; simpl; rewrite Hk).
      rewrite <- (list_insert_insert_eq (slot_key <$> fds) i _ None). apply keys_add; [by eapply keys_del; [apply H4|]| | |done|done].
      * apply list_lookup_insert_eq. by eapply lookup_lt_Some.
      * unfold own_del. by destruct (_ =? _).
Qed.
Lemma lseek_ok fd offset whence s : fs_ok s -> fs_ok (hostfs_lseek t fd offset whence s).2.
Proof.
  intros Hs. apply with_fd_ok; [done|]. intros i sl Hi0 Hi Hu. destruct (negb _); [done|].
  destruct (is_root sl) eqn:Er; [destruct (_ && _); [by apply set_slot_ok|done]|].
  destruct (merge_root sl); [|by apply (use_ok (fun h => ops_lseek h offset whence) i)]. destruct (_ && _); [|done].
  destruct (owns_slot _ _ _ _ Hs Hi Hu Er) as (n & En & Ek & Hown). rewrite En. unfold mbind, HM_bind, set_cursor. cbn [set_slot].
  set (s1 := mk_hostfs _ _). assert (Hs1 : fs_ok s1) by (by apply owns_alter).
  destruct (mounts t !! n) as [m|] eqn:Em; [|unfold confine; by rewrite Em].
  assert (Hi1 : g_fds s1 !! Z.to_nat i = Some (mk_slot (in_use sl) (is_root sl) (merge_root sl) 0 (merge_names sl) (fd_mount sl) (fd_handle sl)))
    by (cbn [s1 g_fds]; by rewrite list_lookup_alter_eq, Hi).
  destruct (confine_logged n m [dot] 0 s1 Em) as (rc & h & b' & ->).
  assert (Hp : permitted (h_bk s1).2 (CConfine m [dot] 0 rc h)) by (split; [by eapply list_elem_of_lookup_2|split; [by exists []|done]]).
  destruct (Z.ltb_spec rc 0); [by apply confine_failed|].
  match goal with |- context [close_handle ?h ?s] => destruct (close_logged h s) as (rc' & b'' & ->) end.
  cbn [g_fds h_bk]. rewrite (alter_insert _ _ _ _ Hi1).
  refine (confine_replaced (g_fds s1) (h_bk s1).2 m rc h n _ _ _ Hs1 Hp _ Em Hi1 Ek _ _ _); [done| | |].
  - intros Hf. change (owner (h_bk s).2 (fd_handle sl) = Some m). destruct (Hown Hf) as (_ & m' & ? & ?). by simplify_eq.
  - unfold slot_key. cbn. by rewrite Hu, Er, En.
  - intros _ _. cbn. by rewrite En.
Qed.

Lemma read_ok fd count s : fs_ok s -> fs_ok (hostfs_read fd count s).2.
Proof.
  intros Hs. apply with_fd_ok; [done|]. intros i sl Hi0 Hi Hu. destruct (is_root sl) eqn:Er; [done|].
  by apply (use_ok (fun h => ops_read h count) i).
Qed.
Lemma write_ok fd data s : fs_ok s -> fs_ok (hostfs_write t fd data s).2.
Proof.
  intros Hs. apply with_fd_ok; [done|]. intros i sl Hi0 Hi Hu. destruct (gated t sl) eqn:Eg; [done|].
  by apply (change_ok (fun h => ops_write h data) i).
Qed.
Lemma ftruncate_ok fd len s : fs_ok s -> fs_ok (hostfs_ftruncate t fd len s).2.
Proof.
  intros Hs. apply with_fd_ok; [done|]. intros i sl Hi0 Hi Hu. destruct (gated t sl) eqn:Eg; [done|]. destruct (len <? 0); [done|].
  cbn. destruct (ops_ftruncate (B := B)) as [f|]; [|done]. by apply (change_ok (fun h => f h len) i).
Qed.
Lemma fstat_ok fd s : fs_ok s -> fs_ok (hostfs_fstat fd s).2.
Proof.
  intros Hs. apply with_fd_ok; [done|]. intros i sl Hi0 Hi Hu. destruct (is_root sl) eqn:Er; [done|]. unfold mbind, HM_bind.
  assert (Hx : fs_ok (backend (ops_fstat (fd_handle sl)) s).2) by (by apply (use_ok (fun h => ops_fstat h) i)).
  destruct (backend (ops_fstat (fd_handle sl)) s) as [[rc st] s']. by destruct (rc <? 0).
Qed.
Lemma list_names_ok i cursor count names s : fs_ok s -> fs_ok (list_names (B := B * list bk_call) i cursor count names s).2.
Proof.
  intros Hs. unfold list_names. destruct (emit_names _ _ _ _) as [buf k]. destruct (bool_decide _); [done|]. by apply set_slot_ok.
Qed.
Lemma getdents_ok fd count s : fs_ok s -> fs_ok (hostfs_getdents t fd count s).2.
Proof.
  intros Hs. apply with_fd_ok; [done|]. intros i sl Hi0 Hi Hu.
  assert (Hb : is_root sl = false -> fs_ok (backend (ops_getdents (fd_handle sl) count) s).2) by (intros Er; by apply (use_ok (fun h => ops_getdents h count) i)).
  destruct (is_root sl); [unfold getdents_root; destruct (_ <=? _); [done|by apply list_names_ok]|].
  destruct (merge_root sl); [|by apply Hb]. unfold getdents_merge_root. destruct (_ <? _); [by apply list_names_ok|by apply Hb].
Qed.

(** The names a call that changes the name space is given. *)
Lemma resolve_writable_ok path n rel : resolve_writable t path = inr (n, rel) ->
  exists m, mounts t !! n = Some m /\ mt_mode m = HOSTFS_RW /\ clean rel.
Proof.
  unfold resolve_writable. destruct (normalize_path t path HOSTFS_PATH_MAX) as [norm|] eqn:En; [|done].
  destruct (match_mount t norm HOSTFS_PATH_MAX) as [[n' rel']|] eqn:Em; [|done]. destruct (is_ro t n') eqn:Eg; [done|]. intros [= -> ->].
  destruct (select_clean _ _ _ _ _ Hok En Em) as [[m Hm] Hc]. exists m. split; [done|]. split; [|done].
  unfold is_ro, mount_mode in Eg. rewrite Hm in Eg. apply bool_decide_eq_false in Eg. by destruct (mt_mode m).
Qed.
Lemma on_mount_ok (op : option (hostfs_mount -> B -> Z * B)) rels n m s : mounts t !! n = Some m -> mt_mode m = HOSTFS_RW -> Forall clean rels -> fs_ok s ->
  fs_ok (on_mount t ((fun f mt => logging (fun _ => CPath mt rels) (f mt)) <$> op) n s).2.
Proof.
  intros Hm Hrw Hc Hs. unfold on_mount. rewrite Hm. destruct op as [f|]; [|done]. cbn [fmap option_fmap option_map].
  destruct (backend_logged (fun _ : Z => CPath m rels) (f m) s) as (a & b' & ->). apply owns_call; [done| |done|done].
  split; [by eapply list_elem_of_lookup_2|done].
Qed.
Lemma mkdir_ok path mode s : fs_ok s -> fs_ok (hostfs_mkdir t path mode s).2.
Proof.
  intros Hs. unfold hostfs_mkdir. destruct (resolve_writable t path) as [e|[n rel]] eqn:E; [done|].
  destruct (resolve_writable_ok _ _ _ E) as (m & Hm & Hrw & Hc). cbn. destruct (ops_mkdir (B := B)) as [f|]; [|by unfold on_mount].
  apply (on_mount_ok (Some (fun m => f m rel mode)) [rel] n m); [done|done|by repeat (apply Forall_cons_2; [done|])|done].
Qed.
Lemma unlink_ok path s : fs_ok s -> fs_ok (hostfs_unlink t path s).2.
Proof.
  intros Hs. unfold hostfs_unlink. destruct (resolve_writable t path) as [e|[n rel]] eqn:E; [done|].
  destruct (resolve_writable_ok _ _ _ E) as (m & Hm & Hrw & Hc). cbn. destruct (ops_unlink (B := B)) as [f|]; [|by unfold on_mount].
  apply (on_mount_ok (Some (fun m => f m rel)) [rel] n m); [done|done|by repeat (apply Forall_cons_2; [done|])|done].
Qed.
Lemma rename_ok oldp newp s : fs_ok s -> fs_ok (hostfs_rename t oldp newp s).2.
Proof.
  intros Hs. unfold hostfs_rename. destruct (resolve_writable t oldp) as [e|[n rel]] eqn:E; [done|].
  destruct (resolve_writable t newp) as [e|[n' rel']] eqn:E'; [done|]. destruct (Nat.eqb_spec n n') as [<-|]; [|done]. cbn [negb].
  destruct (resolve_writable_ok _ _ _ E) as (m & Hm & Hrw & Hc). destruct (resolve_writable_ok _ _ _ E') as (_ & _ & _ & Hc').
  cbn. destruct (ops_rename (B := B)) as [f|]; [|by unfold on_mount].
  apply (on_mount_ok (Some (fun m => f m rel rel')) [rel; rel'] n m); [done|done|by repeat (apply Forall_cons_2; [done|])|done].
Qed.

Lemma serve_ok r s : fs_ok s -> fs_ok (serve r s).
Proof.
  destruct r; [apply open_ok|apply close_ok|apply read_ok|apply write_ok|apply ftruncate_ok|apply lseek_ok|apply fstat_ok|apply getdents_ok
              |apply mkdir_ok|apply unlink_ok|apply rename_ok].
Qed.
Lemma session_ok l b : fs_ok (session l b).
Proof.
  unfold session. set (s0 := (hostfs_reset_fds _).2). assert (Hs : fs_ok s0).
  { constructor; [done|by apply Forall_replicate|done|]. intros _. constructor.
    - intros h m. split; [done|]. intros (i & n & E & _). rewrite list_lookup_fmap in E. destruct (g_fds s0 !! i) as [x|] eqn:Ex; [|done].
      apply lookup_replicate_1 in Ex as [-> _]. done.
    - intros i j h n n' E. rewrite list_lookup_fmap in E. destruct (g_fds s0 !! i) as [x|] eqn:Ex; [|done].
      apply lookup_replicate_1 in Ex as [-> _]. done.
    - intros i h n E. rewrite list_lookup_fmap in E. destruct (g_fds s0 !! i) as [x|] eqn:Ex; [|done].
      apply lookup_replicate_1 in Ex as [-> _]. done. }
  clearbody s0. revert s0 Hs. induction l as [|r l IH]; intros s Hs; [done|]. apply IH. by apply serve_ok.
Qed.

(** C15: in a table whose guest prefixes are canonical (absolute, no empty,
    "." or ".." component, no slash at the end) and granted once ([table_ok],
    the hypothesis of this section), whatever a guest asks for, in any order
    and with any backend behind the mounts, the backend is only ever asked to open names below a granted
    mount (entries, never ".." or an absolute path), never for writing when
    the mount is read-only, and only ever asked to create, remove or rename
    below a writable one; and if it never gives out a handle that is NULL or
    still open, every handle it is given back is open, the ones it is told to
    write through belong to a writable mount, and after every request the
    handles that are open are exactly those of the descriptors in use, one
    each: none is leaked, shared or used after it was closed. *)
Theorem hostfs_confined l b :
  let s := session l b in
  all_permitted (h_bk s).2 /\
  (fresh_handles (h_bk s).2 -> keys_ok (owner (h_bk s).2) (slot_key <$> g_fds s)).
Proof. destruct (session_ok l b) as [_ _ H3 H4]. by split. Qed.
End Confined.

(** A host with one regular file behind every name: handles count up. *)
#[export] Instance demo_host : Backend Z := {
  ops_confine _ _ _ b := (0, b + 1, b + 1);
  ops_close _ b := (0, b);
  ops_read _ _ b := (0, [], b);
  ops_write _ d b := (Z.of_nat (length d), b);
  ops_lseek _ _ _ b := (0, b);
  ops_fstat _ b := (0, mk_stat 0 0 0 0 0 0 0 0 0 0 0 0 0 0 0 0, b);
  ops_getdents _ _ b := (0, [], b);
  ops_mkdir := None; ops_unlink := Some (fun _ _ b => (0, b)); ops_rename := None; ops_ftruncate := None
}.
Definition demo_requests : list request :=
  [ROpen (cs "x/../y") HOSTFS_O_RDWR 0; ROpen (cs "/etc/passwd") HOSTFS_O_RDWR 0; ROpen (cs "../../../../etc/passwd") 0 0;
   RWrite 3 (cs "hi"); RWrite 4 (cs "hi"); RUnlink (cs "/bin/sh"); RUnlink (cs "old"); RClose 3].
Lemma hostfs_confined_witness :
  (h_bk (session demo_table demo_requests 0)).2 =
    [CClose 1; CPath (mk_mount (cs "/home/me") (cs "/u") HOSTFS_RW 2) [cs "old"]; CChange 1;
     CConfine (mk_mount (cs "/") (cs "/srv") HOSTFS_RO 1) (cs "etc/passwd") 0 0 2;
     CConfine (mk_mount (cs "/home/me") (cs "/u") HOSTFS_RW 2) (cs "y") HOSTFS_O_RDWR 0 1] /\
  keys_ok demo_table (owner (h_bk (session demo_table demo_requests 0)).2) (slot_key <$> g_fds (session demo_table demo_requests 0)).
Proof.
  split; [vm_compute; reflexivity|]. apply (hostfs_confined demo_table demo_table_ok demo_requests 0).
  vm_compute. repeat split; (discriminate || done).
Defined.
