(* ===== verification/Launcher.v ===== *)
(** * The launcher of the first machine

    src/maize.cpp up to the point where the devices are attached: the
    configuration files and the command line, the guest's environment, the
    mount grants and the table the host file-system core is given, the choice
    of the image, the image loader and the process-start block.  The build is
    the console one (MAIZE_CONSOLE_ONLY, no MAIZE_DISPLAY).  A std::string is
    its list of bytes; what the host answers (its files, directories and home)
    is the interface [LaunchHost]; a diagnostic is the reason of a refusal,
    whose exit status is 2. *)
From Stdlib Require Import ZArith Lia Bool String.
From stdpp Require Import base list numbers strings.
From S2P Require Import Prelude State Support CString MzObj V1Memory HostFs.

(** ** Strings *)

Definition chr (c : string) : Z := hd 0 (cs c).
Fixpoint find_pos (P : Z -> bool) (l : list Z) : option nat :=
  match l with
  | [] => None
  | c :: l' => if P c then Some O else S <$> find_pos P l'
  end.
Definition find_last_pos (P : Z -> bool) (l : list Z) : option nat :=
  (fun i => length l - 1 - i)%nat <$> find_pos P (rev l).
Definition is_char (c x : Z) : bool := x =? c.
Definition starts_with (p l : list Z) : bool := bool_decide (take (length p) l = p).
Definition ends_with (p l : list Z) : bool := (length p <=? length l)%nat && bool_decide (drop (length l - length p) l = p).
Definition is_blank (c : Z) : bool := (c =? 32) || (c =? 9).
Definition not_blank (c : Z) : bool := negb (is_blank c).
(** [std::getline] until the end of the stream. *)
Fixpoint getlines (l : list Z) : list (list Z) :=
  match l with
  | [] => []
  | c :: l' =>
      if c =? 10 then [] :: getlines l'
      else match getlines l' with [] => [[c]] | h :: t => (c :: h) :: t end
  end.
(** [line.back() == '\r'] dropped. *)
Definition chomp (line : list Z) : list Z := if ends_with [13] line then removelast line else line.

(** The value of the digits at the head of a string, and whether there are
    any. *)
Definition digit_value (c : Z) : Z := if isdigit c then c - 48 else tolower c - 87.
Fixpoint digits_value (base acc : Z) (any : bool) (l : list Z) : Z * bool :=
  match l with
  | c :: l' => if isxdigit c && (digit_value c <? base) then digits_value base (acc * base + digit_value c) true l' else (acc, any)
  | [] => (acc, any)
  end.
Fixpoint skip_space (l : list Z) : list Z :=
  match l with c :: l' => if isspace c then skip_space l' else l | [] => [] end.
Definition signed (l : list Z) : bool * list Z :=
  match l with c :: l' => if c =? 45 then (true, l') else if c =? 43 then (false, l') else (false, l) | [] => (false, []) end.
(** [std::stoull]: [None] is an exception. *)
Definition stoull (base : Z) (l : list Z) : option Z :=
  let '(neg, l) := signed (skip_space l) in
  let l := if (base =? 16) && (starts_with (cs "0x") l || starts_with (cs "0X") l) && isxdigit (zget l 2) then drop 2 l else l in
  let '(v, any) := digits_value base 0 false l in
  if negb any || (2 ^ 64 <=? v) then None else Some (if neg then u64 (- v) else v).
(** [std::atoi]: strtol cut to an int. *)
Definition atoi (l : list Z) : Z :=
  let '(neg, l) := signed (skip_space l) in
  let v := (digits_value 10 0 false l).1 in
  i32 (Z.max (- 2 ^ 63) (Z.min (2 ^ 63 - 1) (if neg then - v else v))).

(** ** Sizes *)

Definition parse_resolution (spec : list Z) : option (Z * Z) :=
  x ← find_pos (fun c => (c =? chr "x") || (c =? chr "X")) spec;
  if Nat.eqb x 0 || (length spec <=? x + 1)%nat then None else
  let w_str := take x spec in
  let h_str := drop (x + 1) spec in
  if negb (forallb isdigit w_str) || negb (forallb isdigit h_str) then None else
  w ← stoull 10 w_str; h ← stoull 10 h_str;
  if (w =? 0) || (h =? 0) || (0xFFFF <? w) || (0xFFFF <? h) then None else Some (w, h).
Definition CONSOLE_CELL_W : Z := 8.
Definition CONSOLE_CELL_H : Z := 16.
Definition parse_console_size (spec : list Z) : option (Z * Z) :=
  '(cols, rows) ← parse_resolution spec;
  if (cols <? 20) || (500 <? cols) || (rows <? 10) || (200 <? rows) then None
  else Some (u16 (cols * CONSOLE_CELL_W), u16 (rows * CONSOLE_CELL_H)).

(** ** The environment *)

Definition valid_env_key (key : list Z) : bool :=
  match key with
  | [] => false
  | c0 :: _ => (isalpha c0 || (c0 =? chr "_")) && forallb (fun c => isalnum c || (c =? chr "_")) key
  end.
(** The first entry with the key is replaced in place. *)
Fixpoint replace_env (prefix entry : list Z) (env : list (list Z)) : option (list (list Z)) :=
  match env with
  | [] => None
  | e :: env' => if starts_with prefix e then Some (entry :: env') else cons e <$> replace_env prefix entry env'
  end.
Definition add_env_entry (entry : list Z) (env : list (list Z)) : option (list (list Z)) :=
  eq ← find_pos (is_char (chr "=")) entry;
  let key := take eq entry in
  if negb (valid_env_key key) then None else
  Some (match replace_env (key ++ cs "=") entry env with Some env' => env' | None => env ++ [entry] end).
Fixpoint load_env_lines (lines : list (list Z)) (env : list (list Z)) : option (list (list Z)) :=
  match lines with
  | [] => Some env
  | line :: lines' =>
      let line := chomp line in
      match find_pos not_blank line with
      | None => load_env_lines lines' env
      | Some start =>
          let text := drop start line in
          if starts_with (cs "#") text then load_env_lines lines' env else
          env' ← add_env_entry text env; load_env_lines lines' env'
      end
  end.

(** ** Mount grants *)

Record mount_grant : Type := mk_grant { g_host : list Z; g_guest : list Z; g_mode : hostfs_mode }.
Inductive mount_error : Type :=
  | GuestNotAbsolute | GuestIsRoot | GuestForeign | MountMalformed | HostEmpty.

Definition valid_guest_path (guest : list Z) : option mount_error :=
  if negb (starts_with [slash] guest) then Some GuestNotAbsolute
  else if bool_decide (guest = [slash]) then Some GuestIsRoot
  else if existsb (is_char 92) guest || existsb (is_char 58) guest then Some GuestForeign
  else None.
Definition parse_mount_spec (spec : list Z) : mount_error + mount_grant :=
  match find_last_pos (is_char (chr "=")) spec with
  | None => inl MountMalformed
  | Some eq =>
      let host := take eq spec in
      let rest := drop (eq + 1) spec in
      let '(mode, guest) :=
        if ends_with (cs ":ro") rest then (HOSTFS_RO, take (length rest - 3) rest)
        else if ends_with (cs ":rw") rest then (HOSTFS_RW, take (length rest - 3) rest)
        else (HOSTFS_RO, rest) in
      if bool_decide (host = []) then inl HostEmpty else
      match valid_guest_path guest with
      | Some e => inl e
      | None => inr (mk_grant host guest mode)
      end
  end.
Definition guest_paths_overlap (a b : list Z) : bool :=
  if bool_decide (a = b) then true else
  let '(shorter, longer) := if (length a <? length b)%nat then (a, b) else (b, a) in
  starts_with shorter longer && bool_decide (longer !! length shorter = Some slash).

(** ** The options: the variables of main that configuration and command line
    set. *)

Record launch_opts : Type := mk_opts {
  env_entries : list (list Z); grants : list mount_grant; no_root : bool; root_override : list Z; bare_mode : bool;
  rom_override : list Z; rom_config : list Z; display_requested : bool; console_dump : bool; show_perf : bool;
  verbose : bool; profile_interval : option Z; jit_survey_enabled : bool; jit_enabled : bool;
  jit_check_enabled : bool; jit_report_requested : bool; jit_cache_mb : Z; jit_threshold : Z;
  profile_map : list (Z * list Z); pause_on_halt : bool; vsync : bool; fb_no_display : bool; fb_stop_on_claim : bool;
  display_scale : Z; refresh_hz : Z; fb_width : Z; fb_height : Z; console_width : Z; console_height : Z;
  input_source : list Z }.
Definition opts_eta (r : launch_opts) : launch_opts :=
  mk_opts (env_entries r) (grants r) (no_root r) (root_override r) (bare_mode r) (rom_override r) (rom_config r)
    (display_requested r) (console_dump r) (show_perf r) (verbose r) (profile_interval r)
    (jit_survey_enabled r) (jit_enabled r) (jit_check_enabled r) (jit_report_requested r) (jit_cache_mb r)
    (jit_threshold r) (profile_map r) (pause_on_halt r) (vsync r) (fb_no_display r) (fb_stop_on_claim r)
    (display_scale r) (refresh_hz r) (fb_width r) (fb_height r) (console_width r) (console_height r)
    (input_source r).
#[export] Instance set_env_entries : Setter env_entries := ltac:(mk_setter opts_eta).
#[export] Instance set_grants : Setter grants := ltac:(mk_setter opts_eta).
#[export] Instance set_no_root : Setter no_root := ltac:(mk_setter opts_eta).
#[export] Instance set_root_override : Setter root_override := ltac:(mk_setter opts_eta).
#[export] Instance set_bare_mode : Setter bare_mode := ltac:(mk_setter opts_eta).
#[export] Instance set_rom_override : Setter rom_override := ltac:(mk_setter opts_eta).
#[export] Instance set_rom_config : Setter rom_config := ltac:(mk_setter opts_eta).
#[export] Instance set_display_requested : Setter display_requested := ltac:(mk_setter opts_eta).
#[export] Instance set_console_dump : Setter console_dump := ltac:(mk_setter opts_eta).
#[export] Instance set_show_perf : Setter show_perf := ltac:(mk_setter opts_eta).
#[export] Instance set_verbose : Setter verbose := ltac:(mk_setter opts_eta).
#[export] Instance set_profile_interval : Setter profile_interval := ltac:(mk_setter opts_eta).
#[export] Instance set_jit_survey_enabled : Setter jit_survey_enabled := ltac:(mk_setter opts_eta).
#[export] Instance set_jit_enabled : Setter jit_enabled := ltac:(mk_setter opts_eta).
#[export] Instance set_jit_check_enabled : Setter jit_check_enabled := ltac:(mk_setter opts_eta).
#[export] Instance set_jit_report_requested : Setter jit_report_requested := ltac:(mk_setter opts_eta).
#[export] Instance set_jit_cache_mb : Setter jit_cache_mb := ltac:(mk_setter opts_eta).
#[export] Instance set_jit_threshold : Setter jit_threshold := ltac:(mk_setter opts_eta).
#[export] Instance set_profile_map : Setter profile_map := ltac:(mk_setter opts_eta).
#[export] Instance set_pause_on_halt : Setter pause_on_halt := ltac:(mk_setter opts_eta).
#[export] Instance set_vsync : Setter vsync := ltac:(mk_setter opts_eta).
#[export] Instance set_fb_no_display : Setter fb_no_display := ltac:(mk_setter opts_eta).
#[export] Instance set_fb_stop_on_claim : Setter fb_stop_on_claim := ltac:(mk_setter opts_eta).
#[export] Instance set_display_scale : Setter display_scale := ltac:(mk_setter opts_eta).
#[export] Instance set_refresh_hz : Setter refresh_hz := ltac:(mk_setter opts_eta).
#[export] Instance set_fb_width : Setter fb_width := ltac:(mk_setter opts_eta).
#[export] Instance set_fb_height : Setter fb_height := ltac:(mk_setter opts_eta).
#[export] Instance set_console_width : Setter console_width := ltac:(mk_setter opts_eta).
#[export] Instance set_console_height : Setter console_height := ltac:(mk_setter opts_eta).
#[export] Instance set_input_source : Setter input_source := ltac:(mk_setter opts_eta).
(** The initial values of main's variables in the console build; profiling is
    off until an interval is given. *)
Definition opts_init : launch_opts :=
  mk_opts [] [] false [] false [] [] false false false false None false true false false 0 0 [] false true false false
    3 60 320 200 640 400 [].

Class LaunchHost : Type := {
  lh_HOME : list Z;                            (* "" when not set *)
  lh_USERPROFILE : list Z;
  lh_argv0 : list Z;
  lh_read : list Z -> option (list Z);         (* an ifstream that opens, and its bytes *)
  lh_exists : list Z -> bool;
  lh_is_regular_file : list Z -> bool;
  lh_is_directory : list Z -> bool;
  lh_make_root : list Z -> bool;               (* the skeleton is created; is the root a directory now *)
  lh_anchor_open : hostfs_mount -> Z * Z       (* hostfs_backend_anchor_open: result, anchor *)
}.

Section Launcher.
Context `{LaunchHost}.

Fixpoint grants_overlap (l : list mount_grant) : bool :=
  match l with
  | [] => false
  | g :: l' => existsb (fun g' => guest_paths_overlap (g_guest g) (g_guest g')) l' || grants_overlap l'
  end.
Fixpoint open_anchors (l : list mount_grant) : option (list hostfs_mount) :=
  match l with
  | [] => Some []
  | g :: l' =>
      let m := mk_mount (g_guest g) (g_host g) (g_mode g) 0 in
      let '(rc, anchor) := lh_anchor_open m in
      if rc <? 0 then None else cons (mk_mount (g_guest g) (g_host g) (g_mode g) anchor) <$> open_anchors l'
  end.
Definition build_mount_table (grants : list mount_grant) : option (list hostfs_mount) :=
  if negb (forallb (fun g => lh_is_directory (g_host g)) grants) then None
  else if grants_overlap grants then None
  else open_anchors grants.

Definition resolve_home (override_path : list Z) : option (list Z) :=
  if negb (bool_decide (override_path = [])) then Some override_path else
  let h := if bool_decide (lh_HOME = []) then lh_USERPROFILE else lh_HOME in
  if bool_decide (h = []) then None else Some h.
Definition parse_config_bool (val : list Z) : option bool :=
  let v := tolower <$> val in
  if bool_decide (v = cs "true") || bool_decide (v = cs "1") || bool_decide (v = cs "yes") then Some true
  else if bool_decide (v = cs "false") || bool_decide (v = cs "0") || bool_decide (v = cs "no") then Some false
  else None.
(** The grants of tier 0 are those of the shared file, of tier 1 those of the
    per-binary file, of tier 2 those of the command line. *)
Definition tier_of (config_grant_count per_binary_grant_count i : nat) : nat :=
  if (i <? config_grant_count)%nat then 0 else if (i <? per_binary_grant_count)%nat then 1 else 2.
Definition shadowed (c0 c1 : nat) (grants : list mount_grant) (i : nat) (g : mount_grant) : bool :=
  existsb (fun jg : nat * mount_grant => (tier_of c0 c1 i <? tier_of c0 c1 (fst jg))%nat && bool_decide (g_guest (snd jg) = g_guest g))
          (imap pair grants).
Definition merge_tiers (c0 c1 : nat) (grants : list mount_grant) : list mount_grant :=
  omap (fun ig : nat * mount_grant => if shadowed c0 c1 grants (fst ig) (snd ig) then None else Some (snd ig)) (imap pair grants).

(** ** Configuration files *)

Definition home_grant (host : list Z) : mount_grant := mk_grant host (cs "/home/user") HOSTFS_RW.
(** The text between the outer blanks. *)
Definition trim_end (l : list Z) : list Z := match find_last_pos not_blank l with None => [] | Some e => take (e + 1) l end.
Definition trim (l : list Z) : list Z := match find_pos not_blank l with None => [] | Some b => trim_end (drop b l) end.
Definition with_bool (val : list Z) (o : launch_opts) (f : bool -> launch_opts) : option launch_opts :=
  Some (match parse_config_bool val with Some b => f b | None => o end).

(** One key: a bad value of any but the mounts is ignored; [None] aborts. *)
Definition config_key (key val : list Z) (o : launch_opts) : option launch_opts :=
  let key_is (k : string) : bool := bool_decide (key = cs k) in
  if key_is "display-scale" then
    let s := atoi val in Some (if (s <? 1) || (16 <? s) then o else o <| display_scale := s |>)
  else if key_is "refresh-hz" then
    let hz := atoi val in Some (if (hz <? 1) || (1000 <? hz) then o else o <| refresh_hz := hz |>)
  else if key_is "resolution" then
    Some (match parse_resolution val with Some (w, h) => o <| fb_width := w |> <| fb_height := h |> | None => o end)
  else if key_is "console-size" then
    Some (match parse_console_size val with Some (w, h) => o <| console_width := w |> <| console_height := h |> | None => o end)
  else if key_is "root" then Some (if bool_decide (val = []) then o else o <| root_override := val |>)
  else if key_is "rom" then Some (if bool_decide (val = []) then o else o <| rom_config := val |>)
  else if key_is "input" then
    Some (if bool_decide (val = cs "sys") then o <| input_source := [] |>
          else if bool_decide (val = cs "keyboard") || bool_decide (val = cs "console") then o <| input_source := val |> else o)
  else if key_is "show-perf" then with_bool val o (fun b => o <| show_perf := b |>)
  else if key_is "jit" then with_bool val o (fun b => o <| jit_enabled := b |>)
  else if key_is "pause-on-halt" then with_bool val o (fun b => o <| pause_on_halt := b |>)
  else if key_is "vsync" then with_bool val o (fun b => o <| vsync := b |>)
  else if key_is "display" then with_bool val o (fun b => o <| display_requested := b |>)
  else if key_is "no-root" then with_bool val o (fun b => o <| no_root := b |>)
  else if key_is "mount" then
    match parse_mount_spec val with inl _ => None | inr g => Some (o <| grants := grants o ++ [g] |>) end
  else if key_is "mount-home" then
    match bool_decide (val = []), parse_config_bool val with
    | true, _ | false, Some true => home ← resolve_home []; Some (o <| grants := grants o ++ [home_grant home] |>)
    | false, Some false => Some o
    | false, None => Some (o <| grants := grants o ++ [home_grant val] |>)
    end
  else Some o.
Definition config_line (line : list Z) (o : launch_opts) : option launch_opts :=
  let line := chomp line in
  match find_pos not_blank line with
  | None => Some o
  | Some start =>
      let text := drop start line in
      if starts_with (cs "#") text then Some o else
      match find_pos (is_char (chr "=")) text with
      | None => Some o
      | Some eq => config_key (trim_end (take eq text)) (trim (drop (eq + 1) text)) o
      end
  end.
Fixpoint config_lines (lines : list (list Z)) (o : launch_opts) : option launch_opts :=
  match lines with
  | [] => Some o
  | line :: lines' => o' ← config_line line o; config_lines lines' o'
  end.
Definition load_config_file (path : list Z) (o : launch_opts) : option launch_opts :=
  match lh_read path with None => Some o | Some text => config_lines (getlines text) o end.
Definition load_env_file (path : list Z) (env : list (list Z)) : option (list (list Z)) :=
  text ← lh_read path; load_env_lines (getlines text) env.

(** [base / name]: one separator between them. *)
Definition path_join (base name : list Z) : list Z := if ends_with [slash] base then base ++ name else base ++ [slash] ++ name.
Definition PER_BINARY_CONFIG_NAME : list Z := cs "maize.config".

(** The files under ~/.maize: the options and the two counts that separate
    the tiers of grants.  The console build then drops the input source. *)
Definition load_defaults (o : launch_opts) : option (launch_opts * nat * nat) :=
  match resolve_home [] with
  | None => Some (o <| input_source := [] |>, O, O)
  | Some cfg_home =>
      let base := path_join cfg_home (cs ".maize") in
      o ← load_config_file (path_join base (cs "config")) o;
      let config_grant_count := length (grants o) in
      o ← load_config_file (path_join base PER_BINARY_CONFIG_NAME) o;
      let per_binary_grant_count := length (grants o) in
      let env_path := path_join base (cs "env") in
      let o := if lh_exists env_path then
                 match load_env_file env_path [] with
                 | Some defaults => o <| env_entries := env_entries o ++ defaults |>
                 | None => o
                 end
               else o in
      Some (o <| input_source := [] |>, config_grant_count, per_binary_grant_count)
  end.

(** ** The command line *)

(** Help was printed, a refusal with status 2, or a loader that reads outside
    the image. *)
Inductive stop : Type := Help | Refused (why : string) | OutOfImage.
Inductive parsed : Type :=
  | PStop (w : stop)
  | PMore (o : launch_opts) (rest : list (list Z))     (* continue *)
  | PImage (o : launch_opts) (rest : list (list Z)).   (* break: what is left is the image and its arguments *)

(** [arg == name || arg.rfind(name + "=", 0) == 0] *)
Definition is_option (name : string) (arg : list Z) : bool := bool_decide (arg = cs name) || starts_with (cs name ++ cs "=") arg.
(** The value after "=", or the next argument. *)
Definition take_value (name : string) (arg : list Z) (rest : list (list Z)) : option (list Z * list (list Z)) :=
  if starts_with (cs name ++ cs "=") arg then Some (drop (length (cs name) + 1) arg, rest)
  else match rest with v :: rest' => Some (v, rest') | [] => None end.
(** The variant that looks at the length: an empty value after "=" counts as
    none. *)
Definition take_long_value (name : string) (arg : list Z) (rest : list (list Z)) : option (list Z * list (list Z)) :=
  if (length (cs name) + 1 <? length arg)%nat then Some (drop (length (cs name) + 1) arg, rest)
  else match rest with v :: rest' => Some (v, rest') | [] => None end.
Definition or_refuse {A} (x : option A) (why : string) (f : A -> parsed) : parsed :=
  match x with Some a => f a | None => PStop (Refused why) end.

Fixpoint bytes_le (a b : list Z) : bool :=
  match a, b with
  | [], _ => true
  | _, [] => false
  | x :: a', y :: b' => if x <? y then true else if y <? x then false else bytes_le a' b'
  end.
Definition row_le (r r' : Z * list Z) : bool := if fst r <? fst r' then true else if fst r' <? fst r then false else bytes_le (snd r) (snd r').
Fixpoint insert_row (r : Z * list Z) (l : list (Z * list Z)) : list (Z * list Z) :=
  match l with [] => [r] | r' :: l' => if row_le r r' then r :: l else r' :: insert_row r l' end.
Definition strip_eol (l : list Z) : list Z :=
  match find_last_pos (fun c => negb ((c =? 13) || (c =? 10))) l with None => [] | Some e => take (e + 1) l end.
Definition map_row (mline : list Z) : option (Z * list Z) :=
  sp ← find_pos (is_char 32) mline;
  if Nat.eqb sp 0 then None else
  a ← stoull 16 (take sp mline);
  let nm := strip_eol (drop (sp + 1) mline) in
  if bool_decide (nm = []) then None else Some (a, nm).
Definition load_profile_map (text : list Z) (l : list (Z * list Z)) : list (Z * list Z) :=
  foldr insert_row [] (l ++ omap map_row (getlines text)).

(** The environment. *)
Definition option_env (arg : list Z) (rest : list (list Z)) (o : launch_opts) : option parsed :=
  let arg_is (k : string) : bool := bool_decide (arg = cs k) in
  if arg_is "-e" || arg_is "--env" then
    Some (match rest with
    | [] => PStop (Refused "requires a KEY=VAL argument")
    | v :: rest' => or_refuse (add_env_entry v (env_entries o)) "environment entry" (fun e => PMore (o <| env_entries := e |>) rest')
    end)
  else if starts_with (cs "--env=") arg then
    Some (or_refuse (add_env_entry (drop 6 arg) (env_entries o)) "environment entry" (fun e => PMore (o <| env_entries := e |>) rest))
  else if arg_is "--env-file" then
    Some (match rest with
    | [] => PStop (Refused "requires a <path> argument")
    | v :: rest' => or_refuse (load_env_file v (env_entries o)) "env-file" (fun e => PMore (o <| env_entries := e |>) rest')
    end)
  else if starts_with (cs "--env-file=") arg then
    Some (or_refuse (load_env_file (drop 11 arg) (env_entries o)) "env-file" (fun e => PMore (o <| env_entries := e |>) rest))
  else None.
(** Mount grants. *)
Definition option_mount (arg : list Z) (rest : list (list Z)) (o : launch_opts) : option parsed :=
  let arg_is (k : string) : bool := bool_decide (arg = cs k) in
  if arg_is "--mount" then
    Some (match rest with
    | [] => PStop (Refused "requires a <host-path>=<guest-path>[:ro|:rw] argument")
    | v :: rest' => match parse_mount_spec v with inl _ => PStop (Refused "mount") | inr g => PMore (o <| grants := grants o ++ [g] |>) rest' end
    end)
  else if starts_with (cs "--mount=") arg then
    Some (match parse_mount_spec (drop 8 arg) with inl _ => PStop (Refused "mount") | inr g => PMore (o <| grants := grants o ++ [g] |>) rest end)
  else if is_option "--mount-home" arg then
    Some (let override_path := if (12 <? length arg)%nat then drop 13 arg else [] in
    or_refuse (resolve_home override_path) "no host home found" (fun home => PMore (o <| grants := grants o ++ [home_grant home] |>) rest))
  else None.
(** The sandbox root and the image. *)
Definition option_image (arg : list Z) (rest : list (list Z)) (o : launch_opts) : option parsed :=
  let arg_is (k : string) : bool := bool_decide (arg = cs k) in
  if is_option "--root" arg then
    Some (or_refuse (take_value "--root" arg rest) "requires a <host-path> argument" (fun '(v, rest') =>
      if bool_decide (v = []) then PStop (Refused "requires a non-empty host path") else PMore (o <| root_override := v |>) rest'))
  else if arg_is "--no-root" then Some (PMore (o <| no_root := true |>) rest)
  else if arg_is "--bare" then Some (PMore (o <| bare_mode := true |>) rest)
  else if is_option "--rom" arg then
    Some (or_refuse (take_value "--rom" arg rest) "requires a <path> argument" (fun '(v, rest') =>
      if bool_decide (v = []) then PStop (Refused "requires a non-empty ROM path") else PMore (o <| rom_override := v |>) rest'))
  else None.
(** Display, counters and the compiler. *)
Definition option_report (arg : list Z) (rest : list (list Z)) (o : launch_opts) : option parsed :=
  let arg_is (k : string) : bool := bool_decide (arg = cs k) in
  if arg_is "--display" then Some (PMore (o <| display_requested := true |>) rest)
  else if arg_is "--console-dump" then Some (PMore (o <| console_dump := true |>) rest)
  else if arg_is "--show-perf" then Some (PMore (o <| show_perf := true |>) rest)
  else if is_option "--profile" arg then
    Some (PMore (o <| profile_interval := Some (if (10 <? length arg)%nat then default 4096 (stoull 10 (drop 10 arg)) else 4096) |>) rest)
  else if arg_is "--jit-survey" then Some (PMore (o <| jit_survey_enabled := true |>) rest)
  else if arg_is "--no-jit" then Some (PMore (o <| jit_enabled := false |>) rest)
  else if arg_is "--jit" then Some (PMore (o <| jit_enabled := true |>) rest)
  else if arg_is "--jit-check" then Some (PMore (o <| jit_enabled := true |> <| jit_check_enabled := true |>) rest)
  else if arg_is "--jit-report" then Some (PMore (o <| jit_report_requested := true |>) rest)
  else if arg_is "--verbose" then Some (PMore (o <| verbose := true |>) rest)
  else None.
(** Sizes of the compiler's cache, the profile map, the framebuffer. *)
Definition option_tuning (arg : list Z) (rest : list (list Z)) (o : launch_opts) : option parsed :=
  let arg_is (k : string) : bool := bool_decide (arg = cs k) in
  if is_option "--jit-cache-mb" arg then
    Some (or_refuse (take_long_value "--jit-cache-mb" arg rest) "requires a value" (fun '(v, rest') =>
      let mb := default 0 (stoull 10 v) in
      if (mb <? 1) || (4096 <? mb) then PStop (Refused "must be between 1 and 4096") else PMore (o <| jit_cache_mb := mb |>) rest'))
  else if is_option "--jit-threshold" arg then
    Some (or_refuse (take_long_value "--jit-threshold" arg rest) "requires a value" (fun '(v, rest') =>
      let th := default 0 (stoull 10 v) in
      if th <? 1 then PStop (Refused "must be at least 1") else PMore (o <| jit_threshold := th |>) rest'))
  else if arg_is "--profile-map" && negb (bool_decide (rest = [])) then
    Some (match rest with
    | v :: rest' => or_refuse (lh_read v) "cannot open profile map" (fun text => PMore (o <| profile_map := load_profile_map text (profile_map o) |>) rest')
    | [] => PMore o rest
    end)
  else if arg_is "--fb-no-display" then Some (PMore (o <| fb_no_display := true |>) rest)
  else if arg_is "--fb-stop-on-claim" then Some (PMore (o <| fb_stop_on_claim := true |>) rest)
  else if arg_is "--pause-on-halt" || arg_is "--no-pause-on-halt" then Some (PMore (o <| pause_on_halt := arg_is "--pause-on-halt" |>) rest)
  else if arg_is "--vsync" || arg_is "--no-vsync" then Some (PMore (o <| vsync := arg_is "--vsync" |>) rest)
  else None.
(** The window. *)
Definition option_window (arg : list Z) (rest : list (list Z)) (o : launch_opts) : option parsed :=
  let arg_is (k : string) : bool := bool_decide (arg = cs k) in
  if is_option "--display-scale" arg then
    Some (or_refuse (take_long_value "--display-scale" arg rest) "requires a value" (fun '(v, rest') =>
      let s := atoi v in
      if (s <? 1) || (16 <? s) then PStop (Refused "must be between 1 and 16") else PMore (o <| display_scale := s |>) rest'))
  else if is_option "--refresh-hz" arg then
    Some (or_refuse (take_value "--refresh-hz" arg rest) "requires a value" (fun '(v, rest') =>
      let hz := atoi v in
      if (hz <? 1) || (1000 <? hz) then PStop (Refused "must be between 1 and 1000") else PMore (o <| refresh_hz := hz |>) rest'))
  else if is_option "--resolution" arg then
    Some (or_refuse (take_value "--resolution" arg rest) "requires a <width>x<height> argument" (fun '(v, rest') =>
      or_refuse (parse_resolution v) "invalid --resolution" (fun '(w, h) => PMore (o <| fb_width := w |> <| fb_height := h |>) rest')))
  else None.
(** The console and the input. *)
Definition option_console (arg : list Z) (rest : list (list Z)) (o : launch_opts) : option parsed :=
  let arg_is (k : string) : bool := bool_decide (arg = cs k) in
  if is_option "--console-size" arg then
    Some (or_refuse (take_value "--console-size" arg rest) "requires a <cols>x<rows> argument" (fun '(v, rest') =>
      or_refuse (parse_console_size v) "invalid --console-size" (fun '(w, h) => PMore (o <| console_width := w |> <| console_height := h |>) rest')))
  else if is_option "--input" arg then
    Some (or_refuse (take_value "--input" arg rest) "requires a source argument" (fun '(v, rest') =>
      if bool_decide (v = cs "sys") then PMore (o <| input_source := [] |>) rest'
      else if bool_decide (v = cs "keyboard") || bool_decide (v = cs "console") then PMore (o <| input_source := v |>) rest'
      else PStop (Refused "invalid --input")))
  else None.
Fixpoint first_match (l : list (option parsed)) (d : parsed) : parsed :=
  match l with [] => d | Some p :: _ => p | None :: l' => first_match l' d end.
Definition option_step (arg : list Z) (rest : list (list Z)) (o : launch_opts) : parsed :=
  let arg_is (k : string) : bool := bool_decide (arg = cs k) in
  if arg_is "-h" || arg_is "--help" then PStop Help
  else if arg_is "--" then PImage o rest
  else first_match ((fun f => f arg rest o) <$> [option_env; option_mount; option_image; option_report; option_tuning; option_window; option_console])
    (if starts_with (cs "-") arg then PStop (Refused "unknown option") else PImage o (arg :: rest)).

(** The loop: each turn takes at least one argument, so [length args] turns
    are enough. *)
Fixpoint parse_options (fuel : nat) (args : list (list Z)) (o : launch_opts) : stop + (launch_opts * list (list Z)) :=
  match fuel, args with
  | S fuel', arg :: rest =>
      match option_step arg rest o with
      | PMore o' rest' => parse_options fuel' rest' o'
      | PImage o' rest' => inr (o', rest')
      | PStop w => inl w
      end
  | _, _ => inr (o, args)
  end.

(** ** The image *)

(** [std::filesystem::path(given).extension().empty()] *)
Definition no_extension (given : list Z) : bool :=
  let name := match find_last_pos (is_char slash) given with Some i => drop (i + 1) given | None => given end in
  if bool_decide (name = [dot]) || bool_decide (name = [dot; dot]) then true else
  match find_last_pos (is_char dot) name with None | Some O => true | Some _ => false end.
Fixpoint first_candidate (l : list (list Z)) : option (list Z) :=
  match l with
  | [] => None
  | cand :: l' =>
      if negb (lh_exists cand) then first_candidate l'
      else if lh_is_regular_file cand && bool_decide (is_Some (lh_read cand)) then Some cand else None
  end.
Definition resolve_image_path (given : list Z) : option (list Z) :=
  first_candidate (given :: if no_extension given then [given ++ cs ".mzx"; given ++ cs ".mzb"] else []).
Definition quesos_rom_beside_argv0 : list Z :=
  match find_last_pos (fun c => is_char slash c || is_char 92 c) lh_argv0 with
  | None => cs "quesos.mzx"
  | Some i => take (i + 1) lh_argv0 ++ cs "quesos.mzx"
  end.

(** What loading changes: memory, the high-water mark, RP. *)
Record loaded : Type := mk_loaded { ld_mm : memory_module; image_end : Z; ld_rp : Z }.
Fixpoint write_bytes_at (m : memory_module) (a : Z) (l : list Z) : memory_module :=
  match l with [] => m | c :: l' => write_bytes_at (mm_write_byte m a c) (u64 (a + 1)) l' end.
Fixpoint zero_fill (m : memory_module) (a : Z) (n : nat) : memory_module :=
  match n with O => m | S n' => zero_fill (mm_write_byte m a 0) (u64 (a + 1)) n' end.

(** The segment at entry [i] of the table: [None] is a read outside the file,
    [Some None] the diagnostic. *)
Definition load_one_segment (buf : list Z) (shoff i : Z) (l : loaded) : option (option loaded) :=
  let size := Z.of_nat (length buf) in
  let so := u64 (shoff + i * SEGMENT_SIZE) in
  if size <? u64 (so + SEGMENT_SIZE) then Some None else
  vaddr ← get_u64 buf (u64 (so + 8)); file_off ← get_u64 buf (u64 (so + 16));
  mem_size ← get_u64 buf (u64 (so + 24)); file_size ← get_u64 buf (u64 (so + 32));
  if size <? u64 (file_off + file_size) then Some None else
  bytes ← slice buf file_off file_size;
  let m := write_bytes_at (ld_mm l) vaddr bytes in
  let m := zero_fill m (u64 (vaddr + file_size)) (Z.to_nat (mem_size - file_size)) in
  let seg_end := u64 (vaddr + mem_size) in
  Some (Some (mk_loaded m (if image_end l <? seg_end then seg_end else image_end l) (ld_rp l))).
(** The table from entry [i] on; [false] is the diagnostic. *)
Fixpoint load_all_segments (buf : list Z) (shoff i : Z) (n : nat) (l : loaded) : option (loaded * bool) :=
  match n with
  | O => Some (l, true)
  | S n' =>
      r ← load_one_segment buf shoff i l;
      match r with None => Some (l, false) | Some l' => load_all_segments buf shoff (i + 1) n' l' end
  end.
(** The result of the C function, and what it has loaded; a malformed
    executable returns true with the entry point not set. *)
Definition load_mzx (buf : list Z) (l : loaded) : option (bool * loaded) :=
  if Z.of_nat (length buf) <? MZX_HEADER_SIZE then Some (false, l) else
  if negb (bool_decide (take 4 buf = [MZX_MAGIC0; MZX_MAGIC1; MZX_MAGIC2; MZX_VERSION])) then Some (false, l) else
  seg_count ← get_u16 buf 6; entry ← get_u64 buf 8; shoff ← get_u64 buf 16;
  '(l', ok) ← load_all_segments buf shoff 0 (Z.to_nat seg_count) l;
  Some (true, if ok : bool then mk_loaded (ld_mm l') (image_end l') entry else l').
(** A file that is no executable is loaded at 0. *)
Definition load_image (buf : list Z) (m : memory_module) : option loaded :=
  '(is_mzx, l) ← load_mzx buf (mk_loaded m 0 0);
  Some (if is_mzx : bool then l else mk_loaded (write_bytes_at (ld_mm l) 0 buf) (Z.of_nat (length buf)) (ld_rp l)).

(** ** The process-start block *)

Definition TOP : Z := 0xFFFFFFFFFFFFFFF8.
Definition blob_len (l : list (list Z)) : Z := Z.of_nat (sum_list_with (fun s => S (length s)) l).
(** The strings from [cur] on, each with its NUL: memory, the next free
    address, the addresses. *)
Fixpoint pack_strings (m : memory_module) (cur : Z) (l : list (list Z)) : memory_module * Z * list Z :=
  match l with
  | [] => (m, cur, [])
  | s :: l' =>
      let m := write_bytes_at m cur (s ++ [0]) in
      let '(m', cur', addrs) := pack_strings m (u64 (cur + Z.of_nat (length s) + 1)) l' in
      (m', cur', cur :: addrs)
  end.
Fixpoint write_words (m : memory_module) (p : Z) (l : list Z) : memory_module :=
  match l with [] => m | w :: l' => write_words (mm_write_word m p w) (u64 (p + 8)) l' end.
Definition build_process_start_block (guest_argv guest_envp : list (list Z)) (m : memory_module) : memory_module * Z :=
  let string_base := u64 (TOP - (blob_len guest_argv + blob_len guest_envp)) in
  let '(m, cur, argv_addr) := pack_strings m string_base guest_argv in
  let '(m, _, envp_addr) := pack_strings m cur guest_envp in
  let argc_n := Z.of_nat (length guest_argv) in
  let ptr_block_size := u64 (8 * (1 + (argc_n + 1) + (Z.of_nat (length guest_envp) + 1))) in
  let rs := clr (u64 (string_base - ptr_block_size)) 7 in
  (write_words m rs (argc_n :: argv_addr ++ [0] ++ envp_addr ++ [0]), rs).

(** ** The launch *)

Record launch : Type := mk_launch {
  la_opts : launch_opts;        (* after the options have been checked against each other *)
  la_table : hostfs_table;
  la_argv : list (list Z);
  la_image : list Z;            (* the file that is read *)
  la_mem : loaded;
  la_rs : Z }.

(** The sandbox root: the grants with it, and the working directory. *)
Definition add_root (o : launch_opts) (l : list mount_grant) : option (list mount_grant * list Z) :=
  if no_root o then Some (l, [slash]) else
  match (if bool_decide (root_override o = []) then (fun home => path_join (path_join home (cs ".maize")) (cs "rootfs")) <$> resolve_home []
         else Some (root_override o)) with
  | None => Some (l, [slash])
  | Some root => if lh_make_root root then Some (l ++ [mk_grant root [slash] HOSTFS_RW], cs "/home/user") else None
  end.
(** The checks between options: the tier that runs. *)
Definition check_jit (o : launch_opts) : option launch_opts :=
  if jit_check_enabled o && negb (jit_enabled o) then None
  else if jit_enabled o && jit_survey_enabled o then None
  else if jit_enabled o && bool_decide (is_Some (profile_interval o)) then Some (o <| jit_enabled := false |> <| jit_check_enabled := false |>)
  else Some o.
Definition rom_source (o : launch_opts) : list Z :=
  if negb (bool_decide (rom_override o = [])) then rom_override o
  else if negb (bool_decide (rom_config o = [])) then rom_config o
  else quesos_rom_beside_argv0.
Definition boot_rom (o : launch_opts) : option (list Z) := if bare_mode o then Some [] else resolve_image_path (rom_source o).
(** The guest's arguments and the file that is loaded. *)
Definition select_image (o : launch_opts) (rom_resolved : list Z) (rest : list (list Z)) : option (list (list Z) * list Z) :=
  if bare_mode o then pair rest <$> resolve_image_path (hd [] rest) else Some (rom_resolved :: rest, rom_resolved).
(** [args] is argv from 1 on; the memory is that of a machine switched on. *)
Definition main (args : list (list Z)) : stop + launch :=
  let refuse {A} (why : string) (x : option A) (f : A -> stop + launch) : stop + launch :=
    match x with Some a => f a | None => inl (Refused why) end in
  refuse "configuration" (load_defaults opts_init) (fun '(o, c0, c1) =>
  match parse_options (length args) args o with
  | inl w => inl w
  | inr (o, rest) =>
      if bare_mode o && negb (bool_decide (rom_override o = [])) then inl (Refused "--rom and --bare are mutually exclusive") else
      if bare_mode o && bool_decide (rest = []) then inl (Refused "usage") else
      refuse "no boot ROM found" (boot_rom o) (fun rom_resolved =>
      refuse "--jit" (check_jit o) (fun o =>
      refuse "cannot create the sandbox root" (add_root o (merge_tiers c0 c1 (grants o))) (fun '(gs, cwd) =>
      refuse "mounts" (build_mount_table gs) (fun mts =>
      refuse "cannot open image" (select_image o rom_resolved rest) (fun '(guest_argv, image) =>
      match load_image (default [] (lh_read image)) mm_reset with
      | None => inl OutOfImage
      | Some l =>
          let '(m, rs) := build_process_start_block guest_argv (env_entries o) (ld_mm l) in
          inr (mk_launch o (mk_table mts cwd) guest_argv image (mk_loaded m (image_end l) (ld_rp l)) rs)
      end)))))
  end).
End Launcher.
