(* ===== verification/LauncherProps.v ===== *)
(** * What the launcher hands to the machine

    The process-start block reads back as the arguments and the environment;
    an executable of the linker is loaded as the linker laid it out; the
    environment keeps one entry per key, the last; the mount table holds the
    grants of the highest tier, and the guest stays inside them. *)
From Stdlib Require Import ZArith Lia Bool String.
From stdpp Require Import base list numbers strings gmap sorting.
From S2P Require Import Prelude State Memory Support MemFacts Paths MzObj V2AsmExpr Mzld ObjProps MzldLink MzldProps V1Memory HostFs HostFsProps Launcher.

(** ** Bytes and words in the machine's memory *)

Definition holds (f : mem) (a : Z) (l : list Z) : Prop := forall k c, l !! k = Some c -> f (a + Z.of_nat k) = c.
Definition unchanged (f f' : mem) (lo hi : Z) : Prop := forall x, 0 <= x < 2 ^ 64 -> ~ lo <= x < hi -> f' x = f x.
Definition bytes (l : list Z) : Prop := Forall (fun c => 0 <= c < 256) l.

Lemma holds_unchanged f f' a l lo hi : holds f a l -> unchanged f f' lo hi -> 0 <= a -> a + Z.of_nat (length l) <= 2 ^ 64 ->
  a + Z.of_nat (length l) <= lo \/ hi <= a -> holds f' a l.
Proof. intros Hh Hu Ha Hl Hd k c Hk. pose proof (lookup_lt_Some _ _ _ Hk). rewrite Hu by lia. by apply Hh. Qed.
Lemma unchanged_trans f f' f'' lo hi lo' hi' lo0 hi0 : unchanged f f' lo hi -> unchanged f' f'' lo' hi' ->
  lo0 <= lo -> lo0 <= lo' -> hi <= hi0 -> hi' <= hi0 -> unchanged f f'' lo0 hi0.
Proof. intros H1 H2 ? ? ? ? x Hx Hn. rewrite H2 by lia. apply H1; lia. Qed.
Lemma write_byte_spec m a c : mm_ok m -> 0 <= a < 2 ^ 64 -> 0 <= c < 256 ->
  mm_ok (mm_write_byte m a c) /\ flat (mm_write_byte m a c) a = c /\ unchanged (flat m) (flat (mm_write_byte m a c)) a (a + 1).
Proof.
  intros Hm Ha Hc. destruct (mm_write_byte_spec m a c Hm Ha) as [Hok Hf]. split; [done|].
  assert (Hs : forall x, 0 <= x < 2 ^ 64 -> flat (mm_write_byte m a c) x = store 1 (flat m) a c x)
    by (intros x Hx; rewrite Hf by done; apply phys_store_flat; lia).
  split; [|intros x Hx Hn]; rewrite Hs by done; unfold store, in_range.
  - rewrite Z.sub_diag. destruct (Z.leb_spec a a), (Z.ltb_spec a (a + 1)); try lia. cbn. by rewrite Z.div_1_r, Z.mod_small.
  - destruct (Z.leb_spec a x), (Z.ltb_spec x (a + 1)); try done. lia.
Qed.
Lemma write_bytes_at_spec l : forall m a, mm_ok m -> 0 <= a -> a + Z.of_nat (length l) <= 2 ^ 64 -> bytes l ->
  let m' := write_bytes_at m a l in mm_ok m' /\ holds (flat m') a l /\ unchanged (flat m) (flat m') a (a + Z.of_nat (length l)).
Proof.
  induction l as [|c l IH]; intros m a Hm Ha Hl Hb; cbn [write_bytes_at]; [split; [done|]; split; [by intros k c ?|by intros x]|].
  apply Forall_cons_1 in Hb as [Hc Hb]. cbn [length] in Hl. destruct (write_byte_spec m a c Hm ltac:(lia) Hc) as (Hm1 & Hv & Hu).
  destruct l as [|c' l'].
  { cbn. split; [done|]. split; [|done]. intros [|k] c0 Hk; [|done]. injection Hk as <-. by rewrite Z.add_0_r. }
  rewrite u64_small by (cbn [length] in Hl; lia). destruct (IH _ (a + 1) Hm1 ltac:(lia) ltac:(lia) Hb) as (Hm2 & Hh & Hu2). split; [done|]. split.
  - intros [|k] c0 Hk.
    + injection Hk as <-. rewrite Z.add_0_r, Hu2 by lia. done.
    + replace (a + Z.of_nat (S k)) with (a + 1 + Z.of_nat k) by lia. by apply Hh.
  - cbn [length] in *. eapply unchanged_trans; [exact Hu|exact Hu2|lia..].
Qed.
Lemma zero_fill_spec n : forall m a, mm_ok m -> 0 <= a -> a + Z.of_nat n <= 2 ^ 64 ->
  let m' := zero_fill m a n in mm_ok m' /\ (forall x, a <= x < a + Z.of_nat n -> flat m' x = 0) /\ unchanged (flat m) (flat m') a (a + Z.of_nat n).
Proof.
  induction n as [|n IH]; intros m a Hm Ha Hl; cbn [zero_fill]; [split; [done|]; split; [lia|by intros x]|].
  destruct (write_byte_spec m a 0 Hm ltac:(lia) ltac:(lia)) as (Hm1 & Hv & Hu). destruct n as [|n'].
  { cbn. split; [done|]. split; [|done]. intros x Hx. by replace x with a by lia. }
  rewrite u64_small by lia. destruct (IH _ (a + 1) Hm1 ltac:(lia) ltac:(lia)) as (Hm2 & Hz & Hu2). split; [done|]. split.
  - intros x Hx. destruct (Z.eq_dec x a) as [->|]; [rewrite Hu2 by lia; done|apply Hz; lia].
  - eapply unchanged_trans; [exact Hu|exact Hu2|lia..].
Qed.
Lemma write_words_spec l : forall m p, mm_ok m -> 0 <= p -> p + 8 * Z.of_nat (length l) <= 2 ^ 64 -> Forall (fun w => 0 <= w < 2 ^ 64) l ->
  let m' := write_words m p l in mm_ok m' /\ (forall k w, l !! k = Some w -> load 8 (flat m') (p + 8 * Z.of_nat k) = w) /\
  unchanged (flat m) (flat m') p (p + 8 * Z.of_nat (length l)).
Proof.
  induction l as [|w l IH]; intros m p Hm Hp Hl Hw; cbn [write_words]; [split; [done|]; split; [by intros k c ?|by intros x]|].
  apply Forall_cons_1 in Hw as [Hv Hw]. cbn [length] in Hl. unfold mm_write_word.
  destruct (mm_write_bytes_spec m p (u64 w) 8 Hm ltac:(lia) ltac:(lia)) as [Hm1 Hf]. rewrite u64_small in Hm1, Hf by done. rewrite u64_small by done.
  assert (Hs : forall x, 0 <= x < 2 ^ 64 -> flat (mm_write_bytes m p w 8) x = store 8 (flat m) p w x)
    by (intros x Hx; rewrite Hf by done; apply phys_store_flat; lia).
  assert (Hu : unchanged (flat m) (flat (mm_write_bytes m p w 8)) p (p + 8)).
  { intros x Hx Hn. rewrite Hs by done. unfold store, in_range. destruct (Z.leb_spec p x), (Z.ltb_spec x (p + 8)); try done. lia. }
  assert (Hr : load 8 (flat (mm_write_bytes m p w 8)) p = w).
  { rewrite (load_ext 8 _ (store 8 (flat m) p w)) by (intros x Hx; apply Hs; lia). etrans; [apply (load_store_same 8)|]. by apply Z.mod_small. }
  destruct l as [|w' l'].
  { cbn. split; [done|]. split; [|done]. intros [|k] w0 Hk; [|done]. injection Hk as <-. by rewrite Z.add_0_r. }
  rewrite u64_small by (cbn [length] in Hl; lia). destruct (IH _ (p + 8) Hm1 ltac:(lia) ltac:(lia) Hw) as (Hm2 & Hh & Hu2). split; [done|]. split.
  - intros [|k] w0 Hk.
    + injection Hk as <-. rewrite Z.add_0_r. rewrite (load_ext 8 _ (flat (mm_write_bytes m p w 8))); [done|]. intros x Hx. apply Hu2; lia.
    + replace (p + 8 * Z.of_nat (S k)) with (p + 8 + 8 * Z.of_nat k) by lia. by apply Hh.
  - cbn [length] in *. eapply unchanged_trans; [exact Hu|exact Hu2|lia..].
Qed.

(** ** The process-start block *)

(** The C string at an address. *)
Definition cstring (f : mem) (a : Z) (s : list Z) : Prop := holds f a (s ++ [0]) /\ 0 ∉ s.
(** A vector of pointers to strings that ends in NULL. *)
Definition vector_at (f : mem) (p : Z) (l : list (list Z)) : Prop :=
  (forall k s, l !! k = Some s -> cstring f (load 8 f (p + 8 * Z.of_nat k)) s) /\ load 8 f (p + 8 * Z.of_nat (length l)) = 0.
Definition guest_string (s : list Z) : Prop := Forall (fun c => 1 <= c < 256) s.

Lemma guest_string_bytes s : guest_string s -> bytes (s ++ [0]) /\ 0 ∉ s.
Proof.
  intros Hs. split.
  - apply Forall_app. split; [|by repeat constructor]. eapply Forall_impl; [exact Hs|]. intros c Hc. cbn in Hc. lia.
  - intros H0. unfold guest_string in Hs. rewrite list.Forall_forall in Hs. specialize (Hs 0 H0). lia.
Qed.
Lemma blob_len_cons s l : blob_len (s :: l) = Z.of_nat (length s) + 1 + blob_len l.
Proof. unfold blob_len. cbn [sum_list_with]. lia. Qed.
Lemma blob_len_pos l : 0 <= blob_len l.
Proof. unfold blob_len. lia. Qed.
Lemma pack_strings_spec l : forall m cur, mm_ok m -> 0 <= cur -> cur + blob_len l < 2 ^ 64 -> Forall guest_string l ->
  let '(m', cur', addrs) := pack_strings m cur l in
  mm_ok m' /\ cur' = cur + blob_len l /\ length addrs = length l /\ unchanged (flat m) (flat m') cur cur' /\
  forall k s a, l !! k = Some s -> addrs !! k = Some a -> cur <= a /\ a + Z.of_nat (length (s ++ [0])) <= cur' /\ cstring (flat m') a s.
Proof.
  induction l as [|s l IH]; intros m cur Hm Hc Hl Hs; cbn [pack_strings].
  { split; [done|]. split; [unfold blob_len; cbn; lia|]. split; [done|]. split; [by intros x|]. by intros k s a. }
  apply Forall_cons_1 in Hs as [Hs Hss]. rewrite blob_len_cons in Hl |- *. pose proof (blob_len_pos l). destruct (guest_string_bytes s Hs) as [Hb H0].
  assert (Hn : Z.of_nat (length (s ++ [0])) = Z.of_nat (length s) + 1) by (rewrite length_app; cbn; lia).
  destruct (write_bytes_at_spec (s ++ [0]) m cur Hm Hc ltac:(lia) Hb) as (Hm1 & Hh & Hu). rewrite u64_small by lia.
  specialize (IH (write_bytes_at m cur (s ++ [0])) (cur + Z.of_nat (length s) + 1) Hm1 ltac:(lia) ltac:(lia) Hss).
  destruct (pack_strings _ _ l) as [[m' cur'] addrs]. destruct IH as (Hm2 & -> & Hlen & Hu2 & Ha). rewrite Hn in Hu.
  split; [done|]. split; [lia|]. split; [cbn; by rewrite Hlen|]. split; [eapply unchanged_trans; [exact Hu|exact Hu2|lia..]|].
  intros [|k] s0 a Hk Hak.
  - injection Hk as <-. injection Hak as <-. split; [lia|]. split; [lia|]. split; [|done].
    eapply holds_unchanged; [exact Hh|exact Hu2|lia..].
  - destruct (Ha k s0 a Hk Hak) as (? & ? & ?). split; [lia|]. split; [lia|done].
Qed.
Lemma clr7 x : 0 <= x -> clr x 7 = x - x mod 8.
Proof.
  intros Hx. unfold clr. change 7 with (Z.ones 3). rewrite Z.ldiff_ones_r, Z.shiftr_div_pow2, Z.shiftl_mul_pow2 by lia.
  pose proof (Z.div_mod x 8). change (2 ^ 3) with 8. lia.
Qed.
(** A vector whose words point to the strings, kept by what is written
    elsewhere. *)
Lemma vector_at_intro f f' p l addrs lo hi : length addrs = length l -> unchanged f f' lo hi ->
  (forall k a, addrs !! k = Some a -> load 8 f' (p + 8 * Z.of_nat k) = a) -> load 8 f' (p + 8 * Z.of_nat (length l)) = 0 ->
  (forall k s a, l !! k = Some s -> addrs !! k = Some a -> hi <= a /\ 0 <= a /\ a + Z.of_nat (length (s ++ [0])) <= 2 ^ 64 /\ cstring f a s) ->
  vector_at f' p l.
Proof.
  intros Hl Hu Hw Hz Hs. split; [|done]. intros k s Hk. destruct (lookup_lt_is_Some_2 addrs k) as [a Ha]; [rewrite Hl; by eapply lookup_lt_Some|].
  destruct (Hs k s a Hk Ha) as (H1 & H2 & H3 & Hc & H0). rewrite (Hw k a Ha). split; [|done]. eapply holds_unchanged; [exact Hc|exact Hu|lia..].
Qed.

(** C18: the block at the stack pointer the launcher sets reads back as the
    guest's start-up code reads it: the word there is argc, the vectors that
    follow point to the arguments and to the environment entries, byte for
    byte and in order, each vector ends in NULL, the stack pointer is
    8-aligned, and nothing below it or from the top of memory on has changed;
    for any strings without NUL bytes that fit below the top of memory. *)
Theorem start_block_roundtrip argv envp m : mm_ok m -> Forall guest_string (argv ++ envp) ->
  blob_len argv + blob_len envp + 8 * Z.of_nat (length argv + length envp + 4) <= TOP ->
  let '(m', rs) := build_process_start_block argv envp m in
  rs mod 8 = 0 /\ load 8 (flat m') rs = Z.of_nat (length argv) /\
  vector_at (flat m') (rs + 8) argv /\ vector_at (flat m') (rs + 8 * (Z.of_nat (length argv) + 2)) envp /\
  mm_ok m' /\ unchanged (flat m) (flat m') rs TOP.
Proof.
  intros Hm Hs Hroom. apply Forall_app in Hs as [Hsa Hse]. pose proof (blob_len_pos argv). pose proof (blob_len_pos envp). unfold TOP in Hroom.
  unfold build_process_start_block. set (base := u64 (TOP - (blob_len argv + blob_len envp))).
  assert (Hb : base = TOP - (blob_len argv + blob_len envp)) by (unfold base, TOP; apply u64_small; lia). clearbody base. unfold TOP in Hb.
  pose proof (pack_strings_spec argv m base Hm ltac:(lia) ltac:(lia) Hsa) as P1. destruct (pack_strings m base argv) as [[m1 cur1] a1].
  destruct P1 as (Hm1 & -> & L1 & U1 & S1).
  pose proof (pack_strings_spec envp m1 (base + blob_len argv) Hm1 ltac:(lia) ltac:(lia) Hse) as P2.
  destruct (pack_strings m1 (base + blob_len argv) envp) as [[m2 cur2] a2]. destruct P2 as (Hm2 & -> & L2 & U2 & S2).
  set (words := Z.of_nat (length argv) :: a1 ++ [0] ++ a2 ++ [0]).
  assert (Hlw : length words = (length argv + length envp + 3)%nat) by (unfold words; cbn [length]; rewrite !length_app; cbn [length]; lia).
  rewrite (u64_small (8 * _)) by lia. rewrite (u64_small (base - _)) by lia. rewrite clr7 by lia.
  set (x := base - _). assert (Hx : x = base - 8 * (1 + (Z.of_nat (length argv) + 1) + (Z.of_nat (length envp) + 1))) by done. clearbody x.
  pose proof (Z.mod_pos_bound x 8 ltac:(lia)). set (rs := x - x mod 8).
  assert (Hrs : 0 <= rs /\ rs + 8 * Z.of_nat (length words) <= base) by (rewrite Hlw; unfold rs; lia).
  assert (Hword : Forall (fun w => 0 <= w < 2 ^ 64) words).
  { unfold words. apply Forall_cons_2; [lia|]. apply Forall_app. split; [|apply Forall_cons_2; [lia|]; apply Forall_app; split; [|by repeat constructor]].
    - apply Forall_lookup. intros k a Ha. destruct (lookup_lt_is_Some_2 argv k) as [s Hk]; [rewrite <- L1; by eapply lookup_lt_Some|]. destruct (S1 k s a Hk Ha) as (? & ? & _). lia.
    - apply Forall_lookup. intros k a Ha. destruct (lookup_lt_is_Some_2 envp k) as [s Hk]; [rewrite <- L2; by eapply lookup_lt_Some|]. destruct (S2 k s a Hk Ha) as (? & ? & _). lia. }
  destruct (write_words_spec words m2 rs Hm2 ltac:(lia) ltac:(lia) Hword) as (Hm3 & Hld & U3). set (m3 := write_words m2 rs words) in *.
  split; [unfold rs; rewrite Zminus_mod, Z.mod_mod, Z.sub_diag by lia; done|].
  split; [rewrite <- (Z.add_0_r rs); by apply (Hld 0%nat)|].
  split; [|split; [|split; [done|]]].
  - apply (vector_at_intro (flat m2) _ _ argv a1 rs (rs + 8 * Z.of_nat (length words)) L1 U3).
    + intros k a Ha. replace (rs + 8 + 8 * Z.of_nat k) with (rs + 8 * Z.of_nat (S k)) by lia. apply Hld. by apply lookup_app_l_Some.
    + replace (rs + 8 + 8 * Z.of_nat (length argv)) with (rs + 8 * Z.of_nat (S (length argv))) by lia. apply Hld. rewrite <- L1. by apply list_lookup_middle.
    + intros k s a Hk Ha. destruct (S1 k s a Hk Ha) as (? & ? & [Hc ?]). split; [lia|]. split; [lia|]. split; [lia|]. split; [|done].
      eapply holds_unchanged; [exact Hc|exact U2|lia..].
  - apply (vector_at_intro (flat m2) _ _ envp a2 rs (rs + 8 * Z.of_nat (length words)) L2 U3).
    + intros k a Ha. replace (rs + 8 * (Z.of_nat (length argv) + 2) + 8 * Z.of_nat k) with (rs + 8 * Z.of_nat (S (length a1 + S k))) by lia. apply Hld.
      change (words !! S ?i) with ((a1 ++ [0] ++ a2 ++ [0]) !! i). rewrite lookup_app_r by lia. replace (length a1 + S k - length a1)%nat with (S k) by lia. exact (lookup_app_l_Some a2 [0] k a Ha).
    + replace (rs + 8 * (Z.of_nat (length argv) + 2) + 8 * Z.of_nat (length envp)) with (rs + 8 * Z.of_nat (S (length a1 + S (length a2)))) by lia. apply Hld.
      change (words !! S ?i) with ((a1 ++ [0] ++ a2 ++ [0]) !! i). rewrite lookup_app_r by lia. replace (length a1 + S (length a2) - length a1)%nat with (S (length a2)) by lia. exact (list_lookup_middle a2 [] 0 _ eq_refl).
    + intros k s a Hk Ha. destruct (S2 k s a Hk Ha) as (? & ? & ?). split; [lia|]. split; [lia|]. split; [lia|done].
  - assert (U12 : unchanged (flat m) (flat m2) base (base + blob_len argv + blob_len envp)) by (eapply unchanged_trans; [exact U1|exact U2|lia..]).
    unfold TOP. eapply unchanged_trans; [exact U12|exact U3|lia..].
Qed.

(** ** Loading what the linker wrote *)

Section Loader.
Context (entry : Z) (used : list Segment) (limit : Z) (Hentry : 0 <= entry < 2 ^ 64) (Hn : (length used <= 4)%nat) (Hlim : limit < 2 ^ 64).
Context (Hok : Forall (segment_ok limit) used) (Hapart : StronglySorted (fun a c => segs_overlap a c = false) used).
Let file := write_executable entry used.
Context (Hlen : Z.of_nat (length file) < 2 ^ 64) (Hbytes : bytes file).

(** What loading one segment does. *)
Definition place_segment (l : loaded) (g : Segment) : loaded :=
  let n := Z.of_nat (length (segment_bytes g)) in
  let seg_end := u64 (sg_vaddr g + sg_mem_size g) in
  mk_loaded (zero_fill (write_bytes_at (ld_mm l) (sg_vaddr g) (segment_bytes g)) (u64 (sg_vaddr g + n)) (Z.to_nat (sg_mem_size g - n)))
    (if image_end l <? seg_end then seg_end else image_end l) (ld_rp l).
(** The bytes of a segment in memory, zeroes after those of the file. *)
Definition segment_byte (g : Segment) (a : Z) : Z :=
  if a - sg_vaddr g <? Z.of_nat (length (segment_bytes g)) then default 0 (byte_at (segment_bytes g) (a - sg_vaddr g)) else 0.

Lemma segment_fit g : g ∈ used -> 0 <= sg_vaddr g /\ 0 <= sg_mem_size g /\ sg_vaddr g + sg_mem_size g < 2 ^ 64 /\ Z.of_nat (length (segment_bytes g)) <= sg_mem_size g.
Proof.
  intros Hg. rewrite list.Forall_forall in Hok. destruct (Hok g Hg) as [H1 H2 H3 _ H5]. unfold segment_bytes. destruct (sg_nobits g); cbn [length]; lia.
Qed.
Lemma used_words : Forall segment_word used.
Proof. apply list.Forall_forall. intros g Hg. destruct (segment_fit g Hg) as (? & ? & ? & _). split; lia. Qed.
Lemma load_one i g l : used !! i = Some g -> load_one_segment file 24 (Z.of_nat i) l = Some (Some (place_segment l g)) /\ bytes (segment_bytes g).
Proof.
  intros Hg. destruct (executable_parts_at entry used Hn) as [Ht Hs]. fold file in Ht, Hs. pose proof (lookup_lt_Some _ _ _ Hg) as Hi.
  destruct (lookup_lt_is_Some_2 (segment_places (24 + Z.of_nat (length used) * SEGMENT_SIZE) used) i) as [[p n] Hp]; [by rewrite segment_places_length|].
  pose proof (table_at entry used Hn used _ _ Ht i g _ Hg Hp) as Hat. destruct (segments_at entry used Hn Hlen used _ Hs i g _ Hg Hp) as (E & Hd & Hr). fold file in Hat, Hd.
  cbn [fst snd] in *. subst n. pose proof (at_file_bound _ _ _ Hat) as [B0 B1]. rewrite fields_bytes_length in B1. change (fields_width _) with 40%nat in B1.
  pose proof (at_file_bound _ _ _ Hd) as [D0 D1]. destruct (segment_fit g (list_elem_of_lookup_2 _ _ _ Hg)) as (S1 & S2 & S3 & S4). split.
  - unfold load_one_segment. change SEGMENT_SIZE with 40. rewrite !(u64_small (24 + Z.of_nat i * 40)) by lia. rewrite !(u64_small (24 + Z.of_nat i * 40 + _)) by lia.
    destruct (Z.ltb_spec (Z.of_nat (length file)) (24 + Z.of_nat i * 40 + 40)); [lia|].
    assert (R : forall k v o, segment_fields g p (Z.of_nat (length (segment_bytes g))) !! k = Some (8%nat, v) -> 0 <= v < 2 ^ 64 ->
      o = Z.of_nat (fields_width (take k (segment_fields g p (Z.of_nat (length (segment_bytes g)))))) -> get_u64 file (24 + Z.of_nat i * 40 + o) = Some v).
    { intros k v o Hk Hv ->. unfold get_u64. rewrite (field_read _ _ _ _ _ _ Hat Hk). f_equal. by apply Z.mod_small. }
    rewrite (R 8%nat (sg_vaddr g) 8 eq_refl ltac:(lia) eq_refl), (R 9%nat p 16 eq_refl Hr eq_refl).
    rewrite (R 10%nat (sg_mem_size g) 24 eq_refl ltac:(lia) eq_refl), (R 11%nat (Z.of_nat (length (segment_bytes g))) 32 eq_refl ltac:(lia) eq_refl).
    cbn [mbind option_bind]. rewrite u64_small by lia. destruct (Z.ltb_spec (Z.of_nat (length file)) (p + Z.of_nat (length (segment_bytes g)))); [lia|].
    rewrite (at_file_slice _ _ _ Hd). done.
  - destruct Hd as (pre & post & Ef & _). unfold bytes in Hbytes. rewrite Ef in Hbytes. apply Forall_app in Hbytes as [_ Hb]. by apply Forall_app in Hb as [Hb _].
Qed.
Lemma load_all n : forall i l, (i + n)%nat = length used ->
  load_all_segments file 24 (Z.of_nat i) n l = Some (foldl place_segment l (drop i used), true).
Proof.
  induction n as [|n IH]; intros i l Hi; cbn [load_all_segments]; [by rewrite drop_ge by lia|].
  destruct (lookup_lt_is_Some_2 used i) as [g Hg]; [lia|]. destruct (load_one i g l Hg) as [-> _]. cbn [mbind option_bind].
  replace (Z.of_nat i + 1) with (Z.of_nat (S i)) by lia. rewrite IH by lia. by rewrite (drop_S _ _ _ Hg).
Qed.
Lemma place_segment_spec g l : g ∈ used -> bytes (segment_bytes g) -> mm_ok (ld_mm l) ->
  let l' := place_segment l g in mm_ok (ld_mm l') /\ (forall a, sg_vaddr g <= a < sg_vaddr g + sg_mem_size g -> flat (ld_mm l') a = segment_byte g a) /\
  unchanged (flat (ld_mm l)) (flat (ld_mm l')) (sg_vaddr g) (sg_vaddr g + sg_mem_size g) /\
  image_end l <= image_end l' /\ sg_vaddr g + sg_mem_size g <= image_end l' /\ ld_rp l' = ld_rp l.
Proof.
  intros Hg Hb Hm. destruct (segment_fit g Hg) as (S1 & S2 & S3 & S4). unfold place_segment. cbn [ld_mm image_end ld_rp]. rewrite !u64_small by lia.
  set (n := Z.of_nat (length (segment_bytes g))) in *.
  destruct (write_bytes_at_spec (segment_bytes g) (ld_mm l) (sg_vaddr g) Hm S1 ltac:(fold n; lia) Hb) as (Hm1 & Hh & U1). fold n in U1.
  destruct (zero_fill_spec (Z.to_nat (sg_mem_size g - n)) _ (sg_vaddr g + n) Hm1 ltac:(lia) ltac:(lia)) as (Hm2 & Hz & U2). split; [done|]. split; [|split].
  - intros a Ha. unfold segment_byte. fold n. destruct (Z.ltb_spec (a - sg_vaddr g) n).
    + rewrite U2 by lia. unfold byte_at. destruct (Z.ltb_spec (a - sg_vaddr g) 0); [lia|].
      destruct (lookup_lt_is_Some_2 (segment_bytes g) (Z.to_nat (a - sg_vaddr g))) as [c Hc]; [subst n; lia|]. rewrite Hc. specialize (Hh _ _ Hc). rewrite Z2Nat.id in Hh by lia. by replace (sg_vaddr g + (a - sg_vaddr g)) with a in Hh by lia.
    + apply Hz. lia.
  - eapply unchanged_trans; [exact U1|exact U2|lia..].
  - destruct (Z.ltb_spec (image_end l) (sg_vaddr g + sg_mem_size g)); lia.
Qed.
Definition inside (g : Segment) (x : Z) : Prop := sg_vaddr g <= x < sg_vaddr g + sg_mem_size g.
Lemma apart g g' x : g ∈ used -> g' ∈ used -> segs_overlap g g' = false -> inside g x -> inside g' x -> False.
Proof.
  intros Hg Hg' Ho H1 H2. destruct (segment_fit g Hg) as (? & ? & ? & _). destruct (segment_fit g' Hg') as (? & ? & ? & _).
  unfold segs_overlap, inside in *. rewrite !u64_small in Ho by lia. apply andb_false_iff in Ho as [Ho%Z.ltb_ge|Ho%Z.ltb_ge]; lia.
Qed.
Lemma place_all gs : forall l, (forall g, g ∈ gs -> g ∈ used /\ bytes (segment_bytes g)) -> StronglySorted (fun a c => segs_overlap a c = false) gs -> mm_ok (ld_mm l) ->
  let l' := foldl place_segment l gs in mm_ok (ld_mm l') /\ ld_rp l' = ld_rp l /\ image_end l <= image_end l' /\
  (forall g, g ∈ gs -> sg_vaddr g + sg_mem_size g <= image_end l') /\
  (forall g x, g ∈ gs -> inside g x -> flat (ld_mm l') x = segment_byte g x) /\
  (forall x, 0 <= x < 2 ^ 64 -> (forall g, g ∈ gs -> ~ inside g x) -> flat (ld_mm l') x = flat (ld_mm l) x).
Proof.
  induction gs as [|g gs IH]; intros l Hgs Hs Hm; cbn [foldl].
  { do 3 (split; [done|]). split; [by intros g Hg%elem_of_nil|]. split; [by intros g x Hg%elem_of_nil|done]. }
  destruct (Hgs g) as [Hg Hb]; [left|]. apply StronglySorted_inv in Hs as [Hs Hx].
  destruct (place_segment_spec g l Hg Hb Hm) as (Hm1 & Hf & Hu & He1 & He2 & Hr). set (l1 := place_segment l g) in *.
  destruct (IH l1 (fun g' Hg' => Hgs g' (list_elem_of_further g' g gs Hg')) Hs Hm1) as (Hm2 & Hr2 & E1 & E2 & F1 & F2).
  assert (Hkeep : forall x, 0 <= x < 2 ^ 64 -> inside g x -> flat (ld_mm (foldl place_segment l1 gs)) x = flat (ld_mm l1) x).
  { intros x Hx0 Hin. apply F2; [done|]. intros g' Hg' Hin'. rewrite list.Forall_forall in Hx.
    apply (apart g g' x Hg); [apply Hgs; by right|by apply Hx|done|done]. }
  split; [done|]. split; [congruence|]. split; [lia|]. split; [|split].
  - intros g' [->|Hg']%elem_of_cons; [lia|by apply E2].
  - intros g' x [->|Hg']%elem_of_cons Hin; [|by apply F1]. destruct (segment_fit g Hg) as (? & ? & ? & _).
    rewrite Hkeep by (unfold inside in *; (done || lia)). by apply Hf.
  - intros x Hx0 Hn'. rewrite F2 by (done || (intros g' Hg'; apply Hn'; by right)). apply Hu; [done|]. apply (Hn' g). left.
Qed.
(** The whole executable. *)
Lemma load_executable m : mm_ok m -> exists l, load_mzx file (mk_loaded m 0 0) = Some (true, l) /\ mm_ok (ld_mm l) /\ ld_rp l = entry /\
  (forall g, g ∈ used -> sg_vaddr g + sg_mem_size g <= image_end l) /\
  (forall g x, g ∈ used -> inside g x -> flat (ld_mm l) x = segment_byte g x) /\
  (forall x, 0 <= x < 2 ^ 64 -> (forall g, g ∈ used -> ~ inside g x) -> flat (ld_mm l) x = flat m x).
Proof.
  intros Hm. assert (Hgs : forall g, g ∈ used -> g ∈ used /\ bytes (segment_bytes g)).
  { intros g Hg. split; [done|]. apply list_elem_of_lookup in Hg as (i & Hg). by destruct (load_one i g (mk_loaded m 0 0) Hg). }
  destruct (place_all used (mk_loaded m 0 0) Hgs Hapart Hm) as (P1 & P2 & _ & P4 & P5 & P6).
  set (L := foldl place_segment _ used) in *. exists (mk_loaded (ld_mm L) (image_end L) entry). split; [|split; [exact P1|split; [reflexivity|done]]].
  assert (Hhd : at_file file 0 (fields_bytes (mzx_header_fields (Z.of_nat (length used)) entry))).
  { unfold file. rewrite write_executable_parts by done. eexists [], _. done. }
  pose proof (at_file_bound _ _ _ Hhd) as [_ B]. rewrite fields_bytes_length in B. change (0 + Z.of_nat (fields_width _)) with 24 in B.
  unfold load_mzx. change MZX_HEADER_SIZE with 24. destruct (Z.ltb_spec (Z.of_nat (length file)) 24); [lia|].
  rewrite bool_decide_true by (unfold file; by rewrite write_executable_parts). cbn [negb].
  unfold get_u16, get_u64.
  rewrite (field_read _ 0 _ 5 2 _ Hhd eq_refl : get_le 2 file 6 = _), (field_read _ 0 _ 6 8 _ Hhd eq_refl : get_le 8 file 8 = _), (field_read _ 0 _ 7 8 _ Hhd eq_refl : get_le 8 file 16 = _).
  cbn [mbind option_bind]. rewrite (Z.mod_small entry) by done. rewrite (Z.mod_small (Z.of_nat (length used))) by (cbn; lia). change (24 mod _) with 24.
  rewrite Nat2Z.id. rewrite (load_all (length used) 0 _ eq_refl). done.
Qed.
End Loader.

(** The segments of a link, and the one that holds a section. *)
Lemma link_segments entry_name base objects objs file globals entry : linked entry_name base objects objs file globals entry ->
  Forall section_ok (sections_of objects) -> Forall (fun s => lc_placed s = false) (sections_of objects) ->
  0 <= base -> base + total_room link_order (sections_of objects) < 2 ^ 64 ->
  exists limit used, limit < 2 ^ 64 /\ file = write_executable entry used /\ (length used <= 4)%nat /\ Forall (segment_ok limit) used /\
  StronglySorted (fun a c => segs_overlap a c = false) used /\ 0 <= entry < 2 ^ 64 /\
  forall i s, sections_of objs !! i = Some s -> lc_placed s = true -> exists g, g ∈ used /\ sg_nobits g = (lc_kind s =? SEC_BSS) /\ segment_ok limit g /\ contains g s.
Proof.
  intros H Hok Hfresh Hb Hr. destruct (linked_sections _ _ _ _ _ _ _ H Hok Hfresh Hb Hr) as (lim & Hl & Hz & Hord).
  assert (Hz' : Forall2 (linked_section base (Z.max 0 lim)) (sections_of objects) (sections_of objs)) by (eapply Forall2_impl; [exact Hz|]; intros s0 s; apply linked_section_wider; lia).
  pose proof (fun k => merged base objects objs Hok Hb k (Z.max 0 lim) ltac:(lia) ltac:(lia) Hz' Hord) as Hmerge.
  exists (Z.max 0 lim), (filter (fun g => sg_used g = true) (segments objs)). split; [lia|]. split; [by destruct H|]. split; [etrans; [apply length_filter|done]|]. split; [|split; [|split]].
  - apply Forall_forall. intros g [_ Hg]%list_elem_of_filter. apply list_elem_of_fmap in Hg as (k & -> & _). apply (Hmerge k).
  - apply filter_sorted. intros i j a c Hij Hi Hj Ha Hc. eapply any_overlap_apart; [exact (lk_apart _ _ _ _ _ _ _ H)|exact Hij|done..].
  - exact (entry_range _ _ _ _ (lk_entry _ _ _ _ _ _ _ H)).
  - intros i s Hs Hp. destruct (Hmerge (lc_kind s)) as (G1 & G2 & G3). destruct (G3 i s Hs eq_refl Hp) as [C U]. exists (merge_segment objs (lc_kind s)).
    destruct (Forall2_lookup_r _ _ _ _ _ Hz Hs) as (s0 & Hs0 & [Z1 Z2 _ _ _]). rewrite Hp in Z2. symmetry in Z2. apply places_iff in Z2 as [Hk _]. destruct Z1 as (_ & K & _). rewrite <- K in Hk.
    split; [apply list_elem_of_filter; split; [done|]; apply list_elem_of_fmap; by exists (lc_kind s)|done].
Qed.

(** C17: what the linker links, the launcher loads: for a link that succeeds
    under the conditions of [link_image], loading the file into the memory of
    a machine that is switched on succeeds, puts every byte of every section
    at the address the linker gave it (zeroes for bss), sets RP to the address
    of the entry symbol, and sets the floor of the heap at or above the end of
    every section. *)
Theorem linked_program_loads entry_name base objects objs file : link entry_name base objects = Done (objs, file) ->
  Forall section_ok (sections_of objects) -> Forall (fun s => lc_placed s = false) (sections_of objects) ->
  0 <= base -> base + total_room link_order (sections_of objects) < 2 ^ 64 -> Z.of_nat (length file) < 2 ^ 64 -> bytes file ->
  exists l, load_image file mm_reset = Some l /\ mm_ok (ld_mm l) /\
  (exists globals, collect_globals objs 0 objs ∅ = Done globals /\ entry_address objs globals entry_name = Done (ld_rp l)) /\
  (forall i s j, sections_of objs !! i = Some s -> lc_placed s = true -> 0 <= j < lc_size s ->
    flat (ld_mm l) (lc_vaddr s + j) = if lc_kind s =? SEC_BSS then 0 else default 0 (byte_at (lc_data s) j)) /\
  (forall i s, sections_of objs !! i = Some s -> lc_placed s = true -> section_end s <= image_end l).
Proof.
  intros Hlink Hok Hfresh Hb Hr Hlen Hby. apply link_steps in Hlink as (globals & entry & Hl).
  destruct (link_segments _ _ _ _ _ _ _ Hl Hok Hfresh Hb Hr) as (limit & used & Hlim & -> & Hn & Hso & Hap & He & Hsec).
  destruct (load_executable entry used limit He Hn Hlim Hso Hap Hlen Hby mm_reset mm_reset_ok) as (l & El & Hm & Hrp & Hend & Hfl & _).
  exists l. split; [unfold load_image; by rewrite El|]. split; [done|]. split; [|split].
  - exists globals. destruct (laid_places _ _ _ _ _ _ _ Hl) as [_ ->]. destruct Hl as [Hg _ Hea _ _]. split; [done|]. by rewrite Hrp.
  - intros i s j Hs Hp Hj. destruct (Hsec i s Hs Hp) as (g & Hg & Hnb & [_ _ _ _ Gd] & C1 & C2 & C3). unfold section_end in C2.
    rewrite (Hfl g) by (done || (unfold inside; lia)). unfold segment_byte, segment_bytes. rewrite Hnb in *. destruct (lc_kind s =? SEC_BSS).
    + cbn [length]. destruct (Z.ltb_spec (lc_vaddr s + j - sg_vaddr g) (Z.of_nat 0)); [lia|done].
    + rewrite Gd. destruct (Z.ltb_spec (lc_vaddr s + j - sg_vaddr g) (sg_mem_size g)); [|lia]. f_equal. rewrite <- (C3 eq_refl j Hj). f_equal. lia.
  - intros i s Hs Hp. destruct (Hsec i s Hs Hp) as (g & Hg & _ & _ & _ & C2 & _). specialize (Hend g Hg). lia.
Qed.
Lemma linked_program_loads_witness : exists l, load_image demo_link.2 mm_reset = Some l /\ flat (ld_mm l) 0x2002 = 0x0B.
Proof.
  destruct (linked_program_loads "_start" 0x2000 demo_objects demo_link.1 demo_link.2 demo_links demo_sections) as (l & E & _ & _ & Hb & _);
    [repeat constructor; done|done|by vm_compute|by vm_compute|apply (bool_decide_unpack _); by vm_compute|]. exists l. split; [done|].
  destruct (sections_of demo_link.1 !! 0%nat) as [s|] eqn:Es; [|done]. specialize (Hb 0%nat s 2 Es). vm_compute in Es. injection Es as <-. exact (Hb eq_refl ltac:(cbn; lia)).
Defined.
Lemma start_block_roundtrip_witness : let '(m', rs) := build_process_start_block [cs "ls"; cs "-l"] [cs "A=1"] mm_reset in
  load 8 (flat m') rs = 2 /\ cstring (flat m') (load 8 (flat m') (rs + 16)) (cs "-l").
Proof.
  pose proof (start_block_roundtrip [cs "ls"; cs "-l"] [cs "A=1"] mm_reset mm_reset_ok ltac:(apply (bool_decide_unpack _); by vm_compute) ltac:(by vm_compute)) as H.
  destruct (build_process_start_block _ _ _) as [m' rs]. destruct H as (_ & H1 & [H2 _] & _). split; [done|]. specialize (H2 1%nat _ eq_refl).
  by replace (rs + 8 + 8 * Z.of_nat 1) with (rs + 16) in H2 by lia.
Defined.

(** ** The environment *)

(** The value a guest finds for a key: that of the first entry with it. *)
Definition getenv (env : list (list Z)) (key : list Z) : option (list Z) :=
  e ← find (starts_with (key ++ cs "=")) env; Some (drop (length key + 1) e).
(** A well-formed entry has a key of letters, digits and underscores. *)
Definition env_key (e : list Z) (key : list Z) : Prop := starts_with (key ++ cs "=") e = true /\ valid_env_key key = true.
Definition env_ok (env : list (list Z)) : Prop := exists keys, Forall2 env_key env keys /\ NoDup keys.

Lemma starts_with_iff p l : starts_with p l = true <-> exists r, l = p ++ r.
Proof.
  unfold starts_with. rewrite bool_decide_eq_true. split.
  - intros E. exists (drop (length p) l). rewrite <- E at 1. by rewrite take_drop.
  - intros [r ->]. apply take_app_length.
Qed.
Lemma find_pos_some P l i : find_pos P l = Some i -> exists c, l = take i l ++ c :: drop (S i) l /\ P c = true /\ Forall (fun c => P c = false) (take i l).
Proof.
  revert i. induction l as [|x l IH]; intros i; cbn [find_pos]; [done|]. destruct (P x) eqn:E; [intros [= <-]; by exists x|].
  destruct (find_pos P l) as [j|]; [|done]. intros [= <-]. destruct (IH j eq_refl) as (c & E1 & E2 & E3). exists c. cbn. split; [by rewrite <- E1|]. split; [done|by constructor].
Qed.
Lemma valid_key_no_eq key : valid_env_key key = true -> 61 ∉ key.
Proof.
  intros Hv Hin. unfold valid_env_key in Hv. destruct key as [|c0 key]; [done|]. apply andb_true_iff in Hv as [_ Hv]. rewrite forallb_forall in Hv.
  specialize (Hv 61 (proj1 (list_elem_of_In _ _) Hin)). done.
Qed.
(** An entry has one key. *)
Lemma env_key_unique e k k' : env_key e k -> env_key e k' -> k = k'.
Proof.
  intros [[r ->]%starts_with_iff Hv] [[r' E]%starts_with_iff Hv']. apply valid_key_no_eq in Hv, Hv'. rewrite <- !app_assoc in E. change (cs "=") with [61] in E. cbn [app] in E.
  revert k' Hv' E. induction k as [|x k IH]; intros [|y k'] Hv' E; [done|cbn in E; injection E as <- _; destruct Hv'; constructor|cbn in E; injection E as -> _; destruct Hv; constructor|].
  cbn in E. injection E as <- E. f_equal. apply IH; [|intros ?; apply Hv'; by constructor|done]. intros ?. apply Hv. by constructor.
Qed.
Lemma entry_key entry env env' : add_env_entry entry env = Some env' -> exists key val, entry = key ++ cs "=" ++ val /\ valid_env_key key = true /\
  env' = match replace_env (key ++ cs "=") entry env with Some e => e | None => env ++ [entry] end.
Proof.
  unfold add_env_entry. destruct (find_pos (is_char (chr "=")) entry) as [i|] eqn:E; [|done]. cbn [mbind option_bind].
  destruct (valid_env_key (take i entry)) eqn:Hv; [|done]. cbn [negb]. intros [= <-]. destruct (find_pos_some _ _ _ E) as (c & E1 & E2 & _).
  unfold is_char in E2. apply Z.eqb_eq in E2 as ->. exists (take i entry), (drop (S i) entry). split; [exact E1|done].
Qed.
Lemma key_starts e k k' : env_key e k -> valid_env_key k' = true -> starts_with (k' ++ cs "=") e = bool_decide (k' = k).
Proof.
  intros He Hv. destruct (bool_decide_reflect (k' = k)) as [->|Hne]; [by destruct He|]. destruct (starts_with _ e) eqn:E; [|done].
  destruct Hne. by apply (env_key_unique e).
Qed.
Lemma env_replace key entry env keys : env_key entry key -> Forall2 env_key env keys ->
  match replace_env (key ++ cs "=") entry env with
  | Some env' => Forall2 env_key env' keys /\
      forall k, valid_env_key k = true -> find (starts_with (k ++ cs "=")) env' = if decide (k = key) then Some entry else find (starts_with (k ++ cs "=")) env
  | None => (key ∉ keys) /\ find (starts_with (key ++ cs "=")) env = None
  end.
Proof.
  intros He. induction 1 as [|e k0 env keys Hk Hf IH]; cbn [replace_env]; [split; [apply not_elem_of_nil|done]|]. destruct He as [He Hv].
  rewrite (key_starts e k0 key Hk Hv). destruct (bool_decide_reflect (key = k0)) as [<-|Hne].
  - split; [by repeat constructor|]. intros k Hkv. cbn [find]. rewrite (key_starts entry key k (conj He Hv) Hkv), (key_starts e key k Hk Hkv).
    destruct (bool_decide_reflect (k = key)); [by rewrite decide_True|by rewrite decide_False].
  - destruct (replace_env (key ++ cs "=") entry env) as [env'|]; cbn [fmap option_fmap option_map].
    + destruct IH as [IH1 IH2]. split; [by constructor|]. intros k Hkv. cbn [find]. rewrite (key_starts e k0 k Hk Hkv), IH2 by done.
      destruct (bool_decide_reflect (k = k0)); [|done]. rewrite decide_False; congruence.
    + destruct IH as [IH1 IH2]. cbn [find]. rewrite (key_starts e k0 key Hk Hv), bool_decide_false by done. split; [|done]. apply not_elem_of_cons. split; [congruence|done].
Qed.
Lemma find_app {A} (f : A -> bool) l l' : find f (l ++ l') = match find f l with Some x => Some x | None => find f l' end.
Proof. induction l as [|x l IH]; [done|]. cbn. by destruct (f x). Qed.
Lemma env_add entry env env' : env_ok env -> add_env_entry entry env = Some env' -> env_ok env' /\ exists key val, entry = key ++ cs "=" ++ val /\ env_key entry key /\
  forall k, valid_env_key k = true -> getenv env' k = if decide (k = key) then Some val else getenv env k.
Proof.
  intros (keys & Hk & Hnd) (key & val & -> & Hv & ->)%entry_key. set (entry := key ++ cs "=" ++ val).
  assert (He : env_key entry key) by (split; [|done]; apply starts_with_iff; exists val; unfold entry; by rewrite app_assoc).
  assert (Hval : drop (length key + 1) entry = val) by (unfold entry; rewrite app_assoc; apply drop_app_length'; rewrite length_app; done).
  pose proof (env_replace key entry env keys He Hk) as Hr. destruct (replace_env (key ++ cs "=") entry env) as [env1|].
  - destruct Hr as [Hr1 Hr2]. split; [by exists keys|]. exists key, val. split; [done|]. split; [done|]. intros k Hkv. unfold getenv. rewrite Hr2 by done.
    case_decide; [subst k; cbn; by f_equal|done].
  - destruct Hr as [Hr1 Hr2]. split.
    + exists (keys ++ [key]). split; [apply Forall2_app; [done|by constructor]|]. apply NoDup_app. split; [done|].
      split; [|apply NoDup_singleton]. by intros x Hx ->%list_elem_of_singleton.
    + exists key, val. split; [done|]. split; [done|]. intros k Hkv. unfold getenv. rewrite find_app. cbn [find]. rewrite (key_starts entry key k He Hkv). case_decide as Hd.
      * subst k. rewrite Hr2, bool_decide_true by done. cbn. by f_equal.
      * rewrite bool_decide_false by done. set (o := find _ env). by destruct o.
Qed.

(** The environment keeps one entry per key, and the last one given wins:
    after any sequence of entries the launcher accepts, from the command line
    or from files, the keys are well formed and distinct, and a guest that
    looks a key up finds the value of the last entry with that key. *)
Theorem environment_last_wins entries env : foldl (fun o e => o ≫= add_env_entry e) (Some []) entries = Some env ->
  env_ok env /\ forall k, valid_env_key k = true ->
    getenv env k = (drop (length k + 1) <$> find (starts_with (k ++ cs "=")) (rev entries)).
Proof.
  revert env. induction entries as [|e entries IH] using rev_ind; intros env.
  { intros [= <-]. split; [exists []; split; [constructor|constructor]|done]. }
  rewrite foldl_app. cbn [foldl]. destruct (foldl _ (Some []) entries) as [env0|]; [|done]. cbn [mbind option_bind]. intros Ha.
  destruct (IH env0 eq_refl) as [Hok Hget]. destruct (env_add e env0 env Hok Ha) as (Hok' & key & val & -> & Hek & Hg). split; [done|]. intros k Hk.
  rewrite Hg, rev_unit by done. cbn [find]. rewrite (key_starts _ key k Hek Hk). case_decide as Hd.
  - subst k. rewrite bool_decide_true by done. cbn [fmap option_fmap option_map]. f_equal. rewrite app_assoc. symmetry. apply drop_app_length'. by rewrite length_app.
  - rewrite bool_decide_false by done. by rewrite Hget.
Qed.
Lemma environment_last_wins_witness : exists env, foldl (fun o e => o ≫= add_env_entry e) (Some []) [cs "A=1"; cs "B=2"; cs "A=3=x"] = Some env /\
  getenv env (cs "A") = Some (cs "3=x").
Proof.
  eexists. split; [vm_compute; reflexivity|].
  rewrite (proj2 (environment_last_wins [cs "A=1"; cs "B=2"; cs "A=3=x"] _ ltac:(vm_compute; reflexivity)) (cs "A") eq_refl). by vm_compute.
Defined.

(** ** The mount table *)

Definition mount_of (g : mount_grant) (m : hostfs_mount) : Prop := guest_prefix m = g_guest g /\ host_root m = g_host g /\ mt_mode m = g_mode g.

Section Mounts.
Context `{LaunchHost}.

Lemma open_anchors_spec gs mts : open_anchors gs = Some mts -> Forall2 mount_of gs mts.
Proof.
  revert mts. induction gs as [|g gs IH]; intros mts; cbn [open_anchors]; [intros [= <-]; constructor|].
  destruct (lh_anchor_open _) as [rc anchor]. destruct (rc <? 0); [done|]. destruct (open_anchors gs) as [l|]; [|done]. intros [= <-]. constructor; [done|by apply IH].
Qed.
Lemma grants_apart gs : grants_overlap gs = false -> NoDup (g_guest <$> gs).
Proof.
  induction gs as [|g gs IH]; cbn [grants_overlap]; [constructor|]. intros [H1 H2]%orb_false_iff. cbn. constructor; [|by apply IH].
  intros (g' & E & Hin)%list_elem_of_fmap. apply not_true_iff_false in H1. apply H1. apply existsb_exists. exists g'. split; [by apply list_elem_of_In|].
  unfold guest_paths_overlap. by rewrite bool_decide_true.
Qed.
Lemma build_mount_table_spec gs mts : build_mount_table gs = Some mts ->
  Forall2 mount_of gs mts /\ NoDup (guest_prefix <$> mts) /\ Forall (fun m => lh_is_directory (host_root m) = true) mts.
Proof.
  unfold build_mount_table. destruct (forallb _ gs) eqn:Ed; [|done]. destruct (grants_overlap gs) eqn:Eo; [done|]. cbn [negb]. intros E%open_anchors_spec.
  split; [done|]. split.
  - replace (guest_prefix <$> mts) with (g_guest <$> gs); [by apply grants_apart|]. clear - E. induction E as [|g m gs mts (E & _) _ IH]; [done|]. cbn. by rewrite IH, E.
  - rewrite forallb_forall in Ed. clear - E Ed. induction E as [|g m gs mts (_ & Eh & _) _ IH]; [constructor|]. constructor.
    + rewrite Eh. apply Ed. by left.
    + apply IH. intros g' Hg'. apply Ed. by right.
Qed.
(** A grant is kept when no higher tier names its guest path. *)
Lemma merge_tiers_spec c0 c1 gs g : g ∈ merge_tiers c0 c1 gs <->
  exists i, gs !! i = Some g /\ forall j g', gs !! j = Some g' -> g_guest g' = g_guest g -> (tier_of c0 c1 j <= tier_of c0 c1 i)%nat.
Proof.
  unfold merge_tiers. rewrite list_elem_of_omap. split.
  - intros ([i g0] & Hin & E). apply list_elem_of_lookup in Hin as (i' & Hi). rewrite list_lookup_imap in Hi. destruct (gs !! i') as [g1|] eqn:Eg; [|done].
    cbn in Hi. injection Hi as -> ->. cbn [fst snd] in E. destruct (shadowed _ _ _ _ _) eqn:Es; [done|]. injection E as ->. exists i. split; [done|].
    intros j g' Hj Hg. destruct (Nat.le_gt_cases (tier_of c0 c1 j) (tier_of c0 c1 i)) as [|Hlt]; [done|]. exfalso. apply not_true_iff_false in Es. apply Es.
    unfold shadowed. apply existsb_exists. exists (j, g'). split; [|apply andb_true_iff; split; [by apply Nat.ltb_lt|by apply bool_decide_eq_true]].
    apply list_elem_of_In, (list_elem_of_lookup_2 _ j). rewrite list_lookup_imap, Hj. done.
  - intros (i & Hi & Hmax). exists (i, g). split; [apply (list_elem_of_lookup_2 _ i); rewrite list_lookup_imap, Hi; done|]. cbn [fst snd].
    destruct (shadowed c0 c1 gs i g) eqn:Es; [|done]. unfold shadowed in Es. apply existsb_exists in Es as ([j g'] & Hin & [Hlt%Nat.ltb_lt Hg%bool_decide_eq_true]%andb_true_iff).
    apply list_elem_of_In, list_elem_of_lookup in Hin as (j' & Hj). rewrite list_lookup_imap in Hj. destruct (gs !! j') as [g1|] eqn:Eg; [|done]. cbn in Hj. injection Hj as -> ->.
    cbn [fst snd] in *. specialize (Hmax j g' Eg Hg). lia.
Qed.

(** The directory behind the guest's root: the one --root names, or
    .maize/rootfs in the home directory. *)
Definition sandbox_dir (o : launch_opts) (dir : list Z) : Prop :=
  if bool_decide (root_override o = []) then
    exists home, home <> [] /\ home = (if bool_decide (lh_HOME = []) then lh_USERPROFILE else lh_HOME) /\
      dir = path_join (path_join home (cs ".maize")) (cs "rootfs")
  else dir = root_override o.

(** A mount the operator asked for: a grant of the configuration files or the
    command line that no higher tier replaces, with its directory and mode, or
    the sandbox directory, writable, at the guest's root. *)
Definition asked_for (args : list (list Z)) (m : hostfs_mount) : Prop :=
  exists o0 c0 c1 o rest, load_defaults opts_init = Some (o0, c0, c1) /\ parse_options (length args) args o0 = inr (o, rest) /\
  ((exists g i, mount_of g m /\ grants o !! i = Some g /\
     forall j g', grants o !! j = Some g' -> g_guest g' = g_guest g -> (tier_of c0 c1 j <= tier_of c0 c1 i)%nat) \/
   (no_root o = false /\ guest_prefix m = [slash] /\ sandbox_dir o (host_root m) /\ mt_mode m = HOSTFS_RW)).

Lemma add_root_spec o gs gs' cwd : add_root o gs = Some (gs', cwd) ->
  absolute cwd /\ forall g, g ∈ gs' -> g ∈ gs \/
    (no_root o = false /\ g_guest g = [slash] /\ sandbox_dir o (g_host g) /\ g_mode g = HOSTFS_RW).
Proof.
  unfold add_root. destruct (no_root o) eqn:En; [intros [= <- <-]; split; [done|by left]|].
  destruct (if bool_decide _ then _ else _) as [root|] eqn:Eroot; [|intros [= <- <-]; split; [done|by left]]. destruct (lh_make_root root); [|done].
  intros [= <- <-]. split; [done|]. intros g [Hg|Hg%list_elem_of_singleton]%elem_of_app; [by left|]. subst g. right.
  split; [done|]. split; [done|]. split; [|done]. unfold sandbox_dir. cbn [g_host]. case_bool_decide; [|by injection Eroot].
  unfold resolve_home in Eroot. cbn [negb] in Eroot. rewrite bool_decide_eq_true_2 in Eroot by done. cbn [negb] in Eroot.
  cbv zeta in Eroot. destruct (bool_decide_reflect ((if bool_decide (lh_HOME = []) then lh_USERPROFILE else lh_HOME) = [])) as [|Hh]; [done|].
  injection Eroot as <-. eexists. split; [exact Hh|done].
Qed.
Lemma check_jit_grants o o' : check_jit o = Some o' -> grants o' = grants o /\ no_root o' = no_root o /\ root_override o' = root_override o.
Proof. unfold check_jit. destruct (_ && _); [done|]. destruct (_ && _); [done|]. destruct (_ && _); by intros [= <-]. Qed.
Lemma main_table args la : main args = inr la ->
  NoDup (guest_prefix <$> mounts (la_table la)) /\ absolute (tb_cwd (la_table la)) /\
  forall m, m ∈ mounts (la_table la) -> asked_for args m /\ lh_is_directory (host_root m) = true.
Proof.
  unfold main. destruct (load_defaults opts_init) as [[[o0 c0] c1]|] eqn:Ed; [|done]. destruct (parse_options (length args) args o0) as [w|[o rest]] eqn:Ep; [done|].
  destruct (_ && _); [done|]. destruct (_ && _); [done|]. destruct (boot_rom o) as [rom|]; [|done].
  destruct (check_jit o) as [o'|] eqn:Ej; [|done]. destruct (check_jit_grants o o' Ej) as (Eg & En & Eo). destruct (add_root o' _) as [[gs cwd]|] eqn:Er; [|done].
  destruct (build_mount_table gs) as [mts|] eqn:Em; [|done]. destruct (select_image o' rom rest) as [[guest_argv image]|]; [|done].
  destruct (load_image _ _) as [l|]; [|done]. destruct (build_process_start_block _ _ _) as [m rs]. intros [= <-]. cbn [la_table mounts tb_cwd].
  destruct (build_mount_table_spec gs mts Em) as (Hf & Hnd & Hdir). destruct (add_root_spec _ _ _ _ Er) as [Hcwd Hgs]. split; [done|]. split; [done|].
  intros m0 Hm0. rewrite list.Forall_forall in Hdir. split; [|by apply Hdir]. apply list_elem_of_lookup in Hm0 as (k & Hk).
  destruct (Forall2_lookup_r _ _ _ _ _ Hf Hk) as (g & Hg & Hmo). exists o0, c0, c1, o, rest. split; [done|]. split; [done|].
  destruct (Hgs g (list_elem_of_lookup_2 _ _ _ Hg)) as [Hin|(Hnr & Hsl & Hdr & Hmd)].
  - left. apply merge_tiers_spec in Hin as (i & Hi & Hmax). rewrite Eg in Hi, Hmax. exists g, i. done.
  - right. destruct Hmo as (-> & -> & ->). split; [congruence|]. split; [done|]. split; [|done].
    unfold sandbox_dir in *. by rewrite Eo in Hdr.
Qed.

(** C19: a guest that is started reaches only what its operator granted.  Every
    mount of the table is a directory of the host that the configuration
    files or the command line grant, with the mode of the grant from the
    highest tier that names its guest path, or the sandbox directory (the one
    --root names, or .maize/rootfs of the home directory), writable, at the
    guest's root; prefixes are distinct; and if they are canonical (absolute,
    no empty, "." or ".." component, no slash at the end), which the launcher
    does not check, then whatever the guest asks for, with any backend, what
    the backend is asked for stays inside those mounts and their modes.
    Without that condition it does not: see dotdot_grant_escapes. *)
Theorem launched_guest_confined args la : main args = inr la ->
  NoDup (guest_prefix <$> mounts (la_table la)) /\
  (forall m, m ∈ mounts (la_table la) -> asked_for args m /\ lh_is_directory (host_root m) = true) /\
  (Forall (fun m => canonical (guest_prefix m)) (mounts (la_table la)) ->
   forall (B : Type) (backend : Backend B) l b, all_permitted (la_table la) (h_bk (session (la_table la) l b)).2).
Proof.
  intros (Hnd & _ & Hm)%main_table. split; [done|]. split; [done|]. intros Hc B backend l b. by apply (session_ok (la_table la) (conj Hc Hnd) l b).
Qed.
End Mounts.

(** ** A grant that is not canonical *)

Lemma render_prefix_canonical st : Forall plain st -> forall pfx r, pfx ++ r = render st -> pfx <> [] -> r = [] \/ absolute r -> canonical pfx.
Proof.
  induction st as [|c st IH]; intros Hst pfx r E Hne Hr; [by destruct pfx|]. pose proof Hst as Hall. apply Forall_cons_1 in Hst as [Hc Hst].
  change (render (c :: st)) with (render st ++ slash :: c) in E.
  assert (Hwhole : pfx = render st -> canonical pfx).
  { intros ->. destruct st as [|d st]; [done|]. exists (d :: st). split; [done|]. by rewrite print_nonempty. }
  apply app_eq_inv in E as [(k & -> & E)|(k & E & E')].
  - destruct k as [|x k]; [apply Hwhole; by rewrite app_nil_r|]. injection E as <- E. destruct Hr as [->|Hr].
    + rewrite app_nil_r in E. subst k. exists (c :: st). split; [done|]. by rewrite print_cons.
    + exfalso. unfold absolute in Hr. destruct r as [|y r]; [done|]. injection Hr as ->. apply (proj2 (proj2 (proj2 Hc))). rewrite E. set_solver.
  - destruct k as [|x k]; [apply Hwhole; by rewrite app_nil_r in E|]. apply (IH Hst pfx (x :: k)); [done|done|]. right. destruct Hr as [->|Hr]; [done|].
    by rewrite E' in Hr.
Qed.
Lemma matched_canonical st pfx : Forall plain st -> pfx <> [] -> prefix_matches (print_path st) pfx = true -> canonical pfx.
Proof.
  intros Hst Hne. unfold prefix_matches. destruct (bool_decide_reflect (pfx = [slash])) as [->|Hr]; [intros _; exists []; split; [constructor|done]|].
  intros [Ht%bool_decide_eq_true Hd]%andb_true_iff. cbn [orb] in Hd.
  assert (E : pfx ++ drop (length pfx) (print_path st) = print_path st) by (rewrite <- Ht at 1; apply take_drop).
  assert (Hb : drop (length pfx) (print_path st) = [] \/ absolute (drop (length pfx) (print_path st))).
  { destruct (drop _ _) as [|c r]; [by left|]. right. apply Z.eqb_eq in Hd as ->. done. }
  destruct st as [|c st]; [|rewrite print_nonempty in E, Hb by done; by eapply render_prefix_canonical].
  change (print_path []) with [slash] in E. destruct pfx as [|x [|y pfx]]; [done| |by destruct pfx]. injection E as ->. done.
Qed.
(** A mount whose prefix is not canonical, such as one with a slash at its
    end, is never selected for a path: the launcher accepts the grant, and the
    guest does not get it. *)
Theorem noncanonical_grant_dead t path norm i rel m : normalize_path t path HOSTFS_PATH_MAX = Some norm ->
  match_mount t norm HOSTFS_PATH_MAX = Some (i, rel) -> mounts t !! i = Some m -> canonical (guest_prefix m).
Proof.
  intros (st & Hst & -> & _)%normalize_path_some Em Hi. unfold match_mount in Em. pose proof (match_loop_spec (mounts t) 0 (print_path st) None 0) as Hs.
  destruct (match_loop _ _ _ _ _) as [b bl]. destruct Hs as (_ & _ & [[-> ->]|(j & m' & Hj & -> & -> & Hp & Hlt)]); [done|].
  assert (i = j) as -> by (destruct (skip_seps _) in Em; [by destruct (_ <? _) in Em; simplify_eq|by destruct (_ <? _) in Em; simplify_eq]).
  rewrite Hj in Hi. injection Hi as ->. apply (matched_canonical st); [done| |done]. intros E. rewrite E in Hlt. simpl in Hlt. lia.
Qed.

(** ** A launch *)

(** A host with a boot image beside the launcher and one directory to grant. *)
Definition demo_launch_host : LaunchHost := {|
  lh_HOME := []; lh_USERPROFILE := []; lh_argv0 := cs "/opt/maize";
  lh_read := fun p => if bool_decide (p = cs "/opt/quesos.mzx") then Some demo_link.2 else None;
  lh_exists := fun p => bool_decide (p = cs "/opt/quesos.mzx");
  lh_is_regular_file := fun p => bool_decide (p = cs "/opt/quesos.mzx");
  lh_is_directory := fun p => bool_decide (p = cs "/srv/data");
  lh_make_root := fun _ => false;
  lh_anchor_open := fun _ => (0, 7)
|}.
#[local] Existing Instance demo_launch_host.
Definition demo_args : list (list Z) := [cs "--no-root"; cs "-e"; cs "A=1"; cs "--mount"; cs "/srv/data=/data:rw"; cs "ls"; cs "-e"].
Definition demo_mount : hostfs_mount := mk_mount (cs "/data") (cs "/srv/data") HOSTFS_RW 7.

(** The options end at the first word that is none; what follows is the
    guest's. *)
Example demo_launch : match main demo_args with
  | inr la => mounts (la_table la) = [demo_mount] /\ la_argv la = [cs "/opt/quesos.mzx"; cs "ls"; cs "-e"] /\ env_entries (la_opts la) = [cs "A=1"] /\ ld_rp (la_mem la) = 0x2000
  | inl _ => False
  end.
Proof. vm_compute. done. Qed.
Lemma launched_guest_confined_witness : match main demo_args with
  | inr la => mounts (la_table la) = [demo_mount] /\ asked_for demo_args demo_mount /\
      forall l b, all_permitted (la_table la) (h_bk (session (B := Z) (la_table la) l b)).2
  | inl _ => False
  end.
Proof.
  pose proof demo_launch as Hd. destruct (main demo_args) as [w|la] eqn:E; [done|]. destruct Hd as [Hm _]. split; [done|].
  destruct (launched_guest_confined demo_args la E) as (_ & H2 & H3). split; [apply H2; rewrite Hm; by left|]. intros l b. apply H3. rewrite Hm.
  constructor; [|constructor]. exists [cs "data"]. split; [|done]. constructor; [|constructor]. unfold plain. apply (bool_decide_unpack _). by vm_compute.
Defined.
(** A grant with a slash at its end is accepted, and its table serves no path
    below it. *)
Example trailing_slash_accepted : parse_mount_spec (cs "/srv/data=/data/:rw") = inr (mk_grant (cs "/srv/data") (cs "/data/") HOSTFS_RW) /\
  match_mount (mk_table [mk_mount (cs "/data/") (cs "/srv/data") HOSTFS_RW 7] [slash]) (cs "/data/x") HOSTFS_PATH_MAX = None.
Proof. by vm_compute. Qed.
(** A grant at "/../x" is accepted; its name at the root of the guest is "..",
    and opening the root asks the backend to open ".." of the directory mounted
    there (the probe that keeps a mount from being listed twice). *)
Example dotdot_grant_escapes :
  parse_mount_spec (cs "/srv/data=/../x:rw") = inr (mk_grant (cs "/srv/data") (cs "/../x") HOSTFS_RW) /\
  let root := mk_mount [slash] (cs "/home/u/.maize/rootfs") HOSTFS_RW 1 in
  let t := mk_table [mk_mount (cs "/../x") (cs "/srv/data") HOSTFS_RW 2; root] [slash] in
  existsb (fun c => match c with CConfine m rel _ _ _ => bool_decide (guest_prefix m = [slash]) && bool_decide (rel = cs "..") | _ => false end)
    (h_bk (session (B := Z) t [ROpen [slash] 0 0] 0)).2 = true.
Proof. by vm_compute. Qed.
(** An empty value after "=" takes the next argument, here the image. *)
Example empty_value_takes_next : option_step (cs "--display-scale=") [cs "4"; cs "prog"] opts_init = PMore (opts_init <| display_scale := 4 |>) [cs "prog"].
Proof. by vm_compute. Qed.
