(* ===== verification/CUnix.v ===== *)
(** * The thinner half of the C runtime library: directories, time, programs

    dirent.c, time.c, the part of unistd.c and errno.c that does more than
    pass a system call on: the program search of execvp, F_DUPFD of fcntl,
    stat and access over open and fstat, the host name and the file-creation
    mask.  The system calls they use are the class [UnixSys], next to [Sys]. *)
From Stdlib Require Import ZArith Lia Bool String.
From stdpp Require Import base list numbers strings.
From S2P Require Import Prelude Monad State Memory Support Paths CString CStdio CStdioProps MzObj HostFs HostFsProps.

(** sys_execve returns only when it fails: [None] is a process replaced. *)
Class UnixSys (W : Type) : Type := {
  sys_getdents64 : Z -> Z -> W -> Z * list Z * W;
  sys_execve : list Z -> W -> option Z * W;
  sys_dup : Z -> W -> Z * W;
  sys_fstat : Z -> W -> Z * list Z * W;
  sys_clock_ms : W -> Z * W }.

Definition ENOENT : Z := 2.
Definition EMFILE : Z := 24.
Definition O_DIRECTORY : Z := 0x10000.

(** ** Directories (dirent.c) *)

Definition DIRENT_BUF : Z := 1024.
Record dirent := mk_dirent { de_ino : Z; de_type : Z; de_name : list Z }.
(** [dir_buf] is the whole array; the entry readdir returns lies in the object
    and is a result here. *)
Record DIR := mk_DIR { dir_fd : Z; bpos : Z; blen : Z; dir_buf : list Z }.

Fixpoint dec_u64 (l : list Z) : Z := match l with [] => 0 | b :: r => Z.lor (u64 (Z.shiftl (dec_u64 r) 8)) b end.

(** The name before the NUL, cut at 255 bytes. *)
Fixpoint name_loop (k : nat) (l : list Z) : list Z :=
  match k, l with
  | S k, c :: l => if c =? 0 then [] else c :: name_loop k l
  | _, _ => []
  end.

Section Dirent.
Context {W : Type} `{Sys W} `{UnixSys W}.
Implicit Types e : env W.

Definition SIZEOF_DIR : Z := 1320.
Definition opendir (path : list Z) e : option DIR * env W :=
  let '(fd_, e) := open path O_DIRECTORY 0 e in
  if fd_ <? 0 then (None, e) else
  let '(d, w) := malloc SIZEOF_DIR (e_world e) in
  let e := e <| e_world := w |> in
  if d =? 0 then let '(_, e) := close fd_ e in (None, e) else (Some (mk_DIR fd_ 0 0 (replicate 1024 0)), e).

Definition readdir (d : DIR) e : option dirent * DIR * env W :=
  let '(ok, d, e) :=
    if blen d <=? bpos d then
      let '(n, b, w) := sys_getdents64 (dir_fd d) DIRENT_BUF (e_world e) in
      let e := e <| e_world := w |> in
      if i64 n <=? 0 then (false, d, e) else (true, mk_DIR (dir_fd d) 0 (i64 n) (splice (dir_buf d) 0 b), e)
    else (true, d, e) in
  if negb ok then (None, d, e) else
  let rec := drop (Z.to_nat (bpos d)) (dir_buf d) in
  let reclen := u16 (Z.lor (nth 16 rec 0) (Z.shiftl (nth 17 rec 0) 8)) in
  (Some (mk_dirent (dec_u64 (take 8 rec)) (nth 18 rec 0) (name_loop 255 (drop 19 rec))),
   mk_DIR (dir_fd d) (bpos d + reclen) (blen d) (dir_buf d), e).

(** [dptr] is the address of the object. *)
Definition closedir (dptr : Z) (d : DIR) e : Z * env W := close (dir_fd d) (e <| e_world := free dptr (e_world e) |>).
End Dirent.

(** ** Time (time.c) *)

Record tm := mk_tm {
  tm_sec : Z; tm_min : Z; tm_hour : Z; tm_mday : Z; tm_mon : Z; tm_year : Z; tm_wday : Z; tm_yday : Z; tm_isdst : Z }.

Section Clock.
Context {W : Type} `{UnixSys W}.
Implicit Types e : env W.
Definition clock_ms e : Z * env W := let '(ms, w) := sys_clock_ms (e_world e) in (u64 ms, e <| e_world := w |>).
(** The value returned, which is also what is stored through the pointer. *)
Definition time e : Z * env W := let '(ms, e) := clock_ms e in (i64 (ms / 1000), e).
Definition clock_gettime (clk_id : Z) e : Z * Z * env W :=
  let '(ms, e) := clock_ms e in (i64 (ms / 1000), i64 (u64 (ms mod 1000 * 1000000)), e).
Definition clock e : Z * env W := let '(ms, e) := clock_ms e in (i64 ms, e).

(** C's [%] and [/] truncate. *)
Definition broken_down (t : Z) : tm :=
  let day := Z.rem t 86400 in
  let day := if day <? 0 then day + 86400 else day in
  mk_tm (Z.rem day 60) (Z.rem (Z.quot day 60) 60) (Z.quot day 3600) 1 0 70 0 0 0.
Definition localtime (timep : option Z) e : tm * env W :=
  let '(t, e) := match timep with Some t => (t, e) | None => time e end in (broken_down t, e).
End Clock.

(** The bytes put and how many. *)
Definition put2 (s : Z -> Z) (o room v : Z) : Z * (Z -> Z) :=
  if room <? 2 then (o, s)
  else (o + 2, set_byte (set_byte s o (u8 (48 + Z.rem (Z.quot v 10) 10))) (o + 1) (u8 (48 + Z.rem v 10))).

Section Strftime.
Variables (max : Z) (t : tm).
Definition st : Type := Z * (Z -> Z).
Definition two (v : Z) (x : st) : st := let '(o, s) := x in put2 s o (max - o) v.
Definition one (c : Z) (x : st) : st := let '(o, s) := x in (o + 1, set_byte s o c).
Definition colon (x : st) : st := if x.1 + 1 <? max then one 58 x else x.
Definition year (x : st) : st :=
  let y := i32 (tm_year t + 1900) in
  let dig v := u8 (48 + Z.rem v 10) in
  if x.1 + 4 <? max then one (dig y) (one (dig (Z.quot y 10)) (one (dig (Z.quot y 100)) (one (dig (Z.quot y 1000)) x))) else x.
Definition other (c : Z) (x : st) : st := if x.1 + 2 <? max then one c (one 37 x) else x.

Definition conversion (c : Z) (x : st) : st :=
  if c =? 72 then two (tm_hour t) x
  else if c =? 77 then two (tm_min t) x
  else if c =? 83 then two (tm_sec t) x
  else if c =? 109 then two (i32 (tm_mon t + 1)) x
  else if c =? 100 then two (tm_mday t) x
  else if c =? 121 then two (Z.rem (tm_year t) 100) x
  else if c =? 84 then two (tm_sec t) (colon (two (tm_min t) (colon (two (tm_hour t) x))))
  else if c =? 89 then year x
  else if c =? 110 then one 10 x
  else if c =? 116 then one 9 x
  else if c =? 37 then one 37 x
  else other c x.

(** The walk: the count, or 0 when no room is left, and the memory at [s]. *)
Fixpoint strftime_loop (f : list Z) (x : st) : Z * (Z -> Z) :=
  match f with
  | [] => (x.1, set_byte x.2 x.1 0)
  | c :: f =>
      if max <=? x.1 + 1 then (0, x.2) else
      if negb (c =? 37) then strftime_loop f (one c x) else
      match f with
      | [] => (x.1, set_byte x.2 x.1 0)
      | c :: f => strftime_loop f (conversion c x)
      end
  end.
End Strftime.
(** [None] is a null pointer. *)
Definition strftime (s : option (Z -> Z)) (max : Z) (format : list Z) (t : tm) : Z * option (Z -> Z) :=
  match s with
  | None => (0, None)
  | Some s => if max =? 0 then (0, Some s) else let '(n, s) := strftime_loop max t format (0, s) in (n, Some s)
  end.

(** ** Programs (unistd.c) *)

Inductive exec_result (W : Type) : Type := Replaced (w : W) | Failed (e : env W).
Arguments Replaced {W}. Arguments Failed {W}.

Definition exts : list (list Z) := [[46; 109; 122; 120]; [46; 109; 122; 98]].
Definition path_has_slash (s : list Z) : bool := bool_decide (47 ∈ s).
Definition BUF : Z := 256.

Section Exec.
Context {W : Type} `{Sys W} `{UnixSys W}.
Implicit Types e : env W.

Definition execve (path : list Z) e : exec_result W :=
  match sys_execve path (e_world e) with
  | (None, w) => Replaced w
  | (Some r, w) => Failed (syscall_ret r (e <| e_world := w |>)).2
  end.

Fixpoint exec_exts (base : list Z) (l : list (list Z)) e : exec_result W :=
  match l with
  | [] => Failed e
  | x :: l =>
      match execve (base ++ x) e with
      | Replaced w => Replaced w
      | Failed e => if negb (errno e =? ENOENT) then Failed e else exec_exts base l e
      end
  end.
Definition exec_forms (base : list Z) e : exec_result W :=
  match execve base e with
  | Replaced w => Replaced w
  | Failed e => if negb (errno e =? ENOENT) then Failed e else exec_exts base exts e
  end.

(** One entry of PATH: up to the colon, and what follows it. *)
Fixpoint path_entry (p : list Z) : list Z * option (list Z) :=
  match p with
  | [] => ([], None)
  | c :: p => if c =? 58 then ([], Some p) else let '(d, r) := path_entry p in (c :: d, r)
  end.

(** Each pass uses up an entry; the fuel is the length of PATH. *)
Fixpoint search_path (fuel : nat) (file p : list Z) e : exec_result W :=
  match fuel with
  | O => Failed e
  | S k =>
      let '(dir, rest) := path_entry p in
      let dir := match dir with [] => [46] | _ => dir end in
      let r := if Z.of_nat (length dir) + 1 + Z.of_nat (length file) + 4 + 1 <=? BUF
               then match exec_forms (dir ++ [47] ++ file) e with
                    | Replaced w => inr (Replaced w)
                    | Failed e => if negb (errno e =? ENOENT) then inr (Failed e) else inl e
                    end
               else inl e in
      match r with
      | inr r => r
      | inl e => match rest with
                 | None => Failed (e <| errno := ENOENT |>)
                 | Some p => search_path k file p e
                 end
      end
  end.

(** [file] and [path] are [None] for a null pointer; a failure returns -1. *)
Definition execvp (file path : option (list Z)) e : exec_result W :=
  match file with
  | None | Some [] => Failed (e <| errno := ENOENT |>)
  | Some file =>
      if path_has_slash file then
        if Z.of_nat (length file) + 4 + 1 <=? BUF then exec_forms file e else execve file e
      else
        let path := match path with None | Some [] => [47; 98; 105; 110] | Some p => p end in
        search_path (S (length path)) file path e
  end.

(** ** Descriptors and files *)

Definition dup (oldfd : Z) e : Z * env W :=
  let '(r, w) := sys_dup oldfd (e_world e) in let '(n, e) := syscall_ret r (e <| e_world := w |>) in (i32 n, e).

Fixpoint close_held (held : list Z) e : env W := match held with [] => e | fd_ :: l => close_held l (close fd_ e).2 end.
(** [held] is newest first; 65 passes fill the array. *)
Fixpoint dupfd_loop (fuel : nat) (fd_ minfd : Z) (held : list Z) e : Z * env W :=
  match fuel with
  | O => (-1, e)
  | S k =>
      let '(r, e) := dup fd_ e in
      if r <? 0 then (r, close_held held e)
      else if minfd <=? r then (r, close_held held e)
      else if 64 <=? Z.of_nat (length held) then (-1, close_held held ((close r e).2 <| errno := EMFILE |>))
      else dupfd_loop k fd_ minfd (r :: held) e
  end.
Definition F_DUPFD : Z := 0.
Definition fcntl (fd_ cmd arg : Z) e : Z * env W := if cmd =? F_DUPFD then dupfd_loop 65 fd_ (i32 arg) [] e else (0, e).

Definition fstat (fd_ : Z) e : Z * list Z * env W :=
  let '(r, b, w) := sys_fstat fd_ (e_world e) in let '(n, e) := syscall_ret r (e <| e_world := w |>) in (i32 n, b, e).
Definition stat (path : list Z) e : Z * list Z * env W :=
  let '(fd_, e) := open path O_RDONLY 0 e in
  let '(fd_, e) := if fd_ <? 0 then open path O_DIRECTORY 0 e else (fd_, e) in
  if fd_ <? 0 then (-1, [], e) else
  let '(r, b, e) := fstat fd_ e in let '(_, e) := close fd_ e in (r, b, e).
Definition lstat (path : list Z) e : Z * list Z * env W := stat path e.
Definition access (path : list Z) (mode_ : Z) e : Z * env W :=
  let '(r, _, e) := stat path e in (if negb (r =? 0) then -1 else 0, e).
Definition creat (path : list Z) (mode_ : Z) e : Z * env W := open path (Z.lor (Z.lor O_WRONLY O_CREAT) O_TRUNC) mode_ e.
Definition umask (g_umask mask : Z) : Z * Z := (g_umask, Z.land mask 511).
Definition gethostname (name : option (list Z)) (len : Z) : Z * list Z :=
  match name with
  | None => (-1, [])
  | Some m => if len =? 0 then (-1, m) else
              let h := take (Z.to_nat (len - 1)) [109; 97; 105; 122; 101] in (0, h ++ [0] ++ drop (length h + 1) m)
  end.
End Exec.

(** ** Listing a directory

    The records the file-system core writes, read by readdir. *)

Definition record (k : Z) (name : list Z) : list Z :=
  let nlen := Z.of_nat (length name) in
  let reclen := hostfs_dirent_reclen nlen in
  le_bytes 8 (HOSTFS_ROOT_INO + k + 1) ++ le_bytes 8 (k + 1) ++ le_bytes 2 reclen ++ [u8 HOSTFS_DT_DIR] ++ name ++
  replicate (Z.to_nat (reclen - 19 - nlen)) 0.
Fixpoint records (k : Z) (names : list (list Z)) : list Z :=
  match names with [] => [] | n :: l => record k n ++ records (k + 1) l end.

(** Names a directory entry can hold. *)
Definition entry_name (n : list Z) : Prop := (length n <= 255)%nat /\ Forall (fun c => c <> 0) n.

Lemma reclen_bounds n : (n <= 255)%nat -> Z.of_nat n + 20 <= hostfs_dirent_reclen (Z.of_nat n) <= Z.of_nat n + 27.
Proof.
  intros Hn. unfold hostfs_dirent_reclen, clr. rewrite (u64_small (19 + _ + 1)), u64_small by (rewrite ?u64_small; lia).
  change 7 with (Z.ones 3) at 2 4. rewrite Z.ldiff_ones_r, Z.shiftl_mul_pow2, Z.shiftr_div_pow2 by lia.
  pose proof (Z.div_mod (19 + Z.of_nat n + 1 + 7) (2 ^ 3)). pose proof (Z.mod_pos_bound (19 + Z.of_nat n + 1 + 7) (2 ^ 3)). lia.
Qed.

Lemma record_length k n : entry_name n -> Z.of_nat (length (record k n)) = hostfs_dirent_reclen (Z.of_nat (length n)).
Proof.
  intros [Hn _]. pose proof (reclen_bounds _ Hn). unfold record.
  rewrite !length_app, !le_bytes_length, length_replicate. cbn [length]. lia.
Qed.

Lemma dec_u64_le n : forall v, (n <= 8)%nat -> dec_u64 (le_bytes n v) = v mod 2 ^ (8 * Z.of_nat n).
Proof.
  induction n as [|n IH]; intros v Hn; cbn [le_bytes dec_u64]; [by rewrite Z.mod_1_r|].
  rewrite IH by lia. rewrite <- low_byte_lor, Z.lor_comm. f_equal. apply u64_small.
  pose proof (Z.mod_pos_bound (Z.shiftr v 8) (2 ^ (8 * Z.of_nat n)) ltac:(lia)) as Hm. rewrite Z.shiftl_mul_pow2 by lia.
  pose proof (Z.pow_le_mono_r 2 (8 * Z.of_nat n) 56 ltac:(lia) ltac:(lia)). nia.
Qed.

Lemma name_loop_stops n rest : forall k, (length n <= k)%nat -> Forall (fun c => c <> 0) n ->
  name_loop k (n ++ 0 :: rest) = n.
Proof.
  induction n as [|c n IH]; intros k Hk Hn; [by destruct k|]. destruct k as [|k]; cbn in Hk; [lia|]. cbn.
  inversion_clear Hn. rewrite (proj2 (Z.eqb_neq _ _)) by done. by rewrite IH by (lia || done).
Qed.

(** Decoding a record gives its fields back. *)
Lemma record_decodes k n rest : entry_name n -> 0 <= k < 2 ^ 32 ->
  let r := record k n ++ rest in
  dec_u64 (take 8 r) = HOSTFS_ROOT_INO + k + 1 /\ nth 18 r 0 = HOSTFS_DT_DIR /\ name_loop 255 (drop 19 r) = n /\
  u16 (Z.lor (nth 16 r 0) (Z.shiftl (nth 17 r 0) 8)) = hostfs_dirent_reclen (Z.of_nat (length n)).
Proof.
  intros Hn Hk r. pose proof Hn as [Hlen Hnz]. pose proof (reclen_bounds _ Hlen) as Hr.
  set (reclen := hostfs_dirent_reclen _) in *. subst r. unfold record. fold reclen.
  destruct (Z.to_nat (reclen - 19 - Z.of_nat (length n))) as [|p] eqn:Ep; [lia|]. rewrite <- !app_assoc.
  split; [|split; [|split]].
  - rewrite take_app_le, take_ge by (rewrite le_bytes_length; lia). rewrite dec_u64_le by lia. apply Z.mod_small.
    unfold HOSTFS_ROOT_INO. change (2 ^ (8 * Z.of_nat 8)) with (2 ^ 64). lia.
  - done.
  - change (drop 19 _) with (n ++ replicate (S p) 0 ++ rest). cbn [replicate app]. by apply name_loop_stops.
  - change (nth 16 _ 0) with (Z.land reclen 255). change (nth 17 _ 0) with (Z.land (Z.shiftr reclen 8) 255).
    change 255 with (Z.ones 8). rewrite !Z.land_ones, lor_byte_shift, Z.shiftr_div_pow2 by (lia || (apply Z.mod_pos_bound; lia)).
    unfold u16. rewrite (Z.mod_small (reclen / 2 ^ 8)).
    + pose proof (Z.div_mod reclen (2 ^ 8)). rewrite Z.mod_small; [lia|]. pose proof (Z.mod_pos_bound reclen (2 ^ 8)). lia.
    + split; [apply Z.div_pos; lia|apply Z.div_lt_upper_bound; lia].
Qed.

(** emit_names writes as many records as fit, at least one into an empty
    page. *)
Lemma emit_names_records l : Forall entry_name l -> forall k buf,
  Z.of_nat (length buf) <= 1024 ->
  exists j, (j <= length l)%nat /\ emit_names l k buf 1024 = (buf ++ records k (take j l), k + Z.of_nat j) /\
  (buf = [] -> l <> [] -> (1 <= j)%nat) /\ Z.of_nat (length (buf ++ records k (take j l))) <= 1024.
Proof.
  induction l as [|n l IH]; intros Hl k buf Hbuf; cbn [emit_names].
  { exists O. cbn. rewrite app_nil_r, Z.add_0_r. split; [lia|]. split; [done|]. split; [done|lia]. }
  inversion_clear Hl as [|? ? Hn Hl']. pose proof (reclen_bounds _ (proj1 Hn)) as Hr. pose proof (proj1 Hn) as Hlen. unfold hostfs_emit_dirent.
  rewrite u64_small by lia. destruct (Z.ltb_spec 1024 (Z.of_nat (length buf) + hostfs_dirent_reclen (Z.of_nat (length n)))) as [Hfull|Hfit].
  - exists O. cbn. rewrite app_nil_r, Z.add_0_r. split; [lia|]. split; [done|]. split; [|done]. intros -> _. cbn in Hfull. lia.
  - fold (record k n). pose proof (record_length k n Hn) as Hrl.
    destruct (IH Hl' (k + 1) (buf ++ record k n)) as (j & Hj & E & _ & Hle); [rewrite length_app; lia|].
    exists (S j). cbn [length take records]. rewrite app_assoc, E. split; [lia|]. split; [f_equal; lia|]. split; [lia|done].
Qed.

(** *** What readdir relies on: a listing served page by page from a cursor *)
Class ListingLaws {W : Type} `{UnixSys W} (fd_ : Z) (names : list (list Z)) (ready : W -> Prop) (cursor : W -> Z) : Prop := {
  getdents_end w : ready w -> Z.of_nat (length names) <= cursor w -> (sys_getdents64 fd_ DIRENT_BUF w).1.1 = 0;
  getdents_page w buf k : ready w -> 0 <= cursor w < Z.of_nat (length names) ->
    emit_names (drop (Z.to_nat (cursor w)) names) (cursor w) [] DIRENT_BUF = (buf, k) -> buf <> [] ->
    exists w', sys_getdents64 fd_ DIRENT_BUF w = (Z.of_nat (length buf), buf, w') /\ ready w' /\ cursor w' = k }.

Section Listing.
Context {W : Type} `{UnixSys W} (fd_ : Z) (names : list (list Z)) (ready : W -> Prop) (cursor : W -> Z) `{!ListingLaws fd_ names ready cursor}.
Implicit Types e : env W.
Hypothesis Hnames : Forall entry_name names.
Hypothesis Hcount : Z.of_nat (length names) < 2 ^ 31.

(** [rest] is still to come: the records left in the page, then the names
    behind the cursor. *)
Definition reading (d : DIR) e (rest : list (list Z)) : Prop := exists k ns,
  ready (e_world e) /\
  dir_fd d = fd_ /\ drop (Z.to_nat (bpos d)) (take (Z.to_nat (blen d)) (dir_buf d)) = records k ns /\ length (dir_buf d) = 1024%nat /\
  0 <= bpos d <= blen d /\ blen d <= 1024 /\ 0 <= k /\ Forall entry_name ns /\
  0 <= cursor (e_world e) <= Z.of_nat (length names) /\ k + Z.of_nat (length ns) <= 2 ^ 31 /\
  rest = ns ++ drop (Z.to_nat (cursor (e_world e))) names.

(** A page with records in it. *)
Lemma decode_step d e k n ns : dir_fd d = fd_ -> drop (Z.to_nat (bpos d)) (take (Z.to_nat (blen d)) (dir_buf d)) = records k (n :: ns) ->
  0 <= bpos d -> 0 <= k -> k + Z.of_nat (length (n :: ns)) <= 2 ^ 31 -> Forall entry_name (n :: ns) ->
  (blen d <=? bpos d) = false /\
  exists d', readdir d e = (Some (mk_dirent (HOSTFS_ROOT_INO + k + 1) HOSTFS_DT_DIR n), d', e) /\
  dir_fd d' = fd_ /\ drop (Z.to_nat (bpos d')) (take (Z.to_nat (blen d')) (dir_buf d')) = records (k + 1) ns /\
  dir_buf d' = dir_buf d /\ blen d' = blen d /\ 0 <= bpos d' <= blen d'.
Proof.
  intros Hfd Hb Hp Hk Hkn Hns. inversion_clear Hns as [|? ? Hn Hns']. cbn [records] in Hb.
  pose proof (record_length k n Hn) as Hrl. pose proof (reclen_bounds _ (proj1 Hn)) as Hr.
  pose proof (f_equal length Hb) as Hlen. rewrite length_drop, length_take, length_app in Hlen.
  assert (Hlt : (blen d <=? bpos d) = false) by (apply Z.leb_gt; lia). split; [done|].
  assert (Hd : drop (Z.to_nat (bpos d)) (dir_buf d) = record k n ++ (records (k + 1) ns ++ drop (Z.to_nat (blen d)) (dir_buf d))).
  { rewrite <- (take_drop (Z.to_nat (blen d)) (dir_buf d)) at 1. rewrite drop_app_le, Hb, app_assoc by (rewrite length_take; lia). done. }
  destruct (record_decodes k n (records (k + 1) ns ++ drop (Z.to_nat (blen d)) (dir_buf d)) Hn ltac:(cbn [length] in Hkn; lia)) as (D1 & D2 & D3 & D4).
  unfold readdir. rewrite Hlt. cbn [negb]. rewrite Hd, D1, D2, D3, D4. eexists. split; [done|]. cbn. split; [done|].
  split; [|split; [done|]; split; [done|lia]].
  rewrite Z2Nat.inj_add, <- drop_drop, Hb by lia. rewrite <- Hrl, Nat2Z.id, drop_app_length. done.
Qed.

(** A drained page is refilled. *)
Lemma refill_step d e page w : dir_fd d = fd_ -> blen d <= bpos d -> length (dir_buf d) = 1024%nat ->
  sys_getdents64 fd_ DIRENT_BUF (e_world e) = (Z.of_nat (length page), page, w) -> page <> [] -> (length page <= 1024)%nat ->
  let d1 := mk_DIR fd_ 0 (Z.of_nat (length page)) (splice (dir_buf d) 0 page) in
  readdir d e = readdir d1 (e <| e_world := w |>) /\ take (length page) (dir_buf d1) = page /\ length (dir_buf d1) = 1024%nat.
Proof.
  intros Hfd Hge Hl G Hne Hle d1. assert (Hpl : (0 < length page)%nat) by (destruct page; [done|cbn; lia]).
  split; [|split].
  - unfold readdir. subst d1. cbn [bpos blen dir_fd dir_buf]. rewrite (proj2 (Z.leb_le _ _)), Hfd, G by done.
    rewrite (proj2 (Z.leb_gt (Z.of_nat (length page)) 0)) by lia. rewrite i64_small by lia. by rewrite (proj2 (Z.leb_gt _ _)) by lia.
  - cbn. unfold splice. change (Z.to_nat 0) with O. rewrite take_0. cbn [app]. apply take_app_length.
  - cbn. unfold splice. rewrite !length_app, length_take, length_drop. lia.
Qed.

Lemma reading_step d e rest : reading d e rest ->
  match rest with
  | [] => (readdir d e).1.1 = None
  | n :: rest' => exists d' e' ino, readdir d e = (Some (mk_dirent ino HOSTFS_DT_DIR n), d', e') /\ reading d' e' rest'
  end.
Proof.
  intros (k & ns & Hrd & Hfd & Hb & Hl & Hp & Hmax & Hk & Hns & Hc & Hkn & ->). destruct ns as [|n ns]; cbn [app].
  - cbn [records] in Hb. pose proof (f_equal length Hb) as Hlen. rewrite length_drop, length_take in Hlen. cbn in Hlen.
    assert (Hge : blen d <= bpos d) by lia.
    destruct (Z.le_gt_cases (Z.of_nat (length names)) (cursor (e_world e))) as [Hend|Hmore].
    + rewrite drop_ge by lia. unfold readdir. rewrite (proj2 (Z.leb_le _ _)), Hfd by done.
      pose proof (getdents_end (e_world e) Hrd Hend) as E.
      destruct (sys_getdents64 fd_ DIRENT_BUF (e_world e)) as [[r b] w]. cbn in E. by subst r.
    + set (c := cursor (e_world e)) in *. destruct (drop (Z.to_nat c) names) as [|n l] eqn:El.
      { apply (f_equal length) in El. rewrite length_drop in El. cbn in El. lia. }
      assert (Hall : Forall entry_name (n :: l)) by (rewrite <- El; by apply Forall_drop).
      destruct (emit_names_records (n :: l) Hall c [] ltac:(cbn; lia)) as (j & Hj & E & Hj1 & Hlen1).
      specialize (Hj1 eq_refl ltac:(done)). destruct j as [|j]; [lia|]. cbn [take] in E, Hlen1. cbn [app] in E, Hlen1.
      set (page := records c (n :: take j l)) in *.
      assert (Hpage : page <> []) by (subst page; cbn; done).
      destruct (getdents_page (names := names) (cursor := cursor) (e_world e) page (c + Z.of_nat (S j)) Hrd ltac:(fold c; lia)) as (w & G & Hrw & Hw);
        [fold c; by rewrite El|done|].
      assert (Hcl : Z.of_nat (S (length l)) = Z.of_nat (length names) - c).
      { apply (f_equal length) in El. rewrite length_drop in El. cbn in El. subst c. lia. }
      assert (Htl : (length (take j l) = j)%nat) by (rewrite length_take; cbn in Hj; lia).
      destruct (refill_step d e page w Hfd Hge Hl G Hpage ltac:(lia)) as (R1 & Hpg & Hl1).
      set (d1 := mk_DIR fd_ 0 _ _) in *. inversion_clear Hall as [|? ? Hn Hl0].
      destruct (decode_step d1 (e <| e_world := w |>) c n (take j l)) as (_ & d' & R & Hd' & Hb' & Hbuf & Hbl & Hp');
        [done|subst d1; cbn [bpos blen]; rewrite Nat2Z.id; exact Hpg|cbn; lia|lia|cbn [length]; rewrite Htl; cbn in Hj; lia| |].
      { constructor; [done|by apply Forall_take]. }
      exists d', (e <| e_world := w |>), (HOSTFS_ROOT_INO + c + 1). split; [by rewrite R1|].
      exists (c + 1), (take j l). split; [done|]. split; [done|]. split; [done|]. split; [by rewrite Hbuf|]. split; [done|].
      split; [rewrite Hbl; exact Hlen1|]. split; [lia|].
      split; [by apply Forall_take|]. cbn. rewrite Hw. cbn in Hj. split; [lia|].
      split; [rewrite Htl; lia|]. replace (Z.to_nat (c + Z.of_nat (S j))) with (Z.to_nat c + S j)%nat by lia.
      rewrite <- drop_drop, El. cbn [drop]. by rewrite take_drop.
  - destruct (decode_step d e k n ns Hfd Hb (proj1 Hp) Hk Hkn Hns) as (_ & d' & R & Hd' & Hb' & Hbuf & Hbl & Hp').
    exists d', e, (HOSTFS_ROOT_INO + k + 1). split; [done|]. inversion_clear Hns.
    exists (k + 1), ns. cbn [length] in Hkn. split; [done|]. split; [done|]. split; [done|]. split; [by rewrite Hbuf|]. split; [done|].
    split; [by rewrite Hbl|]. split; [lia|]. split; [done|]. split; [done|]. split; [lia|done].
Qed.

(** Reading to the end. *)
Fixpoint readdir_all (fuel : nat) (d : DIR) e : list dirent :=
  match fuel with
  | O => []
  | S k => match readdir d e with (Some x, d, e) => x :: readdir_all k d e | (None, _, _) => [] end
  end.

Lemma reading_all fuel : forall d e rest, reading d e rest -> (length rest < fuel)%nat ->
  map de_name (readdir_all fuel d e) = rest.
Proof.
  induction fuel as [|k IH]; intros d e rest R Hf; [lia|]. cbn [readdir_all]. pose proof (reading_step d e rest R) as S.
  destruct rest as [|n rest].
  - destruct (readdir d e) as [[x d'] e']. cbn in S. by subst x.
  - destruct S as (d' & e' & ino & -> & R'). cbn [map de_name]. f_equal. apply IH; [done|]. cbn in Hf. lia.
Qed.
End Listing.

(** The core's own listing of the root, entered by a native system call. *)
Section Root.
Context {B : Type} `{Backend B} `{UnixSys (hostfs B)} (t : hostfs_table) (fd_ : Z).
Definition native_getdents (fd count : Z) (s : hostfs B) : Z * list Z * hostfs B :=
  let '((n, b), s) := hostfs_getdents t fd count s in (n, b, s).
(** The slot of the descriptor in the core's table. *)
Definition root_slot (s : hostfs B) : option hostfs_fd_slot := g_fds s !! Z.to_nat (fd_ - HOSTFS_FD_BASE).
Definition root_open (s : hostfs B) : Prop :=
  0 <= fd_ - HOSTFS_FD_BASE < HOSTFS_MAX_FDS /\ exists sl, root_slot s = Some sl /\ in_use sl = true /\ is_root sl = true.
Definition root_position (s : hostfs B) : Z := match root_slot s with Some sl => root_cursor sl | None => 0 end.
Hypothesis Hnative : forall count s, sys_getdents64 fd_ count s = native_getdents fd_ count s.

Lemma root_getdents count s sl : root_open s -> root_slot s = Some sl ->
  hostfs_getdents t fd_ count s = getdents_root t (fd_ - HOSTFS_FD_BASE) sl count s.
Proof.
  intros (Hr & sl' & E & Hu & Ht) E'. rewrite E in E'. injection E' as <-.
  assert (F : slot_for_fd fd_ s = (Some (fd_ - HOSTFS_FD_BASE, sl'), s)).
  { unfold slot_for_fd. rewrite (proj2 (Z.ltb_ge _ _)), (proj2 (Z.leb_gt _ _)) by lia. cbn [orb].
    unfold zlookup. rewrite (proj2 (Z.ltb_ge _ _)) by lia. fold (root_slot s). by rewrite E, Hu. }
  unfold hostfs_getdents, with_fd, mbind, HM_bind. by rewrite F, Ht.
Qed.

#[local] Instance root_listing : ListingLaws fd_ (build_root_names t) root_open root_position.
Proof.
  split.
  - intros s Ho Hc. pose proof Ho as (_ & sl & E & _). rewrite Hnative. unfold native_getdents.
    rewrite (root_getdents _ s sl Ho E). unfold root_position in Hc. rewrite E in Hc. unfold getdents_root.
    by rewrite (proj2 (Z.leb_le _ _)) by done.
  - intros s buf k Ho Hc Em Hne. pose proof Ho as (Hr & sl & E & Hu & Ht). rewrite Hnative. unfold native_getdents.
    rewrite (root_getdents _ s sl Ho E). unfold root_position in Hc, Em. rewrite E in Hc, Em. unfold getdents_root.
    rewrite (proj2 (Z.leb_gt _ _)) by lia. unfold list_names. rewrite Em, bool_decide_eq_false_2 by done.
    eexists. split; [done|]. unfold root_open, root_position, root_slot in *. cbn.
    rewrite list_lookup_alter_eq, E. cbn. split; [|done]. split; [done|]. eexists. split; [done|]. done.
Qed.

(** The names of the root can be entries when no prefix has a NUL. *)
Lemma skip_seps_sub (P : Z -> Prop) l : Forall P l -> Forall P (skip_seps l).
Proof. induction 1 as [|c l Hc Hl IH]; cbn; [constructor|]. case_match; [done|by constructor]. Qed.
Lemma take_comp_sub (P : Z -> Prop) l : Forall P l -> Forall P (take_comp l).1.
Proof. induction 1 as [|c l Hc Hl IH]; cbn; [constructor|]. case_match; [constructor|]. destruct (take_comp l). by constructor. Qed.

Lemma root_names_entries l : Forall (fun m => Forall (fun c => c <> 0) (guest_prefix m)) l -> forall store,
  Forall entry_name store -> (length store <= 64)%nat ->
  Forall entry_name (root_names_loop l store) /\ (length (root_names_loop l store) <= 64)%nat.
Proof.
  induction 1 as [|m l Hm Hl IH]; intros store Hs Hlen; cbn [root_names_loop]; [done|].
  unfold HOSTFS_MAX_MOUNTS. destruct (Z.ltb_spec (Z.of_nat (length store)) 64); [|done]. apply IH.
  - case_match; [done|]. apply Forall_app. split; [done|]. constructor; [|constructor]. unfold top_component. split.
    + rewrite length_take. lia.
    + by apply Forall_take, take_comp_sub, skip_seps_sub.
  - case_match; [done|]. rewrite length_app. cbn. lia.
Qed.

(** *** What the root shows *)

(** The first component of a path, cut to the 255 bytes of a name. *)
Definition top_name (prefix : list Z) : list Z := take 255 (match comps prefix with c :: _ => c | [] => [] end).
(** A list without repetitions, at their first occurrence. *)
Fixpoint firsts (l : list (list Z)) : list (list Z) :=
  match l with [] => [] | x :: l => x :: filter (fun y => y <> x) (firsts l) end.

Lemma firsts_elem l x : x ∈ firsts l <-> x ∈ l.
Proof.
  induction l as [|y l IH]; [done|]. cbn [firsts]. rewrite !elem_of_cons, list_elem_of_filter, IH.
  destruct (decide (x = y)) as [->|]; [tauto|]. tauto.
Qed.
Lemma firsts_nodup l : NoDup (firsts l).
Proof.
  induction l as [|y l IH]; cbn [firsts]; [constructor|]. constructor; [|by apply NoDup_filter].
  rewrite list_elem_of_filter. by intros [? _].
Qed.
Lemma firsts_length l : (length (firsts l) <= length l)%nat.
Proof.
  induction l as [|y l IH]; cbn [firsts length]; [lia|]. pose proof (length_filter (fun z => z <> y) (firsts l)). lia.
Qed.

Lemma top_component_name prefix : top_component prefix 256 = top_name prefix.
Proof.
  unfold top_component, top_name. change (Z.to_nat (256 - 1)) with 255%nat. f_equal.
  destruct (take_comp (skip_seps prefix)) as [a b] eqn:E. rewrite (comps_take _ _ _ E). cbn [fst].
  destruct (decide (a = [])) as [->|]; [|done].
  assert (Hb : b = []); [|by rewrite Hb].
  assert (Hs : skip_seps prefix = [] \/ exists c l, skip_seps prefix = c :: l /\ c <> slash).
  { clear. induction prefix as [|c l IH]; cbn; [by left|]. destruct (Z.eqb_spec c slash); [done|]. right. eauto. }
  destruct Hs as [Hs|(c & l & Hs & Hc)]; rewrite Hs in E; cbn in E; [by injection E as <-|].
  rewrite (proj2 (Z.eqb_neq c slash)) in E by done. by destruct (take_comp l).
Qed.

Lemma root_names_firsts l : forall store, (length store + length l <= 64)%nat ->
  root_names_loop l store = store ++ filter (fun y => y ∉ store) (firsts (map (fun m => top_name (guest_prefix m)) l)).
Proof.
  induction l as [|m l IH]; intros store Hlen; cbn [root_names_loop map firsts length] in *; [by rewrite app_nil_r|].
  rewrite (proj2 (Z.ltb_lt _ _)) by (unfold HOSTFS_MAX_MOUNTS; lia). rewrite top_component_name.
  set (x := top_name (guest_prefix m)). set (F := firsts _). rewrite filter_cons.
  destruct (existsb (fun n => bool_decide (n = x)) store) eqn:Ex.
  - assert (Hin : x ∈ store) by (apply existsb_exists in Ex as (y & Hy & ->%bool_decide_eq_true); by apply list_elem_of_In).
    rewrite decide_False by tauto. rewrite IH by lia. f_equal. symmetry. rewrite list_filter_filter. apply list_filter_iff. intros y.
    split; [tauto|]. intros Hy. split; [done|]. by intros ->.
  - assert (Hin : x ∉ store).
    { intros Hi%list_elem_of_In. assert (existsb (fun n => bool_decide (n = x)) store = true); [|congruence].
      apply existsb_exists. exists x. split; [done|]. by apply bool_decide_eq_true. }
    rewrite decide_True by done. rewrite IH by (rewrite length_app; cbn; lia). rewrite <- app_assoc. cbn [app]. do 2 f_equal.
    rewrite list_filter_filter. apply list_filter_iff. intros y. rewrite elem_of_app, list_elem_of_singleton. tauto.
Qed.
Lemma root_names_spec : (length (mounts t) <= 64)%nat ->
  build_root_names t = firsts (map (fun m => top_name (guest_prefix m)) (mounts t)).
Proof.
  intros Hlen. unfold build_root_names. rewrite root_names_firsts by done. cbn [app].
  induction (firsts _) as [|x l IH]; [done|]. rewrite filter_cons, decide_True by apply not_elem_of_nil. by rewrite IH.
Qed.

End Root.

(** ** Finding a program *)

(** The name itself, then with each extension. *)
Definition forms (base : list Z) : list (list Z) := base :: map (app base) exts.
(** The entries of PATH, split at the colons. *)
Fixpoint entries (p : list Z) : list (list Z) :=
  match p with
  | [] => [[]]
  | c :: p => if c =? 58 then [] :: entries p else match entries p with d :: l => (c :: d) :: l | [] => [[c]] end
  end.
(** Where a program is looked for, in order: a directory whose name leaves no
    room in the buffer is passed over. *)
Definition in_dir (file dir : list Z) : list (list Z) :=
  let dir := match dir with [] => [46] | _ => dir end in
  if Z.of_nat (length (dir ++ [47] ++ file)) + 4 + 1 <=? BUF then forms (dir ++ [47] ++ file) else [].
Definition candidates (file : list Z) (path : option (list Z)) : list (list Z) :=
  if bool_decide (47 ∈ file) then (if Z.of_nat (length file) + 4 + 1 <=? BUF then forms file else [file])
  else concat (map (in_dir file) (entries (match path with None | Some [] => [47; 98; 105; 110] | Some p => p end))).

Section Search.
Context {W : Type} `{UnixSys W}.
Implicit Types e : env W.

(** Trying names until one is there, or fails for another reason than that. *)
Fixpoint attempt (l : list (list Z)) e : exec_result W :=
  match l with
  | [] => Failed e
  | c :: l => match execve c e with
              | Replaced w => Replaced w
              | Failed e => if errno e =? ENOENT then attempt l e else Failed e
              end
  end.

Lemma exec_forms_attempt base e : exec_forms base e = attempt (forms base) e.
Proof.
  unfold exec_forms, forms. cbn [attempt]. destruct (execve base e) as [|e1]; [done|]. destruct (errno e1 =? ENOENT); cbn [negb]; [|done].
  revert e1. induction exts as [|x l IH]; intros e1; [done|]. cbn. destruct (execve (base ++ x) e1) as [|e2]; [done|].
  destruct (errno e2 =? ENOENT); cbn [negb]; [apply IH|done].
Qed.

Lemma attempt_app a : forall b e, errno e = ENOENT ->
  attempt (a ++ b) e = match attempt a e with
                       | Replaced w => Replaced w
                       | Failed e => if errno e =? ENOENT then attempt b e else Failed e
                       end.
Proof.
  induction a as [|c a IH]; intros b e He; cbn; [by rewrite He|]. destruct (execve c e) as [|e1]; [done|].
  destruct (Z.eqb_spec (errno e1) ENOENT) as [E|E]; [by apply IH|]. by rewrite (proj2 (Z.eqb_neq _ _)).
Qed.

Lemma path_entry_entries p : let '(d, r) := path_entry p in
  entries p = d :: match r with None => [] | Some r => entries r end /\
  match r with None => True | Some r => (length r < length p)%nat end.
Proof.
  induction p as [|c p IH]; cbn; [done|]. destruct (c =? 58); [split; [done|lia]|].
  destruct (path_entry p) as [d r]. destruct IH as [-> IH]. split; [done|]. destruct r; [lia|done].
Qed.

(** An error is an error number. *)
Hypothesis Hexec : forall p w r w', sys_execve p w = (Some r, w') -> -4095 <= i64 r <= -1.

(** So what errno was before does not matter. *)
Lemma execve_errno p e x : execve p (e <| errno := x |>) = execve p e.
Proof using Hexec.
  unfold execve. cbn. destruct (sys_execve p (e_world e)) as [[r|] w] eqn:E; [|done]. specialize (Hexec _ _ _ _ E).
  unfold syscall_ret. cbn. replace (u64 (-4096) <? u64 r) with true; [done|]. symmetry. apply Z.ltb_lt.
  change (u64 (-4096)) with (2 ^ 64 - 4096). unfold i64, u64 in *. pose proof (Z.mod_pos_bound (r + 2 ^ 63) (2 ^ 64)).
  pose proof (Z.mod_pos_bound r (2 ^ 64)). pose proof (Z.div_mod r (2 ^ 64)). pose proof (Z.div_mod (r + 2 ^ 63) (2 ^ 64)). lia.
Qed.
Lemma attempt_errno c l e x : attempt (c :: l) (e <| errno := x |>) = attempt (c :: l) e.
Proof using Hexec. cbn. by rewrite execve_errno. Qed.

Lemma search_path_attempt file fuel : forall p e, (length p < fuel)%nat ->
  search_path fuel file p e = attempt (concat (map (in_dir file) (entries p))) (e <| errno := ENOENT |>).
Proof using Hexec.
  induction fuel as [|k IH]; intros p e Hk; [lia|]. cbn [search_path]. pose proof (path_entry_entries p) as P.
  destruct (path_entry p) as [d r]. destruct P as [-> Hr]. cbn [map concat].
  assert (Hrest : forall e1, match r with None => Failed (e1 <| errno := ENOENT |>) | Some p => search_path k file p e1 end =
    attempt (concat (map (in_dir file) (match r with None => [] | Some r => entries r end))) (e1 <| errno := ENOENT |>)).
  { intros e1. destruct r as [r|]; [apply IH; lia|done]. }
  unfold in_dir at 1. set (dir := match d with [] => [46] | _ => d end).
  rewrite !length_app. cbn [length].
  replace (Z.of_nat (length dir) + 1 + Z.of_nat (length file) + 4 + 1 <=? BUF)
    with (Z.of_nat (length dir + (1 + length file)) + 4 + 1 <=? BUF) by (f_equal; lia).
  destruct (_ <=? BUF); [|apply Hrest].
  rewrite exec_forms_attempt, attempt_app by done. unfold forms at 2. rewrite attempt_errno. fold (forms (dir ++ [47] ++ file)).
  destruct (attempt (forms (dir ++ [47] ++ file)) e) as [w|e1]; [done|].
  destruct (Z.eqb_spec (errno e1) ENOENT) as [E|E]; cbn [negb]; [|done]. rewrite Hrest. f_equal. destruct e1. cbn in E. by subst.
Qed.

(** C40: execvp tries exactly the candidate names, in order: a name with a slash
    as it is, another one in each directory of PATH (the current one for an
    empty entry, /bin when PATH is unset or empty), each time the exact name,
    then with .mzx, then with .mzb; it stops at the first that can be executed
    or fails otherwise than with ENOENT, and reports ENOENT when none is left.
    Every name built in the buffer fits it with its NUL. *)
Theorem execvp_candidates file path e : file <> [] ->
  execvp (Some file) path e = attempt (candidates file path) (e <| errno := ENOENT |>) /\
  Forall (fun c => c = file \/ Z.of_nat (length c) + 1 <= BUF) (candidates file path).
Proof using Hexec.
  intros Hf. split.
  - unfold execvp, candidates, path_has_slash. destruct file as [|c file]; [done|].
    destruct (bool_decide (47 ∈ c :: file)).
    + destruct (_ <=? BUF); [rewrite exec_forms_attempt; unfold forms; by rewrite attempt_errno|].
      cbn. rewrite execve_errno. destruct (execve (c :: file) e) as [|e1]; [done|]. by case_match.
    + apply search_path_attempt. lia.
  - assert (Hforms : forall b, Z.of_nat (length b) + 4 + 1 <= BUF -> Forall (fun c => c = file \/ Z.of_nat (length c) + 1 <= BUF) (forms b)).
    { intros b Hb. unfold forms, exts. cbn [map].
      do 3 (constructor; [right; rewrite ?length_app; cbn [length]; lia|]). constructor. }
    unfold candidates. destruct (bool_decide _).
    + destruct (Z.leb_spec (Z.of_nat (length file) + 4 + 1) BUF); [by apply Hforms|]. constructor; [by left|constructor].
    + apply Forall_concat, Forall_map, Forall_forall. intros d _. cbn. unfold in_dir.
      destruct (Z.leb_spec (Z.of_nat (length (match d with [] => [46] | _ => d end ++ [47] ++ file)) + 4 + 1) BUF); [by apply Hforms|constructor].
Qed.
End Search.

(** ** F_DUPFD *)

(** What fcntl relies on: dup gives the lowest free descriptor or fails,
    close frees one; [opened] is the set of open descriptors. *)
Class FdLaws {W : Type} `{Sys W} `{UnixSys W} (opened : W -> Z -> bool) : Prop := {
  dup_law fd_ w : let '(r, w') := sys_dup fd_ w in
    -4095 <= i64 r <= -1 /\ (forall i, opened w' i = opened w i) \/
    0 <= r < 2 ^ 31 /\ opened w r = false /\ (forall i, 0 <= i < r -> opened w i = true) /\
    (forall i, opened w' i = (i =? r) || opened w i);
  close_law fd_ w i : opened (sys_close fd_ w).2 i = negb (i =? fd_) && opened w i }.

Lemma elem_of_cons_ne (i h : Z) l : i <> h -> i ∈ h :: l <-> i ∈ l.
Proof. intros Hne. rewrite elem_of_cons. split; [by intros [?|?]|by right]. Qed.

Section Dupfd.
Context {W : Type} `{Sys W} `{UnixSys W} (opened : W -> Z -> bool) `{!FdLaws opened}.
Implicit Types e : env W.

Lemma syscall_ret_world r e : e_world (syscall_ret r e).2 = e_world e.
Proof. unfold syscall_ret. by case_match. Qed.
Lemma close_opened fd_ e i : opened (e_world (close fd_ e).2) i = negb (i =? fd_) && opened (e_world e) i.
Proof.
  unfold close. pose proof (close_law fd_ (e_world e) i) as L. destruct (sys_close fd_ (e_world e)) as [r w]. cbn in L.
  pose proof (syscall_ret_world r (e <| e_world := w |>)) as Ew. destruct (syscall_ret r _) as [n e1]. cbn in *. by rewrite Ew.
Qed.
Lemma close_held_opened held : forall e i,
  opened (e_world (close_held held e)) i = negb (bool_decide (i ∈ held)) && opened (e_world e) i.
Proof.
  induction held as [|h held IH]; intros e i; cbn [close_held]; [by rewrite bool_decide_eq_false_2 by apply not_elem_of_nil|].
  rewrite IH, close_opened. destruct (Z.eqb_spec i h) as [->|Hne]; cbn [negb andb].
  - rewrite andb_false_r, bool_decide_eq_true_2 by left. done.
  - f_equal. f_equal. apply bool_decide_ext. by rewrite elem_of_cons_ne.
Qed.

(** Below the floor the loop holds what dup gave it; nothing else changed. *)
Lemma dupfd_loop_spec fd_ minfd w0 fuel : forall held e, (length held + fuel = 65)%nat -> (length held <= 64)%nat ->
  (forall i, opened (e_world e) i = bool_decide (i ∈ held) || opened w0 i) ->
  (forall i, i ∈ held -> i < minfd /\ opened w0 i = false) ->
  let '(r, e') := dupfd_loop fuel fd_ minfd held e in
  r = -1 /\ (forall i, opened (e_world e') i = opened w0 i) \/
  Z.max 0 minfd <= r /\ opened w0 r = false /\ (forall i, Z.max 0 minfd <= i < r -> opened w0 i = true) /\
  (forall i, opened (e_world e') i = (i =? r) || opened w0 i).
Proof.
  induction fuel as [|k IH]; intros held e Hlen Hmax Hop Hheld; cbn [dupfd_loop]; [lia|].
  unfold dup. pose proof (dup_law fd_ (e_world e)) as L. destruct (sys_dup fd_ (e_world e)) as [r w].
  assert (Hback : forall e1, (forall i, opened (e_world e1) i = opened (e_world e) i) ->
    forall i, opened (e_world (close_held held e1)) i = opened w0 i).
  { intros e1 H1 i. rewrite close_held_opened, H1, Hop. destruct (bool_decide_reflect (i ∈ held)) as [Hi|Hi]; cbn; [|done].
    by destruct (Hheld i Hi) as [_ ->]. }
  destruct L as [[Hr Hw]|(Hr & Hfree & Hlow & Hw)].
  - destruct (syscall_ret_err r (e <| e_world := w |>) Hr) as (e1 & -> & He1). cbn in He1. change (i32 (-1)) with (-1). cbn match.
    change (-1 <? 0) with true. cbn match. left. split; [done|]. apply Hback. by rewrite He1.
  - rewrite syscall_ret_ok by lia. rewrite i32_small by lia. rewrite (proj2 (Z.ltb_ge _ _)) by lia.
    rewrite Hop in Hfree. apply orb_false_iff in Hfree as [Hnh Hf0]. apply bool_decide_eq_false in Hnh.
    destruct (Z.leb_spec minfd r) as [Hge|Hlt].
    + right. split; [lia|]. split; [done|]. split.
      * intros i Hi. specialize (Hlow i ltac:(lia)). rewrite Hop in Hlow. apply orb_true_iff in Hlow as [Hin|?]; [|done].
        apply bool_decide_eq_true in Hin. destruct (Hheld i Hin). lia.
      * intros i. rewrite close_held_opened. cbn. rewrite Hw, Hop. destruct (Z.eqb_spec i r) as [->|Hne]; cbn.
        { by rewrite bool_decide_eq_false_2. }
        destruct (bool_decide_reflect (i ∈ held)) as [Hi|Hi]; cbn; [|done]. by destruct (Hheld i Hi) as [_ ->].
    + destruct (Z.leb_spec 64 (Z.of_nat (length held))) as [Hfull|Hroom].
      * left. split; [done|]. apply Hback. intros i. cbn. rewrite close_opened. cbn. rewrite Hw.
        destruct (Z.eqb_spec i r) as [->|]; cbn; [|done]. rewrite Hop, Hf0, bool_decide_eq_false_2 by done. done.
      * apply (IH (r :: held)); [cbn; lia|cbn; lia| |].
        { intros i. cbn. rewrite Hw, Hop. destruct (Z.eqb_spec i r) as [->|Hne]; cbn.
          - by rewrite bool_decide_eq_true_2 by left.
          - f_equal. apply bool_decide_ext. by rewrite elem_of_cons_ne. }
        { intros i [->|Hi]%elem_of_cons; [done|by apply Hheld]. }
Qed.

(** fcntl with F_DUPFD returns the lowest free descriptor from the floor on and
    opens it; the descriptors it took below the floor are free again.  When it
    fails nothing has changed. *)
Theorem dupfd_lowest fd_ minfd e : - 2 ^ 31 <= minfd < 2 ^ 31 ->
  let '(r, e') := fcntl fd_ F_DUPFD minfd e in
  r = -1 /\ (forall i, opened (e_world e') i = opened (e_world e) i) \/
  Z.max 0 minfd <= r /\ opened (e_world e) r = false /\ (forall i, Z.max 0 minfd <= i < r -> opened (e_world e) i = true) /\
  (forall i, opened (e_world e') i = (i =? r) || opened (e_world e) i).
Proof.
  intros Hm. unfold fcntl. change (F_DUPFD =? F_DUPFD) with true. cbn match. rewrite i32_small by lia.
  apply (dupfd_loop_spec fd_ minfd (e_world e) 65 []); [done|cbn; lia| |].
  - intros i. by rewrite bool_decide_eq_false_2 by apply not_elem_of_nil.
  - by intros i ?%elem_of_nil.
Qed.
End Dupfd.

(** ** Time *)

(** The time of day is in range and is the second of the day. *)
Theorem localtime_in_range {W} `{UnixSys W} t (e : env W) : let r := (localtime (Some t) e).1 in
  0 <= tm_hour r < 24 /\ 0 <= tm_min r < 60 /\ 0 <= tm_sec r < 60 /\
  tm_hour r * 3600 + tm_min r * 60 + tm_sec r = t mod 86400.
Proof.
  cbn. assert (E : (if Z.rem t 86400 <? 0 then Z.rem t 86400 + 86400 else Z.rem t 86400) = t mod 86400).
  { pose proof (Z.quot_rem t 86400). pose proof (Z.div_mod t 86400). pose proof (Z.mod_pos_bound t 86400).
    pose proof (Z.rem_bound_abs t 86400). destruct (Z.ltb_spec (Z.rem t 86400) 0); nia. }
  rewrite E. set (d := t mod 86400). assert (Hd : 0 <= d < 86400) by (apply Z.mod_pos_bound; lia). clearbody d.
  assert (0 <= d / 60) by (apply Z.div_pos; lia).
  rewrite (Z.quot_div_nonneg d 60), (Z.quot_div_nonneg d 3600), (Z.rem_mod_nonneg d 60), (Z.rem_mod_nonneg (d / 60) 60) by lia.
  pose proof (Z.div_mod d 60). pose proof (Z.mod_pos_bound d 60). pose proof (Z.div_mod (d / 60) 60). pose proof (Z.mod_pos_bound (d / 60) 60).
  assert (d / 3600 = d / 60 / 60) by (rewrite Z.div_div by lia; done). pose proof (Z.div_pos d 3600). pose proof (Z.div_lt_upper_bound d 3600 24). lia.
Qed.

(** strftime touches no byte before the buffer or more than one behind it. *)
Section Bounds.
Variables (max : Z) (t : tm) (s0 : Z -> Z).
Definition within (x : Z * (Z -> Z)) : Prop := 0 <= x.1 <= max /\ forall i, i < 0 \/ max < i -> x.2 i = s0 i.

Lemma one_within c x : within x -> x.1 < max -> within (one c x).
Proof.
  intros [Hx Hs] Hlt. destruct x as [o s]. cbn in *. split; [cbn; lia|]. intros i Hi. cbn. unfold set_byte.
  rewrite (proj2 (Z.eqb_neq _ _)) by lia. auto.
Qed.
Lemma two_within v x : within x -> within (two max v x).
Proof.
  intros [Hx Hs]. destruct x as [o s]. cbn in *. unfold put2. destruct (Z.ltb_spec (max - o) 2); [done|]. split; [cbn; lia|].
  intros i Hi. cbn. unfold set_byte. rewrite !(proj2 (Z.eqb_neq _ _)) by lia. auto.
Qed.
Lemma colon_within x : within x -> within (colon max x).
Proof. intros Hx. unfold colon. destruct (Z.ltb_spec (x.1 + 1) max); [apply one_within; [done|lia]|done]. Qed.

Lemma one_fst c x : (one c x).1 = x.1 + 1.
Proof. by destruct x. Qed.

Lemma conversion_within c x : within x -> x.1 + 1 < max -> within (conversion max t c x).
Proof.
  intros Hx Hlt. unfold conversion.
  repeat match goal with |- within (if ?b then _ else _) => destruct b; [auto using two_within, colon_within|] end.
  all: auto 9 using two_within, colon_within.
  all: try (apply one_within; [done|lia]).
  - unfold year. destruct (Z.ltb_spec (x.1 + 4) max); [|done]. repeat (apply one_within; [|rewrite ?one_fst; lia]). done.
  - unfold other. destruct (Z.ltb_spec (x.1 + 2) max); [|done]. repeat (apply one_within; [|rewrite ?one_fst; lia]). done.
Qed.

Lemma end_within x : within x -> within (x.1, set_byte x.2 x.1 0).
Proof. intros [Hx Hs]. split; [done|]. intros i Hi. cbn. unfold set_byte. rewrite (proj2 (Z.eqb_neq _ _)) by lia. auto. Qed.

Lemma strftime_loop_within n : forall f x, (length f <= n)%nat -> within x -> within (strftime_loop max t f x).
Proof.
  induction n as [|n IH]; intros f x Hn Hx.
  - destruct f; [|cbn in Hn; lia]. by apply end_within.
  - destruct f as [|c f]; [by apply end_within|]. cbn [strftime_loop]. cbn in Hn.
    destruct (Z.leb_spec max (x.1 + 1)); [split; [cbn; destruct Hx; lia|apply Hx]|]. destruct (c =? 37); cbn [negb].
    + destruct f as [|c1 f]; [by apply end_within|]. cbn in Hn. apply IH; [lia|]. by apply conversion_within.
    + apply IH; [lia|]. apply one_within; [done|lia].
Qed.
End Bounds.

(** strftime writes nothing before the buffer and nothing from the second byte
    behind it on. *)
Theorem strftime_bounds s max f t : 0 <= max ->
  match strftime (Some s) max f t with
  | (n, Some s') => 0 <= n <= max /\ forall i, i < 0 \/ max < i -> s' i = s i
  | _ => False
  end.
Proof.
  intros Hm. unfold strftime. destruct (Z.eqb_spec max 0) as [->|]; [split; [lia|done]|].
  pose proof (strftime_loop_within max t s (length f) f (0, s) ltac:(lia)) as L.
  destruct (strftime_loop max t f (0, s)) as [cnt s']. apply L. split; [cbn; lia|done].
Qed.

(** One byte behind it can be written: the NUL after a field that filled the
    buffer. *)
Example strftime_overruns :
  let '(n, s) := strftime (Some (fun _ => 255)) 2 [37; 72] (broken_down 0) in
  n = 2 /\ (fun s => map s (seqZ 0 4)) <$> s = Some [48; 48; 0; 255].
Proof. split; vm_compute; reflexivity. Qed.
(** A field without room is left out, and the count of the rest is returned. *)
Example strftime_leaves_out :
  let '(n, s) := strftime (Some (fun _ => 255)) 5 [120; 37; 89] (broken_down 0) in
  n = 1 /\ (fun s => map s (seqZ 0 3)) <$> s = Some [120; 0; 255].
Proof. split; vm_compute; reflexivity. Qed.
(** %j is not a conversion. *)
Example strftime_day_of_year :
  (fun s => map s (seqZ 0 3)) <$> (strftime (Some (fun _ => 255)) 9 [37; 106] (broken_down 0)).2 = Some [37; 106; 0].
Proof. vm_compute. reflexivity. Qed.

(** ** Witnesses *)

(** Three mounts under two names. *)
Definition root_table : hostfs_table :=
  mk_table [mk_mount (cs "/proj/a") (cs "/srv/a") HOSTFS_RO 1; mk_mount (cs "/home/me") (cs "/u") HOSTFS_RW 2;
            mk_mount (cs "/proj/b") (cs "/srv/b") HOSTFS_RO 3] (cs "/home/me").
(** The demo host with its native listing, a root descriptor open. *)
#[local] Instance demo_unix : UnixSys (hostfs Z) := {
  sys_getdents64 := native_getdents root_table;
  sys_execve p w := (Some (u64 (-2)), w); sys_dup _ w := (u64 (-9), w);
  sys_fstat _ w := (u64 (-9), [], w); sys_clock_ms w := (0, w) }.
Definition demo_root : hostfs Z := mk_hostfs [mk_slot true true false 0 [] None 0] 0.

(** Programs by their full name: the log is what was tried. *)
#[local] Instance exec_unix : UnixSys (list (list Z)) := {
  sys_getdents64 _ _ w := (0, [], w);
  sys_execve p w := ((if bool_decide (p = cs "/b/ls.mzx") then None else Some (u64 (- ENOENT))), w ++ [p]); sys_dup _ w := (u64 (-9), w);
  sys_fstat _ w := (u64 (-9), [], w); sys_clock_ms w := (0, w) }.
Lemma execvp_candidates_witness :
  execvp (Some (cs "ls")) (Some (cs "/a:/b")) (mk_env [] 0) =
    Replaced [cs "/a/ls"; cs "/a/ls.mzx"; cs "/a/ls.mzb"; cs "/b/ls"; cs "/b/ls.mzx"] /\
  Forall (fun c => c = cs "ls" \/ Z.of_nat (length c) + 1 <= BUF) (candidates (cs "ls") (Some (cs "/a:/b"))).
Proof.
  destruct (execvp_candidates (W := list (list Z))) with (file := cs "ls") (path := Some (cs "/a:/b")) (e := mk_env (@nil (list Z)) 0) as [E F].
  - intros p w r w'. cbn. case_bool_decide; [done|]. intros [= <- _]. vm_compute. done.
  - done.
  - split; [rewrite E; vm_compute; reflexivity|exact F].
Defined.
